(* ===== verification/_CoqProject ===== *)
-Q . S2P
Prelude.v
Walk.v
Float64.v
Json.v
Types.v
TaskGraph.v
Process.v
DeadLetter.v
RetryPolicy.v
ResourceBudget.v
ApprovalGate.v
RateLimiter.v
ResultAggregator.v
Ets.v
Scheduler.v
SchedFacts.v
SchedWake.v
SchedSample.v
SchedTerm.v
SchedMonitor.v
AgentWorker.v
Supervision.v
FileSystem.v
DurableMailbox.v
Dets.v
Checkpoint.v
Pruner.v
Release.v
HotCode.v
Behaviors.v
Bridge.v
Cluster.v
ClusterFacts.v
Orchestration.v
Decomposition.v
McpServer.v
McpFacts.v
McpHttp.v
Daemon.v
Swarm.v
BeamTerm.v
BeamMem.v
BeamBinary.v
BeamCompare.v
BeamMap.v
BeamHeap.v
BeamProc.v
BeamOps.v
BeamFacts.v
BeamCopy.v
BeamSched.v
BeamReader.v
BeamCte.v
BeamEtf.v
BeamBits.v
BeamBitOps.v
BeamMatch.v
BeamBitFacts.v
BeamPattern.v
BeamUtf8.v
BeamBitKeeps.v
BeamBitCopy.v
BeamFile.v
BeamLoad.v
BeamLink.v
BeamModule.v
BeamNative.v
BeamListFuns.v
BeamListFacts.v
BeamMapFuns.v
BeamMapOps.v
BeamSettled.v
BeamCode.v
BeamCodeFacts.v
BeamCall.v
BeamBifs.v
BeamBifFacts.v
BeamCallFacts.v
BeamMain.v
BeamDispatch.v
