(* ===== verification/Prelude.v ===== *)
(** * A verification of the zeptobeam runtime

    zeptobeam is an Erlang-style runtime in Rust.  [src/lib-erlangrt] holds two layers: the
    agent runtime ([agent_rt/]: processes with mailboxes, links and monitors, supervision,
    durable storage, an I/O bridge, and an orchestrator that drives tasks with them), and an
    emulator of BEAM bytecode ([beam/], [term/], [emulator/], [native_fun/]).  This
    development models both, and the core of the daemon in [src/zeptobeam], file by file, as
    executable functions, and proves what makes each part correct.

    ** How the parts interact

    A scheduler owns the registry of processes.  [tick] drains the bridge, fires receive
    timeouts, picks a process by priority, and runs its behavior on its messages; the
    behavior answers with an action (send, spawn, ask for I/O, stop).  A death cascades
    over links, is announced to monitors, and runs exit handlers, among them those of
    supervisors, which restart children.  I/O requests go through the bridge to worker
    tasks and come back as messages.  The orchestrator is a behavior: it keeps a task graph,
    asks for one worker process per ready task, retries or cascades failures, asks for
    approvals, and saves checkpoints; a goal without tasks is first decomposed by a language
    model, whose reply is searched for a list of tasks.  The agent worker is the behavior of a
    configured agent.  A cluster puts several schedulers side by side, each with processes of
    its own, and carries messages between them after every round.  Mailboxes, tables, releases
    and checkpoints are made durable with a few file-system idioms; old checkpoints are pruned.
    Clients act on a scheduler through the tools of the Model Context Protocol, over lines of
    standard input or over HTTP, after they opened a session.  The daemon runs agents as
    processes of an outside runtime, zeptovm: it starts those of its configuration, reloads
    them when that changes, lets them share one bridge, and runs swarms of them.

    The emulator is separate.  Its machine holds a scheduler of its own and a table of
    processes; each process has registers, a mailbox and one block of words with its heap
    and its stack.  [dispatch] takes a process from the run queues and executes its
    instructions on tagged words until its reductions are spent, it waits, or it fails; a
    failure unwinds its stack to a catch.  Sending copies a term to the receiver's heap.

    ** Which file models what

    Prelude, Walk, Float64: results, machine integers, vectors, hash maps whose iteration
    order is a parameter, walks of a relation, IEEE doubles.  Json: [serde_json::Value]
    as the class JsonLib with its laws, and a concrete tree type.  Types: [types.rs],
    [error.rs].
    TaskGraph: [task_graph.rs].  Process: [process.rs], [registry.rs].  DeadLetter:
    [dead_letter.rs], [observability.rs].  RetryPolicy, ResourceBudget, ApprovalGate,
    RateLimiter, ResultAggregator, Ets: the files of these names.
    Scheduler: [scheduler.rs], with the bridge, the send hook, the exit handlers, the
    behaviors and the clock as classes; its theorems are in SchedFacts, SchedWake,
    SchedTerm, SchedMonitor (and SchedSample, a scheduler that computes).  Supervision:
    [supervision.rs], an instance of the exit-handler class.  Bridge: [bridge.rs],
    [bridge_metrics.rs], an instance of the bridge class.  Behaviors: [behaviors.rs].
    FileSystem: the part of [std::fs] and [std::io] that the durable parts use, with a
    schedule of faults and crashes, a monad of operations and its weakest preconditions.
    DurableMailbox, Dets, Checkpoint, Release: the files of these names over it.  Pruner:
    [pruner.rs] and [prune_before].  HotCode: [hot_code.rs].  Orchestration:
    [orchestration.rs], an instance of the behavior class, over the checkpoint-store class.
    Decomposition: [decomposition.rs] and the bridge operation that uses it.  AgentWorker:
    [agent_worker.rs], another instance of the behavior class, and [startup.rs].  Cluster:
    [cluster.rs], over the scheduler and a class for the pool of bridge workers; ClusterFacts:
    who owns which process, and which messages arrive.
    McpServer: [mcp_types.rs], [mcp_jsonrpc.rs], [mcp_server.rs] and [mcp_stdio.rs];
    McpFacts: who acts on the scheduler, and that lines are answered.  McpHttp: [server.rs],
    over the class of runtime operations, and its instance in [zeptobeam/src/main.rs].
    Daemon: [agent_adapter.rs], [config_loader.rs], [config_watcher.rs], [runtime_ops.rs] and
    [llm_bridge.rs] of [zeptobeam/src/], and the reloading of [main.rs].  Swarm: [swarm.rs].
    The emulator: BeamTerm: the tagged words of [term/value/].  BeamMem: boxed objects and
    cells by address, the outcomes of raw memory access, [classify.rs], [atom.rs].
    BeamBinary: binaries, slices of them and their readers ([defs/data_reader.rs],
    [term/boxed/binary/]).  BeamCompare: [term/compare.rs].  BeamMap: [term/boxed/map.rs].  BeamHeap:
    [emulator/heap/heap_incremental.rs].  BeamProc: [emulator/mailbox.rs],
    [runtime_ctx/mod.rs], [process.rs].  BeamOps: the files of [beam/opcodes/] for data,
    memory, execution, exceptions, messages, lists, tuples, type tests and predicates, and
    [beam/vm_loop.rs]; BeamFacts: what they keep.  BeamMapOps: [op_map.rs], [op_float.rs] and
    the records of [op_tuple.rs]; BeamSettled: that these and those on bits
    leave what the scheduler keeps of a process alone.  BeamCopy: [term/value/cons.rs],
    [list_builder.rs], [copy_term.rs].  BeamSched: [emulator/scheduler.rs],
    [process_registry.rs], [emulator/vm/mod.rs] and [send].
    From a file to a loaded module: BeamReader: [rt_util/bin_reader.rs] and [big.rs].
    BeamCte: [loader/compact_term.rs].  BeamEtf: [ext_term_format.rs].  BeamFile:
    [loader/beam_file.rs].  BeamLoad: the passes of [beam/loader/] and the loaded module of
    [emulator/module.rs], with the tables of [gen_op.rs]; BeamLink and BeamModule: what
    they establish.  Native functions: BeamNative: [native_fun/erlang/] on numbers, tuples,
    comparisons and errors, [arith/multiplication.rs].  BeamListFuns: [native_fun/macros.rs],
    [erlang/list.rs], [native_fun/lists/], [type_conversions.rs]; BeamListFacts: what those
    compute.  BeamMapFuns: [native_fun/maps/ops.rs].  BeamCode: [emulator/code_srv/] and
    the registry of natives; BeamCodeFacts: what lookups and loading establish.  BeamCall:
    the calls that leave the code of a module ([runtime_ctx/call_*.rs], [op_fun.rs],
    [op_native_fun.rs], external calls), funs, and the loop of the whole emulator over a
    class of natives.  BeamBifs: the natives on binaries and processes, all tables, and the
    functions of the tables as an instance of that class; BeamBifFacts, BeamCallFacts: what
    natives, calls and slices keep.  BeamMain: [lib_main.rs], the emulator from its start.
    BeamDispatch: [vm_dispatch.rs] and [opcodes/macros.rs], the table from the words of a module
    to the handlers, and a module that runs from the bytes of its file to its result.
    Bit syntax: BeamBinary: binaries, slices and [data_reader.rs]; BeamBits: [term/boxed/binary/],
    copying and pasting of bits; BeamBitOps: the instructions of [opcodes/binary/] that build
    binaries, BeamMatch: those that match; BeamBitFacts, BeamPattern, BeamUtf8, BeamBitKeeps
    and BeamBitCopy: what these compute and keep.

    ** What the theorems show

    Scheduling: no lost wakeup, idleness means quiescence, low priorities are served, a
    tick and a termination return, the cascade is exactly the linked component, monitors
    stay symmetric, deaths are announced, sends have their specified effect.  Supervision:
    the strategy's children are replaced, and restarts stay within their intensity.
    Bridge: over all interleavings of schedulers, workers and tasks, requests are answered
    once, slots are counted exactly, cancelling reaches everything under way.
    Orchestration: handlers return, workers stay within the concurrency limit, no worker
    before the dependencies of its task were reported, checkpoints resume; Kahn's algorithm
    decides cyclicity, failure cascades to exactly the dependents.  Durability: mailbox,
    table, checkpoint and release files are atomic under any faults and crash, and refine a
    queue or a map; pruning removes exactly the checkpoints older than its cutoff, until it
    fails.  Clusters: the table of owners is exact, and a message between partitions
    reaches the mailbox it is for when that has room.  Agents: every prompt is asked once or
    waits.  Decomposition: the tasks of a well-formed reply are those the orchestrator is
    given.  Clients: whatever was asked before, a request acts on the runtime only with a live
    session, behind a token only with the token, and by exactly the one operation it names;
    every line of standard input that is not blank is answered once.  Daemon: a reload leaves
    exactly the configured agents, restored agents have their conversation; the test for
    cycles of a swarm is exact, and a swarm that passes it runs every step once, after those
    it depends on.  The rest: access control and quotas of tables, rate limits, retries,
    approvals, votes, releases as transactions.
    Emulator: words have one reading; the comparison loop with its explicit stack computes
    the order of values, on the terms where it does; frames are private and calls come
    back; instructions keep the machine's bounds and never change a term that exists; a
    slice ends; a mailbox is a queue; a copy has the value of the original and shares
    nothing with it; queues, wait sets and table stay consistent in every reachable
    machine, normal processes take turns, exceptions reach their catch.
    Bit syntax: a row of commands of [bs_match] is a pattern over a sequence of bits, what
    was written as UTF-8 is read back, bits copied from one buffer to another stand there
    where the offsets are ones the code handles, and every instruction keeps sizes and
    positions within the binaries they belong to.
    Loading: compact terms, external terms and whole files are read back as what was
    encoded; a file whose chunks describe a module is loaded to that module, with every
    label, import and function of its code resolved.  Natives: arithmetic is exact up to
    the words it is defined for, functions on lists compute their functions on sequences,
    sort sorts, tuples and binaries go to lists and back.  Modules: a module that is missing is
    found, loaded and answers with the place of the function; lookups are stable; natives
    are found by their names in the tables.  The whole: from its start, whatever runs, the
    emulator keeps queues, processes and modules consistent; on the instructions of a
    module it is the machine above, so that what holds of the machine holds in it; on the
    words of a loaded module it executes exactly the instructions of the linked program.

    ** Conventions

    A w-bit integer is a [Z], with the wrap-around of the release profile written out;
    [Instant] and [Duration] are nanoseconds.  A handler with [&mut self] returns the new
    state next to its result.  Where Rust recurses or loops, the model takes fuel and
    answers [None] when it runs out, and a theorem bounds the fuel that is enough: the
    number of linked processes for [terminate_process] and [tick], the tasks ready for
    [next_or_finalize], a task per round for Kahn's algorithm, an edge per round for the
    cascade of failures.  In the emulator the answer is [Spin], and the fuel that is enough
    is 200 for a slice (the reductions it starts with), the nodes of a value for comparing
    and copying it, one more than its cells for walking a list, and 20 digits for a small integer.  A read of memory where there is no
    such object is [Wild], a failed assertion [Panic].  Values behind [Arc<Mutex<_>>] are threaded as a world.  What the
    sources only call (serde_json, tokio's runtime, the external agent library, the disk)
    is a class or a parameter with its documented laws; every property with such a
    hypothesis is instantiated concretely in a witness.

    ** What is not modelled

    Of the emulator: binaries above 64 bytes, reference-counted ones and the garbage collector,
    which the source leaves unimplemented; float literals, for which it has no decoder; the
    moving of processes in memory when their table grows; the atoms a reader leaves behind when
    it gives up a file (any table, [torn]).  The MCP client, the tool factory, the reading of
    configuration files, fault injection, SQLite checkpoints, the wiring of the daemon and the
    command-line tools are I/O around the parts above; the routing and framing of HTTP are the
    library's.  Tables of opcodes and atoms are generated.  The rendered metrics snapshot is
    left out, and what the bridge's workers answer is any result. *)
From stdpp Require Export base gmap strings list fin_maps pretty sorting.
From Stdlib Require Export ZArith Lia.
#[global] Open Scope Z_scope.
#[global] Open Scope list_scope.

(** * Results

    Rust's [Result<T, E>].  Handlers that take [&mut self] return the new state
    next to the result, so that what an early return leaves behind is visible. *)

Inductive result (A E : Type) : Type :=
| Ok (a : A)
| Err (e : E).
Arguments Ok {A E} a.
Arguments Err {A E} e.

(** What a callback wrapped in [catch_unwind] does: it returns, or it panics. *)
Inductive outcome (A : Type) : Type :=
| Returned (a : A)
| Panicked (msg : string).
Arguments Returned {A} a.
Arguments Panicked {A} msg.

#[export] Instance result_eq_dec {A E} `{EqDecision A, EqDecision E} :
  EqDecision (result A E).
Proof. solve_decision. Defined.

(** [Result::is_ok] and [Result::is_err]. *)
Definition is_ok {A E} (r : result A E) : bool :=
  match r with Ok _ => true | Err _ => false end.
Definition is_err {A E} (r : result A E) : bool := negb (is_ok r).

Definition ok_or {A E} (o : option A) (e : E) : result A E :=
  match o with Some a => Ok a | None => Err e end.

Declare Scope rust_scope.
Delimit Scope rust_scope with rust.

(** [let? x := r in k] is Rust's [let x = r?; k]. *)
Notation "'let?' x := r 'in' k" :=
  (match r with Ok x => k | Err e => Err e end)
  (at level 10, x pattern, r at level 100, k at level 200) : rust_scope.
#[global] Open Scope rust_scope.

(** * Machine integers

    A [w]-bit integer is the [Z] of its value.  [+=] is modelled as in the release
    profile, which has no overflow checks: it wraps. *)

Definition u32_max : Z := 2 ^ 32 - 1.
Definition u64_max : Z := 2 ^ 64 - 1.
Definition i32_max : Z := 2 ^ 31 - 1.

Definition wrap32 (z : Z) : Z := z mod 2 ^ 32.
Definition wrap64 (z : Z) : Z := z mod 2 ^ 64.

Definition is_u32 (z : Z) : Prop := 0 <= z <= u32_max.
Definition is_u64 (z : Z) : Prop := 0 <= z <= u64_max.

Definition sat_add64 (a b : Z) : Z := Z.min (a + b) u64_max.
Definition sat_mul64 (a b : Z) : Z := Z.min (a * b) u64_max.
Definition sat_pow64 (a n : Z) : Z := Z.min (a ^ n) u64_max.
(** [a - b] on [usize]: exact unless it underflows. *)
Definition usize_sub (a b : Z) : Z := if b <=? a then a - b else wrap64 (a - b).
Definition sat_sub (a b : Z) : Z := Z.max 0 (a - b).

(** A signed 32-bit reinterpretation of a [u32], the cast [x as i32]. *)
Definition as_i32 (z : Z) : Z := if z mod 2 ^ 32 <=? i32_max then z mod 2 ^ 32 else z mod 2 ^ 32 - 2 ^ 32.

Lemma wrap64_range z : is_u64 (wrap64 z).
Proof. unfold is_u64, wrap64, u64_max. pose proof (Z.mod_pos_bound z (2 ^ 64)). lia. Qed.

Lemma wrap32_range z : is_u32 (wrap32 z).
Proof. unfold is_u32, wrap32, u32_max. pose proof (Z.mod_pos_bound z (2 ^ 32)). lia. Qed.

Lemma wrap64_small z : is_u64 z -> wrap64 z = z.
Proof. unfold is_u64, wrap64, u64_max. intros. apply Z.mod_small. lia. Qed.

Lemma wrap32_small z : is_u32 z -> wrap32 z = z.
Proof. unfold is_u32, wrap32, u32_max. intros. apply Z.mod_small. lia. Qed.

Lemma sat_add64_range a b : is_u64 a -> is_u64 b -> is_u64 (sat_add64 a b).
Proof. unfold is_u64, sat_add64, u64_max. lia. Qed.

(** * Vectors

    [Vec]/[VecDeque] operations the program uses.  [push_back] is [l ++ [x]] and
    [pop_front] is the match on the list. *)

(** [iter().position(p)]. *)
Fixpoint position {A} (p : A -> bool) (l : list A) : option nat :=
  match l with
  | [] => None
  | x :: l => if p x then Some 0%nat else S <$> position p l
  end.

(** [Vec::remove(i)]: [None] where Rust panics. *)
Definition vec_remove {A} (i : nat) (l : list A) : option (A * list A) :=
  match l !! i with
  | Some x => Some (x, take i l ++ drop (S i) l)
  | None => None
  end.

(** [Vec::swap_remove(i)]: the last element takes the place of the removed one. *)
Definition swap_remove {A} (i : nat) (l : list A) : option (A * list A) :=
  match l !! i, last l with
  | Some x, Some y => Some (x, take (length l - 1) (<[i := y]> l))
  | _, _ => None
  end.

(** [Vec::insert(i, x)] for [i <= len]. *)
Definition vec_insert {A} (i : nat) (x : A) (l : list A) : list A :=
  take i l ++ x :: drop i l.

(** [Vec::retain]. *)
Definition retain {A} (p : A -> bool) (l : list A) : list A := List.filter p l.

Lemma retain_length {A} (p : A -> bool) l : (length (retain p l) <= length l)%nat.
Proof. unfold retain. induction l as [|x l IH]; simpl; [done|]. destruct (p x); simpl; lia. Qed.

Lemma elem_of_retain {A} (p : A -> bool) l x : x ∈ retain p l <-> p x = true /\ x ∈ l.
Proof. unfold retain. rewrite !list_elem_of_In, filter_In. tauto. Qed.

Lemma retain_id {A} (p : A -> bool) l : (forall x, x ∈ l -> p x = true) -> retain p l = l.
Proof.
  unfold retain. induction l as [|x l IH]; simpl; intros H; [done|].
  rewrite H by apply list_elem_of_here. f_equal. apply IH. intros y Hy. apply H. by right.
Qed.

Lemma retain_retain {A} (p q : A -> bool) l :
  (forall x, x ∈ l -> p x = true -> q x = true) -> retain p (retain q l) = retain p l.
Proof.
  unfold retain. induction l as [|x l IH]; intros Hpq; [done|]. cbn.
  assert (IH' : List.filter p (List.filter q l) = List.filter p l)
    by (apply IH; intros y Hy; apply Hpq; by right).
  destruct (q x) eqn:Hq; cbn; rewrite IH'; [done|]. destruct (p x) eqn:Hp; [|done].
  rewrite (Hpq x) in Hq; [done|by left|done].
Qed.

Lemma retain_app {A} (p : A -> bool) l k : retain p (l ++ k) = retain p l ++ retain p k.
Proof. apply List.filter_app. Qed.

Lemma position_Some {A} (p : A -> bool) l i :
  position p l = Some i -> exists x, l !! i = Some x /\ p x = true.
Proof.
  revert i. induction l as [|x l IH]; simpl; intros i Hi; [done|].
  destruct (p x) eqn:Hp; [by simplify_eq; eauto|].
  destruct (position p l); simpl in Hi; simplify_eq. destruct (IH n) as (y & ? & ?); eauto.
Qed.

Lemma position_None {A} (p : A -> bool) l :
  position p l = None <-> forall x, x ∈ l -> p x = false.
Proof.
  induction l as [|x l IH]; simpl.
  - split; [intros _ y Hy; by apply not_elem_of_nil in Hy | done].
  - destruct (p x) eqn:Hp.
    + split; [done|]. intros H. specialize (H x (list_elem_of_here _ _)). congruence.
    + rewrite fmap_None, IH. split.
      * intros H y [->|Hy]%elem_of_cons; auto.
      * intros H y Hy. apply H. by right.
Qed.

Lemma position_first {A} (p : A -> bool) l i j x :
  position p l = Some i -> (j < i)%nat -> l !! j = Some x -> p x = false.
Proof.
  revert i j. induction l as [|y l IH]; simpl; intros i j Hi Hj Hx; [done|].
  destruct (p y) eqn:Hp; simplify_eq; [lia|].
  destruct (position p l) as [k|]; simpl in *; simplify_eq.
  destruct j as [|j]; simpl in *; simplify_eq; [done|]. eapply IH; eauto. lia.
Qed.

Lemma tail_drop {A} n (l : list A) : tail (drop n l) = drop (S n) l.
Proof. revert l. induction n as [|n IH]; intros [|x l]; try done. apply IH. Qed.

Lemma vec_insert_length {A} i (x : A) l : length (vec_insert i x l) = S (length l).
Proof. unfold vec_insert. rewrite length_app. simpl. rewrite length_take, length_drop. lia. Qed.

Lemma vec_remove_insert {A} i (x y : A) l l' :
  vec_remove i l = Some (x, l') -> vec_insert i y l' = <[i := y]> l.
Proof.
  unfold vec_remove, vec_insert. intros H. destruct (l !! i) eqn:Hl; simplify_eq.
  apply lookup_lt_Some in Hl as Hlt.
  rewrite insert_take_drop by done.
  rewrite take_app_le by (rewrite length_take; lia). rewrite take_take, Nat.min_id.
  rewrite drop_app_ge by (rewrite length_take; lia).
  rewrite length_take, Nat.min_l by lia. by rewrite Nat.sub_diag.
Qed.

(** What every step of a fold leaves alone, the fold leaves alone. *)
Lemma foldl_frame {A X Y} (f : A -> Y) (g : A -> X -> A) (l : list X) (a : A) :
  (forall a x, f (g a x) = f a) -> f (foldl g a l) = f a.
Proof. intros Hg. revert a. induction l as [|x l IH]; intros a; [done|]. cbn. by rewrite IH, Hg. Qed.

(** * Hash maps

    [HashMap] iterates in an order that the program cannot rely on.  [hash_iter] is
    that order, a parameter of every function that walks a map: it lists the
    entries of the map, each once. *)

Class HashOrder : Type := {
  hash_iter : forall {K A} `{Countable K}, gmap K A -> list (K * A);
  hash_iter_perm : forall {K A} `{Countable K} (m : gmap K A), hash_iter m ≡ₚ map_to_list m
}.

Definition map_to_list_order : HashOrder :=
  {| hash_iter := fun K A _ _ m => map_to_list m;
     hash_iter_perm := fun K A _ _ m => reflexivity _ |}.

Section hash_order.
Context `{HO : HashOrder} {K A : Type} `{Countable K}.
Implicit Types m : gmap K A.

(** [keys()] and [values()]. *)
Definition hash_keys (m : gmap K A) : list K := (hash_iter m).*1.
Definition hash_values (m : gmap K A) : list A := (hash_iter m).*2.

Lemma elem_of_hash_iter m k x : (k, x) ∈ hash_iter m <-> m !! k = Some x.
Proof. by rewrite hash_iter_perm, elem_of_map_to_list. Qed.

Lemma NoDup_hash_keys m : NoDup (hash_keys m).
Proof. unfold hash_keys. rewrite hash_iter_perm. apply NoDup_fst_map_to_list. Qed.

Lemma elem_of_hash_keys m k : k ∈ hash_keys m <-> is_Some (m !! k).
Proof.
  unfold hash_keys. rewrite list_elem_of_fmap. split.
  - intros ([k' x] & -> & Hx). apply elem_of_hash_iter in Hx. eauto.
  - intros [x Hx]. exists (k, x). by rewrite elem_of_hash_iter.
Qed.

Lemma elem_of_hash_values m x : x ∈ hash_values m <-> exists k, m !! k = Some x.
Proof.
  unfold hash_values. rewrite list_elem_of_fmap. split.
  - intros ([k x'] & -> & Hx). apply elem_of_hash_iter in Hx. eauto.
  - intros [k Hx]. exists (k, x). by rewrite elem_of_hash_iter.
Qed.

Lemma hash_keys_length m : length (hash_keys m) = size m.
Proof. unfold hash_keys. by rewrite length_fmap, hash_iter_perm, length_map_to_list. Qed.
End hash_order.

(** * Maps *)

Lemma size_delete_lt {K A} `{Countable K} (m : gmap K A) k x :
  m !! k = Some x -> (size (delete k m) < size m)%nat.
Proof.
  intros Hk. rewrite map_size_delete. rewrite Hk.
  assert (size m <> 0%nat); [|lia].
  intros Hz%map_size_empty_inv. by simplify_map_eq.
Qed.

Lemma size_union_le {A} `{Countable A} (X Y : gset A) : (size (X ∪ Y) <= size X + size Y)%nat.
Proof. rewrite size_union_alt. assert (size (Y ∖ X) <= size Y)%nat by (apply subseteq_size; set_solver). lia. Qed.

(** * Tactics *)

(** Case analysis on every match of the goal, with the resulting equations used. *)
Ltac case_all := repeat (case_match; simplify_eq/=).

(** Boolean comparisons on [Z] and [nat] become propositions, then [lia]. *)
Ltac zify_bool :=
  repeat match goal with
  | H : (_ <=? _) = true |- _ => apply Z.leb_le in H
  | H : (_ <=? _) = false |- _ => apply Z.leb_gt in H
  | H : (_ <? _) = true |- _ => apply Z.ltb_lt in H
  | H : (_ <? _) = false |- _ => apply Z.ltb_ge in H
  | H : (_ =? _) = true |- _ => apply Z.eqb_eq in H
  | H : (_ =? _) = false |- _ => apply Z.eqb_neq in H
  | H : (_ <=? _)%nat = true |- _ => apply Nat.leb_le in H
  | H : (_ <=? _)%nat = false |- _ => apply Nat.leb_gt in H
  | H : (_ <? _)%nat = true |- _ => apply Nat.ltb_lt in H
  | H : (_ <? _)%nat = false |- _ => apply Nat.ltb_ge in H
  | H : bool_decide _ = true |- _ => apply bool_decide_eq_true in H
  | H : bool_decide _ = false |- _ => apply bool_decide_eq_false in H
  end.

Create HintDb zbeam.
#[export] Hint Resolve wrap64_range wrap32_range sat_add64_range : zbeam.
