(* ===== verification/Walk.v ===== *)
(** Finite walks and cycles of a relation, for the dependency graph and the link
    graph. *)
From S2P Require Import Prelude.

Section walk.
Context {A : Type} `{EqDecision A} (R : relation A).

(** [walk x l]: [l] lists a walk that leaves [x]. *)
Fixpoint walk (x : A) (l : list A) : Prop :=
  match l with [] => True | y :: l => R x y /\ walk y l end.

Lemma walk_tc x l y : walk x l -> y ∈ l -> tc R x y.
Proof.
  revert x. induction l as [|z l IH]; simpl; intros x Hw Hy; [by apply not_elem_of_nil in Hy|].
  destruct Hw as [Hxz Hw]. apply elem_of_cons in Hy as [->|Hy]; [by apply tc_once|].
  eapply tc_l; eauto.
Qed.

Lemma walk_repeat_cycle x l : walk x l -> ~ NoDup (x :: l) -> exists z, z ∈ x :: l /\ tc R z z.
Proof.
  revert x. induction l as [|y l IH]; intros x Hw Hnd.
  - destruct Hnd. apply NoDup_singleton.
  - destruct (decide (x ∈ y :: l)) as [Hx|Hx].
    + exists x. split; [left | by eapply walk_tc].
    + destruct Hw as [_ Hw]. destruct (IH y Hw) as (z & Hz & ?).
      * intros Hnd'. apply Hnd. by constructor.
      * exists z. split; [by right | done].
Qed.

(** In a finite set where every element has a successor there is a cycle. *)
Lemma no_sink_cycle (l : list A) x0 :
  x0 ∈ l -> (forall x, x ∈ l -> exists y, y ∈ l /\ R x y) -> exists z, z ∈ l /\ tc R z z.
Proof.
  intros Hx0 Hsucc.
  assert (Hlong : forall k x, x ∈ l -> exists w, length w = k /\ walk x w /\ x :: w ⊆ l).
  { induction k as [|k IH]; intros x Hx.
    - exists []. split_and!; [done..|]. intros y ->%list_elem_of_singleton. done.
    - destruct (Hsucc x Hx) as (y & Hy & Hxy). destruct (IH y Hy) as (w & Hk & Hw & Hsub).
      exists (y :: w). simpl. split_and!; [lia | done | done |].
      intros z [->|Hz]%elem_of_cons; auto. }
  destruct (Hlong (length l) x0 Hx0) as (w & Hk & Hw & Hsub).
  destruct (walk_repeat_cycle x0 w Hw) as (z & Hz & Htc).
  - intros Hnd. pose proof (submseteq_length _ _ (NoDup_submseteq _ _ Hnd Hsub)).
    simpl in *. lia.
  - exists z. eauto.
Qed.
End walk.
