(* ===== verification/Float64.v ===== *)
(** Rust's [f64] as the binary64 numbers of [SpecFloat]: the IEEE operations the
    runtime uses, computed on sign, mantissa and exponent. *)
From S2P Require Import Prelude.
From Stdlib Require Export SpecFloat.

Abbreviation f64 := spec_float.

Definition f64_prec : Z := 53.
Definition f64_emax : Z := 1024.

(** The nearest binary64 number to an integer: the cast [n as f64]. *)
Definition f64_of_Z (n : Z) : f64 := binary_normalize f64_prec f64_emax n 0 false.

Definition f64_zero : f64 := S754_zero false.
Definition f64_add : f64 -> f64 -> f64 := SFadd f64_prec f64_emax.
Definition f64_mul : f64 -> f64 -> f64 := SFmul f64_prec f64_emax.
Definition f64_div : f64 -> f64 -> f64 := SFdiv f64_prec f64_emax.

(** [a >= b]: false when either is NaN. *)
Definition f64_geb (a b : f64) : bool := SFleb b a.

(** [f64::min]: a NaN argument is ignored. *)
Definition f64_min (a b : f64) : f64 :=
  match a, b with
  | S754_nan, _ => b
  | _, S754_nan => a
  | _, _ => if SFltb b a then b else a
  end.

(** The saturating cast [x as u64]: truncation towards zero, NaN to zero. *)
Definition f64_to_u64 (x : f64) : Z :=
  match x with
  | S754_zero _ | S754_nan => 0
  | S754_infinity s => if s then 0 else u64_max
  | S754_finite true _ _ => 0
  | S754_finite false m e => Z.min u64_max (if 0 <=? e then Z.pos m * 2 ^ e else Z.pos m / 2 ^ (- e))
  end.

Lemma f64_to_u64_range x : is_u64 (f64_to_u64 x).
Proof.
  unfold is_u64. assert (Hm : 0 <= u64_max) by (by vm_compute).
  destruct x as [s|s| |[] m e]; cbn; [lia | destruct s; lia | lia | lia |].
  split; [|lia]. apply Z.min_glb; [done|]. case_match; zify_bool.
  - pose proof (Z.pow_nonneg 2 e). nia.
  - apply Z.div_pos; [lia|]. apply Z.pow_pos_nonneg; lia.
Qed.

#[export] Instance f64_eq_dec : EqDecision f64.
Proof. solve_decision. Defined.

(** The literal [1000.0]. *)
Example f64_of_Z_1000 : f64_of_Z 1000 = S754_finite false 8796093022208000 (-43).
Proof. reflexivity. Qed.
