(* ===== verification/Json.v ===== *)
(** The interface to [serde_json].

    The runtime treats [serde_json::Value] as an opaque value it inspects through
    [get]/[as_str]/[as_u64]/... and builds with [json!].  The library is not part of
    the repository, so a value type is a parameter: [JsonLib] lists the operations
    the program calls, [JsonLaws] the documented equations it relies on.
    [Module JTree] is a concrete instance, the one the witnesses compute with. *)
From S2P Require Import Prelude Float64.

Class JsonLib (V : Type) : Type := {
  json_eq_dec :: EqDecision V;
  jas_str : V -> option string;                   (* Value::as_str *)
  jas_u64 : V -> option Z;                        (* Value::as_u64 *)
  jas_bool : V -> option bool;                    (* Value::as_bool *)
  jas_array : V -> option (list V);               (* Value::as_array *)
  jas_object : V -> option (gmap string V);       (* Value::as_object *)
  jnull : V;
  jbool : bool -> V;
  jnum : Z -> V;                                  (* an integer *)
  jfloat : f64 -> V;                              (* an f64 *)
  jstr : string -> V;
  jarr : list V -> V;
  jobj : gmap string V -> V;
  jto_string : V -> string                        (* Display: compact JSON text *)
}.

(** [Value::get(key)] with a string key: [None] on anything but an object. *)
Definition jget {V} `{JsonLib V} (v : V) (key : string) : option V :=
  m ← jas_object v; m !! key.

(** [v.get(key).and_then(|v| v.as_str())] and the like. *)
Definition jget_str {V} `{JsonLib V} (v : V) (key : string) : option string :=
  x ← jget v key; jas_str x.
Definition jget_u64 {V} `{JsonLib V} (v : V) (key : string) : option Z :=
  x ← jget v key; jas_u64 x.
Definition jget_bool {V} `{JsonLib V} (v : V) (key : string) : option bool :=
  x ← jget v key; jas_bool x.
Definition jget_array {V} `{JsonLib V} (v : V) (key : string) : option (list V) :=
  x ← jget v key; jas_array x.

(** [json!({ "k": v, ... })]. *)
Definition json_object {V} `{JsonLib V} (kvs : list (string * V)) : V :=
  jobj (list_to_map kvs).

(** [json!(x)] for an [Option<T>]: [None] is [null]. *)
Definition json_option {V A} `{JsonLib V} (f : A -> V) (o : option A) : V :=
  match o with Some a => f a | None => jnull end.

Class JsonLaws (V : Type) `{JsonLib V} : Prop := {
  jas_str_str s : jas_str (jstr s) = Some s;
  jas_u64_num n : is_u64 n -> jas_u64 (jnum n) = Some n;
  jas_bool_bool b : jas_bool (jbool b) = Some b;
  jas_array_arr l : jas_array (jarr l) = Some l;
  jas_object_obj m : jas_object (jobj m) = Some m
}.

Section laws.
Context {V : Type} `{JsonLaws V}.

Lemma jget_obj m k : jget (jobj m) k = m !! k.
Proof. unfold jget. by rewrite jas_object_obj. Qed.

Lemma jget_object kvs k : jget (json_object kvs) k = (list_to_map kvs : gmap string V) !! k.
Proof. apply jget_obj. Qed.

Lemma jget_cons_eq k v kvs : jget (json_object ((k, v) :: kvs)) k = Some v.
Proof. rewrite jget_object. cbn. by rewrite lookup_insert_eq. Qed.

Lemma jget_cons_ne k v kvs k' : k <> k' -> jget (json_object ((k, v) :: kvs)) k' = jget (json_object kvs) k'.
Proof. intros Hne. rewrite !jget_object. cbn. by rewrite lookup_insert_ne. Qed.

Lemma jget_nil k : jget (json_object []) k = None.
Proof. rewrite jget_object. apply lookup_empty. Qed.
End laws.

(** Reads a field of a [json!] object. *)
Ltac json_get :=
  unfold jget_str, jget_u64, jget_bool, jget_array;
  repeat first [rewrite jget_cons_eq | rewrite jget_cons_ne by done | rewrite jget_nil];
  cbn [mbind option_bind];
  rewrite ?jas_str_str, ?jas_bool_bool, ?jas_array_arr, ?jas_object_obj.

(** * A concrete value type *)

Module JTree.
Inductive t : Type :=
| Null
| Bool (b : bool)
| Num (z : Z)
| Flt (x : f64)
| Str (s : string)
| Arr (l : list t)
| Obj (l : list (string * t)).

#[export] Instance t_eq_dec : EqDecision t.
Proof.
  refine (fix go (x y : t) : Decision (x = y) :=
    match x, y with
    | Null, Null => left eq_refl
    | Bool b, Bool b' => cast_if (decide (b = b'))
    | Num z, Num z' => cast_if (decide (z = z'))
    | Flt x, Flt x' => cast_if (decide (x = x'))
    | Str s, Str s' => cast_if (decide (s = s'))
    | Arr l, Arr l' =>
        cast_if ((fix gol (l l' : list t) : Decision (l = l') :=
          match l, l' with
          | [], [] => left eq_refl
          | x :: l, x' :: l' => cast_if_and (go x x') (gol l l')
          | _, _ => right _
          end) l l')
    | Obj l, Obj l' =>
        cast_if ((fix gol (l l' : list (string * t)) : Decision (l = l') :=
          match l, l' with
          | [], [] => left eq_refl
          | (k, x) :: l, (k', x') :: l' =>
              cast_if_and3 (decide (k = k')) (go x x') (gol l l')
          | _, _ => right _
          end) l l')
    | _, _ => right _
    end); clear go; try clear gol; abstract congruence.
Defined.

(** The double quote character. *)
Definition dquote : string := String (Ascii.ascii_of_nat 34) EmptyString.

(** Compact text; strings are quoted without escapes, floats are not rendered. *)
Fixpoint to_string (v : t) : string :=
  match v with
  | Null => "null"
  | Bool true => "true"
  | Bool false => "false"
  | Num z => pretty z
  | Flt _ => "float"
  | Str s => dquote +:+ s +:+ dquote
  | Arr l => "[" +:+ String.concat "," (to_string <$> l) +:+ "]"
  | Obj l =>
      "{" +:+ String.concat "," ((fun '(k, x) => dquote +:+ k +:+ dquote +:+ ":" +:+ to_string x) <$> l) +:+ "}"
  end.

#[global] Instance lib : JsonLib t := {
  jas_str v := match v with Str s => Some s | _ => None end;
  jas_u64 v := match v with Num z => if bool_decide (0 <= z <= u64_max) then Some z else None | _ => None end;
  jas_bool v := match v with Bool b => Some b | _ => None end;
  jas_array v := match v with Arr l => Some l | _ => None end;
  jas_object v := match v with Obj l => Some (list_to_map l) | _ => None end;
  jnull := Null;
  jbool := Bool;
  jnum := Num;
  jfloat := Flt;
  jstr := Str;
  jarr := Arr;
  jobj m := Obj (map_to_list m);
  jto_string := to_string
}.

#[global] Instance laws : JsonLaws t.
Proof.
  split; try done.
  - intros n Hn. simpl. by rewrite bool_decide_eq_true_2.
  - intros m. simpl. by rewrite list_to_map_to_list.
Qed.
End JTree.
