(* ===== verification/Types.v ===== *)
(** The shared vocabulary of the runtime ([agent_rt/types.rs]): identifiers,
    messages, actions, I/O operations, and the [AgentBehavior] trait. *)
From S2P Require Import Prelude.

(** An [AgentPid] and a [MonitorRef] are newtypes over [u64]. *)
Abbreviation AgentPid := Z (only parsing).
Abbreviation MonitorRef := Z (only parsing).

(** Initial values of the two process-wide counters. *)
Definition NEXT_AGENT_PID : Z := 2147483648.   (* 0x8000_0000 *)
Definition NEXT_MONITOR_REF : Z := 1.

(** [AtomicU64::fetch_add(1)]: the old value, and the counter one further. *)
Definition fetch_add1 (counter : Z) : Z * Z := (counter, wrap64 (counter + 1)).

Definition show_pid (p : AgentPid) : string := "AgentPid(" +:+ pretty p +:+ ")".

Inductive Reason : Type :=
| Normal
| Shutdown
| CustomReason (s : string).

#[export] Instance Reason_eq_dec : EqDecision Reason.
Proof. solve_decision. Defined.

(** [matches!(reason, Reason::Normal)]. *)
Definition is_normal (r : Reason) : bool := match r with Normal => true | _ => false end.

(** The structured errors of the runtime ([agent_rt/error.rs]); the payload is the
    message, also where Rust wraps an [io::Error] or a [serde_json::Error]. *)
Inductive AgentRtError : Type :=
| EConfig (msg : string)
| ECheckpoint (msg : string)
| ECheckpointIo (msg : string)
| ESerialization (msg : string)
| EBridge (msg : string)
| EServer (msg : string)
| EShutdown (msg : string)
| EEts (msg : string)
| EDurableMailbox (msg : string)
| EHotCode (msg : string)
| ERelease (msg : string).

#[export] Instance AgentRtError_eq_dec : EqDecision AgentRtError.
Proof. solve_decision. Defined.

(** Duration and [Instant] are nanoseconds. *)
Abbreviation Instant := Z (only parsing).
Abbreviation Duration := Z (only parsing).

Section messages.
Context (V B : Type).

Inductive IoResult : Type :=
| IoOk (v : V)
| IoError (e : string)
| IoTimeout.

Inductive SystemMsg : Type :=
| Exit (from : Z) (reason : Reason)
| IoResponse (correlation_id : Z) (res : IoResult)
| SpawnResult (child_pid : Z) (monitor_ref : option Z)
| Down (monitor_ref : Z) (pid : Z) (reason : Reason)
| ReceiveTimeout.

Inductive Message : Type :=
| Text (s : string)
| Json (v : V)
| System (m : SystemMsg).

Inductive IoOp : Type :=
| HttpRequest (method url : string) (headers : gmap string string)
    (body : option (list Byte.byte)) (timeout_ms : option Z)
| Timer (duration : Duration)
| Custom (kind : string) (payload : V)
| AgentChat (provider : string) (model system_prompt : option string) (prompt : string)
    (tools : option (list string)) (max_iterations timeout_ms : option Z)
| AgentDestroy (target_pid : AgentPid).

Inductive Action : Type :=
| Continue
| Send (to : AgentPid) (msg : Message)
| IoRequest (op : IoOp)
| Spawn (behavior : B) (args : V) (link monitor : bool)
| Stop (reason : Reason).
End messages.

Arguments IoOk {V} v.
Arguments IoError {V} e.
Arguments IoTimeout {V}.
Arguments Exit {V} from reason.
Arguments IoResponse {V} correlation_id res.
Arguments SpawnResult {V} child_pid monitor_ref.
Arguments Down {V} monitor_ref pid reason.
Arguments ReceiveTimeout {V}.
Arguments Text {V} s.
Arguments Json {V} v.
Arguments System {V} m.
Arguments HttpRequest {V} method url headers body timeout_ms.
Arguments Timer {V} duration.
Arguments Custom {V} kind payload.
Arguments AgentChat {V} provider model system_prompt prompt tools max_iterations timeout_ms.
Arguments AgentDestroy {V} target_pid.
Arguments Continue {V B}.
Arguments Send {V B} to msg.
Arguments IoRequest {V B} op.
Arguments Spawn {V B} behavior args link monitor.
Arguments Stop {V B} reason.

(** The trait objects [Arc<dyn AgentBehavior>] (the type [B]) and
    [Box<dyn AgentState>] (the type [S]).  The callbacks take [&self], and a
    behavior may own shared cells (a checkpoint store, an approval registry), so
    they thread a world [W].  Message callbacks may panic; [init] may fail. *)
Class AgentBehavior (V B S W : Type) : Type := {
  b_init : B -> V -> W -> result S Reason * W;
  b_handle_message : B -> Message V -> S -> W -> outcome (Action V B * S) * W;
  b_handle_exit : B -> AgentPid -> Reason -> S -> W -> outcome (Action V B * S) * W;
  b_terminate : B -> Reason -> S -> W -> W
}.
