(* ===== verification/TaskGraph.v ===== *)
(** The DAG of orchestration tasks ([agent_rt/task_graph.rs]): insertion with cycle
    detection (Kahn's algorithm), promotion of ready tasks, cascading failure. *)
From S2P Require Import Prelude Walk Json.

Inductive TaskStatus : Type :=
| Pending
| Ready
| AwaitingApproval
| Running
| Completed
| Failed
| Skipped.

#[export] Instance TaskStatus_eq_dec : EqDecision TaskStatus.
Proof. solve_decision. Defined.

Record TaskNode (V : Type) : Type := mkTaskNode {
  tn_task : V;
  tn_depends_on : list string;
  tn_status : TaskStatus
}.
Arguments mkTaskNode {V} tn_task tn_depends_on tn_status.
Arguments tn_task {V} t.
Arguments tn_depends_on {V} t.
Arguments tn_status {V} t.

Record TaskGraph (V : Type) : Type := mkTaskGraph {
  tg_tasks : gmap string (TaskNode V);
  tg_insertion_order : list string
}.
Arguments mkTaskGraph {V} tg_tasks tg_insertion_order.
Arguments tg_tasks {V} t.
Arguments tg_insertion_order {V} t.

(** [node.status = st]. *)
Definition tn_set_status {V} (st : TaskStatus) (n : TaskNode V) : TaskNode V :=
  mkTaskNode (tn_task n) (tn_depends_on n) st.

Section definitions.
Context {V : Type} `{JL : JsonLib V} `{HO : HashOrder}.
Implicit Types (g : TaskGraph V) (m : gmap string (TaskNode V)).

Definition tg_new : TaskGraph V := mkTaskGraph ∅ [].

(** [if let Some(node) = self.tasks.get_mut(task_id) { node.status = status }]. *)
Definition set_status g (task_id : string) (st : TaskStatus) : TaskGraph V :=
  mkTaskGraph (alter (tn_set_status st) task_id (tg_tasks g)) (tg_insertion_order g).

Definition mark_running g (task_id : string) : TaskGraph V := set_status g task_id Running.
Definition mark_failed g (task_id : string) : TaskGraph V := set_status g task_id Failed.

Definition ready_tasks g : list V :=
  omap (fun id =>
    node ← tg_tasks g !! id;
    if decide (tn_status node = Ready) then Some (tn_task node) else None)
    (tg_insertion_order g).

Definition task_status g (task_id : string) : option TaskStatus :=
  tn_status <$> tg_tasks g !! task_id.

Definition is_terminal (st : TaskStatus) : bool :=
  match st with Completed | Failed | Skipped => true | _ => false end.

Definition tg_is_complete g : bool :=
  forallb (fun n => is_terminal (tn_status n)) (hash_values (tg_tasks g)).

Definition pending_count g : nat :=
  length (filter (fun n => tn_status n = Pending) (hash_values (tg_tasks g))).

(** ** Promotion *)

Definition all_deps_completed m (n : TaskNode V) : bool :=
  forallb (fun dep_id =>
    match m !! dep_id with
    | Some dep => bool_decide (tn_status dep = Completed)
    | None => false
    end) (tn_depends_on n).

Definition ids_to_promote m : list string :=
  omap (fun '(id, n) =>
    if decide (tn_status n = Pending) then
      if all_deps_completed m n then Some id else None
    else None) (hash_iter m).

Definition mark_completed g (task_id : string) : TaskGraph V :=
  let g1 := set_status g task_id Completed in
  let ids := ids_to_promote (tg_tasks g1) in
  mkTaskGraph (foldl (fun m id => alter (tn_set_status Ready) id m) (tg_tasks g1) ids)
    (tg_insertion_order g).

(** ** Reverse dependencies: who depends on whom *)

Definition push_dependent (id : string) (rev : gmap string (list string)) (dep : string)
    : gmap string (list string) :=
  <[dep := default [] (rev !! dep) ++ [id]]> rev.

Definition reverse_deps_of (l : list (string * TaskNode V)) : gmap string (list string) :=
  foldl (fun rev '(id, n) => foldl (push_dependent id) rev (tn_depends_on n)) ∅ l.

Definition reverse_deps m : gmap string (list string) := reverse_deps_of (hash_iter m).

(** ** Cascading failure: a breadth-first walk over the dependents *)

Definition skip_child (mq : gmap string (TaskNode V) * list string) (child : string)
    : gmap string (TaskNode V) * list string :=
  (alter (tn_set_status Skipped) child mq.1, mq.2 ++ [child]).

Fixpoint fail_loop (fuel : nat) (rev : gmap string (list string)) (visited : gset string)
    (queue : list string) m : option (gmap string (TaskNode V)) :=
  match fuel with
  | O => None
  | S fuel =>
      match queue with
      | [] => Some m
      | current :: queue =>
          if decide (current ∈ visited) then fail_loop fuel rev visited queue m
          else
            let visited := {[current]} ∪ visited in
            match rev !! current with
            | Some downstream =>
                let mq := foldl skip_child (m, queue) downstream in
                fail_loop fuel rev visited mq.2 mq.1
            | None => fail_loop fuel rev visited queue m
            end
      end
  end.

(** One iteration per queue entry: the start, and one per dependency edge. *)
Definition fail_fuel (rev : gmap string (list string)) : nat :=
  2 + sum_list (length <$> (map_to_list rev).*2).

Definition fail_dependents g (task_id : string) : TaskGraph V :=
  let rev := reverse_deps (tg_tasks g) in
  match fail_loop (fail_fuel rev) rev ∅ [task_id] (tg_tasks g) with
  | Some m => mkTaskGraph m (tg_insertion_order g)
  | None => g
  end.

(** ** Cycle detection: Kahn's algorithm

    The source first fills two in-degree maps that it then shadows; only the
    third, the number of dependencies that exist in the graph, is used. *)

Definition in_degrees m : gmap string Z :=
  (fun n => Z.of_nat (length (filter (fun dep => is_Some (m !! dep)) (tn_depends_on n)))) <$> m.

Definition initial_queue (deg : gmap string Z) : list string :=
  omap (fun '(id, d) => if d =? 0 then Some id else None) (hash_iter deg).

(** [*degree -= 1; if *degree == 0 { queue.push_back(dependent) }]. *)
Definition relax (dq : gmap string Z * list string) (dependent : string)
    : gmap string Z * list string :=
  match dq.1 !! dependent with
  | Some d =>
      let d' := usize_sub d 1 in
      (<[dependent := d']> dq.1, if d' =? 0 then dq.2 ++ [dependent] else dq.2)
  | None => dq
  end.

Fixpoint kahn (fuel : nat) (dependents : gmap string (list string)) (deg : gmap string Z)
    (queue : list string) (processed : nat) : option nat :=
  match fuel with
  | O => None
  | S fuel =>
      match queue with
      | [] => Some processed
      | current :: queue =>
          let dq := match dependents !! current with
                    | Some deps => foldl relax (deg, queue) deps
                    | None => (deg, queue)
                    end in
          kahn fuel dependents dq.1 dq.2 (S processed)
      end
  end.

Definition detect_cycle g : bool :=
  let m := tg_tasks g in
  let deg := in_degrees m in
  match kahn (S (size m)) (reverse_deps m) deg (initial_queue deg) 0 with
  | Some processed => (processed <? size m)%nat
  | None => false
  end.

(** ** Insertion *)

Definition parse_depends_on (t : V) : list string :=
  match jget_array t "depends_on" with
  | Some arr => omap jas_str arr
  | None => []
  end.

Definition new_node (t : V) : TaskNode V :=
  let deps := parse_depends_on t in
  mkTaskNode t deps (match deps with [] => Ready | _ => Pending end).

(** The loop over the new tasks; an early return keeps what was inserted so far. *)
Fixpoint add_loop g (added : list string) (ts : list V) : TaskGraph V * result (list string) string :=
  match ts with
  | [] => (g, Ok added)
  | t :: ts =>
      match jget_str t "task_id" with
      | None => (g, Err "Task missing task_id")
      | Some task_id =>
          add_loop
            (mkTaskGraph (<[task_id := new_node t]> (tg_tasks g))
               (tg_insertion_order g ++ [task_id]))
            (added ++ [task_id]) ts
      end
  end.

Definition add_tasks g (ts : list V) : TaskGraph V * result unit string :=
  let start_idx := length (tg_insertion_order g) in
  match add_loop g [] ts with
  | (g1, Err e) => (g1, Err e)
  | (g1, Ok added_ids) =>
      if detect_cycle g1 then
        (mkTaskGraph (foldl (fun m id => delete id m) (tg_tasks g1) added_ids)
           (take start_idx (tg_insertion_order g1)),
         Err "Cycle detected in task dependencies")
      else (g1, Ok tt)
  end.
End definitions.

(** * Reverse dependency lists *)

(** The number of occurrences of [x] in [l]. *)
Definition occ (x : string) (l : list string) : nat := length (filter (fun y => y = x) l).

Lemma occ_cons x y l : occ x (y :: l) = ((if decide (y = x) then 1 else 0) + occ x l)%nat.
Proof. unfold occ. rewrite filter_cons. by case_decide. Qed.

Lemma occ_app x l l' : occ x (l ++ l') = (occ x l + occ x l')%nat.
Proof. unfold occ. by rewrite filter_app, length_app. Qed.

Lemma occ_pos x l : (0 < occ x l)%nat <-> x ∈ l.
Proof.
  induction l as [|y l IH].
  - split; [unfold occ; simpl; lia | by intros ?%not_elem_of_nil].
  - rewrite occ_cons, elem_of_cons, <- IH. case_decide; [subst; intuition lia|].
    split; [lia | intros [->|]; [done | lia]].
Qed.

Lemma occ_zero x l : occ x l = 0%nat <-> x ∉ l.
Proof. rewrite <- occ_pos. lia. Qed.

Lemma occ_replicate x y n : occ x (replicate n y) = if decide (y = x) then n else 0%nat.
Proof.
  induction n as [|n IH]; simpl; [by case_decide|]. rewrite occ_cons, IH. by case_decide.
Qed.

Section reverse.
Context {V : Type} `{JL : JsonLib V} `{HO : HashOrder}.
Implicit Types (g : TaskGraph V) (m : gmap string (TaskNode V)).

(** Who names [c] as a dependency, once per occurrence. *)
Definition dependents_in (l : list (string * TaskNode V)) (c : string) : list string :=
  mjoin ((fun '(id, n) => replicate (occ c (tn_depends_on n)) id) <$> l).

Lemma push_dependents_lookup id deps rev c :
  default [] (foldl (push_dependent id) rev deps !! c)
  = default [] (rev !! c) ++ replicate (occ c deps) id.
Proof.
  revert rev. induction deps as [|d deps IH]; intros rev; simpl.
  - by rewrite app_nil_r.
  - rewrite IH. unfold push_dependent. rewrite occ_cons, lookup_insert.
    case_decide; simpl; [|done]. subst. by rewrite <- app_assoc.
Qed.

Lemma reverse_deps_of_lookup l c :
  default [] (reverse_deps_of l !! c) = dependents_in l c.
Proof.
  unfold reverse_deps_of, dependents_in.
  assert (Hgen : forall rev,
    default [] (foldl (fun rev '(id, n) => foldl (push_dependent id) rev (tn_depends_on n))
      rev l !! c)
    = default [] (rev !! c)
      ++ mjoin ((fun '(id, n) => replicate (occ c (tn_depends_on n)) id) <$> l)).
  { induction l as [|[id n] l IH]; intros rev; simpl; [by rewrite app_nil_r|].
    by rewrite IH, push_dependents_lookup, app_assoc. }
  by rewrite Hgen, lookup_empty.
Qed.

Definition children m (c : string) : list string := dependents_in (hash_iter m) c.

Lemma reverse_deps_lookup m c : default [] (reverse_deps m !! c) = children m c.
Proof. apply reverse_deps_of_lookup. Qed.

Lemma elem_of_dependents_in l c id :
  id ∈ dependents_in l c <-> exists n, (id, n) ∈ l /\ c ∈ tn_depends_on n.
Proof.
  unfold dependents_in. rewrite list_elem_of_join. split.
  - intros (l' & Hid & Hl'). apply list_elem_of_fmap in Hl' as ([id' n] & -> & Hin).
    apply elem_of_replicate in Hid as [-> Hocc].
    exists n. split; [done|]. apply occ_pos. lia.
  - intros (n & Hin & Hc). exists (replicate (occ c (tn_depends_on n)) id). split.
    + apply elem_of_replicate. split; [done|]. apply occ_pos in Hc. lia.
    + apply list_elem_of_fmap. by exists (id, n).
Qed.

Lemma elem_of_children m c id :
  id ∈ children m c <-> exists n, m !! id = Some n /\ c ∈ tn_depends_on n.
Proof. unfold children. rewrite elem_of_dependents_in. by setoid_rewrite elem_of_hash_iter. Qed.

Lemma occ_dependents_in l c id :
  NoDup l.*1 ->
  occ id (dependents_in l c)
  = match list_find (fun p => p.1 = id) l with
    | Some (_, (_, n)) => occ c (tn_depends_on n)
    | None => 0%nat
    end.
Proof.
  induction l as [|[id' n] l IH]; intros Hnd; [done|].
  apply NoDup_cons in Hnd as [Hnin Hnd]. cbn [list_find].
  change (dependents_in ((id', n) :: l) c)
    with (replicate (occ c (tn_depends_on n)) id' ++ dependents_in l c).
  rewrite occ_app, occ_replicate. cbn [fst]. destruct (decide (id' = id)) as [->|Hd].
  - assert (occ id (dependents_in l c) = 0%nat).
    { apply occ_zero. intros Hin. apply (elem_of_dependents_in l c id) in Hin as (n' & Hin & _).
      apply Hnin. apply list_elem_of_fmap. by exists (id, n'). }
    lia.
  - rewrite IH by done.
    destruct (list_find _ l) as [[? [? ?]]|]; simpl; lia.
Qed.

Lemma occ_children m c id n :
  m !! id = Some n -> occ id (children m c) = occ c (tn_depends_on n).
Proof.
  intros Hid. unfold children. rewrite occ_dependents_in by apply NoDup_hash_keys.
  apply elem_of_hash_iter in Hid as Hin.
  destruct (list_find _ _) as [[i [id' n']]|] eqn:Hf.
  - apply list_find_Some in Hf as (Hl & Heq & _). simpl in Heq. subst.
    apply list_elem_of_lookup_2, elem_of_hash_iter in Hl. congruence.
  - apply list_find_None in Hf. rewrite Forall_forall in Hf. by destruct (Hf (id, n)).
Qed.
End reverse.

(** * Kahn's algorithm *)

Section kahn.
Context {V : Type} `{JL : JsonLib V} `{HO : HashOrder}.
Implicit Types (g : TaskGraph V) (m : gmap string (TaskNode V)).

(** [dep m a b]: task [a] depends on task [b], both in the graph. *)
Definition dep m (a b : string) : Prop :=
  exists n, m !! a = Some n /\ b ∈ tn_depends_on n /\ is_Some (m !! b).

(** Relaxing a list of dependents lowers each degree by its number of occurrences
    and queues the tasks whose degree it brings to zero, each once. *)
Lemma relax_fold L deg q :
  (forall id, id ∈ L -> exists d, deg !! id = Some (Z.of_nat d) /\ (occ id L <= d)%nat) ->
  exists new,
    (foldl relax (deg, q) L).2 = q ++ new /\ NoDup new /\
    (forall id, (foldl relax (deg, q) L).1 !! id = (fun d => d - Z.of_nat (occ id L)) <$> deg !! id) /\
    (forall id, id ∈ new <-> id ∈ L /\ deg !! id = Some (Z.of_nat (occ id L))).
Proof.
  revert deg q. induction L as [|x L IH]; intros deg q Hdeg.
  - exists []. cbn. split_and!; [by rewrite app_nil_r | constructor | |].
    + intros id. unfold occ. cbn. destruct (deg !! id); cbn; [f_equal; lia | done].
    + set_solver.
  - destruct (Hdeg x) as (d & Hx & Hocc); [left|].
    rewrite occ_cons, decide_True in Hocc by done.
    cbn [foldl]. unfold relax at 2 4. cbn [fst snd]. rewrite Hx.
    unfold usize_sub. replace (1 <=? Z.of_nat d) with true by (symmetry; apply Z.leb_le; lia).
    set (deg1 := <[x := Z.of_nat d - 1]> deg).
    destruct (IH deg1 (if Z.of_nat d - 1 =? 0 then q ++ [x] else q)) as (new & Hq & Hnd & Hd & Hnew).
    { intros id Hid. destruct (decide (id = x)) as [->|Hne].
      - exists (d - 1)%nat. unfold deg1. rewrite lookup_insert_eq. split; [f_equal; lia | lia].
      - unfold deg1. rewrite lookup_insert_ne by done.
        destruct (Hdeg id) as (d' & ? & Hle); [by right|].
        rewrite occ_cons in Hle. exists d'. split; [done | lia]. }
    assert (Hdegs : forall id, (foldl relax (deg1, if Z.of_nat d - 1 =? 0 then q ++ [x] else q) L).1 !! id
        = (fun d => d - Z.of_nat (occ id (x :: L))) <$> deg !! id).
    { intros id. rewrite Hd, occ_cons. unfold deg1. rewrite lookup_insert.
      case_decide as Heq; [subst; rewrite Hx; cbn; f_equal; lia|].
      destruct (deg !! id); cbn; [f_equal; lia | done]. }
    destruct (Z.of_nat d - 1 =? 0) eqn:Hz; zify_bool.
    + assert (HxL : x ∉ L) by (apply occ_zero; lia).
      exists (x :: new). rewrite Hq, <- app_assoc. split_and!; [done | | done |].
      * constructor; [|done]. rewrite Hnew. tauto.
      * intros id. rewrite elem_of_cons, Hnew, elem_of_cons, occ_cons. unfold deg1.
        destruct (decide (id = x)) as [->|Hne].
        -- rewrite decide_True by done. apply occ_zero in HxL. rewrite HxL, Hx.
           split; [intros _; split; [by left | f_equal; lia] | by left].
        -- rewrite decide_False by done. rewrite lookup_insert_ne by done. cbn. intuition.
    + exists new. rewrite Hq. split_and!; [done | done | done |].
      intros id. rewrite Hnew, elem_of_cons, occ_cons. unfold deg1.
      destruct (decide (id = x)) as [->|Hne].
      * rewrite decide_True, lookup_insert_eq, Hx by done.
        split; [intros [? [=]]; split; [by left | f_equal; lia]|].
        intros [_ [=]]. split; [apply occ_pos; lia | f_equal; lia].
      * rewrite decide_False by done. rewrite lookup_insert_ne by done. cbn. intuition.
Qed.

(** The dependencies of [n] that are in the graph and not yet processed. *)
Definition open_deps m (D : list string) (n : TaskNode V) : list string :=
  filter (fun dep => is_Some (m !! dep) /\ dep ∉ D) (tn_depends_on n).

Lemma open_deps_snoc m D c n :
  is_Some (m !! c) -> c ∉ D ->
  (length (open_deps m D n) = length (open_deps m (D ++ [c]) n) + occ c (tn_depends_on n))%nat.
Proof.
  intros Hc HcD. unfold open_deps, occ. induction (tn_depends_on n) as [|d l IH]; [done|].
  rewrite !filter_cons. destruct (decide (d = c)) as [->|Hne].
  - rewrite (decide_True (P := is_Some (m !! c) /\ c ∉ D)) by done.
    rewrite decide_False by set_solver. cbn. lia.
  - destruct (decide (is_Some (m !! d) /\ d ∉ D)).
    + rewrite decide_True by set_solver. cbn. lia.
    + rewrite decide_False by set_solver. lia.
Qed.

(** The loop invariant: [D] lists the processed tasks, in order. *)
Record kahn_inv m (D : list string) (deg : gmap string Z) (queue : list string) : Prop := {
  ki_nodup : NoDup (D ++ queue);
  ki_deg : forall id, deg !! id = (fun n => Z.of_nat (length (open_deps m D n))) <$> m !! id;
  ki_zero : forall id, id ∈ D ++ queue <-> exists n, m !! id = Some n /\ open_deps m D n = [];
  ki_topo : forall D1 c D2, D = D1 ++ c :: D2 -> forall b, dep m c b -> b ∈ D1
}.

Lemma open_deps_nil m D id n b :
  m !! id = Some n -> open_deps m D n = [] -> dep m id b -> b ∈ D.
Proof.
  intros Hid Ho (n' & Hn' & Hb & Hmb). simplify_eq.
  destruct (decide (b ∈ D)) as [|HbD]; [done|].
  assert (Hin : b ∈ open_deps m D n) by (apply list_elem_of_filter; done).
  rewrite Ho in Hin. by apply not_elem_of_nil in Hin.
Qed.

(** [rev] lists the dependents of every task, once per occurrence. *)
Definition reverses m (rev : gmap string (list string)) : Prop := forall c id,
  (id ∈ default [] (rev !! c) -> is_Some (m !! id)) /\
  (forall n, m !! id = Some n -> occ id (default [] (rev !! c)) = occ c (tn_depends_on n)).

Lemma reverse_deps_reverses m : reverses m (reverse_deps m).
Proof.
  intros c id. rewrite reverse_deps_lookup. split; [|apply occ_children].
  intros (n & -> & _)%elem_of_children. eauto.
Qed.

Lemma kahn_step m rev D deg c queue :
  reverses m rev -> kahn_inv m D deg (c :: queue) ->
  let dq := match rev !! c with
            | Some deps => foldl relax (deg, queue) deps
            | None => (deg, queue)
            end in
  kahn_inv m (D ++ [c]) dq.1 dq.2.
Proof.
  intros Hrev [Hnd Hdeg Hzero Htopo]. cbn zeta. set (ch := default [] (rev !! c)).
  replace (match rev !! c with Some deps => _ | None => _ end)
    with (foldl relax (deg, queue) ch) by (unfold ch; by destruct (rev !! c)).
  assert (HcD : c ∉ D) by (apply NoDup_app in Hnd as (_ & H & _); set_solver).
  assert (Hc : exists n, m !! c = Some n /\ open_deps m D n = []) by (apply Hzero; set_solver).
  destruct Hc as (nc & Hmc & Hoc).
  assert (Hopen : forall id n, m !! id = Some n ->
    (length (open_deps m D n) = length (open_deps m (D ++ [c]) n) + occ id (ch))%nat).
  { intros id n Hid. unfold ch. rewrite (proj2 (Hrev c id) n Hid). by apply open_deps_snoc. }
  destruct (relax_fold (ch) deg queue) as (new & -> & Hnew_nd & Hdeg' & Hnew).
  { intros id Hid. apply Hrev in Hid as [n Hid].
    exists (length (open_deps m D n)). rewrite Hdeg, Hid. split; [done|].
    specialize (Hopen id n Hid). lia. }
  assert (Hnew' : forall id, id ∈ new <-> id ∈ ch /\
    exists n, m !! id = Some n /\ open_deps m (D ++ [c]) n = []).
  { intros id. rewrite Hnew, Hdeg. split.
    - intros [Hin Hd]. split; [done|]. destruct (m !! id) as [n|] eqn:Hid; cbn in Hd; simplify_eq.
      exists n. split; [done|]. apply nil_length_inv. specialize (Hopen id n Hid). lia.
    - intros (Hin & n & Hid & Ho). split; [done|]. rewrite Hid. cbn.
      specialize (Hopen id n Hid). rewrite Ho in Hopen. cbn in Hopen. do 2 f_equal. lia. }
  split.
  - rewrite <- app_assoc. cbn. rewrite app_comm_cons, app_assoc. apply NoDup_app.
    split_and!; [done | | done]. intros id Hid Hin.
    apply Hzero in Hid as (n & Hid & Ho). apply Hnew' in Hin as (Hin & _).
    specialize (Hopen id n Hid). rewrite Ho in Hopen. cbn in Hopen.
    apply occ_pos in Hin. lia.
  - intros id. rewrite Hdeg', Hdeg. destruct (m !! id) as [n|] eqn:Hid; [|done].
    cbn. specialize (Hopen id n Hid). f_equal. lia.
  - intros id. rewrite <- app_assoc. cbn. rewrite app_comm_cons, app_assoc, elem_of_app, Hzero, Hnew'.
    split.
    + intros [(n & Hid & Ho)|(_ & ?)]; [|done]. exists n. split; [done|]. apply nil_length_inv.
      specialize (Hopen id n Hid). rewrite Ho in Hopen. cbn in Hopen. lia.
    + intros (n & Hid & Ho). destruct (decide (id ∈ ch)); [right; eauto|left].
      exists n. split; [done|]. apply nil_length_inv. specialize (Hopen id n Hid).
      rewrite Ho in Hopen. cbn in Hopen. rewrite (proj2 (occ_zero _ _)) in Hopen by done. lia.
  - intros D1 c' D2 HD b Hb. destruct D2 as [|x D2] using rev_ind.
    + apply app_inj_tail in HD as [-> ->]. by eapply open_deps_nil.
    + rewrite app_comm_cons, app_assoc in HD. apply app_inj_tail in HD as [-> _]. by eapply Htopo.
Qed.

Lemma kahn_init m : kahn_inv m [] (in_degrees m) (initial_queue (in_degrees m)).
Proof.
  assert (Hdeg : forall id, in_degrees m !! id
      = (fun n => Z.of_nat (length (open_deps m [] n))) <$> m !! id).
  { intros id. unfold in_degrees. rewrite lookup_fmap. destruct (m !! id) as [n|]; [|done].
    cbn. do 3 f_equal. apply list_filter_iff. intros d. split; [intros ?; split; [done|by intros ?%not_elem_of_nil] | by intros [? _]]. }
  assert (Hq : forall id, id ∈ initial_queue (in_degrees m)
      <-> exists n, m !! id = Some n /\ open_deps m [] n = []).
  { intros id. unfold initial_queue. rewrite list_elem_of_omap. split.
    - intros ([id' d] & Hin & Hd). apply elem_of_hash_iter in Hin. rewrite Hdeg in Hin.
      destruct (d =? 0) eqn:Hz; simplify_eq. zify_bool. subst.
      destruct (m !! id) as [n|]; cbn in Hin; simplify_eq. exists n. split; [done|].
      apply nil_length_inv. lia.
    - intros (n & Hid & Ho). exists (id, 0). split; [|done].
      apply elem_of_hash_iter. by rewrite Hdeg, Hid, fmap_Some_2 with (x := n); [rewrite Ho|]. }
  split; cbn.
  - unfold initial_queue. pose proof (NoDup_hash_keys (in_degrees m)) as Hnd. unfold hash_keys in Hnd.
    induction (hash_iter (in_degrees m)) as [|[id d] l IH]; cbn in *; [constructor|].
    apply NoDup_cons in Hnd as [Hnin Hnd]. destruct (d =? 0); [|by apply IH].
    constructor; [|by apply IH]. rewrite list_elem_of_omap. intros ([id' d'] & Hin & Hd').
    destruct (d' =? 0); simplify_eq. apply Hnin. apply list_elem_of_fmap. by exists (id, d').
  - done.
  - done.
  - intros D1 c D2 HD. by destruct D1.
Qed.

Lemma kahn_inv_bound m D deg queue :
  kahn_inv m D deg queue -> (length (D ++ queue) <= size m)%nat.
Proof.
  intros [Hnd _ Hzero _]. rewrite <- (hash_keys_length m). apply submseteq_length, NoDup_submseteq; [done|].
  intros id Hid. apply elem_of_hash_keys. apply Hzero in Hid as (n & -> & _). eauto.
Qed.

(** The loop ends within its fuel with the queue exhausted. *)
Lemma kahn_runs m rev fuel D deg queue :
  reverses m rev -> kahn_inv m D deg queue -> (size m < fuel + length D)%nat ->
  exists D' deg', kahn fuel rev deg queue (length D) = Some (length D') /\
    kahn_inv m D' deg' [].
Proof.
  intros Hrev. revert D deg queue. induction fuel as [|fuel IH]; intros D deg queue Hinv Hfuel.
  - pose proof (kahn_inv_bound _ _ _ _ Hinv) as Hb. rewrite length_app in Hb. lia.
  - destruct queue as [|c queue]; cbn; [eauto|].
    pose proof (kahn_step _ _ _ _ _ _ Hrev Hinv) as Hinv'. cbn zeta in Hinv'.
    eapply IH in Hinv'; [|rewrite length_app; cbn; lia].
    rewrite length_app in Hinv'. cbn in Hinv'. by rewrite Nat.add_1_r in Hinv'.
Qed.

(** A cycle cannot go through processed tasks. *)
Lemma topo_acyclic m D deg queue a :
  kahn_inv m D deg queue -> a ∈ D -> ~ tc (dep m) a a.
Proof.
  intros [Hnd _ _ Htopo] Ha.
  assert (Hbefore : forall x y, tc (dep m) x y -> forall D1 D2, D = D1 ++ x :: D2 -> y ∈ D1).
  { intros x y Htc. induction Htc as [x y Hxy|x y z Hxy _ IH]; intros D1 D2 HD.
    - by eapply Htopo.
    - assert (Hy : y ∈ D1) by (by eapply Htopo). apply list_elem_of_split in Hy as (E1 & E2 & ->).
      rewrite <- app_assoc in HD. apply IH in HD. set_solver. }
  intros Htc. apply list_elem_of_split in Ha as (D1 & D2 & HD).
  pose proof (Hbefore _ _ Htc _ _ HD) as Ha. subst D.
  rewrite <- app_assoc in Hnd. apply NoDup_app in Hnd as (_ & H & _). apply (H a Ha). cbn. left.
Qed.

(** What is left when the queue is empty: all tasks were processed, or there is a cycle. *)
Lemma kahn_done m D deg : kahn_inv m D deg [] ->
  (length D <= size m)%nat /\ ((length D < size m)%nat <-> exists a, tc (dep m) a a).
Proof.
  intros Hinv. pose proof (kahn_inv_bound _ _ _ _ Hinv) as Hle. rewrite app_nil_r in Hle. split; [done|].
  pose proof Hinv as [Hnd _ Hzero _]. rewrite app_nil_r in Hnd. setoid_rewrite app_nil_r in Hzero.
  split.
  - intros Hlt. set (rest := filter (fun id => id ∉ D) (hash_keys m)).
    assert (Hne : exists a, a ∈ rest).
    { destruct rest as [|a l] eqn:Hr; [|by exists a; left]. exfalso.
      assert (Hsub : hash_keys m ⊆ D).
      { intros id Hid. destruct (decide (id ∈ D)); [done|].
        assert (id ∈ rest) by (by apply list_elem_of_filter). rewrite Hr in *. set_solver. }
      pose proof (submseteq_length _ _ (NoDup_submseteq _ _ (NoDup_hash_keys m) Hsub)).
      rewrite hash_keys_length in *. lia. }
    destruct Hne as [a Ha]. destruct (no_sink_cycle (dep m) rest a Ha) as (z & _ & Hz); [|eauto].
    intros x Hx. apply list_elem_of_filter in Hx as [HxD Hx]. apply elem_of_hash_keys in Hx as [n Hn].
    destruct (open_deps m D n) as [|b l] eqn:Ho; [by destruct HxD; apply Hzero; eauto|].
    assert (Hb : b ∈ open_deps m D n) by (rewrite Ho; left).
    apply list_elem_of_filter in Hb as [[Hmb HbD] Hb]. exists b. split; [|by exists n].
    apply list_elem_of_filter. split; [done|]. by apply elem_of_hash_keys.
  - intros [a Ha].
    assert (HaD : a ∉ D) by (intros HaD; by eapply topo_acyclic).
    assert (Ham : is_Some (m !! a)).
    { inversion Ha as [x y (n & Hn & _)|x y z (n & Hn & _) _]; subst; eauto. }
    rewrite <- hash_keys_length.
    assert (Hnd' : NoDup (a :: D)) by (by constructor).
    apply (submseteq_length (a :: D)), NoDup_submseteq; [done|].
    intros x [->|Hx]%elem_of_cons; apply elem_of_hash_keys; [done|].
    apply Hzero in Hx as (n & -> & _). eauto.
Qed.

Lemma detect_cycle_iff m o :
  detect_cycle (mkTaskGraph m o) = true <-> exists a, tc (dep m) a a.
Proof.
  unfold detect_cycle. cbn [tg_tasks].
  destruct (kahn_runs m (reverse_deps m) (S (size m)) [] (in_degrees m) (initial_queue (in_degrees m)))
    as (D & deg & Hrun & Hinv); [apply reverse_deps_reverses | apply kahn_init | cbn; lia |].
  cbn [length] in Hrun. rewrite Hrun. rewrite Nat.ltb_lt. by apply (kahn_done m D deg).
Qed.
End kahn.

(** * Cascading failure *)

Section cascade.
Context {V : Type} `{JL : JsonLib V} `{HO : HashOrder}.
Implicit Types (g : TaskGraph V) (m T : gmap string (TaskNode V)).

(** [dependent m a b]: task [b] of the graph names [a] as a dependency. *)
Definition dependent m (a b : string) : Prop :=
  exists n, m !! b = Some n /\ a ∈ tn_depends_on n.

(** [T] is [m] with the statuses of the tasks in [K] set to [Skipped]. *)
Definition skips m (K : gset string) T : Prop :=
  forall id, T !! id = if decide (id ∈ K) then tn_set_status Skipped <$> m !! id else m !! id.

Lemma skip_fold m K T q L :
  skips m K T ->
  (foldl skip_child (T, q) L).2 = q ++ L /\
  skips m (K ∪ list_to_set L) (foldl skip_child (T, q) L).1.
Proof.
  revert K T q. induction L as [|x L IH]; intros K T q HT; cbn [foldl].
  - cbn. rewrite app_nil_r. split; [done|]. intros id. rewrite HT. by rewrite union_empty_r_L.
  - change (skip_child (T, q) x) with (alter (tn_set_status Skipped) x T, q ++ [x]).
    destruct (IH (K ∪ {[x]}) (alter (tn_set_status Skipped) x T) (q ++ [x])) as [-> HT'].
    + intros id. destruct (decide (id = x)) as [->|Hne].
      * rewrite lookup_alter_eq, HT, (decide_True (P := x ∈ K ∪ {[x]})) by set_solver.
        case_decide; [|done]. by destruct (m !! x).
      * rewrite lookup_alter_ne, HT by done. apply decide_ext. set_solver.
    + split; [by rewrite <- app_assoc|]. intros id. rewrite HT'. apply decide_ext. set_solver.
Qed.

(** The work left: the queue, and the edges out of unvisited tasks. *)
Definition unvisited_edges (rev : gmap string (list string)) (visited : gset string) : nat :=
  sum_list (length <$> (map_to_list (filter (fun p => p.1 ∉ visited) rev)).*2).

Lemma unvisited_edges_visit rev visited c L :
  c ∉ visited -> rev !! c = Some L ->
  unvisited_edges rev visited = (length L + unvisited_edges rev ({[c]} ∪ visited))%nat.
Proof.
  intros Hc HL. unfold unvisited_edges.
  assert (Hdel : filter (fun p => p.1 ∉ {[c]} ∪ visited) rev
                 = delete c (filter (fun p : string * list string => p.1 ∉ visited) rev)).
  { apply map_eq. intros k. apply option_eq. intros x.
    rewrite lookup_delete_Some, !map_lookup_filter_Some. cbn. set_solver. }
  rewrite Hdel. set (F := filter (fun p : string * list string => p.1 ∉ visited) rev).
  assert (HF : F !! c = Some L) by (by apply map_lookup_filter_Some).
  rewrite <- (map_to_list_delete F c L) by done. by cbn.
Qed.

Lemma unvisited_edges_mono rev visited c :
  (unvisited_edges rev ({[c]} ∪ visited) <= unvisited_edges rev visited)%nat.
Proof.
  destruct (decide (c ∈ visited)).
  - by replace ({[c]} ∪ visited) with visited by set_solver.
  - destruct (rev !! c) as [L|] eqn:HL; [rewrite (unvisited_edges_visit _ _ _ _ n HL); lia|].
    unfold unvisited_edges. apply Nat.eq_le_incl. do 4 f_equal.
    apply map_filter_ext. intros k x Hx. cbn. assert (k <> c) by congruence. set_solver.
Qed.

(** What the walk maintains: everything seen is reachable from [start], and the
    tasks skipped so far are the dependents of the visited ones. *)
Record fail_inv m (start : string) (visited : gset string) (queue : list string)
    (K : gset string) T : Prop := {
  fi_skips : skips m K T;
  fi_sound : forall x, x ∈ K -> tc (dependent m) start x;
  fi_reach : forall x, x ∈ queue \/ x ∈ visited -> rtc (dependent m) start x;
  fi_start : start ∈ visited \/ start ∈ queue;
  fi_closed : forall x y, x ∈ visited -> dependent m x y ->
                y ∈ K /\ (y ∈ visited \/ y ∈ queue)
}.

Lemma fail_inv_visit m start visited c queue K T :
  fail_inv m start visited (c :: queue) K T -> c ∉ visited ->
  let mq := foldl skip_child (T, queue) (children m c) in
  fail_inv m start ({[c]} ∪ visited) mq.2 (K ∪ list_to_set (children m c)) mq.1.
Proof.
  intros [Hsk Hsound Hreach Hstart Hclosed] Hc.
  destruct (skip_fold m K T queue (children m c) Hsk) as [Hq HT]. cbn zeta. rewrite Hq.
  assert (Hcr : rtc (dependent m) start c) by (apply Hreach; left; left).
  assert (Hch : forall x, x ∈ children m c <-> dependent m c x) by (intros x; apply elem_of_children).
  split.
  - done.
  - intros x Hx. apply elem_of_union in Hx as [Hx|Hx]; [by apply Hsound|].
    rewrite elem_of_list_to_set, Hch in Hx. by eapply tc_rtc_l; [|apply tc_once].
  - intros x Hx. assert (x ∈ children m c \/ (x ∈ c :: queue \/ x ∈ visited)) as [Hx'|Hx']
      by set_solver; [|by apply Hreach].
    rewrite Hch in Hx'. by eapply rtc_r.
  - set_solver.
  - intros x y Hx Hxy. destruct (decide (x = c)) as [->|Hne].
    + apply Hch in Hxy. set_solver.
    + destruct (Hclosed x y) as [? ?]; [set_solver | done | set_solver].
Qed.

Lemma fail_loop_runs m start fuel visited queue K T :
  fail_inv m start visited queue K T ->
  (length queue + unvisited_edges (reverse_deps m) visited < fuel)%nat ->
  exists visited' K' T', fail_loop fuel (reverse_deps m) visited queue T = Some T' /\
    fail_inv m start visited' [] K' T'.
Proof.
  revert visited queue K T. induction fuel as [|fuel IH]; intros visited queue K T Hinv Hfuel; [lia|].
  destruct queue as [|c queue]; [cbn; eauto|]. cbn [fail_loop]. cbn [length] in Hfuel.
  case_decide as Hc.
  - apply (IH visited queue K T); [|lia]. destruct Hinv as [? ? Hreach ? Hclosed]. split; [done..| | |].
    + intros x Hx. apply Hreach. set_solver.
    + set_solver.
    + intros x y Hx Hxy. destruct (Hclosed x y); [done..|]. set_solver.
  - pose proof (fail_inv_visit _ _ _ _ _ _ _ Hinv Hc) as Hinv'. cbn zeta in Hinv'.
    pose proof (reverse_deps_lookup m c) as Hrev.
    destruct (reverse_deps m !! c) as [L|] eqn:HL; cbn in Hrev; subst.
    + eapply IH; [done|]. destruct Hinv as [Hsk _ _ _ _].
      destruct (skip_fold m K T queue (children m c) Hsk) as [-> _].
      rewrite (unvisited_edges_visit _ _ _ _ Hc HL) in Hfuel. rewrite length_app. lia.
    + rewrite <- Hrev in Hinv'. eapply IH; [done|]. cbn.
      pose proof (unvisited_edges_mono (reverse_deps m) visited c). lia.
Qed.

Lemma fail_inv_final m start visited K T :
  fail_inv m start visited [] K T -> forall x, x ∈ K <-> tc (dependent m) start x.
Proof.
  intros [_ Hsound _ Hstart Hclosed] x. split; [apply Hsound|]. intros Htc.
  assert (Hv : forall y, rtc (dependent m) start y -> y ∈ visited).
  { apply rtc_ind_r; [set_solver|]. intros y z _ Hyz Hy.
    destruct (Hclosed y z) as [_ [?|?]]; [done.. | set_solver]. }
  revert x Htc. apply tc_ind_r.
  - intros y Hy. apply (Hclosed start y); [apply Hv, rtc_refl | done].
  - intros y z Hty Hyz _. apply (Hclosed y z); [by apply Hv, tc_rtc | done].
Qed.
End cascade.

(** * What the operations promise *)

(** The statuses of a task whose execution was allowed to start. *)
Definition started (st : TaskStatus) : bool :=
  match st with Ready | AwaitingApproval | Running | Completed => true | _ => false end.

(** A task only starts once everything it depends on is [Completed]. *)
Definition dep_safe {V} (g : TaskGraph V) : Prop :=
  forall id n d, tg_tasks g !! id = Some n -> started (tn_status n) = true -> d ∈ tn_depends_on n ->
    exists nd, tg_tasks g !! d = Some nd /\ tn_status nd = Completed.

Section protocol.
Context {V : Type} `{JL : JsonLib V} `{HO : HashOrder}.
Implicit Types (g : TaskGraph V) (m T : gmap string (TaskNode V)).

(** The transitions an orchestration drives a task through. *)
Inductive tg_step : TaskGraph V -> TaskGraph V -> Prop :=
| step_add g ts ids g1 g' :
    add_loop g [] ts = (g1, Ok ids) -> (forall id, id ∈ ids -> tg_tasks g !! id = None) ->
    add_tasks g ts = (g', Ok tt) -> tg_step g g'
| step_run g id : task_status g id = Some Ready -> tg_step g (mark_running g id)
| step_await g id : task_status g id = Some Ready -> tg_step g (set_status g id AwaitingApproval)
| step_retry g id : task_status g id = Some Running -> tg_step g (set_status g id Ready)
| step_complete g id : task_status g id = Some Running -> tg_step g (mark_completed g id)
| step_fail g id :
    task_status g id = Some Running \/ task_status g id = Some Ready ->
    tg_step g (fail_dependents (mark_failed g id) id).

Lemma set_status_lookup g id st x :
  tg_tasks (set_status g id st) !! x
  = if decide (x = id) then tn_set_status st <$> tg_tasks g !! x else tg_tasks g !! x.
Proof. cbn. rewrite lookup_alter. repeat case_decide; congruence. Qed.

Lemma alters_lookup st ids m x :
  foldl (fun m id => alter (tn_set_status st) id m) m ids !! x
  = if decide (x ∈ ids) then tn_set_status st <$> m !! x else m !! x.
Proof.
  revert m. induction ids as [|i ids IH]; intros m; cbn [foldl].
  - by rewrite decide_False by apply not_elem_of_nil.
  - rewrite IH, lookup_alter. destruct (decide (i = x)) as [->|Hne].
    + rewrite (decide_True (P := x ∈ x :: ids)) by left.
      case_decide; [|done]. by destruct (m !! x).
    + apply decide_ext. set_solver.
Qed.

Lemma elem_of_ids_to_promote m x :
  x ∈ ids_to_promote m <->
  exists n, m !! x = Some n /\ tn_status n = Pending /\ all_deps_completed m n = true.
Proof.
  unfold ids_to_promote. rewrite list_elem_of_omap. split.
  - intros ([id n] & Hin & Hx). apply elem_of_hash_iter in Hin. case_all. eauto.
  - intros (n & Hx & Hst & Hall). exists (x, n). split; [by apply elem_of_hash_iter|].
    by rewrite decide_True, Hall.
Qed.

Lemma all_deps_completed_true m n :
  all_deps_completed m n = true <->
  forall d, d ∈ tn_depends_on n -> exists nd, m !! d = Some nd /\ tn_status nd = Completed.
Proof.
  unfold all_deps_completed. rewrite forallb_forall. split; intros H d Hd.
  - apply list_elem_of_In, H in Hd. destruct (m !! d) as [nd|]; [|done]. zify_bool. eauto.
  - apply list_elem_of_In, H in Hd as (nd & -> & Hst). by apply bool_decide_eq_true.
Qed.

Lemma mark_completed_lookup g id x :
  let m1 := tg_tasks (set_status g id Completed) in
  tg_tasks (mark_completed g id) !! x
  = if decide (x ∈ ids_to_promote m1) then tn_set_status Ready <$> m1 !! x else m1 !! x.
Proof. cbn zeta. unfold mark_completed. cbn [tg_tasks]. apply alters_lookup. Qed.

Lemma fail_dependents_skips g id :
  exists K, skips (tg_tasks g) K (tg_tasks (fail_dependents g id)) /\
    (forall x, x ∈ K <-> tc (dependent (tg_tasks g)) id x) /\
    tg_insertion_order (fail_dependents g id) = tg_insertion_order g.
Proof.
  set (m := tg_tasks g).
  destruct (fail_loop_runs m id (fail_fuel (reverse_deps m)) ∅ [id] ∅ m)
    as (visited & K & T & Hrun & Hinv).
  - split; [| set_solver | | set_solver | set_solver].
    + intros x. by rewrite decide_False by set_solver.
    + intros x Hx. assert (x = id) as -> by set_solver. apply rtc_refl.
  - unfold fail_fuel, unvisited_edges. rewrite map_filter_id by set_solver. cbn. lia.
  - exists K. unfold fail_dependents. cbn zeta. fold m. rewrite Hrun. cbn.
    split_and!; [by destruct Hinv| |done].
    by eapply fail_inv_final.
Qed.

(** *** Insertion *)

Lemma add_loop_spec g added ts g1 ids :
  add_loop g added ts = (g1, Ok ids) ->
  exists new, ids = added ++ new /\ tg_insertion_order g1 = tg_insertion_order g ++ new /\
    (forall id, id ∉ new -> tg_tasks g1 !! id = tg_tasks g !! id) /\
    (forall id, id ∈ new -> exists t, t ∈ ts /\ jget_str t "task_id" = Some id /\
      tg_tasks g1 !! id = Some (new_node t)).
Proof.
  revert g added. induction ts as [|t ts IH]; intros g added H; cbn in H.
  - simplify_eq. exists []. rewrite !app_nil_r. set_solver.
  - destruct (jget_str t "task_id") as [id|] eqn:Hid; simplify_eq.
    apply IH in H as (new & -> & Ho & Hold & Hnew). cbn in Ho, Hold.
    exists (id :: new). rewrite <- !app_assoc in *. split_and!; [done | done | |].
    + intros x Hx. rewrite Hold by set_solver. rewrite lookup_insert_ne by set_solver. done.
    + intros x Hx. destruct (decide (x ∈ new)) as [Hin|Hnin].
      * destruct (Hnew x Hin) as (t' & ? & ? & ?). exists t'. set_solver.
      * assert (x = id) as -> by set_solver. exists t. rewrite Hold by done.
        rewrite lookup_insert_eq. set_solver.
Qed.

Lemma deletes_lookup {X} (ids : list string) (mx : gmap string X) x :
  foldl (fun mx id => delete id mx) mx ids !! x = if decide (x ∈ ids) then None else mx !! x.
Proof.
  revert mx. induction ids as [|i ids IH]; intros mx; cbn [foldl].
  - by rewrite decide_False by apply not_elem_of_nil.
  - rewrite IH, lookup_delete. destruct (decide (i = x)) as [->|Hne].
    + rewrite (decide_True (P := x ∈ x :: ids)) by left. by case_decide.
    + apply decide_ext. set_solver.
Qed.

Lemma new_node_started t : started (tn_status (new_node t)) = true -> tn_depends_on (new_node t) = [].
Proof. unfold new_node. cbn. by destruct (parse_depends_on t). Qed.

(** *** Every transition keeps [dep_safe] *)

(** A status change of [id] to [st] keeps [dep_safe] if nothing counted on [id]
    being completed, and if [id] may be in [st]. *)
Lemma set_status_dep_safe g id st :
  dep_safe g ->
  (forall n, tg_tasks g !! id = Some n -> tn_status n <> Completed) ->
  (forall n, tg_tasks g !! id = Some n -> started st = true -> started (tn_status n) = true) ->
  dep_safe (set_status g id st).
Proof.
  intros Hsafe Hnc Hst x n d Hx Hs Hd. rewrite set_status_lookup in Hx.
  assert (Hg : exists n0, tg_tasks g !! x = Some n0 /\ tn_depends_on n0 = tn_depends_on n
            /\ started (tn_status n0) = true).
  { case_decide as Hxi; [subst|by eauto]. destruct (tg_tasks g !! id) as [n0|] eqn:Hn0; simplify_eq/=.
    exists n0. split_and!; [done | done | by eapply Hst]. }
  destruct Hg as (n0 & Hn0 & Hdeps & Hs0). rewrite <- Hdeps in Hd.
  destruct (Hsafe _ _ _ Hn0 Hs0 Hd) as (nd & Hnd & Hc). exists nd. rewrite set_status_lookup.
  rewrite decide_False; [done|]. intros ->. by destruct (Hnc _ Hnd).
Qed.

Lemma task_status_Some g id st :
  task_status g id = Some st -> exists n, tg_tasks g !! id = Some n /\ tn_status n = st.
Proof. unfold task_status. intros H. destruct (tg_tasks g !! id); simplify_eq/=. eauto. Qed.

Lemma mark_completed_dep_safe g id :
  dep_safe g -> task_status g id = Some Running -> dep_safe (mark_completed g id).
Proof.
  intros Hsafe (nid & Hid & Hrun)%task_status_Some x n d Hx Hs Hd.
  set (m1 := tg_tasks (set_status g id Completed)).
  (* a completed task of [m1] is completed in the result *)
  assert (Hkeep : forall y ny, m1 !! y = Some ny -> tn_status ny = Completed ->
            tg_tasks (mark_completed g id) !! y = Some ny).
  { intros y ny Hy Hc. rewrite mark_completed_lookup. fold m1.
    rewrite decide_False; [done|]. rewrite elem_of_ids_to_promote. intros (n' & Hn' & Hp & _).
    simplify_eq. congruence. }
  assert (Hdone : forall y ny, tg_tasks g !! y = Some ny -> tn_status ny = Completed ->
            exists ny', m1 !! y = Some ny' /\ tn_status ny' = Completed).
  { intros y ny Hy Hc. unfold m1. rewrite set_status_lookup, Hy. case_decide; cbn; eauto. }
  rewrite mark_completed_lookup in Hx. fold m1 in Hx. case_decide as Hpr.
  - apply elem_of_ids_to_promote in Hpr as (n0 & Hn0 & _ & Hall). rewrite Hn0 in Hx. simplify_eq/=.
    destruct (proj1 (all_deps_completed_true _ _) Hall d Hd) as (nd & Hnd & Hc). eauto.
  - assert (Hg : exists n0, tg_tasks g !! x = Some n0 /\ tn_depends_on n0 = tn_depends_on n
              /\ started (tn_status n0) = true).
    { unfold m1 in Hx. rewrite set_status_lookup in Hx. case_decide as Hxi; [subst|by eauto].
      rewrite Hid in Hx. simplify_eq/=. exists nid. by rewrite Hrun. }
    destruct Hg as (n0 & Hn0 & Hdeps & Hs0). rewrite <- Hdeps in Hd.
    destruct (Hsafe _ _ _ Hn0 Hs0 Hd) as (nd & Hnd & Hc).
    destruct (Hdone _ _ Hnd Hc) as (nd' & ? & ?). eauto.
Qed.

Lemma fail_dep_safe g id :
  dep_safe g -> (exists n, tg_tasks g !! id = Some n /\ tn_status n <> Completed) ->
  dep_safe (fail_dependents (mark_failed g id) id).
Proof.
  intros Hsafe (nid & Hid & Hnc).
  assert (Hsafe1 : dep_safe (mark_failed g id))
    by (apply set_status_dep_safe; [done | intros; by simplify_eq | done]).
  destruct (fail_dependents_skips (mark_failed g id) id) as (K & Hsk & HK & _).
  intros x n d Hx Hs Hd. rewrite Hsk in Hx.
  case_decide as HxK; [destruct (tg_tasks (mark_failed g id) !! x); by simplify_eq/=|].
  destruct (Hsafe1 _ _ _ Hx Hs Hd) as (nd & Hnd & Hc). exists nd.
  rewrite Hsk, decide_False; [done|]. intros HdK. apply HxK, HK.
  eapply tc_r; [by apply HK|]. by exists n.
Qed.

Lemma add_dep_safe g ts g1 ids :
  dep_safe g -> add_loop g [] ts = (g1, Ok ids) ->
  (forall id, id ∈ ids -> tg_tasks g !! id = None) -> dep_safe g1.
Proof.
  intros Hsafe (new & -> & _ & Hold & Hnew)%add_loop_spec Hfresh x n d Hx Hs Hd.
  destruct (decide (x ∈ new)) as [Hin|Hnin].
  - destruct (Hnew x Hin) as (t & _ & _ & Ht). simplify_eq.
    rewrite (new_node_started _ Hs) in Hd. by apply not_elem_of_nil in Hd.
  - rewrite Hold in Hx by done. destruct (Hsafe _ _ _ Hx Hs Hd) as (nd & Hnd & Hc).
    exists nd. rewrite Hold; [done|]. intros Hin. by rewrite Hfresh in Hnd.
Qed.

Lemma tg_step_dep_safe g g' : tg_step g g' -> dep_safe g -> dep_safe g'.
Proof.
  intros [g0 ts ids g1 g2 Hloop Hfresh Hadd|g0 id H|g0 id H|g0 id H|g0 id H|g0 id H] Hsafe.
  - unfold add_tasks in Hadd. rewrite Hloop in Hadd. case_match; simplify_eq.
    by eapply add_dep_safe.
  - apply task_status_Some in H as (n & Hn & Hst).
    apply set_status_dep_safe; [done | | ]; intros; simplify_eq; by rewrite Hst.
  - apply task_status_Some in H as (n & Hn & Hst).
    apply set_status_dep_safe; [done | | ]; intros; simplify_eq; by rewrite Hst.
  - apply task_status_Some in H as (n & Hn & Hst).
    apply set_status_dep_safe; [done | | ]; intros; simplify_eq; by rewrite Hst.
  - by apply mark_completed_dep_safe.
  - apply fail_dep_safe; [done|].
    destruct H as [(n & Hn & Hst)%task_status_Some|(n & Hn & Hst)%task_status_Some];
      exists n; by rewrite Hst.
Qed.
End protocol.

(** * Properties *)

Section properties.
Context {V : Type} `{JL : JsonLib V} `{HO : HashOrder}.
Implicit Types (g : TaskGraph V).

(** C4: [detect_cycle] answers [true] exactly when some task of the graph depends on
    itself, directly or through other tasks of the graph; dependencies on ids that
    are not in the graph do not count. *)
Theorem detect_cycle_correct g :
  detect_cycle g = true <-> exists a, tc (dep (tg_tasks g)) a a.
Proof. destruct g as [m o]. apply detect_cycle_iff. Qed.

(** C6: cascading a failure marks as [Skipped] exactly the tasks that depend,
    directly or transitively, on the failed one, and changes nothing else. *)
Theorem fail_dependents_exact g task_id x :
  (tc (dependent (tg_tasks g)) task_id x ->
     tg_tasks (fail_dependents g task_id) !! x = tn_set_status Skipped <$> tg_tasks g !! x) /\
  (~ tc (dependent (tg_tasks g)) task_id x ->
     tg_tasks (fail_dependents g task_id) !! x = tg_tasks g !! x) /\
  tg_insertion_order (fail_dependents g task_id) = tg_insertion_order g.
Proof.
  destruct (fail_dependents_skips g task_id) as (K & Hsk & HK & Ho).
  rewrite Hsk. split_and!; [intros Htc; by rewrite decide_True by (by apply HK) | | done].
  intros Htc. by rewrite decide_False by (by rewrite HK).
Qed.

(** A batch that parses is kept as a whole when the merged graph has no
    dependency cycle; when it has one, the call fails, the insertion order is
    restored and every id of the batch is removed from the graph (also an id that
    named a task before the call). *)
Theorem add_tasks_spec g ts g1 ids (Hparse : add_loop g [] ts = (g1, Ok ids)) :
  ((forall a, ~ tc (dep (tg_tasks g1)) a a) -> add_tasks g ts = (g1, Ok tt)) /\
  ((exists a, tc (dep (tg_tasks g1)) a a) ->
    exists g', add_tasks g ts = (g', Err "Cycle detected in task dependencies") /\
      tg_insertion_order g' = tg_insertion_order g /\
      forall x, tg_tasks g' !! x = if decide (x ∈ ids) then None else tg_tasks g !! x).
Proof.
  unfold add_tasks. rewrite Hparse. destruct g1 as [m1 o1]. split.
  - intros Hac. destruct (detect_cycle _) eqn:Hd; [|done].
    apply detect_cycle_iff in Hd as [a Ha]. by destruct (Hac a).
  - intros Hcyc. rewrite (proj2 (detect_cycle_iff _ _) Hcyc). eexists. split; [done|].
    apply add_loop_spec in Hparse as (new & -> & Ho & Hold & _). cbn in *. subst.
    split; [by rewrite take_app_length|].
    intros x. rewrite deletes_lookup. case_decide; [done|]. by apply Hold.
Qed.

End properties.

(** * Witnesses *)

Module TaskGraphWitness.
#[local] Existing Instance map_to_list_order.

Definition task (id : string) (deps : list string) : JTree.t :=
  json_object [("task_id", jstr id); ("depends_on", jarr (jstr <$> deps))].

Definition chain : TaskGraph JTree.t :=
  (add_tasks tg_new [task "build" []; task "test" ["build"]; task "deploy" ["test"]]).1.

(** A batch whose two tasks wait for each other replaces and then loses a task
    that was in the graph. *)
Definition with_a : TaskGraph JTree.t := (add_tasks tg_new [task "a" []]).1.
Definition knot : list JTree.t := [task "a" ["b"]; task "b" ["a"]].

Lemma detect_cycle_correct_witness :
  detect_cycle chain = false /\ ~ exists a, tc (dep (tg_tasks chain)) a a.
Proof.
  split; [vm_compute; reflexivity|]. intros H.
  apply (proj2 (detect_cycle_correct chain)) in H. vm_compute in H. discriminate.
Defined.

Lemma fail_dependents_exact_witness :
  (tg_tasks (fail_dependents chain "build") !! "deploy") ≫= (fun n => Some (tn_status n))
  = Some Skipped.
Proof.
  rewrite (proj1 (fail_dependents_exact chain "build" "deploy")); [vm_compute; reflexivity|].
  apply tc_l with "test"; [|apply tc_once]; eexists; (split; [vm_compute; reflexivity | left]).
Defined.

Lemma add_tasks_spec_witness :
  exists g', add_tasks with_a knot = (g', Err "Cycle detected in task dependencies") /\
    tg_tasks with_a !! "a" <> None /\ tg_tasks g' !! "a" = None /\
    tg_insertion_order g' = ["a"].
Proof.
  assert (Hp : add_loop with_a [] knot = ((add_loop with_a [] knot).1, Ok ["a"; "b"]))
    by (vm_compute; reflexivity).
  destruct (proj2 (add_tasks_spec with_a knot _ _ Hp)) as (g' & Hadd & Ho & Hl).
  - exists "a". apply tc_l with "b"; [|apply tc_once]; eexists;
      (split; [vm_compute; reflexivity | split; [left | vm_compute; eauto]]).
  - exists g'. rewrite Hl, Ho. split; [done|]. split; [vm_compute; discriminate|].
    split; vm_compute; reflexivity.
Defined.

End TaskGraphWitness.
