(* ===== verification/Process.v ===== *)
(** Processes and the process registry ([agent_rt/process.rs], [agent_rt/registry.rs]).

    A process owns its mailbox, its behavior state and its link and monitor records.
    The registry maps pids to processes and names to pids. *)
From S2P Require Import Prelude Types.

Definition DEFAULT_MAILBOX_CAPACITY : nat := 1024.

Inductive ProcessStatus : Type :=
| Runnable
| Waiting
| Suspended
| Exiting.

#[export] Instance ProcessStatus_eq_dec : EqDecision ProcessStatus.
Proof. solve_decision. Defined.

Inductive Priority : Type :=
| HighPriority
| NormalPriority
| LowPriority.

#[export] Instance Priority_eq_dec : EqDecision Priority.
Proof. solve_decision. Defined.

Record AgentProcess (V B S : Type) : Type := mkProcess {
  p_pid : AgentPid;
  p_behavior : B;
  p_state : option S;
  p_mailbox : list (Message V);
  p_mailbox_capacity : nat;
  p_reductions : Z;
  p_status : ProcessStatus;
  p_priority : Priority;
  p_links : list AgentPid;
  p_monitors : list (MonitorRef * AgentPid);
  p_monitored_by : list (MonitorRef * AgentPid);
  p_supervisor : option AgentPid;
  p_trap_exit : bool;
  p_receive_timeout : option Instant
}.
Arguments mkProcess {V B S}.
Arguments p_pid {V B S}.
Arguments p_behavior {V B S}.
Arguments p_state {V B S}.
Arguments p_mailbox {V B S}.
Arguments p_mailbox_capacity {V B S}.
Arguments p_reductions {V B S}.
Arguments p_status {V B S}.
Arguments p_priority {V B S}.
Arguments p_links {V B S}.
Arguments p_monitors {V B S}.
Arguments p_monitored_by {V B S}.
Arguments p_supervisor {V B S}.
Arguments p_trap_exit {V B S}.
Arguments p_receive_timeout {V B S}.

(** Field updates. *)
Section setters.
Context {V B S : Type}.
Implicit Types p : AgentProcess V B S.

Definition with_state (x : option S) p : AgentProcess V B S :=
  mkProcess (p_pid p) (p_behavior p) x (p_mailbox p) (p_mailbox_capacity p) (p_reductions p)
    (p_status p) (p_priority p) (p_links p) (p_monitors p) (p_monitored_by p) (p_supervisor p)
    (p_trap_exit p) (p_receive_timeout p).
Definition with_mailbox (x : list (Message V)) p : AgentProcess V B S :=
  mkProcess (p_pid p) (p_behavior p) (p_state p) x (p_mailbox_capacity p) (p_reductions p)
    (p_status p) (p_priority p) (p_links p) (p_monitors p) (p_monitored_by p) (p_supervisor p)
    (p_trap_exit p) (p_receive_timeout p).
Definition with_reductions (x : Z) p : AgentProcess V B S :=
  mkProcess (p_pid p) (p_behavior p) (p_state p) (p_mailbox p) (p_mailbox_capacity p) x
    (p_status p) (p_priority p) (p_links p) (p_monitors p) (p_monitored_by p) (p_supervisor p)
    (p_trap_exit p) (p_receive_timeout p).
Definition with_status (x : ProcessStatus) p : AgentProcess V B S :=
  mkProcess (p_pid p) (p_behavior p) (p_state p) (p_mailbox p) (p_mailbox_capacity p) (p_reductions p)
    x (p_priority p) (p_links p) (p_monitors p) (p_monitored_by p) (p_supervisor p)
    (p_trap_exit p) (p_receive_timeout p).
Definition with_priority (x : Priority) p : AgentProcess V B S :=
  mkProcess (p_pid p) (p_behavior p) (p_state p) (p_mailbox p) (p_mailbox_capacity p) (p_reductions p)
    (p_status p) x (p_links p) (p_monitors p) (p_monitored_by p) (p_supervisor p)
    (p_trap_exit p) (p_receive_timeout p).
Definition with_links (x : list AgentPid) p : AgentProcess V B S :=
  mkProcess (p_pid p) (p_behavior p) (p_state p) (p_mailbox p) (p_mailbox_capacity p) (p_reductions p)
    (p_status p) (p_priority p) x (p_monitors p) (p_monitored_by p) (p_supervisor p)
    (p_trap_exit p) (p_receive_timeout p).
Definition with_monitors (x : list (MonitorRef * AgentPid)) p : AgentProcess V B S :=
  mkProcess (p_pid p) (p_behavior p) (p_state p) (p_mailbox p) (p_mailbox_capacity p) (p_reductions p)
    (p_status p) (p_priority p) (p_links p) x (p_monitored_by p) (p_supervisor p)
    (p_trap_exit p) (p_receive_timeout p).
Definition with_monitored_by (x : list (MonitorRef * AgentPid)) p : AgentProcess V B S :=
  mkProcess (p_pid p) (p_behavior p) (p_state p) (p_mailbox p) (p_mailbox_capacity p) (p_reductions p)
    (p_status p) (p_priority p) (p_links p) (p_monitors p) x (p_supervisor p)
    (p_trap_exit p) (p_receive_timeout p).
Definition with_trap_exit (x : bool) p : AgentProcess V B S :=
  mkProcess (p_pid p) (p_behavior p) (p_state p) (p_mailbox p) (p_mailbox_capacity p) (p_reductions p)
    (p_status p) (p_priority p) (p_links p) (p_monitors p) (p_monitored_by p) (p_supervisor p)
    x (p_receive_timeout p).
Definition with_receive_timeout (x : option Instant) p : AgentProcess V B S :=
  mkProcess (p_pid p) (p_behavior p) (p_state p) (p_mailbox p) (p_mailbox_capacity p) (p_reductions p)
    (p_status p) (p_priority p) (p_links p) (p_monitors p) (p_monitored_by p) (p_supervisor p)
    (p_trap_exit p) x.
End setters.

(** * Process operations *)

Section process.
Context {V B S W : Type} `{AB : AgentBehavior V B S W}.
Implicit Types p : AgentProcess V B S.

(** [AgentProcess::new_with_mailbox_capacity]: the pid is drawn from the process-wide
    counter before [init] runs, so a failing [init] still consumes one. *)
Definition process_new_with_mailbox_capacity (b : B) (args : V) (capacity : nat) (next_pid : Z) (w : W)
    : result (AgentProcess V B S) Reason * Z * W :=
  let '(pid, next_pid) := fetch_add1 next_pid in
  match b_init b args w with
  | (Ok state, w) =>
      (Ok (mkProcess pid b (Some state) [] capacity 0 Runnable NormalPriority [] [] [] None false None),
       next_pid, w)
  | (Err reason, w) => (Err reason, next_pid, w)
  end.

Definition process_new (b : B) (args : V) (next_pid : Z) (w : W)
    : result (AgentProcess V B S) Reason * Z * W :=
  process_new_with_mailbox_capacity b args DEFAULT_MAILBOX_CAPACITY next_pid w.

(** [deliver_message]: [None] is [Err(MailboxFull)]. *)
Definition deliver_message (msg : Message V) p : option (AgentProcess V B S) :=
  if (p_mailbox_capacity p <=? length (p_mailbox p))%nat then None
  else
    let p := with_mailbox (p_mailbox p ++ [msg]) p in
    let p := with_receive_timeout None p in
    Some (if decide (p_status p = Waiting) then with_status Runnable p else p).

(** [deliver_message(msg).ok()]: a full mailbox drops the message silently. *)
Definition deliver_ok (msg : Message V) p : AgentProcess V B S := default p (deliver_message msg p).

Definition has_messages p : bool := match p_mailbox p with [] => false | _ => true end.

Definition next_message p : option (Message V) * AgentProcess V B S :=
  match p_mailbox p with
  | [] => (None, p)
  | m :: rest => (Some m, with_mailbox rest p)
  end.

(** [terminate]: the callback runs under [catch_unwind]. *)
Definition process_terminate (reason : Reason) p (w : W) : AgentProcess V B S * W :=
  let p := with_status Exiting p in
  let w := match p_state p with
           | Some state => b_terminate (V := V) (p_behavior p) reason state w
           | None => w
           end in
  (with_state None p, w).
End process.

(** * The registry *)

Record AgentRegistry (V B S : Type) : Type := mkRegistry {
  r_processes : gmap AgentPid (AgentProcess V B S);
  r_names : gmap string AgentPid
}.
Arguments mkRegistry {V B S}.
Arguments r_processes {V B S}.
Arguments r_names {V B S}.

Section registry.
Context {V B S W : Type} `{AB : AgentBehavior V B S W} `{HO : HashOrder}.
Implicit Types r : AgentRegistry V B S.

Definition registry_new : AgentRegistry V B S := mkRegistry ∅ ∅.

Definition registry_spawn (b : B) (args : V) r (next_pid : Z) (w : W)
    : result AgentPid Reason * AgentRegistry V B S * Z * W :=
  match process_new b args next_pid w with
  | (Ok proc, next_pid, w) =>
      (Ok (p_pid proc), mkRegistry (<[p_pid proc := proc]> (r_processes r)) (r_names r), next_pid, w)
  | (Err reason, next_pid, w) => (Err reason, r, next_pid, w)
  end.

Definition registry_lookup (pid : AgentPid) r : option (AgentProcess V B S) := r_processes r !! pid.

(** An update through [registry.lookup_mut(&pid)], when the pid is registered. *)
Definition registry_alter (f : AgentProcess V B S -> AgentProcess V B S) (pid : AgentPid) r
    : AgentRegistry V B S :=
  mkRegistry (alter f pid (r_processes r)) (r_names r).

Definition registry_remove (pid : AgentPid) r : option (AgentProcess V B S) * AgentRegistry V B S :=
  match r_processes r !! pid with
  | Some proc =>
      (Some proc, mkRegistry (delete pid (r_processes r)) (filter (fun kv => kv.2 <> pid) (r_names r)))
  | None => (None, mkRegistry (delete pid (r_processes r)) (r_names r))
  end.

Definition register_name (name : string) (pid : AgentPid) r : result unit string * AgentRegistry V B S :=
  match r_names r !! name with
  | Some existing =>
      if decide (existing <> pid) then (Err ("Name '" +:+ name +:+ "' already registered"), r)
      else (Ok tt, mkRegistry (r_processes r) (<[name := pid]> (r_names r)))
  | None => (Ok tt, mkRegistry (r_processes r) (<[name := pid]> (r_names r)))
  end.

Definition unregister_name (name : string) r : AgentRegistry V B S :=
  mkRegistry (r_processes r) (delete name (r_names r)).

Definition lookup_name (name : string) r : option AgentPid := r_names r !! name.

Definition registry_count r : nat := size (r_processes r).

Definition registry_pids r : list AgentPid := hash_keys (r_processes r).
End registry.

(** * Facts *)

Section facts.
Context {V B S W : Type} `{AB : AgentBehavior V B S W} `{HO : HashOrder}.
Implicit Types (p : AgentProcess V B S) (r : AgentRegistry V B S).

(** A delivered message is appended, clears the timeout and wakes a waiting process. *)
Lemma deliver_message_Some msg p p' :
  deliver_message msg p = Some p' ->
  (length (p_mailbox p) < p_mailbox_capacity p)%nat /\
  p_mailbox p' = p_mailbox p ++ [msg] /\ p_receive_timeout p' = None /\
  p_status p' = (if decide (p_status p = Waiting) then Runnable else p_status p).
Proof.
  unfold deliver_message. intros H. case_match; simplify_eq. zify_bool. cbn. by case_decide.
Qed.

(** What delivery leaves alone. *)
Lemma deliver_message_frame msg p p' :
  deliver_message msg p = Some p' ->
  p_pid p' = p_pid p /\ p_behavior p' = p_behavior p /\ p_state p' = p_state p /\
  p_links p' = p_links p /\ p_monitors p' = p_monitors p /\ p_monitored_by p' = p_monitored_by p /\
  p_trap_exit p' = p_trap_exit p /\ p_mailbox_capacity p' = p_mailbox_capacity p /\
  p_priority p' = p_priority p /\ p_reductions p' = p_reductions p.
Proof. unfold deliver_message. intros H. case_match; simplify_eq. cbn. by case_decide. Qed.

Lemma registry_alter_lookup f pid r x :
  r_processes (registry_alter f pid r) !! x
  = if decide (x = pid) then f <$> r_processes r !! x else r_processes r !! x.
Proof. cbn. rewrite lookup_alter. repeat case_decide; congruence. Qed.

Lemma registry_remove_processes pid r :
  r_processes (registry_remove pid r).2 = delete pid (r_processes r).
Proof. unfold registry_remove. by destruct (r_processes r !! pid). Qed.

Lemma registry_spawn_cases b args r next w :
  match registry_spawn b args r next w with
  | (Ok pid, r', next', w') =>
      pid = next /\ next' = wrap64 (next + 1) /\ r_names r' = r_names r /\
      exists st, r_processes r' = <[next :=
        mkProcess next b (Some st) [] DEFAULT_MAILBOX_CAPACITY 0 Runnable NormalPriority [] [] []
          None false None]> (r_processes r)
  | (Err _, r', next', w') => r' = r /\ next' = wrap64 (next + 1)
  end.
Proof.
  unfold registry_spawn, process_new, process_new_with_mailbox_capacity, fetch_add1.
  destruct (b_init b args w) as [[st|e] w']; cbn; eauto.
Qed.
End facts.
