(* ===== verification/DeadLetter.v ===== *)
(** The dead-letter ring buffer ([agent_rt/dead_letter.rs]) and the runtime counters
    ([agent_rt/observability.rs]). *)
From S2P Require Import Prelude Types.

Inductive DeadLetterReason : Type :=
| MailboxFull
| ProcessNotFound
| ProcessTerminated.

Record DeadLetter : Type := mkDeadLetter {
  dl_timestamp : Instant;
  dl_sender_pid : option AgentPid;
  dl_target_pid : AgentPid;
  dl_reason : DeadLetterReason
}.

Record DeadLetterQueue : Type := mkDeadLetterQueue {
  dlq_buffer : list DeadLetter;
  dlq_capacity : nat;
  dlq_total_count : Z
}.

Definition dlq_new (capacity : nat) : DeadLetterQueue := mkDeadLetterQueue [] capacity 0.

Definition dlq_push (letter : DeadLetter) (q : DeadLetterQueue) : DeadLetterQueue :=
  let buffer := if (dlq_capacity q <=? length (dlq_buffer q))%nat then tail (dlq_buffer q)
                else dlq_buffer q in
  mkDeadLetterQueue (buffer ++ [letter]) (dlq_capacity q) (wrap64 (dlq_total_count q + 1)).

Definition dlq_len (q : DeadLetterQueue) : nat := length (dlq_buffer q).
Definition dlq_is_empty (q : DeadLetterQueue) : bool :=
  match dlq_buffer q with [] => true | _ => false end.

(** Pushing a sequence of letters into a fresh queue. *)
Definition dlq_push_all (capacity : nat) (letters : list DeadLetter) : DeadLetterQueue :=
  foldl (fun q l => dlq_push l q) (dlq_new capacity) letters.

Lemma dlq_push_all_snoc capacity letters l :
  dlq_push_all capacity (letters ++ [l]) = dlq_push l (dlq_push_all capacity letters).
Proof. unfold dlq_push_all. by rewrite foldl_app. Qed.

(** The queue holds the most recent letters, oldest first, and never more than its
    capacity (one, if the capacity is zero); the total counts every letter ever
    pushed, modulo the width of the counter. *)
Theorem dlq_keeps_most_recent capacity letters :
  let q := dlq_push_all capacity letters in
  dlq_buffer q = drop (length letters - Nat.max 1 capacity) letters /\
  (dlq_len q <= Nat.max 1 capacity)%nat /\
  dlq_total_count q = wrap64 (Z.of_nat (length letters)) /\
  dlq_capacity q = capacity.
Proof.
  cbn zeta. induction letters as [|l letters IH] using rev_ind; [by cbn; split_and!; try lia|].
  destruct IH as (Hbuf & Hlen & Htot & Hcap). unfold dlq_len in *.
  rewrite dlq_push_all_snoc. unfold dlq_push. cbn [dlq_buffer dlq_total_count dlq_capacity].
  rewrite Htot, Hcap, Hbuf, length_app. cbn [length].
  assert (Hmod : wrap64 (wrap64 (Z.of_nat (length letters)) + 1)
                 = wrap64 (Z.of_nat (length letters + 1))).
  { unfold wrap64. rewrite Z.add_mod_idemp_l by lia. f_equal. lia. }
  rewrite length_drop. case_match eqn:Hle; zify_bool.
  - assert (Hd : tail (drop (length letters - Nat.max 1 capacity) letters) ++ [l]
      = drop (length letters + 1 - Nat.max 1 capacity) (letters ++ [l])).
    { destruct (decide (length letters < Nat.max 1 capacity)%nat) as [Hlt|Hge].
      - assert (letters = []) as -> by (apply nil_length_inv; lia).
        cbn. by replace (1 - Nat.max 1 capacity)%nat with 0%nat by lia.
      - rewrite drop_app_le by lia. rewrite tail_drop. f_equal. f_equal. lia. }
    rewrite Hd. split_and!; [done | rewrite length_drop, length_app; cbn; lia | done | done].
  - replace (length letters - Nat.max 1 capacity)%nat with 0%nat by lia.
    replace (length letters + 1 - Nat.max 1 capacity)%nat with 0%nat by lia.
    rewrite !drop_0, length_app. cbn. split_and!; [done | lia | done | done].
Qed.

(** * Runtime counters *)

Record RuntimeMetrics : Type := mkMetrics {
  messages_sent_total : Z;
  messages_processed_total : Z;
  mailbox_rejections_total : Z;
  io_requests_total : Z;
  io_responses_total : Z;
  io_errors_total : Z;
  io_timeouts_total : Z;
  io_latency_samples : Z;
  io_latency_total_ms : Z;
  rate_limiter_waits_total : Z;
  rate_limiter_wait_ms_total : Z;
  rate_limiter_rejections_total : Z;
  process_terminations_total : Z
}.

Definition metrics_new : RuntimeMetrics := mkMetrics 0 0 0 0 0 0 0 0 0 0 0 0 0.

Definition bump (z : Z) : Z := wrap64 (z + 1).

Definition record_message_sent (m : RuntimeMetrics) : RuntimeMetrics :=
  let (a, b, c, d, e, f, g, h, i, j, k, l, n) := m in mkMetrics (bump a) b c d e f g h i j k l n.
Definition record_message_processed (m : RuntimeMetrics) : RuntimeMetrics :=
  let (a, b, c, d, e, f, g, h, i, j, k, l, n) := m in mkMetrics a (bump b) c d e f g h i j k l n.
Definition record_mailbox_rejection (m : RuntimeMetrics) : RuntimeMetrics :=
  let (a, b, c, d, e, f, g, h, i, j, k, l, n) := m in mkMetrics a b (bump c) d e f g h i j k l n.
Definition record_io_request (m : RuntimeMetrics) : RuntimeMetrics :=
  let (a, b, c, d, e, f, g, h, i, j, k, l, n) := m in mkMetrics a b c (bump d) e f g h i j k l n.

(** Milliseconds of a duration in nanoseconds, saturated to 64 bits. *)
Definition duration_to_ms (d : Duration) : Z :=
  let ms := d / 1000000 in if u64_max <? ms then u64_max else ms.

Definition record_io_result {V} (res : IoResult V) (latency : Duration) (m : RuntimeMetrics)
    : RuntimeMetrics :=
  let (a, b, c, d, e, f, g, h, i, j, k, l, n) := m in
  let '(f, g) := match res with
                 | IoError _ => (bump f, g)
                 | IoTimeout => (f, bump g)
                 | IoOk _ => (f, g)
                 end in
  mkMetrics a b c d (bump e) f g (bump h) (wrap64 (i + duration_to_ms latency)) j k l n.

Definition record_rate_limiter_rejection (m : RuntimeMetrics) : RuntimeMetrics :=
  let (a, b, c, d, e, f, g, h, i, j, k, l, n) := m in mkMetrics a b c d e f g h i j k (bump l) n.
Definition record_rate_limiter_wait (waited : Duration) (m : RuntimeMetrics) : RuntimeMetrics :=
  let (a, b, c, d, e, f, g, h, i, j, k, l, n) := m in
  mkMetrics a b c d e f g h i (bump j) (wrap64 (k + duration_to_ms waited)) l n.
Definition record_process_termination (m : RuntimeMetrics) : RuntimeMetrics :=
  let (a, b, c, d, e, f, g, h, i, j, k, l, n) := m in mkMetrics a b c d e f g h i j k l (bump n).
