(* ===== verification/RetryPolicy.v ===== *)
(** Per-task retry bookkeeping ([agent_rt/retry_policy.rs]). *)
From S2P Require Import Prelude Json.

Inductive RetryStrategy : Type :=
| RetryNone
| Immediate (max_attempts : Z)
| Backoff (max_attempts base_ms max_ms : Z)
| RetrySkip.

Definition RetryStrategy_default : RetryStrategy := RetryNone.

Record RetryTracker : Type := mkRetryTracker {
  rt_attempts : gmap string Z;
  rt_default_strategy : RetryStrategy;
  rt_per_task : gmap string RetryStrategy
}.

Definition retry_new (default_strategy : RetryStrategy) : RetryTracker :=
  mkRetryTracker ∅ default_strategy ∅.

Definition set_task_strategy (task_id : string) (s : RetryStrategy) (t : RetryTracker) : RetryTracker :=
  mkRetryTracker (rt_attempts t) (rt_default_strategy t) (<[task_id := s]> (rt_per_task t)).

Definition strategy_of (t : RetryTracker) (task_id : string) : RetryStrategy :=
  default (rt_default_strategy t) (rt_per_task t !! task_id).

Definition attempt_count (t : RetryTracker) (task_id : string) : Z :=
  default 0 (rt_attempts t !! task_id).

(** [*attempts.entry(task_id).or_insert(0) += 1] on a [u32]. *)
Definition bump_attempts (t : RetryTracker) (task_id : string) : Z * RetryTracker :=
  let count := wrap32 (attempt_count t task_id + 1) in
  (count, mkRetryTracker (<[task_id := count]> (rt_attempts t)) (rt_default_strategy t) (rt_per_task t)).

(** [Some(delay_ms)] to retry, [None] when the attempts are used up. *)
Definition should_retry (t : RetryTracker) (task_id : string) : option Z * RetryTracker :=
  match strategy_of t task_id with
  | RetryNone => (None, t)
  | RetrySkip => (None, t)
  | Immediate max_attempts =>
      let '(count, t) := bump_attempts t task_id in
      (if count <=? max_attempts then Some 0 else None, t)
  | Backoff max_attempts base_ms max_ms =>
      let '(count, t) := bump_attempts t task_id in
      if count <=? max_attempts then
        let delay := sat_mul64 base_ms (sat_pow64 2 (wrap32 (count - 1))) in
        (Some (Z.min delay max_ms), t)
      else (None, t)
  end.

Section parse.
Context {V : Type} `{JL : JsonLib V}.

(** The [retry] object of a task; a number is cast with [as u32]. *)
Definition parse_task_retry (task : V) : option RetryStrategy :=
  retry ← jget task "retry";
  strategy_str ← jget_str retry "strategy";
  let max_attempts := match jget_u64 retry "max_attempts" with Some v => wrap32 v | None => 3 end in
  if decide (strategy_str = "none") then Some RetryNone
  else if decide (strategy_str = "immediate") then Some (Immediate max_attempts)
  else if decide (strategy_str = "backoff") then
    Some (Backoff max_attempts (default 100 (jget_u64 retry "base_ms"))
            (default 1000 (jget_u64 retry "max_ms")))
  else if decide (strategy_str = "skip") then Some RetrySkip
  else None.
End parse.

(** The tracker after [n] questions about [task_id]. *)
Fixpoint retry_run (t : RetryTracker) (task_id : string) (n : nat) : RetryTracker :=
  match n with
  | O => t
  | S n => (should_retry (retry_run t task_id n) task_id).2
  end.

(** The intended answer to the [k]-th question, [k] counted from 1. *)
Definition retry_schedule (s : RetryStrategy) (k : Z) : option Z :=
  match s with
  | RetryNone | RetrySkip => None
  | Immediate m => if k <=? m then Some 0 else None
  | Backoff m base mx => if k <=? m then Some (Z.min (base * 2 ^ (k - 1)) mx) else None
  end.

(** Well-formed strategies hold machine words. *)
Definition strategy_ok (s : RetryStrategy) : Prop :=
  match s with
  | Backoff m base mx => is_u32 m /\ is_u64 base /\ is_u64 mx
  | Immediate m => is_u32 m
  | _ => True
  end.

(** The two saturations are invisible behind the cap. *)
Lemma saturated_backoff base mx k :
  is_u64 base -> is_u64 mx -> 0 <= k ->
  Z.min (sat_mul64 base (sat_pow64 2 k)) mx = Z.min (base * 2 ^ k) mx.
Proof.
  unfold is_u64, sat_mul64, sat_pow64. intros Hb Hm Hk. pose proof (Z.pow_pos_nonneg 2 k).
  destruct (Z.le_ge_cases (2 ^ k) u64_max) as [Hle|Hge].
  - rewrite (Z.min_l (2 ^ k)) by lia. lia.
  - rewrite (Z.min_r (2 ^ k)) by lia. destruct (Z.eq_dec base 0) as [->|Hb0]; [lia|].
    assert (u64_max <= base * u64_max) by nia. assert (u64_max <= base * 2 ^ k) by nia. lia.
Qed.

Lemma retry_run_frame t id n :
  rt_default_strategy (retry_run t id n) = rt_default_strategy t /\
  rt_per_task (retry_run t id n) = rt_per_task t /\
  (forall x, x <> id -> rt_attempts (retry_run t id n) !! x = rt_attempts t !! x).
Proof.
  induction n as [|n (Hd & Hp & Ha)]; [done|]. cbn. unfold should_retry, bump_attempts.
  case_all; split_and!; intros; rewrite ?lookup_insert_ne by done; auto.
Qed.

Lemma retry_run_strategy t id n x : strategy_of (retry_run t id n) x = strategy_of t x.
Proof. unfold strategy_of. by destruct (retry_run_frame t id n) as (-> & -> & _). Qed.

Lemma retry_run_count t id n :
  rt_attempts t !! id = None -> Z.of_nat n <= u32_max ->
  attempt_count (retry_run t id n) id
  = match strategy_of t id with RetryNone | RetrySkip => 0 | _ => Z.of_nat n end.
Proof.
  intros Hnone. induction n as [|n IH]; intros Hn.
  - cbn. unfold attempt_count. rewrite Hnone. cbn. by destruct (strategy_of t id).
  - cbn. unfold should_retry. rewrite retry_run_strategy.
    specialize (IH ltac:(lia)). destruct (strategy_of t id) eqn:Hs; [done | | | done].
    all: unfold bump_attempts; rewrite IH; case_all; unfold attempt_count; cbn;
      rewrite lookup_insert_eq; cbn; rewrite wrap32_small by (unfold is_u32; lia); lia.
Qed.

(** Asked again and again about a task it has not seen, the tracker follows the
    strategy in force for that task: [max_attempts] positive answers, the [k]-th with
    delay [min(base * 2^(k-1), max)], then only refusals (up to the 32-bit range of
    the counter); the questions change nothing for any other task. *)
Theorem retry_follows_schedule t id n :
  rt_attempts t !! id = None -> strategy_ok (strategy_of t id) -> Z.of_nat n < u32_max ->
  (should_retry (retry_run t id n) id).1 = retry_schedule (strategy_of t id) (Z.of_nat n + 1) /\
  (forall x, x <> id -> attempt_count (retry_run t id n) x = attempt_count t x).
Proof.
  intros Hnone Hok Hn. split.
  - pose proof (retry_run_count t id n Hnone ltac:(lia)) as Hc.
    unfold should_retry. rewrite retry_run_strategy. destruct (strategy_of t id) eqn:Hs; try done.
    all: unfold bump_attempts; rewrite Hc, wrap32_small by (unfold is_u32; lia); cbn.
    { done. }
    destruct Hok as (Hm & Hb & Hx). case_match; [|done]. cbn. f_equal.
    rewrite wrap32_small by (unfold is_u32; lia). rewrite saturated_backoff by (try done; lia).
    done.
  - intros x Hx. unfold attempt_count. by destruct (retry_run_frame t id n) as (_ & _ & ->).
Qed.

Lemma retry_follows_schedule_witness :
  (should_retry (retry_run (retry_new (Backoff 5 500 1000)) "t1" 2) "t1").1 = Some 1000 /\
  attempt_count (retry_run (retry_new (Backoff 5 500 1000)) "t1" 2) "t2" = 0.
Proof.
  destruct (retry_follows_schedule (retry_new (Backoff 5 500 1000)) "t1" 2) as [H1 H2].
  - done.
  - repeat split; vm_compute; discriminate.
  - vm_compute; reflexivity.
  - split; [exact H1 | exact (H2 "t2" ltac:(done))].
Defined.
