(* ===== verification/ResourceBudget.v ===== *)
(** Token and cost budgets of an orchestration ([agent_rt/resource_budget.rs]). *)
From S2P Require Import Prelude Float64 Json.

Record ModelPrice : Type := mkModelPrice { input_per_1k : f64; output_per_1k : f64 }.

(** [TokenPricing] wraps the map from model names to prices. *)
Record TokenPricing : Type := mkTokenPricing { model_prices : gmap string ModelPrice }.

Record ResourceBudget : Type := mkBudget {
  rb_max_tokens : option Z;
  rb_max_cost_usd : option f64;
  rb_tokens_used : Z;
  rb_cost_usd : f64;
  rb_pricing : TokenPricing
}.

Record UsageReport : Type := mkUsage {
  u_input_tokens : Z;
  u_output_tokens : Z;
  u_model : option string
}.

Definition budget_new (max_tokens : option Z) (max_cost_usd : option f64) (pricing : TokenPricing)
    : ResourceBudget :=
  mkBudget max_tokens max_cost_usd 0 f64_zero pricing.

Definition budget_unlimited : ResourceBudget := budget_new None None (mkTokenPricing ∅).

Definition is_exhausted (b : ResourceBudget) : bool :=
  let tokens_exhausted :=
    match rb_max_tokens b with Some max => max <=? rb_tokens_used b | None => false end in
  let cost_exhausted :=
    match rb_max_cost_usd b with Some max => f64_geb (rb_cost_usd b) max | None => false end in
  tokens_exhausted || cost_exhausted.

(** [(tokens as f64) / 1000.0 * price]. *)
Definition token_cost (tokens : Z) (price_per_1k : f64) : f64 :=
  f64_mul (f64_div (f64_of_Z tokens) (f64_of_Z 1000)) price_per_1k.

Definition usage_cost (b : ResourceBudget) (u : UsageReport) : f64 :=
  match u_model u with
  | Some model =>
      match model_prices (rb_pricing b) !! model with
      | Some prices =>
          f64_add (rb_cost_usd b)
            (f64_add (token_cost (u_input_tokens u) (input_per_1k prices))
                     (token_cost (u_output_tokens u) (output_per_1k prices)))
      | None => rb_cost_usd b
      end
  | None => rb_cost_usd b
  end.

(** The new budget, and whether it is now exhausted. *)
Definition record_usage (u : UsageReport) (b : ResourceBudget) : bool * ResourceBudget :=
  let total_tokens := sat_add64 (u_input_tokens u) (u_output_tokens u) in
  let b' := mkBudget (rb_max_tokens b) (rb_max_cost_usd b)
              (sat_add64 (rb_tokens_used b) total_tokens) (usage_cost b u) (rb_pricing b) in
  (is_exhausted b', b').

Section json.
Context {V : Type} `{JL : JsonLib V}.

Definition budget_snapshot (b : ResourceBudget) : V :=
  json_object [("tokens_used", jnum (rb_tokens_used b));
               ("max_tokens", json_option jnum (rb_max_tokens b));
               ("cost_usd", jfloat (rb_cost_usd b));
               ("max_cost_usd", json_option jfloat (rb_max_cost_usd b))].

Definition parse_usage (payload : V) : option UsageReport :=
  usage ← jget payload "usage";
  input_tokens ← jget_u64 usage "input_tokens";
  output_tokens ← jget_u64 usage "output_tokens";
  Some (mkUsage input_tokens output_tokens (jget_str usage "model")).
End json.

(** All the usage reported, in order. *)
Definition record_all (us : list UsageReport) (b : ResourceBudget) : ResourceBudget :=
  foldl (fun b u => (record_usage u b).2) b us.

Definition usage_tokens (u : UsageReport) : Z := u_input_tokens u + u_output_tokens u.
Definition total_usage (us : list UsageReport) : Z := foldr (fun u n => usage_tokens u + n) 0 us.

Definition usage_ok (u : UsageReport) : Prop := is_u64 (u_input_tokens u) /\ is_u64 (u_output_tokens u).

Lemma record_all_limits us b :
  rb_max_tokens (record_all us b) = rb_max_tokens b /\
  rb_max_cost_usd (record_all us b) = rb_max_cost_usd b.
Proof.
  unfold record_all. revert b. induction us as [|u us IH]; intros b; [done|]. cbn [foldl].
  by destruct (IH (record_usage u b).2) as [-> ->].
Qed.

Lemma record_all_tokens us b :
  is_u64 (rb_tokens_used b) -> Forall usage_ok us ->
  rb_tokens_used (record_all us b) = Z.min (rb_tokens_used b + total_usage us) u64_max /\
  0 <= total_usage us.
Proof.
  unfold record_all. revert b. induction us as [|u us IH]; intros b Hb Hus.
  - cbn. unfold is_u64 in Hb. lia.
  - apply Forall_cons in Hus as [[Hi Ho] Hus]. cbn [foldl].
    destruct (IH (record_usage u b).2) as [-> Hpos]; [cbn; eauto with zbeam | done |].
    cbn [record_usage snd rb_tokens_used total_usage foldr]. fold (total_usage us).
    unfold usage_tokens, sat_add64, is_u64 in *. lia.
Qed.

(** However usage is reported, the token counter is the sum of all reports clamped
    to 64 bits, and without a cost limit the budget is exhausted exactly when the
    true (unclamped) sum has reached the limit. *)
Theorem budget_counts_tokens us max_tokens pricing :
  Forall usage_ok us -> (forall m, max_tokens = Some m -> is_u64 m) ->
  let b := record_all us (budget_new max_tokens None pricing) in
  rb_tokens_used b = Z.min (total_usage us) u64_max /\
  (is_exhausted b = true <-> exists m, max_tokens = Some m /\ m <= total_usage us).
Proof.
  intros Hus Hmax. cbn zeta.
  destruct (record_all_tokens us (budget_new max_tokens None pricing)) as [Ht Hpos];
    [cbn; unfold is_u64; vm_compute; split; discriminate | done |].
  destruct (record_all_limits us (budget_new max_tokens None pricing)) as [Hm Hc].
  cbn in Ht, Hm, Hc. split; [done|]. unfold is_exhausted. rewrite Hm, Hc, orb_false_r, Ht.
  destruct max_tokens as [m|]; [|split; [done | by intros (? & ? & _)]].
  specialize (Hmax m eq_refl). unfold is_u64 in Hmax. rewrite Z.leb_le. split.
  - intros H. exists m. split; [done | lia].
  - intros (m' & [= <-] & H). lia.
Qed.

Lemma budget_counts_tokens_witness :
  is_exhausted (record_all [mkUsage 400 300 None; mkUsage 200 200 None]
    (budget_new (Some 1000) None (mkTokenPricing ∅))) = true.
Proof.
  apply (budget_counts_tokens [mkUsage 400 300 None; mkUsage 200 200 None] (Some 1000)).
  - repeat constructor; vm_compute; discriminate.
  - intros m [= <-]. split; vm_compute; discriminate.
  - exists 1000. split; [done | vm_compute; discriminate].
Defined.
