(* ===== verification/ApprovalGate.v ===== *)
(** Human approval of tasks ([agent_rt/approval_gate.rs]). *)
From S2P Require Import Prelude Json Types.

Record ApprovalRequest (V : Type) : Type := mkApprovalRequest {
  ar_message : string;
  ar_task : V;
  ar_requested_at : Instant
}.
Arguments mkApprovalRequest {V}.
Arguments ar_message {V}.
Arguments ar_task {V}.
Arguments ar_requested_at {V}.

Inductive ApprovalDecision : Type :=
| Approved
| Rejected (reason : string).

Record ApprovalRegistry (V : Type) : Type := mkApprovalRegistry {
  ap_pending : gmap (string * string) (ApprovalRequest V);
  ap_decisions : gmap (string * string) ApprovalDecision
}.
Arguments mkApprovalRegistry {V}.
Arguments ap_pending {V}.
Arguments ap_decisions {V}.

Section approval.
Context {V : Type} `{JL : JsonLib V} `{HO : HashOrder}.
Implicit Types r : ApprovalRegistry V.

Definition approval_new : ApprovalRegistry V := mkApprovalRegistry ∅ ∅.

Definition request_approval (orch_id task_id message : string) (task : V) (now : Instant) r
    : ApprovalRegistry V :=
  mkApprovalRegistry (<[(orch_id, task_id) := mkApprovalRequest message task now]> (ap_pending r))
    (ap_decisions r).

Definition submit_decision (orch_id task_id : string) (decision : ApprovalDecision) r
    : bool * ApprovalRegistry V :=
  match ap_pending r !! (orch_id, task_id) with
  | Some _ =>
      (true, mkApprovalRegistry (delete (orch_id, task_id) (ap_pending r))
               (<[(orch_id, task_id) := decision]> (ap_decisions r)))
  | None => (false, r)
  end.

Definition take_decision (orch_id task_id : string) r : option ApprovalDecision * ApprovalRegistry V :=
  (ap_decisions r !! (orch_id, task_id),
   mkApprovalRegistry (ap_pending r) (delete (orch_id, task_id) (ap_decisions r))).

Definition pending_requests r : list (string * string * ApprovalRequest V) := hash_iter (ap_pending r).

Definition has_pending (orch_id task_id : string) r : bool :=
  bool_decide (is_Some (ap_pending r !! (orch_id, task_id))).

Definition task_requires_approval (task : V) : bool :=
  default false (jget_bool task "requires_approval").

Definition approval_message (task : V) : string :=
  default "Approval required" (jget_str task "approval_message").

(** ** Histories of calls on the shared registry *)

Inductive ApprovalOp : Type :=
| ORequest (key : string * string) (message : string) (task : V) (now : Instant)
| OSubmit (key : string * string) (decision : ApprovalDecision)
| OTake (key : string * string).

(** What a call did, as its caller sees it. *)
Inductive ApprovalEvent : Type :=
| ERequested (key : string * string)
| EDecided (key : string * string) (decision : ApprovalDecision)
| ETaken (key : string * string) (decision : ApprovalDecision)
| ENothing.

Definition approval_exec (o : ApprovalOp) r : ApprovalEvent * ApprovalRegistry V :=
  match o with
  | ORequest k msg task now => (ERequested k, request_approval k.1 k.2 msg task now r)
  | OSubmit k d =>
      let '(ok, r) := submit_decision k.1 k.2 d r in (if ok then EDecided k d else ENothing, r)
  | OTake k =>
      let '(d, r) := take_decision k.1 k.2 r in
      (match d with Some d => ETaken k d | None => ENothing end, r)
  end.

Fixpoint approval_run (os : list ApprovalOp) r : list ApprovalEvent * ApprovalRegistry V :=
  match os with
  | [] => ([], r)
  | o :: os =>
      let '(e, r) := approval_exec o r in
      let '(es, r) := approval_run os r in (e :: es, r)
  end.

Definition count_events (p : ApprovalEvent -> bool) (es : list ApprovalEvent) : nat :=
  length (List.filter p es).

Definition is_requested (k : string * string) (e : ApprovalEvent) : bool :=
  match e with ERequested k' => bool_decide (k' = k) | _ => false end.
Definition is_decided (k : string * string) (e : ApprovalEvent) : bool :=
  match e with EDecided k' _ => bool_decide (k' = k) | _ => false end.
Definition is_taken (k : string * string) (e : ApprovalEvent) : bool :=
  match e with ETaken k' _ => bool_decide (k' = k) | _ => false end.

Definition present {A} (o : option A) : nat := match o with Some _ => 1 | None => 0 end.

Lemma count_events_cons p e es :
  count_events p (e :: es) = ((if p e then 1 else 0) + count_events p es)%nat.
Proof. unfold count_events. cbn. by destruct (p e). Qed.

(** One call: decisions never outnumber the requests and decisions they consume. *)
Lemma approval_exec_counts o r k :
  let e := (approval_exec o r).1 in
  let r' := (approval_exec o r).2 in
  ((if is_decided k e then 1 else 0) + present (ap_pending r' !! k)
     <= (if is_requested k e then 1 else 0) + present (ap_pending r !! k))%nat /\
  ((if is_taken k e then 1 else 0) + present (ap_decisions r' !! k)
     <= (if is_decided k e then 1 else 0) + present (ap_decisions r !! k))%nat.
Proof.
  destruct o as [[k1 k2] msg task now|[k1 k2] d|[k1 k2]]; cbn.
  - rewrite lookup_insert. case_decide; case_bool_decide; try congruence; cbn; split; lia.
  - unfold submit_decision. destruct (ap_pending r !! (k1, k2)) eqn:Hp; cbn; [|split; lia].
    rewrite lookup_delete, lookup_insert.
    destruct (decide ((k1, k2) = k)) as [<-|Hne].
    + rewrite Hp, bool_decide_eq_true_2 by done. cbn. lia.
    + rewrite bool_decide_eq_false_2 by done. lia.
  - destruct (ap_decisions r !! (k1, k2)) eqn:Hd; cbn; rewrite lookup_delete;
      destruct (decide ((k1, k2) = k)) as [<-|Hne];
      rewrite ?Hd, ?bool_decide_eq_true_2, ?bool_decide_eq_false_2 by done; cbn; lia.
Qed.

Lemma approval_run_counts os r k :
  let es := (approval_run os r).1 in
  (count_events (is_decided k) es <= count_events (is_requested k) es + present (ap_pending r !! k))%nat /\
  (count_events (is_taken k) es <= count_events (is_decided k) es + present (ap_decisions r !! k))%nat.
Proof.
  revert r. induction os as [|o os IH]; intros r; [cbn; lia|]. cbn zeta in *.
  pose proof (approval_exec_counts o r k) as Hone. cbn zeta in Hone. cbn [approval_run].
  destruct (approval_exec o r) as [e r1]. specialize (IH r1).
  destruct (approval_run os r1) as [es r2]. cbn [fst snd] in *.
  rewrite !count_events_cons. lia.
Qed.

(** No decision without a request, and none twice: in every history of the shared
    registry, each key's decisions are taken at most as often as decisions were
    accepted for it, and these were accepted at most as often as it was requested. *)
Theorem approval_no_forgery os k :
  let es := (approval_run os approval_new).1 in
  (count_events (is_taken k) es <= count_events (is_decided k) es)%nat /\
  (count_events (is_decided k) es <= count_events (is_requested k) es)%nat.
Proof.
  cbn zeta. destruct (approval_run_counts os approval_new k) as [H1 H2].
  assert (Hp : ap_pending approval_new !! k = None) by apply lookup_empty.
  assert (Hd : ap_decisions approval_new !! k = None) by apply lookup_empty.
  rewrite Hp in H1. rewrite Hd in H2. cbn [present] in *. lia.
Qed.
End approval.
