(* ===== verification/RateLimiter.v ===== *)
(** The per-provider sliding-window rate limiter ([agent_rt/rate_limiter.rs]). *)
From S2P Require Import Prelude Types DeadLetter.

Record ProviderLimit : Type := mkProviderLimit {
  pl_max_requests : Z;
  pl_window : Duration;
  pl_timestamps : list Instant
}.

(** The two mutex-protected cells of the handle: the limits, and the metrics sink. *)
Record RateLimiter : Type := mkRateLimiter {
  rl_providers : gmap string ProviderLimit;
  rl_default_limit : option (Z * Duration);
  rl_metrics : option RuntimeMetrics
}.

Definition limiter_new : RateLimiter := mkRateLimiter ∅ None None.

Definition set_metrics (m : RuntimeMetrics) (rl : RateLimiter) : RateLimiter :=
  mkRateLimiter (rl_providers rl) (rl_default_limit rl) (Some m).

Definition set_limit (provider : string) (max_requests : Z) (window : Duration) (rl : RateLimiter)
    : RateLimiter :=
  mkRateLimiter (<[provider := mkProviderLimit max_requests window []]> (rl_providers rl))
    (rl_default_limit rl) (rl_metrics rl).

Definition set_default_limit (max_requests : Z) (window : Duration) (rl : RateLimiter) : RateLimiter :=
  mkRateLimiter (rl_providers rl) (Some (max_requests, window)) (rl_metrics rl).

(** [now.duration_since(t)], which saturates at zero. *)
Definition duration_since (now t : Instant) : Duration := sat_sub now t.

Fixpoint evict (now : Instant) (window : Duration) (ts : list Instant) : list Instant :=
  match ts with
  | [] => []
  | front :: rest => if window <=? duration_since now front then evict now window rest else ts
  end.

(** The permit decision on one provider's limit.  A limit of zero requests reaches
    [timestamps.front().unwrap()] on an empty queue. *)
Definition acquire_on (now : Instant) (limit : ProviderLimit)
    : outcome (result unit Duration) * ProviderLimit :=
  let ts := evict now (pl_window limit) (pl_timestamps limit) in
  if Z.of_nat (length ts) <? pl_max_requests limit then
    (Returned (Ok tt), mkProviderLimit (pl_max_requests limit) (pl_window limit) (ts ++ [now]))
  else
    let limit' := mkProviderLimit (pl_max_requests limit) (pl_window limit) ts in
    match ts with
    | [] => (Panicked "called `Option::unwrap()` on a `None` value", limit')
    | oldest :: _ => (Returned (Err (pl_window limit - duration_since now oldest)), limit')
    end.

Definition try_acquire (provider : string) (now : Instant) (rl : RateLimiter)
    : outcome (result unit Duration) * RateLimiter :=
  let go limit :=
    let '(r, limit') := acquire_on now limit in
    let metrics := match r with
                   | Returned (Err _) => record_rate_limiter_rejection <$> rl_metrics rl
                   | _ => rl_metrics rl
                   end in
    (r, mkRateLimiter (<[provider := limit']> (rl_providers rl)) (rl_default_limit rl) metrics) in
  match rl_providers rl !! provider with
  | Some limit => go limit
  | None =>
      match rl_default_limit rl with
      | Some (max_req, window) => go (mkProviderLimit max_req window [])
      | None => (Returned (Ok tt), rl)
      end
  end.

(** [acquire_blocking]: [nows] are the clock readings of the successive attempts; the
    thread sleeps in between.  [None] when the readings run out first. *)
Fixpoint acquire_blocking (provider : string) (nows : list Instant) (rl : RateLimiter)
    : option (outcome RateLimiter) :=
  match nows with
  | [] => None
  | now :: nows =>
      match try_acquire provider now rl with
      | (Returned (Ok _), rl) => Some (Returned rl)
      | (Panicked e, _) => Some (Panicked e)
      | (Returned (Err wait), rl) =>
          acquire_blocking provider nows
            (mkRateLimiter (rl_providers rl) (rl_default_limit rl)
               (record_rate_limiter_wait wait <$> rl_metrics rl))
      end
  end.

(** The instants at which a sequence of attempts on one limit is granted. *)
Fixpoint grants (nows : list Instant) (limit : ProviderLimit) : list Instant :=
  match nows with
  | [] => []
  | now :: nows =>
      let '(r, limit) := acquire_on now limit in
      match r with
      | Returned (Ok _) => now :: grants nows limit
      | _ => grants nows limit
      end
  end.

(** Any [m + 1] consecutive entries span at least [w]. *)
Definition spaced (m : nat) (w : Duration) (l : list Instant) : Prop :=
  forall i a b, l !! i = Some a -> l !! (i + m)%nat = Some b -> w <= b - a.

(** A clock that does not run backwards, from [t0] on. *)
Fixpoint monotone_from (t0 : Instant) (nows : list Instant) : Prop :=
  match nows with [] => True | t :: nows => t0 <= t /\ monotone_from t nows end.

Lemma evict_suffix now w ts :
  0 <= w -> (forall g, g ∈ ts -> g <= now) ->
  exists old, ts = old ++ evict now w ts /\ (forall g, g ∈ old -> w <= now - g) /\
    (forall g rest, evict now w ts = g :: rest -> now - g < w).
Proof.
  intros Hw. induction ts as [|t ts IH]; intros Hle; cbn [evict].
  - exists []. split_and!; [done | by intros ? ?%not_elem_of_nil | done].
  - assert (Ht : t <= now) by (apply Hle; left).
    unfold duration_since, sat_sub. case_match; zify_bool.
    + destruct IH as (old & Heq & Hold & Hfst); [intros g Hg; apply Hle; by right|].
      exists (t :: old). split_and!; [cbn; by f_equal | | done].
      intros g [->|Hg]%elem_of_cons; [lia | by apply Hold].
    + exists []. split_and!; [done | by intros ? ?%not_elem_of_nil |].
      intros g rest [= -> ->]. lia.
Qed.

Lemma spaced_snoc m w l x :
  spaced m w l -> (forall i a, l !! i = Some a -> (i + m)%nat = length l -> w <= x - a) ->
  (0 < m)%nat -> spaced m w (l ++ [x]).
Proof.
  intros Hs Hx Hm i a b Ha Hb.
  assert (Hlen : (i + m < length (l ++ [x]))%nat) by (by apply lookup_lt_Some in Hb).
  rewrite length_app in Hlen. cbn in Hlen.
  rewrite lookup_app_l in Ha by lia. destruct (decide (i + m = length l)%nat) as [Heq|Hne].
  - rewrite Heq, lookup_app_r, Nat.sub_diag in Hb by done. cbn in Hb. simplify_eq. by eapply Hx.
  - rewrite lookup_app_l in Hb by lia. by eapply Hs.
Qed.

(** The run invariant: the limit holds the recent grants, the older ones have left
    the window. *)
Lemma grants_spaced m w nows t0 old ts :
  0 <= w -> (0 < m)%nat -> (length ts <= m)%nat -> spaced m w (old ++ ts) ->
  (forall g, g ∈ old -> w <= t0 - g) -> (forall g, g ∈ ts -> g <= t0) -> monotone_from t0 nows ->
  spaced m w ((old ++ ts) ++ grants nows (mkProviderLimit (Z.of_nat m) w ts)).
Proof.
  intros Hw Hm. revert t0 old ts.
  induction nows as [|now nows IH]; intros t0 old ts Hlen Hsp Hold Hle Hmono; cbn [grants].
  - by rewrite app_nil_r.
  - destruct Hmono as [Ht Hmono].
    destruct (evict_suffix now w ts) as (ev & Hts & Hev & Hfst);
      [done | intros g Hg; specialize (Hle g Hg); lia |].
    unfold acquire_on. cbn [pl_window pl_timestamps pl_max_requests].
    set (ts' := evict now w ts) in *. clearbody ts'. subst ts.
    rewrite length_app in Hlen.
    assert (Hold' : forall g, g ∈ old ++ ev -> w <= now - g).
    { intros g [Hg|Hg]%elem_of_app; [specialize (Hold g Hg); lia | by apply Hev]. }
    assert (Hle' : forall g, g ∈ ts' -> g <= now).
    { intros g Hg. assert (g <= t0) by (apply Hle; apply elem_of_app; by right). lia. }
    rewrite app_assoc in Hsp |- *.
    destruct (Z.of_nat (length ts') <? Z.of_nat m) eqn:Hlt; zify_bool.
    + replace (((old ++ ev) ++ ts') ++ now :: grants nows _)
        with (((old ++ ev) ++ (ts' ++ [now]))
              ++ grants nows (mkProviderLimit (Z.of_nat m) w (ts' ++ [now])))
        by (rewrite <- !app_assoc; done).
      apply (IH now).
      * rewrite length_app. cbn. lia.
      * rewrite app_assoc. apply spaced_snoc; [done | | done].
        intros i a Ha Hi. rewrite length_app in Hi. rewrite lookup_app_l in Ha by lia.
        apply Hold'. by eapply list_elem_of_lookup_2.
      * done.
      * intros g [Hg|Hg]%elem_of_app; [by apply Hle'|]. apply list_elem_of_singleton in Hg. lia.
      * done.
    + destruct ts' as [|oldest rest]; [cbn in *; lia|].
      apply (IH now); [lia | done..].
Qed.

Lemma grants_zero w nows ts : grants nows (mkProviderLimit 0 w ts) = [].
Proof.
  revert ts. induction nows as [|now nows IH]; intros ts; [done|]. cbn [grants].
  unfold acquire_on. cbn [pl_window pl_timestamps pl_max_requests].
  replace (Z.of_nat (length (evict now w ts)) <? 0) with false by (symmetry; apply Z.ltb_ge; lia).
  destruct (evict now w ts); apply IH.
Qed.

(** The window is respected.  With a limit of [m] requests per window [w] and a clock
    that does not run backwards, any [m + 1] consecutive granted requests span at
    least the window, whatever the attempts in between. *)
Theorem rate_limit_window m w t0 nows :
  0 <= w -> monotone_from t0 nows ->
  spaced m w (grants nows (mkProviderLimit (Z.of_nat m) w [])).
Proof.
  intros Hw Hmono. destruct m as [|m]; [by rewrite grants_zero; intros i a b Ha|].
  apply (grants_spaced (S m) w nows t0 [] []); try done; try lia.
  - cbn. lia.
  - intros g Hg. by apply not_elem_of_nil in Hg.
  - intros g Hg. by apply not_elem_of_nil in Hg.
Qed.

Lemma rate_limit_window_witness :
  grants [0; 1; 2; 10; 11] (mkProviderLimit 2 10 []) = [0; 1; 10; 11] /\
  spaced 2 10 (grants [0; 1; 2; 10; 11] (mkProviderLimit 2 10 [])).
Proof.
  split; [vm_compute; reflexivity|].
  apply (rate_limit_window 2 10 0); [lia | cbn; lia].
Defined.

Lemma try_acquire_limited provider now rl limit r limit' :
  rl_providers rl !! provider = Some limit -> acquire_on now limit = (r, limit') ->
  (try_acquire provider now rl).1 = r /\
  rl_providers (try_acquire provider now rl).2 !! provider = Some limit'.
Proof.
  intros Hp Hacq. unfold try_acquire. rewrite Hp, Hacq. cbn. by rewrite lookup_insert_eq.
Qed.

(** A refused caller is told a positive wait no longer than the window, the limit is
    not charged, and a retry at any time from then on is granted when nobody else used
    the provider: a blocking acquire that sleeps for that long ends at its second
    attempt. *)
Theorem rate_limit_wait m w ts now wait limit later :
  0 <= w -> (length ts <= m)%nat -> (forall g, g ∈ ts -> g <= now) ->
  acquire_on now (mkProviderLimit (Z.of_nat m) w ts) = (Returned (Err wait), limit) ->
  now + wait <= later ->
  0 < wait <= w /\
  forall provider rl, rl_providers rl !! provider = Some (mkProviderLimit (Z.of_nat m) w ts) ->
    exists rl', acquire_blocking provider [now; later] rl = Some (Returned rl').
Proof.
  intros Hw Hlen Hle Hacq Hlater.
  enough (0 < wait <= w /\ (acquire_on later limit).1 = Returned (Ok tt)) as [Hwait Hretry].
  { split; [done|]. intros provider rl Hp. cbn [acquire_blocking].
    destruct (try_acquire_limited _ _ _ _ _ _ Hp Hacq) as [H1 H2].
    destruct (try_acquire provider now rl) as [r1 rl1]. cbn in H1, H2. subst r1.
    destruct (acquire_on later limit) as [r2 limit2] eqn:Hacq2. cbn in Hretry. subst r2.
    set (rl2 := mkRateLimiter _ _ _).
    destruct (try_acquire_limited provider later rl2 limit _ _ H2 Hacq2) as [H3 _].
    destruct (try_acquire provider later rl2) as [r2 rl3]. cbn in H3. subst r2. eauto. }
  destruct (evict_suffix now w ts Hw Hle) as (ev & Hts & _ & Hfst).
  unfold acquire_on in Hacq. cbn [pl_window pl_timestamps pl_max_requests] in Hacq.
  destruct (Z.of_nat (length (evict now w ts)) <? Z.of_nat m) eqn:Hlt; [done|]. zify_bool.
  destruct (evict now w ts) as [|oldest rest] eqn:Hevict; [done|].
  injection Hacq as Hwait Hlimit. subst wait limit. specialize (Hfst oldest rest eq_refl).
  assert (Ho : oldest <= now) by (apply Hle; rewrite Hts; apply elem_of_app; right; left).
  unfold duration_since, sat_sub in *. split; [lia|].
  assert (Hev : (length (evict later w (oldest :: rest)) <= length rest)%nat).
  { cbn [evict]. unfold duration_since, sat_sub. case_match; zify_bool; [|lia].
    clear. induction rest as [|r rest IH]; cbn [evict]; [done|]. case_match; cbn; lia. }
  unfold acquire_on. cbn [pl_window pl_timestamps pl_max_requests].
  rewrite Hts, length_app in Hlen. cbn [length] in *.
  destruct (Z.of_nat (length (evict later w (oldest :: rest))) <? Z.of_nat m) eqn:Hlt'; [done|].
  zify_bool. lia.
Qed.

Lemma rate_limit_wait_witness :
  0 < 7 <= 10 /\
  exists rl', acquire_blocking "openai" [3; 12]
    (mkRateLimiter {["openai" := mkProviderLimit 2 10 [0; 1]]} None None) = Some (Returned rl').
Proof.
  enough (0 < 7 <= 10 /\
    forall provider rl, rl_providers rl !! provider = Some (mkProviderLimit 2 10 [0; 1]) ->
    exists rl', acquire_blocking provider [3; 12] rl = Some (Returned rl')) as [H1 H2].
  { split; [exact H1 | apply H2; vm_compute; reflexivity]. }
  apply (rate_limit_wait 2 10 [0; 1] 3 7 (mkProviderLimit 2 10 [0; 1]) 12);
    [lia | cbn; lia | | vm_compute; reflexivity | lia].
  intros g Hg. repeat (apply elem_of_cons in Hg as [->|Hg]; [lia|]). by apply not_elem_of_nil in Hg.
Defined.
