(* ===== verification/ResultAggregator.v ===== *)
(** How worker results are combined ([agent_rt/result_aggregator.rs]). *)
From S2P Require Import Prelude Json.

(** The double quote, for [trim_matches]. *)
Definition dquote : Ascii.ascii := Ascii.ascii_of_nat 34.

Fixpoint trim_start_quote (s : string) : string :=
  match s with
  | EmptyString => EmptyString
  | String c rest => if Ascii.eqb c dquote then trim_start_quote rest else s
  end.

(** Drops every trailing quote. *)
Fixpoint trim_end_quote (s : string) : string :=
  match s with
  | EmptyString => EmptyString
  | String c rest =>
      match trim_end_quote rest with
      | EmptyString => if Ascii.eqb c dquote then EmptyString else String c EmptyString
      | rest => String c rest
      end
  end.

(** [value.trim_matches(c)] with [c] the double quote. *)
Definition trim_quotes (s : string) : string := trim_end_quote (trim_start_quote s).

(** [ResultAggregator] trait objects: one constructor per implementation. *)
Inductive ResultAggregator : Type :=
| ConcatAggregator
| VoteAggregator (field : string)
| MergeAggregator.

Section aggregate.
Context {V : Type} `{JL : JsonLib V} `{HO : HashOrder}.

(** ** Vote *)

Definition count_vote (field : string) (counts : gmap string Z) (res : V) : gmap string Z :=
  match jget res field with
  | Some value => let key := jto_string value in <[key := default 0 (counts !! key) + 1]> counts
  | None => counts
  end.

Definition vote_counts (field : string) (results : list V) : gmap string Z :=
  foldl (count_vote field) ∅ results.

(** [iter().max_by_key(count)]: the last of the maximal entries. *)
Fixpoint max_by_count (best : option (string * Z)) (l : list (string * Z)) : option (string * Z) :=
  match l with
  | [] => best
  | (k, c) :: l =>
      match best with
      | None => max_by_count (Some (k, c)) l
      | Some (k0, c0) => max_by_count (if c0 <=? c then Some (k, c) else Some (k0, c0)) l
      end
  end.

Definition vote_winner (counts : gmap string Z) : string :=
  match max_by_count None (hash_iter counts) with
  | Some (value, _) => trim_quotes value
  | None => ""
  end.

(** The [votes] object is collected under the trimmed keys; a later entry replaces an
    earlier one with the same trimmed key. *)
Definition vote_object (counts : gmap string Z) : gmap string V :=
  foldl (fun m '(k, c) => <[trim_quotes k := jnum c]> m) ∅ (hash_iter counts).

Definition aggregate_vote (field : string) (results : list V) : V :=
  let counts := vote_counts field results in
  json_object [("winner", jstr (vote_winner counts)); ("votes", jobj (vote_object counts))].

(** ** Merge *)

(** Two arrays are concatenated, otherwise the later value wins. *)
Definition merge_value (existing value : V) : V :=
  match jas_array existing, jas_array value with
  | Some l, Some l' => jarr (l ++ l')
  | _, _ => value
  end.

Definition merge_entry (merged : gmap string V) (kv : string * V) : gmap string V :=
  match merged !! kv.1 with
  | Some existing => <[kv.1 := merge_value existing kv.2]> merged
  | None => <[kv.1 := kv.2]> merged
  end.

Definition merge_result (merged : gmap string V) (res : V) : gmap string V :=
  match jas_object res with
  | Some m => foldl merge_entry merged (map_to_list m)
  | None => merged
  end.

Definition merge_results (results : list V) : gmap string V := foldl merge_result ∅ results.

Definition aggregate (a : ResultAggregator) (results : list V) : V :=
  match a with
  | ConcatAggregator => jarr results
  | VoteAggregator field => aggregate_vote field results
  | MergeAggregator => jobj (merge_results results)
  end.

Definition build_aggregator (strategy : string) : ResultAggregator :=
  if decide (strategy = "concat") then ConcatAggregator
  else if decide (strategy = "vote") then VoteAggregator "decision"
  else if decide (strategy = "merge") then MergeAggregator
  else ConcatAggregator.

(** ** Specifications *)

(** How many results carry [field] with the rendering [key]. *)
Definition votes_for (field key : string) (results : list V) : nat :=
  length (filter (fun res => jto_string <$> jget res field = Some key) results).

Lemma votes_for_snoc field key results res :
  votes_for field key (results ++ [res])
  = (votes_for field key results
     + if decide (jto_string <$> jget res field = Some key) then 1 else 0)%nat.
Proof.
  unfold votes_for. rewrite filter_app, length_app. cbn.
  by destruct (decide (jto_string <$> jget res field = Some key)).
Qed.

Lemma vote_counts_lookup field results key :
  vote_counts field results !! key
  = (if decide (votes_for field key results = 0%nat) then None
     else Some (Z.of_nat (votes_for field key results))).
Proof.
  unfold vote_counts. induction results as [|res results IH] using rev_ind; [done|].
  rewrite foldl_app, votes_for_snoc. cbn [foldl]. unfold count_vote at 1.
  destruct (jget res field) as [value|]; cbn [fmap option_fmap option_map].
  - rewrite lookup_insert. destruct (decide (jto_string value = key)) as [->|Hne].
    + rewrite (decide_True (P := Some key = Some key)) by done. rewrite IH.
      rewrite (decide_False (P := (votes_for field key results + 1)%nat = 0%nat)) by lia.
      case_decide as Hz; cbn; [rewrite Hz; done | f_equal; lia].
    + rewrite (decide_False (P := Some (jto_string value) = Some key)) by congruence.
      by rewrite Nat.add_0_r.
  - rewrite (decide_False (P := None = Some key)) by done. by rewrite Nat.add_0_r.
Qed.

Lemma max_by_count_spec best l k c :
  max_by_count best l = Some (k, c) ->
  (best = Some (k, c) \/ (k, c) ∈ l) /\
  (forall k' c', best = Some (k', c') \/ (k', c') ∈ l -> c' <= c).
Proof.
  revert best. induction l as [|[k1 c1] l IH]; intros best H; cbn in H.
  - subst. split; [by left|]. intros k' c' [[= -> ->]|Hin]; [lia | by apply not_elem_of_nil in Hin].
  - destruct best as [[k0 c0]|].
    + apply IH in H as [Hin Hmax].
      assert (Hb : c0 <= c /\ c1 <= c).
      { case_match; zify_bool.
        - pose proof (Hmax k1 c1 (or_introl eq_refl)). lia.
        - pose proof (Hmax k0 c0 (or_introl eq_refl)). lia. }
      split.
      * destruct Hin as [Hin|Hin]; [|right; by right].
        case_match; simplify_eq; [right; left | by left].
      * intros k' c' [[= -> ->]|[[= -> ->]|Hin']%elem_of_cons]; [lia | lia |]. apply (Hmax k'). by right.
    + apply IH in H as [Hin Hmax]. split.
      * destruct Hin as [[= -> ->]|Hin]; right; [left | by right].
      * intros k' c' [?|[Heq|Hin']%elem_of_cons]; [done | |]; apply (Hmax k'); [left; by rewrite Heq | by right].
Qed.

Lemma max_by_count_None l : max_by_count None l = None -> l = [].
Proof.
  destruct l as [|[k c] l]; [done|]. cbn. revert k c.
  induction l as [|[k1 c1] l IH]; intros k c H; [done|]. cbn in H.
  case_match; by apply IH in H.
Qed.

(** The winner of a vote is (the unquoted rendering of) a value that no other value
    outvotes, and it is empty when no result has the field. *)
Theorem vote_winner_maximal field results :
  (exists key, vote_winner (vote_counts field results) = trim_quotes key /\
     (0 < votes_for field key results)%nat /\
     forall key', (votes_for field key' results <= votes_for field key results)%nat) \/
  (vote_winner (vote_counts field results) = "" /\ forall key, votes_for field key results = 0%nat).
Proof.
  unfold vote_winner. destruct (max_by_count None (hash_iter (vote_counts field results)))
    as [[key c]|] eqn:Hmax.
  - left. exists key. split; [done|]. apply max_by_count_spec in Hmax as [[?|Hin] Hall]; [done|].
    apply elem_of_hash_iter in Hin. rewrite vote_counts_lookup in Hin.
    case_decide as Hz; [done|]. simplify_eq. split; [lia|]. intros key'.
    destruct (decide (votes_for field key' results = 0%nat)) as [->|Hnz]; [lia|].
    specialize (Hall key' (Z.of_nat (votes_for field key' results))).
    rewrite elem_of_hash_iter, vote_counts_lookup, decide_False in Hall by done.
    specialize (Hall (or_intror eq_refl)). lia.
  - right. split; [done|]. intros key. apply max_by_count_None in Hmax.
    assert (Hk : vote_counts field results !! key = None).
    { destruct (vote_counts field results !! key) as [c|] eqn:Hc; [|done].
      apply elem_of_hash_iter in Hc. rewrite Hmax in Hc. by apply not_elem_of_nil in Hc. }
    rewrite vote_counts_lookup in Hk. by case_decide.
Qed.

(** The reference definition of a merge, one key at a time. *)
Definition merge_step (key : string) (acc : option V) (res : V) : option V :=
  match jget res key with
  | Some value => Some (match acc with Some existing => merge_value existing value | None => value end)
  | None => acc
  end.

Lemma merge_entries_lookup (l : list (string * V)) merged key :
  NoDup l.*1 ->
  foldl merge_entry merged l !! key
  = match (list_to_map l : gmap string V) !! key with
    | Some value => Some (match merged !! key with
                          | Some existing => merge_value existing value
                          | None => value
                          end)
    | None => merged !! key
    end.
Proof.
  revert merged. induction l as [|[k x] l IH]; intros merged Hnd; [done|].
  apply NoDup_cons in Hnd as [Hnin Hnd]. cbn [foldl]. rewrite IH by done.
  cbn [list_to_map foldr fst snd]. change (foldr _ ∅ l) with (list_to_map l : gmap string V).
  assert (Hm : merge_entry merged (k, x) !! key
    = if decide (k = key) then Some (match merged !! k with Some e => merge_value e x | None => x end)
      else merged !! key).
  { unfold merge_entry. cbn. destruct (merged !! k); by rewrite lookup_insert. }
  rewrite Hm. cbn. rewrite lookup_insert. destruct (decide (k = key)) as [->|Hne]; [|done].
  rewrite (not_elem_of_list_to_map_1 l key); done.
Qed.

(** Merging works key by key: the value under a key is obtained by walking through
    the results that have it, in order, concatenating arrays and otherwise letting the
    later value win; the order in which an object lists its keys does not matter. *)
Theorem merge_pointwise results key :
  merge_results results !! key = foldl (merge_step key) None results.
Proof.
  unfold merge_results. induction results as [|res results IH] using rev_ind; [done|].
  rewrite !foldl_app. cbn [foldl]. rewrite <- IH. unfold merge_result at 1, merge_step, jget.
  destruct (jas_object res) as [m|]; [|done]. cbn.
  rewrite merge_entries_lookup by apply NoDup_fst_map_to_list. by rewrite list_to_map_to_list.
Qed.
End aggregate.
