(* ===== verification/Ets.v ===== *)
(** In-memory tables with access control, quotas and inheritance ([agent_rt/ets.rs]). *)
From S2P Require Import Prelude Types.

Inductive AccessType : Type :=
| Public
| Protected
| Private.

Inductive TableId : Type :=
| TEts (id : Z)
| TDets (id : Z).

#[export] Instance TableId_eq_dec : EqDecision TableId.
Proof. solve_decision. Defined.

#[export] Program Instance TableId_countable : Countable TableId :=
  inj_countable'
    (fun t => match t with TEts i => inl i | TDets i => inr i end)
    (fun s => match s with inl i => TEts i | inr i => TDets i end) _.
Next Obligation. by intros []. Qed.

Record EtsTable (V : Type) : Type := mkEtsTable {
  et_name : string;
  et_access : AccessType;
  et_owner : AgentPid;
  et_heir : option AgentPid;
  et_data : gmap string V;
  et_max_entries : nat
}.
Arguments mkEtsTable {V}.
Arguments et_name {V}.
Arguments et_access {V}.
Arguments et_owner {V}.
Arguments et_heir {V}.
Arguments et_data {V}.
Arguments et_max_entries {V}.

Record EtsRegistry (V : Type) : Type := mkEtsRegistry {
  er_tables : gmap TableId (EtsTable V);
  er_max_tables : nat;
  er_max_entries_per_table : nat;
  er_next_table_id : Z   (* the process-wide NEXT_TABLE_ID *)
}.
Arguments mkEtsRegistry {V}.
Arguments er_tables {V}.
Arguments er_max_tables {V}.
Arguments er_max_entries_per_table {V}.
Arguments er_next_table_id {V}.

(** Access rules shared by in-memory and disk tables. *)
Definition check_write (access : AccessType) (owner caller : AgentPid) : result unit AgentRtError :=
  match access with
  | Public => Ok tt
  | Protected | Private =>
      if decide (caller = owner) then Ok tt else Err (EEts "write access denied")
  end.

Definition check_read (access : AccessType) (owner caller : AgentPid) : result unit AgentRtError :=
  match access with
  | Public | Protected => Ok tt
  | Private => if decide (caller = owner) then Ok tt else Err (EEts "read access denied")
  end.

(** [str::starts_with]. *)
Definition starts_with (k pre : string) : bool := String.prefix pre k.

Section ets.
Context {V : Type} `{HO : HashOrder}.
Implicit Types (r : EtsRegistry V) (t : EtsTable V).

Definition ets_new (max_tables max_entries_per_table : nat) : EtsRegistry V :=
  mkEtsRegistry ∅ max_tables max_entries_per_table 1.

Definition with_tables (ts : gmap TableId (EtsTable V)) r : EtsRegistry V :=
  mkEtsRegistry ts (er_max_tables r) (er_max_entries_per_table r) (er_next_table_id r).

Definition with_data (d : gmap string V) t : EtsTable V :=
  mkEtsTable (et_name t) (et_access t) (et_owner t) (et_heir t) d (et_max_entries t).

Definition ets_create (name : string) (access : AccessType) (owner : AgentPid) (heir : option AgentPid) r
    : result TableId AgentRtError * EtsRegistry V :=
  if (er_max_tables r <=? size (er_tables r))%nat then (Err (EEts "max tables exceeded"), r)
  else
    let '(id, next) := fetch_add1 (er_next_table_id r) in
    let table := mkEtsTable name access owner heir ∅ (er_max_entries_per_table r) in
    (Ok (TEts id),
     mkEtsRegistry (<[TEts id := table]> (er_tables r)) (er_max_tables r)
       (er_max_entries_per_table r) next).

(** [tables.get(tid).ok_or(...)]. *)
Definition find_table (tid : TableId) r : result (EtsTable V) AgentRtError :=
  ok_or (er_tables r !! tid) (EEts "table not found").

Definition ets_destroy (tid : TableId) (caller : AgentPid) r : result unit AgentRtError * EtsRegistry V :=
  match find_table tid r with
  | Err e => (Err e, r)
  | Ok table =>
      if decide (et_owner table <> caller) then (Err (EEts "only owner can destroy table"), r)
      else (Ok tt, with_tables (delete tid (er_tables r)) r)
  end.

Definition ets_get (tid : TableId) (key : string) (caller : AgentPid) r
    : result (option V) AgentRtError :=
  let? table := find_table tid r in
  let? _ := check_read (et_access table) (et_owner table) caller in
  Ok (et_data table !! key).

Definition ets_put (tid : TableId) (key : string) (value : V) (caller : AgentPid) r
    : result unit AgentRtError * EtsRegistry V :=
  match find_table tid r with
  | Err e => (Err e, r)
  | Ok table =>
      match check_write (et_access table) (et_owner table) caller with
      | Err e => (Err e, r)
      | Ok _ =>
          let is_new := bool_decide (et_data table !! key = None) in
          if is_new && (et_max_entries table <=? size (et_data table))%nat
          then (Err (EEts "table full"), r)
          else (Ok tt, with_tables (<[tid := with_data (<[key := value]> (et_data table)) table]>
                                      (er_tables r)) r)
      end
  end.

Definition ets_delete_key (tid : TableId) (key : string) (caller : AgentPid) r
    : result unit AgentRtError * EtsRegistry V :=
  match find_table tid r with
  | Err e => (Err e, r)
  | Ok table =>
      match check_write (et_access table) (et_owner table) caller with
      | Err e => (Err e, r)
      | Ok _ => (Ok tt, with_tables (<[tid := with_data (delete key (et_data table)) table]>
                                       (er_tables r)) r)
      end
  end.

Definition ets_count (tid : TableId) (caller : AgentPid) r : result nat AgentRtError :=
  let? table := find_table tid r in
  let? _ := check_read (et_access table) (et_owner table) caller in
  Ok (size (et_data table)).

Definition ets_keys (tid : TableId) (caller : AgentPid) r : result (list string) AgentRtError :=
  let? table := find_table tid r in
  let? _ := check_read (et_access table) (et_owner table) caller in
  Ok (hash_keys (et_data table)).

Definition ets_filter (tid : TableId) (caller : AgentPid) (predicate : string -> V -> bool) r
    : result (list (string * V)) AgentRtError :=
  let? table := find_table tid r in
  let? _ := check_read (et_access table) (et_owner table) caller in
  Ok (List.filter (fun '(k, v) => predicate k v) (hash_iter (et_data table))).

Definition ets_scan (tid : TableId) (pre : string) (caller : AgentPid) r
    : result (list (string * V)) AgentRtError :=
  let? table := find_table tid r in
  let? _ := check_read (et_access table) (et_owner table) caller in
  Ok (List.filter (fun '(k, _) => starts_with k pre) (hash_iter (et_data table))).

(** Ownership passes to the heir, who is consumed. *)
Definition transfer (new_owner : AgentPid) t : EtsTable V :=
  mkEtsTable (et_name t) (et_access t) new_owner None (et_data t) (et_max_entries t).

Definition ets_handle_process_death (pid : AgentPid) r : EtsRegistry V :=
  let to_remove := omap (fun '(tid, t) =>
    if bool_decide (et_owner t = pid) && bool_decide (et_heir t = None) then Some tid else None)
    (hash_iter (er_tables r)) in
  let tables := foldl (fun m tid => delete tid m) (er_tables r) to_remove in
  let to_transfer := omap (fun '(tid, t) =>
    if bool_decide (et_owner t = pid) then h ← et_heir t; Some (tid, h) else None)
    (hash_iter tables) in
  with_tables (foldl (fun m '(tid, new_owner) => alter (transfer new_owner) tid m) tables to_transfer) r.

(** ** Calls, as a transition system *)

Inductive EtsCall : Type :=
| CCreate (name : string) (access : AccessType) (owner : AgentPid) (heir : option AgentPid)
| CDestroy (tid : TableId) (caller : AgentPid)
| CPut (tid : TableId) (key : string) (value : V) (caller : AgentPid)
| CDeleteKey (tid : TableId) (key : string) (caller : AgentPid)
| CDeath (pid : AgentPid).

Definition ets_exec (c : EtsCall) r : EtsRegistry V :=
  match c with
  | CCreate name access owner heir => (ets_create name access owner heir r).2
  | CDestroy tid caller => (ets_destroy tid caller r).2
  | CPut tid key value caller => (ets_put tid key value caller r).2
  | CDeleteKey tid key caller => (ets_delete_key tid key caller r).2
  | CDeath pid => ets_handle_process_death pid r
  end.

#[local] Arguments ets_create : simpl never.
#[local] Arguments ets_destroy : simpl never.
#[local] Arguments ets_put : simpl never.
#[local] Arguments ets_delete_key : simpl never.
#[local] Arguments ets_handle_process_death : simpl never.

(** Quotas: the number of tables, and of entries in each. *)
Record ets_quota r : Prop := {
  eq_tables : (size (er_tables r) <= er_max_tables r)%nat;
  eq_limit : forall tid t, er_tables r !! tid = Some t ->
    et_max_entries t = er_max_entries_per_table r;
  eq_entries : forall tid t, er_tables r !! tid = Some t ->
    (size (et_data t) <= er_max_entries_per_table r)%nat
}.

(** ** Facts *)

Lemma deletes_lookup_ets {X} (ids : list TableId) (mx : gmap TableId X) x :
  foldl (fun mx id => delete id mx) mx ids !! x = if decide (x ∈ ids) then None else mx !! x.
Proof.
  revert mx. induction ids as [|i ids IH]; intros mx; cbn [foldl].
  - by rewrite decide_False by apply not_elem_of_nil.
  - rewrite IH, lookup_delete. destruct (decide (i = x)) as [->|Hne].
    + rewrite (decide_True (P := x ∈ x :: ids)) by left. by case_decide.
    + apply decide_ext. set_solver.
Qed.

Lemma transfers_lookup l (m : gmap TableId (EtsTable V)) x :
  NoDup l.*1 ->
  foldl (fun m '(tid, new_owner) => alter (transfer new_owner) tid m) m l !! x
  = match (list_to_map l : gmap TableId AgentPid) !! x with
    | Some h => transfer h <$> m !! x
    | None => m !! x
    end.
Proof.
  revert m. induction l as [|[tid h] l IH]; intros m Hnd; [done|].
  apply NoDup_cons in Hnd as [Hnin Hnd]. cbn [foldl]. rewrite IH by done.
  change (list_to_map ((tid, h) :: l)) with (<[tid := h]> (list_to_map l : gmap TableId AgentPid)).
  rewrite lookup_alter, lookup_insert. destruct (decide (tid = x)) as [->|Hne]; [|done].
  by rewrite (not_elem_of_list_to_map_1 l x).
Qed.

Lemma omap_entries_lookup {X Y} (m : gmap TableId X) (f : X -> option Y) :
  let l := omap (fun '(tid, x) => y ← f x; Some (tid, y)) (hash_iter m) in
  NoDup l.*1 /\ forall tid, (list_to_map l : gmap TableId Y) !! tid = m !! tid ≫= f.
Proof.
  cbn zeta. set (l := omap _ _).
  assert (Hl : forall tid y, (tid, y) ∈ l <-> exists x, m !! tid = Some x /\ f x = Some y).
  { intros tid y. unfold l. rewrite list_elem_of_omap. split.
    - intros ([tid' x] & Hin & Hf). apply elem_of_hash_iter in Hin.
      destruct (f x) as [y'|] eqn:Hy; cbn in Hf; simplify_eq. eauto.
    - intros (x & Ht & Hf). exists (tid, x). split; [by apply elem_of_hash_iter|]. by rewrite Hf. }
  assert (Hnd : NoDup l.*1).
  { unfold l. pose proof (NoDup_hash_keys m) as Hk. unfold hash_keys in Hk. clear Hl l.
    induction (hash_iter m) as [|[tid x] l IH]; cbn in *; [constructor|].
    apply NoDup_cons in Hk as [Hnin Hk]. destruct (f x) as [y|]; cbn; [|by apply IH].
    constructor; [|by apply IH]. rewrite list_elem_of_fmap. intros ([tid' y'] & -> & Hin).
    apply list_elem_of_omap in Hin as ([tid2 x2] & Hin & Hf).
    destruct (f x2); cbn in Hf; simplify_eq. apply Hnin. apply list_elem_of_fmap. by exists (tid', x2). }
  split; [done|]. intros tid. apply option_eq. intros y.
  rewrite <- elem_of_list_to_map by done. rewrite Hl. destruct (m !! tid); naive_solver.
Qed.

(** What a death does to each table. *)
Lemma handle_death_lookup pid r tid :
  er_tables (ets_handle_process_death pid r) !! tid
  = t ← er_tables r !! tid;
    if decide (et_owner t = pid)
    then h ← et_heir t; Some (transfer h t)
    else Some t.
Proof.
  unfold ets_handle_process_death. cbn zeta. set (rem := omap _ (hash_iter (er_tables r))).
  set (tables := foldl _ _ rem).
  assert (Hrem : tid ∈ rem <-> exists t, er_tables r !! tid = Some t /\ et_owner t = pid /\ et_heir t = None).
  { unfold rem. rewrite list_elem_of_omap. split.
    - intros ([tid' t] & Hin & Hf). apply elem_of_hash_iter in Hin.
      case_match eqn:Hb; simplify_eq. apply andb_true_iff in Hb as [? ?]. zify_bool. eauto.
    - intros (t & Ht & ? & ?). exists (tid, t). split; [by apply elem_of_hash_iter|].
      by rewrite !bool_decide_eq_true_2. }
  set (f := fun t : EtsTable V => if bool_decide (et_owner t = pid) then et_heir t else None).
  assert (Hom : omap (fun '(tid, t) => if bool_decide (et_owner t = pid) then h ← et_heir t; Some (tid, h) else None)
                  (hash_iter tables)
                = omap (fun '(tid, t) => y ← f t; Some (tid, y)) (hash_iter tables)).
  { apply list_omap_ext. apply Forall_Forall2_diag, Forall_forall. intros [tid' t] _. unfold f.
    by case_bool_decide. }
  rewrite Hom. destruct (omap_entries_lookup tables f) as [Hnd Hl].
  cbn [er_tables with_tables]. rewrite transfers_lookup, Hl by done.
  assert (Ht : tables !! tid = if decide (tid ∈ rem) then None else er_tables r !! tid)
    by apply deletes_lookup_ets.
  rewrite Ht. destruct (er_tables r !! tid) as [t|] eqn:Hr; cbn; [|by case_decide].
  destruct (decide (et_owner t = pid)) as [Ho|Ho]; destruct (et_heir t) as [h|] eqn:Hh; cbn.
  - rewrite decide_False by (rewrite Hrem; naive_solver). cbn. unfold f.
    by rewrite bool_decide_eq_true_2, Hh.
  - rewrite decide_True by (rewrite Hrem; naive_solver). done.
  - rewrite decide_False by (rewrite Hrem; naive_solver). cbn. unfold f.
    by rewrite bool_decide_eq_false_2.
  - rewrite decide_False by (rewrite Hrem; naive_solver). cbn. unfold f.
    by rewrite bool_decide_eq_false_2.
Qed.

Lemma find_table_Ok tid r t : find_table tid r = Ok t -> er_tables r !! tid = Some t.
Proof. unfold find_table. by destruct (er_tables r !! tid); intros; simplify_eq/=. Qed.

(** ** Quotas *)

Lemma quota_insert tid t r :
  ets_quota r -> is_Some (er_tables r !! tid) ->
  et_max_entries t = er_max_entries_per_table r ->
  (size (et_data t) <= er_max_entries_per_table r)%nat ->
  ets_quota (with_tables (<[tid := t]> (er_tables r)) r).
Proof.
  intros [H1 H2 H3] [t0 Ht0] Hm Hs. split; cbn.
  - rewrite map_size_insert_Some; eauto.
  - intros tid' t' [[-> ->]|[_ Hl]]%lookup_insert_Some; eauto.
  - intros tid' t' [[-> ->]|[_ Hl]]%lookup_insert_Some; eauto.
Qed.

Lemma quota_sub r (ts : gmap TableId (EtsTable V)) :
  ets_quota r ->
  (forall tid t, ts !! tid = Some t -> exists t0, er_tables r !! tid = Some t0 /\
     et_max_entries t = et_max_entries t0 /\ et_data t = et_data t0) ->
  ets_quota (with_tables ts r).
Proof.
  intros [H1 H2 H3] Hs. split; cbn.
  - etrans; [|exact H1]. rewrite <- !size_dom. apply subseteq_size.
    intros tid. rewrite !elem_of_dom. intros [t Ht]. destruct (Hs _ _ Ht) as (t0 & ? & _). eauto.
  - intros tid t Ht. destruct (Hs _ _ Ht) as (t0 & ? & -> & _). eauto.
  - intros tid t Ht. destruct (Hs _ _ Ht) as (t0 & ? & _ & ->). eauto.
Qed.

Lemma quota_create name access owner heir r :
  ets_quota r -> ets_quota (ets_create name access owner heir r).2.
Proof.
  intros [H1 H2 H3]. unfold ets_create. case_match eqn:Hq; [done|]. zify_bool. split; cbn.
  - rewrite map_size_insert. case_match; unfold id in *; lia.
  - intros tid t [[_ <-]|[_ Hl]]%lookup_insert_Some; eauto.
  - intros tid t [[_ <-]|[_ Hl]]%lookup_insert_Some; [cbn|eauto]. rewrite map_size_empty. lia.
Qed.

Lemma quota_put tid key value caller r :
  ets_quota r -> ets_quota (ets_put tid key value caller r).2.
Proof.
  intros Hq. unfold ets_put. destruct (find_table tid r) as [t|e] eqn:Hf; [|done].
  apply find_table_Ok in Hf. destruct (check_write _ _ _); [|done].
  case_match eqn:Hn; [done|]. pose proof (eq_limit _ Hq _ _ Hf) as Hl.
  pose proof (eq_entries _ Hq _ _ Hf) as He. apply quota_insert; cbn; [done|eauto|done|].
  rewrite map_size_insert. apply andb_false_iff in Hn as [Hn|Hn]; zify_bool.
  - destruct (et_data t !! key); unfold id in *; [lia|done].
  - case_match; unfold id in *; lia.
Qed.

Lemma quota_exec c r : ets_quota r -> ets_quota (ets_exec c r).
Proof.
  intros Hq. destruct c as [name access owner heir|tid caller|tid key value caller|tid key caller|pid]; cbn.
  - by apply quota_create.
  - unfold ets_destroy. destruct (find_table tid r); [|done]. case_decide; [done|].
    apply quota_sub; [done|]. intros tid' t' [_ Ht]%lookup_delete_Some. eauto.
  - by apply quota_put.
  - unfold ets_delete_key. destruct (find_table tid r) as [t|e] eqn:Hf; [|done].
    apply find_table_Ok in Hf. destruct (check_write _ _ _); [|done].
    pose proof (eq_limit _ Hq _ _ Hf) as Hl. pose proof (eq_entries _ Hq _ _ Hf) as He.
    apply quota_insert; cbn; [done|eauto|done|]. rewrite map_size_delete. case_match; unfold id in *; lia.
  - unfold ets_handle_process_death. cbn zeta. apply quota_sub; [done|]. intros tid t Ht.
    pose proof (handle_death_lookup pid r tid) as Hl. unfold ets_handle_process_death in Hl.
    cbn [er_tables with_tables] in Hl. rewrite Hl in Ht. destruct (er_tables r !! tid) as [t0|]; [|done].
    exists t0. cbn in Ht. case_decide; [|by simplify_eq]. by destruct (et_heir t0); simplify_eq/=.
Qed.

(** Whatever calls the agents make, the registry never holds more tables than
    [max_tables] nor a table with more entries than [max_entries_per_table]. *)
Theorem ets_quota_reachable (calls : list EtsCall) (max_tables max_entries : nat) :
  let r := foldl (flip ets_exec) (ets_new max_tables max_entries) calls in
  (size (er_tables r) <= max_tables)%nat /\
  forall tid t, er_tables r !! tid = Some t -> (size (et_data t) <= max_entries)%nat.
Proof.
  cbn zeta. set (r0 := ets_new max_tables max_entries).
  assert (Hq : forall cs r, ets_quota r ->
    ets_quota (foldl (flip ets_exec) r cs) /\
    er_max_tables (foldl (flip ets_exec) r cs) = er_max_tables r /\
    er_max_entries_per_table (foldl (flip ets_exec) r cs) = er_max_entries_per_table r).
  { induction cs as [|c cs IH]; intros r Hr; [done|]. cbn [foldl flip].
    destruct (IH (ets_exec c r)) as (? & -> & ->); [by apply quota_exec|]. split; [done|].
    destruct c; cbn; unfold ets_create, ets_destroy, ets_put, ets_delete_key; by case_all. }
  destruct (Hq calls r0) as ([H1 _ H3] & Hm & He).
  - split; cbn; [rewrite map_size_empty; lia|done|done].
  - rewrite Hm in H1. rewrite He in H3. eauto.
Qed.

(** ** Isolation *)

(** The process on whose behalf a call runs. *)
Definition call_actor (c : EtsCall) : AgentPid :=
  match c with
  | CCreate _ _ owner _ => owner
  | CDestroy _ caller | CPut _ _ _ caller | CDeleteKey _ _ caller => caller
  | CDeath pid => pid
  end.

(** Every table carries an identifier that was drawn from the counter. *)
Definition ids_drawn r : Prop :=
  forall tid t, er_tables r !! tid = Some t -> exists i, tid = TEts i /\ i < er_next_table_id r.

Lemma exec_next c r :
  is_u64 (er_next_table_id r + 1) -> 0 <= er_next_table_id r ->
  er_next_table_id r <= er_next_table_id (ets_exec c r) <= er_next_table_id r + 1.
Proof.
  intros Hr H0. destruct c as [name access owner heir|tid caller|tid key value caller|tid key caller|pid];
    cbn; unfold ets_create, ets_destroy, ets_put, ets_delete_key, ets_handle_process_death, fetch_add1;
    repeat case_match; simplify_eq; cbn; rewrite ?wrap64_small by done; lia.
Qed.

Lemma ids_drawn_exec c r :
  is_u64 (er_next_table_id r + 1) -> 0 <= er_next_table_id r -> ids_drawn r -> ids_drawn (ets_exec c r).
Proof.
  intros Hr H0 Hi tid t Ht. pose proof (exec_next c r Hr H0) as Hn.
  assert (is_Some (er_tables r !! tid) \/
    (tid = TEts (er_next_table_id r) /\ er_next_table_id (ets_exec c r) = er_next_table_id r + 1))
    as [[t0 Ht0]|[-> Hs]].
  - clear Hn. destruct c as [name access owner heir|tid' caller|tid' key value caller|tid' key caller|pid]; cbn in *.
    + unfold ets_create, fetch_add1 in *. case_match; [eauto|]. cbn in *.
      apply lookup_insert_Some in Ht as [[<- _]|[_ Ht]]; [right|by eauto].
      by rewrite wrap64_small.
    + unfold ets_destroy in *. left. case_all; eauto. apply lookup_delete_Some in Ht as [_ ?]. eauto.
    + unfold ets_put in *. left. destruct (find_table tid' r) as [t1|] eqn:Hf; [|eauto].
      apply find_table_Ok in Hf. repeat case_match; cbn in Ht; eauto;
        apply lookup_insert_Some in Ht as [[<- _]|[_ Ht]]; eauto.
    + unfold ets_delete_key in *. left. destruct (find_table tid' r) as [t1|] eqn:Hf; [|eauto].
      apply find_table_Ok in Hf. repeat case_match; cbn in Ht; eauto;
        apply lookup_insert_Some in Ht as [[<- _]|[_ Ht]]; eauto.
    + left. rewrite handle_death_lookup in Ht. destruct (er_tables r !! tid); [eauto|done].
  - destruct (Hi _ _ Ht0) as (i & -> & ?). exists i. split; [done|lia].
  - exists (er_next_table_id r). split; [done|]. lia.
Qed.

(** A call of another process leaves a table that is not public as it is. *)
Lemma exec_isolated c r tid t :
  ids_drawn r -> er_tables r !! tid = Some t -> et_access t <> Public ->
  call_actor c <> et_owner t -> er_tables (ets_exec c r) !! tid = Some t.
Proof.
  intros Hi Ht Ha Hc. destruct c as [name access owner heir|tid' caller|tid' key value caller|tid' key caller|pid];
    cbn in *.
  - unfold ets_create, fetch_add1. case_match; [done|]. cbn. rewrite lookup_insert_ne; [done|].
    destruct (Hi _ _ Ht) as (i & -> & ?). intros [=]. lia.
  - unfold ets_destroy. destruct (find_table tid' r) as [t1|] eqn:Hf; [|done].
    apply find_table_Ok in Hf. case_decide as Ho; [done|]. cbn. rewrite lookup_delete_ne; [done|].
    intros ->. by simplify_eq.
  - unfold ets_put. destruct (find_table tid' r) as [t1|] eqn:Hf; [|done].
    apply find_table_Ok in Hf. destruct (check_write _ _ _) eqn:Hw; [|done]. case_match; [done|]. cbn.
    rewrite lookup_insert_ne; [done|]. intros ->. simplify_eq. unfold check_write in Hw.
    destruct (et_access t); [done|..]; case_decide; congruence.
  - unfold ets_delete_key. destruct (find_table tid' r) as [t1|] eqn:Hf; [|done].
    apply find_table_Ok in Hf. destruct (check_write _ _ _) eqn:Hw; [|done]. cbn.
    rewrite lookup_insert_ne; [done|]. intros ->. simplify_eq. unfold check_write in Hw.
    destruct (et_access t); [done|..]; case_decide; congruence.
  - rewrite handle_death_lookup, Ht. cbn. rewrite decide_False; congruence.
Qed.

Lemma exec_list_isolated cs r tid t :
  ids_drawn r -> 0 <= er_next_table_id r -> er_next_table_id r + Z.of_nat (length cs) <= u64_max ->
  er_tables r !! tid = Some t -> et_access t <> Public ->
  Forall (fun c => call_actor c <> et_owner t) cs ->
  er_tables (foldl (flip ets_exec) r cs) !! tid = Some t.
Proof.
  revert r. induction cs as [|c cs IH]; intros r Hi H0 Hn Ht Ha Hc; [done|]. cbn [foldl flip].
  apply Forall_cons in Hc as [Hc Hcs]. cbn [length] in Hn.
  pose proof (exec_next c r ltac:(unfold is_u64; lia) H0) as Hx.
  apply IH; try done; try lia; [by apply ids_drawn_exec; [unfold is_u64; lia|..]|].
  by apply exec_isolated.
Qed.

Lemma exec_list_drawn cs r :
  ids_drawn r -> 0 <= er_next_table_id r -> er_next_table_id r + Z.of_nat (length cs) <= u64_max ->
  let r' := foldl (flip ets_exec) r cs in
  ids_drawn r' /\ 0 <= er_next_table_id r' <= er_next_table_id r + Z.of_nat (length cs).
Proof.
  revert r. induction cs as [|c cs IH]; intros r Hi H0 Hn; cbn zeta; [cbn; split; [done|lia]|].
  cbn [foldl flip length] in *. pose proof (exec_next c r ltac:(unfold is_u64; lia) H0) as Hx.
  destruct (IH (ets_exec c r)) as [? ?]; [|lia|lia|split; [done|lia]].
  by apply ids_drawn_exec; [unfold is_u64; lia|..].
Qed.

(** A protected or private table that an agent owns, however the registry got
    there, is untouched by any sequence of calls other processes make, their deaths
    included: no other process can write, delete, shrink, destroy or inherit it.
    The only bound is that the 64-bit table counter has not wrapped. *)
Theorem ets_isolation (before after : list EtsCall) (max_tables max_entries : nat)
    (tid : TableId) (t : EtsTable V) :
  Z.of_nat (length before + length after) < u64_max ->
  let r := foldl (flip ets_exec) (ets_new max_tables max_entries) before in
  er_tables r !! tid = Some t -> et_access t <> Public ->
  Forall (fun c => call_actor c <> et_owner t) after ->
  er_tables (foldl (flip ets_exec) r after) !! tid = Some t.
Proof.
  intros Hn. cbn zeta. intros Ht Ha Hf.
  destruct (exec_list_drawn before (ets_new max_tables max_entries)) as [Hi Hx];
    [intros ? ? [=] | cbn; lia | cbn; lia |].
  cbn [er_next_table_id ets_new] in Hx. apply exec_list_isolated; try done; lia.
Qed.

(** When an owner dies its tables without an heir disappear, those with one pass
    to the heir with their data (and only once: the heir is cleared), every other
    table stays; so the dead process owns nothing any more, except a table that named
    the owner itself as its heir. *)
Theorem ets_death_spec (pid : AgentPid) r (tid : TableId) :
  let r' := ets_handle_process_death pid r in
  (er_tables r' !! tid
   = t ← er_tables r !! tid;
     if decide (et_owner t = pid) then h ← et_heir t; Some (transfer h t) else Some t) /\
  (forall t', er_tables r' !! tid = Some t' -> et_owner t' = pid ->
     exists t, er_tables r !! tid = Some t /\ et_owner t = pid /\ et_heir t = Some pid).
Proof.
  cbn zeta. rewrite handle_death_lookup. split; [done|]. intros t' Ht' Ho.
  destruct (er_tables r !! tid) as [t|]; [|done]. cbn in Ht'. exists t. split; [done|].
  case_decide as Hp; [|naive_solver]. destruct (et_heir t) eqn:Hh; naive_solver.
Qed.
End ets.
Arguments EtsCall V : clear implicits.

Module EtsWitness.
#[local] Existing Instance map_to_list_order.

Definition setup : list (EtsCall string) :=
  [CCreate "t" Protected 7 (Some 9); CPut (TEts 1) "k" "v" 7].
Definition attack : list (EtsCall string) :=
  [CPut (TEts 1) "k" "w" 8; CDestroy (TEts 1) 8; CDeleteKey (TEts 1) "k" 9; CDeath 9].

Lemma ets_isolation_witness :
  exists t, er_tables (foldl (flip ets_exec) (ets_new 2 2) setup) !! TEts 1 = Some t /\
    et_data t !! "k" = Some "v" /\
    er_tables (foldl (flip ets_exec) (foldl (flip ets_exec) (ets_new 2 2) setup) attack) !! TEts 1 = Some t.
Proof.
  exists (mkEtsTable "t" Protected 7 (Some 9) {["k" := "v"]} 2).
  split; [vm_compute; reflexivity|]. split; [vm_compute; reflexivity|].
  apply (ets_isolation setup attack 2 2 (TEts 1)).
  - vm_compute. reflexivity.
  - vm_compute. reflexivity.
  - cbn. discriminate.
  - repeat constructor; cbn; discriminate.
Defined.
End EtsWitness.
