(* ===== verification/Scheduler.v ===== *)
(** The scheduler ([agent_rt/scheduler.rs]): run queues, message delivery, the dispatch
    of a process's mailbox, and process termination. *)
From S2P Require Import Prelude Types Process DeadLetter.

Definition DEFAULT_REDUCTIONS : Z := 200.
Definition NORMAL_ADVANTAGE : nat := 8.
Definition DEAD_LETTER_CAPACITY : nat := 256.

Record AgentScheduler (V B St Br Hk H : Type) : Type := mkScheduler {
  s_registry : AgentRegistry V B St;
  s_queue_high : list AgentPid;
  s_queue_normal : list AgentPid;
  s_queue_low : list AgentPid;
  s_allow_external_routing : bool;
  s_outbound_messages : list (AgentPid * Message V);
  s_advantage_count : nat;
  s_bridge : option Br;
  s_pending_destroys : list (AgentPid * Z);
  s_dead_letters : DeadLetterQueue;
  s_metrics : RuntimeMetrics;
  s_exit_handlers : list H;
  s_message_hook : option Hk;
  s_next_pid : Z;   (* the process-wide NEXT_AGENT_PID *)
  s_next_ref : Z;   (* the process-wide NEXT_MONITOR_REF *)
  s_clock_reads : nat   (* how often the clock has been read *)
}.
Arguments mkScheduler {V B St Br Hk H}.
Arguments s_registry {V B St Br Hk H}.
Arguments s_queue_high {V B St Br Hk H}.
Arguments s_queue_normal {V B St Br Hk H}.
Arguments s_queue_low {V B St Br Hk H}.
Arguments s_allow_external_routing {V B St Br Hk H}.
Arguments s_outbound_messages {V B St Br Hk H}.
Arguments s_advantage_count {V B St Br Hk H}.
Arguments s_bridge {V B St Br Hk H}.
Arguments s_pending_destroys {V B St Br Hk H}.
Arguments s_dead_letters {V B St Br Hk H}.
Arguments s_metrics {V B St Br Hk H}.
Arguments s_exit_handlers {V B St Br Hk H}.
Arguments s_message_hook {V B St Br Hk H}.
Arguments s_next_pid {V B St Br Hk H}.
Arguments s_next_ref {V B St Br Hk H}.
Arguments s_clock_reads {V B St Br Hk H}.

(** Field updates. *)
Section setters.
Context {V B St Br Hk H : Type}.
Abbreviation Sched := (AgentScheduler V B St Br Hk H).
Implicit Types s : Sched.

Definition upd_registry (x : AgentRegistry V B St) s : Sched :=
  mkScheduler x (s_queue_high s) (s_queue_normal s) (s_queue_low s)
    (s_allow_external_routing s) (s_outbound_messages s) (s_advantage_count s) (s_bridge s)
    (s_pending_destroys s) (s_dead_letters s) (s_metrics s) (s_exit_handlers s)
    (s_message_hook s) (s_next_pid s) (s_next_ref s) (s_clock_reads s).
Definition upd_queue_high (x : list AgentPid) s : Sched :=
  mkScheduler (s_registry s) x (s_queue_normal s) (s_queue_low s) (s_allow_external_routing s)
    (s_outbound_messages s) (s_advantage_count s) (s_bridge s) (s_pending_destroys s)
    (s_dead_letters s) (s_metrics s) (s_exit_handlers s) (s_message_hook s) (s_next_pid s)
    (s_next_ref s) (s_clock_reads s).
Definition upd_queue_normal (x : list AgentPid) s : Sched :=
  mkScheduler (s_registry s) (s_queue_high s) x (s_queue_low s) (s_allow_external_routing s)
    (s_outbound_messages s) (s_advantage_count s) (s_bridge s) (s_pending_destroys s)
    (s_dead_letters s) (s_metrics s) (s_exit_handlers s) (s_message_hook s) (s_next_pid s)
    (s_next_ref s) (s_clock_reads s).
Definition upd_queue_low (x : list AgentPid) s : Sched :=
  mkScheduler (s_registry s) (s_queue_high s) (s_queue_normal s) x (s_allow_external_routing s)
    (s_outbound_messages s) (s_advantage_count s) (s_bridge s) (s_pending_destroys s)
    (s_dead_letters s) (s_metrics s) (s_exit_handlers s) (s_message_hook s) (s_next_pid s)
    (s_next_ref s) (s_clock_reads s).
Definition upd_allow_external_routing (x : bool) s : Sched :=
  mkScheduler (s_registry s) (s_queue_high s) (s_queue_normal s) (s_queue_low s) x
    (s_outbound_messages s) (s_advantage_count s) (s_bridge s) (s_pending_destroys s)
    (s_dead_letters s) (s_metrics s) (s_exit_handlers s) (s_message_hook s) (s_next_pid s)
    (s_next_ref s) (s_clock_reads s).
Definition upd_outbound_messages (x : list (AgentPid * Message V)) s : Sched :=
  mkScheduler (s_registry s) (s_queue_high s) (s_queue_normal s) (s_queue_low s)
    (s_allow_external_routing s) x (s_advantage_count s) (s_bridge s) (s_pending_destroys s)
    (s_dead_letters s) (s_metrics s) (s_exit_handlers s) (s_message_hook s) (s_next_pid s)
    (s_next_ref s) (s_clock_reads s).
Definition upd_advantage_count (x : nat) s : Sched :=
  mkScheduler (s_registry s) (s_queue_high s) (s_queue_normal s) (s_queue_low s)
    (s_allow_external_routing s) (s_outbound_messages s) x (s_bridge s) (s_pending_destroys s)
    (s_dead_letters s) (s_metrics s) (s_exit_handlers s) (s_message_hook s) (s_next_pid s)
    (s_next_ref s) (s_clock_reads s).
Definition upd_bridge (x : option Br) s : Sched :=
  mkScheduler (s_registry s) (s_queue_high s) (s_queue_normal s) (s_queue_low s)
    (s_allow_external_routing s) (s_outbound_messages s) (s_advantage_count s) x
    (s_pending_destroys s) (s_dead_letters s) (s_metrics s) (s_exit_handlers s)
    (s_message_hook s) (s_next_pid s) (s_next_ref s) (s_clock_reads s).
Definition upd_pending_destroys (x : list (AgentPid * Z)) s : Sched :=
  mkScheduler (s_registry s) (s_queue_high s) (s_queue_normal s) (s_queue_low s)
    (s_allow_external_routing s) (s_outbound_messages s) (s_advantage_count s) (s_bridge s) x
    (s_dead_letters s) (s_metrics s) (s_exit_handlers s) (s_message_hook s) (s_next_pid s)
    (s_next_ref s) (s_clock_reads s).
Definition upd_dead_letters (x : DeadLetterQueue) s : Sched :=
  mkScheduler (s_registry s) (s_queue_high s) (s_queue_normal s) (s_queue_low s)
    (s_allow_external_routing s) (s_outbound_messages s) (s_advantage_count s) (s_bridge s)
    (s_pending_destroys s) x (s_metrics s) (s_exit_handlers s) (s_message_hook s)
    (s_next_pid s) (s_next_ref s) (s_clock_reads s).
Definition upd_metrics (x : RuntimeMetrics) s : Sched :=
  mkScheduler (s_registry s) (s_queue_high s) (s_queue_normal s) (s_queue_low s)
    (s_allow_external_routing s) (s_outbound_messages s) (s_advantage_count s) (s_bridge s)
    (s_pending_destroys s) (s_dead_letters s) x (s_exit_handlers s) (s_message_hook s)
    (s_next_pid s) (s_next_ref s) (s_clock_reads s).
Definition upd_exit_handlers (x : list H) s : Sched :=
  mkScheduler (s_registry s) (s_queue_high s) (s_queue_normal s) (s_queue_low s)
    (s_allow_external_routing s) (s_outbound_messages s) (s_advantage_count s) (s_bridge s)
    (s_pending_destroys s) (s_dead_letters s) (s_metrics s) x (s_message_hook s) (s_next_pid s)
    (s_next_ref s) (s_clock_reads s).
Definition upd_message_hook (x : option Hk) s : Sched :=
  mkScheduler (s_registry s) (s_queue_high s) (s_queue_normal s) (s_queue_low s)
    (s_allow_external_routing s) (s_outbound_messages s) (s_advantage_count s) (s_bridge s)
    (s_pending_destroys s) (s_dead_letters s) (s_metrics s) (s_exit_handlers s) x
    (s_next_pid s) (s_next_ref s) (s_clock_reads s).
Definition upd_next_pid (x : Z) s : Sched :=
  mkScheduler (s_registry s) (s_queue_high s) (s_queue_normal s) (s_queue_low s)
    (s_allow_external_routing s) (s_outbound_messages s) (s_advantage_count s) (s_bridge s)
    (s_pending_destroys s) (s_dead_letters s) (s_metrics s) (s_exit_handlers s)
    (s_message_hook s) x (s_next_ref s) (s_clock_reads s).
Definition upd_next_ref (x : Z) s : Sched :=
  mkScheduler (s_registry s) (s_queue_high s) (s_queue_normal s) (s_queue_low s)
    (s_allow_external_routing s) (s_outbound_messages s) (s_advantage_count s) (s_bridge s)
    (s_pending_destroys s) (s_dead_letters s) (s_metrics s) (s_exit_handlers s)
    (s_message_hook s) (s_next_pid s) x (s_clock_reads s).
Definition upd_clock_reads (x : nat) s : Sched :=
  mkScheduler (s_registry s) (s_queue_high s) (s_queue_normal s) (s_queue_low s)
    (s_allow_external_routing s) (s_outbound_messages s) (s_advantage_count s) (s_bridge s)
    (s_pending_destroys s) (s_dead_letters s) (s_metrics s) (s_exit_handlers s)
    (s_message_hook s) (s_next_pid s) (s_next_ref s) x.
End setters.


(** * What the scheduler calls

    The I/O bridge ([BridgeHandle]), the message hook (a trait object), the exit
    handlers (boxed closures over the scheduler) and the monotonic clock. *)

Class BridgeOps (V Br : Type) : Type := {
  bridge_submit : AgentPid -> IoOp V -> Br -> result Z string * Br;
  bridge_cancel : AgentPid -> Br -> bool * Br;
  bridge_drain_responses : Br -> list (AgentPid * Message V) * Br;
  bridge_shutdown : Duration -> Br -> result unit string * Br
}.

Class MessageHook (V Hk W : Type) : Type :=
  on_send : Hk -> AgentPid -> Message V -> W -> result unit string * Hk * W.

(** [None]: the handler did not return within the fuel it was given. *)
Class ExitHandler (V B St Br Hk H W : Type) : Type :=
  run_handler : H -> AgentPid -> Reason -> AgentScheduler V B St Br Hk H -> W ->
    option (H * AgentScheduler V B St Br Hk H * W).

(** What [Instant::now()] answers the n-th time the scheduler asks. *)
Class Clock : Type := clock_at : nat -> Instant.

(** * Queues and delivery *)

Section scheduler.
Context {V B St Br Hk H W : Type} `{AB : AgentBehavior V B St W} `{BO : BridgeOps V Br}.
Context `{MH : MessageHook V Hk W} `{EH : ExitHandler V B St Br Hk H W} `{CK : Clock} `{HO : HashOrder}.
Abbreviation Sched := (AgentScheduler V B St Br Hk H).
Abbreviation Proc := (AgentProcess V B St).
Implicit Types (s : Sched) (w : W) (p : Proc).

Definition scheduler_new (next_pid next_ref : Z) : Sched :=
  mkScheduler registry_new [] [] [] false [] 0 None [] (dlq_new DEAD_LETTER_CAPACITY) metrics_new
    [] None next_pid next_ref 0.

(** [registry.lookup(&pid)] and [registry.lookup_mut(&pid)]. *)
Definition lookup_proc (pid : AgentPid) s : option Proc := registry_lookup pid (s_registry s).
Definition alter_proc (f : Proc -> Proc) (pid : AgentPid) s : Sched :=
  upd_registry (registry_alter f pid (s_registry s)) s.

Definition read_clock s : Instant * Sched :=
  (clock_at (s_clock_reads s), upd_clock_reads (Datatypes.S (s_clock_reads s)) s).

Definition record (f : RuntimeMetrics -> RuntimeMetrics) s : Sched := upd_metrics (f (s_metrics s)) s.

Definition push_dead_letter (to : AgentPid) (reason : DeadLetterReason) s : Sched :=
  let '(now, s) := read_clock s in
  upd_dead_letters (dlq_push (mkDeadLetter now None to reason) (s_dead_letters s)) s.

Definition set_message_hook (hook : Hk) s : Sched := upd_message_hook (Some hook) s.
Definition clear_message_hook s : Sched := upd_message_hook None s.
Definition set_bridge (bridge : Br) s : Sched := upd_bridge (Some bridge) s.
Definition clear_bridge s : Sched := upd_bridge None s.
Definition set_external_routing (enabled : bool) s : Sched := upd_allow_external_routing enabled s.
Definition drain_outbound_messages s : list (AgentPid * Message V) * Sched :=
  (s_outbound_messages s, upd_outbound_messages [] s).
Definition add_exit_handler (handler : H) s : Sched :=
  upd_exit_handlers (s_exit_handlers s ++ [handler]) s.

Definition enqueue (pid : AgentPid) s : Sched :=
  match lookup_proc pid s with
  | None => s
  | Some proc =>
      match p_priority proc with
      | HighPriority => upd_queue_high (s_queue_high s ++ [pid]) s
      | NormalPriority => upd_queue_normal (s_queue_normal s ++ [pid]) s
      | LowPriority => upd_queue_low (s_queue_low s ++ [pid]) s
      end
  end.

Definition pop_high s : option AgentPid * Sched :=
  match s_queue_high s with
  | [] => (None, s)
  | pid :: rest => (Some pid, upd_queue_high rest s)
  end.
Definition pop_normal s : option AgentPid * Sched :=
  match s_queue_normal s with
  | [] => (None, s)
  | pid :: rest => (Some pid, upd_queue_normal rest s)
  end.
Definition pop_low s : option AgentPid * Sched :=
  match s_queue_low s with
  | [] => (None, s)
  | pid :: rest => (Some pid, upd_queue_low rest s)
  end.

Definition is_nil {A} (l : list A) : bool := match l with [] => true | _ => false end.

Definition next_runnable s : option AgentPid * Sched :=
  match pop_high s with
  | (Some pid, s) => (Some pid, s)
  | (None, s) =>
      if negb (is_nil (s_queue_normal s)) then
        let s := upd_advantage_count (s_advantage_count s + 1) s in
        if (s_advantage_count s <? NORMAL_ADVANTAGE)%nat || is_nil (s_queue_low s) then pop_normal s
        else
          let s := upd_advantage_count 0 s in
          match pop_low s with
          | (Some pid, s) => (Some pid, s)
          | (None, s) => pop_normal s
          end
      else pop_low s
  end.

(** The message hook, if one is set, sees the message first and may reject it. *)
Definition call_hook (to : AgentPid) (msg : Message V) s w : result unit string * Sched * W :=
  match s_message_hook s with
  | Some hook =>
      let '(res, hook, w) := on_send hook to msg w in
      (res, upd_message_hook (Some hook) s, w)
  | None => (Ok tt, s, w)
  end.

(** The rest of [send]. *)
Definition deliver_to (to : AgentPid) (msg : Message V) s : result unit string * Sched :=
  match lookup_proc to s with
  | Some proc =>
      let was_waiting := bool_decide (p_status proc = Waiting) in
      match deliver_message msg proc with
      | None =>
          let s := record record_mailbox_rejection s in
          let s := push_dead_letter to MailboxFull s in
          (Err ("mailbox full for " +:+ show_pid to), s)
      | Some proc' =>
          let s := alter_proc (fun _ => proc') to s in
          let s := record record_message_sent s in
          (Ok tt, if was_waiting then enqueue to s else s)
      end
  | None =>
      if s_allow_external_routing s then
        (Ok tt, upd_outbound_messages (s_outbound_messages s ++ [(to, msg)]) s)
      else
        let s := push_dead_letter to ProcessNotFound s in
        (Err ("Process " +:+ show_pid to +:+ " not found"), s)
  end.

Definition send (to : AgentPid) (msg : Message V) s w : result unit string * Sched * W :=
  match call_hook to msg s w with
  | (Err e, s, w) => (Err e, s, w)
  | (Ok _, s, w) => let '(res, s) := deliver_to to msg s in (res, s, w)
  end.

(** [let _ = self.send(to, msg)], for each message of a list. *)
Definition send_all (msgs : list (AgentPid * Message V)) s w : Sched * W :=
  foldl (fun '(s, w) '(to, msg) => let '(_, s, w) := send to msg s w in (s, w)) (s, w) msgs.

(** * Monitors and timeouts *)

Definition monitor (watcher target : AgentPid) s : result MonitorRef string * Sched :=
  match lookup_proc watcher s with
  | None => (Err ("Watcher " +:+ show_pid watcher +:+ " not found"), s)
  | Some _ =>
      match lookup_proc target s with
      | None => (Err ("Target " +:+ show_pid target +:+ " not found"), s)
      | Some _ =>
          let '(mon_ref, next) := fetch_add1 (s_next_ref s) in
          let s := upd_next_ref next s in
          let s := alter_proc (fun p => with_monitors (p_monitors p ++ [(mon_ref, target)]) p) watcher s in
          let s := alter_proc (fun p => with_monitored_by (p_monitored_by p ++ [(mon_ref, watcher)]) p)
                     target s in
          (Ok mon_ref, s)
      end
  end.

(** [retain(|(r, x)| !( *r == mon_ref && *x == pid))]. *)
Definition drop_record (mon_ref : MonitorRef) (pid : AgentPid) (l : list (MonitorRef * AgentPid))
    : list (MonitorRef * AgentPid) :=
  retain (fun '(r, x) => negb ((r =? mon_ref) && (x =? pid))) l.

Definition demonitor (watcher : AgentPid) (mon_ref : MonitorRef) s : bool * Sched :=
  match lookup_proc watcher s with
  | None => (false, s)
  | Some watcher_proc =>
      match position (fun '(r, _) => r =? mon_ref) (p_monitors watcher_proc) with
      | None => (false, s)
      | Some pos =>
          match swap_remove pos (p_monitors watcher_proc) with
          | None => (false, s)   (* position is in range *)
          | Some ((_, target), rest) =>
              let s := alter_proc (with_monitors rest) watcher s in
              (true, alter_proc (fun p => with_monitored_by (drop_record mon_ref watcher (p_monitored_by p)) p)
                       target s)
          end
      end
  end.

(** [Instant::checked_add]: [None] when the clock's range is exceeded. *)
Definition INSTANT_MAX : Z := (2 ^ 63 - 1) * 1000000000 + 999999999.

Definition checked_add_instant (now : Instant) (d : Duration) : option Instant :=
  if now + d <=? INSTANT_MAX then Some (now + d) else None.

Definition set_receive_timeout (pid : AgentPid) (duration : Duration) s : result unit string * Sched :=
  match lookup_proc pid s with
  | None => (Err ("Process " +:+ show_pid pid +:+ " not found"), s)
  | Some _ =>
      let '(now, s) := read_clock s in
      match checked_add_instant now duration with
      | None => (Err "timeout duration overflow", s)
      | Some deadline => (Ok tt, alter_proc (with_receive_timeout (Some deadline)) pid s)
      end
  end.

(** * Termination *)

(** [foldM] over [option]. *)
Fixpoint fold_opt {A X} (f : X -> A -> option X) (x : X) (l : list A) : option X :=
  match l with
  | [] => Some x
  | a :: l => x ← f x a; fold_opt f x l
  end.

(** The reverse records of the monitors that [pid] owned. *)
Definition remove_monitors (pid : AgentPid) (monitors : list (MonitorRef * AgentPid)) s : Sched :=
  foldl (fun s '(mon_ref, target) =>
    alter_proc (fun p => with_monitored_by (drop_record mon_ref pid (p_monitored_by p)) p) target s)
    s monitors.

(** One round of the loop over the linked pids: the scheduler, the pids to cascade to
    and the pids to wake. *)
Definition notify_link (pid : AgentPid) (reason : Reason) (linked_pid : AgentPid)
    (acc : Sched * list AgentPid * list AgentPid) : Sched * list AgentPid * list AgentPid :=
  let '(s, pids_to_cascade, pids_to_wake) := acc in
  match lookup_proc linked_pid s with
  | None => acc
  | Some lp =>
      if p_trap_exit lp then
        let exit_msg := System (Exit pid reason) in
        let s := alter_proc (deliver_ok exit_msg) linked_pid s in
        (s, pids_to_cascade,
         if decide (p_status lp = Waiting) then pids_to_wake ++ [linked_pid] else pids_to_wake)
      else if negb (is_normal reason) then (s, pids_to_cascade ++ [linked_pid], pids_to_wake)
      else acc
  end.

Definition notify_links (pid : AgentPid) (reason : Reason) (links : list AgentPid) s
    : Sched * list AgentPid * list AgentPid :=
  foldl (fun acc linked_pid => notify_link pid reason linked_pid acc) (s, [], []) links.

(** The watchers forget their monitor records; each is to receive a [Down]. *)
Definition notify_watchers (pid : AgentPid) (reason : Reason)
    (monitored_by : list (MonitorRef * AgentPid)) s : Sched * list (AgentPid * Message V) :=
  (foldl (fun s '(mon_ref, watcher) =>
     alter_proc (fun p => with_monitors (drop_record mon_ref pid (p_monitors p)) p) watcher s)
     s monitored_by,
   map (fun '(mon_ref, watcher) => (watcher, System (Down mon_ref pid reason))) monitored_by).

(** [proc.terminate(reason)] on a registered process. *)
Definition run_terminate (pid : AgentPid) (reason : Reason) s w : Sched * W :=
  match lookup_proc pid s with
  | Some proc =>
      let '(proc, w) := process_terminate (V := V) reason proc w in
      (alter_proc (fun _ => proc) pid s, w)
  | None => (s, w)
  end.

Definition cancel_io (pid : AgentPid) s : Sched :=
  match s_bridge s with
  | Some br => upd_bridge (Some (bridge_cancel (V := V) pid br).2) s
  | None => s
  end.

(** [bridge.submit(pid, AgentDestroy)], to be retried if it fails. *)
Definition submit_destroy (pid : AgentPid) s : Sched :=
  match s_bridge s with
  | Some br =>
      let '(res, br) := bridge_submit pid (AgentDestroy pid) br in
      let s := upd_bridge (Some br) s in
      match res with
      | Ok _ => s
      | Err _ => upd_pending_destroys (s_pending_destroys s ++ [(pid, 0)]) s
      end
  | None => s
  end.

(** The handlers are taken out of the scheduler while they run, and put back after:
    a nested termination runs no handler, and a handler added meanwhile is lost. *)
Fixpoint run_handlers (handlers : list H) (pid : AgentPid) (reason : Reason) s w
    : option (list H * Sched * W) :=
  match handlers with
  | [] => Some ([], s, w)
  | h :: handlers =>
      '(h, s, w) ← run_handler h pid reason s w;
      '(handlers, s, w) ← run_handlers handlers pid reason s w;
      Some (h :: handlers, s, w)
  end.

Definition run_exit_handlers (pid : AgentPid) (reason : Reason) s w : option (Sched * W) :=
  match s_exit_handlers s with
  | [] => Some (s, w)
  | handlers =>
      '(handlers, s, w) ← run_handlers handlers pid reason (upd_exit_handlers [] s) w;
      Some (upd_exit_handlers handlers s, w)
  end.

(** The part of [terminate_process] up to the cascade: the process is gone, its
    monitors and watchers are cleaned up, the trapping links have their [Exit]; the
    second component lists the pids to cascade to. *)
Definition terminate_core (pid : AgentPid) (reason : Reason) s w : Sched * list AgentPid * W :=
  let s := cancel_io pid s in
  let '(links, monitored_by, monitors) :=
    match lookup_proc pid s with
    | Some p => (p_links p, p_monitored_by p, p_monitors p)
    | None => ([], [], [])
    end in
  let '(s, w) := run_terminate pid reason s w in
  let s := upd_registry (registry_remove pid (s_registry s)).2 s in
  let s := remove_monitors pid monitors s in
  let '(s, pids_to_cascade, pids_to_wake) := notify_links pid reason links s in
  let '(s, down_to_send) := notify_watchers pid reason monitored_by s in
  let s := foldl (fun s wake_pid => enqueue wake_pid s) s pids_to_wake in
  let '(s, w) := send_all down_to_send s w in
  (s, pids_to_cascade, w).

(** [terminate_process], on fuel: the depth of the cascade. *)
Fixpoint terminate_process (fuel : nat) (pid : AgentPid) (reason : Reason) s w : option (Sched * W) :=
  match fuel with
  | O => None
  | Datatypes.S fuel =>
      let '(s, pids_to_cascade, w) := terminate_core pid reason s w in
      '(s, w) ← fold_opt (fun '(s, w) cascade_pid => terminate_process fuel cascade_pid reason s w)
                  (s, w) pids_to_cascade;
      '(s, w) ← run_exit_handlers pid reason s w;
      let s := record record_process_termination s in
      Some (submit_destroy pid s, w)
  end.

(** * The scheduling cycle *)

(** Responses of the bridge become messages. *)
Definition deliver_responses s w : Sched * W :=
  match s_bridge s with
  | Some br =>
      let '(responses, br) := bridge_drain_responses br in
      send_all responses (upd_bridge (Some br) s) w
  | None => (s, w)
  end.

(** [retain_mut] on the pending [AgentDestroy] submissions. *)
Fixpoint retry_pending (pending : list (AgentPid * Z)) (br : Br) : list (AgentPid * Z) * Br :=
  match pending with
  | [] => ([], br)
  | (pid, retries) :: pending =>
      if 3 <=? retries then retry_pending pending br
      else
        let '(res, br) := bridge_submit (V := V) pid (AgentDestroy pid) br in
        let '(rest, br) := retry_pending pending br in
        (match res with Ok _ => rest | Err _ => (pid, retries + 1) :: rest end, br)
  end.

Definition retry_destroys s : Sched :=
  match s_bridge s with
  | Some br =>
      let '(pending, br) := retry_pending (s_pending_destroys s) br in
      upd_pending_destroys pending (upd_bridge (Some br) s)
  | None => s
  end.

Definition has_timed_out (now : Instant) p : bool :=
  bool_decide (p_status p = Waiting) &&
  match p_receive_timeout p with Some d => d <=? now | None => false end.

Definition fire_timeouts s w : Sched * W :=
  let '(now, s) := read_clock s in
  let timed_out := List.filter (fun pid =>
    match lookup_proc pid s with Some p => has_timed_out now p | None => false end)
    (registry_pids (s_registry s)) in
  foldl (fun '(s, w) pid =>
    let s := alter_proc (with_receive_timeout None) pid s in
    let '(_, s, w) := send pid (System ReceiveTimeout) s w in (s, w)) (s, w) timed_out.

Definition is_runnable (pid : AgentPid) s : bool :=
  match lookup_proc pid s with Some p => bool_decide (p_status p = Runnable) | None => false end.

(** The loop that skips stale queue entries, on fuel. *)
Fixpoint select_runnable (fuel : nat) s : option AgentPid * Sched :=
  match fuel with
  | O => (None, s)
  | Datatypes.S fuel =>
      match next_runnable s with
      | (None, s) => (None, s)
      | (Some candidate, s) =>
          if is_runnable candidate s then (Some candidate, s) else select_runnable fuel s
      end
  end.

Definition queued s : list AgentPid := s_queue_high s ++ s_queue_normal s ++ s_queue_low s.

(** Each round of the loop removes an entry, so this much fuel is enough. *)
Definition select_fuel s : nat := Datatypes.S (length (queued s)).

(** [u32::saturating_sub]. *)
Definition spend (n : Z) p : Proc := with_reductions (sat_sub (p_reductions p) n) p.

(** The locals of [tick] that the dispatch loop fills in. *)
Record Dispatched : Type := mkDispatched {
  d_sends : list (AgentPid * Message V);
  d_spawns : list (B * V * bool * bool);
  d_stop : option Reason;
  d_wait : bool;
  d_out : bool
}.

(** The callback on one message, under [catch_unwind]: the action and the process
    state to put back ([None] after a panic, which drops it). *)
Definition call_behavior (b : B) (msg : Message V) (state : St) w : Action V B * option St * W :=
  let '(res, w) := match msg with
    | System (Exit from reason) => b_handle_exit (V := V) b from reason state w
    | other => b_handle_message b other state w
    end in
  match res with
  | Returned (action, state) => (action, Some state, w)
  | Panicked panic_msg => (Stop (CustomReason ("panic: " +:+ panic_msg)), None, w)
  end.

(** [Action::IoRequest]: the process waits for the bridge, or is woken with an error. *)
Definition request_io (pid : AgentPid) (op : IoOp V) s : Sched :=
  let s := alter_proc (fun p => with_status Waiting (spend 1 p)) pid s in
  let wake err s := enqueue pid (alter_proc (fun p => with_status Runnable (deliver_ok (Text err) p)) pid s) in
  match s_bridge s with
  | Some br =>
      let '(res, br) := bridge_submit pid op br in
      let s := upd_bridge (Some br) s in
      match res with
      | Ok _ => s
      | Err err => wake err s
      end
  | None => wake "no I/O bridge configured" s
  end.

(** The dispatch loop, on fuel; every round spends a reduction. *)
Fixpoint dispatch (fuel : nat) (pid : AgentPid) (sends : list (AgentPid * Message V))
    (spawns : list (B * V * bool * bool)) s w : option (Dispatched * Sched * W) :=
  match fuel with
  | O => None
  | Datatypes.S fuel =>
      match lookup_proc pid s with
      | None => Some (mkDispatched sends spawns None false false, s, w)
      | Some proc =>
          if p_reductions proc =? 0 then Some (mkDispatched sends spawns None false true, s, w)
          else
            match next_message proc with
            | (None, _) => Some (mkDispatched sends spawns None true false, s, w)
            | (Some msg, proc) =>
                let s := record record_message_processed (alter_proc (fun _ => proc) pid s) in
                let proc := spend 1 proc in
                match p_state proc with
                | None =>
                    Some (mkDispatched sends spawns None false false, alter_proc (fun _ => proc) pid s, w)
                | Some state =>
                    let '(action, state, w) := call_behavior (p_behavior proc) msg state w in
                    let s := alter_proc (fun _ => with_state state proc) pid s in
                    match action with
                    | Continue => dispatch fuel pid sends spawns s w
                    | Send to msg =>
                        dispatch fuel pid (sends ++ [(to, msg)]) spawns (alter_proc (spend 2) pid s) w
                    | Stop reason => Some (mkDispatched sends spawns (Some reason) false false, s, w)
                    | IoRequest op =>
                        Some (mkDispatched sends spawns None false false, request_io pid op s, w)
                    | Spawn behavior args link monitor =>
                        dispatch fuel pid sends (spawns ++ [(behavior, args, link, monitor)])
                          (alter_proc (spend 10) pid s) w
                    end
                end
            end
      end
  end.

Definition dispatch_fuel : nat := Datatypes.S (Z.to_nat DEFAULT_REDUCTIONS).

(** [self.registry.spawn(behavior, args)]. *)
Definition spawn (behavior : B) (args : V) s w : result AgentPid Reason * Sched * W :=
  let '(res, reg, next_pid, w) := registry_spawn behavior args (s_registry s) (s_next_pid s) w in
  (res, upd_next_pid next_pid (upd_registry reg s), w).

Definition link_pair (parent child : AgentPid) s : Sched :=
  let s := alter_proc (fun p => with_links (p_links p ++ [child]) p) parent s in
  alter_proc (fun p => with_links (p_links p ++ [parent]) p) child s.

(** One pending spawn of [pid]. *)
Definition spawn_pending (pid : AgentPid) (req : B * V * bool * bool) s w : Sched * W :=
  let '(behavior, args, link, mon) := req in
  match spawn behavior args s w with
  | (Err _, s, w) => (s, w)
  | (Ok child_pid, s, w) =>
      let s := if link then link_pair pid child_pid s else s in
      let '(monitor_ref, s) :=
        if mon then
          match monitor pid child_pid s with
          | (Ok r, s) => (Some r, s)
          | (Err _, s) => (None, s)
          end
        else (None, s) in
      let '(_, s, w) := send pid (System (SpawnResult child_pid monitor_ref)) s w in
      (enqueue child_pid s, w)
  end.

Definition spawn_all (pid : AgentPid) (reqs : list (B * V * bool * bool)) s w : Sched * W :=
  foldl (fun '(s, w) req => spawn_pending pid req s w) (s, w) reqs.

(** The deferred operations after the dispatch loop. *)
Definition finish (fuel : nat) (pid : AgentPid) (d : Dispatched) s w : option (Sched * W) :=
  let s := if d_wait d then alter_proc (with_status Waiting) pid s else s in
  let s := if d_out d then enqueue pid s else s in
  let '(s, w) := send_all (d_sends d) s w in
  let '(s, w) := spawn_all pid (d_spawns d) s w in
  match d_stop d with
  | Some reason => terminate_process fuel pid reason s w
  | None => Some (s, w)
  end.

(** What [tick] does before it selects a process. *)
Definition prepare s w : Sched * W :=
  let '(s, w) := deliver_responses s w in
  fire_timeouts (retry_destroys s) w.

Definition tick (fuel : nat) s w : option (bool * Sched * W) :=
  let '(s, w) := prepare s w in
  match select_runnable (select_fuel s) s with
  | (None, s) => Some (false, s, w)
  | (Some pid, s) =>
      let s := alter_proc (with_reductions DEFAULT_REDUCTIONS) pid s in
      '(d, s, w) ← dispatch dispatch_fuel pid [] [] s w;
      '(s, w) ← finish fuel pid d s w;
      Some (true, s, w)
  end.

(** * Shutdown *)

Definition graceful_shutdown (fuel : nat) (timeout : Duration) s w : option (Sched * W) :=
  let '(s, w) := match s_bridge s with
    | Some br =>
        let '(_, br) := bridge_shutdown (V := V) timeout br in
        let '(responses, br) := bridge_drain_responses br in
        send_all responses (upd_bridge (Some br) s) w
    | None => (s, w)
    end in
  '(s, w) ← fold_opt (fun '(s, w) pid =>
      match lookup_proc pid s with
      | Some _ => terminate_process fuel pid Shutdown s w
      | None => Some (s, w)
      end) (s, w) (registry_pids (s_registry s));
  Some (upd_queue_low [] (upd_queue_normal [] (upd_queue_high [] (upd_bridge None s))), w).

(** [Drop]. *)
Definition scheduler_drop (fuel : nat) s w : option (Sched * W) :=
  if (registry_count (s_registry s) =? 0)%nat && bool_decide (s_bridge s = None)
  then Some (s, w) else graceful_shutdown fuel 50000000 s w.

(** * Introspection *)

Record ProcessSnapshot : Type := mkProcessSnapshot {
  sn_pid : Z;
  sn_status : ProcessStatus;
  sn_priority : Priority;
  sn_mailbox_depth : nat;
  sn_link_count : nat;
  sn_monitor_count : nat;
  sn_monitored_by_count : nat;
  sn_trap_exit : bool
}.

Definition snapshot_of p : ProcessSnapshot :=
  mkProcessSnapshot (p_pid p) (p_status p) (p_priority p) (length (p_mailbox p)) (length (p_links p))
    (length (p_monitors p)) (length (p_monitored_by p)) (p_trap_exit p).

Definition snapshot_le (a b : ProcessSnapshot) : Prop := sn_pid a <= sn_pid b.

#[local] Instance snapshot_le_dec : RelDecision snapshot_le.
Proof. intros a b. unfold snapshot_le. apply _. Defined.

(** [sort_by_key] on the pid. *)
Definition list_processes s : list ProcessSnapshot :=
  merge_sort snapshot_le
    (map snapshot_of (omap (fun pid => lookup_proc pid s) (registry_pids (s_registry s)))).

(** * The calls the rest of the runtime makes, as a transition system

    A new process is spawned through [scheduler.registry], given its priority and
    enqueued; links and [trap_exit] are public fields.  [CBridge] covers the worker
    pool, which changes the state behind the bridge handle at any time. *)

Inductive SchedCall : Type :=
| CTick
| CSend (to : AgentPid) (msg : Message V)
| CSpawn (behavior : B) (args : V) (priority : Priority)
| CTerminate (pid : AgentPid) (reason : Reason)
| CMonitor (watcher target : AgentPid)
| CDemonitor (watcher : AgentPid) (mon_ref : MonitorRef)
| CReceiveTimeout (pid : AgentPid) (duration : Duration)
| CLink (a b : AgentPid)
| CTrapExit (pid : AgentPid) (trap : bool)
| CBridge (bridge : option Br)
| CHook (hook : option Hk)
| CExternalRouting (enabled : bool)
| CDrainOutbound
| CAddExitHandler (handler : H).

Definition spawn_enqueued (behavior : B) (args : V) (priority : Priority) s w : Sched * W :=
  match spawn behavior args s w with
  | (Ok pid, s, w) => (enqueue pid (alter_proc (with_priority priority) pid s), w)
  | (Err _, s, w) => (s, w)
  end.

Definition sched_exec (fuel : nat) (c : SchedCall) s w : option (Sched * W) :=
  match c with
  | CTick => '(_, s, w) ← tick fuel s w; Some (s, w)
  | CSend to msg => let '(_, s, w) := send to msg s w in Some (s, w)
  | CSpawn behavior args priority => Some (spawn_enqueued behavior args priority s w)
  | CTerminate pid reason => terminate_process fuel pid reason s w
  | CMonitor watcher target => Some ((monitor watcher target s).2, w)
  | CDemonitor watcher mon_ref => Some ((demonitor watcher mon_ref s).2, w)
  | CReceiveTimeout pid duration => Some ((set_receive_timeout pid duration s).2, w)
  | CLink a b => Some (alter_proc (fun p => with_links (p_links p ++ [b]) p) a s, w)
  | CTrapExit pid trap => Some (alter_proc (with_trap_exit trap) pid s, w)
  | CBridge bridge => Some (upd_bridge bridge s, w)
  | CHook hook => Some (upd_message_hook hook s, w)
  | CExternalRouting enabled => Some (set_external_routing enabled s, w)
  | CDrainOutbound => Some ((drain_outbound_messages s).2, w)
  | CAddExitHandler handler => Some (add_exit_handler handler s, w)
  end.

Definition sched_run (fuel : nat) (calls : list SchedCall) s w : option (Sched * W) :=
  fold_opt (fun '(s, w) c => sched_exec fuel c s w) (s, w) calls.
End scheduler.
Arguments SchedCall V B Br Hk H : clear implicits.

(** Not to be unfolded in proofs. *)
#[global] Opaque dispatch_fuel.
