(* ===== verification/SchedFacts.v ===== *)
(** Facts about the scheduler's operations: what each one does to the processes and
    the run queues, the fairness of [next_runnable], the behaviour of [send]. *)
From S2P Require Import Prelude Types Process DeadLetter Scheduler.

Section facts.
Context {V B St Br Hk H W : Type} `{AB : AgentBehavior V B St W} `{BO : BridgeOps V Br}.
Context `{MH : MessageHook V Hk W} `{EH : ExitHandler V B St Br Hk H W} `{CK : Clock} `{HO : HashOrder}.
Abbreviation Sched := (AgentScheduler V B St Br Hk H).
Abbreviation Proc := (AgentProcess V B St).
Implicit Types (s : Sched) (w : W) (p : Proc).

(** ** Lookups *)

Lemma lookup_alter_proc f pid s x :
  lookup_proc x (alter_proc f pid s)
  = if decide (x = pid) then f <$> lookup_proc x s else lookup_proc x s.
Proof. apply registry_alter_lookup. Qed.

Lemma lookup_alter_same f pid s : lookup_proc pid (alter_proc f pid s) = f <$> lookup_proc pid s.
Proof. by rewrite lookup_alter_proc, decide_True. Qed.

Lemma lookup_alter_ne f pid s x : x <> pid -> lookup_proc x (alter_proc f pid s) = lookup_proc x s.
Proof. intros. by rewrite lookup_alter_proc, decide_False. Qed.

Lemma queued_alter f pid s : queued (alter_proc f pid s) = queued s.
Proof. done. Qed.

Lemma lookup_enqueue pid s x : lookup_proc x (enqueue pid s) = lookup_proc x s.
Proof. unfold enqueue. destruct (lookup_proc pid s) as [p|]; [|done]. by destruct (p_priority p). Qed.

Lemma elem_of_enqueue pid s x :
  x ∈ queued (enqueue pid s) <-> x ∈ queued s \/ (x = pid /\ is_Some (lookup_proc pid s)).
Proof.
  unfold enqueue. destruct (lookup_proc pid s) as [p|]; [|naive_solver].
  unfold queued. destruct (p_priority p); cbn;
    rewrite !elem_of_app, list_elem_of_singleton; naive_solver.
Qed.

Lemma enqueue_frame pid s :
  s_registry (enqueue pid s) = s_registry s /\ s_next_ref (enqueue pid s) = s_next_ref s /\
  s_next_pid (enqueue pid s) = s_next_pid s /\ s_bridge (enqueue pid s) = s_bridge s /\
  s_exit_handlers (enqueue pid s) = s_exit_handlers s /\
  s_message_hook (enqueue pid s) = s_message_hook s /\
  s_metrics (enqueue pid s) = s_metrics s /\
  s_dead_letters (enqueue pid s) = s_dead_letters s /\
  s_outbound_messages (enqueue pid s) = s_outbound_messages s.
Proof. unfold enqueue. destruct (lookup_proc pid s) as [p|]; [|done]. by destruct (p_priority p). Qed.

(** ** Picking the next process *)

(** [next_runnable] only moves pids out of the queues: it removes exactly one entry. *)
Lemma next_runnable_cases s :
  match next_runnable s with
  | (None, s') => queued s = [] /\ queued s' = []
  | (Some pid, s') => queued s ≡ₚ pid :: queued s'
  end /\ s_registry (next_runnable s).2 = s_registry s.
Proof.
  unfold next_runnable, pop_high, pop_normal, pop_low, queued.
  destruct (s_queue_high s) as [|h hs] eqn:Hh; [|by cbn; rewrite ?Hh].
  cbn [is_nil negb]. destruct (s_queue_normal s) as [|n ns] eqn:Hn; cbn -[NORMAL_ADVANTAGE];
    rewrite ?Hh, ?Hn; destruct (s_queue_low s) as [|l ls] eqn:Hl; cbn -[NORMAL_ADVANTAGE];
    rewrite ?Hh, ?Hn, ?Hl; cbn -[NORMAL_ADVANTAGE].
  - done.
  - done.
  - rewrite orb_true_r. cbn. by rewrite ?Hh, ?Hn, ?Hl.
  - match goal with |- context [if ?b then _ else _] => destruct b end; cbn; rewrite ?Hh, ?Hn, ?Hl; cbn;
      [done|]. split; [|done].
    by rewrite (Permutation_middle (n :: ns) ls l).
Qed.

Lemma next_runnable_lookup s x : lookup_proc x (next_runnable s).2 = lookup_proc x s.
Proof. unfold lookup_proc. by destruct (next_runnable_cases s) as [_ ->]. Qed.

(** Everything but the queues and the advantage counter is left alone. *)
Definition same_but_queues s s' : Prop :=
  s_registry s' = s_registry s /\ s_next_ref s' = s_next_ref s /\ s_next_pid s' = s_next_pid s /\
  s_exit_handlers s' = s_exit_handlers s /\ s_metrics s' = s_metrics s /\ s_bridge s' = s_bridge s /\
  s_message_hook s' = s_message_hook s /\ s_dead_letters s' = s_dead_letters s.

Lemma next_runnable_frame s : same_but_queues s (next_runnable s).2.
Proof.
  unfold next_runnable, pop_high, pop_normal, pop_low, same_but_queues.
  repeat case_match; simplify_eq/=; repeat case_match; simplify_eq/=; done.
Qed.

Lemma select_runnable_frame fuel s : same_but_queues s (select_runnable fuel s).2.
Proof.
  revert s. induction fuel as [|fuel IH]; intros s; cbn [select_runnable]; [done|].
  pose proof (next_runnable_frame s) as Hf. destruct (next_runnable s) as [[pid|] s1]; cbn in *; [|done].
  case_match; cbn; [done|]. specialize (IH s1). unfold same_but_queues in *. naive_solver congruence.
Qed.

Lemma is_runnable_registry pid s s' : s_registry s' = s_registry s -> is_runnable pid s' = is_runnable pid s.
Proof. unfold is_runnable, lookup_proc. by intros ->. Qed.

(** The loop of [tick] finds a runnable process whenever one is queued; what it skips
    is not runnable. *)
Lemma select_runnable_spec fuel s :
  (length (queued s) < fuel)%nat ->
  match select_runnable fuel s with
  | (None, s') => forall pid, pid ∈ queued s -> is_runnable pid s = false
  | (Some pid, s') =>
      pid ∈ queued s /\ is_runnable pid s = true /\
      forall x, x ∈ queued s -> x ∈ queued s' \/ x = pid \/ is_runnable x s = false
  end.
Proof.
  revert s. induction fuel as [|fuel IH]; intros s Hf; [lia|]. cbn [select_runnable].
  destruct (next_runnable_cases s) as [Hc Hreg].
  destruct (next_runnable s) as [[pid|] s1] eqn:Hn; cbn in *.
  - destruct (is_runnable pid s1) eqn:Hr.
    + rewrite (is_runnable_registry _ s) in Hr by done. rewrite Hc. split; [by left|]. split; [done|].
      intros x Hx. rewrite Hc in Hx. apply elem_of_cons in Hx as [->|Hx]; auto.
    + specialize (IH s1). rewrite (is_runnable_registry _ s) in Hr by done.
      assert (Hlen : length (queued s) = Datatypes.S (length (queued s1))) by (by rewrite Hc).
      specialize (IH ltac:(lia)). destruct (select_runnable fuel s1) as [[y|] s2].
      * destruct IH as (Hy & Hry & Hrest). rewrite (is_runnable_registry _ s) in Hry by done.
        rewrite Hc. split; [by right|]. split; [done|]. intros x Hx. rewrite Hc in Hx. apply elem_of_cons in Hx as [->|Hx]; [auto|].
        destruct (Hrest x Hx) as [?|[?|Hx']]; auto. rewrite (is_runnable_registry _ s) in Hx' by done. auto.
      * intros x Hx. rewrite Hc in Hx. apply elem_of_cons in Hx as [->|Hx]; [done|].
        rewrite <- (is_runnable_registry x s s1) by done. auto.
  - intros x. destruct Hc as [-> _]. by intros ?%not_elem_of_nil.
Qed.

(** ** Fairness *)

(** One pick, after other parts of the runtime have enqueued [ns] at normal and [ls]
    at low priority. *)
Definition pick_after (ns ls : list AgentPid) s : option AgentPid * Sched :=
  next_runnable (upd_queue_low (s_queue_low s ++ ls) (upd_queue_normal (s_queue_normal s ++ ns) s)).

Fixpoint picks (adds : list (list AgentPid * list AgentPid)) s : list (option AgentPid) :=
  match adds with
  | [] => []
  | (ns, ls) :: adds => let '(pid, s) := pick_after ns ls s in pid :: picks adds s
  end.

Lemma picks_low adds s pid rest :
  s_queue_high s = [] -> s_queue_low s = pid :: rest ->
  (NORMAL_ADVANTAGE <= length adds + s_advantage_count s)%nat -> adds <> [] -> Some pid ∈ picks adds s.
Proof.
  revert s rest. induction adds as [|[ns ls] adds IH]; intros s rest Hh Hl Hn Hne; [done|].
  cbn [picks]. unfold pick_after, next_runnable, pop_high, pop_normal, pop_low.
  cbn -[NORMAL_ADVANTAGE picks Nat.ltb]. rewrite Hh. cbn -[NORMAL_ADVANTAGE picks Nat.ltb].
  destruct (s_queue_normal s ++ ns) as [|n qs] eqn:Hq; cbn -[NORMAL_ADVANTAGE picks Nat.ltb];
    rewrite ?Hq, ?Hl; cbn -[NORMAL_ADVANTAGE picks Nat.ltb]; [by left|].
  rewrite orb_false_r.
  match goal with |- context [if ?b then _ else _] => destruct b eqn:Ha end; cbn -[NORMAL_ADVANTAGE picks Nat.ltb]; rewrite ?Hl;
    cbn -[NORMAL_ADVANTAGE picks Nat.ltb]; [|by left].
  zify_bool. cbn [length] in Hn. right. apply IH with (rest := rest ++ ls); cbn -[NORMAL_ADVANTAGE];
    [done | by rewrite ?Hl | lia | destruct adds; [cbn in *; lia | done]].
Qed.

(** Low priority is not starved by normal priority: whatever is enqueued at normal
    and low priority in between, the process at the head of the low queue is picked
    within [NORMAL_ADVANTAGE] picks, as long as no high-priority process is queued. *)
Theorem low_priority_served (adds : list (list AgentPid * list AgentPid)) s (pid : AgentPid)
    (rest : list AgentPid) :
  s_queue_high s = [] -> s_queue_low s = pid :: rest -> length adds = NORMAL_ADVANTAGE ->
  Some pid ∈ picks adds s.
Proof.
  intros Hh Hl Hlen. apply picks_low with (rest := rest); try done; [lia|]. by intros ->.
Qed.

(** ** Delivery *)

Lemma call_hook_cases to msg s w :
  (call_hook to msg s w).1.2 = s \/ exists hk, (call_hook to msg s w).1.2 = upd_message_hook (Some hk) s.
Proof.
  unfold call_hook. destruct (s_message_hook s); [|by left].
  destruct (on_send _ _ _ _) as [[? ?] ?]. right. eauto.
Qed.

(** What [send] does to the processes and queues is what [deliver_to] does, or nothing. *)
Lemma send_cases (P : Sched -> Prop) to msg s w :
  (forall hk s', P s' -> P (upd_message_hook (Some hk) s')) ->
  (forall s', P s' -> P (deliver_to to msg s').2) ->
  P s -> P (send to msg s w).1.2.
Proof.
  intros Hh Hd HP. unfold send.
  assert (Hs : P (call_hook to msg s w).1.2) by (destruct (call_hook_cases to msg s w) as [->|[hk ->]]; auto).
  destruct (call_hook to msg s w) as [[[[]|e] s1] w1]; cbn in *; [|done].
  specialize (Hd _ Hs). by destruct (deliver_to to msg s1).
Qed.

(** A property of schedulers that the auxiliary fields do not matter to, and that
    delivery preserves, is preserved by sending a batch. *)
Lemma send_all_cases (P : Sched -> Prop) msgs s w :
  (forall hk s', P s' -> P (upd_message_hook (Some hk) s')) ->
  (forall to msg s', P s' -> P (deliver_to to msg s').2) ->
  P s -> P (send_all msgs s w).1.
Proof.
  intros Hh Hd. unfold send_all. revert s w. induction msgs as [|[to msg] msgs IH]; intros s w HP; [done|].
  cbn [foldl]. pose proof (send_cases P to msg s w Hh (Hd to msg) HP) as HP'.
  destruct (send to msg s w) as [[? s1] w1]. by apply IH.
Qed.

(** ** Termination *)

Lemma cancel_io_frame pid s :
  s_registry (cancel_io pid s) = s_registry s /\ queued (cancel_io pid s) = queued s /\
  s_exit_handlers (cancel_io pid s) = s_exit_handlers s /\
  s_next_ref (cancel_io pid s) = s_next_ref s /\ s_next_pid (cancel_io pid s) = s_next_pid s.
Proof. unfold cancel_io. by destruct (s_bridge s). Qed.

Lemma submit_destroy_frame pid s :
  s_registry (submit_destroy pid s) = s_registry s /\ queued (submit_destroy pid s) = queued s /\
  s_exit_handlers (submit_destroy pid s) = s_exit_handlers s /\
  s_next_ref (submit_destroy pid s) = s_next_ref s /\ s_next_pid (submit_destroy pid s) = s_next_pid s.
Proof.
  unfold submit_destroy. destruct (s_bridge s); [|done]. destruct (bridge_submit _ _ _) as [[?|?] ?]; done.
Qed.

Lemma run_terminate_frame pid reason s w :
  queued (run_terminate pid reason s w).1 = queued s /\
  s_exit_handlers (run_terminate pid reason s w).1 = s_exit_handlers s /\
  s_next_ref (run_terminate pid reason s w).1 = s_next_ref s /\
  s_next_pid (run_terminate pid reason s w).1 = s_next_pid s.
Proof. unfold run_terminate. by destruct (lookup_proc pid s). Qed.

(** The scheduler after the [terminate] callback and the removal from the registry. *)
Definition removed (pid : AgentPid) (reason : Reason) s w : Sched :=
  let s := (run_terminate pid reason (cancel_io pid s) w).1 in
  upd_registry (registry_remove pid (s_registry s)).2 s.

Lemma lookup_removed pid reason s w x :
  lookup_proc x (removed pid reason s w) = if decide (x = pid) then None else lookup_proc x s.
Proof.
  unfold removed. set (s1 := (run_terminate pid reason (cancel_io pid s) w).1).
  assert (Hs1 : x <> pid -> lookup_proc x s1 = lookup_proc x s).
  { intros Hx. unfold s1, run_terminate. destruct (cancel_io_frame pid s) as (Hreg & _).
    destruct (lookup_proc pid (cancel_io pid s)); cbn; [rewrite lookup_alter_ne by done|];
      unfold lookup_proc; by rewrite Hreg. }
  unfold lookup_proc at 1, registry_lookup. cbn. rewrite registry_remove_processes, lookup_delete.
  case_decide as Hx; case_decide; try congruence. by apply Hs1.
Qed.

Lemma removed_frame pid reason s w :
  queued (removed pid reason s w) = queued s /\
  s_exit_handlers (removed pid reason s w) = s_exit_handlers s /\
  s_next_ref (removed pid reason s w) = s_next_ref s /\
  s_next_pid (removed pid reason s w) = s_next_pid s.
Proof.
  unfold removed. destruct (cancel_io_frame pid s) as (_ & Hq & He & Hr & Hn).
  destruct (run_terminate_frame pid reason (cancel_io pid s) w) as (Hq' & He' & Hr' & Hn').
  rewrite <- Hq, <- He, <- Hr, <- Hn, <- Hq', <- He', <- Hr', <- Hn'. done.
Qed.

Definition links_of (pid : AgentPid) s : list AgentPid :=
  match lookup_proc pid s with Some p => p_links p | None => [] end.
Definition monitored_by_of (pid : AgentPid) s : list (MonitorRef * AgentPid) :=
  match lookup_proc pid s with Some p => p_monitored_by p | None => [] end.
Definition monitors_of (pid : AgentPid) s : list (MonitorRef * AgentPid) :=
  match lookup_proc pid s with Some p => p_monitors p | None => [] end.

(** [terminate_core] in terms of the phases above. *)
Lemma terminate_core_eq pid reason s w :
  terminate_core pid reason s w
  = (let w1 := (run_terminate pid reason (cancel_io pid s) w).2 in
     let s1 := remove_monitors pid (monitors_of pid s) (removed pid reason s w) in
     let '(s2, cascade, wake) := notify_links pid reason (links_of pid s) s1 in
     let '(s3, downs) := notify_watchers pid reason (monitored_by_of pid s) s2 in
     let s4 := foldl (fun s wake_pid => enqueue wake_pid s) s3 wake in
     ((send_all downs s4 w1).1, cascade, (send_all downs s4 w1).2)).
Proof.
  unfold terminate_core, removed, links_of, monitored_by_of, monitors_of.
  destruct (cancel_io_frame pid s) as (Hreg & _).
  replace (lookup_proc pid (cancel_io pid s)) with (lookup_proc pid s) by (unfold lookup_proc; by rewrite Hreg).
  destruct (lookup_proc pid s) as [p|]; destruct (run_terminate pid reason (cancel_io pid s) w) as [s1 w1]; cbn; [|done].
  match goal with |- context [notify_links ?a ?b ?c ?d] =>
    destruct (notify_links a b c d) as [[s2 cascade] wake] end. cbn.
  match goal with |- context [send_all ?a ?b ?c] => by destruct (send_all a b c) end.
Qed.

(** ** The dispatch loop *)

(** It ends in one of four ways. *)
Lemma dispatch_flags fuel pid sends spawns s w d s' w' :
  dispatch fuel pid sends spawns s w = Some (d, s', w') ->
  match d_stop d with
  | Some _ => d_out d = false /\ d_wait d = false
  | None => d_out d = false \/ d_wait d = false
  end.
Proof.
  revert sends spawns s w. induction fuel as [|fuel IH]; [done|]. intros sends spawns s w Hd.
  cbn [dispatch] in Hd. destruct (lookup_proc pid s) as [p|]; [|simplify_eq/=; auto].
  destruct (p_reductions p =? 0); [simplify_eq/=; auto|].
  destruct (next_message p) as [[m|] p1]; [|simplify_eq/=; auto].
  destruct (p_state _) as [st|]; [|simplify_eq/=; auto].
  destruct (call_behavior _ _ _ _) as [[action st'] w1].
  destruct action; [by eapply IH|by eapply IH|simplify_eq/=; auto|by eapply IH|simplify_eq/=; auto].
Qed.

(** ** What message passing leaves alone

    Delivery, waking and the dispatch of a mailbox change the mailbox, the status, the
    state, the reductions and the timeout of processes, and nothing else. *)

Definition static p :=
  (p_pid p, p_behavior p, p_mailbox_capacity p, p_priority p, p_links p, p_monitors p,
   p_monitored_by p, p_supervisor p, p_trap_exit p).

Definition calm s s' : Prop :=
  (forall x, static <$> lookup_proc x s' = static <$> lookup_proc x s) /\
  s_exit_handlers s' = s_exit_handlers s /\ s_next_ref s' = s_next_ref s /\ s_next_pid s' = s_next_pid s.

#[export] Instance calm_preorder : PreOrder calm.
Proof. split; [done|]. intros s1 s2 s3 (A1 & B1 & C1 & D1) (A2 & B2 & C2 & D2). split_and!; congruence. Qed.

Lemma calm_registry s s' :
  s_registry s' = s_registry s -> s_exit_handlers s' = s_exit_handlers s ->
  s_next_ref s' = s_next_ref s -> s_next_pid s' = s_next_pid s -> calm s s'.
Proof. unfold calm, lookup_proc. by intros -> -> -> ->. Qed.

Lemma calm_alter f pid s : (forall p, static (f p) = static p) -> calm s (alter_proc f pid s).
Proof.
  intros Hf. split; [|done]. intros x. rewrite lookup_alter_proc. case_decide; [|done].
  destruct (lookup_proc x s); [|done]. cbn [fmap option_fmap option_map]. by rewrite Hf.
Qed.

(** Replacing a process by a version of itself. *)
Lemma calm_set pid p p' s :
  lookup_proc pid s = Some p -> static p' = static p -> calm s (alter_proc (fun _ => p') pid s).
Proof.
  intros Hp Hs. split; [|done]. intros x. rewrite lookup_alter_proc. case_decide; [|done].
  subst. rewrite Hp. cbn [fmap option_fmap option_map]. by rewrite Hs.
Qed.

Lemma static_deliver msg p p' : deliver_message msg p = Some p' -> static p' = static p.
Proof.
  unfold deliver_message. intros H0. case_match; [done|]. simplify_eq. by case_decide.
Qed.

Lemma static_deliver_ok msg p : static (deliver_ok msg p) = static p.
Proof.
  unfold deliver_ok. destruct (deliver_message msg p) as [p'|] eqn:Hd; [|done]. by eapply static_deliver.
Qed.

Lemma calm_enqueue pid s : calm s (enqueue pid s).
Proof. destruct (enqueue_frame pid s) as (? & ? & ? & ? & ? & _). by apply calm_registry. Qed.

Lemma calm_deliver_to to msg s : calm s (deliver_to to msg s).2.
Proof.
  unfold deliver_to. destruct (lookup_proc to s) as [p|] eqn:Hp.
  - destruct (deliver_message msg p) as [p'|] eqn:Hd; [|by apply calm_registry]. cbn.
    assert (Hc : calm s (record record_message_sent (alter_proc (fun _ => p') to s))).
    { transitivity (alter_proc (fun _ => p') to s); [|by apply calm_registry].
      eapply calm_set; [done|]. by eapply static_deliver. }
    case_bool_decide; [|done]. etrans; [done|apply calm_enqueue].
  - case_match; by apply calm_registry.
Qed.

Lemma calm_send to msg s w : calm s (send to msg s w).1.2.
Proof.
  apply (send_cases (calm s)); [|intros s' Hs'|done].
  - intros hk s' Hs'. etrans; [done|]. by apply calm_registry.
  - etrans; [done|apply calm_deliver_to].
Qed.

Lemma calm_send_all msgs s w : calm s (send_all msgs s w).1.
Proof.
  apply (send_all_cases (calm s)); [|intros to msg s' Hs'|done].
  - intros hk s' Hs'. etrans; [done|]. by apply calm_registry.
  - etrans; [done|apply calm_deliver_to].
Qed.

(** Folding calm steps. *)
Lemma calm_foldl {X} (f : Sched -> X -> Sched) l s :
  (forall s x, calm s (f s x)) -> calm s (foldl f s l).
Proof.
  intros Hf. revert s. induction l as [|x l IH]; intros s; [done|]. cbn. etrans; [apply Hf|apply IH].
Qed.

Lemma calm_deliver_responses s w : calm s (deliver_responses s w).1.
Proof.
  unfold deliver_responses. destruct (s_bridge s) as [br|]; [|done].
  destruct (bridge_drain_responses br) as [rs br']. etrans; [|apply calm_send_all]. by apply calm_registry.
Qed.

Lemma calm_retry_destroys s : calm s (retry_destroys s).
Proof.
  unfold retry_destroys. destruct (s_bridge s); [|done]. destruct (retry_pending _ _). by apply calm_registry.
Qed.

Lemma calm_fire_timeouts s w : calm s (fire_timeouts s w).1.
Proof.
  unfold fire_timeouts. destruct (read_clock s) as [now s1] eqn:Hc. unfold read_clock in Hc. simplify_eq.
  set (l := List.filter _ _). clearbody l. etrans; [by apply (calm_registry s (upd_clock_reads (Datatypes.S (s_clock_reads s)) s))|].
  generalize (upd_clock_reads (Datatypes.S (s_clock_reads s)) s). intros s0.
  revert s0 w. induction l as [|x l IH]; intros s0 w; [done|]. cbn [foldl].
  pose proof (calm_send x (System ReceiveTimeout) (alter_proc (with_receive_timeout None) x s0) w) as Hs.
  destruct (send _ _ _ _) as [[r s2] w2]. cbn in Hs. etrans; [|apply IH]. etrans; [|exact Hs].
  by apply calm_alter.
Qed.

Lemma calm_prepare s w : calm s (prepare s w).1.
Proof.
  unfold prepare. pose proof (calm_deliver_responses s w) as H1. destruct (deliver_responses s w) as [s1 w1].
  etrans; [exact H1|]. etrans; [apply calm_retry_destroys|apply calm_fire_timeouts].
Qed.

Lemma calm_select fuel s : calm s (select_runnable fuel s).2.
Proof. destruct (select_runnable_frame fuel s) as (? & ? & ? & ? & _). by apply calm_registry. Qed.

Lemma calm_request_io pid op s : calm s (request_io pid op s).
Proof.
  unfold request_io. cbn zeta. set (s1 := alter_proc (fun p => with_status Waiting (spend 1 p)) pid s).
  assert (H1 : calm s s1) by (by apply calm_alter).
  assert (Hw : forall err s2, calm s s2 -> calm s (enqueue pid
    (alter_proc (fun p => with_status Runnable (deliver_ok (Text err) p)) pid s2))).
  { intros err s2 H2. etrans; [exact H2|]. etrans; [|apply calm_enqueue]. apply calm_alter.
    intros p. apply (static_deliver_ok (Text err) p). }
  destruct (s_bridge s1) as [br|]; [|by apply Hw].
  destruct (bridge_submit pid op br) as [[?|err] br']; [|apply Hw]; (etrans; [exact H1|]); by apply calm_registry.
Qed.

Lemma calm_dispatch fuel pid sends spawns s w d s' w' :
  dispatch fuel pid sends spawns s w = Some (d, s', w') -> calm s s'.
Proof.
  revert sends spawns s w. induction fuel as [|fuel IH]; [done|]. intros sends spawns s w Hd.
  cbn [dispatch] in Hd. destruct (lookup_proc pid s) as [p|] eqn:Hp; [|by simplify_eq/=].
  destruct (p_reductions p =? 0); [by simplify_eq/=|]. unfold next_message in Hd.
  destruct (p_mailbox p) as [|m rest]; [by simplify_eq/=|].
  set (s1 := record record_message_processed (alter_proc (fun _ => with_mailbox rest p) pid s)) in *.
  assert (H1 : calm s s1).
  { etrans; [by apply (calm_set pid p (with_mailbox rest p) s)|]. by apply calm_registry. }
  assert (Hp1 : lookup_proc pid s1 = Some (with_mailbox rest p)).
  { change (lookup_proc pid (alter_proc (fun _ => with_mailbox rest p) pid s) = Some (with_mailbox rest p)).
    by rewrite lookup_alter_same, Hp. }
  destruct (p_state _) as [st|].
  2: { simplify_eq/=. etrans; [exact H1|]. by eapply calm_set. }
  destruct (call_behavior _ _ _ _) as [[action st'] w1].
  set (s2 := alter_proc _ pid s1) in *.
  assert (H2 : calm s s2) by (etrans; [exact H1|]; by eapply calm_set).
  destruct action as [|to msg|op|b a l mn|reason].
  - etrans; [exact H2|by eapply IH].
  - etrans; [exact H2|]. etrans; [|by eapply IH]. by apply calm_alter.
  - simplify_eq/=. etrans; [exact H2|apply calm_request_io].
  - etrans; [exact H2|]. etrans; [|by eapply IH]. by apply calm_alter.
  - by simplify_eq/=.
Qed.

(** ** The contract of [send] *)

Lemma enqueue_queued pid s :
  is_Some (lookup_proc pid s) -> queued (enqueue pid s) ≡ₚ pid :: queued s.
Proof.
  unfold enqueue, queued. intros [p ->]. destruct (p_priority p); cbn; solve_Permutation.
Qed.

(** [send] on every branch (no hook installed).  A registered process with room
    gets the message at the end of its mailbox, its receive timeout is cleared, and if
    it was waiting it becomes runnable and is queued once more; a full mailbox leaves
    all processes and queues as they are and yields an error and a dead letter; an
    unknown pid is routed outward when external routing is on, else it yields an error
    and a dead letter.  No other process is ever touched. *)
Theorem send_spec to msg s w :
  s_message_hook s = None ->
  let '(res, s', w') := send to msg s w in
  w' = w /\ (forall x, x <> to -> lookup_proc x s' = lookup_proc x s) /\
  match lookup_proc to s with
  | Some p =>
      if (length (p_mailbox p) <? p_mailbox_capacity p)%nat then
        res = Ok tt /\ s_dead_letters s' = s_dead_letters s /\
        (exists p', lookup_proc to s' = Some p' /\ p_mailbox p' = p_mailbox p ++ [msg] /\
           p_receive_timeout p' = None /\ p_state p' = p_state p /\
           p_status p' = (if decide (p_status p = Waiting) then Runnable else p_status p)) /\
        queued s' ≡ₚ (if decide (p_status p = Waiting) then [to] else []) ++ queued s
      else
        is_err res = true /\ lookup_proc to s' = Some p /\ queued s' = queued s /\
        dlq_total_count (s_dead_letters s') = wrap64 (dlq_total_count (s_dead_letters s) + 1)
  | None =>
      lookup_proc to s' = None /\ queued s' = queued s /\
      if s_allow_external_routing s then
        res = Ok tt /\ s_outbound_messages s' = s_outbound_messages s ++ [(to, msg)]
      else
        is_err res = true /\
        dlq_total_count (s_dead_letters s') = wrap64 (dlq_total_count (s_dead_letters s) + 1)
  end.
Proof.
  intros Hh. unfold send, call_hook. rewrite Hh. unfold deliver_to.
  destruct (lookup_proc to s) as [p|] eqn:Hp; [|by destruct (s_allow_external_routing s)].
  destruct (deliver_message msg p) as [p'|] eqn:Hd.
  - pose proof (static_deliver _ _ _ Hd) as Hst. pose proof (deliver_message_frame _ _ _ Hd) as (_ & _ & E & _).
    apply deliver_message_Some in Hd as (Hlt & Hmb & Hrt & Hs). apply Nat.ltb_lt in Hlt. rewrite Hlt.
    set (s1 := record record_message_sent (alter_proc (fun _ => p') to s)).
    assert (H1 : lookup_proc to s1 = Some p').
    { change (lookup_proc to (alter_proc (fun _ => p') to s) = Some p'). by rewrite lookup_alter_same, Hp. }
    assert (Hne : forall x, x <> to -> lookup_proc x s1 = lookup_proc x s) by (intros; by apply lookup_alter_ne).
    split; [done|]. case_bool_decide as Hw; case_decide; try done.
    + split; [intros; rewrite lookup_enqueue; by apply Hne|]. rewrite lookup_enqueue.
      destruct (enqueue_frame to s1) as (_ & _ & _ & _ & _ & _ & _ & -> & _).
      split_and!; [done|done|by exists p'|]. rewrite enqueue_queued by eauto. done.
    + split_and!; [done|done|done|by exists p'|done].
  - unfold deliver_message in Hd. destruct (_ <=? _)%nat eqn:Hle; [|by case_decide]. zify_bool.
    rewrite (proj2 (Nat.ltb_ge _ _)) by done. done.
Qed.
End facts.
