(* ===== verification/SchedWake.v ===== *)
(** No lost wakeups: every runnable process is in a run queue, so the scheduler is
    idle only when every process waits. *)
From S2P Require Import Prelude Types Process DeadLetter Scheduler SchedFacts.

Section wake.
Context {V B St Br Hk H W : Type} `{AB : AgentBehavior V B St W} `{BO : BridgeOps V Br}.
Context `{MH : MessageHook V Hk W} `{EH : ExitHandler V B St Br Hk H W} `{CK : Clock} `{HO : HashOrder}.
Abbreviation Sched := (AgentScheduler V B St Br Hk H).
Abbreviation Proc := (AgentProcess V B St).
Implicit Types (s : Sched) (w : W) (p : Proc).

(** A process that is at rest: it waits with room in its mailbox, so that the next
    message wakes it; or it is runnable, and queued if [q]. *)
Definition proc_ok (q : Prop) (pid : AgentPid) p : Prop :=
  p_pid p = pid /\ is_Some (p_state p) /\
  (length (p_mailbox p) <= p_mailbox_capacity p)%nat /\
  ((p_status p = Runnable /\ q) \/
   (p_status p = Waiting /\ (length (p_mailbox p) < p_mailbox_capacity p)%nat)).

(** [dead] is a process about to be terminated, about which nothing is known; those in
    [woken] are yet to be enqueued. *)
Definition wake_inv (dead : option AgentPid) (woken : list AgentPid) s : Prop :=
  forall pid p, lookup_proc pid s = Some p -> dead <> Some pid ->
    (0 < p_mailbox_capacity p)%nat /\ proc_ok (pid ∈ woken \/ pid ∈ queued s) pid p.

Lemma proc_ok_mono (q q' : Prop) pid p : (q -> q') -> proc_ok q pid p -> proc_ok q' pid p.
Proof. unfold proc_ok. tauto. Qed.

(** Updates that only touch the other fields. *)
Lemma wake_inv_frame dead woken s s' :
  s_registry s' = s_registry s -> queued s' = queued s -> wake_inv dead woken s -> wake_inv dead woken s'.
Proof. unfold wake_inv, lookup_proc. by intros -> ->. Qed.

Lemma wake_inv_alter dead woken f pid s :
  wake_inv dead woken s ->
  (forall p, lookup_proc pid s = Some p -> dead <> Some pid ->
     (0 < p_mailbox_capacity p)%nat -> proc_ok (pid ∈ woken \/ pid ∈ queued s) pid p ->
     (0 < p_mailbox_capacity (f p))%nat /\ proc_ok (pid ∈ woken \/ pid ∈ queued s) pid (f p)) ->
  wake_inv dead woken (alter_proc f pid s).
Proof.
  intros Hi Hf x p. rewrite lookup_alter_proc, queued_alter. case_decide as Hx; [subst x|by apply Hi].
  intros (p0 & Hp0 & ->)%fmap_Some Hd. destruct (Hi _ _ Hp0 Hd). by apply Hf.
Qed.

Lemma wake_inv_enqueue dead woken pid s :
  wake_inv dead (pid :: woken) s -> wake_inv dead woken (enqueue pid s).
Proof.
  intros Hi x p. rewrite lookup_enqueue. intros Hp Hd. destruct (Hi _ _ Hp Hd) as [? Hok].
  split; [done|]. eapply proc_ok_mono; [|exact Hok]. rewrite elem_of_enqueue.
  intros [[->|Hx]%elem_of_cons|Hx]; eauto.
Qed.

Lemma wake_inv_weaken dead woken woken' s :
  woken ⊆ woken' -> wake_inv dead woken s -> wake_inv dead woken' s.
Proof.
  intros Hs Hi x p Hp Hd. destruct (Hi _ _ Hp Hd) as [? Hok]. split; [done|].
  eapply proc_ok_mono; [|exact Hok]. intros [Hx|Hx]; [left; by apply Hs | by right].
Qed.

Lemma wake_inv_enqueue_keep dead woken pid s :
  wake_inv dead woken s -> wake_inv dead woken (enqueue pid s).
Proof. intros Hi. apply wake_inv_enqueue, wake_inv_weaken with woken; [set_solver|done]. Qed.

(** ** Delivery *)

Lemma deliver_proc_ok q pid msg p :
  proc_ok q pid p -> (p_status p = Waiting -> q) -> proc_ok q pid (deliver_ok msg p).
Proof.
  intros (Hpid & Hst & Hlen & Hs) Hq. unfold deliver_ok.
  destruct (deliver_message msg p) as [p'|] eqn:Hd; cbn; [|done].
  pose proof (deliver_message_frame _ _ _ Hd) as (E1 & _ & E2 & _ & _ & _ & _ & E3 & _).
  apply deliver_message_Some in Hd as (Hlt & Hmb & _ & Hst').
  unfold proc_ok. rewrite E1, E2, E3, Hmb, Hst', length_app. cbn.
  split_and!; [done|done|lia|]. left. destruct Hs as [[Hr Hqq]|[Hw _]]; case_decide; naive_solver.
Qed.

Lemma deliver_capacity msg p : p_mailbox_capacity (deliver_ok msg p) = p_mailbox_capacity p.
Proof.
  unfold deliver_ok. destruct (deliver_message msg p) as [p'|] eqn:Hd; cbn; [|done].
  by apply deliver_message_frame in Hd as (_ & _ & _ & _ & _ & _ & _ & E & _).
Qed.

(** Delivering without enqueueing: the process joins the woken ones. *)
Lemma wake_inv_deliver dead woken msg pid s :
  wake_inv dead woken s -> wake_inv dead (pid :: woken) (alter_proc (deliver_ok msg) pid s).
Proof.
  intros Hi. apply wake_inv_alter; [eapply wake_inv_weaken; [|done]; intros x Hx; by right|].
  intros p Hp Hd Hc Hok. rewrite deliver_capacity. split; [done|].
  apply deliver_proc_ok; [done|]. intros _. left. by left.
Qed.

(** A process that was not waiting need not be enqueued again. *)
Lemma wake_inv_deliver_running dead woken msg pid s p0 :
  wake_inv dead woken s -> lookup_proc pid s = Some p0 -> p_status p0 <> Waiting ->
  wake_inv dead woken (alter_proc (deliver_ok msg) pid s).
Proof.
  intros Hi Hp0 Hw. apply wake_inv_alter; [done|]. intros p Hp Hd Hc Hok. simplify_eq.
  rewrite deliver_capacity. split; [done|]. by apply deliver_proc_ok.
Qed.

Lemma wake_inv_deliver_to dead woken to msg s :
  wake_inv dead woken s -> wake_inv dead woken (deliver_to to msg s).2.
Proof.
  intros Hi. unfold deliver_to. destruct (lookup_proc to s) as [p|] eqn:Hp; [|by case_match].
  destruct (deliver_message msg p) as [p'|] eqn:Hd; [|done].
  assert (Hreg : s_registry (alter_proc (fun _ => p') to s) = s_registry (alter_proc (deliver_ok msg) to s)).
  { unfold alter_proc, registry_alter. cbn. f_equal. apply alter_ext. intros y Hy.
    unfold lookup_proc, registry_lookup in Hp. simplify_eq. unfold deliver_ok. by rewrite Hd. }
  cbn. case_bool_decide as Hw.
  - apply wake_inv_enqueue. apply wake_inv_frame with (alter_proc (deliver_ok msg) to s); [done..|].
    by apply wake_inv_deliver.
  - apply wake_inv_frame with (alter_proc (deliver_ok msg) to s); [done..|].
    by apply wake_inv_deliver_running with p.
Qed.

Lemma wake_inv_send dead woken to msg s w :
  wake_inv dead woken s -> wake_inv dead woken (send to msg s w).1.2.
Proof. apply send_cases; [done|]. intros s'. apply wake_inv_deliver_to. Qed.

Lemma wake_inv_send_all dead woken msgs s w :
  wake_inv dead woken s -> wake_inv dead woken (send_all msgs s w).1.
Proof. apply send_all_cases; [done|]. intros to msg s'. apply wake_inv_deliver_to. Qed.

(** ** Termination *)

Lemma wake_inv_removed dead woken pid reason s w :
  dead = None \/ dead = Some pid ->
  wake_inv dead woken s -> wake_inv None woken (removed pid reason s w).
Proof.
  intros Hd Hi x p. rewrite lookup_removed. case_decide; [done|]. intros Hp _.
  destruct (removed_frame pid reason s w) as [-> _]. apply Hi; [done|]. destruct Hd as [->| ->]; congruence.
Qed.

Lemma wake_inv_alter_links dead woken f pid s :
  (forall p, p_pid (f p) = p_pid p /\ p_state (f p) = p_state p /\ p_mailbox (f p) = p_mailbox p /\
     p_mailbox_capacity (f p) = p_mailbox_capacity p /\ p_status (f p) = p_status p) ->
  wake_inv dead woken s -> wake_inv dead woken (alter_proc f pid s).
Proof.
  intros Hf Hi. apply wake_inv_alter; [done|]. intros p Hp _ Hc Hok.
  destruct (Hf p) as (E1 & E2 & E3 & E4 & E5). unfold proc_ok in *. by rewrite E1, E2, E3, E4, E5.
Qed.

Lemma wake_inv_remove_monitors dead woken pid ms s :
  wake_inv dead woken s -> wake_inv dead woken (remove_monitors pid ms s).
Proof.
  unfold remove_monitors. revert s. induction ms as [|[r t] ms IH]; intros s Hi; [done|].
  cbn [foldl]. apply IH. by apply wake_inv_alter_links.
Qed.

Lemma wake_inv_notify_watchers dead woken pid reason ms s :
  wake_inv dead woken s -> wake_inv dead woken (notify_watchers pid reason ms s).1.
Proof.
  unfold notify_watchers. cbn. revert s. induction ms as [|[r t] ms IH]; intros s Hi; [done|].
  cbn [foldl]. apply IH. by apply wake_inv_alter_links.
Qed.

Lemma wake_inv_notify_links dead pid reason links s :
  wake_inv dead [] s ->
  let '(s', _, wake) := notify_links pid reason links s in wake_inv dead wake s'.
Proof.
  intros Hi. unfold notify_links.
  assert (H0 : forall acc : Sched * list AgentPid * list AgentPid, wake_inv dead acc.2 acc.1.1 ->
    wake_inv dead (foldl (fun acc l => notify_link pid reason l acc) acc links).2
                  (foldl (fun acc l => notify_link pid reason l acc) acc links).1.1).
  { induction links as [|l links IH]; intros acc Hacc; [done|]. cbn [foldl]. apply IH.
    destruct acc as [[s1 cascade] wake]. cbn in *. unfold notify_link.
    destruct (lookup_proc l s1) as [lp|] eqn:Hl; [|done].
    destruct (p_trap_exit lp); [|by destruct (negb _)]. cbn. case_decide as Hw.
    - eapply wake_inv_weaken; [|by apply wake_inv_deliver]. intros x. set_solver.
    - by eapply wake_inv_deliver_running. }
  specialize (H0 (s, [], []) Hi). by destruct (foldl _ _ _) as [[s1 cascade] wake].
Qed.

Lemma wake_inv_enqueue_all dead wake s :
  wake_inv dead wake s -> wake_inv dead [] (foldl (fun s wake_pid => enqueue wake_pid s) s wake).
Proof.
  revert s. induction wake as [|x wake IH]; intros s Hi; [done|]. cbn [foldl].
  by apply IH, wake_inv_enqueue.
Qed.

Lemma wake_inv_terminate_core dead pid reason s w :
  dead = None \/ dead = Some pid -> wake_inv dead [] s ->
  wake_inv None [] (terminate_core pid reason s w).1.1.
Proof.
  intros Hd Hi. rewrite terminate_core_eq. cbn zeta.
  pose proof (wake_inv_notify_links None pid reason (links_of pid s)
    (remove_monitors pid (monitors_of pid s) (removed pid reason s w))) as Hl.
  match goal with |- context [notify_links ?a ?b ?c ?d] =>
    destruct (notify_links a b c d) as [[s2 cascade] wake] end.
  pose proof (wake_inv_notify_watchers None wake pid reason (monitored_by_of pid s) s2) as Hw.
  match goal with |- context [notify_watchers ?a ?b ?c ?d] =>
    destruct (notify_watchers a b c d) as [s3 downs] end. cbn in *.
  apply wake_inv_send_all, wake_inv_enqueue_all, Hw, Hl, wake_inv_remove_monitors.
  by eapply wake_inv_removed.
Qed.

(** Handlers that keep the invariant. *)
Class WakeHandlers : Prop :=
  handlers_wake : forall h pid reason s w h' s' w',
    run_handler h pid reason s w = Some (h', s', w') -> wake_inv None [] s -> wake_inv None [] s'.

Context `{WH : WakeHandlers}.

Lemma wake_inv_run_handlers hs pid reason s w hs' s' w' :
  wake_inv None [] s -> run_handlers hs pid reason s w = Some (hs', s', w') -> wake_inv None [] s'.
Proof.
  revert s w hs' s' w'. induction hs as [|h hs IH]; intros s w hs' s' w' Hi Hr; [by simplify_eq/=|].
  cbn in Hr. destruct (run_handler h pid reason s w) as [[[h1 s1] w1]|] eqn:Hh; [|done]. cbn in Hr.
  destruct (run_handlers hs pid reason s1 w1) as [[[hs2 s2] w2]|] eqn:Hhs; [|done]. simplify_eq/=.
  eapply (IH s1); [|done]. by eapply handlers_wake.
Qed.

Lemma wake_inv_exit_handlers pid reason s w s' w' :
  wake_inv None [] s -> run_exit_handlers pid reason s w = Some (s', w') -> wake_inv None [] s'.
Proof.
  unfold run_exit_handlers. destruct (s_exit_handlers s) as [|h hs]; intros Hi Hr; [by simplify_eq|].
  destruct (run_handlers _ _ _ _ _) as [[[hs2 s2] w2]|] eqn:Hhs; [|done].
  apply wake_inv_run_handlers in Hhs; [|done]. by simplify_eq/=.
Qed.

Lemma wake_inv_terminate fuel dead pid reason s w s' w' :
  dead = None \/ dead = Some pid -> wake_inv dead [] s ->
  terminate_process fuel pid reason s w = Some (s', w') -> wake_inv None [] s'.
Proof.
  revert dead pid reason s w s' w'. induction fuel as [|fuel IH]; [done|]. intros dead pid reason s w s' w' Hd Hi Ht.
  cbn in Ht. pose proof (wake_inv_terminate_core dead pid reason s w Hd Hi) as Hc.
  destruct (terminate_core pid reason s w) as [[s1 cascade] w1]. cbn in Hc.
  match type of Ht with (mbind _ ?e) = _ => destruct e as [[s2 w2]|] eqn:Hf; [|done] end. cbn in Ht.
  destruct (run_exit_handlers pid reason s2 w2) as [[s3 w3]|] eqn:Hx; [|done]. simplify_eq/=.
  assert (Hi2 : wake_inv None [] s2).
  { clear Hx. revert s1 w1 Hc Hf. induction cascade as [|x cascade IHc]; intros s1 w1 Hc Hf; [by simplify_eq/=|].
    cbn in Hf. destruct (terminate_process fuel x reason s1 w1) as [[s4 w4]|] eqn:H4; [|done]. cbn in Hf.
    eapply IHc; [|done]. eapply IH; [by left| |done]. done. }
  apply wake_inv_exit_handlers in Hx; [|done].
  destruct (submit_destroy_frame pid (record record_process_termination s3)) as (E1 & E2 & _).
  by apply wake_inv_frame with s3; [rewrite E1|rewrite E2|].
Qed.

(** ** The scheduling cycle *)

Lemma wake_inv_prepare s w : wake_inv None [] s -> wake_inv None [] (prepare s w).1.
Proof.
  intros Hi. unfold prepare.
  assert (H1 : wake_inv None [] (deliver_responses s w).1).
  { unfold deliver_responses. destruct (s_bridge s); [|done].
    destruct (bridge_drain_responses _) as [rs br]. by apply wake_inv_send_all. }
  destruct (deliver_responses s w) as [s1 w1]. cbn in H1.
  assert (H2 : wake_inv None [] (retry_destroys s1)).
  { unfold retry_destroys. destruct (s_bridge s1); [|done]. by destruct (retry_pending _ _). }
  unfold fire_timeouts. destruct (read_clock (retry_destroys s1)) as [now s2] eqn:Hc.
  unfold read_clock in Hc. simplify_eq. set (l := List.filter _ _). clearbody l.
  assert (Hg : forall s w, wake_inv None [] s -> wake_inv None [] (foldl (fun '(s, w) pid =>
    let s := alter_proc (with_receive_timeout None) pid s in
    let '(_, s, w) := send pid (System ReceiveTimeout) s w in (s, w)) (s, w) l).1).
  { induction l as [|x l IH]; intros s3 w3 Hi3; [done|]. cbn [foldl].
    pose proof (wake_inv_send None [] x (System ReceiveTimeout)
      (alter_proc (with_receive_timeout None) x s3) w3) as Hs.
    destruct (send _ _ _ _) as [[r s4] w4]. apply IH, Hs. by apply wake_inv_alter_links. }
  by apply Hg.
Qed.

(** Popping an entry only affects the popped process. *)
Lemma wake_inv_select fuel s pid s' :
  (length (queued s) < fuel)%nat -> wake_inv None [] s ->
  select_runnable fuel s = (Some pid, s') ->
  wake_inv None [pid] s' /\ is_runnable pid s' = true.
Proof.
  intros Hf Hi Hs. pose proof (select_runnable_spec fuel s Hf) as Hsp.
  pose proof (select_runnable_frame fuel s) as (Hreg & _). rewrite Hs in Hsp, Hreg. cbn in Hreg.
  destruct Hsp as (Hq & Hr & Hrest). split; [|by rewrite (is_runnable_registry _ s)].
  intros x p Hp _. assert (Hps : lookup_proc x s = Some p) by (unfold lookup_proc in *; congruence).
  destruct (Hi x p Hps) as [Hc (E1 & E2 & E3 & Hst)]; [done|]. split; [done|].
  split_and!; [done..|]. destruct Hst as [[Hrun [[]%not_elem_of_nil|Hx]]|Hw]; [|by right]. left. split; [done|].
  destruct (Hrest x Hx) as [?|[->|Hnr]]; [by right|left; by left|].
  unfold is_runnable in Hnr. rewrite Hps in Hnr. by rewrite bool_decide_eq_true_2 in Hnr.
Qed.

(** The process being dispatched is replaced. *)
Lemma wake_inv_set pid p' s :
  wake_inv None [pid] s -> (0 < p_mailbox_capacity p')%nat -> proc_ok True pid p' ->
  wake_inv None [pid] (alter_proc (fun _ => p') pid s).
Proof.
  intros Hi Hc Hok. apply wake_inv_alter; [done|]. intros p _ _ _ _. split; [done|].
  eapply proc_ok_mono; [|exact Hok]. intros _. left. by left.
Qed.

Lemma wake_inv_dead pid f s : wake_inv None [pid] s -> wake_inv (Some pid) [] (alter_proc f pid s).
Proof.
  intros Hi x p. rewrite lookup_alter_proc. case_decide as Hx; [by subst|]. intros Hp _.
  destruct (Hi x p Hp) as [? Hok]; [done|]. split; [done|]. eapply proc_ok_mono; [|exact Hok].
  rewrite queued_alter, list_elem_of_singleton. tauto.
Qed.

Lemma wake_inv_drop pid s :
  wake_inv None [pid] s -> (forall p, lookup_proc pid s = Some p -> p_status p = Waiting) ->
  wake_inv None [] s.
Proof.
  intros Hi Hw x p Hp Hd. destruct (Hi x p Hp Hd) as [? (E1 & E2 & E3 & Hst)]. split; [done|].
  split_and!; [done..|]. destruct Hst as [[Hr [Hx|Hq]]|?]; [|left; auto|by right].
  apply list_elem_of_singleton in Hx as ->. rewrite (Hw _ Hp) in Hr. done.
Qed.

Lemma wake_inv_request_io pid op s p :
  wake_inv None [pid] s -> lookup_proc pid s = Some p ->
  (length (p_mailbox p) < p_mailbox_capacity p)%nat ->
  wake_inv None [] (request_io pid op s).
Proof.
  intros Hi Hp Hlt. unfold request_io.
  set (s1 := alter_proc (fun p => with_status Waiting (spend 1 p)) pid s).
  assert (Hp1 : lookup_proc pid s1 = Some (with_status Waiting (spend 1 p)))
    by (unfold s1; by rewrite lookup_alter_same, Hp).
  assert (H1 : wake_inv None [] s1).
  { apply wake_inv_drop with pid; [|by rewrite Hp1; intros ? [= <-]].
    apply wake_inv_alter; [done|]. intros p0 Hp0 _ Hc (E1 & E2 & E3 & _). simplify_eq.
    split; [done|]. split_and!; [done..|]. by right. }
  assert (Hwake : forall err s2, s_registry s2 = s_registry s1 -> queued s2 = queued s1 ->
    wake_inv None [] (enqueue pid
      (alter_proc (fun p => with_status Runnable (deliver_ok (Text err) p)) pid s2))).
  { intros err s2 E1 E2. apply wake_inv_enqueue. apply wake_inv_frame with
      (alter_proc (fun p => with_status Runnable (deliver_ok (Text err) p)) pid s1); [|done|].
    - unfold alter_proc. cbn. by rewrite E1.
    - apply wake_inv_alter; [eapply wake_inv_weaken; [|done]; by intros ? ?%not_elem_of_nil|].
      intros p0 Hp0 _ Hc Hok. cbn. rewrite deliver_capacity. split; [done|].
      pose proof (deliver_proc_ok _ pid (Text err) p0 Hok) as (F1 & F2 & F3 & _); [intros _; left; by left|].
      split_and!; [done..|]. left. split; [done|]. left. by left. }
  destruct (s_bridge s1) as [br|] eqn:Hb.
  - destruct (bridge_submit pid op br) as [[?|err] br']; [done|]. by apply Hwake.
  - by apply Hwake.
Qed.

Lemma wake_inv_dispatch fuel pid sends spawns s w d s' w' :
  wake_inv None [pid] s -> is_runnable pid s = true ->
  dispatch fuel pid sends spawns s w = Some (d, s', w') ->
  match d_stop d with
  | Some _ => wake_inv (Some pid) [] s'
  | None =>
      if d_out d then wake_inv None [pid] s'
      else if d_wait d then
        wake_inv None [pid] s' /\ forall p, lookup_proc pid s' = Some p -> p_mailbox p = []
      else wake_inv None [] s'
  end.
Proof.
  revert sends spawns s w. induction fuel as [|fuel IH]; [done|]. intros sends spawns s w Hi Hr Hd.
  cbn [dispatch] in Hd. unfold is_runnable in Hr. destruct (lookup_proc pid s) as [p|] eqn:Hp; [|done].
  apply bool_decide_eq_true in Hr. destruct (Hi _ _ Hp) as [Hc (E1 & [st Hst] & E3 & _)]; [done|].
  destruct (p_reductions p =? 0); [by simplify_eq/=|]. unfold next_message in Hd.
  destruct (p_mailbox p) as [|m rest] eqn:Hmb; [simplify_eq/=; split; [done|congruence]|].
  cbn in Hd, E3. rewrite Hst in Hd.
  destruct (call_behavior (p_behavior p) m st w) as [[action st'] w1] eqn:Hcall.
  set (p1 := with_state st' (spend 1 (with_mailbox rest p))) in *.
  set (s1 := alter_proc (fun _ => p1) pid
    (record record_message_processed (alter_proc (fun _ => with_mailbox rest p) pid s))) in *.
  assert (Hp1 : lookup_proc pid s1 = Some p1).
  { unfold s1. rewrite lookup_alter_same. change (lookup_proc pid (record _ ?x)) with (lookup_proc pid x).
    by rewrite lookup_alter_same, Hp. }
  assert (Hdead : wake_inv (Some pid) [] s1).
  { unfold s1. intros x q. rewrite lookup_alter_proc. case_decide; [by subst|].
    by apply (wake_inv_dead pid (fun _ => with_mailbox rest p) s Hi). }
  assert (Hok : is_Some st' -> wake_inv None [pid] s1).
  { intros Hs'. unfold s1. apply wake_inv_set; [|done|split_and!; cbn; [done|done|lia|left; done]].
    apply (wake_inv_frame None [pid] (alter_proc (fun _ => with_mailbox rest p) pid s)); [done..|].
    apply wake_inv_set; [done|done|]. split_and!; cbn; [done|by rewrite Hst|lia|left; done]. }
  assert (Hnext : forall f, (forall p, p_status (f p) = p_status p) -> is_runnable pid (alter_proc f pid s1) = true).
  { intros f Hf. unfold is_runnable. rewrite lookup_alter_same, Hp1. cbn. rewrite Hf.
    by apply bool_decide_eq_true. }
  assert (Hst' : (forall r, action <> Stop r) -> is_Some st').
  { intros Hns. unfold call_behavior in Hcall. destruct m as [| |[]];
      (match type of Hcall with (let '(_, _) := ?e in _) = _ => destruct e as [[[]|] ?] end); naive_solver. }
  destruct action as [|to msg|op|b a l mn|reason].
  - eapply IH; [by apply Hok, Hst'| |done]. unfold is_runnable. rewrite Hp1. by apply bool_decide_eq_true.
  - eapply IH; [| |exact Hd]; [|by apply Hnext]. apply wake_inv_alter_links; [done|]. by apply Hok, Hst'.
  - simplify_eq/=. apply wake_inv_request_io with p1; [by apply Hok, Hst'|done|cbn; lia].
  - eapply IH; [| |exact Hd]; [|by apply Hnext]. apply wake_inv_alter_links; [done|]. by apply Hok, Hst'.
  - by simplify_eq/=.
Qed.

Lemma wake_inv_monitor dead woken watcher target s :
  wake_inv dead woken s -> wake_inv dead woken (monitor watcher target s).2.
Proof.
  intros Hi. unfold monitor. destruct (lookup_proc watcher s); [|done]. destruct (lookup_proc target s); [|done].
  cbn. by apply wake_inv_alter_links, wake_inv_alter_links.
Qed.

Lemma wake_inv_spawn dead b args s w :
  wake_inv dead [] s ->
  match spawn b args s w with
  | (Ok pid, s', _) => wake_inv dead [pid] s' /\ is_Some (lookup_proc pid s')
  | (Err _, s', _) => wake_inv dead [] s'
  end.
Proof.
  intros Hi. unfold spawn. pose proof (registry_spawn_cases b args (s_registry s) (s_next_pid s) w) as Hc.
  destruct (registry_spawn _ _ _ _ _) as [[[[pid|e] reg] next] w']; cbn; [|by destruct Hc as [-> _]].
  destruct Hc as (-> & _ & _ & st & Hreg). split.
  - intros x p. unfold lookup_proc, registry_lookup. cbn. rewrite Hreg.
    intros [[<- <-]|[Hx Hp]]%lookup_insert_Some Hd.
    + cbn. unfold DEFAULT_MAILBOX_CAPACITY. split; [lia|]. split_and!; cbn; [done|eauto|lia|left; split; [done|]].
      left. by left.
    + destruct (Hi x p Hp Hd) as [? Hok]. split; [done|]. eapply proc_ok_mono; [|exact Hok].
      intros [[]%not_elem_of_nil|?]. by right.
  - unfold lookup_proc, registry_lookup. cbn. rewrite Hreg, lookup_insert, decide_True by done. eauto.
Qed.

Lemma wake_inv_spawn_pending dead pid req s w :
  wake_inv dead [] s -> wake_inv dead [] (spawn_pending pid req s w).1.
Proof.
  intros Hi. destruct req as [[[b args] link] mon]. unfold spawn_pending.
  pose proof (wake_inv_spawn dead b args s w Hi) as Hs.
  destruct (spawn b args s w) as [[[child|e] s1] w1]; [|done]. destruct Hs as [Hs _].
  assert (H2 : wake_inv dead [child] (if link then link_pair pid child s1 else s1)).
  { destruct link; [|done]. unfold link_pair. by apply wake_inv_alter_links, wake_inv_alter_links. }
  destruct (if mon then _ else _) as [mref s3] eqn:Hm.
  assert (H3 : wake_inv dead [child] s3).
  { destruct mon; [|by simplify_eq].
    pose proof (wake_inv_monitor dead [child] pid child _ H2) as Hmi.
    destruct (monitor pid child _) as [[r|e] s4]; by simplify_eq. }
  pose proof (wake_inv_send dead [child] pid (System (SpawnResult child mref)) s3 w1 H3) as H4.
  destruct (send _ _ _ _) as [[r s4] w4]. cbn. by apply wake_inv_enqueue.
Qed.

Lemma wake_inv_spawn_all dead pid reqs s w :
  wake_inv dead [] s -> wake_inv dead [] (spawn_all pid reqs s w).1.
Proof.
  unfold spawn_all. revert s w. induction reqs as [|r reqs IH]; intros s w Hi; [done|]. cbn [foldl].
  pose proof (wake_inv_spawn_pending dead pid r s w Hi) as Hs.
  destruct (spawn_pending pid r s w) as [s1 w1]. by apply IH.
Qed.

Lemma wake_inv_finish fuel pid d s w s' w' :
  match d_stop d with
  | Some _ => wake_inv (Some pid) [] s /\ d_out d = false /\ d_wait d = false
  | None =>
      if d_out d then wake_inv None [pid] s /\ d_wait d = false
      else if d_wait d then
        wake_inv None [pid] s /\ forall p, lookup_proc pid s = Some p -> p_mailbox p = []
      else wake_inv None [] s
  end ->
  finish fuel pid d s w = Some (s', w') -> wake_inv None [] s'.
Proof.
  intros Hi Hf. unfold finish in Hf.
  set (s5 := if d_wait d then alter_proc (with_status Waiting) pid s else s) in *.
  set (s6 := if d_out d then enqueue pid s5 else s5) in *.
  assert (H6 : wake_inv (if d_stop d then Some pid else None) [] s6).
  { unfold s6, s5. destruct (d_stop d); [by destruct Hi as (? & -> & ->)|].
    destruct (d_out d); [destruct Hi as [? ->]; by apply wake_inv_enqueue|].
    destruct (d_wait d); [|done]. destruct Hi as [H4 Hmb]. apply wake_inv_drop with pid.
    - apply wake_inv_alter; [done|]. intros p Hp0 _ Hc (E1 & E2 & E3 & _). split; [done|].
      split_and!; [done..|]. right. split; [done|]. cbn. rewrite (Hmb _ Hp0). cbn. lia.
    - intros p. rewrite lookup_alter_same. by intros (? & _ & ->)%fmap_Some. }
  pose proof (wake_inv_send_all _ [] (d_sends d) s6 w H6) as H7.
  destruct (send_all (d_sends d) s6 w) as [s7 w7].
  pose proof (wake_inv_spawn_all _ pid (d_spawns d) s7 w7 H7) as H8.
  destruct (spawn_all pid (d_spawns d) s7 w7) as [s8 w8]. cbn in H8.
  destruct (d_stop d); [|by simplify_eq]. eapply wake_inv_terminate; [|exact H8|done]. by right.
Qed.

(** When nothing runnable is queued, nothing is runnable. *)
Lemma wake_inv_idle s :
  wake_inv None [] s -> (forall pid, pid ∈ queued s -> is_runnable pid s = false) ->
  forall pid p, lookup_proc pid s = Some p ->
    p_status p = Waiting /\ (length (p_mailbox p) < p_mailbox_capacity p)%nat.
Proof.
  intros Hi Hq pid p Hp. destruct (Hi pid p Hp) as [_ (_ & _ & _ & Hst)]; [done|].
  destruct Hst as [[Hr [[]%not_elem_of_nil|Hx]]|?]; [|done].
  apply Hq in Hx. unfold is_runnable in Hx. rewrite Hp in Hx. by rewrite bool_decide_eq_true_2 in Hx.
Qed.

Lemma wake_inv_tick fuel s w b s' w' :
  wake_inv None [] s -> tick fuel s w = Some (b, s', w') ->
  wake_inv None [] s' /\
  (b = false -> forall pid p, lookup_proc pid s' = Some p ->
     p_status p = Waiting /\ (length (p_mailbox p) < p_mailbox_capacity p)%nat).
Proof.
  intros Hi Ht. unfold tick in Ht. pose proof (wake_inv_prepare s w Hi) as Hp.
  destruct (prepare s w) as [s1 w1]. cbn in Hp.
  assert (Hfuel : (length (queued s1) < select_fuel s1)%nat) by (unfold select_fuel; lia).
  destruct (select_runnable (select_fuel s1) s1) as [[pid|] s2] eqn:Hs.
  - destruct (wake_inv_select _ _ _ _ Hfuel Hp Hs) as [H2 Hr2].
    set (s3 := alter_proc (with_reductions DEFAULT_REDUCTIONS) pid s2) in *.
    destruct (dispatch dispatch_fuel pid [] [] s3 w1) as [[[d s4] w4]|] eqn:Hd; [|done]. cbn in Ht.
    destruct (finish fuel pid d s4 w4) as [[s5 w5]|] eqn:Hf; [|done]. simplify_eq/=. split; [|done].
    assert (H3 : wake_inv None [pid] s3) by (by apply wake_inv_alter_links).
    assert (Hr3 : is_runnable pid s3 = true).
    { unfold s3, is_runnable in *. rewrite lookup_alter_same. by destruct (lookup_proc pid s2). }
    eapply wake_inv_finish; [|exact Hf].
    pose proof (wake_inv_dispatch _ _ _ _ _ _ _ _ _ H3 Hr3 Hd) as H4.
    pose proof (dispatch_flags _ _ _ _ _ _ _ _ _ Hd) as Hfl.
    destruct (d_stop d); [done|]. destruct (d_out d); [naive_solver|done].
  - simplify_eq. pose proof (select_runnable_spec (select_fuel s1) s1 Hfuel) as Hsp.
    pose proof (select_runnable_frame (select_fuel s1) s1) as (Hreg & _). rewrite Hs in Hsp, Hreg. cbn in Hreg.
    pose proof (wake_inv_idle s1 Hp Hsp) as Hidle.
    assert (Hl : forall x, lookup_proc x s' = lookup_proc x s1) by (intros; unfold lookup_proc; by rewrite Hreg).
    split; [|intros _ x p; rewrite Hl; apply Hidle]. intros x p. rewrite Hl. intros Hx Hd.
    destruct (Hp x p Hx Hd) as [? (E1 & E2 & E3 & _)]. split; [done|]. split_and!; [done..|].
    right. by eapply Hidle.
Qed.

Lemma wake_inv_demonitor dead woken watcher mon_ref s :
  wake_inv dead woken s -> wake_inv dead woken (demonitor watcher mon_ref s).2.
Proof.
  intros Hi. unfold demonitor. destruct (lookup_proc watcher s); [|done].
  destruct (position _ _); [|done]. destruct (swap_remove _ _) as [[[r t] rest]|]; [|done]. cbn.
  by apply wake_inv_alter_links, wake_inv_alter_links.
Qed.

Lemma wake_inv_exec fuel c s w s' w' :
  wake_inv None [] s -> sched_exec fuel c s w = Some (s', w') -> wake_inv None [] s'.
Proof.
  intros Hi He. destruct c; cbn in He; simplify_eq.
  - destruct (tick fuel s w) as [[[b s1] w1]|] eqn:Ht; [|done]. simplify_eq/=.
    by destruct (wake_inv_tick _ _ _ _ _ _ Hi Ht).
  - pose proof (wake_inv_send None [] to msg s w Hi) as Hs. by destruct (send _ _ _ _) as [[? ?] ?]; simplify_eq.
  - unfold spawn_enqueued in He. pose proof (wake_inv_spawn None behavior args s w Hi) as Hs.
    destruct (spawn behavior args s w) as [[[pid|e] s1] w1]; simplify_eq; [|done].
    apply wake_inv_enqueue, wake_inv_alter_links; [done|]. by destruct Hs.
  - eapply wake_inv_terminate; [|exact Hi|done]. by left.
  - by apply wake_inv_monitor.
  - by apply wake_inv_demonitor.
  - unfold set_receive_timeout. destruct (lookup_proc pid s); [|done]. cbn.
    destruct (checked_add_instant _ _); [|done]. by apply wake_inv_alter_links.
  - by apply wake_inv_alter_links.
  - by apply wake_inv_alter_links.
  - done.
  - done.
  - done.
  - done.
  - done.
Qed.

Lemma wake_inv_run fuel calls s w s' w' :
  wake_inv None [] s -> sched_run fuel calls s w = Some (s', w') -> wake_inv None [] s'.
Proof.
  unfold sched_run. revert s w. induction calls as [|c calls IH]; intros s w Hi Hr; [by simplify_eq/=|].
  cbn in Hr. destruct (sched_exec fuel c s w) as [[s1 w1]|] eqn:He; [|done]. cbn in Hr.
  eapply IH; [|done]. by eapply wake_inv_exec.
Qed.

(** C2: no wakeup is lost.  Whatever calls the runtime makes, and whatever the
    behaviors, the hooks, the bridge and the (invariant-keeping) exit handlers do,
    every registered process either waits with room in its mailbox, so that the next
    delivery wakes it, or is runnable and sits in a run queue. *)
Theorem no_lost_wakeup fuel (calls : list (SchedCall V B Br Hk H)) next_pid next_ref w s w' :
  sched_run fuel calls (scheduler_new next_pid next_ref) w = Some (s, w') ->
  forall pid p, lookup_proc pid s = Some p ->
    (p_status p = Runnable /\ pid ∈ queued s) \/
    (p_status p = Waiting /\ (length (p_mailbox p) < p_mailbox_capacity p)%nat).
Proof.
  intros Hr pid p Hp. apply wake_inv_run in Hr; [|intros ? ? [=]].
  destruct (Hr pid p Hp) as [_ (_ & _ & _ & [[? [[]%not_elem_of_nil|?]]|?])]; auto.
Qed.

(** An idle scheduler is quiescent: when [tick] reports that it found no work, no
    process is runnable any more, queued or not: all of them wait. *)
Theorem idle_is_quiescent fuel (calls : list (SchedCall V B Br Hk H)) next_pid next_ref w s w1 s' w' :
  sched_run fuel calls (scheduler_new next_pid next_ref) w = Some (s, w1) ->
  tick fuel s w1 = Some (false, s', w') ->
  forall pid p, lookup_proc pid s' = Some p -> p_status p = Waiting.
Proof.
  intros Hr Ht pid p Hp. apply wake_inv_run in Hr; [|intros ? ? [=]].
  destruct (wake_inv_tick _ _ _ _ _ _ Hr Ht) as [_ Hw]. by destruct (Hw eq_refl pid p Hp).
Qed.
End wake.
