(* ===== verification/SchedSample.v ===== *)
(** A small instance of the scheduler, on which the theorems are run: five behaviors,
    a bridge that accepts or refuses everything, no hooks and no exit handlers. *)
From S2P Require Import Prelude Types Process DeadLetter Scheduler SchedFacts SchedWake.

Module Sample.

Inductive Beh : Type :=
| Sink
| Forward (to : Z)
| Quit (r : Reason)
| Crash
| Ask
| Parent (link monitor : bool).

Definition react (b : Beh) (m : Message string) (n : nat) : outcome (Action string Beh * nat) :=
  match b, m with
  | Forward to, Text s => Returned (Send to (Text s), Datatypes.S n)
  | Quit r, Text _ => Returned (Stop r, n)
  | Crash, Text s => Panicked s
  | Ask, Text s => Returned (IoRequest (Custom "io" s), n)
  | Parent link monitor, Text s => Returned (Spawn Sink s link monitor, n)
  | _, _ => Returned (Continue, Datatypes.S n)
  end.

#[export] Instance sample_behavior : AgentBehavior string Beh nat unit := {|
  b_init := fun _ _ w => (Ok 0%nat, w);
  b_handle_message := fun b m n w => (react b m n, w);
  b_handle_exit := fun _ _ _ n w => (Returned (Continue, n), w);
  b_terminate := fun _ _ _ w => w
|}.

(** [true]: the worker pool accepts requests. *)
#[export] Instance sample_bridge : BridgeOps string bool := {|
  bridge_submit := fun _ _ (b : bool) => (if b then Ok 0 else Err "request queue full", b);
  bridge_cancel := fun _ b => (false, b);
  bridge_drain_responses := fun b => ([], b);
  bridge_shutdown := fun _ b => (Ok tt, b)
|}.

#[export] Instance sample_hook : MessageHook string Empty_set unit := fun h _ _ _ => match h with end.
#[export] Instance sample_handler : ExitHandler string Beh nat bool Empty_set Empty_set unit :=
  fun h _ _ _ _ => match h with end.
#[export] Instance sample_clock : Clock := fun n => Z.of_nat n.
#[export] Existing Instance map_to_list_order.

#[export] Instance sample_wake : WakeHandlers (V := string) (St := nat) (Br := bool) (Hk := Empty_set).
Proof. intros []. Qed.

Definition fresh : AgentScheduler string Beh nat bool Empty_set Empty_set :=
  scheduler_new NEXT_AGENT_PID NEXT_MONITOR_REF.

(** The pids the counter hands out. *)
Definition P0 : Z := NEXT_AGENT_PID.
Definition P1 : Z := NEXT_AGENT_PID + 1.
Definition P2 : Z := NEXT_AGENT_PID + 2.
Definition P3 : Z := NEXT_AGENT_PID + 3.
Definition P4 : Z := NEXT_AGENT_PID + 4.

Definition Call : Type := SchedCall string Beh bool Empty_set Empty_set.
Definition run (calls : list Call) := sched_run 10 calls fresh tt.
End Sample.

Module SchedWakeWitness.
Import Sample.

Definition chatter : list Call :=
  [CSpawn (Forward P1) "" NormalPriority; CSpawn Sink "" LowPriority; CTick; CTick;
   CSend P0 (Text "hi"); CTick].

Lemma no_lost_wakeup_witness :
  exists s w p, run chatter = Some (s, w) /\ lookup_proc P1 s = Some p /\
    ((p_status p = Runnable /\ P1 ∈ queued s) \/
     (p_status p = Waiting /\ (length (p_mailbox p) < p_mailbox_capacity p)%nat)).
Proof.
  eexists _, _, _. split; [vm_compute; reflexivity|]. split; [vm_compute; reflexivity|].
  apply (no_lost_wakeup 10 chatter NEXT_AGENT_PID NEXT_MONITOR_REF tt _ tt); vm_compute; reflexivity.
Defined.

Lemma idle_is_quiescent_witness :
  exists s w s' w' p, run (chatter ++ [CTick]) = Some (s, w) /\ tick 10 s w = Some (false, s', w') /\
    lookup_proc P1 s' = Some p /\ p_status p = Waiting.
Proof.
  eexists _, _, _, _, _. split; [vm_compute; reflexivity|]. split; [vm_compute; reflexivity|].
  split; [vm_compute; reflexivity|].
  apply (idle_is_quiescent 10 (chatter ++ [CTick]) NEXT_AGENT_PID NEXT_MONITOR_REF tt
    (default fresh (fst <$> run (chatter ++ [CTick]))) tt
    (default fresh ((fun x => x.1.2) <$> tick 10 (default fresh (fst <$> run (chatter ++ [CTick]))) tt)) tt)
    with (pid := P1); vm_compute; reflexivity.
Defined.
End SchedWakeWitness.
