(* ===== verification/SchedTerm.v ===== *)
(** Termination of processes: the cascade along links returns, and removes exactly
    the processes it should. *)
From S2P Require Import Prelude Types Process DeadLetter Scheduler SchedFacts SchedWake SchedSample.

Section term.
Context {V B St Br Hk H W : Type} `{AB : AgentBehavior V B St W} `{BO : BridgeOps V Br}.
Context `{MH : MessageHook V Hk W} `{EH : ExitHandler V B St Br Hk H W} `{CK : Clock} `{HO : HashOrder}.
Abbreviation Sched := (AgentScheduler V B St Br Hk H).
Abbreviation Proc := (AgentProcess V B St).
Implicit Types (s : Sched) (w : W) (p : Proc).

(** The links and the [trap_exit] flag of a registered process: what decides how far a
    termination cascades. *)
Definition attrs (x : AgentPid) s : option (list AgentPid * bool) :=
  (fun p => (p_links p, p_trap_exit p)) <$> lookup_proc x s.

Lemma attrs_alter f pid s x :
  (forall p, p_links (f p) = p_links p /\ p_trap_exit (f p) = p_trap_exit p) ->
  attrs x (alter_proc f pid s) = attrs x s.
Proof.
  intros Hf. unfold attrs. rewrite lookup_alter_proc. case_decide; [|done].
  destruct (lookup_proc x s) as [p|]; [|done]. cbn. by destruct (Hf p) as [-> ->].
Qed.

Lemma attrs_calm s s' x : calm s s' -> attrs x s' = attrs x s.
Proof.
  intros [Hc _]. specialize (Hc x). unfold attrs.
  destruct (lookup_proc x s), (lookup_proc x s'); cbn in *; try done. unfold static in Hc. congruence.
Qed.

Lemma attrs_remove_monitors pid ms s x : attrs x (remove_monitors pid ms s) = attrs x s.
Proof.
  unfold remove_monitors. revert s. induction ms as [|[r t] ms IH]; intros s; [done|].
  cbn [foldl]. rewrite IH. by apply attrs_alter.
Qed.

Lemma attrs_notify_watchers pid reason ms s x : attrs x (notify_watchers pid reason ms s).1 = attrs x s.
Proof.
  unfold notify_watchers. cbn. revert s. induction ms as [|[r t] ms IH]; intros s; [done|].
  cbn [foldl]. rewrite IH. by apply attrs_alter.
Qed.

(** Whom a termination for [reason] cascades to, among the linked pids. *)
Definition dies_with (reason : Reason) s (l : AgentPid) : bool :=
  match attrs l s with
  | Some (_, trap) => negb trap && negb (is_normal reason)
  | None => false
  end.

Lemma notify_links_spec pid reason links s :
  let '(s', cascade, _) := notify_links pid reason links s in
  (forall x, attrs x s' = attrs x s) /\ cascade = List.filter (dies_with reason s) links.
Proof.
  unfold notify_links.
  assert (Hg : forall acc : Sched * list AgentPid * list AgentPid,
    (forall x, attrs x acc.1.1 = attrs x s) ->
    (forall x, attrs x (foldl (fun acc l => notify_link pid reason l acc) acc links).1.1 = attrs x s) /\
    (foldl (fun acc l => notify_link pid reason l acc) acc links).1.2
      = acc.1.2 ++ List.filter (dies_with reason s) links).
  { induction links as [|l links IH]; intros acc Hacc; [cbn; by rewrite app_nil_r|]. cbn [foldl].
    destruct acc as [[s1 cascade] wake]. cbn in Hacc.
    assert (Hn : (forall x, attrs x (notify_link pid reason l (s1, cascade, wake)).1.1 = attrs x s) /\
      (notify_link pid reason l (s1, cascade, wake)).1.2
        = cascade ++ (if dies_with reason s l then [l] else [])).
    { unfold notify_link, dies_with. rewrite <- Hacc. unfold attrs at 2 3.
      destruct (lookup_proc l s1) as [lp|] eqn:Hl; cbn; [|by rewrite app_nil_r].
      destruct (p_trap_exit lp); cbn; [|by destruct (is_normal reason); cbn; rewrite ?app_nil_r].
      rewrite app_nil_r. split; [|done]. intros x. rewrite (attrs_calm s1); [done|].
      apply calm_alter, static_deliver_ok. }
    destruct Hn as [Hn1 Hn2]. destruct (IH _ Hn1) as [Ha Hb]. split; [done|]. rewrite Hb, Hn2.
    cbn [List.filter]. rewrite <- app_assoc. by destruct (dies_with reason s l). }
  destruct (Hg (s, [], [])) as [Ha Hb]; [done|]. destruct (foldl _ _ _) as [[s1 cascade] wake]. done.
Qed.

Lemma terminate_core_attrs pid reason s w :
  (forall x, attrs x (terminate_core pid reason s w).1.1 = if decide (x = pid) then None else attrs x s) /\
  (terminate_core pid reason s w).1.2
  = List.filter (fun l => bool_decide (l <> pid) && dies_with reason s l) (links_of pid s).
Proof.
  assert (Hrm : forall x, attrs x (remove_monitors pid (monitors_of pid s) (removed pid reason s w))
    = if decide (x = pid) then None else attrs x s).
  { intros x. rewrite attrs_remove_monitors. unfold attrs. rewrite lookup_removed. by case_decide. }
  rewrite terminate_core_eq. cbn zeta.
  pose proof (notify_links_spec pid reason (links_of pid s)
    (remove_monitors pid (monitors_of pid s) (removed pid reason s w))) as Hn.
  match goal with |- context [notify_links ?a ?b ?c ?d] =>
    destruct (notify_links a b c d) as [[s2 cascade] wake] end. destruct Hn as [Hn ->].
  pose proof (attrs_notify_watchers pid reason (monitored_by_of pid s) s2) as Hw.
  match goal with |- context [notify_watchers ?a ?b ?c ?d] =>
    destruct (notify_watchers a b c d) as [s3 downs] end. cbn in Hw |- *. split.
  - intros x. rewrite (attrs_calm s3); [by rewrite Hw, Hn|]. etrans; [|apply calm_send_all].
    apply calm_foldl. intros. apply calm_enqueue.
  - apply List.filter_ext. intros l. unfold dies_with. rewrite Hrm.
    case_decide; [by rewrite bool_decide_eq_false_2 by naive_solver|by rewrite bool_decide_eq_true_2].
Qed.

(** ** The auxiliary fields *)

Lemma calm_notify_links pid reason links s : calm s (notify_links pid reason links s).1.1.
Proof.
  unfold notify_links.
  assert (Hg : forall acc : Sched * list AgentPid * list AgentPid,
    calm acc.1.1 (foldl (fun acc l => notify_link pid reason l acc) acc links).1.1); [|apply Hg].
  induction links as [|l links IH]; intros acc; [done|]. cbn [foldl]. etrans; [|apply IH].
  destruct acc as [[s2 c] k]. unfold notify_link. destruct (lookup_proc l s2) as [lp|]; [|done].
  destruct (p_trap_exit lp); [|by destruct (negb _)]. cbn. apply calm_alter, static_deliver_ok.
Qed.

Lemma terminate_core_frame pid reason s w :
  let s' := (terminate_core pid reason s w).1.1 in
  s_exit_handlers s' = s_exit_handlers s /\ s_next_ref s' = s_next_ref s /\ s_next_pid s' = s_next_pid s.
Proof.
  cbn zeta. rewrite terminate_core_eq. cbn zeta.
  set (s2 := remove_monitors pid (monitors_of pid s) (removed pid reason s w)).
  assert (H2 : s_exit_handlers s2 = s_exit_handlers s /\ s_next_ref s2 = s_next_ref s /\ s_next_pid s2 = s_next_pid s).
  { unfold s2, remove_monitors. destruct (removed_frame pid reason s w) as (_ & <- & <- & <-).
    split_and!; apply foldl_frame; by intros ? []. }
  pose proof (calm_notify_links pid reason (links_of pid s) s2) as Hn.
  destruct (notify_links pid reason (links_of pid s) s2) as [[s3 cascade] wake]. cbn in Hn |- *.
  destruct Hn as (_ & E1 & E2 & E3), H2 as (F1 & F2 & F3).
  match goal with |- context [send_all ?a (foldl ?f ?b wake) ?c] =>
    set (s4 := b); set (s5 := (send_all a (foldl f s4 wake) c).1) end.
  assert (H4 : s_exit_handlers s4 = s_exit_handlers s3 /\ s_next_ref s4 = s_next_ref s3 /\ s_next_pid s4 = s_next_pid s3).
  { unfold s4. split_and!; apply foldl_frame; by intros ? []. }
  assert (H5 : calm s4 s5) by (etrans; [|apply calm_send_all]; apply calm_foldl; intros; apply calm_enqueue).
  destruct H5 as (_ & G1 & G2 & G3). rewrite G1, G2, G3. destruct H4 as (-> & -> & ->). split_and!; congruence.
Qed.

Lemma terminate_core_handlers pid reason s w :
  s_exit_handlers (terminate_core pid reason s w).1.1 = s_exit_handlers s.
Proof. by destruct (terminate_core_frame pid reason s w). Qed.

(** ** The cascade returns *)

(** The processes that have links. *)
Definition linked s : gset AgentPid :=
  dom (filter (fun kv => p_links kv.2 <> []) (r_processes (s_registry s))).

Lemma elem_of_linked x s : x ∈ linked s <-> exists ls trap, attrs x s = Some (ls, trap) /\ ls <> [].
Proof.
  unfold linked, attrs, lookup_proc, registry_lookup. rewrite elem_of_dom. split.
  - intros [p Hp]. apply map_lookup_filter_Some in Hp as [Hp Hl]. rewrite Hp. cbn. eauto.
  - intros (ls & trap & Ha & Hl). destruct (r_processes (s_registry s) !! x) as [p|] eqn:Hp; [|done].
    simplify_eq/=. exists p. apply map_lookup_filter_Some. done.
Qed.

Lemma linked_core pid reason s w :
  linked (terminate_core pid reason s w).1.1 ≡ linked s ∖ {[pid]}.
Proof.
  intros x. rewrite elem_of_difference, !elem_of_linked, elem_of_singleton.
  destruct (terminate_core_attrs pid reason s w) as [-> _]. case_decide; naive_solver.
Qed.

Lemma linked_post pid s : linked (submit_destroy pid (record record_process_termination s)) = linked s.
Proof.
  unfold linked. by destruct (submit_destroy_frame pid (record record_process_termination s)) as [-> _].
Qed.

(** Fuel beyond the number of linked processes is enough, if the exit handlers return
    and link no process. *)
Lemma terminate_total (ok : Sched -> Prop) fuel pid reason s w :
  (forall pid s w, ok s -> exists s' w', run_exit_handlers pid reason s w = Some (s', w') /\
     linked s' ⊆ linked s /\ ok s') ->
  (forall s s', ok s -> s_exit_handlers s' = s_exit_handlers s -> ok s') ->
  ok s -> (size (linked s) < fuel)%nat ->
  exists s' w', terminate_process fuel pid reason s w = Some (s', w') /\ linked s' ⊆ linked s /\ ok s'.
Proof.
  intros Hh Hok. revert pid s w. induction fuel as [|fuel IH]; intros pid s w Hs Hf; [lia|].
  cbn [terminate_process]. pose proof (linked_core pid reason s w) as Hc.
  pose proof (terminate_core_handlers pid reason s w) as He.
  destruct (terminate_core_attrs pid reason s w) as [_ Hcas].
  destruct (terminate_core pid reason s w) as [[s1 cascade] w1]. cbn in Hc, He, Hcas.
  assert (Hcasc : cascade = [] \/ (size (linked s1) < fuel)%nat).
  { destruct (decide (pid ∈ linked s)) as [Hin|Hnin].
    - right. rewrite Hc. rewrite size_difference by set_solver. rewrite size_singleton.
      assert (size (linked s) <> 0)%nat; [|lia]. intros Hz%size_empty_inv. set_solver.
    - left. unfold links_of in Hcas. rewrite elem_of_linked in Hnin. unfold attrs in Hnin.
      destruct (lookup_proc pid s) as [p|]; [|done]. cbn in Hnin.
      destruct (p_links p) as [|l ls] eqn:Hl; [done|]. naive_solver. }
  assert (Hfold : exists s2 w2,
    fold_opt (fun '(s, w) c => terminate_process fuel c reason s w) (s1, w1) cascade = Some (s2, w2) /\
    linked s2 ⊆ linked s1 /\ ok s2).
  { assert (Hok1 : ok s1) by (by eapply Hok). clear Hcas Hc He. revert s1 w1 Hcasc Hok1.
    induction cascade as [|c cascade IHc]; intros s1 w1 Hcasc Hok1; [by exists s1, w1|].
    destruct Hcasc as [?|Hlt]; [done|]. destruct (IH c s1 w1 Hok1 Hlt) as (s2 & w2 & H2 & Hl2 & Hok2).
    destruct (IHc s2 w2) as (s3 & w3 & H3 & Hl3 & Hok3); [right|done|].
    - apply subseteq_size in Hl2. lia.
    - exists s3, w3. cbn [fold_opt]. rewrite H2. cbn. split; [exact H3|]. split; [|done]. set_solver. }
  destruct Hfold as (s2 & w2 & -> & Hl2 & Hok2). cbn.
  destruct (Hh pid s2 w2 Hok2) as (s3 & w3 & -> & Hl3 & Hok3). cbn.
  eexists _, _. split; [done|]. rewrite linked_post. split; [set_solver|].
  eapply Hok; [exact Hok3|]. by destruct (submit_destroy_frame pid (record record_process_termination s3))
    as (_ & _ & -> & _).
Qed.

(** Without exit handlers there is nothing to require. *)
Lemma terminate_total_nil fuel pid reason s w :
  s_exit_handlers s = [] -> (size (linked s) < fuel)%nat ->
  exists s' w', terminate_process fuel pid reason s w = Some (s', w') /\
    linked s' ⊆ linked s /\ s_exit_handlers s' = [].
Proof.
  apply (terminate_total (fun s => s_exit_handlers s = [])).
  - intros x s1 w1 Hs. unfold run_exit_handlers. rewrite Hs. by exists s1, w1.
  - congruence.
Qed.

(** ** The cascade is exact *)

(** Who dies when [pid] terminates for [reason]: the process itself and, unless the
    exit is normal, whoever is linked from a dead process and does not trap exits. *)
Inductive dies (reason : Reason) s (pid : AgentPid) : AgentPid -> Prop :=
| dies_itself : dies reason s pid pid
| dies_linked x y ls trap :
    dies reason s pid x -> attrs x s = Some (ls, trap) -> y ∈ ls -> dies_with reason s y = true ->
    dies reason s pid y.

(** What a termination achieves. *)
Record cascaded (reason : Reason) (pid : AgentPid) s s' : Prop := {
  ca_frame : forall x, attrs x s' = attrs x s \/ attrs x s' = None;
  ca_gone : attrs pid s' = None;
  ca_sound : forall x, attrs x s' = None -> attrs x s = None \/ dies reason s pid x;
  ca_closed : forall x y ls trap, attrs x s = Some (ls, trap) -> attrs x s' = None ->
    y ∈ ls -> dies_with reason s y = true -> attrs y s' = None
}.

Lemma dies_with_mono reason s s' y :
  (forall x, attrs x s' = attrs x s \/ attrs x s' = None) ->
  dies_with reason s' y = true -> dies_with reason s y = true.
Proof. intros Hf. unfold dies_with. by destruct (Hf y) as [-> | ->]. Qed.

Lemma dies_mono reason s s' pid x :
  (forall x, attrs x s' = attrs x s \/ attrs x s' = None) ->
  dies reason s' pid x -> dies reason s pid x.
Proof.
  intros Hf Hd. induction Hd as [|x y ls trap Hd IH Ha Hy Hw]; [constructor|].
  eapply (dies_linked _ _ _ x y ls trap); [exact IH| |exact Hy|by eapply dies_with_mono].
  destruct (Hf x) as [E|E]; congruence.
Qed.

Lemma dies_trans reason s a b c : dies reason s a b -> dies reason s b c -> dies reason s a c.
Proof. intros Hab Hbc. induction Hbc; [done|]. by eapply dies_linked. Qed.

(** Terminating a list of processes in turn. *)
Lemma cascaded_fold reason (f : Sched * W -> AgentPid -> option (Sched * W)) cs s w s' w' :
  (forall c s w s' w', f (s, w) c = Some (s', w') -> s_exit_handlers s = [] ->
     cascaded reason c s s' /\ s_exit_handlers s' = []) ->
  s_exit_handlers s = [] ->
  fold_opt f (s, w) cs = Some (s', w') ->
  s_exit_handlers s' = [] /\
  (forall x, attrs x s' = attrs x s \/ attrs x s' = None) /\
  (forall c, c ∈ cs -> attrs c s' = None) /\
  (forall x, attrs x s' = None -> attrs x s = None \/ exists c, c ∈ cs /\ dies reason s c x) /\
  (forall x y ls trap, attrs x s = Some (ls, trap) -> attrs x s' = None ->
    y ∈ ls -> dies_with reason s y = true -> attrs y s' = None).
Proof.
  intros Hf. revert s w. induction cs as [|c cs IH]; intros s w He Hfold.
  { simplify_eq/=. split_and!; auto; [by intros ? ?%not_elem_of_nil|]. intros x y ls trap Hx Hn. congruence. }
  cbn in Hfold. destruct (f (s, w) c) as [[s1 w1]|] eqn:H1; [|done]. cbn in Hfold.
  destruct (Hf _ _ _ _ _ H1 He) as [[F1 G1 S1 C1] He1].
  destruct (IH s1 w1 He1 Hfold) as (He2 & F2 & G2 & S2 & C2). split_and!.
  - done.
  - intros x. destruct (F1 x), (F2 x); intuition congruence.
  - intros x [->|Hx]%elem_of_cons; [|by apply G2]. destruct (F2 c); congruence.
  - intros x Hx. destruct (S2 x Hx) as [Hx1|(c' & Hc' & Hd)].
    + destruct (S1 x Hx1) as [?|Hd]; [by left|]. right. exists c. split; [by left|done].
    + right. exists c'. split; [by right|]. by eapply dies_mono.
  - intros x y ls trap Hx Hn Hy Hw. destruct (F1 x) as [E|E].
    + destruct (F1 y) as [Ey|Ey]; [|destruct (F2 y); congruence].
      eapply C2; [by rewrite E|done|done|]. unfold dies_with in *. by rewrite Ey.
    + pose proof (C1 x y ls trap Hx E Hy Hw) as Hy1. destruct (F2 y); congruence.
Qed.

Lemma terminate_cascaded fuel pid reason s w s' w' :
  s_exit_handlers s = [] -> terminate_process fuel pid reason s w = Some (s', w') ->
  cascaded reason pid s s' /\ s_exit_handlers s' = [].
Proof.
  revert pid s w s' w'. induction fuel as [|fuel IH]; [done|]. intros pid s w s' w' He Ht.
  cbn [terminate_process] in Ht. pose proof (terminate_core_handlers pid reason s w) as He1.
  destruct (terminate_core_attrs pid reason s w) as [Ha Hcas].
  destruct (terminate_core pid reason s w) as [[s1 cascade] w1]. cbn in Ha, He1, Hcas.
  match type of Ht with (mbind _ ?e) = _ => destruct e as [[s2 w2]|] eqn:Hf; [|done] end. cbn in Ht.
  rewrite He in He1.
  assert (Hsteps : forall c s0 w0 s0' w0', terminate_process fuel c reason s0 w0 = Some (s0', w0') ->
    s_exit_handlers s0 = [] -> cascaded reason c s0 s0' /\ s_exit_handlers s0' = []) by eauto.
  destruct (cascaded_fold reason (fun '(s, w) c => terminate_process fuel c reason s w) cascade s1 w1 s2 w2
    Hsteps He1 Hf) as (He2 & F & G & S & C).
  unfold run_exit_handlers in Ht. rewrite He2 in Ht. simplify_eq/=.
  set (s3 := submit_destroy pid (record record_process_termination s2)).
  destruct (submit_destroy_frame pid (record record_process_termination s2)) as (E1 & _ & E3 & _).
  assert (H3 : forall x, attrs x s3 = attrs x s2) by (intros; unfold attrs, lookup_proc, s3; by rewrite E1).
  assert (Ff : forall x, attrs x s1 = attrs x s \/ attrs x s1 = None).
  { intros x. rewrite Ha. case_decide; auto. }
  split; [|unfold s3; by rewrite E3]. split; setoid_rewrite H3.
  - intros x. destruct (Ff x), (F x); intuition congruence.
  - destruct (F pid) as [->|]; [|done]. by rewrite Ha, decide_True.
  - intros x Hx. destruct (S x Hx) as [Hx1|(c & Hc & Hd)].
    + rewrite Ha in Hx1. case_decide as Hp; [|by left]. subst. right. constructor.
    + right. apply dies_mono with (s := s) in Hd; [|exact Ff]. eapply dies_trans; [|exact Hd].
      apply list_elem_of_In, filter_In in Hc as [Hc Hb].
      apply andb_true_iff in Hb as [_ Hb]. unfold links_of in Hc.
      destruct (lookup_proc pid s) as [p|] eqn:Hp; [|done].
      eapply (dies_linked _ _ _ pid c (p_links p) (p_trap_exit p)); [constructor| |by apply list_elem_of_In|done].
      unfold attrs. by rewrite Hp.
  - intros x y ls trap Hx Hn Hy Hw. destruct (decide (y = pid)) as [->|Hyp].
    { destruct (F pid) as [->|]; [|done]. by rewrite Ha, decide_True. }
    destruct (decide (x = pid)) as [->|Hxp].
    + apply G. apply list_elem_of_In, filter_In.
      unfold attrs in Hx. unfold links_of. destruct (lookup_proc pid s) as [p|]; [|done]. simplify_eq/=.
      split; [by apply list_elem_of_In|]. by rewrite bool_decide_eq_true_2.
    + eapply (C x y ls trap); [by rewrite Ha, decide_False|done|done|].
      unfold dies_with in *. by rewrite Ha, decide_False.
Qed.

(** A termination draws no pid and no reference. *)
Lemma terminate_counters fuel pid reason s w s' w' :
  s_exit_handlers s = [] -> terminate_process fuel pid reason s w = Some (s', w') ->
  s_next_pid s' = s_next_pid s /\ s_next_ref s' = s_next_ref s.
Proof.
  revert pid s w s' w'. induction fuel as [|fuel IH]; [done|]. intros pid s w s' w' He Ht.
  cbn [terminate_process] in Ht. destruct (terminate_core_frame pid reason s w) as (E1 & E2 & E3).
  destruct (terminate_core pid reason s w) as [[s1 cascade] w1]. cbn in E1, E2, E3. rewrite He in E1.
  match type of Ht with (mbind _ ?e) = _ => destruct e as [[s2 w2]|] eqn:Hf; [|done] end. cbn in Ht.
  assert (H2 : (s_next_pid s2 = s_next_pid s1 /\ s_next_ref s2 = s_next_ref s1) /\ s_exit_handlers s2 = []).
  { clear Ht E2 E3. revert s1 w1 E1 Hf. induction cascade as [|c cascade IHc]; intros s1 w1 E1 Hf; [by simplify_eq/=|].
    cbn in Hf. destruct (terminate_process fuel c reason s1 w1) as [[s3 w3]|] eqn:H3; [|done]. cbn in Hf.
    pose proof (terminate_cascaded _ _ _ _ _ _ _ E1 H3) as [_ He3]. apply IH in H3 as [? ?]; [|done].
    destruct (IHc s3 w3 He3 Hf) as [[-> ->] ?]. done. }
  destruct H2 as [[H2 H2r] He2]. unfold run_exit_handlers in Ht. rewrite He2 in Ht. simplify_eq/=.
  destruct (submit_destroy_frame pid (record record_process_termination s2)) as (_ & _ & _ & -> & ->).
  cbn. split; congruence.
Qed.


(** ** Shutdown *)

Lemma cascaded_absent reason pid s : lookup_proc pid s = None -> cascaded reason pid s s.
Proof.
  intros Hp. split; auto; [|intros; congruence]. unfold attrs. by rewrite Hp.
Qed.

Lemma shutdown_total fuel pids s w :
  s_exit_handlers s = [] -> (size (linked s) < fuel)%nat ->
  exists s' w', fold_opt (fun '(s, w) pid =>
      match lookup_proc pid s with
      | Some _ => terminate_process fuel pid Shutdown s w
      | None => Some (s, w)
      end) (s, w) pids = Some (s', w').
Proof.
  revert s w. induction pids as [|pid pids IH]; intros s w He Hf; [by exists s, w|]. cbn [fold_opt].
  destruct (lookup_proc pid s); [|by apply IH].
  destruct (terminate_total_nil fuel pid Shutdown s w He Hf) as (s1 & w1 & -> & Hl & He1). cbn.
  apply IH; [done|]. apply subseteq_size in Hl. lia.
Qed.

Lemma linked_calm s s' : calm s s' -> linked s' ≡ linked s.
Proof. intros Hc x. rewrite !elem_of_linked. by setoid_rewrite (attrs_calm s s' _ Hc). Qed.

(** A graceful shutdown (without exit handlers) returns and leaves nothing behind:
    no process, no queue entry, no bridge. *)
Theorem graceful_shutdown_empties fuel timeout s w :
  s_exit_handlers s = [] -> (size (linked s) < fuel)%nat ->
  exists s' w', graceful_shutdown fuel timeout s w = Some (s', w') /\
    (forall x, lookup_proc x s' = None) /\ queued s' = [] /\ s_bridge s' = None.
Proof.
  intros He Hf. unfold graceful_shutdown.
  match goal with |- context [let '(_, _) := ?e in _] => destruct e as [s1 w1] eqn:Hd end.
  assert (Hs1 : calm s s1).
  { destruct (s_bridge s) as [br|]; [|by simplify_eq].
    destruct (bridge_shutdown timeout br) as [? br1]. destruct (bridge_drain_responses br1) as [rs br2].
    etrans; [by apply (calm_registry s (upd_bridge (Some br2) s))|].
    pose proof (calm_send_all rs (upd_bridge (Some br2) s) w) as Hc. by rewrite Hd in Hc. }
  pose proof Hs1 as (_ & He1 & _).
  destruct (shutdown_total fuel (registry_pids (s_registry s1)) s1 w1) as (s2 & w2 & Hfold);
    [congruence|by rewrite (linked_calm s s1 Hs1)|]. rewrite Hfold. cbn.
  eexists _, _. split; [done|]. split; [|done]. intros x.
  apply (cascaded_fold Shutdown) in Hfold as (_ & F & G & _); [| |congruence].
  - change (lookup_proc x s2 = None). destruct (lookup_proc x s2) as [p|] eqn:Hp; [|done].
    assert (Hx : attrs x s2 = Some (p_links p, p_trap_exit p)) by (unfold attrs; by rewrite Hp).
    rewrite G in Hx; [done|]. unfold registry_pids. apply elem_of_hash_keys.
    destruct (F x) as [E|E]; rewrite Hx in E; [|done]. unfold attrs, lookup_proc, registry_lookup in E.
    destruct (r_processes (s_registry s1) !! x); [eauto|done].
  - intros c s3 w3 s4 w4 H3 H3e. destruct (lookup_proc c s3) eqn:Hc; [by eapply terminate_cascaded|].
    simplify_eq. split; [by apply cascaded_absent|done].
Qed.

(** ** Ticks are bounded *)

Lemma dispatch_bounded fuel pid sends spawns s w p :
  lookup_proc pid s = Some p -> 0 <= p_reductions p < Z.of_nat fuel ->
  (0 < p_reductions p ->
     3 * Z.of_nat (length sends) + 11 * Z.of_nat (length spawns) + p_reductions p <= DEFAULT_REDUCTIONS) ->
  3 * Z.of_nat (length sends) + 11 * Z.of_nat (length spawns) <= DEFAULT_REDUCTIONS + 10 ->
  exists d s' w', dispatch fuel pid sends spawns s w = Some (d, s', w') /\
    3 * Z.of_nat (length (d_sends d)) + 11 * Z.of_nat (length (d_spawns d)) <= DEFAULT_REDUCTIONS + 10.
Proof.
  revert sends spawns s w p. induction fuel as [|fuel IH]; intros sends spawns s w p Hp Hr Hb Hb'; [lia|].
  cbn [dispatch]. rewrite Hp. destruct (p_reductions p =? 0) eqn:Hz; [by eexists _, _, _|].
  zify_bool. unfold next_message. destruct (p_mailbox p) as [|m rest]; [by eexists _, _, _|]. cbn.
  destruct (p_state p) as [st|]; [|by eexists _, _, _].
  destruct (call_behavior (p_behavior p) m st w) as [[action st'] w1].
  set (p1 := with_state st' (spend 1 (with_mailbox rest p))) in *.
  set (s1 := alter_proc (fun _ => p1) pid _).
  assert (Hp1 : lookup_proc pid s1 = Some p1).
  { unfold s1. rewrite lookup_alter_same. change (lookup_proc pid (record _ ?x)) with (lookup_proc pid x).
    by rewrite lookup_alter_same, Hp. }
  assert (Hr1 : p_reductions p1 = p_reductions p - 1) by (cbn; unfold sat_sub; lia).
  assert (Hnext : forall n sends' spawns',
    0 <= n -> 3 * Z.of_nat (length sends') + 11 * Z.of_nat (length spawns')
      = 3 * Z.of_nat (length sends) + 11 * Z.of_nat (length spawns) + (n + 1) -> n <= 10 ->
    exists d s' w', dispatch fuel pid sends' spawns' (alter_proc (spend n) pid s1) w1 = Some (d, s', w') /\
      3 * Z.of_nat (length (d_sends d)) + 11 * Z.of_nat (length (d_spawns d)) <= DEFAULT_REDUCTIONS + 10).
  { intros n sends' spawns' Hn Hlen Hn10.
    assert (Hspend : p_reductions (spend n p1) = Z.max 0 (p_reductions p - 1 - n))
      by (cbn; unfold sat_sub; lia).
    apply (IH sends' spawns' (alter_proc (spend n) pid s1) w1 (spend n p1));
      [by rewrite lookup_alter_same, Hp1|lia..]. }
  destruct action as [|to msg|op|b a l mn|reason].
  - apply (IH sends spawns s1 w1 p1 Hp1); lia.
  - apply Hnext; [lia|rewrite length_app; cbn; lia|lia].
  - by eexists _, _, _.
  - apply Hnext; [lia|rewrite length_app; cbn; lia|lia].
  - by eexists _, _, _.
Qed.

(** The dispatch of a process that starts with its full quantum. *)
Lemma dispatch_quantum pid s w p :
  lookup_proc pid s = Some p ->
  exists d s' w', dispatch dispatch_fuel pid [] [] (alter_proc (with_reductions DEFAULT_REDUCTIONS) pid s) w
    = Some (d, s', w') /\ (length (d_spawns d) <= 19)%nat.
Proof.
  intros Hp.
  destruct (dispatch_bounded dispatch_fuel pid [] [] (alter_proc (with_reductions DEFAULT_REDUCTIONS) pid s) w
    (with_reductions DEFAULT_REDUCTIONS p)) as (d & s' & w' & Hd & Hb).
  - by rewrite lookup_alter_same, Hp.
  - unfold DEFAULT_REDUCTIONS. cbn. by vm_compute.
  - intros _. vm_compute. discriminate.
  - vm_compute. discriminate.
  - exists d, s', w'. split; [done|]. unfold DEFAULT_REDUCTIONS in Hb. lia.
Qed.

Lemma spawn_linked b args s w :
  linked (spawn b args s w).1.2 ⊆ linked s /\
  s_exit_handlers (spawn b args s w).1.2 = s_exit_handlers s.
Proof.
  unfold spawn. pose proof (registry_spawn_cases b args (s_registry s) (s_next_pid s) w) as Hc.
  destruct (registry_spawn _ _ _ _ _) as [[[[pid|e] reg] next] w']; cbn; [|by destruct Hc as [-> _]].
  destruct Hc as (_ & _ & _ & st & Hreg). split; [|done]. intros x. rewrite !elem_of_linked.
  unfold attrs, lookup_proc, registry_lookup. cbn. rewrite Hreg, lookup_insert.
  case_decide; [|done]. cbn. naive_solver.
Qed.

Lemma link_pair_linked a b s : linked (link_pair a b s) ⊆ linked s ∪ {[a; b]}.
Proof.
  intros x. rewrite elem_of_union, elem_of_linked. intros (ls & trap & Ha & Hl).
  destruct (decide (x = a)) as [->|Hxa]; [set_solver|]. destruct (decide (x = b)) as [->|Hxb]; [set_solver|].
  left. apply elem_of_linked. exists ls, trap. split; [|done]. unfold attrs in *. unfold link_pair in Ha.
  by rewrite !lookup_alter_ne in Ha by done.
Qed.

Lemma monitor_linked watcher target s :
  linked (monitor watcher target s).2 ≡ linked s /\
  s_exit_handlers (monitor watcher target s).2 = s_exit_handlers s.
Proof.
  unfold monitor. destruct (lookup_proc watcher s); [|done]. destruct (lookup_proc target s); [|done].
  cbn. split; [|done]. intros x. rewrite !elem_of_linked. by rewrite !attrs_alter.
Qed.

Lemma spawn_pending_linked pid req s w :
  (size (linked (spawn_pending pid req s w).1) <= size (linked s) + 2)%nat /\
  s_exit_handlers (spawn_pending pid req s w).1 = s_exit_handlers s.
Proof.
  destruct req as [[[b args] link] mon]. unfold spawn_pending.
  destruct (spawn_linked b args s w) as [Hl%subseteq_size He].
  destruct (spawn b args s w) as [[[child|e] s1] w1]; cbn in Hl, He |- *; [|split; [lia|done]].
  set (s2 := if link then link_pair pid child s1 else s1).
  assert (H2 : (size (linked s2) <= size (linked s) + 2)%nat /\ s_exit_handlers s2 = s_exit_handlers s).
  { unfold s2. destruct link; [|split; [lia|done]]. split; [|done].
    etrans; [apply subseteq_size, link_pair_linked|]. etrans; [apply size_union_le|].
    assert (size ({[pid; child]} : gset AgentPid) <= 2)%nat; [|lia].
    etrans; [apply size_union_le|]. by rewrite !size_singleton. }
  clearbody s2. destruct (if mon then _ else _) as [mref s3] eqn:Hm.
  assert (H3 : linked s3 ≡ linked s2 /\ s_exit_handlers s3 = s_exit_handlers s2).
  { destruct mon; [|by simplify_eq]. pose proof (monitor_linked pid child s2) as Hma.
    by destruct (monitor pid child s2) as [[r|e] s4]; simplify_eq. }
  pose proof (calm_send pid (System (SpawnResult child mref)) s3 w1) as Hs.
  destruct (send _ _ _ _) as [[r s4] w4]. cbn in *. destruct H3 as [H3 H3e], H2 as [H2 H2e].
  assert (H5 : calm s3 (enqueue child s4)) by (etrans; [exact Hs|apply calm_enqueue]).
  destruct H5 as (H5 & E5 & F5). rewrite (linked_calm s3) by (by split). rewrite H3. split; [done|congruence].
Qed.

Lemma spawn_all_linked pid reqs s w :
  (size (linked (spawn_all pid reqs s w).1) <= size (linked s) + 2 * length reqs)%nat /\
  s_exit_handlers (spawn_all pid reqs s w).1 = s_exit_handlers s.
Proof.
  unfold spawn_all. revert s w. induction reqs as [|r reqs IH]; intros s w; [cbn; split; [lia|done]|].
  cbn [foldl length]. destruct (spawn_pending_linked pid r s w) as [H1 H2].
  destruct (spawn_pending pid r s w) as [s1 w1]. destruct (IH s1 w1) as [H3 H4]. cbn in *. split; [lia|congruence].
Qed.

(** Up to the deferred spawns a tick is calm. *)
Lemma calm_deferred pid (d : Dispatched (V := V) (B := B)) s w :
  let s5 := if d_wait d then alter_proc (with_status Waiting) pid s else s in
  let s6 := if d_out d then enqueue pid s5 else s5 in
  calm s (send_all (d_sends d) s6 w).1.
Proof.
  cbn zeta. etrans; [|apply calm_send_all].
  assert (H5 : calm s (if d_wait d then alter_proc (with_status Waiting) pid s else s)).
  { destruct (d_wait d); [by apply calm_alter|done]. }
  destruct (d_out d); [|done]. etrans; [exact H5|apply calm_enqueue].
Qed.

(** C22: a tick (without exit handlers) always returns: the dispatch loop runs out of
    reductions, so at most nineteen children are spawned, and the cascade it may start
    is bounded by the number of linked processes, the new children included. *)
Theorem tick_total fuel s w :
  s_exit_handlers s = [] -> (size (linked s) + 38 < fuel)%nat ->
  exists b s' w', tick fuel s w = Some (b, s', w').
Proof.
  intros He Hf. unfold tick. pose proof (calm_prepare s w) as H1. destruct (prepare s w) as [s1 w1]. cbn in H1.
  assert (Hfuel : (length (queued s1) < select_fuel s1)%nat) by (unfold select_fuel; lia).
  pose proof (select_runnable_spec (select_fuel s1) s1 Hfuel) as Hsp.
  pose proof (calm_select (select_fuel s1) s1) as H2.
  destruct (select_runnable_frame (select_fuel s1) s1) as (Hreg & _).
  destruct (select_runnable (select_fuel s1) s1) as [[pid|] s2]; [|eauto]. cbn in Hreg, H2.
  destruct Hsp as (_ & Hr & _). unfold is_runnable in Hr. destruct (lookup_proc pid s1) as [p|] eqn:Hp; [|done].
  assert (Hp2 : lookup_proc pid s2 = Some p) by (unfold lookup_proc in *; congruence).
  destruct (dispatch_quantum pid s2 w1 p Hp2) as (d & s4 & w4 & Hd & Hb). rewrite Hd. cbn.
  apply calm_dispatch in Hd. unfold finish.
  pose proof (calm_deferred pid d s4 w4) as H7. cbn zeta in H7. destruct (send_all _ _ _) as [s7 w7].
  assert (H7' : calm s s7).
  { etrans; [exact H1|]. etrans; [exact H2|]. etrans; [|exact H7]. etrans; [|exact Hd]. by apply calm_alter. }
  destruct (spawn_all_linked pid (d_spawns d) s7 w7) as [H8 H8e].
  destruct (spawn_all pid (d_spawns d) s7 w7) as [s8 w8]. cbn in H8, H8e.
  pose proof H7' as (_ & He7 & _). rewrite (linked_calm s s7 H7') in H8.
  destruct (d_stop d) as [reason|]; [|eauto].
  destruct (terminate_total_nil fuel pid reason s8 w8) as (s9 & w9 & -> & _); [congruence|lia|]. cbn. eauto.
Qed.
End term.

Module SchedTermWitness.
Import Sample.

(** Three processes linked in a ring, the third of which traps exits, and a fourth
    linked from the trapping one. *)
Definition ring : list Call :=
  [CSpawn Sink "" NormalPriority; CSpawn Sink "" NormalPriority; CSpawn Sink "" NormalPriority;
   CSpawn Sink "" NormalPriority;
   CLink P0 P1; CLink P1 P0; CLink P1 P2; CLink P2 P3; CTrapExit P2 true].

Definition ring_state := default fresh (fst <$> run ring).


(** The ring dies, the trapping process and the one behind it live. *)
Lemma ring_survivors :
  match terminate_process 10 P0 (CustomReason "x") ring_state tt with
  | Some (s', _) => registry_pids (s_registry s') ≡ₚ [P2; P3]
  | None => False
  end.
Proof. vm_compute. apply Permutation_swap || reflexivity. Qed.

Lemma graceful_shutdown_empties_witness :
  exists s' w', graceful_shutdown 10 0 ring_state tt = Some (s', w') /\
    (forall x, lookup_proc x s' = None) /\ queued s' = [] /\ s_bridge s' = None.
Proof. apply (graceful_shutdown_empties 10 0 ring_state tt); vm_compute; [reflexivity|lia]. Defined.

Lemma tick_total_witness : exists b s' w', tick 50 ring_state tt = Some (b, s', w').
Proof. apply (tick_total 50 ring_state tt); vm_compute; [reflexivity|lia]. Defined.

Definition busy : list Call :=
  [CSpawn Sink "" LowPriority; CSpawn Sink "" NormalPriority].

(** A waiting process is woken. *)
Definition waiting : AgentScheduler string Beh nat bool Empty_set Empty_set :=
  default fresh (fst <$> run [CSpawn Sink "" NormalPriority; CTick]).

Lemma send_spec_witness :
  let '(res, s', _) := send P0 (Text "hi") waiting tt in res = Ok tt /\ queued s' ≡ₚ [P0].
Proof.
  pose proof (send_spec P0 (Text "hi") waiting tt eq_refl) as Hs.
  assert (Hp : lookup_proc P0 waiting = Some (mkProcess P0 Sink (Some 0%nat) [] DEFAULT_MAILBOX_CAPACITY
    DEFAULT_REDUCTIONS Waiting NormalPriority [] [] [] None false None)) by (vm_compute; reflexivity).
  assert (Hq : queued waiting = []) by (vm_compute; reflexivity).
  destruct (send P0 (Text "hi") waiting tt) as [[res s'] w']. rewrite Hp in Hs. cbn -[queued waiting] in Hs. rewrite Hq in Hs.
  destruct Hs as (_ & _ & Hr & _ & _ & Hperm). split; [exact Hr | exact Hperm].
Defined.

(** Eight picks, the normal queue refilled before each one. *)
Lemma low_priority_served_witness :
  Some P0 ∈ picks (replicate 8 ([P1], [])) (default fresh (fst <$> run busy)).
Proof.
  apply (low_priority_served (replicate 8 ([P1], [])) (default fresh (fst <$> run busy)) P0 []);
    vm_compute; reflexivity.
Defined.
End SchedTermWitness.
