(* ===== verification/SchedMonitor.v ===== *)
(** Monitors: the records of the watcher and of the watched agree, and a death is
    announced to every watcher. *)
From S2P Require Import Prelude Types Process DeadLetter Scheduler SchedFacts SchedWake SchedSample SchedTerm.

Section monitors.
Context {V B St Br Hk H W : Type} `{AB : AgentBehavior V B St W} `{BO : BridgeOps V Br}.
Context `{MH : MessageHook V Hk W} `{EH : ExitHandler V B St Br Hk H W} `{CK : Clock} `{HO : HashOrder}.
Abbreviation Sched := (AgentScheduler V B St Br Hk H).
Abbreviation Proc := (AgentProcess V B St).
Implicit Types (s : Sched) (w : W) (p : Proc).

(** The two sides of every monitor agree; references are unique per watcher and below
    the counter, pids below theirs. *)
Record mon_inv s : Prop := {
  mi_sym : forall x t r, (r, t) ∈ monitors_of x s <-> (r, x) ∈ monitored_by_of t s;
  mi_nodup : forall x, NoDup (monitors_of x s).*1;
  mi_refs : forall x r t, (r, t) ∈ monitors_of x s -> r < s_next_ref s;
  mi_pids : forall x, is_Some (lookup_proc x s) -> x < s_next_pid s
}.

(** [k] more draws from either counter do not wrap it around. *)
Definition room (k : Z) s : Prop :=
  0 <= k /\ 0 <= s_next_pid s /\ s_next_pid s + k <= u64_max /\ 0 <= s_next_ref s /\ s_next_ref s + k <= u64_max.

Lemma room_mono k k' s : 0 <= k' <= k -> room k s -> room k' s.
Proof. unfold room. lia. Qed.

(** ** Calm steps *)

Lemma calm_monitors s s' x :
  calm s s' -> monitors_of x s' = monitors_of x s /\ monitored_by_of x s' = monitored_by_of x s.
Proof.
  intros [Hc _]. specialize (Hc x). unfold monitors_of, monitored_by_of.
  destruct (lookup_proc x s), (lookup_proc x s'); cbn in Hc; try done. unfold static in Hc. split; congruence.
Qed.

Lemma calm_registered s s' x : calm s s' -> is_Some (lookup_proc x s') <-> is_Some (lookup_proc x s).
Proof. intros [Hc _]. by rewrite <- !(fmap_is_Some static), Hc. Qed.

Lemma mon_inv_calm s s' : calm s s' -> mon_inv s -> mon_inv s'.
Proof.
  intros Hc [H1 H2 H3 H4]. pose proof Hc as (_ & _ & Er & Ep).
  split; intros *; rewrite ?(proj1 (calm_monitors s s' _ Hc)), ?(proj2 (calm_monitors s s' _ Hc)), ?Er, ?Ep; auto.
  - apply H3.
  - rewrite calm_registered by done. apply H4.
Qed.

Lemma room_calm k s s' : calm s s' -> room k s -> room k s'.
Proof. unfold room. intros (_ & _ & -> & ->). done. Qed.

(** ** Setting up and taking down *)

Lemma monitors_of_alter f pid s x :
  monitors_of x (alter_proc f pid s)
  = if decide (x = pid) then match lookup_proc x s with Some p => p_monitors (f p) | None => [] end
    else monitors_of x s.
Proof. unfold monitors_of. rewrite lookup_alter_proc. case_decide; [|done]. by destruct (lookup_proc x s). Qed.

Lemma monitored_by_of_alter f pid s x :
  monitored_by_of x (alter_proc f pid s)
  = if decide (x = pid) then match lookup_proc x s with Some p => p_monitored_by (f p) | None => [] end
    else monitored_by_of x s.
Proof. unfold monitored_by_of. rewrite lookup_alter_proc. case_decide; [|done]. by destruct (lookup_proc x s). Qed.

Lemma registered_alter f pid s x : is_Some (lookup_proc x (alter_proc f pid s)) <-> is_Some (lookup_proc x s).
Proof. rewrite lookup_alter_proc. case_decide; [by rewrite fmap_is_Some|done]. Qed.

Lemma monitor_records watcher target s :
  is_Some (lookup_proc watcher s) -> is_Some (lookup_proc target s) ->
  let s' := (monitor watcher target s).2 in
  (forall x, monitors_of x s' = monitors_of x s ++ if decide (x = watcher) then [(s_next_ref s, target)] else []) /\
  (forall x, monitored_by_of x s' = monitored_by_of x s ++ if decide (x = target) then [(s_next_ref s, watcher)] else []) /\
  (forall x, is_Some (lookup_proc x s') <-> is_Some (lookup_proc x s)) /\
  s_next_ref s' = wrap64 (s_next_ref s + 1) /\ s_next_pid s' = s_next_pid s.
Proof.
  intros [pw Hw] [pt Ht]. cbn zeta. unfold monitor. rewrite Hw, Ht. cbn.
  set (s1 := upd_next_ref (wrap64 (s_next_ref s + 1)) s).
  assert (E1 : forall x, lookup_proc x s1 = lookup_proc x s) by done.
  assert (E2 : forall x, monitors_of x s1 = monitors_of x s) by done.
  assert (E3 : forall x, monitored_by_of x s1 = monitored_by_of x s) by done.
  split_and!; [intros x|intros x|intros x; by rewrite !registered_alter|done|done].
  - rewrite monitors_of_alter. case_decide as Hx.
    + subst x. rewrite lookup_alter_proc. case_decide as Hxw; rewrite E1, Ht; cbn.
      * unfold monitors_of. by rewrite Ht.
      * unfold monitors_of. by rewrite Ht, app_nil_r.
    + rewrite monitors_of_alter. case_decide as Hxw; [|by rewrite app_nil_r, E2].
      subst x. rewrite E1, Hw. cbn. unfold monitors_of. by rewrite Hw.
  - rewrite monitored_by_of_alter. case_decide as Hx.
    + subst x. rewrite lookup_alter_proc. case_decide as Hxw; rewrite E1, Ht; cbn;
        unfold monitored_by_of; by rewrite Ht.
    + rewrite monitored_by_of_alter. case_decide as Hxw; [|by rewrite app_nil_r, E3].
      subst x. rewrite E1, Hw. cbn. unfold monitored_by_of. by rewrite Hw, app_nil_r.
Qed.

Lemma monitor_unknown watcher target s :
  lookup_proc watcher s = None \/ lookup_proc target s = None -> (monitor watcher target s).2 = s.
Proof.
  intros Hn. unfold monitor. destruct (lookup_proc watcher s); [|done]. by destruct (lookup_proc target s), Hn.
Qed.

Lemma mon_inv_monitor watcher target s :
  mon_inv s -> 0 <= s_next_ref s < u64_max ->
  let s' := (monitor watcher target s).2 in
  mon_inv s' /\ s_next_pid s' = s_next_pid s /\ s_next_ref s <= s_next_ref s' <= s_next_ref s + 1.
Proof.
  intros Hi Hr. cbn zeta. destruct (lookup_proc watcher s) as [pw|] eqn:Hw.
  2: { rewrite monitor_unknown by auto. split_and!; [done|done|lia|lia]. }
  destruct (lookup_proc target s) as [pt|] eqn:Ht.
  2: { rewrite monitor_unknown by auto. split_and!; [done|done|lia|lia]. }
  destruct (monitor_records watcher target s) as (Hm & Hb & Hreg & Er & Ep); [eauto|eauto|].
  assert (Ew : wrap64 (s_next_ref s + 1) = s_next_ref s + 1)
    by (apply wrap64_small; unfold room, is_u64 in *; lia).
  rewrite Ew in Er. destruct Hi as [H1 H2 H3 H4].
  split; [|split; [done|lia]].
  assert (Hfresh : forall x, (s_next_ref s) ∉ (monitors_of x s).*1).
  { intros x. rewrite list_elem_of_fmap. intros ([r t] & E & Hin). apply H3 in Hin. cbn in E. lia. }
  split.
  - intros x t r. rewrite Hm, Hb, !elem_of_app, H1. destruct (decide (x = watcher)), (decide (t = target));
      subst; rewrite ?list_elem_of_singleton; set_solver.
  - intros x. rewrite Hm, fmap_app, NoDup_app. split; [apply H2|].
    case_decide; cbn; [|split; [by intros ? ? ?%not_elem_of_nil|constructor]].
    split; [|apply NoDup_singleton]. intros r Hin ->%list_elem_of_singleton. by apply (Hfresh x).
  - intros x r t. rewrite Hm, elem_of_app, Er. intros [Hin|Hin]; [apply H3 in Hin; lia|].
    case_decide; [|by apply not_elem_of_nil in Hin]. apply list_elem_of_singleton in Hin. simplify_eq. lia.
  - intros x. rewrite Hreg, Ep. apply H4.
Qed.

Lemma swap_remove_perm {A} i (l l' : list A) x : swap_remove i l = Some (x, l') -> l ≡ₚ x :: l'.
Proof.
  unfold swap_remove. destruct (l !! i) as [y|] eqn:Hi; [|done].
  destruct (last l) as [z|] eqn:Hl; [|done]. intros [= <- <-].
  apply last_Some in Hl as [l0 ->]. rewrite length_app. cbn.
  replace (length l0 + 1 - 1)%nat with (length l0) by lia.
  destruct (decide (i = length l0)) as [->|Hne].
  - rewrite lookup_app_r, Nat.sub_diag in Hi by lia. cbn in Hi. simplify_eq.
    rewrite insert_app_r_alt by lia. rewrite take_app_length. by rewrite Permutation_app_comm.
  - apply lookup_lt_Some in Hi as Hlt. rewrite length_app in Hlt. cbn in Hlt.
    rewrite lookup_app_l in Hi by lia. rewrite insert_app_l by lia.
    rewrite take_app_le by (rewrite length_insert; lia).
    rewrite take_ge by (rewrite length_insert; lia).
    rewrite (Permutation_app_comm l0 [z]). cbn.
    rewrite <- (list_insert_id l0 i y) at 1 by done.
    rewrite !insert_take_drop by lia. rewrite !(Permutation_app_comm (take i l0)). cbn. constructor.
Qed.

Lemma elem_of_drop_record r pid l r' x :
  (r', x) ∈ drop_record r pid l <-> (r', x) ∈ l /\ ~ (r' = r /\ x = pid).
Proof.
  unfold drop_record. rewrite elem_of_retain. rewrite negb_true_iff, andb_false_iff, !Z.eqb_neq.
  destruct (decide (r' = r)), (decide (x = pid)); naive_solver.
Qed.

Lemma mon_inv_demonitor watcher mon_ref s :
  mon_inv s -> mon_inv (demonitor watcher mon_ref s).2 /\
  s_next_ref (demonitor watcher mon_ref s).2 = s_next_ref s /\
  s_next_pid (demonitor watcher mon_ref s).2 = s_next_pid s.
Proof.
  intros Hi. unfold demonitor. destruct (lookup_proc watcher s) as [pw|] eqn:Hw; [|done].
  destruct (position _ _) as [pos|] eqn:Hpos; [|done].
  destruct (swap_remove pos (p_monitors pw)) as [[[r target] rest]|] eqn:Hsw; [|done].
  cbn. split; [|done]. apply swap_remove_perm in Hsw as Hperm.
  assert (r = mon_ref) as ->.
  { apply position_Some in Hpos as ([r' t'] & Hl & Hr). unfold swap_remove in Hsw. rewrite Hl in Hsw.
    destruct (last _); simplify_eq. by apply Z.eqb_eq in Hr. }
  destruct Hi as [H1 H2 H3 H4].
  assert (Hmw : monitors_of watcher s = p_monitors pw) by (unfold monitors_of; by rewrite Hw).
  assert (Hnd : NoDup (mon_ref :: rest.*1)).
  { pose proof (H2 watcher) as Hn. rewrite Hmw, Hperm in Hn. done. }
  apply NoDup_cons in Hnd as [Hnin Hnd].
  set (s' := alter_proc _ target (alter_proc (with_monitors rest) watcher s)).
  assert (Hm : forall x, monitors_of x s' = if decide (x = watcher) then rest else monitors_of x s).
  { intros x. unfold s'. rewrite monitors_of_alter. rewrite lookup_alter_proc. rewrite monitors_of_alter.
    unfold monitors_of. repeat case_decide; subst; rewrite ?Hw; try done; by destruct (lookup_proc target s). }
  assert (Hb : forall x, monitored_by_of x s'
    = if decide (x = target) then drop_record mon_ref watcher (monitored_by_of x s) else monitored_by_of x s).
  { intros x. unfold s'. rewrite monitored_by_of_alter, lookup_alter_proc, monitored_by_of_alter.
    unfold monitored_by_of. repeat case_decide; subst; rewrite ?Hw; try done; by destruct (lookup_proc target s). }
  assert (Hin : forall r t, (r, t) ∈ monitors_of watcher s <-> (r, t) = (mon_ref, target) \/ (r, t) ∈ rest).
  { intros r t. by rewrite Hmw, Hperm, elem_of_cons. }
  split.
  - intros x t r. rewrite Hm, Hb.
    assert (Hrest : (r, t) ∈ rest <-> (r, t) ∈ monitors_of watcher s /\ r <> mon_ref).
    { rewrite Hin. split; [intros Hr; split; [by right|]|naive_solver].
      intros ->. apply Hnin. apply list_elem_of_fmap. by exists (mon_ref, t). }
    case_decide as Hx; case_decide as Ht; subst; rewrite ?elem_of_drop_record, ?Hrest, ?H1; [naive_solver| |naive_solver|done].
    rewrite <- H1, Hin. naive_solver.
  - intros x. rewrite Hm. case_decide; [done|apply H2].
  - intros x r t. rewrite Hm. case_decide; [|apply H3]. subst. intros Hr. apply (H3 watcher r t), Hin. by right.
  - intros x. unfold s'. rewrite !registered_alter. apply H4.
Qed.

(** ** Termination *)

Lemma remove_monitors_records pid ms s :
  (forall x, monitors_of x (remove_monitors pid ms s) = monitors_of x s) /\
  (forall x r o, (r, o) ∈ monitored_by_of x (remove_monitors pid ms s) <->
     (r, o) ∈ monitored_by_of x s /\ ~ (o = pid /\ (r, x) ∈ ms)).
Proof.
  unfold remove_monitors. revert s. induction ms as [|[r0 t] ms IH]; intros s.
  { split; [done|]. intros x r o. cbn. split; [intros; split; [done|]|naive_solver].
    by intros [_ ?%not_elem_of_nil]. }
  cbn [foldl]. destruct (IH (alter_proc (fun p =>
    with_monitored_by (drop_record r0 pid (p_monitored_by p)) p) t s)) as [IH1 IH2]. split.
  - intros x. rewrite IH1, monitors_of_alter. case_decide; [|done]. subst. unfold monitors_of.
    by destruct (lookup_proc t s).
  - intros x r o. rewrite IH2, monitored_by_of_alter, elem_of_cons.
    assert (Hd : (r, o) ∈ (if decide (x = t)
      then match lookup_proc x s with
           | Some p => p_monitored_by (with_monitored_by (drop_record r0 pid (p_monitored_by p)) p)
           | None => [] end else monitored_by_of x s)
      <-> (r, o) ∈ monitored_by_of x s /\ ~ (x = t /\ r = r0 /\ o = pid)).
    { unfold monitored_by_of. case_decide as Hx; [|naive_solver].
      destruct (lookup_proc x s); cbn; [rewrite elem_of_drop_record; naive_solver|].
      split; [by intros ?%not_elem_of_nil|naive_solver]. }
    rewrite Hd. naive_solver.
Qed.

Lemma notify_watchers_records pid reason ms s :
  let s' := (notify_watchers pid reason ms s).1 in
  (forall x, monitored_by_of x s' = monitored_by_of x s) /\
  (forall x, monitors_of x s' `sublist_of` monitors_of x s) /\
  (forall x r t, (r, t) ∈ monitors_of x s' <-> (r, t) ∈ monitors_of x s /\ ~ (t = pid /\ (r, x) ∈ ms)).
Proof.
  unfold notify_watchers. cbn zeta. cbn [fst]. revert s. induction ms as [|[r0 y] ms IH]; intros s.
  { split_and!; [done|done|]. intros x r t. cbn. split; [intros; split; [done|]|naive_solver].
    by intros [_ ?%not_elem_of_nil]. }
  cbn [foldl]. destruct (IH (alter_proc (fun p => with_monitors (drop_record r0 pid (p_monitors p)) p) y s))
    as (IH1 & IH2 & IH3). split_and!.
  - intros x. rewrite IH1, monitored_by_of_alter. case_decide; [|done]. subst. unfold monitored_by_of.
    by destruct (lookup_proc y s).
  - intros x. etrans; [apply IH2|]. rewrite monitors_of_alter. case_decide; [|done].
    unfold monitors_of. destruct (lookup_proc x s); [|done]. cbn. unfold drop_record, retain.
    generalize (p_monitors a). induction l as [|z l IHl]; [done|]. cbn. case_match; by constructor.
  - intros x r t. rewrite IH3, monitors_of_alter, elem_of_cons.
    assert (Hd : (r, t) ∈ (if decide (x = y)
      then match lookup_proc x s with
           | Some p => p_monitors (with_monitors (drop_record r0 pid (p_monitors p)) p)
           | None => [] end else monitors_of x s)
      <-> (r, t) ∈ monitors_of x s /\ ~ (x = y /\ r = r0 /\ t = pid)).
    { unfold monitors_of. case_decide as Hx; [|naive_solver].
      destruct (lookup_proc x s); cbn; [rewrite elem_of_drop_record; naive_solver|].
      split; [by intros ?%not_elem_of_nil|naive_solver]. }
    rewrite Hd. naive_solver.
Qed.

(** The records of a dead process disappear on both sides. *)
Lemma terminate_core_records pid reason s w :
  mon_inv s ->
  let s' := (terminate_core pid reason s w).1.1 in
  (forall x r t, (r, t) ∈ monitors_of x s' <-> (r, t) ∈ monitors_of x s /\ x <> pid /\ t <> pid) /\
  (forall x r o, (r, o) ∈ monitored_by_of x s' <-> (r, o) ∈ monitored_by_of x s /\ x <> pid /\ o <> pid) /\
  (forall x, monitors_of x s' `sublist_of` monitors_of x s) /\
  s_next_ref s' = s_next_ref s /\ s_next_pid s' = s_next_pid s.
Proof.
  intros [Hsym _ _ _]. cbn zeta. rewrite terminate_core_eq. cbn zeta.
  set (s1 := removed pid reason s w). set (s2 := remove_monitors pid (monitors_of pid s) s1).
  assert (Hm1 : forall x, monitors_of x s1 = if decide (x = pid) then [] else monitors_of x s).
  { intros x. unfold monitors_of, s1. rewrite lookup_removed. by case_decide. }
  assert (Hb1 : forall x, monitored_by_of x s1 = if decide (x = pid) then [] else monitored_by_of x s).
  { intros x. unfold monitored_by_of, s1. rewrite lookup_removed. by case_decide. }
  destruct (remove_monitors_records pid (monitors_of pid s) s1) as [Hm2 Hb2]. fold s2 in Hm2, Hb2.
  assert (Hn2 : s_next_ref s2 = s_next_ref s /\ s_next_pid s2 = s_next_pid s).
  { unfold s2, remove_monitors. rewrite (foldl_frame s_next_ref), (foldl_frame s_next_pid) by (by intros ? []).
    by destruct (removed_frame pid reason s w) as (_ & _ & ? & ?). }
  pose proof (calm_notify_links pid reason (links_of pid s) s2) as Hc3.
  destruct (notify_links pid reason (links_of pid s) s2) as [[s3 cascade] wake]. cbn in Hc3.
  destruct (notify_watchers_records pid reason (monitored_by_of pid s) s3) as (Hb4 & Hs4 & Hm4).
  assert (Hn4 : s_next_ref (notify_watchers pid reason (monitored_by_of pid s) s3).1 = s_next_ref s3 /\
    s_next_pid (notify_watchers pid reason (monitored_by_of pid s) s3).1 = s_next_pid s3).
  { cbn. rewrite (foldl_frame s_next_ref), (foldl_frame s_next_pid) by (by intros ? []). done. }
  destruct (notify_watchers pid reason (monitored_by_of pid s) s3) as [s4 downs].
  match goal with |- context [send_all downs ?a ?b] => set (s5 := (send_all downs a b).1) end.
  assert (Hc5 : calm s4 s5).
  { etrans; [|apply calm_send_all]. apply calm_foldl. intros. apply calm_enqueue. }
  cbn [fst snd] in *. pose proof Hc3 as (_ & _ & Er3 & Ep3). pose proof Hc5 as (_ & _ & Er5 & Ep5).
  split_and!; [intros x r t|intros x r o|intros x|rewrite Er5, (proj1 Hn4), Er3; apply Hn2|
    rewrite Ep5, (proj2 Hn4), Ep3; apply Hn2].
  - destruct (calm_monitors _ _ x Hc5) as [-> _]. rewrite Hm4. destruct (calm_monitors _ _ x Hc3) as [-> _].
    rewrite Hm2, Hm1. case_decide as Hx; [split; [intros [[]%not_elem_of_nil _]|naive_solver]|].
    split; [|naive_solver]. intros [Hin Hn]. split_and!; [done|done|]. intros ->. apply Hn.
    split; [done|]. by apply Hsym.
  - destruct (calm_monitors _ _ x Hc5) as [_ ->]. rewrite Hb4. destruct (calm_monitors _ _ x Hc3) as [_ ->].
    rewrite Hb2, Hb1. case_decide as Hx; [split; [intros [[]%not_elem_of_nil _]|naive_solver]|].
    split; [|naive_solver]. intros [Hin Hn]. split_and!; [done|done|]. intros ->. apply Hn.
    split; [done|]. by apply Hsym.
  - destruct (calm_monitors _ _ x Hc5) as [-> _]. etrans; [apply Hs4|].
    destruct (calm_monitors _ _ x Hc3) as [-> _]. rewrite Hm2, Hm1. case_decide; [apply sublist_nil_l|done].
Qed.

Lemma mon_inv_core k pid reason s w :
  mon_inv s -> room k s ->
  mon_inv (terminate_core pid reason s w).1.1 /\ room k (terminate_core pid reason s w).1.1.
Proof.
  intros Hi Hr. destruct (terminate_core_records pid reason s w Hi) as (Hm & Hb & Hs & Er & Ep).
  destruct (terminate_core_attrs pid reason s w) as [Ha _]. destruct Hi as [H1 H2 H3 H4].
  split; [|unfold room in *; by rewrite Er, Ep]. split.
  - intros x t r. rewrite Hm, Hb, H1. naive_solver.
  - intros x. eapply sublist_NoDup; [apply (H2 x)|]. apply fmap_sublist, Hs.
  - intros x r t. rewrite Hm, Er. intros [? _]. by eapply H3.
  - intros x [p Hp]. rewrite Ep. apply H4. specialize (Ha x). unfold attrs in Ha. rewrite Hp in Ha.
    case_decide; [done|]. destruct (lookup_proc x s); [eauto|done].
Qed.

Lemma mon_inv_terminate fuel k pid reason s w s' w' :
  mon_inv s -> room k s -> s_exit_handlers s = [] ->
  terminate_process fuel pid reason s w = Some (s', w') ->
  mon_inv s' /\ room k s' /\ s_exit_handlers s' = [].
Proof.
  revert pid s w s' w'. induction fuel as [|fuel IH]; [done|]. intros pid s w s' w' Hi Hr He Ht.
  cbn [terminate_process] in Ht. pose proof (terminate_core_handlers pid reason s w) as He1.
  destruct (mon_inv_core k pid reason s w Hi Hr) as [Hi1 Hr1].
  destruct (terminate_core pid reason s w) as [[s1 cascade] w1]. cbn in Hi1, Hr1, He1. rewrite He in He1.
  match type of Ht with (mbind _ ?e) = _ => destruct e as [[s2 w2]|] eqn:Hf; [|done] end. cbn in Ht.
  assert (H2 : mon_inv s2 /\ room k s2 /\ s_exit_handlers s2 = []).
  { clear Ht. revert s1 w1 Hi1 Hr1 He1 Hf. induction cascade as [|c cascade IHc]; intros s1 w1 Hi1 Hr1 He1 Hf.
    { by simplify_eq/=. }
    cbn in Hf. destruct (terminate_process fuel c reason s1 w1) as [[s3 w3]|] eqn:H3; [|done]. cbn in Hf.
    apply IH in H3 as (? & ? & ?); [|done..]. by eapply IHc. }
  destruct H2 as (Hi2 & Hr2 & He2). unfold run_exit_handlers in Ht. rewrite He2 in Ht. simplify_eq/=.
  destruct (submit_destroy_frame pid (record record_process_termination s2)) as (E1 & _ & E3 & E4 & E5).
  assert (Hc : calm s2 (submit_destroy pid (record record_process_termination s2))) by (by apply calm_registry).
  split_and!; [by eapply mon_inv_calm|by eapply room_calm|by rewrite E3].
Qed.

(** ** Spawning *)

Lemma mon_inv_spawn k b args s w :
  mon_inv s -> room (k + 1) s -> 0 <= k ->
  mon_inv (spawn b args s w).1.2 /\ s_next_pid (spawn b args s w).1.2 = s_next_pid s + 1 /\
  s_next_ref (spawn b args s w).1.2 = s_next_ref s /\
  s_exit_handlers (spawn b args s w).1.2 = s_exit_handlers s.
Proof.
  intros [H1 H2 H3 H4] Hr Hk0. unfold spawn.
  assert (Ew : wrap64 (s_next_pid s + 1) = s_next_pid s + 1)
    by (apply wrap64_small; unfold room, is_u64 in *; lia).
  pose proof (registry_spawn_cases b args (s_registry s) (s_next_pid s) w) as Hc.
  destruct (registry_spawn _ _ _ _ _) as [[[[pid|e] reg] next] w']; cbn.
  2: { destruct Hc as [-> ->]. split; [|by rewrite Ew]. split; auto.
    intros x Hx. cbn. rewrite Ew. specialize (H4 x Hx). lia. }
  destruct Hc as (-> & -> & _ & st & Hreg). split; [|by rewrite Ew].
  assert (Hn : lookup_proc (s_next_pid s) s = None).
  { destruct (lookup_proc (s_next_pid s) s) eqn:Hp; [|done].
    assert (is_Some (lookup_proc (s_next_pid s) s)) as Hx%H4 by eauto. lia. }
  assert (Hl : forall x, lookup_proc x (upd_next_pid (wrap64 (s_next_pid s + 1)) (upd_registry reg s))
    = if decide (x = s_next_pid s) then Some (mkProcess (s_next_pid s) b (Some st) [] DEFAULT_MAILBOX_CAPACITY 0
        Runnable NormalPriority [] [] [] None false None) else lookup_proc x s).
  { intros x. unfold lookup_proc, registry_lookup. cbn. rewrite Hreg, lookup_insert. repeat case_decide; congruence. }
  set (s' := upd_next_pid _ _) in *.
  assert (Hm : forall x, monitors_of x s' = monitors_of x s).
  { intros x. unfold monitors_of. rewrite Hl. case_decide; [subst; by rewrite Hn|done]. }
  assert (Hb : forall x, monitored_by_of x s' = monitored_by_of x s).
  { intros x. unfold monitored_by_of. rewrite Hl. case_decide; [subst; by rewrite Hn|done]. }
  split; intros *; rewrite ?Hm, ?Hb; auto.
  - apply H3.
  - rewrite Hl. cbn. rewrite Ew. case_decide; [intros _; lia|]. intros Hx. specialize (H4 x Hx). lia.
Qed.

Lemma mon_inv_alter f pid s :
  (forall p, p_monitors (f p) = p_monitors p /\ p_monitored_by (f p) = p_monitored_by p) ->
  mon_inv s -> mon_inv (alter_proc f pid s).
Proof.
  intros Hf [H1 H2 H3 H4].
  assert (Hm : forall x, monitors_of x (alter_proc f pid s) = monitors_of x s).
  { intros x. rewrite monitors_of_alter. case_decide; [|done]. unfold monitors_of.
    destruct (lookup_proc x s); [apply Hf|done]. }
  assert (Hb : forall x, monitored_by_of x (alter_proc f pid s) = monitored_by_of x s).
  { intros x. rewrite monitored_by_of_alter. case_decide; [|done]. unfold monitored_by_of.
    destruct (lookup_proc x s); [apply Hf|done]. }
  split; intros *; rewrite ?Hm, ?Hb, ?registered_alter; auto; apply H3.
Qed.

Lemma mon_inv_spawn_pending k pid req s w :
  mon_inv s -> room (k + 1) s -> 0 <= k ->
  mon_inv (spawn_pending pid req s w).1 /\ room k (spawn_pending pid req s w).1.
Proof.
  intros Hi Hr Hk0. destruct req as [[[b args] link] mon]. unfold spawn_pending.
  destruct (mon_inv_spawn k b args s w Hi Hr Hk0) as (Hi1 & Ep & Er & _).
  destruct (spawn b args s w) as [[[child|e] s1] w1]; cbn in Hi1, Ep, Er |- *.
  2: { split; [done|]. unfold room in *. lia. }
  set (s2 := if link then link_pair pid child s1 else s1).
  assert (H2 : mon_inv s2 /\ s_next_pid s2 = s_next_pid s + 1 /\ s_next_ref s2 = s_next_ref s).
  { unfold s2. destruct link; [|done]. split; [|done]. unfold link_pair. by apply mon_inv_alter, mon_inv_alter. }
  clearbody s2. destruct H2 as (Hi2 & Ep2 & Er2). destruct (if mon then _ else _) as [mref s3] eqn:Hm.
  assert (H3 : mon_inv s3 /\ room k s3).
  { destruct mon; [|simplify_eq; split; [done|unfold room in *; lia]].
    destruct (mon_inv_monitor pid child s2 Hi2) as (Hmi & Ep3 & Er3); [unfold room in *; lia|].
    destruct (monitor pid child s2) as [[r|e] s4]; simplify_eq; cbn in *; (split; [done|unfold room in *; lia]). }
  destruct H3 as [Hi3 Hr3]. pose proof (calm_send pid (System (SpawnResult child mref)) s3 w1) as Hs.
  destruct (send _ _ _ _) as [[r s4] w4]. cbn in *.
  assert (Hc : calm s3 (enqueue child s4)) by (etrans; [exact Hs|apply calm_enqueue]).
  split; [by eapply mon_inv_calm|by eapply room_calm].
Qed.

Lemma mon_inv_spawn_all k pid reqs s w :
  mon_inv s -> room (k + Z.of_nat (length reqs)) s -> 0 <= k ->
  mon_inv (spawn_all pid reqs s w).1 /\ room k (spawn_all pid reqs s w).1.
Proof.
  unfold spawn_all. revert s w. induction reqs as [|r reqs IH]; intros s w Hi Hr Hk0.
  { cbn in *. by rewrite Z.add_0_r in Hr. }
  cbn [foldl length] in *.
  destruct (mon_inv_spawn_pending (k + Z.of_nat (length reqs)) pid r s w) as [Hi1 Hr1]; [done| |lia|].
  { by replace (k + Z.of_nat (length reqs) + 1) with (k + Z.of_nat (Datatypes.S (length reqs))) by lia. }
  destruct (spawn_pending pid r s w) as [s1 w1]. by apply IH.
Qed.

(** ** Every call *)

Lemma mon_inv_tick fuel k s w b s' w' :
  mon_inv s -> room (k + 19) s -> 0 <= k -> s_exit_handlers s = [] ->
  tick fuel s w = Some (b, s', w') -> mon_inv s' /\ room k s' /\ s_exit_handlers s' = [].
Proof.
  intros Hi Hr Hk0 He Ht. unfold tick in Ht. pose proof (calm_prepare s w) as H1.
  destruct (prepare s w) as [s1 w1]. cbn in H1.
  assert (Hfuel : (length (queued s1) < select_fuel s1)%nat) by (unfold select_fuel; lia).
  pose proof (select_runnable_spec (select_fuel s1) s1 Hfuel) as Hsp.
  pose proof (calm_select (select_fuel s1) s1) as H2.
  destruct (select_runnable_frame (select_fuel s1) s1) as (Hreg & _).
  destruct (select_runnable (select_fuel s1) s1) as [[pid|] s2]; cbn in Hreg, H2.
  2: { simplify_eq. assert (Hc : calm s s') by (by etrans). pose proof Hc as (_ & -> & _).
    split_and!; [by eapply mon_inv_calm|eapply room_mono; [|by eapply room_calm]; lia|done]. }
  destruct Hsp as (_ & Hrun & _). unfold is_runnable in Hrun. destruct (lookup_proc pid s1) as [p|] eqn:Hp; [|done].
  assert (Hp2 : lookup_proc pid s2 = Some p) by (unfold lookup_proc in *; congruence).
  destruct (dispatch_quantum pid s2 w1 p Hp2) as (d & s4 & w4 & Hd & Hb). rewrite Hd in Ht. cbn in Ht.
  apply calm_dispatch in Hd. destruct (finish fuel pid d s4 w4) as [[s9 w9]|] eqn:Hf; [|done]. simplify_eq/=.
  unfold finish in Hf. pose proof (calm_deferred pid d s4 w4) as H7. cbn zeta in H7.
  destruct (send_all _ _ _) as [s7 w7].
  assert (Hc : calm s s7).
  { etrans; [exact H1|]. etrans; [exact H2|]. etrans; [|exact H7]. etrans; [|exact Hd]. by apply calm_alter. }
  apply (mon_inv_calm s s7 Hc) in Hi. apply (room_calm _ s s7 Hc) in Hr.
  destruct (mon_inv_spawn_all k pid (d_spawns d) s7 w7 Hi) as [Hi8 Hr8]; [eapply room_mono; [|done]; lia|done|].
  destruct (spawn_all_linked pid (d_spawns d) s7 w7) as [_ He8].
  destruct (spawn_all pid (d_spawns d) s7 w7) as [s8 w8]. cbn in *. pose proof Hc as (_ & He7 & _).
  destruct (d_stop d) as [reason|]; [|simplify_eq; split_and!; [done|done|congruence]].
  eapply mon_inv_terminate; [exact Hi8|exact Hr8|congruence|done].
Qed.

(** Calls that install no exit handler. *)
Definition no_handler (c : SchedCall V B Br Hk H) : Prop :=
  match c with CAddExitHandler _ => False | _ => True end.

Lemma mon_inv_exec fuel k c s w s' w' :
  mon_inv s -> room (k + 19) s -> 0 <= k -> s_exit_handlers s = [] -> no_handler c ->
  sched_exec fuel c s w = Some (s', w') -> mon_inv s' /\ room k s' /\ s_exit_handlers s' = [].
Proof.
  intros Hi Hr Hk0 He Hn Hx.
  assert (Hcalm : forall s', calm s s' -> mon_inv s' /\ room k s' /\ s_exit_handlers s' = []).
  { intros s1 Hc. pose proof Hc as (_ & He1 & _). split_and!; [by eapply mon_inv_calm| |congruence].
    eapply room_mono; [|by eapply room_calm]. lia. }
  assert (Halter : forall f pid, (forall p, p_monitors (f p) = p_monitors p /\ p_monitored_by (f p) = p_monitored_by p) ->
    mon_inv (alter_proc f pid s) /\ room k (alter_proc f pid s) /\ s_exit_handlers (alter_proc f pid s) = []).
  { intros f pid Hf. split_and!; [by apply mon_inv_alter| |done]. unfold room in *. cbn. lia. }
  destruct c as [|to msg|b args prio|pid reason|wa ta|wa mr|pid dur|a b|pid tr|br|hk|en| |h];
    cbn [sched_exec] in Hx; simplify_eq; try (by apply Hcalm, calm_registry); try (by apply Halter).
  - destruct (tick fuel s w) as [[[b s1] w1]|] eqn:Ht; [|done]. simplify_eq/=. by eapply mon_inv_tick.
  - pose proof (calm_send to msg s w) as Hs. destruct (send to msg s w) as [[? ?] ?]. simplify_eq. by apply Hcalm.
  - unfold spawn_enqueued in Hx. destruct (mon_inv_spawn (k + 18) b args s w) as (Hi1 & Ep & Er & E1);
      [done|by replace (k + 18 + 1) with (k + 19) by lia|lia|].
    destruct (spawn b args s w) as [[[pid|e] s1] w1]; simplify_eq; cbn in *.
    + assert (Hc : calm (alter_proc (with_priority prio) pid s1)
        (enqueue pid (alter_proc (with_priority prio) pid s1))) by apply calm_enqueue.
      pose proof Hc as (_ & E2 & _). split_and!; [eapply mon_inv_calm; [exact Hc|]; by apply mon_inv_alter| |].
      * eapply room_calm; [exact Hc|]. unfold room in *. cbn. lia.
      * rewrite E2. cbn. congruence.
    + split_and!; [done|unfold room in *; lia|congruence].
  - eapply mon_inv_terminate; [exact Hi| |exact He|exact Hx]. eapply room_mono; [|done]. lia.
  - destruct (mon_inv_monitor wa ta s Hi) as (Hm & Ep & Er); [unfold room in *; lia|].
    split_and!; [done|unfold room in *; lia|]. by destruct (monitor_linked wa ta s) as [_ ->].
  - destruct (mon_inv_demonitor wa mr s Hi) as (Hm & Er & Ep). split_and!; [done|unfold room in *; lia|].
    unfold demonitor. destruct (lookup_proc wa s); [|done]. destruct (position _ _); [|done].
    by destruct (swap_remove _ _) as [[[? ?] ?]|].
  - apply Hcalm. unfold set_receive_timeout. destruct (lookup_proc pid s); [|done]. cbn.
    destruct (checked_add_instant _ _); [|by apply calm_registry].
    etrans; [by apply (calm_registry s (upd_clock_reads (Datatypes.S (s_clock_reads s)) s))|].
    by apply calm_alter.
Qed.

Lemma mon_inv_run fuel calls s w s' w' :
  mon_inv s -> room (19 * Z.of_nat (length calls)) s -> s_exit_handlers s = [] -> Forall no_handler calls ->
  sched_run fuel calls s w = Some (s', w') -> mon_inv s'.
Proof.
  unfold sched_run. revert s w. induction calls as [|c calls IH]; intros s w Hi Hr He Hf Hx; [by simplify_eq/=|].
  apply Forall_cons in Hf as [Hc Hf]. cbn in Hx.
  destruct (sched_exec fuel c s w) as [[s1 w1]|] eqn:H1; [|done]. cbn in Hx.
  apply (mon_inv_exec fuel (19 * Z.of_nat (length calls))) in H1 as (? & ? & ?); [by eapply IH|done| |lia|done|done].
  eapply room_mono; [|exact Hr]. cbn [length]. lia.
Qed.

(** C3: the two sides of every monitor agree in every reachable state (of a scheduler
    without exit handlers, while the 64-bit counters have not wrapped): a watcher holds
    the record (ref, target) exactly when the target holds (ref, watcher).  So no
    process keeps a monitor on a dead one, and no death is announced to a process that
    has stopped watching. *)
Theorem monitors_symmetric fuel (calls : list (SchedCall V B Br Hk H)) w s w' :
  Forall no_handler calls -> 19 * Z.of_nat (length calls) <= 2 ^ 63 ->
  sched_run fuel calls (scheduler_new NEXT_AGENT_PID NEXT_MONITOR_REF) w = Some (s, w') ->
  forall x t r,
    ((r, t) ∈ monitors_of x s <-> (r, x) ∈ monitored_by_of t s) /\
    ((r, t) ∈ monitors_of x s -> is_Some (lookup_proc x s) /\ is_Some (lookup_proc t s)).
Proof.
  intros Hf Hlen Hr x t r. apply mon_inv_run in Hr; [| | |done|done].
  - destruct Hr as [Hsym _ _ _]. split; [apply Hsym|]. intros Hin. pose proof Hin as Hin'. apply Hsym in Hin'.
    unfold monitors_of in Hin. unfold monitored_by_of in Hin'.
    destruct (lookup_proc x s); [|by apply not_elem_of_nil in Hin].
    destruct (lookup_proc t s); [|by apply not_elem_of_nil in Hin']. eauto.
  - split; [|intros; constructor|..]; cbn.
    + intros y u q. split; by intros ?%not_elem_of_nil.
    + by intros y q u ?%not_elem_of_nil.
    + intros y [p [=]].
  - unfold room, u64_max, NEXT_AGENT_PID, NEXT_MONITOR_REF. cbn. lia.
Qed.

(** ** Deaths are announced *)

(** [x] has the messages [ms] in its mailbox and room for [n] more; no hook can
    intercept what is sent. *)
Definition inbox (x : AgentPid) (ms : list (Message V)) (n : nat) s : Prop :=
  s_message_hook s = None /\
  exists p, lookup_proc x s = Some p /\ (forall m, m ∈ ms -> m ∈ p_mailbox p) /\
    (length (p_mailbox p) + n <= p_mailbox_capacity p)%nat.

Lemma inbox_weaken x ms ms' n n' s :
  (forall m, m ∈ ms' -> m ∈ ms) -> (n' <= n)%nat -> inbox x ms n s -> inbox x ms' n' s.
Proof. intros Hm Hn (Hh & p & Hp & Hms & Hl). split; [done|]. exists p. split_and!; auto. lia. Qed.

Lemma inbox_alter x ms n f pid s :
  (forall p, p_mailbox (f p) = p_mailbox p /\ p_mailbox_capacity (f p) = p_mailbox_capacity p) ->
  inbox x ms n s -> inbox x ms n (alter_proc f pid s).
Proof.
  intros Hf (Hh & p & Hp & Hms & Hl). split; [done|]. rewrite lookup_alter_proc, Hp.
  destruct (Hf p) as [E1 E2]. case_decide; cbn; eexists; (split; [done|]); rewrite ?E1, ?E2; done.
Qed.

Lemma inbox_enqueue x ms n pid s : inbox x ms n s -> inbox x ms n (enqueue pid s).
Proof.
  unfold inbox. rewrite lookup_enqueue. by destruct (enqueue_frame pid s) as (_ & _ & _ & _ & _ & -> & _).
Qed.

Lemma inbox_foldl {X} x ms n (f : Sched -> X -> Sched) l s :
  (forall s y, inbox x ms n s -> inbox x ms n (f s y)) -> inbox x ms n s -> inbox x ms n (foldl f s l).
Proof. intros Hf. revert s. induction l as [|y l IH]; intros s Hi; [done|]. cbn [foldl]. by apply IH, Hf. Qed.

Lemma inbox_deliver_ok x ms n msg to s :
  inbox x ms (Datatypes.S n) s ->
  inbox x (if decide (to = x) then msg :: ms else ms) n (alter_proc (deliver_ok msg) to s).
Proof.
  intros (Hh & p & Hp & Hms & Hl). split; [done|]. rewrite lookup_alter_proc, Hp.
  destruct (decide (to = x)) as [->|Hne].
  - rewrite decide_True by done. cbn. eexists. split; [done|]. unfold deliver_ok.
    destruct (deliver_message msg p) as [p'|] eqn:Hd; cbn.
    + pose proof (static_deliver _ _ _ Hd) as Hst. apply deliver_message_Some in Hd as (_ & Hmb & _).
      assert (Ec : p_mailbox_capacity p' = p_mailbox_capacity p) by (unfold static in Hst; congruence).
      rewrite Hmb, Ec, length_app. cbn. split; [|lia]. intros m [->|Hm]%elem_of_cons; rewrite elem_of_app; [|auto].
      right. by left.
    + unfold deliver_message in Hd. destruct (_ <=? _)%nat eqn:Hle; [zify_bool; lia|by destruct (decide _)].
  - rewrite decide_False by done. exists p. split_and!; [done|done|lia].
Qed.

Lemma inbox_send x ms n to msg s w :
  inbox x ms (Datatypes.S n) s ->
  inbox x (if decide (to = x) then msg :: ms else ms) n (send to msg s w).1.2.
Proof.
  intros Hi. pose proof Hi as (Hh & p & Hp & Hms & Hl). unfold send, call_hook. rewrite Hh.
  unfold deliver_to. destruct (lookup_proc to s) as [q|] eqn:Hq.
  - pose proof (inbox_deliver_ok x ms n msg to s Hi) as Hd.
    destruct (deliver_message msg q) as [q'|] eqn:Hdel; cbn.
    + assert (Hsame : inbox x (if decide (to = x) then msg :: ms else ms) n
        (record record_message_sent (alter_proc (fun _ => q') to s))).
      { destruct Hd as (Hh' & p' & Hp' & Hrest). split; [done|]. exists p'. split; [|done].
        change (lookup_proc x (alter_proc (fun _ => q') to s) = Some p'). rewrite <- Hp', !lookup_alter_proc.
        destruct (decide (x = to)) as [->|]; [|done]. rewrite Hq. cbn. unfold deliver_ok. by rewrite Hdel. }
      case_bool_decide; [by apply inbox_enqueue|done].
    + destruct (decide (to = x)) as [->|Hne].
      * simplify_eq. unfold deliver_message in Hdel.
        destruct (_ <=? _)%nat eqn:Hle; [zify_bool; lia|by destruct (decide _)].
      * split; [done|]. exists p. split_and!; [done|done|lia].
  - rewrite decide_False by congruence.
    assert (Hw : inbox x ms n s) by (apply (inbox_weaken x ms ms (Datatypes.S n) n s); [done|lia|done]).
    by destruct (s_allow_external_routing s).
Qed.

Lemma inbox_send_all x ms n msgs s w :
  inbox x ms (length msgs + n) s ->
  inbox x (map snd (List.filter (fun tm => bool_decide (tm.1 = x)) msgs) ++ ms) n (send_all msgs s w).1.
Proof.
  unfold send_all. revert ms s w. induction msgs as [|[to msg] msgs IH]; intros ms s w Hi; [done|].
  cbn [foldl length] in *. pose proof (inbox_send x ms (length msgs + n) to msg s w Hi) as Hs.
  destruct (send to msg s w) as [[r s1] w1]. apply IH with (w := w1) in Hs.
  eapply inbox_weaken; [|reflexivity|exact Hs]. intros m. cbn [List.filter fst].
  case_bool_decide; [rewrite decide_True by done|rewrite decide_False by done]; cbn; set_solver.
Qed.

Lemma inbox_notify_links x ms n pid reason links s :
  inbox x ms (length links + n) s ->
  (forall l p, x = l -> l ∈ links -> lookup_proc l s = Some p -> p_trap_exit p = true ->
     inbox x (System (Exit pid reason) :: ms) n (notify_links pid reason links s).1.1) /\
  inbox x ms n (notify_links pid reason links s).1.1.
Proof.
  unfold notify_links.
  assert (Hg : forall ms (acc : Sched * list AgentPid * list AgentPid),
    inbox x ms (length links + n) acc.1.1 ->
    (forall l p, x = l -> l ∈ links -> lookup_proc l acc.1.1 = Some p -> p_trap_exit p = true ->
       inbox x (System (Exit pid reason) :: ms) n
         (foldl (fun acc l => notify_link pid reason l acc) acc links).1.1) /\
    inbox x ms n (foldl (fun acc l => notify_link pid reason l acc) acc links).1.1); [|apply (Hg ms (s, [], []))].
  induction links as [|l links IH]; intros ms' [[s1 c] k] Hi.
  { split; [by intros l p _ ?%not_elem_of_nil|done]. }
  cbn [foldl length] in *. cbn [fst] in Hi.
  assert (Hstep : forall ms', inbox x ms' (Datatypes.S (length links + n)) s1 ->
    inbox x ms' (length links + n) (notify_link pid reason l (s1, c, k)).1.1).
  { intros ms2 Hi2. unfold notify_link. assert (Hw : inbox x ms2 (length links + n) s1)
      by (eapply inbox_weaken; [done| |exact Hi2]; lia).
    destruct (lookup_proc l s1) as [lp|]; [|done]. destruct (p_trap_exit lp); [|by destruct (negb _)]. cbn.
    eapply inbox_weaken; [|reflexivity|by apply inbox_deliver_ok]. intros m Hm. case_decide; [by right|done]. }
  assert (Htrap : forall y, is_Some (lookup_proc y s1) ->
    p_trap_exit <$> lookup_proc y (notify_link pid reason l (s1, c, k)).1.1 = p_trap_exit <$> lookup_proc y s1).
  { intros y _. pose proof (calm_notify_links pid reason [l] s1) as [Hc _]. specialize (Hc y).
    unfold notify_links in Hc. cbn [foldl] in Hc.
    assert (E : (notify_link pid reason l (s1, c, k)).1.1 = (notify_link pid reason l (s1, [], [])).1.1).
    { unfold notify_link. destruct (lookup_proc l s1) as [lp|]; [|done]. destruct (p_trap_exit lp); [done|].
      by destruct (negb _). }
    rewrite E. destruct (lookup_proc y _), (lookup_proc y s1); cbn in Hc |- *; try done.
    unfold static in Hc. congruence. }
  split; [|apply IH; by apply Hstep].
  intros y p -> Hin Hy Ht. cbn [fst] in Hy. apply elem_of_cons in Hin as [->|Hin].
  - apply IH. unfold notify_link. rewrite Hy, Ht. cbn.
    pose proof (inbox_deliver_ok l ms' (length links + n) (System (Exit pid reason)) l s1 Hi) as Hd.
    by rewrite decide_True in Hd.
  - pose proof (Htrap y ltac:(eauto)) as Hty. rewrite Hy in Hty.
    destruct (lookup_proc y (notify_link pid reason l (s1, c, k)).1.1) as [p'|] eqn:Hp'; [|done].
    eapply (proj1 (IH ms' _ (Hstep ms' Hi))); [done|exact Hin|exact Hp'|]. cbn in Hty. congruence.
Qed.

(** C21: every death is announced.  When [pid] dies, each live process [x] with room in
    its mailbox gets a [Down] for each of its monitors on [pid] and, if it is linked
    and traps exits, an [Exit]; and it loses none of the messages it had. *)
Theorem deaths_announced pid reason s w q x p :
  s_message_hook s = None -> lookup_proc pid s = Some q -> lookup_proc x s = Some p -> x <> pid ->
  (length (p_mailbox p) + (length (p_links q) + length (p_monitored_by q)) <= p_mailbox_capacity p)%nat ->
  exists p', lookup_proc x (terminate_core pid reason s w).1.1 = Some p' /\
    (forall r, (r, x) ∈ p_monitored_by q -> System (Down r pid reason) ∈ p_mailbox p') /\
    (x ∈ p_links q -> p_trap_exit p = true -> System (Exit pid reason) ∈ p_mailbox p') /\
    (forall m, m ∈ p_mailbox p -> m ∈ p_mailbox p').
Proof.
  intros Hh Hq Hp Hne Hroom. rewrite terminate_core_eq. cbn zeta.
  assert (El : links_of pid s = p_links q) by (unfold links_of; by rewrite Hq).
  assert (Eb : monitored_by_of pid s = p_monitored_by q) by (unfold monitored_by_of; by rewrite Hq).
  rewrite El, Eb. set (s1 := removed pid reason s w). set (s2 := remove_monitors pid (monitors_of pid s) s1).
  assert (H1 : inbox x (p_mailbox p) (length (p_links q) + length (p_monitored_by q)) s1).
  { split.
    - unfold s1, removed. cbn. unfold run_terminate, cancel_io.
      destruct (s_bridge s); cbn; by destruct (lookup_proc _ _).
    - exists p. unfold s1. rewrite lookup_removed, decide_False by done. done. }
  assert (H2 : inbox x (p_mailbox p) (length (p_links q) + length (p_monitored_by q)) s2).
  { apply inbox_foldl; [|done]. intros s' [r t]. by apply inbox_alter. }
  assert (Htrap : p_trap_exit p = true -> exists p2, lookup_proc x s2 = Some p2 /\ p_trap_exit p2 = true).
  { intros Ht. pose proof (attrs_remove_monitors pid (monitors_of pid s) s1 x) as Ha. fold s2 in Ha.
    unfold attrs, s1 in Ha. rewrite lookup_removed, decide_False, Hp in Ha by done.
    destruct (lookup_proc x s2) as [p2|]; [|done]. exists p2. cbn in Ha. split; [done|congruence]. }
  destruct (inbox_notify_links x (p_mailbox p) (length (p_monitored_by q)) pid reason (p_links q) s2 H2) as [H3 H3'].
  destruct (notify_links pid reason (p_links q) s2) as [[s3 cascade] wake]. cbn [fst] in H3, H3'.
  assert (H5 : forall ms, inbox x ms (length (p_monitored_by q)) s3 ->
    inbox x (map snd (List.filter (fun tm => bool_decide (tm.1 = x))
       (notify_watchers pid reason (p_monitored_by q) s3).2) ++ ms) 0
      (send_all (notify_watchers pid reason (p_monitored_by q) s3).2
         (foldl (fun s wake_pid => enqueue wake_pid s) (notify_watchers pid reason (p_monitored_by q) s3).1 wake)
         (run_terminate pid reason (cancel_io pid s) w).2).1).
  { intros ms Hms. apply inbox_send_all. cbn [notify_watchers snd fst]. rewrite length_map, Nat.add_0_r.
    apply inbox_foldl; [intros; by apply inbox_enqueue|].
    apply inbox_foldl; [|done]. intros s' [r t]. by apply inbox_alter. }
  set (downs := (notify_watchers pid reason (p_monitored_by q) s3).2) in *.
  change (notify_watchers pid reason (p_monitored_by q) s3)
    with ((notify_watchers pid reason (p_monitored_by q) s3).1, downs).
  cbn iota. set (s6 := (send_all downs _ _).1) in *.
  assert (Hdown : forall r, (r, x) ∈ p_monitored_by q -> System (Down r pid reason)
    ∈ map snd (List.filter (fun tm => bool_decide (tm.1 = x)) downs)).
  { intros r Hr. apply list_elem_of_In, in_map_iff. exists (x, System (Down r pid reason)). split; [done|].
    apply filter_In. split; [|by apply bool_decide_eq_true]. unfold downs. cbn. apply in_map_iff.
    exists (r, x). split; [done|]. by apply list_elem_of_In. }
  destruct (H5 _ H3') as (_ & p' & Hp' & Hms & _). exists p'. split_and!; [exact Hp'|..].
  - intros r Hr. apply Hms, elem_of_app. left. by apply Hdown.
  - intros Hin Ht. destruct (Htrap Ht) as (p2 & Hp2 & Ht2).
    destruct (H5 _ (H3 x p2 eq_refl Hin Hp2 Ht2)) as (_ & p3 & Hp3 & Hms3 & _).
    rewrite Hp' in Hp3. simplify_eq. apply Hms3. rewrite elem_of_app, elem_of_cons. auto.
  - intros m Hm. apply Hms, elem_of_app. by right.
Qed.
End monitors.

Module SchedMonitorWitness.
Import Sample.

Definition watched : list Call :=
  [CSpawn Sink "" NormalPriority; CSpawn (Parent true true) "" NormalPriority;
   CMonitor P0 P1; CLink P1 P0; CTrapExit P0 true; CSend P1 (Text "child"); CTick; CTick].
Definition watched_state := default fresh (fst <$> run watched).

Lemma monitors_symmetric_witness :
  (1, P1) ∈ monitors_of P0 watched_state /\
  ((1, P1) ∈ monitors_of P0 watched_state <-> (1, P0) ∈ monitored_by_of P1 watched_state).
Proof.
  split; [vm_compute; left|].
  apply (monitors_symmetric 10 watched tt watched_state tt).
  - repeat constructor.
  - vm_compute. discriminate.
  - vm_compute. reflexivity.
Defined.

Lemma deaths_announced_witness :
  exists p', lookup_proc P0 (terminate_core P1 (CustomReason "x") watched_state tt).1.1 = Some p' /\
    System (Down 1 P1 (CustomReason "x")) ∈ p_mailbox p' /\
    System (Exit P1 (CustomReason "x")) ∈ p_mailbox p'.
Proof.
  assert (Hq : exists q, lookup_proc P1 watched_state = Some q /\ p_monitored_by q = [(1, P0)] /\
    P0 ∈ p_links q /\ length (p_links q) = 2%nat) by (eexists; split; [vm_compute; reflexivity|];
      split; [vm_compute; reflexivity|]; split; [vm_compute; left|reflexivity]).
  assert (Hp : exists p, lookup_proc P0 watched_state = Some p /\ p_trap_exit p = true /\
    p_mailbox p = [] /\ p_mailbox_capacity p = DEFAULT_MAILBOX_CAPACITY) by
    (eexists; split; [vm_compute; reflexivity|]; split_and!; vm_compute; reflexivity).
  destruct Hq as (q & Hq & Hb & Hin & Hl). destruct Hp as (p & Hp & Ht & Hm & Hc).
  destruct (deaths_announced P1 (CustomReason "x") watched_state tt q P0 p) as (p' & Hp' & Hd & He & _);
    [vm_compute; reflexivity|done|done|done|rewrite Hm, Hc, Hl, Hb; vm_compute; lia|].
  exists p'. split; [done|]. split; [apply Hd; rewrite Hb; left|by apply He].
Defined.
End SchedMonitorWitness.
