(* ===== verification/AgentWorker.v ===== *)
(** The process around one agent ([agent_rt/agent_worker.rs]) and the spawning of configured
    agents ([agent_rt/startup.rs]): an instance of the behavior class, run on the scheduler. *)
From S2P Require Import Prelude Json Types Process DeadLetter Scheduler SchedFacts SchedWake SchedSample.

(** * The behavior *)

Record AgentWorkerState (V : Type) : Type := mkAgentWorker {
  aw_busy : bool;
  aw_last_requester : option AgentPid;
  aw_pending_messages : list (Message V)
}.
Arguments mkAgentWorker {V}.
Arguments aw_busy {V}.
Arguments aw_last_requester {V}.
Arguments aw_pending_messages {V}.

Record AgentWorkerBehavior : Type := mkAgentWorkerBehavior {
  awb_name : string;
  awb_provider : string;
  awb_model : option string;
  awb_system_prompt : option string;
  awb_tools : list string;
  awb_max_iterations : option Z;
  awb_timeout_ms : option Z
}.

Section worker.
Context {V B : Type} `{JL : JsonLib V}.
Implicit Types (s : AgentWorkerState V) (msg : Message V) (b : AgentWorkerBehavior).

Definition make_chat_op b (prompt : string) : IoOp V :=
  AgentChat (awb_provider b) (awb_model b) (awb_system_prompt b) prompt
    (match awb_tools b with [] => None | tools => Some tools end) (awb_max_iterations b) (awb_timeout_ms b).

Definition agent_worker_init : AgentWorkerState V := mkAgentWorker false None [].

(** [Vec::pop]: the last element. *)
Definition pop_last {A} (l : list A) : option (A * list A) :=
  match rev l with [] => None | x :: r => Some (x, rev r) end.

(** A prompt: it waits while the agent is busy, otherwise it becomes the request. *)
Definition take_prompt b msg (prompt : string) s : Action V B * AgentWorkerState V :=
  if aw_busy s then (Continue, mkAgentWorker true (aw_last_requester s) (aw_pending_messages s ++ [msg]))
  else (IoRequest (make_chat_op b prompt), mkAgentWorker true (aw_last_requester s) (aw_pending_messages s)).

(** [handle_message], on fuel: after a response it calls itself on the message that waited. *)
Fixpoint agent_worker_message (fuel : nat) b msg s : option (Action V B * AgentWorkerState V) :=
  match fuel with
  | O => None
  | S fuel =>
      match msg with
      | System (IoResponse _ _) =>
          match pop_last (aw_pending_messages s) with
          | Some (next, rest) => agent_worker_message fuel b next (mkAgentWorker false (aw_last_requester s) rest)
          | None => Some (Continue, mkAgentWorker false (aw_last_requester s) [])
          end
      | Text prompt => Some (take_prompt b msg prompt s)
      | Json val =>
          let prompt := default EmptyString (jget_str val "prompt") in
          if decide (prompt = EmptyString) then Some (Continue, s) else Some (take_prompt b msg prompt s)
      | System _ => Some (Continue, s)
      end
  end.

(** Every call takes a message off the pending ones. *)
Definition worker_fuel s : nat := S (length (aw_pending_messages s)).

Definition worker_step b msg s : Action V B * AgentWorkerState V :=
  default (Continue, s) (agent_worker_message (worker_fuel s) b msg s).
End worker.

#[export] Instance agent_worker {V W} `{JsonLib V} : AgentBehavior V AgentWorkerBehavior (AgentWorkerState V) W := {
  b_init _ _ w := (Ok agent_worker_init, w);
  b_handle_message b msg s w := (Returned (worker_step b msg s), w);
  b_handle_exit _ _ _ s w := (Returned (Continue, s), w);
  b_terminate _ _ _ w := w
}.

(** * Spawning from the configuration *)

Record AgentConfig : Type := mkAgentConfig {
  ac_name : string;
  ac_provider : string;
  ac_model : option string;
  ac_system_prompt : option string;
  ac_tools : list string;
  ac_auto_start : bool;
  ac_max_iterations : option Z;
  ac_timeout_ms : option Z
}.

Definition behavior_of (c : AgentConfig) : AgentWorkerBehavior :=
  mkAgentWorkerBehavior (ac_name c) (ac_provider c) (ac_model c) (ac_system_prompt c) (ac_tools c)
    (ac_max_iterations c) (ac_timeout_ms c).

Definition show_reason (r : Reason) : string :=
  match r with Normal => "Normal" | Shutdown => "Shutdown" | CustomReason m => "Custom(" +:+ JTree.dquote +:+ m +:+ JTree.dquote +:+ ")" end.

Section startup.
Context {V Br Hk H W : Type} `{JL : JsonLib V}.
Abbreviation Sched := (AgentScheduler V AgentWorkerBehavior (AgentWorkerState V) Br Hk H).
Implicit Types (s : Sched) (w : W).

(** The loop of [spawn_configured_agents]; what was spawned before an error stays. *)
Fixpoint spawn_configured (agents : list AgentConfig) (spawned : list (AgentPid * string)) s w
    : result (list (AgentPid * string)) string * Sched * W :=
  match agents with
  | [] => (Ok spawned, s, w)
  | cfg :: agents =>
      if negb (ac_auto_start cfg) then spawn_configured agents spawned s w
      else
        match spawn (behavior_of cfg) (json_object []) s w with
        | (Err r, s, w) => (Err ("Failed to spawn agent '" +:+ ac_name cfg +:+ "': " +:+ show_reason r), s, w)
        | (Ok pid, s, w) =>
            match register_name (ac_name cfg) pid (s_registry s) with
            | (Err e, reg) => (Err ("Failed to register agent '" +:+ ac_name cfg +:+ "': " +:+ e), upd_registry reg s, w)
            | (Ok _, reg) => spawn_configured agents (spawned ++ [(pid, ac_name cfg)]) (upd_registry reg s) w
            end
        end
  end.

Definition spawn_configured_agents (agents : list AgentConfig) s w := spawn_configured agents [] s w.
End startup.

(** * What the agent owes to its prompts *)

Section serves.
Context {V B : Type} `{JL : JsonLib V}.
Implicit Types (s : AgentWorkerState V) (msg : Message V) (b : AgentWorkerBehavior) (act : Action V B).

(** The prompt a message carries, if it is one. *)
Definition prompt_of msg : option string :=
  match msg with
  | Text p => Some p
  | Json val => let p := default EmptyString (jget_str val "prompt") in if decide (p = EmptyString) then None else Some p
  | System _ => None
  end.
Definition is_response msg : bool := match msg with System (IoResponse _ _) => true | _ => false end.

(** The prompt of the request an action is, if it is one. *)
Definition asked_by act : option string :=
  match act with IoRequest (AgentChat _ _ _ p _ _ _) => Some p | _ => None end.

(** A run: the actions, how many responses found the agent busy, and the state after. *)
Fixpoint worker_run b (msgs : list (Message V)) s : list (Action V B) * nat * AgentWorkerState V :=
  match msgs with
  | [] => ([], O, s)
  | msg :: msgs =>
      let '(act, s') := worker_step b msg s in
      let '(acts, n, s'') := worker_run b msgs s' in
      (act :: acts, if is_response msg && aw_busy s then S n else n, s'')
  end.

(** An idle agent keeps nobody waiting; whatever waits is a prompt. *)
Definition worker_ok s : Prop :=
  (aw_busy s = false -> aw_pending_messages s = []) /\ Forall (fun m => is_Some (prompt_of m)) (aw_pending_messages s).
Definition waiting s : list string := omap prompt_of (aw_pending_messages s).
Definition flight s : nat := if aw_busy s then 1%nat else 0%nat.

Lemma prompt_step fuel b msg p s : prompt_of msg = Some p -> agent_worker_message (B := B) (S fuel) b msg s = Some (take_prompt b msg p s).
Proof. destruct msg as [t|v|m]; cbn; intros; [by simplify_eq | by case_decide; simplify_eq | done]. Qed.

Lemma pop_last_app {A} (l : list A) x : pop_last (l ++ [x]) = Some (x, l).
Proof. unfold pop_last. rewrite rev_app_distr. cbn. by rewrite rev_involutive. Qed.

(** Enough fuel gives the result. *)
Lemma agent_worker_total b msg s : worker_ok s -> agent_worker_message (B := B) (worker_fuel s) b msg s = Some (worker_step b msg s).
Proof.
  intros [_ Hp]. unfold worker_step. destruct (agent_worker_message _ b msg s) eqn:E; [done|]. exfalso. revert E.
  unfold worker_fuel. destruct (prompt_of msg) as [p|] eqn:Hm; [by rewrite (prompt_step _ _ _ p)|].
  destruct msg as [t|v|[]]; try done; cbn in *; [by case_decide|].
  destruct (aw_pending_messages s) as [|m l _] using rev_ind; [done|]. rewrite pop_last_app.
  apply Forall_app in Hp as [_ Hp]. inversion_clear Hp as [|? ? [q Hq]]. rewrite length_app. cbn [length].
  rewrite Nat.add_1_r. by rewrite (prompt_step _ _ _ q).
Qed.

Lemma worker_step_spec b msg s act s' : worker_ok s -> worker_step (B := B) b msg s = (act, s') ->
  worker_ok s' /\ option_list (asked_by act) ++ waiting s' ≡ₚ waiting s ++ option_list (prompt_of msg) /\
  (length (option_list (asked_by act)) + flight s = (if is_response msg && aw_busy s then 1 else 0) + flight s')%nat.
Proof.
  intros Hs E. pose proof (agent_worker_total b msg s Hs) as T. rewrite E in T. clear E. destruct Hs as [Hi Hp].
  destruct (prompt_of msg) as [p|] eqn:Hm.
  - unfold worker_fuel in T. rewrite (prompt_step _ _ _ p _ Hm) in T. unfold take_prompt in T.
    assert (is_response msg = false) as -> by (by destruct msg as [| |[]]).
    unfold flight, waiting, worker_ok. destruct (aw_busy s) eqn:Hb; simplify_eq/=; rewrite ?Hb.
    + split_and!; [done| |by rewrite omap_app; cbn; rewrite Hm|done]. apply Forall_app_2; [done|]. constructor; [by rewrite Hm|done].
    + rewrite Hi by done. by split_and!.
  - destruct msg as [t|v|m]; [done| |].
    + cbn in T, Hm. case_decide; simplify_eq. cbn. by rewrite app_nil_r.
    + destruct m; try (cbn in T; simplify_eq/=; by rewrite app_nil_r).
      cbn [is_response andb]. unfold worker_fuel, flight, waiting, worker_ok in *. cbn in T.
      destruct (aw_pending_messages s) as [|m l _] eqn:El using rev_ind.
      { cbn in T. simplify_eq/=. by destruct (aw_busy s). }
      destruct (aw_busy s) eqn:Hb; [|by destruct l; discriminate (Hi eq_refl)].
      rewrite pop_last_app in T. apply Forall_app in Hp as [Hl Hp]. inversion_clear Hp as [|? ? [q Hq] _].
      rewrite length_app in T. cbn [length] in T. rewrite Nat.add_1_r, (prompt_step _ _ _ q _ Hq) in T.
      unfold take_prompt in T. cbn in T. simplify_eq/=. split_and!; [done|done| |done]. rewrite omap_app. cbn. by rewrite Hq, app_nil_r, Permutation_cons_append.
Qed.

Lemma worker_run_spec b msgs s acts n s' : worker_ok s -> worker_run b msgs s = (acts, n, s') ->
  worker_ok s' /\ omap asked_by acts ++ waiting s' ≡ₚ waiting s ++ omap prompt_of msgs /\
  (length (omap asked_by acts) + flight s = n + flight s')%nat.
Proof.
  revert s acts n. induction msgs as [|msg msgs IH]; intros s acts n Hs E; cbn [worker_run] in E.
  { simplify_eq. cbn. by rewrite app_nil_r. }
  destruct (worker_step b msg s) as [act s1] eqn:E1, (worker_run b msgs s1) as [[acts1 n1] s2] eqn:E2. simplify_eq.
  apply worker_step_spec in E1 as (H1 & P1 & C1); [|done]. apply IH in E2 as (H2 & P2 & C2); [|done].
  assert (omap asked_by (act :: acts1) = option_list (asked_by act) ++ omap asked_by acts1) as -> by (cbn; by destruct (asked_by act)).
  assert (omap prompt_of (msg :: msgs) = option_list (prompt_of msg) ++ omap prompt_of msgs) as -> by (cbn; by destruct (prompt_of msg)).
  split_and!; [done| |rewrite length_app; destruct (is_response msg && aw_busy s); lia].
  by rewrite <- app_assoc, P2, (assoc_L app), P1, <- (assoc_L app).
Qed.

(** C36: No prompt is lost or answered twice by the agent's process.  Whatever messages it is
    given, the prompts it has asked the model for and those it keeps are the prompts it was
    sent; it never has more than one request under way, and an idle agent keeps nothing. *)
Theorem prompts_served_once b msgs acts n s' : worker_run b msgs agent_worker_init = (acts, n, s') ->
  omap asked_by acts ++ waiting s' ≡ₚ omap prompt_of msgs /\
  length (omap asked_by acts) = (n + if aw_busy s' then 1 else 0)%nat /\ (aw_busy s' = false -> waiting s' = []).
Proof.
  intros E. apply worker_run_spec in E as ([Hi _] & P & C); [|by split].
  split_and!; [done|cbn in C; unfold flight in C; lia|]. intros Hb. unfold waiting. by rewrite Hi.
Qed.
End serves.

(** * Runs *)

Module AgentWorkerWitness.
#[local] Existing Instance map_to_list_order.
Definition agent : AgentWorkerBehavior := mkAgentWorkerBehavior "helper" "openrouter" None None [] None None.
Definition answer (n : Z) : Message JTree.t := System (IoResponse n (IoOk (JTree.Obj [("response", JTree.Str "hi")]))).
Definition prompts : list (Message JTree.t) := [Text "a"; Text "b"; Text "c"; answer 0; answer 1; answer 2].
Definition asked : list string := omap asked_by (worker_run (B := AgentWorkerBehavior) agent prompts agent_worker_init).1.1.

Lemma prompts_served_once_witness :
  asked ++ waiting (worker_run (B := AgentWorkerBehavior) agent prompts agent_worker_init).2 ≡ₚ ["a"; "b"; "c"] /\ length asked = 3%nat.
Proof.
  destruct (prompts_served_once (B := AgentWorkerBehavior) agent prompts
    (worker_run (B := AgentWorkerBehavior) agent prompts agent_worker_init).1.1 3 agent_worker_init) as (P & C & _); [vm_compute; reflexivity|].
  split; [exact P|exact C].
Defined.

(** The last that came is served first. *)
Lemma newest_first : asked = ["a"; "c"; "b"].
Proof. vm_compute. reflexivity. Qed.

(** ** On the scheduler

    The bridge of the sample takes everything ([true]) or nothing ([false]). *)
#[local] Instance bridge : BridgeOps JTree.t bool := {|
  bridge_submit := fun _ _ (b : bool) => (if b then Ok 0 else Err "request queue full", b);
  bridge_cancel := fun _ b => (false, b);
  bridge_drain_responses := fun b => ([], b);
  bridge_shutdown := fun _ b => (Ok tt, b)
|}.
#[local] Instance hook : MessageHook JTree.t Empty_set unit := fun h _ _ _ => match h with end.
#[local] Instance handler : ExitHandler JTree.t AgentWorkerBehavior (AgentWorkerState JTree.t) bool Empty_set Empty_set unit :=
  fun h _ _ _ _ => match h with end.
#[local] Instance clock : Clock := fun n => Z.of_nat n.

Definition Call : Type := SchedCall JTree.t AgentWorkerBehavior bool Empty_set Empty_set.
Definition fresh : AgentScheduler JTree.t AgentWorkerBehavior (AgentWorkerState JTree.t) bool Empty_set Empty_set :=
  scheduler_new NEXT_AGENT_PID NEXT_MONITOR_REF.
Definition calls : list Call :=
  [CBridge (Some false); CSpawn agent JTree.Null NormalPriority; CSend NEXT_AGENT_PID (Text "hello"); CTick; CTick; CTick;
   CBridge (Some true); CSend NEXT_AGENT_PID (Text "again"); CTick; CTick].
Definition state_after (cs : list Call) : option (AgentWorkerState JTree.t) :=
  '(s, _) ← sched_run 10 cs fresh tt; p ← lookup_proc NEXT_AGENT_PID s; p_state p.

(** A request that the bridge refuses comes back as a text; the agent is still busy with it, so
    the error is put among the prompts, and every later prompt waits for ever. *)
Lemma refused_request_wedges : state_after calls = Some (mkAgentWorker true None [Text "request queue full"; Text "again"]).
Proof. vm_compute. reflexivity. Qed.

Definition config (name : string) : AgentConfig := mkAgentConfig name "openrouter" None None [] true None None.

(** A second agent of one name: the call fails, both processes stay, and nobody is told their pids. *)
Lemma failed_start_leaves_processes :
  exists e s w, spawn_configured_agents [config "a"; config "a"] fresh tt = (Err e, s, w) /\
    registry_count (s_registry s) = 2%nat /\ queued s = [].
Proof. eexists _, _, _. split; [vm_compute; reflexivity|]. split; vm_compute; reflexivity. Qed.
End AgentWorkerWitness.
