(* ===== verification/Supervision.v ===== *)
(** Supervisors ([agent_rt/supervision.rs]): children restarted by strategy, within a
    restart intensity, through the scheduler's exit handlers. *)
From S2P Require Import Prelude Float64 Types Process DeadLetter Scheduler SchedFacts SchedWake SchedSample SchedTerm.

Inductive RestartStrategy : Type :=
| OneForOne
| OneForAll
| RestForOne.

Inductive ChildRestart : Type :=
| Permanent
| Transient
| Temporary.

Inductive BackoffStrategy : Type :=
| BackoffNone
| BackoffFixed (delay_ms : Z)
| BackoffExponential (base_ms max_ms : Z) (multiplier : f64).

Definition BackoffStrategy_default : BackoffStrategy := BackoffNone.

(** [f64::powi], whose rounding the standard library leaves unspecified. *)
Class Powi : Type := f64_powi : f64 -> Z -> f64.

Definition delay_for_attempt `{Powi} (b : BackoffStrategy) (attempt : Z) : Z :=
  match b with
  | BackoffNone => 0
  | BackoffFixed delay_ms => delay_ms
  | BackoffExponential base_ms max_ms multiplier =>
      let delay := f64_mul (f64_of_Z base_ms) (f64_powi multiplier (as_i32 attempt)) in
      let clamped := f64_to_u64 (f64_min delay (f64_of_Z max_ms)) in
      Z.min clamped max_ms
  end.

Record ChildSpec (V B : Type) : Type := mkChildSpec {
  cs_id : string;
  cs_behavior : B;
  cs_args : V;
  cs_restart : ChildRestart;
  cs_priority : Priority
}.
Arguments mkChildSpec {V B}.
Arguments cs_id {V B}.
Arguments cs_behavior {V B}.
Arguments cs_args {V B}.
Arguments cs_restart {V B}.
Arguments cs_priority {V B}.

Record SupervisorSpec (V B : Type) : Type := mkSupervisorSpec {
  ss_strategy : RestartStrategy;
  ss_max_restarts : Z;
  ss_max_seconds : Z;
  ss_children : list (ChildSpec V B);
  ss_backoff : BackoffStrategy
}.
Arguments mkSupervisorSpec {V B}.
Arguments ss_strategy {V B}.
Arguments ss_max_restarts {V B}.
Arguments ss_max_seconds {V B}.
Arguments ss_children {V B}.
Arguments ss_backoff {V B}.

Record RunningChild (V B : Type) : Type := mkRunningChild {
  rc_id : string;
  rc_pid : AgentPid;
  rc_spec : ChildSpec V B
}.
Arguments mkRunningChild {V B}.
Arguments rc_id {V B}.
Arguments rc_pid {V B}.
Arguments rc_spec {V B}.

Record Supervisor (V B : Type) : Type := mkSupervisor {
  sup_strategy : RestartStrategy;
  sup_max_restarts : Z;
  sup_max_seconds : Z;
  sup_children : list (RunningChild V B);
  sup_restart_timestamps : list Instant;
  sup_shutdown : bool;
  sup_backoff : BackoffStrategy;
  sup_restart_counts : gmap string Z
}.
Arguments mkSupervisor {V B}.
Arguments sup_strategy {V B}.
Arguments sup_max_restarts {V B}.
Arguments sup_max_seconds {V B}.
Arguments sup_children {V B}.
Arguments sup_restart_timestamps {V B}.
Arguments sup_shutdown {V B}.
Arguments sup_backoff {V B}.
Arguments sup_restart_counts {V B}.

Section supervisor.
Context {V B St Br Hk H W : Type} `{AB : AgentBehavior V B St W} `{BO : BridgeOps V Br}.
Context `{MH : MessageHook V Hk W} `{EH : ExitHandler V B St Br Hk H W} `{CK : Clock} `{HO : HashOrder}.
Context `{PW : Powi}.
Abbreviation Sched := (AgentScheduler V B St Br Hk H).
Implicit Types (s : Sched) (w : W) (sup : Supervisor V B) (spec : ChildSpec V B).

Definition with_children (cs : list (RunningChild V B)) sup : Supervisor V B :=
  mkSupervisor (sup_strategy sup) (sup_max_restarts sup) (sup_max_seconds sup) cs
    (sup_restart_timestamps sup) (sup_shutdown sup) (sup_backoff sup) (sup_restart_counts sup).
Definition with_timestamps (ts : list Instant) sup : Supervisor V B :=
  mkSupervisor (sup_strategy sup) (sup_max_restarts sup) (sup_max_seconds sup) (sup_children sup)
    ts (sup_shutdown sup) (sup_backoff sup) (sup_restart_counts sup).
Definition with_shutdown (b : bool) sup : Supervisor V B :=
  mkSupervisor (sup_strategy sup) (sup_max_restarts sup) (sup_max_seconds sup) (sup_children sup)
    (sup_restart_timestamps sup) b (sup_backoff sup) (sup_restart_counts sup).
Definition with_restart_counts (m : gmap string Z) sup : Supervisor V B :=
  mkSupervisor (sup_strategy sup) (sup_max_restarts sup) (sup_max_seconds sup) (sup_children sup)
    (sup_restart_timestamps sup) (sup_shutdown sup) (sup_backoff sup) m.

(** [spawn_child]; the child is started through [scheduler.registry]. *)
Definition spawn_child spec s w : option (RunningChild V B) * Sched * W :=
  match spawn (cs_behavior spec) (cs_args spec) s w with
  | (Ok pid, s, w) =>
      let s := alter_proc (with_priority (cs_priority spec)) pid s in
      (Some (mkRunningChild (cs_id spec) pid spec), enqueue pid s, w)
  | (Err _, s, w) => (None, s, w)
  end.

(** The loop of [start]; [?] leaves the loop at the first failing child. *)
Fixpoint start_children (specs : list (ChildSpec V B)) (children : list (RunningChild V B)) s w
    : result (list (RunningChild V B)) Reason * Sched * W :=
  match specs with
  | [] => (Ok children, s, w)
  | spec :: specs =>
      match spawn (cs_behavior spec) (cs_args spec) s w with
      | (Ok pid, s, w) =>
          let s := enqueue pid (alter_proc (with_priority (cs_priority spec)) pid s) in
          start_children specs (children ++ [mkRunningChild (cs_id spec) pid spec]) s w
      | (Err e, s, w) => (Err e, s, w)
      end
  end.

Definition start (spec : SupervisorSpec V B) s w : result (Supervisor V B) Reason * Sched * W :=
  match start_children (ss_children spec) [] s w with
  | (Ok children, s, w) =>
      (Ok (mkSupervisor (ss_strategy spec) (ss_max_restarts spec) (ss_max_seconds spec) children []
             false (ss_backoff spec) ∅), s, w)
  | (Err e, s, w) => (Err e, s, w)
  end.

Definition is_shutdown sup : bool := sup_shutdown sup.
Definition children_pids sup : list AgentPid := map rc_pid (sup_children sup).

Definition pending_restart_delay (child_id : string) sup : Z :=
  delay_for_attempt (sup_backoff sup) (default 0 (sup_restart_counts sup !! child_id)).

Definition increment_restart_count (child_id : string) sup : Supervisor V B :=
  with_restart_counts
    (<[child_id := wrap32 (default 0 (sup_restart_counts sup !! child_id) + 1)]> (sup_restart_counts sup)) sup.

Definition seconds (n : Z) : Duration := n * 1000000000.

(** [exceeds_max_restarts], at the instant [now]. *)
Definition exceeds_at (now : Instant) sup : bool * Supervisor V B :=
  let ts := retain (fun t => sat_sub now t <=? seconds (sup_max_seconds sup))
              (sup_restart_timestamps sup ++ [now]) in
  (sup_max_restarts sup <? wrap32 (Z.of_nat (length ts)), with_timestamps ts sup).

Definition exceeds_max_restarts sup s : bool * Supervisor V B * Sched :=
  let '(now, s) := read_clock s in
  let '(b, sup) := exceeds_at now sup in
  (b, sup, s).

(** [None] where the source would panic on an index out of range. *)
Definition restart_one (idx : nat) sup s w : option (Supervisor V B * Sched * W) :=
  '(dead, rest) ← vec_remove idx (sup_children sup);
  let sup := increment_restart_count (rc_id dead) (with_children rest sup) in
  match spawn_child (rc_spec dead) s w with
  | (Some new, s, w) => Some (with_children (vec_insert idx new (sup_children sup)) sup, s, w)
  | (None, s, w) => Some (sup, s, w)
  end.

(** The two loops shared by [restart_all] and [restart_rest]. *)
Definition terminate_others (fuel : nat) (dead_pid : AgentPid) (children : list (RunningChild V B)) s w
    : option (Sched * W) :=
  fold_opt (fun '(s, w) child =>
    if decide (rc_pid child <> dead_pid) then terminate_process fuel (rc_pid child) Shutdown s w
    else Some (s, w)) (s, w) children.

Fixpoint respawn (specs : list (ChildSpec V B)) sup s w : Supervisor V B * Sched * W :=
  match specs with
  | [] => (sup, s, w)
  | spec :: specs =>
      let sup := increment_restart_count (cs_id spec) sup in
      match spawn_child spec s w with
      | (Some new, s, w) => respawn specs (with_children (sup_children sup ++ [new]) sup) s w
      | (None, s, w) => respawn specs sup s w
      end
  end.

Definition restart_all (fuel : nat) (dead_idx : nat) sup s w : option (Supervisor V B * Sched * W) :=
  dead ← sup_children sup !! dead_idx;
  let specs := map rc_spec (sup_children sup) in
  '(s, w) ← terminate_others fuel (rc_pid dead) (sup_children sup) s w;
  Some (respawn specs (with_children [] sup) s w).

Definition restart_rest (fuel : nat) (dead_idx : nat) sup s w : option (Supervisor V B * Sched * W) :=
  dead ← sup_children sup !! dead_idx;
  let rest := drop dead_idx (sup_children sup) in
  let specs := map rc_spec rest in
  let sup := with_children (take dead_idx (sup_children sup)) sup in
  '(s, w) ← terminate_others fuel (rc_pid dead) rest s w;
  Some (respawn specs sup s w).

Definition should_restart (restart : ChildRestart) (reason : Reason) : bool :=
  match restart with
  | Permanent => true
  | Transient => match reason with Normal | Shutdown => false | CustomReason _ => true end
  | Temporary => false
  end.

Definition handle_child_exit (fuel : nat) (pid : AgentPid) (reason : Reason) sup s w
    : option (Supervisor V B * Sched * W) :=
  if sup_shutdown sup then Some (sup, s, w)
  else
    match position (fun c => rc_pid c =? pid) (sup_children sup) with
    | None => Some (sup, s, w)
    | Some idx =>
        '(dead, rest) ← vec_remove idx (sup_children sup);
        if negb (should_restart (cs_restart (rc_spec dead)) reason) then
          Some (with_children rest sup, s, w)
        else
          let '(exceeded, sup, s) := exceeds_max_restarts sup s in
          if exceeded then Some (with_shutdown true sup, s, w)
          else
            match sup_strategy sup with
            | OneForOne => restart_one idx sup s w
            | OneForAll => restart_all fuel idx sup s w
            | RestForOne => restart_rest fuel idx sup s w
            end
    end.

(** ** Restart intensity *)

(** Whether the exit of [pid] makes the supervisor want to restart something. *)
Definition wants_restart (pid : AgentPid) (reason : Reason) sup : bool :=
  negb (sup_shutdown sup) &&
  match position (fun c => rc_pid c =? pid) (sup_children sup) with
  | Some idx => match sup_children sup !! idx with
                | Some c => should_restart (cs_restart (rc_spec c)) reason
                | None => false
                end
  | None => false
  end.

(** The life of a supervisor: exits handled one after the other, on whatever schedulers,
    as time goes by; and the instants of the restarts it performed. *)
Inductive sup_history (max_restarts max_seconds : Z) : Supervisor V B -> list Instant -> Prop :=
| history_start sup :
    sup_max_restarts sup = max_restarts -> sup_max_seconds sup = max_seconds ->
    sup_restart_timestamps sup = [] -> sup_history max_restarts max_seconds sup []
| history_exit sup log fuel pid reason s w sup' s' w' :
    sup_history max_restarts max_seconds sup log ->
    let now := clock_at (s_clock_reads s) in
    Forall (fun t => t <= now) log ->
    handle_child_exit fuel pid reason sup s w = Some (sup', s', w') ->
    sup_history max_restarts max_seconds sup'
      (if wants_restart pid reason sup && negb (sup_shutdown sup') then log ++ [now] else log).

Lemma spawn_child_sup specs sup s w :
  let '(sup', _, _) := respawn specs sup s w in
  sup_restart_timestamps sup' = sup_restart_timestamps sup /\ sup_shutdown sup' = sup_shutdown sup /\
  sup_max_restarts sup' = sup_max_restarts sup /\ sup_max_seconds sup' = sup_max_seconds sup /\
  sup_strategy sup' = sup_strategy sup.
Proof.
  revert sup s w. induction specs as [|spec specs IH]; intros sup s w; [done|]. cbn [respawn].
  destruct (spawn_child spec s w) as [[[c|] s1] w1].
  - specialize (IH (with_children (sup_children (increment_restart_count (cs_id spec) sup) ++ [c])
      (increment_restart_count (cs_id spec) sup)) s1 w1). by destruct (respawn _ _ _ _) as [[? ?] ?].
  - specialize (IH (increment_restart_count (cs_id spec) sup) s1 w1). by destruct (respawn _ _ _ _) as [[? ?] ?].
Qed.

(** What handling an exit does to the restart record. *)
Lemma handle_child_exit_record fuel pid reason sup s w sup' s' w' :
  handle_child_exit fuel pid reason sup s w = Some (sup', s', w') ->
  sup_max_restarts sup' = sup_max_restarts sup /\ sup_max_seconds sup' = sup_max_seconds sup /\
  (sup_shutdown sup = true -> sup_shutdown sup' = true) /\
  if wants_restart pid reason sup then
    let '(exceeded, sup1) := exceeds_at (clock_at (s_clock_reads s)) sup in
    sup_restart_timestamps sup' = sup_restart_timestamps sup1 /\
    sup_shutdown sup' = exceeded
  else sup_restart_timestamps sup' = sup_restart_timestamps sup /\ sup_shutdown sup' = sup_shutdown sup.
Proof.
  unfold handle_child_exit, wants_restart. destruct (sup_shutdown sup) eqn:Hsh; [intros; by simplify_eq|].
  destruct (position _ _) as [idx|]; [|intros; by simplify_eq]. cbn [negb andb].
  unfold vec_remove. destruct (sup_children sup !! idx) as [c|]; [|done]. cbn.
  destruct (should_restart _ _); cbn; [|intros; by simplify_eq].
  set (ts := retain _ _). set (sup1 := with_timestamps ts sup).
  destruct (_ <? _); [intros; by simplify_eq|].
  set (s1 := upd_clock_reads _ s). cbn [sup_strategy]. intros Hr.
  assert (Hgoal : sup_restart_timestamps sup' = ts /\ sup_shutdown sup' = false /\
    sup_max_restarts sup' = sup_max_restarts sup /\ sup_max_seconds sup' = sup_max_seconds sup); [|naive_solver].
  destruct (sup_strategy sup).
  - unfold restart_one in Hr. destruct (vec_remove idx (sup_children sup1)) as [[dead rest]|]; [|done].
    cbn in Hr. destruct (spawn_child _ _ _) as [[[c'|] s2] w2]; by simplify_eq/=.
  - unfold restart_all in Hr. destruct (sup_children sup1 !! idx) as [dead|]; [|done]. cbn [mbind option_bind] in Hr.
    match type of Hr with context [terminate_others ?a ?b ?c ?d ?e] =>
      destruct (terminate_others a b c d e) as [[s2 w2]|]; [|done] end. cbn [mbind option_bind] in Hr.
    pose proof (spawn_child_sup (map rc_spec (sup_children sup)) (with_children [] sup1) s2 w2) as Hs.
    destruct (respawn _ _ _ _) as [[? ?] ?]. simplify_eq. naive_solver.
  - unfold restart_rest in Hr. destruct (sup_children sup1 !! idx) as [dead|]; [|done]. cbn [mbind option_bind] in Hr.
    match type of Hr with context [terminate_others ?a ?b ?c ?d ?e] =>
      destruct (terminate_others a b c d e) as [[s2 w2]|]; [|done] end. cbn [mbind option_bind] in Hr.
    pose proof (spawn_child_sup (map rc_spec (drop idx (sup_children sup)))
      (with_children (take idx (sup_children sup)) sup1) s2 w2) as Hs.
    destruct (respawn _ _ _ _) as [[? ?] ?]. simplify_eq. naive_solver.
Qed.

(** The restarts within the closed window of [max_seconds] that starts at [a]. *)
Definition in_window (max_seconds : Z) (a t : Instant) : bool := (a <=? t) && (t <=? a + seconds max_seconds).
Definition restarts_in (max_seconds : Z) (a : Instant) (log : list Instant) : list Instant :=
  retain (in_window max_seconds a) log.

Record history_inv (mr ms : Z) sup (log : list Instant) : Prop := {
  hi_max : sup_max_restarts sup = mr;
  hi_secs : sup_max_seconds sup = ms;
  hi_ts : sup_shutdown sup = false ->
    exists last, Forall (fun t => t <= last) log /\ (log = [] \/ last ∈ log) /\
      sup_restart_timestamps sup = retain (fun t => sat_sub last t <=? seconds ms) log;
  hi_len : sup_shutdown sup = false -> Z.of_nat (length (sup_restart_timestamps sup)) <= Z.max 0 mr;
  hi_bound : forall a, Z.of_nat (length (restarts_in ms a log)) <= Z.max 0 mr
}.

Lemma history_inv_holds mr ms sup log :
  0 <= ms -> 0 <= mr < u32_max -> sup_history mr ms sup log -> history_inv mr ms sup log.
Proof.
  intros Hms Hmr Hh. induction Hh as [sup Hr Hs Ht|sup log fuel pid reason s w sup' s' w' Hh IH now Hnow Hx].
  { split; [done|done|intros _; exists 0|rewrite Ht; cbn; lia|intros; cbn; lia].
    rewrite Ht. split_and!; [constructor|by left|done]. }
  destruct IH as [I1 I2 I3 I4 I5]. apply handle_child_exit_record in Hx as (E1 & E2 & Hsh & Hw).
  destruct (wants_restart pid reason sup) eqn:Hwr; cbn [andb].
  2: { destruct Hw as [Et Es]. split; [congruence|congruence| | |done]; rewrite Es, Et; assumption. }
  assert (Hns : sup_shutdown sup = false).
  { unfold wants_restart in Hwr. by destruct (sup_shutdown sup). }
  fold now in Hw. unfold exceeds_at in Hw. destruct Hw as [Et Es].
  destruct (sup_shutdown sup') eqn:Hs'; cbn [negb].
  { split; [congruence|congruence|intros; congruence|intros; congruence|done]. }
  symmetry in Es. apply Z.ltb_ge in Es. cbn in Et.
  set (p := fun t => sat_sub now t <=? seconds (sup_max_seconds sup)) in *.
  destruct (I3 Hns) as (last & Hlast & Hin & Hts).
  assert (Hts' : sup_restart_timestamps sup' = retain p (log ++ [now])).
  { rewrite Et, Hts, !retain_app. f_equal. apply retain_retain. intros t Ht Hp. unfold p in Hp.
    rewrite I2 in Hp. apply Z.leb_le in Hp. apply Z.leb_le. unfold sat_sub in *.
    destruct Hin as [->|Hin]; [by apply not_elem_of_nil in Ht|].
    assert (last <= now) by (by eapply Forall_forall in Hnow). lia. }
  assert (Hlen : Z.of_nat (length (sup_restart_timestamps sup')) <= mr).
  { pose proof (retain_length p (sup_restart_timestamps sup ++ [now])) as Hl.
    rewrite length_app in Hl. cbn in Hl. specialize (I4 Hns).
    rewrite wrap32_small in Es; [rewrite Et; lia|]. unfold is_u32. lia. }
  split.
  - congruence.
  - congruence.
  - intros _. exists now. split_and!.
    + apply Forall_app. split; [done|]. constructor; [lia|constructor].
    + right. rewrite elem_of_app. right. by left.
    + rewrite Hts'. unfold p. by rewrite I2.
  - intros _. lia.
  - intros a. unfold restarts_in. rewrite retain_app. cbn.
    destruct (in_window ms a now) eqn:Hwin; [|rewrite app_nil_r; apply I5].
    etrans; [|etrans; [exact Hlen|lia]]. rewrite Hts', retain_app, !length_app. cbn.
    assert (Hpn : p now = true) by (unfold p, sat_sub; apply Z.leb_le; unfold seconds; lia).
    rewrite Hpn. cbn. apply inj_le. apply Nat.add_le_mono_r.
    unfold in_window in Hwin. apply andb_true_iff in Hwin as [Hw1 Hw2]. zify_bool.
    assert (Hsub : forall t, in_window ms a t = true -> p t = true).
    { intros t Ht. unfold in_window in Ht. apply andb_true_iff in Ht as [Ht1 Ht2]. zify_bool.
      unfold p, sat_sub. apply Z.leb_le. rewrite I2. unfold seconds in *. lia. }
    unfold retain. clear -Hsub. induction log as [|t log IHl]; [done|]. cbn.
    destruct (in_window ms a t) eqn:Ht; [rewrite (Hsub t Ht); cbn; lia|]. destruct (p t); cbn; lia.
Qed.

(** C13: restart intensity: however its children crash, a supervisor never performs more
    than [max_restarts] restarts within any [max_seconds] window; it shuts down
    instead. *)
Theorem restart_intensity mr ms sup log (a : Instant) :
  0 <= ms -> 0 <= mr < u32_max -> sup_history mr ms sup log ->
  Z.of_nat (length (restarts_in ms a log)) <= mr.
Proof.
  intros Hms Hmr Hh. destruct (history_inv_holds mr ms sup log Hms Hmr Hh) as [_ _ _ _ Hb].
  specialize (Hb a). lia.
Qed.

(** ** Respawning *)

(** A child that has just been started: registered, runnable, queued, as specified. *)
Definition started (c : RunningChild V B) s : Prop :=
  rc_pid c ∈ queued s /\
  exists p, lookup_proc (rc_pid c) s = Some p /\ p_behavior p = cs_behavior (rc_spec c) /\
    p_priority p = cs_priority (rc_spec c) /\ p_status p = Runnable /\ p_mailbox p = [].

(** Every [init] succeeds. *)
Definition inits_succeed : Prop := forall (b : B) (args : V) (w : W), is_ok (b_init b args w).1 = true.

Lemma spawn_child_spec spec s w :
  inits_succeed -> 0 <= s_next_pid s < u64_max ->
  exists s' w', spawn_child spec s w = (Some (mkRunningChild (cs_id spec) (s_next_pid s) spec), s', w') /\
    started (mkRunningChild (cs_id spec) (s_next_pid s) spec) s' /\
    (forall x, x <> s_next_pid s -> lookup_proc x s' = lookup_proc x s) /\
    (forall x, x ∈ queued s -> x ∈ queued s') /\
    s_next_pid s' = s_next_pid s + 1 /\ s_exit_handlers s' = s_exit_handlers s.
Proof.
  intros Hin Hnp. unfold spawn_child, spawn.
  pose proof (registry_spawn_cases (cs_behavior spec) (cs_args spec) (s_registry s) (s_next_pid s) w) as Hc.
  unfold registry_spawn, process_new, process_new_with_mailbox_capacity, fetch_add1 in *.
  specialize (Hin (cs_behavior spec) (cs_args spec) w).
  destruct (b_init (cs_behavior spec) (cs_args spec) w) as [[st|e] w'] eqn:Hb; [|done]. cbn in Hc |- *.
  clear Hc Hin Hb. set (p0 := mkProcess _ _ _ _ _ _ _ _ _ _ _ _ _ _).
  set (s1 := upd_next_pid _ _).
  assert (Hl : forall x, lookup_proc x s1 = if decide (x = s_next_pid s) then Some p0 else lookup_proc x s).
  { intros x. unfold lookup_proc, registry_lookup, s1. cbn. rewrite lookup_insert. repeat case_decide; congruence. }
  set (s2 := alter_proc (with_priority (cs_priority spec)) (s_next_pid s) s1).
  assert (Hl2 : lookup_proc (s_next_pid s) s2 = Some (with_priority (cs_priority spec) p0)).
  { unfold s2. rewrite lookup_alter_same, Hl, decide_True by done. done. }
  eexists _, _. split; [done|]. split_and!.
  - split; cbn [rc_pid rc_spec].
    + apply elem_of_enqueue. right. rewrite Hl2. eauto.
    + eexists. rewrite lookup_enqueue. split; [exact Hl2|]. done.
  - intros x Hx. rewrite lookup_enqueue. unfold s2. rewrite lookup_alter_ne by done. by rewrite Hl, decide_False.
  - intros x Hx. apply elem_of_enqueue. by left.
  - destruct (enqueue_frame (s_next_pid s) s2) as (_ & _ & -> & _). cbn. apply wrap64_small. unfold is_u64. lia.
  - by destruct (enqueue_frame (s_next_pid s) s2) as (_ & _ & _ & _ & -> & _).
Qed.

Lemma started_mono c s s' :
  lookup_proc (rc_pid c) s' = lookup_proc (rc_pid c) s -> (forall x, x ∈ queued s -> x ∈ queued s') ->
  started c s -> started c s'.
Proof. intros Hl Hq [H1 H2]. split; [auto|]. by rewrite Hl. Qed.

Lemma respawn_spec specs sup s w :
  inits_succeed -> 0 <= s_next_pid s -> s_next_pid s + Z.of_nat (length specs) <= u64_max ->
  exists new sup' s' w', respawn specs sup s w = (sup', s', w') /\
    sup_children sup' = sup_children sup ++ new /\ map rc_spec new = specs /\
    Forall (fun c => started c s' /\ s_next_pid s <= rc_pid c) new /\
    (forall x, x < s_next_pid s -> lookup_proc x s' = lookup_proc x s) /\
    (forall x, x ∈ queued s -> x ∈ queued s') /\
    s_exit_handlers s' = s_exit_handlers s /\ sup_shutdown sup' = sup_shutdown sup.
Proof.
  intros Hin. revert sup s w. induction specs as [|spec specs IH]; intros sup s w H0 Hb; cbn [respawn length] in *.
  { exists [], sup, s, w. rewrite app_nil_r. split_and!; try done. }
  destruct (spawn_child_spec spec s w Hin ltac:(lia)) as (s1 & w1 & -> & Hst & Hl & Hq & Hn & He).
  set (c := mkRunningChild (cs_id spec) (s_next_pid s) spec) in *.
  set (sup1 := with_children (sup_children (increment_restart_count (cs_id spec) sup) ++ [c])
    (increment_restart_count (cs_id spec) sup)).
  destruct (IH sup1 s1 w1) as (new & sup' & s' & w' & Hr & Hc & Hm & Hf & Hl' & Hq' & He' & Hsh); [lia|lia|].
  exists (c :: new), sup', s', w'. split_and!.
  - done.
  - rewrite Hc. cbn. by rewrite <- app_assoc.
  - cbn. by rewrite Hm.
  - constructor.
    + split; [|cbn; lia]. apply started_mono with s1; [apply Hl'; cbn; lia|exact Hq'|exact Hst].
    + eapply Forall_impl; [exact Hf|]. cbn. intros c' [? ?]. split; [done|lia].
  - intros x Hx. rewrite Hl' by lia. apply Hl. lia.
  - auto.
  - congruence.
  - done.
Qed.

(** ** Terminating the siblings *)

Lemma dies_unlinked reason s pid x : linked s ≡ ∅ -> dies reason s pid x -> x = pid.
Proof.
  intros Hl Hd. induction Hd as [|x y ls trap Hd IH Ha Hy Hw]; [done|].
  exfalso. assert (x ∈ linked s); [|set_solver]. apply elem_of_linked. exists ls, trap.
  split; [done|]. intros ->. by apply not_elem_of_nil in Hy.
Qed.

(** Without links and exit handlers, terminating some processes removes just them. *)
Lemma terminate_others_spec fuel dead children s w :
  s_exit_handlers s = [] -> linked s ≡ ∅ -> (0 < fuel)%nat ->
  exists s' w', terminate_others fuel dead children s w = Some (s', w') /\
    s_exit_handlers s' = [] /\ linked s' ≡ ∅ /\ s_next_pid s' = s_next_pid s /\
    (forall x, attrs x s' = attrs x s \/ attrs x s' = None) /\
    (forall x, attrs x s' = None -> attrs x s = None \/ x ∈ map rc_pid children) /\
    (forall c, c ∈ children -> rc_pid c <> dead -> attrs (rc_pid c) s' = None).
Proof.
  intros He Hl Hf. unfold terminate_others. revert s w He Hl.
  induction children as [|c children IH]; intros s w He Hl.
  { exists s, w. split_and!; auto. by intros c ?%not_elem_of_nil. }
  cbn [fold_opt]. case_decide as Hne.
  2: { destruct (IH s w He Hl) as (s' & w' & Hx & He' & Hl' & Hn' & F & S & G). exists s', w'.
    split_and!; try done; [intros x Hx'; destruct (S x Hx'); [auto|right; by right]|].
    intros c' [->|Hc']%elem_of_cons Hd; [|auto]. by destruct Hne. }
  destruct (terminate_total_nil fuel (rc_pid c) Shutdown s w He) as (s1 & w1 & Ht & Hs1 & He1).
  { rewrite Hl, size_empty. done. }
  pose proof (terminate_cascaded _ _ _ _ _ _ _ He Ht) as [[F1 G1 S1 C1] _]. rewrite Ht. cbn.
  apply terminate_counters in Ht as [Ht _]; [|done]. assert (Hl1 : linked s1 ≡ ∅) by set_solver.
  destruct (IH s1 w1 He1 Hl1) as (s' & w' & Hx & He' & Hl' & Hn' & F & S & G). exists s', w'. split_and!; try done.
  - congruence.
  - intros x. destruct (F x), (F1 x); intuition congruence.
  - intros x Hx'. destruct (S x Hx') as [Hx1|Hin]; [|right; by right].
    destruct (S1 x Hx1) as [?|Hd]; [by left|]. right. apply dies_unlinked in Hd as ->; [by left|done].
  - intros c' [->|Hc']%elem_of_cons Hd; [|auto]. destruct (F (rc_pid c)); congruence.
Qed.

(** ** A restart *)

(** Which children a strategy replaces when the one at [idx] has died. *)
Definition replaced (strategy : RestartStrategy) (idx i : nat) : bool :=
  match strategy with
  | OneForOne => (i =? idx)%nat
  | OneForAll => true
  | RestForOne => (idx <=? i)%nat
  end.

Definition registered (x : AgentPid) s : Prop := is_Some (lookup_proc x s).

Lemma registered_attrs x s : registered x s <-> attrs x s <> None.
Proof. unfold registered, attrs. destruct (lookup_proc x s); cbn; [|by split; [intros []|]]. split; [done|eauto]. Qed.

(** The result of a restart: the same specifications in the same order; the replaced
    children freshly started, the others untouched. *)
Definition restarted (strategy : RestartStrategy) (idx : nat) sup s sup' s' : Prop :=
  map rc_spec (sup_children sup') = map rc_spec (sup_children sup) /\
  sup_shutdown sup' = false /\
  forall i c', sup_children sup' !! i = Some c' ->
    if replaced strategy idx i then started c' s' /\ s_next_pid s <= rc_pid c'
    else sup_children sup !! i = Some c' /\ (registered (rc_pid c') s -> registered (rc_pid c') s').

Lemma vec_insert_lookup {A} idx (x : A) l i y :
  (idx <= length l)%nat -> vec_insert idx x l !! i = Some y ->
  if (i =? idx)%nat then y = x else l !! (if (i <? idx)%nat then i else (i - 1)%nat) = Some y.
Proof.
  unfold vec_insert. intros Hle Hl. destruct (decide (i < idx)%nat) as [Hlt|Hge].
  - rewrite lookup_app_l in Hl by (rewrite length_take; lia). rewrite lookup_take in Hl.
    rewrite (proj2 (Nat.eqb_neq i idx)), (proj2 (Nat.ltb_lt i idx)) by lia.
    by case_decide.
  - rewrite lookup_app_r in Hl by (rewrite length_take; lia). rewrite length_take, Nat.min_l in Hl by lia.
    rewrite (proj2 (Nat.ltb_ge i idx)) by lia. destruct (decide (i = idx)) as [->|Hne].
    + rewrite Nat.sub_diag in Hl. rewrite Nat.eqb_refl. cbn in Hl. congruence.
    + rewrite (proj2 (Nat.eqb_neq i idx)) by lia.
      replace (i - idx)%nat with (Datatypes.S (i - idx - 1)) in Hl by lia.
      change (drop idx l !! (i - idx - 1)%nat = Some y) in Hl.
      rewrite lookup_drop in Hl. by replace (idx + (i - idx - 1))%nat with (i - 1)%nat in Hl by lia.
Qed.

Lemma registered_mono s s' x :
  (forall x, attrs x s' = attrs x s \/ attrs x s' = None) ->
  registered x s' -> registered x s.
Proof. rewrite !registered_attrs. intros Hf. destruct (Hf x); congruence. Qed.

Lemma restart_one_spec idx sup s w :
  inits_succeed -> s_exit_handlers s = [] -> 0 <= s_next_pid s < u64_max ->
  Forall (fun c => rc_pid c < s_next_pid s) (sup_children sup) ->
  (idx < length (sup_children sup))%nat -> sup_shutdown sup = false ->
  exists sup' s' w', restart_one idx sup s w = Some (sup', s', w') /\
    s_exit_handlers s' = [] /\ restarted OneForOne idx sup s sup' s'.
Proof.
  intros Hin He Hb Hpids Hidx Hsh. unfold restart_one.
  destruct (vec_remove idx (sup_children sup)) as [[dead rest]|] eqn:Hrm.
  2: { unfold vec_remove in Hrm. apply lookup_lt_is_Some in Hidx as [c Hc]. by rewrite Hc in Hrm. }
  cbn [mbind option_bind].
  destruct (spawn_child_spec (rc_spec dead) s w Hin Hb) as (s1 & w1 & -> & Hst & Hl & _ & _ & He1).
  set (c := mkRunningChild _ _ _) in *. eexists _, _, _. split; [done|]. split; [congruence|].
  cbn [sup_children with_children increment_restart_count with_restart_counts].
  pose proof (vec_remove_insert idx dead c _ _ Hrm) as Hvi.
  assert (Hd : sup_children sup !! idx = Some dead) by (unfold vec_remove in Hrm; by case_match; simplify_eq).
  split_and!; [|done|].
  - cbn. rewrite Hvi. change (map ?f ?l) with (f <$> l). rewrite list_fmap_insert. cbn.
    apply list_insert_id. by rewrite list_lookup_fmap, Hd.
  - intros i c'. cbn. rewrite Hvi. intros Hc'. unfold replaced. destruct (Nat.eqb_spec i idx) as [->|Hne].
    + rewrite list_lookup_insert_eq in Hc' by done. simplify_eq. split; [done|]. cbn. lia.
    + rewrite list_lookup_insert_ne in Hc' by done. split; [done|]. unfold registered.
      rewrite Hl; [done|]. eapply Forall_lookup_1 in Hpids; [|exact Hc']. cbn in Hpids. lia.
Qed.

(** The common part of [restart_all] and [restart_rest]: the children from [k] on are
    terminated and respawned. *)
Lemma restart_from fuel dead k sup s w :
  inits_succeed -> s_exit_handlers s = [] -> linked s ≡ ∅ -> (0 < fuel)%nat ->
  0 <= s_next_pid s -> s_next_pid s + Z.of_nat (length (sup_children sup)) <= u64_max ->
  Forall (fun c => rc_pid c < s_next_pid s) (sup_children sup) -> NoDup (children_pids sup) ->
  sup_shutdown sup = false ->
  exists s1 w1 sup' s' w', terminate_others fuel dead (drop k (sup_children sup)) s w = Some (s1, w1) /\
    respawn (map rc_spec (drop k (sup_children sup)))
      (with_children (take k (sup_children sup)) sup) s1 w1 = (sup', s', w') /\
    s_exit_handlers s' = [] /\ sup_shutdown sup' = false /\
    map rc_spec (sup_children sup') = map rc_spec (sup_children sup) /\
    forall i c', sup_children sup' !! i = Some c' ->
      if (k <=? i)%nat then started c' s' /\ s_next_pid s <= rc_pid c'
      else sup_children sup !! i = Some c' /\ (registered (rc_pid c') s -> registered (rc_pid c') s').
Proof.
  intros Hin He Hl Hf H0 Hb Hpids Hnd Hsh.
  destruct (terminate_others_spec fuel dead (drop k (sup_children sup)) s w He Hl Hf)
    as (s1 & w1 & Hto & He1 & _ & Hn1 & F & S & _).
  destruct (respawn_spec (map rc_spec (drop k (sup_children sup))) (with_children (take k (sup_children sup)) sup)
    s1 w1 Hin) as (new & sup' & s' & w' & Hr & Hc & Hm & Hfor & Hlow & _ & He' & Hsh');
    [lia|rewrite length_map, length_drop, Hn1; lia|].
  cbn in Hc. exists s1, w1, sup', s', w'. split_and!; [done|done|congruence|by rewrite Hsh'| |].
  - rewrite Hc, map_app, Hm, <- map_app. by rewrite take_drop.
  - intros i c' Hi. rewrite Hc in Hi. destruct (Nat.leb_spec k i) as [Hle|Hlt].
    + destruct (decide (i < length (take k (sup_children sup)))%nat) as [Hin'|Hge].
      { rewrite length_take in Hin'. lia. }
      rewrite lookup_app_r in Hi by lia. rewrite Hn1 in Hfor.
      eapply Forall_lookup_1 in Hfor; [|exact Hi]. done.
    + destruct (decide (i < length (sup_children sup))%nat) as [Hin'|Hge].
      2: { rewrite lookup_app_r in Hi by (rewrite length_take; lia).
        assert (new = []) as ->; [|done]. apply (f_equal length) in Hm.
        rewrite !length_map, length_drop in Hm. apply nil_length_inv. lia. }
      rewrite lookup_app_l in Hi by (rewrite length_take; lia). rewrite lookup_take in Hi.
      case_decide; [|done]. split; [done|]. eapply Forall_lookup_1 in Hpids as Hlow'; [|exact Hi]. cbn in Hlow'.
      unfold registered at 2. rewrite Hlow by lia. intros Hreg. apply registered_attrs. intros Hnone.
      apply registered_attrs in Hreg. destruct (S _ Hnone) as [?|Hin2]; [done|].
      unfold children_pids in Hnd. rewrite <- (take_drop k (sup_children sup)), map_app in Hnd.
      apply NoDup_app in Hnd as (_ & Hdis & _). apply (Hdis (rc_pid c')); [|done].
      apply list_elem_of_In, in_map_iff. exists c'. split; [done|]. apply list_elem_of_In.
      apply list_elem_of_lookup. exists i. rewrite lookup_take. by case_decide.
Qed.

Lemma handle_restart fuel pid reason sup s w idx c :
  inits_succeed -> s_exit_handlers s = [] -> linked s ≡ ∅ -> (0 < fuel)%nat ->
  0 <= s_next_pid s -> s_next_pid s + Z.of_nat (length (sup_children sup)) <= u64_max ->
  Forall (fun c => rc_pid c < s_next_pid s) (sup_children sup) -> NoDup (children_pids sup) ->
  sup_shutdown sup = false -> sup_children sup !! idx = Some c -> rc_pid c = pid ->
  should_restart (cs_restart (rc_spec c)) reason = true ->
  Z.of_nat (length (sup_restart_timestamps sup)) < sup_max_restarts sup <= u32_max ->
  exists sup' s' w', handle_child_exit fuel pid reason sup s w = Some (sup', s', w') /\
    s_exit_handlers s' = [] /\ restarted (sup_strategy sup) idx sup s sup' s'.
Proof.
  intros Hin He Hl Hf H0 Hb Hpids Hnd Hsh Hidx Hpid Hrs Hts. unfold handle_child_exit. rewrite Hsh.
  assert (Hpos : position (fun c => rc_pid c =? pid) (sup_children sup) = Some idx).
  { destruct (position _ _) as [j|] eqn:Hj.
    - apply position_Some in Hj as (c2 & Hc2 & Hp2). apply Z.eqb_eq in Hp2. f_equal.
      apply (NoDup_lookup (children_pids sup) j idx pid Hnd); unfold children_pids; change (map ?f ?l) with (f <$> l);
        rewrite list_lookup_fmap, ?Hc2, ?Hidx; cbn; congruence.
    - exfalso. rewrite position_None in Hj. specialize (Hj c ltac:(by eapply list_elem_of_lookup_2)).
      by rewrite Hpid, Z.eqb_refl in Hj. }
  rewrite Hpos. unfold vec_remove at 1. rewrite Hidx. cbn [mbind option_bind]. rewrite Hrs. cbn [negb].
  unfold exceeds_max_restarts, exceeds_at, read_clock.
  set (ts := retain _ _).
  assert (Hex : sup_max_restarts sup <? wrap32 (Z.of_nat (length ts)) = false).
  { apply Z.ltb_ge. pose proof (retain_length (fun t => sat_sub (clock_at (s_clock_reads s)) t <=? seconds (sup_max_seconds sup))
      (sup_restart_timestamps sup ++ [clock_at (s_clock_reads s)])) as Hlen. fold ts in Hlen.
    rewrite length_app in Hlen. cbn in Hlen. rewrite wrap32_small; [lia|]. unfold is_u32. lia. }
  rewrite Hex. set (sup1 := with_timestamps ts sup). set (s1 := upd_clock_reads _ s).
  cbn [sup_strategy with_timestamps].
  assert (Hlt : (idx < length (sup_children sup))%nat) by (eapply lookup_lt_Some; exact Hidx).
  unfold restarted. assert (Hst1 : sup_strategy sup1 = sup_strategy sup) by done. rewrite Hst1.
  destruct (sup_strategy sup).
  - apply (restart_one_spec idx sup1 s1 w Hin He); [cbn; lia|done|done|done].
  - destruct (restart_from fuel (rc_pid c) 0 sup1 s1 w Hin He Hl Hf H0 Hb Hpids Hnd Hsh)
      as (s2 & w2 & sup' & s' & w' & Hto & Hr & He' & Hsh' & Hm & Hi).
    unfold restart_all. replace (sup_children sup1 !! idx) with (Some c) by done.
    cbn [mbind option_bind]. rewrite drop_0 in Hto, Hr. rewrite Hto. cbn [mbind option_bind].
    rewrite take_0 in Hr. rewrite Hr. by eexists _, _, _.
  - destruct (restart_from fuel (rc_pid c) idx sup1 s1 w Hin He Hl Hf H0 Hb Hpids Hnd Hsh)
      as (s2 & w2 & sup' & s' & w' & Hto & Hr & He' & Hsh' & Hm & Hi).
    unfold restart_rest. replace (sup_children sup1 !! idx) with (Some c) by done.
    cbn [mbind option_bind]. rewrite Hto. cbn [mbind option_bind]. rewrite Hr. by eexists _, _, _.
Qed.
End supervisor.

(** * Supervisors wired to the scheduler

    [start_linked] registers a closure over the shared supervisor as an exit handler;
    here the handler list holds the supervisor itself.  While the handlers run the list
    is empty, so the terminations a restart performs run no handler: the handler the
    nested calls would use does not matter. *)
Section linked.
Context {V B St Br Hk W : Type} `{AB : AgentBehavior V B St W} `{BO : BridgeOps V Br}.
Context `{MH : MessageHook V Hk W} `{CK : Clock} `{HO : HashOrder} `{PW : Powi}.
Abbreviation Sched := (AgentScheduler V B St Br Hk (Supervisor V B)).
Implicit Types (s : Sched) (w : W) (sup : Supervisor V B).

Definition inert_handler : ExitHandler V B St Br Hk (Supervisor V B) W :=
  fun sup _ _ s w => Some (sup, s, w).

(** The closure of [start_linked]; [fuel] bounds the cascades of a restart. *)
Definition supervisor_handler (fuel : nat) : ExitHandler V B St Br Hk (Supervisor V B) W :=
  fun sup pid reason s w => handle_child_exit (EH := inert_handler) fuel pid reason sup s w.

Definition start_linked (spec : SupervisorSpec V B) s w : result unit Reason * Sched * W :=
  match start spec s w with
  | (Ok sup, s, w) => (Ok tt, add_exit_handler sup s, w)
  | (Err e, s, w) => (Err e, s, w)
  end.

(** Without exit handlers it does not matter what a handler would do. *)
Lemma terminate_handler_irrelevant (EH1 EH2 : ExitHandler V B St Br Hk (Supervisor V B) W)
    fuel pid reason s w :
  s_exit_handlers s = [] ->
  terminate_process (EH := EH1) fuel pid reason s w = terminate_process (EH := EH2) fuel pid reason s w.
Proof.
  revert pid s w. induction fuel as [|fuel IH]; intros pid s w He; [done|]. cbn [terminate_process].
  pose proof (terminate_core_handlers pid reason s w) as E1.
  destruct (terminate_core pid reason s w) as [[s1 cascade] w1]. cbn in E1. rewrite He in E1.
  assert (Hf : fold_opt (fun '(s, w) c => terminate_process (EH := EH1) fuel c reason s w) (s1, w1) cascade
    = fold_opt (fun '(s, w) c => terminate_process (EH := EH2) fuel c reason s w) (s1, w1) cascade).
  { revert s1 w1 E1. induction cascade as [|c cascade IHc]; intros s1 w1 E1; [done|]. cbn [fold_opt].
    rewrite <- (IH c s1 w1 E1).
    destruct (terminate_process (EH := EH1) fuel c reason s1 w1) as [[s2 w2]|] eqn:H2; [|done]. cbn.
    apply IHc. by destruct (terminate_cascaded (EH := EH1) _ _ _ _ _ _ _ E1 H2). }
  rewrite <- Hf. destruct (fold_opt _ _ _) as [[s2 w2]|] eqn:H2; [|done]. cbn.
  assert (E2 : s_exit_handlers s2 = []).
  { apply (cascaded_fold reason) in H2 as [E2 _]; [done| |done].
    intros c s3 w3 s4 w4 H3 E3. by apply (terminate_cascaded (EH := EH1) fuel c reason s3 w3 s4 w4). }
  unfold run_exit_handlers. by rewrite E2.
Qed.


(** The supervisor keeps the invariant of [SchedWake], so that the wakeup theorems hold
    of supervised schedulers. *)
#[local] Instance inert_wake : WakeHandlers (EH := inert_handler).
Proof. intros h pid reason s w h' s' w' Hr. unfold run_handler, inert_handler in Hr. by simplify_eq. Qed.

Lemma wake_inv_spawn_child spec s w :
  wake_inv None [] s -> wake_inv None [] (spawn_child spec s w).1.2.
Proof.
  intros Hi. unfold spawn_child. pose proof (wake_inv_spawn None (cs_behavior spec) (cs_args spec) s w Hi) as Hs.
  destruct (spawn _ _ _ _) as [[[pid|e] s1] w1]; cbn; [|done]. destruct Hs as [Hs _].
  by apply wake_inv_enqueue, wake_inv_alter_links.
Qed.

Lemma wake_inv_respawn specs sup s w : wake_inv None [] s -> wake_inv None [] (respawn specs sup s w).1.2.
Proof.
  revert sup s w. induction specs as [|spec specs IH]; intros sup s w Hi; [done|]. cbn [respawn].
  pose proof (wake_inv_spawn_child spec s w Hi) as Hs.
  destruct (spawn_child spec s w) as [[[c|] s1] w1]; by apply IH.
Qed.

Lemma wake_inv_terminate_others fuel dead cs s w s' w' :
  wake_inv None [] s -> terminate_others (EH := inert_handler) fuel dead cs s w = Some (s', w') ->
  wake_inv None [] s'.
Proof.
  unfold terminate_others. revert s w. induction cs as [|c cs IH]; intros s w Hi Ht; [by simplify_eq/=|].
  cbn [fold_opt] in Ht. case_decide; [|by eapply IH].
  destruct (terminate_process _ _ _ _ _) as [[s1 w1]|] eqn:H1; [|done]. cbn in Ht.
  eapply IH; [|exact Ht]. eapply (wake_inv_terminate (EH := inert_handler)); [|exact Hi|exact H1]. by left.
Qed.

#[export] Instance supervisor_wake fuel : WakeHandlers (EH := supervisor_handler fuel).
Proof.
  intros sup pid reason s w sup' s' w' Hr Hi. unfold run_handler, supervisor_handler, handle_child_exit in Hr.
  destruct (sup_shutdown sup); [by simplify_eq|]. destruct (position _ _) as [idx|]; [|by simplify_eq].
  destruct (vec_remove idx (sup_children sup)) as [[dead rest]|]; [|done]. cbn [mbind option_bind] in Hr.
  destruct (negb _); [by simplify_eq|]. unfold exceeds_max_restarts, exceeds_at, read_clock in Hr.
  set (s1 := upd_clock_reads _ s) in *. assert (H1 : wake_inv None [] s1) by done.
  destruct (_ <? _); [by simplify_eq|]. set (sup1 := with_timestamps _ sup) in *. clearbody sup1 s1.
  destruct (sup_strategy sup1).
  - unfold restart_one in Hr. destruct (vec_remove idx (sup_children sup1)) as [[d r]|]; [|done].
    cbn [mbind option_bind] in Hr. pose proof (wake_inv_spawn_child (rc_spec d) s1 w H1) as H2.
    destruct (spawn_child _ _ _) as [[[c|] s2] w2]; by simplify_eq.
  - unfold restart_all in Hr. destruct (sup_children sup1 !! idx) as [d|]; [|done]. cbn [mbind option_bind] in Hr.
    destruct (terminate_others _ _ _ _ _) as [[s2 w2]|] eqn:H2; [|done]. cbn [mbind option_bind] in Hr.
    apply wake_inv_terminate_others in H2; [|done].
    match type of Hr with context [respawn ?a ?b ?c ?d] => pose proof (wake_inv_respawn a b c d H2) as H3;
      destruct (respawn a b c d) as [[? ?] ?] end. by simplify_eq.
  - unfold restart_rest in Hr. destruct (sup_children sup1 !! idx) as [d|]; [|done]. cbn [mbind option_bind] in Hr.
    destruct (terminate_others _ _ _ _ _) as [[s2 w2]|] eqn:H2; [|done]. cbn [mbind option_bind] in Hr.
    apply wake_inv_terminate_others in H2; [|done].
    match type of Hr with context [respawn ?a ?b ?c ?d] => pose proof (wake_inv_respawn a b c d H2) as H3;
      destruct (respawn a b c d) as [[? ?] ?] end. by simplify_eq.
Qed.
End linked.

Module SupervisionWitness.
Import Sample.

#[local] Instance sample_powi : Powi := fun x n => Z.iter n (f64_mul x) (f64_of_Z 1).
#[local] Instance sample_supervised : ExitHandler string Beh nat bool Empty_set (Supervisor string Beh) unit :=
  supervisor_handler 10.

Definition child (id : string) : ChildSpec string Beh := mkChildSpec id Sink "" Permanent NormalPriority.

(** Three supervised children, and nothing else. *)
Definition family (strategy : RestartStrategy) : AgentScheduler string Beh nat bool Empty_set (Supervisor string Beh) :=
  (start_linked (mkSupervisorSpec strategy 3 5 [child "a"; child "b"; child "c"] BackoffNone)
     (scheduler_new NEXT_AGENT_PID NEXT_MONITOR_REF) tt).1.2.

Definition family_sup (strategy : RestartStrategy) : Supervisor string Beh :=
  mkSupervisor strategy 3 5
    [mkRunningChild "a" P0 (child "a"); mkRunningChild "b" P1 (child "b"); mkRunningChild "c" P2 (child "c")]
    [] false BackoffNone ∅.


(** A crash, a crash again within the window: one restart each. *)
Definition crash1 := handle_child_exit (EH := inert_handler) 10 P1 (CustomReason "x")
  (family_sup OneForOne) (family OneForOne) tt.

Lemma restart_intensity_witness :
  exists sup log, sup_history (EH := inert_handler) 3 5 sup log /\ log = [0] /\
    Z.of_nat (length (restarts_in 5 0 log)) <= 3.
Proof.
  assert (Hh : exists s w sup log, sup_history (EH := inert_handler) 3 5 sup log /\ log = [0] /\
    crash1 = Some (sup, s, w)).
  { eexists _, _, _, _. split; [|split]; [eapply (history_exit (EH := inert_handler) 3 5 (family_sup OneForOne) [] 10
      P1 (CustomReason "x") (family OneForOne) tt)| |].
    - apply history_start; reflexivity.
    - constructor.
    - vm_compute. reflexivity.
    - vm_compute. reflexivity.
    - vm_compute. reflexivity. }
  destruct Hh as (s & w & sup & log & Hh & -> & _). exists sup, [0]. split; [exact Hh|]. split; [reflexivity|].
  apply (restart_intensity (EH := inert_handler) 3 5 sup [0] 0); [lia|vm_compute; split; [discriminate|reflexivity]|exact Hh].
Defined.

(** A restart terminates siblings with no exit handler running, so a cascade from a
    sibling to an earlier child goes unnoticed: under rest-for-one, with the third child
    linked to the first, the death of the second leaves the first dead and still listed. *)
Definition linked_family := alter_proc (fun p => with_links [P0] p) P2 (family RestForOne).

Lemma rest_for_one_orphans_linked_sibling :
  match terminate_process (EH := supervisor_handler 10) 10 P1 (CustomReason "x") linked_family tt with
  | Some (s', _) =>
      lookup_proc P0 s' = None /\
      match s_exit_handlers s' with
      | [sup'] => (rc_pid <$> sup_children sup') !! 0%nat = Some P0 /\ sup_shutdown sup' = false
      | _ => False
      end
  | None => False
  end.
Proof. vm_compute. done. Qed.
End SupervisionWitness.
