(* ===== verification/FileSystem.v ===== *)
(** The part of [std::fs] and [std::io] that the durable components use: files as byte
    strings behind names, buffered writers, and a schedule of faults.

    Every call that reaches the operating system consumes one verdict of the schedule:
    it succeeds, it fails, or the process dies in it.  A write that does not succeed may
    still have written a prefix of its bytes.  Names and contents are kept apart, as a
    handle stays with its file when the name is given to another one. *)
From Stdlib Require Import Ascii.
From S2P Require Import Prelude Types.

Inductive Verdict : Type :=
| VOk
| VFail (n : nat) (e : string)
| VCrash (n : nat).

Record FS : Type := mkFS {
  fs_names : gmap string nat;
  fs_data : gmap nat string;
  fs_next : nat;
  fs_faults : list Verdict
}.

(** How a call ends: it returns, it returns an error, or the process is gone. *)
Inductive io (A : Type) : Type :=
| IoDone (a : A)
| IoFail (e : string)
| IoCrash.
Arguments IoDone {A} a.
Arguments IoFail {A} e.
Arguments IoCrash {A}.

(** The result of an operation of the durable components, with errors of type
    [AgentRtError]. *)
Inductive outcome_io (A : Type) : Type :=
| ORet (r : result A AgentRtError)
| OCrash.
Arguments ORet {A} r.
Arguments OCrash {A}.

Definition next_verdict (fs : FS) : Verdict * FS :=
  match fs_faults fs with
  | [] => (VOk, fs)
  | v :: vs => (v, mkFS (fs_names fs) (fs_data fs) (fs_next fs) vs)
  end.

(** What a name stands for, and what is in it. *)
Definition file_of (path : string) (fs : FS) : option nat := fs_names fs !! path.
Definition content (path : string) (fs : FS) : option string := i ← file_of path fs; fs_data fs !! i.

Definition path_exists (path : string) (fs : FS) : bool := bool_decide (is_Some (file_of path fs)).

(** A call with no effect on files: creating directories, opening for reading, syncing. *)
Definition sys_call (fs : FS) : io unit * FS :=
  match next_verdict fs with
  | (VOk, fs) => (IoDone tt, fs)
  | (VFail _ e, fs) => (IoFail e, fs)
  | (VCrash _, fs) => (IoCrash, fs)
  end.

Definition set_data (i : nat) (s : string) (fs : FS) : FS :=
  mkFS (fs_names fs) (<[i := s]> (fs_data fs)) (fs_next fs) (fs_faults fs).

(** [File::create], or [OpenOptions] with [create] and [truncate]. *)
Definition create (path : string) (fs : FS) : io nat * FS :=
  match sys_call fs with
  | (IoDone _, fs) =>
      match file_of path fs with
      | Some i => (IoDone i, set_data i "" fs)
      | None =>
          let i := fs_next fs in
          (IoDone i, mkFS (<[path := i]> (fs_names fs)) (<[i := ""]> (fs_data fs)) (S i) (fs_faults fs))
      end
  | (IoFail e, fs) => (IoFail e, fs)
  | (IoCrash, fs) => (IoCrash, fs)
  end.

(** [OpenOptions] with [append], and [create] if [create_new] is set. *)
Definition open_append (create_new : bool) (path : string) (fs : FS) : io nat * FS :=
  match sys_call fs with
  | (IoDone _, fs) =>
      match file_of path fs with
      | Some i => (IoDone i, fs)
      | None =>
          if create_new then
            let i := fs_next fs in
            (IoDone i, mkFS (<[path := i]> (fs_names fs)) (<[i := ""]> (fs_data fs)) (S i) (fs_faults fs))
          else (IoFail "No such file or directory", fs)
      end
  | (IoFail e, fs) => (IoFail e, fs)
  | (IoCrash, fs) => (IoCrash, fs)
  end.

(** [File::open]. *)
Definition open_read (path : string) (fs : FS) : io unit * FS :=
  match sys_call fs with
  | (IoDone _, fs) =>
      if path_exists path fs then (IoDone tt, fs) else (IoFail "No such file or directory", fs)
  | (IoFail e, fs) => (IoFail e, fs)
  | (IoCrash, fs) => (IoCrash, fs)
  end.

(** The whole of a file, as [read_to_string] or the lines of a reader give it. *)
Definition read (path : string) (fs : FS) : io string * FS :=
  match sys_call fs with
  | (IoDone _, fs) =>
      match content path fs with
      | Some s => (IoDone s, fs)
      | None => (IoFail "No such file or directory", fs)
      end
  | (IoFail e, fs) => (IoFail e, fs)
  | (IoCrash, fs) => (IoCrash, fs)
  end.

Fixpoint str_take (n : nat) (s : string) : string :=
  match n, s with
  | S n, String c s => String c (str_take n s)
  | _, _ => ""
  end.
Fixpoint str_drop (n : nat) (s : string) : string :=
  match n, s with
  | S n, String _ s => str_drop n s
  | _, _ => s
  end.

(** Writing bytes at the end of a file: how many got through. *)
Definition write_end (i : nat) (bytes : string) (fs : FS) : io unit * nat * FS :=
  let old := default "" (fs_data fs !! i) in
  match next_verdict fs with
  | (VOk, fs) => (IoDone tt, String.length bytes, set_data i (old +:+ bytes) fs)
  | (VFail n e, fs) => (IoFail e, n, set_data i (old +:+ str_take n bytes) fs)
  | (VCrash n, fs) => (IoCrash, n, set_data i (old +:+ str_take n bytes) fs)
  end.

(** [fs::write]. *)
Definition write_file (path bytes : string) (fs : FS) : io unit * FS :=
  match create path fs with
  | (IoDone i, fs) => let '(r, _, fs) := write_end i bytes fs in (r, fs)
  | (IoFail e, fs) => (IoFail e, fs)
  | (IoCrash, fs) => (IoCrash, fs)
  end.

(** [fs::rename] is atomic. *)
Definition rename (a b : string) (fs : FS) : io unit * FS :=
  match sys_call fs with
  | (IoDone _, fs) =>
      match file_of a fs with
      | Some i => (IoDone tt, mkFS (<[b := i]> (delete a (fs_names fs))) (fs_data fs) (fs_next fs) (fs_faults fs))
      | None => (IoFail "No such file or directory", fs)
      end
  | (IoFail e, fs) => (IoFail e, fs)
  | (IoCrash, fs) => (IoCrash, fs)
  end.

(** [fs::remove_file]. *)
Definition remove_file (path : string) (fs : FS) : io unit * FS :=
  match sys_call fs with
  | (IoDone _, fs) =>
      match file_of path fs with
      | Some _ => (IoDone tt, mkFS (delete path (fs_names fs)) (fs_data fs) (fs_next fs) (fs_faults fs))
      | None => (IoFail "No such file or directory", fs)
      end
  | (IoFail e, fs) => (IoFail e, fs)
  | (IoCrash, fs) => (IoCrash, fs)
  end.

(** ** Buffered writers

    [BufWriter]: bytes are gathered and written by [flush].  (The library also writes
    early when its 8 kB buffer is full; the bytes and their order are the same.) *)
Record BufWriter : Type := mkBufWriter { bw_file : nat; bw_buf : string }.

Definition newline : string := String (Ascii.ascii_of_nat 10) EmptyString.

(** [writeln!(writer, {}, line)]. *)
Definition bw_writeln (line : string) (b : BufWriter) : BufWriter :=
  mkBufWriter (bw_file b) (bw_buf b +:+ line +:+ newline).

(** [flush]: what was written leaves the buffer; an empty buffer writes nothing. *)
Definition bw_flush (b : BufWriter) (fs : FS) : io unit * BufWriter * FS :=
  if decide (bw_buf b = "") then (IoDone tt, b, fs)
  else
    let '(r, n, fs) := write_end (bw_file b) (bw_buf b) fs in
    match r with
    | IoDone _ => (IoDone tt, mkBufWriter (bw_file b) "", fs)
    | r => (r, mkBufWriter (bw_file b) (str_drop n (bw_buf b)), fs)
    end.

(** Dropping a writer: a last attempt to write what is left, the error ignored. *)
Definition bw_drop (b : BufWriter) (fs : FS) : io unit * FS :=
  match bw_flush b fs with
  | (IoCrash, _, fs) => (IoCrash, fs)
  | (_, _, fs) => (IoDone tt, fs)
  end.

(** Flushing a local writer, which is dropped if that fails. *)
Definition bw_flush_local (b : BufWriter) (fs : FS) : io unit * FS :=
  match bw_flush b fs with
  | (IoFail e, b, fs) =>
      match bw_drop b fs with
      | (IoCrash, fs) => (IoCrash, fs)
      | (_, fs) => (IoFail e, fs)
      end
  | (r, _, fs) => (r, fs)
  end.

(** ** Operations

    A method that takes [&mut self] and does I/O: on an early return the changes made to
    [self] and to the files so far remain; after a crash only the files do. *)
Definition Op (X A : Type) : Type := X -> FS -> outcome_io A * X * FS.

Section op.
Context {X : Type}.

Definition op_ret {A} (a : A) : Op X A := fun x fs => (ORet (Ok a), x, fs).
Definition op_err {A} (e : AgentRtError) : Op X A := fun x fs => (ORet (Err e), x, fs).
Definition op_get : Op X X := fun x fs => (ORet (Ok x), x, fs).
Definition op_modify (f : X -> X) : Op X unit := fun x fs => (ORet (Ok tt), f x, fs).
Definition op_fs {A} (f : FS -> A) : Op X A := fun x fs => (ORet (Ok (f fs)), x, fs).
Definition op_bind {A C} (m : Op X A) (k : A -> Op X C) : Op X C := fun x fs =>
  match m x fs with
  | (ORet (Ok a), x, fs) => k a x fs
  | (ORet (Err e), x, fs) => (ORet (Err e), x, fs)
  | (OCrash, x, fs) => (OCrash, x, fs)
  end.
(** [f().map_err(|e| ...)?] *)
Definition op_io {A} (err : string -> AgentRtError) (f : FS -> io A * FS) : Op X A := fun x fs =>
  match f fs with
  | (IoDone a, fs) => (ORet (Ok a), x, fs)
  | (IoFail e, fs) => (ORet (Err (err e)), x, fs)
  | (IoCrash, fs) => (OCrash, x, fs)
  end.
Definition op_result {A} (err : string -> AgentRtError) (r : result A string) : Op X A :=
  match r with Ok a => op_ret a | Err e => op_err (err e) end.
End op.

Notation "'let!' x := m 'in' k" := (op_bind m (fun x => k))
  (at level 10, x name, m at level 100, k at level 200) : rust_scope.

(** A writer of the function's own: dropped on an early return. *)
Definition or_drop {X A} (err : string -> AgentRtError) (b : BufWriter) (r : result A string) : Op X A :=
  match r with
  | Ok a => op_ret a
  | Err e => let! _ := op_io err (bw_drop b) in op_err (err e)
  end.

(** Opening the directory and syncing it. *)
Definition fsync_with {X} (err1 err2 : string -> AgentRtError) : Op X unit :=
  let! _ := op_io err1 sys_call in op_io err2 sys_call.

(** One line per element; where an element cannot be printed, the writer is dropped. *)
Fixpoint write_lines {X A} (err : string -> AgentRtError) (print : A -> result string string) (es : list A)
    (b : BufWriter) : Op X BufWriter :=
  match es with
  | [] => op_ret b
  | e :: es => let! line := or_drop err b (print e) in write_lines err print es (bw_writeln line b)
  end.

(** [dir.join(name)] for a relative [name]. *)
Definition path_join (dir name : string) : string := dir +:+ "/" +:+ name.

(** ** Lines *)

Definition is_newline (c : Ascii.ascii) : bool := Ascii.eqb c (Ascii.ascii_of_nat 10).

(** [BufRead::lines], without the carriage returns that the writers never produce. *)
Fixpoint lines_from (cur : string) (s : string) : list string :=
  match s with
  | EmptyString => if decide (cur = "") then [] else [cur]
  | String c s => if is_newline c then cur :: lines_from "" s else lines_from (cur +:+ String c "") s
  end.
Definition lines (s : string) : list string := lines_from "" s.

Definition is_space (c : Ascii.ascii) : bool :=
  let n := Ascii.nat_of_ascii c in (n =? 32)%nat || ((9 <=? n)%nat && (n <=? 13)%nat).

(** [line.trim().is_empty()]. *)
Fixpoint is_blank (s : string) : bool :=
  match s with EmptyString => true | String c s => is_space c && is_blank s end.

Fixpoint has_newline (s : string) : bool :=
  match s with EmptyString => false | String c s => is_newline c || has_newline s end.

(** What the writers print on a line. *)
Definition is_line (s : string) : Prop := has_newline s = false /\ is_blank s = false.

(** The content of a file of lines. *)
Definition unlines (ls : list string) : string := foldr (fun l acc => l +:+ newline +:+ acc) "" ls.

Lemma str_app_assoc (a b c : string) : (a +:+ b) +:+ c = a +:+ b +:+ c.
Proof.
  induction a as [|x a IH]; [done|].
  change (String x ((a +:+ b) +:+ c) = String x (a +:+ (b +:+ c))). by rewrite IH.
Qed.

Lemma str_app_nil_r (a : string) : a +:+ "" = a.
Proof. induction a as [|x a IH]; [done|]. change (String x (a +:+ "") = String x a). by rewrite IH. Qed.

Lemma lines_from_app cur l s :
  has_newline l = false -> lines_from cur (l +:+ newline +:+ s) = (cur +:+ l) :: lines_from "" s.
Proof.
  revert cur. induction l as [|c l IH]; intros cur Hl.
  - cbn. by rewrite str_app_nil_r.
  - cbn in Hl. apply orb_false_iff in Hl as [Hc Hl].
    change ((String c l) +:+ newline +:+ s) with (String c (l +:+ newline +:+ s)). cbn [lines_from].
    rewrite Hc, IH by done. f_equal. by rewrite str_app_assoc.
Qed.

Lemma lines_unlines ls : Forall (fun l => has_newline l = false) ls -> lines (unlines ls) = ls.
Proof.
  unfold lines. induction ls as [|l ls IH]; intros Hf; [done|]. apply Forall_cons in Hf as [Hl Hf].
  cbn [unlines foldr]. rewrite lines_from_app by done. f_equal. by apply IH.
Qed.

Lemma unlines_app ls l : unlines (ls ++ [l]) = unlines ls +:+ l +:+ newline.
Proof.
  induction ls as [|x ls IH]; [cbn; by rewrite str_app_nil_r|].
  change (x +:+ newline +:+ unlines (ls ++ [l]) = (x +:+ newline +:+ unlines ls) +:+ l +:+ newline).
  rewrite IH. by rewrite !str_app_assoc.
Qed.

Lemma str_take_length s : str_take (String.length s) s = s.
Proof. induction s as [|c s IH]; [done|]. cbn. by rewrite IH. Qed.

(** ** No faults *)

Definition calm_fs (fs : FS) : Prop := fs_faults fs = [].

Lemma sys_call_calm fs : calm_fs fs -> sys_call fs = (IoDone tt, fs).
Proof. unfold sys_call, next_verdict. by intros ->. Qed.

(** A call changes neither names nor contents. *)
Lemma sys_call_frame fs :
  fs_names (sys_call fs).2 = fs_names fs /\ fs_data (sys_call fs).2 = fs_data fs /\
  fs_next (sys_call fs).2 = fs_next fs.
Proof. unfold sys_call, next_verdict. by destruct (fs_faults fs) as [|[] ?]. Qed.

(** ** Numbers *)

Definition digit (d : Z) : string := String (Ascii.ascii_of_nat (48 + Z.to_nat d)) EmptyString.

Fixpoint decimal (fuel : nat) (n : Z) : string :=
  match fuel with
  | O => ""
  | S fuel => if n <? 10 then digit n else decimal fuel (n / 10) +:+ digit (n mod 10)
  end.

(** [u64::to_string]: twenty digits are enough. *)
Definition u64_to_string (n : Z) : string := decimal 20 n.

Fixpoint parse_digits (acc : Z) (s : string) : result Z string :=
  match s with
  | EmptyString => Ok acc
  | String c s =>
      let d := Z.of_nat (Ascii.nat_of_ascii c) - 48 in
      if (0 <=? d) && (d <=? 9) then
        if acc * 10 + d <=? u64_max then parse_digits (acc * 10 + d) s
        else Err "number too large to fit in target type"
      else Err "invalid digit found in string"
  end.

Definition is_plus (c : Ascii.ascii) : bool := Ascii.eqb c (Ascii.ascii_of_nat 43).

(** [str::parse::<u64>]: digits, with an optional plus sign. *)
Definition parse_u64 (s : string) : result Z string :=
  match s with
  | EmptyString => Err "cannot parse integer from empty string"
  | String c EmptyString =>
      if is_plus c then Err "invalid digit found in string" else parse_digits 0 s
  | String c rest => parse_digits 0 (if is_plus c then rest else s)
  end.

(** [str::trim]. *)
Fixpoint trim_start (s : string) : string :=
  match s with
  | EmptyString => EmptyString
  | String c rest => if is_space c then trim_start rest else s
  end.
Fixpoint trim_end (s : string) : string :=
  match s with
  | EmptyString => EmptyString
  | String c rest =>
      match trim_end rest with
      | EmptyString => if is_space c then EmptyString else String c EmptyString
      | t => String c t
      end
  end.
Definition trim (s : string) : string := trim_end (trim_start s).

Definition is_digit (c : Ascii.ascii) : bool :=
  (48 <=? Ascii.nat_of_ascii c)%nat && (Ascii.nat_of_ascii c <=? 57)%nat.

Fixpoint all_digits (s : string) : bool :=
  match s with EmptyString => true | String c s => is_digit c && all_digits s end.

Lemma digit_code d : 0 <= d < 10 -> Ascii.nat_of_ascii (Ascii.ascii_of_nat (48 + Z.to_nat d)) = (48 + Z.to_nat d)%nat.
Proof. intros. apply Ascii.nat_ascii_embedding. lia. Qed.

Lemma all_digits_app a b : all_digits (a +:+ b) = all_digits a && all_digits b.
Proof.
  induction a as [|c a IH]; [done|].
  change (is_digit c && all_digits (a +:+ b) = (is_digit c && all_digits a) && all_digits b).
  by rewrite IH, andb_assoc.
Qed.

Lemma all_digits_digit d : 0 <= d < 10 -> all_digits (digit d) = true.
Proof.
  intros Hd. unfold digit, all_digits, is_digit. rewrite digit_code by done.
  rewrite andb_true_r. apply andb_true_intro. split; apply Nat.leb_le; lia.
Qed.

Lemma decimal_digits f n : 0 <= n -> all_digits (decimal f n) = true.
Proof.
  revert n. induction f as [|f IH]; intros n Hn; [done|]. cbn [decimal].
  destruct (n <? 10) eqn:Hlt; zify_bool; [apply all_digits_digit; lia|].
  rewrite all_digits_app, IH by (apply Z.div_pos; lia).
  apply all_digits_digit. apply Z.mod_pos_bound. lia.
Qed.

Lemma decimal_nonempty f n : decimal (S f) n <> "".
Proof.
  cbn [decimal]. destruct (n <? 10); [done|]. destruct (decimal f (n / 10)); [done|].
  intros Hx. discriminate Hx.
Qed.

(** Reading digits after [n] has been read. *)
Lemma parse_decimal f n s :
  0 <= n < 10 ^ Z.of_nat f -> n <= u64_max -> parse_digits 0 (decimal f n +:+ s) = parse_digits n s.
Proof.
  revert n s. induction f as [|f IH]; intros n s Hn Hu.
  { replace n with 0 by lia. done. }
  assert (Hone : forall acc d, 0 <= d < 10 -> acc * 10 + d <= u64_max ->
    parse_digits acc (digit d +:+ s) = parse_digits (acc * 10 + d) s).
  { intros acc d Hd Hle. unfold digit.
    change (parse_digits acc (String (Ascii.ascii_of_nat (48 + Z.to_nat d)) s) = parse_digits (acc * 10 + d) s).
    cbn [parse_digits]. rewrite digit_code by done.
    replace (Z.of_nat (48 + Z.to_nat d) - 48) with d by lia.
    rewrite (proj2 (Z.leb_le 0 d)), (proj2 (Z.leb_le d 9)), (proj2 (Z.leb_le _ u64_max)) by lia. done. }
  cbn [decimal]. destruct (n <? 10) eqn:Hlt; zify_bool.
  - rewrite Hone by lia. f_equal.
  - pose proof (Z.div_mod n 10 ltac:(lia)). pose proof (Z.mod_pos_bound n 10 ltac:(lia)).
    rewrite str_app_assoc, IH; [|split; [apply Z.div_pos; lia|]|lia].
    + rewrite Hone by lia. f_equal. lia.
    + apply Z.div_lt_upper_bound; [lia|].
      replace (Z.of_nat (S f)) with (Z.succ (Z.of_nat f)) in Hn by lia. rewrite Z.pow_succ_r in Hn; lia.
Qed.

Lemma digit_not_space c : is_digit c = true -> is_space c = false.
Proof.
  unfold is_digit, is_space. intros [Ha Hb]%andb_prop. zify_bool.
  apply orb_false_iff. split; [apply Nat.eqb_neq; lia|]. apply andb_false_iff. right. apply Nat.leb_gt. lia.
Qed.

Lemma digit_not_plus c : is_digit c = true -> is_plus c = false.
Proof.
  unfold is_digit, is_plus. destruct (Ascii.eqb_spec c (Ascii.ascii_of_nat 43)) as [->|]; done.
Qed.

Lemma trim_digits s : all_digits s = true -> trim s = s.
Proof.
  intros Hd. assert (Hs : trim_start s = s).
  { destruct s as [|c s]; [done|]. cbn in *. apply andb_prop in Hd as [Hc _]. by rewrite digit_not_space. }
  unfold trim. rewrite Hs. clear Hs. induction s as [|c s IH]; [done|].
  cbn in Hd. apply andb_prop in Hd as [Hc Hd]. cbn. rewrite IH by done.
  destruct s; [by rewrite digit_not_space|done].
Qed.

(** A number written and read back. *)
Lemma parse_u64_to_string n : is_u64 n -> parse_u64 (trim (u64_to_string n)) = Ok n.
Proof.
  intros [Hn Hu]. unfold u64_to_string. pose proof (decimal_digits 20 n Hn) as Hd.
  rewrite trim_digits by done. pose proof (parse_decimal 20 n "" (conj Hn (Z.le_lt_trans _ _ (10 ^ Z.of_nat 20) Hu eq_refl)) Hu) as Hp.
  rewrite str_app_nil_r in Hp. pose proof (decimal_nonempty 19 n) as He.
  destruct (decimal 20 n) as [|c s]; [done|]. cbn in Hd. apply andb_prop in Hd as [Hc Hd].
  apply digit_not_plus in Hc. cbn [parse_u64]. rewrite Hc, Hp. by destruct s.
Qed.

(** ** What the calls do, under any faults *)

(** No file has two names, and every name has a file. *)
Definition fs_wf (fs : FS) : Prop :=
  (forall p q i, file_of p fs = Some i -> file_of q fs = Some i -> p = q) /\
  (forall p i, file_of p fs = Some i -> (i < fs_next fs)%nat /\ is_Some (fs_data fs !! i)).

Definition same_files (fs fs' : FS) : Prop :=
  fs_names fs' = fs_names fs /\ fs_data fs' = fs_data fs /\ fs_next fs' = fs_next fs.

(** Every name other than [p] stands for the same file with the same content. *)
Definition others_kept (p : string) (fs fs' : FS) : Prop :=
  forall q, q <> p -> file_of q fs' = file_of q fs /\ content q fs' = content q fs.

Definition io_done {A} (r : io A) : bool := match r with IoDone _ => true | _ => false end.

(** Without faults the call succeeds. *)
Definition calm_done {A} (fs : FS) (r : io A) (fs' : FS) : Prop :=
  calm_fs fs -> calm_fs fs' /\ io_done r = true.

Lemma same_files_refl fs : same_files fs fs.
Proof. done. Qed.

Lemma same_files_keep fs fs' :
  same_files fs fs' -> (fs_wf fs -> fs_wf fs') /\
  forall p, file_of p fs' = file_of p fs /\ content p fs' = content p fs.
Proof.
  intros (Hn & Hd & Hx). unfold fs_wf, content, file_of. rewrite Hn, Hd, Hx. done.
Qed.

Lemma same_files_others p fs fs' : same_files fs fs' -> others_kept p fs fs'.
Proof. intros Hs q _. apply (proj2 (same_files_keep _ _ Hs) q). Qed.

Lemma same_files_trans fs1 fs2 fs3 : same_files fs1 fs2 -> same_files fs2 fs3 -> same_files fs1 fs3.
Proof. unfold same_files. intuition congruence. Qed.

(** [p] stands for the same file, with the same content. *)
Definition kept (p : string) (fs fs' : FS) : Prop := file_of p fs' = file_of p fs /\ content p fs' = content p fs.

Lemma same_files_kept fs fs' p : same_files fs fs' -> kept p fs fs'.
Proof. intros Hs. apply (proj2 (same_files_keep _ _ Hs)). Qed.

Lemma kept_trans p fs1 fs2 fs3 : kept p fs1 fs2 -> kept p fs2 fs3 -> kept p fs1 fs3.
Proof. unfold kept. intuition congruence. Qed.

Lemma others_kept_trans p fs1 fs2 fs3 : others_kept p fs1 fs2 -> others_kept p fs2 fs3 -> others_kept p fs1 fs3.
Proof. intros H1 H2 q Hq. destruct (H1 q Hq), (H2 q Hq). split; congruence. Qed.

Lemma next_verdict_spec fs :
  let '(v, fs') := next_verdict fs in same_files fs fs' /\ (calm_fs fs -> calm_fs fs' /\ v = VOk).
Proof. unfold next_verdict, calm_fs. by destruct (fs_faults fs) as [|v vs] eqn:Hf. Qed.

Lemma sys_call_spec fs :
  let '(r, fs') := sys_call fs in same_files fs fs' /\ calm_done fs r fs'.
Proof.
  unfold sys_call, calm_done. pose proof (next_verdict_spec fs) as Hv. destruct (next_verdict fs) as [v fs'].
  destruct Hv as [Hs Hc]. destruct v; (split; [done|]; intros Hq; by destruct (Hc Hq)).
Qed.

Lemma open_read_spec p fs :
  let '(r, fs') := open_read p fs in
  same_files fs fs' /\ (is_Some (file_of p fs) -> calm_done fs r fs').
Proof.
  unfold open_read, calm_done. pose proof (sys_call_spec fs) as Hv.
  destruct (sys_call fs) as [[u|e|] fs1]; [|naive_solver..]. destruct Hv as [Hs Hc].
  destruct (proj2 (same_files_keep _ _ Hs) p) as [Hf _]. unfold path_exists. rewrite Hf.
  case_bool_decide; [|done]. split; [done|]. intros _ Hq. by destruct (Hc Hq).
Qed.

Lemma read_spec p fs :
  let '(r, fs') := read p fs in
  same_files fs fs' /\ (forall s, r = IoDone s -> content p fs = Some s) /\
  (is_Some (content p fs) -> calm_done fs r fs').
Proof.
  unfold read, calm_done. pose proof (sys_call_spec fs) as Hv.
  destruct (sys_call fs) as [[u|e|] fs1]; [|naive_solver..]. destruct Hv as [Hs Hc].
  destruct (proj2 (same_files_keep _ _ Hs) p) as [_ Hf]. rewrite Hf.
  destruct (content p fs) as [s|]; (split; [done|]); split; naive_solver.
Qed.

(** A new or emptied file. *)
Lemma fresh_file p fs (fs' : FS) :
  fs_wf fs -> file_of p fs = None ->
  fs' = mkFS (<[p := fs_next fs]> (fs_names fs)) (<[fs_next fs := ""]> (fs_data fs)) (S (fs_next fs)) (fs_faults fs) ->
  fs_wf fs' /\ others_kept p fs fs' /\ file_of p fs' = Some (fs_next fs) /\ content p fs' = Some "".
Proof.
  intros [Hinj Hb] Hp ->. unfold fs_wf, others_kept, content, file_of in *. cbn. split_and!.
  - intros q1 q2 i H1 H2. apply lookup_insert_Some in H1 as [[<- <-]|[Hn1 H1]];
      apply lookup_insert_Some in H2 as [[<- H2]|[Hn2 H2]]; [done| |subst i|eauto].
    + apply Hb in H2. lia.
    + apply Hb in H1. lia.
  - intros q i Hq. apply lookup_insert_Some in Hq as [[<- <-]|[Hn Hq]].
    + rewrite lookup_insert_eq. eauto.
    + apply Hb in Hq as [Hi Hs]. rewrite lookup_insert_ne by lia. split; [lia|done].
  - intros q Hq. rewrite lookup_insert_ne by done. destruct (fs_names fs !! q) as [i|] eqn:Hi; [|done].
    cbn. apply Hb in Hi as [Hi _]. by rewrite lookup_insert_ne by lia.
  - by rewrite lookup_insert_eq.
  - rewrite lookup_insert_eq. cbn. by rewrite lookup_insert_eq.
Qed.

(** Changing the content of the file named [p]. *)
Lemma set_data_spec p i s fs :
  fs_wf fs -> file_of p fs = Some i ->
  fs_wf (set_data i s fs) /\ others_kept p fs (set_data i s fs) /\
  file_of p (set_data i s fs) = Some i /\ content p (set_data i s fs) = Some s.
Proof.
  intros [Hinj Hb] Hp. unfold fs_wf, others_kept, content, file_of in *. cbn. split_and!; try done.
  - intros q j Hq. apply Hb in Hq as [Hj Hs]. split; [done|].
    destruct (decide (i = j)) as [->|]; [rewrite lookup_insert_eq|rewrite lookup_insert_ne by done]; eauto.
  - intros q Hq. split; [done|]. destruct (fs_names fs !! q) as [j|] eqn:Hj; [|done]. cbn.
    destruct (decide (i = j)) as [->|]; [|by rewrite lookup_insert_ne by done]. destruct Hq. eauto.
  - rewrite Hp. cbn. by rewrite lookup_insert_eq.
Qed.

(** What opening a file for writing guarantees. *)
Definition opened (p : string) (wiped : bool) (fs : FS) (r : io nat) (fs' : FS) : Prop :=
  fs_wf fs' /\ others_kept p fs fs' /\
  match r with
  | IoDone i => file_of p fs' = Some i /\
                content p fs' = if wiped then Some "" else Some (default "" (content p fs))
  | _ => same_files fs fs'
  end.

Lemma create_spec p fs :
  fs_wf fs -> let '(r, fs') := create p fs in opened p true fs r fs' /\ calm_done fs r fs'.
Proof.
  intros Hwf. unfold create, calm_done, opened. pose proof (sys_call_spec fs) as Hv.
  destruct (sys_call fs) as [[u|e|] fs1]; destruct Hv as [Hs Hc];
    [|(split; [|intros Hq; by destruct (Hc Hq)]);
      (split; [by apply (same_files_keep _ _ Hs)|]); (split; [by apply same_files_others|done]) ..].
  destruct (same_files_keep _ _ Hs) as [Hwf1 _]. specialize (Hwf1 Hwf).
  pose proof (same_files_others p _ _ Hs) as Ho.
  destruct (file_of p fs1) as [i|] eqn:Hp.
  - destruct (set_data_spec p i "" fs1 Hwf1 Hp) as (? & ? & ? & ?). split; [|naive_solver].
    split_and!; try done. by eapply others_kept_trans.
  - destruct (fresh_file p fs1 _ Hwf1 Hp eq_refl) as (? & ? & ? & ?). split; [|naive_solver].
    split_and!; try done. by eapply others_kept_trans.
Qed.

Lemma open_append_spec p fs :
  fs_wf fs -> is_Some (file_of p fs) ->
  let '(r, fs') := open_append false p fs in
  opened p false fs r fs' /\ same_files fs fs' /\ calm_done fs r fs'.
Proof.
  intros Hwf [i Hi]. unfold open_append, calm_done, opened. pose proof (sys_call_spec fs) as Hv.
  destruct (sys_call fs) as [[u|e|] fs1]; destruct Hv as [Hs Hc];
    [|(split; [|split; [done|intros Hq; by destruct (Hc Hq)]]);
      (split; [by apply (same_files_keep _ _ Hs)|]); (split; [by apply same_files_others|done]) ..].
  destruct (same_files_keep _ _ Hs) as [Hwf1 Hk]. specialize (Hwf1 Hwf).
  destruct (Hk p) as [-> Hct]. rewrite Hi.
  split; [split; [|split; [|split]]|split; [done|naive_solver]].
  - done.
  - by apply same_files_others.
  - by rewrite (proj1 (Hk p)).
  - rewrite Hct. destruct Hwf as [_ Hb]. destruct (Hb _ _ Hi) as [_ [x Hx]].
    unfold content. rewrite Hi. cbn. by rewrite Hx.
Qed.

Lemma open_append_new_spec p fs :
  fs_wf fs -> let '(r, fs') := open_append true p fs in opened p false fs r fs' /\ calm_done fs r fs'.
Proof.
  intros Hwf. destruct (file_of p fs) as [i|] eqn:Hp.
  - assert (open_append true p fs = open_append false p fs) as ->.
    { unfold open_append. pose proof (sys_call_spec fs) as Hv. destruct (sys_call fs) as [[u|e|] fs1]; [|done..].
      destruct Hv as [Hs _]. destruct (same_files_kept _ _ p Hs) as [-> _]. by rewrite Hp. }
    pose proof (open_append_spec p fs Hwf (mk_is_Some _ _ Hp)) as Ho.
    destruct (open_append false p fs) as [r fs']. naive_solver.
  - unfold open_append, calm_done, opened. pose proof (sys_call_spec fs) as Hv.
    destruct (sys_call fs) as [[u|e|] fs1]; destruct Hv as [Hs Hc];
      [|(split; [|intros Hq; by destruct (Hc Hq)]);
        (split; [by apply (same_files_keep _ _ Hs)|]); (split; [by apply same_files_others|done]) ..].
    destruct (same_files_keep _ _ Hs) as [Hwf1 Hk]. specialize (Hwf1 Hwf).
    destruct (Hk p) as [Hf1 _]. rewrite Hp in Hf1. rewrite Hf1.
    destruct (fresh_file p fs1 _ Hwf1 Hf1 eq_refl) as (? & ? & ? & Hct). split; [|naive_solver].
    split; [done|]. split; [eapply others_kept_trans; [by apply same_files_others|done]|]. split; [done|].
    rewrite Hct. unfold content. by rewrite Hp.
Qed.

Lemma write_end_spec p i bytes fs :
  fs_wf fs -> file_of p fs = Some i ->
  let '(r, _, fs') := write_end i bytes fs in
  fs_wf fs' /\ others_kept p fs fs' /\ file_of p fs' = Some i /\
  (io_done r = true -> content p fs' = Some (default "" (content p fs) +:+ bytes)) /\ calm_done fs r fs'.
Proof.
  intros Hwf Hp. unfold write_end, calm_done. pose proof (next_verdict_spec fs) as Hv.
  destruct (next_verdict fs) as [v fs1]. destruct Hv as [Hs Hc].
  destruct (same_files_keep _ _ Hs) as [Hwf1 Hk]. specialize (Hwf1 Hwf).
  assert (Hp1 : file_of p fs1 = Some i) by (by rewrite (proj1 (Hk p))).
  assert (Hold : default "" (content p fs) = default "" (fs_data fs !! i)).
  { unfold content. by rewrite Hp. }
  pose proof (fun s => set_data_spec p i s fs1 Hwf1 Hp1) as Hset. rewrite Hold.
  destruct v as [|n e|n];
    match goal with |- context [set_data i ?s fs1] => destruct (Hset s) as (? & ? & ? & ?) end;
    (split_and!; [done|eapply others_kept_trans; [by apply same_files_others|done]|done|done|]);
    intros Hq; destruct (Hc Hq) as [Hcalm Hok]; done.
Qed.

Lemma write_file_spec p bytes fs :
  fs_wf fs ->
  let '(r, fs') := write_file p bytes fs in
  fs_wf fs' /\ others_kept p fs fs' /\
  (io_done r = true -> is_Some (file_of p fs') /\ content p fs' = Some bytes) /\ calm_done fs r fs'.
Proof.
  intros Hwf. unfold write_file. pose proof (create_spec p fs Hwf) as Hc.
  destruct (create p fs) as [[i|e|] fs1]; destruct Hc as [(Hwf1 & Ho & Hx) Hcalm];
    [|split_and!; [done|done|done|]; intros Hq; by destruct (Hcalm Hq) ..].
  destruct Hx as [Hp Hct]. pose proof (write_end_spec p i bytes fs1 Hwf1 Hp) as Hw.
  destruct (write_end i bytes fs1) as [[r n] fs2]. destruct Hw as (Hwf2 & Ho2 & Hp2 & Hc2 & Hcalm2).
  split_and!; [done|by eapply others_kept_trans| |].
  - intros Hr. split; [by rewrite Hp2|]. rewrite (Hc2 Hr), Hct. done.
  - intros Hq. destruct (Hcalm Hq) as [Hq1 _]. by apply Hcalm2.
Qed.

(** Renaming: done as a whole, or not at all. *)
Lemma rename_spec a b fs :
  fs_wf fs -> is_Some (file_of a fs) -> a <> b ->
  let '(r, fs') := rename a b fs in
  fs_wf fs' /\ calm_done fs r fs' /\
  if io_done r then
    file_of b fs' = file_of a fs /\ content b fs' = content a fs /\
    forall q, q <> a -> q <> b -> file_of q fs' = file_of q fs /\ content q fs' = content q fs
  else same_files fs fs'.
Proof.
  intros Hwf [i Hi] Hab. unfold rename, calm_done. pose proof (sys_call_spec fs) as Hv.
  destruct (sys_call fs) as [[u|e|] fs1]; destruct Hv as [Hs Hc];
    [|split_and!; [by apply (same_files_keep _ _ Hs)|naive_solver|done] ..].
  destruct (same_files_keep _ _ Hs) as [Hwf1 Hk]. specialize (Hwf1 Hwf).
  destruct (Hk a) as [Hfa Hca]. rewrite Hfa, Hi. cbn [io_done].
  rewrite Hi in Hfa. destruct Hwf1 as [Hinj Hb]. split; [|split; [naive_solver|]].
  - unfold fs_wf, file_of in *. cbn. split.
    + intros q1 q2 j H1 H2. rewrite lookup_insert_Some, lookup_delete_Some in H1, H2.
      destruct H1 as [[<- <-]|(Hn1 & Hd1 & H1)], H2 as [[<- H2]|(Hn2 & Hd2 & H2)]; [done| | |eauto].
      * destruct Hd2. eauto.
      * subst j. destruct Hd1. eauto.
    + intros q j Hq. rewrite lookup_insert_Some, lookup_delete_Some in Hq.
      destruct Hq as [[<- <-]|(_ & _ & Hq)]; eauto.
  - unfold content, file_of in *. cbn. rewrite lookup_insert_eq. cbn. split_and!; [done| |].
    + rewrite Hi. cbn. destruct Hs as (_ & Hd & _). by rewrite Hd.
    + intros q Hqa Hqb. rewrite lookup_insert_ne, lookup_delete_ne by done. apply Hk.
Qed.

Lemma remove_file_spec p fs :
  fs_wf fs -> is_Some (file_of p fs) ->
  let '(r, fs') := remove_file p fs in
  fs_wf fs' /\ calm_done fs r fs' /\
  if io_done r then file_of p fs' = None /\ others_kept p fs fs' else same_files fs fs'.
Proof.
  intros Hwf [i Hi]. unfold remove_file, calm_done. pose proof (sys_call_spec fs) as Hv.
  destruct (sys_call fs) as [[u|e|] fs1]; destruct Hv as [Hs Hc];
    [|split_and!; [by apply (same_files_keep _ _ Hs)|naive_solver|done] ..].
  destruct (same_files_keep _ _ Hs) as [Hwf1 Hk]. destruct (Hwf1 Hwf) as [Hinj Hb].
  destruct (Hk p) as [Hf _]. rewrite Hf, Hi. cbn [io_done]. split; [|split; [naive_solver|]].
  - unfold fs_wf, file_of in *. cbn. split.
    + intros q1 q2 j [_ H1]%lookup_delete_Some [_ H2]%lookup_delete_Some. eauto.
    + intros q j [_ Hq]%lookup_delete_Some. eauto.
  - split; [unfold file_of; cbn; apply lookup_delete_eq|]. intros q Hq. destruct (Hk q) as [H1 H2].
    unfold content, file_of in *. cbn. by rewrite lookup_delete_ne.
Qed.

(** Flushing the lines gathered for the file named [p]. *)
Lemma bw_flush_spec p b fs :
  fs_wf fs -> file_of p fs = Some (bw_file b) ->
  let '(r, b', fs') := bw_flush b fs in
  fs_wf fs' /\ others_kept p fs fs' /\ file_of p fs' = Some (bw_file b) /\ bw_file b' = bw_file b /\
  (io_done r = true -> bw_buf b' = "" /\ content p fs' = Some (default "" (content p fs) +:+ bw_buf b)) /\
  calm_done fs r fs'.
Proof.
  intros Hwf Hp. unfold bw_flush. destruct (decide (bw_buf b = "")) as [->|Hne].
  - split_and!; try done. intros _. split; [done|]. rewrite str_app_nil_r.
    destruct Hwf as [_ Hb]. destruct (Hb _ _ Hp) as [_ [x Hx]].
    unfold content. rewrite Hp. cbn. by rewrite Hx.
  - pose proof (write_end_spec p (bw_file b) (bw_buf b) fs Hwf Hp) as Hw.
    destruct (write_end _ _ fs) as [[r n] fs1]. destruct Hw as (? & ? & ? & ? & ?).
    destruct r; split_and!; naive_solver.
Qed.

Lemma bw_flush_empty i fs : bw_flush (mkBufWriter i "") fs = (IoDone tt, mkBufWriter i "", fs).
Proof. done. Qed.

Lemma bw_drop_empty i fs : bw_drop (mkBufWriter i "") fs = (IoDone tt, fs).
Proof. done. Qed.

Lemma bw_flush_local_spec p b fs :
  fs_wf fs -> file_of p fs = Some (bw_file b) ->
  let '(r, fs') := bw_flush_local b fs in
  fs_wf fs' /\ others_kept p fs fs' /\ file_of p fs' = Some (bw_file b) /\
  (io_done r = true -> content p fs' = Some (default "" (content p fs) +:+ bw_buf b)) /\ calm_done fs r fs'.
Proof.
  intros Hwf Hp. unfold bw_flush_local, bw_drop. pose proof (bw_flush_spec p b fs Hwf Hp) as H1.
  destruct (bw_flush b fs) as [[[u|e|] b1] fs1]; destruct H1 as (Hwf1 & Ho1 & Hp1 & Hb1 & Hd1 & Hc1).
  - split_and!; naive_solver.
  - rewrite <- Hb1 in Hp1. pose proof (bw_flush_spec p b1 fs1 Hwf1 Hp1) as H2.
    destruct (bw_flush b1 fs1) as [[[u|e2|] b2] fs2]; destruct H2 as (Hwf2 & Ho2 & Hp2 & Hb2 & Hd2 & Hc2);
      (split_and!; [done|by eapply others_kept_trans|congruence|done|]);
      intros Hq; destruct (Hc1 Hq) as [? Hx]; discriminate Hx.
  - split_and!; naive_solver.
Qed.

(** ** Reasoning about operations

    [wp m Q]: whatever way [m] ends, [Q] holds of its result, the state and the files. *)
Section wp.
Context {X : Type}.

Definition wp {A} (m : Op X A) (Q : outcome_io A -> X -> FS -> Prop) (x : X) (fs : FS) : Prop :=
  let '(r, x', fs') := m x fs in Q r x' fs'.

Lemma wp_bind {A C} (m : Op X A) (k : A -> Op X C) Q x fs :
  wp m (fun r x fs => match r with
                      | ORet (Ok a) => wp (k a) Q x fs
                      | ORet (Err e) => Q (ORet (Err e)) x fs
                      | OCrash => Q OCrash x fs
                      end) x fs ->
  wp (op_bind m k) Q x fs.
Proof. unfold wp, op_bind. by destruct (m x fs) as [[[[a|e]|] x'] fs']. Qed.

Lemma wp_mono {A} (m : Op X A) (P Q : outcome_io A -> X -> FS -> Prop) x fs :
  wp m P x fs -> (forall r x' fs', P r x' fs' -> Q r x' fs') -> wp m Q x fs.
Proof. unfold wp. destruct (m x fs) as [[r x'] fs']. auto. Qed.

Lemma wp_io {A} (err : string -> AgentRtError) (f : FS -> io A * FS) (Q : outcome_io A -> X -> FS -> Prop) x fs :
  (let '(r, fs') := f fs in
   match r with
   | IoDone a => Q (ORet (Ok a)) x fs'
   | IoFail e => Q (ORet (Err (err e))) x fs'
   | IoCrash => Q OCrash x fs'
   end) -> wp (op_io err f) Q x fs.
Proof. unfold wp, op_io. by destruct (f fs) as [[a|e|] fs']. Qed.

Lemma wp_result {A} (err : string -> AgentRtError) (r : result A string) (Q : outcome_io A -> X -> FS -> Prop) x fs :
  match r with Ok a => Q (ORet (Ok a)) x fs | Err e => Q (ORet (Err (err e))) x fs end ->
  wp (op_result err r) Q x fs.
Proof. by destruct r. Qed.
Lemma wp_get {C} (k : X -> Op X C) Q x fs : wp (k x) Q x fs -> wp (op_bind op_get k) Q x fs.
Proof. done. Qed.
Lemma wp_modify {C} (f : X -> X) (k : unit -> Op X C) Q x fs :
  wp (k tt) Q (f x) fs -> wp (op_bind (op_modify f) k) Q x fs.
Proof. done. Qed.
Lemma wp_fs {A C} (f : FS -> A) (k : A -> Op X C) Q x fs :
  wp (k (f fs)) Q x fs -> wp (op_bind (op_fs f) k) Q x fs.
Proof. done. Qed.
Lemma wp_ret_bind {A C} (a : A) (k : A -> Op X C) Q x fs : wp (k a) Q x fs -> wp (op_bind (op_ret a) k) Q x fs.
Proof. done. Qed.

(** The next call of an operation: its result and the files after it. *)
Lemma wp_call {A C} (err : string -> AgentRtError) (f : FS -> io A * FS) (k : A -> Op X C) Q x fs :
  (let '(r, fs') := f fs in
   match r with
   | IoDone a => wp (k a) Q x fs'
   | IoFail e => Q (ORet (Err (err e))) x fs'
   | IoCrash => Q OCrash x fs'
   end) -> wp (op_bind (op_io err f) k) Q x fs.
Proof. intros Hf. by apply wp_bind, wp_io. Qed.
(** Three calls taken together. *)
Lemma wp_group {A C D E} (a : Op X A) (b : A -> Op X C) (c : C -> Op X D) (k : D -> Op X E) Q x fs :
  wp (op_bind (op_bind a (fun y => op_bind (b y) c)) k) Q x fs ->
  wp (op_bind a (fun y => op_bind (b y) (fun z => op_bind (c z) k))) Q x fs.
Proof.
  unfold wp, op_bind. destruct (a x fs) as [[[[y|e]|] x1] fs1]; [|done..].
  by destruct (b y x1 fs1) as [[[[z|e]|] x2] fs2].
Qed.
End wp.

Lemma path_join_inj dir id a b : a <> b -> path_join dir (id +:+ a) <> path_join dir (id +:+ b).
Proof. unfold path_join. intros Hab H. by repeat apply (inj (String.append _)) in H. Qed.

Lemma content_file p fs s : content p fs = Some s -> is_Some (file_of p fs).
Proof. unfold content. destruct (file_of p fs); [eauto|done]. Qed.

Lemma path_exists_true p fs : is_Some (file_of p fs) -> path_exists p fs = true.
Proof. unfold path_exists. intros. by rewrite bool_decide_eq_true_2. Qed.

(** What was printed for each element. *)
Definition prints {A} (print : A -> result string string) (e : A) (l : string) : Prop := print e = Ok l.

Lemma write_lines_prints {X A} err (print : A -> result string string) es ls b (x : X) fs :
  Forall2 (prints print) es ls ->
  write_lines err print es b x fs = (ORet (Ok (mkBufWriter (bw_file b) (bw_buf b +:+ unlines ls))), x, fs).
Proof.
  intros Hls. revert b. induction Hls as [|e l es ls Hp _ IH]; intros [i buf]; cbn [write_lines bw_file bw_buf].
  - unfold op_ret. by rewrite str_app_nil_r.
  - unfold op_bind, or_drop. unfold prints in Hp. rewrite Hp. cbn. rewrite IH. cbn. by rewrite !str_app_assoc.
Qed.

Section install.
Context {X : Type}.

Lemma wp_fsync_with e1 e2 (x : X) fs :
  wp (fsync_with e1 e2) (fun r x' fs' => x' = x /\ same_files fs fs' /\ (calm_fs fs -> calm_fs fs' /\ r = ORet (Ok tt))) x fs.
Proof.
  apply wp_call. pose proof (sys_call_spec fs) as H1. destruct (sys_call fs) as [r1 fs1]. destruct H1 as [Hs1 Hc1].
  destruct r1 as [[]|e|]; [|split_and!; try apply Hs1; try done; intros Hq; by destruct (Hc1 Hq) ..].
  apply wp_io. pose proof (sys_call_spec fs1) as H2. destruct (sys_call fs1) as [r2 fs2]. destruct H2 as [Hs2 Hc2].
  pose proof (same_files_trans _ _ _ Hs1 Hs2) as Hs.
  destruct r2 as [[]|e|]; (split; [done|]); (split; [done|]); intros Hq; destruct (Hc1 Hq) as [Hq1 _];
    by destruct (Hc2 Hq1).
Qed.

(** Syncing a temporary file and giving it the name [p]: as a whole or not at all. *)
Lemma wp_install e1 e2 e3 e4 tmp p s (x : X) fs :
  fs_wf fs -> content tmp fs = Some s -> tmp <> p ->
  wp (op_bind (op_io e1 sys_call) (fun _ => op_bind (op_io e2 (rename tmp p)) (fun _ => fsync_with e3 e4)))
     (fun r x' fs' =>
        x' = x /\ fs_wf fs' /\ (forall p', p' <> tmp -> p' <> p -> kept p' fs fs') /\
        ((file_of p fs' = file_of tmp fs /\ content p fs' = Some s) \/ (r <> ORet (Ok tt) /\ kept p fs fs')) /\
        (calm_fs fs -> calm_fs fs' /\ r = ORet (Ok tt))) x fs.
Proof.
  intros Hwf Hs Hne. apply wp_call. pose proof (sys_call_spec fs) as H1. destruct (sys_call fs) as [r1 fs1].
  destruct H1 as [Hs1 Hc1]. pose proof same_files_kept as Hk. pose proof (proj1 (same_files_keep _ _ Hs1) Hwf) as Hwf1.
  destruct r1 as [u|e|]; [|split_and!; try done; [by auto|right; by auto|intros Hq; by destruct (Hc1 Hq)] ..].
  destruct (Hk _ _ tmp Hs1) as [Hf1 Hct1]. rewrite Hs in Hct1.
  apply wp_call. pose proof (rename_spec tmp p fs1 Hwf1 (content_file _ _ _ Hct1) Hne) as H2.
  destruct (rename tmp p fs1) as [r2 fs2]. destruct H2 as (Hwf2 & Hc2 & Hr2).
  destruct r2 as [u2|e|]; cbn [io_done] in Hr2;
    [|pose proof (same_files_trans _ _ _ Hs1 Hr2); split_and!; try done;
      [by auto|right; by auto|intros Hq; destruct (Hc1 Hq) as [Hq1 _]; by destruct (Hc2 Hq1)] ..].
  destruct Hr2 as (Hf2 & Hct2 & Ho2).
  eapply wp_mono; [apply wp_fsync_with|]. intros r3 x3 fs3 (-> & Hs3 & Hc3).
  split_and!; [done|by apply (same_files_keep _ _ Hs3)| | |].
  - intros p' Hp1 Hp2. eapply kept_trans; [by apply Hk|]. eapply kept_trans; [by apply Ho2|by apply Hk].
  - left. destruct (Hk _ _ p Hs3) as [-> ->]. by rewrite Hf2, Hct2, Hf1.
  - intros Hq. destruct (Hc1 Hq) as [Hq1 _]. destruct (Hc2 Hq1) as [Hq2 _]. by apply Hc3.
Qed.

(** A new file of lines, complete before it is given its name. *)
Definition put_file (tmp p : string) (e1 e2 e3 e4 e5 e6 e7 e8 : string -> AgentRtError)
    {A} (header : result string string) (print : A -> result string string) (es : list A) : Op X unit :=
  let! file := op_io e1 (create tmp) in
  let writer := mkBufWriter file "" in
  let! header := or_drop e2 writer header in
  let! writer := write_lines e3 print es (bw_writeln header writer) in
  let! _ := op_io e4 (bw_flush_local writer) in
  let! _ := op_io e5 sys_call in
  let! _ := op_io e6 (rename tmp p) in
  fsync_with e7 e8.

Lemma wp_put_file tmp p e1 e2 e3 e4 e5 e6 e7 e8 {A} (print : A -> result string string) es h ls (x : X) fs :
  fs_wf fs -> tmp <> p -> Forall2 (prints print) es ls ->
  wp (put_file tmp p e1 e2 e3 e4 e5 e6 e7 e8 (Ok h) print es)
     (fun r x' fs' =>
        x' = x /\ fs_wf fs' /\ (forall p', p' <> tmp -> p' <> p -> kept p' fs fs') /\
        (content p fs' = Some (unlines (h :: ls)) \/ (r <> ORet (Ok tt) /\ kept p fs fs')) /\
        (calm_fs fs -> calm_fs fs' /\ r = ORet (Ok tt))) x fs.
Proof.
  intros Hwf Hne Hls. unfold put_file. apply wp_call. pose proof (create_spec tmp fs Hwf) as H1.
  destruct (create tmp fs) as [r1 fs1]. destruct H1 as [(Hwf1 & Ho1 & Hr1) Hc1].
  assert (Hk1 : forall p', p' <> tmp -> kept p' fs fs1) by (intros p' Hp'; by apply Ho1).
  destruct r1 as [j|e|]; [|split_and!; [done|done|by auto|right; by auto|]; intros Hq; by destruct (Hc1 Hq) ..].
  destruct Hr1 as [Hf1 Hct1]. unfold or_drop at 1. apply wp_ret_bind, wp_bind.
  unfold wp at 1. rewrite (write_lines_prints _ _ es ls) by done. cbn [bw_writeln bw_file bw_buf].
  apply wp_call. set (b := mkBufWriter _ _). assert (Hbuf : bw_buf b = unlines (h :: ls)).
  { change ((h +:+ newline) +:+ unlines ls = unlines (h :: ls)). by rewrite str_app_assoc. }
  pose proof (bw_flush_local_spec tmp b fs1 Hwf1 Hf1) as H2. destruct (bw_flush_local b fs1) as [r2 fs2].
  destruct H2 as (Hwf2 & Ho2 & Hf2 & Hct2 & Hc2).
  assert (Hk2 : forall p', p' <> tmp -> kept p' fs fs2).
  { intros p' Hp'. eapply kept_trans; [by apply Hk1|]. by apply Ho2. }
  destruct r2 as [u|e|];
    [|split_and!; [done|done|by auto|right; by auto|]; intros Hq; destruct (Hc1 Hq) as [Hq1 _]; by destruct (Hc2 Hq1) ..].
  specialize (Hct2 eq_refl). rewrite Hct1, Hbuf in Hct2. cbn [default from_option] in Hct2.
  eapply wp_mono; [by apply (wp_install e5 e6 e7 e8 tmp p (unlines (h :: ls)) x fs2)|].
  intros r x' fs3 (-> & Hwf3 & Ho3 & Hor3 & Hc3). split_and!; [done|done| | |].
  - intros p' Hp1 Hp2. eapply kept_trans; [by apply Hk2|by apply Ho3].
  - destruct Hor3 as [[_ Hct]|[Hnr Hkp]]; [by left|right]. split; [done|].
    eapply kept_trans; [apply Hk2; congruence|done].
  - intros Hq. destruct (Hc1 Hq) as [Hq1 _]. destruct (Hc2 Hq1) as [Hq2 _]. by apply Hc3.
Qed.

(** Reading a whole file, without faults. *)
Lemma wp_read_file {C} e1 e2 p s (k : string -> Op X C) Q (x : X) fs :
  content p fs = Some s -> calm_fs fs ->
  (forall fs', same_files fs fs' -> calm_fs fs' -> wp (k s) Q x fs') ->
  wp (op_bind (op_io e1 (open_read p)) (fun _ => op_bind (op_io e2 (read p)) k)) Q x fs.
Proof.
  intros Hc Hq Hk. apply wp_call. pose proof (open_read_spec p fs) as H1.
  destruct (open_read p fs) as [r fs1]. destruct H1 as [Hs1 Hd1].
  destruct (Hd1 (content_file _ _ _ Hc) Hq) as [Hq1 Hr1]. destruct r as [u|e|]; [|done..].
  apply wp_call. pose proof (read_spec p fs1) as H2. destruct (read p fs1) as [r fs2].
  destruct H2 as (Hs2 & Hr2 & Hd2). destruct (same_files_kept _ _ p Hs1) as [_ Hct]. rewrite Hct, Hc in Hr2, Hd2.
  destruct (Hd2 (mk_is_Some _ _ eq_refl) Hq1) as [Hq2 Hr]. destruct r as [s'|e|]; [|done..].
  specialize (Hr2 s' eq_refl). simplify_eq. apply Hk; [by eapply same_files_trans|done].
Qed.
End install.

(** * A concrete text format

    Stands in for [serde_json] where the development computes: any countable datum on a
    line, as its code number in binary, least bit first. *)
Module LineCodec.
Fixpoint bits (p : positive) : string :=
  match p with xH => "H" | xO p => String "0"%char (bits p) | xI p => String "1"%char (bits p) end.
Fixpoint of_bits (s : string) : option positive :=
  match s with
  | EmptyString => None
  | String c s =>
      match c, s with
      | "H"%char, EmptyString => Some xH
      | "0"%char, s => xO <$> of_bits s
      | "1"%char, s => xI <$> of_bits s
      | _, _ => None
      end
  end.

Definition print {A} `{Countable A} (a : A) : string := String "{"%char (bits (encode a)).
Definition parse {A} `{Countable A} (s : string) : result A string :=
  ok_or (match s with String "{"%char s => of_bits s ≫= decode | _ => None end) "syntax".

Lemma of_bits_bits p : of_bits (bits p) = Some p.
Proof. induction p as [p IH|p IH|]; cbn; [by rewrite IH..|done]. Qed.

Lemma print_line {A} `{Countable A} (a : A) : is_line (print a).
Proof. split; [|done]. unfold print. cbn. by induction (encode a). Qed.

Lemma parse_print {A} `{Countable A} (a : A) : parse (print a) = Ok a.
Proof. unfold parse, print. rewrite of_bits_bits. cbn. by rewrite decode_encode. Qed.
End LineCodec.
