(* ===== verification/DurableMailbox.v ===== *)
(** Durable mailboxes ([agent_rt/durable_mailbox.rs]): a write-ahead log of messages and
    a file with the last acknowledged sequence number.

    [serde_json] is the class [WalCodec].  Lines are taken to be shorter than the writer's
    buffer, so that bytes reach the file in [flush]; what a call that returned wrote is on
    disk (a crash kills the process, not the machine). *)
From S2P Require Import Prelude Types FileSystem.

Definition SCHEMA_VERSION : Z := 1.

Record WalHeader : Type := mkWalHeader { wh_version : Z; wh_type : string; wh_stable_id : string }.

Record WalEntry (V : Type) : Type := mkWalEntry { we_seq : Z; we_ts : Z; we_msg : Message V }.
Arguments mkWalEntry {V}.
Arguments we_seq {V}.
Arguments we_ts {V}.
Arguments we_msg {V}.

(** [serde_json::to_string] and [from_str] for the two derived formats, and the messages
    that survive the trip (floating-point numbers may not). *)
Class WalCodec (V : Type) : Type := {
  header_print : WalHeader -> result string string;
  entry_print : WalEntry V -> result string string;
  entry_parse : string -> result (WalEntry V) string;
  msg_exact : Message V -> Prop
}.

Definition is_i64 (z : Z) : Prop := - 2 ^ 63 <= z < 2 ^ 63.
Definition entry_ok {V} `{WalCodec V} (e : WalEntry V) : Prop :=
  is_u64 (we_seq e) /\ is_i64 (we_ts e) /\ msg_exact (we_msg e).

Class WalLaws (V : Type) `{WalCodec V} : Prop := {
  header_print_ok h : exists s, header_print h = Ok s /\ is_line s;
  entry_print_ok e : entry_ok e -> exists s, entry_print e = Ok s /\ is_line s /\ entry_parse s = Ok e;
  entry_parse_seq s e : entry_parse s = Ok e -> is_u64 (we_seq e)
}.

Record DurableMailbox : Type := mkDurableMailbox {
  dm_stable_id : string;
  dm_wal_path : string;
  dm_ack_path : string;
  dm_dir : string;
  dm_writer : option BufWriter;
  dm_sequence : Z;
  dm_last_acked_seq : Z
}.

Definition dm_with_writer (b : option BufWriter) (d : DurableMailbox) : DurableMailbox :=
  mkDurableMailbox (dm_stable_id d) (dm_wal_path d) (dm_ack_path d) (dm_dir d) b (dm_sequence d) (dm_last_acked_seq d).
Definition dm_with_sequence (n : Z) (d : DurableMailbox) : DurableMailbox :=
  mkDurableMailbox (dm_stable_id d) (dm_wal_path d) (dm_ack_path d) (dm_dir d) (dm_writer d) n (dm_last_acked_seq d).
Definition dm_with_acked (n : Z) (d : DurableMailbox) : DurableMailbox :=
  mkDurableMailbox (dm_stable_id d) (dm_wal_path d) (dm_ack_path d) (dm_dir d) (dm_writer d) (dm_sequence d) n.

(** An error with its context: [format!("...: {}", e)]. *)
Definition dm_err (ctx : string) (e : string) : AgentRtError := EDurableMailbox (ctx +:+ ": " +:+ e).

Definition as_i64 (z : Z) : Z := (z + 2 ^ 63) mod 2 ^ 64 - 2 ^ 63.

(** The loops over the lines of a log: blank lines are skipped, and the header. *)
Fixpoint scan {A} (first : bool) (f : A -> string -> result A string) (acc : A) (ls : list string) : result A string :=
  match ls with
  | [] => Ok acc
  | l :: ls =>
      if is_blank l then scan first f acc ls
      else if first then scan false f acc ls
      else let? acc := f acc l in scan false f acc ls
  end.

Section mailbox.
Context {V : Type} `{WC : WalCodec V}.
Implicit Types (msg : Message V).

Definition fsync_dir {X} : Op X unit := fsync_with (dm_err "open dir for fsync") (dm_err "fsync dir").

Definition wal_header (stable_id : string) : WalHeader := mkWalHeader SCHEMA_VERSION "wal" stable_id.

(** The bodies of the three loops. *)
Definition max_seq_of (acc : Z) (line : string) : result Z string :=
  match entry_parse line with Ok e => Ok (if acc <? we_seq e then we_seq e else acc) | Err _ => Ok acc end.
Definition push_pending (acked : Z) (acc : list (WalEntry V)) (line : string) : result (list (WalEntry V)) string :=
  let? e := entry_parse line in Ok (if acked <? we_seq e then acc ++ [e] else acc).
Definition push_readable (acc : list (WalEntry V)) (line : string) : result (list (WalEntry V)) string :=
  match entry_parse line with Ok e => Ok (acc ++ [e]) | Err _ => Ok acc end.

Definition read_acked {X} (ack_path : string) : Op X Z :=
  let! there := op_fs (path_exists ack_path) in
  if there then
    let! content := op_io (dm_err "read ack") (read ack_path) in
    op_result (dm_err "bad ack file") (parse_u64 (trim content))
  else op_ret 0.

Definition read_max_seq {X} (wal_path : string) : Op X Z :=
  let! there := op_fs (path_exists wal_path) in
  if there then
    let! _ := op_io (dm_err "open wal") (open_read wal_path) in
    let! content := op_io (dm_err "read wal") (read wal_path) in
    op_result (dm_err "read wal") (scan true max_seq_of 0 (lines content))
  else op_ret 0.

Definition open_writer {X} (stable_id wal_path : string) : Op X BufWriter :=
  let! there := op_fs (path_exists wal_path) in
  if there then
    let! file := op_io (dm_err "open wal append") (open_append false wal_path) in
    op_ret (mkBufWriter file "")
  else
    let! file := op_io (dm_err "create wal") (create wal_path) in
    let writer := mkBufWriter file "" in
    let! header := or_drop (dm_err "serialize header") writer (header_print (wal_header stable_id)) in
    let! _ := op_io (dm_err "flush header") (bw_flush_local (bw_writeln header writer)) in
    op_ret (mkBufWriter file "").

Definition dm_open {X} (stable_id dir : string) : Op X DurableMailbox :=
  let! _ := op_io (dm_err "create dir") sys_call in
  let wal_path := path_join dir (stable_id +:+ ".wal") in
  let ack_path := path_join dir (stable_id +:+ ".ack") in
  let! last_acked_seq := read_acked ack_path in
  let! max_seq := read_max_seq wal_path in
  let! writer := open_writer stable_id wal_path in
  op_ret (mkDurableMailbox stable_id wal_path ack_path dir (Some writer) max_seq last_acked_seq).

(** [writer.flush()] on the writer of the mailbox. *)
Definition flush_writer : Op DurableMailbox unit := fun d fs =>
  match dm_writer d with
  | None => (ORet (Ok tt), d, fs)
  | Some b =>
      match bw_flush b fs with
      | (IoDone _, b, fs) => (ORet (Ok tt), dm_with_writer (Some b) d, fs)
      | (IoFail e, b, fs) => (ORet (Err (dm_err "flush" e)), dm_with_writer (Some b) d, fs)
      | (IoCrash, b, fs) => (OCrash, dm_with_writer (Some b) d, fs)
      end
  end.

(** [append]; [now] is the wall clock in seconds. *)
Definition dm_append (now : Z) msg : Op DurableMailbox Z :=
  let! _ := op_modify (fun d => dm_with_sequence (wrap64 (dm_sequence d + 1)) d) in
  let! d := op_get in
  let entry := mkWalEntry (dm_sequence d) (as_i64 now) msg in
  match dm_writer d with
  | None => op_ret (dm_sequence d)
  | Some b =>
      let! line := op_result (dm_err "serialize") (entry_print entry) in
      let! _ := op_modify (dm_with_writer (Some (bw_writeln line b))) in
      let! _ := flush_writer in
      let! _ := op_io (dm_err "fsync") sys_call in
      op_ret (dm_sequence d)
  end.

Definition dm_replay : Op DurableMailbox (list (WalEntry V)) :=
  let! d := op_get in
  let! there := op_fs (path_exists (dm_wal_path d)) in
  if there then
    let! _ := op_io (dm_err "open replay") (open_read (dm_wal_path d)) in
    let! content := op_io (dm_err "read replay") (read (dm_wal_path d)) in
    op_result (dm_err "bad entry") (scan true (push_pending (dm_last_acked_seq d)) [] (lines content))
  else op_ret [].

Definition dm_replay_all : Op DurableMailbox (list (WalEntry V)) :=
  let! d := op_get in
  let! there := op_fs (path_exists (dm_wal_path d)) in
  if there then
    let! _ := op_io (dm_err "open replay all") (open_read (dm_wal_path d)) in
    let! content := op_io (dm_err "read") (read (dm_wal_path d)) in
    op_result (dm_err "read") (scan true push_readable [] (lines content))
  else op_ret [].

Definition dm_ack (seq : Z) : Op DurableMailbox unit :=
  let! d := op_get in
  if seq <=? dm_last_acked_seq d then
    op_err (EDurableMailbox ("ack seq " +:+ u64_to_string seq +:+ " must be greater than last acked " +:+
                             u64_to_string (dm_last_acked_seq d)))
  else if dm_sequence d <? seq then
    op_err (EDurableMailbox ("ack seq " +:+ u64_to_string seq +:+ " exceeds current seq " +:+
                             u64_to_string (dm_sequence d)))
  else
    let tmp_path := path_join (dm_dir d) (dm_stable_id d +:+ ".ack.tmp") in
    let! _ := op_io (dm_err "write ack tmp") (write_file tmp_path (u64_to_string seq)) in
    let! _ := op_io (dm_err "open ack tmp") (open_read tmp_path) in
    let! _ := op_io (dm_err "fsync ack") sys_call in
    let! _ := op_io (dm_err "rename ack") (rename tmp_path (dm_ack_path d)) in
    let! _ := fsync_dir in
    op_modify (dm_with_acked seq).

Definition drop_writer : Op DurableMailbox unit := fun d fs =>
  match dm_writer d with
  | None => (ORet (Ok tt), d, fs)
  | Some b => match bw_drop b fs with
              | (IoCrash, fs) => (OCrash, d, fs)
              | (_, fs) => (ORet (Ok tt), d, fs)
              end
  end.

(** The first part of [truncate]: a new log takes the place of the old one. *)
Definition rewrite_wal {X} (d : DurableMailbox) (kept : list (WalEntry V)) : Op X unit :=
  let tmp_path := path_join (dm_dir d) (dm_stable_id d +:+ ".wal.tmp") in
  let! file := op_io (dm_err "create wal tmp") (create tmp_path) in
  let writer := mkBufWriter file "" in
  let! header := or_drop (dm_err "serialize header") writer (header_print (wal_header (dm_stable_id d))) in
  let! writer := write_lines (dm_err "serialize entry") entry_print kept (bw_writeln header writer) in
  let! _ := op_io (dm_err "flush") (bw_flush_local writer) in
  let! _ := op_io (dm_err "sync") sys_call in
  let! _ := op_io (dm_err "rename wal") (rename tmp_path (dm_wal_path d)) in
  fsync_dir.

Definition dm_truncate : Op DurableMailbox unit :=
  let! entries := dm_replay_all in
  let! d := op_get in
  let! _ := rewrite_wal d (retain (fun e => dm_last_acked_seq d <? we_seq e) entries) in
  let! file := op_io (dm_err "reopen wal") (open_append false (dm_wal_path d)) in
  let! _ := drop_writer in
  op_modify (dm_with_writer (Some (mkBufWriter file ""))).

Definition last_acked_seq (d : DurableMailbox) : Z := dm_last_acked_seq d.
Definition current_seq (d : DurableMailbox) : Z := dm_sequence d.
End mailbox.

(** ** The promise of a mailbox: a queue *)

Record Queue (V : Type) : Type := mkQueue { q_entries : list (WalEntry V); q_sequence : Z; q_acked : Z }.
Arguments mkQueue {V}.
Arguments q_entries {V}.
Arguments q_sequence {V}.
Arguments q_acked {V}.

Section spec.
Context {V : Type} `{WC : WalCodec V, !WalLaws V}.
Implicit Types (q : Queue V) (d : DurableMailbox) (fs : FS) (msg : Message V).

Definition newer (acked : Z) (e : WalEntry V) : bool := acked <? we_seq e.
Definition pending q : list (WalEntry V) := retain (newer (q_acked q)) (q_entries q).
Definition max_seq (es : list (WalEntry V)) : Z :=
  foldl (fun acc e => if acc <? we_seq e then we_seq e else acc) 0 es.

Definition q_append (now : Z) msg q : Z * Queue V :=
  let seq := wrap64 (q_sequence q + 1) in
  (seq, mkQueue (q_entries q ++ [mkWalEntry seq (as_i64 now) msg]) seq (q_acked q)).
Definition q_ack (seq : Z) q : bool * Queue V :=
  if (q_acked q <? seq) && (seq <=? q_sequence q) then (true, mkQueue (q_entries q) (q_sequence q) seq)
  else (false, q).
Definition q_truncate q : Queue V := mkQueue (pending q) (q_sequence q) (q_acked q).
(** Reopening takes the sequence number from what is left in the log. *)
Definition q_reopen q : Queue V := mkQueue (q_entries q) (max_seq (q_entries q)) (q_acked q).

(** The text of a log. *)
Definition printed (e : WalEntry V) (l : string) : Prop :=
  entry_print e = Ok l /\ is_line l /\ entry_parse l = Ok e.
Definition wal_text (id : string) (es : list (WalEntry V)) (s : string) : Prop :=
  exists h ls, header_print (wal_header id) = Ok h /\ is_line h /\ Forall2 printed es ls /\ s = unlines (h :: ls).

(** The four files of a mailbox. *)
Definition wal_of (dir id : string) : string := path_join dir (id +:+ ".wal").
Definition ack_of (dir id : string) : string := path_join dir (id +:+ ".ack").
Definition wal_tmp_of (dir id : string) : string := path_join dir (id +:+ ".wal.tmp").
Definition ack_tmp_of (dir id : string) : string := path_join dir (id +:+ ".ack.tmp").

Definition stored_ack (path : string) (fs : FS) (n : Z) : Prop :=
  match file_of path fs with
  | None => n = 0
  | Some _ => exists s, content path fs = Some s /\ parse_u64 (trim s) = Ok n
  end.

(** What the files say. *)
Definition on_disk (dir id : string) (fs : FS) q : Prop :=
  fs_wf fs /\ (exists s, content (wal_of dir id) fs = Some s /\ wal_text id (q_entries q) s) /\
  stored_ack (ack_of dir id) fs (q_acked q).

(** An open mailbox that stands for the queue [q]. *)
Definition represents (dir id : string) d (fs : FS) q : Prop :=
  on_disk dir id fs q /\ is_u64 (q_sequence q) /\
  exists i, file_of (wal_of dir id) fs = Some i /\
  d = mkDurableMailbox id (wal_of dir id) (ack_of dir id) dir (Some (mkBufWriter i "")) (q_sequence q) (q_acked q).

Lemma as_i64_range z : is_i64 (as_i64 z).
Proof. unfold is_i64, as_i64. pose proof (Z.mod_pos_bound (z + 2 ^ 63) (2 ^ 64)). lia. Qed.

(** ** Reading a log *)

Lemma wal_text_lines id es s :
  wal_text id es s -> exists h ls, lines s = h :: ls /\ is_blank h = false /\ Forall2 printed es ls.
Proof.
  intros (h & ls & _ & [Hn Hb] & Hls & ->). exists h, ls. split_and!; try done.
  apply lines_unlines. constructor; [done|]. induction Hls as [|e l es ls (_ & [? _] & _) _ IH]; by constructor.
Qed.

Lemma scan_wal {A} (f : A -> string -> result A string) (g : A -> WalEntry V -> A) id es s acc :
  (forall a e l, printed e l -> f a l = Ok (g a e)) ->
  wal_text id es s -> scan true f acc (lines s) = Ok (foldl g acc es).
Proof.
  intros Hf Hs. destruct (wal_text_lines _ _ _ Hs) as (h & ls & -> & Hb & Hls). cbn [scan]. rewrite Hb. clear Hs.
  revert acc. induction Hls as [|e l es ls Hel _ IH]; intros acc; [done|]. cbn [scan foldl].
  assert (is_blank l = false) as -> by apply Hel. rewrite (Hf _ _ _ Hel). apply IH.
Qed.

Lemma foldl_retain (p : WalEntry V -> bool) acc es :
  foldl (fun acc e => if p e then acc ++ [e] else acc) acc es = acc ++ retain p es.
Proof.
  revert acc. induction es as [|e es IH]; intros acc; [by rewrite app_nil_r|]. cbn. rewrite IH.
  destruct (p e); [by rewrite <- app_assoc|done].
Qed.

Lemma scan_pending id es s acked :
  wal_text id es s -> scan true (push_pending acked) [] (lines s) = Ok (retain (newer acked) es).
Proof.
  intros Hs. rewrite (scan_wal _ (fun acc e => if newer acked e then acc ++ [e] else acc) id es s); [|..|done].
  - by rewrite foldl_retain.
  - intros a e l (_ & _ & Hp). unfold push_pending. by rewrite Hp.
Qed.

Lemma scan_readable id es s : wal_text id es s -> scan true push_readable [] (lines s) = Ok es.
Proof.
  intros Hs. rewrite (scan_wal _ (fun acc e => acc ++ [e]) id es s); [|..|done].
  - pose proof (foldl_retain (fun _ => true) [] es) as Hf. cbn in Hf. by rewrite Hf, retain_id.
  - intros a e l (_ & _ & Hp). unfold push_readable. by rewrite Hp.
Qed.

Lemma scan_max id es s : wal_text id es s -> scan true max_seq_of 0 (lines s) = Ok (max_seq es).
Proof.
  intros Hs. eapply scan_wal; [|done]. intros a e l (_ & _ & Hp). unfold max_seq_of. by rewrite Hp.
Qed.

Lemma wal_text_app id es s e l :
  wal_text id es s -> printed e l -> wal_text id (es ++ [e]) (s +:+ l +:+ newline).
Proof.
  intros (h & ls & Hh & Hb & Hls & ->) Hl. exists h, (ls ++ [l]). split_and!; [done|done| |].
  - apply Forall2_app; [done|]. by constructor.
  - by rewrite <- unlines_app.
Qed.

Lemma wal_text_retain id es s p : wal_text id es s -> exists s', wal_text id (retain p es) s'.
Proof.
  intros (h & ls & Hh & Hb & Hls & ->).
  assert (exists ls', Forall2 printed (retain p es) ls') as [ls' Hls']; [|by exists (unlines (h :: ls')), h, ls'].
  induction Hls as [|e l es ls Hel _ [ls' IH]]; [by exists []|]. unfold retain. cbn.
  destruct (p e); [exists (l :: ls')|exists ls']; [by constructor|done].
Qed.

Lemma on_disk_same dir id fs fs' q : same_files fs fs' -> on_disk dir id fs q -> on_disk dir id fs' q.
Proof.
  intros Hs (Hwf & (s & Hc & Ht) & Ha). destruct (same_files_keep _ _ Hs) as [Hw Hk].
  split; [auto|]. split; [exists s; by rewrite (proj2 (Hk _))|].
  unfold stored_ack in *. by rewrite (proj1 (Hk _)), (proj2 (Hk _)).
Qed.

Lemma represents_same dir id d fs fs' q : same_files fs fs' -> represents dir id d fs q -> represents dir id d fs' q.
Proof.
  intros Hs (Hd & Hu & i & Hi & ->). split; [by eapply on_disk_same|]. split; [done|]. exists i.
  split; [|done]. by rewrite (proj1 (proj2 (same_files_keep _ _ Hs) _)).
Qed.

(** ** The operations, under any faults *)

Lemma on_disk_others dir id tmp fs fs' q :
  tmp <> wal_of dir id -> tmp <> ack_of dir id -> fs_wf fs' -> others_kept tmp fs fs' ->
  on_disk dir id fs q -> on_disk dir id fs' q.
Proof.
  intros Hw Ha Hwf Ho (_ & (s & Hc & Ht) & Hst). split; [done|].
  destruct (Ho (wal_of dir id)) as [_ Hk]; [congruence|]. destruct (Ho (ack_of dir id)) as [Hf Hk']; [congruence|].
  split; [exists s; by rewrite Hk|]. unfold stored_ack in *. by rewrite Hf, Hk'.
Qed.

(** Reading the log, whatever is made of it. *)
Lemma wp_read_log {X A} (ctx1 ctx2 ctx3 path s : string) (x : X) (fs : FS) (g : list string -> result A string) (a : A) :
  content path fs = Some s -> g (lines s) = Ok a ->
  wp (op_bind (op_io (dm_err ctx1) (open_read path)) (fun _ =>
        op_bind (op_io (dm_err ctx2) (read path)) (fun content => op_result (dm_err ctx3) (g (lines content)))))
     (fun r x' fs' => x' = x /\ same_files fs fs' /\ (forall b, r = ORet (Ok b) -> b = a) /\
                      (calm_fs fs -> calm_fs fs' /\ r = ORet (Ok a))) x fs.
Proof.
  intros Hc Hg. apply wp_call. pose proof (open_read_spec path fs) as H1.
  destruct (open_read path fs) as [r fs1]. destruct H1 as [Hs1 Hd1]. specialize (Hd1 (content_file _ _ _ Hc)).
  destruct r as [u|e|]; [|split_and!; try done; [intros Hq; by destruct (Hd1 Hq)]..].
  apply wp_call. pose proof (read_spec path fs1) as H2. destruct (read path fs1) as [r fs2].
  destruct H2 as (Hs2 & Hr2 & Hd2). rewrite (proj2 (proj2 (same_files_keep _ _ Hs1) path)), Hc in Hr2, Hd2.
  specialize (Hd2 (mk_is_Some _ _ eq_refl)).
  assert (Hs : same_files fs fs2) by (unfold same_files in *; intuition congruence).
  destruct r as [s'|e|];
    [|split_and!; try apply Hs; try done; intros Hq; destruct (Hd1 Hq) as [Hq1 _]; by destruct (Hd2 Hq1) ..].
  specialize (Hr2 s' eq_refl). simplify_eq. apply wp_result. rewrite Hg.
  split_and!; try apply Hs; try done; [naive_solver|].
  intros Hq. destruct (Hd1 Hq) as [Hq1 _]. destruct (Hd2 Hq1). by split_and!.
Qed.

Lemma wp_replay dir id d fs q :
  represents dir id d fs q ->
  wp dm_replay (fun r d' fs' => d' = d /\ same_files fs fs' /\ (forall l, r = ORet (Ok l) -> l = pending q) /\
                                (calm_fs fs -> calm_fs fs' /\ r = ORet (Ok (pending q)))) d fs.
Proof.
  intros ((Hwf & (s & Hc & Ht) & Ha) & Hu & i & Hi & ->). apply wp_get, wp_fs. cbn [dm_wal_path dm_last_acked_seq].
  rewrite path_exists_true by (by rewrite Hi). eapply wp_read_log; [done|]. eapply scan_pending. done.
Qed.

Lemma wp_replay_all dir id d fs q :
  represents dir id d fs q ->
  wp dm_replay_all (fun r d' fs' => d' = d /\ same_files fs fs' /\ (forall l, r = ORet (Ok l) -> l = q_entries q) /\
                                (calm_fs fs -> calm_fs fs' /\ r = ORet (Ok (q_entries q)))) d fs.
Proof.
  intros ((Hwf & (s & Hc & Ht) & Ha) & Hu & i & Hi & ->). apply wp_get, wp_fs. cbn [dm_wal_path].
  rewrite path_exists_true by (by rewrite Hi). eapply wp_read_log; [done|]. eapply scan_readable. done.
Qed.

Lemma entry_printed e : entry_ok e -> exists l, printed e l.
Proof. intros He. destruct (entry_print_ok e He) as (l & ? & ? & ?). by exists l. Qed.

Lemma wp_append dir id d fs q now msg :
  represents dir id d fs q -> msg_exact msg -> calm_fs fs ->
  wp (dm_append now msg) (fun r d' fs' => r = ORet (Ok (q_append now msg q).1) /\ calm_fs fs' /\
                                          represents dir id d' fs' (q_append now msg q).2) d fs.
Proof.
  intros ((Hwf & (s & Hc & Ht) & Ha) & Hu & i & Hi & ->) Hm Hq. apply wp_modify, wp_get.
  cbn [dm_with_sequence dm_sequence dm_writer]. set (seq := wrap64 (q_sequence q + 1)).
  destruct (entry_printed (mkWalEntry seq (as_i64 now) msg)) as [l Hl].
  { split_and!; [apply wrap64_range|apply as_i64_range|done]. }
  apply wp_bind, wp_result. destruct Hl as [Hl Hrest]. rewrite Hl. apply wp_modify, wp_bind.
  unfold wp at 1, flush_writer. cbn [dm_writer dm_with_writer].
  set (b := bw_writeln l (mkBufWriter i ""  )).
  pose proof (bw_flush_spec (wal_of dir id) b fs Hwf Hi) as Hf.
  destruct (bw_flush b fs) as [[r b'] fs1]. destruct Hf as (Hwf1 & Ho1 & Hi1 & Hb1 & Hd1 & Hc1).
  destruct (Hc1 Hq) as [Hq1 Hr]. destruct r as [u|e|]; [|done..]. destruct (Hd1 eq_refl) as [He Hct].
  apply wp_call. pose proof (sys_call_spec fs1) as Hs. destruct (sys_call fs1) as [r fs2].
  destruct Hs as [Hs2 Hc2]. destruct (Hc2 Hq1) as [Hq2 Hr2]. destruct r; [|done..].
  split; [done|]. split; [done|]. eapply represents_same; [done|].
  split; [split; [done|split]|split; [apply wrap64_range|]].
  - eexists. split; [exact Hct|]. rewrite Hc. cbn [default from_option]. apply wal_text_app; [done|by split].
  - destruct (Ho1 (ack_of dir id)) as [Hf Hk]; [by apply path_join_inj|].
    unfold stored_ack in *. by rewrite Hf, Hk.
  - exists i. split; [done|]. destruct b' as [fi bb]. cbn in *. by subst fi bb.
Qed.

Definition fails {A} (r : outcome_io A) : Prop := match r with ORet (Err _) => True | _ => False end.

Lemma on_disk_kept dir id fs fs' q :
  fs_wf fs' -> kept (wal_of dir id) fs fs' -> kept (ack_of dir id) fs fs' -> on_disk dir id fs q -> on_disk dir id fs' q.
Proof.
  intros Hwf [_ Hk] [Hf Hk'] (_ & (s & Hc & Ht) & Hst). split; [done|].
  split; [exists s; by rewrite Hk|]. unfold stored_ack in *. by rewrite Hf, Hk'.
Qed.

(** The acknowledgement that passed its checks. *)
Lemma wp_write_ack dir id d fs q n :
  represents dir id d fs q -> is_u64 n ->
  let tmp := ack_tmp_of dir id in
  let q' := mkQueue (q_entries q) (q_sequence q) n in
  wp (op_bind (op_io (dm_err "write ack tmp") (write_file tmp (u64_to_string n))) (fun _ =>
      op_bind (op_io (dm_err "open ack tmp") (open_read tmp)) (fun _ =>
      op_bind (op_io (dm_err "fsync ack") sys_call) (fun _ =>
      op_bind (op_io (dm_err "rename ack") (rename tmp (ack_of dir id))) (fun _ =>
      op_bind fsync_dir (fun _ => op_modify (dm_with_acked n)))))))
     (fun r d' fs' =>
        (on_disk dir id fs' q \/ on_disk dir id fs' q') /\
        (calm_fs fs -> calm_fs fs' /\ r = ORet (Ok tt) /\ represents dir id d' fs' q')) d fs.
Proof.
  intros (Hd & Hu & i & Hi & Hdeq) Hn tmp q'.
  assert (Htw : tmp <> wal_of dir id) by (by apply path_join_inj).
  assert (Hta : tmp <> ack_of dir id) by (by apply path_join_inj).
  assert (Hwa : wal_of dir id <> ack_of dir id) by (by apply path_join_inj).
  pose proof Hd as (Hwf & _). apply wp_call. pose proof (write_file_spec tmp (u64_to_string n) fs Hwf) as Hw.
  destruct (write_file tmp _ fs) as [r1 fs1]. destruct Hw as (Hwf1 & Ho1 & Hd1 & Hc1).
  assert (Hdisk1 : on_disk dir id fs1 q) by (by eapply on_disk_others).
  destruct r1 as [u|e|]; [|split; [by left|]; intros Hq; by destruct (Hc1 Hq) ..].
  destruct (Hd1 eq_refl) as [Hf1 Hct1].
  apply wp_call. pose proof (open_read_spec tmp fs1) as Hor. destruct (open_read tmp fs1) as [r2 fs2].
  destruct Hor as [Hs2 Hc2]. specialize (Hc2 Hf1). pose proof (on_disk_same _ _ _ _ _ Hs2 Hdisk1) as Hdisk2.
  destruct r2 as [u2|e|]; [|split; [by left|]; intros Hq; destruct (Hc1 Hq) as [Hq1 _]; by destruct (Hc2 Hq1) ..].
  destruct (same_files_kept _ _ tmp Hs2) as [_ Hct2]. rewrite Hct1 in Hct2.
  apply wp_group, wp_bind. eapply wp_mono; [by eapply (wp_install _ _ _ _ tmp (ack_of dir id) _ d fs2 (proj1 Hdisk2))|].
  intros r d' fs3 (-> & Hwf3 & Ho3 & Hor3 & Hc3). specialize (Ho3 (wal_of dir id)).
  assert (Hkw : kept (wal_of dir id) fs2 fs3) by (by apply Ho3).
  assert (Hcalm : calm_fs fs -> calm_fs fs3 /\ r = ORet (Ok tt)).
  { intros Hq. destruct (Hc1 Hq) as [Hq1 _]. destruct (Hc2 Hq1) as [Hq2 _]. by apply Hc3. }
  destruct Hor3 as [[Hf3 Hct3]|[Hnr Hka]].
  - assert (Hdisk3 : on_disk dir id fs3 q').
    { destruct Hdisk2 as (_ & (s & Hs & Ht) & _). split; [done|]. split; [exists s; by rewrite (proj2 Hkw)|].
      unfold stored_ack. rewrite Hf3, Hct3. destruct (content_file _ _ _ Hct2) as [j ->].
      exists (u64_to_string n). split; [done|]. by apply parse_u64_to_string. }
    destruct r as [[[]|e]|]; [|split; [by right|]; intros Hq; by destruct (Hcalm Hq) ..].
    split; [by right|]. intros Hq. split; [by apply Hcalm|]. split; [done|]. split; [done|]. split; [done|].
    exists i. split; [|by subst d].
    rewrite (proj1 Hkw), (proj1 (same_files_kept _ _ _ Hs2)). by rewrite (proj1 (Ho1 _ (not_eq_sym Htw))).
  - assert (on_disk dir id fs3 q) by (by eapply on_disk_kept).
    destruct r as [[[]|e]|]; [done|split; [by left|]; intros Hq; by destruct (Hcalm Hq) ..].
Qed.

Lemma wp_ack dir id d fs q n :
  represents dir id d fs q -> is_u64 n ->
  wp (dm_ack n) (fun r d' fs' =>
    (on_disk dir id fs' q \/ on_disk dir id fs' (q_ack n q).2) /\
    (calm_fs fs -> calm_fs fs' /\ (if (q_ack n q).1 then r = ORet (Ok tt) else fails r) /\
                   represents dir id d' fs' (q_ack n q).2)) d fs.
Proof.
  intros Hrep Hn. pose proof Hrep as (Hd & Hu & i & Hi & Hdeq).
  apply wp_get. unfold q_ack.
  assert (dm_last_acked_seq d = q_acked q /\ dm_sequence d = q_sequence q /\ dm_dir d = dir /\ dm_stable_id d = id /\
          dm_ack_path d = ack_of dir id) as (-> & -> & -> & -> & ->) by (by subst d).
  destruct (n <=? q_acked q) eqn:H1, (q_acked q <? n) eqn:H1'; zify_bool; try lia; [by split; [left|]|].
  destruct (q_sequence q <? n) eqn:H2, (n <=? q_sequence q) eqn:H2'; zify_bool; try lia; [by split; [left|]|].
  cbn [andb fst snd]. eapply wp_mono; [by apply wp_write_ack|]. intros r d' fs' [Ho Hc]. split; [done|]. intros Hq.
  destruct (Hc Hq) as (? & ? & ?). by split_and!.
Qed.

(** The new log takes the place of the old one as a whole, or not at all. *)
Lemma wp_rewrite_wal dir id d fs q es :
  represents dir id d fs q -> (exists s, wal_text id es s) ->
  let q' := mkQueue es (q_sequence q) (q_acked q) in
  wp (rewrite_wal d es)
     (fun r d' fs' =>
        d' = d /\ (on_disk dir id fs' q \/ on_disk dir id fs' q') /\ (r = ORet (Ok tt) -> on_disk dir id fs' q') /\
        (calm_fs fs -> calm_fs fs' /\ r = ORet (Ok tt))) d fs.
Proof.
  intros (Hd & Hu & i & Hi & Hdeq) [s Ht] q'. pose proof Ht as (h & ls & Hh & Hb & Hls & Hs).
  unfold rewrite_wal.
  assert (dm_dir d = dir /\ dm_stable_id d = id /\ dm_wal_path d = wal_of dir id) as (-> & -> & ->) by (by subst d).
  rewrite Hh. assert (Hwa : ack_of dir id <> wal_of dir id) by (by apply path_join_inj).
  eapply wp_mono.
  { apply (wp_put_file (wal_tmp_of dir id) (wal_of dir id) _ _ _ _ _ _ _ _ entry_print es h ls d fs); [apply Hd|by apply path_join_inj|].
    clear -Hls. induction Hls as [|e l es ls [Hp _] _ IH]; by constructor. }
  intros r d' fs' (-> & Hwf' & Ho & Hor & Hc). rewrite <- Hs in Hor.
  assert (Hka : kept (ack_of dir id) fs fs') by (apply Ho; [by apply path_join_inj|done]).
  assert (Hnew : content (wal_of dir id) fs' = Some s -> on_disk dir id fs' q').
  { intros Hcw. destruct Hd as (_ & _ & Hst). split; [done|]. split; [by exists s|].
    unfold stored_ack in *. destruct Hka as [-> ->]. done. }
  split; [done|]. split; [|split; [|done]].
  - destruct Hor as [Hcw|[_ Hkw]]; [right; by apply Hnew|left; by eapply on_disk_kept].
  - intros Hr. destruct Hor as [Hcw|[Hnr _]]; [by apply Hnew|done].
Qed.

(** A truncation happens as a whole or not at all. *)
Lemma wp_truncate dir id d fs q :
  represents dir id d fs q ->
  wp dm_truncate (fun r d' fs' =>
    (on_disk dir id fs' q \/ on_disk dir id fs' (q_truncate q)) /\
    (calm_fs fs -> calm_fs fs' /\ r = ORet (Ok tt) /\ represents dir id d' fs' (q_truncate q))) d fs.
Proof.
  intros Hrep. apply wp_bind. eapply wp_mono; [by eapply wp_replay_all|].
  intros r1 d1 fs1 (-> & Hs1 & Hr1 & Hc1). pose proof (represents_same _ _ _ _ _ _ Hs1 Hrep) as Hrep1.
  destruct r1 as [[es|e]|]; [|split; [left; by apply Hrep1|]; intros Hq; by destruct (Hc1 Hq) ..].
  rewrite (Hr1 es eq_refl) in Hc1 |- *. clear Hr1 es.
  pose proof Hrep1 as ((Hwf & (s & Hs & Ht) & Ha) & Hu & i & Hi & Hdeq).
  assert (dm_last_acked_seq d = q_acked q /\ dm_wal_path d = wal_of dir id) as [Hac Hwp] by (by subst d).
  apply wp_get. rewrite Hac, Hwp. apply wp_bind.
  change (retain (fun e => q_acked q <? we_seq e) (q_entries q)) with (pending q).
  eapply wp_mono; [apply (wp_rewrite_wal dir id d fs1 q (pending q) Hrep1); by eapply wal_text_retain|].
  fold (q_truncate q). intros r2 d2 fs2 (-> & Hor2 & Hok2 & Hc2).
  assert (Hcalm2 : calm_fs fs -> calm_fs fs2 /\ r2 = ORet (Ok tt)).
  { intros Hq. destruct (Hc1 Hq) as [Hq1 _]. by apply Hc2. }
  destruct r2 as [[[]|e]|]; [|split; [done|]; intros Hq; by destruct (Hcalm2 Hq) ..].
  specialize (Hok2 eq_refl). pose proof Hok2 as (Hwf2 & (s2 & Hs2 & _) & _).
  apply wp_call. pose proof (open_append_spec _ fs2 Hwf2 (content_file _ _ _ Hs2)) as Hoa.
  destruct (open_append false _ fs2) as [r3 fs3]. destruct Hoa as [(_ & _ & Ho3) [Hs3 Hc3]].
  pose proof (on_disk_same _ _ _ _ _ Hs3 Hok2) as Hdisk3.
  destruct r3 as [j|e|]; [|split; [by right|]; intros Hq; destruct (Hcalm2 Hq) as [Hq2 _]; by destruct (Hc3 Hq2) ..].
  apply wp_bind. unfold wp at 1, drop_writer. rewrite Hdeq. cbn.
  split; [by right|]. intros Hq. destruct (Hcalm2 Hq) as [Hq2 _]. destruct (Hc3 Hq2) as [Hq3 _].
  split; [done|]. split; [done|]. split; [done|]. split; [done|]. exists j. split; [by apply Ho3|done].
Qed.

(** ** Opening *)

Lemma wal_text_seqs id es s : wal_text id es s -> Forall (fun e : WalEntry V => is_u64 (we_seq e)) es.
Proof.
  intros (h & ls & _ & _ & Hls & _). induction Hls as [|e l es ls (_ & _ & Hp) _ IH]; constructor; [|done].
  by eapply entry_parse_seq.
Qed.

Lemma max_seq_bounds (es : list (WalEntry V)) acc :
  Forall (fun e => is_u64 (we_seq e)) es -> is_u64 acc ->
  let m := foldl (fun acc e => if acc <? we_seq e then we_seq e else acc) acc es in
  is_u64 m /\ acc <= m /\ Forall (fun e => we_seq e <= m) es.
Proof.
  revert acc. induction es as [|e es IH]; intros acc Hes Hacc m; [by split_and!|].
  apply Forall_cons in Hes as [He Hes]. subst m. cbn.
  destruct (acc <? we_seq e) eqn:Hlt; zify_bool;
    (destruct (IH (if acc <? we_seq e then we_seq e else acc)) as (Hm & Hle & Hall); [done|by destruct (acc <? we_seq e)|]).
  - rewrite (proj2 (Z.ltb_lt _ _)) in Hm, Hle, Hall by done. split_and!; [done|lia|by constructor].
  - rewrite (proj2 (Z.ltb_ge _ _)) in Hm, Hle, Hall by done. split_and!; [done|lia|constructor; [lia|done]].
Qed.

Lemma max_seq_u64 id es s : wal_text id es s -> is_u64 (max_seq es).
Proof. intros Ht. apply (max_seq_bounds es 0); [by eapply wal_text_seqs|done]. Qed.

(** What a mailbox left behind: nothing yet, or its files. *)
Definition at_rest (dir id : string) fs q : Prop :=
  on_disk dir id fs q \/
  (fs_wf fs /\ file_of (wal_of dir id) fs = None /\ q_entries q = [] /\ stored_ack (ack_of dir id) fs (q_acked q)).

Lemma wp_read_acked {X} path n (x : X) fs :
  stored_ack path fs n -> calm_fs fs ->
  wp (read_acked path) (fun r x' fs' => r = ORet (Ok n) /\ same_files fs fs' /\ calm_fs fs') x fs.
Proof.
  intros Ha Hq. apply wp_fs. unfold stored_ack in Ha. destruct (file_of path fs) as [i|] eqn:Hf.
  - destruct Ha as (s & Hs & Hp). rewrite path_exists_true by (by rewrite Hf).
    apply wp_call. pose proof (read_spec path fs) as Hr. destruct (read path fs) as [r fs1].
    destruct Hr as (Hs1 & Hr & Hc). destruct (Hc (mk_is_Some _ _ Hs) Hq) as [Hq1 Hd].
    destruct r as [s'|e|]; [|done..]. specialize (Hr s' eq_refl). simplify_eq. apply wp_result. rewrite Hp.
    by split_and!; try apply Hs1.
  - unfold path_exists. rewrite Hf. subst n. done.
Qed.

Lemma wp_read_max_seq {X} dir id q (x : X) fs :
  at_rest dir id fs q -> calm_fs fs ->
  wp (read_max_seq (V := V) (wal_of dir id))
    (fun r x' fs' => r = ORet (Ok (max_seq (q_entries q))) /\ same_files fs fs' /\ calm_fs fs') x fs.
Proof.
  intros Ha Hq. apply wp_fs. destruct Ha as [(_ & (s & Hs & Ht) & _)|(_ & Hf & -> & _)].
  - rewrite path_exists_true by (by eapply content_file).
    eapply wp_mono; [eapply wp_read_log; [done|by eapply scan_max]|].
    intros r x' fs' (_ & Hs' & _ & Hc). destruct (Hc Hq). done.
  - unfold path_exists. rewrite Hf. done.
Qed.

Lemma at_rest_same dir id fs fs' q : same_files fs fs' -> at_rest dir id fs q -> at_rest dir id fs' q.
Proof.
  intros Hs [Hd|(Hwf & Hf & He & Ha)]; [left; by eapply on_disk_same|right].
  destruct (same_files_keep _ _ Hs) as [Hw Hk]. split_and!; [auto|by rewrite (proj1 (Hk _))|done|].
  unfold stored_ack in *. by rewrite (proj1 (Hk _)), (proj2 (Hk _)).
Qed.

Lemma wp_open_writer {X} dir id q (x : X) fs :
  at_rest dir id fs q -> calm_fs fs ->
  wp (open_writer (V := V) id (wal_of dir id)) (fun r x' fs' => exists i, r = ORet (Ok (mkBufWriter i "")) /\
    file_of (wal_of dir id) fs' = Some i /\ on_disk dir id fs' q /\ calm_fs fs') x fs.
Proof.
  intros Ha Hq. apply wp_fs. destruct Ha as [Hd|(Hwf & Hf & He & Ha)].
  - pose proof Hd as (Hwf & (s & Hs & Ht) & _). rewrite path_exists_true by (by eapply content_file).
    apply wp_call. pose proof (open_append_spec _ fs Hwf (content_file _ _ _ Hs)) as Hoa.
    destruct (open_append _ _ _) as [r fs1]. destruct Hoa as [(_ & _ & Ho) [Hs1 Hc]]. destruct (Hc Hq) as [Hq1 Hd1].
    destruct r as [i|e|]; [|done..]. exists i. split; [done|]. split; [by apply Ho|]. split; [|done].
    by eapply on_disk_same.
  - unfold path_exists at 1. rewrite Hf. rewrite bool_decide_eq_false_2 by (by intros []).
    apply wp_call. pose proof (create_spec (wal_of dir id) fs Hwf) as H1.
    destruct (create _ fs) as [r1 fs1]. destruct H1 as [(Hwf1 & Ho1 & Hr1) Hc1]. destruct (Hc1 Hq) as [Hq1 Hd1].
    destruct r1 as [i|e|]; [|done..]. destruct Hr1 as [Hf1 Hct1].
    destruct (header_print_ok (wal_header id)) as (h & Hh & Hb). unfold or_drop. rewrite Hh.
    apply wp_ret_bind, wp_call. set (b := bw_writeln _ _).
    pose proof (bw_flush_local_spec (wal_of dir id) b fs1 Hwf1 Hf1) as H2. destruct (bw_flush_local b fs1) as [r2 fs2].
    destruct H2 as (Hwf2 & Ho2 & Hf2 & Hct2 & Hc2). destruct (Hc2 Hq1) as [Hq2 Hd2]. destruct r2 as [u|e|]; [|done..].
    exists i. split; [done|]. split; [done|]. split; [|done]. split; [done|]. split.
    + eexists. split; [by apply Hct2|]. rewrite Hct1. exists h, []. split; [done|]. split; [done|]. split; [by rewrite He|].
      cbn. by rewrite str_app_nil_r.
    + assert (Hk : kept (ack_of dir id) fs fs2).
      { eapply kept_trans; [apply Ho1|apply Ho2]; by apply path_join_inj. }
      unfold stored_ack in *. by destruct Hk as [-> ->].
Qed.

(** Opening finds what is on disk. *)
Lemma wp_open {X} dir id (x : X) fs q :
  at_rest dir id fs q -> calm_fs fs ->
  wp (dm_open (V := V) id dir) (fun r x' fs' => exists d, r = ORet (Ok d) /\ calm_fs fs' /\ represents dir id d fs' (q_reopen q)) x fs.
Proof.
  intros Ha Hq. apply wp_call. pose proof (sys_call_spec fs) as H1. destruct (sys_call fs) as [r1 fs1].
  destruct H1 as [Hs1 Hc1]. destruct (Hc1 Hq) as [Hq1 Hd1]. destruct r1 as [u|e|]; [|done..].
  pose proof (at_rest_same _ _ _ _ _ Hs1 Ha) as Ha1. apply wp_bind.
  eapply wp_mono; [apply wp_read_acked; [|done]|].
  { destruct Ha1 as [(_ & _ & Hst)|(_ & _ & _ & Hst)]; exact Hst. }
  intros r2 x2 fs2 (-> & Hs2 & Hq2). pose proof (at_rest_same _ _ _ _ _ Hs2 Ha1) as Ha2. apply wp_bind.
  eapply wp_mono; [by apply wp_read_max_seq|]. intros r3 x3 fs3 (-> & Hs3 & Hq3).
  pose proof (at_rest_same _ _ _ _ _ Hs3 Ha2) as Ha3. apply wp_bind.
  eapply wp_mono; [by apply (wp_open_writer dir id q)|]. intros r4 x4 fs4 (i & -> & Hi & Hd & Hq4).
  eexists. split; [done|]. split; [done|]. split; [done|]. split.
  - destruct Hd as (_ & (s & _ & Ht) & _). by eapply max_seq_u64.
  - by exists i.
Qed.
End spec.

(** * A mailbox in use *)

Section use.
Context {V : Type} `{WC : WalCodec V, !WalLaws V}.
Implicit Types (q : Queue V) (d : DurableMailbox) (fs : FS).

Inductive Cmd : Type :=
| CAppend (now : Z) (msg : Message V)
| CAck (seq : Z)
| CTruncate
| CReplay
| CReopen.

Inductive Reply : Type :=
| RSeq (seq : Z)
| RDone
| REntries (es : list (WalEntry V))
| RRefused.

(** The mailbox is dropped and opened again. *)
Definition reopen (dir id : string) : Op DurableMailbox unit :=
  let! _ := drop_writer in
  let! d := dm_open (V := V) id dir in
  op_modify (fun _ => d).

Definition reply {A} (f : A -> Reply) (o : outcome_io A * DurableMailbox * FS) : option (Reply * DurableMailbox * FS) :=
  match o with
  | (ORet (Ok a), d, fs) => Some (f a, d, fs)
  | (ORet (Err _), d, fs) => Some (RRefused, d, fs)
  | (OCrash, _, _) => None
  end.

Definition exec (dir id : string) (c : Cmd) d fs : option (Reply * DurableMailbox * FS) :=
  match c with
  | CAppend now msg => reply RSeq (dm_append now msg d fs)
  | CAck n => reply (fun _ => RDone) (dm_ack n d fs)
  | CTruncate => reply (fun _ => RDone) (dm_truncate (V := V) d fs)
  | CReplay => reply REntries (dm_replay d fs)
  | CReopen => reply (fun _ => RDone) (reopen dir id d fs)
  end.

Fixpoint run (dir id : string) (cs : list Cmd) d fs : option (list Reply * DurableMailbox * FS) :=
  match cs with
  | [] => Some ([], d, fs)
  | c :: cs =>
      '(r, d, fs) ← exec dir id c d fs;
      '(rs, d, fs) ← run dir id cs d fs;
      Some (r :: rs, d, fs)
  end.

Definition q_exec (c : Cmd) q : Reply * Queue V :=
  match c with
  | CAppend now msg => (RSeq (q_append now msg q).1, (q_append now msg q).2)
  | CAck n => (if (q_ack n q).1 then RDone else RRefused, (q_ack n q).2)
  | CTruncate => (RDone, q_truncate q)
  | CReplay => (REntries (pending q), q)
  | CReopen => (RDone, q_reopen q)
  end.

Fixpoint q_run (cs : list Cmd) q : list Reply * Queue V :=
  match cs with
  | [] => ([], q)
  | c :: cs => let '(r, q) := q_exec c q in let '(rs, q) := q_run cs q in (r :: rs, q)
  end.

Definition cmd_ok (c : Cmd) : Prop :=
  match c with CAppend _ msg => msg_exact msg | CAck n => is_u64 n | _ => True end.

Lemma exec_refines dir id c d fs q :
  represents dir id d fs q -> calm_fs fs -> cmd_ok c ->
  exists d' fs', exec dir id c d fs = Some ((q_exec c q).1, d', fs') /\
                 represents dir id d' fs' (q_exec c q).2 /\ calm_fs fs'.
Proof.
  intros Hrep Hq Hc. destruct c as [now msg|n| | |]; cbn [exec q_exec fst snd].
  - pose proof (wp_append dir id d fs q now msg Hrep Hc Hq) as Hw. unfold wp in Hw.
    destruct (dm_append now msg d fs) as [[r d'] fs']. destruct Hw as (-> & ? & ?). by exists d', fs'.
  - pose proof (wp_ack dir id d fs q n Hrep Hc) as Hw. unfold wp in Hw.
    destruct (dm_ack n d fs) as [[r d'] fs']. destruct Hw as [_ Hw]. destruct (Hw Hq) as (? & Hr & ?).
    exists d', fs'. destruct (q_ack n q).1; [by rewrite Hr|]. by destruct r as [[|]|].
  - pose proof (wp_truncate dir id d fs q Hrep) as Hw. unfold wp in Hw.
    destruct (dm_truncate d fs) as [[r d'] fs']. destruct Hw as [_ Hw]. destruct (Hw Hq) as (? & -> & ?). by exists d', fs'.
  - pose proof (wp_replay dir id d fs q Hrep) as Hw. unfold wp in Hw.
    destruct (dm_replay d fs) as [[r d'] fs']. destruct Hw as (-> & Hs & _ & Hw). destruct (Hw Hq) as (? & ->).
    exists d, fs'. split_and!; [done|by eapply represents_same|done].
  - pose proof Hrep as (Hd & Hu & i & Hi & Hdeq). unfold reopen, op_bind, drop_writer. rewrite Hdeq. cbn [dm_writer].
    rewrite <- Hdeq. unfold bw_drop, bw_flush. cbn [bw_buf bw_file]. rewrite decide_True by done.
    pose proof (wp_open dir id d fs q (or_introl Hd) Hq) as Hw. unfold wp in Hw.
    destruct (dm_open id dir d fs) as [[r d'] fs']. destruct Hw as (d2 & -> & ? & ?). by exists d2, fs'.
Qed.

Lemma run_refines dir id cs d fs q :
  represents dir id d fs q -> calm_fs fs -> Forall cmd_ok cs ->
  exists d' fs', run dir id cs d fs = Some ((q_run cs q).1, d', fs') /\
                 represents dir id d' fs' (q_run cs q).2 /\ calm_fs fs'.
Proof.
  revert d fs q. induction cs as [|c cs IH]; intros d fs q Hrep Hq Hcs; [by exists d, fs|].
  apply Forall_cons in Hcs as [Hc Hcs]. destruct (exec_refines dir id c d fs q Hrep Hq Hc) as (d1 & fs1 & He & Hrep1 & Hq1).
  cbn [run q_run]. rewrite He. cbn. destruct (q_exec c q) as [r q1]. cbn in *.
  destruct (IH d1 fs1 q1 Hrep1 Hq1 Hcs) as (d2 & fs2 & -> & ? & ?). cbn. exists d2, fs2. by destruct (q_run cs q1).
Qed.

(** C16: a durable mailbox is a queue.  Opened on whatever it left behind (or on nothing),
    without faults, any sequence of appends, acknowledgements, truncations, replays and
    reopenings returns, and answers exactly what the abstract queue answers: refused
    acknowledgements are refused, replays give the entries after the last acknowledged
    one, a reopening numbers on from the largest number left in the log. *)
Theorem mailbox_refines_queue dir id cs (x : unit) fs q :
  at_rest dir id fs q -> calm_fs fs -> Forall cmd_ok cs ->
  exists d0 fs0, dm_open (V := V) id dir x fs = (ORet (Ok d0), x, fs0) /\
  exists d1 fs1, run dir id cs d0 fs0 = Some ((q_run cs (q_reopen q)).1, d1, fs1).
Proof.
  intros Ha Hq Hcs. pose proof (wp_open dir id x fs q Ha Hq) as Hw. unfold wp in Hw.
  destruct (dm_open id dir x fs) as [[r []] fs0]. destruct x. destruct Hw as (d0 & -> & Hq0 & Hrep).
  exists d0, fs0. split; [done|]. destruct (run_refines dir id cs d0 fs0 _ Hrep Hq0 Hcs) as (d1 & fs1 & -> & _). eauto.
Qed.

(** The files, once the faults have passed. *)
Definition calmed fs : FS := mkFS (fs_names fs) (fs_data fs) (fs_next fs) [].


(** ** Nothing is lost *)

(** Every reopening finds an entry in the log, or a mailbox nothing was ever appended to. *)
Fixpoint safe_reopens (cs : list Cmd) q : Prop :=
  match cs with
  | [] => True
  | c :: cs => (c = CReopen -> q_entries q = [] -> q_sequence q = 0) /\ safe_reopens cs (q_exec c q).2
  end.

(** What was appended, with the numbers given. *)
Definition logged (c : Cmd) (r : Reply) : list (WalEntry V) :=
  match c, r with CAppend now msg, RSeq n => [mkWalEntry n (as_i64 now) msg] | _, _ => [] end.
Definition appended (cs : list Cmd) (rs : list Reply) : list (WalEntry V) := concat (zip_with logged cs rs).

(** The numbers of [log] are consecutive from [m]. *)
Definition numbered (m : Z) (log : list (WalEntry V)) : Prop :=
  forall i e, log !! i = Some e -> we_seq e = m + Z.of_nat i.

Record faithful (log : list (WalEntry V)) q : Prop := {
  fa_num : numbered 1 log;
  fa_seq : q_sequence q = Z.of_nat (length log);
  fa_ack : 0 <= q_acked q <= q_sequence q;
  fa_entries : exists k, Z.of_nat k <= q_acked q /\ q_entries q = drop k log
}.

Lemma numbered_drop m log k : numbered m log -> numbered (m + Z.of_nat k) (drop k log).
Proof. intros Hn i e He. rewrite lookup_drop in He. apply Hn in He. lia. Qed.

Lemma retain_numbered m a log : numbered m log -> retain (newer a) log = drop (Z.to_nat (a - m + 1)) log.
Proof.
  revert m. induction log as [|e log IH]; intros m Hn; [by rewrite drop_nil|].
  pose proof (Hn 0%nat e eq_refl) as He. assert (Hn' : numbered (m + 1) log) by (apply (numbered_drop m (e :: log) 1 Hn)).
  unfold retain in *. cbn [List.filter]. unfold newer at 1. destruct (a <? we_seq e) eqn:Hlt; zify_bool.
  - rewrite (IH (m + 1)) by done. replace (Z.to_nat (a - m + 1)) with 0%nat by lia.
    by replace (Z.to_nat (a - (m + 1) + 1)) with 0%nat by lia.
  - rewrite (IH (m + 1)) by done. by replace (Z.to_nat (a - m + 1)) with (S (Z.to_nat (a - (m + 1) + 1))) by lia.
Qed.

Lemma faithful_pending log q : faithful log q -> pending q = drop (Z.to_nat (q_acked q)) log.
Proof.
  intros [Hn Hs Ha (k & Hk & He)]. unfold pending. rewrite He.
  rewrite (retain_numbered (1 + Z.of_nat k)) by (by apply numbered_drop). rewrite drop_drop. f_equal. lia.
Qed.

Lemma max_seq_numbered k log :
  numbered 1 log -> Z.of_nat (length log) <= u64_max -> (k < length log)%nat ->
  max_seq (drop k log) = Z.of_nat (length log).
Proof.
  intros Hn Hl Hk. assert (Hall : Forall (fun e : WalEntry V => is_u64 (we_seq e)) (drop k log)).
  { apply Forall_lookup. intros i e He. rewrite lookup_drop in He. pose proof (lookup_lt_Some _ _ _ He). apply Hn in He.
    unfold is_u64. lia. }
  destruct (max_seq_bounds (drop k log) 0 Hall ltac:(done)) as (_ & _ & Hmax).
  destruct (lookup_lt_is_Some_2 log (length log - 1)) as [e He]; [lia|].
  assert (Hin : e ∈ drop k log).
  { apply (list_elem_of_lookup_2 _ (length log - 1 - k)). rewrite lookup_drop. rewrite <- He. f_equal. lia. }
  rewrite Forall_forall in Hmax. specialize (Hmax e Hin). apply Hn in He. fold (max_seq (drop k log)) in Hmax.
  enough (max_seq (drop k log) <= Z.of_nat (length log)) by lia.
  assert (Hub : forall es acc B, Forall (fun e : WalEntry V => we_seq e <= B) es -> acc <= B ->
    foldl (fun acc e => if acc <? we_seq e then we_seq e else acc) acc es <= B).
  { induction es as [|e' es IH]; intros acc B Hes Hacc; [done|]. apply Forall_cons in Hes as [He' Hes].
    cbn. apply IH; [done|]. by destruct (_ <? _). }
  apply Hub; [|lia]. apply Forall_lookup. intros i e' He'. rewrite lookup_drop in He'.
  pose proof (lookup_lt_Some _ _ _ He'). apply Hn in He'. lia.
Qed.

Lemma faithful_exec log q c :
  faithful log q -> Z.of_nat (length log) < u64_max ->
  (c = CReopen -> q_entries q = [] -> q_sequence q = 0) ->
  faithful (log ++ logged c (q_exec c q).1) (q_exec c q).2.
Proof.
  intros Hf Hl Hsafe. pose proof (faithful_pending _ _ Hf) as Hp. destruct Hf as [Hn Hs Ha (k & Hk & He)].
  destruct c as [now msg|n| | |]; cbn [q_exec fst snd logged]; [| |rewrite app_nil_r..].
  - assert (Hw : wrap64 (q_sequence q + 1) = Z.of_nat (length log) + 1).
    { rewrite wrap64_small; [lia|]. unfold is_u64. lia. }
    split; cbn; rewrite ?Hw.
    + intros i e Hi. apply lookup_app_Some in Hi as [Hi|[Hi He']]; [by apply Hn|].
      apply list_lookup_singleton_Some in He' as [Hz <-]. cbn. lia.
    + rewrite length_app. cbn. lia.
    + lia.
    + exists k. split; [done|]. rewrite drop_app_le by lia. by rewrite <- He.
  - unfold q_ack. destruct (q_acked q <? n) eqn:H1; [|by rewrite app_nil_r; split; eauto].
    destruct (n <=? q_sequence q) eqn:H2; [|by rewrite app_nil_r; split; eauto]. zify_bool.
    cbn. rewrite app_nil_r. split; cbn; [done|done|lia|]. exists k. split; [lia|done].
  - split; cbn; [done|done|done|]. exists (Z.to_nat (q_acked q)). split; [lia|done].
  - split; eauto.
  - unfold q_reopen. assert (max_seq (q_entries q) = q_sequence q) as Hm.
    { rewrite Hs. destruct (decide (k < length log)%nat) as [Hlt|Hge].
      - rewrite He. by apply max_seq_numbered; [|lia|].
      - assert (q_entries q = []) as Hnil by (by rewrite He, drop_ge by lia).
        rewrite (Hsafe eq_refl Hnil) in Hs. rewrite Hnil. cbn. lia. }
    split; cbn; rewrite ?Hm; eauto.
Qed.

Lemma faithful_run cs log q :
  faithful log q -> Z.of_nat (length log + length cs) <= u64_max -> safe_reopens cs q ->
  faithful (log ++ appended cs (q_run cs q).1) (q_run cs q).2.
Proof.
  revert log q. induction cs as [|c cs IH]; intros log q Hf Hl Hs; [by rewrite app_nil_r|].
  destruct Hs as [Hc Hs]. cbn [length] in Hl. pose proof (faithful_exec log q c Hf ltac:(lia) Hc) as Hf1.
  cbn [q_run]. destruct (q_exec c q) as [r q1] eqn:Hx. cbn in Hf1, Hs.
  assert (length (logged c r) <= 1)%nat by (destruct c, r; cbn; lia).
  specialize (IH (log ++ logged c r) q1 Hf1). rewrite length_app in IH. specialize (IH ltac:(lia) Hs).
  destruct (q_run cs q1) as [rs q2]. unfold appended in *. cbn in *. by rewrite app_assoc.
Qed.

End use.

(** * A concrete codec, and the mailbox at work *)

Module MailboxWitness.

Definition entry_data (e : WalEntry string) : Z * Z * string :=
  (we_seq e, we_ts e, match we_msg e with Text s => s | _ => "" end).

#[global] Instance codec : WalCodec string := {
  header_print h := Ok ("wal 1");
  entry_print e := Ok (LineCodec.print (entry_data e));
  entry_parse s :=
    let? data := LineCodec.parse s in
    let '(seq, ts, msg) := data : Z * Z * string in
    if bool_decide (is_u64 seq) then Ok (mkWalEntry seq ts (Text msg)) else Err "out of range";
  msg_exact m := match m with Text _ => True | _ => False end
}.

#[global] Instance codec_laws : WalLaws string.
Proof.
  split.
  - intros h. exists "wal 1". done.
  - intros [seq ts msg] (Hs & _ & Hm). destruct msg as [s| |]; [|done..]. eexists. split; [done|].
    split; [apply LineCodec.print_line|]. unfold entry_parse, codec. rewrite LineCodec.parse_print. cbn.
    by rewrite bool_decide_eq_true_2.
  - intros s e. unfold entry_parse, codec. destruct (LineCodec.parse s) as [[[seq ts] msg]|]; [|done].
    case_bool_decide; [|done]. intros. by simplify_eq.
Qed.

Definition disk0 : FS := mkFS ∅ ∅ 0 [].
Definition opened_box : outcome_io DurableMailbox * unit * FS := dm_open (V := string) "a" "d" tt disk0.
Definition box0 : DurableMailbox := mkDurableMailbox "a" "d/a.wal" "d/a.ack" "d" (Some (mkBufWriter 0 "")) 0 0.
Definition fs0 : FS := opened_box.2.

Definition session : list (Cmd (V := string)) :=
  [CAppend 7 (Text "a"); CAppend 8 (Text "b"); CAck 1; CAck 5; CTruncate; CReopen; CAppend 9 (Text "c"); CReplay].

Lemma disk0_wf : fs_wf disk0.
Proof. split; [by intros p q i|by intros p i]. Qed.

Lemma session_ok : Forall cmd_ok session.
Proof. by repeat constructor. Qed.

Lemma mailbox_refines_queue_witness :
  at_rest "d" "a" disk0 (mkQueue (V := string) [] 0 0) /\
  exists d0 fs0, dm_open (V := string) "a" "d" tt disk0 = (ORet (Ok d0), tt, fs0) /\
  exists d1 fs1, run "d" "a" session d0 fs0 =
    Some ([RSeq 1; RSeq 2; RDone; RRefused; RDone; RDone; RSeq 3;
           REntries [mkWalEntry 2 8 (Text "b"); mkWalEntry 3 9 (Text "c")]], d1, fs1).
Proof.
  assert (Ha : at_rest "d" "a" disk0 (mkQueue (V := string) [] 0 0)) by (right; by split_and!; [apply disk0_wf|..]).
  split; [exact Ha|].
  exact (mailbox_refines_queue "d" "a" session tt disk0 _ Ha eq_refl session_ok).
Defined.

Definition after (cs : list (Cmd (V := string))) : DurableMailbox * FS :=
  match run "d" "a" cs box0 fs0 with Some (_, d, fs) => (d, fs) | None => (box0, fs0) end.


Lemma box0_represents : represents "d" "a" box0 fs0 (mkQueue (V := string) [] 0 0) /\ calm_fs fs0.
Proof.
  assert (Ha : at_rest "d" "a" disk0 (mkQueue (V := string) [] 0 0)) by (right; by split_and!; [apply disk0_wf|..]).
  pose proof (wp_open "d" "a" tt disk0 _ Ha eq_refl) as Hw. unfold wp in Hw.
  change (dm_open "a" "d" tt disk0) with (ORet (Ok box0) : outcome_io DurableMailbox, tt, fs0) in Hw.
  destruct Hw as (d & Hd & Hq & Hrep). by simplify_eq.
Qed.

(** Two messages, the first acknowledged. *)
Definition two : DurableMailbox * FS := after [CAppend 7 (Text "a"); CAppend 8 (Text "b"); CAck 1].
Definition two_queue : Queue string := mkQueue [mkWalEntry 1 7 (Text "a"); mkWalEntry 2 8 (Text "b")] 2 1.

(** The process dies while the new log is being written, five bytes into it. *)
Definition crashed : outcome_io unit * DurableMailbox * FS :=
  dm_truncate (V := string) two.1 (mkFS (fs_names two.2) (fs_data two.2) (fs_next two.2) [VOk; VOk; VOk; VCrash 5]).

Lemma two_represents : represents "d" "a" two.1 two.2 two_queue.
Proof.
  destruct box0_represents as [Hrep Hq].
  destruct (run_refines "d" "a" [CAppend 7 (Text "a"); CAppend 8 (Text "b"); CAck 1] box0 fs0 _ Hrep Hq)
    as (d & fs & Hr & Hrep' & _); [by repeat constructor|].
  unfold two, after. rewrite Hr. exact Hrep'.
Qed.


(** ** What the code does not keep *)

(** Everything acknowledged, truncated, reopened: numbering starts again at 1, below the
    stored acknowledgement, and a message appended then is never replayed. *)
Lemma reopened_empty_log_loses_messages :
  (fun o => o.1.1) <$> run "d" "a" [CAppend 7 (Text "a"); CAck 1; CTruncate; CReopen; CAppend 8 (Text "b"); CReplay] box0 fs0 =
    Some [RSeq 1; RDone; RDone; RDone; RSeq 1; REntries []].
Proof. vm_compute. reflexivity. Qed.

(** A crash in the middle of an append leaves half a line: the mailbox opens, but the next
    message is glued to it, and replays fail for good. *)
Definition torn : FS := (dm_append 7 (Text "a") box0 (mkFS (fs_names fs0) (fs_data fs0) (fs_next fs0) [VCrash 5])).2.
Definition torn_open : outcome_io DurableMailbox * DurableMailbox * FS := dm_open (V := string) "a" "d" box0 (calmed torn).
Definition torn_box : DurableMailbox := match torn_open.1.1 with ORet (Ok d) => d | _ => box0 end.
Definition torn_next : outcome_io Z * DurableMailbox * FS := dm_append 8 (Text "b") torn_box torn_open.2.

Lemma torn_append_poisons_log :
  torn_open.1.1 = ORet (Ok torn_box) /\ torn_next.1.1 = ORet (Ok 1) /\
  (dm_replay (V := string) torn_next.1.2 torn_next.2).1.1 = ORet (Err (dm_err "bad entry" "syntax")).
Proof. split_and!; vm_compute; reflexivity. Qed.

(** A truncation that fails after its rename leaves a writer on the old, unlinked file:
    appends are confirmed and go nowhere. *)
Definition detached : outcome_io unit * DurableMailbox * FS :=
  dm_truncate (V := string) box0 (mkFS (fs_names fs0) (fs_data fs0) (fs_next fs0)
    [VOk; VOk; VOk; VOk; VOk; VOk; VFail 0 "EIO"]).
Definition detached_next : outcome_io Z * DurableMailbox * FS := dm_append 8 (Text "b") detached.1.2 detached.2.

Lemma failed_truncate_detaches_writer :
  detached.1.1 = ORet (Err (dm_err "open dir for fsync" "EIO")) /\ detached_next.1.1 = ORet (Ok 1) /\
  (dm_replay (V := string) detached_next.1.2 detached_next.2).1.1 = ORet (Ok []).
Proof. split_and!; vm_compute; reflexivity. Qed.
End MailboxWitness.
