(* ===== verification/Dets.v ===== *)
(** Disk tables ([agent_rt/dets.rs]): a cache of key-value pairs, a log of the changes since
    the last compaction, and a snapshot.

    [serde_json] is the class [DetsCodec]; the remarks on [FileSystem] and on buffered
    lines in [DurableMailbox] hold here too. *)
From S2P Require Import Prelude Types Ets FileSystem.

Definition DETS_SCHEMA_VERSION : Z := 1.

Record DetsHeader : Type := mkDetsHeader { dh_version : Z; dh_type : string; dh_table : string }.
Record DetsEntry (V : Type) : Type := mkDetsEntry { de_key : string; de_value : V }.
Record DetsLogEntry (V : Type) : Type := mkDetsLogEntry { dl_op : string; dl_key : string; dl_value : option V }.
Arguments mkDetsEntry {V}.
Arguments de_key {V}.
Arguments de_value {V}.
Arguments mkDetsLogEntry {V}.
Arguments dl_op {V}.
Arguments dl_key {V}.
Arguments dl_value {V}.

(** [serde_json] on the three derived formats.  [val_exact] are the values that survive the
    trip; reading an [Option], it takes [null] for [None]. *)
Class DetsCodec (V : Type) : Type := {
  dheader_print : DetsHeader -> result string string;
  dheader_parse : string -> result DetsHeader string;
  dentry_print : DetsEntry V -> result string string;
  dentry_parse : string -> result (DetsEntry V) string;
  dlog_print : DetsLogEntry V -> result string string;
  dlog_parse : string -> result (DetsLogEntry V) string;
  val_exact : V -> Prop;
  val_is_null : V -> bool
}.

Definition reread {V} `{DetsCodec V} (v : option V) : option V :=
  match v with Some v => if val_is_null v then None else Some v | None => None end.

Class DetsLaws (V : Type) `{DetsCodec V} : Prop := {
  dheader_ok h : exists s, dheader_print h = Ok s /\ is_line s /\ dheader_parse s = Ok h;
  dentry_ok e : val_exact (de_value e) -> exists s, dentry_print e = Ok s /\ is_line s /\ dentry_parse s = Ok e;
  dlog_ok e : (forall v, dl_value e = Some v -> val_exact v) ->
    exists s, dlog_print e = Ok s /\ is_line s /\
              dlog_parse s = Ok (mkDetsLogEntry (dl_op e) (dl_key e) (reread (dl_value e)))
}.

Record DetsTable (V : Type) : Type := mkDetsTable {
  dt_name : string;
  dt_dir : string;
  dt_access : AccessType;
  dt_owner : AgentPid;
  dt_heir : option AgentPid;
  dt_cache : gmap string V;
  dt_max_entries : Z;
  dt_dirty_count : Z;
  dt_compact_threshold : Z;
  dt_log_writer : option BufWriter
}.
Arguments mkDetsTable {V}.
Arguments dt_name {V}.
Arguments dt_dir {V}.
Arguments dt_access {V}.
Arguments dt_owner {V}.
Arguments dt_heir {V}.
Arguments dt_cache {V}.
Arguments dt_max_entries {V}.
Arguments dt_dirty_count {V}.
Arguments dt_compact_threshold {V}.
Arguments dt_log_writer {V}.

Definition dt_err (ctx : string) (e : string) : AgentRtError := EEts (ctx +:+ ": " +:+ e).

Section table.
Context {V : Type} `{DC : DetsCodec V} `{HO : HashOrder}.
Abbreviation Table := (DetsTable V).
Implicit Types (t : Table).

Definition dt_with_cache (m : gmap string V) t : Table :=
  mkDetsTable (dt_name t) (dt_dir t) (dt_access t) (dt_owner t) (dt_heir t) m (dt_max_entries t)
    (dt_dirty_count t) (dt_compact_threshold t) (dt_log_writer t).
Definition dt_with_dirty (n : Z) t : Table :=
  mkDetsTable (dt_name t) (dt_dir t) (dt_access t) (dt_owner t) (dt_heir t) (dt_cache t) (dt_max_entries t)
    n (dt_compact_threshold t) (dt_log_writer t).
Definition dt_with_writer (b : option BufWriter) t : Table :=
  mkDetsTable (dt_name t) (dt_dir t) (dt_access t) (dt_owner t) (dt_heir t) (dt_cache t) (dt_max_entries t)
    (dt_dirty_count t) (dt_compact_threshold t) b.

Definition dat_path_of (dir name : string) : string := path_join dir (name +:+ ".dat").
Definition log_path_of (dir name : string) : string := path_join dir (name +:+ ".log").
Definition dat_tmp_of (dir name : string) : string := path_join dir (name +:+ ".dat.tmp").

Definition dets_fsync_dir {X} : Op X unit := fsync_with (dt_err "open dir for fsync") (dt_err "fsync dir").

(** The loop over the lines of a snapshot; errors carry their whole message. *)
Fixpoint load_dat (first : bool) (cache : gmap string V) (ls : list string) : result (gmap string V) AgentRtError :=
  match ls with
  | [] => Ok cache
  | line :: ls =>
      if is_blank line then load_dat first cache ls
      else if first then
        match dheader_parse line with
        | Err e => Err (dt_err "bad dat header" e)
        | Ok header =>
            if DETS_SCHEMA_VERSION <? dh_version header then
              Err (EEts ("schema version " +:+ u64_to_string (dh_version header) +:+
                         " not supported, max supported: " +:+ u64_to_string DETS_SCHEMA_VERSION))
            else load_dat false cache ls
        end
      else
        match dentry_parse line with
        | Err e => Err (dt_err "bad dat entry" e)
        | Ok entry => load_dat false (<[de_key entry := de_value entry]> cache) ls
        end
  end.

Definition apply_entry (entry : DetsLogEntry V) (cache : gmap string V) : gmap string V :=
  if String.eqb (dl_op entry) "put" then
    match dl_value entry with Some val => <[dl_key entry := val]> cache | None => cache end
  else if String.eqb (dl_op entry) "delete" then delete (dl_key entry) cache
  else cache.

Fixpoint replay_log (cache : gmap string V) (ls : list string) : result (gmap string V) AgentRtError :=
  match ls with
  | [] => Ok cache
  | line :: ls =>
      if is_blank line then replay_log cache ls
      else
        match dlog_parse line with
        | Err e => Err (dt_err "bad log entry" e)
        | Ok entry => replay_log (apply_entry entry cache) ls
        end
  end.

Definition op_lift {X A} (r : result A AgentRtError) : Op X A :=
  match r with Ok a => op_ret a | Err e => op_err e end.

Definition dets_load_dat {X} (dat_path : string) : Op X (gmap string V) :=
  let! there := op_fs (path_exists dat_path) in
  if there then
    let! _ := op_io (dt_err "open dat") (open_read dat_path) in
    let! content := op_io (dt_err "read dat") (read dat_path) in
    op_lift (load_dat true ∅ (lines content))
  else op_ret ∅.

Definition dets_replay_log {X} (log_path : string) (cache : gmap string V) : Op X (gmap string V) :=
  let! there := op_fs (path_exists log_path) in
  if there then
    let! _ := op_io (dt_err "open log") (open_read log_path) in
    let! content := op_io (dt_err "read log") (read log_path) in
    op_lift (replay_log cache (lines content))
  else op_ret cache.

Definition dets_open {X} (name dir : string) (access : AccessType) (owner : AgentPid) (heir : option AgentPid)
    (max_entries compact_threshold : Z) : Op X Table :=
  let! _ := op_io (dt_err "create dir") sys_call in
  let! cache := dets_load_dat (dat_path_of dir name) in
  let! cache := dets_replay_log (log_path_of dir name) cache in
  let! log_file := op_io (dt_err "open log for append") (open_append true (log_path_of dir name)) in
  op_ret (mkDetsTable name dir access owner heir cache max_entries 0 compact_threshold (Some (mkBufWriter log_file ""))).

Definition dets_check_write (caller : AgentPid) t : result unit AgentRtError :=
  match dt_access t with
  | Public => Ok tt
  | Protected | Private => if caller =? dt_owner t then Ok tt else Err (EEts "write access denied")
  end.
Definition dets_check_read (caller : AgentPid) t : result unit AgentRtError :=
  match dt_access t with
  | Public | Protected => Ok tt
  | Private => if caller =? dt_owner t then Ok tt else Err (EEts "read access denied")
  end.

Definition dets_get (key : string) (caller : AgentPid) t : result (option V) AgentRtError :=
  let? _ := dets_check_read caller t in Ok (dt_cache t !! key).

(** [writer.flush()] on the log of the table. *)
Definition flush_log (ctx : string) : Op Table unit := fun t fs =>
  match dt_log_writer t with
  | None => (ORet (Ok tt), t, fs)
  | Some b =>
      match bw_flush b fs with
      | (IoDone _, b, fs) => (ORet (Ok tt), dt_with_writer (Some b) t, fs)
      | (IoFail e, b, fs) => (ORet (Err (dt_err ctx e)), dt_with_writer (Some b) t, fs)
      | (IoCrash, b, fs) => (OCrash, dt_with_writer (Some b) t, fs)
      end
  end.

Definition append_log (entry : DetsLogEntry V) : Op Table unit :=
  let! t := op_get in
  match dt_log_writer t with
  | None => op_ret tt
  | Some b =>
      let! line := op_result (dt_err "serialize log") (dlog_print entry) in
      let! _ := op_modify (dt_with_writer (Some (bw_writeln line b))) in
      flush_log "flush log"
  end.

(** Assigning [log_writer] drops the writer it held. *)
Definition drop_log_writer : Op Table unit := fun t fs =>
  match dt_log_writer t with
  | None => (ORet (Ok tt), t, fs)
  | Some b => match bw_drop b fs with
              | (IoCrash, fs) => (OCrash, t, fs)
              | (_, fs) => (ORet (Ok tt), t, fs)
              end
  end.

(** The first part of [compact]: a new snapshot takes the place of the old one. *)
Definition write_dat {X} (t : Table) : Op X unit :=
  let! file := op_io (dt_err "create dat.tmp") (create (dat_tmp_of (dt_dir t) (dt_name t))) in
  let writer := mkBufWriter file "" in
  let! header := or_drop (dt_err "serialize header") writer
                   (dheader_print (mkDetsHeader DETS_SCHEMA_VERSION "dets" (dt_name t))) in
  let! writer := write_lines (dt_err "serialize entry") (fun '(key, value) => dentry_print (mkDetsEntry key value))
                   (hash_iter (dt_cache t)) (bw_writeln header writer) in
  let! _ := op_io (dt_err "flush") (bw_flush_local writer) in
  let! _ := op_io (dt_err "sync") sys_call in
  let! _ := op_io (dt_err "rename") (rename (dat_tmp_of (dt_dir t) (dt_name t)) (dat_path_of (dt_dir t) (dt_name t))) in
  dets_fsync_dir.

Definition dets_compact : Op Table unit :=
  let! t := op_get in
  let! _ := write_dat t in
  let! log_file := op_io (dt_err "truncate log") (create (log_path_of (dt_dir t) (dt_name t))) in
  let! _ := drop_log_writer in
  let! _ := op_modify (dt_with_writer (Some (mkBufWriter log_file ""))) in
  op_modify (dt_with_dirty 0).

(** The end of [put] and [delete_key]. *)
Definition after_change : Op Table unit :=
  let! _ := op_modify (fun t => dt_with_dirty (wrap64 (dt_dirty_count t + 1)) t) in
  let! t := op_get in
  if dt_compact_threshold t <=? dt_dirty_count t then dets_compact else op_ret tt.

Definition dets_put (key : string) (value : V) (caller : AgentPid) : Op Table unit :=
  let! t := op_get in
  let! _ := op_lift (dets_check_write caller t) in
  let is_new := negb (bool_decide (is_Some (dt_cache t !! key))) in
  if is_new && (dt_max_entries t <=? Z.of_nat (size (dt_cache t))) then op_err (EEts "table full")
  else
    let! _ := append_log (mkDetsLogEntry "put" key (Some value)) in
    let! _ := op_modify (fun t => dt_with_cache (<[key := value]> (dt_cache t)) t) in
    after_change.

Definition dets_delete_key (key : string) (caller : AgentPid) : Op Table unit :=
  let! t := op_get in
  let! _ := op_lift (dets_check_write caller t) in
  let! _ := append_log (mkDetsLogEntry "delete" key None) in
  let! _ := op_modify (fun t => dt_with_cache (delete key (dt_cache t)) t) in
  after_change.

Definition dets_scan (prefix : string) (caller : AgentPid) t : result (list (string * V)) AgentRtError :=
  let? _ := dets_check_read caller t in
  Ok (retain (fun '(k, _) => starts_with k prefix) (hash_iter (dt_cache t))).
Definition dets_filter (caller : AgentPid) (predicate : string -> V -> bool) t : result (list (string * V)) AgentRtError :=
  let? _ := dets_check_read caller t in
  Ok (retain (fun '(k, v) => predicate k v) (hash_iter (dt_cache t))).
Definition dets_count (caller : AgentPid) t : result Z AgentRtError :=
  let? _ := dets_check_read caller t in Ok (Z.of_nat (size (dt_cache t))).

Definition dets_close : Op Table unit :=
  let! _ := flush_log "flush on close" in
  let! _ := drop_log_writer in
  op_modify (dt_with_writer None).
End table.

(** ** What the files of a table say *)

Section disk.
Context {V : Type} `{DC : DetsCodec V, !DetsLaws V} `{HO : HashOrder}.
Implicit Types (t : DetsTable V) (fs : FS) (m : gmap string V) (ops : list (DetsLogEntry V)).

Definition apply_all ops m : gmap string V := foldl (fun m entry => apply_entry entry m) m ops.

Definition insert_entries m (es : list (DetsEntry V)) : gmap string V :=
  foldl (fun m entry => <[de_key entry := de_value entry]> m) m es.

Definition dat_holds (path : string) fs m : Prop :=
  match file_of path fs with
  | None => m = ∅
  | Some _ => exists h hdr es ls, content path fs = Some (unlines (h :: ls)) /\
      is_line h /\ dheader_parse h = Ok hdr /\ dh_version hdr = DETS_SCHEMA_VERSION /\
      Forall2 (fun e l => is_line l /\ dentry_parse l = Ok e) es ls /\ m = insert_entries ∅ es
  end.

Definition log_holds (path : string) fs ops : Prop :=
  match file_of path fs with
  | None => ops = []
  | Some _ => exists ls, content path fs = Some (unlines ls) /\
      Forall2 (fun e l => is_line l /\ dlog_parse l = Ok e) ops ls
  end.

Definition dets_disk (dir name : string) fs m : Prop :=
  fs_wf fs /\ map_Forall (fun _ v => val_exact v) m /\
  exists dat ops, dat_holds (dat_path_of dir name) fs dat /\ log_holds (log_path_of dir name) fs ops /\
                  apply_all ops dat = m.

(** ** Replaying a log twice is replaying it once *)

(** The fate of a key in a log: untouched, put, or deleted. *)
Definition touch (k : string) (acc : option (option V)) (e : DetsLogEntry V) : option (option V) :=
  if String.eqb (dl_op e) "put" then
    match dl_value e with Some v => if decide (dl_key e = k) then Some (Some v) else acc | None => acc end
  else if String.eqb (dl_op e) "delete" then if decide (dl_key e = k) then Some None else acc
  else acc.

Lemma apply_all_lookup ops m k acc :
  (m !! k = default (m !! k) acc) ->
  apply_all ops m !! k = default (m !! k) (foldl (touch k) acc ops).
Proof.
  revert m acc. induction ops as [|e ops IH]; intros m acc Hm; [done|]. cbn [apply_all foldl].
  assert (Hstep : apply_entry e m !! k = default (m !! k) (touch k acc e)).
  { unfold apply_entry, touch. destruct (String.eqb _ "put"); [|destruct (String.eqb _ "delete"); [|done]].
    - destruct (dl_value e) as [v|]; [|done]. destruct (decide (dl_key e = k)) as [->|]; [by rewrite lookup_insert_eq|].
      by rewrite lookup_insert_ne.
    - destruct (decide (dl_key e = k)) as [->|]; [by rewrite lookup_delete_eq|]. by rewrite lookup_delete_ne. }
  unfold apply_all in IH. rewrite (IH _ (touch k acc e)).
  - destruct (foldl (touch k) (touch k acc e) ops) as [o|] eqn:Hf; [done|]. cbn. rewrite Hstep.
    assert (Hn : forall ops acc, foldl (touch k) acc ops = None -> acc = None).
    { clear. intros ops. induction ops as [|e ops IH]; intros acc Hf; [done|]. apply IH in Hf. unfold touch in Hf.
      destruct (String.eqb _ "put"); [destruct (dl_value e)|destruct (String.eqb _ "delete")]; try done;
        by destruct (decide _). }
    by rewrite (Hn _ _ Hf).
  - rewrite Hstep. by destruct (touch k acc e).
Qed.

Lemma apply_all_idem ops m : apply_all ops (apply_all ops m) = apply_all ops m.
Proof.
  apply map_eq. intros k. rewrite (apply_all_lookup ops (apply_all ops m) k None), (apply_all_lookup ops m k None) by done.
  by destruct (foldl (touch k) None ops).
Qed.

(** ** Reading what was written *)

Lemma lines_of {A} (P : A -> string -> Prop) es ls :
  (forall e l, P e l -> is_line l) -> Forall2 P es ls -> lines (unlines ls) = ls.
Proof.
  intros HP Hls. apply lines_unlines. induction Hls as [|e l es ls Hel _ IH]; constructor; [|done].
  by apply (HP e).
Qed.

Lemma load_entries es ls m :
  Forall2 (fun (e : DetsEntry V) l => is_line l /\ dentry_parse l = Ok e) es ls ->
  load_dat false m ls = Ok (insert_entries m es).
Proof.
  intros Hls. revert m. induction Hls as [|e l es ls [[_ Hb] Hp] _ IH]; intros m; [done|].
  cbn [load_dat insert_entries foldl]. by rewrite Hb, Hp.
Qed.

Lemma replay_entries ops ls m :
  Forall2 (fun e l => is_line l /\ dlog_parse l = Ok e) ops ls -> replay_log m ls = Ok (apply_all ops m).
Proof.
  intros Hls. revert m. induction Hls as [|e l es ls [[_ Hb] Hp] _ IH]; intros m; [done|].
  cbn [replay_log apply_all foldl]. by rewrite Hb, Hp.
Qed.

Lemma insert_entries_to_map m :
  insert_entries ∅ (map (fun '(k, v) => mkDetsEntry k v) (hash_iter m)) = m.
Proof.
  assert (Hf : forall (l : list (string * V)) m0, NoDup l.*1 ->
    insert_entries m0 (map (fun '(k, v) => mkDetsEntry k v) l) = list_to_map l ∪ m0).
  { induction l as [|[k v] l IH]; intros m0 Hnd; [cbn; by rewrite (left_id_L ∅ (∪))|].
    apply NoDup_cons in Hnd as [Hk Hnd]. cbn [map insert_entries foldl]. unfold insert_entries in IH.
    rewrite IH by done. cbn [de_key de_value].
    change (list_to_map ((k, v) :: l) ∪ m0) with (<[k := v]> (list_to_map l) ∪ m0).
    rewrite <- insert_union_l. by rewrite insert_union_r by (by apply not_elem_of_list_to_map_1). }
  pose proof (NoDup_hash_keys m) as Hnd. rewrite Hf by exact Hnd. rewrite (right_id_L ∅ (∪)).
  rewrite (list_to_map_proper _ (map_to_list m)); [by rewrite list_to_map_to_list|done|by rewrite hash_iter_perm].
Qed.
End disk.

(** ** The operations *)

Section ops.
Context {V : Type} `{DC : DetsCodec V, !DetsLaws V} `{HO : HashOrder}.
Context (dir name : string) (access : AccessType) (owner : AgentPid) (heir : option AgentPid) (max_entries threshold : Z).
Implicit Types (t : DetsTable V) (fs : FS) (m : gmap string V).

Abbreviation dat := (dat_path_of dir name).
Abbreviation log := (log_path_of dir name).

(** An open table with this cache, over files that say [m]. *)
Definition stands_for t fs (cache m : gmap string V) : Prop :=
  dets_disk dir name fs m /\
  exists i n, file_of log fs = Some i /\
  t = mkDetsTable name dir access owner heir cache max_entries n threshold (Some (mkBufWriter i "")).

Lemma dets_disk_kept fs fs' m : fs_wf fs' -> kept dat fs fs' -> kept log fs fs' -> dets_disk dir name fs m -> dets_disk dir name fs' m.
Proof.
  intros Hwf [Hf Hk] [Hf' Hk'] (_ & Hm & d & ops & Hd & Hl & Ha). split; [done|]. split; [done|]. exists d, ops.
  unfold dat_holds, log_holds in *. by rewrite Hf, Hk, Hf', Hk'.
Qed.

Lemma dets_disk_same fs fs' m : same_files fs fs' -> dets_disk dir name fs m -> dets_disk dir name fs' m.
Proof.
  intros Hs Hd. eapply dets_disk_kept; [|by apply same_files_kept|by apply same_files_kept|done].
  apply (same_files_keep _ _ Hs). apply Hd.
Qed.

Lemma dat_log : dat <> log.
Proof. by apply path_join_inj. Qed.

(** ** Compaction, under any faults *)

Lemma wp_write_dat t fs m :
  stands_for t fs m m ->
  wp (write_dat t) (fun r t' fs' =>
    t' = t /\ dets_disk dir name fs' m /\ file_of log fs' = file_of log fs /\
    (r = ORet (Ok tt) -> dat_holds dat fs' m) /\ (calm_fs fs -> calm_fs fs' /\ r = ORet (Ok tt))) t fs.
Proof.
  intros (Hd & i & n & Hi & ->). pose proof Hd as (Hwf & Hm & d & ops & Hdat & Hlog & Happ).
  unfold write_dat. cbn [dt_dir dt_name dt_cache].
  destruct (dheader_ok (mkDetsHeader DETS_SCHEMA_VERSION "dets" name)) as (h & Hh & Hhl & Hhp). rewrite Hh.
  assert (Hpr : exists ls, Forall2 (prints (fun '(key, value) => dentry_print (mkDetsEntry key value))) (hash_iter m) ls /\
    Forall2 (fun e l => is_line l /\ dentry_parse l = Ok e) (map (fun '(k, v) => mkDetsEntry k v) (hash_iter m)) ls).
  { assert (Hall : Forall (fun '(k, v) => val_exact v) (hash_iter m)).
    { apply Forall_forall. intros [k v] Hin. apply elem_of_hash_iter in Hin. by apply (Hm k). }
    induction Hall as [|[k v] l Hv _ (ls & H1 & H2)]; [by exists []|].
    destruct (dentry_ok (mkDetsEntry k v) Hv) as (s & Hs & Hsl & Hsp). exists (s :: ls). by split; constructor. }
  destruct Hpr as (ls & Hls & Hls').
  eapply wp_mono.
  { apply (wp_put_file (dat_tmp_of dir name) dat _ _ _ _ _ _ _ _ _ (hash_iter m) h ls _ fs);
      [done|by apply path_join_inj|exact Hls]. }
  intros r t' fs' (-> & Hwf' & Ho & Hor & Hc).
  assert (Hkl : kept log fs fs') by (apply Ho; by apply path_join_inj).
  assert (Hnew : content dat fs' = Some (unlines (h :: ls)) -> dat_holds dat fs' m).
  { intros Hct. unfold dat_holds. destruct (content_file _ _ _ Hct) as [j ->].
    eexists h, _, _, ls. split_and!; [done|apply Hhl..|done|done|done|]. by rewrite insert_entries_to_map. }
  split; [done|]. split; [|split; [apply Hkl|split; [|done]]].
  - destruct Hor as [Hct|[_ Hkd]]; [|by eapply dets_disk_kept].
    split; [done|]. split; [done|]. exists m, ops. split; [by apply Hnew|]. split.
    + unfold log_holds in *. by destruct Hkl as [-> ->].
    + rewrite <- Happ at 1. by rewrite apply_all_idem.
  - intros Hr. destruct Hor as [Hct|[Hnr _]]; [by apply Hnew|done].
Qed.

Lemma wp_compact t fs m :
  stands_for t fs m m ->
  wp dets_compact (fun r t' fs' =>
    dets_disk dir name fs' m /\ (calm_fs fs -> calm_fs fs' /\ r = ORet (Ok tt) /\ stands_for t' fs' m m)) t fs.
Proof.
  intros Hst. pose proof Hst as (Hd & i & n & Hi & Ht). apply wp_get, wp_bind.
  eapply wp_mono; [by apply wp_write_dat|]. intros r t1 fs1 (-> & Hd1 & Hf1 & Hok & Hc1).
  destruct r as [[[]|e]|]; [|split; [done|]; intros Hq; by destruct (Hc1 Hq) ..].
  specialize (Hok eq_refl). assert (dt_dir t = dir /\ dt_name t = name) as [-> ->] by (by subst t).
  pose proof Hd1 as (Hwf1 & Hm & _). apply wp_call. pose proof (create_spec log fs1 Hwf1) as H2.
  destruct (create log fs1) as [r2 fs2]. destruct H2 as [(Hwf2 & Ho2 & Hr2) Hc2].
  destruct r2 as [j|e|];
    [|split; [by eapply dets_disk_same|]; intros Hq; destruct (Hc1 Hq) as [Hq1 _]; by destruct (Hc2 Hq1) ..].
  destruct Hr2 as [Hf2 Hct2].
  assert (Hd2 : dets_disk dir name fs2 m).
  { split; [done|]. split; [done|]. exists m, []. split_and!; [| |done].
    - destruct (Ho2 dat dat_log) as [Hfd Hcd]. unfold dat_holds in *. by rewrite Hfd, Hcd.
    - unfold log_holds. rewrite Hf2. by exists []. }
  apply wp_bind. unfold wp at 1, drop_log_writer. rewrite Ht. cbn.
  split; [done|]. intros Hq. destruct (Hc1 Hq) as [Hq1 _]. destruct (Hc2 Hq1) as [Hq2 _].
  split; [done|]. split; [done|]. split; [done|]. by exists j, 0.
Qed.

(** ** Changes, without faults *)

Lemma wp_append_log t fs cache m e :
  stands_for t fs cache m -> calm_fs fs -> (forall v, dl_value e = Some v -> val_exact v) ->
  wp (append_log e) (fun r t' fs' => r = ORet (Ok tt) /\ calm_fs fs' /\
    stands_for t' fs' cache (apply_entry (mkDetsLogEntry (dl_op e) (dl_key e) (reread (dl_value e))) m)) t fs.
Proof.
  intros ((Hwf & Hm & d & ops & Hdat & Hlog & Happ) & i & n & Hi & ->) Hq He.
  destruct (dlog_ok e He) as (l & Hl & Hline & Hp). apply wp_get. cbn [dt_log_writer].
  apply wp_bind, wp_result. rewrite Hl. apply wp_modify. unfold wp, flush_log. cbn [dt_with_writer dt_log_writer].
  set (b := bw_writeln l _). pose proof (bw_flush_spec log b fs Hwf Hi) as Hf.
  destruct (bw_flush b fs) as [[r b'] fs1]. destruct Hf as (Hwf1 & Ho1 & Hi1 & Hb1 & Hd1 & Hc1).
  destruct (Hc1 Hq) as [Hq1 Hr]. destruct r as [u|err|]; [|done..]. destruct (Hd1 eq_refl) as [Hbe Hct].
  split; [done|]. split; [done|]. split.
  - split; [done|]. split.
    + intros k v. unfold apply_entry. cbn. destruct (String.eqb _ "put"); [|destruct (String.eqb _ "delete"); [|by apply Hm]].
      * destruct (dl_value e) as [v'|] eqn:Hv; cbn; [|by apply Hm]. destruct (val_is_null v'); [by apply Hm|].
        intros [[<- <-]|[_ Hv2]]%lookup_insert_Some; [by apply He|by apply (Hm k)].
      * intros [_ Hv2]%lookup_delete_Some. by apply (Hm k).
    + exists d, (ops ++ [mkDetsLogEntry (dl_op e) (dl_key e) (reread (dl_value e))]). split_and!.
      * destruct (Ho1 dat dat_log) as [Hfd Hcd]. unfold dat_holds in *. by rewrite Hfd, Hcd.
      * unfold log_holds in *. rewrite Hi1. rewrite Hi in Hlog. destruct Hlog as (ls & Hls & Hops).
        exists (ls ++ [l]). rewrite Hct, Hls. cbn [default from_option]. split; [by rewrite unlines_app|].
        apply Forall2_app; [done|]. by constructor.
      * unfold apply_all. rewrite foldl_app. cbn. unfold apply_all in Happ. by rewrite Happ.
  - exists i, n. split; [done|]. destruct b' as [fi bb]. cbn in *. by subst fi bb.
Qed.

Lemma wp_after_change t fs m :
  stands_for t fs m m -> calm_fs fs ->
  wp after_change (fun r t' fs' => r = ORet (Ok tt) /\ calm_fs fs' /\ stands_for t' fs' m m) t fs.
Proof.
  intros (Hd & i & n & Hi & ->) Hq. apply wp_modify, wp_get. cbn [dt_with_dirty dt_dirty_count dt_compact_threshold].
  assert (Hst : stands_for (mkDetsTable name dir access owner heir m max_entries (wrap64 (n + 1)) threshold
    (Some (mkBufWriter i ""))) fs m m) by (split; [done|by exists i, (wrap64 (n + 1))]).
  destruct (_ <=? _).
  - eapply wp_mono; [by apply wp_compact|]. intros r t' fs' [_ Hc]. destruct (Hc Hq) as (? & ? & ?). done.
  - by unfold wp, op_ret.
Qed.

Definition write_ok (caller : AgentPid) : bool :=
  match access with Public => true | _ => caller =? owner end.
Definition read_ok (caller : AgentPid) : bool :=
  match access with Private => caller =? owner | _ => true end.

Lemma check_write_spec t fs c m caller :
  stands_for t fs c m -> dets_check_write caller t = if write_ok caller then Ok tt else Err (EEts "write access denied").
Proof. intros (_ & i & n & _ & ->). unfold dets_check_write, write_ok. cbn. by destruct access. Qed.
Lemma check_read_spec t fs c m caller :
  stands_for t fs c m -> dets_check_read caller t = if read_ok caller then Ok tt else Err (EEts "read access denied").
Proof. intros (_ & i & n & _ & ->). unfold dets_check_read, read_ok. cbn. by destruct access. Qed.

Lemma stands_for_cache t fs c m c' :
  stands_for t fs c m -> stands_for (dt_with_cache c' t) fs c' m /\ dt_cache t = c /\ dt_max_entries t = max_entries.
Proof. intros (Hd & i & n & Hi & ->). split_and!; [|done..]. split; [done|by exists i, n]. Qed.

Lemma wp_put t fs m k v caller :
  stands_for t fs m m -> calm_fs fs -> val_exact v -> val_is_null v = false ->
  let full := bool_decide (m !! k = None) && (max_entries <=? Z.of_nat (size m)) in
  wp (dets_put k v caller) (fun r t' fs' =>
    calm_fs fs' /\
    if negb (write_ok caller) then r = ORet (Err (EEts "write access denied")) /\ stands_for t' fs' m m
    else if full then r = ORet (Err (EEts "table full")) /\ stands_for t' fs' m m
    else r = ORet (Ok tt) /\ stands_for t' fs' (<[k := v]> m) (<[k := v]> m)) t fs.
Proof.
  intros Hst Hq Hv Hn full. apply wp_get. rewrite (check_write_spec _ _ _ _ caller Hst).
  destruct (write_ok caller); [|done]. cbn [negb op_lift]. apply wp_ret_bind.
  destruct (stands_for_cache _ _ _ _ m Hst) as (_ & -> & ->).
  assert (negb (bool_decide (is_Some (m !! k))) = bool_decide (m !! k = None)) as ->.
  { rewrite <- bool_decide_not. apply bool_decide_ext. by rewrite <- eq_None_not_Some. }
  fold full. destruct full; [done|]. apply wp_bind.
  eapply wp_mono; [apply (wp_append_log _ _ _ _ (mkDetsLogEntry "put" k (Some v)) Hst Hq); cbn; congruence|].
  intros r1 t1 fs1 (-> & Hq1 & Hst1). cbn [dl_op dl_key dl_value reread] in Hst1. rewrite Hn in Hst1.
  unfold apply_entry in Hst1. cbn in Hst1. apply wp_modify.
  destruct (stands_for_cache _ _ _ _ (<[k := v]> m) Hst1) as (Hst2 & -> & _).
  eapply wp_mono; [by apply wp_after_change|]. intros r2 t2 fs2 (-> & ? & ?). done.
Qed.

Lemma wp_delete_key t fs m k caller :
  stands_for t fs m m -> calm_fs fs ->
  wp (dets_delete_key k caller) (fun r t' fs' =>
    calm_fs fs' /\
    if write_ok caller then r = ORet (Ok tt) /\ stands_for t' fs' (delete k m) (delete k m)
    else r = ORet (Err (EEts "write access denied")) /\ stands_for t' fs' m m) t fs.
Proof.
  intros Hst Hq. apply wp_get. rewrite (check_write_spec _ _ _ _ caller Hst).
  destruct (write_ok caller); [|done]. cbn [op_lift]. apply wp_ret_bind, wp_bind.
  eapply wp_mono; [by apply (wp_append_log _ _ _ _ (mkDetsLogEntry "delete" k None) Hst Hq)|].
  intros r1 t1 fs1 (-> & Hq1 & Hst1). cbn in Hst1. unfold apply_entry in Hst1. cbn in Hst1. apply wp_modify.
  destruct (stands_for_cache _ _ _ _ (delete k m) Hst1) as (Hst2 & -> & _).
  eapply wp_mono; [by apply wp_after_change|]. intros r2 t2 fs2 (-> & ? & ?). done.
Qed.

(** ** Opening *)

Lemma wp_load_dat fs d {X} (x : X) :
  dat_holds dat fs d -> calm_fs fs ->
  wp (dets_load_dat dat) (fun r x' fs' => r = ORet (Ok d) /\ same_files fs fs' /\ calm_fs fs') x fs.
Proof.
  intros Hd Hq. apply wp_fs. unfold dat_holds in Hd. destruct (file_of dat fs) as [i|] eqn:Hf.
  - rewrite path_exists_true by (by rewrite Hf). destruct Hd as (h & hdr & es & ls & Hct & Hh & Hp & Hv & Hls & ->).
    eapply wp_read_file; [done..|]. intros fs' Hs Hq'.
    assert (lines (unlines (h :: ls)) = h :: ls) as ->.
    { apply lines_unlines. constructor; [apply Hh|].
      clear -Hls. induction Hls as [|e l es ls [[? _] _] _ IH]; by constructor. }
    cbn [load_dat]. destruct Hh as [_ Hb]. rewrite Hb, Hp, Hv, Z.ltb_irrefl. by rewrite (load_entries es).
  - unfold path_exists. rewrite Hf. by rewrite Hd.
Qed.

Lemma wp_replay_log fs d ops {X} (x : X) :
  log_holds log fs ops -> calm_fs fs ->
  wp (dets_replay_log log d) (fun r x' fs' => r = ORet (Ok (apply_all ops d)) /\ same_files fs fs' /\ calm_fs fs') x fs.
Proof.
  intros Hl Hq. apply wp_fs. unfold log_holds in Hl. destruct (file_of log fs) as [i|] eqn:Hf.
  - rewrite path_exists_true by (by rewrite Hf). destruct Hl as (ls & Hct & Hls).
    eapply wp_read_file; [done..|]. intros fs' Hs Hq'.
    rewrite (lines_of _ _ _ (fun e l Hp => proj1 Hp) Hls). by rewrite (replay_entries ops).
  - unfold path_exists. rewrite Hf. by rewrite Hl.
Qed.

Lemma wp_dets_open {X} fs m (x : X) :
  dets_disk dir name fs m -> calm_fs fs ->
  wp (dets_open name dir access owner heir max_entries threshold)
     (fun r x' fs' => exists t, r = ORet (Ok t) /\ calm_fs fs' /\ stands_for t fs' m m) x fs.
Proof.
  intros Hd Hq. apply wp_call. pose proof (sys_call_spec fs) as H1. destruct (sys_call fs) as [r1 fs1].
  destruct H1 as [Hs1 Hc1]. destruct (Hc1 Hq) as [Hq1 Hd1]. destruct r1 as [u|e|]; [|done..].
  pose proof (dets_disk_same _ _ _ Hs1 Hd) as (Hwf1 & Hm & d & ops & Hdat & Hlog & Happ).
  apply wp_bind. eapply wp_mono; [by apply wp_load_dat|]. intros r2 x2 fs2 (-> & Hs2 & Hq2).
  assert (Hlog2 : log_holds log fs2 ops).
  { unfold log_holds in *. by destruct (same_files_kept _ _ log Hs2) as [-> ->]. }
  apply wp_bind. eapply wp_mono; [by apply wp_replay_log|]. intros r3 x3 fs3 (-> & Hs3 & Hq3).
  pose proof (same_files_trans _ _ _ Hs2 Hs3) as Hs13. rewrite Happ.
  destruct (same_files_keep _ _ Hs13) as [Hwf3 Hk3]. specialize (Hwf3 Hwf1).
  apply wp_call. pose proof (open_append_new_spec log fs3 Hwf3) as Ho. destruct (open_append true log fs3) as [r4 fs4].
  destruct Ho as [(Hwf4 & Ho4 & Hr4) Hc4]. destruct (Hc4 Hq3) as [Hq4 Hd4]. destruct r4 as [i|e|]; [|done..].
  destruct Hr4 as [Hf4 Hct4]. eexists. split; [done|]. split; [done|]. split; [|by exists i, 0].
  split; [done|]. split; [done|]. exists d, ops. split_and!; [| |done].
  - destruct (Ho4 dat dat_log) as [Hfd Hcd]. unfold dat_holds in *.
    by rewrite Hfd, Hcd, (proj1 (Hk3 dat)), (proj2 (Hk3 dat)).
  - unfold log_holds in *. rewrite Hf4, Hct4, (proj2 (Hk3 log)). destruct (file_of log fs1) eqn:Hf.
    + destruct Hlog as (ls & Hls & Hops). exists ls. by rewrite Hls.
    + exists []. unfold content. rewrite Hf. cbn. by subst ops.
Qed.
End ops.

(** * A table in use *)

Section use.
Context {V : Type} `{DC : DetsCodec V, !DetsLaws V} `{HO : HashOrder}.
Context (dir name : string) (access : AccessType) (owner : AgentPid) (heir : option AgentPid) (max_entries threshold : Z).
Implicit Types (t : DetsTable V) (fs : FS) (m : gmap string V).

Inductive DCmd : Type :=
| DPut (key : string) (v : V) (caller : AgentPid)
| DDelete (key : string) (caller : AgentPid)
| DGet (key : string) (caller : AgentPid)
| DScan (prefix : string) (caller : AgentPid)
| DCount (caller : AgentPid)
| DCompact
| DReopen.

Inductive DReply : Type :=
| DDone
| DValue (v : option V)
| DList (l : list (string * V))
| DNumber (n : Z)
| DError (e : AgentRtError).

Definition open_table {X} : Op X (DetsTable V) := dets_open name dir access owner heir max_entries threshold.

(** The table is closed, and opened again. *)
Definition dets_reopen : Op (DetsTable V) unit :=
  let! _ := dets_close in
  let! t := open_table in
  op_modify (fun _ => t).

Definition dreply {A} (f : A -> DReply) (o : outcome_io A * DetsTable V * FS) : option (DReply * DetsTable V * FS) :=
  match o with
  | (ORet (Ok a), t, fs) => Some (f a, t, fs)
  | (ORet (Err e), t, fs) => Some (DError e, t, fs)
  | (OCrash, _, _) => None
  end.
Definition dpure {A} (f : A -> DReply) (r : result A AgentRtError) : DReply :=
  match r with Ok a => f a | Err e => DError e end.

Definition d_exec (c : DCmd) t fs : option (DReply * DetsTable V * FS) :=
  match c with
  | DPut k v caller => dreply (fun _ => DDone) (dets_put k v caller t fs)
  | DDelete k caller => dreply (fun _ => DDone) (dets_delete_key k caller t fs)
  | DGet k caller => Some (dpure DValue (dets_get k caller t), t, fs)
  | DScan p caller => Some (dpure DList (dets_scan p caller t), t, fs)
  | DCount caller => Some (dpure DNumber (dets_count caller t), t, fs)
  | DCompact => dreply (fun _ => DDone) (dets_compact t fs)
  | DReopen => dreply (fun _ => DDone) (dets_reopen t fs)
  end.

Fixpoint d_run (cs : list DCmd) t fs : option (list DReply * DetsTable V * FS) :=
  match cs with
  | [] => Some ([], t, fs)
  | c :: cs =>
      '(r, t, fs) ← d_exec c t fs;
      '(rs, t, fs) ← d_run cs t fs;
      Some (r :: rs, t, fs)
  end.

(** What a table promises: a map with access control and a quota, that closing, opening and
    compacting do not change. *)
Definition m_exec (c : DCmd) m : DReply * gmap string V :=
  match c with
  | DPut k v caller =>
      if negb (write_ok access owner caller) then (DError (EEts "write access denied"), m)
      else if bool_decide (m !! k = None) && (max_entries <=? Z.of_nat (size m)) then (DError (EEts "table full"), m)
      else (DDone, <[k := v]> m)
  | DDelete k caller =>
      if write_ok access owner caller then (DDone, delete k m) else (DError (EEts "write access denied"), m)
  | DGet k caller =>
      (if read_ok access owner caller then DValue (m !! k) else DError (EEts "read access denied"), m)
  | DScan p caller =>
      (if read_ok access owner caller then DList (retain (fun '(k, _) => starts_with k p) (hash_iter m))
       else DError (EEts "read access denied"), m)
  | DCount caller =>
      (if read_ok access owner caller then DNumber (Z.of_nat (size m)) else DError (EEts "read access denied"), m)
  | DCompact | DReopen => (DDone, m)
  end.

Fixpoint m_run (cs : list DCmd) m : list DReply * gmap string V :=
  match cs with
  | [] => ([], m)
  | c :: cs => let '(r, m) := m_exec c m in let '(rs, m) := m_run cs m in (r :: rs, m)
  end.

Definition dcmd_ok (c : DCmd) : Prop :=
  match c with DPut _ v _ => val_exact v /\ val_is_null v = false | _ => True end.

Abbreviation stands t fs m := (stands_for dir name access owner heir max_entries threshold t fs m m).

Lemma d_exec_refines c t fs m :
  stands t fs m -> calm_fs fs -> dcmd_ok c ->
  exists t' fs', d_exec c t fs = Some ((m_exec c m).1, t', fs') /\ stands t' fs' (m_exec c m).2 /\ calm_fs fs'.
Proof.
  intros Hst Hq Hc. assert (Hcache : dt_cache t = m) by (destruct Hst as (_ & i & n & _ & ->); done).
  destruct c as [k v caller|k caller|k caller|p caller|caller| |]; cbn [d_exec m_exec].
  - destruct Hc as [Hv Hn]. pose proof (wp_put _ _ _ _ _ _ _ t fs m k v caller Hst Hq Hv Hn) as Hw. unfold wp in Hw.
    destruct (dets_put k v caller t fs) as [[r t'] fs']. destruct Hw as [Hq' Hw]. exists t', fs'.
    destruct (write_ok _ _ _); cbn [negb] in *; [destruct (_ && _)|]; by destruct Hw as [-> ?].
  - pose proof (wp_delete_key _ _ _ _ _ _ _ t fs m k caller Hst Hq) as Hw. unfold wp in Hw.
    destruct (dets_delete_key k caller t fs) as [[r t'] fs']. destruct Hw as [Hq' Hw]. exists t', fs'.
    destruct (write_ok _ _ _); by destruct Hw as [-> ?].
  - exists t, fs. unfold dets_get. rewrite (check_read_spec _ _ _ _ _ _ _ _ _ _ _ caller Hst), Hcache.
    by destruct (read_ok _ _ _).
  - exists t, fs. unfold dets_scan. rewrite (check_read_spec _ _ _ _ _ _ _ _ _ _ _ caller Hst), Hcache.
    by destruct (read_ok _ _ _).
  - exists t, fs. unfold dets_count. rewrite (check_read_spec _ _ _ _ _ _ _ _ _ _ _ caller Hst), Hcache.
    by destruct (read_ok _ _ _).
  - pose proof (wp_compact _ _ _ _ _ _ _ t fs m Hst) as Hw. unfold wp in Hw.
    destruct (dets_compact t fs) as [[r t'] fs']. destruct Hw as [_ Hw]. destruct (Hw Hq) as (? & -> & ?). by exists t', fs'.
  - pose proof Hst as (Hd & i & n & Hi & ->). unfold dets_reopen, dets_close, op_bind, flush_log, drop_log_writer.
    cbn -[open_table bw_flush bw_drop]. rewrite bw_flush_empty. cbn -[open_table bw_drop]. rewrite bw_drop_empty.
    cbn -[open_table].
    match goal with |- context [open_table ?x fs] =>
      pose proof (wp_dets_open dir name access owner heir max_entries threshold fs m x Hd Hq) as Hw;
      unfold wp in Hw; fold (open_table (X := DetsTable V)) in Hw;
      destruct (open_table x fs) as [[r t'] fs'] end.
    destruct Hw as (t2 & -> & ? & ?). by exists t2, fs'.
Qed.

Lemma d_run_refines cs t fs m :
  stands t fs m -> calm_fs fs -> Forall dcmd_ok cs ->
  exists t' fs', d_run cs t fs = Some ((m_run cs m).1, t', fs') /\ stands t' fs' (m_run cs m).2 /\ calm_fs fs'.
Proof.
  revert t fs m. induction cs as [|c cs IH]; intros t fs m Hst Hq Hcs; [by exists t, fs|].
  apply Forall_cons in Hcs as [Hc Hcs]. destruct (d_exec_refines c t fs m Hst Hq Hc) as (t1 & fs1 & He & Hst1 & Hq1).
  cbn [d_run m_run]. rewrite He. cbn. destruct (m_exec c m) as [r m1]. cbn in *.
  destruct (IH t1 fs1 m1 Hst1 Hq1 Hcs) as (t2 & fs2 & -> & ? & ?). cbn. exists t2, fs2. by destruct (m_run cs m1).
Qed.

Lemma open_stands fs m (x : unit) :
  dets_disk dir name fs m -> calm_fs fs ->
  exists t fs0, open_table x fs = (ORet (Ok t), x, fs0) /\ calm_fs fs0 /\ stands t fs0 m.
Proof.
  intros Hd Hq. pose proof (wp_dets_open dir name access owner heir max_entries threshold fs m x Hd Hq) as Hw.
  unfold wp in Hw. fold (open_table (X := unit)) in Hw.
  destruct (open_table x fs) as [[r []] fs0]. destruct x. destruct Hw as (t & -> & Hq0 & Hst). eauto.
Qed.

(** C18: a disk table is a map.  Opened on files that say [m] (no files say the empty map),
    without faults, any sequence of puts of non-null values, deletions, reads, compactions
    (asked for, or at the threshold) and reopenings returns, and answers exactly as a map
    with the table's access rights and quota does: no change is lost by a reopening. *)
Theorem dets_refines_map cs (x : unit) fs m :
  dets_disk dir name fs m -> calm_fs fs -> Forall dcmd_ok cs ->
  exists t fs0, open_table x fs = (ORet (Ok t), x, fs0) /\
  exists t' fs', d_run cs t fs0 = Some ((m_run cs m).1, t', fs') /\ dt_cache t' = (m_run cs m).2.
Proof.
  intros Hd Hq Hcs. destruct (open_stands fs m x Hd Hq) as (t & fs0 & -> & Hq0 & Hst).
  exists t, fs0. split; [done|]. destruct (d_run_refines cs t fs0 m Hst Hq0 Hcs) as (t' & fs' & -> & Hst' & _).
  exists t', fs'. split; [done|]. by destruct Hst' as (_ & i & n & _ & ->).
Qed.

(** Compaction is atomic.  Whatever the file system does in the middle of one (every
    call may fail, at any byte of a write, and the process may die in any call, also between
    the new snapshot and the emptying of the log), a table opened afterwards on the files
    left behind holds exactly what the table held. *)
Theorem dets_compact_atomic t fs m r t' fs' (x : unit) :
  stands t fs m -> dets_compact t fs = (r, t', fs') ->
  exists t2 fs2, open_table x (mkFS (fs_names fs') (fs_data fs') (fs_next fs') []) = (ORet (Ok t2), x, fs2) /\
    dt_cache t2 = dt_cache t.
Proof.
  intros Hst Hop. pose proof (wp_compact _ _ _ _ _ _ _ t fs m Hst) as Hw. unfold wp in Hw. rewrite Hop in Hw.
  destruct Hw as [Hd _]. set (fs1 := mkFS _ _ _ []).
  assert (Hd1 : dets_disk dir name fs1 m) by (by eapply dets_disk_same).
  destruct (open_stands fs1 m x Hd1 eq_refl) as (t2 & fs2 & -> & _ & Hst2).
  exists t2, fs2. split; [done|]. destruct Hst as (_ & i & n & _ & ->). by destruct Hst2 as (_ & i2 & n2 & _ & ->).
Qed.
End use.

(** * A concrete table *)

Module DetsWitness.
#[local] Existing Instance map_to_list_order.

(** Values are strings, or null. *)
Abbreviation Val := (option string).

#[global] Instance dets_codec : DetsCodec Val := {
  dheader_print h := Ok (LineCodec.print (dh_version h, dh_type h, dh_table h));
  dheader_parse s := let? d := LineCodec.parse s in let '(v, ty, tb) := d : Z * string * string in Ok (mkDetsHeader v ty tb);
  dentry_print e := Ok (LineCodec.print (de_key e, de_value e));
  dentry_parse s := let? d := LineCodec.parse s in let '(k, v) := d : string * Val in Ok (mkDetsEntry k v);
  dlog_print e := Ok (LineCodec.print (dl_op e, dl_key e, dl_value e));
  dlog_parse s :=
    let? d := LineCodec.parse s in
    let '(op, k, v) := d : string * string * option Val in
    Ok (mkDetsLogEntry op k (match v with Some (Some x) => Some (Some x) | _ => None end));
  val_exact v := True;
  val_is_null v := bool_decide (v = None)
}.

#[global] Instance dets_codec_laws : DetsLaws Val.
Proof.
  split.
  - intros [v ty tb]. eexists. split; [done|]. split; [apply LineCodec.print_line|].
    unfold dheader_parse, dets_codec. by rewrite LineCodec.parse_print.
  - intros [k v] _. eexists. split; [done|]. split; [apply LineCodec.print_line|].
    unfold dentry_parse, dets_codec. by rewrite LineCodec.parse_print.
  - intros [op k v] _. eexists. split; [done|]. split; [apply LineCodec.print_line|].
    unfold dlog_parse, dets_codec. rewrite LineCodec.parse_print. by destruct v as [[x|]|].
Qed.

Definition disk0 : FS := mkFS ∅ ∅ 0 [].
Definition p1 : AgentPid := 2147483649.

Lemma disk0_holds : dets_disk (V := Val) "d" "t" disk0 ∅.
Proof.
  split; [split; [by intros p q i|by intros p i]|]. split; [apply map_Forall_empty|].
  exists ∅, []. by split_and!.
Qed.

(** Two entries at most, compacted at every second change. *)
Definition open_it {X} : Op X (DetsTable Val) := open_table "d" "t" Protected p1 None 2 2.

Definition session : list (DCmd (V := Val)) :=
  [DPut "a" (Some "1") p1; DPut "b" (Some "2") p1; DPut "c" (Some "3") p1; DPut "a" (Some "4") 7; DDelete "b" p1;
   DReopen; DGet "a" 7; DGet "b" 7; DCount 7].
Definition session_replies : list (DReply (V := Val)) :=
  [DDone; DDone; DError (EEts "table full"); DError (EEts "write access denied"); DDone;
   DDone; DValue (Some (Some "1")); DValue None; DNumber 1].

Lemma dets_refines_map_witness :
  exists t fs0, open_it tt disk0 = (ORet (Ok t), tt, fs0) /\
  exists t' fs', d_run "d" "t" Protected p1 None 2 2 session t fs0 = Some (session_replies, t', fs') /\
                 dt_cache t' = {["a" := Some "1"]}.
Proof.
  assert (Hok : Forall dcmd_ok session) by (by repeat constructor).
  exact (dets_refines_map "d" "t" Protected p1 None 2 2 session tt disk0 ∅ disk0_holds eq_refl Hok).
Defined.

Definition opened : DetsTable Val * FS :=
  match open_it tt disk0 with
  | (ORet (Ok t), _, fs) => (t, fs)
  | (_, _, fs) => (mkDetsTable "t" "d" Protected p1 None ∅ 2 0 2 None, fs)
  end.
Definition after (cs : list (DCmd (V := Val))) : DetsTable Val * FS :=
  match d_run "d" "t" Protected p1 None 2 2 cs opened.1 opened.2 with Some (_, t, fs) => (t, fs) | None => opened end.

Definition faulty (vs : list Verdict) (fs : FS) : FS := mkFS (fs_names fs) (fs_data fs) (fs_next fs) vs.

Lemma after_stands cs :
  Forall dcmd_ok cs ->
  stands_for "d" "t" Protected p1 None 2 2 (after cs).1 (after cs).2
    (m_run Protected p1 2 cs ∅).2 (m_run Protected p1 2 cs ∅).2.
Proof.
  intros Hcs. destruct (open_stands "d" "t" Protected p1 None 2 2 disk0 ∅ tt disk0_holds eq_refl) as (t & fs0 & Ho & Hq & Hst).
  unfold after, opened, open_it. rewrite Ho. cbn [fst snd].
  destruct (d_run_refines "d" "t" Protected p1 None 2 2 cs t fs0 ∅ Hst Hq Hcs) as (t' & fs' & Hr & Hst' & _).
  by rewrite Hr.
Qed.

(** A crash after the new snapshot got its name, before the log is emptied. *)
Definition one : DetsTable Val * FS := after [DPut "a" (Some "1") p1].
Definition cut : outcome_io unit * DetsTable Val * FS :=
  dets_compact one.1 (faulty [VOk; VOk; VOk; VOk; VOk; VOk; VCrash 0] one.2).

Lemma dets_compact_atomic_witness :
  cut.1.1 = OCrash /\ is_Some (content "d/t.dat" cut.2) /\
  exists t2 fs2, open_it tt (faulty [] cut.2) = (ORet (Ok t2), tt, fs2) /\ dt_cache t2 = dt_cache one.1.
Proof.
  split; [vm_compute; reflexivity|]. split; [vm_compute; by eexists|].
  assert (Hst : stands_for "d" "t" Protected p1 None 2 2 one.1 (faulty [VOk; VOk; VOk; VOk; VOk; VOk; VCrash 0] one.2)
    {["a" := Some "1"]} {["a" := Some "1"]}).
  { pose proof (after_stands [DPut "a" (Some "1") p1] ltac:(by repeat constructor)) as (Hd & i & n & Hi & Ht).
    split; [by eapply dets_disk_same|]. by exists i, n. }
  exact (dets_compact_atomic "d" "t" Protected p1 None 2 2 one.1 _ _ cut.1.1 cut.1.2 cut.2 tt Hst
    (eq_trans (surjective_pairing _) (f_equal (fun p => (p, cut.2)) (surjective_pairing _)))).
Defined.

(** ** What the code does not keep *)

(** A null that was put is not read back from the log: the old value returns. *)
Lemma null_put_is_lost :
  let t := (after [DPut "a" (Some "1") p1; DCompact; DPut "a" None p1]).1 in
  let t' := (after [DPut "a" (Some "1") p1; DCompact; DPut "a" None p1; DReopen]).1 in
  dets_get "a" p1 t = Ok (Some None) /\ dets_get "a" p1 t' = Ok (Some (Some "1")).
Proof. vm_compute. by split. Qed.

(** A put that fails while flushing its line is refused, but the line stays in the buffer:
    the next change, or closing, writes it, and the value appears at the next opening. *)
Definition refused : outcome_io unit * DetsTable Val * FS :=
  dets_put "a" (Some "1") p1 opened.1 (faulty [VFail 0 "ENOSPC"] opened.2).
Definition refused_reopened : outcome_io unit * DetsTable Val * FS :=
  dets_reopen "d" "t" Protected p1 None 2 2 refused.1.2 refused.2.

Lemma refused_put_comes_back :
  refused.1.1 = ORet (Err (EEts "flush log: ENOSPC")) /\ dets_get "a" p1 refused.1.2 = Ok None /\
  dets_get "a" p1 refused_reopened.1.2 = Ok (Some (Some "1")).
Proof. vm_compute. by split_and!. Qed.

(** A crash in the middle of a log line makes the table impossible to open. *)
Definition torn : FS := (dets_put "a" (Some "1") p1 opened.1 (faulty [VCrash 5] opened.2)).2.

Lemma torn_log_blocks_opening :
  (open_it tt (faulty [] torn)).1.1 = ORet (Err (dt_err "bad log entry" "syntax")).
Proof. vm_compute. reflexivity. Qed.
End DetsWitness.
