(* ===== verification/Checkpoint.v ===== *)
(** Checkpoint stores ([agent_rt/checkpoint.rs]): the trait, the store in memory, and the
    store with one file per key, over files with faults and crashes. *)
From Stdlib Require Import Ascii.
From S2P Require Import Prelude Types FileSystem.

(** ** The trait

    [CheckpointStore]; [CS] is the handle, [W] what is behind it. *)
Class CheckpointStore (V CS W : Type) : Type := {
  ck_save : CS -> string -> V -> W -> result unit AgentRtError * W;
  ck_load : CS -> string -> W -> result (option V) AgentRtError;
  ck_delete : CS -> string -> W -> result unit AgentRtError * W
}.

(** What every lookup promises after a save and a deletion that succeeded, and that keys do
    not disturb each other. *)
Class CheckpointLaws (V CS W : Type) `{CheckpointStore V CS W} : Prop := {
  ck_load_save cs key v w w' : ck_save cs key v w = (Ok tt, w') -> ck_load cs key w' = Ok (Some v);
  ck_load_delete cs key w w' : ck_delete cs key w = (Ok tt, w') -> ck_load cs key w' = Ok None;
  ck_save_other cs key key' v w : key <> key' -> ck_load cs key' (ck_save cs key v w).2 = ck_load cs key' w;
  ck_delete_other cs key key' w : key <> key' -> ck_load cs key' (ck_delete cs key w).2 = ck_load cs key' w
}.

(** ** In memory

    A lock is only poisoned by a panic inside a critical section; these have none. *)
Section memory.
Context {V : Type} `{HO : HashOrder}.
Implicit Types m : gmap string V.

Definition mem_new : gmap string V := ∅.
Definition mem_save (key : string) (v : V) m : result unit AgentRtError * gmap string V := (Ok tt, <[key := v]> m).
Definition mem_load (key : string) m : result (option V) AgentRtError := Ok (m !! key).
Definition mem_delete (key : string) m : result unit AgentRtError * gmap string V := (Ok tt, delete key m).
Definition mem_list_keys m : result (list string) AgentRtError := Ok (hash_keys m).
End memory.

Inductive InMemoryCheckpointStore : Type := InMemory.

#[export] Instance memory_store {V} : CheckpointStore V InMemoryCheckpointStore (gmap string V) := {
  ck_save _ := mem_save;
  ck_load _ := mem_load;
  ck_delete _ := mem_delete
}.

#[export] Instance memory_laws {V} : CheckpointLaws V InMemoryCheckpointStore (gmap string V).
Proof.
  split; cbn; unfold mem_save, mem_load, mem_delete; intros.
  - simplify_eq. by rewrite lookup_insert_eq.
  - simplify_eq. by rewrite lookup_delete_eq.
  - by rewrite lookup_insert_ne.
  - by rewrite lookup_delete_ne.
Qed.

(** ** One file per key *)

(** [serde_json::to_vec_pretty] and [from_slice]. *)
Class JsonText (V : Type) : Type := {
  json_print_pretty : V -> result string string;
  json_parse : string -> result V string
}.

(** The text of a value reads back as the value. *)
Definition json_reads_back {V} `{JsonText V} (v : V) : Prop :=
  exists s, json_print_pretty v = Ok s /\ json_parse s = Ok v.

Definition in_range (a b : nat) (c : ascii) : bool := (a <=? nat_of_ascii c)%nat && (nat_of_ascii c <=? b)%nat.

(** [is_ascii_alphanumeric() || '-' || '_']. *)
Definition is_safe (c : ascii) : bool :=
  in_range 48 57 c || in_range 65 90 c || in_range 97 122 c || Ascii.eqb c "-" || Ascii.eqb c "_".

(** The bytes of a [char] after its first, in UTF-8. *)
Definition is_continuation (c : ascii) : bool := in_range 128 191 c.

(** The name of a key: each unsafe [char] becomes an underscore. *)
Fixpoint sanitize (key : string) : string :=
  match key with
  | EmptyString => EmptyString
  | String c key =>
      if is_continuation c then sanitize key
      else String (if is_safe c then c else "_"%char) (sanitize key)
  end.

Definition path_of (dir safe : string) : string := path_join dir (safe +:+ ".json").
Definition checkpoint_path (dir key : string) : string := path_of dir (sanitize key).

(** [path.with_extension("json.tmp")]: a name that is only a dot and letters has no
    extension to replace. *)
Definition checkpoint_tmp (dir key : string) : string :=
  let safe := sanitize key in
  path_join dir (if decide (safe = "") then ".json.json.tmp" else safe +:+ ".json.tmp").

(** The names of a directory's entries, and the stems of those that end in [.json]. *)
Fixpoint strip_prefix (p s : string) : option string :=
  match p, s with
  | EmptyString, _ => Some s
  | String c p, String c' s => if Ascii.eqb c c' then strip_prefix p s else None
  | _, _ => None
  end.
Fixpoint has_slash (s : string) : bool :=
  match s with EmptyString => false | String c s => Ascii.eqb c "/" || has_slash s end.
Fixpoint strip_suffix (suffix s : string) : option string :=
  if decide (s = suffix) then Some ""
  else match s with String c s => String c <$> strip_suffix suffix s | EmptyString => None end.

Definition json_stem (dir p : string) : option string :=
  name ← strip_prefix (dir +:+ "/") p;
  if has_slash name then None
  else stem ← strip_suffix ".json" name; if decide (stem = "") then None else Some stem.

Section files.
Context {V : Type} `{JT : JsonText V} `{HO : HashOrder}.
Implicit Types (fs : FS) (m : gmap string V).

Definition fck_new {X} (dir : string) : Op X unit := op_io ECheckpointIo sys_call.

Definition fck_save {X} (dir key : string) (v : V) : Op X unit :=
  let! bytes := op_result ESerialization (json_print_pretty v) in
  let! _ := op_io ECheckpointIo (write_file (checkpoint_tmp dir key) bytes) in
  op_io ECheckpointIo (rename (checkpoint_tmp dir key) (checkpoint_path dir key)).

Definition fck_load {X} (dir key : string) : Op X (option V) :=
  let! there := op_fs (path_exists (checkpoint_path dir key)) in
  if there then
    let! bytes := op_io ECheckpointIo (read (checkpoint_path dir key)) in
    let! v := op_result ESerialization (json_parse bytes) in
    op_ret (Some v)
  else op_ret None.

Definition fck_delete {X} (dir key : string) : Op X unit :=
  let! there := op_fs (path_exists (checkpoint_path dir key)) in
  if there then op_io ECheckpointIo (remove_file (checkpoint_path dir key)) else op_ret tt.

(** The order of a directory's entries is the system's. *)
Definition fck_list_keys {X} (dir : string) : Op X (list string) :=
  let! _ := op_io ECheckpointIo sys_call in
  op_fs (fun fs => omap (json_stem dir) (hash_keys (fs_names fs))).

(** ** Calls *)

Inductive CkCall : Type :=
| CkSave (key : string) (v : V)
| CkLoad (key : string)
| CkDelete (key : string).

Definition call_key (c : CkCall) : string := match c with CkSave key _ | CkLoad key | CkDelete key => key end.

(** The files of a directory, and a memory, answering the same calls. *)
Definition file_call (dir : string) (c : CkCall) : Op unit (option V) :=
  match c with
  | CkSave key v => let! _ := fck_save dir key v in op_ret None
  | CkLoad key => fck_load dir key
  | CkDelete key => let! _ := fck_delete dir key in op_ret None
  end.
Definition mem_call (c : CkCall) m : result (option V) AgentRtError * gmap string V :=
  match c with
  | CkSave key v => let '(_, m) := mem_save (sanitize key) v m in (Ok None, m)
  | CkLoad key => (mem_load (sanitize key) m, m)
  | CkDelete key => let '(_, m) := mem_delete (sanitize key) m in (Ok None, m)
  end.

Fixpoint file_calls (dir : string) (cs : list CkCall) fs : list (outcome_io (option V)) * FS :=
  match cs with
  | [] => ([], fs)
  | c :: cs =>
      let '(r, _, fs) := file_call dir c tt fs in
      let '(rs, fs) := file_calls dir cs fs in (r :: rs, fs)
  end.
Fixpoint mem_calls (cs : list CkCall) m : list (result (option V) AgentRtError) * gmap string V :=
  match cs with
  | [] => ([], m)
  | c :: cs =>
      let '(r, m) := mem_call c m in
      let '(rs, m) := mem_calls cs m in (r :: rs, m)
  end.
End files.
Arguments CkCall : clear implicits.
Arguments CkSave {V} key v.
Arguments CkLoad {V} key.
Arguments CkDelete {V} key.

(** ** Names *)

Fixpoint last_char (c : ascii) (s : string) : ascii :=
  match s with EmptyString => c | String c s => last_char c s end.

Lemma last_char_app c s c' t : last_char c (s +:+ String c' t) = last_char c' t.
Proof. revert c. induction s as [|d s IH]; intros c; [done|]. apply IH. Qed.

Lemma path_of_inj dir a b : path_of dir a = path_of dir b -> a = b.
Proof.
  unfold path_of, path_join. intros H. repeat apply (inj (String.append _)) in H.
  revert b H. induction a as [|c a IH]; intros [|d b] H; [done|..].
  - exfalso. injection H as <- H. destruct b as [|? [|? [|? [|? [|? b]]]]]; simplify_eq/=.
  - exfalso. injection H as -> H. destruct a as [|? [|? [|? [|? [|? a]]]]]; simplify_eq/=.
  - injection H as -> H. f_equal. by apply IH.
Qed.

Lemma checkpoint_tmp_ne dir key safe : checkpoint_tmp dir key <> path_of dir safe.
Proof.
  unfold checkpoint_tmp, path_of, path_join. intros H. repeat apply (inj (String.append _)) in H.
  apply (f_equal (last_char "x")) in H. rewrite last_char_app in H.
  case_decide; [done|]. by rewrite last_char_app in H.
Qed.

(** ** What the files say *)

Section spec.
Context {V : Type} `{JT : JsonText V}.
Implicit Types (fs : FS) (m : gmap string V).

Definition holds (dir : string) fs m : Prop :=
  fs_wf fs /\ forall k,
  match m !! k with
  | Some v => exists s, content (path_of dir k) fs = Some s /\ json_parse s = Ok v
  | None => file_of (path_of dir k) fs = None
  end.

Lemma holds_keep dir fs fs' m :
  fs_wf fs' -> (forall k, kept (path_of dir k) fs fs') -> holds dir fs m -> holds dir fs' m.
Proof.
  intros Hwf Hk [_ Hm]. split; [done|]. intros k. destruct (Hk k) as [Hf Hc]. specialize (Hm k).
  destruct (m !! k); [by rewrite Hc|by rewrite Hf].
Qed.

Lemma holds_same dir fs fs' m : same_files fs fs' -> holds dir fs m -> holds dir fs' m.
Proof.
  intros Hs Hm. eapply holds_keep; [|intros k; by apply same_files_kept|done].
  apply (same_files_keep _ _ Hs). apply Hm.
Qed.

(** Every file but that of [k] is as before, and that of [k] says what [o] is. *)
Lemma holds_change dir fs fs' m k o :
  fs_wf fs' -> (forall k', k' <> k -> kept (path_of dir k') fs fs') ->
  match o with
  | Some v => exists s, content (path_of dir k) fs' = Some s /\ json_parse s = Ok v
  | None => file_of (path_of dir k) fs' = None
  end ->
  holds dir fs m -> holds dir fs' (partial_alter (fun _ => o) k m).
Proof.
  intros Hwf Hk Ho [_ Hm]. split; [done|]. intros k'. destruct (decide (k' = k)) as [->|Hne].
  - rewrite lookup_partial_alter_eq. exact Ho.
  - rewrite lookup_partial_alter_ne by done. destruct (Hk k' Hne) as [Hf Hc]. specialize (Hm k').
    destruct (m !! k'); [by rewrite Hc|by rewrite Hf].
Qed.

(** How an operation on the files of [dir] may end when the memory would go from [m] to
    [m']: done, or, unless it says so, not done; without faults it is done. *)
Definition done_or_not {A} (dir : string) (a : A) m m' fs (r : outcome_io A) fs' : Prop :=
  (calm_fs fs -> calm_fs fs' /\ r = ORet (Ok a) /\ holds dir fs' m') /\
  (holds dir fs' m' \/ (r <> ORet (Ok a) /\ holds dir fs' m)).

Lemma wp_fck_save {X} dir key v m (x : X) fs :
  holds dir fs m -> json_reads_back v ->
  wp (fck_save dir key v) (fun r x' fs' => x' = x /\ done_or_not dir tt m (<[sanitize key := v]> m) fs r fs') x fs.
Proof.
  intros Hm (s & Hpr & Hpa). unfold fck_save. apply wp_bind, wp_result. rewrite Hpr.
  apply wp_call. pose proof (write_file_spec (checkpoint_tmp dir key) s fs (proj1 Hm)) as H1.
  destruct (write_file _ s fs) as [r1 fs1]. destruct H1 as (Hwf1 & Ho1 & Hok1 & Hcalm1).
  assert (Hm1 : holds dir fs1 m).
  { eapply holds_keep; [done|intros k; apply Ho1|done]. intros Heq. by eapply checkpoint_tmp_ne. }
  destruct r1 as [[]|e|]; [|by (split; [done|]; split; [intros Hq; by destruct (Hcalm1 Hq)|by right]) ..].
  destruct (Hok1 eq_refl) as [Hf1 Hc1]. apply wp_io.
  pose proof (rename_spec (checkpoint_tmp dir key) (checkpoint_path dir key) fs1 Hwf1 Hf1
    (checkpoint_tmp_ne dir key (sanitize key))) as H2.
  destruct (rename _ _ fs1) as [r2 fs2]. destruct H2 as (Hwf2 & Hcalm2 & H2).
  destruct r2 as [[]|e|]; cbn [io_done] in H2.
  2,3: by (split; [done|]; split; [intros Hq; destruct (Hcalm1 Hq) as [Hq1 _]; by destruct (Hcalm2 Hq1)|
    right; split; [done|by eapply holds_same]]).
  destruct H2 as (Hf2 & Hc2 & Ho2).
  assert (Hm2 : holds dir fs2 (<[sanitize key := v]> m)).
  { apply (holds_change dir fs1 fs2 m (sanitize key) (Some v)); [done| | |done].
    - intros k Hne. apply Ho2; [by intros Heq; eapply checkpoint_tmp_ne|]. intros Heq. by apply path_of_inj in Heq.
    - exists s. split; [|done]. rewrite <- Hc1. exact Hc2. }
  split; [done|]. split; [|by left]. intros Hq. destruct (Hcalm1 Hq) as [Hq1 _]. by destruct (Hcalm2 Hq1).
Qed.

Lemma wp_fck_delete {X} dir key m (x : X) fs :
  holds dir fs m ->
  wp (fck_delete dir key) (fun r x' fs' => x' = x /\ done_or_not dir tt m (delete (sanitize key) m) fs r fs') x fs.
Proof.
  intros Hm. unfold fck_delete. apply wp_fs. unfold path_exists. case_bool_decide as Hf.
  - apply wp_io. pose proof (remove_file_spec (checkpoint_path dir key) fs (proj1 Hm) Hf) as H1.
    destruct (remove_file _ fs) as [r1 fs1]. destruct H1 as (Hwf1 & Hcalm1 & H1).
    destruct r1 as [[]|e|]; cbn [io_done] in H1.
    2,3: by (split; [done|]; split; [intros Hq; by destruct (Hcalm1 Hq)|right; split; [done|by eapply holds_same]]).
    destruct H1 as (Hf1 & Ho1).
    assert (Hm1 : holds dir fs1 (delete (sanitize key) m)).
    { apply (holds_change dir fs fs1 m (sanitize key) None); [done| |done|done].
      intros k Hne. apply Ho1. intros Heq. by apply path_of_inj in Heq. }
    split; [done|]. split; [|by left]. intros Hq. by destruct (Hcalm1 Hq).
  - assert (Hd : delete (sanitize key) m = m).
    { apply delete_id. destruct Hm as [_ Hm]. specialize (Hm (sanitize key)).
      destruct (m !! sanitize key) as [v|]; [|done]. destruct Hm as (s & Hs & _). destruct Hf. by eapply content_file. }
    rewrite Hd. split; [done|]. split; [done|by left].
Qed.

Lemma wp_fck_load {X} dir key m (x : X) fs :
  holds dir fs m ->
  wp (fck_load dir key) (fun r x' fs' => x' = x /\ done_or_not dir (m !! sanitize key) m m fs r fs' /\
    forall o, r = ORet (Ok o) -> o = m !! sanitize key) x fs.
Proof.
  intros Hm. unfold fck_load. apply wp_fs. pose proof (proj2 Hm (sanitize key)) as Hk. unfold checkpoint_path.
  destruct (m !! sanitize key) as [v|].
  - destruct Hk as (s & Hs & Hpa). rewrite path_exists_true by (by eapply content_file).
    apply wp_call. pose proof (read_spec (path_of dir (sanitize key)) fs) as H1.
    destruct (read _ fs) as [r1 fs1]. destruct H1 as (Hs1 & Hv1 & Hcalm1).
    assert (Hm1 : holds dir fs1 m) by (by eapply holds_same).
    destruct r1 as [s'|e|].
    2,3: by (split; [done|]; split; [split; [intros Hq; by destruct (Hcalm1 (mk_is_Some _ _ Hs) Hq)|by left]|done]).
    specialize (Hv1 s' eq_refl). simplify_eq. apply wp_bind, wp_result. rewrite Hpa.
    split; [done|]. split; [|by intros o [=]]. split; [|by left]. intros Hq. by destruct (Hcalm1 (mk_is_Some _ _ Hs) Hq).
  - unfold path_exists. rewrite Hk. cbn. split; [done|]. split; [|by intros o [=]]. split; [done|by left].
Qed.
End spec.

(** ** Properties *)

Section properties.
Context {V : Type} `{JT : JsonText V}.
Implicit Types (fs : FS) (m : gmap string V).

Definition call_reads_back (c : CkCall V) : Prop := match c with CkSave _ v => json_reads_back v | _ => True end.

Lemma wp_file_call dir (c : CkCall V) m (x : unit) fs :
  holds dir fs m -> call_reads_back c ->
  wp (file_call dir c) (fun r x' fs' => exists o, mem_call c m = (Ok o, (mem_call c m).2) /\
    done_or_not dir o m (mem_call c m).2 fs r fs' /\ (forall o', r = ORet (Ok o') -> o' = o)) x fs.
Proof.
  intros Hm Hc. destruct c as [key v|key|key]; cbn [file_call].
  - apply wp_bind. eapply wp_mono; [by apply (wp_fck_save dir key v m)|]. intros r x' fs' (-> & Hcalm & Hdone).
    destruct r as [[[]|e]|].
    1: exists None; split; [done|]; split; [|by intros o [=]]; split; [naive_solver|left; by destruct Hdone as [|[]]].
    all: exists None; (split; [done|]); (split; [|done]); split; [intros Hq; by destruct (Hcalm Hq) as (_ & [=] & _)|].
    all: destruct Hdone as [|[_ ?]]; [by left|by right].
  - eapply wp_mono; [by apply (wp_fck_load dir key m)|]. intros r x' fs' (-> & Hd & Ho). by exists (m !! sanitize key).
  - apply wp_bind. eapply wp_mono; [by apply (wp_fck_delete dir key m)|]. intros r x' fs' (-> & Hcalm & Hdone).
    destruct r as [[[]|e]|].
    1: exists None; split; [done|]; split; [|by intros o [=]]; split; [naive_solver|left; by destruct Hdone as [|[]]].
    all: exists None; (split; [done|]); (split; [|done]); split; [intros Hq; by destruct (Hcalm Hq) as (_ & [=] & _)|].
    all: destruct Hdone as [|[_ ?]]; [by left|by right].
Qed.

(** The file store is the memory store up to the names of keys.  Without faults, any
    sequence of calls gets the answers that a store in memory gives when every key is
    replaced by its file name, and never an error. *)
Theorem checkpoint_store_equiv dir (cs : list (CkCall V)) m fs :
  holds dir fs m -> calm_fs fs -> Forall call_reads_back cs ->
  (file_calls dir cs fs).1 = map ORet (mem_calls cs m).1 /\ holds dir (file_calls dir cs fs).2 (mem_calls cs m).2.
Proof.
  revert m fs. induction cs as [|c cs IH]; intros m fs Hm Hq Hcs; [done|]. apply Forall_cons in Hcs as [Hc Hcs].
  pose proof (wp_file_call dir c m tt fs Hm Hc) as Hw. unfold wp in Hw. cbn [file_calls mem_calls].
  destruct (file_call dir c tt fs) as [[r []] fs1]. destruct Hw as (o & Ho & (Hcalm & _) & _).
  destruct (Hcalm Hq) as (Hq1 & -> & Hm1). rewrite Ho. destruct (IH _ _ Hm1 Hq1 Hcs) as [H1 H2].
  destruct (file_calls dir cs fs1) as [rs fs2]. destruct (mem_calls cs (mem_call c m).2) as [rs' m2].
  cbn in *. by subst.
Qed.

End properties.

(** ** A store at work *)

Module CheckpointWitness.
#[global] Instance text : JsonText Z := {
  json_print_pretty v := Ok (LineCodec.print v);
  json_parse s := LineCodec.parse s
}.

Lemma reads_back (v : Z) : json_reads_back v.
Proof. exists (LineCodec.print v). split; [done|apply LineCodec.parse_print]. Qed.

Definition empty_disk (faults : list Verdict) : FS := mkFS ∅ ∅ 0 faults.
Lemma empty_holds faults : holds (V := Z) "ck" (empty_disk faults) ∅.
Proof. split; [split; [by intros p q i|by intros p i]|]. intros k. by rewrite lookup_empty. Qed.

(** Two keys that differ only in unsafe characters share a file. *)
Definition calls : list (CkCall Z) :=
  [CkSave "orch/1" 10; CkSave "orch_1" 20; CkLoad "orch/1"; CkDelete "orch/1"; CkLoad "orch_1"].

Lemma checkpoint_store_equiv_witness :
  (file_calls "ck" calls (empty_disk [])).1 =
    [ORet (Ok None); ORet (Ok None); ORet (Ok (Some 20)); ORet (Ok None); ORet (Ok None)].
Proof.
  refine (proj1 (checkpoint_store_equiv "ck" calls ∅ (empty_disk []) (empty_holds []) eq_refl _)).
  repeat constructor; apply reads_back.
Defined.

(** The process dies while the temporary file is written. *)
Definition cut : outcome_io (option Z) * unit * FS := file_call "ck" (CkSave "k" 7) tt (empty_disk [VOk; VCrash 2]).

End CheckpointWitness.
