(* ===== verification/Pruner.v ===== *)
(** The pruning of old checkpoints ([agent_rt/pruner.rs], [prune_before] of
    [agent_rt/checkpoint.rs]), over files with faults and crashes.  When a file was changed last
    is an argument. *)
From Stdlib Require Import Ascii.
From S2P Require Import Prelude Types FileSystem Checkpoint.

(** [as i64]. *)
Definition to_i64 (z : Z) : Z := (z + 2 ^ 63) mod 2 ^ 64 - 2 ^ 63.

(** The cutoff of one round: now, in seconds, less the time to live. *)
Definition prune_cutoff (now_secs ttl_secs : Z) : Z := to_i64 (to_i64 now_secs - to_i64 ttl_secs).

(** The store in memory keeps the trait's default. *)
Definition mem_prune_before {V} (_ : Z) (m : gmap string V) : result Z AgentRtError := Ok 0.

Section prune.
Context {X : Type} `{HO : HashOrder} (modified : string -> option Instant).
Implicit Types (dir p : string) (fs : FS).

(** [fs::metadata(&path)] and [meta.modified()]; a failure passes the entry over. *)
Definition op_modified p : Op X (option Instant) := fun x fs =>
  match sys_call fs with
  | (IoDone _, fs) => (ORet (Ok (modified p)), x, fs)
  | (IoFail _, fs) => (ORet (Ok None), x, fs)
  | (IoCrash, fs) => (OCrash, x, fs)
  end.

Definition is_before (threshold : Instant) (t : option Instant) : bool :=
  match t with Some t => t <? threshold | None => false end.

Fixpoint prune_files (threshold : Instant) (paths : list string) (pruned : Z) : Op X Z :=
  match paths with
  | [] => op_ret pruned
  | p :: paths =>
      let! t := op_modified p in
      if is_before threshold t then
        let! _ := op_io ECheckpointIo (remove_file p) in prune_files threshold paths (pruned + 1)
      else prune_files threshold paths pruned
  end.

(** The entries of the directory with the extension [json], in the system's order. *)
Definition json_entries dir fs : list string :=
  List.filter (fun p => bool_decide (is_Some (json_stem dir p))) (hash_keys (fs_names fs)).

(** [None]: a negative number of seconds is cast to a duration that no clock reaches, and the
    addition panics. *)
Definition fck_prune_before dir (epoch_secs : Z) : option (Op X Z) :=
  if epoch_secs <? 0 then None
  else Some (
    let! _ := op_io ECheckpointIo sys_call in
    let! paths := op_fs (json_entries dir) in
    prune_files (epoch_secs * 1000000000) paths 0).

(** One round of the background task. *)
Definition prune_round dir (now_secs ttl_secs : Z) : option (Op X Z) := fck_prune_before dir (prune_cutoff now_secs ttl_secs).
End prune.

(** * Names *)

Lemma strip_prefix_iff p : forall s t, strip_prefix p s = Some t <-> s = p +:+ t.
Proof.
  induction p as [|c p IH]; intros [|d s] t; cbn.
  - change (EmptyString +:+ t) with t. split; congruence.
  - change (EmptyString +:+ t) with t. split; congruence.
  - done.
  - change (String c p +:+ t) with (String c (p +:+ t)). destruct (Ascii.eqb_spec c d) as [->|Hne]; [|split; [done|intros [= ? ?]; congruence]].
    rewrite IH. split; [by intros ->|by intros [= ->]].
Qed.

Lemma length_app_str (a b : string) : String.length (a +:+ b) = (String.length a + String.length b)%nat.
Proof. induction a as [|c a IH]; [done|]. change (S (String.length (a +:+ b)) = S (String.length a + String.length b)). by rewrite IH. Qed.

Lemma strip_suffix_iff suffix : forall s t, strip_suffix suffix s = Some t <-> s = t +:+ suffix.
Proof.
  induction s as [|c s IH]; intros t; cbn; case_decide as Hs.
  - split; [by intros [= <-]|]. intros E. apply (f_equal String.length) in E as E2. rewrite length_app_str, <- Hs in E2. by destruct t.
  - split; [done|]. destruct t; [change (EmptyString +:+ suffix) with suffix; congruence|done].
  - split; [by intros [= <-]|]. intros E. apply (f_equal String.length) in E. rewrite length_app_str, <- Hs in E. cbn in E.
    destruct t; [done|cbn in E; lia].
  - destruct t as [|d t].
    + change (EmptyString +:+ suffix) with suffix. split; [by destruct (strip_suffix suffix s)|congruence].
    + change (String d t +:+ suffix) with (String d (t +:+ suffix)). specialize (IH t). destruct (strip_suffix suffix s) as [u|]; cbn.
      * split; [intros [= -> ->]; f_equal; by apply IH|]. intros [= -> E]. apply IH in E. congruence.
      * split; [done|]. intros [= -> E]. by apply IH in E.
Qed.

Lemma slash_app a b : has_slash (a +:+ b) = has_slash a || has_slash b.
Proof. induction a as [|c a IH]; [done|]. change (Ascii.eqb c "/" || has_slash (a +:+ b) = Ascii.eqb c "/" || has_slash a || has_slash b). by rewrite IH, orb_assoc. Qed.

Lemma json_stem_iff dir p stem : json_stem dir p = Some stem <-> p = path_of dir stem /\ stem <> EmptyString /\ has_slash stem = false.
Proof.
  unfold json_stem, path_of, path_join. split.
  - destruct (strip_prefix (dir +:+ "/") p) as [name|] eqn:E; [|done]. apply strip_prefix_iff in E as ->. cbn [mbind option_bind].
    destruct (has_slash name) eqn:Hn; [done|]. destruct (strip_suffix ".json" name) as [u|] eqn:Hu; [|done]. apply strip_suffix_iff in Hu as ->.
    cbn [mbind option_bind]. case_decide; [done|]. intros [= <-]. rewrite slash_app in Hn. apply orb_false_iff in Hn as [Hn _].
    by rewrite str_app_assoc.
  - intros (-> & Hne & Hsl). assert (strip_prefix (dir +:+ "/") (dir +:+ "/" +:+ (stem +:+ ".json")) = Some (stem +:+ ".json")) as ->
      by (apply strip_prefix_iff; by rewrite str_app_assoc).
    cbn [mbind option_bind]. rewrite slash_app, Hsl. cbn [orb has_slash]. change (has_slash ".json") with false. cbn iota.
    assert (strip_suffix ".json" (stem +:+ ".json") = Some stem) as -> by (by apply strip_suffix_iff). cbn [mbind option_bind]. by case_decide.
Qed.

(** * What a round removes *)

Section exact.
Context {V X : Type} `{JT : JsonText V} `{HO : HashOrder} (modified : string -> option Instant) (dir : string) (threshold : Instant).
Implicit Types (p k : string) (fs : FS) (m : gmap string V) (x : X) (D : gset string).

(** The checkpoint of [k] was changed last before the threshold. *)
Definition stale m k : Prop :=
  k <> EmptyString /\ has_slash k = false /\ is_Some (m !! k) /\ is_before threshold (modified (path_of dir k)) = true.

(** The checkpoints without those of [D]. *)
Definition without D m : gmap string V := filter (fun kv => kv.1 ∉ D) m.

Lemma without_empty m : without ∅ m = m.
Proof.
  apply map_eq. intros k. destruct (m !! k) eqn:E; [apply map_lookup_filter_Some; split; [done|cbn; set_solver]|].
  apply map_lookup_filter_None. by left.
Qed.

Lemma without_delete k D m : without D (delete k m) = without ({[k]} ∪ D) m.
Proof.
  apply map_eq. intros j. apply option_eq. intros v. unfold without. rewrite !map_lookup_filter_Some, lookup_delete_Some. cbn. set_solver.
Qed.

Lemma wp_modified {A} p (cont : option Instant -> Op X A) Q x fs :
  (let '(r, fs') := sys_call fs in
   match r with IoDone _ => wp (cont (modified p)) Q x fs' | IoFail _ => wp (cont None) Q x fs' | IoCrash => Q OCrash x fs' end) ->
  wp (op_bind (op_modified modified p) cont) Q x fs.
Proof. unfold wp, op_bind, op_modified. by destruct (sys_call fs) as [[u|e|] fs1]. Qed.

(** How the loop may end: the checkpoints of [D] are gone and no others. *)
Definition pruned_to m (paths : list string) fs (n0 : Z) (r : outcome_io Z) fs' : Prop := exists D,
  (forall k, k ∈ D -> path_of dir k ∈ paths /\ stale m k) /\ holds dir fs' (without D m) /\
  (forall n, r = ORet (Ok n) -> n = n0 + Z.of_nat (size D)) /\
  (calm_fs fs -> r = ORet (Ok (n0 + Z.of_nat (size D))) /\
     forall k, path_of dir k ∈ paths -> is_before threshold (modified (path_of dir k)) = true -> k ∈ D).

Lemma pruned_nothing m paths fs n0 r fs' : holds dir fs' m -> (forall n, r = ORet (Ok n) -> n = n0) -> ~ calm_fs fs -> pruned_to m paths fs n0 r fs'.
Proof.
  intros Hm Hr Hc. exists ∅. rewrite without_empty, size_empty. split_and!; [by intros k Hk%elem_of_empty|done| |done].
  intros n Hn. rewrite (Hr n Hn). lia.
Qed.

(** The head of the paths is passed over. *)
Lemma pruned_skip m p paths fs fs1 n0 r fs' : (calm_fs fs -> calm_fs fs1 /\ is_before threshold (modified p) = false) ->
  pruned_to m paths fs1 n0 r fs' -> pruned_to m (p :: paths) fs n0 r fs'.
Proof.
  intros Hc (D & H1 & H2 & H3 & H4). exists D. split_and!; [|done|done|].
  - intros k Hk. destruct (H1 k Hk). split; [by right|done].
  - intros Hq. destruct (Hc Hq) as [Hq1 Hp]. destruct (H4 Hq1) as [Hr Hall]. split; [done|].
    intros k [->|Hk]%elem_of_cons Hb; [congruence|by apply Hall].
Qed.

(** The head of the paths is removed. *)
Lemma pruned_cons m k paths fs fs1 n0 r fs' : (calm_fs fs -> calm_fs fs1) -> stale m k -> path_of dir k ∉ paths ->
  pruned_to (delete k m) paths fs1 (n0 + 1) r fs' -> pruned_to m (path_of dir k :: paths) fs n0 r fs'.
Proof.
  intros Hc Hk Hn (D & H1 & H2 & H3 & H4). exists ({[k]} ∪ D).
  assert (k ∉ D) as HkD by (intros Hin; by destruct (H1 k Hin)).
  assert (size ({[k]} ∪ D) = S (size D)) as Hs by (rewrite size_union by set_solver; by rewrite size_singleton).
  rewrite Hs. split_and!.
  - intros j [->%elem_of_singleton|Hj]%elem_of_union; [by split; [left|]|]. destruct (H1 j Hj) as (Hp & A1 & A2 & [v A3] & A4).
    split; [by right|]. split_and!; [done|done| |done]. apply lookup_delete_Some in A3 as [_ A3]. by exists v.
  - by rewrite <- without_delete.
  - intros n Hr. rewrite (H3 n Hr). lia.
  - intros Hq. destruct (H4 (Hc Hq)) as [-> Hall]. split; [do 2 f_equal; lia|]. intros j [Hj%path_of_inj|Hj]%elem_of_cons Hb; [set_solver|].
    apply elem_of_union_r. by apply Hall.
Qed.

Lemma wp_prune_files paths x : NoDup paths -> forall m fs n0,
  (forall p, p ∈ paths -> exists k, p = path_of dir k /\ k <> EmptyString /\ has_slash k = false /\ is_Some (m !! k)) -> holds dir fs m ->
  wp (prune_files modified threshold paths n0) (fun r x' fs' => x' = x /\ pruned_to m paths fs n0 r fs') x fs.
Proof.
  induction 1 as [|p paths Hp _ IH]; intros m fs n0 Hpaths Hm; cbn [prune_files].
  { split; [done|]. exists ∅. rewrite without_empty, size_empty. split_and!; [by intros k Hk%elem_of_empty|done|intros n [= <-]; lia|].
    intros _. split; [do 2 f_equal; lia|]. by intros k Hk%elem_of_nil. }
  destruct (Hpaths p) as (k & -> & Hne & Hsl & v & Hv); [by left|]. apply wp_modified.
  pose proof (sys_call_spec fs) as Hs. destruct (sys_call fs) as [[u|e|] fs1]; destruct Hs as [Hs Hc];
    [| |split; [done|]; apply pruned_nothing; [by eapply holds_same|done|intros Hq; by destruct (Hc Hq)]].
  2: { eapply wp_mono; [apply (IH m fs1 n0); [|by eapply holds_same]|].
    - intros q Hq. apply Hpaths. by right.
    - intros r x' fs' [-> Hr]. split; [done|]. eapply pruned_skip; [|exact Hr]. intros Hq. by destruct (Hc Hq). }
  assert (Hm1 : holds dir fs1 m) by (by eapply holds_same).
  destruct (is_before threshold (modified (path_of dir k))) eqn:Hb.
  2: { eapply wp_mono; [apply (IH m fs1 n0); [|done]|].
    - intros q Hq. apply Hpaths. by right.
    - intros r x' fs' [-> Hr]. split; [done|]. eapply pruned_skip; [|exact Hr]. intros Hq. by destruct (Hc Hq). }
  apply wp_call. pose proof (proj2 Hm1 k) as Hk. rewrite Hv in Hk. destruct Hk as (s & Hct & _).
  pose proof (remove_file_spec (path_of dir k) fs1 (proj1 Hm1) (content_file _ _ _ Hct)) as H1.
  destruct (remove_file _ fs1) as [[u1|e|] fs2]; destruct H1 as (Hwf2 & Hc2 & H2); cbn [io_done] in H2.
  2,3: split; [done|]; apply pruned_nothing; [by eapply holds_same|done|intros Hq; destruct (Hc Hq) as [Hq1 _]; by destruct (Hc2 Hq1)].
  destruct H2 as [Hf2 Ho2]. assert (Hm2 : holds dir fs2 (delete k m)).
  { apply (holds_change dir fs1 fs2 m k None); [done| |done|done]. intros j Hj. apply Ho2. intros Heq. by apply path_of_inj in Heq. }
  eapply wp_mono; [apply (IH (delete k m) fs2 (n0 + 1)); [|done]|].
  - intros q Hq. destruct (Hpaths q) as (j & -> & A1 & A2 & A3); [by right|]. exists j. split_and!; [done..|].
    rewrite lookup_delete_ne; [done|]. by intros ->.
  - intros r x' fs' [-> Hr]. split; [done|]. eapply pruned_cons; [|by split_and!|done|exact Hr].
    intros Hq. destruct (Hc Hq) as [Hq1 _]. by destruct (Hc2 Hq1).
Qed.

Lemma json_entries_spec m fs : holds dir fs m -> NoDup (json_entries dir fs) /\
  forall p, p ∈ json_entries dir fs <-> exists k, p = path_of dir k /\ k <> EmptyString /\ has_slash k = false /\ is_Some (m !! k).
Proof.
  intros [_ Hm]. split; [apply NoDup_ListNoDup, List.NoDup_filter, NoDup_ListNoDup, NoDup_hash_keys|]. intros p. unfold json_entries.
  rewrite list_elem_of_In, filter_In, <- list_elem_of_In, elem_of_hash_keys, bool_decide_eq_true. split.
  - intros [Hp [k (-> & Hne & Hsl)%json_stem_iff]]. exists k. split_and!; [done..|]. specialize (Hm k).
    destruct (m !! k); [by eexists|]. unfold file_of in Hm. rewrite Hm in Hp. by destruct Hp.
  - intros (k & -> & Hne & Hsl & v & Hv). specialize (Hm k). rewrite Hv in Hm. destruct Hm as (s & Hs & _).
    split; [exact (content_file _ _ _ Hs)|]. exists k. by apply json_stem_iff.
Qed.
End exact.

Section properties.
Context {V X : Type} `{JT : JsonText V} `{HO : HashOrder}.

(** C17: Pruning removes only what is old, and without faults all of it.  Whatever faults or
    crash it meets, the checkpoints that are gone afterwards were changed before the given
    time, every other one reads as before, a count it reports is the number that is gone; and
    on a working disk it reports, and everything older is gone. *)
Theorem prune_exact (modified : string -> option Instant) dir epoch_secs (op : Op X Z) (m : gmap string V) (x : X) fs :
  fck_prune_before modified dir epoch_secs = Some op -> holds dir fs m ->
  wp op (fun r x' fs' => x' = x /\ exists D : gset string,
    (forall k, k ∈ D -> stale modified dir (epoch_secs * 1000000000) m k) /\ holds dir fs' (without D m) /\
    (forall n, r = ORet (Ok n) -> n = Z.of_nat (size D)) /\
    (calm_fs fs -> r = ORet (Ok (Z.of_nat (size D))) /\ forall k, stale modified dir (epoch_secs * 1000000000) m k -> k ∈ D)) x fs.
Proof.
  unfold fck_prune_before. intros E Hm. destruct (epoch_secs <? 0); [done|]. simplify_eq. apply wp_call.
  pose proof (sys_call_spec fs) as Hs. destruct (sys_call fs) as [[u|e|] fs1]; destruct Hs as [Hs Hc].
  2,3: split; [done|]; exists ∅; rewrite without_empty; split_and!;
    [by intros k Hk%elem_of_empty|by eapply holds_same|done|intros Hq; by destruct (Hc Hq)].
  assert (Hm1 : holds dir fs1 m) by (by eapply holds_same). apply wp_fs. destruct (json_entries_spec dir m fs1 Hm1) as [Hnd Hin].
  eapply wp_mono; [apply (wp_prune_files modified dir _ _ x Hnd m fs1 0); [intros p; apply Hin|done]|].
  intros r x' fs' [-> (D & H1 & H2 & H3 & H4)]. split; [done|]. exists D. split_and!; [intros k Hk; by destruct (H1 k Hk)|done|exact H3|].
  intros Hq. destruct (Hc Hq) as [Hq1 _]. destruct (H4 Hq1) as [-> Hall]. split; [done|].
  intros k (A1 & A2 & A3 & A4). apply Hall; [|done]. apply Hin. by exists k.
Qed.
End properties.

Module PrunerWitness.
Import CheckpointWitness.
#[local] Existing Instance map_to_list_order.

(** Two checkpoints, of 5 and of 20 seconds after the epoch. *)
Definition stored : FS := (file_calls "ck" [CkSave "a" 1; CkSave "b" 2] (empty_disk [])).2.
Definition times (p : string) : option Instant := if decide (p = path_of "ck" "a") then Some 5000000000 else Some 20000000000.
Definition both : gmap string Z := (mem_calls (V := Z) [CkSave "a" 1; CkSave "b" 2] ∅).2.
Lemma stored_holds : holds "ck" stored both.
Proof.
  apply (checkpoint_store_equiv "ck" [CkSave "a" 1; CkSave "b" 2] ∅ (empty_disk []) (empty_holds []) eq_refl).
  repeat constructor; apply reads_back.
Qed.
Definition prune_at_10 : Op unit Z := default (op_ret 0) (fck_prune_before times "ck" 10).

Lemma prune_exact_witness : exists D : gset string, (forall k, stale times "ck" 10000000000 both k -> k ∈ D) /\
  (prune_at_10 tt stored).1.1 = ORet (Ok (Z.of_nat (size D))) /\ (prune_at_10 tt stored).1.1 = ORet (Ok 1).
Proof.
  pose proof (prune_exact times "ck" 10 prune_at_10 both tt stored eq_refl stored_holds) as Hw. unfold wp in Hw.
  assert (E : (prune_at_10 tt stored).1.1 = ORet (Ok 1)) by (vm_compute; reflexivity).
  destruct (prune_at_10 tt stored) as [[r x'] fs']. destruct Hw as (_ & D & _ & _ & _ & Hd).
  destruct (Hd eq_refl) as [Hr Hall]. exists D. split; [exact Hall|]. split; [exact Hr|exact E].
Defined.

(** A time to live longer than the time since the epoch: the round panics, and with it the
    task that prunes. *)
Lemma long_ttl_panics : prune_round times "ck" 1700000000 1700000001 (X := unit) = None.
Proof. vm_compute. reflexivity. Qed.
End PrunerWitness.
