(* ===== verification/Release.v ===== *)
(** Releases ([agent_rt/release.rs]): plans of upgrade steps, applied as a transaction;
    the release history; and the file that records a release in progress.

    The steps themselves are the caller's ([StepHandler], a class over a world [W]);
    [serde_json] is the interface [JsonLib] for values and [ReleaseCodec] for the derived
    formats. *)
From Stdlib Require Import Ascii.
From S2P Require Import Prelude Json Types FileSystem.

Definition MAX_SCHEMA_VERSION : Z := 1.
Definition IN_PROGRESS_FILENAME : string := ".in_progress.json".

Definition rel_err (ctx : string) (e : string) : AgentRtError := ERelease (ctx +:+ ": " +:+ e).

(** [key.split(sep)]. *)
Fixpoint split_from (sep : ascii) (cur : string) (s : string) : list string :=
  match s with
  | EmptyString => [cur]
  | String c s => if Ascii.eqb c sep then cur :: split_from sep "" s else split_from sep (cur +:+ String c "") s
  end.
Definition split (sep : ascii) (s : string) : list string := split_from sep "" s.

Record BehaviorUpgrade (V : Type) : Type := mkBehaviorUpgrade {
  bu_name : string; bu_version : string; bu_upgrade_from : string; bu_extra : V
}.
Arguments mkBehaviorUpgrade {V}.
Arguments bu_name {V}.
Arguments bu_version {V}.
Arguments bu_upgrade_from {V}.
Arguments bu_extra {V}.

Record ReleaseManifest (V : Type) : Type := mkReleaseManifest {
  rm_schema_version : Z;
  rm_version : string;
  rm_previous : option string;
  rm_behaviors : list (BehaviorUpgrade V);
  rm_config_changes : gmap string V
}.
Arguments mkReleaseManifest {V}.
Arguments rm_schema_version {V}.
Arguments rm_version {V}.
Arguments rm_previous {V}.
Arguments rm_behaviors {V}.
Arguments rm_config_changes {V}.

Inductive ReleaseStep (V : Type) : Type :=
| UpgradeBehavior (name from to : string) (extra : V)
| ApplyConfig (key : string) (old_value new_value : V).
Arguments UpgradeBehavior {V}.
Arguments ApplyConfig {V}.

Record InProgressRelease (V : Type) : Type := mkInProgressRelease {
  ip_schema_version : Z;
  ip_manifest_version : string;
  ip_plan : list (ReleaseStep V);
  ip_completed_steps : Z
}.
Arguments mkInProgressRelease {V}.
Arguments ip_schema_version {V}.
Arguments ip_manifest_version {V}.
Arguments ip_plan {V}.
Arguments ip_completed_steps {V}.

(** Printing and reading the derived formats. *)
Class ReleaseCodec (V : Type) : Type := {
  manifest_parse : string -> result (ReleaseManifest V) string;
  in_progress_print : InProgressRelease V -> result string string;
  in_progress_parse : string -> result (InProgressRelease V) string
}.

(** [StepHandler]. *)
Class StepHandler (V W : Type) : Type := {
  apply_step : ReleaseStep V -> W -> result unit AgentRtError * W;
  rollback_step : ReleaseStep V -> W -> result unit AgentRtError * W
}.

(** The text of an error, as [Display] prints it. *)
Class ErrorText : Type := error_text : AgentRtError -> string.

Record ReleaseManager (V : Type) : Type := mkReleaseManager {
  mgr_current : option (ReleaseManifest V);
  mgr_history : list (ReleaseManifest V);
  mgr_max_history : Z
}.
Arguments mkReleaseManager {V}.
Arguments mgr_current {V}.
Arguments mgr_history {V}.
Arguments mgr_max_history {V}.

Section plan.
Context {V : Type} `{JL : JsonLib V} `{RC : ReleaseCodec V} `{HO : HashOrder}.

Fixpoint resolve_parts (current : V) (parts : list string) : option V :=
  match parts with
  | [] => Some current
  | part :: parts => v ← jget current part; resolve_parts v parts
  end.
Definition resolve_dotted_key (config : V) (key : string) : option V :=
  resolve_parts config (split (ascii_of_nat 46) key).

Definition manifest_from_json (json : string) : result (ReleaseManifest V) AgentRtError :=
  match manifest_parse json with
  | Err e => Err (rel_err "invalid manifest" e)
  | Ok manifest =>
      if MAX_SCHEMA_VERSION <? rm_schema_version manifest then
        Err (ERelease ("schema version " +:+ u64_to_string (rm_schema_version manifest) +:+
                       " not supported, max supported: " +:+ u64_to_string MAX_SCHEMA_VERSION))
      else Ok manifest
  end.

Definition manifest_from_file {X} (path : string) : Op X (ReleaseManifest V) :=
  let! content := op_io (rel_err "read manifest") (read path) in
  match manifest_from_json content with Ok m => op_ret m | Err e => op_err e end.

Definition upgrade_of (b : BehaviorUpgrade V) : ReleaseStep V :=
  UpgradeBehavior (bu_name b) (bu_upgrade_from b) (bu_version b) (bu_extra b).
Definition config_change (current_config : V) (change : string * V) : ReleaseStep V :=
  ApplyConfig change.1 (default jnull (resolve_dotted_key current_config change.1)) change.2.

Definition plan_from_manifest (manifest : ReleaseManifest V) (current_config : V) : list (ReleaseStep V) :=
  map upgrade_of (rm_behaviors manifest) ++
  map (config_change current_config) (hash_iter (rm_config_changes manifest)).
End plan.

Section manager.
Context {V W : Type} `{SH : StepHandler V W} `{ET : ErrorText}.
Implicit Types (mgr : ReleaseManager V) (steps plan : list (ReleaseStep V)) (w : W).

Definition mgr_new (max_history : Z) : ReleaseManager V := mkReleaseManager None [] max_history.

Definition record_apply (manifest : ReleaseManifest V) mgr : ReleaseManager V :=
  let history :=
    match mgr_current mgr with
    | Some prev =>
        let history := mgr_history mgr ++ [prev] in
        if mgr_max_history mgr <? Z.of_nat (length history) then tail history else history
    | None => mgr_history mgr
    end in
  mkReleaseManager (Some manifest) history (mgr_max_history mgr).

(** The rollback loop of [apply]. *)
Fixpoint undo (e : AgentRtError) (done : list (ReleaseStep V)) w : AgentRtError * W :=
  match done with
  | [] => (e, w)
  | step :: done =>
      match rollback_step step w with
      | (Ok _, w) => undo e done w
      | (Err rb_err, w) =>
          (ERelease ("apply failed: " +:+ error_text e +:+ "; rollback also failed: " +:+ error_text rb_err), w)
      end
  end.

Fixpoint apply_loop (completed steps : list (ReleaseStep V)) w : result unit AgentRtError * W :=
  match steps with
  | [] => (Ok tt, w)
  | step :: steps =>
      match apply_step step w with
      | (Ok _, w) => apply_loop (completed ++ [step]) steps w
      | (Err e, w) => let '(e, w) := undo e (rev completed) w in (Err e, w)
      end
  end.

Definition rel_apply (manifest : ReleaseManifest V) plan mgr w : result unit AgentRtError * ReleaseManager V * W :=
  match apply_loop [] plan w with
  | (Ok _, w) => (Ok tt, record_apply manifest mgr, w)
  | (Err e, w) => (Err e, mgr, w)
  end.

Fixpoint rollback_loop steps w : result unit AgentRtError * W :=
  match steps with
  | [] => (Ok tt, w)
  | step :: steps =>
      match rollback_step step w with
      | (Ok _, w) => rollback_loop steps w
      | (Err e, w) => (Err e, w)
      end
  end.

Definition rel_rollback plan mgr w : result unit AgentRtError * ReleaseManager V * W :=
  match mgr_current mgr with
  | None => (Err (ERelease "no current release to rollback"), mgr, w)
  | Some _ =>
      match rollback_loop (rev plan) w with
      | (Ok _, w) =>
          (Ok tt, mkReleaseManager (last (mgr_history mgr)) (removelast (mgr_history mgr)) (mgr_max_history mgr), w)
      | (Err e, w) => (Err e, mgr, w)
      end
  end.

(** ** Transactions *)

(** Worlds that look the same to the steps. *)
Class Undoable (same : relation W) : Prop := {
  undo_equiv :: Equivalence same;
  apply_failed step w e : (apply_step step w).1 = Err e -> same w (apply_step step w).2;
  rollback_applied step w w1 : (apply_step step w).1 = Ok tt -> same (apply_step step w).2 w1 ->
    (rollback_step step w1).1 = Ok tt /\ same w (rollback_step step w1).2
}.

Section undo.
Context (same : relation W) `{UD : !Undoable same}.

(** The steps of [done] were applied one after the other. *)
Inductive passed (w : W) : list (ReleaseStep V) -> W -> Prop :=
| passed_nil : passed w [] w
| passed_snoc done step w1 w2 :
    passed w done w1 -> apply_step step w1 = (Ok tt, w2) -> passed w (done ++ [step]) w2.

(** Rolling back what was applied, from a world that looks like the one reached. *)
Lemma undo_passed e done w w1 w' :
  passed w done w1 -> same w1 w' -> exists w'', undo e (rev done) w' = (e, w'') /\ same w w''.
Proof.
  intros Hp. revert w'. induction Hp as [|done step w1 w2 Hp IH Ha]; intros w' Hs; [by exists w'|].
  rewrite rev_app_distr. cbn [rev app undo].
  destruct (rollback_applied step w1 w') as [Hr Hs']; [by rewrite Ha|by rewrite Ha|].
  destruct (rollback_step step w') as [[[]|e'] w'']; [|done]. by apply IH.
Qed.

Lemma rollback_passed done w w1 w' :
  passed w done w1 -> same w1 w' -> exists w'', rollback_loop (rev done) w' = (Ok tt, w'') /\ same w w''.
Proof.
  intros Hp. revert w'. induction Hp as [|done step w1 w2 Hp IH Ha]; intros w' Hs; [by exists w'|].
  rewrite rev_app_distr. cbn [rev app rollback_loop].
  destruct (rollback_applied step w1 w') as [Hr Hs']; [by rewrite Ha|by rewrite Ha|].
  destruct (rollback_step step w') as [[[]|e'] w'']; [|done]. by apply IH.
Qed.

Lemma apply_loop_passed completed steps w w1 :
  passed w completed w1 ->
  match apply_loop completed steps w1 with
  | (Ok _, w') => passed w (completed ++ steps) w'
  | (Err e, w') => same w w' /\ exists pre step post w2, steps = pre ++ step :: post /\
                   passed w (completed ++ pre) w2 /\ (apply_step step w2).1 = Err e
  end.
Proof.
  revert completed w1. induction steps as [|step steps IH]; intros completed w1 Hp; cbn [apply_loop].
  - by rewrite app_nil_r.
  - destruct (apply_step step w1) as [[[]|e] w2] eqn:Ha.
    + specialize (IH (completed ++ [step]) w2 ltac:(by econstructor)).
      destruct (apply_loop (completed ++ [step]) steps w2) as [[u|e] w3]; [by rewrite <- app_assoc in IH|].
      destruct IH as (Hs & pre & st & post & w4 & -> & Hp4 & He). split; [done|].
      exists (step :: pre), st, post, w4. split; [done|]. by rewrite <- app_assoc in Hp4.
    + assert (Hs : same w1 w2) by (pose proof (apply_failed step w1 e) as Hf; rewrite Ha in Hf; by apply Hf).
      destruct (undo_passed e completed w w1 w2 Hp Hs) as (w3 & -> & Hs3). split; [done|].
      exists [], step, steps, w1. rewrite app_nil_r. split_and!; [done|done|by rewrite Ha].
Qed.

(** C23: releases are transactions.  If rolling a step back undoes it and a failing step
    changes nothing, a failed apply returns the error of the first failing step, leaves the
    manager as it was, and the world looking as it did before; a successful one has applied
    every step in order and recorded the release, and rolling it back then succeeds, leaves
    the world looking as before, and restores the previous release as the current one (as
    long as the history has room for it). *)
Theorem release_transactional manifest plan mgr w :
  match rel_apply manifest plan mgr w with
  | (Err e, mgr', w') =>
      mgr' = mgr /\ same w w' /\ exists pre step post w2,
        plan = pre ++ step :: post /\ passed w pre w2 /\ (apply_step step w2).1 = Err e
  | (Ok _, mgr', w') =>
      passed w plan w' /\ mgr_current mgr' = Some manifest /\
      exists mgr'' w'', rel_rollback plan mgr' w' = (Ok tt, mgr'', w'') /\ same w w'' /\
        (match mgr_current mgr with
         | Some _ => Z.of_nat (length (mgr_history mgr)) < mgr_max_history mgr
         | None => mgr_history mgr = []
         end -> mgr'' = mgr)
  end.
Proof.
  unfold rel_apply. pose proof (apply_loop_passed [] plan w w (passed_nil w)) as Hl.
  destruct (apply_loop [] plan w) as [[u|e] w']; [|done]. cbn [app] in Hl. split; [done|]. split; [done|].
  destruct (rollback_passed plan w w' w' Hl (reflexivity _)) as (w'' & Hr & Hs).
  unfold rel_rollback. cbn [mgr_current record_apply]. rewrite Hr. do 2 eexists. split; [done|]. split; [done|].
  destruct mgr as [[prev|] history max]; cbn; intros Hroom.
  - rewrite length_app. cbn. rewrite (proj2 (Z.ltb_ge _ _)) by lia. by rewrite last_snoc, removelast_last.
  - by subst history.
Qed.
End undo.

(** ** The history *)

(** The release history.  After any releases, the last is the current one and the
    history holds the ones before it, oldest first, the last [max_history] of them. *)
Theorem release_history max_history ms m :
  0 <= max_history ->
  foldl (fun mgr m => record_apply m mgr) (mgr_new max_history) (ms ++ [m]) =
  mkReleaseManager (Some m) (drop (length ms - Z.to_nat max_history) ms) max_history.
Proof.
  intros Hmax. rewrite foldl_app. cbn [foldl].
  induction ms as [|x ms IH] using rev_ind; [done|].
  rewrite foldl_app. cbn [foldl]. set (mgr := foldl _ _ ms) in *.
  assert (Hx : record_apply x mgr = mkReleaseManager (Some x) (drop (length ms - Z.to_nat max_history) ms) max_history).
  { unfold record_apply in *. injection IH as Hh Hm. by rewrite Hh, Hm. }
  rewrite Hx. unfold record_apply. cbn [mgr_current mgr_history mgr_max_history].
  rewrite !length_app, length_drop. cbn [length]. f_equal.
  destruct (decide (length ms < Z.to_nat max_history)%nat) as [Hlt|Hge].
  - rewrite (proj2 (Z.ltb_ge _ _)) by lia. replace (length ms - Z.to_nat max_history)%nat with 0%nat by lia.
    by replace (length ms + 1 - Z.to_nat max_history)%nat with 0%nat by lia.
  - rewrite (proj2 (Z.ltb_lt _ _)) by lia. replace (length ms + 1 - Z.to_nat max_history)%nat with (S (length ms - Z.to_nat max_history)) by lia.
    destruct (decide (Z.to_nat max_history = 0)%nat) as [Hz|Hnz].
    + rewrite Hz, !Nat.sub_0_r, drop_all. cbn. symmetry. apply drop_ge. rewrite length_app. cbn. lia.
    + rewrite <- tail_drop. f_equal. symmetry. rewrite drop_app_le by lia. done.
Qed.
End manager.

(** * The file of a release in progress *)

Section in_progress.
Context {V : Type} `{RC : ReleaseCodec V}.
Implicit Types (ip : InProgressRelease V) (fs : FS).

Definition rel_fsync_dir {X} : Op X unit := fsync_with (rel_err "open dir for fsync") (rel_err "fsync dir").

Definition tmp_of (dir : string) : string := path_join dir ".in_progress.json.tmp".
Definition target_of (dir : string) : string := path_join dir IN_PROGRESS_FILENAME.

Definition write_in_progress {X} (dir : string) ip : Op X unit :=
  let! bytes := op_result (rel_err "serialize in_progress") (in_progress_print ip) in
  let! _ := op_io (rel_err "write tmp") (write_file (tmp_of dir) bytes) in
  let! _ := op_io (rel_err "open tmp") (open_read (tmp_of dir)) in
  let! _ := op_io (rel_err "fsync tmp") sys_call in
  let! _ := op_io (rel_err "rename") (rename (tmp_of dir) (target_of dir)) in
  rel_fsync_dir.

Definition read_in_progress {X} (dir : string) : Op X (option (InProgressRelease V)) :=
  let! there := op_fs (path_exists (target_of dir)) in
  if there then
    let! content := op_io (rel_err "read in_progress") (read (target_of dir)) in
    let! ip := op_result (rel_err "bad in_progress") (in_progress_parse content) in
    op_ret (Some ip)
  else op_ret None.

Definition delete_in_progress {X} (dir : string) : Op X unit :=
  let! there := op_fs (path_exists (target_of dir)) in
  if there then op_io (rel_err "delete in_progress") (remove_file (target_of dir)) else op_ret tt.

(** What the file says. *)
Definition in_progress_is (dir : string) fs (o : option (InProgressRelease V)) : Prop :=
  fs_wf fs /\
  match o with
  | None => file_of (target_of dir) fs = None
  | Some ip => exists s, content (target_of dir) fs = Some s /\ in_progress_parse s = Ok ip
  end.

Lemma in_progress_kept dir fs fs' o :
  fs_wf fs' -> kept (target_of dir) fs fs' -> in_progress_is dir fs o -> in_progress_is dir fs' o.
Proof.
  intros Hwf [Hf Hc] [_ Ho]. split; [done|].
  destruct o as [ip|]; [destruct Ho as (s & Hs & Hp); exists s; by rewrite Hc|by rewrite Hf].
Qed.

Lemma in_progress_same dir fs fs' o : same_files fs fs' -> in_progress_is dir fs o -> in_progress_is dir fs' o.
Proof.
  intros Hs Ho. eapply in_progress_kept; [|by apply same_files_kept|done]. apply (same_files_keep _ _ Hs). apply Ho.
Qed.

Lemma tmp_target dir : tmp_of dir <> target_of dir.
Proof. unfold tmp_of, target_of, path_join. intros H. by repeat apply (inj (String.append _)) in H. Qed.

Lemma wp_write_in_progress {X} dir ip s o (x : X) fs :
  in_progress_is dir fs o -> in_progress_print ip = Ok s -> in_progress_parse s = Ok ip ->
  wp (write_in_progress dir ip) (fun r x' fs' =>
    in_progress_is dir fs' (Some ip) \/ (r <> ORet (Ok tt) /\ in_progress_is dir fs' o)) x fs.
Proof.
  intros Ho Hpr Hpa. apply wp_bind, wp_result. rewrite Hpr. pose proof (tmp_target dir) as Hne.
  apply wp_call. pose proof (write_file_spec (tmp_of dir) s fs (proj1 Ho)) as Hw.
  destruct (write_file (tmp_of dir) s fs) as [r1 fs1]. destruct Hw as (Hwf1 & Ho1 & Hd1 & _).
  assert (Ho1' : in_progress_is dir fs1 o) by (eapply in_progress_kept; [done|by apply Ho1|done]).
  destruct r1 as [u|e|]; [|by right..]. destruct (Hd1 eq_refl) as [Hf1 Hct1].
  apply wp_call. pose proof (open_read_spec (tmp_of dir) fs1) as Hor. destruct (open_read (tmp_of dir) fs1) as [r2 fs2].
  destruct Hor as [Hs2 _]. pose proof (in_progress_same _ _ _ _ Hs2 Ho1') as Ho2.
  destruct r2 as [u2|e|]; [|by right..]. destruct (same_files_kept _ _ (tmp_of dir) Hs2) as [_ Hct2]. rewrite Hct1 in Hct2.
  eapply wp_mono; [by apply (wp_install _ _ _ _ (tmp_of dir) (target_of dir) s x fs2 (proj1 Ho2))|].
  intros r x' fs3 (_ & Hwf3 & _ & [[_ Hct3]|[Hnr Hk]] & _).
  - left. split; [done|]. by exists s.
  - right. split; [done|]. by eapply in_progress_kept.
Qed.

Lemma wp_delete_in_progress {X} dir o (x : X) fs :
  in_progress_is dir fs o ->
  wp (delete_in_progress dir) (fun r x' fs' =>
    in_progress_is dir fs' None \/ (r <> ORet (Ok tt) /\ in_progress_is dir fs' o)) x fs.
Proof.
  intros [Hwf Ho]. apply wp_fs. unfold path_exists. case_bool_decide as Hex.
  - apply wp_io. pose proof (remove_file_spec (target_of dir) fs Hwf Hex) as Hr.
    destruct (remove_file (target_of dir) fs) as [r fs1]. destruct Hr as (Hwf1 & _ & Hr).
    destruct r as [[]|e|]; cbn [io_done] in Hr;
      [left; by split; [|apply Hr]|right; split; [done|by eapply in_progress_same] ..].
  - left. split; [done|]. by apply eq_None_not_Some.
Qed.

Lemma wp_read_in_progress {X} dir o (x : X) fs :
  in_progress_is dir fs o -> calm_fs fs -> wp (read_in_progress dir) (fun r x' fs' => r = ORet (Ok o)) x fs.
Proof.
  intros [Hwf Ho] Hq. apply wp_fs. destruct o as [ip|].
  - destruct Ho as (s & Hs & Hp). rewrite path_exists_true by (by eapply content_file).
    apply wp_call. pose proof (read_spec (target_of dir) fs) as Hr. destruct (read (target_of dir) fs) as [r fs1].
    destruct Hr as (_ & Hr & Hc). destruct (Hc (mk_is_Some _ _ Hs) Hq) as [_ Hd].
    destruct r as [s'|e|]; [|done..]. specialize (Hr s' eq_refl). simplify_eq.
    apply wp_bind, wp_result. by rewrite Hp.
  - unfold path_exists. by rewrite Ho.
Qed.

(** The record of a release in progress survives any fault.  Whatever the file system
    does while it is written (or deleted: [None]), a later reading gives the new record (or
    none), or what it gave before, and the latter only if the call did not succeed: never
    an error, never half a record. *)
Theorem in_progress_atomic dir (new : option (InProgressRelease V)) old fs r fs' (x : unit) :
  in_progress_is dir fs old ->
  match new with
  | Some ip => (exists s, in_progress_print ip = Ok s /\ in_progress_parse s = Ok ip) /\
               write_in_progress dir ip x fs = (r, x, fs')
  | None => delete_in_progress dir x fs = (r, x, fs')
  end ->
  exists o fs'', read_in_progress dir x (mkFS (fs_names fs') (fs_data fs') (fs_next fs') []) = (ORet (Ok o), x, fs'') /\
    (o = new \/ (o = old /\ r <> ORet (Ok tt))).
Proof.
  intros Ho Hop. set (fs1 := mkFS _ _ _ []).
  assert (Hend : exists o, in_progress_is dir fs1 o /\ (o = new \/ (o = old /\ r <> ORet (Ok tt)))).
  { assert (Hs : same_files fs' fs1) by done. destruct new as [ip|].
    - destruct Hop as [(s & Hpr & Hpa) Hop]. pose proof (wp_write_in_progress dir ip s old x fs Ho Hpr Hpa) as Hw.
      unfold wp in Hw. rewrite Hop in Hw.
      destruct Hw as [Hw|[Hr Hw]]; eexists; (split; [by eapply in_progress_same|]); [by left|by right].
    - pose proof (wp_delete_in_progress dir old x fs Ho) as Hw. unfold wp in Hw. rewrite Hop in Hw.
      destruct Hw as [Hw|[Hr Hw]]; eexists; (split; [by eapply in_progress_same|]); [by left|by right]. }
  destruct Hend as (o & Hend & Hor). pose proof (wp_read_in_progress dir o x fs1 Hend eq_refl) as Hr. unfold wp in Hr.
  destruct (read_in_progress dir x fs1) as [[r1 []] fs2]. destruct x. subst r1. by exists o, fs2.
Qed.
End in_progress.

(** * Concrete releases *)

Module ReleaseWitness.

Definition plan : list (ReleaseStep string) :=
  [UpgradeBehavior "chat" "1" "2" ""; ApplyConfig "workers" "4" "8"].
Definition bad_plan : list (ReleaseStep string) := plan ++ [UpgradeBehavior "bad" "1" "2" ""].

(** The world is the steps applied; one of them does not work. *)
#[global] Instance handler : StepHandler string (list (ReleaseStep string)) := {
  apply_step step w :=
    match step with
    | UpgradeBehavior "bad" _ _ _ => (Err (EHotCode "no such version"), w)
    | _ => (Ok tt, step :: w)
    end;
  rollback_step step w := (Ok tt, tail w)
}.
#[global] Instance text : ErrorText := fun e => match e with EHotCode s => s | _ => "" end.

#[global] Instance handler_undoable : Undoable (V := string) (@eq (list (ReleaseStep string))).
Proof.
  assert (Happ : forall step (w : list (ReleaseStep string)),
    apply_step step w = (Ok tt, step :: w) \/ exists e, apply_step step w = (Err e, w)).
  { intros [name from to ex|key o n] w; cbn; [|by left]. repeat case_match; eauto. }
  split; [apply _|..].
  - intros step w e. destruct (Happ step w) as [->|[e' ->]]; done.
  - intros step w w1. destruct (Happ step w) as [->|[e' ->]]; [|done]. cbn. by intros _ <-.
Qed.

Definition manifest (v : string) : ReleaseManifest string := mkReleaseManifest 1 v None [] ∅.

(** The third step fails: the two before it are taken back. *)
Lemma release_transactional_witness :
  rel_apply (manifest "2") bad_plan (mgr_new 3) [] = (Err (EHotCode "no such version"), mgr_new 3, []) /\
  exists pre step post w2, bad_plan = pre ++ step :: post /\ passed [] pre w2 /\
    (apply_step step w2).1 = Err (EHotCode "no such version").
Proof.
  split; [reflexivity|].
  exact (proj2 (proj2 (release_transactional eq (manifest "2") bad_plan (mgr_new 3) []))).
Defined.

Lemma release_history_witness :
  foldl (fun mgr m => record_apply m mgr) (mgr_new 2) (map manifest ["1"; "2"; "3"; "4"]) =
  mkReleaseManager (Some (manifest "4")) [manifest "2"; manifest "3"] 2.
Proof. exact (release_history 2 (map manifest ["1"; "2"; "3"]) (manifest "4") ltac:(lia)). Defined.

#[global] Instance codec : ReleaseCodec string := {
  manifest_parse s := Err "syntax";
  in_progress_print ip := Ok (LineCodec.print (ip_schema_version ip, ip_manifest_version ip, ip_completed_steps ip));
  in_progress_parse s :=
    let? d := LineCodec.parse s in
    let '(v, m, n) := d : Z * string * Z in Ok (mkInProgressRelease v m [] n)
}.

Definition ip (n : Z) : InProgressRelease string := mkInProgressRelease 1 "2" [] n.
Definition disk : FS := mkFS ∅ ∅ 0 [VOk; VCrash 3].
Definition cut : outcome_io unit * unit * FS := write_in_progress "d" (ip 2) tt disk.

Lemma in_progress_atomic_witness :
  cut.1.1 = OCrash /\ exists o fs2,
    read_in_progress (X := unit) "d" tt (mkFS (fs_names cut.2) (fs_data cut.2) (fs_next cut.2) []) = (ORet (Ok o), tt, fs2) /\
    (o = Some (ip 2) \/ (o = None /\ cut.1.1 <> ORet (Ok tt))).
Proof.
  split; [reflexivity|].
  assert (H1 : in_progress_is "d" disk None) by (split; [split; [by intros p q i|by intros p i]|done]).
  refine (in_progress_atomic "d" (Some (ip 2)) None _ cut.1.1 cut.2 tt H1 (conj _ eq_refl)).
  exists (LineCodec.print (1, "2", 2)). by split.
Defined.
End ReleaseWitness.
