(* ===== verification/HotCode.v ===== *)
(** The registry of behavior versions ([agent_rt/hot_code.rs]): which versions exist, which
    one each process runs, and which ones it ran before. *)
From S2P Require Import Prelude Types.

Record BehaviorVersion (F : Type) : Type := mkBehaviorVersion { bv_name : string; bv_version : string; bv_factory : F }.
Arguments mkBehaviorVersion {F}.
Arguments bv_name {F}.
Arguments bv_version {F}.
Arguments bv_factory {F}.

Record HotCodeRegistry (F : Type) : Type := mkHotCodeRegistry {
  hc_behaviors : gmap string (list (BehaviorVersion F));
  hc_process_versions : gmap AgentPid (string * string);
  hc_version_history : gmap AgentPid (list string)
}.
Arguments mkHotCodeRegistry {F}.
Arguments hc_behaviors {F}.
Arguments hc_process_versions {F}.
Arguments hc_version_history {F}.

Section registry.
Context {F : Type} `{HO : HashOrder}.
Implicit Types (r : HotCodeRegistry F).

Definition hot_new : HotCodeRegistry F := mkHotCodeRegistry ∅ ∅ ∅.

Definition hot_register (name version : string) (factory : F) r : HotCodeRegistry F :=
  let versions := default [] (hc_behaviors r !! name) in
  mkHotCodeRegistry (<[name := versions ++ [mkBehaviorVersion name version factory]]> (hc_behaviors r))
    (hc_process_versions r) (hc_version_history r).

Definition list_versions (name : string) r : list string :=
  map bv_version (default [] (hc_behaviors r !! name)).

Definition find_version (version : string) (versions : list (BehaviorVersion F)) : option (BehaviorVersion F) :=
  List.find (fun v => String.eqb (bv_version v) version) versions.

Definition get_factory (name version : string) r : result F AgentRtError :=
  let? versions := ok_or (hc_behaviors r !! name) (EHotCode ("behavior '" +:+ name +:+ "' not found")) in
  ok_or (bv_factory <$> find_version version versions)
    (EHotCode ("version '" +:+ version +:+ "' of '" +:+ name +:+ "' not found")).

Definition set_process_version (pid : AgentPid) (name version : string) r : HotCodeRegistry F :=
  mkHotCodeRegistry (hc_behaviors r) (<[pid := (name, version)]> (hc_process_versions r)) (hc_version_history r).

Definition current_version (pid : AgentPid) r : option (string * string) := hc_process_versions r !! pid.

Definition remove_process (pid : AgentPid) r : HotCodeRegistry F :=
  mkHotCodeRegistry (hc_behaviors r) (delete pid (hc_process_versions r)) (delete pid (hc_version_history r)).

Definition pids_on_version (name version : string) r : list AgentPid :=
  map fst (retain (fun '(_, (n, v)) => String.eqb n name && String.eqb v version) (hash_iter (hc_process_versions r))).

Definition pids_for_behavior (name : string) r : list (AgentPid * string) :=
  map (fun '(pid, (_, v)) => (pid, v)) (retain (fun '(_, (n, _)) => String.eqb n name) (hash_iter (hc_process_versions r))).

Definition prepare_upgrade (pid : AgentPid) (target_version : string) r : result (string * F) AgentRtError :=
  let? current := ok_or (hc_process_versions r !! pid) (EHotCode "process not tracked") in
  let? factory := get_factory current.1 target_version r in
  Ok (current.2, factory).

Definition push_version_history (pid : AgentPid) (version : string) r : HotCodeRegistry F :=
  mkHotCodeRegistry (hc_behaviors r) (hc_process_versions r)
    (<[pid := default [] (hc_version_history r !! pid) ++ [version]]> (hc_version_history r)).

Definition prepare_rollback (pid : AgentPid) r : result (string * F) AgentRtError :=
  let? current := ok_or (hc_process_versions r !! pid) (EHotCode "process not tracked") in
  let? history := ok_or (hc_version_history r !! pid) (EHotCode "no version history") in
  let? prev_vsn := ok_or (last history) (EHotCode "no previous version") in
  let? factory := get_factory current.1 prev_vsn r in
  Ok (prev_vsn, factory).

Definition stale_pids (name : string) r : list AgentPid :=
  match hc_behaviors r !! name with
  | Some (oldest :: v2 :: v3 :: rest) => pids_on_version name (bv_version oldest) r
  | _ => []
  end.

(** ** The registry as a log of events *)

Inductive Event : Type :=
| ERegister (name version : string) (factory : F)
| ESetVersion (pid : AgentPid) (name version : string)
| EPushHistory (pid : AgentPid) (version : string)
| ERemove (pid : AgentPid).

Definition hot_step r (e : Event) : HotCodeRegistry F :=
  match e with
  | ERegister name version factory => hot_register name version factory r
  | ESetVersion pid name version => set_process_version pid name version r
  | EPushHistory pid version => push_version_history pid version r
  | ERemove pid => remove_process pid r
  end.

Definition hot_run (es : list Event) : HotCodeRegistry F := foldl hot_step hot_new es.

(** The first factory registered for a version. *)
Fixpoint first_registered (name version : string) (es : list Event) : option F :=
  match es with
  | [] => None
  | ERegister n v f :: es => if decide (n = name /\ v = version) then Some f else first_registered name version es
  | _ :: es => first_registered name version es
  end.

(** What a process was last said to run, and the versions pushed, since it was removed. *)
Definition runs (pid : AgentPid) (es : list Event) : option (string * string) :=
  foldl (fun acc e => match e with
    | ESetVersion p n v => if decide (p = pid) then Some (n, v) else acc
    | ERemove p => if decide (p = pid) then None else acc
    | _ => acc end) None es.
Definition ran (pid : AgentPid) (es : list Event) : list string :=
  foldl (fun acc e => match e with
    | EPushHistory p v => if decide (p = pid) then acc ++ [v] else acc
    | ERemove p => if decide (p = pid) then [] else acc
    | _ => acc end) [] es.

Lemma find_app {A} (p : A -> bool) l x :
  List.find p (l ++ [x]) = match List.find p l with Some y => Some y | None => if p x then Some x else None end.
Proof. induction l as [|y l IH]; [done|]. cbn. by destruct (p y). Qed.

Lemma first_registered_app name version es e :
  first_registered name version (es ++ [e]) =
  match first_registered name version es with Some f => Some f | None => first_registered name version [e] end.
Proof. induction es as [|e' es IH]; [done|]. destruct e'; cbn; try done. by destruct (decide _). Qed.

Lemma hot_run_factory name version es :
  bv_factory <$> find_version version (default [] (hc_behaviors (hot_run es) !! name)) = first_registered name version es.
Proof.
  unfold hot_run. induction es as [|e es IH] using rev_ind; [done|].
  rewrite foldl_app, first_registered_app, <- IH. cbn [foldl]. set (r := foldl hot_step hot_new es).
  destruct e as [n v f|p n v|p v|p]; cbn [hot_step first_registered];
    [|unfold set_process_version, push_version_history, remove_process; cbn [hc_behaviors]; by destruct (_ <$> _)..].
  unfold hot_register. cbn [hc_behaviors]. destruct (decide (n = name)) as [->|Hn].
  - rewrite lookup_insert_eq. cbn [from_option id]. unfold find_version, id. rewrite find_app. cbn [bv_version].
    destruct (List.find _ _); [done|]. destruct (String.eqb_spec v version) as [->|Hv].
    + by rewrite decide_True.
    + rewrite decide_False by naive_solver. done.
  - rewrite lookup_insert_ne by done. rewrite (decide_False (P := n = name /\ v = version)) by naive_solver.
    by destruct (_ <$> _).
Qed.

Lemma hot_run_processes pid es :
  hc_process_versions (hot_run es) !! pid = runs pid es /\
  default [] (hc_version_history (hot_run es) !! pid) = ran pid es.
Proof.
  unfold hot_run, runs, ran. induction es as [|e es [IH1 IH2]] using rev_ind; [done|].
  rewrite !foldl_app. cbn [foldl]. set (r := foldl hot_step hot_new es) in *.
  destruct e as [n v f|p n v|p v|p]; cbn [hot_step]; [by split|..].
  - split; [|done]. cbn. by destruct (decide (p = pid)) as [->|]; [rewrite lookup_insert_eq|rewrite lookup_insert_ne].
  - split; [done|]. cbn. destruct (decide (p = pid)) as [->|]; [|by rewrite lookup_insert_ne].
    rewrite lookup_insert_eq. cbn. by rewrite IH2.
  - cbn. by destruct (decide (p = pid)) as [->|]; [rewrite !lookup_delete_eq|rewrite !lookup_delete_ne].
Qed.

(** Rolling back returns to the version a process ran.  Whatever was registered, set,
    pushed and removed, a rollback is prepared for exactly the processes that are tracked,
    have a version pushed since they were last removed, and whose last pushed version is
    registered; it names that version, with the factory first registered for it.  An
    upgrade is prepared exactly when the process is tracked and the target is registered
    under its behavior, and names the version it runs. *)
Theorem hot_rollback_spec es pid target prev (factory : F) :
  (prepare_rollback pid (hot_run es) = Ok (prev, factory) <->
     exists name vsn, runs pid es = Some (name, vsn) /\ last (ran pid es) = Some prev /\
                      first_registered name prev es = Some factory) /\
  (prepare_upgrade pid target (hot_run es) = Ok (prev, factory) <->
     exists name, runs pid es = Some (name, prev) /\ first_registered name target es = Some factory).
Proof.
  assert (Hget : forall name version, (exists e, get_factory name version (hot_run es) = Err e /\ first_registered name version es = None) \/
    exists f, get_factory name version (hot_run es) = Ok f /\ first_registered name version es = Some f).
  { intros name version. rewrite <- hot_run_factory. unfold get_factory.
    destruct (hc_behaviors (hot_run es) !! name) as [vs|]; [|left; by eexists]. cbn -[find_version].
    destruct (find_version version vs); [right|left]; by eexists. }
  destruct (hot_run_processes pid es) as [Hr Hh]. unfold prepare_rollback, prepare_upgrade. rewrite Hr, <- Hh. split.
  - destruct (runs pid es) as [[name vsn]|]; cbn; [|split; [done|naive_solver]].
    destruct (hc_version_history (hot_run es) !! pid) as [hist|]; cbn; [|split; [done|naive_solver]].
    destruct (last hist) as [p|]; cbn; [|split; [done|naive_solver]].
    destruct (Hget name p) as [(e & -> & Hf)|(f & -> & Hf)]; split; [done|naive_solver| |naive_solver].
    intros Heq. simplify_eq. naive_solver.
  - destruct (runs pid es) as [[name vsn]|]; cbn; [|split; [done|naive_solver]].
    destruct (Hget name target) as [(e & -> & Hf)|(f & -> & Hf)]; split; [done|naive_solver| |naive_solver].
    intros Heq. simplify_eq. naive_solver.
Qed.
End registry.

Module HotCodeWitness.

(** Nothing pops the history: preparing a rollback, performing it and preparing the next
    one names the same version again. *)
Lemma rollback_does_not_go_further :
  let es := [ERegister "chat" "1" 10; ERegister "chat" "2" 20; ERegister "chat" "3" 30; ESetVersion 7 "chat" "1";
             EPushHistory 7 "1"; ESetVersion 7 "chat" "2"; EPushHistory 7 "2"; ESetVersion 7 "chat" "3"] in
  prepare_rollback 7 (hot_run es) = Ok ("2", 20) /\
  prepare_rollback 7 (hot_run (es ++ [ESetVersion 7 "chat" "2"])) = Ok ("2", 20).
Proof. vm_compute. by split. Qed.

(** A version registered again keeps its first factory. *)
Lemma reregistration_is_ignored :
  get_factory "chat" "1" (hot_run [ERegister "chat" "1" 10; ERegister "chat" "1" 11]) = Ok 10.
Proof. reflexivity. Qed.
End HotCodeWitness.
