(* ===== verification/Behaviors.v ===== *)
(** OTP-style behaviors ([agent_rt/behaviors.rs]): the dispatch of messages to a GenAgent,
    and event managers.  The callbacks are classes over a world [W]. *)
From S2P Require Import Prelude Json Types.

Inductive GenReply (V : Type) : Type :=
| ReplyOk (v : V)
| ReplyError (e : string)
| ReplyStop (reason : string).
Arguments ReplyOk {V}.
Arguments ReplyError {V}.
Arguments ReplyStop {V}.

Inductive Noreply : Type :=
| NoreplyOk
| NoreplyStop (reason : string).

(** [GenAgent]: the callbacks the dispatcher uses, on the agent's state type. *)
Class GenAgent (V G St W : Type) : Type := {
  ga_handle_request : G -> AgentPid -> V -> St -> W -> GenReply V * St * W;
  ga_handle_notify : G -> V -> St -> W -> Noreply * St * W;
  ga_handle_info : G -> Message V -> St -> W -> Noreply * St * W
}.

Inductive EventAction : Type :=
| EventOk
| EventRemove.

Class EventHandler (V H W : Type) : Type := {
  eh_handle_event : H -> V -> W -> EventAction * W;
  eh_id : H -> string
}.

Section dispatch.
Context {V G St W : Type} `{JL : JsonLib V} `{GA : GenAgent V G St W}.

(** The downcast of the state to the agent's type is not modelled: it panics on a state of
    another type. *)
Definition dispatch_gen_agent_message (agent : G) (state : St) (msg : V) (w : W) : option V * St * W :=
  match jget msg "$call" with
  | Some call_payload =>
      let from_raw := default 0 (jget_u64 msg "$from") in
      let '(reply, state, w) := ga_handle_request agent from_raw call_payload state w in
      match reply with
      | ReplyOk v => (Some v, state, w)
      | ReplyError e => (Some (json_object [("$error", jstr e)]), state, w)
      | ReplyStop reason => (Some (json_object [("$stop", jstr reason)]), state, w)
      end
  | None =>
      match jget msg "$cast" with
      | Some cast_payload =>
          let '(_, state, w) := ga_handle_notify agent cast_payload state w in (None, state, w)
      | None =>
          let '(_, state, w) := ga_handle_info agent (Json msg) state w in (None, state, w)
      end
  end.
End dispatch.

Section events.
Context {V H W : Type} `{EH : EventHandler V H W}.
Implicit Types (handlers : list H) (event : V) (w : W).

Definition em_new : list H := [].
Definition add_handler (handler : H) handlers : list H := handlers ++ [handler].
Definition remove_handler (id : string) handlers : list H :=
  retain (fun h => negb (String.eqb (eh_id h) id)) handlers.
Definition handler_count handlers : nat := length handlers.

(** The loop of [notify]: the indices of the handlers to remove, in increasing order. *)
Fixpoint notify_loop (idx : nat) (to_remove : list nat) event handlers w : list nat * W :=
  match handlers with
  | [] => (to_remove, w)
  | handler :: handlers =>
      match eh_handle_event handler event w with
      | (EventOk, w) => notify_loop (S idx) to_remove event handlers w
      | (EventRemove, w) => notify_loop (S idx) (to_remove ++ [idx]) event handlers w
      end
  end.

(** [None] where removing by index would panic. *)
Fixpoint remove_all (idxs : list nat) handlers : option (list H) :=
  match idxs with
  | [] => Some handlers
  | idx :: idxs => '(_, handlers) ← vec_remove idx handlers; remove_all idxs handlers
  end.

Definition notify event handlers w : option (list H * W) :=
  let '(to_remove, w) := notify_loop 0 [] event handlers w in
  handlers ← remove_all (rev to_remove) handlers;
  Some (handlers, w).

(** What notifying is for: every handler sees the event, in order, and those that ask for
    it are gone afterwards. *)
Fixpoint notified event handlers w : list H * W :=
  match handlers with
  | [] => ([], w)
  | handler :: handlers =>
      let '(action, w) := eh_handle_event handler event w in
      let '(rest, w) := notified event handlers w in
      (match action with EventOk => handler :: rest | EventRemove => rest end, w)
  end.

Lemma notify_loop_acc idx acc event handlers w :
  notify_loop idx acc event handlers w =
  (acc ++ (notify_loop idx [] event handlers w).1, (notify_loop idx [] event handlers w).2).
Proof.
  revert idx acc w. induction handlers as [|h hs IH]; intros idx acc w; cbn; [by rewrite app_nil_r|].
  destruct (eh_handle_event h event w) as [[|] w1]; [apply IH|]. rewrite (IH _ [idx]), (IH _ (acc ++ [idx])). cbn.
  by rewrite <- app_assoc.
Qed.

Lemma remove_all_app a b handlers : remove_all (a ++ b) handlers = remove_all a handlers ≫= remove_all b.
Proof. revert handlers. induction a as [|i a IH]; intros hs; [done|]. cbn. destruct (vec_remove i hs) as [[? ?]|]; cbn; [apply IH|done]. Qed.

Lemma notify_loop_spec event pre handlers w :
  remove_all (rev (notify_loop (length pre) [] event handlers w).1) (pre ++ handlers) =
    Some (pre ++ (notified event handlers w).1) /\
  (notify_loop (length pre) [] event handlers w).2 = (notified event handlers w).2.
Proof.
  revert pre w. induction handlers as [|h hs IH]; intros pre w; [done|].
  cbn [notify_loop notified]. destruct (eh_handle_event h event w) as [action w1].
  specialize (IH (pre ++ [h]) w1) as [IH1 IH2]. rewrite length_app in IH1, IH2. cbn [length] in IH1, IH2.
  rewrite Nat.add_1_r, <- !app_assoc in *. cbn [app] in IH1, IH2.
  destruct (notified event hs w1) as [rest w2]. cbn [fst snd] in *. destruct action.
  - by rewrite IH1.
  - rewrite notify_loop_acc. cbn [fst snd app rev]. split; [|done]. rewrite remove_all_app, IH1. cbn.
    unfold vec_remove. rewrite list_lookup_middle by done. cbn.
    rewrite take_app_length. do 2 f_equal. rewrite drop_app_ge by lia. by rewrite Nat.sub_succ_l, Nat.sub_diag by lia.
Qed.

(** Notifying an event manager calls every handler once, in the order they were added,
    and keeps exactly those that did not ask to be removed, in that order; removing them
    by index afterwards never panics nor removes another one. *)
Theorem notify_keeps_the_willing event handlers w :
  notify event handlers w = Some (notified event handlers w).
Proof.
  unfold notify. destruct (notify_loop_spec event [] handlers w) as [H1 H2]. cbn [app length] in H1, H2.
  destruct (notify_loop 0 [] event handlers w) as [to_remove w1]. cbn in *. rewrite H1. cbn. rewrite H2.
  by destruct (notified event handlers w).
Qed.
End events.
