(* ===== verification/Bridge.v ===== *)
(** The bridge between the schedulers and the I/O workers ([agent_rt/bridge.rs],
    [bridge_metrics.rs]): bounded queues, cancellation slots, worker tasks.

    Schedulers, workers and tasks run on different threads; the state below is what they
    share and where each task stands, and the calls of [BCall] are the atomic pieces
    (channel operations, critical sections) that may interleave in any order.  What an
    operation answers is the outside world's: any result. *)
From S2P Require Import Prelude Types Scheduler.

Definition REQUEST_QUEUE_SIZE : nat := 1024.
Definition RESPONSE_QUEUE_SIZE : nat := 4096.

(** [CancellationToken]s are compared by identity: a number. *)
Record CancellationEntry : Type := mkCancellationEntry { ce_token : nat; ce_in_flight : Z }.

Record IoRequest (V : Type) : Type := mkIoRequest { rq_correlation_id : Z; rq_source_pid : AgentPid; rq_op : IoOp V }.
Record IoResponse (V : Type) : Type := mkIoResponse { rs_correlation_id : Z; rs_source_pid : AgentPid; rs_result : IoResult V }.
Arguments mkIoRequest {V}.
Arguments rq_correlation_id {V}.
Arguments rq_source_pid {V}.
Arguments rq_op {V}.
Arguments mkIoResponse {V}.
Arguments rs_correlation_id {V}.
Arguments rs_source_pid {V}.
Arguments rs_result {V}.

Inductive WorkerRequest (V : Type) : Type :=
| WIo (req : IoRequest V)
| WShutdown (timeout : Duration).
Arguments WIo {V} req.
Arguments WShutdown {V} timeout.

(** A task spawned by a worker: not started, waiting for its operation (with the token it
    took from the table), with a result to send, or with its slot to release. *)
Inductive TaskState (V : Type) : Type :=
| TSpawned
| TRunning (token : option nat)
| TAnswered (res : IoResult V)
| TResponded.
Arguments TSpawned {V}.
Arguments TRunning {V} token.
Arguments TAnswered {V} res.
Arguments TResponded {V}.

Record Task (V : Type) : Type := mkTask { tk_worker : nat; tk_req : IoRequest V; tk_state : TaskState V }.
Arguments mkTask {V}.
Arguments tk_worker {V}.
Arguments tk_req {V}.
Arguments tk_state {V}.

Inductive WorkerStatus : Type :=
| WorkerRunning
| WorkerStopping
| WorkerStopped.

#[export] Instance WorkerStatus_eq_dec : EqDecision WorkerStatus.
Proof. solve_decision. Defined.

Record BridgeMetrics : Type := mkBridgeMetrics { bm_destroy_failures : Z; bm_busy_rejections : Z; bm_chat_panics : Z }.
Definition bridge_metrics_new : BridgeMetrics := mkBridgeMetrics 0 0 0.
Definition inc_destroy_failures (m : BridgeMetrics) : BridgeMetrics :=
  mkBridgeMetrics (wrap64 (bm_destroy_failures m + 1)) (bm_busy_rejections m) (bm_chat_panics m).
Definition inc_busy_rejections (m : BridgeMetrics) : BridgeMetrics :=
  mkBridgeMetrics (bm_destroy_failures m) (wrap64 (bm_busy_rejections m + 1)) (bm_chat_panics m).
Definition inc_chat_panics (m : BridgeMetrics) : BridgeMetrics :=
  mkBridgeMetrics (bm_destroy_failures m) (bm_busy_rejections m) (wrap64 (bm_chat_panics m + 1)).

Record Bridge (V : Type) : Type := mkBridge {
  br_sending : list (IoRequest V);      (* in the middle of [submit] *)
  br_requests : list (WorkerRequest V);
  br_tasks : list (Task V);
  br_responses : list (IoResponse V);
  br_next_correlation_id : Z;
  br_cancellation : gmap AgentPid CancellationEntry;
  br_cancelled : gset nat;              (* the tokens cancelled so far *)
  br_next_token : nat;
  br_metrics : BridgeMetrics;
  br_workers : list WorkerStatus
}.
Arguments mkBridge {V}.
Arguments br_sending {V}.
Arguments br_requests {V}.
Arguments br_tasks {V}.
Arguments br_responses {V}.
Arguments br_next_correlation_id {V}.
Arguments br_cancellation {V}.
Arguments br_cancelled {V}.
Arguments br_next_token {V}.
Arguments br_metrics {V}.
Arguments br_workers {V}.

Section bridge.
Context {V : Type}.
Implicit Types (b : Bridge V) (req : IoRequest V) (pid : AgentPid).

Definition br_with_sending x b := mkBridge x (br_requests b) (br_tasks b) (br_responses b) (br_next_correlation_id b)
  (br_cancellation b) (br_cancelled b) (br_next_token b) (br_metrics b) (br_workers b).
Definition br_with_requests x b := mkBridge (br_sending b) x (br_tasks b) (br_responses b) (br_next_correlation_id b)
  (br_cancellation b) (br_cancelled b) (br_next_token b) (br_metrics b) (br_workers b).
Definition br_with_tasks x b := mkBridge (br_sending b) (br_requests b) x (br_responses b) (br_next_correlation_id b)
  (br_cancellation b) (br_cancelled b) (br_next_token b) (br_metrics b) (br_workers b).
Definition br_with_responses x b := mkBridge (br_sending b) (br_requests b) (br_tasks b) x (br_next_correlation_id b)
  (br_cancellation b) (br_cancelled b) (br_next_token b) (br_metrics b) (br_workers b).
Definition br_with_next_correlation_id x b := mkBridge (br_sending b) (br_requests b) (br_tasks b) (br_responses b) x
  (br_cancellation b) (br_cancelled b) (br_next_token b) (br_metrics b) (br_workers b).
Definition br_with_cancellation x t b := mkBridge (br_sending b) (br_requests b) (br_tasks b) (br_responses b)
  (br_next_correlation_id b) x (br_cancelled b) t (br_metrics b) (br_workers b).
Definition br_with_cancelled x b := mkBridge (br_sending b) (br_requests b) (br_tasks b) (br_responses b)
  (br_next_correlation_id b) (br_cancellation b) x (br_next_token b) (br_metrics b) (br_workers b).
Definition br_with_metrics x b := mkBridge (br_sending b) (br_requests b) (br_tasks b) (br_responses b)
  (br_next_correlation_id b) (br_cancellation b) (br_cancelled b) (br_next_token b) x (br_workers b).
Definition br_with_workers x b := mkBridge (br_sending b) (br_requests b) (br_tasks b) (br_responses b)
  (br_next_correlation_id b) (br_cancellation b) (br_cancelled b) (br_next_token b) (br_metrics b) x.

Definition create_bridge_pool (worker_count : nat) : Bridge V :=
  mkBridge [] [] [] [] 0 ∅ ∅ 0 bridge_metrics_new (replicate (Nat.max worker_count 1) WorkerRunning).

(** Senders find the channel connected while some worker holds its receiver. *)
Definition connected b : bool := existsb (fun w => negb (bool_decide (w = WorkerStopped))) (br_workers b).

Definition is_destroy (op : IoOp V) : bool := match op with AgentDestroy _ => true | _ => false end.
Definition is_chat (op : IoOp V) : bool := match op with AgentChat _ _ _ _ _ _ _ => true | _ => false end.

Definition reserve_cancellation_slot pid b : Bridge V :=
  match br_cancellation b !! pid with
  | Some entry =>
      br_with_cancellation (<[pid := mkCancellationEntry (ce_token entry) (sat_add64 (ce_in_flight entry) 1)]> (br_cancellation b))
        (br_next_token b) b
  | None =>
      br_with_cancellation (<[pid := mkCancellationEntry (br_next_token b) 1]> (br_cancellation b)) (S (br_next_token b)) b
  end.

(** The same code at the end of a worker task. *)
Definition release_cancellation_slot pid b : Bridge V :=
  match br_cancellation b !! pid with
  | Some entry =>
      br_with_cancellation
        (if 1 <? ce_in_flight entry
         then <[pid := mkCancellationEntry (ce_token entry) (ce_in_flight entry - 1)]> (br_cancellation b)
         else delete pid (br_cancellation b))
        (br_next_token b) b
  | None => b
  end.

(** The first part of [submit]: a slot is reserved and the request numbered. *)
Definition submit_begin pid (op : IoOp V) b : IoRequest V * Bridge V :=
  let b := if is_destroy op then b else reserve_cancellation_slot pid b in
  let '(cid, next) := fetch_add1 (br_next_correlation_id b) in
  (mkIoRequest cid pid op, br_with_next_correlation_id next b).

(** The second part of [submit]: [try_send]. *)
Definition submit_end req b : result Z string * Bridge V :=
  let release b := if is_destroy (rq_op req) then b else release_cancellation_slot (rq_source_pid req) b in
  let count_destroy b := if is_destroy (rq_op req) then br_with_metrics (inc_destroy_failures (br_metrics b)) b else b in
  let count_busy b := if is_chat (rq_op req) then br_with_metrics (inc_busy_rejections (br_metrics b)) b else b in
  if negb (connected b) then (Err "bridge worker disconnected", count_destroy (release b))
  else if (REQUEST_QUEUE_SIZE <=? length (br_requests b))%nat then
    (Err "request queue full", count_busy (count_destroy (release b)))
  else (Ok (rq_correlation_id req), br_with_requests (br_requests b ++ [WIo req]) b).

Definition submit pid (op : IoOp V) b : result Z string * Bridge V :=
  let '(req, b) := submit_begin pid op b in submit_end req b.

Definition cancel pid b : bool * Bridge V :=
  match br_cancellation b !! pid with
  | Some entry =>
      if bool_decide (ce_token entry ∈ br_cancelled b) then (false, b)
      else (true, br_with_cancelled ({[ce_token entry]} ∪ br_cancelled b) b)
  | None => (false, b)
  end.

Definition response_message (resp : IoResponse V) : AgentPid * Message V :=
  (rs_source_pid resp, System (Types.IoResponse (rs_correlation_id resp) (rs_result resp))).

Definition drain_responses b : list (AgentPid * Message V) * Bridge V :=
  (map response_message (br_responses b), br_with_responses [] b).

(** The first part of [shutdown]; the wait for the acknowledgement is the caller's. *)
Definition shutdown_begin (shutdown_enabled : bool) (timeout : Duration) b : result bool string * Bridge V :=
  if negb shutdown_enabled then (Ok false, b)
  else if negb (connected b) then (Err "bridge worker disconnected", b)
  else (Ok true, br_with_requests (br_requests b ++ [WShutdown timeout]) b).

(** ** The workers ([BridgeWorker::run]); [None] where a step is not possible *)

Definition worker_recv (w : nat) b : option (Bridge V) :=
  match br_workers b !! w, br_requests b with
  | Some WorkerRunning, WIo req :: requests =>
      Some (br_with_tasks (br_tasks b ++ [mkTask w req TSpawned]) (br_with_requests requests b))
  | Some WorkerRunning, WShutdown _ :: requests =>
      Some (br_with_workers (<[w := WorkerStopping]> (br_workers b)) (br_with_requests requests b))
  | _, _ => None
  end.

(** Aborting ends a task of the worker that has not got its result; from there on a task
    runs to its end without waiting on the runtime. *)
Definition aborts (w : nat) (t : Task V) : bool :=
  (tk_worker t =? w)%nat && match tk_state t with TSpawned | TRunning _ => true | TAnswered _ | TResponded => false end.

(** A stopping worker ends when its tasks have ended, or at the deadline: [abort_all]. *)
Definition worker_stop (w : nat) b : option (Bridge V) :=
  match br_workers b !! w with
  | Some WorkerStopping =>
      Some (br_with_tasks (retain (fun t => negb (aborts w t)) (br_tasks b))
             (br_with_workers (<[w := WorkerStopped]> (br_workers b)) b))
  | _ => None
  end.

Definition set_task (i : nat) (st : TaskState V) b : Bridge V :=
  match br_tasks b !! i with
  | Some t => br_with_tasks (<[i := mkTask (tk_worker t) (tk_req t) st]> (br_tasks b)) b
  | None => b
  end.

(** The task takes the token of its process, if there is one. *)
Definition task_start (i : nat) b : option (Bridge V) :=
  match br_tasks b !! i with
  | Some (mkTask _ req TSpawned) =>
      Some (set_task i (TRunning (ce_token <$> br_cancellation b !! rq_source_pid req)) b)
  | _ => None
  end.

(** The operation answers. *)
Definition task_answer (i : nat) (res : IoResult V) b : option (Bridge V) :=
  match br_tasks b !! i with
  | Some (mkTask _ _ (TRunning _)) => Some (set_task i (TAnswered res) b)
  | _ => None
  end.

(** The token is cancelled while the operation is under way; the destruction of an agent is
    not raced with its token. *)
Definition task_cancelled (i : nat) b : option (Bridge V) :=
  match br_tasks b !! i with
  | Some (mkTask _ req (TRunning (Some token))) =>
      if negb (is_destroy (rq_op req)) && bool_decide (token ∈ br_cancelled b)
      then Some (set_task i (TAnswered IoTimeout) b) else None
  | _ => None
  end.

(** Sending blocks while the response queue is full. *)
Definition task_send (i : nat) b : option (Bridge V) :=
  match br_tasks b !! i with
  | Some (mkTask _ req (TAnswered res)) =>
      if (length (br_responses b) <? RESPONSE_QUEUE_SIZE)%nat then
        Some (set_task i TResponded
               (br_with_responses (br_responses b ++ [mkIoResponse (rq_correlation_id req) (rq_source_pid req) res]) b))
      else None
  | _ => None
  end.

Definition task_release (i : nat) b : option (Bridge V) :=
  match br_tasks b !! i with
  | Some (mkTask _ req TResponded) =>
      '(_, tasks) ← vec_remove i (br_tasks b);
      Some (release_cancellation_slot (rq_source_pid req) (br_with_tasks tasks b))
  | _ => None
  end.

Definition io_op_kind (op : IoOp V) : string :=
  match op with
  | HttpRequest _ _ _ _ _ => "HttpRequest"
  | Timer _ => "Timer"
  | Custom _ _ => "Custom"
  | AgentChat _ _ _ _ _ _ _ => "AgentChat"
  | AgentDestroy _ => "AgentDestroy"
  end.

(** ** Interleavings *)

Inductive BCall : Type :=
| CBegin (pid : AgentPid) (op : IoOp V)
| CEnd (i : nat)
| CCancel (pid : AgentPid)
| CDrain
| CShutdown (timeout : Duration)
| WRecv (w : nat)
| WStop (w : nat)
| TStart (i : nat)
| TAnswer (i : nat) (res : IoResult V)
| TCancelled (i : nat)
| TSend (i : nat)
| TRelease (i : nat).

(** What the outside sees, and what a stopping worker throws away. *)
Inductive BEvent : Type :=
| EAccepted (req : IoRequest V)
| ERejected (req : IoRequest V) (e : string)
| EDelivered (resp : IoResponse V)
| EAborted (t : Task V).

Definition quiet (o : option (Bridge V)) : option (Bridge V * list BEvent) := b ← o; Some (b, []).

Definition bexec (c : BCall) b : option (Bridge V * list BEvent) :=
  match c with
  | CBegin pid op =>
      let '(req, b) := submit_begin pid op b in Some (br_with_sending (br_sending b ++ [req]) b, [])
  | CEnd i =>
      '(req, sending) ← vec_remove i (br_sending b);
      match submit_end req (br_with_sending sending b) with
      | (Ok _, b) => Some (b, [EAccepted req])
      | (Err e, b) => Some (b, [ERejected req e])
      end
  | CCancel pid => Some ((cancel pid b).2, [])
  | CDrain => Some ((drain_responses b).2, map EDelivered (br_responses b))
  | CShutdown timeout =>
      if (length (br_requests b) <? REQUEST_QUEUE_SIZE)%nat then Some ((shutdown_begin true timeout b).2, []) else None
  | WRecv w => quiet (worker_recv w b)
  | WStop w =>
      b' ← worker_stop w b;
      Some (b', map EAborted (retain (aborts w) (br_tasks b)))
  | TStart i => quiet (task_start i b)
  | TAnswer i res => quiet (task_answer i res b)
  | TCancelled i => quiet (task_cancelled i b)
  | TSend i => quiet (task_send i b)
  | TRelease i => quiet (task_release i b)
  end.

Fixpoint brun (cs : list BCall) b : option (Bridge V * list BEvent) :=
  match cs with
  | [] => Some (b, [])
  | c :: cs =>
      '(b, evs) ← bexec c b;
      '(b, evs') ← brun cs b;
      Some (b, evs ++ evs')
  end.
End bridge.

Arguments BCall : clear implicits.
Arguments BEvent : clear implicits.

(** The schedulers' view of a handle: [BridgeOps].  The wait of [shutdown] for the worker's
    acknowledgement is a parameter. *)
Class WorkerAck (V : Type) : Type := worker_ack : Duration -> Bridge V -> result unit string * Bridge V.

Definition handle_shutdown {V} `{WorkerAck V} (shutdown_enabled : bool) (timeout : Duration) (b : Bridge V)
    : result unit string * Bridge V :=
  match shutdown_begin shutdown_enabled timeout b with
  | (Err e, b) => (Err e, b)
  | (Ok false, b) => (Ok tt, b)
  | (Ok true, b) => worker_ack timeout b
  end.

#[export] Instance bridge_handle {V} `{WorkerAck V} (shutdown_enabled : bool) : BridgeOps V (Bridge V) := {
  bridge_submit := submit;
  bridge_cancel := cancel;
  bridge_drain_responses := drain_responses;
  bridge_shutdown := handle_shutdown shutdown_enabled
}.

(** * Every accepted request is answered once *)

Section conservation.
Context {V : Type}.
Implicit Types (b : Bridge V) (evs : list (BEvent V)).

(** A request is known by its number and its process. *)
Definition req_id (req : IoRequest V) : Z * AgentPid := (rq_correlation_id req, rq_source_pid req).
Definition resp_id (resp : IoResponse V) : Z * AgentPid := (rs_correlation_id resp, rs_source_pid resp).
Definition queued_req (r : WorkerRequest V) : option (IoRequest V) := match r with WIo req => Some req | WShutdown _ => None end.
Definition unanswered (t : Task V) : option (Z * AgentPid) :=
  match tk_state t with TResponded => None | _ => Some (req_id (tk_req t)) end.

(** Where an accepted request can be: queued, with a task, or its response queued. *)
Definition outstanding b : list (Z * AgentPid) :=
  omap (fun r => req_id <$> queued_req r) (br_requests b) ++ omap unanswered (br_tasks b) ++ map resp_id (br_responses b).

Definition accepted evs : list (Z * AgentPid) := omap (fun e => match e with EAccepted r => Some (req_id r) | _ => None end) evs.
Definition delivered evs : list (Z * AgentPid) := omap (fun e => match e with EDelivered r => Some (resp_id r) | _ => None end) evs.
Definition aborted evs : list (Z * AgentPid) := omap (fun e => match e with EAborted t => unanswered t | _ => None end) evs.

Lemma reserve_same pid b :
  let b' := reserve_cancellation_slot pid b in
  br_sending b' = br_sending b /\ br_requests b' = br_requests b /\ br_tasks b' = br_tasks b /\
  br_responses b' = br_responses b /\ br_workers b' = br_workers b /\ br_next_correlation_id b' = br_next_correlation_id b /\
  br_cancelled b' = br_cancelled b.
Proof. unfold reserve_cancellation_slot. by destruct (_ !! _). Qed.

Lemma release_same pid b :
  let b' := release_cancellation_slot pid b in
  br_sending b' = br_sending b /\ br_requests b' = br_requests b /\ br_tasks b' = br_tasks b /\
  br_responses b' = br_responses b /\ br_workers b' = br_workers b /\ br_next_correlation_id b' = br_next_correlation_id b /\
  br_cancelled b' = br_cancelled b.
Proof. unfold release_cancellation_slot. by destruct (_ !! _). Qed.

(** What [submit_end] does to the queue. *)
Lemma submit_end_spec req b :
  let '(r, b') := submit_end req b in
  br_sending b' = br_sending b /\ br_tasks b' = br_tasks b /\ br_responses b' = br_responses b /\
  br_next_correlation_id b' = br_next_correlation_id b /\ br_cancelled b' = br_cancelled b /\
  match r with
  | Ok cid => cid = rq_correlation_id req /\ br_requests b' = br_requests b ++ [WIo req] /\
              br_cancellation b' = br_cancellation b /\ (length (br_requests b) < REQUEST_QUEUE_SIZE)%nat
  | Err _ => br_requests b' = br_requests b /\
             br_cancellation b' = if is_destroy (rq_op req) then br_cancellation b
                                  else br_cancellation (release_cancellation_slot (rq_source_pid req) b)
  end.
Proof.
  unfold submit_end. destruct (release_same (rq_source_pid req) b) as (H1 & H2 & H3 & H4 & _ & H5 & H6).
  destruct (connected b); cbn [negb].
  - destruct (REQUEST_QUEUE_SIZE <=? length (br_requests b))%nat eqn:Hf; zify_bool; [|by split_and!].
    destruct (is_destroy (rq_op req)), (is_chat (rq_op req)); by split_and!.
  - destruct (is_destroy (rq_op req)); by split_and!.
Qed.

Lemma omap_lookup {A C} (f : A -> option C) (l : list A) (i : nat) x :
  l !! i = Some x -> omap f l ≡ₚ omap f [x] ++ omap f (delete i l).
Proof. intros Hl. rewrite <- omap_app. apply omap_Permutation. by apply delete_Permutation. Qed.

Lemma delete_insert_same {A} (i : nat) (y : A) (l : list A) : delete i (<[i := y]> l) = delete i l.
Proof. revert i. induction l as [|z l IH]; intros [|i]; try done. cbn. f_equal. apply IH. Qed.

Lemma omap_insert {A C} (f : A -> option C) (l : list A) (i : nat) x y :
  l !! i = Some x -> omap f (<[i := y]> l) ≡ₚ omap f [y] ++ omap f (delete i l).
Proof.
  intros Hl. rewrite (omap_lookup f (<[i := y]> l) i y); [by rewrite delete_insert_same|].
  apply list_lookup_insert_eq. by eapply lookup_lt_Some.
Qed.

Lemma vec_remove_delete {A} (i : nat) (l : list A) x l' : vec_remove i l = Some (x, l') -> l !! i = Some x /\ l' = delete i l.
Proof. unfold vec_remove. destruct (l !! i) eqn:Hl; [|done]. intros. simplify_eq. by rewrite delete_take_drop. Qed.

(** Changing the state of a task between two states without an answer. *)
Lemma set_task_outstanding i st t b :
  br_tasks b !! i = Some t -> unanswered (mkTask (tk_worker t) (tk_req t) st) = unanswered t ->
  outstanding (set_task i st b) ≡ₚ outstanding b.
Proof.
  intros Ht Hu. unfold set_task, outstanding. rewrite Ht. cbn [br_requests br_tasks br_responses br_with_tasks].
  rewrite (omap_insert unanswered _ _ _ _ Ht), (omap_lookup unanswered (br_tasks b) _ _ Ht). cbn [omap list_omap].
  by rewrite Hu.
Qed.

Lemma omap_retain_split (p : Task V -> bool) l :
  omap unanswered l ≡ₚ omap unanswered (retain (fun t => negb (p t)) l) ++ omap unanswered (retain p l).
Proof.
  induction l as [|t l IH]; [done|]. unfold retain in *. cbn. destruct (p t), (unanswered t) as [x|] eqn:Hu; cbn; rewrite ?Hu.
  - rewrite IH. by rewrite <- Permutation_middle.
  - by rewrite IH.
  - by rewrite IH.
  - by rewrite IH.
Qed.

Lemma delivered_map rs : delivered (map EDelivered rs) = map resp_id rs.
Proof. induction rs as [|r rs IH]; [done|]. cbn. f_equal. exact IH. Qed.
Lemma aborted_map ts : aborted (map EAborted ts) = omap unanswered ts.
Proof. induction ts as [|t ts IH]; [done|]. cbn. unfold aborted in IH. destruct (unanswered t); by rewrite IH. Qed.
Lemma delivered_aborts ts : delivered (map EAborted ts) = [] /\ accepted (map EAborted ts) = [].
Proof. induction ts as [|t ts [IH1 IH2]]; [done|]. by split. Qed.
Lemma delivers_else rs : aborted (map EDelivered rs) = [] /\ accepted (map EDelivered rs) = [].
Proof. induction rs as [|t ts [IH1 IH2]]; [done|]. by split. Qed.

Lemma bexec_conserves c b b' evs :
  bexec c b = Some (b', evs) ->
  outstanding b ++ accepted evs ≡ₚ outstanding b' ++ delivered evs ++ aborted evs.
Proof.
  intros Hx. destruct c as [pid op|i|pid| |timeout|w|w|i|i res|i|i|i]; cbn [bexec] in Hx.
  - unfold submit_begin in Hx. cbn in Hx. simplify_eq. cbn. rewrite !app_nil_r. unfold outstanding. cbn.
    destruct (is_destroy op); [done|]. destruct (reserve_same pid b) as (_ & -> & -> & -> & _). done.
  - destruct (vec_remove i (br_sending b)) as [[req sending]|]; [|done]. cbn [mbind option_bind] in Hx.
    pose proof (submit_end_spec req (br_with_sending sending b)) as Hs.
    destruct (submit_end req (br_with_sending sending b)) as [[cid|e] b1]; simplify_eq; unfold outstanding; cbn;
      destruct Hs as (_ & -> & -> & _ & _ & Hs).
    + destruct Hs as (_ & -> & _). cbn. rewrite omap_app. cbn. rewrite app_nil_r, <- !app_assoc. cbn.
      solve_Permutation.
    + destruct Hs as (-> & _). cbn. by rewrite !app_nil_r.
  - simplify_eq. cbn. rewrite !app_nil_r. unfold cancel. destruct (_ !! _); [|done]. by case_bool_decide.
  - unfold drain_responses in Hx. simplify_eq. rewrite delivered_map. destruct (delivers_else (br_responses b)) as [-> ->].
    unfold outstanding. cbn. by rewrite !app_nil_r, <- app_assoc.
  - destruct (_ <? _)%nat; [|done]. simplify_eq. cbn. rewrite !app_nil_r. unfold shutdown_begin. cbn.
    destruct (connected b); [|done]. unfold outstanding. cbn. by rewrite omap_app, app_nil_r.
  - unfold worker_recv, quiet in Hx. destruct (br_workers b !! w) as [[]|]; try done.
    destruct (br_requests b) as [|[req|t] reqs] eqn:Hr; try done; cbn in Hx; simplify_eq; unfold outstanding; cbn;
      rewrite Hr; cbn; rewrite ?app_nil_r; [|done].
    rewrite omap_app. cbn. solve_Permutation.
  - unfold worker_stop in Hx. destruct (br_workers b !! w) as [[]|]; try done. cbn in Hx. simplify_eq.
    rewrite aborted_map. destruct (delivered_aborts (retain (aborts w) (br_tasks b))) as [-> ->].
    unfold outstanding. cbn. rewrite app_nil_r, <- !app_assoc. apply Permutation_app_head.
    rewrite (omap_retain_split (aborts w) (br_tasks b)), <- app_assoc.
    apply Permutation_app_head. apply Permutation_app_comm.
  - unfold task_start, quiet in Hx. destruct (br_tasks b !! i) as [[wk req []]|] eqn:Ht; try done. cbn in Hx. simplify_eq.
    cbn. rewrite !app_nil_r. symmetry. by eapply set_task_outstanding.
  - unfold task_answer, quiet in Hx. destruct (br_tasks b !! i) as [[wk req []]|] eqn:Ht; try done. cbn in Hx. simplify_eq.
    cbn. rewrite !app_nil_r. symmetry. by eapply set_task_outstanding.
  - unfold task_cancelled, quiet in Hx. destruct (br_tasks b !! i) as [[wk req [|[tok|]| |]]|] eqn:Ht; try done.
    destruct (_ && _); [|done]. cbn in Hx. simplify_eq. cbn. rewrite !app_nil_r. symmetry. by eapply set_task_outstanding.
  - unfold task_send, quiet in Hx. destruct (br_tasks b !! i) as [[wk req []]|] eqn:Ht; try done.
    destruct (_ <? _)%nat; [|done]. cbn in Hx. simplify_eq. cbn. rewrite !app_nil_r.
    unfold outstanding, set_task. cbn [br_tasks br_with_responses]. rewrite Ht. cbn.
    rewrite (omap_insert unanswered _ _ _ _ Ht), (omap_lookup unanswered (br_tasks b) _ _ Ht), map_app. cbn.
    apply Permutation_app_head. rewrite (Permutation_app_comm (map resp_id _)), !app_assoc.
    by rewrite <- Permutation_cons_append.
  - unfold task_release, quiet in Hx. destruct (br_tasks b !! i) as [[wk req []]|] eqn:Ht; try done. cbn in Hx.
    destruct (vec_remove i (br_tasks b)) as [[t ts]|] eqn:Hv; [|done]. cbn in Hx. simplify_eq.
    apply vec_remove_delete in Hv as [Ht' ->]. cbn. rewrite !app_nil_r.
    destruct (release_same (rq_source_pid req) (br_with_tasks (delete i (br_tasks b)) b)) as (_ & H2 & H3 & H4 & _).
    unfold outstanding. rewrite H2, H3, H4. cbn. by rewrite (omap_lookup unanswered (br_tasks b) _ _ Ht).
Qed.

(** ** Runs *)

(** Induction over runs: the number of calls so far, the state and the events so far. *)
Lemma brun_invariant (ok : BCall V -> Prop) (P : nat -> Bridge V -> list (BEvent V) -> Prop) :
  (forall n c b b' pre evs, ok c -> P n b pre -> bexec c b = Some (b', evs) -> P (S n) b' (pre ++ evs)) ->
  forall cs n b pre b' evs, Forall ok cs -> P n b pre -> brun cs b = Some (b', evs) -> P (n + length cs)%nat b' (pre ++ evs).
Proof.
  intros Hstep cs. induction cs as [|c cs IH]; intros n b pre b' evs Hok HP Hr; cbn in Hr.
  - simplify_eq. by rewrite Nat.add_0_r, app_nil_r.
  - apply Forall_cons in Hok as [Hc Hok]. destruct (bexec c b) as [[b1 evs1]|] eqn:He; [|done]. cbn in Hr.
    destruct (brun cs b1) as [[b2 evs2]|] eqn:Hr2; [|done]. cbn in Hr. simplify_eq.
    rewrite app_assoc. cbn [length]. rewrite Nat.add_succ_r. by eapply (IH (S n)), Hr2; [|eapply Hstep].
Qed.

(** Sizes: both queues are bounded. *)
Lemma bexec_bounds c b b' evs :
  bexec c b = Some (b', evs) ->
  (length (br_requests b) <= REQUEST_QUEUE_SIZE)%nat /\ (length (br_responses b) <= RESPONSE_QUEUE_SIZE)%nat ->
  (length (br_requests b') <= REQUEST_QUEUE_SIZE)%nat /\ (length (br_responses b') <= RESPONSE_QUEUE_SIZE)%nat.
Proof.
  intros Hx [H1 H2]. destruct c as [pid op|i|pid| |timeout|w|w|i|i res|i|i|i]; cbn [bexec] in Hx.
  - unfold submit_begin in Hx. cbn in Hx. simplify_eq. cbn. destruct (is_destroy op); [done|].
    by destruct (reserve_same pid b) as (_ & -> & _ & -> & _).
  - destruct (vec_remove i (br_sending b)) as [[req sending]|]; [|done]. cbn [mbind option_bind] in Hx.
    pose proof (submit_end_spec req (br_with_sending sending b)) as Hs.
    destruct (submit_end req (br_with_sending sending b)) as [[cid|e] b1]; simplify_eq;
      destruct Hs as (_ & _ & -> & _ & _ & Hs).
    + destruct Hs as (_ & -> & _ & Hl). rewrite length_app. cbn in *. lia.
    + by destruct Hs as (-> & _).
  - simplify_eq. unfold cancel. destruct (_ !! _); [|done]. by case_bool_decide.
  - unfold drain_responses in Hx. simplify_eq. cbn. lia.
  - destruct (_ <? _)%nat eqn:Hl; [|done]. zify_bool. simplify_eq. unfold shutdown_begin. cbn.
    destruct (connected b); [|done]. cbn. rewrite length_app. cbn. lia.
  - unfold worker_recv, quiet in Hx. destruct (br_workers b !! w) as [[]|]; try done.
    destruct (br_requests b) as [|[req|t] reqs] eqn:Hr; try done; cbn in Hx, H1; simplify_eq; cbn; lia.
  - unfold worker_stop in Hx. destruct (br_workers b !! w) as [[]|]; try done. cbn in Hx. by simplify_eq.
  - unfold task_start, quiet, set_task in Hx. destruct (br_tasks b !! i) as [[wk req []]|]; try done. cbn in Hx. by simplify_eq.
  - unfold task_answer, quiet, set_task in Hx. destruct (br_tasks b !! i) as [[wk req []]|]; try done. cbn in Hx. by simplify_eq.
  - unfold task_cancelled, quiet, set_task in Hx. destruct (br_tasks b !! i) as [[wk req [|[tok|]| |]]|]; try done.
    destruct (_ && _); [|done]. cbn in Hx. by simplify_eq.
  - unfold task_send, quiet in Hx. destruct (br_tasks b !! i) as [[wk req []]|] eqn:Ht; try done.
    destruct (_ <? _)%nat eqn:Hl; [|done]. zify_bool. cbn in Hx. simplify_eq. unfold set_task. cbn [br_tasks br_with_responses].
    rewrite Ht. cbn. rewrite length_app. cbn. lia.
  - unfold task_release, quiet in Hx. destruct (br_tasks b !! i) as [[wk req []]|]; try done. cbn in Hx.
    destruct (vec_remove i (br_tasks b)) as [[t ts]|]; [|done]. cbn in Hx. simplify_eq.
    by destruct (release_same (rq_source_pid req) (br_with_tasks ts b)) as (_ & -> & _ & -> & _).
Qed.

(** The numbers given out so far are different, and the next one is new. *)
Definition numbers_fresh (n : nat) b evs : Prop :=
  let used := map rq_correlation_id (br_sending b) ++ map fst (accepted evs) in
  0 <= br_next_correlation_id b <= Z.of_nat n /\ NoDup used /\ Forall (fun c => c < br_next_correlation_id b) used.

Lemma numbers_fresh_quiet n b b' evs evs' :
  numbers_fresh n b evs -> br_sending b' = br_sending b -> br_next_correlation_id b' = br_next_correlation_id b ->
  accepted evs' = [] -> numbers_fresh (S n) b' (evs ++ evs').
Proof.
  intros (Hn & Hd & Hf) Hs Hc He. unfold numbers_fresh, accepted in *. rewrite omap_app, Hs, Hc, He, app_nil_r.
  split_and!; [lia|lia|done|done].
Qed.

Lemma set_task_sending i st b :
  br_sending (set_task i st b) = br_sending b /\ br_next_correlation_id (set_task i st b) = br_next_correlation_id b.
Proof. unfold set_task. by destruct (br_tasks b !! i). Qed.

Lemma bexec_fresh n c b b' pre evs :
  Z.of_nat n < u64_max -> numbers_fresh n b pre -> bexec c b = Some (b', evs) -> numbers_fresh (S n) b' (pre ++ evs).
Proof.
  intros Hn Hf Hx. destruct c as [pid op|i|pid| |timeout|w|w|i|i res|i|i|i]; cbn [bexec] in Hx.
  - destruct Hf as (Hnx & Hd & Hlt). unfold submit_begin in Hx.
    set (b0 := if is_destroy op then b else reserve_cancellation_slot pid b) in *.
    assert (br_sending b0 = br_sending b /\ br_next_correlation_id b0 = br_next_correlation_id b) as [Hs Hc].
    { subst b0. destruct (is_destroy op); [done|]. by destruct (reserve_same pid b) as (-> & _ & _ & _ & _ & -> & _). }
    cbn in Hx. simplify_eq. unfold numbers_fresh. cbn. rewrite Hs, Hc, app_nil_r, map_app.
    rewrite wrap64_small by (unfold is_u64; lia). split; [lia|]. cbn.
    assert (Hp : (map rq_correlation_id (br_sending b) ++ [br_next_correlation_id b]) ++ map fst (accepted pre) ≡ₚ
      br_next_correlation_id b :: (map rq_correlation_id (br_sending b) ++ map fst (accepted pre))) by solve_Permutation.
    rewrite Hp. split.
    + constructor; [|done]. intros Hin. rewrite Forall_forall in Hlt. apply Hlt in Hin. lia.
    + constructor; [lia|]. eapply Forall_impl; [exact Hlt|]. cbn. intros; lia.
  - destruct (vec_remove i (br_sending b)) as [[req sending]|] eqn:Hv; [|done]. cbn [mbind option_bind] in Hx.
    apply vec_remove_delete in Hv as [Hi ->]. destruct Hf as (Hnx & Hd & Hlt).
    pose proof (submit_end_spec req (br_with_sending (delete i (br_sending b)) b)) as Hs.
    assert (Hp : map rq_correlation_id (br_sending b) ++ map fst (accepted pre) ≡ₚ
      map rq_correlation_id (delete i (br_sending b)) ++ map fst (accepted pre ++ [req_id req])).
    { rewrite (delete_Permutation _ _ _ Hi) at 1. rewrite map_app. cbn. solve_Permutation. }
    destruct (submit_end req _) as [[cid|e] b1]; simplify_eq; destruct Hs as (Hse & _ & _ & Hc & _ & _);
      unfold numbers_fresh; rewrite Hse, Hc; cbn [br_sending br_with_sending br_next_correlation_id]; rewrite Hp in Hd, Hlt.
    + unfold accepted at 1 2. rewrite omap_app. split; [lia|]. by split.
    + rewrite map_app, app_assoc in Hd, Hlt. apply NoDup_app in Hd as [Hd _]. apply Forall_app in Hlt as [Hlt _].
      unfold accepted. rewrite omap_app. cbn. rewrite app_nil_r. split; [lia|]. by split.
  - simplify_eq. eapply numbers_fresh_quiet; [done|..|done]; unfold cancel; destruct (_ !! _); try done; by case_bool_decide.
  - unfold drain_responses in Hx. simplify_eq. eapply numbers_fresh_quiet; [done..|]. apply delivers_else.
  - destruct (_ <? _)%nat; [|done]. simplify_eq. eapply numbers_fresh_quiet; [done|..|done]; unfold shutdown_begin; cbn;
      by destruct (connected b).
  - unfold worker_recv, quiet in Hx. destruct (br_workers b !! w) as [[]|]; try done.
    destruct (br_requests b) as [|[req|t] reqs]; try done; cbn in Hx; simplify_eq; by eapply numbers_fresh_quiet.
  - unfold worker_stop in Hx. destruct (br_workers b !! w) as [[]|]; try done. cbn in Hx. simplify_eq.
    eapply numbers_fresh_quiet; [done..|]. apply delivered_aborts.
  - unfold task_start, quiet in Hx. destruct (br_tasks b !! i) as [[wk req []]|]; try done. cbn in Hx. simplify_eq.
    eapply numbers_fresh_quiet; [done|apply set_task_sending..|done].
  - unfold task_answer, quiet in Hx. destruct (br_tasks b !! i) as [[wk req []]|]; try done. cbn in Hx. simplify_eq.
    eapply numbers_fresh_quiet; [done|apply set_task_sending..|done].
  - unfold task_cancelled, quiet in Hx. destruct (br_tasks b !! i) as [[wk req [|[tok|]| |]]|]; try done.
    destruct (_ && _); [|done]. cbn in Hx. simplify_eq. eapply numbers_fresh_quiet; [done|apply set_task_sending..|done].
  - unfold task_send, quiet in Hx. destruct (br_tasks b !! i) as [[wk req []]|]; try done.
    destruct (_ <? _)%nat; [|done]. cbn in Hx. simplify_eq.
    eapply numbers_fresh_quiet; [done|rewrite (proj1 (set_task_sending _ _ _))|rewrite (proj2 (set_task_sending _ _ _))|]; done.
  - unfold task_release, quiet in Hx. destruct (br_tasks b !! i) as [[wk req []]|]; try done. cbn in Hx.
    destruct (vec_remove i (br_tasks b)) as [[t ts]|]; [|done]. cbn in Hx. simplify_eq.
    destruct (release_same (rq_source_pid req) (br_with_tasks ts b)) as (H1 & _ & _ & _ & _ & H2 & _).
    by eapply numbers_fresh_quiet.
Qed.

End conservation.

(** * Cancellation slots *)

Section slots.
Context {V : Type}.
Implicit Types (b : Bridge V) (evs : list (BEvent V)) (pid : AgentPid).

(** Everything a process has under way: in [submit], queued, or with a task. *)
Definition all_reqs b : list (IoRequest V) :=
  br_sending b ++ omap queued_req (br_requests b) ++ map tk_req (br_tasks b).
Definition of_pid pid (rs : list (IoRequest V)) : nat := length (retain (fun r => rq_source_pid r =? pid) rs).
Definition aborted_reqs evs : list (IoRequest V) := omap (fun e => match e with EAborted t => Some (tk_req t) | _ => None end) evs.

Definition in_flight pid b : Z := default 0 (ce_in_flight <$> br_cancellation b !! pid).
Definition token_of pid b : option nat := ce_token <$> br_cancellation b !! pid.

Lemma of_pid_app pid l1 l2 : of_pid pid (l1 ++ l2) = (of_pid pid l1 + of_pid pid l2)%nat.
Proof. unfold of_pid. by rewrite retain_app, length_app. Qed.

#[global] Instance of_pid_proper pid : Proper ((≡ₚ) ==> eq) (of_pid pid).
Proof.
  intros l1 l2 Hl. unfold of_pid, retain. induction Hl as [|x l1 l2 Hl IH|x y l1|l1 l2 l3 _ IH1 _ IH2]; cbn; [done| | |congruence].
  - destruct (_ =? _); cbn; lia.
  - by destruct (rq_source_pid x =? pid), (rq_source_pid y =? pid).
Qed.

Lemma of_pid_one pid req : of_pid pid [req] = if rq_source_pid req =? pid then 1%nat else 0%nat.
Proof. unfold of_pid, retain. cbn. by destruct (_ =? _). Qed.

(** The slots of [pid] agree with what it has under way; [gone] requests were aborted. *)
Record slots_ok (k : nat) pid b (gone : nat) : Prop := {
  so_count : match br_cancellation b !! pid with
             | Some e => ce_in_flight e = Z.of_nat (of_pid pid (all_reqs b) + gone) /\ 0 < ce_in_flight e
             | None => (of_pid pid (all_reqs b) + gone = 0)%nat
             end;
  so_ops : Forall (fun r => rq_source_pid r = pid -> is_destroy (rq_op r) = false) (all_reqs b);
  so_token : forall t o, t ∈ br_tasks b -> rq_source_pid (tk_req t) = pid -> tk_state t = TRunning o -> o = token_of pid b;
  so_bound : (of_pid pid (all_reqs b) + gone <= k)%nat
}.

(** A step that touches neither the slot nor the requests of the process. *)
Lemma slots_ok_same k pid b b' gone gone' :
  slots_ok k pid b gone -> br_cancellation b' !! pid = br_cancellation b !! pid ->
  (of_pid pid (all_reqs b') + gone' = of_pid pid (all_reqs b) + gone)%nat ->
  (forall r, r ∈ all_reqs b' -> rq_source_pid r = pid -> r ∈ all_reqs b) ->
  (forall t o, t ∈ br_tasks b' -> rq_source_pid (tk_req t) = pid -> tk_state t = TRunning o ->
     t ∈ br_tasks b \/ o = token_of pid b) ->
  slots_ok (S k) pid b' gone'.
Proof.
  intros [Hc Ho Ht Hb] He Hn Hr Htk. split.
  - rewrite He. destruct (br_cancellation b !! pid); [|lia]. by rewrite Hn.
  - rewrite Forall_forall in Ho |- *. auto.
  - intros t o Hin Hp Hs. unfold token_of. rewrite He. destruct (Htk t o Hin Hp Hs) as [Hold|Hold]; [by eapply Ht|done].
  - lia.
Qed.

Lemma reserve_other pid pid' b :
  pid' <> pid -> br_cancellation (reserve_cancellation_slot pid' b) !! pid = br_cancellation b !! pid.
Proof. intros Hne. unfold reserve_cancellation_slot. destruct (br_cancellation b !! pid'); cbn; by rewrite lookup_insert_ne. Qed.

Lemma release_other pid pid' b :
  pid' <> pid -> br_cancellation (release_cancellation_slot pid' b) !! pid = br_cancellation b !! pid.
Proof.
  intros Hne. unfold release_cancellation_slot. destruct (br_cancellation b !! pid'); [|done]. cbn.
  destruct (_ <? _); [by rewrite lookup_insert_ne|by rewrite lookup_delete_ne].
Qed.

(** Reserving: one more request of [pid]. *)
Lemma slots_ok_reserve k pid b b' req gone :
  slots_ok k pid b gone -> Z.of_nat k < u64_max -> is_destroy (rq_op req) = false -> rq_source_pid req = pid ->
  br_cancellation b' = br_cancellation (reserve_cancellation_slot pid b) ->
  all_reqs b' ≡ₚ req :: all_reqs b -> br_tasks b' = br_tasks b -> slots_ok (S k) pid b' gone.
Proof.
  intros [Hc Ho Ht Hb] Hk Hd Hp He Hr Htk.
  assert (Hcnt : of_pid pid (all_reqs b') = S (of_pid pid (all_reqs b))).
  { rewrite Hr. change (req :: all_reqs b) with ([req] ++ all_reqs b).
    rewrite of_pid_app, of_pid_one, Hp, Z.eqb_refl. done. }
  split.
  - rewrite He, Hcnt. unfold reserve_cancellation_slot. destruct (br_cancellation b !! pid) as [e|] eqn:Hl; cbn;
      rewrite lookup_insert_eq; cbn; [|lia]. destruct Hc as [Hc Hpos]. unfold sat_add64. rewrite Z.min_l by lia. lia.
  - rewrite Hr. by constructor.
  - intros t o Hin Hq Hs. rewrite Htk in Hin. rewrite (Ht t o Hin Hq Hs). unfold token_of. rewrite He.
    unfold reserve_cancellation_slot. destruct (br_cancellation b !! pid) as [e|] eqn:Hl; cbn; rewrite lookup_insert_eq; cbn; [done|].
    exfalso. assert (Hz : of_pid pid (all_reqs b) = 0%nat) by lia.
    apply list_elem_of_split in Hin as (l1 & l2 & Hl12). unfold all_reqs in Hz. rewrite Hl12, map_app, !of_pid_app in Hz.
    cbn [map] in Hz. change (tk_req t :: map tk_req l2) with ([tk_req t] ++ map tk_req l2) in Hz.
    rewrite of_pid_app, of_pid_one, Hq, Z.eqb_refl in Hz. lia.
  - lia.
Qed.

(** Releasing: one request of [pid] less. *)
Lemma slots_ok_release k pid b b' req gone :
  slots_ok k pid b gone -> rq_source_pid req = pid ->
  br_cancellation b' = br_cancellation (release_cancellation_slot pid b) ->
  req :: all_reqs b' ≡ₚ all_reqs b -> (forall t, t ∈ br_tasks b' -> t ∈ br_tasks b) -> slots_ok (S k) pid b' gone.
Proof.
  intros [Hc Ho Ht Hb] Hp He Hr Htk.
  assert (Hcnt : of_pid pid (all_reqs b) = S (of_pid pid (all_reqs b'))).
  { rewrite <- Hr. change (req :: all_reqs b') with ([req] ++ all_reqs b').
    rewrite of_pid_app, of_pid_one, Hp, Z.eqb_refl. done. }
  destruct (br_cancellation b !! pid) as [e|] eqn:Hl; [|lia]. destruct Hc as [Hc Hpos].
  assert (Hcan : br_cancellation b' !! pid =
    if 1 <? ce_in_flight e then Some (mkCancellationEntry (ce_token e) (ce_in_flight e - 1)) else None).
  { rewrite He. unfold release_cancellation_slot. rewrite Hl. cbn. destruct (_ <? _); [apply lookup_insert_eq|apply lookup_delete_eq]. }
  split.
  - rewrite Hcan. destruct (1 <? ce_in_flight e) eqn:H1; zify_bool; cbn; lia.
  - rewrite <- Hr in Ho. by apply Forall_cons in Ho as [_ Ho].
  - intros t o Hin Hq Hs. rewrite (Ht t o (Htk _ Hin) Hq Hs). unfold token_of. rewrite Hl, Hcan.
    destruct (1 <? ce_in_flight e) eqn:H1; [done|]. zify_bool. exfalso.
    assert (Hz : of_pid pid (all_reqs b') = 0%nat) by lia.
    apply list_elem_of_split in Hin as (l1 & l2 & Hl12). unfold all_reqs in Hz. rewrite Hl12, map_app, !of_pid_app in Hz.
    cbn [map] in Hz. change (tk_req t :: map tk_req l2) with ([tk_req t] ++ map tk_req l2) in Hz.
    rewrite of_pid_app, of_pid_one, Hq, Z.eqb_refl in Hz. lia.
  - lia.
Qed.

(** The state of one task changes. *)
Lemma slots_ok_task k pid b gone i st t :
  slots_ok k pid b gone -> br_tasks b !! i = Some t ->
  (forall o, st = TRunning o -> rq_source_pid (tk_req t) = pid -> o = token_of pid b) ->
  slots_ok (S k) pid (set_task i st b) gone.
Proof.
  intros Hok Ht Hst. unfold set_task. rewrite Ht.
  assert (Hreqs : map tk_req (<[i := mkTask (tk_worker t) (tk_req t) st]> (br_tasks b)) = map tk_req (br_tasks b)).
  { apply (list_eq (A := IoRequest V)). intros j. rewrite !list_lookup_fmap.
    destruct (decide (i = j)) as [<-|]; [|by rewrite list_lookup_insert_ne].
    rewrite list_lookup_insert_eq by (by eapply lookup_lt_Some). by rewrite Ht. }
  eapply slots_ok_same; [done|done|..]; unfold all_reqs; cbn [br_sending br_requests br_tasks br_with_tasks]; rewrite ?Hreqs; [done|done|].
  intros t' o Hin Hp Hs. apply list_elem_of_lookup in Hin as [j Hj].
  destruct (decide (i = j)) as [<-|]; [|rewrite list_lookup_insert_ne in Hj by done; left; by eapply list_elem_of_lookup_2].
  rewrite list_lookup_insert_eq in Hj by (by eapply lookup_lt_Some). simplify_eq/=. right. by apply Hst.
Qed.

Definition no_destroy_of pid (c : BCall V) : Prop :=
  match c with CBegin p op => p = pid -> is_destroy op = false | _ => True end.

Lemma aborted_reqs_app evs evs' : aborted_reqs (evs ++ evs') = aborted_reqs evs ++ aborted_reqs evs'.
Proof. apply omap_app. Qed.

Lemma slots_ok_begin k pid p op b gone :
  slots_ok k pid b gone -> Z.of_nat k < u64_max -> (p = pid -> is_destroy op = false) ->
  let '(req, b1) := submit_begin p op b in slots_ok (S k) pid (br_with_sending (br_sending b1 ++ [req]) b1) gone.
Proof.
  intros Hok Hk Hd. unfold submit_begin. cbn. set (b0 := if is_destroy op then b else reserve_cancellation_slot p b).
  set (req := mkIoRequest _ p op).
  assert (Hs : br_sending b0 = br_sending b /\ br_requests b0 = br_requests b /\ br_tasks b0 = br_tasks b).
  { subst b0. destruct (is_destroy op); [done|]. by destruct (reserve_same p b) as (-> & -> & -> & _). }
  destruct Hs as (Hs1 & Hs2 & Hs3).
  assert (Hr : all_reqs (br_with_sending (br_sending b0 ++ [req])
      (br_with_next_correlation_id (wrap64 (br_next_correlation_id b0 + 1)) b0)) ≡ₚ req :: all_reqs b).
  { unfold all_reqs. cbn. rewrite Hs1, Hs2, Hs3. solve_Permutation. }
  destruct (decide (p = pid)) as [->|Hne].
  - specialize (Hd eq_refl). eapply (slots_ok_reserve _ _ _ _ req); try done. subst b0. by rewrite Hd.
  - eapply slots_ok_same; [done|..].
    + subst b0. cbn. destruct (is_destroy op); [done|]. by apply reserve_other.
    + rewrite Hr. change (req :: all_reqs b) with ([req] ++ all_reqs b). rewrite of_pid_app, of_pid_one. cbn.
      apply Z.eqb_neq in Hne. by rewrite Hne.
    + intros r Hin Hp. rewrite Hr in Hin. by apply elem_of_cons in Hin as [->|Hin].
    + cbn. rewrite Hs3. auto.
Qed.

Lemma slots_ok_end k pid i b b' evs gone :
  slots_ok k pid b gone -> bexec (CEnd i) b = Some (b', evs) -> slots_ok (S k) pid b' gone /\ aborted_reqs evs = [].
Proof.
  intros Hok Hx. cbn [bexec] in Hx. destruct (vec_remove i (br_sending b)) as [[req sending]|] eqn:Hv; [|done].
  cbn [mbind option_bind] in Hx. apply vec_remove_delete in Hv as [Hi ->].
  pose proof (submit_end_spec req (br_with_sending (delete i (br_sending b)) b)) as Hs.
  pose proof (delete_Permutation _ _ _ Hi) as Hp.
  destruct (submit_end req _) as [[cid|e] b1]; simplify_eq; destruct Hs as (Hse & Htk & _ & _ & _ & Hs); (split; [|done]).
  - destruct Hs as (_ & Hrq & Hca & _).
    assert (Hr : all_reqs b' ≡ₚ all_reqs b).
    { unfold all_reqs. rewrite Hse, Htk, Hrq, omap_app. cbn. rewrite Hp at 2. solve_Permutation. }
    eapply slots_ok_same; [done|by rewrite Hca|by rewrite Hr|by intros r; rewrite Hr|rewrite Htk; auto].
  - destruct Hs as (Hrq & Hca).
    assert (Hr : req :: all_reqs b' ≡ₚ all_reqs b).
    { unfold all_reqs. rewrite Hse, Htk, Hrq. cbn. rewrite Hp at 2. solve_Permutation. }
    assert (Hin : req ∈ all_reqs b) by (rewrite <- Hr; left).
    destruct (decide (rq_source_pid req = pid)) as [Heq|Hne].
    + pose proof (so_ops _ _ _ _ Hok) as Ho. rewrite Forall_forall in Ho. rewrite (Ho req Hin Heq) in Hca.
      eapply (slots_ok_release _ _ _ _ req); [done|done| |done|by rewrite Htk]. rewrite Hca, Heq.
      unfold release_cancellation_slot. cbn. by destruct (br_cancellation b !! pid).
    + eapply slots_ok_same; [done|..].
      * rewrite Hca. destruct (is_destroy _); [done|]. rewrite release_other by done. done.
      * rewrite <- Hr. change (req :: all_reqs b') with ([req] ++ all_reqs b'). rewrite of_pid_app, of_pid_one.
        apply Z.eqb_neq in Hne. by rewrite Hne.
      * intros r Hin' _. rewrite <- Hr. by right.
      * rewrite Htk. auto.
Qed.

Lemma slots_ok_recv k pid w b b' gone :
  slots_ok k pid b gone -> worker_recv w b = Some b' -> slots_ok (S k) pid b' gone.
Proof.
  intros Hok Hx. unfold worker_recv in Hx. destruct (br_workers b !! w) as [[]|]; try done.
  destruct (br_requests b) as [|[req|t] reqs] eqn:Hr; try done; simplify_eq.
  - assert (Hall : all_reqs (br_with_tasks (br_tasks b ++ [mkTask w req TSpawned]) (br_with_requests reqs b)) ≡ₚ all_reqs b).
    { unfold all_reqs. cbn. rewrite Hr, map_app. cbn. solve_Permutation. }
    eapply slots_ok_same; [done|done|by rewrite Hall|by intros r; rewrite Hall|].
    cbn. intros t o [Hin|Hin]%elem_of_app _ Hs; [by left|]. apply list_elem_of_singleton in Hin as ->. done.
  - eapply slots_ok_same; [done|done|..]; unfold all_reqs; cbn; rewrite ?Hr; cbn; auto.
Qed.

Lemma slots_ok_stop k pid w b b' gone :
  slots_ok k pid b gone -> worker_stop w b = Some b' ->
  slots_ok (S k) pid b' (gone + of_pid pid (map tk_req (retain (aborts w) (br_tasks b)))).
Proof.
  intros Hok Hx. unfold worker_stop in Hx. destruct (br_workers b !! w) as [[]|]; try done. simplify_eq.
  assert (Hp : br_tasks b ≡ₚ retain (fun t => negb (aborts w t)) (br_tasks b) ++
                             retain (aborts w) (br_tasks b)).
  { unfold retain. induction (br_tasks b) as [|t l IH]; [done|]. cbn. destruct (aborts w t); cbn.
    - rewrite IH at 1. by rewrite <- Permutation_middle.
    - by rewrite IH at 1. }
  eapply slots_ok_same; [done|done|..]; unfold all_reqs; cbn [br_sending br_requests br_tasks br_with_tasks br_with_workers].
  - assert (Hsum : of_pid pid (map tk_req (br_tasks b)) =
      (of_pid pid (map tk_req (retain (fun t => negb (aborts w t)) (br_tasks b))) +
       of_pid pid (map tk_req (retain (aborts w) (br_tasks b))))%nat)
      by (by rewrite <- of_pid_app, <- map_app, <- Hp).
    rewrite !of_pid_app, Hsum. lia.
  - intros r Hin _. rewrite !elem_of_app in *. destruct Hin as [?|[?|Hin]]; [by left|by right; left|right; right].
    apply list_elem_of_fmap in Hin as (t & -> & Ht). apply list_elem_of_fmap. exists t. split; [done|].
    by apply elem_of_retain in Ht as [_ Ht].
  - intros t o Hin _ _. apply elem_of_retain in Hin as [_ Hin]. by left.
Qed.

Lemma slots_ok_finish k pid i b b' gone :
  slots_ok k pid b gone -> task_release i b = Some b' -> slots_ok (S k) pid b' gone.
Proof.
  intros Hok Hx. unfold task_release in Hx. destruct (br_tasks b !! i) as [[wk req []]|] eqn:Ht; try done.
  destruct (vec_remove i (br_tasks b)) as [[t ts]|] eqn:Hv; [|done]. cbn in Hx. simplify_eq.
  apply vec_remove_delete in Hv as [Ht' ->]. rewrite Ht in Ht'. simplify_eq.
  set (b1 := br_with_tasks (delete i (br_tasks b)) b).
  destruct (release_same (rq_source_pid req) b1) as (H1 & H2 & H3 & _).
  assert (Hr : req :: all_reqs (release_cancellation_slot (rq_source_pid req) b1) ≡ₚ all_reqs b).
  { unfold all_reqs. rewrite H1, H2, H3. cbn. rewrite (delete_Permutation _ _ _ Ht) at 2. cbn. solve_Permutation. }
  assert (Htk : forall t, t ∈ br_tasks (release_cancellation_slot (rq_source_pid req) b1) -> t ∈ br_tasks b).
  { intros t Hin. rewrite H3 in Hin. cbn in Hin. rewrite (delete_Permutation _ _ _ Ht). by right. }
  destruct (decide (rq_source_pid req = pid)) as [Heq|Hne].
  - eapply (slots_ok_release _ _ _ _ req); [done|done| |done|done]. rewrite Heq. unfold release_cancellation_slot. cbn.
    by destruct (br_cancellation b !! pid).
  - eapply slots_ok_same; [done|by rewrite release_other| | |by auto].
    + rewrite <- Hr. change (req :: ?l) with ([req] ++ l). rewrite of_pid_app, of_pid_one.
      apply Z.eqb_neq in Hne. by rewrite Hne.
    + intros r Hin _. rewrite <- Hr. by right.
Qed.

Lemma slots_ok_exec k pid c b b' pre evs :
  Z.of_nat k < u64_max -> no_destroy_of pid c -> slots_ok k pid b (of_pid pid (aborted_reqs pre)) ->
  bexec c b = Some (b', evs) -> slots_ok (S k) pid b' (of_pid pid (aborted_reqs (pre ++ evs))).
Proof.
  intros Hk Hc Hok Hx. rewrite aborted_reqs_app, of_pid_app.
  assert (Hquiet : forall o, quiet o = Some (b', evs) -> o = Some b' /\ aborted_reqs evs = []).
  { intros [b1|] Hq; [|done]. cbn in Hq. by simplify_eq. }
  assert (Hsame : forall b1, aborted_reqs evs = [] -> b' = b1 -> slots_ok (S k) pid b1 (of_pid pid (aborted_reqs pre)) ->
    slots_ok (S k) pid b' (of_pid pid (aborted_reqs pre) + of_pid pid (aborted_reqs evs))).
  { intros b1 -> -> H1. by rewrite Nat.add_0_r. }
  destruct c as [p op|i|p| |timeout|w|w|i|i res|i|i|i]; cbn [bexec] in Hx.
  - pose proof (slots_ok_begin k pid p op b _ Hok Hk Hc) as H1. destruct (submit_begin p op b) as [req b1].
    simplify_eq. by eapply Hsame.
  - destruct (slots_ok_end k pid i b b' evs _ Hok Hx) as [H1 He]. by eapply Hsame.
  - simplify_eq. eapply Hsame; [done|done|]. unfold cancel. destruct (br_cancellation b !! p); [case_bool_decide|];
      eapply slots_ok_same; try done; auto.
  - unfold drain_responses in Hx. simplify_eq. eapply Hsame; [|done|].
    + clear. induction (br_responses b) as [|r rs IH]; [done|exact IH].
    + eapply slots_ok_same; try done; auto.
  - destruct (_ <? _)%nat; [|done]. simplify_eq. eapply Hsame; [done|done|]. unfold shutdown_begin. cbn.
    destruct (connected b); cbn; (eapply slots_ok_same; [done|done|..]); unfold all_reqs; cbn; rewrite ?omap_app; cbn;
      rewrite ?app_nil_r; auto.
  - apply Hquiet in Hx as [Hx He]. eapply Hsame; [done|done|]. by eapply slots_ok_recv.
  - destruct (worker_stop w b) as [b1|] eqn:Hs; [|done]. cbn in Hx. simplify_eq.
    pose proof (slots_ok_stop k pid w b b' _ Hok Hs) as H1.
    assert (aborted_reqs (map EAborted (retain (aborts w) (br_tasks b))) =
            map tk_req (retain (aborts w) (br_tasks b))) as ->; [|done].
    clear. induction (retain _ _) as [|t l IH]; [done|]. cbn. f_equal. exact IH.
  - apply Hquiet in Hx as [Hx He]. eapply Hsame; [done|done|]. unfold task_start in Hx.
    destruct (br_tasks b !! i) as [[wk req []]|] eqn:Ht; try done. simplify_eq. eapply slots_ok_task; [done|done|].
    cbn. intros o Ho Hp. simplify_eq. done.
  - apply Hquiet in Hx as [Hx He]. eapply Hsame; [done|done|]. unfold task_answer in Hx.
    destruct (br_tasks b !! i) as [[wk req []]|] eqn:Ht; try done. simplify_eq. by eapply slots_ok_task.
  - apply Hquiet in Hx as [Hx He]. eapply Hsame; [done|done|]. unfold task_cancelled in Hx.
    destruct (br_tasks b !! i) as [[wk req [|[tok|]| |]]|] eqn:Ht; try done. destruct (_ && _); [|done].
    simplify_eq. by eapply slots_ok_task.
  - apply Hquiet in Hx as [Hx He]. eapply Hsame; [done|done|]. unfold task_send in Hx.
    destruct (br_tasks b !! i) as [[wk req []]|] eqn:Ht; try done. destruct (_ <? _)%nat; [|done]. simplify_eq.
    eapply slots_ok_task; [|exact Ht|done]. destruct Hok. by split.
  - apply Hquiet in Hx as [Hx He]. eapply Hsame; [done|done|]. by eapply slots_ok_finish.
Qed.

Lemma slots_ok_run pid n cs b evs :
  Forall (no_destroy_of pid) cs -> Z.of_nat (length cs) <= u64_max ->
  brun cs (create_bridge_pool n) = Some (b, evs) -> slots_ok (length cs) pid b (of_pid pid (aborted_reqs evs)).
Proof.
  intros Hcs Hn Hr.
  set (P := fun k b evs => Z.of_nat k <= u64_max -> slots_ok k pid b (of_pid pid (aborted_reqs evs))).
  assert (HP : P (0 + length cs)%nat b ([] ++ evs)); [|by apply HP].
  apply (brun_invariant (no_destroy_of pid) P) with (cs := cs) (b := create_bridge_pool n); [|done| |done].
  - intros k c b0 b1 pre evs0 Hc IH Hx Hk. eapply slots_ok_exec; [lia|done|apply IH; lia|done].
  - intros _. split; [done|constructor|by intros ? ? ?%not_elem_of_nil|cbn; lia].
Qed.

(** Cancellation slots are exact.  A process that does not ask for destructions has, at
    every point of every interleaving, a slot count equal to the number of its requests
    that are being submitted, are queued or are with a task (or were thrown away by a
    worker that shut down), and no entry when there are none: the table does not leak, and
    an entry is not dropped while something could still be cancelled. *)
Theorem bridge_slots_exact pid n cs b evs :
  Forall (no_destroy_of pid) cs -> Z.of_nat (length cs) <= u64_max ->
  brun cs (create_bridge_pool n) = Some (b, evs) ->
  in_flight pid b = Z.of_nat (of_pid pid (all_reqs b) + of_pid pid (aborted_reqs evs)) /\
  (is_Some (br_cancellation b !! pid) <-> 0 < in_flight pid b).
Proof.
  intros Hcs Hn Hr. pose proof (so_count _ _ _ _ (slots_ok_run pid n cs b evs Hcs Hn Hr)) as Hc.
  unfold in_flight. destruct (br_cancellation b !! pid) as [e|]; cbn.
  - destruct Hc. split; [done|]. split; [done|eauto].
  - split; [lia|]. split; [by intros []|lia].
Qed.

End slots.

(** * A bridge at work *)

Module BridgeWitness.

Definition p1 : AgentPid := 2147483648.
Definition p2 : AgentPid := 2147483649.
Definition timer : IoOp nat := Timer 5.

(** Two requests of one process and one of another; one answered, one cancelled. *)
Definition session : list (BCall nat) :=
  [CBegin p1 timer; CBegin p2 timer; CEnd 0; WRecv 0; TStart 0; CEnd 0; CBegin p1 timer; CEnd 0; WRecv 1; WRecv 0;
   TAnswer 0 (IoOk 7%nat); TSend 0; CDrain; TStart 2; CCancel p1].
Definition state : Bridge nat := match brun session (create_bridge_pool 2) with Some (b, _) => b | None => create_bridge_pool 2 end.
Definition events : list (BEvent nat) :=
  [EAccepted (mkIoRequest 0 p1 timer); EAccepted (mkIoRequest 1 p2 timer); EAccepted (mkIoRequest 2 p1 timer);
   EDelivered (mkIoResponse 0 p1 (IoOk 7%nat))].

Lemma session_runs : brun session (create_bridge_pool 2) = Some (state, events).
Proof. vm_compute. reflexivity. Qed.

Lemma session_short : Z.of_nat (length session) <= u64_max.
Proof. vm_compute. discriminate. Qed.


Lemma session_clean : Forall (no_destroy_of p1) session.
Proof. repeat constructor. Qed.

Lemma bridge_slots_exact_witness : in_flight p1 state = 2 /\ is_Some (br_cancellation state !! p1).
Proof.
  destruct (bridge_slots_exact p1 2 session state events session_clean session_short session_runs) as [H1 H2].
  split; [exact H1|]. apply H2. exact (eq_ind_r (fun z => 0 < z) (eq_refl : 0 < 2) H1).
Defined.

Definition session0 : list (BCall nat) := take 14 session.
Definition state0 : Bridge nat := match brun session0 (create_bridge_pool 2) with Some (b, _) => b | None => create_bridge_pool 2 end.


(** A destruction reserves no slot, but its task releases one: with a timer of the same
    process under way, the entry goes, and the timer can no longer be cancelled. *)
Definition with_destroy : list (BCall nat) :=
  [CBegin p1 timer; CEnd 0; WRecv 0; TStart 0; CBegin p1 (AgentDestroy p2); CEnd 0; WRecv 0; TStart 1;
   TAnswer 1 (IoOk 0%nat); TSend 1; TRelease 1].

Lemma destroy_releases_a_foreign_slot :
  match brun with_destroy (create_bridge_pool 1) with
  | Some (b, _) => br_tasks b = [mkTask 0 (mkIoRequest 0 p1 timer) (TRunning (Some 0%nat))] /\
                   in_flight p1 b = 0 /\ (cancel p1 b).1 = false
  | None => False
  end.
Proof. vm_compute. by split_and!. Qed.

(** A token is never replaced while an entry lives: what a process submits after it was
    cancelled can be timed out before its operation does anything. *)
Lemma requests_after_cancel_start_cancelled :
  match brun [CBegin p1 timer; CEnd 0; CCancel p1; CBegin p1 timer; CEnd 0; WRecv 0; WRecv 0; TStart 1; TCancelled 1]
    (create_bridge_pool 1) with
  | Some (b, _) => tk_state <$> br_tasks b !! 1%nat = Some (TAnswered IoTimeout)
  | None => False
  end.
Proof. vm_compute. reflexivity. Qed.
End BridgeWitness.
