(* ===== verification/Cluster.v ===== *)
(** Several schedulers side by side ([agent_rt/cluster.rs]): processes are placed round robin,
    messages to a process of another partition are routed, one pool of bridge workers serves all.

    The counters of pids and monitor references, the clock and the state behind the bridge
    handles are shared: the cluster holds them, lends them to a partition for a call and
    takes them back after it. *)
From S2P Require Import Prelude Types Process DeadLetter Scheduler SchedFacts SchedWake SchedTerm SchedMonitor Bridge.

Record SchedulerCluster (V B St Br Hk H : Type) : Type := mkCluster {
  c_schedulers : list (AgentScheduler V B St Br Hk H);
  c_pid_owner : gmap AgentPid nat;
  c_next_spawn_partition : nat;
  c_next_tick_partition : nat;
  c_shared_bridge_shutdown_handle : option Br;   (* with what all its clones share *)
  c_shared_bridge_workers : nat;
  c_next_pid : Z;   (* the process-wide NEXT_AGENT_PID *)
  c_next_ref : Z;   (* the process-wide NEXT_MONITOR_REF *)
  c_clock_reads : nat
}.
Arguments mkCluster {V B St Br Hk H}.
Arguments c_schedulers {V B St Br Hk H}.
Arguments c_pid_owner {V B St Br Hk H}.
Arguments c_next_spawn_partition {V B St Br Hk H}.
Arguments c_next_tick_partition {V B St Br Hk H}.
Arguments c_shared_bridge_shutdown_handle {V B St Br Hk H}.
Arguments c_shared_bridge_workers {V B St Br Hk H}.
Arguments c_next_pid {V B St Br Hk H}.
Arguments c_next_ref {V B St Br Hk H}.
Arguments c_clock_reads {V B St Br Hk H}.

(** What the cluster itself does with the bridge: making a pool, and the shutdown of the one
    handle that has it enabled.  The schedulers' handles are the class [BridgeOps]. *)
Class BridgePool (Br : Type) : Type := {
  make_pool : nat -> Br;
  pool_shutdown : Duration -> Br -> result unit string * Br
}.

#[export] Instance bridge_pool {V} `{WorkerAck V} : BridgePool (Bridge V) := {
  make_pool := create_bridge_pool;
  pool_shutdown := handle_shutdown true
}.

Section cluster.
Context {V B St Br Hk H W : Type} `{AB : AgentBehavior V B St W} `{BO : BridgeOps V Br} `{BP : BridgePool Br}.
Context `{MH : MessageHook V Hk W} `{EH : ExitHandler V B St Br Hk H W} `{CK : Clock} `{HO : HashOrder}.
Abbreviation Sched := (AgentScheduler V B St Br Hk H).
Abbreviation Cluster := (SchedulerCluster V B St Br Hk H).
Implicit Types (c : Cluster) (s : Sched) (w : W) (pid : AgentPid).

(** ** What is shared *)

Definition with_schedulers (x : list Sched) c : Cluster :=
  mkCluster x (c_pid_owner c) (c_next_spawn_partition c) (c_next_tick_partition c) (c_shared_bridge_shutdown_handle c)
    (c_shared_bridge_workers c) (c_next_pid c) (c_next_ref c) (c_clock_reads c).
Definition with_owner (x : gmap AgentPid nat) c : Cluster :=
  mkCluster (c_schedulers c) x (c_next_spawn_partition c) (c_next_tick_partition c) (c_shared_bridge_shutdown_handle c)
    (c_shared_bridge_workers c) (c_next_pid c) (c_next_ref c) (c_clock_reads c).
Definition with_next (spawn_partition tick_partition : nat) c : Cluster :=
  mkCluster (c_schedulers c) (c_pid_owner c) spawn_partition tick_partition (c_shared_bridge_shutdown_handle c)
    (c_shared_bridge_workers c) (c_next_pid c) (c_next_ref c) (c_clock_reads c).
Definition with_pool (handle : option Br) (workers : nat) c : Cluster :=
  mkCluster (c_schedulers c) (c_pid_owner c) (c_next_spawn_partition c) (c_next_tick_partition c) handle workers
    (c_next_pid c) (c_next_ref c) (c_clock_reads c).

(** A partition that has a handle sees the bridge as it is now. *)
Definition lend c s : Sched :=
  upd_clock_reads (c_clock_reads c) (upd_next_ref (c_next_ref c) (upd_next_pid (c_next_pid c)
    (upd_bridge (_ ← s_bridge s; c_shared_bridge_shutdown_handle c) s))).
Definition put_back (idx : nat) s c : Cluster :=
  mkCluster (<[idx := s]> (c_schedulers c)) (c_pid_owner c) (c_next_spawn_partition c) (c_next_tick_partition c)
    (match s_bridge s with Some br => Some br | None => c_shared_bridge_shutdown_handle c end)
    (c_shared_bridge_workers c) (s_next_pid s) (s_next_ref s) (s_clock_reads s).

(** A call on [schedulers[idx]]: [None] when there is no such partition (a panic), or when the
    call itself does not return. *)
Definition on_partition {A} (idx : nat) (f : Sched -> W -> option (A * Sched * W)) c w : option (A * Cluster * W) :=
  s ← c_schedulers c !! idx; '(a, s, w) ← f (lend c s) w; Some (a, put_back idx s c, w).

(** ** The operations *)

Definition cluster_new (partitions : nat) (next_pid next_ref : Z) : Cluster :=
  mkCluster (replicate (Nat.max partitions 1) (set_external_routing true (scheduler_new next_pid next_ref)))
    ∅ 0 0 None 0 next_pid next_ref 0.

Definition scheduler_count c : nat := length (c_schedulers c).
Definition cluster_scheduler (idx : nat) c : option Sched := c_schedulers c !! idx.
Definition owner_of pid c : option nat := c_pid_owner c !! pid.

Definition attach_shared_bridge (bridge : Br) c : Cluster :=
  let c := with_pool (Some bridge) (if (c_shared_bridge_workers c =? 0)%nat then 1 else c_shared_bridge_workers c) c in
  with_schedulers (set_bridge bridge <$> c_schedulers c) c.

Definition create_shared_bridge_pool (worker_count : nat) c : Cluster :=
  let worker_count := Nat.max worker_count 1 in
  attach_shared_bridge (make_pool worker_count) (with_pool (c_shared_bridge_shutdown_handle c) worker_count c).

Definition spawn_on (partition : nat) (behavior : B) (args : V) c w : result AgentPid Reason * Cluster * W :=
  match on_partition partition (fun s w => Some (spawn behavior args s w)) c w with
  | None => (Err (CustomReason ("invalid partition " +:+ pretty partition)), c, w)
  | Some (Err e, c, w) => (Err e, c, w)
  | Some (Ok pid, c, w) => (Ok pid, with_owner (<[pid := partition]> (c_pid_owner c)) c, w)
  end.

Definition cluster_spawn (behavior : B) (args : V) c w : result AgentPid Reason * Cluster * W :=
  let idx := (c_next_spawn_partition c mod scheduler_count c)%nat in
  let c := with_next ((c_next_spawn_partition c + 1) mod scheduler_count c) (c_next_tick_partition c) c in
  spawn_on idx behavior args c w.

(** The pids of the partitions, each with its partition. *)
Definition residents c : list (AgentPid * nat) :=
  mjoin (imap (fun idx s => map (fun pid => (pid, idx)) (registry_pids (s_registry s))) (c_schedulers c)).

Definition reconcile_pid_map c : Cluster :=
  let seen : gset AgentPid := list_to_set (residents c).*1 in
  let owner := foldl (fun m '(pid, idx) => <[pid := idx]> m) (c_pid_owner c) (residents c) in
  with_owner (filter (fun kv => kv.1 ∈ seen) owner) c.

Definition not_in_cluster pid : string := "Process " +:+ show_pid pid +:+ " not found in cluster".

Definition cluster_enqueue pid c w : option (result unit string * Cluster * W) :=
  let c := reconcile_pid_map c in
  match c_pid_owner c !! pid with
  | None => Some (Err (not_in_cluster pid), c, w)
  | Some idx => on_partition idx (fun s w => Some (Ok tt, enqueue pid s, w)) c w
  end.

Definition cluster_send (to : AgentPid) (msg : Message V) c w : option (result unit string * Cluster * W) :=
  let c := reconcile_pid_map c in
  match c_pid_owner c !! to with
  | None => Some (Err (not_in_cluster to), c, w)
  | Some idx => on_partition idx (fun s w => Some (send to msg s w)) c w
  end.

(** The loop over the drained messages: how many were taken. *)
Definition route (outbound : list (AgentPid * Message V)) c w : option (nat * Cluster * W) :=
  fold_opt (fun '(routed, c, w) '(to, msg) =>
      '(res, c, w) ← cluster_send to msg c w;
      Some (if is_ok res then S routed else routed, c, w)) (O, c, w) outbound.

Definition outbound_of c : list (AgentPid * Message V) := mjoin (s_outbound_messages <$> c_schedulers c).

Definition route_outbound_messages c w : option (nat * Cluster * W) :=
  route (outbound_of c) (with_schedulers ((fun s => (drain_outbound_messages s).2) <$> c_schedulers c) c) w.

(** The rounds of [tick] over the partitions, from the one whose turn it is. *)
Definition tick_partitions (fuel : nat) (idxs : list nat) c w : option (bool * Cluster * W) :=
  fold_opt (fun '(did_work, c, w) idx =>
      '(worked, c, w) ← on_partition idx (tick fuel) c w;
      Some (did_work || worked, c, w)) (false, c, w) idxs.

Definition tick_order c : list nat :=
  map (fun offset => (c_next_tick_partition c + offset) mod scheduler_count c)%nat (seq 0 (scheduler_count c)).

Definition cluster_tick (fuel : nat) c w : option (bool * Cluster * W) :=
  '(did_work, c, w) ← tick_partitions fuel (tick_order c) c w;
  let c := with_next (c_next_spawn_partition c) ((c_next_tick_partition c + 1) mod scheduler_count c) c in
  '(routed, c, w) ← route_outbound_messages c w;
  Some (did_work || (0 <? routed)%nat, reconcile_pid_map c, w).

(** [shutdown] once per worker, until one fails. *)
Fixpoint shutdown_pool (rounds : nat) (timeout : Duration) (br : Br) : Br :=
  match rounds with
  | O => br
  | S rounds => match pool_shutdown timeout br with (Ok _, br) => shutdown_pool rounds timeout br | (Err _, br) => br end
  end.

(** The second component is what became of the pool. *)
Definition cluster_shutdown (fuel : nat) (timeout : Duration) c w : option (Cluster * option Br * W) :=
  let pool := shutdown_pool (Nat.max (c_shared_bridge_workers c) 1) timeout <$> c_shared_bridge_shutdown_handle c in
  let c := match pool with
    | Some _ => with_pool None 0 (with_schedulers (clear_bridge <$> c_schedulers c) c)
    | None => c
    end in
  '(c, w) ← fold_opt (fun '(c, w) idx =>
      '(_, c, w) ← on_partition idx (fun s w => '(s, w) ← Scheduler.graceful_shutdown fuel timeout s w; Some (tt, s, w)) c w;
      Some (c, w)) (c, w) (seq 0 (scheduler_count c));
  Some (with_owner ∅ c, pool, w).

(** ** Calls on a cluster

    [scheduler_mut] gives the runtime every call on a partition. *)

Inductive ClusterCall : Type :=
| KTick
| KSpawn (behavior : B) (args : V)
| KSpawnOn (partition : nat) (behavior : B) (args : V)
| KEnqueue (pid : AgentPid)
| KSend (to : AgentPid) (msg : Message V)
| KPool (worker_count : nat)
| KBridge (br : Br)                                  (* the workers change what is shared *)
| KPartition (idx : nat) (call : SchedCall V B Br Hk H).

Definition cluster_exec (fuel : nat) (call : ClusterCall) c w : option (Cluster * W) :=
  match call with
  | KTick => '(_, c, w) ← cluster_tick fuel c w; Some (c, w)
  | KSpawn behavior args => let '(_, c, w) := cluster_spawn behavior args c w in Some (c, w)
  | KSpawnOn partition behavior args => let '(_, c, w) := spawn_on partition behavior args c w in Some (c, w)
  | KEnqueue pid => '(_, c, w) ← cluster_enqueue pid c w; Some (c, w)
  | KSend to msg => '(_, c, w) ← cluster_send to msg c w; Some (c, w)
  | KPool worker_count => Some (create_shared_bridge_pool worker_count c, w)
  | KBridge br => Some (with_pool (_ ← c_shared_bridge_shutdown_handle c; Some br) (c_shared_bridge_workers c) c, w)
  | KPartition idx call =>
      '(_, c, w) ← on_partition idx (fun s w => '(s, w) ← sched_exec fuel call s w; Some (tt, s, w)) c w; Some (c, w)
  end.

Definition cluster_run (fuel : nat) (calls : list ClusterCall) c w : option (Cluster * W) :=
  fold_opt (fun '(c, w) call => cluster_exec fuel call c w) (c, w) calls.
End cluster.
Arguments ClusterCall V B Br Hk H : clear implicits.
