(* ===== verification/ClusterFacts.v ===== *)
(** What holds of a cluster: every process lives in one partition, and the cluster knows in which;
    messages between partitions arrive; a tick returns. *)
From S2P Require Import Prelude Types Process DeadLetter Scheduler SchedFacts SchedWake SchedSample SchedTerm SchedMonitor Bridge Cluster.

(** * Which pids a scheduler adds *)

Section grows.
Context {V B St Br Hk H W : Type} `{AB : AgentBehavior V B St W} `{BO : BridgeOps V Br}.
Context `{MH : MessageHook V Hk W} `{EH : ExitHandler V B St Br Hk H W} `{CK : Clock} `{HO : HashOrder}.
Abbreviation Sched := (AgentScheduler V B St Br Hk H).
Implicit Types (s : Sched) (w : W).

(** New processes have new pids, and the counters only go up. *)
Record grows s s' : Prop := {
  gr_pids : forall x, is_Some (lookup_proc x s') -> is_Some (lookup_proc x s) \/ s_next_pid s <= x;
  gr_next : s_next_pid s <= s_next_pid s';
  gr_refs : s_next_ref s <= s_next_ref s'
}.

#[export] Instance grows_preorder : PreOrder grows.
Proof.
  split; [by intros s; split; [left|lia..]|]. intros s1 s2 s3 [A1 B1 C1] [A2 B2 C2]. split; [|lia..].
  intros x Hx. destruct (A2 x Hx) as [H2|]; [|right; lia]. by apply A1.
Qed.

Lemma grows_calm s s' : calm s s' -> grows s s'.
Proof. intros Hc. pose proof Hc as (_ & _ & Er & Ep). split; [|lia..]. intros x. rewrite calm_registered by done. by left. Qed.

Lemma grows_alter f pid s : grows s (alter_proc f pid s).
Proof. split; [|cbn; lia..]. intros x. rewrite registered_alter. by left. Qed.

Lemma grows_spawn b args s w : room 1 s -> grows s (spawn b args s w).1.2.
Proof.
  intros Hr. unfold spawn. assert (Ew : wrap64 (s_next_pid s + 1) = s_next_pid s + 1)
    by (apply wrap64_small; unfold room, is_u64 in *; lia).
  pose proof (registry_spawn_cases b args (s_registry s) (s_next_pid s) w) as Hc.
  destruct (registry_spawn _ _ _ _ _) as [[[[pid|e] reg] next] w']; cbn.
  - destruct Hc as (-> & -> & _ & st & Hreg). split; cbn; [|lia..]. intros x. unfold lookup_proc, registry_lookup. cbn.
    rewrite Hreg, lookup_insert. case_decide; [right; lia|by left].
  - destruct Hc as [-> ->]. split; cbn; [by left|lia..].
Qed.

Lemma grows_monitor watcher target s : room 1 s -> grows s (monitor watcher target s).2.
Proof.
  intros Hr. assert (Ew : wrap64 (s_next_ref s + 1) = s_next_ref s + 1) by (apply wrap64_small; unfold room, is_u64 in *; lia).
  unfold monitor. destruct (lookup_proc watcher s); [|done]. destruct (lookup_proc target s); [|done]. cbn.
  etrans; [|apply grows_alter]. etrans; [|apply grows_alter]. split; cbn; [by left|lia|lia].
Qed.

Lemma grows_spawn_pending pid req s w : mon_inv s -> room 1 s -> grows s (spawn_pending pid req s w).1.
Proof.
  intros Hi Hr. destruct req as [[[b args] link] mon]. unfold spawn_pending. pose proof (grows_spawn b args s w Hr) as H1.
  destruct (mon_inv_spawn 0 b args s w Hi) as (_ & Ep & Er & _); [done|lia|].
  destruct (spawn b args s w) as [[[child|e] s1] w1]; cbn in *; [|done].
  set (s2 := if link then link_pair pid child s1 else s1).
  assert (H2 : grows s s2 /\ s_next_ref s2 = s_next_ref s /\ s_next_pid s2 = s_next_pid s1).
  { unfold s2. destruct link; [|done]. split; [|done]. etrans; [exact H1|]. unfold link_pair. etrans; [apply grows_alter|apply grows_alter]. }
  clearbody s2. destruct H2 as (H2 & Er2 & Ep2). destruct (if mon then _ else _) as [mref s3] eqn:Hm.
  assert (H3 : grows s s3).
  { etrans; [exact H2|]. destruct mon; [|by simplify_eq].
    assert (wrap64 (s_next_ref s2 + 1) = s_next_ref s2 + 1) as Ew by (apply wrap64_small; unfold room, is_u64 in *; lia).
    unfold monitor in Hm. destruct (lookup_proc pid s2); [|by simplify_eq]. destruct (lookup_proc child s2); [|by simplify_eq].
    cbn in Hm. simplify_eq. etrans; [|apply grows_alter]. etrans; [|apply grows_alter]. split; cbn; [by left|lia|lia]. }
  pose proof (calm_send pid (System (SpawnResult child mref)) s3 w1) as Hs. destruct (send _ _ _ _) as [[r s4] w4]. cbn in *.
  etrans; [exact H3|]. apply grows_calm. etrans; [exact Hs|apply calm_enqueue].
Qed.

Lemma grows_spawn_all pid reqs s w : mon_inv s -> room (Z.of_nat (length reqs)) s -> grows s (spawn_all pid reqs s w).1.
Proof.
  unfold spawn_all. revert s w. induction reqs as [|r reqs IH]; intros s w Hi Hr; [done|]. cbn [foldl length] in *.
  pose proof (grows_spawn_pending pid r s w Hi) as H1.
  destruct (mon_inv_spawn_pending (Z.of_nat (length reqs)) pid r s w Hi) as [Hi1 Hr1]; [|lia|].
  { by replace (Z.of_nat (length reqs) + 1) with (Z.of_nat (Datatypes.S (length reqs))) by lia. }
  destruct (spawn_pending pid r s w) as [s1 w1]. cbn in *. etrans; [apply H1; unfold room in *; lia|]. by apply IH.
Qed.

Lemma grows_terminate fuel pid reason s w s' w' : mon_inv s -> room 0 s -> s_exit_handlers s = [] ->
  terminate_process fuel pid reason s w = Some (s', w') -> grows s s'.
Proof.
  intros Hi Hr He Ht. destruct (terminate_counters _ _ _ _ _ _ _ He Ht) as [En Er].
  apply terminate_cascaded in Ht as [[F _ _ _] _]; [|done]. split; [|lia..]. intros x Hx. left.
  assert (attrs x s' <> None) as Hn by (unfold attrs; destruct Hx as [p ->]; done).
  destruct (F x) as [E|E]; [|done]. unfold attrs in *. destruct (lookup_proc x s); [done|]. by rewrite E in Hn.
Qed.

Lemma grows_tick fuel s w b s' w' : mon_inv s -> room 19 s -> s_exit_handlers s = [] -> tick fuel s w = Some (b, s', w') -> grows s s'.
Proof.
  intros Hi Hr He Ht. unfold tick in Ht. pose proof (calm_prepare s w) as H1. destruct (prepare s w) as [s1 w1]. cbn in H1.
  assert (Hfuel : (length (queued s1) < select_fuel s1)%nat) by (unfold select_fuel; lia).
  pose proof (select_runnable_spec (select_fuel s1) s1 Hfuel) as Hsp. pose proof (calm_select (select_fuel s1) s1) as H2.
  destruct (select_runnable_frame (select_fuel s1) s1) as (Hreg & _).
  destruct (select_runnable (select_fuel s1) s1) as [[pid|] s2]; cbn in Hreg, H2; [|simplify_eq; apply grows_calm; by etrans].
  destruct Hsp as (_ & Hrun & _). unfold is_runnable in Hrun. destruct (lookup_proc pid s1) as [p|] eqn:Hp; [|done].
  assert (Hp2 : lookup_proc pid s2 = Some p) by (unfold lookup_proc in *; congruence).
  destruct (dispatch_quantum pid s2 w1 p Hp2) as (d & s4 & w4 & Hd & Hb). rewrite Hd in Ht. cbn in Ht.
  apply calm_dispatch in Hd. destruct (finish fuel pid d s4 w4) as [[s9 w9]|] eqn:Hf; [|done]. simplify_eq/=.
  unfold finish in Hf. pose proof (calm_deferred pid d s4 w4) as H7. cbn zeta in H7. destruct (send_all _ _ _) as [s7 w7].
  assert (Hc : calm s s7). { etrans; [exact H1|]. etrans; [exact H2|]. etrans; [|exact H7]. etrans; [|exact Hd]. by apply calm_alter. }
  etrans; [by apply grows_calm|]. pose proof Hc as (_ & He7 & _). rewrite He in He7.
  apply (mon_inv_calm s s7 Hc) in Hi. apply (room_calm _ s s7 Hc) in Hr.
  pose proof (grows_spawn_all pid (d_spawns d) s7 w7 Hi) as G8.
  destruct (mon_inv_spawn_all 0 pid (d_spawns d) s7 w7 Hi) as [Hi8 Hr8]; [eapply room_mono; [|done]; lia|done|].
  destruct (spawn_all_linked pid (d_spawns d) s7 w7) as [_ He8].
  destruct (spawn_all pid (d_spawns d) s7 w7) as [s8 w8]. cbn in *.
  etrans; [apply G8; eapply room_mono; [|exact Hr]; lia|]. destruct (d_stop d) as [reason|]; [|by simplify_eq].
  eapply grows_terminate; [exact Hi8|exact Hr8|congruence|exact Hf].
Qed.

Lemma grows_exec fuel call s w s' w' : mon_inv s -> room 19 s -> s_exit_handlers s = [] ->
  sched_exec fuel call s w = Some (s', w') -> grows s s'.
Proof.
  intros Hi Hr He Hx. destruct call as [|to msg|b args prio|pid reason|wa ta|wa mr|pid dur|a b|pid tr|br|hk|en| |h];
    cbn [sched_exec] in Hx; simplify_eq; try (by apply grows_calm, calm_registry); try apply grows_alter.
  - destruct (tick fuel s w) as [[[b s1] w1]|] eqn:Ht; [|done]. simplify_eq/=. by eapply grows_tick.
  - pose proof (calm_send to msg s w) as Hs. destruct (send to msg s w) as [[? ?] ?]. simplify_eq. by apply grows_calm.
  - unfold spawn_enqueued in Hx. pose proof (grows_spawn b args s w) as G.
    destruct (spawn b args s w) as [[[pid|e] s1] w1]; simplify_eq; cbn in G; [|apply G; eapply room_mono; [|done]; lia].
    etrans; [apply G; eapply room_mono; [|done]; lia|]. etrans; [apply grows_alter|apply grows_calm, calm_enqueue].
  - eapply grows_terminate; [exact Hi| |exact He|exact Hx]. eapply room_mono; [|done]. lia.
  - apply grows_monitor. eapply room_mono; [|done]. lia.
  - unfold demonitor. destruct (lookup_proc wa s); [|done]. destruct (position _ _); [|done].
    destruct (swap_remove _ _) as [[[? ?] ?]|]; [|done]. cbn. etrans; [apply grows_alter|apply grows_alter].
  - unfold set_receive_timeout. destruct (lookup_proc pid s); [|done]. cbn. destruct (checked_add_instant _ _); cbn;
      [etrans; [|apply grows_alter]|]; by apply grows_calm, calm_registry.
  - by split; [left|cbn; lia..].
Qed.
End grows.

(** * Where processes live *)

Section ownership.
Context {V B St Br Hk H W : Type} `{AB : AgentBehavior V B St W} `{BO : BridgeOps V Br} `{BP : BridgePool Br}.
Context `{MH : MessageHook V Hk W} `{EH : ExitHandler V B St Br Hk H W} `{CK : Clock} `{HO : HashOrder}.
Abbreviation Sched := (AgentScheduler V B St Br Hk H).
Abbreviation Proc := (AgentProcess V B St).
Abbreviation Cluster := (SchedulerCluster V B St Br Hk H).
Implicit Types (c : Cluster) (s : Sched) (w : W) (x pid : AgentPid).

(** Process [x] is [p], in partition [i]. *)
Definition lives x (i : nat) (p : Proc) c : Prop := exists s, c_schedulers c !! i = Some s /\ lookup_proc x s = Some p.

(** ** The map of owners *)

Lemma elem_of_residents c x i : (x, i) ∈ residents c <-> exists p, lives x i p c.
Proof.
  unfold residents, lives. rewrite list_elem_of_join. split.
  - intros (l & Hx & Hl). apply elem_of_lookup_imap in Hl as (j & s & -> & Hs).
    apply list_elem_of_fmap in Hx as (y & [= -> ->] & Hy). apply elem_of_hash_keys in Hy as [p Hp]. eauto.
  - intros (p & s & Hs & Hp). eexists. split; [|apply elem_of_lookup_imap; by exists i, s].
    apply list_elem_of_fmap. exists x. split; [done|]. apply elem_of_hash_keys. by exists p.
Qed.

Lemma fold_owner (l : list (AgentPid * nat)) : forall (m : gmap AgentPid nat) x,
  let m' := foldl (fun m '(pid, idx) => <[pid := idx]> m) m l in
  (exists i, (x, i) ∈ l /\ m' !! x = Some i) \/ (x ∉ l.*1 /\ m' !! x = m !! x).
Proof.
  induction l as [|[y j] l IH]; intros m x; cbn [foldl].
  { right. split; [apply not_elem_of_nil|done]. }
  destruct (IH (<[y := j]> m) x) as [(i & Hi & E)|[Hn E]].
  - left. exists i. split; [by right|done].
  - destruct (decide (x = y)) as [->|Hne].
    + left. exists j. split; [by left|]. by rewrite E, lookup_insert_eq.
    + right. rewrite E, lookup_insert_ne by done. split; [|done]. cbn. by rewrite not_elem_of_cons.
Qed.

Lemma reconcile_some c x i : c_pid_owner (reconcile_pid_map c) !! x = Some i -> exists p, lives x i p c.
Proof.
  unfold reconcile_pid_map. cbn. rewrite map_lookup_filter_Some. cbn. intros [Hm Hx]. rewrite elem_of_list_to_set in Hx.
  apply elem_of_residents. destruct (fold_owner (residents c) (c_pid_owner c) x) as [(j & Hj & E)|[Hn _]]; [|done]. congruence.
Qed.

Lemma reconcile_none c x : c_pid_owner (reconcile_pid_map c) !! x = None -> forall i p, ~ lives x i p c.
Proof.
  unfold reconcile_pid_map. cbn. rewrite map_lookup_filter_None. cbn. intros Hm i p Hl.
  assert (Hx : (x, i) ∈ residents c) by (apply elem_of_residents; eauto).
  assert (Hx1 : x ∈ (residents c).*1) by (apply list_elem_of_fmap; by exists (x, i)).
  destruct (fold_owner (residents c) (c_pid_owner c) x) as [(j & Hj & E)|[Hn _]]; [|done].
  destruct Hm as [Hm|Hm]; [congruence|]. apply (Hm j E). by apply elem_of_list_to_set.
Qed.

(** ** The invariant *)

Record cluster_ok (k : Z) c : Prop := {
  co_parts : forall i s, c_schedulers c !! i = Some s -> mon_inv (lend c s) /\ s_exit_handlers s = [];
  co_disjoint : forall i j p q x, lives x i p c -> lives x j q c -> i = j;
  co_room : 0 <= k /\ 0 <= c_next_pid c /\ c_next_pid c + k <= u64_max /\ 0 <= c_next_ref c /\ c_next_ref c + k <= u64_max
}.

Lemma mon_inv_frame s s' : s_registry s' = s_registry s -> s_next_ref s <= s_next_ref s' -> s_next_pid s <= s_next_pid s' ->
  mon_inv s -> mon_inv s'.
Proof.
  intros Hreg Er Ep [H1 H2 H3 H4].
  assert (Hl : forall y, lookup_proc y s' = lookup_proc y s) by (intros; unfold lookup_proc; by rewrite Hreg).
  split; unfold monitors_of, monitored_by_of in *; intros *; rewrite !Hl; [apply H1|apply H2| |].
  - intros Hm. specialize (H3 _ _ _ Hm). lia.
  - intros Hx. specialize (H4 _ Hx). lia.
Qed.

Lemma cluster_ok_mono k k' c : 0 <= k' <= k -> cluster_ok k c -> cluster_ok k' c.
Proof. intros Hle [H1 H2 H3]. split; [done|done|lia]. Qed.

(** What is left as it was, but for the counters going up. *)
Lemma cluster_ok_frame k c c' : (forall i s', c_schedulers c' !! i = Some s' -> exists s, c_schedulers c !! i = Some s /\
    s_registry s' = s_registry s /\ s_exit_handlers s' = s_exit_handlers s) ->
  c_next_pid c' = c_next_pid c -> c_next_ref c' = c_next_ref c -> cluster_ok k c -> cluster_ok k c'.
Proof.
  intros Hs Ep Er [H1 H2 H3]. split; [| |by rewrite Ep, Er].
  - intros i s' Hi. destruct (Hs i s' Hi) as (s & Hi' & Eg & Eh). destruct (H1 i s Hi') as [Hm Hh].
    split; [|congruence]. eapply mon_inv_frame; [..|exact Hm]; cbn; [done|lia..].
  - assert (forall x i p, lives x i p c' -> lives x i p c) as Hl.
    { intros x i p (s' & Hi & Hx). destruct (Hs i s' Hi) as (s & Hi' & Eg & _). exists s. split; [done|].
      unfold lookup_proc in *. by rewrite Eg in Hx. }
    intros i j p q x Hi Hj. by eapply H2; apply Hl.
Qed.

Lemma put_back_lookup idx s c i s' : c_schedulers (put_back idx s c) !! i = Some s' ->
  (i = idx /\ s' = s) \/ (i <> idx /\ c_schedulers c !! i = Some s').
Proof. cbn. rewrite list_lookup_insert_Some. naive_solver. Qed.

Lemma on_partition_ok {A} (f : Sched -> W -> option (A * Sched * W)) n k idx c w a c' w' :
  (forall s w a s' w', mon_inv s -> room (k + n) s -> s_exit_handlers s = [] -> f s w = Some (a, s', w') ->
     mon_inv s' /\ room k s' /\ s_exit_handlers s' = [] /\ grows s s') ->
  cluster_ok (k + n) c -> on_partition idx f c w = Some (a, c', w') -> cluster_ok k c'.
Proof.
  intros Hf Hok He. unfold on_partition in He. destruct (c_schedulers c !! idx) as [s|] eqn:Hs; [|done]. cbn in He.
  destruct (f (lend c s) w) as [[[a1 s1] w1]|] eqn:E; [|done]. simplify_eq/=.
  destruct Hok as [H1 H2 H3]. destruct (H1 idx s Hs) as [Hm Hh].
  destruct (Hf (lend c s) w a s1 w' Hm) as (Hm1 & Hr1 & Hh1 & [Gp Gn Gr]); [unfold room; cbn; lia|done|done|]. cbn in Gn, Gr.
  assert (Hl : forall x, is_Some (lookup_proc x s1) -> is_Some (lookup_proc x s) \/ c_next_pid c <= x) by exact Gp.
  assert (Hb : forall i s' x, c_schedulers c !! i = Some s' -> is_Some (lookup_proc x s') -> x < c_next_pid c).
  { intros i s' x Hi Hx. destruct (H1 i s' Hi) as [[_ _ _ Hp] _]. by apply (Hp x). }
  split.
  - intros i s' Hi. apply put_back_lookup in Hi as [[-> ->]|[Hne Hi]].
    + split; [|done]. eapply mon_inv_frame; [..|exact Hm1]; cbn; [done|lia..].
    + destruct (H1 i s' Hi) as [Hm' Hh']. split; [|done]. eapply mon_inv_frame; [..|exact Hm']; cbn; [done|lia..].
  - intros i j p q x (si & Hi & Hx) (sj & Hj & Hy).
    apply put_back_lookup in Hi as [[-> ->]|[Hi Hi']], Hj as [[-> ->]|[Hj Hj']]; [done| | |].
    + destruct (Hl x) as [[p' Hp']|Hp']; [by eexists|by eapply H2; [exists s|exists sj]|].
      specialize (Hb j sj x Hj'). rewrite Hy in Hb. specialize (Hb ltac:(by eexists)). lia.
    + destruct (Hl x) as [[p' Hp']|Hp']; [by eexists|by eapply H2; [exists si|exists s]|].
      specialize (Hb i si x Hi'). rewrite Hx in Hb. specialize (Hb ltac:(by eexists)). lia.
    + eapply H2; [by exists si|by exists sj].
  - unfold room in Hr1. cbn. lia.
Qed.

(** ** Every call keeps it *)

Lemma on_partition_calm {A} (f : Sched -> W -> option (A * Sched * W)) k idx c w a c' w' :
  (forall s w a s' w', f s w = Some (a, s', w') -> calm s s') ->
  cluster_ok k c -> on_partition idx f c w = Some (a, c', w') -> cluster_ok k c'.
Proof.
  intros Hf Hok He. replace k with (k + 0) in Hok by lia. eapply on_partition_ok; [|exact Hok|exact He].
  intros s1 w1 a1 s2 w2 Hm Hr Hh E. apply Hf in E. rewrite Z.add_0_r in Hr. pose proof E as (_ & Eh & _).
  split_and!; [by eapply mon_inv_calm|by eapply room_calm|congruence|by apply grows_calm].
Qed.

Lemma on_partition_length {A} (f : Sched -> W -> option (A * Sched * W)) idx c w a c' w' :
  on_partition idx f c w = Some (a, c', w') -> scheduler_count c' = scheduler_count c.
Proof.
  unfold on_partition, scheduler_count. destruct (c_schedulers c !! idx); [|done]. cbn. destruct (f _ w) as [[[? ?] ?]|]; [|done].
  cbn. intros [= <- <- <-]. cbn. by rewrite length_insert.
Qed.

Lemma reconcile_ok k c : cluster_ok k c -> cluster_ok k (reconcile_pid_map c).
Proof. apply cluster_ok_frame; [|done..]. intros i s' Hi. by exists s'. Qed.

Lemma cluster_send_ok k to msg c w res c' w' : cluster_ok k c -> cluster_send to msg c w = Some (res, c', w') ->
  cluster_ok k c' /\ scheduler_count c' = scheduler_count c.
Proof.
  intros Hok%reconcile_ok He. unfold cluster_send in He. destruct (_ !! to) as [idx|]; [|by simplify_eq].
  split; [|by apply on_partition_length in He]. eapply on_partition_calm; [|exact Hok|exact He].
  intros s1 w1 a1 s2 w2 [= E]. pose proof (calm_send to msg s1 w1) as Hc. by rewrite E in Hc.
Qed.

Lemma route_ok k outbound : forall n c w n' c' w', cluster_ok k c ->
  fold_opt (fun '(routed, c, w) '(to, msg) => '(res, c, w) ← cluster_send to msg c w; Some (if is_ok res then S routed else routed, c, w))
    (n, c, w) outbound = Some (n', c', w') ->
  cluster_ok k c' /\ scheduler_count c' = scheduler_count c.
Proof.
  induction outbound as [|[to msg] outbound IH]; intros n c w n' c' w' Hok He; [by simplify_eq/=|]. cbn in He.
  destruct (cluster_send to msg c w) as [[[res c1] w1]|] eqn:E; [|done]. cbn in He.
  apply cluster_send_ok with (k := k) in E as [Hok1 L1]; [|done]. apply IH in He as [? ->]; [|done]. done.
Qed.

Lemma tick_partitions_ok fuel k idxs : 0 <= k -> forall d c w d' c' w', cluster_ok (k + 19 * Z.of_nat (length idxs)) c ->
  fold_opt (fun '(did_work, c, w) idx => '(worked, c, w) ← on_partition idx (tick fuel) c w; Some (did_work || worked, c, w))
    (d, c, w) idxs = Some (d', c', w') ->
  cluster_ok k c' /\ scheduler_count c' = scheduler_count c.
Proof.
  intros Hk0. induction idxs as [|i idxs IH]; intros d c w d' c' w' Hok He; cbn in He.
  { simplify_eq. by rewrite Z.add_0_r in Hok. }
  destruct (on_partition i (tick fuel) c w) as [[[b c1] w1]|] eqn:E; [|done]. cbn in He. pose proof (on_partition_length _ _ _ _ _ _ _ E) as L.
  apply IH in He as [? ->]; [done|]. cbn [length] in Hok.
  eapply (on_partition_ok (tick fuel) 19 (k + 19 * Z.of_nat (length idxs))); [| |exact E];
    [|by replace (k + 19 * Z.of_nat (length idxs) + 19) with (k + 19 * Z.of_nat (S (length idxs))) by lia].
  intros s1 w2 a1 s2 w3 Hm Hr Hh Ht. destruct (mon_inv_tick fuel (k + 19 * Z.of_nat (length idxs)) s1 w2 a1 s2 w3) as (? & ? & ?); [done..|lia|done|done|].
  split_and!; [done..|]. eapply grows_tick; [exact Hm| |exact Hh|exact Ht]. eapply room_mono; [|exact Hr]. lia.
Qed.

Lemma tick_order_length c : length (tick_order c) = scheduler_count c.
Proof. unfold tick_order. by rewrite length_map, length_seq. Qed.

Lemma cluster_tick_ok fuel k c w b c' w' : cluster_ok (k + 19 * Z.of_nat (scheduler_count c)) c -> 0 <= k ->
  cluster_tick fuel c w = Some (b, c', w') -> cluster_ok k c' /\ scheduler_count c' = scheduler_count c.
Proof.
  intros Hok Hk0 He. unfold cluster_tick, tick_partitions in He.
  destruct (fold_opt _ (false, c, w) _) as [[[d c1] w1]|] eqn:E; [|done]. cbn in He.
  apply (tick_partitions_ok fuel k) in E as [Hok1 L1]; [|done|by rewrite tick_order_length].
  unfold route_outbound_messages, route in He. destruct (fold_opt _ (0%nat, _, _) _) as [[[n c2] w2]|] eqn:E2; [|done]. cbn in He. simplify_eq.
  apply (route_ok k) in E2 as [Hok2 L2].
  - split; [by apply reconcile_ok|]. unfold scheduler_count in *. cbn in *. rewrite L2, length_fmap. done.
  - eapply cluster_ok_frame; [..|exact Hok1]; [|done..]. cbn. intros i s' Hi. apply list_lookup_fmap_Some in Hi as (s & -> & Hs). by exists s.
Qed.

Lemma spawn_on_ok k idx b args c w r c' w' : cluster_ok (k + 19) c -> 0 <= k -> spawn_on idx b args c w = (r, c', w') ->
  cluster_ok k c' /\ scheduler_count c' = scheduler_count c.
Proof.
  intros Hok Hk0 He. unfold spawn_on in He.
  destruct (on_partition idx _ c w) as [[[r1 c1] w1]|] eqn:E; [|simplify_eq; split; [|done]; eapply cluster_ok_mono; [|done]; lia].
  pose proof (on_partition_length _ _ _ _ _ _ _ E) as L.
  assert (cluster_ok k c1) as Hok1.
  { eapply (on_partition_ok _ 19 k); [|exact Hok|exact E]. intros s1 w2 a1 s2 w3 Hm Hr Hh [= Ex].
    destruct (mon_inv_spawn (k + 18) b args s1 w2 Hm) as (? & Ep & Er & Eh); [by replace (k + 18 + 1) with (k + 19) by lia|lia|].
    pose proof (grows_spawn b args s1 w2) as G. rewrite Ex in *. cbn in *.
    split_and!; [done|unfold room in *; lia|congruence|apply G; unfold room in *; lia]. }
  destruct r1; simplify_eq; (split; [|done]); [|done]. eapply cluster_ok_frame; [..|exact Hok1]; [|done..]. intros i s' Hi. by exists s'.
Qed.

(** Calls that install no exit handler; the counters and the bridge are the cluster's. *)
Definition plain_call (call : ClusterCall V B Br Hk H) : Prop :=
  match call with KPartition _ (CAddExitHandler _) => False | _ => True end.
Definition call_cost c : Z := 19 * (1 + Z.of_nat (scheduler_count c)).

Lemma cluster_exec_ok fuel k call c w c' w' : cluster_ok (k + call_cost c) c -> 0 <= k -> plain_call call ->
  cluster_exec fuel call c w = Some (c', w') -> cluster_ok k c' /\ scheduler_count c' = scheduler_count c.
Proof.
  unfold call_cost. intros Hok Hk0 Hp He. assert (Hle : cluster_ok k c) by (eapply cluster_ok_mono; [|exact Hok]; lia).
  destruct call as [|b args|idx b args|pid|to msg|n|br|idx call]; cbn in He.
  - destruct (cluster_tick fuel c w) as [[[d c1] w1]|] eqn:E; [|done]. simplify_eq/=.
    eapply cluster_tick_ok; [|exact Hk0|exact E]. eapply cluster_ok_mono; [|exact Hok]. lia.
  - destruct (cluster_spawn b args c w) as [[r c1] w1] eqn:E. simplify_eq. unfold cluster_spawn in E.
    apply (spawn_on_ok k) in E as [? E]; [|eapply cluster_ok_frame; [..|eapply cluster_ok_mono; [|exact Hok]; lia]; [|done..]; intros i s' Hi; by exists s'|done].
    done.
  - destruct (spawn_on idx b args c w) as [[r c1] w1] eqn:E. simplify_eq. eapply spawn_on_ok; [|exact Hk0|exact E].
    eapply cluster_ok_mono; [|exact Hok]. lia.
  - unfold cluster_enqueue in He. apply reconcile_ok in Hle. destruct (_ !! pid) as [i|]; [|by simplify_eq/=].
    destruct (on_partition i _ _ w) as [[[r c1] w1]|] eqn:E; [|done]. simplify_eq/=. split; [|by apply on_partition_length in E].
    eapply on_partition_calm; [|exact Hle|exact E]. intros s1 w2 a1 s2 w3 [= <- <- <-]. apply calm_enqueue.
  - destruct (cluster_send to msg c w) as [[[r c1] w1]|] eqn:E; [|done]. simplify_eq/=. by eapply cluster_send_ok.
  - simplify_eq. split; [|unfold scheduler_count; cbn; by rewrite length_fmap].
    eapply cluster_ok_frame; [..|exact Hle]; [|done..]. cbn. intros i s' Hi. apply list_lookup_fmap_Some in Hi as (s & -> & Hs). by exists s.
  - simplify_eq. split; [|done]. eapply cluster_ok_frame; [..|exact Hle]; [|done..]. intros i s' Hi. by exists s'.
  - destruct (on_partition idx _ c w) as [[[r c1] w1]|] eqn:E; [|done]. simplify_eq/=. split; [|by apply on_partition_length in E].
    eapply (on_partition_ok _ 19 k); [|eapply cluster_ok_mono; [|exact Hok]; lia|exact E].
    intros s1 w2 a1 s2 w3 Hm Hr Hh Ex. cbv beta in Ex. destruct (sched_exec fuel call s1 w2) as [[s4 w4]|] eqn:Es; [|done]. simplify_eq/=.
    assert (no_handler call) as Hn by (by destruct call).
    destruct (mon_inv_exec fuel k call s1 w2 s2 w3) as (? & ? & ?); [done..|]. split_and!; [done..|].
    eapply grows_exec; [exact Hm| |exact Hh|exact Es]. eapply room_mono; [|exact Hr]. lia.
Qed.

Lemma cluster_run_ok fuel calls : forall c w c' w', cluster_ok (call_cost c * Z.of_nat (length calls)) c -> Forall plain_call calls ->
  cluster_run fuel calls c w = Some (c', w') -> cluster_ok 0 c'.
Proof.
  unfold cluster_run. induction calls as [|call calls IH]; intros c w c' w' Hok Hf He; cbn in He.
  { simplify_eq. by rewrite Z.mul_0_r in Hok. }
  apply Forall_cons in Hf as [Hc Hf]. destruct (cluster_exec fuel call c w) as [[c1 w1]|] eqn:E; [|done]. cbn in He.
  assert (0 <= call_cost c) by (unfold call_cost; lia).
  apply (cluster_exec_ok fuel (call_cost c * Z.of_nat (length calls))) in E as [Hok1 L]; [| |lia|done].
  - eapply IH; [|exact Hf|exact He]. unfold call_cost in *. by rewrite L.
  - replace (call_cost c * Z.of_nat (length calls) + call_cost c) with (call_cost c * Z.of_nat (length (call :: calls))) by (cbn; lia). done.
Qed.

Lemma fold_opt_app {A X} (f : X -> A -> option X) (l1 l2 : list A) : forall x : X, fold_opt f x (l1 ++ l2) = (y ← fold_opt f x l1; fold_opt f y l2).
Proof. induction l1 as [|a l1 IH]; intros x; [done|]. cbn. destruct (f x a); [apply IH|done]. Qed.

Lemma cluster_new_ok k partitions : 0 <= k <= 2 ^ 63 ->
  cluster_ok k (cluster_new partitions NEXT_AGENT_PID NEXT_MONITOR_REF : Cluster).
Proof.
  intros Hle. unfold NEXT_AGENT_PID, NEXT_MONITOR_REF.
  assert (forall x i p, ~ lives x i p (cluster_new partitions 2147483648 1 : Cluster)) as Hn.
  { intros x i p (s & Hi & Hx). apply lookup_replicate in Hi as [-> _]. cbn in Hx. unfold lookup_proc, registry_lookup in Hx. cbn in Hx.
    by rewrite lookup_empty in Hx. }
  split; [| |change (c_next_pid _) with 2147483648; change (c_next_ref _) with 1; unfold u64_max; lia].
  - intros i s Hi. apply lookup_replicate in Hi as [-> _]. split; [|done]. split; intros *; cbn.
    + unfold monitors_of, monitored_by_of, lookup_proc, registry_lookup. cbn. rewrite !lookup_empty. by rewrite !elem_of_nil.
    + unfold monitors_of, lookup_proc, registry_lookup. cbn. rewrite !lookup_empty. constructor.
    + unfold monitors_of, lookup_proc, registry_lookup. cbn. rewrite !lookup_empty. by rewrite elem_of_nil.
    + unfold lookup_proc, registry_lookup. cbn. rewrite lookup_empty. by intros [? ?].
  - intros i j p q x Hi. by apply Hn in Hi.
Qed.

Definition fits_counters (partitions : nat) (calls : list (ClusterCall V B Br Hk H)) : Prop :=
  19 * (1 + Z.of_nat (Nat.max partitions 1)) * Z.of_nat (length calls) <= 2 ^ 63.

Lemma cluster_reached_ok fuel partitions calls w c w' : Forall plain_call calls -> fits_counters partitions calls ->
  cluster_run fuel calls (cluster_new partitions NEXT_AGENT_PID NEXT_MONITOR_REF) w = Some (c, w') -> cluster_ok 0 c.
Proof.
  intros Hf Hl Hr. eapply cluster_run_ok; [|exact Hf|exact Hr]. unfold call_cost, scheduler_count. cbn.
  rewrite length_replicate. apply cluster_new_ok. unfold fits_counters in Hl. lia.
Qed.

Lemma owner_of_reconciled k c x i : cluster_ok k c ->
  owner_of x (reconcile_pid_map c) = Some i <-> exists p, lives x i p c.
Proof.
  intros [_ Hd _]. unfold owner_of. split; [apply reconcile_some|]. intros [p Hp].
  destruct (c_pid_owner (reconcile_pid_map c) !! x) as [j|] eqn:E; [|by eapply reconcile_none in E].
  apply reconcile_some in E as [q Hq]. f_equal. by eapply Hd.
Qed.

Lemma cluster_tick_reconciled fuel c w b c' w' : cluster_tick fuel c w = Some (b, c', w') -> exists c1, c' = reconcile_pid_map c1.
Proof.
  unfold cluster_tick. destruct (tick_partitions _ _ _ _) as [[[d c1] w1]|]; [|done]. cbn [mbind option_bind]. cbv zeta.
  destruct (route_outbound_messages _ _) as [[[n c2] w2]|]; [|done]. intros [= _ <- _]. by eexists.
Qed.

(** The cluster knows where its processes are.  Whatever calls were made on it and on its
    partitions (without exit handlers, while the counters have not wrapped), no process is in
    two partitions, and after a tick the owner of a pid is the partition where it lives;
    a pid without a process has no owner. *)
Theorem owners_exact fuel partitions calls w c w' :
  Forall plain_call calls -> fits_counters partitions (calls ++ [KTick]) ->
  cluster_run fuel (calls ++ [KTick]) (cluster_new partitions NEXT_AGENT_PID NEXT_MONITOR_REF) w = Some (c, w') ->
  (forall x i, owner_of x c = Some i <-> exists p, lives x i p c) /\
  (forall x i j p q, lives x i p c -> lives x j q c -> i = j).
Proof.
  intros Hf Hl Hr. pose proof (cluster_reached_ok fuel partitions (calls ++ [KTick]) w c w') as Hok.
  specialize (Hok ltac:(apply Forall_app_2; [done|by repeat constructor]) Hl Hr).
  split; [|intros x i j p q; apply (co_disjoint 0 c Hok)].
  unfold cluster_run in Hr. rewrite fold_opt_app in Hr. destruct (fold_opt _ _ calls) as [[c0 w0]|]; [|done]. cbn in Hr.
  destruct (cluster_tick fuel c0 w0) as [[[b c1] w1]|] eqn:E; [|done]. simplify_eq/=. apply cluster_tick_reconciled in E as [c2 ->].
  intros x i. apply (owner_of_reconciled 0 c2 x i). eapply cluster_ok_frame; [..|exact Hok]; [|done..]. intros j s' Hj. by exists s'.
Qed.

(** ** Messages between partitions *)

Definition hookless c : Prop := forall i s, c_schedulers c !! i = Some s -> s_message_hook s = None.
Definition room_for (p : Proc) : nat := (p_mailbox_capacity p - length (p_mailbox p))%nat.
Definition got (p p' : Proc) (msgs : list (Message V)) : Prop :=
  p_mailbox p' = p_mailbox p ++ take (room_for p) msgs /\ p_mailbox_capacity p' = p_mailbox_capacity p.
Definition addressed x (msgs : list (AgentPid * Message V)) : list (Message V) := (filter (fun m => m.1 = x) msgs).*2.

Lemma got_nothing p : got p p [].
Proof. unfold got. by rewrite take_nil, app_nil_r. Qed.

Lemma got_app p p1 p2 l1 l2 : got p p1 l1 -> got p1 p2 l2 -> got p p2 (l1 ++ l2).
Proof.
  intros [M1 C1] [M2 C2]. split; [|congruence]. rewrite M2, M1, <- (assoc_L app). f_equal. rewrite take_app. f_equal.
  unfold room_for. rewrite M1, C1, length_app, length_take. unfold room_for. f_equal. lia.
Qed.

Lemma send_registered to msg s w p : s_message_hook s = None -> lookup_proc to s = Some p ->
  exists res s', send to msg s w = (res, s', w) /\ calm s s' /\ s_message_hook s' = None /\ s_outbound_messages s' = s_outbound_messages s /\
    (forall x, x <> to -> lookup_proc x s' = lookup_proc x s) /\ exists p', lookup_proc to s' = Some p' /\ got p p' [msg].
Proof.
  intros Hh Hp. pose proof (send_spec to msg s w Hh) as Hs. pose proof (calm_send to msg s w) as Hc.
  assert (s_message_hook (send to msg s w).1.2 = None /\ s_outbound_messages (send to msg s w).1.2 = s_outbound_messages s) as [Hh' Ho].
  { unfold send, call_hook. rewrite Hh. unfold deliver_to. rewrite Hp. destruct (deliver_message msg p); [|done]. cbv zeta.
    case_bool_decide; [|done]. cbn [fst snd].
    match goal with |- context [enqueue to ?x] => destruct (enqueue_frame to x) as (_ & _ & _ & _ & _ & -> & _ & _ & ->) end. done. }
  destruct (send to msg s w) as [[res s'] w']. cbn in Hc, Hh', Ho. destruct Hs as (-> & Hne & Hs). rewrite Hp in Hs. exists res, s'.
  split_and!; [done..|]. unfold got, room_for. pose proof Hc as [Hst _]. specialize (Hst to).
  destruct (length (p_mailbox p) <? p_mailbox_capacity p)%nat eqn:Hlt.
  - destruct Hs as (_ & _ & (p' & Hp' & Hm & _) & _). exists p'. split; [done|]. rewrite Hp, Hp' in Hst. cbn in Hst. unfold static in Hst.
    split; [|congruence]. rewrite Hm. apply Nat.ltb_lt in Hlt. destruct (p_mailbox_capacity p - length (p_mailbox p))%nat eqn:?; [lia|]. cbn. by rewrite take_nil.
  - destruct Hs as (_ & Hp' & _). exists p. split; [done|]. split; [|done]. apply Nat.ltb_ge in Hlt.
    replace (p_mailbox_capacity p - length (p_mailbox p))%nat with O by lia. by rewrite app_nil_r.
Qed.

(** A message to a process of the cluster goes to its partition, whichever that is. *)
Lemma cluster_send_lives k to msg c w i p : cluster_ok k c -> hookless c -> lives to i p c ->
  exists res c', cluster_send to msg c w = Some (res, c', w) /\ hookless c' /\ outbound_of c' = outbound_of c /\
    (forall x j q, x <> to -> lives x j q c' <-> lives x j q c) /\ (forall j q, lives to j q c' -> j = i) /\
    exists p', lives to i p' c' /\ got p p' [msg].
Proof.
  intros Hok Hh Hl. unfold cluster_send. pose proof (owner_of_reconciled k c to i Hok) as [_ Ho]. unfold owner_of in Ho.
  rewrite Ho by eauto. unfold on_partition. destruct Hl as (s & Hs & Hp).
  change (c_schedulers (reconcile_pid_map c)) with (c_schedulers c). rewrite Hs. cbn [mbind option_bind].
  destruct (send_registered to msg (lend (reconcile_pid_map c) s) w p) as (res & s1 & -> & _ & Hh1 & Ho1 & Hne & p' & Hp' & Hg); [exact (Hh i s Hs)|exact Hp|].
  cbn [mbind option_bind]. eexists res, _. split; [reflexivity|].
  assert (Hin : forall x j q, lives x j q (put_back i s1 (reconcile_pid_map c)) <->
    if decide (j = i) then lookup_proc x s1 = Some q else lives x j q c).
  { intros x j q. unfold lives. cbn. case_decide as Hj.
    - subst j. rewrite list_lookup_insert_eq by (by eapply lookup_lt_Some). naive_solver.
    - by rewrite list_lookup_insert_ne. }
  assert (Hl1 : forall x q, lookup_proc x (lend (reconcile_pid_map c) s) = Some q <-> lives x i q c).
  { intros x q. unfold lives. rewrite Hs. change (lookup_proc x (lend (reconcile_pid_map c) s)) with (lookup_proc x s). naive_solver. }
  split_and!.
  - intros j s' Hj. apply put_back_lookup in Hj as [[-> ->]|[_ Hj]]; [done|by apply (Hh j)].
  - unfold outbound_of. cbn. rewrite list_fmap_insert, Ho1. f_equal. apply list_insert_id. by rewrite list_lookup_fmap, Hs.
  - intros x j q Hx. rewrite Hin. case_decide; [|done]. subst j. rewrite Hne by done. apply Hl1.
  - intros j q Hj. rewrite Hin in Hj. case_decide; [done|]. symmetry. eapply (co_disjoint k c Hok); [by exists s|exact Hj].
  - exists p'. split; [|done]. rewrite Hin. by rewrite decide_True.
Qed.

Lemma cluster_send_absent to msg c w : (forall i p, ~ lives to i p c) -> cluster_send to msg c w = Some (Err (not_in_cluster to), reconcile_pid_map c, w).
Proof.
  intros Hn. unfold cluster_send. destruct (_ !! to) as [i|] eqn:E; [|done]. apply reconcile_some in E as [p Hp]. by apply Hn in Hp.
Qed.

(** [c'] after the messages were routed in [c]. *)
Definition delivered c c' (msgs : list (AgentPid * Message V)) : Prop :=
  (forall x i p, lives x i p c -> exists p', lives x i p' c' /\ got p p' (addressed x msgs)) /\
  (forall x i p', lives x i p' c' -> exists p, lives x i p c).

Lemma delivered_trans c c1 c2 l1 l2 : delivered c c1 l1 -> delivered c1 c2 l2 -> delivered c c2 (l1 ++ l2).
Proof.
  intros [A1 B1] [A2 B2]. split.
  - intros x i p Hp. destruct (A1 x i p Hp) as (p1 & H1 & G1), (A2 x i p1 H1) as (p2 & H2 & G2). exists p2. split; [done|].
    unfold addressed. rewrite filter_app, fmap_app. by eapply got_app.
  - intros x i p2 H2. destruct (B2 x i p2 H2) as (p1 & H1). by eapply B1.
Qed.

Lemma addressed_one x to msg : addressed x [(to, msg)] = if decide (to = x) then [msg] else [].
Proof. unfold addressed. rewrite filter_cons. cbn. by case_decide. Qed.

(** Is somebody at this pid? *)
Lemma lives_dec k c x : cluster_ok k c -> (exists i p, lives x i p c) \/ forall i p, ~ lives x i p c.
Proof.
  intros Hok. destruct (c_pid_owner (reconcile_pid_map c) !! x) as [i|] eqn:E; [left|right; by apply reconcile_none].
  apply reconcile_some in E as [p Hp]. eauto.
Qed.

Lemma send_delivered k to msg c w : cluster_ok k c -> hookless c ->
  exists res c', cluster_send to msg c w = Some (res, c', w) /\ cluster_ok k c' /\ hookless c' /\ outbound_of c' = outbound_of c /\
    delivered c c' [(to, msg)].
Proof.
  intros Hok Hh. destruct (lives_dec k c to Hok) as [(i & p & Hl)|Hn].
  - destruct (cluster_send_lives k to msg c w i p Hok Hh Hl) as (res & c' & He & Hh' & Ho & Hne & Hi & p' & Hl' & Hg).
    exists res, c'. destruct (cluster_send_ok k to msg c w res c' w Hok He) as [Hok' _]. split_and!; [done..|]. split.
    + intros x j q Hq. rewrite addressed_one. destruct (decide (to = x)) as [<-|Hx].
      * assert (j = i) as -> by (by eapply (co_disjoint k c Hok)). exists p'. split; [done|].
        destruct Hl as (s & Hs & Hp), Hq as (s' & Hs' & Hp'). congruence.
      * exists q. split; [by apply Hne|apply got_nothing].
    + intros x j q Hq. destruct (decide (x = to)) as [->|Hx]; [|exists q; by apply Hne].
      apply Hi in Hq as ->. by exists p.
  - exists (Err (not_in_cluster to)), (reconcile_pid_map c). split; [by apply cluster_send_absent|].
    split_and!; [by apply reconcile_ok|done|done|]. split.
    + intros x j q Hq. exists q. split; [done|]. rewrite addressed_one. case_decide; [|apply got_nothing]. subst. by apply Hn in Hq.
    + intros x j q Hq. by exists q.
Qed.

Lemma route_delivered k outbound w : forall n c, cluster_ok k c -> hookless c ->
  exists n' c', fold_opt (fun '(routed, c, w) '(to, msg) => '(res, c, w) ← cluster_send to msg c w; Some (if is_ok res then S routed else routed, c, w))
      (n, c, w) outbound = Some (n', c', w) /\
    outbound_of c' = outbound_of c /\ delivered c c' outbound.
Proof.
  induction outbound as [|[to msg] outbound IH]; intros n c Hok Hh.
  { exists n, c. split; [done|]. split; [done|]. split; [|by eauto]. intros x i p Hp. exists p. split; [done|apply got_nothing]. }
  destruct (send_delivered k to msg c w Hok Hh) as (res & c1 & He & Hok1 & Hh1 & Ho1 & Hd1).
  destruct (IH (if is_ok res then S n else n) c1 Hok1 Hh1) as (n' & c' & Hf & Ho & Hd). exists n', c'.
  split; [|split; [congruence|by apply (delivered_trans c c1 c' [(to, msg)])]]. cbn [fold_opt]. rewrite He. exact Hf.
Qed.

(** C31: Messages between partitions arrive.  In every reachable cluster (without exit handlers
    and message hooks, while the counters have not wrapped) routing returns, empties the
    outbound queues of all partitions, starts and ends no process, and appends to the mailbox
    of each process what was addressed to it, in the order of the partitions and of the
    sending, as far as the mailbox has room, whatever partition the process lives in. *)
Theorem messages_cross_partitions fuel partitions calls w c w' :
  Forall plain_call calls -> fits_counters partitions calls ->
  cluster_run fuel calls (cluster_new partitions NEXT_AGENT_PID NEXT_MONITOR_REF) w = Some (c, w') -> hookless c ->
  exists n c', route_outbound_messages c w' = Some (n, c', w') /\ outbound_of c' = [] /\
    (forall x i p, lives x i p c -> exists p', lives x i p' c' /\
       p_mailbox p' = p_mailbox p ++ take (room_for p) (addressed x (outbound_of c))) /\
    (forall x i p', lives x i p' c' -> exists p, lives x i p c).
Proof.
  intros Hf Hl Hr Hh. pose proof (cluster_reached_ok fuel partitions calls w c w' Hf Hl Hr) as Hok.
  unfold route_outbound_messages, route.
  set (c0 := with_schedulers ((fun s => (drain_outbound_messages s).2) <$> c_schedulers c) c).
  assert (Hs0 : forall i s', c_schedulers c0 !! i = Some s' -> exists s, c_schedulers c !! i = Some s /\ s' = upd_outbound_messages [] s).
  { intros i s' Hi. apply list_lookup_fmap_Some in Hi as (s & -> & Hs). by exists s. }
  assert (cluster_ok 0 c0) as Hok0.
  { eapply cluster_ok_frame; [..|exact Hok]; [|done..]. intros i s' Hi. apply Hs0 in Hi as (s & Hs & ->). by exists s. }
  assert (hookless c0) as Hh0 by (intros i s' Hi; apply Hs0 in Hi as (s & Hs & ->); exact (Hh i s Hs)).
  assert (outbound_of c0 = []) as Ho0.
  { unfold outbound_of, c0. cbn. rewrite <- list_fmap_compose. generalize (c_schedulers c). intros l. induction l as [|s l IH]; [done|exact IH]. }
  destruct (route_delivered 0 (outbound_of c) w' 0 c0 Hok0 Hh0) as (n & c' & -> & Ho & Hd1 & Hd2).
  exists n, c'. split; [done|]. split; [congruence|].
  assert (forall x i p, lives x i p c0 <-> lives x i p c) as Hlv.
  { intros x i p. unfold lives, c0. cbn. setoid_rewrite list_lookup_fmap. split.
    - intros (s' & Hs & Hp). destruct (c_schedulers c !! i) as [s|]; [|done]. simplify_eq/=. by exists s.
    - intros (s & -> & Hp). by eexists. }
  split.
  - intros x i p Hp. apply Hlv in Hp. destruct (Hd1 x i p Hp) as (p' & Hp' & Hg & _). by exists p'.
  - intros x i p' Hp'. apply Hd2 in Hp' as [p Hp]. exists p. by apply Hlv.
Qed.

(** ** A tick of the cluster returns *)

Lemma tick_order_nodup c : NoDup (tick_order c).
Proof.
  unfold tick_order. apply NoDup_fmap_2_strong; [|apply NoDup_seq]. intros a b Ha%elem_of_seq Hb%elem_of_seq E.
  generalize dependent (c_next_tick_partition c). intros m E. destruct Ha as [_ Ha], Hb as [_ Hb]. cbn in Ha, Hb.
  pose proof (Nat.div_mod_eq (m + a) (scheduler_count c)) as Da. pose proof (Nat.div_mod_eq (m + b) (scheduler_count c)) as Db.
  rewrite E in Da. set (qa := ((m + a) / scheduler_count c)%nat) in *. set (qb := ((m + b) / scheduler_count c)%nat) in *.
  generalize dependent ((m + b) mod scheduler_count c)%nat. intros r _ Da Db. clearbody qa qb. set (N := scheduler_count c) in *. clearbody N.
  destruct (Nat.lt_trichotomy qa qb) as [Hq|[->|Hq]]; [|lia|].
  - assert (N * (qa + 1) <= N * qb)%nat by (apply Nat.mul_le_mono_l; lia). lia.
  - assert (N * (qb + 1) <= N * qa)%nat by (apply Nat.mul_le_mono_l; lia). lia.
Qed.

Lemma tick_order_range c i : i ∈ tick_order c -> (i < scheduler_count c)%nat.
Proof.
  unfold tick_order. intros (o & -> & Ho%elem_of_seq)%list_elem_of_fmap. apply Nat.mod_upper_bound. lia.
Qed.

Definition tick_ready (fuel : nat) s : Prop := s_exit_handlers s = [] /\ (size (linked s) + 38 < fuel)%nat.

Lemma tick_partitions_total fuel idxs : NoDup idxs -> forall d c w,
  (forall i, i ∈ idxs -> exists s, c_schedulers c !! i = Some s /\ tick_ready fuel s) ->
  exists d' c' w', fold_opt (fun '(did_work, c, w) idx => '(worked, c, w) ← on_partition idx (tick fuel) c w; Some (did_work || worked, c, w))
    (d, c, w) idxs = Some (d', c', w').
Proof.
  induction 1 as [|i idxs Hi _ IH]; intros d c w Hall; [by do 3 eexists|]. cbn [fold_opt].
  destruct (Hall i) as (s & Hs & Hh & Hsz); [by left|]. unfold on_partition. rewrite Hs. cbn [mbind option_bind].
  destruct (tick_total fuel (lend c s) w) as (b & s1 & w1 & ->); [exact Hh|exact Hsz|]. cbn [mbind option_bind]. apply IH.
  intros j Hj. destruct (Hall j) as (s' & Hs' & Hr); [by right|]. exists s'. split; [|done]. cbn.
  by rewrite list_lookup_insert_ne by (intros ->; done).
Qed.

Lemma cluster_send_total to msg c w : exists res c' w', cluster_send to msg c w = Some (res, c', w').
Proof.
  unfold cluster_send. destruct (_ !! to) as [i|] eqn:E; [|by do 3 eexists]. apply reconcile_some in E as (p & s & Hs & _).
  unfold on_partition. change (c_schedulers (reconcile_pid_map c)) with (c_schedulers c). rewrite Hs. cbn [mbind option_bind].
  destruct (send to msg _ w) as [[res s1] w1]. by do 3 eexists.
Qed.

Lemma route_total outbound : forall n c w, exists n' c' w', fold_opt (fun '(routed, c, w) '(to, msg) => '(res, c, w) ← cluster_send to msg c w;
    Some (if is_ok res then S routed else routed, c, w)) (n, c, w) outbound = Some (n', c', w').
Proof.
  induction outbound as [|[to msg] outbound IH]; intros n c w; [by do 3 eexists|]. cbn [fold_opt].
  destruct (cluster_send_total to msg c w) as (res & c1 & w1 & ->). apply IH.
Qed.

(** A tick of the cluster returns, with the fuel that is enough for each partition's. *)
Theorem cluster_tick_total fuel c w : (forall i s, c_schedulers c !! i = Some s -> tick_ready fuel s) ->
  exists b c' w', cluster_tick fuel c w = Some (b, c', w').
Proof.
  intros Hall. unfold cluster_tick, tick_partitions. destruct (tick_partitions_total fuel (tick_order c) (tick_order_nodup c) false c w) as (d & c1 & w1 & ->).
  { intros i Hi%tick_order_range. apply lookup_lt_is_Some in Hi as [s Hs]. eauto. }
  cbn [mbind option_bind]. cbv zeta. unfold route_outbound_messages, route.
  edestruct route_total as (n & c2 & w2 & ->). by do 3 eexists.
Qed.
End ownership.

(** * A cluster of two partitions *)

Module ClusterWitness.
Import Sample.
#[local] Instance sample_pool : BridgePool bool := {| make_pool _ := true; pool_shutdown _ _ := (Ok tt, false) |}.

Definition KCall : Type := ClusterCall string Beh bool Empty_set Empty_set.
Definition Clu : Type := SchedulerCluster string Beh nat bool Empty_set Empty_set.
Definition empty : Clu := cluster_new 2 NEXT_AGENT_PID NEXT_MONITOR_REF.
Definition krun (calls : list KCall) : Clu := default empty (fst <$> cluster_run 50 calls empty tt).

(** A sink in the first partition, somebody who forwards to it in the second. *)
Definition placed : list KCall := [KPool 2; KSpawn Sink ""; KSpawn (Forward P0) ""; KEnqueue P0; KEnqueue P1; KSend P1 (Text "hi")].
Definition sent : list KCall := placed ++ [KPartition 1 CTick].

Lemma messages_cross_partitions_witness :
  outbound_of (krun sent) = [(P0, Text "hi")] /\
  exists n c' p', route_outbound_messages (krun sent) tt = Some (n, c', tt) /\ lives P0 0 p' c' /\ p_mailbox p' = [Text "hi"].
Proof.
  split; [vm_compute; reflexivity|].
  destruct (messages_cross_partitions 50 2 sent tt (krun sent) tt) as (n & c' & Hr & _ & Hd & _).
  - repeat constructor.
  - vm_compute. discriminate.
  - vm_compute. reflexivity.
  - intros [|[|i]] s Hi; vm_compute in Hi; [injection Hi as <-; reflexivity|injection Hi as <-; reflexivity|discriminate Hi].
  - destruct (Hd P0 0%nat (default (mkProcess P0 Sink None [] 0 0 Runnable NormalPriority [] [] [] None false None)
      (s ← c_schedulers (krun sent) !! 0%nat; lookup_proc P0 s))) as (p' & Hp' & Hm).
    + eexists. split; vm_compute; reflexivity.
    + exists n, c', p'. split; [exact Hr|]. split; [exact Hp'|]. rewrite Hm. vm_compute. reflexivity.
Defined.

Lemma owners_exact_witness : (forall i, owner_of P1 (krun (placed ++ [KTick])) = Some i <-> exists p, lives P1 i p (krun (placed ++ [KTick]))) /\
  owner_of P1 (krun (placed ++ [KTick])) = Some 1%nat.
Proof.
  split; [|vm_compute; reflexivity]. intros i.
  apply (owners_exact 50 2 placed tt (krun (placed ++ [KTick])) tt).
  - repeat constructor.
  - vm_compute. discriminate.
  - vm_compute. reflexivity.
Defined.

(** In a whole tick the message is there at its end. *)
Lemma tick_routes : p_mailbox <$> (s ← c_schedulers (krun (placed ++ [KTick])) !! 0%nat; lookup_proc P0 s) = Some [Text "hi"].
Proof. vm_compute. reflexivity. Qed.

(** Who is spawned is in no queue, and a message does not put it into one, since it does not
    wait: without [enqueue] it never runs. *)
Lemma spawned_never_runs :
  p_mailbox <$> (s ← c_schedulers (krun [KSpawn Sink ""; KSend P0 (Text "a"); KTick; KTick; KTick]) !! 0%nat; lookup_proc P0 s) = Some [Text "a"].
Proof. vm_compute. reflexivity. Qed.

(** A message to nobody: the sender is told it was sent, and no partition keeps a dead letter. *)
Definition to_nobody : list KCall := [KSpawn (Forward 7) ""; KEnqueue P0; KSend P0 (Text "hi"); KTick].
Lemma unroutable_is_lost :
  (fun s => (s_outbound_messages s, dlq_total_count (s_dead_letters s))) <$> c_schedulers (krun to_nobody) = [([], 0); ([], 0)] /\
  p_mailbox <$> (s ← c_schedulers (krun to_nobody) !! 0%nat; lookup_proc P0 s) = Some [].
Proof. split; vm_compute; reflexivity. Qed.

(** A link between partitions does nothing: the linked process survives. *)
Definition linked_apart : list KCall :=
  [KSpawn Sink ""; KSpawn Sink ""; KPartition 0 (CLink P0 P1); KPartition 1 (CLink P1 P0); KPartition 0 (CTerminate P0 Shutdown); KTick].
Lemma link_does_not_cross : owner_of P0 (krun linked_apart) = None /\ owner_of P1 (krun linked_apart) = Some 1%nat.
Proof. split; vm_compute; reflexivity. Qed.
End ClusterWitness.
