(* ===== verification/Orchestration.v ===== *)
(** The orchestrator and its workers ([agent_rt/orchestration.rs]): a goal is decomposed
    into a graph of tasks, each ready task gets a worker process, results come back as
    messages, failures are retried or cascade, and the state is checkpointed.

    A behavior shares cells with others (the checkpoint store, the approval registry, the
    counter of pids, the clock): they are the world, and the theorems about runs let it be
    anything at every call. *)
From S2P Require Import Prelude Float64 Json Types TaskGraph RetryPolicy ResourceBudget ApprovalGate.
From S2P Require Import ResultAggregator Checkpoint.

Definition DECOMPOSE_KIND : string := "decompose_goal".
Definition DEFAULT_LLM_PROVIDER : string := "openai".
Definition DEFAULT_CHECKPOINT_KEY : string := "orchestrator-default".

(** An approval registry is shared by identity: a number. *)
Record OrchestratorBehavior (CS : Type) : Type := mkOrchestratorBehavior {
  ob_max_concurrency : Z;
  ob_checkpoint_store : option CS;
  ob_retry_strategy : RetryStrategy;
  ob_budget : option ResourceBudget;
  ob_aggregator : option ResultAggregator;
  ob_approval_registry : option nat;
  ob_max_depth : Z;
  ob_orch_id : string;
  ob_current_depth : Z
}.
Arguments mkOrchestratorBehavior {CS}.
Arguments ob_max_concurrency {CS}.
Arguments ob_checkpoint_store {CS}.
Arguments ob_retry_strategy {CS}.
Arguments ob_budget {CS}.
Arguments ob_aggregator {CS}.
Arguments ob_approval_registry {CS}.
Arguments ob_max_depth {CS}.
Arguments ob_orch_id {CS}.
Arguments ob_current_depth {CS}.

Definition orchestrator_default {CS} : OrchestratorBehavior CS :=
  mkOrchestratorBehavior 1 None RetryNone None None None 5 "orch-0" 0.

(** The behaviors of this file, as the trait objects that [Action::Spawn] carries. *)
Inductive OrchBehavior (CS : Type) : Type :=
| BOrchestrator (b : OrchestratorBehavior CS)
| BWorker.
Arguments BOrchestrator {CS} b.
Arguments BWorker {CS}.

Record OrchWorld (V SW : Type) : Type := mkOrchWorld {
  ow_store : SW;
  ow_registries : gmap nat (ApprovalRegistry V);
  ow_now : Instant;
  ow_next_pid : Z
}.
Arguments mkOrchWorld {V SW}.
Arguments ow_store {V SW}.
Arguments ow_registries {V SW}.
Arguments ow_now {V SW}.
Arguments ow_next_pid {V SW}.

Record OrchestratorState (V : Type) : Type := mkOrchestratorState {
  os_task_graph : TaskGraph V;
  os_pending_spawn_tasks : list V;
  os_active_workers : gmap Z string;
  os_worker_monitors : gmap Z Z;
  os_inflight_tasks : gmap string V;
  os_results : list V;
  os_partial_results : gmap string (list V);
  os_requester : option AgentPid;
  os_goal : V;
  os_self_pid : option AgentPid;
  os_checkpoint_key : string;
  os_resumed_from_checkpoint : bool;
  os_awaiting_decomposition : bool;
  os_decomposition_done : bool;
  os_retry_tracker : RetryTracker;
  os_budget : ResourceBudget
}.
Arguments mkOrchestratorState {V}.
Arguments os_task_graph {V}.
Arguments os_pending_spawn_tasks {V}.
Arguments os_active_workers {V}.
Arguments os_worker_monitors {V}.
Arguments os_inflight_tasks {V}.
Arguments os_results {V}.
Arguments os_partial_results {V}.
Arguments os_requester {V}.
Arguments os_goal {V}.
Arguments os_self_pid {V}.
Arguments os_checkpoint_key {V}.
Arguments os_resumed_from_checkpoint {V}.
Arguments os_awaiting_decomposition {V}.
Arguments os_decomposition_done {V}.
Arguments os_retry_tracker {V}.
Arguments os_budget {V}.

(** Assignments to one field. *)
Section setters.
Context {V : Type}.
Implicit Types s : OrchestratorState V.

Definition os_with_task_graph (x : TaskGraph V) s : OrchestratorState V :=
  mkOrchestratorState x (os_pending_spawn_tasks s) (os_active_workers s) (os_worker_monitors s)
    (os_inflight_tasks s) (os_results s) (os_partial_results s) (os_requester s) (os_goal s) (os_self_pid
    s) (os_checkpoint_key s) (os_resumed_from_checkpoint s) (os_awaiting_decomposition s)
    (os_decomposition_done s) (os_retry_tracker s) (os_budget s).
Definition os_with_pending_spawn_tasks (x : list V) s : OrchestratorState V :=
  mkOrchestratorState (os_task_graph s) x (os_active_workers s) (os_worker_monitors s) (os_inflight_tasks
    s) (os_results s) (os_partial_results s) (os_requester s) (os_goal s) (os_self_pid s)
    (os_checkpoint_key s) (os_resumed_from_checkpoint s) (os_awaiting_decomposition s)
    (os_decomposition_done s) (os_retry_tracker s) (os_budget s).
Definition os_with_active_workers (x : gmap Z string) s : OrchestratorState V :=
  mkOrchestratorState (os_task_graph s) (os_pending_spawn_tasks s) x (os_worker_monitors s)
    (os_inflight_tasks s) (os_results s) (os_partial_results s) (os_requester s) (os_goal s) (os_self_pid
    s) (os_checkpoint_key s) (os_resumed_from_checkpoint s) (os_awaiting_decomposition s)
    (os_decomposition_done s) (os_retry_tracker s) (os_budget s).
Definition os_with_worker_monitors (x : gmap Z Z) s : OrchestratorState V :=
  mkOrchestratorState (os_task_graph s) (os_pending_spawn_tasks s) (os_active_workers s) x
    (os_inflight_tasks s) (os_results s) (os_partial_results s) (os_requester s) (os_goal s) (os_self_pid
    s) (os_checkpoint_key s) (os_resumed_from_checkpoint s) (os_awaiting_decomposition s)
    (os_decomposition_done s) (os_retry_tracker s) (os_budget s).
Definition os_with_inflight_tasks (x : gmap string V) s : OrchestratorState V :=
  mkOrchestratorState (os_task_graph s) (os_pending_spawn_tasks s) (os_active_workers s)
    (os_worker_monitors s) x (os_results s) (os_partial_results s) (os_requester s) (os_goal s)
    (os_self_pid s) (os_checkpoint_key s) (os_resumed_from_checkpoint s) (os_awaiting_decomposition s)
    (os_decomposition_done s) (os_retry_tracker s) (os_budget s).
Definition os_with_results (x : list V) s : OrchestratorState V :=
  mkOrchestratorState (os_task_graph s) (os_pending_spawn_tasks s) (os_active_workers s)
    (os_worker_monitors s) (os_inflight_tasks s) x (os_partial_results s) (os_requester s) (os_goal s)
    (os_self_pid s) (os_checkpoint_key s) (os_resumed_from_checkpoint s) (os_awaiting_decomposition s)
    (os_decomposition_done s) (os_retry_tracker s) (os_budget s).
Definition os_with_partial_results (x : gmap string (list V)) s : OrchestratorState V :=
  mkOrchestratorState (os_task_graph s) (os_pending_spawn_tasks s) (os_active_workers s)
    (os_worker_monitors s) (os_inflight_tasks s) (os_results s) x (os_requester s) (os_goal s)
    (os_self_pid s) (os_checkpoint_key s) (os_resumed_from_checkpoint s) (os_awaiting_decomposition s)
    (os_decomposition_done s) (os_retry_tracker s) (os_budget s).
Definition os_with_requester (x : option AgentPid) s : OrchestratorState V :=
  mkOrchestratorState (os_task_graph s) (os_pending_spawn_tasks s) (os_active_workers s)
    (os_worker_monitors s) (os_inflight_tasks s) (os_results s) (os_partial_results s) x (os_goal s)
    (os_self_pid s) (os_checkpoint_key s) (os_resumed_from_checkpoint s) (os_awaiting_decomposition s)
    (os_decomposition_done s) (os_retry_tracker s) (os_budget s).
Definition os_with_goal (x : V) s : OrchestratorState V :=
  mkOrchestratorState (os_task_graph s) (os_pending_spawn_tasks s) (os_active_workers s)
    (os_worker_monitors s) (os_inflight_tasks s) (os_results s) (os_partial_results s) (os_requester s) x
    (os_self_pid s) (os_checkpoint_key s) (os_resumed_from_checkpoint s) (os_awaiting_decomposition s)
    (os_decomposition_done s) (os_retry_tracker s) (os_budget s).
Definition os_with_self_pid (x : option AgentPid) s : OrchestratorState V :=
  mkOrchestratorState (os_task_graph s) (os_pending_spawn_tasks s) (os_active_workers s)
    (os_worker_monitors s) (os_inflight_tasks s) (os_results s) (os_partial_results s) (os_requester s)
    (os_goal s) x (os_checkpoint_key s) (os_resumed_from_checkpoint s) (os_awaiting_decomposition s)
    (os_decomposition_done s) (os_retry_tracker s) (os_budget s).
Definition os_with_resumed_from_checkpoint (x : bool) s : OrchestratorState V :=
  mkOrchestratorState (os_task_graph s) (os_pending_spawn_tasks s) (os_active_workers s)
    (os_worker_monitors s) (os_inflight_tasks s) (os_results s) (os_partial_results s) (os_requester s)
    (os_goal s) (os_self_pid s) (os_checkpoint_key s) x (os_awaiting_decomposition s)
    (os_decomposition_done s) (os_retry_tracker s) (os_budget s).
Definition os_with_awaiting_decomposition (x : bool) s : OrchestratorState V :=
  mkOrchestratorState (os_task_graph s) (os_pending_spawn_tasks s) (os_active_workers s)
    (os_worker_monitors s) (os_inflight_tasks s) (os_results s) (os_partial_results s) (os_requester s)
    (os_goal s) (os_self_pid s) (os_checkpoint_key s) (os_resumed_from_checkpoint s) x
    (os_decomposition_done s) (os_retry_tracker s) (os_budget s).
Definition os_with_decomposition_done (x : bool) s : OrchestratorState V :=
  mkOrchestratorState (os_task_graph s) (os_pending_spawn_tasks s) (os_active_workers s)
    (os_worker_monitors s) (os_inflight_tasks s) (os_results s) (os_partial_results s) (os_requester s)
    (os_goal s) (os_self_pid s) (os_checkpoint_key s) (os_resumed_from_checkpoint s)
    (os_awaiting_decomposition s) x (os_retry_tracker s) (os_budget s).
Definition os_with_retry_tracker (x : RetryTracker) s : OrchestratorState V :=
  mkOrchestratorState (os_task_graph s) (os_pending_spawn_tasks s) (os_active_workers s)
    (os_worker_monitors s) (os_inflight_tasks s) (os_results s) (os_partial_results s) (os_requester s)
    (os_goal s) (os_self_pid s) (os_checkpoint_key s) (os_resumed_from_checkpoint s)
    (os_awaiting_decomposition s) (os_decomposition_done s) x (os_budget s).
Definition os_with_budget (x : ResourceBudget) s : OrchestratorState V :=
  mkOrchestratorState (os_task_graph s) (os_pending_spawn_tasks s) (os_active_workers s)
    (os_worker_monitors s) (os_inflight_tasks s) (os_results s) (os_partial_results s) (os_requester s)
    (os_goal s) (os_self_pid s) (os_checkpoint_key s) (os_resumed_from_checkpoint s)
    (os_awaiting_decomposition s) (os_decomposition_done s) (os_retry_tracker s) x.
End setters.

Record WorkerState : Type := mkWorkerState {
  ws_parent : AgentPid;
  ws_task_id : string;
  ws_awaiting_result : bool;
  ws_worker_pid : option Z;
  ws_max_turns : Z;
  ws_turn_count : Z
}.

Inductive OrchState (V : Type) : Type :=
| SOrchestrator (s : OrchestratorState V)
| SWorker (s : WorkerState).
Arguments SOrchestrator {V} s.
Arguments SWorker {V} s.

(** [parse_worker_result]'s answer. *)
Record WorkerResult (V : Type) : Type := mkWorkerResult {
  wr_worker_pid : option Z;
  wr_task_id : option string;
  wr_as_json : V
}.
Arguments mkWorkerResult {V}.
Arguments wr_worker_pid {V}.
Arguments wr_task_id {V}.
Arguments wr_as_json {V}.

(** * Helpers on JSON values *)

Section helpers.
Context {V : Type} `{JL : JsonLib V}.

Definition parse_pid (v : option V) : option AgentPid := v ≫= jas_u64.

Definition extract_task_id (task : V) (fallback : string) : string := default fallback (jget_str task "task_id").

Definition io_value (res : IoResult V) : option V := match res with IoOk v => Some v | _ => None end.

Definition extract_tasks (goal : V) (res : IoResult V) : list V :=
  let tasks_value :=
    v ← io_value res;
    match jget v "tasks" with
    | Some tasks => Some tasks
    | None => p ← jget v "payload"; jget p "tasks"
    end in
  match tasks_value ≫= jas_array with
  | Some (t :: ts) => t :: ts
  | _ => [json_object [("task_id", jstr "task-0"); ("goal", goal)]]
  end.

Definition io_result_to_value (res : IoResult V) : V :=
  match res with
  | IoOk v => json_object [("ok", jbool true); ("value", v)]
  | IoError err => json_object [("ok", jbool false); ("error", jstr err)]
  | IoTimeout => json_object [("ok", jbool false); ("error", jstr "timeout")]
  end.

Definition reason_to_value (reason : Reason) : V :=
  match reason with
  | Normal => jstr "normal"
  | Shutdown => jstr "shutdown"
  | CustomReason s => jstr s
  end.

Definition parse_worker_result (payload : V) : option (WorkerResult V) :=
  if decide (jget_str payload "type" = Some "worker_result") then
    Some (mkWorkerResult (jget_u64 payload "worker_pid") (jget_str payload "task_id") payload)
  else None.

Definition build_llm_request_from_task (task : V) : IoOp V :=
  AgentChat
    (default DEFAULT_LLM_PROVIDER (jget_str task "provider"))
    (jget_str task "model")
    (jget_str task "system")
    (match jget_str task "prompt" with
     | Some p => p
     | None => default (jto_string task) (jget_str task "goal")
     end)
    (match jget_array task "tools" with Some arr => Some (omap jas_str arr) | None => None end)
    (jget_u64 task "max_iterations")
    (jget_u64 task "timeout_ms").
End helpers.

(** * The orchestrator *)

Section orchestrator.
Context {V CS SW : Type} `{JL : JsonLib V} `{CK : CheckpointStore V CS SW} `{HO : HashOrder}.
Implicit Types (b : OrchestratorBehavior CS) (s : OrchestratorState V) (w : OrchWorld V SW) (task : V).

#[local] Abbreviation Act := (Action V (OrchBehavior CS)).

Definition ow_with_store (x : SW) w : OrchWorld V SW := mkOrchWorld x (ow_registries w) (ow_now w) (ow_next_pid w).
Definition ow_with_registry (h : nat) (r : ApprovalRegistry V) w : OrchWorld V SW :=
  mkOrchWorld (ow_store w) (<[h := r]> (ow_registries w)) (ow_now w) (ow_next_pid w).
Definition registry_of (h : nat) w : ApprovalRegistry V := default approval_new (ow_registries w !! h).

(** [AgentPid::default()] is a new pid. *)
Definition pid_or_default (o : option AgentPid) w : AgentPid * OrchWorld V SW :=
  match o with
  | Some p => (p, w)
  | None =>
      let '(p, next) := fetch_add1 (ow_next_pid w) in
      (p, mkOrchWorld (ow_store w) (ow_registries w) (ow_now w) next)
  end.

Definition can_spawn_more s (max_concurrency : Z) : bool :=
  if negb (os_decomposition_done s) || os_awaiting_decomposition s then false
  else
    match ready_tasks (os_task_graph s) with
    | [] => false
    | _ =>
        Z.of_nat (size (os_active_workers s)) + Z.of_nat (length (os_pending_spawn_tasks s)) <? Z.max max_concurrency 1
    end.

Definition orch_is_complete s : bool :=
  os_decomposition_done s && negb (os_awaiting_decomposition s) && tg_is_complete (os_task_graph s) &&
  match os_pending_spawn_tasks s with [] => true | _ => false end &&
  bool_decide (os_active_workers s = ∅).

(** ** Checkpoints *)

Definition load_checkpoint b (key : string) w : option (V * list V * list V) :=
  store ← ob_checkpoint_store b;
  value ← match ck_load store key (ow_store w) with Ok o => o | Err _ => None end;
  goal ← jget value "goal";
  Some (goal, default [] (jget_array value "completed_results"), default [] (jget_array value "pending_tasks")).

(** What is left to do, as the checkpoint has it. *)
Definition checkpoint_tasks s : list V :=
  ready_tasks (os_task_graph s) ++ os_pending_spawn_tasks s ++ hash_values (os_inflight_tasks s).

Definition checkpoint_value s : V :=
  json_object [("goal", os_goal s); ("completed_results", jarr (os_results s)); ("pending_tasks", jarr (checkpoint_tasks s))].

Definition persist_checkpoint b s w : OrchWorld V SW :=
  match ob_checkpoint_store b with
  | Some store => ow_with_store (ck_save store (os_checkpoint_key s) (checkpoint_value s) (ow_store w)).2 w
  | None => w
  end.

Definition clear_checkpoint b (key : string) w : OrchWorld V SW :=
  match ob_checkpoint_store b with
  | Some store => ow_with_store (ck_delete store key (ow_store w)).2 w
  | None => w
  end.

Definition orch_init b (args : V) w : result (OrchestratorState V) Reason * OrchWorld V SW :=
  let requester := parse_pid (jget args "requester_pid") in
  let self_pid := parse_pid (jget args "self_pid") in
  let checkpoint_key := default DEFAULT_CHECKPOINT_KEY (jget_str args "checkpoint_key") in
  let budget := default budget_unlimited (ob_budget b) in
  let tracker := retry_new (ob_retry_strategy b) in
  match load_checkpoint b checkpoint_key w with
  | Some (goal, completed_results, pending_tasks) =>
      (Ok (mkOrchestratorState (add_tasks tg_new pending_tasks).1 [] ∅ ∅ ∅ completed_results ∅ requester goal self_pid
             checkpoint_key true false true tracker budget), w)
  | None =>
      (Ok (mkOrchestratorState tg_new [] ∅ ∅ ∅ [] ∅ requester (default jnull (jget args "goal")) self_pid
             checkpoint_key false false false tracker budget), w)
  end.

(** ** Approval *)

Fixpoint poll_decisions (orch_id : string) (ready : list V) (r : ApprovalRegistry V)
    : list (string * ApprovalDecision) * ApprovalRegistry V :=
  match ready with
  | [] => ([], r)
  | task :: ready =>
      match jget_str task "task_id" with
      | Some task_id =>
          if task_requires_approval task then
            let '(decision, r) := take_decision orch_id task_id r in
            let '(actions, r) := poll_decisions orch_id ready r in
            (match decision with Some d => (task_id, d) :: actions | None => actions end, r)
          else poll_decisions orch_id ready r
      | None => poll_decisions orch_id ready r
      end
  end.

Definition apply_decision (g : TaskGraph V) (action : string * ApprovalDecision) : TaskGraph V :=
  match action.2 with
  | Approved => set_status g action.1 Ready
  | Rejected _ => fail_dependents (mark_failed g action.1) action.1
  end.

Definition poll_approval_registry b s w : OrchestratorState V * OrchWorld V SW :=
  match ob_approval_registry b with
  | Some h =>
      let '(actions, r) := poll_decisions (ob_orch_id b) (ready_tasks (os_task_graph s)) (registry_of h w) in
      (os_with_task_graph (foldl apply_decision (os_task_graph s) actions) s, ow_with_registry h r w)
  | None => (s, w)
  end.

(** ** The next action *)

Definition worker_args (parent : AgentPid) (task_id : string) : V :=
  json_object [("parent_pid", jnum parent); ("task_id", jstr task_id)].

Definition spawn_worker s (task_id : string) w : Act * OrchWorld V SW :=
  let '(parent, w) := pid_or_default (os_self_pid s) w in
  (Spawn BWorker (worker_args parent task_id) false true, w).

Definition spawn_sub_orchestrator b s task (task_id : string) : Act :=
  let sub := mkOrchestratorBehavior
    (default (ob_max_concurrency b) (jget_u64 task "max_concurrency"))
    (ob_checkpoint_store b) (ob_retry_strategy b) None (ob_aggregator b) (ob_approval_registry b) (ob_max_depth b)
    (ob_orch_id b +:+ "-" +:+ task_id) (ob_current_depth b + 1) in
  Spawn (BOrchestrator sub)
    (json_object [("goal", default jnull (jget task "goal")); ("parent_pid", json_option jnum (os_self_pid s))])
    false true.

(** The registry to ask about [task], if it needs one and there is one. *)
Definition approval_needed b task : option nat := if task_requires_approval task then ob_approval_registry b else None.

Definition finalize b s w : Act * OrchestratorState V * OrchWorld V SW :=
  let w := clear_checkpoint b (os_checkpoint_key s) w in
  let final_result :=
    match ob_aggregator b with
    | Some aggregator => aggregate aggregator (os_results s)
    | None => jarr (os_results s)
    end in
  let summary := json_object [("type", jstr "orchestration_complete"); ("goal", os_goal s); ("results", final_result)] in
  match os_requester s with
  | Some requester => (Send requester (Json summary), s, w)
  | None => (Stop Normal, s, w)
  end.

Definition depth_exceeded (task_id : string) : V :=
  json_object [("type", jstr "sub_orchestration_depth_exceeded"); ("task_id", jstr task_id)].

Fixpoint next_or_finalize (fuel : nat) b s w : option (Act * OrchestratorState V * OrchWorld V SW) :=
  match fuel with
  | O => None
  | S fuel =>
      let '(s, w) := poll_approval_registry b s w in
      if can_spawn_more s (ob_max_concurrency b) then
        match ready_tasks (os_task_graph s) with
        | [] => Some (Continue, s, w)
        | task :: _ =>
            let task_id := default "" (jget_str task "task_id") in
            if decide (task_id = "") then
              let fallback :=
                "task-" +:+ pretty (Z.of_nat (size (os_active_workers s)) + Z.of_nat (length (os_pending_spawn_tasks s))) in
              let task_id := extract_task_id task fallback in
              let s := os_with_pending_spawn_tasks (os_pending_spawn_tasks s ++ [task]) s in
              let w := persist_checkpoint b s w in
              let '(act, w) := spawn_worker s task_id w in
              Some (act, s, w)
            else
              match approval_needed b task with
              | Some h =>
                  let s := os_with_task_graph (set_status (os_task_graph s) task_id AwaitingApproval) s in
                  let r := request_approval (ob_orch_id b) task_id (approval_message task) task (ow_now w) (registry_of h w) in
                  Some (Continue, s, ow_with_registry h r w)
              | None =>
                  if decide (jget_str task "type" = Some "sub_orchestration") then
                    if ob_max_depth b <=? ob_current_depth b then
                      let s := os_with_task_graph (mark_failed (os_task_graph s) task_id) s in
                      let s := os_with_results (os_results s ++ [depth_exceeded task_id]) s in
                      next_or_finalize fuel b s w
                    else Some (spawn_sub_orchestrator b s task task_id, s, w)
                  else
                    let s := os_with_task_graph (mark_running (os_task_graph s) task_id) s in
                    let s := os_with_pending_spawn_tasks (os_pending_spawn_tasks s ++ [task]) s in
                    let w := persist_checkpoint b s w in
                    let '(act, w) := spawn_worker s task_id w in
                    Some (act, s, w)
              end
        end
      else if orch_is_complete s then Some (finalize b s w)
      else Some (Continue, s, w)
  end.

(** Each call of itself fails a ready task, so there are as many as there are ready tasks. *)
Definition next_fuel s : nat := S (length (ready_tasks (os_task_graph s))).

Definition persist_and_next b s w : option (Act * OrchestratorState V * OrchWorld V SW) :=
  next_or_finalize (next_fuel s) b s (persist_checkpoint b s w).

(** ** Messages *)

Definition handle_progress (payload : V) s : Act * OrchestratorState V :=
  let s :=
    match jget_str payload "task_id" with
    | Some task_id =>
        os_with_partial_results
          (<[task_id := default [] (os_partial_results s !! task_id) ++ [payload]]> (os_partial_results s)) s
    | None => s
    end in
  match os_requester s with
  | Some requester => (Send requester (Json payload), s)
  | None => (Continue, s)
  end.

Definition shutdown_worker : V := json_object [("type", jstr "shutdown_worker")].

(** The state changes of a worker's result. *)
Definition take_result (payload : V) (res : WorkerResult V) s : OrchestratorState V :=
  let s :=
    match parse_usage payload with
    | Some usage => os_with_budget (record_usage usage (os_budget s)).2 s
    | None => s
    end in
  let s :=
    match wr_task_id res with
    | Some task_id => os_with_task_graph (mark_completed (os_task_graph s) task_id) s
    | None => s
    end in
  let s := os_with_results (os_results s ++ [wr_as_json res]) s in
  match wr_task_id res with
  | Some task_id => os_with_inflight_tasks (delete task_id (os_inflight_tasks s)) s
  | None => s
  end.

Definition handle_result b (payload : V) (res : WorkerResult V) s w : option (Act * OrchestratorState V * OrchWorld V SW) :=
  let s := take_result payload res s in
  match wr_worker_pid res with
  | Some worker_pid => Some (Send worker_pid (Json shutdown_worker), s, persist_checkpoint b s w)
  | None => persist_and_next b s w
  end.

Definition adopt_pids (payload : V) s : OrchestratorState V :=
  let s := os_with_requester
    (match parse_pid (jget payload "requester_pid") with Some p => Some p | None => os_requester s end) s in
  os_with_self_pid (match parse_pid (jget payload "self_pid") with Some p => Some p | None => os_self_pid s end) s.

(** The state of an orchestrator that has just been given [goal]. *)
Definition reset_for (goal : V) s : OrchestratorState V :=
  mkOrchestratorState tg_new [] ∅ ∅ ∅ [] ∅ (os_requester s) goal (os_self_pid s) (os_checkpoint_key s) false true false
    (os_retry_tracker s) (os_budget s).

Definition decompose_op (goal : V) : IoOp V := Custom DECOMPOSE_KIND (json_object [("goal", goal)]).

Definition handle_goal b (payload : V) s w : option (Act * OrchestratorState V * OrchWorld V SW) :=
  let incoming_goal := default payload (jget payload "goal") in
  if os_resumed_from_checkpoint s && bool_decide (incoming_goal = os_goal s)
     && negb (bool_decide (jget_bool payload "restart" = Some true)) then
    let s := os_with_resumed_from_checkpoint false (adopt_pids payload s) in
    persist_and_next b s w
  else
    let s := reset_for incoming_goal (adopt_pids payload s) in
    Some (IoRequest (decompose_op (os_goal s)), s, persist_checkpoint b s w).

Definition handle_json b (payload : V) s w : option (Act * OrchestratorState V * OrchWorld V SW) :=
  if decide (jget_str payload "type" = Some "worker_progress") then
    let '(act, s) := handle_progress payload s in Some (act, s, w)
  else
    match parse_worker_result payload with
    | Some res => handle_result b payload res s w
    | None => handle_goal b payload s w
    end.

Definition cycle_error (e : string) : V := json_object [("error", jstr ("cycle detected: " +:+ e))].

Definition handle_decomposition b (res : IoResult V) s w : option (Act * OrchestratorState V * OrchWorld V SW) :=
  let s := os_with_awaiting_decomposition false s in
  let s := os_with_decomposition_done true s in
  let '(g, added) := add_tasks (os_task_graph s) (extract_tasks (os_goal s) res) in
  let s := os_with_task_graph g s in
  match added with
  | Err e => Some (Continue, os_with_results (os_results s ++ [cycle_error e]) s, w)
  | Ok _ => persist_and_next b s w
  end.

Definition run_task_message (child_pid : Z) (monitor_ref : option Z) (task_id : string) task : V :=
  json_object [("type", jstr "run_task"); ("worker_pid", jnum child_pid); ("monitor_ref", json_option jnum monitor_ref);
               ("task_id", jstr task_id); ("task", task)].

(** A spawned worker takes over the oldest task that waits for one. *)
Definition assign_worker (child_pid : Z) (monitor_ref : option Z) task (rest : list V) s : string * OrchestratorState V :=
  let task_id := extract_task_id task ("task-" +:+ pretty child_pid) in
  let s := os_with_pending_spawn_tasks rest s in
  let s := os_with_active_workers (<[child_pid := task_id]> (os_active_workers s)) s in
  let s := os_with_inflight_tasks (<[task_id := task]> (os_inflight_tasks s)) s in
  (task_id, match monitor_ref with
            | Some mon_ref => os_with_worker_monitors (<[child_pid := mon_ref]> (os_worker_monitors s)) s
            | None => s
            end).

Definition handle_spawn_result b (child_pid : Z) (monitor_ref : option Z) s w
    : option (Act * OrchestratorState V * OrchWorld V SW) :=
  match os_pending_spawn_tasks s with
  | [] => next_or_finalize (next_fuel s) b s w
  | task :: rest =>
      let '(task_id, s) := assign_worker child_pid monitor_ref task rest s in
      Some (Send child_pid (Json (run_task_message child_pid monitor_ref task_id task)), s, persist_checkpoint b s w)
  end.

Definition worker_error (pid : Z) (task_id : string) (reason : Reason) : V :=
  json_object [("type", jstr "worker_error"); ("worker_pid", jnum pid); ("task_id", jstr task_id);
               ("reason", reason_to_value reason)].

(** The end of the worker that has the task: it is retried, or it fails with everything
    that depends on it. *)
Definition worker_gone (pid : Z) (task_id : string) (reason : Reason) s : OrchestratorState V :=
  let s := os_with_inflight_tasks (delete task_id (os_inflight_tasks s)) s in
  if is_normal reason then s
  else
    let '(delay, tracker) := should_retry (os_retry_tracker s) task_id in
    let s := os_with_retry_tracker tracker s in
    match delay with
    | Some _ => os_with_task_graph (set_status (os_task_graph s) task_id Ready) s
    | None =>
        let s := os_with_task_graph (fail_dependents (mark_failed (os_task_graph s) task_id) task_id) s in
        os_with_results (os_results s ++ [worker_error pid task_id reason]) s
    end.

(** [active_workers.remove(&pid)] and what follows. *)
Definition forget_worker (pid : Z) (reason : Reason) s : OrchestratorState V :=
  let removed := os_active_workers s !! pid in
  let s := os_with_active_workers (delete pid (os_active_workers s)) s in
  match removed with
  | Some task_id => worker_gone pid task_id reason s
  | None => s
  end.

Definition handle_down b (pid : Z) (reason : Reason) s w : option (Act * OrchestratorState V * OrchWorld V SW) :=
  let s := forget_worker pid reason (os_with_worker_monitors (delete pid (os_worker_monitors s)) s) in
  persist_and_next b s w.

Definition orch_handle_exit b (from : AgentPid) (reason : Reason) s w : option (Act * OrchestratorState V * OrchWorld V SW) :=
  persist_and_next b (forget_worker from reason s) w.

Definition orch_handle_message b (msg : Message V) s w : option (Act * OrchestratorState V * OrchWorld V SW) :=
  let '(s, w) := poll_approval_registry b s w in
  match msg with
  | Json payload => handle_json b payload s w
  | System (IoResponse _ res) => handle_decomposition b res s w
  | System (SpawnResult child_pid monitor_ref) => handle_spawn_result b child_pid monitor_ref s w
  | System (Down _ pid reason) => handle_down b pid reason s w
  | _ => Some (Continue, s, w)
  end.

(** * Workers *)

Definition worker_init (args : V) : result WorkerState Reason :=
  match parse_pid (jget args "parent_pid") with
  | None => Err (CustomReason "worker init requires parent_pid")
  | Some parent_pid =>
      Ok (mkWorkerState parent_pid (default "task" (jget_str args "task_id")) false None
            (default 10 (jget_u64 args "max_turns")) 0)
  end.

Definition worker_busy : V := json_object [("type", jstr "worker_busy")].

Definition ws_with_awaiting (x : bool) (s : WorkerState) : WorkerState :=
  mkWorkerState (ws_parent s) (ws_task_id s) x (ws_worker_pid s) (ws_max_turns s) (ws_turn_count s).

Definition worker_report (s : WorkerState) (res : IoResult V) : V :=
  json_object [("type", jstr "worker_result"); ("worker_pid", json_option jnum (ws_worker_pid s));
               ("task_id", jstr (ws_task_id s)); ("result", io_result_to_value res)].

Definition worker_handle_json (payload : V) (s : WorkerState) : Act * WorkerState :=
  let type := jget_str payload "type" in
  if decide (type = Some "shutdown_worker") then (Stop Normal, s)
  else if decide (type = Some "follow_up") then
    if ws_awaiting_result s then (Send (ws_parent s) (Json worker_busy), s)
    else
      (IoRequest (AgentChat "default" None None (default "" (jget_str payload "prompt")) None None None),
       ws_with_awaiting true s)
  else if decide (type = Some "run_task") then
    let s := mkWorkerState (ws_parent s) (default (ws_task_id s) (jget_str payload "task_id")) true
               (jget_u64 payload "worker_pid") (ws_max_turns s) (ws_turn_count s) in
    (IoRequest (build_llm_request_from_task (default jnull (jget payload "task"))), s)
  else (Continue, s).

Definition worker_handle_io (res : IoResult V) (s : WorkerState) : Act * WorkerState :=
  if negb (ws_awaiting_result s) then (Continue, s)
  else
    let s := mkWorkerState (ws_parent s) (ws_task_id s) false (ws_worker_pid s) (ws_max_turns s)
               (wrap64 (ws_turn_count s + 1)) in
    if ws_max_turns s <=? ws_turn_count s then (Stop Normal, s)
    else (Send (ws_parent s) (Json (worker_report s res)), s).

Definition worker_handle_message (msg : Message V) (s : WorkerState) : Act * WorkerState :=
  match msg with
  | Json payload => worker_handle_json payload s
  | System (IoResponse _ res) => worker_handle_io res s
  | System ReceiveTimeout => (Stop Shutdown, s)
  | _ => (Continue, s)
  end.

(** * The trait *)

Definition of_orchestrator (o : option (Act * OrchestratorState V * OrchWorld V SW)) w
    : outcome (Act * OrchState V) * OrchWorld V SW :=
  match o with
  | Some (act, s, w) => (Returned (act, SOrchestrator s), w)
  | None => (Panicked "no result", w)
  end.

#[global] Instance orchestration_behavior : AgentBehavior V (OrchBehavior CS) (OrchState V) (OrchWorld V SW) := {
  b_init bh args w :=
    match bh with
    | BOrchestrator b =>
        match orch_init b args w with
        | (Ok s, w) => (Ok (SOrchestrator s), w)
        | (Err e, w) => (Err e, w)
        end
    | BWorker => (match worker_init args with Ok s => Ok (SWorker s) | Err e => Err e end, w)
    end;
  b_handle_message bh msg st w :=
    match bh, st with
    | BOrchestrator b, SOrchestrator s => of_orchestrator (orch_handle_message b msg s w) w
    | BOrchestrator _, _ => (Panicked "orchestrator state type", w)
    | BWorker, SWorker s => let '(act, s) := worker_handle_message msg s in (Returned (act, SWorker s), w)
    | BWorker, _ => (Panicked "worker state type", w)
    end;
  b_handle_exit bh from reason st w :=
    match bh, st with
    | BOrchestrator b, SOrchestrator s => of_orchestrator (orch_handle_exit b from reason s w) w
    | BOrchestrator _, _ => (Panicked "orchestrator state type", w)
    | BWorker, _ => (Returned (Continue, st), w)
    end;
  b_terminate _ _ _ w := w
}.
End orchestrator.

(** * Changes of the task graph *)

Section graph.
Context {V : Type} `{JL : JsonLib V} `{HO : HashOrder}.
Implicit Types (g : TaskGraph V) (n : TaskNode V).

(** Every task is stored under its own id, with the dependencies it names. *)
Definition graph_wf g : Prop :=
  forall id n, tg_tasks g !! id = Some n ->
    jget_str (tn_task n) "task_id" = Some id /\ tn_depends_on n = parse_depends_on (tn_task n).

Definition same_task n n' : Prop := tn_task n' = tn_task n /\ tn_depends_on n' = tn_depends_on n.

(** From [st] to [st'] without completing, and without becoming ready again. *)
Definition demoted (st st' : TaskStatus) : Prop :=
  st' = st \/ st' = Failed \/ st' = Skipped \/ (st = Ready /\ st' <> Completed).

Definition narrows g g' : Prop :=
  tg_insertion_order g' = tg_insertion_order g /\
  forall id, option_Forall2 (fun n n' => same_task n n' /\ demoted (tn_status n) (tn_status n'))
    (tg_tasks g !! id) (tg_tasks g' !! id).

#[export] Instance narrows_refl : Reflexive narrows.
Proof. intros g. split; [done|]. intros id. destruct (tg_tasks g !! id); constructor. split; [done|by left]. Qed.

#[export] Instance narrows_trans : Transitive narrows.
Proof.
  intros g1 g2 g3 [Ho1 H1] [Ho2 H2]. split; [congruence|]. intros id. specialize (H1 id). specialize (H2 id).
  destruct H1 as [n1 n2 [[Ht1 Hd1] Hs1]|]; inversion H2 as [? n3 [[Ht2 Hd2] Hs2]|]; subst; constructor.
  split; [split; congruence|]. unfold demoted in *. naive_solver congruence.
Qed.

Lemma narrows_lookup g g' id n' :
  narrows g g' -> tg_tasks g' !! id = Some n' ->
  exists n, tg_tasks g !! id = Some n /\ same_task n n' /\ demoted (tn_status n) (tn_status n').
Proof. intros [_ H] Hn. specialize (H id). rewrite Hn in H. inversion H as [n ? [? ?]|]; subst. by exists n. Qed.

Lemma narrows_wf g g' : narrows g g' -> graph_wf g -> graph_wf g'.
Proof.
  intros Hn Hwf id n' Hn'. destruct (narrows_lookup _ _ _ _ Hn Hn') as (n & Hg & [-> ->] & _). by apply Hwf.
Qed.

(** A task that was ready is set to anything but [Completed]. *)
Lemma set_status_narrows g0 g id st :
  narrows g0 g -> (forall n, tg_tasks g0 !! id = Some n -> demoted (tn_status n) st) -> narrows g0 (set_status g id st).
Proof.
  intros [Ho H] Hst. split; [done|]. intros x. specialize (H x). rewrite set_status_lookup. case_decide as Hx; [subst|done].
  destruct (tg_tasks g0 !! id) as [n|] eqn:Hn; inversion H as [? n' [Hs _]|]; subst; cbn; constructor.
  split; [done|]. by apply Hst.
Qed.

Lemma ready_demoted n st : tn_status n = Ready -> st <> Completed -> demoted (tn_status n) st.
Proof. intros. right; right; right. done. Qed.

Lemma fail_narrows g id : narrows g (fail_dependents (mark_failed g id) id).
Proof.
  transitivity (mark_failed g id); [apply set_status_narrows; [done|by right; left]|].
  destruct (fail_dependents_skips (mark_failed g id) id) as (K & Hsk & _ & Ho). split; [done|].
  intros x. rewrite Hsk. case_decide; destruct (tg_tasks (mark_failed g id) !! x); constructor.
  - split; [done|by right; right; left].
  - split; [done|by left].
Qed.

Lemma elem_of_ready_tasks g task :
  task ∈ ready_tasks g -> exists id n, tg_tasks g !! id = Some n /\ tn_status n = Ready /\ tn_task n = task.
Proof.
  unfold ready_tasks. intros (id & _ & Hid)%list_elem_of_omap.
  destruct (tg_tasks g !! id) as [n|] eqn:Hn; [|done]. cbn in Hid. case_decide; [|done]. simplify_eq. eauto.
Qed.

Definition is_ready g (id : string) : Prop := exists n, tg_tasks g !! id = Some n /\ tn_status n = Ready.

Lemma narrows_ready g g' id : narrows g g' -> is_ready g' id -> is_ready g id.
Proof.
  intros Hn (n' & Hn' & Hr). destruct (narrows_lookup _ _ _ _ Hn Hn') as (n & Hg & _ & Hd). exists n. split; [done|].
  unfold demoted in Hd. rewrite Hr in Hd. naive_solver.
Qed.

Definition ready_entry g (id : string) : option V :=
  n ← tg_tasks g !! id; if decide (tn_status n = Ready) then Some (tn_task n) else None.

Lemma ready_entry_Some g id : is_Some (ready_entry g id) <-> is_ready g id.
Proof.
  unfold ready_entry, is_ready. destruct (tg_tasks g !! id) as [n|]; cbn; [|naive_solver].
  case_decide; naive_solver.
Qed.

Lemma omap_length_le {A C} (f f' : A -> option C) (l : list A) :
  (forall x, is_Some (f' x) -> is_Some (f x)) -> (length (omap f' l) <= length (omap f l))%nat.
Proof.
  intros Hf. induction l as [|x l IH]; [done|]. cbn. specialize (Hf x).
  destruct (f' x); [destruct Hf as [y ->]; [done|]; cbn; lia|]. destruct (f x); cbn; lia.
Qed.

Lemma omap_length_lt {A C} (f f' : A -> option C) (l : list A) x :
  (forall x, is_Some (f' x) -> is_Some (f x)) -> x ∈ l -> is_Some (f x) -> f' x = None ->
  (length (omap f' l) < length (omap f l))%nat.
Proof.
  intros Hf Hin [y Hy] Hn. induction Hin as [x l|x z l Hin IH]; cbn.
  - rewrite Hy, Hn. pose proof (omap_length_le f f' l Hf). cbn. lia.
  - specialize (IH Hy Hn). specialize (Hf z). destruct (f' z); [destruct Hf as [u ->]; [done|]; cbn; lia|].
    destruct (f z); cbn; lia.
Qed.

Lemma narrows_ready_length g g' :
  narrows g g' -> (length (ready_tasks g') <= length (ready_tasks g))%nat.
Proof.
  intros Hn. unfold ready_tasks. rewrite (proj1 Hn). apply omap_length_le. intros id Hid.
  apply ready_entry_Some. apply ready_entry_Some in Hid. by eapply narrows_ready.
Qed.

(** Failing the first ready task leaves fewer. *)
Lemma fail_ready_length g task ready id :
  graph_wf g -> ready_tasks g = task :: ready -> jget_str task "task_id" = Some id ->
  (length (ready_tasks (mark_failed g id)) < length (ready_tasks g))%nat.
Proof.
  intros Hwf Hr Hid.
  assert (Hin : task ∈ ready_tasks g) by (rewrite Hr; left).
  unfold ready_tasks in Hin. apply list_elem_of_omap in Hin as (id' & Hin & Hid').
  destruct (tg_tasks g !! id') as [n|] eqn:Hn; [|done]. cbn in Hid'. case_decide as Hst; [|done]. simplify_eq.
  destruct (Hwf _ _ Hn) as [Hid2 _]. simplify_eq.
  unfold ready_tasks at 1 2. change (tg_insertion_order (mark_failed g id)) with (tg_insertion_order g).
  apply (omap_length_lt _ _ _ id); [|done| |].
  - intros x Hx. apply ready_entry_Some. apply ready_entry_Some in Hx. eapply narrows_ready; [|exact Hx].
    apply set_status_narrows; [done|by right; left].
  - apply ready_entry_Some. by exists n.
  - unfold mark_failed. rewrite set_status_lookup, decide_True, Hn by done. done.
Qed.
End graph.

(** * What the next action is *)

Section next.
Context {V CS SW : Type} `{JL : JsonLib V, JLW : !JsonLaws V} `{CK : CheckpointStore V CS SW} `{HO : HashOrder}.
Implicit Types (b : OrchestratorBehavior CS) (s : OrchestratorState V) (w : OrchWorld V SW) (g : TaskGraph V).

#[local] Abbreviation Act := (Action V (OrchBehavior CS)).

Lemma poll_decisions_ids orch_id ready r actions r' :
  poll_decisions orch_id ready r = (actions, r') ->
  forall a, a ∈ actions -> exists task, task ∈ ready /\ jget_str task "task_id" = Some a.1.
Proof.
  revert r actions r'. induction ready as [|task ready IH]; intros r actions r' H a Ha; cbn in H.
  { simplify_eq. by apply not_elem_of_nil in Ha. }
  assert (Hrec : forall r1 acts r2, poll_decisions orch_id ready r1 = (acts, r2) -> a ∈ acts ->
    exists t, t ∈ task :: ready /\ jget_str t "task_id" = Some a.1).
  { intros r1 acts r2 H1 H2. destruct (IH _ _ _ H1 _ H2) as (t & ? & ?). exists t. split; [by right|done]. }
  destruct (jget_str task "task_id") as [id|] eqn:Hid; [|by eapply Hrec].
  destruct (task_requires_approval task); [|by eapply Hrec].
  cbn in H. destruct (poll_decisions orch_id ready _) as [acts r2] eqn:Hp. simplify_eq.
  destruct (ap_decisions r !! (orch_id, id)) as [d|]; [|by eapply Hrec].
  apply elem_of_cons in Ha as [->|Ha]; [|by eapply Hrec]. exists task. split; [left|done].
Qed.

Lemma apply_decisions_narrow actions g0 g :
  narrows g0 g -> (forall a, a ∈ actions -> is_ready g0 a.1) -> narrows g0 (foldl apply_decision g actions).
Proof.
  revert g. induction actions as [|a actions IH]; intros g Hn Ha; [done|]. cbn [foldl]. apply IH.
  - unfold apply_decision. destruct a.2; [|by rewrite <- fail_narrows].
    apply set_status_narrows; [done|]. intros n Hg. destruct (Ha a) as (n' & Hn' & Hr); [left|]. simplify_eq.
    by apply ready_demoted.
  - intros a' Ha'. apply Ha. by right.
Qed.

(** Polling only touches the graph, and the registry. *)
Lemma poll_spec b s w s' w' :
  graph_wf (os_task_graph s) -> poll_approval_registry b s w = (s', w') ->
  exists g', narrows (os_task_graph s) g' /\ s' = os_with_task_graph g' s /\ ow_store w' = ow_store w.
Proof.
  intros Hwf H. unfold poll_approval_registry in H. destruct (ob_approval_registry b) as [h|].
  - destruct (poll_decisions _ _ _) as [actions r] eqn:Hp. simplify_eq. eexists. split; [|done].
    apply apply_decisions_narrow; [done|]. intros a Ha.
    destruct (poll_decisions_ids _ _ _ _ _ Hp a Ha) as (task & Hin & Hid).
    apply elem_of_ready_tasks in Hin as (id & n & Hn & Hr & <-). destruct (Hwf _ _ Hn) as [Hid' _]. simplify_eq.
    by exists n.
  - simplify_eq. exists (os_task_graph s'). split; [done|]. by destruct s'.
Qed.

Lemma worker_args_id parent id : jget_str (worker_args (V := V) parent id) "task_id" = Some id.
Proof. unfold worker_args. by json_get. Qed.

(** How many workers run or are being started. *)
Definition under_way s : Z := Z.of_nat (size (os_active_workers s)) + Z.of_nat (length (os_pending_spawn_tasks s)).

Definition same_but_graph s s' : Prop :=
  os_active_workers s' = os_active_workers s /\ os_awaiting_decomposition s' = os_awaiting_decomposition s /\
  os_decomposition_done s' = os_decomposition_done s /\ os_goal s' = os_goal s /\
  os_requester s' = os_requester s /\ os_checkpoint_key s' = os_checkpoint_key s.

(** What an action says of the states before and after it. *)
Definition action_spec b s (act : Act) s' : Prop :=
  match act with
  | Spawn BWorker args link monitor =>
      link = false /\ monitor = true /\ exists id n,
        tg_tasks (os_task_graph s) !! id = Some n /\ tn_status n = Ready /\ jget_str args "task_id" = Some id /\
        os_pending_spawn_tasks s' = os_pending_spawn_tasks s ++ [tn_task n] /\
        under_way s < Z.max (ob_max_concurrency b) 1 /\ (id <> "" -> approval_needed b (tn_task n) = None)
  | Spawn (BOrchestrator sub) args link monitor =>
      link = false /\ monitor = true /\ os_pending_spawn_tasks s' = os_pending_spawn_tasks s /\
      ob_current_depth sub = ob_current_depth b + 1 /\ ob_current_depth b < ob_max_depth b /\
      ob_max_depth sub = ob_max_depth b
  | IoRequest _ => False
  | _ => os_pending_spawn_tasks s' = os_pending_spawn_tasks s
  end.

Record next_spec b s (act : Act) s' : Prop := {
  ns_graph : narrows (os_task_graph s) (os_task_graph s');
  ns_same : same_but_graph s s';
  ns_action : action_spec b s act s'
}.

Lemma next_spec_before b s s1 act s' :
  narrows (os_task_graph s) (os_task_graph s1) -> same_but_graph s s1 ->
  os_pending_spawn_tasks s1 = os_pending_spawn_tasks s -> next_spec b s1 act s' -> next_spec b s act s'.
Proof.
  intros Hn Hs Hp [Hn' Hs' Ha]. split.
  - by transitivity (os_task_graph s1).
  - unfold same_but_graph in *. intuition congruence.
  - unfold action_spec in *. destruct Hs as (Hact & _).
    assert (Huw : under_way s1 = under_way s) by (unfold under_way; by rewrite Hact, Hp).
    rewrite Huw, Hp in Ha. destruct act as [|? ?|?|[sub|] ? ? ?|?]; try done.
    destruct Ha as (? & ? & id & n & Hg & Hst & ? & ? & ? & Hap).
    destruct (narrows_lookup _ _ _ _ Hn Hg) as (n0 & Hg0 & [Ht Hd] & Hdem). rewrite Ht in *.
    split; [done|]. split; [done|]. exists id, n0. split_and!; try done.
    unfold demoted in Hdem. rewrite Hst in Hdem. naive_solver.
Qed.

Lemma spawn_worker_eq s id w : exists parent w', spawn_worker (CS := CS) s id w = (Spawn BWorker (worker_args parent id) false true, w').
Proof. unfold spawn_worker. destruct (pid_or_default _ w) as [p w']. by eexists _, _. Qed.

Lemma can_spawn_more_true s c : can_spawn_more s c = true -> under_way s < Z.max c 1.
Proof. unfold can_spawn_more, under_way. destruct (_ || _); [done|]. destruct (ready_tasks _); [done|]. apply Z.ltb_lt. Qed.

Lemma next_or_finalize_spec fuel b s w act s' w' :
  graph_wf (os_task_graph s) -> next_or_finalize fuel b s w = Some (act, s', w') -> next_spec b s act s'.
Proof.
  revert s w. induction fuel as [|fuel IH]; intros s w Hwf H; [done|]. cbn [next_or_finalize] in H.
  destruct (poll_approval_registry b s w) as [s1 w1] eqn:Hp.
  destruct (poll_spec _ _ _ _ _ Hwf Hp) as (g1 & Hn1 & -> & _).
  apply (next_spec_before b s (os_with_task_graph g1 s)); [done|done|done|].
  assert (Hwf1 : graph_wf g1) by (by eapply narrows_wf).
  set (s1 := os_with_task_graph g1 s) in *. clear Hn1 Hp.
  assert (Hcont : next_spec b s1 Continue s1) by (split; done).
  destruct (can_spawn_more s1 (ob_max_concurrency b)) eqn:Hcan.
  2:{ destruct (orch_is_complete s1); [|by simplify_eq]. unfold finalize in H.
      destruct (os_requester s1); simplify_eq; by split. }
  apply can_spawn_more_true in Hcan.
  destruct (ready_tasks (os_task_graph s1)) as [|task ready] eqn:Hr; [by simplify_eq|].
  assert (Hin : task ∈ ready_tasks (os_task_graph s1)) by (rewrite Hr; left).
  apply elem_of_ready_tasks in Hin as (id & n & Hn & Hst & <-). destruct (Hwf1 _ _ Hn) as [Hid _].
  rewrite Hid in H. cbn [default] in H.
  assert (Hset : forall st, st <> Completed -> narrows (os_task_graph s1) (set_status (os_task_graph s1) id st)).
  { intros st Hne. apply set_status_narrows; [done|]. intros n' Hn'. simplify_eq. by apply ready_demoted. }
  cbn in H. destruct (decide (id = "")) as [Hemp|Hne].
  - match type of H with (let '(_, _) := spawn_worker ?s2 ?i ?w2 in _) = _ =>
      destruct (spawn_worker_eq s2 i w2) as (parent & w3 & Heq); rewrite Heq in H end.
    simplify_eq. split; [done|done|]. split; [done|]. split; [done|]. exists "", n. split_and!; try done.
    unfold extract_task_id. rewrite Hid. apply worker_args_id.
  - destruct (approval_needed b (tn_task n)) as [h|] eqn:Hap.
    { simplify_eq. split; [by apply Hset|done|done]. }
    case_decide as Hty.
    + destruct (ob_max_depth b <=? ob_current_depth b) eqn:Hd; zify_bool.
      * apply IH in H; [|eapply narrows_wf; [by apply Hset|done]]. eapply next_spec_before; [..|exact H]; [by apply Hset|done|done].
      * simplify_eq. by split.
    + match type of H with (let '(_, _) := spawn_worker ?s2 ?i ?w2 in _) = _ =>
        destruct (spawn_worker_eq s2 i w2) as (parent & w3 & Heq); rewrite Heq in H end.
      simplify_eq. split; [by apply Hset|done|]. split; [done|]. split; [done|]. exists id, n. split_and!; try done.
      apply worker_args_id.
Qed.

(** Enough fuel gives an answer. *)
Lemma next_or_finalize_total fuel b s w :
  graph_wf (os_task_graph s) -> (length (ready_tasks (os_task_graph s)) < fuel)%nat ->
  is_Some (next_or_finalize fuel b s w).
Proof.
  revert s w. induction fuel as [|fuel IH]; intros s w Hwf Hf; [lia|]. cbn [next_or_finalize].
  destruct (poll_approval_registry b s w) as [s1 w1] eqn:Hp.
  destruct (poll_spec _ _ _ _ _ Hwf Hp) as (g1 & Hn1 & -> & _).
  assert (Hwf1 : graph_wf g1) by (by eapply narrows_wf). apply narrows_ready_length in Hn1.
  set (s1 := os_with_task_graph g1 s) in *. change (os_task_graph s1) with g1.
  destruct (can_spawn_more s1 _); [|destruct (orch_is_complete s1); eauto].
  destruct (ready_tasks g1) as [|task ready] eqn:Hr; [eauto|].
  assert (Hin : task ∈ ready_tasks g1) by (rewrite Hr; left).
  apply elem_of_ready_tasks in Hin as (id & n & Hn & Hst & <-). destruct (Hwf1 _ _ Hn) as [Hid _].
  rewrite Hid. cbn [default]. cbn. case_decide.
  { unfold spawn_worker. destruct (pid_or_default _ _). eauto. }
  destruct (approval_needed b (tn_task n)); [eauto|]. case_decide.
  - destruct (_ <=? _); [|eauto]. apply IH.
    + eapply narrows_wf; [|exact Hwf1]. apply set_status_narrows; [done|by right; left].
    + pose proof (fail_ready_length g1 (tn_task n) ready id Hwf1 Hr Hid) as Hlt.
      rewrite Hr in Hlt.
      match goal with |- (length (ready_tasks ?g) < _)%nat => change g with (mark_failed g1 id) end. lia.
  - unfold spawn_worker. destruct (pid_or_default _ _). eauto.
Qed.
End next.

(** * Runs *)

Inductive OrchEvent (V : Type) : Type :=
| EvMessage (msg : Message V)
| EvExit (from : AgentPid) (reason : Reason).
Arguments EvMessage {V} msg.
Arguments EvExit {V} from reason.

Section runs.
Context {V CS SW : Type} `{JL : JsonLib V, JLW : !JsonLaws V} `{CK : CheckpointStore V CS SW} `{HO : HashOrder}.
Implicit Types (b : OrchestratorBehavior CS) (s : OrchestratorState V) (w : OrchWorld V SW) (g : TaskGraph V)
  (ev : OrchEvent V) (C : gset string).

#[local] Abbreviation Act := (Action V (OrchBehavior CS)).

Definition orch_exec b ev s w : option (Act * OrchestratorState V * OrchWorld V SW) :=
  match ev with
  | EvMessage msg => orch_handle_message b msg s w
  | EvExit from reason => orch_handle_exit b from reason s w
  end.

(** What an orchestrator was told and answered, and the state it is in.  Between two
    calls the world may change in any way. *)
Inductive orch_run b : list (OrchEvent V * Act) -> OrchestratorState V -> Prop :=
| run_init args w s w' : orch_init b args w = (Ok s, w') -> orch_run b [] s
| run_step h s ev w act s' w' : orch_run b h s -> orch_exec b ev s w = Some (act, s', w') -> orch_run b (h ++ [(ev, act)]) s'.

(** The tasks reported as completed since the last goal was taken. *)
Definition result_id ev : option string :=
  match ev with EvMessage (Json payload) => res ← parse_worker_result payload; wr_task_id res | _ => None end.

Definition report C (e : OrchEvent V * Act) : gset string :=
  match e.2 with
  | IoRequest _ => ∅
  | _ => match result_id e.1 with Some id => {[id]} ∪ C | None => C end
  end.
Definition reported (h : list (OrchEvent V * Act)) : gset string := foldl report ∅ h.

(** Decompositions are answered when they are asked for: none arrives late, after another
    goal was taken. *)
Definition is_io_response ev : bool := match ev with EvMessage (System (IoResponse _ _)) => true | _ => false end.
Definition asked (a : bool) (e : OrchEvent V * Act) : bool :=
  match e.2 with IoRequest _ => true | _ => if is_io_response e.1 then false else a end.
Fixpoint in_turn (a : bool) (h : list (OrchEvent V * Act)) : Prop :=
  match h with
  | [] => True
  | e :: h => (is_io_response e.1 = true -> a = true) /\ in_turn (asked a e) h
  end.

Lemma in_turn_snoc a h e :
  in_turn a (h ++ [e]) <-> in_turn a h /\ (is_io_response e.1 = true -> foldl asked a h = true).
Proof. revert a. induction h as [|e' h IH]; intros a; cbn; [|rewrite IH]; tauto. Qed.

(** ** What an event does before the next action is chosen *)

(** The part of the state that the invariants are about. *)
Definition Core : Type := TaskGraph V * gmap Z string * list V * bool.
Definition core s : Core :=
  (os_task_graph s, os_active_workers s, os_pending_spawn_tasks s, os_awaiting_decomposition s).

Inductive prepared ev (act : Act) : Core -> Core -> Prop :=
| prep_keep c :
    is_io_response ev = false -> result_id ev = None -> prepared ev act c c
| prep_done g active pending a o :
    result_id ev = o -> is_io_response ev = false ->
    prepared ev act (g, active, pending, a)
      (match o with Some id => mark_completed g id | None => g end, active, pending, a)
| prep_reset c op :
    act = IoRequest op -> prepared ev act c (tg_new, ∅, [], true)
| prep_tasks g active pending a ts :
    is_io_response ev = true -> prepared ev act (g, active, pending, a) ((add_tasks g ts).1, active, pending, false)
| prep_assign g active a pid task rest :
    is_io_response ev = false -> result_id ev = None ->
    prepared ev act (g, active, task :: rest, a)
      (g, <[pid := extract_task_id task ("task-" +:+ pretty pid)]> active, rest, a)
| prep_gone g active pending a pid id g' :
    is_io_response ev = false -> result_id ev = None -> active !! pid = Some id ->
    g' = g \/ g' = set_status g id Ready \/ g' = fail_dependents (mark_failed g id) id ->
    prepared ev act (g, active, pending, a) (g', delete pid active, pending, a).

(** Either the next action was chosen, or the answer is fixed and starts nothing. *)
Definition answered b (act : Act) s2 s' : Prop :=
  next_spec b s2 act s' \/ (s' = s2 /\ match act with Spawn _ _ _ _ => False | _ => True end).

Definition exec_spec b ev s (act : Act) s' : Prop :=
  exists g1 s2, narrows (os_task_graph s) g1 /\ prepared ev act (core (os_with_task_graph g1 s)) (core s2) /\ answered b act s2 s' /\
    match act with IoRequest _ => core s2 = (tg_new, ∅, [], true) | _ => True end.

Lemma next_answered b fuel s w act s' w' :
  graph_wf (os_task_graph s) -> next_or_finalize fuel b s w = Some (act, s', w') ->
  answered b act s s' /\ match act with IoRequest _ => False | _ => True end.
Proof.
  intros Hwf H. pose proof (next_or_finalize_spec _ _ _ _ _ _ _ Hwf H) as Hn. split; [by left|].
  pose proof (ns_action _ _ _ _ Hn) as Ha. by destruct act.
Qed.

Lemma mark_completed_wf g id : graph_wf g -> graph_wf (mark_completed g id).
Proof.
  intros Hwf x n Hx. rewrite mark_completed_lookup, set_status_lookup in Hx.
  assert (Hg : exists n0, tg_tasks g !! x = Some n0 /\ tn_task n = tn_task n0 /\ tn_depends_on n = tn_depends_on n0).
  { destruct (tg_tasks g !! x) as [n0|]; repeat case_decide; simplify_eq/=; eauto. }
  destruct Hg as (n0 & Hn0 & -> & ->). by apply Hwf.
Qed.

Lemma add_loop_wf ts g ids : graph_wf g -> graph_wf (add_loop g ids ts).1.
Proof.
  revert g ids. induction ts as [|t ts IH]; intros g ids Hwf; [done|]. cbn [add_loop].
  destruct (jget_str t "task_id") as [id|] eqn:Hid; [|done]. apply IH. intros x n Hx. cbn in Hx.
  apply lookup_insert_Some in Hx as [[<- <-]|[_ Hx]]; [done|by apply Hwf].
Qed.

Lemma add_tasks_wf g ts : graph_wf g -> graph_wf (add_tasks g ts).1.
Proof.
  intros Hwf. unfold add_tasks. pose proof (add_loop_wf ts g [] Hwf) as H1.
  destruct (add_loop g [] ts) as [g1 [ids|e]]; [|done]. destruct (detect_cycle g1); [|done].
  intros x n Hx. cbn in Hx. rewrite deletes_lookup in Hx. case_decide; [done|]. by apply H1.
Qed.

Lemma tg_new_wf : graph_wf (V := V) tg_new.
Proof. by intros id n Hn. Qed.

Lemma prepared_wf ev act c0 c : graph_wf c0.1.1.1 -> prepared ev act c0 c -> graph_wf c.1.1.1.
Proof.
  intros Hwf Hp. destruct Hp as [|g active pending a o| | | |g active pending a pid id g' ? ? ? Hg]; cbn in *; try done.
  - destruct o; [by apply mark_completed_wf|done].
  - by apply add_tasks_wf.
  - destruct Hg as [->|[->| ->]]; [done| |by eapply narrows_wf; [apply fail_narrows|]].
    intros x n Hx. rewrite set_status_lookup in Hx. case_decide; [subst|by apply Hwf].
    destruct (tg_tasks g !! id) as [n0|] eqn:Hn0; simplify_eq/=. by apply Hwf in Hn0.
Qed.

Lemma answered_wf b act s2 s' : answered b act s2 s' -> graph_wf (os_task_graph s2) -> graph_wf (os_task_graph s').
Proof. intros [Hn|[-> _]]; [|done]. apply narrows_wf, (ns_graph _ _ _ _ Hn). Qed.
Lemma forget_worker_prepared ev act pid reason s :
  is_io_response ev = false -> result_id ev = None -> prepared ev act (core s) (core (forget_worker pid reason s)).
Proof.
  intros Hio Hres. unfold forget_worker. destruct (os_active_workers s !! pid) as [id|] eqn:Ha.
  - assert (Hg : exists g, core (worker_gone pid id reason (os_with_active_workers (delete pid (os_active_workers s)) s)) =
        (g, delete pid (os_active_workers s), os_pending_spawn_tasks s, os_awaiting_decomposition s) /\
        (g = os_task_graph s \/ g = set_status (os_task_graph s) id Ready \/
         g = fail_dependents (mark_failed (os_task_graph s) id) id)).
    { unfold worker_gone. destruct (is_normal reason); [by eexists; split; [|left]|].
      destruct (should_retry _ id) as [[d|] t]; [by eexists; split; [|right; left]|by eexists; split; [|right; right]]. }
    destruct Hg as (g & -> & Hg). by eapply prep_gone.
  - assert (core (os_with_active_workers (delete pid (os_active_workers s)) s) = core s) as ->; [|by apply prep_keep].
    unfold core. cbn. by rewrite delete_id.
Qed.

(** The handlers, with the graph as polling left it. *)
(** A handler prepares the core of the state and then answers. *)
Definition handled b ev act s s' : Prop :=
  exists s2, prepared ev act (core s) (core s2) /\ answered b act s2 s' /\
    match act with IoRequest _ => core s2 = (tg_new, ∅, [], true) | _ => True end.

Lemma next_handled b ev act s s' w' s2 fuel w2 : graph_wf (os_task_graph s) ->
  prepared ev act (core s) (core s2) -> next_or_finalize fuel b s2 w2 = Some (act, s', w') -> handled b ev act s s'.
Proof.
  intros Hwf Hp Hx. exists s2. apply next_answered in Hx; [|by apply (prepared_wf _ _ (core s) _ Hwf Hp)].
  destruct Hx as [? ?]. split; [done|]. split; [done|]. by destruct act.
Qed.

Lemma keep_handled b ev act s s' : is_io_response ev = false -> result_id ev = None -> core s' = core s ->
  match act with Spawn _ _ _ _ | IoRequest _ => False | _ => True end -> handled b ev act s s'.
Proof.
  intros Hio Hres Hc Hact. exists s'. rewrite Hc. split; [by apply prep_keep|].
  split; [right; split; [done|by destruct act]|by destruct act].
Qed.

Lemma json_handled b payload s w act s' w' : graph_wf (os_task_graph s) ->
  handle_json b payload s w = Some (act, s', w') -> handled b (EvMessage (Json payload)) act s s'.
Proof.
  intros Hwf H. unfold handle_json in H. destruct (decide (jget_str payload "type" = Some "worker_progress")) as [Hty|Hty].
  { destruct (handle_progress payload s) as [act1 s1] eqn:Hh. simplify_eq.
    assert (Hc : core s' = core s /\ match act with Spawn _ _ _ _ | IoRequest _ => False | _ => True end).
    { unfold handle_progress in Hh. destruct (jget_str payload "task_id"); cbn in Hh;
        destruct (os_requester s); by simplify_eq. }
    destruct Hc. eapply keep_handled; try done. cbn. unfold parse_worker_result. by rewrite Hty. }
  destruct (parse_worker_result payload) as [res|] eqn:Hres.
  + assert (Hp : prepared (EvMessage (Json payload)) act (core s) (core (take_result payload res s))).
    { assert (core (take_result payload res s) =
        (match wr_task_id res with Some id => mark_completed (os_task_graph s) id | None => os_task_graph s end,
         os_active_workers s, os_pending_spawn_tasks s, os_awaiting_decomposition s)) as ->.
      { unfold take_result. by destruct (parse_usage payload), (wr_task_id res). }
      apply prep_done; [|done]. cbn. by rewrite Hres. }
    unfold handle_result in H. destruct (wr_worker_pid res) as [p|]; [|by eapply next_handled].
    simplify_eq. exists (take_result payload res s). split; [done|]. by split; [right|].
  + unfold handle_goal in H. destruct (_ && _).
    * eapply next_handled; [done| |exact H]. apply (prep_keep _ _ (core s)); [done|]. cbn. by rewrite Hres.
    * simplify_eq. exists (reset_for (default payload (jget payload "goal")) (adopt_pids payload s)).
      split; [by eapply prep_reset|]. by split; [right|].
Qed.

Lemma decomposition_handled b cid res s w act s' w' : graph_wf (os_task_graph s) ->
  handle_decomposition b res s w = Some (act, s', w') -> handled b (EvMessage (System (IoResponse cid res))) act s s'.
Proof.
  intros Hwf H. unfold handle_decomposition in H.
  cbn [os_with_awaiting_decomposition os_with_decomposition_done os_task_graph os_goal] in H.
  destruct (add_tasks (os_task_graph s) (extract_tasks (os_goal s) res)) as [g r] eqn:Hadd.
  assert (Hp : forall s2, core s2 = (g, os_active_workers s, os_pending_spawn_tasks s, false) ->
    prepared (EvMessage (System (IoResponse cid res))) act (core s) (core s2)).
  { intros s2 ->. replace g with (add_tasks (os_task_graph s) (extract_tasks (os_goal s) res)).1 by (by rewrite Hadd).
    by apply prep_tasks. }
  destruct r as [[]|e]; [eapply next_handled; [done| |exact H]; by apply Hp|]. simplify_eq.
  eexists. split; [|by split; [right|]]. by apply Hp.
Qed.

Lemma spawn_result_handled b child mon s w act s' w' : graph_wf (os_task_graph s) ->
  handle_spawn_result b child mon s w = Some (act, s', w') -> handled b (EvMessage (System (SpawnResult child mon))) act s s'.
Proof.
  intros Hwf H. unfold handle_spawn_result in H.
  destruct (os_pending_spawn_tasks s) as [|task rest] eqn:Hpe.
  + eapply next_handled; [done| |exact H]. by apply prep_keep.
  + cbn in H. simplify_eq. eexists. split; [|by split; [right|]].
    match goal with |- prepared _ _ _ (core ?s2) => assert (core s2 = (os_task_graph s,
      <[child := extract_task_id task ("task-" +:+ pretty child)]> (os_active_workers s), rest,
      os_awaiting_decomposition s)) as -> by (by destruct mon) end.
    assert (core s = (os_task_graph s, os_active_workers s, task :: rest, os_awaiting_decomposition s)) as ->
      by (unfold core; by rewrite Hpe).
    by apply prep_assign.
Qed.

Lemma handle_exec b ev s w act s' w' :
  graph_wf (os_task_graph s) ->
  match ev with
  | EvExit from reason => orch_handle_exit b from reason s w
  | EvMessage (Json payload) => handle_json b payload s w
  | EvMessage (System (IoResponse _ res)) => handle_decomposition b res s w
  | EvMessage (System (SpawnResult child mon)) => handle_spawn_result b child mon s w
  | EvMessage (System (Down _ pid reason)) => handle_down b pid reason s w
  | _ => Some (Continue, s, w)
  end = Some (act, s', w') ->
  handled b ev act s s'.
Proof.
  intros Hwf H.
  destruct ev as [[text|payload|[from reason|cid res|child mon|mon pid reason|]]|from reason];
    try (simplify_eq; by apply keep_handled).
  - by eapply json_handled.
  - by eapply decomposition_handled.
  - by eapply spawn_result_handled.
  - unfold handle_down in H. eapply next_handled; [done| |exact H].
    by apply (forget_worker_prepared _ _ pid reason (os_with_worker_monitors (delete pid (os_worker_monitors s)) s)).
  - unfold orch_handle_exit in H. eapply next_handled; [done| |exact H]. by apply forget_worker_prepared.
Qed.

Lemma exec_prepared b ev s w act s' w' :
  graph_wf (os_task_graph s) -> orch_exec b ev s w = Some (act, s', w') -> exec_spec b ev s act s'.
Proof.
  intros Hwf H. destruct ev as [msg|from reason]; cbn [orch_exec] in H.
  - unfold orch_handle_message in H. destruct (poll_approval_registry b s w) as [s1 w1] eqn:Hp.
    destruct (poll_spec _ _ _ _ _ Hwf Hp) as (g1 & Hn1 & -> & _). exists g1.
    destruct (handle_exec b (EvMessage msg) (os_with_task_graph g1 s) w1 act s' w') as (s2 & ? & ? & ?);
      [by eapply narrows_wf|by destruct msg as [|?|[]]|]. exists s2. done.
  - destruct (handle_exec b (EvExit from reason) s w act s' w' Hwf H) as (s2 & Hp & ? & ?).
    exists (os_task_graph s), s2. split; [done|]. split; [|done]. by destruct s.
Qed.
(** ** Invariants *)

Lemma run_wf b h s : orch_run b h s -> graph_wf (os_task_graph s).
Proof.
  induction 1 as [args w s w' H|h s ev w act s' w' _ IH Hx].
  - unfold orch_init in H. destruct (load_checkpoint _ _ _) as [[[goal results] tasks]|]; simplify_eq; cbn;
      [apply add_tasks_wf|]; apply tg_new_wf.
  - destruct (exec_prepared _ _ _ _ _ _ _ IH Hx) as (g1 & s2 & Hn & Hp & Ha & _).
    eapply answered_wf; [done|]. apply (prepared_wf _ _ (core (os_with_task_graph g1 s)) _ (narrows_wf _ _ Hn IH) Hp).
Qed.

Definition core_under_way (c : Core) : Z :=
  Z.of_nat (size c.1.1.2) + Z.of_nat (length c.1.2).

Lemma prepared_under_way ev act c0 c : prepared ev act c0 c -> core_under_way c <= core_under_way c0.
Proof.
  unfold core_under_way. destruct 1 as [| | | |g active a pid task rest|g active pending a pid id g']; cbn; try lia.
  - rewrite map_size_empty. lia.
  - rewrite map_size_insert. destruct (active !! pid); cbn; lia.
  - rewrite map_size_delete. destruct (active !! pid); cbn; lia.
Qed.

Lemma answered_under_way b act s2 s' :
  answered b act s2 s' -> under_way s' <= Z.max (under_way s2) (Z.max (ob_max_concurrency b) 1).
Proof.
  intros [[_ (Hact & _) Ha]|[-> _]]; [|lia]. unfold under_way in *. rewrite Hact.
  assert (Hsame : os_pending_spawn_tasks s' = os_pending_spawn_tasks s2 ->
    Z.of_nat (size (os_active_workers s2)) + Z.of_nat (length (os_pending_spawn_tasks s')) <=
    Z.max (Z.of_nat (size (os_active_workers s2)) + Z.of_nat (length (os_pending_spawn_tasks s2)))
      (Z.max (ob_max_concurrency b) 1)) by (intros ->; lia).
  destruct act as [|? ?|?|[sub|] ? ? ?|?]; cbn in Ha; try done; try (by apply Hsame).
  - apply Hsame. by destruct Ha as (_ & _ & ? & _).
  - destruct Ha as (_ & _ & id & n & _ & _ & _ & -> & Hlt & _). rewrite length_app. cbn. unfold under_way in Hlt. lia.
Qed.

(** Which tasks may have been started, and why: [C] is what was reported as completed. *)
Definition may_run (st : TaskStatus) : bool := match st with Ready | AwaitingApproval | Running => true | _ => false end.

Definition deps_in C (n : TaskNode V) : Prop := forall d, d ∈ tn_depends_on n -> d ∈ C.
Definition id_deps_in C g (id : string) : Prop := forall n, tg_tasks g !! id = Some n -> deps_in C n.

Record ordered C (c : Core) : Prop := {
  or_run : forall id n, tg_tasks c.1.1.1 !! id = Some n -> may_run (tn_status n) = true -> deps_in C n;
  or_done : forall id n, tg_tasks c.1.1.1 !! id = Some n -> tn_status n = Completed -> id ∈ C;
  or_active : forall pid id, c.1.1.2 !! pid = Some id -> id_deps_in C c.1.1.1 id;
  or_pending : forall task, task ∈ c.1.2 -> exists id, jget_str task "task_id" = Some id /\ id_deps_in C c.1.1.1 id;
  or_waiting : c.2 = true -> tg_tasks c.1.1.1 = ∅ /\ c.1.1.2 = ∅ /\ c.1.2 = []
}.

Lemma ordered_new C a : ordered C (tg_new, ∅, [], a).
Proof. split; cbn; try done. by intros task ?%not_elem_of_nil. Qed.

Lemma narrows_deps_in C g g' id : narrows g g' -> id_deps_in C g id -> id_deps_in C g' id.
Proof.
  intros Hn Hd n' Hn'. destruct (narrows_lookup _ _ _ _ Hn Hn') as (n & Hg & [_ Heq] & _).
  unfold deps_in. rewrite Heq. by apply Hd.
Qed.

(** A narrower graph keeps everything; a wider one may hold more tasks under way. *)
Lemma ordered_narrows C g g' active pending a :
  narrows g g' -> ordered C (g, active, pending, a) -> ordered C (g', active, pending, a).
Proof.
  intros Hn [H1 H2 H3 H4 H5]. cbn in *. split; cbn.
  - intros id n' Hn' Hr. destruct (narrows_lookup _ _ _ _ Hn Hn') as (n & Hg & [_ Heq] & Hd).
    unfold deps_in. rewrite Heq. eapply H1; [done|]. unfold demoted in Hd. destruct Hd as [Hd|[Hd|[Hd|[Hd _]]]].
    + by rewrite <- Hd.
    + by rewrite Hd in Hr.
    + by rewrite Hd in Hr.
    + by rewrite Hd.
  - intros id n' Hn' Hc. destruct (narrows_lookup _ _ _ _ Hn Hn') as (n & Hg & _ & Hd).
    apply (H2 id n Hg). unfold demoted in Hd. rewrite Hc in Hd. naive_solver.
  - intros pid id Hp. eapply narrows_deps_in; [done|eauto].
  - intros task Hin. destruct (H4 task Hin) as (id & ? & ?). exists id. split; [done|]. by eapply narrows_deps_in.
  - intros Ha. destruct (H5 Ha) as (Hg & ? & ?). split; [|done]. apply map_eq. intros id. destruct Hn as [_ Hn].
    specialize (Hn id). rewrite Hg, lookup_empty in Hn. inversion Hn. by rewrite lookup_empty.
Qed.

Lemma ordered_mono C C' c : C ⊆ C' -> ordered C c -> ordered C' c.
Proof.
  intros Hs [H1 H2 H3 H4 H5]. split; [| | | |done].
  - intros id n Hn Hr d Hd. apply Hs. by eapply H1.
  - intros id n Hn Hc. apply Hs. by eapply H2.
  - intros pid id Hp n Hn d Hd. apply Hs. by eapply H3.
  - intros task Hin. destruct (H4 task Hin) as (id & ? & Hid). exists id. split; [done|]. intros n Hn d Hd. apply Hs. by eapply Hid.
Qed.

Lemma ordered_completed C g active pending a id :
  ordered C (g, active, pending, a) -> id ∈ C -> ordered C (mark_completed g id, active, pending, a).
Proof.
  intros [H1 H2 H3 H4 H5] Hid. cbn in *. set (m1 := tg_tasks (set_status g id Completed)).
  assert (Hm1 : forall x n, m1 !! x = Some n -> exists n0, tg_tasks g !! x = Some n0 /\ same_task n0 n /\
    (n = n0 \/ (x = id /\ tn_status n = Completed))).
  { intros x n Hx. unfold m1 in Hx. rewrite set_status_lookup in Hx. case_decide; [subst|by exists n; split_and!; [| |left]].
    destruct (tg_tasks g !! id) as [n0|]; simplify_eq/=. exists n0. split_and!; try done. by right. }
  assert (Hdone : forall x n, m1 !! x = Some n -> tn_status n = Completed -> x ∈ C).
  { intros x n Hx Hc. destruct (Hm1 _ _ Hx) as (n0 & Hn0 & _ & [->|[-> _]]); [by eapply H2|done]. }
  assert (Hlook : forall x n, tg_tasks (mark_completed g id) !! x = Some n -> exists n1, m1 !! x = Some n1 /\ same_task n1 n /\
    ((tn_status n = Ready /\ all_deps_completed m1 n1 = true) \/ n = n1)).
  { intros x n Hx. rewrite mark_completed_lookup in Hx. fold m1 in Hx. case_decide as Hpr; [|by exists n; split_and!; [| |right]].
    apply elem_of_ids_to_promote in Hpr as (n1 & Hn1 & _ & Hall). rewrite Hn1 in Hx. simplify_eq/=. exists n1.
    split_and!; try done. by left. }
  assert (Hdeps : forall x, id_deps_in C g x -> id_deps_in C (mark_completed g id) x).
  { intros x Hd n Hn. destruct (Hlook _ _ Hn) as (n1 & Hn1 & [_ E1] & _). destruct (Hm1 _ _ Hn1) as (n0 & Hn0 & [_ E0] & _).
    unfold deps_in. rewrite E1, E0. by apply Hd. }
  split; cbn.
  - intros x n Hn Hr. destruct (Hlook _ _ Hn) as (n1 & Hn1 & [_ E1] & [[_ Hall]| ->]).
    + intros d Hd. rewrite E1 in Hd. destruct (proj1 (all_deps_completed_true _ _) Hall d Hd) as (nd & Hnd & Hc).
      by eapply Hdone.
    + destruct (Hm1 _ _ Hn1) as (n0 & Hn0 & _ & [->|[_ Hc]]); [by eapply H1|]. by rewrite Hc in Hr.
  - intros x n Hn Hc. destruct (Hlook _ _ Hn) as (n1 & Hn1 & _ & [[Hr _]| ->]); [congruence|]. by eapply Hdone.
  - eauto.
  - intros task Hin. destruct (H4 task Hin) as (x & ? & ?). eauto.
  - intros Ha. destruct (H5 Ha) as (Hg & ? & ?). split; [|done].
    change (tg_tasks (mark_completed g id) = ∅). apply map_empty. intros x. rewrite mark_completed_lookup, set_status_lookup, Hg, lookup_empty. by repeat case_decide.
Qed.

(** A first batch of tasks. *)
Lemma ordered_added C g ts a : tg_tasks g = ∅ -> ordered C ((add_tasks g ts).1, ∅, [], a) \/ a = true.
Proof.
  intros Hg. destruct a; [by right|left].
  assert (Hnew : forall id n, tg_tasks (add_tasks g ts).1 !! id = Some n -> exists t, n = new_node t).
  { assert (Hloop : forall ts g0 ids, (forall id n, tg_tasks g0 !! id = Some n -> exists t, n = new_node t) ->
      forall id n, tg_tasks (add_loop (V := V) g0 ids ts).1 !! id = Some n -> exists t, n = new_node t).
    { clear. induction ts as [|t ts IH]; intros g0 ids H0; [done|]. cbn [add_loop].
      destruct (jget_str t "task_id") as [i|]; [|done]. apply IH. intros id n Hn. cbn in Hn.
      apply lookup_insert_Some in Hn as [[_ <-]|[_ Hn]]; eauto. }
    assert (H0 : forall id n, tg_tasks g !! id = Some n -> exists t, n = new_node t) by (by rewrite Hg).
    intros id n. unfold add_tasks. specialize (Hloop ts g [] H0). destruct (add_loop g [] ts) as [g1 [ids|e]]; [|by apply Hloop].
    destruct (detect_cycle g1); [|by apply Hloop]. cbn. rewrite deletes_lookup. case_decide; [done|]. by apply Hloop. }
  split; cbn; try done; [| |by intros task ?%not_elem_of_nil].
  - intros id n Hn Hr d Hd. destruct (Hnew _ _ Hn) as [t ->]. rewrite new_node_started in Hd; [by apply not_elem_of_nil in Hd|].
    by destruct (tn_status (new_node t)).
  - intros id n Hn Hc. destruct (Hnew _ _ Hn) as [t ->]. unfold new_node in Hc. cbn in Hc. by destruct (parse_depends_on t).
Qed.
Lemma ordered_assign C g active a pid task rest :
  ordered C (g, active, task :: rest, a) ->
  ordered C (g, <[pid := extract_task_id task ("task-" +:+ pretty pid)]> active, rest, a).
Proof.
  intros [H1 H2 H3 H4 H5]. cbn in *. split; cbn; try done.
  - intros p id [[<- <-]|[_ Hp]]%lookup_insert_Some; [|by eapply H3].
    destruct (H4 task) as (id & Hid & Hd); [left|]. unfold extract_task_id. by rewrite Hid.
  - intros t Ht. apply H4. by right.
  - intros Ha. by destruct (H5 Ha) as (_ & _ & ?).
Qed.

Lemma ordered_gone C g active pending a pid id g' :
  ordered C (g, active, pending, a) -> active !! pid = Some id ->
  g' = g \/ g' = set_status g id Ready \/ g' = fail_dependents (mark_failed g id) id ->
  ordered C (g', delete pid active, pending, a).
Proof.
  intros Ho Ha Hg.
  assert (Ho1 : ordered C (g, delete pid active, pending, a)).
  { destruct Ho as [H1 H2 H3 H4 H5]. split; cbn in *; try done.
    - intros p i [_ Hp]%lookup_delete_Some. by eapply H3.
    - intros Haw. destruct (H5 Haw) as (? & -> & ?). by rewrite delete_empty. }
  destruct Hg as [->|[->| ->]]; [done| |by apply (ordered_narrows _ _ _ _ _ _ (fail_narrows g id))].
  pose proof (or_active _ _ Ho pid id Ha) as Hid. cbn in Hid. destruct Ho1 as [H1 H2 H3 H4 H5]. cbn in *.
  assert (Hlook : forall x n, tg_tasks (set_status g id Ready) !! x = Some n -> exists n0, tg_tasks g !! x = Some n0 /\
    same_task n0 n /\ (n = n0 \/ (x = id /\ tn_status n = Ready))).
  { intros x n Hx. rewrite set_status_lookup in Hx. case_decide; [subst|by exists n; split_and!; [| |left]].
    destruct (tg_tasks g !! id) as [n0|]; simplify_eq/=. exists n0. split_and!; try done. by right. }
  assert (Hdeps : forall x, id_deps_in C g x -> id_deps_in C (set_status g id Ready) x).
  { intros x Hd n Hn. destruct (Hlook _ _ Hn) as (n0 & Hn0 & [_ E] & _). unfold deps_in. rewrite E. by apply Hd. }
  split; cbn.
  - intros x n Hn Hr. destruct (Hlook _ _ Hn) as (n0 & Hn0 & [_ E] & [->|[-> _]]); [by eapply H1|]. exact (Hdeps id Hid n Hn).
  - intros x n Hn Hc. destruct (Hlook _ _ Hn) as (n0 & Hn0 & _ & [->|[_ Hr]]); [by eapply H2|congruence].
  - eauto.
  - intros t Ht. destruct (H4 t Ht) as (x & ? & ?). eauto.
  - intros Haw. destruct (H5 Haw) as (Hg & ? & ?). split; [|done]. by rewrite Hg, alter_empty.
Qed.

Lemma prepared_ordered C ev act c0 c :
  ordered C c0 -> prepared ev act c0 c -> (is_io_response ev = true -> c0.2 = true) ->
  match act with IoRequest _ => c = (tg_new, ∅, [], true) | _ => True end -> ordered (report C (ev, act)) c.
Proof.
  intros Ho Hp Hio Hact. unfold report. cbn [fst snd].
  assert (Hplain : (forall op, act <> IoRequest op) -> ordered (match result_id ev with Some id => {[id]} ∪ C | None => C end) c).
  { intros Hno. destruct Hp as [c ? Hr|g active pending a o Hr ?|c op ?|g active pending a ts Hi|g active a pid task rest ? Hr|
      g active pending a pid id g' ? Hr]; [by rewrite Hr| | | | |].
    - rewrite Hr. destruct o as [id|]; [|done]. apply ordered_completed; [|set_solver]. eapply ordered_mono; [|done]. set_solver.
    - by destruct (Hno op).
    - assert (result_id ev = None) as -> by (by destruct ev as [[| |[]]|]).
      destruct (or_waiting _ _ Ho (Hio Hi)) as (Hg & Hac & Hpe). cbn in *. subst.
      by destruct (ordered_added C g ts false Hg).
    - rewrite Hr. by apply ordered_assign.
    - rewrite Hr. by eapply ordered_gone. }
  destruct act as [| |op| |]; try by apply Hplain. rewrite Hact. apply ordered_new.
Qed.

Lemma answered_ordered C b act s2 s' :
  graph_wf (os_task_graph s2) -> answered b act s2 s' -> ordered C (core s2) -> ordered C (core s').
Proof.
  intros Hwf [[Hn (Hac & Haw & _) Hact]|[-> _]] Ho; [|done].
  unfold core in *. rewrite Hac, Haw. eapply ordered_narrows; [exact Hn|].
  destruct Ho as [H1 H2 H3 H4 H5]. cbn in *.
  assert (Hsame : os_pending_spawn_tasks s' = os_pending_spawn_tasks s2 ->
    ordered C (os_task_graph s2, os_active_workers s2, os_pending_spawn_tasks s', os_awaiting_decomposition s2))
    by (intros ->; by split).
  destruct act as [|? ?|?|[sub|] ? ? ?|?]; try (by apply Hsame); try done.
  - apply Hsame. by destruct Hact as (_ & _ & ? & _).
  - destruct Hact as (_ & _ & id & n & Hg & Hst & _ & -> & _). split; cbn; try done.
    + intros t [Ht|Ht%list_elem_of_singleton]%elem_of_app; [by apply H4|subst]. exists id.
      destruct (Hwf _ _ Hg) as [? _]. split; [done|]. intros n' Hn'. simplify_eq. eapply H1; [done|]. by rewrite Hst.
    + intros Ha. destruct (H5 Ha) as (He & _). by rewrite He, lookup_empty in Hg.
Qed.

Lemma prepared_asked ev act c0 c :
  prepared ev act c0 c -> match act with IoRequest _ => c = (tg_new, ∅, [], true) | _ => True end ->
  c.2 = asked c0.2 (ev, act).
Proof.
  intros Hp Hact. unfold asked. cbn [fst snd].
  assert (Hplain : (forall op, act <> IoRequest op) -> c.2 = if is_io_response ev then false else c0.2).
  { intros Hno. destruct Hp as [c Hi|? ? ? ? ? ? Hi|c op ?|? ? ? ? ? Hi|? ? ? ? ? ? Hi|? ? ? ? ? ? ? Hi]; cbn;
      try (by rewrite Hi). by destruct (Hno op). }
  destruct act; try by apply Hplain. by rewrite Hact.
Qed.

(** Together: the invariant of runs. *)
Lemma run_ordered b h s :
  orch_run b h s -> in_turn false h ->
  os_awaiting_decomposition s = foldl asked false h /\ ordered (reported h) (core s).
Proof.
  induction 1 as [args w s w' H|h s ev w act s' w' Hr IH Hx]; intros Ht.
  - unfold orch_init in H. destruct (load_checkpoint _ _ _) as [[[goal results] tasks]|]; simplify_eq; (split; [done|]).
    + by destruct (ordered_added ∅ tg_new tasks false eq_refl).
    + apply ordered_new.
  - apply in_turn_snoc in Ht as [Ht Hio]. destruct (IH Ht) as [Haw Ho]. pose proof (run_wf _ _ _ Hr) as Hwf.
    destruct (exec_prepared _ _ _ _ _ _ _ Hwf Hx) as (g1 & s2 & Hn & Hp & Ha & Hact).
    assert (Hc : match act with IoRequest _ => core s2 = (tg_new, ∅, [], true) | _ => True end) by (by destruct act).
    unfold reported. rewrite !foldl_app. cbn [foldl]. split.
    + pose proof (prepared_asked _ _ _ _ Hp Hc) as Hask. cbn [core snd] in Hask.
      transitivity (os_awaiting_decomposition s2).
      { destruct Ha as [[_ (_ & ? & _) _]|[-> _]]; done. }
      etransitivity; [exact Hask|]. cbn. by rewrite Haw.
    + eapply answered_ordered; [by apply (prepared_wf _ _ (core (os_with_task_graph g1 s)) _ (narrows_wf _ _ Hn Hwf) Hp)|done|].
      eapply (prepared_ordered _ _ _ (core (os_with_task_graph g1 s))); [by eapply ordered_narrows|done| |done].
      intros Hi. cbn in *. rewrite Haw. by apply Hio.
Qed.
End runs.

(** * Properties *)

Section properties.
Context {V CS SW : Type} `{JL : JsonLib V, JLW : !JsonLaws V} `{CK : CheckpointStore V CS SW} `{HO : HashOrder}.
Implicit Types (b : OrchestratorBehavior CS) (s : OrchestratorState V) (w : OrchWorld V SW) (ev : OrchEvent V).

(** C7: the orchestrator always answers.  In every state it can reach, whatever it is told
    and whatever the registry and the store have become, its handlers return: the calls of
    [next_or_finalize] to itself end. *)
Theorem orchestrator_answers b h s ev w : orch_run (SW := SW) b h s -> is_Some (orch_exec b ev s w).
Proof.
  intros Hr. pose proof (run_wf _ _ _ Hr) as Hwf.
  assert (Hnext : forall s2 w2, graph_wf (os_task_graph s2) -> is_Some (persist_and_next b s2 w2)).
  { intros s2 w2 Hwf2. apply next_or_finalize_total; [done|unfold next_fuel; lia]. }
  assert (Hforget : forall pid reason s0, graph_wf (os_task_graph s0) -> graph_wf (os_task_graph (forget_worker pid reason s0))).
  { intros pid reason s0 H0.
    apply (prepared_wf (CS := CS) (EvExit pid reason) Continue (core s0) (core (forget_worker pid reason s0)) H0).
    by apply forget_worker_prepared. }
  destruct ev as [msg|from reason]; cbn [orch_exec].
  2:{ apply Hnext. by apply Hforget. }
  unfold orch_handle_message. destruct (poll_approval_registry b s w) as [s1 w1] eqn:Hp.
  destruct (poll_spec _ _ _ _ _ Hwf Hp) as (g1 & Hn1 & -> & _). pose proof (narrows_wf _ _ Hn1 Hwf) as Hwf1.
  destruct msg as [text|payload|[from reason|cid res|child mon|mon pid reason|]]; [eauto| |eauto| | | |eauto].
  - unfold handle_json. case_decide; [by destruct (handle_progress _ _); eauto|].
    destruct (parse_worker_result payload) as [res|].
    + unfold handle_result. destruct (wr_worker_pid res); [eauto|]. apply Hnext.
      unfold take_result. destruct (parse_usage payload), (wr_task_id res); cbn; try done; by apply mark_completed_wf.
    + unfold handle_goal. destruct (_ && _); [|eauto]. by apply Hnext.
  - unfold handle_decomposition.
    cbn [os_with_awaiting_decomposition os_with_decomposition_done os_with_task_graph os_task_graph os_goal].
    pose proof (add_tasks_wf g1 (extract_tasks (os_goal s) res) Hwf1) as Hadd.
    destruct (add_tasks g1 _) as [g [[]|e]]; [|eauto]. by apply Hnext.
  - unfold handle_spawn_result. cbn [os_with_task_graph os_pending_spawn_tasks].
    destruct (os_pending_spawn_tasks s); [|cbn; eauto]. apply next_or_finalize_total; [done|unfold next_fuel; lia].
  - unfold handle_down. apply Hnext. by apply Hforget.
Qed.


(** C8: dependencies come first.  When a worker is asked for, every task that its task
    depends on has been reported as completed since the goal was taken; the task is the
    one that the next spawned worker is given, under the id in the arguments.  (A late
    answer to the decomposition of an earlier goal is excluded: its tasks are mixed with
    those of the current one.) *)
Theorem dependencies_first b h s ev w args link monitor s' w' :
  orch_run (SW := SW) b h s -> in_turn false (h ++ [(ev, Spawn BWorker args link monitor)]) ->
  orch_exec b ev s w = Some (Spawn BWorker args link monitor, s', w') ->
  exists task, last (os_pending_spawn_tasks s') = Some task /\ jget_str args "task_id" = jget_str task "task_id" /\
    forall d, d ∈ parse_depends_on task -> d ∈ reported (h ++ [(ev, Spawn BWorker args link monitor)]).
Proof.
  intros Hr Ht Hx. pose proof (run_wf _ _ _ Hr) as Hwf. apply in_turn_snoc in Ht as [Ht Hio].
  destruct (run_ordered _ _ _ Hr Ht) as [Haw Ho].
  destruct (exec_prepared _ _ _ _ _ _ _ Hwf Hx) as (g1 & s2 & Hn & Hp & [[_ _ Ha]|[_ []]] & _).
  assert (Hwf2 : graph_wf (os_task_graph s2))
    by apply (prepared_wf _ _ (core (os_with_task_graph g1 s)) _ (narrows_wf _ _ Hn Hwf) Hp).
  destruct Ha as (_ & _ & id & n & Hg & Hst & Hid & Hpe & _). exists (tn_task n).
  destruct (Hwf2 _ _ Hg) as [Hid' Hd]. rewrite Hpe, last_snoc, Hid, Hid'. split; [done|]. split; [done|].
  pose (e := (ev, Spawn BWorker args link monitor) : OrchEvent V * Action V (OrchBehavior CS)).
  assert (Ho2 : ordered (report (reported h) e) (core s2)).
  { eapply (prepared_ordered _ _ _ (core (os_with_task_graph g1 s))); [by eapply ordered_narrows|done| |done].
    intros Hi. cbn in *. rewrite Haw. by apply Hio. }
  intros d Hdd. rewrite <- Hd in Hdd. unfold reported. rewrite foldl_app. cbn [foldl].
  eapply (or_run _ _ Ho2); [exact Hg|by rewrite Hst|done].
Qed.

(** A gated task gets no worker.  With an approval registry attached, no worker is asked
    for a task that requires approval: it is put to the registry instead. *)
Theorem gated_task_waits b h s ev w args link monitor s' w' :
  orch_run (SW := SW) b h s -> is_Some (ob_approval_registry b) ->
  orch_exec b ev s w = Some (Spawn BWorker args link monitor, s', w') ->
  exists task, last (os_pending_spawn_tasks s') = Some task /\
    (task_requires_approval task = false \/ jget_str task "task_id" = Some "").
Proof.
  intros Hr [r Hreg] Hx. pose proof (run_wf _ _ _ Hr) as Hwf.
  destruct (exec_prepared _ _ _ _ _ _ _ Hwf Hx) as (g1 & s2 & Hn & Hp & [[_ _ Ha]|[_ []]] & _).
  destruct Ha as (_ & _ & id & n & Hg & _ & _ & Hpe & _ & Hap). exists (tn_task n). rewrite Hpe, last_snoc. split; [done|].
  destruct (decide (id = "")) as [->|Hne].
  - right. eapply (prepared_wf _ _ (core (os_with_task_graph g1 s)) _ (narrows_wf _ _ Hn Hwf) Hp). exact Hg.
  - left. specialize (Hap Hne). unfold approval_needed in Hap. rewrite Hreg in Hap. by destruct (task_requires_approval _).
Qed.
Definition task_ids (ts : list V) : list string := omap (fun task => jget_str task "task_id") ts.

Lemma add_loop_each ts (g g1 : TaskGraph V) added ids :
  add_loop g added ts = (g1, Ok ids) -> NoDup (task_ids ts) ->
  forall task, task ∈ ts -> exists id, jget_str task "task_id" = Some id /\ tg_tasks g1 !! id = Some (new_node task).
Proof.
  revert g added. induction ts as [|t ts IH]; intros g added Hl Hnd task Hin; [by apply not_elem_of_nil in Hin|].
  cbn in Hl, Hnd. destruct (jget_str t "task_id") as [id|] eqn:Hid; [|done]. apply NoDup_cons in Hnd as [Hnin Hnd].
  apply elem_of_cons in Hin as [->|Hin]; [|by eapply IH]. exists id. split; [done|].
  apply add_loop_spec in Hl as (new & _ & _ & Hold & Hnew).
  rewrite Hold; [apply lookup_insert_eq|]. intros Hnew'. destruct (Hnew _ Hnew') as (t' & Ht' & Hid' & _).
  apply Hnin, list_elem_of_omap. by exists t'.
Qed.

End properties.

(** * Orchestrations at work *)

Module OrchestrationWitness.
#[local] Existing Instance map_to_list_order.

Abbreviation Val := JTree.t.
Abbreviation Ob := (OrchestratorBehavior InMemoryCheckpointStore).
Abbreviation St := (OrchestratorState Val).
Abbreviation Wd := (OrchWorld Val (gmap string Val)).
Abbreviation History := (list (OrchEvent Val * Action Val (OrchBehavior InMemoryCheckpointStore))).

Definition behavior (cap : Z) (registry : option nat) : Ob :=
  mkOrchestratorBehavior cap (Some InMemory) (Immediate 1) None None registry 5 "orch" 0.
Definition world : Wd := mkOrchWorld ∅ ∅ 0 NEXT_AGENT_PID.

(** Plays a list of events, each in the world the one before it left, or in the given one. *)
Fixpoint play (b : Ob) (evs : list (OrchEvent Val)) (h : History) (s : St) (w : Wd) : option (History * St * Wd) :=
  match evs with
  | [] => Some (h, s, w)
  | ev :: evs =>
      '(act, s, w) ← orch_exec b ev s w;
      play b evs (h ++ [(ev, act)]) s w
  end.

Lemma play_run b evs h s w h' s' w' :
  orch_run (SW := gmap string Val) b h s -> play b evs h s w = Some (h', s', w') ->
  orch_run (SW := gmap string Val) b h' s'.
Proof.
  revert h s w. induction evs as [|ev evs IH]; intros h s w Hr H; cbn in H; [by simplify_eq|].
  destruct (orch_exec b ev s w) as [[[act s1] w1]|] eqn:Hx; [|done]. cbn in H. eapply IH; [|exact H]. by eapply run_step.
Qed.

Definition start (b : Ob) (w : Wd) : St :=
  match orch_init b (json_object [("self_pid", jnum 1)]) w with
  | (Ok s, _) => s
  | _ => mkOrchestratorState tg_new [] ∅ ∅ ∅ [] ∅ None jnull None "" false false false (retry_new RetryNone) budget_unlimited
  end.
Lemma start_run b w : orch_run (SW := gmap string Val) b [] (start b w).
Proof.
  destruct (orch_init b (json_object [("self_pid", jnum 1)]) w) as [[s|e] w'] eqn:H.
  - unfold start. rewrite H. by eapply run_init.
  - unfold orch_init in H. by destruct (load_checkpoint _ _ _) as [[[? ?] ?]|].
Qed.

Definition task (id : string) (deps : list string) : Val :=
  json_object [("task_id", jstr id); ("depends_on", jarr (jstr <$> deps))].
Definition goal : OrchEvent Val := EvMessage (Json (json_object [("goal", jstr "ship")])).
Definition tasks (ts : list Val) : OrchEvent Val :=
  EvMessage (System (IoResponse 0 (IoOk (json_object [("tasks", jarr ts)])))).
Definition spawned (pid : Z) : OrchEvent Val := EvMessage (System (SpawnResult pid None)).
Definition result_of (id : string) : OrchEvent Val :=
  EvMessage (Json (json_object [("type", jstr "worker_result"); ("task_id", jstr id)])).
Definition down (pid : Z) (reason : Reason) : OrchEvent Val := EvMessage (System (Down 0 pid reason)).

(** Two tasks, the second after the first; two workers at most. *)
Definition b2 : Ob := behavior 2 None.
Definition events : list (OrchEvent Val) := [goal; tasks [task "build" []; task "test" ["build"]]; spawned 100].
Definition played : option (History * St * Wd) := play b2 events [] (start b2 world) world.
Definition history : History := match played with Some (h, _, _) => h | None => [] end.
Definition state : St := match played with Some (_, s, _) => s | None => start b2 world end.
Definition world1 : Wd := match played with Some (_, _, w) => w | None => world end.

Lemma played_run : orch_run (SW := gmap string Val) b2 history state.
Proof.
  apply (play_run b2 events [] (start b2 world) world history state world1 (start_run b2 world)).
  vm_compute. reflexivity.
Qed.

Lemma orchestrator_answers_witness : is_Some (orch_exec b2 (down 100 Shutdown) state world1).
Proof. exact (orchestrator_answers b2 history state (down 100 Shutdown) world1 played_run). Defined.


(** The first task is reported done: its dependent is started. *)
Definition done_event : OrchEvent Val := result_of "build".
Definition after : option (Action Val (OrchBehavior InMemoryCheckpointStore) * St * Wd) :=
  orch_exec b2 done_event state world1.
Definition spawn_args : Val :=
  match after with Some (Spawn BWorker args _ _, _, _) => args | _ => jnull end.
Definition state2 : St := match after with Some (_, s, _) => s | None => state end.
Definition world2 : Wd := match after with Some (_, _, w) => w | None => world1 end.

Lemma after_spawns : orch_exec b2 done_event state world1 = Some (Spawn BWorker spawn_args false true, state2, world2).
Proof. vm_compute. reflexivity. Qed.

Lemma dependencies_first_witness :
  exists t, last (os_pending_spawn_tasks state2) = Some t /\ jget_str spawn_args "task_id" = jget_str t "task_id" /\
    forall d, d ∈ parse_depends_on t -> d ∈ reported (history ++ [(done_event, Spawn BWorker spawn_args false true)]).
Proof.
  refine (dependencies_first b2 history state done_event world1 spawn_args false true state2 world2 played_run _ after_spawns).
  vm_compute. tauto.
Defined.

(** The same with a registry: these tasks need no approval. *)
Definition b3 : Ob := behavior 2 (Some 0%nat).
Definition played3 : option (History * St * Wd) := play b3 [goal] [] (start b3 world) world.
Definition history3 : History := match played3 with Some (h, _, _) => h | None => [] end.
Definition state3 : St := match played3 with Some (_, s, _) => s | None => start b3 world end.
Definition world3 : Wd := match played3 with Some (_, _, w) => w | None => world end.
Lemma played3_run : orch_run (SW := gmap string Val) b3 history3 state3.
Proof.
  apply (play_run b3 [goal] [] (start b3 world) world history3 state3 world3 (start_run b3 world)). vm_compute. reflexivity.
Qed.
Definition tasks3 : OrchEvent Val := tasks [task "build" []].
Definition after3 : option (Action Val (OrchBehavior InMemoryCheckpointStore) * St * Wd) :=
  orch_exec b3 tasks3 state3 world3.
Definition args3 : Val := match after3 with Some (Spawn BWorker args _ _, _, _) => args | _ => jnull end.
Definition state4 : St := match after3 with Some (_, s, _) => s | None => state3 end.
Definition world4 : Wd := match after3 with Some (_, _, w) => w | None => world3 end.
Lemma after3_spawns : orch_exec b3 tasks3 state3 world3 = Some (Spawn BWorker args3 false true, state4, world4).
Proof. vm_compute. reflexivity. Qed.

Lemma gated_task_waits_witness :
  exists t, last (os_pending_spawn_tasks state4) = Some t /\
    (task_requires_approval t = false \/ jget_str t "task_id" = Some "").
Proof.
  exact (gated_task_waits b3 history3 state3 tasks3 world3 args3 false true state4 world4 played3_run
    (mk_is_Some _ _ eq_refl) after3_spawns).
Defined.

Definition saved : gmap string Val := {[DEFAULT_CHECKPOINT_KEY := checkpoint_value state]}.


(** ** What these runs show besides *)

Definition statuses (r : option (History * St * Wd)) (ids : list string) : list (option TaskStatus) :=
  match r with Some (_, s, _) => task_status (os_task_graph s) <$> ids | None => [] end.
Definition last_action (r : option (History * St * Wd)) : option (Action Val (OrchBehavior InMemoryCheckpointStore)) :=
  match r with Some (h, _, _) => snd <$> last h | None => None end.

(** A checkpoint leaves out the tasks that wait for others: resumed after the first of two
    tasks was started, the orchestration is complete without the second. *)
Lemma checkpoint_loses_waiting_tasks : task_ids (checkpoint_tasks state) = ["build"].
Proof. vm_compute. reflexivity. Qed.

(** An approved task is not started: the decision is never read, as only ready tasks are
    asked about, and the task is waiting for its approval. *)
Definition gated : Val := json_object [("task_id", jstr "deploy"); ("requires_approval", jbool true)].
Definition approve (w : Wd) : Wd := ow_with_registry 0 (submit_decision "orch" "deploy" Approved (registry_of 0 w)).2 w.
Definition asked_for : option (History * St * Wd) := play b3 [goal; tasks [gated]] [] (start b3 world) world.
Lemma approved_task_never_starts :
  match asked_for with
  | Some (h, s, w) =>
      has_pending "orch" "deploy" (registry_of 0 w) = true /\
      statuses (play b3 [result_of "other"; down 7 Normal] h s (approve w)) ["deploy"] = [Some AwaitingApproval]
  | None => False
  end.
Proof. vm_compute. by split. Qed.

(** A task that is an orchestration of its own stays ready: each event starts it again. *)
Definition sub_task : Val := json_object [("task_id", jstr "sub"); ("type", jstr "sub_orchestration")].
Lemma sub_orchestration_starts_again :
  match play b2 [goal; tasks [sub_task]; spawned 100] [] (start b2 world) world with
  | Some (h, s, w) =>
      map (fun '(_, act) => match act with Spawn (BOrchestrator _) _ _ _ => true | _ => false end) h = [false; true; true] /\
      task_status (os_task_graph s) "sub" = Some Ready
  | None => False
  end.
Proof. vm_compute. by split. Qed.

(** Too deep a sub-orchestration fails alone: what depends on it waits for ever. *)
Definition deep : Ob := mkOrchestratorBehavior 1 None RetryNone None None None 0 "orch" 0.
Lemma depth_failure_strands_dependents :
  statuses (play deep [goal; tasks [sub_task; task "next" ["sub"]]; result_of "other"] [] (start deep world) world) ["sub"; "next"] =
    [Some Failed; Some Pending].
Proof. vm_compute. reflexivity. Qed.

(** The worker's last turn is not reported: the orchestrator sees a normal end without a
    result, and the task stays running. *)
Definition one_turn : WorkerState := mkWorkerState 1 "build" true (Some 100) 1 0.
Lemma last_turn_is_lost :
  (worker_handle_io (V := Val) (CS := InMemoryCheckpointStore) (IoOk jnull) one_turn).1 = Stop Normal /\
  statuses (play b2 [goal; tasks [task "build" []]; spawned 100; down 100 Normal] [] (start b2 world) world) ["build"] =
    [Some Running].
Proof. vm_compute. by split. Qed.
End OrchestrationWitness.
