(* ===== verification/Decomposition.v ===== *)
(** The decomposition of goals ([agent_rt/decomposition.rs]): the prompt for the model, the JSON
    text in its reply, the tasks in that; and the part of the bridge that asks
    ([agent_rt/bridge.rs], [decompose_goal]).  Texts are bytes in UTF-8. *)
From Stdlib Require Import Ascii.
From S2P Require Import Prelude Float64 Json Types FileSystem TaskGraph Checkpoint Orchestration.

Definition DEFAULT_DECOMPOSE_PROVIDER : string := "openrouter".
Definition DEFAULT_DECOMPOSE_MODEL : string := "anthropic/claude-sonnet-4".

(** * Texts *)

Definition byte_in (a b : nat) (c : ascii) : bool := (a <=? nat_of_ascii c)%nat && (nat_of_ascii c <=? b)%nat.
Definition byte_is (n : nat) (c : ascii) : bool := (nat_of_ascii c =? n)%nat.

(** The white space of Unicode in two and three bytes: U+0085, U+00A0, U+1680, U+2000 to U+200A,
    U+2028, U+2029, U+202F, U+205F, U+3000. *)
Definition is_space2 (a b : ascii) : bool := byte_is 194 a && (byte_is 133 b || byte_is 160 b).
Definition is_space3 (a b c : ascii) : bool :=
  (byte_is 225 a && byte_is 154 b && byte_is 128 c) ||
  (byte_is 226 a && byte_is 128 b && (byte_in 128 138 c || byte_is 168 c || byte_is 169 c || byte_is 175 c)) ||
  (byte_is 226 a && byte_is 129 b && byte_is 159 c) || (byte_is 227 a && byte_is 128 b && byte_is 128 c).

(** [str::trim]. *)
Fixpoint utf8_trim_start (s : string) : string :=
  match s with
  | EmptyString => EmptyString
  | String a t =>
      if is_space a then utf8_trim_start t
      else match t with
        | EmptyString => s
        | String b u =>
            if is_space2 a b then utf8_trim_start u
            else match u with
              | EmptyString => s
              | String c v => if is_space3 a b c then utf8_trim_start v else s
              end
        end
  end.

(** From the end, on the reversed bytes. *)
Fixpoint trim_reversed (l : list ascii) : list ascii :=
  match l with
  | [] => []
  | c :: t =>
      if is_space c then trim_reversed t
      else match t with
        | [] => l
        | b :: u =>
            if is_space2 b c then trim_reversed u
            else match u with
              | [] => l
              | a :: v => if is_space3 a b c then trim_reversed v else l
              end
        end
  end.
Definition utf8_trim_end (s : string) : string :=
  String.string_of_list_ascii (rev (trim_reversed (rev (String.list_ascii_of_string s)))).
Definition utf8_trim (s : string) : string := utf8_trim_end (utf8_trim_start s).

(** [str::find] of a text and of a character, and [str::rfind]. *)
Fixpoint find (pat s : string) : option nat :=
  if String.prefix pat s then Some O
  else match s with EmptyString => None | String _ s => S <$> find pat s end.
Fixpoint find_char (c : ascii) (s : string) : option nat :=
  match s with EmptyString => None | String d s => if Ascii.eqb c d then Some O else S <$> find_char c s end.
Fixpoint rfind_char (c : ascii) (s : string) : option nat :=
  match s with
  | EmptyString => None
  | String d s =>
      match rfind_char c s with
      | Some i => Some (S i)
      | None => if Ascii.eqb c d then Some O else None
      end
  end.

(** [&s[a..=b]]. *)
Definition slice_incl (s : string) (a b : nat) : string := str_take (S b - a) (str_drop a s).

(** * The JSON text in a reply *)

Definition FENCE : string := "```".
Definition FENCE_JSON : string := "```json".

(** What stands between an opening fence and the next closing one. *)
Definition fenced (opening s : string) : option string :=
  start ← find opening s;
  let after_fence := str_drop (start + String.length opening) s in
  stop ← find FENCE after_fence;
  Some (utf8_trim (str_take stop after_fence)).

(** From the first opening to the last closing bracket. *)
Definition bracket_range (opening closing : ascii) (s : string) : option (nat * nat) :=
  start ← find_char opening s;
  stop ← rfind_char closing s;
  if (start <? stop)%nat then Some (start, stop) else None.

Definition raw_block (s : string) : string :=
  match bracket_range "{"%char "}"%char s, bracket_range "["%char "]"%char s with
  | Some (os, oe), Some (as_, ae) => if (as_ <? os)%nat then slice_incl s as_ ae else slice_incl s os oe
  | Some (os, oe), None => slice_incl s os oe
  | None, Some (as_, ae) => slice_incl s as_ ae
  | None, None => utf8_trim s
  end.

Definition extract_json_block (s : string) : string :=
  match fenced FENCE_JSON s with
  | Some block => block
  | None => match fenced FENCE s with Some block => block | None => raw_block s end
  end.

(** * Prompts and tasks *)

Section decomposition.
Context {V : Type} `{JL : JsonLib V} `{JT : JsonText V}.
Implicit Types (goal v : V) (response : string).

Definition SYSTEM_PROMPT : string :=
  "You are a task decomposition engine. Given a goal, break it into " +:+
  "independent sub-tasks that can be executed in parallel by AI agents. " +:+
  "Respond ONLY with a JSON object: {" +:+ JTree.dquote +:+ "tasks" +:+ JTree.dquote +:+ ": [{" +:+ JTree.dquote +:+ "task_id" +:+ JTree.dquote +:+
  ": " +:+ JTree.dquote +:+ "t1" +:+ JTree.dquote +:+ ", " +:+ JTree.dquote +:+ "goal" +:+ JTree.dquote +:+ ": " +:+ JTree.dquote +:+ "..." +:+ JTree.dquote +:+
  ", " +:+ JTree.dquote +:+ "depends_on" +:+ JTree.dquote +:+ ": []}, ...]}. Each task needs a unique task_id, a goal description, " +:+
  "and an optional depends_on array of task_ids it must wait for. " +:+
  "Keep tasks atomic and actionable. Aim for 2-6 tasks.".

Definition newline2 : string := String (ascii_of_nat 10) (String (ascii_of_nat 10) EmptyString).

Definition build_decomposition_prompt goal : string * string :=
  let goal_text := match jas_str goal with
    | Some s => s
    | None => match json_print_pretty goal with Ok s => s | Err _ => jto_string goal end
    end in
  (SYSTEM_PROMPT, "Decompose this goal into sub-tasks:" +:+ newline2 +:+ goal_text).

Definition build_decomposition_chat_op goal (provider model : option string) : IoOp V :=
  let '(system_prompt, user_prompt) := build_decomposition_prompt goal in
  AgentChat (default DEFAULT_DECOMPOSE_PROVIDER provider) (Some (default DEFAULT_DECOMPOSE_MODEL model))
    (Some system_prompt) user_prompt None (Some 1) (Some 60000).

(** A value that is an array with something in it. *)
Definition nonempty_array v : bool := match jas_array v with Some (_ :: _) => true | _ => false end.

Definition single_task goal : V := json_object [("tasks", jarr [json_object [("task_id", jstr "task-0"); ("goal", goal)]])].

Definition parse_decomposition_response response goal : V :=
  match json_parse (extract_json_block response) with
  | Err _ => single_task goal
  | Ok parsed =>
      let from_array := if nonempty_array parsed then json_object [("tasks", parsed)] else single_task goal in
      match jget parsed "tasks" with
      | Some tasks => if nonempty_array tasks then json_object [("tasks", tasks)] else from_array
      | None => from_array
      end
  end.

(** ** The bridge's [decompose_goal] *)

Definition goal_of (payload : V) : V := default payload (jget payload "goal").

Definition decompose_goal (payload : V) (chat : IoOp V -> IoResult V) : IoResult V :=
  let goal := goal_of payload in
  match chat (build_decomposition_chat_op goal None None) with
  | IoOk v => IoOk (parse_decomposition_response (default EmptyString (jget_str v "response")) goal)
  | _ => IoOk (parse_decomposition_response EmptyString goal)
  end.
End decomposition.

(** * Finding *)

Lemma str_cons_app c (a b : string) : String c a +:+ b = String c (a +:+ b).
Proof. done. Qed.
Lemma str_app_length (a b : string) : String.length (a +:+ b) = (String.length a + String.length b)%nat.
Proof. induction a as [|x a IH]; [done|]. rewrite str_cons_app. cbn. by rewrite IH. Qed.
Lemma str_drop_app (a b : string) : str_drop (String.length a) (a +:+ b) = b.
Proof. by induction a. Qed.
Lemma str_take_app (a b : string) : str_take (String.length a) (a +:+ b) = a.
Proof. induction a as [|x a IH]; [by destruct b|]. rewrite str_cons_app. cbn. by rewrite IH. Qed.

Lemma prefix_app (p y : string) : String.prefix p (p +:+ y) = true.
Proof. induction p as [|c p IH]; [by destruct y|]. rewrite str_cons_app. cbn. by rewrite IH; destruct (ascii_dec c c). Qed.
Lemma prefix_longer (p : string) : forall x y, String.prefix p x = false -> (String.length p <= String.length x)%nat ->
  String.prefix p (x +:+ y) = false.
Proof.
  induction p as [|c p IH]; intros [|d x] y; cbn [String.length]; [done..|lia|]. rewrite str_cons_app. cbn. destruct (ascii_dec c d); [|done]. intros ? ?. apply IH; [done|lia].
Qed.

(** What has no occurrence of the pattern, also none that runs into its last character, is found
    to be all there is before it. *)
Lemma find_first (init : string) (z : ascii) (body post : string) :
  let pat := init +:+ String z EmptyString in
  find pat (body +:+ init) = None -> find pat (body +:+ pat +:+ post) = Some (String.length body).
Proof.
  cbn zeta. set (pat := init +:+ String z EmptyString). induction body as [|c body IH].
  { intros _. pose proof (prefix_app pat post) as Hp. change (EmptyString +:+ pat +:+ post) with (pat +:+ post).
    destruct (pat +:+ post); cbn [find]; by rewrite Hp. }
  intros Hf. change (String c body +:+ init) with (String c (body +:+ init)) in Hf.
  change (String c body +:+ pat +:+ post) with (String c (body +:+ pat +:+ post)).
  cbn [find String.length] in *. destruct (String.prefix pat (String c (body +:+ init))) eqn:Hp; [done|].
  assert (String.prefix pat (String c (body +:+ pat +:+ post)) = false) as ->.
  - replace (String c (body +:+ pat +:+ post)) with (String c (body +:+ init) +:+ String z post).
    + apply prefix_longer; [done|]. unfold pat. cbn [String.length]. rewrite !str_app_length. cbn. lia.
    + rewrite str_cons_app. unfold pat. by rewrite !str_app_assoc.
  - destruct (find pat (body +:+ init)) eqn:Hq; [done|]. by rewrite IH.
Qed.

Lemma fenced_block (init : string) (z : ascii) (pre body post : string) :
  let opening := init +:+ String z EmptyString in
  find opening (pre +:+ init) = None -> find FENCE (body +:+ "``") = None ->
  fenced opening (pre +:+ opening +:+ body +:+ FENCE +:+ post) = Some (utf8_trim body).
Proof.
  cbn zeta. intros H1 H2. unfold fenced. rewrite (find_first _ _ _ _ H1). cbn [mbind option_bind].
  set (op := init +:+ String z EmptyString). rewrite <- str_app_length, <- str_app_assoc, str_drop_app.
  pose proof (find_first "``" "`"%char body post H2) as H3. change ("``" +:+ String "`"%char EmptyString) with FENCE in H3.
  rewrite H3. cbn [mbind option_bind]. by rewrite str_take_app.
Qed.

(** ** Tasks *)

Section tasks.
Context {V : Type} `{JL : JsonLib V, JLW : !JsonLaws V} `{JT : JsonText V}.
Implicit Types (goal v : V) (response : string).

(** The tasks that a parsed reply names. *)
Definition names_tasks v (tasks : list V) : Prop :=
  tasks <> [] /\ (jget_array v "tasks" = Some tasks \/ jget v "tasks" = None /\ jas_array v = Some tasks).

Lemma extract_of_object goal v : nonempty_array v = true -> Some (extract_tasks goal (IoOk (json_object [("tasks", v)]))) = jas_array v.
Proof.
  unfold nonempty_array, extract_tasks. cbn [io_value mbind option_bind]. rewrite jget_cons_eq. cbn [mbind option_bind].
  by destruct (jas_array v) as [[|t ts]|].
Qed.

Lemma parse_names response goal v tasks : json_parse (extract_json_block response) = Ok v -> names_tasks v tasks ->
  extract_tasks goal (IoOk (parse_decomposition_response response goal)) = tasks.
Proof.
  intros Hp (Hn & H). unfold parse_decomposition_response. rewrite Hp. destruct tasks as [|t ts]; [done|].
  destruct H as [H|[H1 H2]].
  - unfold jget_array in H. destruct (jget v "tasks") as [x|]; [|done]. cbn in H.
    assert (nonempty_array x = true) as E by (unfold nonempty_array; by rewrite H).
    rewrite E. apply (extract_of_object goal) in E. congruence.
  - rewrite H1. assert (nonempty_array v = true) as E by (unfold nonempty_array; by rewrite H2).
    rewrite E. apply (extract_of_object goal) in E. congruence.
Qed.

(** Whatever the model answers, there is something to do. *)
Lemma decomposition_gives_tasks payload goal chat : exists r, decompose_goal payload chat = IoOk r /\
  exists t ts, jget_array r "tasks" = Some (t :: ts) /\ extract_tasks goal (decompose_goal payload chat) = t :: ts.
Proof.
  assert (forall resp g, exists t ts, jget_array (parse_decomposition_response resp g) "tasks" = Some (t :: ts)) as Hp.
  { intros resp g. assert (exists t ts, jget_array (single_task g) "tasks" = Some (t :: ts)) as Hs.
    { eexists _, _. unfold single_task. json_get. reflexivity. }
    assert (forall x, nonempty_array x = true -> exists t ts, jget_array (json_object [("tasks", x)]) "tasks" = Some (t :: ts)) as Hx.
    { intros x. unfold nonempty_array. json_get. destruct (jas_array x) as [[|t ts]|]; eauto; done. }
    unfold parse_decomposition_response. destruct (json_parse _) as [v|]; [|done].
    destruct (jget v "tasks") as [x|]; [destruct (nonempty_array x) eqn:?; [by apply Hx|]|];
      (destruct (nonempty_array v) eqn:?; [by apply Hx|done]). }
  assert (exists r, decompose_goal payload chat = IoOk r /\ exists resp g, r = parse_decomposition_response resp g) as (r & Hr & resp & g & ->).
  { unfold decompose_goal. destruct (chat _); eauto 6. }
  exists (parse_decomposition_response resp g). split; [done|]. destruct (Hp resp g) as (t & ts & H). exists t, ts. split; [done|].
  rewrite Hr. unfold extract_tasks. cbn [io_value mbind option_bind]. unfold jget_array in H.
  destruct (jget _ "tasks") as [x|]; [|done]. cbn in *. by rewrite H.
Qed.

(** The tasks a model names reach the orchestrator.  The orchestrator asks the bridge to
    decompose its goal; when the model's reply has a JSON fence, whatever stands before and
    after it, whose text parses to an object with a non-empty array of tasks (or to such an
    array), the orchestrator takes exactly these tasks from the bridge's response. *)
Theorem decomposition_reaches_orchestrator goal chat reply v tasks (pre body post : string) :
  chat (build_decomposition_chat_op goal None None) = IoOk reply ->
  jget_str reply "response" = Some (pre +:+ FENCE_JSON +:+ body +:+ FENCE +:+ post) ->
  find FENCE_JSON (pre +:+ "```jso") = None -> find FENCE (body +:+ "``") = None ->
  json_parse (utf8_trim body) = Ok v -> names_tasks v tasks ->
  exists payload, decompose_op goal = Custom DECOMPOSE_KIND payload /\ extract_tasks goal (decompose_goal payload chat) = tasks.
Proof.
  intros Hc Hr Hpre Hbody Hp Hn. exists (json_object [("goal", goal)]). split; [done|].
  unfold decompose_goal. assert (goal_of (json_object [("goal", goal)]) = goal) as -> by (unfold goal_of; by rewrite jget_cons_eq).
  rewrite Hc, Hr. cbn [default from_option]. unfold id. apply (parse_names _ goal v); [|done]. unfold extract_json_block.
  pose proof (fenced_block "```jso" "n"%char pre body post Hpre Hbody) as Hf.
  change ("```jso" +:+ String "n"%char EmptyString) with FENCE_JSON in Hf. by rewrite Hf.
Qed.
End tasks.

(** * A reply *)

Module DecompositionWitness.
(** Quotes and line ends of a JSON text. *)
Definition q (s : string) : string := JTree.dquote +:+ s +:+ JTree.dquote.
Definition nl : string := String (ascii_of_nat 10) EmptyString.
Definition task_json (id goal : string) : JTree.t := JTree.Obj [("task_id", JTree.Str id); ("goal", JTree.Str goal)].
Definition tasks : list JTree.t := [task_json "t1" "Do X"; task_json "t2" "Do Y"].
Definition reply_json : JTree.t := JTree.Obj [("tasks", JTree.Arr tasks)].

(** A reader that knows the text of [reply_json]. *)
#[local] Instance reader : JsonText JTree.t := {
  json_print_pretty v := Ok (JTree.to_string v);
  json_parse s := if decide (s = JTree.to_string reply_json) then Ok reply_json else Err "expected value"
}.
Definition pre : string := "Here are the tasks:" +:+ nl.
Definition body : string := nl +:+ JTree.to_string reply_json +:+ nl.
Definition post : string := nl +:+ "Done!".
Definition reply : JTree.t := JTree.Obj [("response", JTree.Str (pre +:+ FENCE_JSON +:+ body +:+ FENCE +:+ post))].
Definition goal : JTree.t := JTree.Str "Build an API".

Lemma decomposition_reaches_orchestrator_witness :
  exists payload, decompose_op goal = Custom DECOMPOSE_KIND payload /\ extract_tasks goal (decompose_goal payload (fun _ => IoOk reply)) = tasks.
Proof.
  apply (decomposition_reaches_orchestrator goal (fun _ => IoOk reply) reply reply_json tasks pre body post).
  - reflexivity.
  - reflexivity.
  - vm_compute. reflexivity.
  - vm_compute. reflexivity.
  - vm_compute. reflexivity.
  - split; [discriminate|]. left. reflexivity.
Defined.

(** White space of Unicode is trimmed on both sides. *)
Definition wide_space : string := String (ascii_of_nat 226) (String (ascii_of_nat 128) (String (ascii_of_nat 137) EmptyString)).
Lemma trims_unicode : utf8_trim (wide_space +:+ " a b " +:+ wide_space +:+ nl) = "a b".
Proof. vm_compute. reflexivity. Qed.

(** Without fences the outermost brackets are taken. *)
Lemma raw_object : extract_json_block "Sure: {tasks: [1, 2]} as asked" = "{tasks: [1, 2]}".
Proof. vm_compute. reflexivity. Qed.

(** A bracket in the prose before the object: the text that is parsed begins there, it is no
    JSON, and the tasks of the reply are dropped for the single task. *)
Lemma prose_bracket_hides_tasks :
  extract_json_block ("As in [1]: " +:+ JTree.to_string reply_json) <> JTree.to_string reply_json /\
  extract_tasks goal (decompose_goal goal (fun _ => IoOk (JTree.Obj [("response", JTree.Str ("As in [1]: " +:+ JTree.to_string reply_json))])))
  = [JTree.Obj [("goal", goal); ("task_id", JTree.Str "task-0")]].
Proof. split; [vm_compute; discriminate|]. vm_compute. reflexivity. Qed.
End DecompositionWitness.
