(* ===== verification/McpServer.v ===== *)
(** The server of the Model Context Protocol.  First its messages ([agent_rt/mcp_types.rs],
    [mcp_jsonrpc.rs]): requests, responses, the texts of results, and the tools with their
    schemas; reading a request or its parameters out of JSON (serde's derived code) is the class
    McpCodec.  Then the server ([mcp_server.rs]) and its transport over standard input and output
    ([mcp_stdio.rs]): sessions, the dispatch of requests, and the tools, which act on a scheduler.

    All instants are readings of the scheduler's clock.  The counters shown by [get_metrics] are
    the scheduler's own ([None]), or of a separate [RuntimeMetrics]. *)
From S2P Require Import Prelude Float64 Json Types FileSystem Process DeadLetter Scheduler SchedFacts SchedTerm Decomposition.

Definition SUPPORTED_PROTOCOL_VERSION : string := "2024-11-05".
Definition JSONRPC_VERSION : string := "2.0".

Module error_codes.
Definition SESSION_NOT_INITIALIZED : Z := -32001.
Definition SESSION_EXPIRED : Z := -32002.
Definition TOOL_NOT_FOUND : Z := -32004.
Definition PARSE_ERROR : Z := -32700.
Definition METHOD_NOT_FOUND : Z := -32601.
Definition INVALID_PARAMS : Z := -32602.
Definition INTERNAL_ERROR : Z := -32603.
End error_codes.

(** * JSON-RPC *)

Section rpc.
Context {V : Type}.

Record JsonRpcError : Type := mkJsonRpcError { je_code : Z; je_message : string; je_data : option V }.
Record JsonRpcRequest : Type := mkJsonRpcRequest {
  jq_jsonrpc : string; jq_id : option V; jq_method : string; jq_params : option V
}.
Record JsonRpcResponse : Type := mkJsonRpcResponse {
  jr_jsonrpc : string; jr_id : option V; jr_result : option V; jr_error : option JsonRpcError
}.

Definition is_notification (q : JsonRpcRequest) : bool := match jq_id q with None => true | Some _ => false end.

(** The results are values already: turning them into one cannot fail. *)
Definition rpc_success (id : option V) (result : V) : JsonRpcResponse := mkJsonRpcResponse JSONRPC_VERSION id (Some result) None.
Definition rpc_error (id : option V) (code : Z) (message : string) : JsonRpcResponse :=
  mkJsonRpcResponse JSONRPC_VERSION id None (Some (mkJsonRpcError code message None)).
End rpc.
Arguments JsonRpcError : clear implicits.
Arguments JsonRpcRequest : clear implicits.
Arguments JsonRpcResponse : clear implicits.

(** [from_value] of the parameters that the server looks at. *)
Class McpCodec (V : Type) : Type := {
  initialize_params : V -> result string string;               (* the protocol version *)
  tools_list_params : V -> result unit string;
  tools_call_params : V -> result (string * option V) string;  (* the name and the arguments *)
  request_parse : string -> result (JsonRpcRequest V) string;  (* [serde_json::from_str] *)
  request_of : V -> result (JsonRpcRequest V) string           (* [serde_json::from_value] *)
}.

Inductive McpError : Type :=
| MethodNotFound (m : string)
| InvalidParams (m : string)
| ToolNotFound (m : string)
| Serialization (e : string)
| RuntimeFailed (m : string).   (* nothing makes one *)

Definition to_response {V} (e : McpError) (id : option V) : JsonRpcResponse V :=
  match e with
  | MethodNotFound m => rpc_error id error_codes.METHOD_NOT_FOUND m
  | InvalidParams m => rpc_error id error_codes.INVALID_PARAMS m
  | ToolNotFound m => rpc_error id error_codes.TOOL_NOT_FOUND ("Tool not found: " +:+ m)
  | Serialization e => rpc_error id error_codes.INTERNAL_ERROR ("Serialization error: " +:+ e)
  | RuntimeFailed m => rpc_error id error_codes.INTERNAL_ERROR m
  end.

(** * Texts *)

(** [serde_json::to_string] of a struct: its fields in order, each with the text of its value. *)
Definition json_struct (fields : list (string * string)) : string :=
  "{" +:+ String.concat "," ((fun '(k, v) => JTree.dquote +:+ k +:+ JTree.dquote +:+ ":" +:+ v) <$> fields) +:+ "}".
Definition json_seq (items : list string) : string := "[" +:+ String.concat "," items +:+ "]".

(** [{:0w$x}]. *)
Definition hex_digit (d : Z) : Ascii.ascii := Ascii.ascii_of_nat (Z.to_nat (if d <? 10 then 48 + d else 87 + d)).
Fixpoint hex_digits (n : nat) (z : Z) : string :=
  match n with O => EmptyString | S n => hex_digits n (z / 16) +:+ String (hex_digit (z mod 16)) EmptyString end.
Fixpoint hex_width (fuel : nat) (z : Z) : nat :=
  match fuel with O => O | S fuel => if z <? 16 then 1%nat else S (hex_width fuel (z / 16)) end.
Definition hex_pad (w : nat) (z : Z) : string := hex_digits (Nat.max w (hex_width 16 z)) z.

Definition uuid_of (id : Z) : string :=
  hex_pad 8 (Z.shiftr id 32) +:+ "-" +:+ hex_pad 4 (Z.land (Z.shiftr id 16) 65535) +:+ "-" +:+ hex_pad 4 (Z.land id 65535) +:+ "-" +:+
  hex_pad 4 (Z.lor 32768 (Z.land id 16383)) +:+ "-" +:+ hex_pad 12 id.

Definition show_status (st : ProcessStatus) : string :=
  match st with Runnable => "Runnable" | Waiting => "Waiting" | Suspended => "Suspended" | Exiting => "Exiting" end.
Definition show_priority (p : Priority) : string :=
  match p with HighPriority => "High" | NormalPriority => "Normal" | LowPriority => "Low" end.

(** * Results *)

Section results.
Context {V : Type} `{JL : JsonLib V}.

(** The text of a string, quoted and escaped. *)
Definition text_str (s : string) : string := jto_string (jstr s : V).

Definition spawned_text (orchestration_id : string) : string :=
  json_struct [("orchestration_id", text_str orchestration_id); ("status", text_str "pending")].
Definition status_text (orchestration_id : string) : string :=
  json_struct [("orchestration_id", text_str orchestration_id); ("status", text_str "unknown")].
Definition success_text : string := json_struct [("success", "true")].

Record ProcessInfo : Type := mkProcessInfo { pi_pid : Z; pi_status : string; pi_priority : string; pi_mailbox_depth : nat }.
Definition info_of (sn : Z * ProcessStatus * Priority * nat) : ProcessInfo :=
  let '(pid, st, pr, depth) := sn in mkProcessInfo pid (show_status st) (show_priority pr) depth.
Definition info_text (p : ProcessInfo) : string :=
  json_struct [("pid", pretty (pi_pid p)); ("status", text_str (pi_status p)); ("priority", text_str (pi_priority p));
    ("mailbox_depth", pretty (pi_mailbox_depth p))].
Definition processes_text (l : list ProcessInfo) : string := json_struct [("processes", json_seq (info_text <$> l))].

Definition metrics_text (uptime_secs active sent processed : Z) : string :=
  json_struct [("uptime_secs", pretty uptime_secs); ("active_processes", pretty active);
    ("messages_sent_total", pretty sent); ("messages_processed_total", pretty processed)].

Definition tool_result (text : string) (is_error : bool) : V :=
  json_object [("content", jarr [json_object [("type", jstr "text"); ("text", jstr text)]]); ("is_error", jbool is_error)].

Definition CARGO_PKG_VERSION : string := "0.1.0".
Definition initialize_result : V :=
  json_object [("protocol_version", jstr SUPPORTED_PROTOCOL_VERSION);
    ("capabilities", json_object [("tools", json_object [("list_changed", jbool false)])]);
    ("server_info", json_object [("name", jstr "zeptoclaw"); ("version", jstr CARGO_PKG_VERSION)])].
Definition empty_object : V := json_object [].

(** [serde_json::to_string] of a response: what is absent is left out. *)
Definition error_text (e : JsonRpcError V) : string :=
  json_struct ([("code", pretty (je_code e)); ("message", text_str (je_message e))] ++ option_list ((fun d => ("data", jto_string d)) <$> je_data e)).
Definition response_text (r : JsonRpcResponse V) : string :=
  json_struct ([("jsonrpc", text_str (jr_jsonrpc r))] ++ option_list ((fun i => ("id", jto_string i)) <$> jr_id r) ++
    option_list ((fun v => ("result", jto_string v)) <$> jr_result r) ++ option_list ((fun e => ("error", error_text e)) <$> jr_error r)).
End results.

(** * Tools *)

Section tools.
Context {V : Type} `{JL : JsonLib V}.

Definition string_arg (description : string) : V := json_object [("type", jstr "string"); ("description", jstr description)].
Definition object_schema (properties : list (string * V)) (required : list string) : V :=
  json_object [("type", jstr "object"); ("properties", json_object properties); ("required", jarr (jstr <$> required))].
Definition no_args_schema : V := json_object [("type", jstr "object"); ("properties", json_object [])].

Definition spawn_orchestration_schema : V :=
  object_schema [("goal", string_arg "The goal or task description for the orchestration");
    ("max_concurrency", json_object [("type", jstr "integer"); ("description", jstr "Maximum concurrent workers"); ("minimum", jnum 1); ("default", jnum 3)])] ["goal"].
Definition get_orchestration_status_schema : V :=
  object_schema [("orchestration_id", string_arg "The orchestration ID (PID) to check")] ["orchestration_id"].
Definition list_processes_schema : V := no_args_schema.
Definition send_message_schema : V :=
  object_schema [("pid", string_arg "Target process ID"); ("message", string_arg "Message content to send")] ["pid"; "message"].
Definition get_metrics_schema : V := no_args_schema.
Definition cancel_process_schema : V :=
  object_schema [("pid", string_arg "Process ID to cancel");
    ("reason", json_object [("type", jstr "string"); ("description", jstr "Reason for cancellation"); ("default", jstr "cancelled via MCP")])] ["pid"].

Definition tool_info (name : string) (schema : V) (description : string) : V :=
  json_object [("name", jstr name); ("description", jstr description); ("input_schema", schema)].

Definition get_available_tools : list V :=
  [tool_info "spawn_orchestration" spawn_orchestration_schema "Start a new orchestration with a goal";
   tool_info "get_orchestration_status" get_orchestration_status_schema "Check status/results of an orchestration";
   tool_info "list_processes" list_processes_schema "List active agent processes";
   tool_info "send_message" send_message_schema "Send a message to a process by PID";
   tool_info "get_metrics" get_metrics_schema "Get runtime metrics snapshot";
   tool_info "cancel_process" cancel_process_schema "Terminate a process by PID"].
Definition tools_result : V := json_object [("tools", jarr get_available_tools)].

(** ** Their arguments *)

Definition reason_of (reason_str : string) : Reason :=
  if decide (reason_str = "normal") then Normal
  else if decide (reason_str = "shutdown") then Shutdown else CustomReason reason_str.
End tools.

(** * Sessions *)

Record McpSession : Type := mkMcpSession {
  ms_id : string;
  ms_created_at : Instant;
  ms_last_active : Instant;
  ms_initialized : bool
}.

Definition mark_initialized (se : McpSession) : McpSession :=
  mkMcpSession (ms_id se) (ms_created_at se) (ms_last_active se) true.

(** [RuntimeHandle] and [McpServerState]; [mcp_uuid_counter] is the static counter of [uuid]. *)
Record McpServerState (V B St Br Hk H : Type) : Type := mkMcpServer {
  mcp_sessions : gmap string McpSession;
  mcp_auth_token : option string;
  mcp_session_timeout : Duration;
  mcp_scheduler : AgentScheduler V B St Br Hk H;
  mcp_metrics : option RuntimeMetrics;
  mcp_started_at : Instant;
  mcp_uuid_counter : Z
}.
Arguments mkMcpServer {V B St Br Hk H}.
Arguments mcp_sessions {V B St Br Hk H}.
Arguments mcp_auth_token {V B St Br Hk H}.
Arguments mcp_session_timeout {V B St Br Hk H}.
Arguments mcp_scheduler {V B St Br Hk H}.
Arguments mcp_metrics {V B St Br Hk H}.
Arguments mcp_started_at {V B St Br Hk H}.
Arguments mcp_uuid_counter {V B St Br Hk H}.

Section server.
Context {V B St Br Hk H W : Type} `{AB : AgentBehavior V B St W} `{BO : BridgeOps V Br}.
Context `{MH : MessageHook V Hk W} `{EH : ExitHandler V B St Br Hk H W} `{CK : Clock} `{HO : HashOrder}.
Context `{JL : JsonLib V} `{MC : McpCodec V}.
Abbreviation Sched := (AgentScheduler V B St Br Hk H).
Abbreviation Server := (McpServerState V B St Br Hk H).
Implicit Types (s : Sched) (m : Server) (w : W) (se : McpSession).

Definition with_sessions (x : gmap string McpSession) m : Server :=
  mkMcpServer x (mcp_auth_token m) (mcp_session_timeout m) (mcp_scheduler m) (mcp_metrics m) (mcp_started_at m) (mcp_uuid_counter m).
Definition with_scheduler (x : Sched) m : Server :=
  mkMcpServer (mcp_sessions m) (mcp_auth_token m) (mcp_session_timeout m) x (mcp_metrics m) (mcp_started_at m) (mcp_uuid_counter m).
Definition with_uuid_counter (x : Z) m : Server :=
  mkMcpServer (mcp_sessions m) (mcp_auth_token m) (mcp_session_timeout m) (mcp_scheduler m) (mcp_metrics m) (mcp_started_at m) x.

(** [McpServerState::new]. *)
Definition mcp_server_new (auth_token : option string) (session_timeout : Duration) s (metrics : option RuntimeMetrics) (started_at : Instant)
    (uuid_counter : Z) : Server :=
  mkMcpServer ∅ auth_token session_timeout s metrics started_at uuid_counter.

(** [Instant::now()]. *)
Definition mcp_now m : Instant * Server :=
  let '(now, s) := read_clock (mcp_scheduler m) in (now, with_scheduler s m).

Definition generate_uuid m : string * Server :=
  let '(id, counter) := fetch_add1 (mcp_uuid_counter m) in (uuid_of id, with_uuid_counter counter m).

Definition session_new (id : string) m : McpSession * Server :=
  let '(now, m) := mcp_now m in (mkMcpSession id now now false, m).
Definition session_touch se m : McpSession * Server :=
  let '(now, m) := mcp_now m in (mkMcpSession (ms_id se) (ms_created_at se) now (ms_initialized se), m).

(** [is_expired]: [elapsed] is zero for an instant in the future. *)
Definition expired_at (timeout : Duration) (now : Instant) se : bool := timeout <? sat_sub now (ms_last_active se).
Definition session_is_expired se m : bool * Server :=
  let '(now, m) := mcp_now m in (expired_at (mcp_session_timeout m) now se, m).

Definition create_session m : string * Server :=
  let '(session_id, m) := generate_uuid m in
  let '(session, m) := session_new session_id m in
  (session_id, with_sessions (<[session_id := session]> (mcp_sessions m)) m).

Fixpoint expired_ids (sessions : list McpSession) m : list string * Server :=
  match sessions with
  | [] => ([], m)
  | se :: sessions =>
      let '(e, m) := session_is_expired se m in
      let '(ids, m) := expired_ids sessions m in
      (if e then ms_id se :: ids else ids, m)
  end.

Definition get_session (session_id : string) m : option McpSession * Server :=
  let '(ids, m) := expired_ids (hash_values (mcp_sessions m)) m in
  let m := with_sessions (foldl (fun t id => base.delete id t) (mcp_sessions m) ids) m in
  (mcp_sessions m !! session_id, m).

Definition update_session se m : Server :=
  let '(se, m) := session_touch se m in
  with_sessions (<[ms_id se := se]> (mcp_sessions m)) m.

Definition remove_session (session_id : string) m : bool * Server :=
  (bool_decide (is_Some (mcp_sessions m !! session_id)), with_sessions (base.delete session_id (mcp_sessions m)) m).

(** [max_by_key]: of equal ones, the last. *)
Definition newest (a : option McpSession) se : option McpSession :=
  match a with Some b => if ms_created_at se <? ms_created_at b then Some b else Some se | None => Some se end.
Definition most_recent_session_id m : option string :=
  ms_id <$> foldl newest None (hash_values (mcp_sessions m)).

Definition verify_auth (token : option string) m : bool :=
  match mcp_auth_token m with
  | None => true
  | Some expected => match token with Some t => bool_decide (t = expected) | None => false end
  end.

(** * The runtime *)

Definition rt_list_processes m : list ProcessInfo :=
  (fun sn => info_of (sn_pid sn, sn_status sn, sn_priority sn, sn_mailbox_depth sn)) <$> list_processes (mcp_scheduler m).

Definition rt_send_message (pid : Z) (message : Message V) m w : result unit string * Server * W :=
  let '(res, s, w) := send pid message (mcp_scheduler m) w in (res, with_scheduler s m, w).

Definition rt_terminate_process (fuel : nat) (pid : Z) (reason : Reason) m w : option (Server * W) :=
  '(s, w) ← terminate_process fuel pid reason (mcp_scheduler m) w; Some (with_scheduler s m, w).

(** What [get_metrics] takes of a snapshot. *)
Definition rt_metrics m : (Z * Z * Z * Z) * Server :=
  let count := Z.of_nat (registry_count (s_registry (mcp_scheduler m))) in
  let '(now, m) := mcp_now m in
  let metrics := default (s_metrics (mcp_scheduler m)) (mcp_metrics m) in
  ((sat_sub now (mcp_started_at m) / 1000000000, count, messages_sent_total metrics, messages_processed_total metrics), m).

(** * The tools *)

Definition missing {A} (what : string) : result A McpError := Err (InvalidParams what).

Definition handle_spawn_orchestration (args : option V) m : result string McpError * Server :=
  match args with
  | None => (missing "Missing arguments", m)
  | Some args =>
      match jget_str args "goal" with
      | None => (missing "Missing 'goal' parameter", m)
      | Some _ =>
          let '(id, m) := generate_uuid m in
          (Ok (spawned_text (V := V) ("orch-" +:+ id)), m)
      end
  end.

Definition handle_get_orchestration_status (args : option V) : result string McpError :=
  match args with
  | None => missing "Missing arguments"
  | Some args =>
      match jget_str args "orchestration_id" with
      | None => missing "Missing 'orchestration_id' parameter"
      | Some id => Ok (status_text (V := V) id)
      end
  end.

Definition handle_list_processes m : result string McpError := Ok (processes_text (V := V) (rt_list_processes m)).

Definition pid_arg (args : V) : option Z :=
  t ← jget_str args "pid"; match parse_u64 t with Ok pid => Some pid | Err _ => None end.

Definition refused_text (e : string) : string :=
  "{" +:+ JTree.dquote +:+ "success" +:+ JTree.dquote +:+ ": false, " +:+ JTree.dquote +:+ "error" +:+ JTree.dquote +:+ ": " +:+
  JTree.dquote +:+ e +:+ JTree.dquote +:+ "}".

Definition handle_send_message (args : option V) m w : result string McpError * Server * W :=
  match args with
  | None => (missing "Missing arguments", m, w)
  | Some args =>
      match pid_arg args with
      | None => (missing "Missing or invalid 'pid' parameter", m, w)
      | Some pid =>
          match jget args "message" with
          | None => (missing "Missing 'message' parameter", m, w)
          | Some message_data =>
              let '(res, m, w) := rt_send_message pid (Json message_data) m w in
              (Ok (match res with Ok _ => success_text | Err e => refused_text e end), m, w)
          end
      end
  end.

Definition handle_get_metrics m : result string McpError * Server :=
  let '((uptime, active, sent, processed), m) := rt_metrics m in
  (Ok (metrics_text uptime active sent processed), m).

Definition reason_arg (args : V) : Reason := reason_of (default "cancelled" (jget_str args "reason")).

Definition handle_cancel_process (fuel : nat) (args : option V) m w : option (result string McpError * Server * W) :=
  match args with
  | None => Some (missing "Missing arguments", m, w)
  | Some args =>
      match pid_arg args with
      | None => Some (missing "Missing or invalid 'pid' parameter", m, w)
      | Some pid =>
          '(m, w) ← rt_terminate_process fuel pid (reason_arg args) m w;
          Some (Ok success_text, m, w)
      end
  end.

Definition call_tool (fuel : nat) (name : string) (arguments : option V) m w : option (result string McpError * Server * W) :=
  if decide (name = "spawn_orchestration") then let '(r, m) := handle_spawn_orchestration arguments m in Some (r, m, w)
  else if decide (name = "get_orchestration_status") then Some (handle_get_orchestration_status arguments, m, w)
  else if decide (name = "list_processes") then Some (handle_list_processes m, m, w)
  else if decide (name = "send_message") then Some (handle_send_message arguments m w)
  else if decide (name = "get_metrics") then let '(r, m) := handle_get_metrics m in Some (r, m, w)
  else if decide (name = "cancel_process") then handle_cancel_process fuel arguments m w
  else Some (Err (ToolNotFound name), m, w).

(** * Requests *)

Implicit Types q : JsonRpcRequest V.
Abbreviation Response := (JsonRpcResponse V).

Definition handle_tools_list q : result Response McpError :=
  match jq_params q with
  | Some p => match tools_list_params p with Ok _ => Ok (rpc_success (jq_id q) tools_result) | Err e => Err (Serialization e) end
  | None => Ok (rpc_success (jq_id q) tools_result)
  end.

Definition handle_tools_call (fuel : nat) q m w : option (result Response McpError * Server * W) :=
  match jq_params q with
  | None => Some (missing "Missing tools/call params", m, w)
  | Some p =>
      match tools_call_params p with
      | Err e => Some (Err (Serialization e), m, w)
      | Ok (name, arguments) =>
          '(r, m, w) ← call_tool fuel name arguments m w;
          Some (match r with Ok text => Ok (rpc_success (jq_id q) (tool_result text false)) | Err e => Err e end, m, w)
      end
  end.

Definition handle_ping q : result Response McpError := Ok (rpc_success (jq_id q) empty_object).

Definition dispatch_method (fuel : nat) q m w : option (result Response McpError * Server * W) :=
  if decide (jq_method q = "tools/list") then Some (handle_tools_list q, m, w)
  else if decide (jq_method q = "tools/call") then handle_tools_call fuel q m w
  else if decide (jq_method q = "ping") then Some (handle_ping q, m, w)
  else Some (Err (MethodNotFound (jq_method q)), m, w).

Definition handle_initialize q (session_id : option string) m : Response * Server :=
  match jq_params q with
  | None => (rpc_error (jq_id q) error_codes.INVALID_PARAMS "Missing initialize params", m)
  | Some p =>
      match initialize_params p with
      | Err e => (rpc_error (jq_id q) error_codes.INVALID_PARAMS ("Invalid initialize params: " +:+ e), m)
      | Ok protocol_version =>
          if decide (protocol_version = SUPPORTED_PROTOCOL_VERSION) then
            let '(session_id, m) := match session_id with Some id => (id, m) | None => create_session m end in
            let '(session, m) := session_new session_id m in
            (rpc_success (jq_id q) initialize_result, update_session (mark_initialized session) m)
          else
            (rpc_error (jq_id q) error_codes.INVALID_PARAMS
               ("Unsupported protocol version: " +:+ protocol_version +:+ ". Supported: " +:+ SUPPORTED_PROTOCOL_VERSION), m)
      end
  end.

Definition NOT_INITIALIZED : string := "Session not initialized. Call initialize first.".

Definition handle_request (fuel : nat) q (session_id : option string) m w : option (Response * Server * W) :=
  if decide (jq_method q = "initialize") then let '(r, m) := handle_initialize q session_id m in Some (r, m, w)
  else match session_id with
  | None => Some (rpc_error (jq_id q) error_codes.SESSION_NOT_INITIALIZED NOT_INITIALIZED, m, w)
  | Some session_id =>
      match get_session session_id m with
      | (None, m) => Some (rpc_error (jq_id q) error_codes.SESSION_EXPIRED "Session not found or expired", m, w)
      | (Some session, m) =>
          if ms_initialized session then
            '(r, m, w) ← dispatch_method fuel q m w;
            let m := update_session session m in
            Some (match r with Ok r => r | Err e => to_response e (jq_id q) end, m, w)
          else Some (rpc_error (jq_id q) error_codes.SESSION_NOT_INITIALIZED NOT_INITIALIZED, m, w)
      end
  end.

(** * Over lines

    One line of standard input: the session the listener keeps, and the line it writes.  A line
    that cannot be read or written ends the loop: what was done is what a prefix of the lines
    does. *)

Definition is_error (r : Response) : bool := match jr_error r with Some _ => true | None => false end.

Definition stdio_line (fuel : nat) (line : string) (session_id : option string) m w
    : option (list string * option string * Server * W) :=
  let line := utf8_trim line in
  if decide (line = EmptyString) then Some ([], session_id, m, w)
  else match request_parse line with
  | Err e => Some ([response_text (rpc_error None error_codes.PARSE_ERROR ("Parse error: " +:+ e))], session_id, m, w)
  | Ok q =>
      '(r, m, w) ← handle_request fuel q session_id m w;
      let session_id := if bool_decide (jq_method q = "initialize") && negb (is_error r) then most_recent_session_id m else session_id in
      Some ([response_text r], session_id, m, w)
  end.

Fixpoint stdio_run (fuel : nat) (lines : list string) (session_id : option string) m w
    : option (list string * option string * Server * W) :=
  match lines with
  | [] => Some ([], session_id, m, w)
  | line :: lines =>
      '(out, session_id, m, w) ← stdio_line fuel line session_id m w;
      '(outs, session_id, m, w) ← stdio_run fuel lines session_id m w;
      Some (out ++ outs, session_id, m, w)
  end.
End server.
