(* ===== verification/McpFacts.v ===== *)
(** What the server of the Model Context Protocol guarantees: the scheduler is only acted on for
    a client with a live session, and then exactly as it asked; over standard input every
    request is answered, and a client that initialized keeps the one session there is. *)
From S2P Require Import Prelude Float64 Json Types FileSystem Process DeadLetter Scheduler SchedFacts SchedTerm Decomposition McpServer.

Section facts.
Context {V B St Br Hk H W : Type} `{AB : AgentBehavior V B St W} `{BO : BridgeOps V Br}.
Context `{MH : MessageHook V Hk W} `{EH : ExitHandler V B St Br Hk H W} `{CK : Clock} `{HO : HashOrder}.
Context `{JL : JsonLib V} `{MC : McpCodec V}.
Abbreviation Sched := (AgentScheduler V B St Br Hk H).
Abbreviation Server := (McpServerState V B St Br Hk H).
Implicit Types (s : Sched) (m : Server) (w : W) (se : McpSession) (q : JsonRpcRequest V).

(** * Time passes *)

(** The same scheduler, its clock read some more. *)
Definition later s s' : Prop := exists n, (s_clock_reads s <= n)%nat /\ s' = upd_clock_reads n s.

#[export] Instance later_preorder : PreOrder later.
Proof.
  split.
  - intros s. exists (s_clock_reads s). split; [lia|by destruct s].
  - intros s1 s2 s3 (n & Hn & ->) (k & Hm & ->). exists k. cbn in *. split; [lia|done].
Qed.

Abbreviation reads m := (s_clock_reads (mcp_scheduler m)).

(** A step of the server that leaves the scheduler alone. *)
Record quiet m m' : Prop := {
  quiet_later : later (mcp_scheduler m) (mcp_scheduler m');
  quiet_timeout : mcp_session_timeout m' = mcp_session_timeout m
}.

#[export] Instance quiet_preorder : PreOrder quiet.
Proof.
  split; [by split|]. intros m1 m2 m3 [L1 T1] [L2 T2]. split; [by etrans|congruence].
Qed.

Lemma quiet_reads m m' : quiet m m' -> (reads m <= reads m')%nat.
Proof. by intros [(n & Hn & ->) _]. Qed.

Lemma mcp_now_spec m : mcp_now m = (clock_at (reads m), with_scheduler (upd_clock_reads (S (reads m)) (mcp_scheduler m)) m).
Proof. done. Qed.

Lemma mcp_now_quiet m : quiet m (mcp_now m).2.
Proof. split; [|done]. exists (S (reads m)). cbn. split; [lia|done]. Qed.

Lemma with_sessions_quiet x m : quiet m (with_sessions x m).
Proof. by split. Qed.

(** * Sessions *)

(** Every session is stored under its id. *)
Definition keyed m : Prop := forall id se, mcp_sessions m !! id = Some se -> ms_id se = id.

Lemma expired_ids_spec l : forall m ids m', expired_ids l m = (ids, m') ->
  quiet m m' /\ mcp_sessions m' = mcp_sessions m /\ reads m' = (reads m + length l)%nat /\
  (forall se, se ∈ l -> ms_id se ∉ ids -> exists k, (reads m <= k < reads m')%nat /\ expired_at (mcp_session_timeout m) (clock_at k) se = false) /\
  (forall id, id ∈ ids -> exists se k, se ∈ l /\ ms_id se = id /\ (reads m <= k < reads m')%nat /\
     expired_at (mcp_session_timeout m) (clock_at k) se = true).
Proof.
  induction l as [|x l IH]; intros m ids m'; cbn [expired_ids].
  { intros [= <- <-]. split_and!; [done|done|cbn; lia|..]; intros ? Hx; by apply not_elem_of_nil in Hx. }
  unfold session_is_expired. rewrite mcp_now_spec. cbn [mcp_session_timeout with_scheduler].
  destruct (expired_ids l _) as [ids1 m1] eqn:E. intros [= <- <-]. apply IH in E as (Hq & Hs & Hr & Hl & Hi).
  cbn [mcp_scheduler with_scheduler mcp_sessions mcp_session_timeout upd_clock_reads s_clock_reads] in *.
  split_and!; [etrans; [apply (mcp_now_quiet m)|exact Hq]|done|cbn; lia|..].
  - intros se [->|Hse]%elem_of_cons Hn.
    + exists (reads m). split; [lia|]. by destruct (expired_at _ _ _); [destruct Hn; left|].
    + destruct (Hl se Hse) as (k & Hle & He); [destruct (expired_at _ _ x); [set_solver|done]|]. exists k. split; [lia|done].
  - intros id Hid. destruct (expired_at _ _ x) eqn:Ex; [apply elem_of_cons in Hid as [->|Hid]|].
    { exists x, (reads m). split_and!; [by left|done|lia|lia|done]. }
    all: destruct (Hi id Hid) as (se & k & Hse & <- & Hle & He); exists se, k; split_and!; [by right|done|lia|lia|done].
Qed.

Lemma foldl_delete_spec ids : forall (t : gmap string McpSession) id,
  foldl (fun t id => base.delete id t) t ids !! id = if decide (id ∈ ids) then None else t !! id.
Proof.
  induction ids as [|x ids IH]; intros t id; cbn [foldl]; [by rewrite decide_False by apply not_elem_of_nil|].
  rewrite IH. destruct (decide (id ∈ ids)); [by rewrite decide_True by (by right)|].
  destruct (decide (id = x)) as [->|Hx]; [rewrite lookup_delete_eq, decide_True by (by left); done|].
  rewrite lookup_delete_ne by done. rewrite decide_False; [done|]. by intros [?|?]%elem_of_cons.
Qed.

Lemma get_session_spec sid m found m' : get_session sid m = (found, m') ->
  quiet m m' /\ mcp_sessions m' ⊆ mcp_sessions m /\ found = mcp_sessions m' !! sid /\
  reads m' = (reads m + size (mcp_sessions m))%nat /\
  forall se, keyed m -> mcp_sessions m !! sid = Some se ->
    (is_Some found -> exists k, (reads m <= k < reads m')%nat /\ expired_at (mcp_session_timeout m) (clock_at k) se = false) /\
    ((forall k, (reads m <= k < reads m')%nat -> expired_at (mcp_session_timeout m) (clock_at k) se = false) -> found = Some se).
Proof.
  unfold get_session. destruct (expired_ids _ m) as [ids m1] eqn:E. apply expired_ids_spec in E as (Hq & Hs & Hr & Hl & Hi).
  intros [= <- <-]. cbn. rewrite Hs. setoid_rewrite foldl_delete_spec. unfold hash_values in Hr. rewrite length_fmap, hash_iter_perm, length_map_to_list in Hr.
  split_and!; [etrans; [exact Hq|apply with_sessions_quiet]| |done|done|].
  { apply map_subseteq_spec. intros id se. rewrite foldl_delete_spec. by case_decide. }
  intros se Hkey Hse. assert (ms_id se = sid) as Hid by by apply Hkey in Hse. split.
  - case_decide as Hd; [by intros [? ?]|intros _]. apply (Hl se); [apply elem_of_hash_values; eauto|by rewrite Hid].
  - intros Hlive. rewrite decide_False; [done|]. intros (se' & k & Hse' & Hid' & Hle & He)%Hi.
    apply elem_of_hash_values in Hse' as (id' & Hse'). assert (id' = sid) as -> by (rewrite <- (Hkey _ _ Hse'); done).
    rewrite Hse in Hse'. injection Hse' as <-. rewrite Hlive in He; [done|lia].
Qed.

Lemma update_session_spec se m : exists se', quiet m (update_session se m) /\
  ms_id se' = ms_id se /\ ms_initialized se' = ms_initialized se /\ ms_last_active se' = clock_at (reads m) /\ ms_created_at se' = ms_created_at se /\
  mcp_sessions (update_session se m) = <[ms_id se := se']> (mcp_sessions m).
Proof.
  eexists (mkMcpSession (ms_id se) (ms_created_at se) (clock_at (reads m)) (ms_initialized se)).
  split_and!; try done. split; [|done]. exists (S (reads m)). cbn. split; [lia|done].
Qed.

Lemma keyed_insert m m' id se : keyed m -> ms_id se = id -> mcp_sessions m' = <[id := se]> (mcp_sessions m) -> keyed m'.
Proof.
  intros Hm Hi E id' se'. rewrite E. destruct (decide (id' = id)) as [->|Hne]; [rewrite lookup_insert_eq|rewrite lookup_insert_ne by done; apply Hm].
  by intros [= <-].
Qed.

Lemma keyed_subseteq m m' : keyed m -> mcp_sessions m' ⊆ mcp_sessions m -> keyed m'.
Proof. intros Hm Hs id se Hse. eapply Hm, lookup_weaken; eauto. Qed.

(** * What a request asks of the scheduler *)

Inductive Asked : Type :=
| AskSend (pid : Z) (data : V)
| AskCancel (pid : Z) (reason : Reason).

(** The tools that act, with arguments that can be read. *)
Definition tool_asks (name : string) (arguments : option V) : option Asked :=
  args ← arguments;
  if decide (name = "send_message") then pid ← pid_arg args; data ← jget args "message"; Some (AskSend pid data)
  else if decide (name = "cancel_process") then pid ← pid_arg args; Some (AskCancel pid (reason_arg args))
  else None.

Definition asked q : option Asked :=
  if decide (jq_method q = "tools/call") then
    p ← jq_params q;
    match tools_call_params p with Ok (name, arguments) => tool_asks name arguments | Err _ => None end
  else None.

Definition perform (fuel : nat) (a : option Asked) s w : option (Sched * W) :=
  match a with
  | None => Some (s, w)
  | Some (AskSend pid data) => let '(_, s, w) := send pid (Json data) s w in Some (s, w)
  | Some (AskCancel pid reason) => terminate_process fuel pid reason s w
  end.

(** The server goes from [m] to [m'] doing [a], and keeps its sessions. *)
Record does (fuel : nat) (a : option Asked) m w m' w' : Prop := {
  does_sessions : mcp_sessions m' = mcp_sessions m;
  does_timeout : mcp_session_timeout m' = mcp_session_timeout m;
  does_perform : exists s2, perform fuel a (mcp_scheduler m) w = Some (s2, w') /\ later s2 (mcp_scheduler m')
}.

Lemma does_nothing fuel m m' w : mcp_sessions m' = mcp_sessions m -> quiet m m' -> does fuel None m w m' w.
Proof. intros Hs [L T]. split; [done|done|]. eexists. split; [done|exact L]. Qed.

Lemma send_message_does fuel args m w :
  does fuel (tool_asks "send_message" args) m w (handle_send_message args m w).1.2 (handle_send_message args m w).2.
Proof.
  unfold tool_asks, handle_send_message. destruct args as [args|]; [|by apply does_nothing]. cbn [mbind option_bind].
  rewrite decide_True by done. destruct (pid_arg args) as [pid|]; [|by apply does_nothing].
  cbn [mbind option_bind]. destruct (jget args "message") as [data|]; [|by apply does_nothing].
  cbn [mbind option_bind]. unfold rt_send_message. destruct (send pid (Json data) (mcp_scheduler m) w) as [[res s1] w1] eqn:E.
  split; [done|done|]. exists s1. cbn [perform]. by rewrite E.
Qed.

Lemma cancel_process_does fuel args m w r m' w' : handle_cancel_process fuel args m w = Some (r, m', w') ->
  does fuel (tool_asks "cancel_process" args) m w m' w'.
Proof.
  unfold tool_asks, handle_cancel_process. destruct args as [args|]; [|intros [= <- <- <-]; by apply does_nothing]. cbn [mbind option_bind].
  rewrite decide_False, decide_True by done. destruct (pid_arg args) as [pid|]; [|intros [= <- <- <-]; by apply does_nothing].
  unfold rt_terminate_process. cbn [mbind option_bind]. destruct (terminate_process _ _ _ _ _) as [[s1 w1]|] eqn:E; [|done].
  intros [= <- <- <-]. split; [done|done|]. exists s1. by split.
Qed.

Lemma tool_asks_none name args : name <> "send_message" -> name <> "cancel_process" -> tool_asks name args = None.
Proof. intros H1 H2. unfold tool_asks. destruct args; cbn [mbind option_bind]; [|done]. by rewrite !decide_False. Qed.

Lemma call_tool_does fuel name args m w r m' w' : call_tool fuel name args m w = Some (r, m', w') ->
  does fuel (tool_asks name args) m w m' w'.
Proof.
  unfold call_tool. repeat (case_decide; subst).
  - unfold handle_spawn_orchestration. rewrite tool_asks_none by done.
    destruct args as [args|]; [destruct (jget_str args "goal")|]; intros [= <- <- <-]; by apply does_nothing.
  - intros [= <- <- <-]. rewrite tool_asks_none by done. by apply does_nothing.
  - intros [= <- <- <-]. rewrite tool_asks_none by done. by apply does_nothing.
  - intros [= E]. pose proof (send_message_does fuel args m w) as Hd. by rewrite E in Hd.
  - rewrite tool_asks_none by done. intros [= <- <- <-]. apply does_nothing; [done|apply (mcp_now_quiet m)].
  - apply cancel_process_does.
  - intros [= <- <- <-]. rewrite tool_asks_none by done. by apply does_nothing.
Qed.

Lemma dispatch_does fuel q m w r m' w' : dispatch_method fuel q m w = Some (r, m', w') -> does fuel (asked q) m w m' w'.
Proof.
  unfold dispatch_method, asked. repeat case_decide; try congruence.
  - intros [= <- <- <-]. by apply does_nothing.
  - unfold handle_tools_call. destruct (jq_params q) as [p|]; [|intros [= <- <- <-]; by apply does_nothing]. cbn [mbind option_bind].
    destruct (tools_call_params p) as [[name args]|e]; [|intros [= <- <- <-]; by apply does_nothing].
    destruct (call_tool _ _ _ _ _) as [[[r1 m1] w1]|] eqn:E; [|done]. intros [= <- <- <-]. exact (call_tool_does _ _ _ _ _ _ _ _ E).
  - intros [= <- <- <-]. by apply does_nothing.
  - intros [= <- <- <-]. by apply does_nothing.
Qed.

(** * Requests *)

Lemma initialize_spec q sid m r m' : handle_initialize q sid m = (r, m') ->
  quiet m m' /\
  ((is_error r = true /\ m' = m) \/
   (is_error r = false /\ exists id se, (forall i, sid = Some i -> i = id) /\ ms_id se = id /\ ms_initialized se = true /\
      mcp_sessions m' = <[id := se]> (mcp_sessions m))).
Proof.
  unfold handle_initialize. destruct (jq_params q) as [p|]; [|intros [= <- <-]; split; [reflexivity|left; split; reflexivity]].
  destruct (initialize_params p) as [version|e]; [|intros [= <- <-]; split; [reflexivity|left; split; reflexivity]].
  case_decide; [|intros [= <- <-]; split; [reflexivity|left; split; reflexivity]].
  destruct (match sid with Some id => (id, m) | None => create_session m end) as [id m1] eqn:E.
  unfold session_new. rewrite mcp_now_spec. intros [= <- <-].
  match goal with |- context [update_session ?se ?m2] => destruct (update_session_spec se m2) as (se' & Hq & Hid & Hini & _ & _ & Hs) end.
  assert (quiet m m1 /\ exists t, mcp_sessions m1 = t /\ forall x, <[id := x]> t = <[id := x]> (mcp_sessions m)) as [Hq1 (t & Ht & Hx)].
  { destruct sid as [i|]; [injection E as <- <-; split; [done|by eexists]|].
    unfold create_session, generate_uuid, fetch_add1, session_new in E. rewrite mcp_now_spec in E. apply pair_equal_spec in E as [<- <-].
    split; [split; [|done]; exists (S (reads m)); cbn; split; [lia|done]|]. eexists. split; [done|]. intros x. apply insert_insert_eq. }
  split.
  - etrans; [exact Hq1|]. etrans; [apply (mcp_now_quiet m1)|exact Hq].
  - right. split; [done|]. exists id, se'. split_and!; [|exact Hid|exact Hini|].
    + intros i ->. by injection E.
    + rewrite Hs. cbn. rewrite Ht. apply Hx.
Qed.

(** What a request leaves the sessions as, and what it does. *)
Lemma request_spec fuel q sid m w r m' w' : keyed m -> handle_request fuel q sid m w = Some (r, m', w') ->
  keyed m' /\ mcp_session_timeout m' = mcp_session_timeout m /\
  ((later (mcp_scheduler m) (mcp_scheduler m') /\ w' = w) \/
   exists id se k s1 s2, sid = Some id /\ mcp_sessions m !! id = Some se /\ ms_initialized se = true /\ (reads m <= k)%nat /\
     expired_at (mcp_session_timeout m) (clock_at k) se = false /\ is_Some (asked q) /\
     later (mcp_scheduler m) s1 /\ perform fuel (asked q) s1 w = Some (s2, w') /\ later s2 (mcp_scheduler m')).
Proof.
  intros Hkey. unfold handle_request. case_decide as Hm.
  { destruct (handle_initialize q sid m) as [r1 m1] eqn:E. intros [= <- <- <-]. apply initialize_spec in E as [[L T] [[_ ->]|(_ & id & se & _ & Hid & _ & Hs)]].
    - split_and!; [done|done|by left].
    - split_and!; [by eapply keyed_insert|done|by left]. }
  destruct sid as [sid|]; [|intros [= <- <- <-]; split_and!; [done|done|by left]].
  destruct (get_session sid m) as [found m1] eqn:E. apply get_session_spec in E as ([L T] & Hsub & Hf & Hr & Hlive).
  pose proof (keyed_subseteq m m1 Hkey Hsub) as Hkey1.
  destruct found as [se|]; [|intros [= <- <- <-]; split_and!; [done|done|by left]].
  destruct (ms_initialized se) eqn:Hini; [|intros [= <- <- <-]; split_and!; [done|done|by left]].
  destruct (dispatch_method fuel q m1 w) as [[[r1 m2] w1]|] eqn:Ed; [|done]. intros [= <- <- <-].
  apply dispatch_does in Ed as [Hs2 T2 (s2 & Hp & L2)].
  destruct (update_session_spec se m2) as (se' & [L3 T3] & Hid & _ & _ & _ & Hs3).
  split; [|split; [congruence|]].
  { eapply (keyed_insert m2); [by eapply keyed_subseteq; [exact Hkey1|rewrite Hs2]|done|exact Hs3]. }
  symmetry in Hf. pose proof (lookup_weaken _ _ _ _ Hf Hsub) as Hse. destruct (Hlive se Hkey Hse) as [Hlv _].
  destruct Hlv as (k & Hle & He); [by eexists|]. destruct (asked q) as [a|] eqn:Ha.
  - right. exists sid, se, k, (mcp_scheduler m1), s2. split_and!; try done; [lia|by etrans].
  - injection Hp as <- <-. left. split; [|done]. by do 2 (etrans; [eassumption|]).
Qed.

(** ** Runs *)

(** The server is shared: requests of any client, with any session id, and whatever else uses
    the scheduler. *)
Inductive McpCall : Type :=
| MRequest (request : JsonRpcRequest V) (session_id : option string)
| MRemove (session_id : string)
| MRuntime (call : SchedCall V B Br Hk H).

Definition mcp_exec (fuel : nat) (c : McpCall) m w : option (Server * W) :=
  match c with
  | MRequest q sid => '(_, m, w) ← handle_request fuel q sid m w; Some (m, w)
  | MRemove sid => Some ((remove_session sid m).2, w)
  | MRuntime call => '(s, w) ← sched_exec fuel call (mcp_scheduler m) w; Some (with_scheduler s m, w)
  end.

Definition mcp_run (fuel : nat) (calls : list McpCall) m w : option (Server * W) :=
  fold_opt (fun '(m, w) c => mcp_exec fuel c m w) (m, w) calls.

Lemma mcp_exec_keeps fuel c m w m' w' : keyed m -> mcp_exec fuel c m w = Some (m', w') ->
  keyed m' /\ mcp_session_timeout m' = mcp_session_timeout m.
Proof.
  intros Hkey. destruct c as [q sid|sid|call]; cbn [mcp_exec].
  - destruct (handle_request fuel q sid m w) as [[[r m1] w1]|] eqn:E; [|done]. intros [= <- <-].
    by destruct (request_spec _ _ _ _ _ _ _ _ Hkey E) as (? & ? & _).
  - intros [= <- <-]. split; [|done]. eapply keyed_subseteq; [exact Hkey|]. apply delete_subseteq.
  - destruct (sched_exec _ _ _ _) as [[s1 w1]|]; [|done]. by intros [= <- <-].
Qed.

Lemma mcp_run_keeps fuel calls : forall m w m' w', keyed m -> mcp_run fuel calls m w = Some (m', w') ->
  keyed m' /\ mcp_session_timeout m' = mcp_session_timeout m.
Proof.
  induction calls as [|c calls IH]; intros m w m' w' Hkey; [by intros [= <- <-]|]. unfold mcp_run. cbn [fold_opt].
  destruct (mcp_exec fuel c m w) as [[m1 w1]|] eqn:E; [|done]. intros Hr.
  apply mcp_exec_keeps in E as [Hkey1 T1]; [|done]. destruct (IH m1 w1 m' w' Hkey1 Hr) as [Hkey2 T2]. split; [done|congruence].
Qed.

(** C33: Only a client with a live session acts on the runtime, and as it asked.  Whatever
    requests a server has answered, with whatever session ids, while others used the
    scheduler: a further request leaves the scheduler alone (but for reading its clock), or it
    names a session that was initialized and was active within the timeout, and calls
    [send_message] or [cancel_process] with arguments that can be read; then the scheduler has
    done exactly that one send or termination. *)
Theorem mcp_acts_as_asked fuel calls auth_token timeout s metrics started_at counter w m w1 q session_id r m' w2 :
  mcp_run fuel calls (mcp_server_new auth_token timeout s metrics started_at counter) w = Some (m, w1) ->
  handle_request fuel q session_id m w1 = Some (r, m', w2) ->
  (later (mcp_scheduler m) (mcp_scheduler m') /\ w2 = w1) \/
  exists id se k s1 s2, session_id = Some id /\ mcp_sessions m !! id = Some se /\ ms_initialized se = true /\
    (reads m <= k)%nat /\ clock_at k - ms_last_active se <= Z.max 0 timeout /\ is_Some (asked q) /\
    later (mcp_scheduler m) s1 /\ perform fuel (asked q) s1 w1 = Some (s2, w2) /\ later s2 (mcp_scheduler m').
Proof.
  intros Hr Hq. apply mcp_run_keeps in Hr as [Hkey T]; [|by intros id se ?]. cbn in T.
  destruct (request_spec fuel q session_id m w1 r m' w2 Hkey Hq) as (_ & _ & [Hl|(id & se & k & s1 & s2 & H1 & H2 & H3 & H4 & H5 & H6)]); [by left|].
  right. exists id, se, k, s1, s2. split_and!; try done; [|by destruct H6 as (? & ? & ? & ?)..].
  unfold expired_at, sat_sub in H5. apply Z.ltb_ge in H5. lia.
Qed.

(** * Over standard input *)

(** Fuel that is enough for a cancellation: the theorem [terminate_exact]. *)
Definition ready (fuel : nat) s : Prop := s_exit_handlers s = [] /\ (size (linked s) < fuel)%nat.

Lemma ready_later fuel s s' : later s s' -> ready fuel s -> ready fuel s'.
Proof. by intros (n & _ & ->). Qed.

Lemma perform_total fuel a s w : ready fuel s -> exists s2 w2, perform fuel a s w = Some (s2, w2) /\ ready fuel s2.
Proof.
  intros [He Hf]. destruct a as [[pid data|pid reason]|]; cbn [perform].
  - pose proof (calm_send pid (Json data) s w) as Hc. destruct (send pid (Json data) s w) as [[res s2] w2]. cbn in Hc.
    exists s2, w2. split; [done|]. pose proof Hc as (_ & E & _). split; [congruence|]. by rewrite (linked_calm s s2 Hc).
  - destruct (terminate_total_nil fuel pid reason s w He Hf) as (s2 & w2 & -> & Hl & He2). exists s2, w2. split; [done|].
    split; [done|]. apply subseteq_size in Hl. lia.
  - by exists s, w.
Qed.

Lemma call_tool_total fuel name args m w : ready fuel (mcp_scheduler m) -> is_Some (call_tool fuel name args m w).
Proof.
  intros Hr. unfold call_tool. repeat case_decide; try by eexists.
  - by destruct (handle_spawn_orchestration args m).
  - unfold handle_cancel_process. destruct args as [args|]; [|by eexists]. destruct (pid_arg args) as [pid|]; [|by eexists].
    unfold rt_terminate_process. destruct (perform_total fuel (Some (AskCancel pid (reason_arg args))) (mcp_scheduler m) w Hr) as (s2 & w2 & E & _).
    cbn [perform] in E. rewrite E. by eexists.
Qed.

Lemma dispatch_total fuel q m w : ready fuel (mcp_scheduler m) -> exists r m' w',
  dispatch_method fuel q m w = Some (r, m', w') /\ ready fuel (mcp_scheduler m').
Proof.
  intros Hr. assert (is_Some (dispatch_method fuel q m w)) as [[[r m'] w'] E].
  { unfold dispatch_method. repeat case_decide; try by eexists.
    unfold handle_tools_call. destruct (jq_params q) as [p|]; [|by eexists]. destruct (tools_call_params p) as [[name args]|]; [|by eexists].
    destruct (call_tool_total fuel name args m w Hr) as [[[r1 m1] w1] ->]. by eexists. }
  exists r, m', w'. split; [done|]. apply dispatch_does in E as [_ _ (s2 & Hp & Hl)].
  destruct (perform_total fuel (asked q) (mcp_scheduler m) w Hr) as (s3 & w3 & Hp' & Hr3). rewrite Hp in Hp'. simplify_eq.
  by eapply ready_later.
Qed.

Definition answer q (res : result (JsonRpcResponse V) McpError) : JsonRpcResponse V :=
  match res with Ok r => r | Err e => to_response e (jq_id q) end.

(** A request other than [initialize] returns, and adds no session. *)
Lemma request_total fuel q sid m w : jq_method q <> "initialize" -> keyed m -> ready fuel (mcp_scheduler m) ->
  exists r m' w', handle_request fuel q sid m w = Some (r, m', w') /\ ready fuel (mcp_scheduler m') /\
    forall id se', mcp_sessions m' !! id = Some se' -> exists se, mcp_sessions m !! id = Some se /\ ms_initialized se' = ms_initialized se.
Proof.
  intros Hm Hkey Hr. unfold handle_request. rewrite decide_False by done.
  destruct sid as [sid|]; [|by do 3 eexists; split_and!; [done|done|eauto]].
  destruct (get_session sid m) as [found m1] eqn:E. apply get_session_spec in E as ([L _] & Hsub & Hf & _).
  pose proof (ready_later _ _ _ L Hr) as Hr1.
  assert (forall id se, mcp_sessions m1 !! id = Some se -> mcp_sessions m !! id = Some se) as Hw by (intros; by eapply lookup_weaken).
  destruct found as [se|]; [|by do 3 eexists; split_and!; [done|done|eauto]].
  destruct (ms_initialized se); [|by do 3 eexists; split_and!; [done|done|eauto]].
  destruct (dispatch_total fuel q m1 w Hr1) as (res & m2 & w2 & Ed & Hr2). rewrite Ed. cbn [mbind option_bind].
  destruct (update_session_spec se m2) as (se1 & [L3 _] & Hid & Hini & _ & _ & Hs3).
  do 3 eexists. split_and!; [done|by eapply ready_later|]. apply dispatch_does in Ed as [Hs2 _ _].
  intros id se'. rewrite Hs3, Hs2. destruct (decide (id = ms_id se)) as [->|Hne]; [|rewrite lookup_insert_ne by done; eauto].
  rewrite lookup_insert_eq. intros [= <-]. exists se. split; [|done]. symmetry in Hf. apply Hw in Hf. by rewrite (Hkey _ _ Hf).
Qed.

(** The listener's session is the only one. *)
Definition one_session (sid : option string) m : Prop :=
  keyed m /\ forall id se, mcp_sessions m !! id = Some se -> sid = Some id /\ ms_initialized se = true.

Lemma newest_of_one m id se : mcp_sessions m = {[id := se]} -> most_recent_session_id m = Some (ms_id se).
Proof.
  intros E. unfold most_recent_session_id, hash_values. rewrite E.
  pose proof (hash_iter_perm ({[id := se]} : gmap string McpSession)) as Hp. rewrite map_to_list_singleton in Hp.
  apply Permutation_singleton_r in Hp. by rewrite Hp.
Qed.

Lemma initialize_one_session q sid m r m' : one_session sid m -> handle_initialize q sid m = (r, m') -> is_error r = false ->
  one_session (most_recent_session_id m') m'.
Proof.
  intros [Hkey Hone] E Hr. apply initialize_spec in E as [_ [[H1 _]|(_ & id & se & Hsid & Hid & Hini & Hs)]]; [congruence|].
  assert (mcp_sessions m' = {[id := se]}) as Hs'.
  { rewrite Hs. apply map_eq. intros i. destruct (decide (i = id)) as [->|Hne]; [by rewrite lookup_insert_eq, lookup_singleton_eq|].
    rewrite lookup_insert_ne, lookup_singleton_ne by done. destruct (mcp_sessions m !! i) eqn:Ei; [|done].
    apply Hone in Ei as [Ei _]. apply Hsid in Ei. congruence. }
  rewrite (newest_of_one _ _ _ Hs'), Hid. split; [by eapply keyed_insert|].
  intros i se' Hi. rewrite Hs' in Hi. apply lookup_singleton_Some in Hi as [-> ->]. done.
Qed.

Definition nonblank (line : string) : bool := bool_decide (utf8_trim line <> EmptyString).

Lemma stdio_line_spec fuel line sid m w : one_session sid m -> ready fuel (mcp_scheduler m) ->
  exists out sid' m' w', stdio_line fuel line sid m w = Some (out, sid', m', w') /\
    length out = (if nonblank line then 1 else 0)%nat /\ one_session sid' m' /\ ready fuel (mcp_scheduler m').
Proof.
  intros Hone Hr. unfold stdio_line, nonblank. case_decide as Hb.
  { exists [], sid, m, w. rewrite bool_decide_false by (intros H1; by apply H1). done. }
  rewrite bool_decide_true by done. destruct (request_parse (utf8_trim line)) as [q|e]; [|by do 4 eexists].
  destruct (decide (jq_method q = "initialize")) as [Hm|Hm].
  - unfold handle_request. rewrite decide_True by done. destruct (handle_initialize q sid m) as [r m1] eqn:E. cbn [mbind option_bind].
    rewrite bool_decide_true by done. pose proof E as E0. apply initialize_spec in E0 as [[L _] Hc]. do 4 eexists. split; [done|]. split; [done|].
    split; [|by eapply ready_later]. destruct (is_error r) eqn:Er; cbn [negb andb]; [|by eapply initialize_one_session].
    destruct Hc as [[_ ->]|[? _]]; [done|congruence].
  - destruct Hone as [Hkey Hone]. destruct (request_total fuel q sid m w Hm Hkey Hr) as (r & m1 & w1 & E & Hr1 & Hs). rewrite E. cbn [mbind option_bind].
    rewrite bool_decide_false by done. cbn [andb]. do 4 eexists. split_and!; [done|done| |done].
    split; [by apply (request_spec fuel q sid m w r m1 w1)|]. intros id se Hse. apply Hs in Hse as (se0 & H0 & ->). by apply Hone.
Qed.

Lemma stdio_run_spec fuel lines : forall sid m w, one_session sid m -> ready fuel (mcp_scheduler m) ->
  exists outs sid' m' w', stdio_run fuel lines sid m w = Some (outs, sid', m', w') /\
    length outs = length (List.filter nonblank lines) /\ one_session sid' m' /\ ready fuel (mcp_scheduler m').
Proof.
  induction lines as [|line lines IH]; intros sid m w Hone Hr; cbn [stdio_run List.filter].
  { by exists [], sid, m, w. }
  destruct (stdio_line_spec fuel line sid m w Hone Hr) as (out & sid1 & m1 & w1 & -> & Hl & Hone1 & Hr1). cbn [mbind option_bind].
  destruct (IH sid1 m1 w1 Hone1 Hr1) as (outs & sid2 & m2 & w2 & -> & Hl2 & Hone2 & Hr2). cbn [mbind option_bind].
  do 4 eexists. split; [done|]. split; [|done]. rewrite length_app, Hl, Hl2. by destruct (nonblank line).
Qed.

(** Over standard input every line is answered and the client keeps its session.  From a
    new server, with fuel for a cancellation and no exit handlers, any lines are handled, with
    one line of output for each that is not blank; the server then holds no session but the
    one the listener remembers, and while this one has not been idle for longer than the
    timeout, every request is dispatched to its method and answered with its result. *)
Theorem stdio_answers fuel lines auth_token timeout s metrics started_at counter w :
  s_exit_handlers s = [] -> (size (linked s) < fuel)%nat ->
  exists outs sid m w1, stdio_run fuel lines None (mcp_server_new auth_token timeout s metrics started_at counter) w = Some (outs, sid, m, w1) /\
    length outs = length (List.filter nonblank lines) /\
    forall id se, mcp_sessions m !! id = Some se -> sid = Some id /\
      forall q, jq_method q <> "initialize" -> expired_at (mcp_session_timeout m) (clock_at (reads m)) se = false ->
        exists res m1 m2 w2, later (mcp_scheduler m) (mcp_scheduler m1) /\ dispatch_method fuel q m1 w1 = Some (res, m2, w2) /\
          handle_request fuel q sid m w1 = Some (answer q res, update_session se m2, w2).
Proof.
  intros He Hf. destruct (stdio_run_spec fuel lines None (mcp_server_new auth_token timeout s metrics started_at counter) w)
    as (outs & sid & m & w1 & Hrun & Hl & [Hkey Hone] & Hr); [by split|by split|].
  exists outs, sid, m, w1. split; [done|]. split; [done|]. intros id se Hse. destruct (Hone id se Hse) as [-> Hini]. split; [done|].
  intros q Hm Hlive. destruct (get_session id m) as [found m1] eqn:E. pose proof E as E0.
  apply get_session_spec in E0 as ([L _] & _ & _ & Hreads & Hg). destruct (Hg se Hkey Hse) as [_ Hfound].
  assert (mcp_sessions m = {[id := se]}) as Hs.
  { apply map_eq. intros i. destruct (decide (i = id)) as [->|Hne]; [by rewrite lookup_singleton_eq|]. rewrite lookup_singleton_ne by done.
    destruct (mcp_sessions m !! i) eqn:Ei; [|done]. apply Hone in Ei as [[= ->] _]. done. }
  rewrite Hs, map_size_singleton in Hreads. rewrite Hfound in E by (intros k Hk1; assert (k = reads m) as -> by lia; done).
  destruct (dispatch_total fuel q m1 w1) as (res & m2 & w2 & Ed & _); [by eapply ready_later|].
  exists res, m1, m2, w2. split_and!; [done|done|]. unfold handle_request. rewrite decide_False by done.
  rewrite E, Hini, Ed. by destruct res.
Qed.
End facts.

(** * A server *)

Module McpWitness.
#[local] Existing Instance map_to_list_order.
Import JTree.

(** The fields of the parameters under their names in the source. *)
Definition field (v : t) (k : string) : result string string :=
  match jget_str v k with Some x => Ok x | None => Err ("missing field `" +:+ k +:+ "`") end.

Definition call (id : option Z) (method : string) (params : option t) : JsonRpcRequest t :=
  mkJsonRpcRequest "2.0" (Num <$> id) method params.
Definition initialize_call : JsonRpcRequest t := call (Some 1) "initialize" (Some (Obj [("protocol_version", Str "2024-11-05")])).
Definition tool (name : string) (args : list (string * t)) : JsonRpcRequest t :=
  call (Some 2) "tools/call" (Some (Obj [("name", Str name); ("arguments", Obj args)])).
Definition hello : JsonRpcRequest t := tool "send_message" [("pid", Str "2147483648"); ("message", Str "hello")].
Definition ping : JsonRpcRequest t := call (Some 3) "ping" None.

(** A transport that knows three lines. *)
Definition read_line (line : string) : result (JsonRpcRequest t) string :=
  if decide (line = "initialize") then Ok initialize_call
  else if decide (line = "hello") then Ok hello
  else if decide (line = "ping") then Ok ping
  else Err "expected value at line 1 column 1".

#[local] Instance codec : McpCodec t := {|
  initialize_params v := field v "protocol_version";
  tools_list_params _ := Ok tt;
  tools_call_params v := match field v "name" with Ok name => Ok (name, jget v "arguments") | Err e => Err e end;
  request_parse := read_line;
  request_of v := match field v "method" with Ok name => Ok (call None name (jget v "params")) | Err e => Err e end
|}.

#[local] Instance behavior : AgentBehavior t unit unit unit := {|
  b_init := fun _ _ w => (Ok tt, w);
  b_handle_message := fun _ _ _ w => (Returned (Continue, tt), w);
  b_handle_exit := fun _ _ _ _ w => (Returned (Continue, tt), w);
  b_terminate := fun _ _ _ w => w
|}.
#[local] Instance bridge : BridgeOps t unit := {|
  bridge_submit := fun _ _ b => (Ok 0, b);
  bridge_cancel := fun _ b => (false, b);
  bridge_drain_responses := fun b => ([], b);
  bridge_shutdown := fun _ b => (Ok tt, b)
|}.
#[local] Instance hook : MessageHook t Empty_set unit := fun h _ _ _ => match h with end.
#[local] Instance handler : ExitHandler t unit unit unit Empty_set Empty_set unit := fun h _ _ _ _ => match h with end.
(** A second passes between any two readings. *)
#[local] Instance clock : Clock := fun n => 1000000000 * Z.of_nat n.

Abbreviation Srv := (McpServerState t unit unit unit Empty_set Empty_set).
Definition scheduler : AgentScheduler t unit unit unit Empty_set Empty_set :=
  (spawn_enqueued tt Null NormalPriority (scheduler_new NEXT_AGENT_PID NEXT_MONITOR_REF) tt).1.
Definition server : Srv := mcp_server_new None 60000000000 scheduler None 0 1.
Definition sid : string := uuid_of 1.
Definition after (calls : list McpCall) : Srv := default server (fst <$> mcp_run 10 calls server tt).
Definition mailbox (m : Srv) : list (Message t) := default [] (p_mailbox <$> lookup_proc NEXT_AGENT_PID (mcp_scheduler m)).
Definition answered (q : JsonRpcRequest t) (session_id : option string) (m : Srv) : option (JsonRpcResponse t) :=
  (fun x => x.1.1) <$> handle_request 10 q session_id m tt.

Lemma mcp_acts_as_asked_witness :
  exists r m' w', handle_request 10 hello (Some sid) (after [MRequest initialize_call None]) tt = Some (r, m', w') /\
    mailbox m' = [Json (Str "hello")] /\ is_Some (asked hello).
Proof.
  destruct (handle_request 10 hello (Some sid) (after [MRequest initialize_call None]) tt) as [[[r m'] w']|] eqn:E; [|vm_compute in E; discriminate E].
  exists r, m', w'. split; [reflexivity|].
  assert (Hb : mailbox m' = [Json (Str "hello")]).
  { enough (mailbox <$> ((fun x => x.1.2) <$> handle_request 10 hello (Some sid) (after [MRequest initialize_call None]) tt) = Some [Json (Str "hello")]) as Hx
      by (rewrite E in Hx; injection Hx as Hx; exact Hx). vm_compute. reflexivity. }
  split; [exact Hb|].
  destruct (mcp_acts_as_asked 10 [MRequest initialize_call None] None 60000000000 scheduler None 0 1 tt (after [MRequest initialize_call None]) tt
    hello (Some sid) r m' w') as [[(n & _ & Hl) _]|(id & se & k & s1 & s2 & _ & _ & _ & _ & _ & Ha & _)]; [vm_compute; reflexivity|exact E| |exact Ha].
  exfalso. unfold mailbox in Hb. rewrite Hl in Hb. vm_compute in Hb. discriminate Hb.
Defined.

Definition lines : list string := ["initialize"; ""; " hello "; "garbage"; "ping"].

Lemma stdio_answers_witness :
  exists outs sid m w, stdio_run 10 lines None server tt = Some (outs, sid, m, w) /\ length outs = 4%nat /\ mailbox m = [Json (Str "hello")].
Proof.
  destruct (stdio_answers 10 lines None 60000000000 scheduler None 0 1 tt) as (outs & sid & m & w & E & Hl & _);
    [vm_compute; reflexivity|apply Nat.ltb_lt; vm_compute; reflexivity|].
  exists outs, sid, m, w. split; [exact E|]. split; [rewrite Hl; vm_compute; reflexivity|].
  enough (mailbox <$> ((fun x => x.1.2) <$> stdio_run 10 lines None server tt) = Some [Json (Str "hello")]) as Hx
    by (unfold server in Hx; rewrite E in Hx; injection Hx as Hx; exact Hx). vm_compute. reflexivity.
Defined.

(** Nobody without a session sends anything. *)
Lemma stranger_refused : (jr_error <$> answered hello (Some "somebody") server) =
  Some (Some (mkJsonRpcError error_codes.SESSION_EXPIRED "Session not found or expired" None)).
Proof. vm_compute. reflexivity. Qed.

(** The id that a client brings along is taken as it is, known or not. *)
Lemma brought_id_is_taken : is_Some (mcp_sessions (after [MRequest initialize_call (Some "mine")]) !! "mine").
Proof. vm_compute. eexists. reflexivity. Qed.

(** The notification that the protocol has a client send next is answered, with an error. *)
Lemma notification_answered :
  is_notification (call None "notifications/initialized" None) = true /\
  answered (call None "notifications/initialized" None) (Some sid) (after [MRequest initialize_call None]) =
    Some (mkJsonRpcResponse "2.0" None None (Some (mkJsonRpcError error_codes.METHOD_NOT_FOUND "notifications/initialized" None))).
Proof. split; vm_compute; reflexivity. Qed.

(** Parameters without a name are an internal error. *)
Lemma bad_params_internal : (fun r => je_code <$> jr_error r) <$> answered (call (Some 2) "tools/call" (Some (Obj []))) (Some sid) (after [MRequest initialize_call None])
  = Some (Some error_codes.INTERNAL_ERROR).
Proof. vm_compute. reflexivity. Qed.

(** Cancelling nobody succeeds. *)
Lemma nobody_cancelled : (fun r => jr_result r) <$> answered (tool "cancel_process" [("pid", Str "7")]) (Some sid) (after [MRequest initialize_call None])
  = Some (Some (tool_result success_text false)).
Proof. vm_compute. reflexivity. Qed.

(** The reason that is given when none is named is not the one the schema promises. *)
Lemma default_reason : reason_arg (Obj [("pid", Str "7")]) = CustomReason "cancelled" /\
  (p ← jget cancel_process_schema "properties"; r ← jget p "reason"; jget_str r "default") = Some "cancelled via MCP".
Proof. split; vm_compute; reflexivity. Qed.
End McpWitness.
