(* ===== verification/McpHttp.v ===== *)
(** The HTTP server ([agent_rt/server.rs]): health, approvals, and the endpoint of the Model
    Context Protocol with its authentication and sessions; and the runtime worker of the daemon
    ([zeptobeam/src/main.rs]) that its tools talk to.

    Routing, the framing of HTTP and the reading of a body as JSON are axum's: a request is a
    method and path that has a handler, its headers as texts ([None] where a header is absent or
    no text), and a body that was read.  Instants are the readings of one clock, counted. *)
From S2P Require Import Prelude Float64 Json Types FileSystem Process DeadLetter Scheduler SchedFacts AgentWorker Checkpoint Pruner ApprovalGate Decomposition McpServer McpFacts.

(** * The runtime behind the tools *)

(** The trait [McpRuntimeOps]; [rt_process_count] is the counter that the runtime shares. *)
Class McpRuntimeOps (V R : Type) : Type := {
  rt_list : R -> result (list ProcessInfo) string * R;
  rt_send : Z -> Message V -> R -> result unit string * R;
  rt_cancel : Z -> Reason -> R -> result unit string * R;
  rt_process_count : R -> nat
}.

Definition NOT_CONFIGURED : string := "MCP runtime operations are not configured".

(** [NoopMcpRuntimeOps]; the counter is never stored to. *)
Definition noop_runtime {V} : McpRuntimeOps V unit := {|
  rt_list u := (Err NOT_CONFIGURED, u);
  rt_send _ _ u := (Err NOT_CONFIGURED, u);
  rt_cancel _ _ u := (Err NOT_CONFIGURED, u);
  rt_process_count _ := 0%nat
|}.

(** ** The worker of the daemon

    A thread that owns a scheduler and takes commands from a channel: it serves them, or it is
    kept by one that does not return, or it has left its loop.  [dw_late] says which of the next
    replies come after the two seconds that a caller waits. *)
Inductive DaemonState : Type :=
| Serving
| Stuck
| Gone.

Record DaemonWorker (S W : Type) : Type := mkDaemonWorker {
  dw_scheduler : S;
  dw_world : W;
  dw_state : DaemonState;
  dw_process_count : nat;
  dw_late : list bool
}.
Arguments mkDaemonWorker {S W}.
Arguments dw_scheduler {S W}.
Arguments dw_world {S W}.
Arguments dw_state {S W}.
Arguments dw_process_count {S W}.
Arguments dw_late {S W}.

Section daemon.
Context {V B St Br Hk H W : Type} `{AB : AgentBehavior V B St W} `{BO : BridgeOps V Br}.
Context `{MH : MessageHook V Hk W} `{EH : ExitHandler V B St Br Hk H W} `{CK : Clock} `{HO : HashOrder}.
Abbreviation Sched := (AgentScheduler V B St Br Hk H).
Abbreviation Worker := (DaemonWorker Sched W).
Implicit Types (d : Worker) (s : Sched).

(** What the worker does with a command; [None]: a termination that does not return. *)
Definition worker_does {A} (f : Sched -> W -> option (A * Sched * W)) d : option A * Worker :=
  match f (dw_scheduler d) (dw_world d) with
  | Some (a, s, w) => (Some a, mkDaemonWorker s w Serving (registry_count (s_registry s)) (dw_late d))
  | None => (None, mkDaemonWorker (dw_scheduler d) (dw_world d) Stuck (dw_process_count d) (dw_late d))
  end.

Definition DISCONNECTED : string := "MCP runtime worker disconnected".
Definition TIMED_OUT : string := "MCP runtime worker response timed out".

(** [DaemonMcpRuntimeOps::call]. *)
Definition daemon_call {A} (f : Sched -> W -> option (result A string * Sched * W)) d : result A string * Worker :=
  match dw_state d with
  | Serving =>
      let '(late, rest) := match dw_late d with [] => (false, []) | l :: rest => (l, rest) end in
      let '(reply, d) := worker_does f (mkDaemonWorker (dw_scheduler d) (dw_world d) Serving (dw_process_count d) rest) in
      (match reply with Some a => if late : bool then Err TIMED_OUT else a | None => Err TIMED_OUT end, d)
  | Stuck => (Err TIMED_OUT, d)
  | Gone => (Err DISCONNECTED, d)
  end.

(** [McpRuntimeCommand::Shutdown]. *)
Definition worker_shutdown d : Worker :=
  match dw_state d with
  | Serving => mkDaemonWorker (dw_scheduler d) (dw_world d) Gone (dw_process_count d) (dw_late d)
  | _ => d
  end.

Definition process_infos s : list ProcessInfo :=
  (fun sn => info_of (sn_pid sn, sn_status sn, sn_priority sn, sn_mailbox_depth sn)) <$> list_processes s.

Definition daemon_runtime (fuel : nat) : McpRuntimeOps V Worker := {|
  rt_list := daemon_call (fun s w => Some (Ok (process_infos s), s, w));
  rt_send pid message := daemon_call (fun s w => Some (send pid message s w));
  rt_cancel pid reason := daemon_call (fun s w => '(s, w) ← terminate_process fuel pid reason s w; Some (Ok tt, s, w));
  rt_process_count := dw_process_count
|}.
End daemon.

(** What the thread does before its loop: the configured agents are spawned and queued; where
    that fails, it goes on without queueing those that were. *)
Section daemon_start.
Context {V Br Hk H W : Type} `{JL : JsonLib V}.
Abbreviation Sched := (AgentScheduler V AgentWorkerBehavior (AgentWorkerState V) Br Hk H).

Definition daemon_start (next_pid next_ref : Z) (agents : list AgentConfig) (late : list bool) (w : W) : DaemonWorker Sched W :=
  let '(res, s, w) := spawn_configured_agents agents (scheduler_new next_pid next_ref) w in
  let s := match res with Ok spawned => foldl (fun s p => enqueue p.1 s) s spawned | Err _ => s end in
  mkDaemonWorker s w Serving (registry_count (s_registry s)) late.
End daemon_start.

(** * The server *)

Record HttpServer (V R : Type) : Type := mkHttpServer {
  h_metrics : RuntimeMetrics;
  h_started_at : Instant;
  h_approvals : option (ApprovalRegistry V);
  h_auth_token : option string;
  h_mcp_enabled : bool;
  h_session_counter : Z;
  h_session_timeout : Duration;
  h_sessions : gmap string Instant;
  h_runtime : R;
  h_clock_reads : nat
}.
Arguments mkHttpServer {V R}.
Arguments h_metrics {V R}.
Arguments h_started_at {V R}.
Arguments h_approvals {V R}.
Arguments h_auth_token {V R}.
Arguments h_mcp_enabled {V R}.
Arguments h_session_counter {V R}.
Arguments h_session_timeout {V R}.
Arguments h_sessions {V R}.
Arguments h_runtime {V R}.
Arguments h_clock_reads {V R}.

(** What a response carries: its status, the session header, and its body. *)
Inductive Body (V : Type) : Type :=
| RpcBody (r : JsonRpcResponse V)
| JsonBody (v : V)
| TextBody (s : string)
| StreamBody (session_id : string).   (* the heartbeats of a session *)
Arguments RpcBody {V} r.
Arguments JsonBody {V} v.
Arguments TextBody {V} s.
Arguments StreamBody {V} session_id.

Record HttpResponse (V : Type) : Type := mkHttpResponse {
  hr_status : Z;
  hr_session : option string;
  hr_body : Body V
}.
Arguments mkHttpResponse {V}.
Arguments hr_status {V}.
Arguments hr_session {V}.
Arguments hr_body {V}.

Definition OK_200 : Z := 200.
Definition BAD_REQUEST : Z := 400.
Definition UNAUTHORIZED : Z := 401.
Definition NOT_FOUND : Z := 404.

Section http.
Context {V R : Type} `{JL : JsonLib V} `{MC : McpCodec V} `{RO : McpRuntimeOps V R} `{CK : Clock} `{HO : HashOrder}.
Abbreviation Server := (HttpServer V R).
Abbreviation Response := (HttpResponse V).
Implicit Types (h : Server) (q : JsonRpcRequest V).

Definition upd_approvals (x : option (ApprovalRegistry V)) h : Server :=
  mkHttpServer (h_metrics h) (h_started_at h) x (h_auth_token h) (h_mcp_enabled h) (h_session_counter h) (h_session_timeout h) (h_sessions h)
    (h_runtime h) (h_clock_reads h).
Definition upd_session_counter (x : Z) h : Server :=
  mkHttpServer (h_metrics h) (h_started_at h) (h_approvals h) (h_auth_token h) (h_mcp_enabled h) x (h_session_timeout h) (h_sessions h)
    (h_runtime h) (h_clock_reads h).
Definition upd_sessions (x : gmap string Instant) h : Server :=
  mkHttpServer (h_metrics h) (h_started_at h) (h_approvals h) (h_auth_token h) (h_mcp_enabled h) (h_session_counter h) (h_session_timeout h) x
    (h_runtime h) (h_clock_reads h).
Definition upd_runtime (x : R) h : Server :=
  mkHttpServer (h_metrics h) (h_started_at h) (h_approvals h) (h_auth_token h) (h_mcp_enabled h) (h_session_counter h) (h_session_timeout h) (h_sessions h)
    x (h_clock_reads h).
Definition upd_clock (x : nat) h : Server :=
  mkHttpServer (h_metrics h) (h_started_at h) (h_approvals h) (h_auth_token h) (h_mcp_enabled h) (h_session_counter h) (h_session_timeout h) (h_sessions h)
    (h_runtime h) x.

(** [McpServerStateExt::with_timeout] and [with_runtime_ops]. *)
Definition http_new (metrics : RuntimeMetrics) (started_at : Instant) (approvals : option (ApprovalRegistry V)) (auth_token : option string)
    (mcp_enabled : bool) (session_timeout_secs : Z) (runtime : R) : Server :=
  mkHttpServer metrics started_at approvals auth_token mcp_enabled 1 (Z.max session_timeout_secs 1 * 1000000000) ∅ runtime 0.

Definition http_now h : Instant * Server := (clock_at (h_clock_reads h), upd_clock (S (h_clock_reads h)) h).

(** ** Sessions *)

Definition prune_expired_http_sessions h : Server :=
  let '(now, h) := http_now h in
  upd_sessions (filter (fun kv : string * Instant => sat_sub now kv.2 <= h_session_timeout h) (h_sessions h)) h.

Definition fresh_session h : string * Server :=
  let '(n, counter) := fetch_add1 (h_session_counter h) in ("mcp-" +:+ hex_pad 16 n, upd_session_counter counter h).

(** A header that is blank counts as none. *)
Definition given (header : option string) : option string :=
  t ← header; if decide (utf8_trim t = EmptyString) then None else Some (utf8_trim t).

Definition create_or_refresh_http_session (preferred : option string) h : string * Server :=
  let '(session_id, h) := match given preferred with Some id => (id, h) | None => fresh_session h end in
  let h := prune_expired_http_sessions h in
  let '(now, h) := http_now h in
  (session_id, upd_sessions (<[session_id := now]> (h_sessions h)) h).

Definition touch_http_session (session_id : string) h : bool * Server :=
  let h := prune_expired_http_sessions h in
  match h_sessions h !! session_id with
  | Some _ => let '(now, h) := http_now h in (true, upd_sessions (<[session_id := now]> (h_sessions h)) h)
  | None => (false, h)
  end.

Definition remove_http_session (session_id : string) h : bool * Server :=
  let h := prune_expired_http_sessions h in
  (bool_decide (is_Some (h_sessions h !! session_id)), upd_sessions (base.delete session_id (h_sessions h)) h).

(** ** The tools *)

Definition parse_pid_arg (args : V) : result Z string :=
  match jget args "pid" with
  | None => Err "Missing 'pid' parameter"
  | Some pid_value =>
      match jas_u64 pid_value with
      | Some pid => Ok pid
      | None =>
          match jas_str pid_value with
          | Some t => match parse_u64 t with Ok pid => Ok pid | Err _ => Err "Missing or invalid 'pid' parameter" end
          | None => Err "Missing or invalid 'pid' parameter"
          end
      end
  end.

(** A text is sent as a text, anything else as JSON. *)
Definition message_of (data : V) : Message V := match jas_str data with Some text => Text text | None => Json data end.

Definition error_result (e : string) : V := json_object [("error", jstr e)].
Definition failed_result (e : string) : V := json_object [("result", json_object [("success", jbool false)]); ("error", jstr e)].

(** Missing arguments are [null]. *)
Definition arguments_of (arguments : option V) : V := default jnull arguments.

Definition http_spawn_orchestration (args : V) h : result (string * bool) string * Server :=
  match jget_str args "goal" with
  | Some goal =>
      if decide (utf8_trim goal = EmptyString) then (Err "Missing 'goal' parameter", h)
      else
        let '(n, counter) := fetch_add1 (h_session_counter h) in
        (Ok (spawned_text (V := V) ("orch-http-" +:+ hex_pad 16 n), false), upd_session_counter counter h)
  | None => (Err "Missing 'goal' parameter", h)
  end.

Definition http_orchestration_status (args : V) : result (string * bool) string :=
  match jget_str args "orchestration_id" with
  | Some id => Ok (status_text (V := V) id, false)
  | None => Err "Missing 'orchestration_id' parameter"
  end.

Definition http_list_processes h : result (string * bool) string * Server :=
  let '(res, rt) := rt_list (h_runtime h) in
  (Ok match res with
      | Ok processes => (processes_text (V := V) processes, false)
      | Err e => (jto_string (error_result e), true)
      end, upd_runtime rt h).

Definition http_send_message (args : V) h : result (string * bool) string * Server :=
  match parse_pid_arg args with
  | Err e => (Err e, h)
  | Ok pid =>
      match jget args "message" with
      | None => (Err "Missing 'message' parameter", h)
      | Some data =>
          let '(res, rt) := rt_send pid (message_of data) (h_runtime h) in
          (Ok match res with Ok _ => (success_text, false) | Err e => (jto_string (failed_result e), true) end, upd_runtime rt h)
      end
  end.

Definition uptime_secs h : Z * Server := let '(now, h) := http_now h in (sat_sub now (h_started_at h) / 1000000000, h).

Definition http_get_metrics h : result (string * bool) string * Server :=
  let '(uptime, h) := uptime_secs h in
  (Ok (metrics_text uptime (Z.of_nat (rt_process_count (h_runtime h))) (messages_sent_total (h_metrics h))
         (messages_processed_total (h_metrics h)), false), h).

Definition http_cancel_process (args : V) h : result (string * bool) string * Server :=
  match parse_pid_arg args with
  | Err e => (Err e, h)
  | Ok pid =>
      let '(res, rt) := rt_cancel pid (reason_arg args) (h_runtime h) in
      (Ok match res with Ok _ => (success_text, false) | Err e => (jto_string (failed_result e), true) end, upd_runtime rt h)
  end.

Definition mcp_http_call_tool (name : string) (arguments : option V) h : result V string * Server :=
  let args := arguments_of arguments in
  let '(res, h) :=
    if decide (name = "spawn_orchestration") then http_spawn_orchestration args h
    else if decide (name = "get_orchestration_status") then (http_orchestration_status args, h)
    else if decide (name = "list_processes") then http_list_processes h
    else if decide (name = "send_message") then http_send_message args h
    else if decide (name = "get_metrics") then http_get_metrics h
    else if decide (name = "cancel_process") then http_cancel_process args h
    else (Err ("Tool not found: " +:+ name), h) in
  (match res with Ok (text, is_error) => Ok (tool_result text is_error) | Err e => Err e end, h).

(** ** The endpoint of the protocol *)

Definition rpc (status : Z) (session : option string) (r : JsonRpcResponse V) : Response := mkHttpResponse status session (RpcBody r).

Definition post_initialize q (session_id : option string) h : Response * Server :=
  match jq_params q with
  | None => (rpc BAD_REQUEST None (rpc_error (jq_id q) error_codes.INVALID_PARAMS "Missing initialize params"), h)
  | Some p =>
      match initialize_params p with
      | Err e => (rpc BAD_REQUEST None (rpc_error (jq_id q) error_codes.INVALID_PARAMS ("Invalid initialize params: " +:+ e)), h)
      | Ok version =>
          if decide (version = SUPPORTED_PROTOCOL_VERSION) then
            let '(sid, h) := create_or_refresh_http_session session_id h in
            (rpc OK_200 (Some sid) (rpc_success (jq_id q) initialize_result), h)
          else
            (rpc OK_200 None (rpc_error (jq_id q) error_codes.INVALID_PARAMS
               ("Unsupported protocol version: " +:+ version +:+ ". Supported: " +:+ SUPPORTED_PROTOCOL_VERSION)), h)
      end
  end.

Definition post_tools_call q h : Response * Server :=
  match jq_params q with
  | None => (rpc BAD_REQUEST None (rpc_error (jq_id q) error_codes.INVALID_PARAMS "Missing tools/call params"), h)
  | Some p =>
      match tools_call_params p with
      | Err e => (rpc BAD_REQUEST None (rpc_error (jq_id q) error_codes.INVALID_PARAMS ("Invalid tools/call params: " +:+ e)), h)
      | Ok (name, arguments) =>
          let '(res, h) := mcp_http_call_tool name arguments h in
          (rpc OK_200 None match res with Ok v => rpc_success (jq_id q) v | Err msg => rpc_error (jq_id q) error_codes.TOOL_NOT_FOUND msg end, h)
      end
  end.

Definition EXPIRED : string := "Session not found or expired. Call initialize again.".

Definition post_method q h : Response * Server :=
  if decide (jq_method q = "tools/list") then (rpc OK_200 None (rpc_success (jq_id q) tools_result), h)
  else if decide (jq_method q = "tools/call") then post_tools_call q h
  else if decide (jq_method q = "ping") then (rpc OK_200 None (rpc_success (jq_id q) empty_object), h)
  else (rpc OK_200 None (rpc_error (jq_id q) error_codes.METHOD_NOT_FOUND "Method not found"), h).

Definition mcp_post_handler (session_header : option string) (body : V) h : Response * Server :=
  match request_of body with
  | Err e => (rpc BAD_REQUEST None (rpc_error None error_codes.PARSE_ERROR ("Parse error: " +:+ e)), h)
  | Ok q =>
      let session_id := given session_header in
      if decide (jq_method q = "initialize") then post_initialize q session_id h
      else match session_id with
      | None => (rpc BAD_REQUEST None (rpc_error (jq_id q) error_codes.SESSION_NOT_INITIALIZED NOT_INITIALIZED), h)
      | Some session_id =>
          match touch_http_session session_id h with
          | (false, h) => (rpc BAD_REQUEST None (rpc_error (jq_id q) error_codes.SESSION_EXPIRED EXPIRED), h)
          | (true, h) => post_method q h
          end
      end
  end.

Definition json_error (code : Z) (message : string) : Body V :=
  JsonBody (json_object [("jsonrpc", jstr "2.0"); ("id", jnull); ("error", json_object [("code", jnum code); ("message", jstr message)])]).
Definition MISSING_SESSION : Body V := json_error error_codes.INVALID_PARAMS "Missing mcp-session-id header".

Definition mcp_get_handler (session_header : option string) h : Response * Server :=
  match given session_header with
  | None => (mkHttpResponse BAD_REQUEST None MISSING_SESSION, h)
  | Some session_id =>
      match touch_http_session session_id h with
      | (false, h) => (mkHttpResponse BAD_REQUEST None (json_error error_codes.SESSION_EXPIRED EXPIRED), h)
      | (true, h) => (mkHttpResponse OK_200 None (StreamBody session_id), h)
      end
  end.

(** One event of an open stream, every fifteen seconds. *)
Definition heartbeat (session_id : string) h : string * Server :=
  match touch_http_session session_id h with
  | (true, h) => ("heartbeat", h)
  | (false, h) => ("session_expired", h)
  end.

Definition mcp_delete_handler (session_header : option string) h : Response * Server :=
  match given session_header with
  | None => (mkHttpResponse BAD_REQUEST None MISSING_SESSION, h)
  | Some session_id =>
      match remove_http_session session_id h with
      | (false, h) => (mkHttpResponse BAD_REQUEST None (json_error error_codes.SESSION_EXPIRED "Session not found or already expired"), h)
      | (true, h) =>
          (mkHttpResponse OK_200 None (JsonBody (json_object [("jsonrpc", jstr "2.0");
             ("result", json_object [("status", jstr "session_terminated"); ("session_id", jstr session_id)])])), h)
      end
  end.

(** [mcp_auth_middleware]. *)
Definition bearer (header : string) : option string :=
  match strip_prefix "Bearer " header with Some t => Some t | None => strip_prefix "bearer " header end.

Definition authorized (auth_header : option string) h : bool :=
  match h_auth_token h with
  | None => true
  | Some expected => bool_decide ((auth_header ≫= bearer) = Some expected)
  end.

Definition UNAUTHORIZED_TEXT : string :=
  "{" +:+ JTree.dquote +:+ "jsonrpc" +:+ JTree.dquote +:+ ":" +:+ JTree.dquote +:+ "2.0" +:+ JTree.dquote +:+ "," +:+
  JTree.dquote +:+ "error" +:+ JTree.dquote +:+ ":{" +:+ JTree.dquote +:+ "code" +:+ JTree.dquote +:+ ":-32003," +:+
  JTree.dquote +:+ "message" +:+ JTree.dquote +:+ ":" +:+ JTree.dquote +:+ "Unauthorized" +:+ JTree.dquote +:+ "}}".

(** ** The other endpoints *)

Definition health_handler h : Response * Server :=
  let '(uptime, h) := uptime_secs h in
  (mkHttpResponse OK_200 None (JsonBody (json_object [("status", jstr "ok"); ("uptime_secs", jnum uptime)])), h).

Definition pending_json (x : string * string * ApprovalRequest V) : V :=
  let '(orch_id, task_id, req) := x in
  json_object [("orch_id", jstr orch_id); ("task_id", jstr task_id); ("message", jstr (ar_message req)); ("task", ar_task req)].

Definition list_approvals_handler h : Response * Server :=
  let pending := match h_approvals h with Some r => pending_json <$> pending_requests r | None => [] end in
  (mkHttpResponse OK_200 None (JsonBody (json_object [("pending", jarr pending)])), h).

Definition decision_of (body : V) : ApprovalDecision :=
  if default false (jget_bool body "approved") then Approved
  else Rejected (default "rejected" (jget_str body "reason")).

Definition approve_handler (orch_id task_id : string) (body : V) h : Response * Server :=
  match h_approvals h with
  | None => (mkHttpResponse OK_200 None (JsonBody (json_object [("error", jstr "approval registry not configured")])), h)
  | Some r =>
      let '(ok, r) := submit_decision orch_id task_id (decision_of body) r in
      (mkHttpResponse OK_200 None (JsonBody (json_object [("ok", jbool ok)])), upd_approvals (Some r) h)
  end.

(** ** Requests

    What [build_router] has a handler for (the rendered metrics are left out).  Only the
    endpoint of the protocol is behind the middleware. *)
Inductive HttpRequest : Type :=
| GetHealth
| GetApprovals
| PostApprove (orch_id task_id : string) (body : V)
| PostMcp (authorization session : option string) (body : V)
| GetMcp (authorization session : option string)
| DeleteMcp (authorization session : option string).

Definition guarded (authorization : option string) (handler : Server -> Response * Server) h : Response * Server :=
  if h_mcp_enabled h then
    if authorized authorization h then handler h else (mkHttpResponse UNAUTHORIZED None (TextBody UNAUTHORIZED_TEXT), h)
  else (mkHttpResponse NOT_FOUND None (TextBody EmptyString), h).

Definition http_handle (r : HttpRequest) h : Response * Server :=
  match r with
  | GetHealth => health_handler h
  | GetApprovals => list_approvals_handler h
  | PostApprove orch_id task_id body => approve_handler orch_id task_id body h
  | PostMcp authorization session body => guarded authorization (mcp_post_handler session body) h
  | GetMcp authorization session => guarded authorization (mcp_get_handler session) h
  | DeleteMcp authorization session => guarded authorization (mcp_delete_handler session) h
  end.
End http.
Arguments HttpRequest V : clear implicits.

(** * Who acts on the runtime *)

Section facts.
Context {V R : Type} `{JL : JsonLib V} `{MC : McpCodec V} `{RO : McpRuntimeOps V R} `{CK : Clock} `{HO : HashOrder}.
Abbreviation Server := (HttpServer V R).
Implicit Types (h : Server) (q : JsonRpcRequest V).

Inductive HttpAsked : Type :=
| HttpList
| HttpSend (pid : Z) (message : Message V)
| HttpCancel (pid : Z) (reason : Reason).

(** The call of a tool that reaches the runtime. *)
Definition tool_asks_http (name : string) (args : V) : option HttpAsked :=
  if decide (name = "list_processes") then Some HttpList
  else if decide (name = "send_message") then
    match parse_pid_arg args with Ok pid => (fun data => HttpSend pid (message_of data)) <$> jget args "message" | Err _ => None end
  else if decide (name = "cancel_process") then
    match parse_pid_arg args with Ok pid => Some (HttpCancel pid (reason_arg args)) | Err _ => None end
  else None.

Definition asked_http q : option HttpAsked :=
  if decide (jq_method q = "tools/call") then
    p ← jq_params q;
    match tools_call_params p with Ok (name, arguments) => tool_asks_http name (arguments_of arguments) | Err _ => None end
  else None.

Definition runtime_does (a : option HttpAsked) (rt : R) : R :=
  match a with
  | None => rt
  | Some HttpList => (rt_list rt).2
  | Some (HttpSend pid message) => (rt_send pid message rt).2
  | Some (HttpCancel pid reason) => (rt_cancel pid reason rt).2
  end.

(** What never changes, and the runtime after [a]. *)
Record serves (a : option HttpAsked) h h' : Prop := {
  serves_runtime : h_runtime h' = runtime_does a (h_runtime h);
  serves_token : h_auth_token h' = h_auth_token h;
  serves_timeout : h_session_timeout h' = h_session_timeout h
}.

Lemma serves_nothing h h' : h_runtime h' = h_runtime h -> h_auth_token h' = h_auth_token h -> h_session_timeout h' = h_session_timeout h -> serves None h h'.
Proof. by split. Qed.

Lemma call_tool_serves name arguments h : serves (tool_asks_http name (arguments_of arguments)) h (mcp_http_call_tool name arguments h).2.
Proof.
  unfold mcp_http_call_tool, tool_asks_http. set (args := arguments_of arguments). repeat (case_decide; subst); try congruence.
  - unfold http_list_processes. destruct (rt_list (h_runtime h)) as [res rt] eqn:E. split; [cbn; by rewrite E|done..].
  - unfold http_send_message. destruct (parse_pid_arg args) as [pid|]; [|by split]. destruct (jget args "message") as [data|]; [|by split].
    destruct (rt_send pid (message_of data) (h_runtime h)) as [res rt] eqn:E. split; [cbn; by rewrite E|done..].
  - unfold http_cancel_process. destruct (parse_pid_arg args) as [pid|]; [|by split].
    destruct (rt_cancel pid (reason_arg args) (h_runtime h)) as [res rt] eqn:E. split; [cbn; by rewrite E|done..].
  - unfold http_spawn_orchestration. destruct (jget_str args "goal") as [g|]; [|by split]. by destruct (decide _).
  - by split.
  - by split.
  - by split.
Qed.

Lemma post_method_serves q h : serves (asked_http q) h (post_method q h).2.
Proof.
  unfold post_method, asked_http. repeat case_decide; try congruence; try done.
  unfold post_tools_call. destruct (jq_params q) as [p|]; [|done]. cbn [mbind option_bind].
  destruct (tools_call_params p) as [[name arguments]|]; [|done].
  pose proof (call_tool_serves name arguments h) as Hs. by destruct (mcp_http_call_tool name arguments h).
Qed.

(** Touching a session finds it exactly when it was seen within the timeout. *)
Lemma touch_serves sid h : serves None h (touch_http_session sid h).2 /\
  ((touch_http_session sid h).1 = true <-> exists seen, h_sessions h !! sid = Some seen /\ sat_sub (clock_at (h_clock_reads h)) seen <= h_session_timeout h).
Proof.
  unfold touch_http_session, prune_expired_http_sessions, http_now. cbn. split; [by destruct (filter _ (h_sessions h) !! sid)|].
  destruct (filter _ (h_sessions h) !! sid) as [seen|] eqn:E; cbn.
  - split; [intros _|done]. apply map_lookup_filter_Some in E as [E1 E2]. by exists seen.
  - split; [done|]. intros (seen & H1 & H2). rewrite map_lookup_filter_None in E. destruct E as [E|E]; [congruence|]. by destruct (E seen H1).
Qed.

Lemma initialize_serves q sid h : serves None h (post_initialize q sid h).2.
Proof.
  unfold post_initialize. destruct (jq_params q) as [p|]; [|done]. destruct (initialize_params p); [|done]. case_decide; [|done].
  unfold create_or_refresh_http_session. by destruct (given sid).
Qed.

(** ** Runs *)

Inductive HttpEvent : Type :=
| Request (r : HttpRequest V)
| Heartbeat (session_id : string).

Definition http_step (e : HttpEvent) h : Server :=
  match e with Request r => (http_handle r h).2 | Heartbeat sid => (heartbeat sid h).2 end.
Definition http_run (events : list HttpEvent) h : Server := foldl (fun h e => http_step e h) h events.

(** A request either leaves the runtime alone, or is one that may act on it. *)
Lemma handle_serves r h :
  serves None h (http_handle r h).2 \/
  exists authorization session body q id seen, r = PostMcp authorization session body /\ h_mcp_enabled h = true /\ authorized authorization h = true /\
    request_of body = Ok q /\ given session = Some id /\ h_sessions h !! id = Some seen /\
    sat_sub (clock_at (h_clock_reads h)) seen <= h_session_timeout h /\ serves (asked_http q) h (http_handle r h).2.
Proof.
  destruct r as [| |orch_id task_id body|authorization session body|authorization session|authorization session]; cbn [http_handle].
  - by left.
  - by left.
  - left. unfold approve_handler. destruct (h_approvals h) as [r|]; [|done]. by destruct (submit_decision _ _ _ r).
  - unfold guarded. destruct (h_mcp_enabled h) eqn:He; [|by left]. destruct (authorized authorization h) eqn:Ha; [|by left].
    unfold mcp_post_handler. destruct (request_of body) as [q|] eqn:Eq; [|by left].
    case_decide; [left; apply initialize_serves|]. destruct (given session) as [id|] eqn:Es; [|by left].
    destruct (touch_serves id h) as [Hs Ht]. destruct (touch_http_session id h) as [[] h1] eqn:E; [|by left]. cbn in Hs, Ht.
    destruct Ht as [Ht _]. destruct Ht as (seen & H1 & H2); [done|]. right. exists authorization, session, body, q, id, seen. split_and!; try done.
    destruct Hs as [S1 S2 S3], (post_method_serves q h1) as [P1 P2 P3]. split; [rewrite P1, S1|rewrite P2, S2|rewrite P3, S3]; done.
  - left. unfold guarded. destruct (h_mcp_enabled h); [|done]. destruct (authorized authorization h); [|done].
    unfold mcp_get_handler. destruct (given session) as [id|]; [|done]. destruct (touch_serves id h) as [Hs _]. by destruct (touch_http_session id h) as [[] h1].
  - left. unfold guarded. destruct (h_mcp_enabled h); [|done]. destruct (authorized authorization h); [|done].
    unfold mcp_delete_handler. destruct (given session) as [id|]; [|done]. unfold remove_http_session. cbn. by destruct (bool_decide _).
Qed.

Lemma http_step_keeps e h : h_auth_token (http_step e h) = h_auth_token h /\ h_session_timeout (http_step e h) = h_session_timeout h.
Proof.
  destruct e as [r|sid]; cbn [http_step].
  - destruct (handle_serves r h) as [[_ ? ?]|(? & ? & ? & ? & ? & ? & _ & _ & _ & _ & _ & _ & _ & [_ ? ?])]; by split.
  - unfold heartbeat. destruct (touch_serves sid h) as [[_ ? ?] _]. by destruct (touch_http_session sid h) as [[] h1].
Qed.

Lemma http_run_keeps events : forall h, h_auth_token (http_run events h) = h_auth_token h /\ h_session_timeout (http_run events h) = h_session_timeout h.
Proof.
  induction events as [|e events IH]; intros h; [done|]. unfold http_run. cbn [foldl].
  destruct (IH (http_step e h)) as [H1 H2], (http_step_keeps e h) as [H3 H4]. split; etrans; eauto.
Qed.

(** C32: Behind a token, only its holders act on the runtime.  Whatever requests and heartbeats a
    server with a token has seen, a further request leaves the runtime alone, or it is a POST
    to the endpoint of the protocol that carries the token as a bearer, names a session that
    was seen within the timeout, and calls a tool; then the runtime has done exactly the one
    listing, sending or cancelling it asks for. *)
Theorem token_guards_runtime metrics started_at approvals token enabled timeout_secs runtime events r h :
  http_run events (http_new metrics started_at approvals (Some token) enabled timeout_secs runtime) = h ->
  h_runtime (http_handle r h).2 = h_runtime h \/
  exists header session body q id seen, r = PostMcp (Some header) session body /\
    (header = "Bearer " +:+ token \/ header = "bearer " +:+ token) /\ request_of body = Ok q /\ given session = Some id /\
    h_sessions h !! id = Some seen /\ clock_at (h_clock_reads h) - seen <= Z.max timeout_secs 1 * 1000000000 /\
    h_runtime (http_handle r h).2 = runtime_does (asked_http q) (h_runtime h).
Proof.
  intros Hrun. destruct (http_run_keeps events (http_new metrics started_at approvals (Some token) enabled timeout_secs runtime)) as [Ht Hto].
  rewrite Hrun in Ht, Hto. cbn in Ht, Hto.
  destruct (handle_serves r h) as [[Hs _ _]|(authorization & session & body & q & id & seen & -> & _ & Ha & Hq & Hg & Hse & Hle & [Hs _ _])]; [by left|right].
  unfold authorized in Ha. rewrite Ht in Ha. apply bool_decide_eq_true in Ha. destruct authorization as [header|]; [|done]. cbn [mbind option_bind] in Ha.
  exists header, session, body, q, id, seen. split_and!; try done; [|rewrite <- Hto; unfold sat_sub in Hle; lia].
  unfold bearer in Ha. destruct (strip_prefix "Bearer " header) as [t|] eqn:E.
  - left. simplify_eq. by apply strip_prefix_iff in E.
  - right. by apply strip_prefix_iff in Ha.
Qed.
End facts.

(** * The daemon's server *)

Module HttpWitness.
#[local] Existing Instance map_to_list_order.
#[local] Existing Instance McpWitness.behavior.
#[local] Existing Instance McpWitness.bridge.
#[local] Existing Instance McpWitness.hook.
#[local] Existing Instance McpWitness.handler.
#[local] Existing Instance McpWitness.clock.
Import JTree McpWitness.

(** A body is the method, the parameters, and for [tools/call] the name and arguments. *)
#[local] Instance codec : McpCodec t := {|
  initialize_params v := field v "protocol_version";
  tools_list_params _ := Ok tt;
  tools_call_params v := match field v "name" with Ok name => Ok (name, jget v "arguments") | Err e => Err e end;
  request_parse _ := Err "unused";
  request_of v := match field v "method" with Ok name => Ok (mkJsonRpcRequest "2.0" (jget v "id") name (jget v "params")) | Err e => Err e end
|}.

Abbreviation Wrk := (DaemonWorker (AgentScheduler t unit unit unit Empty_set Empty_set) unit).
#[local] Instance runtime : McpRuntimeOps t Wrk := daemon_runtime 10.
Abbreviation Srv := (HttpServer t Wrk).

Definition worker : Wrk := mkDaemonWorker scheduler tt Serving 1 [].
Definition http : Srv := http_new metrics_new 0 (Some (request_approval "orch" "t1" "Deploy?" Null 0 approval_new)) (Some "secret") true 60 worker.

Definition body (method : string) (params : t) : t := Obj [("id", Num 1); ("method", Str method); ("params", params)].
Definition post (token : string) (session : option string) (b : t) : HttpEvent := Request (PostMcp (Some ("Bearer " +:+ token)) session b).
Definition start : HttpEvent := post "secret" None (body "initialize" (Obj [("protocol_version", Str "2024-11-05")])).
Definition tool_body (name : string) (args : list (string * t)) : t := body "tools/call" (Obj [("name", Str name); ("arguments", Obj args)]).
Definition say : t := tool_body "send_message" [("pid", Num 2147483648); ("message", Str "hello")].
Definition sid : string := "mcp-0000000000000001".
Definition mail (h : Srv) : list (Message t) := default [] (p_mailbox <$> lookup_proc NEXT_AGENT_PID (dw_scheduler (h_runtime h))).

Lemma token_guards_runtime_witness :
  mail (http_handle (PostMcp (Some "Bearer secret") (Some sid) say) (http_run [start] http)).2 = [Text "hello"] /\
  exists q, request_of say = Ok q /\ asked_http q = Some (HttpSend 2147483648 (Text "hello")).
Proof.
  assert (Hm : mail (http_handle (PostMcp (Some "Bearer secret") (Some sid) say) (http_run [start] http)).2 = [Text "hello"]) by (vm_compute; reflexivity).
  split; [exact Hm|].
  destruct (token_guards_runtime metrics_new 0 (Some (request_approval "orch" "t1" "Deploy?" Null 0 approval_new)) "secret" true 60 worker [start]
    (PostMcp (Some "Bearer secret") (Some sid) say) (http_run [start] http)) as [Hr|(header & session & b & q & id & seen & Hp & _ & Hq & _)];
    [reflexivity| |].
  - exfalso. unfold mail in Hm. rewrite Hr in Hm. vm_compute in Hm. discriminate Hm.
  - injection Hp as _ _ Hb. exists q. rewrite Hb. split; [exact Hq|]. rewrite <- Hb in Hq. vm_compute in Hq. injection Hq as <-. vm_compute. reflexivity.
Defined.

(** The wrong token does nothing. *)
Lemma wrong_token : mail (http_run [start; post "guess" (Some sid) say] http) = [] /\
  (http_handle (PostMcp (Some "Bearer guess") (Some sid) say) (http_run [start] http)).1 = mkHttpResponse UNAUTHORIZED None (TextBody UNAUTHORIZED_TEXT).
Proof. split; vm_compute; reflexivity. Qed.

(** Approving a task needs no token. *)
Lemma anyone_approves : exists r, h_approvals (http_handle (PostApprove "orch" "t1" (Obj [("approved", Bool true)])) http).2 = Some r /\
  (take_decision "orch" "t1" r).1 = Some Approved.
Proof. eexists. split; vm_compute; reflexivity. Qed.

(** An argument that is missing is reported as a tool that is not found. *)
Lemma missing_argument_is_tool : (http_handle (PostMcp (Some "Bearer secret") (Some sid) (tool_body "send_message" [])) (http_run [start] http)).1 =
  mkHttpResponse OK_200 None (RpcBody (rpc_error (Some (Num 1)) error_codes.TOOL_NOT_FOUND "Missing 'pid' parameter")).
Proof. vm_compute. reflexivity. Qed.

(** The worker of the daemon only takes commands: what was sent stays in the mailbox, however
    often it is asked. *)
Definition look : HttpEvent := post "secret" (Some sid) (tool_body "list_processes" []).
Lemma never_processed : mail (http_run [start; post "secret" (Some sid) say; look; look; look; look] http) = [Text "hello"].
Proof. vm_compute. reflexivity. Qed.

(** Messages sent over standard input are JSON texts, which an agent worker passes over. *)
Lemma stdio_text_is_ignored : forall s, worker_step (B := AgentWorkerBehavior)
  (mkAgentWorkerBehavior "helper" "openrouter" None None [] None None) (Json (Str "hello")) s = (Continue, s).
Proof. reflexivity. Qed.
End HttpWitness.
