(* ===== verification/Daemon.v ===== *)
(** The daemon's own crate ([src/zeptobeam/src/]): agents as processes of the zeptovm runtime
    ([agent_adapter.rs]), their configuration ([config_loader.rs]) and its reloading
    ([config_watcher.rs], the main loop of [main.rs]), their registry for the tools of the
    protocol ([runtime_ops.rs]), and the bridge they share ([llm_bridge.rs]).

    zeptovm is not part of the repository: of its types the constructors stand here that the
    sources name; its processes are handles of any type, with the two operations that are used. *)
From S2P Require Import Prelude Float64 Json Types Process Scheduler AgentWorker FileSystem Decomposition McpServer McpHttp.

(** * Agents *)

Record AgentAdapterConfig : Type := mkAgentAdapterConfig {
  aa_name : string;
  aa_provider : string;
  aa_model : option string;
  aa_system_prompt : option string;
  aa_tools : list string;
  aa_max_iterations : option Z;
  aa_timeout_ms : option Z
}.

#[export] Instance AgentAdapterConfig_eq_dec : EqDecision AgentAdapterConfig.
Proof. solve_decision. Defined.

(** zeptovm's [Message], [Action] and the one [Reason] that agents stop with. *)
Inductive UserPayload (V : Type) : Type :=
| PText (text : string)
| PJson (value : V)
| PBytes (bytes : list Byte.byte).
Arguments PText {V} text.
Arguments PJson {V} value.
Arguments PBytes {V} bytes.

Inductive AdapterAction : Type :=
| AContinue
| AStop (custom_reason : string).

Record AgentAdapter (Br : Type) : Type := mkAgentAdapter {
  ad_config : AgentAdapterConfig;
  ad_message_count : Z;
  ad_conversation_history : list string;
  ad_bridge : option Br
}.
Arguments mkAgentAdapter {Br}.
Arguments ad_config {Br}.
Arguments ad_message_count {Br}.
Arguments ad_conversation_history {Br}.
Arguments ad_bridge {Br}.

(** [LlmBridge::chat], of which the adapter sees an answer or an error. *)
Class LlmChat (V Br : Type) : Type := llm_chat : IoOp V -> Br -> result V string * Br.

(** [serde_json] on a list of strings, and its law. *)
Class HistoryCodec : Type := {
  history_print : list string -> option string;
  history_parse : string -> result (list string) string
}.
Definition history_reads_back `{HistoryCodec} (h : list string) : Prop :=
  exists t, history_print h = Some t /\ history_parse t = Ok h.

Section adapter.
Context {V Br : Type} `{JL : JsonLib V} `{LC : LlmChat V Br} `{HC : HistoryCodec}.
Implicit Types (a : AgentAdapter Br) (msg : UserPayload V).

Definition create_agent_adapter (config : AgentAdapterConfig) : AgentAdapter Br := mkAgentAdapter config 0 [] None.
Definition create_agent_adapter_with_bridge (config : AgentAdapterConfig) (bridge : Br) : AgentAdapter Br := mkAgentAdapter config 0 [] (Some bridge).

Definition adapter_init (checkpoint : option string) a : result unit string * AgentAdapter Br :=
  match checkpoint with
  | Some data =>
      match history_parse data with
      | Ok history => (Ok tt, mkAgentAdapter (ad_config a) (Z.of_nat (length history)) history (ad_bridge a))
      | Err e => (Err e, a)
      end
  | None => (Ok tt, a)
  end.

(** [conversation_history.push], with the count bumped or not. *)
Definition record_entry (entry : string) (bump : bool) a : AgentAdapter Br :=
  mkAgentAdapter (ad_config a) (if bump then ad_message_count a + 1 else ad_message_count a) (ad_conversation_history a ++ [entry]) (ad_bridge a).

Definition chat_op (c : AgentAdapterConfig) (text : string) : IoOp V :=
  AgentChat (aa_provider c) (aa_model c) (aa_system_prompt c) text (match aa_tools c with [] => None | tools => Some tools end)
    (aa_max_iterations c) (aa_timeout_ms c).

Definition adapter_handle msg a : AdapterAction * AgentAdapter Br :=
  match msg with
  | PText text =>
      let a := record_entry text true a in
      match ad_bridge a with
      | None => (AContinue, a)
      | Some bridge =>
          let '(res, bridge) := llm_chat (chat_op (ad_config a) text) bridge in
          let a := mkAgentAdapter (ad_config a) (ad_message_count a) (ad_conversation_history a) (Some bridge) in
          (AContinue, match res with Ok response => record_entry (jto_string response) false a | Err _ => a end)
      end
  | PJson value =>
      if decide (jget_str value "command" = Some "stop") then (AStop (default "requested" (jget_str value "reason")), a)
      else (AContinue, record_entry (jto_string value) true a)
  | PBytes _ => (AContinue, mkAgentAdapter (ad_config a) (ad_message_count a + 1) (ad_conversation_history a) (ad_bridge a))
  end.

Definition should_checkpoint a : bool := (0 <? ad_message_count a) && (ad_message_count a mod 10 =? 0).
Definition adapter_checkpoint a : option string := history_print (ad_conversation_history a).
End adapter.

(** * Configuration *)

Record ConfigError : Type := mkConfigError { ce_agent_name : string; ce_message : string }.
Record ResolvedAgents : Type := mkResolvedAgents { ra_agents : list AgentAdapterConfig; ra_config_hash : Z }.

(** What [DefaultHasher] makes of the agents, field by field. *)
Class ConfigHash : Type := compute_config_hash : list AgentConfig -> Z.

Definition convert_agent (c : AgentConfig) : AgentAdapterConfig :=
  mkAgentAdapterConfig (ac_name c) (ac_provider c) (ac_model c) (ac_system_prompt c) (ac_tools c) (ac_max_iterations c) (ac_timeout_ms c).

Definition validate_agent (c : AgentConfig) : list ConfigError :=
  let name := if decide (ac_name c = EmptyString) then "<unnamed>" else ac_name c in
  (if decide (utf8_trim (ac_name c) = EmptyString) then [mkConfigError name "name must not be empty"] else []) ++
  (if decide (utf8_trim (ac_provider c) = EmptyString) then [mkConfigError name "provider must not be empty"] else []) ++
  (match ac_max_iterations c with
   | Some max => if max =? 0 then [mkConfigError name "max_iterations must be > 0"] else []
   | None => []
   end).

Section config.
Context `{CH : ConfigHash}.

Definition resolve_agents (agents : list AgentConfig) : result ResolvedAgents (list ConfigError) :=
  match mjoin (validate_agent <$> agents) with
  | [] => Ok (mkResolvedAgents (convert_agent <$> List.filter ac_auto_start agents) (compute_config_hash agents))
  | errors => Err errors
  end.

(** ** Watching it *)

Record ConfigWatcher : Type := mkConfigWatcher { cw_last_hash : Z }.
Record ConfigChange : Type := mkConfigChange { cc_new_agents : list AgentAdapterConfig; cc_config_hash : Z }.

(** [loaded]: what [load_config] made of the file. *)
Definition check_for_changes (loaded : result (list AgentConfig) string) (cw : ConfigWatcher) : option ConfigChange * ConfigWatcher :=
  match loaded with
  | Err _ => (None, cw)
  | Ok agents =>
      match resolve_agents agents with
      | Err _ => (None, cw)
      | Ok resolved =>
          if ra_config_hash resolved =? cw_last_hash cw then (None, cw)
          else (Some (mkConfigChange (ra_agents resolved) (ra_config_hash resolved)), mkConfigWatcher (ra_config_hash resolved))
      end
  end.
End config.

Record AgentDiff : Type := mkAgentDiff { df_to_add : list AgentAdapterConfig; df_to_remove : list string }.

Definition diff_agents (running : list string) (new_agents : list AgentAdapterConfig) : AgentDiff :=
  mkAgentDiff
    (filter (fun a => aa_name a ∉ running) new_agents)
    (filter (fun name => name ∉ aa_name <$> new_agents) running).

(** ** Applying a change

    [spawn]: what starts a process for a configuration; the pairs of names and handles. *)
Section reload.
Context {P : Type} (spawn : AgentAdapterConfig -> P).

Definition remove_named (handles : list (string * P)) (name : string) : list (string * P) :=
  match position (fun h => bool_decide (h.1 = name)) handles with
  | Some idx => match vec_remove idx handles with Some (_, rest) => rest | None => handles end
  | None => handles
  end.

Definition reload (handles : list (string * P)) (new_agents : list AgentAdapterConfig) : list (string * P) :=
  let diff := diff_agents handles.*1 new_agents in
  foldl remove_named handles (df_to_remove diff) ++ ((fun a => (aa_name a, spawn a)) <$> df_to_add diff).
End reload.

(** * The registry of agents *)

(** What is used of zeptovm's [ProcessHandle]. *)
Class ProcessHandle (V P : Type) : Type := {
  try_send_user : UserPayload V -> P -> result unit string * P;
  kill : P -> P
}.

Section runtime_ops.
Context {V P : Type} `{PH : ProcessHandle V P} `{HO : HashOrder}.
Abbreviation Processes := (gmap string (Z * P)).
Implicit Types ps : Processes.

Definition ops_register (name : string) (pid : Z) (handle : P) ps : Processes := <[name := (pid, handle)]> ps.
Definition ops_remove (name : string) ps : Processes := base.delete name ps.

Definition ops_list ps : result (list ProcessInfo) string * Processes :=
  (Ok ((fun '(name, (pid, _)) => mkProcessInfo pid "running" ("normal (" +:+ name +:+ ")") 0) <$> hash_iter ps), ps).

(** [values().find]: the first process with that pid, under its name. *)
Definition ops_find (pid : Z) ps : option (string * P) :=
  (fun '(_, (name, (_, h))) => (name, h)) <$> list_find (fun kv : string * (Z * P) => kv.2.1 = pid) (hash_iter ps).

Definition ops_not_found (pid : Z) : string := "process " +:+ pretty pid +:+ " not found".

Definition convert_legacy_message (msg : Message V) : result (UserPayload V) string :=
  match msg with
  | Text t => Ok (PText t)
  | Json v => Ok (PJson v)
  | System _ => Err "system messages cannot be sent via MCP"
  end.

(** A handle is shared: what is done to it is done to the process under its name. *)
Definition ops_send (pid : Z) (message : Message V) ps : result unit string * Processes :=
  match ops_find pid ps with
  | None => (Err (ops_not_found pid), ps)
  | Some (name, handle) =>
      match convert_legacy_message message with
      | Err e => (Err e, ps)
      | Ok payload =>
          let '(res, handle) := try_send_user payload handle in
          (match res with Ok _ => Ok tt | Err e => Err ("send failed: " +:+ e) end, <[name := (pid, handle)]> ps)
      end
  end.

Definition ops_cancel (pid : Z) (_ : Reason) ps : result unit string * Processes :=
  match ops_find pid ps with
  | None => (Err (ops_not_found pid), ps)
  | Some (name, handle) => (Ok tt, <[name := (pid, kill handle)]> ps)
  end.

#[export] Instance zeptovm_runtime : McpRuntimeOps V Processes := {|
  rt_list := ops_list;
  rt_send := ops_send;
  rt_cancel := ops_cancel;
  rt_process_count := size
|}.
End runtime_ops.

(** * The shared bridge

    The clones of one [LlmBridge] share a bridge handle behind a mutex; each call submits its
    request under the mutex, and then takes the mutex every fifty milliseconds to look for its
    answer.  The steps of the calls interleave with each other and with the bridge's workers. *)

Inductive Chat (V : Type) : Type :=
| ChatWaits (correlation_id : Z)
| ChatDone (res : result V string).
Arguments ChatWaits {V} correlation_id.
Arguments ChatDone {V} res.

Record LlmBridge (V Br : Type) : Type := mkLlmBridge {
  lb_handle : Br;
  lb_next_pid : Z;
  lb_chats : gmap nat (Chat V)
}.
Arguments mkLlmBridge {V Br}.
Arguments lb_handle {V Br}.
Arguments lb_next_pid {V Br}.
Arguments lb_chats {V Br}.

Section llm.
Context {V Br : Type} `{BO : BridgeOps V Br}.
Implicit Types lb : LlmBridge V Br.

Definition set_chat (k : nat) (c : Chat V) lb : LlmBridge V Br := mkLlmBridge (lb_handle lb) (lb_next_pid lb) (<[k := c]> (lb_chats lb)).

Definition chat_submit (k : nat) (op : IoOp V) lb : LlmBridge V Br :=
  let '(pid, next) := fetch_add1 (lb_next_pid lb) in
  let '(res, br) := bridge_submit pid op (lb_handle lb) in
  set_chat k (match res with Ok cid => ChatWaits cid | Err e => ChatDone (Err e) end) (mkLlmBridge br next (lb_chats lb)).

(** The first response with the id; the others are dropped. *)
Definition response_to (cid : Z) (responses : list (AgentPid * Message V)) : option (IoResult V) :=
  head (omap (fun r : AgentPid * Message V => match r.2 with System (IoResponse c res) => if c =? cid then Some res else None | _ => None end) responses).

Definition chat_result (res : IoResult V) : result V string :=
  match res with
  | IoOk v => Ok v
  | IoError e => Err ("LLM error: " +:+ e)
  | IoTimeout => Err "LLM request timed out"
  end.

Definition chat_poll (k : nat) lb : LlmBridge V Br :=
  match lb_chats lb !! k with
  | Some (ChatWaits cid) =>
      let '(responses, br) := bridge_drain_responses (lb_handle lb) in
      let lb := mkLlmBridge br (lb_next_pid lb) (lb_chats lb) in
      match response_to cid responses with
      | Some res => set_chat k (ChatDone (chat_result res)) lb
      | None => lb
      end
  | _ => lb
  end.

(** After 130 seconds. *)
Definition chat_give_up (k : nat) lb : LlmBridge V Br :=
  match lb_chats lb !! k with
  | Some (ChatWaits _) => set_chat k (ChatDone (Err "bridge response timeout")) lb
  | _ => lb
  end.

Inductive ChatStep : Type :=
| StepSubmit (k : nat) (op : IoOp V)
| StepPoll (k : nat)
| StepGiveUp (k : nat)
| StepBridge (work : Br -> Br).

Definition chat_step (st : ChatStep) lb : LlmBridge V Br :=
  match st with
  | StepSubmit k op => chat_submit k op lb
  | StepPoll k => chat_poll k lb
  | StepGiveUp k => chat_give_up k lb
  | StepBridge work => mkLlmBridge (work (lb_handle lb)) (lb_next_pid lb) (lb_chats lb)
  end.
Definition chat_steps (steps : list ChatStep) lb : LlmBridge V Br := foldl (fun lb st => chat_step st lb) lb steps.
End llm.

(** * Facts *)

Section adapter_facts.
Context {V Br : Type} `{JL : JsonLib V} `{LC : LlmChat V Br} `{HC : HistoryCodec}.
Implicit Types a b : AgentAdapter Br.

(** An agent restored from a checkpoint has the conversation of the one that made it. *)
Theorem checkpoint_restores a b data : history_reads_back (ad_conversation_history a) -> adapter_checkpoint a = Some data ->
  exists b', adapter_init (Some data) b = (Ok tt, b') /\ ad_conversation_history b' = ad_conversation_history a /\
    ad_config b' = ad_config b /\ ad_message_count b' = Z.of_nat (length (ad_conversation_history a)).
Proof.
  intros (t & Hp & Hr) Hd. unfold adapter_checkpoint in Hd. simplify_eq. unfold adapter_init. rewrite Hr. by eexists.
Qed.
End adapter_facts.

Section config_facts.
Context `{CH : ConfigHash}.

(** Nothing is started unless every agent is valid, started automatically or not. *)
Theorem resolve_agents_spec agents :
  (forall r, resolve_agents agents = Ok r <-> (forall c, c ∈ agents -> validate_agent c = []) /\
     r = mkResolvedAgents (convert_agent <$> List.filter ac_auto_start agents) (compute_config_hash agents)) /\
  (forall c e, c ∈ agents -> e ∈ validate_agent c -> exists errors, resolve_agents agents = Err errors /\ e ∈ errors).
Proof.
  unfold resolve_agents. split.
  - intros r. destruct (mjoin (validate_agent <$> agents)) as [|e errors] eqn:E; split.
    + intros [= <-]. split; [|done]. intros c Hc. apply elem_of_nil_inv. intros e He.
      assert (e ∈ mjoin (validate_agent <$> agents)) as Hin by (apply list_elem_of_join; exists (validate_agent c); split; [done|by apply list_elem_of_fmap_2]).
      rewrite E in Hin. by apply not_elem_of_nil in Hin.
    + by intros [_ ->].
    + done.
    + intros [Hv _]. assert (e ∈ mjoin (validate_agent <$> agents)) as Hin by (rewrite E; left).
      apply list_elem_of_join in Hin as (l & Hl & Hin). apply list_elem_of_fmap in Hin as (c & -> & Hc). rewrite Hv in Hl by done. by apply not_elem_of_nil in Hl.
  - intros c e Hc He.
    assert (e ∈ mjoin (validate_agent <$> agents)) as Hin by (apply list_elem_of_join; exists (validate_agent c); split; [done|by apply list_elem_of_fmap_2]).
    destruct (mjoin _) as [|e' errors]; [by apply not_elem_of_nil in Hin|]. by eexists.
Qed.
End config_facts.

Section reload_facts.
Context {P : Type} (spawn : AgentAdapterConfig -> P).
Implicit Types (handles kept : list (string * P)) (new_agents : list AgentAdapterConfig).

Lemma position_app {A} (p : A -> bool) (l1 l2 : list A) : (forall x, x ∈ l1 -> p x = false) -> position p (l1 ++ l2) = (fun i => (length l1 + i)%nat) <$> position p l2.
Proof.
  induction l1 as [|x l1 IH]; intros Hp; cbn; [by destruct (position p l2)|]. rewrite Hp by left.
  rewrite IH by (intros; apply Hp; by right). by destruct (position p l2).
Qed.

Lemma remove_named_after kept handles name h : (forall x, x ∈ kept -> x.1 <> name) -> h.1 = name ->
  remove_named (kept ++ h :: handles) name = kept ++ handles.
Proof.
  intros Hk <-. unfold remove_named. rewrite position_app by (intros x Hx; apply bool_decide_eq_false; by apply Hk).
  cbn [position]. rewrite bool_decide_true by done. cbn. rewrite Nat.add_0_r. unfold vec_remove. rewrite list_lookup_middle by done.
  rewrite take_app_length. f_equal. rewrite drop_app_ge by lia. by replace (S (length kept) - length kept)%nat with 1%nat by lia.
Qed.

Lemma remove_named_all (names : list string) handles : forall kept, (forall x, x ∈ kept -> x.1 ∈ names) ->
  foldl remove_named (kept ++ handles) (filter (fun name => name ∉ names) handles.*1) = kept ++ filter (fun h => h.1 ∈ names) handles.
Proof.
  induction handles as [|h handles IH]; intros kept Hk; [done|]. cbn [fmap list_fmap]. rewrite !filter_cons.
  destruct (decide (h.1 ∈ names)) as [Hin|Hout].
  - rewrite decide_False by (intros Hn; by apply Hn). specialize (IH (kept ++ [h])). rewrite <- !app_assoc in IH. apply IH.
    intros x [Hx| ->%list_elem_of_singleton]%elem_of_app; [by apply Hk|done].
  - rewrite decide_True by done. cbn [foldl]. rewrite remove_named_after; [by apply IH| |done]. intros x Hx Heq. apply Hout. rewrite <- Heq. by apply Hk.
Qed.

(** After a change exactly the configured agents run.  Those that ran and are still configured
    are kept, as they are; the others are gone, and the new ones are started in their order. *)
Theorem reload_exact handles new_agents :
  reload spawn handles new_agents =
    filter (fun h => h.1 ∈ aa_name <$> new_agents) handles ++ ((fun a => (aa_name a, spawn a)) <$> filter (fun a => aa_name a ∉ handles.*1) new_agents) /\
  forall name, name ∈ (reload spawn handles new_agents).*1 <-> name ∈ aa_name <$> new_agents.
Proof.
  assert (E : reload spawn handles new_agents = filter (fun h => h.1 ∈ aa_name <$> new_agents) handles ++
    ((fun a => (aa_name a, spawn a)) <$> filter (fun a => aa_name a ∉ handles.*1) new_agents)).
  { unfold reload. cbn. f_equal. apply (remove_named_all (aa_name <$> new_agents) handles []). intros x Hx. by apply not_elem_of_nil in Hx. }
  split; [exact E|]. intros name. rewrite E, fmap_app, elem_of_app, !list_elem_of_fmap. split.
  - intros [([n p] & -> & Hf)|(x & -> & Hx)].
    + by apply list_elem_of_filter in Hf as [Hf%list_elem_of_fmap _].
    + apply list_elem_of_fmap in Hx as (a & -> & Ha). apply list_elem_of_filter in Ha as [_ Ha]. by exists a.
  - intros (a & -> & Ha). destruct (decide (aa_name a ∈ handles.*1)) as [Hin|Hout].
    + left. apply list_elem_of_fmap in Hin as (h & Hn & Hh). exists h. split; [done|]. apply list_elem_of_filter. split; [|done].
      rewrite <- Hn. by apply list_elem_of_fmap_2.
    + right. exists (aa_name a, spawn a). split; [done|]. apply list_elem_of_fmap. exists a. split; [done|]. by apply list_elem_of_filter.
Qed.
End reload_facts.

(** * Runs *)

Module DaemonWitness.
Definition config (name provider : string) : AgentAdapterConfig := mkAgentAdapterConfig name provider None None [] None None.

(** An agent whose configuration changed keeps the old one: only names are compared. *)
Lemma edited_agent_is_kept : reload id [("helper", config "helper" "openrouter")] [config "helper" "anthropic"] = [("helper", config "helper" "openrouter")].
Proof. vm_compute. reflexivity. Qed.

(** A name that is configured twice is started twice, and only the second can be reached. *)
Lemma twin_is_lost : (reload id [] [config "twin" "a"; config "twin" "b"]).*1 = ["twin"; "twin"].
Proof. vm_compute. reflexivity. Qed.

(** A bridge that keeps the answers it was given: the next correlation id, and the responses. *)
#[local] Instance bridge : BridgeOps JTree.t (Z * list (AgentPid * Message JTree.t)) := {|
  bridge_submit := fun _ _ b => (Ok b.1, (b.1 + 1, b.2));
  bridge_cancel := fun _ b => (false, b);
  bridge_drain_responses := fun b => (b.2, (b.1, []));
  bridge_shutdown := fun _ b => (Ok tt, b)
|}.
Definition start : LlmBridge JTree.t (Z * list (AgentPid * Message JTree.t)) := mkLlmBridge (1, []) NEXT_AGENT_PID ∅.
Definition ask (text : string) : IoOp JTree.t := AgentChat "openrouter" None None text None None None.
Definition answers (cid : Z) (text : string) : ChatStep (V := JTree.t) (Br := Z * list (AgentPid * Message JTree.t)) :=
  StepBridge (fun b => (b.1, b.2 ++ [(0, System (IoResponse cid (IoOk (JTree.Str text))))])).

(** One agent alone gets its answer. *)
Lemma alone_is_answered : lb_chats (chat_steps [StepSubmit 0 (ask "a"); answers 1 "A"; StepPoll 0] start) !! 0%nat = Some (ChatDone (Ok (JTree.Str "A"))).
Proof. vm_compute. reflexivity. Qed.

(** Of two agents that ask at the same time the first to look takes both answers, and drops
    the other's: the second waits until it gives up. *)
Lemma answer_is_dropped :
  let lb := chat_steps [StepSubmit 0 (ask "a"); StepSubmit 1 (ask "b"); answers 1 "A"; answers 2 "B"; StepPoll 0; StepPoll 1; StepGiveUp 1] start in
  lb_chats lb !! 0%nat = Some (ChatDone (Ok (JTree.Str "A"))) /\ lb_chats lb !! 1%nat = Some (ChatDone (Err "bridge response timeout")).
Proof. split; vm_compute; reflexivity. Qed.

(** After a restart the count of messages is that of the entries, answers included: with a
    bridge the next checkpoint comes after another number of messages. *)
#[local] Instance chat : LlmChat JTree.t unit := fun _ u => (Ok (JTree.Str "answer"), u).
#[local] Instance codec : HistoryCodec := {| history_print h := head h; history_parse t := Ok [t; "answer"] |}.
Lemma restored_count_differs :
  let a := (adapter_handle (PText "hello") (create_agent_adapter_with_bridge (config "helper" "openrouter") tt)).2 in
  ad_message_count a = 1 /\ ad_message_count (adapter_init (adapter_checkpoint a) (create_agent_adapter (config "helper" "openrouter") (Br := unit))).2 = 2.
Proof. split; vm_compute; reflexivity. Qed.
End DaemonWitness.
