(* ===== verification/Swarm.v ===== *)
(** Swarms of agents ([src/zeptobeam/src/swarm.rs]): steps that run one after the other, at the
    same time, or in the waves of their dependencies, and the test that the dependencies have no
    cycle.

    A step is a process of zeptovm, which is not part of the repository: [join n step] is how
    the n-th process that is started, for [step], exits; [None] where joining it fails. *)
From S2P Require Import Prelude Walk Json TaskGraph AgentWorker Daemon.

Record SwarmStep : Type := mkSwarmStep {
  st_id : string;
  st_config : AgentAdapterConfig;
  st_depends_on : list string
}.

Record StepResult (Exit : Type) : Type := mkStepResult { sr_step_id : string; sr_exit : Exit }.
Arguments mkStepResult {Exit}.
Arguments sr_step_id {Exit}.
Arguments sr_exit {Exit}.

(** What an execution does, in order. *)
Inductive SwarmEvent : Type :=
| Started (id : string)
| Joined (id : string).

Section swarm.
Context {Exit : Type} (join : nat -> SwarmStep -> option Exit) `{HO : HashOrder}.
Abbreviation Results := (list (StepResult Exit)).
Implicit Types (steps : list SwarmStep) (completed pending : gset string) (step_map : gmap string SwarmStep).

Definition result_of (n : nat) (step : SwarmStep) : Results :=
  match join n step with Some exit => [mkStepResult (st_id step) exit] | None => [] end.

(** The n-th process is the first of the steps that are left. *)
Fixpoint run_sequential (n : nat) steps : list SwarmEvent * Results :=
  match steps with
  | [] => ([], [])
  | step :: steps =>
      let '(events, results) := run_sequential (S n) steps in
      (Started (st_id step) :: Joined (st_id step) :: events, result_of n step ++ results)
  end.

(** All are started, then each is waited for, in the order of the starts. *)
Definition run_parallel (n : nat) steps : list SwarmEvent * Results :=
  (((fun s => Started (st_id s)) <$> steps) ++ ((fun s => Joined (st_id s)) <$> steps),
   mjoin (imap (fun i s => result_of (n + i) s) steps)).

(** [collect] into a map: of two steps with one id the later stays. *)
Definition step_map_of steps : gmap string SwarmStep := foldl (fun m s => <[st_id s := s]> m) ∅ steps.

Definition satisfied step_map completed (id : string) : bool :=
  match step_map !! id with
  | Some step => forallb (fun dep => bool_decide (dep ∈ completed)) (st_depends_on step)
  | None => false
  end.

(** In the order of the set of pending ids. *)
Definition ready_steps step_map pending completed : list string :=
  List.filter (satisfied step_map completed) (hash_keys (gset_to_gmap tt pending)).

(** What happened, the results, and the steps that were left when none was ready. *)
Fixpoint run_waves (fuel : nat) step_map (n : nat) pending completed : option (list SwarmEvent * Results * gset string) :=
  match fuel with
  | O => None
  | S fuel =>
      if decide (pending = ∅) then Some ([], [], ∅)
      else match ready_steps step_map pending completed with
      | [] => Some ([], [], pending)
      | ready =>
          let wave := omap (fun id => step_map !! id) ready in
          let '(events, results) := run_parallel n wave in
          '(events', results', rest) ← run_waves fuel step_map (n + length wave) (pending ∖ list_to_set ready) (completed ∪ list_to_set ready);
          Some (events ++ events', results ++ results', rest)
      end
  end.

(** A wave ends at least one step. *)
Definition run_dag steps : option (list SwarmEvent * Results * gset string) :=
  let step_map := step_map_of steps in
  run_waves (S (size step_map)) step_map 0 (dom step_map) ∅.

(** * The test for cycles *)

Definition missing_dep steps : option (string * string) :=
  head (mjoin ((fun s => (fun dep => (st_id s, dep)) <$> filter (fun dep => dep ∉ st_id <$> steps) (st_depends_on s)) <$> steps)).

(** The in-degrees, and who depends on whom. *)
Abbreviation Tables := (gmap string Z * gmap string (list string))%type.

Definition add_dep (id : string) (t : Tables) (dep : string) : Tables :=
  let '(in_degree, adj) := t in
  (<[id := default 0 (in_degree !! id) + 1]> in_degree, push_dependent id adj dep).

Definition add_step (t : Tables) (s : SwarmStep) : Tables :=
  let '(in_degree, adj) := t in
  let in_degree := <[st_id s := default 0 (in_degree !! st_id s)]> in_degree in
  let adj := <[st_id s := default [] (adj !! st_id s)]> adj in
  foldl (add_dep (st_id s)) (in_degree, adj) (st_depends_on s).

(** The loop of the algorithm is that of the task graph: every neighbor has an in-degree. *)
Definition validate_dag steps : result unit string :=
  match missing_dep steps with
  | Some (id, dep) => Err ("step '" +:+ id +:+ "' depends on '" +:+ dep +:+ "' which does not exist")
  | None =>
      let '(in_degree, adj) := foldl add_step (∅, ∅) steps in
      match kahn (S (size in_degree)) adj in_degree (initial_queue in_degree) 0 with
      | Some visited => if (visited =? length steps)%nat then Ok tt else Err "DAG contains a cycle"
      | None => Err "DAG contains a cycle"
      end
  end.
End swarm.

(** * The waves *)

Section waves.
Context {Exit : Type} (join : nat -> SwarmStep -> option Exit) `{HO : HashOrder}.
Implicit Types (steps : list SwarmStep) (completed pending rest : gset string) (m : gmap string SwarmStep) (events : list SwarmEvent).

Definition starts events : list string := omap (fun e => match e with Started id => Some id | Joined _ => None end) events.

(** Every step is stored under its id. *)
Definition ids_ok m : Prop := forall id s, m !! id = Some s -> st_id s = id.

Lemma step_map_ok steps : ids_ok (step_map_of steps) /\ dom (step_map_of steps) = list_to_set (st_id <$> steps).
Proof.
  unfold step_map_of. induction steps as [|s steps IH] using rev_ind; [by split|]. rewrite foldl_app. cbn [foldl]. destruct IH as [H1 H2]. split.
  - intros id s'. destruct (decide (id = st_id s)) as [->|Hne]; [rewrite lookup_insert_eq; by intros [= <-]|rewrite lookup_insert_ne by done; apply H1].
  - rewrite dom_insert_L, H2, fmap_app, list_to_set_app_L. cbn. set_solver.
Qed.

Lemma ready_spec m pending completed : NoDup (ready_steps m pending completed) /\
  forall id, id ∈ ready_steps m pending completed <-> id ∈ pending /\ exists s, m !! id = Some s /\ forall dep, dep ∈ st_depends_on s -> dep ∈ completed.
Proof.
  unfold ready_steps. split.
  { rewrite NoDup_ListNoDup. apply List.NoDup_filter. rewrite <- NoDup_ListNoDup. apply NoDup_hash_keys. }
  intros id. rewrite list_elem_of_In, filter_In, <- list_elem_of_In, elem_of_hash_keys, <- elem_of_dom, dom_gset_to_gmap.
  unfold satisfied. split; intros [H1 H2]; (split; [done|]).
  - destruct (m !! id) as [s|]; [|done]. exists s. split; [done|]. intros dep Hd. rewrite forallb_forall in H2.
    apply list_elem_of_In, H2, bool_decide_eq_true in Hd. done.
  - destruct H2 as (s & -> & H2). apply forallb_forall. intros dep Hd. apply bool_decide_eq_true, H2. by apply list_elem_of_In.
Qed.

Lemma wave_ids m (ready : list string) : ids_ok m -> (forall id, id ∈ ready -> is_Some (m !! id)) -> st_id <$> omap (fun id => m !! id) ready = ready.
Proof.
  intros Hm. induction ready as [|id ready IH]; intros Hr; [done|]. destruct (Hr id) as [s Hs]; [left|]. cbn. rewrite Hs. cbn.
  rewrite (Hm _ _ Hs), IH; [done|]. intros x Hx. apply Hr. by right.
Qed.

Lemma parallel_events n steps : (run_parallel join n steps).1 = (Started <$> (st_id <$> steps)) ++ (Joined <$> (st_id <$> steps)).
Proof. unfold run_parallel. cbn. by rewrite <- !list_fmap_compose. Qed.

Lemma starts_app e1 e2 : starts (e1 ++ e2) = starts e1 ++ starts e2.
Proof. apply omap_app. Qed.
Lemma starts_wave (ids : list string) : starts ((Started <$> ids) ++ (Joined <$> ids)) = ids.
Proof.
  rewrite starts_app. assert (starts (Started <$> ids) = ids) as ->
    by (induction ids as [|i ids IH]; [done|]; change (starts (Started <$> i :: ids)) with (i :: starts (Started <$> ids)); by rewrite IH).
  assert (starts (Joined <$> ids) = []) as -> by (induction ids; done). apply app_nil_r.
Qed.

(** What the waves do from [pending] on: the steps that run, each after what it depends on. *)
Record waves m pending completed events rest : Prop := {
  wv_rest : rest ⊆ pending;
  wv_once : NoDup (starts events);
  wv_ran : forall id, id ∈ starts events <-> id ∈ pending /\ id ∉ rest;
  wv_joined : forall id, Joined id ∈ events <-> id ∈ starts events;
  wv_after : forall e1 id e2 s dep, events = e1 ++ Started id :: e2 -> m !! id = Some s -> dep ∈ st_depends_on s -> dep ∈ completed \/ Joined dep ∈ e1;
  wv_stuck : forall id, id ∈ rest -> exists s dep, m !! id = Some s /\ dep ∈ st_depends_on s /\ dep ∉ completed /\ dep ∉ starts events
}.

Lemma waves_stop m pending completed rest : rest ⊆ pending -> pending ⊆ rest ->
  (forall id, id ∈ rest -> exists s dep, m !! id = Some s /\ dep ∈ st_depends_on s /\ dep ∉ completed) -> waves m pending completed [] rest.
Proof.
  intros H1 H2 H3. split; cbn.
  - done.
  - constructor.
  - intros id. split; [by intros ?%not_elem_of_nil|intros [? []]; set_solver].
  - intros id. by rewrite !elem_of_nil.
  - intros [|? ?]; done.
  - intros id (s & dep & ? & ? & ?)%H3. exists s, dep. split_and!; try done. apply not_elem_of_nil.
Qed.

(** A start is in the wave, or in what comes after it. *)
Lemma start_in_wave (ids : list string) events e1 id e2 : (Started <$> ids) ++ (Joined <$> ids) ++ events = e1 ++ Started id :: e2 ->
  id ∈ ids \/ exists e1', e1 = (Started <$> ids) ++ (Joined <$> ids) ++ e1' /\ events = e1' ++ Started id :: e2.
Proof.
  intros E. rewrite app_assoc in E. apply app_eq_inv in E as [(k & E1 & E2)|(k & E1 & E2)].
  - destruct k as [|x k]; cbn in E2.
    + right. exists []. rewrite app_nil_r in *. by subst.
    + left. injection E2 as <- E2. assert (Started id ∈ (Started <$> ids) ++ (Joined <$> ids)) as Hin by (rewrite E1; apply elem_of_app; right; left).
      apply elem_of_app in Hin as [Hin|Hin]; apply list_elem_of_fmap in Hin as (i & Hi & ?); congruence.
  - right. exists k. rewrite E1, <- app_assoc. by split.
Qed.

Lemma waves_step m pending completed (ready : list string) events rest :
  NoDup ready -> (forall id, id ∈ ready <-> id ∈ pending /\ exists s, m !! id = Some s /\ forall dep, dep ∈ st_depends_on s -> dep ∈ completed) ->
  waves m (pending ∖ list_to_set ready) (completed ∪ list_to_set ready) events rest ->
  waves m pending completed ((Started <$> ready) ++ (Joined <$> ready) ++ events) rest.
Proof.
  intros Hnd Hr [L O R J A S]. assert (E : starts ((Started <$> ready) ++ (Joined <$> ready) ++ events) = ready ++ starts events)
    by (rewrite app_assoc, starts_app, starts_wave; done).
  assert (Hrp : forall id, id ∈ ready -> id ∈ pending) by (intros id Hid; by apply Hr in Hid as [? _]).
  split; rewrite ?E.
  - set_solver.
  - apply NoDup_app. split_and!; [done| |done]. intros id H1 [H2 _]%R. set_solver.
  - intros id. rewrite elem_of_app, R, elem_of_difference, elem_of_list_to_set. split.
    + intros [H|[[H1 H2] H3]]; [|done]. split; [by apply Hrp|]. intros H'. apply L in H'. set_solver.
    + intros [H1 H2]. destruct (decide (id ∈ ready)); [by left|by right].
  - intros id. rewrite !elem_of_app, J, (list_elem_of_fmap _ ready (Joined id)), (list_elem_of_fmap _ ready (Joined id)). split.
    + intros [(i & [=] & _)|[(i & [= ->] & Hi)|H]]; [by left|by right].
    + intros [H|H]; [right; left; by exists id|by do 2 right].
  - intros e1 id e2 s dep E1 Hs Hd. apply start_in_wave in E1 as [Hin|(e1' & -> & E1)].
    + left. apply Hr in Hin as (_ & s' & Hs' & Hall). simplify_eq. by apply Hall.
    + destruct (A e1' id e2 s dep E1 Hs Hd) as [[H|H%elem_of_list_to_set]%elem_of_union|H]; [by left| |].
      * right. rewrite !elem_of_app. right. left. apply list_elem_of_fmap. by exists dep.
      * right. rewrite !elem_of_app. by do 2 right.
  - intros id (s & dep & H1 & H2 & H3 & H4)%S. exists s, dep. rewrite elem_of_app. set_solver.
Qed.

Lemma run_waves_spec m fuel : ids_ok m -> forall n pending completed, pending ⊆ dom m -> (size pending < fuel)%nat ->
  exists events results rest, run_waves join fuel m n pending completed = Some (events, results, rest) /\ waves m pending completed events rest.
Proof.
  intros Hm. induction fuel as [|fuel IH]; intros n pending completed Hp Hf; [lia|]. cbn [run_waves].
  case_decide as He; [subst; exists [], [], ∅; split; [done|]; apply waves_stop; set_solver|].
  destruct (ready_spec m pending completed) as [Hnd Hr]. destruct (ready_steps m pending completed) as [|r ready] eqn:E.
  - exists [], [], pending. split; [done|]. apply waves_stop; [done|done|]. intros id Hid.
    assert (is_Some (m !! id)) as [s Hs] by (apply elem_of_dom; set_solver).
    destruct (decide (Forall (fun dep => dep ∈ completed) (st_depends_on s))) as [Hall|Hno].
    + exfalso. rewrite Forall_forall in Hall. apply (not_elem_of_nil id), Hr. eauto.
    + apply not_Forall_Exists in Hno; [|intros x; apply _]. apply Exists_exists in Hno as (dep & H1 & H2). by exists s, dep.
  - pose proof E as E0. rewrite <- E. rewrite <- E in Hnd, Hr. clear E. set (rs := ready_steps m pending completed) in *.
    assert (Hin : forall id, id ∈ rs -> id ∈ pending) by (intros id Hid; by apply Hr in Hid as [? _]).
    assert (Hw : st_id <$> omap (fun id => m !! id) rs = rs).
    { apply wave_ids; [done|]. intros id Hid. apply elem_of_dom, Hp. by apply Hin. }
    assert (r ∈ rs) as Hr0 by (rewrite E0; left).
    destruct (IH (n + length (omap (fun id => m !! id) rs))%nat (pending ∖ list_to_set rs) (completed ∪ list_to_set rs)) as (events & results & rest & -> & Hwv).
    { set_solver. }
    { assert (pending ∖ list_to_set rs ⊂ pending) as Hsub by (split; [set_solver|]; intros H; apply Hin in Hr0 as Hr1; apply H, elem_of_difference in Hr1 as [_ Hr1]; apply Hr1; by apply elem_of_list_to_set).
      apply subset_size in Hsub. lia. }
    pose proof (parallel_events n (omap (fun id => m !! id) rs)) as Hev. rewrite Hw in Hev. destruct (run_parallel join n _) as [ev res]. cbn in Hev. subst ev.
    cbn [mbind option_bind]. do 3 eexists. split; [done|]. rewrite <- app_assoc. by apply waves_step.
Qed.
End waves.

(** * The test *)

Section validate.
Context `{HO : HashOrder}.
Implicit Types (steps : list SwarmStep) (m : gmap string (TaskNode unit)).

(** [needs steps a b]: some step [a] names [b]. *)
Definition needs steps (a b : string) : Prop := exists s, s ∈ steps /\ st_id s = a /\ b ∈ st_depends_on s.

(** The steps as a task graph; steps of one id together. *)
Definition add_node m (s : SwarmStep) : gmap string (TaskNode unit) :=
  <[st_id s := mkTaskNode tt (default [] (tn_depends_on <$> m !! st_id s) ++ st_depends_on s) Pending]> m.
Definition nodes_of steps : gmap string (TaskNode unit) := foldl add_node ∅ steps.

Lemma add_deps_spec id deps : forall (deg : gmap string Z) adj d, deg !! id = Some d ->
  foldl (add_dep id) (deg, adj) deps = (<[id := d + Z.of_nat (length deps)]> deg, foldl (push_dependent id) adj deps).
Proof.
  induction deps as [|dep deps IH]; intros deg adj d Hd; cbn [foldl length].
  { f_equal. rewrite insert_id; [done|]. by rewrite Z.add_0_r. }
  unfold add_dep at 2. rewrite Hd. change (default 0 (Some d)) with d.
  rewrite (IH _ _ (d + 1)) by apply lookup_insert_eq. f_equal. rewrite insert_insert_eq. f_equal. lia.
Qed.

(** The tables are those of the graph. *)
Record tables_ok steps m (deg : gmap string Z) (adj : gmap string (list string)) : Prop := {
  to_deg : forall id, deg !! id = (fun n => Z.of_nat (length (tn_depends_on n))) <$> m !! id;
  to_rev : reverses m adj;
  to_ids : forall id, is_Some (m !! id) <-> id ∈ st_id <$> steps;
  to_deps : forall id b, (exists n, m !! id = Some n /\ b ∈ tn_depends_on n) <-> needs steps id b
}.

Lemma add_step_ok steps m deg adj s : tables_ok steps m deg adj ->
  tables_ok (steps ++ [s]) (add_node m s) (add_step (deg, adj) s).1 (add_step (deg, adj) s).2.
Proof.
  intros [Hd Hr Hi Hn]. unfold add_step. erewrite add_deps_spec by apply lookup_insert_eq. cbn [fst snd]. rewrite insert_insert_eq.
  set (old := default [] (tn_depends_on <$> m !! st_id s)).
  assert (Hold : default 0 (deg !! st_id s) = Z.of_nat (length old)) by (unfold old; rewrite Hd; by destruct (m !! st_id s)).
  split; unfold add_node; fold old.
  - intros id. rewrite Hold. destruct (decide (id = st_id s)) as [->|Hne]; [|rewrite !lookup_insert_ne by done; apply Hd].
    rewrite !lookup_insert_eq. cbn. rewrite length_app. f_equal. lia.
  - intros c id. rewrite push_dependents_lookup.
    assert (default [] (<[st_id s:=default [] (adj !! st_id s)]> adj !! c) = default [] (adj !! c)) as ->.
    { destruct (decide (c = st_id s)) as [->|Hne]; [by rewrite lookup_insert_eq|by rewrite lookup_insert_ne by done]. }
    destruct (Hr c id) as [H1 H2]. split.
    + intros [H%H1|[-> _]%elem_of_replicate]%elem_of_app; [apply lookup_insert_is_Some; destruct (decide (st_id s = id)); eauto|].
      rewrite lookup_insert_eq. eauto.
    + intros n. rewrite occ_app, occ_replicate. destruct (decide (id = st_id s)) as [->|Hne].
      * rewrite lookup_insert_eq, decide_True by done. intros [= <-]. cbn [tn_depends_on]. rewrite occ_app. f_equal. unfold old.
        destruct (m !! st_id s) as [n|] eqn:E; [by apply H2|]. cbn. destruct (Hr c (st_id s)) as [H3 _].
        apply occ_zero. intros H%H3. rewrite E in H. by destruct H.
      * rewrite lookup_insert_ne, decide_False by done. intros Hn'. rewrite (H2 n Hn'). lia.
  - intros id. rewrite fmap_app, elem_of_app, <- Hi, lookup_insert_is_Some'. cbn. rewrite list_elem_of_singleton. naive_solver.
  - intros id b. unfold needs in *. destruct (decide (id = st_id s)) as [->|Hne].
    + rewrite lookup_insert_eq. setoid_rewrite elem_of_app. setoid_rewrite list_elem_of_singleton. split.
      * intros (n & [= <-] & [H|H]%elem_of_app); [|by exists s; auto]. unfold old in H. destruct (m !! st_id s) as [n|] eqn:E; [|by apply not_elem_of_nil in H].
        destruct (proj1 (Hn (st_id s) b)) as (s' & ? & ? & ?); [by exists n|]. exists s'. auto.
      * intros (s' & [H| ->] & Hid & Hb); eexists; (split; [done|]); cbn; apply elem_of_app; [left|by right].
        destruct (proj2 (Hn (st_id s) b)) as (n & E & Hb'); [by exists s'|]. unfold old. by rewrite E.
    + rewrite lookup_insert_ne by done. rewrite Hn. setoid_rewrite elem_of_app. setoid_rewrite list_elem_of_singleton. naive_solver.
Qed.

Lemma build_ok steps : tables_ok steps (nodes_of steps) (foldl add_step (∅, ∅) steps).1 (foldl add_step (∅, ∅) steps).2.
Proof.
  unfold nodes_of. induction steps as [|s steps IH] using rev_ind.
  - split; cbn; try done.
    + intros c id. split; [by intros ?%not_elem_of_nil|done].
    + intros id. split; [by intros [? ?]|by intros ?%not_elem_of_nil].
    + intros id b. split; [by intros (? & ? & _)|by intros (? & ?%not_elem_of_nil & _)].
  - rewrite !foldl_app. cbn [foldl]. destruct (foldl add_step (∅, ∅) steps) as [deg adj]. by apply add_step_ok.
Qed.

Lemma missing_none steps : missing_dep steps = None <-> forall a b, needs steps a b -> b ∈ st_id <$> steps.
Proof.
  unfold missing_dep, needs. rewrite head_None. split.
  - intros E a b (s & Hs & <- & Hb). destruct (decide (b ∈ st_id <$> steps)) as [|Hn]; [done|]. exfalso.
    apply (not_elem_of_nil (st_id s, b)). rewrite <- E. apply list_elem_of_join. eexists. split; [|by apply list_elem_of_fmap_2].
    apply list_elem_of_fmap. exists b. split; [done|]. by apply list_elem_of_filter.
  - intros H. apply elem_of_nil_inv. intros [a b] (l & Hl & Hin)%list_elem_of_join. apply list_elem_of_fmap in Hin as (s & -> & Hs).
    apply list_elem_of_fmap in Hl as (d & [= -> ->] & Hd). apply list_elem_of_filter in Hd as [Hd Hb]. apply Hd, (H (st_id s)). by exists s.
Qed.

Lemma size_ids (l : list string) : (size (list_to_set l : gset string) <= length l)%nat /\ (size (list_to_set l : gset string) = length l <-> NoDup l).
Proof.
  induction l as [|x l [IH1 IH2]]; [by split; [|split; [constructor|]]|]. cbn [list_to_set length]. destruct (decide (x ∈ l)) as [Hin|Hout].
  - assert (({[x]} : gset string) ∪ list_to_set l = list_to_set l) as -> by set_solver. split; [lia|]. split; [lia|]. by intros [? _]%NoDup_cons.
  - rewrite size_union by set_solver. rewrite size_singleton. split; [lia|]. rewrite NoDup_cons. split; [intros E; split; [done|apply IH2; lia]|].
    intros [_ H%IH2]. lia.
Qed.

Lemma nodes_size steps : size (nodes_of steps) = size (list_to_set (st_id <$> steps) : gset string).
Proof.
  rewrite <- size_dom. f_equal. apply set_eq. intros id. rewrite elem_of_dom, elem_of_list_to_set. apply (build_ok steps).
Qed.

Lemma filter_all {A} (P : A -> Prop) `{!forall x, Decision (P x)} (l : list A) : Forall P l -> filter P l = l.
Proof. induction 1 as [|x l Hx _ IH]; [done|]. by rewrite filter_cons, decide_True, IH. Qed.

Lemma kahn_visits steps : missing_dep steps = None ->
  exists D deg, kahn (S (size (foldl add_step (∅, ∅) steps).1)) (foldl add_step (∅, ∅) steps).2 (foldl add_step (∅, ∅) steps).1
      (initial_queue (foldl add_step (∅, ∅) steps).1) 0 = Some (length D) /\ kahn_inv (nodes_of steps) D deg [].
Proof.
  intros Hm. destruct (build_ok steps) as [Hd Hr Hi Hn]. destruct (foldl add_step (∅, ∅) steps) as [deg adj]. cbn [fst snd] in *.
  assert (deg = in_degrees (nodes_of steps)) as ->.
  { apply map_eq. intros id. rewrite Hd. unfold in_degrees. rewrite lookup_fmap. destruct (nodes_of steps !! id) as [n|] eqn:E; [|done].
    cbn. do 3 f_equal. symmetry. apply filter_all. apply Forall_forall. intros b Hb. apply Hi. apply (proj1 (missing_none steps) Hm id), Hn. eauto. }
  destruct (kahn_runs (nodes_of steps) adj (S (size (in_degrees (nodes_of steps)))) [] (in_degrees (nodes_of steps)) (initial_queue (in_degrees (nodes_of steps))))
    as (D & deg' & Hrun & Hinv); [done|apply kahn_init|unfold in_degrees; rewrite map_size_fmap; cbn; lia|]. by exists D, deg'.
Qed.

Lemma dep_needs steps a b : missing_dep steps = None -> dep (nodes_of steps) a b <-> needs steps a b.
Proof.
  intros Hm. destruct (build_ok steps) as [_ _ Hi Hn]. unfold dep. rewrite <- Hn. split; [naive_solver|].
  intros (n & E & Hb). exists n. split_and!; [done|done|]. apply Hi, (proj1 (missing_none steps) Hm a), Hn. eauto.
Qed.

Lemma tc_iff {A} (R1 R2 : relation A) : (forall a b, R1 a b <-> R2 a b) -> forall a b, tc R1 a b <-> tc R2 a b.
Proof.
  intros H a b. split; (induction 1 as [x y Hxy|x y z Hxy _ IH]; [apply tc_once; by apply H|eapply tc_l; [by apply H|done]]).
Qed.

(** The test for cycles is exact.  [validate_dag] accepts a swarm exactly when its steps have
    ids of their own, every dependency names a step, and no step depends on itself, directly
    or through others. *)
Theorem validate_dag_exact steps : validate_dag steps = Ok tt <->
  NoDup (st_id <$> steps) /\ (forall a b, needs steps a b -> b ∈ st_id <$> steps) /\ forall a, ~ tc (needs steps) a a.
Proof.
  unfold validate_dag. rewrite <- missing_none. destruct (missing_dep steps) as [[id b]|] eqn:Hm; [split; [done|by intros (_ & ? & _)]|].
  destruct (kahn_visits steps Hm) as (D & deg & Hk & Hinv). destruct (foldl add_step (∅, ∅) steps) as [deg0 adj]. cbn [fst snd] in Hk. rewrite Hk.
  destruct (kahn_done (nodes_of steps) D deg Hinv) as [Hle Hcyc]. rewrite nodes_size in Hle, Hcyc.
  destruct (size_ids (st_id <$> steps)) as [H1 H2]. rewrite length_fmap in H1, H2.
  setoid_rewrite (tc_iff _ _ (fun a b => dep_needs steps a b Hm)) in Hcyc.
  destruct (length D =? length steps)%nat eqn:E; [apply Nat.eqb_eq in E|apply Nat.eqb_neq in E]; (split; [|]); try done.
  - intros _. split_and!; [apply H2; lia|done|]. intros a Ha. assert (exists a, tc (needs steps) a a) as Hx%Hcyc by eauto. lia.
  - intros (Hnd%H2 & _ & Hac). exfalso. destruct (decide (length D < size (list_to_set (st_id <$> steps) : gset string))%nat) as [Hlt|Hge]; [|lia].
    apply Hcyc in Hlt as [a Ha]. by apply (Hac a).
Qed.

(** Looking a step up by its id. *)
Lemma step_map_lookup steps s : NoDup (st_id <$> steps) -> s ∈ steps -> step_map_of steps !! st_id s = Some s.
Proof.
  unfold step_map_of. induction steps as [|x steps IH] using rev_ind; intros Hnd Hs; [by apply not_elem_of_nil in Hs|].
  rewrite foldl_app. cbn [foldl]. rewrite fmap_app in Hnd. apply NoDup_app in Hnd as (Hnd & Hd & _).
  apply elem_of_app in Hs as [Hs| ->%list_elem_of_singleton]; [|apply lookup_insert_eq].
  rewrite lookup_insert_ne; [by apply IH|]. intros E. apply (Hd (st_id s)); [by apply list_elem_of_fmap_2|rewrite <- E; left].
Qed.
End validate.

Section runs.
Context {Exit : Type} (join : nat -> SwarmStep -> option Exit) `{HO : HashOrder}.
Implicit Types steps : list SwarmStep.

(** C34: A swarm that passes the test runs as a whole.  Whatever its processes answer, the waves
    end with nothing left over: every step is started exactly once, and only after every step
    it depends on was waited for. *)
Theorem swarm_runs_in_order steps : validate_dag steps = Ok tt ->
  exists events results, run_dag join steps = Some (events, results, ∅) /\
    NoDup (starts events) /\ (forall id, id ∈ starts events <-> id ∈ st_id <$> steps) /\
    (forall id, id ∈ starts events -> Joined id ∈ events) /\
    (forall e1 e2 s dep, s ∈ steps -> dep ∈ st_depends_on s -> events = e1 ++ Started (st_id s) :: e2 -> Joined dep ∈ e1).
Proof.
  intros (Hnd & Hex & Hac)%validate_dag_exact. unfold run_dag. destruct (step_map_ok steps) as [Hids Hdom].
  destruct (run_waves_spec join (step_map_of steps) (S (size (step_map_of steps))) Hids 0 (dom (step_map_of steps)) ∅)
    as (events & results & rest & E & [L O R J A S]); [done|rewrite size_dom; lia|].
  rewrite Hdom in L, R. setoid_rewrite elem_of_list_to_set in R.
  assert (rest = ∅) as ->.
  { apply set_eq. intros x. split; [|by intros ?%elem_of_empty]. intros Hx. exfalso.
    destruct (no_sink_cycle (needs steps) (elements rest) x) as (z & _ & Hz); [by apply elem_of_elements| |by apply (Hac z)].
    intros y Hy%elem_of_elements. destruct (S y Hy) as (s & b & Hs & Hb & _ & Hn). exists b.
    assert (needs steps y b) as Hyb.
    { exists s. split_and!; [|by eapply Hids|done]. pose proof Hy as Hy'. apply L, elem_of_list_to_set, list_elem_of_fmap in Hy' as (s' & -> & Hs').
      rewrite step_map_lookup in Hs by done. by simplify_eq. }
    split; [|done]. apply elem_of_elements. destruct (decide (b ∈ rest)); [done|]. exfalso. apply Hn, R. split; [by eapply Hex|done]. }
  exists events, results. split_and!; [done|done| | |].
  - intros id. rewrite R. set_solver.
  - intros id. apply J.
  - intros e1 e2 s b Hs Hb He. destruct (A e1 (st_id s) e2 s b He) as [H|H]; [by apply step_map_lookup|done|by apply elem_of_empty in H|done].
Qed.
End runs.

(** * A swarm *)

Module SwarmWitness.
#[local] Existing Instance map_to_list_order.
Definition step (id : string) (deps : list string) : SwarmStep := mkSwarmStep id (mkAgentAdapterConfig id "test" None None [] None None) deps.
(** The second process to be started cannot be joined. *)
Definition exits (n : nat) (s : SwarmStep) : option string := if (n =? 1)%nat then None else Some (st_id s).
Definition diamond : list SwarmStep := [step "D" ["B"; "C"]; step "B" ["A"]; step "C" ["A"]; step "A" []].

Lemma swarm_runs_in_order_witness : exists events results, run_dag exits diamond = Some (events, results, ∅) /\ NoDup (starts events) /\
  (fun r => sr_step_id r) <$> results = ["A"; "B"; "D"].
Proof.
  destruct (swarm_runs_in_order exits diamond) as (events & results & E & Hnd & _); [vm_compute; reflexivity|].
  exists events, results. split; [exact E|]. split; [exact Hnd|].
  enough (((fun r => sr_step_id r) <$> (default ([], [], ∅) (run_dag exits diamond)).1.2) = ["A"; "B"; "D"]) as H by (rewrite E in H; exact H).
  vm_compute. reflexivity.
Defined.

(** Two steps of one id are reported as a cycle. *)
Lemma twins_are_a_cycle : validate_dag [step "A" []; step "A" []] = Err "DAG contains a cycle".
Proof. vm_compute. reflexivity. Qed.

(** A step goes on although the one it depends on could not be joined. *)
Lemma failure_is_passed_over : forall events results rest, run_dag (Exit := string) (fun _ s => if decide (st_id s = "A") then None else Some "done")
  [step "A" []; step "B" ["A"]] = Some (events, results, rest) -> Started "B" ∈ events.
Proof. intros events results rest E. vm_compute in E. injection E as <- _ _. do 2 right. left. Qed.

(** Nothing tests a swarm before it runs: with a cycle the waves stop, and the steps that are
    left are only logged. *)
Lemma cycle_is_left_over : (fun r => r.2) <$> run_dag exits [step "A" ["B"]; step "B" ["A"]; step "C" []] = Some {["A"; "B"]}.
Proof. vm_compute. reflexivity. Qed.
End SwarmWitness.
