(* ===== verification/BeamTerm.v ===== *)
(** Terms of the BEAM emulator: 64-bit words with a three-bit primary tag
    ([term/value/]), in the release profile: [debug_assert!] is compiled out, the box
    header has no guard word and the special tag for opcodes does not exist.

    The constructors, recognisers and accessors are those of the source; [shape] is the
    reference: what the words are meant to be. *)
From S2P Require Import Prelude.

(** * Words

    [usize] and [isize] at 64 bits.  Shifting left drops the bits that leave the word. *)

Definition WORD_BITS : Z := 64.
Definition WORD_BYTES : Z := 8.
Definition WORD_ALIGN_SHIFT : Z := 3.
Definition shl64 (v n : Z) : Z := wrap64 (Z.shiftl v n).
(** [w as isize] and [v as usize]. *)
Definition as_isize (w : Z) : Z := if w <? 2 ^ 63 then w else w - 2 ^ 64.
Definition as_usize (v : Z) : Z := wrap64 v.
(** [v << n] on [isize]. *)
Definition sshl64 (v n : Z) : Z := as_isize (wrap64 (Z.shiftl v n)).
(** [!mask] on [usize]. *)
Definition not64 (m : Z) : Z := u64_max - m.

Definition ISIZE_MIN : Z := - 2 ^ 63.
Definition ISIZE_MAX : Z := 2 ^ 63 - 1.
Definition is_isize (v : Z) : Prop := ISIZE_MIN <= v <= ISIZE_MAX.

(** ** The bit operations as arithmetic *)

Lemma land_high_low (v t n : Z) : 0 <= n -> 0 <= t < 2 ^ n -> Z.land (v * 2 ^ n) t = 0.
Proof.
  intros Hn Ht. apply Z.bits_inj'. intros i Hi. rewrite Z.land_spec, Z.bits_0.
  destruct (Z.ltb_spec i n).
  - by rewrite Z.mul_pow2_bits_low.
  - rewrite <- (Z.mod_small t (2 ^ n)), Z.mod_pow2_bits_high by lia. apply andb_false_r.
Qed.

Lemma lor_high_low (v t n : Z) : 0 <= n -> 0 <= t < 2 ^ n -> Z.lor (v * 2 ^ n) t = v * 2 ^ n + t.
Proof. intros Hn Ht. symmetry. by apply Z.add_nocarry_lor, land_high_low. Qed.

Lemma land_low (w n : Z) : 0 <= n -> Z.land w (2 ^ n - 1) = w mod 2 ^ n.
Proof. intros Hn. rewrite <- Z.land_ones by done. by rewrite Z.ones_equiv, <- Z.sub_1_r. Qed.

Lemma land_not_low (w n : Z) :
  0 <= n <= 64 -> is_u64 w -> Z.land w (not64 (2 ^ n - 1)) = w - w mod 2 ^ n.
Proof.
  unfold not64, is_u64, u64_max. intros Hn Hw.
  assert (Hp : 0 < 2 ^ n) by (apply Z.pow_pos_nonneg; lia).
  assert (Hm : 2 ^ 64 - 1 - (2 ^ n - 1) = Z.shiftl (Z.ones (64 - n)) n).
  { rewrite Z.shiftl_mul_pow2, Z.ones_equiv by lia. rewrite <- Z.sub_1_r, Z.mul_sub_distr_r.
    rewrite <- Z.pow_add_r by lia. replace (64 - n + n) with 64 by lia. lia. }
  rewrite Hm. replace (w - w mod 2 ^ n) with (w / 2 ^ n * 2 ^ n) by (pose proof (Z.div_mod w (2 ^ n)); lia).
  rewrite <- Z.shiftr_div_pow2, <- Z.shiftl_mul_pow2 by lia.
  apply Z.bits_inj'. intros i Hi. rewrite Z.land_spec, !Z.shiftl_spec by done.
  destruct (Z.ltb_spec i n).
  { rewrite (Z.testbit_neg_r (Z.ones _)), andb_false_r, Z.testbit_neg_r by lia. done. }
  rewrite Z.shiftr_spec by lia. replace (i - n + n) with i by lia.
  destruct (Z.ltb_spec i 64).
  - by rewrite Z.ones_spec_low, andb_true_r by lia.
  - rewrite <- (Z.mod_small w (2 ^ 64)), Z.mod_pow2_bits_high by lia. done.
Qed.

Lemma shl64_eq v n : 0 <= n <= 64 -> shl64 v n = v mod 2 ^ (64 - n) * 2 ^ n.
Proof.
  intros Hn. unfold shl64, wrap64. rewrite Z.shiftl_mul_pow2 by lia.
  replace 64 with (64 - n + n) at 1 by lia. rewrite Z.pow_add_r by lia.
  rewrite Z.mul_mod_distr_r; [done | |]; pose proof (Z.pow_pos_nonneg 2 n); pose proof (Z.pow_pos_nonneg 2 (64 - n)); lia.
Qed.

(** * Terms *)

Record Term := from_raw { raw : Z }.

#[export] Instance Term_eq_dec : EqDecision Term.
Proof. solve_decision. Defined.

Definition TAG_BITS : Z := 3.
Definition TAG_MASK : Z := 7.
Definition SMALL_INT : Z := 0.
Definition HEADER : Z := 1.
Definition CONS_PTR : Z := 2.
Definition BOX_PTR : Z := 3.
Definition ATOM : Z := 4.
Definition LOCAL_PID : Z := 5.
Definition LOCAL_PORT : Z := 6.
Definition SPECIAL : Z := 7.

Definition ERL_SMALLEST_SMALLINT : Z := Z.shiftr ISIZE_MIN TAG_BITS.
Definition ERL_LARGEST_SMALLINT : Z := Z.shiftr ISIZE_MAX TAG_BITS.

Definition make_from_tag_and_value (t v : Z) : Term := from_raw (Z.lor (shl64 v TAG_BITS) t).
Definition make_from_tag_and_signed_value (t v : Z) : Term :=
  from_raw (as_usize (Z.lor (sshl64 v TAG_BITS) t)).
Definition get_term_tag (x : Term) : Z := Z.land (raw x) TAG_MASK.
Definition get_term_val_without_tag (x : Term) : Z := Z.shiftr (raw x) TAG_BITS.

Definition is_immediate (x : Term) : bool :=
  negb ((get_term_tag x =? BOX_PTR) || (get_term_tag x =? CONS_PTR) || (get_term_tag x =? HEADER)).
Definition is_header_word (x : Term) : bool := get_term_tag x =? HEADER.
Definition is_atom (x : Term) : bool := get_term_tag x =? ATOM.
Definition is_local_pid (x : Term) : bool := get_term_tag x =? LOCAL_PID.
Definition is_internal_immediate (x : Term) : bool := get_term_tag x =? SPECIAL.
Definition is_local_port (x : Term) : bool := false.
Definition is_external_port (x : Term) : bool := false.
Definition is_local_ref (x : Term) : bool := false.
Definition is_external_ref (x : Term) : bool := false.

Definition make_atom (id : Z) : Term := make_from_tag_and_value ATOM id.
Definition atom_index (x : Term) : Z := get_term_val_without_tag x.
Definition make_local_pid (pindex : Z) : Term := make_from_tag_and_value LOCAL_PID pindex.

(** ** Small integers *)

Definition is_small (x : Term) : bool := get_term_tag x =? SMALL_INT.
Definition make_small_unsigned (v : Z) : Term := make_from_tag_and_value SMALL_INT v.
Definition make_small_signed (v : Z) : Term := make_from_tag_and_signed_value SMALL_INT v.
Definition small_0 : Term := make_from_tag_and_value SMALL_INT 0.
Definition small_1 : Term := make_from_tag_and_value SMALL_INT 1.
Definition small_fits (v : Z) : bool := (ERL_SMALLEST_SMALLINT <=? v) && (v <=? ERL_LARGEST_SMALLINT).
Definition get_small_signed (x : Term) : Z := Z.shiftr (as_isize (raw x)) TAG_BITS.
Definition get_small_unsigned (x : Term) : Z := get_term_val_without_tag x.

(** ** Pointers

    A pointer is the [usize] of its address.  [make_boxed] and [make_cp] assert that it
    is aligned. *)

Definition make_boxed (p : Z) : option Term :=
  if Z.land p TAG_MASK =? 0 then Some (from_raw (Z.lor p BOX_PTR)) else None.
Definition is_boxed (x : Term) : bool := get_term_tag x =? BOX_PTR.
Definition get_box_ptr_unchecked (x : Term) : Z := Z.land (raw x) (not64 TAG_MASK).
Definition get_box_ptr_safe_mut (x : Term) : option Z := if is_boxed x then Some (raw x) else None.

Definition HIGHEST_BIT_CP : Z := Z.shiftl 1 (WORD_BITS - 1).
Definition make_cp (p : Z) : option Term :=
  if Z.land p TAG_MASK =? 0 then make_boxed (Z.lor p HIGHEST_BIT_CP) else None.
Definition is_cp (x : Term) : bool :=
  if negb (is_boxed x) then false else Z.land (raw x) HIGHEST_BIT_CP =? HIGHEST_BIT_CP.
Definition get_cp_ptr (x : Term) : Z := Z.land (get_box_ptr_unchecked x) (HIGHEST_BIT_CP - 1).

Definition non_value : Term := from_raw (Z.lor 0 BOX_PTR).
Definition is_non_value (x : Term) : bool := is_boxed x && (get_box_ptr_unchecked x =? 0).
Definition is_value (x : Term) : bool := negb (is_non_value x).

(** The header word of a box on the heap: its size in words. *)
Definition header_word (storage_size : Z) : Term :=
  from_raw (Z.lor (shl64 storage_size TAG_BITS) HEADER).
Definition headerword_to_storage_size (w : Z) : Z := Z.shiftr w TAG_BITS.

(** ** Special values *)

Definition TERM_SPECIAL_TAG_BITS : Z := 3.
Definition TERM_SPECIAL_TAG_MASK : Z := Z.shiftl 1 TERM_SPECIAL_TAG_BITS - 1.
Definition CONST : Z := 0.
Definition REG : Z := 1.
Definition CATCH : Z := 2.
Definition LOAD_TIME : Z := 4.
Definition EMPTY_TUPLE : Z := 0.
Definition EMPTY_LIST : Z := 1.
Definition EMPTY_BINARY : Z := 2.
Definition EMPTY_MAP : Z := 3.
Definition SUBTAG_BITS : Z := 2.
Definition REG_X : Z := 0.
Definition REG_Y : Z := 1.
Definition REG_FLOAT : Z := 2.
Definition LT_ATOM : Z := 0.
Definition LT_LABEL : Z := 1.
Definition LT_LITERAL : Z := 2.

Definition make_special (special_t val : Z) : Term :=
  make_from_tag_and_value SPECIAL (Z.lor (shl64 val TERM_SPECIAL_TAG_BITS) special_t).
Definition is_special (x : Term) : bool := get_term_tag x =? SPECIAL.
Definition get_special_tag (x : Term) : Z := Z.land (Z.shiftr (raw x) TAG_BITS) TERM_SPECIAL_TAG_MASK.
Definition get_special_value (x : Term) : Z := Z.shiftr (raw x) (TAG_BITS + TERM_SPECIAL_TAG_BITS).
Definition is_special_of_type (x : Term) (t : Z) : bool := is_special x && (get_special_tag x =? t).
Definition special_value_fits (n : Z) : bool :=
  n <? Z.shiftl 1 (WORD_BITS - TAG_BITS - TERM_SPECIAL_TAG_BITS).

Definition nil : Term := make_special CONST EMPTY_LIST.
Definition empty_tuple : Term := make_special CONST EMPTY_TUPLE.
Definition empty_binary : Term := make_special CONST EMPTY_BINARY.
Definition empty_map : Term := make_special CONST EMPTY_MAP.

Definition make_special_register (tag n : Z) : Term :=
  make_special REG (Z.lor (shl64 n SUBTAG_BITS) tag).
Definition make_register_x (n : Z) : Term := make_special_register REG_X n.
Definition make_register_y (n : Z) : Term := make_special_register REG_Y n.
Definition make_register_float (n : Z) : Term := make_special_register REG_FLOAT n.
Definition get_reg_tag (x : Term) : Z := Z.land (get_special_value x) (Z.shiftl 1 SUBTAG_BITS - 1).
Definition get_reg_value (x : Term) : Z := Z.shiftr (get_special_value x) SUBTAG_BITS.
Definition is_register_x (x : Term) : bool := is_special_of_type x REG && (get_reg_tag x =? REG_X).
Definition is_register_y (x : Term) : bool := is_special_of_type x REG && (get_reg_tag x =? REG_Y).
Definition is_register_float (x : Term) : bool := is_special_of_type x REG && (get_reg_tag x =? REG_FLOAT).

Definition make_special_loadtime (tag n : Z) : Term :=
  make_special LOAD_TIME (Z.lor (shl64 n SUBTAG_BITS) tag).
Definition make_loadtime_atom (n : Z) : Term := make_special_loadtime LT_ATOM n.
Definition make_loadtime_label (n : Z) : Term := make_special_loadtime LT_LABEL n.
Definition make_loadtime_literal (n : Z) : Term := make_special_loadtime LT_LITERAL n.
Definition is_loadtime (x : Term) : bool := is_special_of_type x LOAD_TIME.
Definition get_loadtime_val (x : Term) : Z := Z.shiftr (get_special_value x) SUBTAG_BITS.
Definition get_loadtime_tag (x : Term) : Z := Z.land (get_special_value x) (Z.shiftl 1 SUBTAG_BITS - 1).

(** [None] where the assertion fails. *)
Definition make_catch (p : Z) : option Term :=
  if special_value_fits (Z.shiftr p WORD_ALIGN_SHIFT)
  then Some (make_special CATCH (Z.shiftr p WORD_ALIGN_SHIFT)) else None.
Definition is_catch (x : Term) : bool := is_special_of_type x CATCH.
Definition get_catch_ptr (x : Term) : option Z :=
  if is_catch x then Some (shl64 (get_special_value x) WORD_ALIGN_SHIFT) else None.

(** ** Lists and booleans *)

Definition is_cons (x : Term) : bool := get_term_tag x =? CONS_PTR.
Definition is_list (x : Term) : bool := bool_decide (x = nil) || is_cons x.
Definition get_cons_ptr (x : Term) : Z := Z.land (raw x) (not64 TAG_MASK).
Definition make_cons (p : Z) : Term := if p =? 0 then nil else from_raw (Z.lor p CONS_PTR).

(** The ids of [gen_atoms::TRUE] and [gen_atoms::FALSE]. *)
Definition TRUE : Term := make_atom 36.
Definition FALSE : Term := make_atom 19.
Definition make_bool (v : bool) : Term := if v then TRUE else FALSE.
Definition is_true (x : Term) : bool := raw x =? raw TRUE.
Definition is_false (x : Term) : bool := raw x =? raw FALSE.
Definition is_bool (x : Term) : bool := is_true x || is_false x.

(** ** What the accessors compute *)

Definition valid (x : Term) : Prop := is_u64 (raw x).

#[global] Hint Unfold TAG_BITS TAG_MASK SMALL_INT HEADER CONS_PTR BOX_PTR ATOM LOCAL_PID LOCAL_PORT
  SPECIAL TERM_SPECIAL_TAG_BITS CONST REG CATCH LOAD_TIME SUBTAG_BITS WORD_BITS WORD_ALIGN_SHIFT
  WORD_BYTES REG_X REG_Y REG_FLOAT LT_ATOM LT_LABEL LT_LITERAL valid is_u64 u64_max is_isize
  ISIZE_MIN ISIZE_MAX : beam.

Lemma land_tag p : Z.land p TAG_MASK = p mod 8.
Proof. apply (land_low _ 3). lia. Qed.
Lemma tag_eq x : get_term_tag x = raw x mod 8.
Proof. apply land_tag. Qed.
Lemma untag_eq x : get_term_val_without_tag x = raw x / 8.
Proof. by apply Z.shiftr_div_pow2. Qed.
Lemma make_tagged_eq t v : 0 <= t < 8 -> raw (make_from_tag_and_value t v) = v mod 2 ^ 61 * 8 + t.
Proof. intros. cbn [make_from_tag_and_value raw]. rewrite shl64_eq by (autounfold with beam; lia). by rewrite lor_high_low. Qed.
Lemma special_tag_eq x : get_special_tag x = raw x / 8 mod 8.
Proof. unfold get_special_tag. rewrite Z.shiftr_div_pow2 by (by vm_compute). apply (land_low _ 3). lia. Qed.
Lemma special_value_eq x : get_special_value x = raw x / 64.
Proof. unfold get_special_value. by rewrite Z.shiftr_div_pow2. Qed.
Lemma make_special_eq t v : 0 <= t < 8 -> raw (make_special t v) = v mod 2 ^ 58 * 64 + t * 8 + 7.
Proof.
  intros. unfold make_special. rewrite make_tagged_eq by (by vm_compute).
  rewrite shl64_eq by (autounfold with beam; lia). autounfold with beam. rewrite lor_high_low by lia.
  change (2 ^ (64 - 3)) with (2 ^ 61). Z.to_euclidean_division_equations. lia.
Qed.
Lemma subtag_low (v : Z) : Z.land v (Z.shiftl 1 SUBTAG_BITS - 1) = v mod 4.
Proof. apply (land_low v 2). lia. Qed.
Lemma make_sub_eq t s n :
  0 <= t < 8 -> 0 <= s < 4 ->
  raw (make_special t (Z.lor (shl64 n SUBTAG_BITS) s)) = n mod 2 ^ 56 * 256 + s * 64 + t * 8 + 7.
Proof.
  intros. rewrite make_special_eq by done. rewrite shl64_eq by (autounfold with beam; lia).
  autounfold with beam. rewrite lor_high_low by lia. change (2 ^ (64 - 2)) with (2 ^ 62).
  Z.to_euclidean_division_equations. lia.
Qed.
Lemma untagged_eq x : valid x -> Z.land (raw x) (not64 TAG_MASK) = raw x - raw x mod 8.
Proof. intros. by apply (land_not_low _ 3). Qed.
Lemma signed_small_eq v : raw (make_small_signed v) = v mod 2 ^ 61 * 8.
Proof.
  unfold make_small_signed, make_from_tag_and_signed_value, sshl64, as_usize, as_isize, wrap64. cbn [raw].
  autounfold with beam. rewrite Z.lor_0_r, Z.shiftl_mul_pow2 by lia.
  case_match; zify_bool; Z.to_euclidean_division_equations; lia.
Qed.
Lemma get_small_signed_eq x : get_small_signed x = as_isize (raw x) / 8.
Proof. unfold get_small_signed. by rewrite Z.shiftr_div_pow2. Qed.

(** The tag, and the operand above it, of a word given as a sum. *)
Lemma tagged_word x v t : raw x = v * 8 + t -> 0 <= t < 8 -> get_term_tag x = t /\ get_term_val_without_tag x = v.
Proof. intros E Ht. rewrite tag_eq, untag_eq, E. Z.to_euclidean_division_equations. lia. Qed.

Lemma special_word x v t : raw x = v * 64 + t * 8 + 7 -> 0 <= t < 8 ->
  get_term_tag x = SPECIAL /\ get_special_tag x = t /\ get_special_value x = v.
Proof.
  intros E Ht. rewrite tag_eq, special_tag_eq, special_value_eq, E. autounfold with beam.
  Z.to_euclidean_division_equations. lia.
Qed.

Lemma small_fits_iff v : small_fits v = true <-> - 2 ^ 60 <= v < 2 ^ 60.
Proof.
  unfold small_fits. change ERL_SMALLEST_SMALLINT with (- 2 ^ 60). change ERL_LARGEST_SMALLINT with (2 ^ 60 - 1).
  rewrite andb_true_iff. lia.
Qed.

(** * What a word means

    The shapes of words that the constructors make, and the range of their operands. *)

Inductive shape : Type :=
| SSmall (n : Z) | SHeader (words : Z) | SCons (p : Z) | SBoxed (p : Z) | SCp (p : Z)
| SAtom (i : Z) | SLocalPid (i : Z) | SConst (c : Z) | SRegX (n : Z) | SRegY (n : Z) | SRegFloat (n : Z)
| SCatch (p : Z) | SLtAtom (n : Z) | SLtLabel (n : Z) | SLtLiteral (n : Z).

Definition shape_ok (s : shape) : Prop :=
  match s with
  | SSmall n => - 2 ^ 60 <= n < 2 ^ 60
  | SHeader n | SAtom n | SLocalPid n => 0 <= n < 2 ^ 61
  | SCons p => 0 < p < 2 ^ 64 /\ p mod 8 = 0
  | SBoxed p | SCp p => 0 <= p < 2 ^ 63 /\ p mod 8 = 0
  | SConst c => 0 <= c < 2 ^ 58
  | SRegX n | SRegY n | SRegFloat n | SLtAtom n | SLtLabel n | SLtLiteral n => 0 <= n < 2 ^ 56
  | SCatch p => 0 <= p < 2 ^ 61 /\ p mod 8 = 0
  end.

(** The constructor of each shape. *)
Definition encode (s : shape) : option Term :=
  match s with
  | SSmall n => Some (make_small_signed n)
  | SHeader n => Some (header_word n)
  | SCons p => Some (make_cons p)
  | SBoxed p => make_boxed p
  | SCp p => make_cp p
  | SAtom i => Some (make_atom i)
  | SLocalPid i => Some (make_local_pid i)
  | SConst c => Some (make_special CONST c)
  | SRegX n => Some (make_register_x n)
  | SRegY n => Some (make_register_y n)
  | SRegFloat n => Some (make_register_float n)
  | SCatch p => make_catch p
  | SLtAtom n => Some (make_loadtime_atom n)
  | SLtLabel n => Some (make_loadtime_label n)
  | SLtLiteral n => Some (make_loadtime_literal n)
  end.

(** The recognisers, one per shape, each with its accessor. *)
Definition readings (x : Term) : list (bool * option shape) :=
  [ (is_small x, Some (SSmall (get_small_signed x)));
    (is_header_word x, Some (SHeader (headerword_to_storage_size (raw x))));
    (is_cons x, Some (SCons (get_cons_ptr x)));
    (is_boxed x && negb (is_cp x), Some (SBoxed (get_box_ptr_unchecked x)));
    (is_cp x, Some (SCp (get_cp_ptr x)));
    (is_atom x, Some (SAtom (atom_index x)));
    (is_local_pid x, Some (SLocalPid (get_term_val_without_tag x)));
    (is_special_of_type x CONST, Some (SConst (get_special_value x)));
    (is_register_x x, Some (SRegX (get_reg_value x)));
    (is_register_y x, Some (SRegY (get_reg_value x)));
    (is_register_float x, Some (SRegFloat (get_reg_value x)));
    (is_catch x, SCatch <$> get_catch_ptr x);
    (is_loadtime x && (get_loadtime_tag x =? LT_ATOM), Some (SLtAtom (get_loadtime_val x)));
    (is_loadtime x && (get_loadtime_tag x =? LT_LABEL), Some (SLtLabel (get_loadtime_val x)));
    (is_loadtime x && (get_loadtime_tag x =? LT_LITERAL), Some (SLtLiteral (get_loadtime_val x))) ].

(** All the recognisers that accept a word, with what they read. *)
Definition readings_of (x : Term) : list (option shape) := (List.filter fst (readings x)).*2.

(** Words no constructor makes: port identifiers, a tagged null cons, and the special
    tags and sub-tags without a meaning. *)
Definition unassigned (x : Term) : bool :=
  (get_term_tag x =? LOCAL_PORT) || (raw x =? CONS_PTR)
  || (is_special x
      && ((get_special_tag x =? 3) || (LOAD_TIME <? get_special_tag x)
          || (is_special_of_type x REG && (get_reg_tag x =? 3))
          || (is_loadtime x && (get_loadtime_tag x =? 3)))).

(** ** Every recogniser at a word of a known tag *)

Lemma is_cp_eq x : valid x -> get_term_tag x = BOX_PTR -> is_cp x = (2 ^ 63 <=? raw x).
Proof.
  intros Hv Ht. unfold is_cp, is_boxed. rewrite Ht. cbn [Z.eqb negb].
  change HIGHEST_BIT_CP with (2 ^ 63).
  assert (Z.land (raw x) (2 ^ 63) = if 2 ^ 63 <=? raw x then 2 ^ 63 else 0) as ->.
  2: { destruct (2 ^ 63 <=? raw x); reflexivity. }
  unfold valid, is_u64, u64_max in Hv.
  case_match; zify_bool.
  - replace (raw x) with (1 * 2 ^ 63 + (raw x - 2 ^ 63)) by lia.
    rewrite <- lor_high_low by lia. rewrite Z.land_lor_distr_l, (Z.land_comm (raw x - _)).
    assert (Z.land (2 ^ 63) (raw x - 2 ^ 63) = 0) as -> by (apply (land_high_low 1 _ 63); lia).
    reflexivity.
  - rewrite Z.land_comm. apply (land_high_low 1 _ 63); lia.
Qed.

Lemma cp_ptr_eq x : valid x -> 2 ^ 63 <= raw x -> get_cp_ptr x = raw x - raw x mod 8 - 2 ^ 63.
Proof.
  intros Hv Hc. unfold get_cp_ptr, get_box_ptr_unchecked. rewrite untagged_eq by done.
  change HIGHEST_BIT_CP with (2 ^ 63). rewrite (land_low _ 63) by lia.
  autounfold with beam in Hv. Z.to_euclidean_division_equations. lia.
Qed.

Lemma catch_ptr_eq x : valid x -> is_catch x = true -> get_catch_ptr x = Some (raw x / 64 * 8).
Proof.
  intros Hv Hc. unfold get_catch_ptr. rewrite Hc, special_value_eq, shl64_eq by (autounfold with beam; lia).
  f_equal. autounfold with beam in *. change (2 ^ (64 - 3)) with (2 ^ 61). Z.to_euclidean_division_equations. lia.
Qed.

(** [H] gives the tag of a word; everything else is computed. *)
Ltac read_word H :=
  unfold readings_of, readings, is_small, is_header_word, is_cons, is_boxed, is_cp, is_boxed, is_atom,
    is_local_pid, is_register_x, is_register_y, is_register_float, is_catch, is_loadtime,
    is_special_of_type, is_special, atom_index;
  rewrite H; reflexivity.

Lemma readings_small x : get_term_tag x = SMALL_INT -> readings_of x = [Some (SSmall (get_small_signed x))].
Proof. intros H. read_word H. Qed.
Lemma readings_header x : get_term_tag x = HEADER -> readings_of x = [Some (SHeader (headerword_to_storage_size (raw x)))].
Proof. intros H. read_word H. Qed.
Lemma readings_cons x : get_term_tag x = CONS_PTR -> readings_of x = [Some (SCons (get_cons_ptr x))].
Proof. intros H. read_word H. Qed.
Lemma readings_atom x : get_term_tag x = ATOM -> readings_of x = [Some (SAtom (atom_index x))].
Proof. intros H. read_word H. Qed.
Lemma readings_pid x : get_term_tag x = LOCAL_PID -> readings_of x = [Some (SLocalPid (get_term_val_without_tag x))].
Proof. intros H. read_word H. Qed.

Lemma readings_box x : valid x -> get_term_tag x = BOX_PTR ->
  readings_of x = [Some (if 2 ^ 63 <=? raw x then SCp (get_cp_ptr x) else SBoxed (get_box_ptr_unchecked x))].
Proof.
  intros Hv H. pose proof (is_cp_eq _ Hv H) as Hc. unfold readings_of, readings, is_small, is_header_word, is_cons, is_boxed.
  rewrite Hc. unfold is_atom, is_local_pid, is_register_x, is_register_y, is_register_float, is_catch, is_loadtime,
    is_special_of_type, is_special. rewrite H. destruct (2 ^ 63 <=? raw x); reflexivity.
Qed.

Lemma readings_special x t : get_term_tag x = SPECIAL -> get_special_tag x = t ->
  readings_of x =
    if t =? CONST then [Some (SConst (get_special_value x))]
    else if t =? CATCH then [SCatch <$> get_catch_ptr x]
    else if t =? REG then
      (if get_reg_tag x =? REG_X then [Some (SRegX (get_reg_value x))]
       else if get_reg_tag x =? REG_Y then [Some (SRegY (get_reg_value x))]
       else if get_reg_tag x =? REG_FLOAT then [Some (SRegFloat (get_reg_value x))] else [])
    else if t =? LOAD_TIME then
      (if get_loadtime_tag x =? LT_ATOM then [Some (SLtAtom (get_loadtime_val x))]
       else if get_loadtime_tag x =? LT_LABEL then [Some (SLtLabel (get_loadtime_val x))]
       else if get_loadtime_tag x =? LT_LITERAL then [Some (SLtLiteral (get_loadtime_val x))] else [])
    else [].
Proof.
  intros H Hs. unfold readings_of, readings, is_small, is_header_word, is_cons, is_boxed, is_cp, is_boxed, is_atom,
    is_local_pid, is_register_x, is_register_y, is_register_float, is_catch, is_loadtime,
    is_special_of_type, is_special. rewrite H, Hs. clear. autounfold with beam. cbn [Z.eqb Pos.eqb andb negb].
  repeat match goal with |- context [?a =? ?b] => destruct (Z.eqb_spec a b); subst; try lia end; reflexivity.
Qed.

(** ** Reading back what a constructor made *)

(** Uses of [tagged_word] and [special_word] at a word whose raw value [E] computes. *)
Ltac word_is E v t := destruct (tagged_word _ v t E) as [?Ht ?Hv]; [autounfold with beam; lia|].
Ltac special_is E v t := destruct (special_word _ v t E) as (?Ht & ?Hs & ?Hv); [autounfold with beam; lia|].

Lemma aligned_lor p t : p mod 8 = 0 -> 0 <= t < 8 -> Z.lor p t = p / 8 * 8 + t.
Proof.
  intros Hp Ht. assert (p = p / 8 * 8) as -> by (Z.to_euclidean_division_equations; lia).
  rewrite Z.div_mul by lia. by apply (lor_high_low _ _ 3).
Qed.

Lemma subtag_fields x n s t :
  raw x = n * 256 + s * 64 + t * 8 + 7 -> 0 <= t < 8 -> 0 <= s < 4 ->
  get_term_tag x = SPECIAL /\ get_special_tag x = t /\
  get_reg_tag x = s /\ get_reg_value x = n /\ get_loadtime_tag x = s /\ get_loadtime_val x = n.
Proof.
  intros E Ht Hs. destruct (special_word x (n * 4 + s) t) as (? & ? & Hv); [lia | lia |].
  unfold get_reg_tag, get_reg_value, get_loadtime_tag, get_loadtime_val. rewrite Hv, !subtag_low.
  rewrite !Z.shiftr_div_pow2 by (by vm_compute). repeat split; try done;
    autounfold with beam; Z.to_euclidean_division_equations; lia.
Qed.

Lemma small_reads n : - 2 ^ 60 <= n < 2 ^ 60 ->
  valid (make_small_signed n) /\ get_term_tag (make_small_signed n) = SMALL_INT
  /\ get_small_signed (make_small_signed n) = n.
Proof.
  intros Hn. pose proof (signed_small_eq n) as E. rewrite tag_eq, get_small_signed_eq. unfold valid, as_isize. rewrite E.
  autounfold with beam. case_match; zify_bool; Z.to_euclidean_division_equations; lia.
Qed.

Lemma tagged_reads t n : 0 <= t < 8 -> 0 <= n < 2 ^ 61 ->
  valid (make_from_tag_and_value t n) /\ get_term_tag (make_from_tag_and_value t n) = t
  /\ get_term_val_without_tag (make_from_tag_and_value t n) = n.
Proof.
  intros Ht Hn. pose proof (make_tagged_eq t n Ht) as E. rewrite Z.mod_small in E by lia.
  word_is E n t. split; [|done]. unfold valid. rewrite E. autounfold with beam. lia.
Qed.

Lemma cons_reads p : 0 < p < 2 ^ 64 -> p mod 8 = 0 ->
  valid (make_cons p) /\ get_term_tag (make_cons p) = CONS_PTR /\ get_cons_ptr (make_cons p) = p
  /\ raw (make_cons p) <> CONS_PTR.
Proof.
  intros Hp Ha. unfold make_cons. rewrite (proj2 (Z.eqb_neq p 0)) by lia.
  rewrite aligned_lor by (autounfold with beam; lia). rewrite tag_eq. unfold get_cons_ptr.
  assert (valid (from_raw (p / 8 * 8 + CONS_PTR))) as Hv
    by (autounfold with beam; cbn [raw]; Z.to_euclidean_division_equations; lia).
  rewrite untagged_eq by done. split; [done|]. cbn [raw]. autounfold with beam. Z.to_euclidean_division_equations. lia.
Qed.

Lemma boxed_reads p : 0 <= p < 2 ^ 64 -> p mod 8 = 0 ->
  exists x, make_boxed p = Some x /\ raw x = p + 3 /\ valid x /\ get_term_tag x = BOX_PTR
  /\ get_box_ptr_unchecked x = p.
Proof.
  intros Hp Ha. unfold make_boxed. rewrite land_tag, Ha, aligned_lor by (autounfold with beam; lia).
  eexists. split; [done|]. rewrite tag_eq. unfold get_box_ptr_unchecked.
  assert (valid (from_raw (p / 8 * 8 + BOX_PTR))) as Hv
    by (autounfold with beam; cbn [raw]; Z.to_euclidean_division_equations; lia).
  rewrite untagged_eq by done. cbn [raw] in *. autounfold with beam in *. Z.to_euclidean_division_equations. lia.
Qed.

Lemma cp_reads p : 0 <= p < 2 ^ 63 -> p mod 8 = 0 ->
  exists x, make_cp p = Some x /\ raw x = p + 2 ^ 63 + 3 /\ valid x /\ get_term_tag x = BOX_PTR
  /\ get_cp_ptr x = p.
Proof.
  intros Hp Ha. unfold make_cp. rewrite land_tag, Ha. cbn [Z.eqb].
  change HIGHEST_BIT_CP with (1 * 2 ^ 63). rewrite Z.lor_comm, lor_high_low by lia.
  destruct (boxed_reads (1 * 2 ^ 63 + p)) as (x & E & Er & Hv & Ht & _);
    [lia | Z.to_euclidean_division_equations; lia |].
  exists x. rewrite cp_ptr_eq by (done || lia). split; [done|]. split; [lia|]. split; [done|]. split; [done|].
  rewrite Er. Z.to_euclidean_division_equations. lia.
Qed.

Lemma catch_reads p : 0 <= p < 2 ^ 61 -> p mod 8 = 0 ->
  exists x, make_catch p = Some x /\ valid x /\ get_term_tag x = SPECIAL /\ get_special_tag x = CATCH
  /\ get_catch_ptr x = Some p.
Proof.
  intros Hp Ha. unfold make_catch. rewrite Z.shiftr_div_pow2 by (by vm_compute).
  change (2 ^ WORD_ALIGN_SHIFT) with 8. unfold special_value_fits.
  change (Z.shiftl 1 _) with (2 ^ 58). case_match; zify_bool; [|Z.to_euclidean_division_equations; lia].
  eexists. split; [done|]. pose proof (make_special_eq CATCH (p / 8) ltac:(by vm_compute)) as E.
  rewrite Z.mod_small in E by (Z.to_euclidean_division_equations; lia).
  special_is E (p / 8) CATCH.
  assert (valid (make_special CATCH (p / 8))) as V.
  { unfold valid. rewrite E. autounfold with beam. Z.to_euclidean_division_equations. lia. }
  split_and!; [done..|]. rewrite catch_ptr_eq; [|done|].
  - rewrite E. f_equal. autounfold with beam. Z.to_euclidean_division_equations. lia.
  - unfold is_catch, is_special_of_type, is_special. by rewrite Ht, Hs.
Qed.

Lemma special_reads t n : 0 <= t < 8 -> 0 <= n < 2 ^ 58 ->
  valid (make_special t n) /\ get_term_tag (make_special t n) = SPECIAL
  /\ get_special_tag (make_special t n) = t /\ get_special_value (make_special t n) = n.
Proof.
  intros Ht Hn. pose proof (make_special_eq t n Ht) as E. rewrite Z.mod_small in E by lia.
  special_is E n t. split; [|done]. unfold valid. rewrite E. autounfold with beam. lia.
Qed.

Lemma sub_reads t s n : 0 <= t < 8 -> 0 <= s < 4 -> 0 <= n < 2 ^ 56 ->
  let x := make_special t (Z.lor (shl64 n SUBTAG_BITS) s) in
  valid x /\ get_term_tag x = SPECIAL /\ get_special_tag x = t /\
  get_reg_tag x = s /\ get_reg_value x = n /\ get_loadtime_tag x = s /\ get_loadtime_val x = n.
Proof.
  intros Ht Hs Hn x. subst x. pose proof (make_sub_eq t s n Ht Hs) as E. rewrite Z.mod_small in E by lia.
  split; [|by apply subtag_fields]. unfold valid. rewrite E. autounfold with beam. lia.
Qed.

(** A word of a primary tag that is neither special, nor a port, nor a null cons. *)
Lemma assigned_simple x t : get_term_tag x = t -> t <> LOCAL_PORT -> t <> SPECIAL -> raw x <> CONS_PTR ->
  unassigned x = false.
Proof.
  intros Ht H1 H2 H3. unfold unassigned, is_special. rewrite Ht.
  rewrite (proj2 (Z.eqb_neq t LOCAL_PORT)), (proj2 (Z.eqb_neq t SPECIAL)), (proj2 (Z.eqb_neq (raw x) CONS_PTR)) by done.
  done.
Qed.

Lemma tag_not_null_cons x t : get_term_tag x = t -> t <> CONS_PTR -> raw x <> CONS_PTR.
Proof. intros Ht Hc E. rewrite tag_eq, E in Ht. by apply Hc. Qed.

Lemma assigned_special x t : get_term_tag x = SPECIAL -> get_special_tag x = t ->
  (t = CONST \/ t = CATCH \/ (t = REG /\ get_reg_tag x <> 3) \/ (t = LOAD_TIME /\ get_loadtime_tag x <> 3)) ->
  unassigned x = false.
Proof.
  intros Ht Hs H. assert (raw x <> CONS_PTR) as Hn by (by apply (tag_not_null_cons _ SPECIAL)).
  unfold unassigned, is_loadtime, is_special_of_type, is_special. rewrite Ht, Hs, (proj2 (Z.eqb_neq (raw x) _)) by done.
  destruct H as [-> | [-> | [[-> H] | [-> H]]]]; [done | done | |]; apply Z.eqb_neq in H; rewrite H; done.
Qed.

(** The word [x] reads as [s] and as nothing else. *)
Definition reads_as (x : Term) (s : shape) : Prop :=
  valid x /\ unassigned x = false /\ readings_of x = [Some s].

Lemma simple_reads_as x t s :
  valid x -> get_term_tag x = t -> t <> LOCAL_PORT -> t <> SPECIAL -> raw x <> CONS_PTR ->
  readings_of x = [Some s] -> reads_as x s.
Proof. unfold reads_as. eauto using assigned_simple. Qed.

Lemma tagged_reads_as t n s : 0 <= n < 2 ^ 61 ->
  (t = HEADER /\ s = SHeader n) \/ (t = ATOM /\ s = SAtom n) \/ (t = LOCAL_PID /\ s = SLocalPid n) ->
  reads_as (make_from_tag_and_value t n) s.
Proof.
  intros Hn H. assert (0 <= t < 8 /\ t <> LOCAL_PORT /\ t <> SPECIAL /\ t <> CONS_PTR) as (Ht & ? & ? & ?)
    by (autounfold with beam in *; intuition lia).
  destruct (tagged_reads t n Ht Hn) as (V & Et & Ev).
  eapply simple_reads_as; try done; [by apply (tag_not_null_cons _ _ Et)|].
  destruct H as [[-> ->] | [[-> ->] | [-> ->]]].
  - rewrite readings_header by done. do 3 f_equal. exact Ev.
  - rewrite readings_atom by done. do 3 f_equal. exact Ev.
  - rewrite readings_pid by done. do 3 f_equal. exact Ev.
Qed.

Lemma sub_reads_as t k n s : 0 <= n < 2 ^ 56 ->
  (t = REG /\ (k = REG_X /\ s = SRegX n \/ k = REG_Y /\ s = SRegY n \/ k = REG_FLOAT /\ s = SRegFloat n)) \/
  (t = LOAD_TIME /\ (k = LT_ATOM /\ s = SLtAtom n \/ k = LT_LABEL /\ s = SLtLabel n \/ k = LT_LITERAL /\ s = SLtLiteral n)) ->
  reads_as (make_special t (Z.lor (shl64 n SUBTAG_BITS) k)) s.
Proof.
  intros Hn H. assert (0 <= t < 8 /\ 0 <= k < 3) as [Ht Hk] by (autounfold with beam in *; intuition lia).
  destruct (sub_reads t k n Ht ltac:(lia) Hn) as (V & Et & Es & Er & En & El & Em). split; [done|]. split.
  - apply (assigned_special _ _ Et Es). rewrite Er, El. autounfold with beam in *. intuition lia.
  - rewrite (readings_special _ _ Et Es), Er, En, El, Em.
    destruct H as [[-> [[-> ->] | [[-> ->] | [-> ->]]]] | [-> [[-> ->] | [[-> ->] | [-> ->]]]]]; done.
Qed.

Lemma small_reads_as n : - 2 ^ 60 <= n < 2 ^ 60 -> reads_as (make_small_signed n) (SSmall n).
Proof.
  intros Hn. destruct (small_reads n Hn) as (V & Ht & E).
  eapply simple_reads_as; try done; [by apply (tag_not_null_cons _ _ Ht)|]. by rewrite readings_small, E.
Qed.

Lemma box_reads_as x p : valid x -> get_term_tag x = BOX_PTR ->
  (raw x < 2 ^ 63 /\ get_box_ptr_unchecked x = p -> reads_as x (SBoxed p)) /\
  (2 ^ 63 <= raw x /\ get_cp_ptr x = p -> reads_as x (SCp p)).
Proof.
  intros V Ht. split; intros [Hr E]; (eapply simple_reads_as; [done | done | done | done | by apply (tag_not_null_cons _ _ Ht) |]);
    rewrite readings_box, E by done; [rewrite (proj2 (Z.leb_gt _ _)) by lia | rewrite (proj2 (Z.leb_le _ _)) by lia]; done.
Qed.

Lemma shape_reads_as s : shape_ok s -> exists x, encode s = Some x /\ reads_as x s.
Proof.
  destruct s as [n|n|p|p|p|n|n|n|n|n|n|p|n|n|n]; cbn [shape_ok encode]; intros H.
  - eauto using small_reads_as.
  - eexists. split; [done|]. apply (tagged_reads_as HEADER n); auto 8.
  - destruct H as [Hp Ha]. destruct (cons_reads p Hp Ha) as (V & Ht & E & Hn). eexists. split; [done|].
    eapply simple_reads_as; try done. by rewrite readings_cons, E.
  - destruct H as [Hp Ha]. destruct (boxed_reads p) as (x & E & Er & V & Ht & Ep); [lia | done |]. exists x. split; [done|].
    apply box_reads_as; try done. split; [|done]. rewrite Er. Z.to_euclidean_division_equations. lia.
  - destruct H as [Hp Ha]. destruct (cp_reads p Hp Ha) as (x & E & Er & V & Ht & Ep). exists x. split; [done|].
    apply box_reads_as; try done. split; [lia | done].
  - eexists. split; [done|]. apply (tagged_reads_as ATOM n); auto 8.
  - eexists. split; [done|]. apply (tagged_reads_as LOCAL_PID n); auto 8.
  - destruct (special_reads CONST n) as (V & Ht & Hs & E); [done | done |]. eexists. split; [done|].
    split; [done|]. split; [apply (assigned_special _ _ Ht Hs); auto | by rewrite (readings_special _ _ Ht Hs), E].
  - eexists. split; [done|]. apply (sub_reads_as REG REG_X n); auto 8.
  - eexists. split; [done|]. apply (sub_reads_as REG REG_Y n); auto 8.
  - eexists. split; [done|]. apply (sub_reads_as REG REG_FLOAT n); auto 8.
  - destruct H as [Hp Ha]. destruct (catch_reads p Hp Ha) as (x & E & V & Ht & Hs & Ep). exists x. split; [done|].
    split; [done|]. split; [apply (assigned_special _ _ Ht Hs); auto | by rewrite (readings_special _ _ Ht Hs), Ep].
  - eexists. split; [done|]. apply (sub_reads_as LOAD_TIME LT_ATOM n); auto 8.
  - eexists. split; [done|]. apply (sub_reads_as LOAD_TIME LT_LABEL n); auto 8.
  - eexists. split; [done|]. apply (sub_reads_as LOAD_TIME LT_LITERAL n); auto 8.
Qed.

(** ** Every word has a shape *)

Lemma word_parts x : valid x -> exists v t, raw x = v * 8 + t /\ 0 <= t < 8 /\ 0 <= v < 2 ^ 61 /\ get_term_tag x = t.
Proof.
  intros V. exists (raw x / 8), (raw x mod 8). rewrite tag_eq. autounfold with beam in V.
  Z.to_euclidean_division_equations. lia.
Qed.

Lemma term_eq x y : raw x = raw y -> x = y.
Proof. destruct x, y. cbn. congruence. Qed.

Lemma word_special x : valid x -> get_term_tag x = SPECIAL ->
  exists t v, raw x = v * 64 + t * 8 + 7 /\ 0 <= t < 8 /\ 0 <= v < 2 ^ 58 /\ get_special_tag x = t /\ get_special_value x = v.
Proof.
  intros V Ht. exists (raw x / 8 mod 8), (raw x / 64). rewrite special_tag_eq, special_value_eq.
  rewrite tag_eq in Ht. autounfold with beam in *. Z.to_euclidean_division_equations. lia.
Qed.

Lemma encode_sub x t v :
  valid x -> raw x = v * 64 + t * 8 + 7 -> 0 <= t < 8 -> 0 <= v < 2 ^ 58 -> v mod 4 <> 3 -> t = REG \/ t = LOAD_TIME ->
  exists s, shape_ok s /\ encode s = Some x.
Proof.
  intros V E Ht Hv H3 H.
  set (n := v / 4). set (k := v mod 4).
  assert (v = n * 4 + k /\ 0 <= k < 3 /\ 0 <= n < 2 ^ 56) as (Ev & Hk & Hn).
  { subst n k. Z.to_euclidean_division_equations. lia. }
  assert (make_special t (Z.lor (shl64 n SUBTAG_BITS) k) = x) as Ex.
  { apply term_eq. rewrite make_sub_eq, Z.mod_small by lia. lia. }
  clearbody n k. assert (k = 0 \/ k = 1 \/ k = 2) as Hk3 by lia.
  destruct H as [-> | ->]; destruct Hk3 as [-> | [-> | ->]].
  - exists (SRegX n). split; [done|]. cbn [encode]. by f_equal.
  - exists (SRegY n). split; [done|]. cbn [encode]. by f_equal.
  - exists (SRegFloat n). split; [done|]. cbn [encode]. by f_equal.
  - exists (SLtAtom n). split; [done|]. cbn [encode]. by f_equal.
  - exists (SLtLabel n). split; [done|]. cbn [encode]. by f_equal.
  - exists (SLtLiteral n). split; [done|]. cbn [encode]. by f_equal.
Qed.

Lemma encode_special x :
  valid x -> get_term_tag x = SPECIAL -> unassigned x = false -> exists s, shape_ok s /\ encode s = Some x.
Proof.
  intros V Ht Hu. destruct (word_special x V Ht) as (t & v & E & Ht8 & Hv & Hs & Ev).
  unfold unassigned, is_loadtime, is_special_of_type, is_special, get_reg_tag, get_loadtime_tag in Hu.
  rewrite Ht, Hs, Ev, subtag_low in Hu.
  assert (t = CONST \/ t = CATCH \/ ((t = REG \/ t = LOAD_TIME) /\ v mod 4 <> 3)) as [-> | [-> | [H H3]]].
  { autounfold with beam in *. clear - Ht8 Hu. cbn [Z.eqb Pos.eqb andb orb] in Hu.
    repeat (apply orb_false_iff in Hu as [? Hu] || apply andb_false_iff in Hu as [Hu | Hu] || zify_bool); lia. }
  - exists (SConst v). split; [done|]. cbn [encode]. f_equal. apply term_eq. rewrite make_special_eq, Z.mod_small by done. lia.
  - exists (SCatch (v * 8)). split; [cbn; Z.to_euclidean_division_equations; lia|]. cbn [encode]. unfold make_catch.
    rewrite Z.shiftr_div_pow2 by done. change (2 ^ WORD_ALIGN_SHIFT) with 8. rewrite Z.div_mul by done.
    unfold special_value_fits. change (Z.shiftl 1 _) with (2 ^ 58). rewrite (proj2 (Z.ltb_lt _ _)) by lia.
    f_equal. apply term_eq. rewrite make_special_eq, Z.mod_small by done. lia.
  - by apply (encode_sub x t v).
Qed.

Lemma encode_small x : valid x -> get_term_tag x = SMALL_INT ->
  shape_ok (SSmall (get_small_signed x)) /\ make_small_signed (get_small_signed x) = x.
Proof.
  intros V Ht. rewrite tag_eq in Ht. cbn [shape_ok]. split; [|apply term_eq; rewrite signed_small_eq];
    rewrite get_small_signed_eq; unfold as_isize; autounfold with beam in *;
    case_match; zify_bool; Z.to_euclidean_division_equations; lia.
Qed.

Lemma encode_box x : valid x -> get_term_tag x = BOX_PTR -> exists s, shape_ok s /\ encode s = Some x.
Proof.
  intros V Ht. destruct (word_parts x V) as (v & t & E & Ht8 & Hv & Et). rewrite Ht in Et. subst t.
  destruct (Z.ltb_spec (raw x) (2 ^ 63)) as [Hl|Hl].
  - destruct (boxed_reads (v * 8)) as (y & Ey & Er & _); [lia | by rewrite Z.mod_mul|].
    exists (SBoxed (v * 8)). split; [|cbn [encode]; rewrite Ey; f_equal; apply term_eq; rewrite Er, E; done].
    cbn. rewrite Z.mod_mul by done. autounfold with beam in *. lia.
  - destruct (cp_reads (v * 8 - 2 ^ 63)) as (y & Ey & Er & _);
      [autounfold with beam in *; lia | Z.to_euclidean_division_equations; lia |].
    exists (SCp (v * 8 - 2 ^ 63)). split; [cbn; autounfold with beam in *; Z.to_euclidean_division_equations; lia|].
    cbn [encode]. rewrite Ey. f_equal. apply term_eq. rewrite Er, E. autounfold with beam. lia.
Qed.

Lemma encode_tagged t v : 0 <= v < 2 ^ 61 -> 0 <= t < 8 -> t <> SMALL_INT -> t <> BOX_PTR -> t <> SPECIAL -> t <> LOCAL_PORT ->
  (t = CONS_PTR -> v <> 0) ->
  exists s x, shape_ok s /\ encode s = Some x /\ raw x = v * 8 + t.
Proof.
  intros Hv Ht H1 H2 H3 H4 Hc. autounfold with beam in H1, H2, H3, H4, Hc.
  assert (t = 1 \/ t = 2 \/ t = 4 \/ t = 5) as [-> | [-> | [-> | ->]]] by lia.
  - exists (SHeader v), (header_word v). repeat split; try (cbn; lia).
    unfold header_word. fold (make_from_tag_and_value HEADER v). rewrite (make_tagged_eq HEADER), Z.mod_small by done. done.
  - exists (SCons (v * 8)), (make_cons (v * 8)). specialize (Hc eq_refl).
    split; [cbn; rewrite Z.mod_mul by done; lia|]. split; [done|].
    unfold make_cons. rewrite (proj2 (Z.eqb_neq (v * 8) 0)) by lia.
    rewrite aligned_lor by (autounfold with beam; rewrite ?Z.mod_mul; done || lia). by rewrite Z.div_mul.
  - exists (SAtom v), (make_atom v). repeat split; try (cbn; lia).
    unfold make_atom. rewrite (make_tagged_eq ATOM), Z.mod_small by done. done.
  - exists (SLocalPid v), (make_local_pid v). repeat split; try (cbn; lia).
    unfold make_local_pid. rewrite (make_tagged_eq LOCAL_PID), Z.mod_small by done. done.
Qed.

Lemma word_has_shape x : valid x -> unassigned x = false -> exists s, shape_ok s /\ encode s = Some x.
Proof.
  intros V Hu. destruct (word_parts x V) as (v & t & E & Ht8 & Hv & Et).
  destruct (decide (t = SMALL_INT)) as [->|H0].
  { exists (SSmall (get_small_signed x)). destruct (encode_small x V Et) as [? Ex]. split; [done|]. cbn [encode]. by rewrite Ex. }
  destruct (decide (t = BOX_PTR)) as [->|H1]; [by apply encode_box|].
  destruct (decide (t = SPECIAL)) as [->|H2]; [by apply encode_special|].
  unfold unassigned in Hu. apply orb_false_iff in Hu as [Hu _]. apply orb_false_iff in Hu as [Hp Hn].
  rewrite Et in Hp. apply Z.eqb_neq in Hp, Hn.
  destruct (encode_tagged t v) as (s & y & Hs & Es & Ey); try done.
  { intros -> ->. by apply Hn. }
  exists s. split; [done|]. rewrite Es. f_equal. apply term_eq. by rewrite Ey.
Qed.

(** * Properties *)

(** A word has exactly one meaning.  Every 64-bit word outside the unassigned codes is
    made by one constructor from one operand in its range; and at what a constructor makes,
    exactly one of the recognisers answers true (so boxed pointers and continuation
    pointers, registers and load-time indices, never get confused), and its accessor
    returns the operand. *)
Theorem term_shape_unique :
  (forall x, valid x -> unassigned x = false -> exists! s, shape_ok s /\ encode s = Some x) /\
  (forall s, shape_ok s -> exists x, encode s = Some x /\ valid x /\ readings_of x = [Some s]).
Proof.
  split.
  - intros x V Hu. destruct (word_has_shape x V Hu) as (s & Hs & E). exists s. split; [done|].
    intros s' [Hs' E']. destruct (shape_reads_as s Hs) as (y & Ey & _ & _ & Ry).
    destruct (shape_reads_as s' Hs') as (y' & Ey' & _ & _ & Ry'). congruence.
  - intros s Hs. destruct (shape_reads_as s Hs) as (x & E & V & _ & R). eauto.
Qed.

(** Small integers are exact within 61 signed bits, and out of that range the
    constructors truncate without notice: a machine integer reads back as itself exactly
    when [small_fits] accepts it; an unsigned one exactly when it is at most
    [ERL_LARGEST_SMALLINT]. *)
Theorem small_int_exact (v : Z) :
  (is_isize v -> get_small_signed (make_small_signed v) = v <-> small_fits v = true) /\
  (is_u64 v -> get_small_signed (make_small_unsigned v) = v <-> v <= ERL_LARGEST_SMALLINT) /\
  is_small (make_small_signed v) = true /\ is_small (make_small_unsigned v) = true.
Proof.
  rewrite small_fits_iff. change ERL_LARGEST_SMALLINT with (2 ^ 60 - 1).
  pose proof (signed_small_eq v) as Es. pose proof (make_tagged_eq SMALL_INT v ltac:(by vm_compute)) as Eu.
  unfold is_small. rewrite !tag_eq, !get_small_signed_eq. unfold make_small_unsigned, as_isize. rewrite Es, Eu.
  autounfold with beam. split_and!; try (apply Z.eqb_eq; Z.to_euclidean_division_equations; lia);
    intros Hv; case_match; zify_bool; Z.to_euclidean_division_equations; lia.
Qed.
