(* ===== verification/BeamMem.v ===== *)
(** The emulator's memory of boxed values and cons cells ([term/boxed/]), what the
    recognisers of boxed types read from it ([term/value/]), the classes of terms
    ([term/classify.rs]) and the atom table ([emulator/atom.rs]). *)
From S2P Require Import Prelude Float64 BeamTerm.

(** * Outcomes of a computation on raw memory

    [Fail] is an [RtErr]; [Panic] a failed assertion or an unimplemented branch; [Wild] a
    read of memory that holds no such object or a write past the words of an object, where
    Rust's behaviour is undefined; [Spin]
    a computation that did not finish within its fuel. *)

Inductive ExceptionType := ExcPanic | ExcThrow | ExcError | ExcExit.

Inductive ReadError := ReadFailed | PrematureEOF.
Inductive CompactTermError := LiteralTag | AtomTag | XRegTag | YRegTag | LabelTag | CharacterTag | ExtendedTag.

(** The texts that errors carry are left out. *)
Inductive RtErr : Type :=
| BEAMFileNotFound
| ETFParseError
| ReadErr (e : ReadError)
| CodeLoadingFailed
| CodeLoadingCompactTerm (e : CompactTermError)
| NotFound
| ModuleNotFound
| FunctionNotFound
| BifNotFound
| AtomNotExist
| HeapIsFull
| StackIndexRange (index : Z)
| Exception (cls : ExceptionType) (reason : Term)
| TermIsNotABoxed
| BoxedTagCheckFailed
| BoxedIsNotABigint
| BoxedIsNotAClosure
| BoxedIsNotAnExport
| BoxedIsNotAnImport
| BoxedIsNotATuple
| BoxedIsNotAMap
| CreatingZeroSizedBinary
| CreatingZeroSizedSlice
| CannotCopyIntoRefbin
| CannotCopyIntoBinSlice
| HeapBinTooSmall (want have : Z)
| ProcBinTooSmall (want have : Z)
| BinaryDestinationTooSmall
| PasteIntMustBeSmallOrBigint
| PasteIntZeroDstSize.

Inductive vm (A : Type) : Type :=
| Ret (a : A)
| Fail (e : RtErr)
| Panic
| Wild
| Spin.
Arguments Ret {A} a.
Arguments Fail {A} e.
Arguments Panic {A}.
Arguments Wild {A}.
Arguments Spin {A}.

Definition vm_bind {A B} (x : vm A) (k : A -> vm B) : vm B :=
  match x with
  | Ret a => k a
  | Fail e => Fail e
  | Panic => Panic
  | Wild => Wild
  | Spin => Spin
  end.

Declare Scope vm_scope.
Delimit Scope vm_scope with vm.
Notation "'do!' x := r 'in' k" := (vm_bind r (fun x => k))
  (at level 10, x pattern, r at level 100, k at level 200) : vm_scope.
#[global] Open Scope vm_scope.

(** [Option::unwrap], a failed [assert!], and a read through a pointer. *)
Definition unwrap {A} (o : option A) : vm A := match o with Some a => Ret a | None => Panic end.
Definition read {A} (o : option A) : vm A := match o with Some a => Ret a | None => Wild end.

(** * Objects *)

Inductive BoxType : Type :=
| BOXTYPETAG_TUPLE | BOXTYPETAG_BIGINTEGER | BOXTYPETAG_EXTERNALPID | BOXTYPETAG_EXTERNALREF
| BOXTYPETAG_EXTERNALPORT | BOXTYPETAG_CLOSURE | BOXTYPETAG_FLOAT | BOXTYPETAG_IMPORT | BOXTYPETAG_EXPORT
| BOXTYPETAG_MAP | BOXTYPETAG_BINARY | BOXTYPETAG_BINARY_MATCH_STATE | BOXTYPETAG_JUMP_TABLE.

#[export] Instance BoxType_eq_dec : EqDecision BoxType.
Proof. solve_decision. Defined.

(** A function of a module, by the atoms of its names. *)
Record ModFunArity := { mfa_m : Term; mfa_f : Term; mfa_arity : Z }.

#[export] Instance ModFunArity_eq_dec : EqDecision ModFunArity.
Proof. solve_decision. Defined.

(** What a box header stands in front of.  Of a binary, the view that its readers give: its
    size in bits and its bytes.  The other boxes are opaque to the operations modelled. *)
Inductive Obj : Type :=
| OTuple (elements : list Term)
| OBigInt (negative : bool) (limbs : list Z)
| OFloat (value : f64)
| OMap (capacity count : Z) (pairs : list (Term * Term))
| OBinary (bits : Z) (bytes : list Z)
| OSlice (offset size : Z) (orig : Z)
| OClosure (mfa : ModFunArity) (nfrozen : Z) (dst : option Z) (frozen : list Term)
| OExport (mfa : ModFunArity)
| OImport (mfa : ModFunArity)
| OExternalPid
| OMatchState (orig : Z) (read_position stop_at : Z)
| OJumpTable (entries : list (Term * Term)).

Definition get_type (o : Obj) : BoxType :=
  match o with
  | OTuple _ => BOXTYPETAG_TUPLE
  | OBigInt _ _ => BOXTYPETAG_BIGINTEGER
  | OFloat _ => BOXTYPETAG_FLOAT
  | OMap _ _ _ => BOXTYPETAG_MAP
  | OBinary _ _ | OSlice _ _ _ => BOXTYPETAG_BINARY
  | OClosure _ _ _ _ => BOXTYPETAG_CLOSURE
  | OExport _ => BOXTYPETAG_EXPORT
  | OImport _ => BOXTYPETAG_IMPORT
  | OExternalPid => BOXTYPETAG_EXTERNALPID
  | OMatchState _ _ _ => BOXTYPETAG_BINARY_MATCH_STATE
  | OJumpTable _ => BOXTYPETAG_JUMP_TABLE
  end.

Definition CLASS_NUMBER : Z := 10.
Definition CLASS_ATOM : Z := 20.
Definition CLASS_REF : Z := 30.
Definition CLASS_FUN : Z := 40.
Definition CLASS_PORT : Z := 50.
Definition CLASS_PID : Z := 60.
Definition CLASS_TUPLE : Z := 70.
Definition CLASS_MAP : Z := 80.
Definition CLASS_LIST : Z := 90.
Definition CLASS_BINARY : Z := 100.
Definition CLASS_SPECIAL : Z := 500.

Definition get_class (o : Obj) : Z :=
  match o with
  | OTuple _ => CLASS_TUPLE
  | OBigInt _ _ | OFloat _ => CLASS_NUMBER
  | OMap _ _ _ => CLASS_MAP
  | OBinary _ _ | OSlice _ _ _ => CLASS_BINARY
  | OClosure _ _ _ _ | OExport _ | OImport _ => CLASS_FUN
  | OExternalPid => CLASS_PID
  | OMatchState _ _ _ | OJumpTable _ => CLASS_SPECIAL
  end.

(** Boxes and cons cells by address. *)
Record Memory := {
  boxes : gmap Z Obj;
  conses : gmap Z (Term * Term)
}.

Definition load_box (m : Memory) (x : Term) : vm Obj := read (boxes m !! get_box_ptr_unchecked x).
Definition load_cons (m : Memory) (p : Z) : vm (Term * Term) := read (conses m !! p).

(** * Recognisers that read the box *)

Definition is_boxed_of_ (m : Memory) (pred : BoxType -> bool) (x : Term) : vm bool :=
  if negb (is_boxed x) then Ret false else do! o := load_box m x in Ret (pred (get_type o)).
Definition is_boxed_of_type (m : Memory) (x : Term) (t : BoxType) : vm bool :=
  is_boxed_of_ m (fun u => bool_decide (u = t)) x.

Definition or_else (b : bool) (r : vm bool) : vm bool := if b then Ret true else r.

Definition is_tuple (m : Memory) (x : Term) : vm bool :=
  or_else (bool_decide (x = empty_tuple)) (is_boxed_of_type m x BOXTYPETAG_TUPLE).
Definition is_map (m : Memory) (x : Term) : vm bool :=
  or_else (bool_decide (x = empty_map)) (is_boxed_of_type m x BOXTYPETAG_MAP).
Definition is_flat_map (x : Term) : bool := bool_decide (x = empty_map).
Definition is_hash_map (x : Term) : bool := false.
Definition is_binary (m : Memory) (x : Term) : vm bool :=
  or_else (bool_decide (x = empty_binary)) (is_boxed_of_type m x BOXTYPETAG_BINARY).
Definition is_float (m : Memory) (x : Term) : vm bool := is_boxed_of_type m x BOXTYPETAG_FLOAT.
Definition is_big_int (m : Memory) (x : Term) : vm bool := is_boxed_of_type m x BOXTYPETAG_BIGINTEGER.
Definition is_integer (m : Memory) (x : Term) : vm bool := or_else (is_small x) (is_big_int m x).
Definition is_number (m : Memory) (x : Term) : vm bool :=
  or_else (is_small x)
    (is_boxed_of_ m (fun t => bool_decide (t = BOXTYPETAG_BIGINTEGER) || bool_decide (t = BOXTYPETAG_FLOAT)) x).
Definition is_export (m : Memory) (x : Term) : vm bool := is_boxed_of_type m x BOXTYPETAG_EXPORT.
Definition is_fun (m : Memory) (x : Term) : vm bool :=
  is_boxed_of_ m (fun t => bool_decide (t = BOXTYPETAG_CLOSURE) || bool_decide (t = BOXTYPETAG_EXPORT)) x.
Definition is_fun_of_arity (m : Memory) (x : Term) (a : Z) : vm bool :=
  if negb (is_boxed x) then Ret false else
  do! o := load_box m x in
  Ret (match o with
       | OClosure mfa nfrozen _ _ => usize_sub (mfa_arity mfa) nfrozen =? a
       | OExport mfa => mfa_arity mfa =? a
       | _ => false
       end).
Definition is_external_pid (m : Memory) (x : Term) : vm bool := is_boxed_of_type m x BOXTYPETAG_EXTERNALPID.
Definition is_pid (m : Memory) (x : Term) : vm bool := or_else (is_local_pid x) (is_external_pid m x).
Definition map_size (m : Memory) (x : Term) : vm Z :=
  if negb (is_boxed x) then Panic else
  do! o := load_box m x in match o with OMap _ count _ => Ret count | _ => Wild end.

(** ** Classes *)

Definition classify_special (x : Term) : vm Z :=
  if get_special_tag x =? CONST then
    Ret (if bool_decide (x = nil) then CLASS_LIST
         else if bool_decide (x = empty_binary) then CLASS_BINARY
         else if bool_decide (x = empty_tuple) then CLASS_TUPLE else CLASS_SPECIAL)
  else if (get_special_tag x =? REG) || (get_special_tag x =? LOAD_TIME) then Ret CLASS_SPECIAL
  else Panic.

Definition classify_boxed (m : Memory) (x : Term) : vm Z := do! o := load_box m x in Ret (get_class o).

Definition classify_term (m : Memory) (x : Term) : vm Z :=
  let t := get_term_tag x in
  if t =? BOX_PTR then (if is_cp x then Ret CLASS_SPECIAL else classify_boxed m x)
  else if t =? CONS_PTR then Ret CLASS_LIST
  else if t =? SMALL_INT then Ret CLASS_NUMBER
  else if t =? HEADER then Ret CLASS_SPECIAL
  else if t =? ATOM then Ret CLASS_ATOM
  else if t =? LOCAL_PID then Ret CLASS_PID
  else if t =? LOCAL_PORT then Ret CLASS_PORT
  else classify_special x.

(** * Atoms

    The table interns names in order of first use.  Names are their UTF-8 bytes. *)

Record Atom := { len : Z; ord0 : Z; name : string }.

Definition byte_at (s : string) (i : nat) : Z :=
  match String.get i s with Some c => Z.of_N (Ascii.N_of_ascii c) | None => 0 end.

(** [None] where the assertion on the length fails. *)
Definition new_atom (s : string) : option Atom :=
  if Z.of_nat (String.length s) <=? 65535
  then Some {| len := Z.of_nat (String.length s);
               ord0 := Z.lor (Z.lor (Z.lor (Z.shiftl (byte_at s 0) 24) (Z.shiftl (byte_at s 1) 16))
                                    (Z.shiftl (byte_at s 2) 8)) (byte_at s 3);
               name := s |}
  else None.

Record AtomStorage := {
  atoms_by_str : gmap string Z;
  atoms_by_index : list Atom
}.

Definition register_atom (st : AtomStorage) (s : string) : option (Z * AtomStorage) :=
  let index := Z.of_nat (length (atoms_by_index st)) in
  match new_atom s with
  | Some a => Some (index, {| atoms_by_str := <[s := index]> (atoms_by_str st);
                              atoms_by_index := atoms_by_index st ++ [a] |})
  | None => None
  end.

Definition from_str (st : AtomStorage) (s : string) : option (Term * AtomStorage) :=
  match atoms_by_str st !! s with
  | Some i => Some (make_atom i, st)
  | None => match register_atom st s with Some (i, st') => Some (make_atom i, st') | None => None end
  end.

(** The null pointer is [None]. *)
Definition lookup (st : AtomStorage) (a : Term) : vm (option Atom) :=
  if is_atom a then Ret (atoms_by_index st !! Z.to_nat (atom_index a)) else Panic.

Definition to_str (st : AtomStorage) (a : Term) : vm string :=
  do! p := lookup st a in match p with Some a => Ret (name a) | None => Fail AtomNotExist end.

Definition ATOM_INIT_NAMES : list string :=
  ["+"; "-"; "=="; "EXIT"; "all"; "apply"; "badarg"; "badarith"; "badarity"; "badfun"; "badkey"; "badmap";
   "badmatch"; "badrecord"; "case_clause"; "erlang"; "error"; "erts_internal"; "exit"; "false"; "file";
   "function_clause"; "high"; "if_clause"; "init"; "kill"; "killed"; "line"; "low"; "nif_error"; "nocatch";
   "normal"; "ok"; "system_limit"; "throw"; "trap_exit"; "true"; "try_clause"; "undef"; "undefined"]%string.

Definition empty_storage : AtomStorage := {| atoms_by_str := ∅; atoms_by_index := [] |}.

Fixpoint register_all (st : AtomStorage) (names : list string) : option AtomStorage :=
  match names with
  | [] => Some st
  | s :: names => match register_atom st s with Some (_, st') => register_all st' names | None => None end
  end.

Definition add_init_atoms (st : AtomStorage) : option AtomStorage := register_all st ATOM_INIT_NAMES.

(** ** The table is a bijection *)

Definition atoms_ok (st : AtomStorage) : Prop :=
  (forall s i, atoms_by_str st !! s = Some i ->
     0 <= i /\ exists a, atoms_by_index st !! Z.to_nat i = Some a /\ name a = s) /\
  (forall n a, atoms_by_index st !! n = Some a -> atoms_by_str st !! name a = Some (Z.of_nat n)).

Lemma new_atom_name s a : new_atom s = Some a -> name a = s.
Proof. unfold new_atom. case_match; naive_solver. Qed.

Lemma register_atom_ok st s i st' :
  atoms_ok st -> atoms_by_str st !! s = None -> register_atom st s = Some (i, st') ->
  atoms_ok st' /\ i = Z.of_nat (length (atoms_by_index st)) /\
  atoms_by_str st' = <[s := i]> (atoms_by_str st) /\
  exists a, name a = s /\ atoms_by_index st' = atoms_by_index st ++ [a].
Proof.
  intros [H1 H2] Hs. unfold register_atom. destruct (new_atom s) as [a|] eqn:Ea; [|done].
  intros [= <- <-]. apply new_atom_name in Ea. cbn [atoms_by_str atoms_by_index].
  split; [|eauto 6]. split; cbn [atoms_by_str atoms_by_index].
  - intros s' j Hj. apply lookup_insert_Some in Hj as [[<- <-] | [Hne Hj]].
    + split; [lia|]. exists a. split; [|done]. rewrite Nat2Z.id, lookup_app_r by lia. by rewrite Nat.sub_diag.
    + destruct (H1 _ _ Hj) as (? & b & Hb & ?). split; [done|]. exists b. split; [|done].
      by apply lookup_app_l_Some.
  - intros n b Hb. apply lookup_app_Some in Hb as [Hb | [Hn Hb]].
    + rewrite lookup_insert_ne; [by apply H2|]. intros ->. by rewrite (H2 _ _ Hb) in Hs.
    + apply list_lookup_singleton_Some in Hb as [Hn0 <-]. rewrite Ea, lookup_insert_eq. f_equal. lia.
Qed.

Lemma register_all_ok names : forall st st',
  atoms_ok st -> NoDup names -> (forall s, s ∈ names -> atoms_by_str st !! s = None) ->
  register_all st names = Some st' -> atoms_ok st'.
Proof.
  induction names as [|s names IH]; cbn [register_all]; intros st st' H Hd Hf.
  { by intros [= <-]. }
  destruct (register_atom st s) as [[i st1]|] eqn:E; [|done]. apply NoDup_cons in Hd as [Hs Hd].
  destruct (register_atom_ok _ _ _ _ H (Hf s ltac:(set_solver)) E) as (H1 & _ & E1 & _).
  apply IH; [done | done |]. intros s' Hs'. rewrite E1, lookup_insert_ne by (by intros ->). apply Hf. set_solver.
Qed.

Lemma empty_storage_ok : atoms_ok empty_storage.
Proof. split; cbn; [intros s i; by rewrite lookup_empty | intros n a; by rewrite lookup_nil]. Qed.

(** The table a virtual machine starts with. *)
Definition init_storage : AtomStorage :=
  match add_init_atoms empty_storage with Some st => st | None => empty_storage end.

Lemma init_names_distinct : NoDup ATOM_INIT_NAMES.
Proof. apply (bool_decide_unpack _). vm_compute. exact I. Qed.

Lemma register_all_total names : forall st,
  forallb (fun s => Z.of_nat (String.length s) <=? 65535) names = true -> is_Some (register_all st names).
Proof.
  induction names as [|s names IH]; cbn [forallb register_all]; intros st H; [by eexists|].
  apply andb_true_iff in H as [Hs H]. unfold register_atom, new_atom. rewrite Hs. by apply IH.
Qed.

Lemma init_storage_eq : register_all empty_storage ATOM_INIT_NAMES = Some init_storage.
Proof.
  unfold init_storage, add_init_atoms.
  destruct (register_all_total ATOM_INIT_NAMES empty_storage) as [st E]; [reflexivity | by rewrite E].
Qed.

Lemma init_storage_ok : atoms_ok init_storage.
Proof.
  apply (register_all_ok ATOM_INIT_NAMES empty_storage); [exact empty_storage_ok | exact init_names_distinct | | exact init_storage_eq].
  intros s _. apply lookup_empty.
Qed.

(** The ids that the generated constants promise are the ones interning gives. *)
Lemma init_ids :
  to_str init_storage TRUE = Ret "true"%string /\ to_str init_storage FALSE = Ret "false"%string.
Proof. split; vm_compute; reflexivity. Qed.

Lemma to_str_atom st i a : 0 <= i < 2 ^ 61 -> atoms_by_index st !! Z.to_nat i = Some a -> to_str st (make_atom i) = Ret (name a).
Proof.
  intros Hi Ha. destruct (tagged_reads ATOM i) as (_ & Ht & E); [done..|].
  unfold to_str, lookup, is_atom, atom_index, make_atom. rewrite Ht, E. cbn [Z.eqb Pos.eqb ATOM vm_bind]. by rewrite Ha.
Qed.

Lemma to_str_inv st t s : valid t -> to_str st t = Ret s ->
  exists i a, t = make_atom i /\ 0 <= i < 2 ^ 61 /\ atoms_by_index st !! Z.to_nat i = Some a /\ name a = s.
Proof.
  intros V. unfold to_str, lookup. destruct (is_atom t) eqn:Ea; [|done]. cbn [vm_bind].
  destruct (atoms_by_index st !! _) as [a|] eqn:E; [|done]. intros [= <-].
  apply Z.eqb_eq in Ea. destruct (word_parts t V) as (v & t' & Ev & Ht' & Hv & Et). rewrite Ea in Et. subst t'.
  assert (atom_index t = v) as Ei by (unfold atom_index; by destruct (tagged_word _ _ _ Ev Ht')).
  rewrite Ei in E. exists v, a. split_and!; try lia; try done. apply term_eq.
  unfold make_atom. rewrite make_tagged_eq, Z.mod_small by done. done.
Qed.

Lemma make_atom_inj i j : 0 <= i < 2 ^ 61 -> 0 <= j < 2 ^ 61 -> make_atom i = make_atom j -> i = j.
Proof.
  intros Hi Hj E. destruct (tagged_reads ATOM i) as (_ & _ & Ei); [done..|].
  destruct (tagged_reads ATOM j) as (_ & _ & Ej); [done..|]. unfold make_atom in E. congruence.
Qed.

(** Interning finds or appends the atom of the name. *)
Lemma from_str_spec (st : AtomStorage) (s : string) (t : Term) (st' : AtomStorage) :
  atoms_ok st -> Z.of_nat (length (atoms_by_index st)) < 2 ^ 61 -> from_str st s = Some (t, st') ->
  atoms_ok st' /\ exists i a, t = make_atom i /\ 0 <= i < 2 ^ 61 /\ atoms_by_str st' !! s = Some i
    /\ atoms_by_index st' !! Z.to_nat i = Some a /\ name a = s
    /\ exists tl, atoms_by_index st' = atoms_by_index st ++ tl /\ (tl = [] \/ new_atom s = Some a /\ tl = [a]).
Proof.
  intros H Hl E. unfold from_str in E. destruct (atoms_by_str st !! s) as [i|] eqn:Es.
  - injection E as <- <-. split; [done|]. destruct H as [H1 H2]. destruct (H1 _ _ Es) as (? & a & Ha & Hn).
    exists i, a. apply lookup_lt_Some in Ha as Hlt. split_and!; try done; [lia|]. exists []. rewrite app_nil_r. auto.
  - destruct (register_atom st s) as [[i st1]|] eqn:Er; [|done]. injection E as <- <-.
    pose proof Er as Er'. unfold register_atom in Er'. destruct (new_atom s) as [a'|] eqn:Ea; [|done].
    injection Er' as <- <-. destruct (register_atom_ok _ _ _ _ H Es Er) as (H1 & _ & E1 & a & Hn & E2). split; [done|].
    apply (app_inj_tail _ _ _ _ : _ -> _) in E2 as [_ <-].
    exists (Z.of_nat (length (atoms_by_index st))), a'. cbn [atoms_by_str atoms_by_index].
    rewrite lookup_insert_eq, Nat2Z.id, lookup_app_r by lia. rewrite Nat.sub_diag. split_and!; try done; try lia.
    exists [a']. auto.
Qed.

(** Interning is injective and stable.  As long as the table has room for the id, the
    atom of a name prints as that name, asking again gives the same atom and leaves the
    table alone, every atom handed out before keeps its name, and another name gets another
    atom. *)
Theorem atom_interning (st : AtomStorage) (s : string) (t : Term) (st' : AtomStorage) :
  atoms_ok st -> Z.of_nat (length (atoms_by_index st)) < 2 ^ 61 -> from_str st s = Some (t, st') ->
  atoms_ok st' /\ to_str st' t = Ret s /\ from_str st' s = Some (t, st') /\
  (forall u r, valid u -> to_str st u = Ret r -> to_str st' u = Ret r) /\
  (forall r u st2, from_str st' r = Some (u, st2) ->
     Z.of_nat (length (atoms_by_index st')) < 2 ^ 61 -> u = t -> r = s).
Proof.
  intros H Hl E.
  destruct (from_str_spec _ _ _ _ H Hl E) as (H' & i & a & -> & Hi & Hs & Ha & Hn & tl & Htl & _).
  split; [done|]. split; [rewrite (to_str_atom _ _ _ Hi Ha); by f_equal|].
  split; [unfold from_str; by rewrite Hs|]. split.
  - intros u r V Hu. destruct (to_str_inv _ _ _ V Hu) as (j & b & -> & Hj & Hb & <-).
    apply to_str_atom; [done|]. rewrite Htl. by apply lookup_app_l_Some.
  - intros r u st2 Er Hl' ->. unfold from_str in Er. destruct (atoms_by_str st' !! r) as [j|] eqn:Ej.
    + assert (make_atom j = make_atom i) as Eji by congruence.
      destruct (proj1 H' _ _ Ej) as (? & b & Hb & <-). apply lookup_lt_Some in Hb as Hlt.
      apply make_atom_inj in Eji; [|lia..]. subst j. congruence.
    + destruct (register_atom st' r) as [[j st3]|] eqn:Er'; [|done]. assert (make_atom j = make_atom i) as Eji by congruence.
      destruct (register_atom_ok _ _ _ _ H' Ej Er') as (_ & -> & _). apply lookup_lt_Some in Ha.
      apply make_atom_inj in Eji; lia.
Qed.
