(* ===== verification/BeamBinary.v ===== *)
(** Binaries as bytes and bits: the sizes of [defs/bitsize.rs], the readers of
    [defs/data_reader.rs], and what the trait of [term/boxed/binary/trait_interface.rs] says of
    a binary on the heap ([procheap_bin.rs]) and of a slice of another ([slice.rs]). *)
From S2P Require Import Prelude Float64 BeamTerm BeamMem.

Definition last_byte_bits (bits : Z) : Z := Z.land bits 7.
Definition bytes_rounded_down (bits : Z) : Z := Z.shiftr bits 3.
Definition bytes_rounded_up (bits : Z) : Z := (bits + 7) / 8.

(** * Readers *)

Inductive Reader :=
| ByteReader (data : list Z)
| BitReader (data : list Z) (offset : Z).

Definition add_bit_offset (data : list Z) (offset offs : Z) : Reader := BitReader data (offset + offs).

(** A byte reader that starts further on and is no longer than [size] bytes. *)
Definition set_offset_and_size (data : list Z) (offs size : Z) : vm (list Z) :=
  if offs <=? Z.of_nat (length data) then Ret (take (Z.to_nat size) (drop (Z.to_nat offs) data)) else Wild.

Definition reader_bits (r : Reader) : Z :=
  match r with
  | ByteReader data => Z.of_nat (length data) * 8
  | BitReader data offset => Z.of_nat (length data) * 8 - offset
  end.

(** The [n]th byte from the offset, zeros behind the end. *)
Definition bits_read (data : list Z) (offset n : Z) : Z :=
  let bit_pos := offset + n * 8 in
  let byte_ix := Z.to_nat (Z.shiftr bit_pos 3) in
  match data !! byte_ix with
  | None => 0
  | Some b0 =>
    let shift := Z.land bit_pos 7 in
    if shift =? 0 then b0 else
    Z.lor (Z.shiftl b0 shift mod 256) (Z.shiftr (default 0 (data !! S byte_ix)) (8 - shift))
  end.

Definition reader_read (r : Reader) (n : Z) : vm Z :=
  match r with
  | ByteReader data => unwrap (data !! Z.to_nat n)
  | BitReader data offset => Ret (bits_read data offset n)
  end.

(** * Binaries *)

Definition binary_bits (o : Obj) : vm Z :=
  match o with OBinary bits _ => Ret bits | OSlice _ size _ => Ret size | _ => Wild end.

Section Trait.
Context (m : Memory).

(** A slice may be one of a slice; there are no more of them than objects. *)
Fixpoint byte_reader_at (n : nat) (p : Z) : vm (option (list Z)) :=
  match n with
  | O => Spin
  | S n =>
    do! o := read (boxes m !! p) in
    match o with
    | OBinary _ bytes => Ret (Some bytes)
    | OSlice offset size orig =>
      if last_byte_bits offset =? 0 then
        do! r := byte_reader_at n orig in
        match r with
        | Some data => do! data := set_offset_and_size data (bytes_rounded_down offset) (bytes_rounded_down size) in Ret (Some data)
        | None => Ret None
        end
      else Ret None
    | _ => Wild
    end
  end.

(** The data and the offset of the bit reader. *)
Fixpoint bit_reader_at (n : nat) (p : Z) : vm (list Z * Z) :=
  match n with
  | O => Spin
  | S n =>
    do! o := read (boxes m !! p) in
    match o with
    | OBinary _ bytes => Ret (bytes, 0)
    | OSlice offset _ orig => do! (data, off) := bit_reader_at n orig in Ret (data, off + offset)
    | _ => Wild
    end
  end.

Definition depth : nat := S (size (boxes m)).
Definition get_byte_reader (p : Z) : vm (option (list Z)) := byte_reader_at depth p.
Definition get_bit_reader (p : Z) : vm (list Z * Z) := bit_reader_at depth p.

(** The bytes in place; of a slice they are not implemented. *)
Definition get_data (p : Z) : vm (list Z) :=
  do! o := read (boxes m !! p) in match o with OBinary _ bytes => Ret bytes | OSlice _ _ _ => Panic | _ => Wild end.
Definition get_bit_size (p : Z) : vm Z := do! o := read (boxes m !! p) in binary_bits o.

(** The reader that is taken for a comparison. *)
Definition any_reader (p : Z) : vm Reader :=
  do! r := get_byte_reader p in
  match r with
  | Some data => Ret (ByteReader data)
  | None => do! (data, offset) := get_bit_reader p in Ret (BitReader data offset)
  end.
End Trait.

(** What the natives read of a binary: its size, and its whole bytes. *)
Definition term_bits (m : Memory) (x : Term) : vm Z := do! o := load_box m x in binary_bits o.
Fixpoint read_upto (r : Reader) (i : Z) (n : nat) : vm (list Z) :=
  match n with O => Ret [] | S n => do! b := reader_read r i in do! bs := read_upto r (i + 1) n in Ret (b :: bs) end.
Definition whole_bytes (m : Memory) (x : Term) (bits : Z) : vm (list Z) :=
  do! r := any_reader m (get_box_ptr_unchecked x) in read_upto r 0 (Z.to_nat (bits / 8)).

Lemma byte_reader_binary m p bits bytes : boxes m !! p = Some (OBinary bits bytes) -> get_byte_reader m p = Ret (Some bytes).
Proof. unfold get_byte_reader, depth. cbn [byte_reader_at]. by intros ->. Qed.
Lemma bit_reader_binary m p bits bytes : boxes m !! p = Some (OBinary bits bytes) -> get_bit_reader m p = Ret (bytes, 0).
Proof. unfold get_bit_reader, depth. cbn [bit_reader_at]. by intros ->. Qed.
Lemma any_reader_binary m p bits bytes : boxes m !! p = Some (OBinary bits bytes) -> any_reader m p = Ret (ByteReader bytes).
Proof. intros H. unfold any_reader. by rewrite (byte_reader_binary _ _ _ _ H). Qed.

Lemma read_upto_bytes data : forall n i, (i + n <= length data)%nat -> read_upto (ByteReader data) (Z.of_nat i) n = Ret (take n (drop i data)).
Proof.
  induction n as [|n IH]; intros i H; cbn [read_upto reader_read]; [by rewrite take_0|]. rewrite Nat2Z.id.
  destruct (data !! i) as [b|] eqn:Eb; [|apply lookup_ge_None in Eb; lia]. cbn [unwrap vm_bind].
  replace (Z.of_nat i + 1) with (Z.of_nat (S i)) by lia. rewrite IH by lia. cbn [vm_bind]. by rewrite (drop_S _ _ _ Eb).
Qed.
Lemma whole_bytes_binary m x bits bytes n : boxes m !! get_box_ptr_unchecked x = Some (OBinary bits bytes) -> n / 8 <= Z.of_nat (length bytes) ->
  whole_bytes m x n = Ret (take (Z.to_nat (n / 8)) bytes).
Proof.
  intros H Hn. unfold whole_bytes. rewrite (any_reader_binary _ _ _ _ H). cbn [vm_bind]. change 0 with (Z.of_nat 0). rewrite read_upto_bytes by lia.
  by rewrite drop_0.
Qed.
