(* ===== verification/BeamCompare.v ===== *)
(** The order of terms in the emulator ([term/compare.rs]), and the comparison opcodes over
    it ([beam/opcodes/op_predicates.rs]).

    [cmp_terms] is a loop with an explicit stack for lists, and recursive for tuples; both
    consume fuel.  The reference is [erl_cmp], the order of Erlang on integers, atoms, local
    pids, binaries, tuples and lists. *)
From S2P Require Import Prelude Float64 BeamTerm BeamMem BeamBinary.

(** * [term/compare.rs] *)

Section Compare.
Context (m : Memory) (atoms : AtomStorage).

(** Lengths first, then bytes.  [String::cmp] compares bytes. *)
Definition byte_cmp (a b : Z) : comparison := Z.compare a b.

Fixpoint bytes_cmp (xs ys : list Z) : comparison :=
  match xs with
  | [] => if ys is [] then Eq else Lt
  | x :: xs =>
    match ys with
    | y :: ys => match byte_cmp x y with Eq => bytes_cmp xs ys | Lt => Lt | Gt => Gt end
    | [] => Gt
    end
  end.

Definition str_bytes (s : string) : list Z := (fun c => Z.of_N (Ascii.N_of_ascii c)) <$> String.list_ascii_of_string s.

Definition cmp_atoms (a b : Term) : vm comparison :=
  do! pa := lookup atoms a in do! pb := lookup atoms b in
  do! a := read pa in do! b := read pb in
  Ret (if len a =? len b then bytes_cmp (str_bytes (name a)) (str_bytes (name b))
       else Z.compare (len a) (len b)).

Definition cmp_f64_naive (a b : f64) : comparison :=
  if SFltb a b then Lt else if SFltb b a then Gt else Eq.

Definition load_float (x : Term) : vm f64 :=
  do! o := load_box m x in match o with OFloat v => Ret v | _ => Wild end.

Definition cmp_floats (a b : Term) : vm comparison :=
  do! x := load_float a in do! y := load_float b in Ret (cmp_f64_naive x y).

(** [eq_numbers_not_exact] is unimplemented. *)
Definition cmp_numbers_not_exact (a b : Term) : vm comparison := Panic.
(** [cmp_mixed_types] is unimplemented. *)
Definition cmp_mixed_types (a b : Term) : vm comparison := Panic.

(** [x && test], where [test] is only evaluated when [x] holds. *)
Definition and_then (r : vm bool) (b : bool) : vm bool := do! x := r in Ret (x && b).

Definition cmp_type_order (a b : Term) : vm comparison :=
  do! g1 := Ret (is_cons a && bool_decide (b = nil)) in
  do! g2 := (if g1 then Ret true else and_then (is_tuple m a) (bool_decide (b = empty_tuple))) in
  do! g3 := (if g2 then Ret true else and_then (is_binary m a) (bool_decide (b = empty_binary))) in
  if g3 then Ret Gt else
  do! ca := classify_term m a in do! cb := classify_term m b in Ret (Z.compare ca cb).

(** Of two bit strings, the shorter is smaller; of the same size, the bytes of the readers decide. *)
Fixpoint cmp_readers (a b : Reader) (i : Z) (n : nat) : vm comparison :=
  match n with
  | O => Ret Eq
  | S n =>
    do! a_byte := reader_read a i in do! b_byte := reader_read b i in
    match byte_cmp a_byte b_byte with Eq => cmp_readers a b (i + 1) n | c => Ret c end
  end.
Definition cmp_reader_vs_reader (a b : Reader) : vm comparison := cmp_readers a b 0 (Z.to_nat (bytes_rounded_up (reader_bits a))).

Definition cmp_binary (a b : Term) : vm comparison :=
  do! a_size := term_bits m a in do! b_size := term_bits m b in
  match Z.compare a_size b_size with
  | Eq =>
    do! a_reader := any_reader m (get_box_ptr_unchecked a) in
    do! b_reader := any_reader m (get_box_ptr_unchecked b) in cmp_reader_vs_reader a_reader b_reader
  | c => Ret c
  end.

Definition load_tuple (x : Term) : vm (list Term) :=
  do! o := load_box m x in match o with OTuple els => Ret els | _ => Wild end.

Definition cmp_terms_immed (a b : Term) : vm comparison :=
  if (bool_decide (a = nil) || bool_decide (a = empty_tuple) || bool_decide (a = empty_binary))
     && (raw a =? raw b) then Ret Eq
  else if is_local_port a then Panic
  else if is_local_pid a then
    (if is_local_pid b then Ret (Z.compare (raw a) (raw b)) else Panic)
  else if is_internal_immediate a && is_internal_immediate b then
    Ret (Z.compare (get_term_val_without_tag a) (get_term_val_without_tag b))
  else Panic.

(** What a comparison of two lists answers: a conclusion, or two terms to compare next and
    two to compare after them. *)
Inductive EqResult :=
| Concluded (c : comparison)
| CompareNested (a b : Term) (next : Term * Term).

Fixpoint cmp_cons (fuel : nat) (a_ptr b_ptr : Z) : vm EqResult :=
  match fuel with
  | O => Spin
  | S fuel =>
    do! (ahd, atl) := load_cons m a_ptr in do! (bhd, btl) := load_cons m b_ptr in
    if negb (raw ahd =? raw bhd) then Ret (CompareNested ahd bhd (atl, btl))
    else if raw atl =? raw btl then Ret (Concluded Eq)
    else if negb (is_list atl) || negb (is_list btl) then Ret (CompareNested atl btl (atl, btl))
    else cmp_cons fuel (get_cons_ptr atl) (get_cons_ptr btl)
  end.

Definition conclude (r : vm comparison) : vm EqResult := do! c := r in Ret (Concluded c).

Section Step.
(** [cmp_terms], which tuples call on their elements. *)
Context (rec : Term -> Term -> vm comparison).

Fixpoint cmp_elements (xs ys : list Term) : vm comparison :=
  match xs, ys with
  | x :: xs, y :: ys => do! c := rec x y in match c with Eq => cmp_elements xs ys | c => Ret c end
  | _, _ => Ret Eq
  end.

Definition cmp_terms_immed_box (a b : Term) : vm comparison :=
  do! a_tuple := is_tuple m a in
  if a_tuple then
    do! b_tuple := is_tuple m b in
    if b_tuple then
      do! xs := load_tuple a in do! ys := load_tuple b in
      match Z.compare (Z.of_nat (length xs)) (Z.of_nat (length ys)) with
      | Eq => cmp_elements xs ys
      | c => Ret c
      end
    else cmp_mixed_types a b
  else
  do! a_map := is_map m a in
  if a_map then Panic
  else
  do! a_float := is_float m a in
  if a_float then
    do! b_float := is_float m b in
    if b_float then Panic else cmp_mixed_types a b
  else
  do! a_big := is_big_int m a in
  if a_big then
    do! b_big := is_big_int m b in
    if b_big then Panic else cmp_mixed_types a b
  else
  do! a_export := is_export m a in
  if a_export then Panic
  else
  do! a_binary := is_binary m a in
  do! b_binary := (if a_binary then is_binary m b else Ret false) in
  if b_binary then cmp_binary a b else Panic.

Definition cmp_terms_primary (fuel : nat) (a b : Term) : vm EqResult :=
  if negb (get_term_tag a =? get_term_tag b) then conclude (cmp_type_order a b)
  else if is_boxed a then
    (if is_cp a || is_cp b then Panic else conclude (cmp_terms_immed_box a b))
  else if is_cons a then cmp_cons fuel (get_cons_ptr a) (get_cons_ptr b)
  else conclude (cmp_terms_immed a b).

Definition cmp_terms_any_type (fuel : nat) (a b : Term) (exact : bool) : vm EqResult :=
  if is_atom a && is_atom b then conclude (cmp_atoms a b)
  else if is_small a && is_small b then
    Ret (Concluded (Z.compare (get_small_signed a) (get_small_signed b)))
  else
  do! fa := is_float m a in do! fb := is_float m b in
  if negb exact && (fa || is_small a) && (fb || is_small b) then conclude (cmp_numbers_not_exact a b)
  else if fa && fb then conclude (cmp_floats a b)
  else cmp_terms_primary fuel a b.
End Step.

(** The loop of [cmp_terms_1], at the terms [op] with the stack of comparisons to resume. *)
Fixpoint cmp_loop (fuel : nat) (op : Term * Term) (stack : list (Term * Term)) (exact : bool) : vm comparison :=
  match fuel with
  | O => Spin
  | S fuel =>
    let rec a b := if bool_decide (a = b) then Ret Eq else cmp_loop fuel (a, b) [] true in
    do! r := cmp_terms_any_type rec fuel op.1 op.2 exact in
    match r with
    | Concluded Eq => match stack with [] => Ret Eq | op :: stack => cmp_loop fuel op stack exact end
    | Concluded c => Ret c
    | CompareNested a b next => cmp_loop fuel (a, b) (next :: stack) exact
    end
  end.

Definition cmp_terms (fuel : nat) (a b : Term) (exact : bool) : vm comparison :=
  if bool_decide (a = b) then Ret Eq else cmp_loop fuel (a, b) [] exact.

(** * [op_predicates.rs]

    Whether the opcode jumps to its failure label. *)
Definition generic_comparison (fuel : nat) (a b : Term) (exact : bool) (desired : comparison) (invert : bool) : vm bool :=
  do! result := cmp_terms fuel a b exact in
  Ret (xorb (negb (bool_decide (result = desired))) invert).

Definition is_eq_exact fuel a b := generic_comparison fuel a b true Eq false.
Definition is_ne_exact fuel a b := generic_comparison fuel a b true Eq true.
Definition is_lt fuel a b := generic_comparison fuel a b false Lt false.
Definition is_eq fuel a b := generic_comparison fuel a b false Eq false.
Definition is_ge fuel a b := generic_comparison fuel a b false Lt true.
Definition is_ne fuel a b := generic_comparison fuel a b false Eq true.
End Compare.

(** * The reference: values and their order *)

Inductive val : Type :=
| VInt (n : Z)
| VAtom (s : string)
| VPid (i : Z)
| VTuple (l : list val)
| VList (l : list val)
| VBin (bits : Z) (bytes : list Z).

Section Lex.
Context {A} (cmp : A -> A -> comparison) (ok : A -> A -> Prop).

Fixpoint lex (xs ys : list A) : comparison :=
  match xs with
  | [] => if ys is [] then Eq else Lt
  | x :: xs =>
    match ys with
    | y :: ys => match cmp x y with Eq => lex xs ys | Lt => Lt | Gt => Gt end
    | [] => Gt
    end
  end.

(** The elements up to the first difference are comparable, and there is one before
    either list ends, or the lists have the same length. *)
Fixpoint lex_ok (xs ys : list A) : Prop :=
  match xs, ys with
  | [], [] => True
  | x :: xs, y :: ys => ok x y /\ (cmp x y = Eq -> lex_ok xs ys)
  | _, _ => False
  end.
End Lex.

Definition vclass (v : val) : Z :=
  match v with
  | VInt _ => CLASS_NUMBER
  | VAtom _ => CLASS_ATOM
  | VPid _ => CLASS_PID
  | VTuple _ => CLASS_TUPLE
  | VList _ => CLASS_LIST
  | VBin _ _ => CLASS_BINARY
  end.

(** The order of Erlang: numbers, atoms by their text, pids, tuples by arity and then by
    element, lists element by element, bit strings by content and then by size. *)
Fixpoint erl_cmp (v w : val) : comparison :=
  match v, w with
  | VInt n, VInt k => Z.compare n k
  | VAtom s, VAtom t => bytes_cmp (str_bytes s) (str_bytes t)
  | VPid i, VPid j => Z.compare i j
  | VTuple l, VTuple k =>
      match Z.compare (Z.of_nat (length l)) (Z.of_nat (length k)) with Eq => lex erl_cmp l k | c => c end
  | VList l, VList k => lex erl_cmp l k
  | VBin b xs, VBin c ys => match bytes_cmp xs ys with Eq => Z.compare b c | c => c end
  | _, _ => Z.compare (vclass v) (vclass w)
  end.

(** The pairs on which the emulator follows that order.  It does not on atoms of different
    lengths, bit strings of different sizes, an empty tuple, list or binary against one
    with elements, and lists of which one is a prefix of the other; and a tuple against a
    binary is not implemented. *)
Fixpoint comparable (v w : val) : Prop :=
  match v, w with
  | VAtom s, VAtom t => String.length s = String.length t
  | VTuple l, VTuple k =>
      (l = [] -> k = []) /\ (length l = length k -> lex_ok erl_cmp comparable l k)
  | VList l, VList k => (l <> [] /\ k = []) \/ lex_ok erl_cmp comparable l k
  | VBin b xs, VBin c ys => b = c \/ c = 0
  | VTuple l, VBin c _ => l = [] \/ c = 0
  | VBin b _, VTuple k => b = 0 \/ k = []
  | _, _ => True
  end.

(** The steps that comparing a value with anything takes. *)
Fixpoint need (v : val) : nat :=
  match v with
  | VTuple l => S (sum_list (need <$> l))
  | VList l => S (sum_list ((fun x => S (need x)) <$> l))
  | _ => 1%nat
  end.

(** * What a term stands for *)

Section Represents.
Context (m : Memory) (atoms : AtomStorage).

Inductive rep : Term -> val -> Prop :=
| rep_int n : - 2 ^ 60 <= n < 2 ^ 60 -> rep (make_small_signed n) (VInt n)
| rep_atom i a :
    0 <= i < 2 ^ 61 -> atoms_by_index atoms !! Z.to_nat i = Some a -> new_atom (name a) = Some a ->
    rep (make_atom i) (VAtom (name a))
| rep_pid i : 0 <= i < 2 ^ 61 -> rep (make_local_pid i) (VPid i)
| rep_nil : rep nil (VList [])
| rep_cons p h t v l :
    0 < p < 2 ^ 64 -> p mod 8 = 0 -> conses m !! p = Some (h, t) -> rep h v -> rep t (VList l) ->
    rep (make_cons p) (VList (v :: l))
| rep_tuple0 : rep empty_tuple (VTuple [])
| rep_tuple p x els vs :
    0 <= p < 2 ^ 63 -> p mod 8 = 0 -> make_boxed p = Some x -> boxes m !! p = Some (OTuple els) ->
    Forall2 rep els vs -> vs <> [] -> rep x (VTuple vs)
| rep_bin0 : rep empty_binary (VBin 0 [])
| rep_bin p x bits bytes :
    0 <= p < 2 ^ 63 -> p mod 8 = 0 -> make_boxed p = Some x -> boxes m !! p = Some (OBinary bits bytes) ->
    0 < bits -> Z.of_nat (length bytes) = (bits + 7) / 8 -> rep x (VBin bits bytes).

(** What the recognisers see of a term that stands for [v]. *)
Definition seen_as (x : Term) (v : val) : Prop :=
  match v with
  | VInt n => get_term_tag x = SMALL_INT /\ get_small_signed x = n
  | VAtom s => get_term_tag x = ATOM /\ exists a, lookup atoms x = Ret (Some a) /\ name a = s /\ len a = Z.of_nat (String.length s)
  | VPid i => get_term_tag x = LOCAL_PID /\ raw x = i * 8 + 5
  | VList [] => x = nil
  | VList (v :: l) => get_term_tag x = CONS_PTR /\ exists h t, conses m !! get_cons_ptr x = Some (h, t) /\ rep h v /\ rep t (VList l)
  | VTuple [] => x = empty_tuple
  | VTuple vs => get_term_tag x = BOX_PTR /\ is_cp x = false /\
      exists els, boxes m !! get_box_ptr_unchecked x = Some (OTuple els) /\ Forall2 rep els vs
  | VBin bits bytes =>
      (x = empty_binary /\ bits = 0 /\ bytes = []) \/
      (get_term_tag x = BOX_PTR /\ is_cp x = false /\ 0 < bits /\ Z.of_nat (length bytes) = (bits + 7) / 8 /\
       boxes m !! get_box_ptr_unchecked x = Some (OBinary bits bytes))
  end.

Lemma rep_seen x v : rep x v -> seen_as x v.
Proof.
  intros H. destruct H as [n Hn | i a Hi Ha Hw | i Hi | | p h t v l Hp Hm Hc Hh Ht | | p x els vs Hp Hm Hx Hb Hf Hne | | p x bits bytes Hp Hm Hx Hb Hlen]; cbn [seen_as].
  - by destruct (small_reads n Hn) as (_ & ? & ?).
  - destruct (tagged_reads ATOM i) as (_ & Ht & E); [done..|]. split; [exact Ht|]. exists a.
    unfold lookup, is_atom, atom_index, make_atom. rewrite Ht, E. cbn. rewrite Ha. split_and!; [done | done |].
    unfold new_atom in Hw. case_match; [|done]. injection Hw as <-. done.
  - destruct (tagged_reads LOCAL_PID i) as (_ & Ht & E); [done..|]. split; [exact Ht|].
    unfold make_local_pid. by rewrite make_tagged_eq, Z.mod_small by done.
  - done.
  - destruct (cons_reads p Hp Hm) as (_ & Et & -> & _). split; [done|]. eauto.
  - done.
  - destruct (boxed_reads p) as (y & Ey & Er & V & Et & Ep); [lia | done |].
    assert (y = x) as -> by congruence. rewrite is_cp_eq, Et, Ep by done.
    destruct vs as [|v vs]; [done|]. split; [done|]. split; [|eauto]. apply Z.leb_gt. rewrite Er.
    Z.to_euclidean_division_equations. lia.
  - by left.
  - right. destruct (boxed_reads p) as (y & Ey & Er & V & Et & Ep); [lia | done |].
    assert (y = x) as -> by congruence. rewrite is_cp_eq, Et, Ep by done. split; [done|].
    split; [|done]. apply Z.leb_gt. rewrite Er. Z.to_euclidean_division_equations. lia.
Qed.
End Represents.

(** ** Facts about the reference *)

Lemma val_ind' (P : val -> Prop) :
  (forall n, P (VInt n)) -> (forall s, P (VAtom s)) -> (forall i, P (VPid i)) ->
  (forall l, Forall P l -> P (VTuple l)) -> (forall l, Forall P l -> P (VList l)) ->
  (forall b xs, P (VBin b xs)) -> forall v, P v.
Proof.
  intros Hi Ha Hp Ht Hl Hb. fix IH 1. intros [n|s|i|l|l|b xs]; [apply Hi | apply Ha | apply Hp | apply Ht | apply Hl | apply Hb].
  - induction l; constructor; [apply IH | done].
  - induction l; constructor; [apply IH | done].
Qed.

Lemma lex_eq {A} (cmp : A -> A -> comparison) xs : forall ys,
  Forall (fun x => forall y, cmp x y = Eq <-> x = y) xs -> lex cmp xs ys = Eq <-> xs = ys.
Proof.
  induction xs as [|x xs IH]; intros [|y ys] H; cbn [lex]; try done.
  apply Forall_cons in H as [Hx H]. destruct (cmp x y) eqn:E.
  - apply Hx in E as ->. rewrite IH by done. naive_solver.
  - split; [done|]. intros [= -> ->]. rewrite (proj2 (Hx y)) in E by done. done.
  - split; [done|]. intros [= -> ->]. rewrite (proj2 (Hx y)) in E by done. done.
Qed.

(** Readers of bytes compare like the bytes. *)
Lemma cmp_bytes_from xs ys : length xs = length ys -> forall n i, (i + n = length xs)%nat ->
  cmp_readers (ByteReader xs) (ByteReader ys) (Z.of_nat i) n = Ret (bytes_cmp (drop i xs) (drop i ys)).
Proof.
  intros Hl n. induction n as [|n IH]; intros i Hn; cbn [cmp_readers].
  - by rewrite !drop_ge by lia.
  - cbn [reader_read]. rewrite Nat2Z.id. destruct (xs !! i) as [x|] eqn:Ex; [|apply lookup_ge_None in Ex; lia].
    destruct (ys !! i) as [y|] eqn:Ey; [|apply lookup_ge_None in Ey; lia]. cbn [unwrap vm_bind].
    rewrite (drop_S _ _ _ Ex), (drop_S _ _ _ Ey). cbn [bytes_cmp]. destruct (byte_cmp x y); [|done..].
    replace (Z.of_nat i + 1) with (Z.of_nat (S i)) by lia. apply IH. lia.
Qed.
Lemma cmp_readers_ok xs ys : length xs = length ys -> cmp_reader_vs_reader (ByteReader xs) (ByteReader ys) = Ret (bytes_cmp xs ys).
Proof.
  intros Hl. unfold cmp_reader_vs_reader, bytes_rounded_up, reader_bits.
  replace (Z.to_nat ((Z.of_nat (length xs) * 8 + 7) / 8)) with (length xs) by (Z.to_euclidean_division_equations; lia).
  exact (cmp_bytes_from xs ys Hl (length xs) 0 eq_refl).
Qed.

Lemma bytes_cmp_eq xs : forall ys, bytes_cmp xs ys = Eq <-> xs = ys.
Proof.
  induction xs as [|x xs IH]; intros [|y ys]; cbn [bytes_cmp]; unfold byte_cmp; try done.
  destruct (Z.compare_spec x y); [subst | split; [done | intros [= -> ->]; lia]..].
  rewrite IH. naive_solver.
Qed.

Lemma str_bytes_inj s : forall t, str_bytes s = str_bytes t -> s = t.
Proof.
  unfold str_bytes. induction s as [|c s IH]; intros [|d t]; cbn; try done.
  intros [= Hc Hs]. apply N2Z.inj in Hc. apply IH in Hs as ->.
  rewrite <- (Ascii.ascii_N_embedding c), <- (Ascii.ascii_N_embedding d). by rewrite Hc.
Qed.

Lemma erl_cmp_eq v : forall w, erl_cmp v w = Eq <-> v = w.
Proof.
  induction v as [n|s|i|l IH|l IH|b xs] using val_ind'; intros w; destruct w as [n'|s'|i'|l'|l'|b' xs'];
    cbn [erl_cmp vclass]; try (split; [vm_compute; discriminate | discriminate]).
  - rewrite Z.compare_eq_iff. naive_solver.
  - rewrite bytes_cmp_eq. split; [intros H; f_equal; by apply str_bytes_inj | by intros [= ->]].
  - rewrite Z.compare_eq_iff. naive_solver.
  - destruct (Z.compare_spec (Z.of_nat (length l)) (Z.of_nat (length l'))) as [E|E|E].
    + rewrite lex_eq by done. naive_solver.
    + split; [done|]. intros [= ->]. lia.
    + split; [done|]. intros [= ->]. lia.
  - rewrite lex_eq by done. naive_solver.
  - destruct (bytes_cmp xs xs') eqn:E.
    + apply bytes_cmp_eq in E as ->. rewrite Z.compare_eq_iff. naive_solver.
    + split; [done|]. intros [= -> ->]. by rewrite (proj2 (bytes_cmp_eq xs' xs')) in E.
    + split; [done|]. intros [= -> ->]. by rewrite (proj2 (bytes_cmp_eq xs' xs')) in E.
Qed.

Lemma erl_cmp_refl v : erl_cmp v v = Eq.
Proof. by apply erl_cmp_eq. Qed.

(** ** A term stands for at most one value *)

Ltac tag_clash :=
  repeat match goal with
  | H : get_term_tag nil = _ |- _ => vm_compute in H; discriminate H
  | H : get_term_tag empty_tuple = _ |- _ => vm_compute in H; discriminate H
  | H : get_term_tag empty_binary = _ |- _ => vm_compute in H; discriminate H
  | H : get_term_tag ?x = _, H' : get_term_tag ?x = _ |- _ => rewrite H in H'; vm_compute in H'; discriminate H'
  end.

(** The primary tag and, for the special values, the constant. *)
Definition vtag (v : val) : Z :=
  match v with
  | VInt _ => SMALL_INT
  | VAtom _ => ATOM
  | VPid _ => LOCAL_PID
  | VTuple [] | VList [] => SPECIAL
  | VTuple _ => BOX_PTR
  | VList _ => CONS_PTR
  | VBin b _ => if b =? 0 then SPECIAL else BOX_PTR
  end.

Lemma seen_tag m atoms x v : seen_as m atoms x v -> get_term_tag x = vtag v.
Proof.
  destruct v as [n|s|i|[|v l]|[|v l]|b xs]; cbn [seen_as vtag]; try (by intros [? _]); try (by intros ->).
  intros [(-> & -> & _) | (Ht & _ & Hb & _)]; [done|]. by rewrite (proj2 (Z.eqb_neq b 0)) by lia.
Qed.

Lemma Forall2_rep_fun m atoms (vs ws : list val) : forall els,
  Forall (fun v => forall x w, rep m atoms x v -> rep m atoms x w -> v = w) vs ->
  Forall2 (rep m atoms) els vs -> Forall2 (rep m atoms) els ws -> vs = ws.
Proof.
  revert ws. induction vs as [|v vs IHv]; intros ws els H H1 H2; inversion H1; subst; inversion H2; subst; [done|].
  apply Forall_cons in H as [Hv H]. f_equal; eauto.
Qed.

(** Values of the same tag that are not lists. *)
Lemma list_tag w : (vtag w = CONS_PTR -> exists v l, w = VList (v :: l)) /\
  (vtag w = BOX_PTR -> (exists v l, w = VTuple (v :: l)) \/ exists b xs, w = VBin b xs /\ b <> 0) /\
  (vtag w = SPECIAL -> w = VList [] \/ w = VTuple [] \/ exists xs, w = VBin 0 xs) /\
  (vtag w = SMALL_INT -> exists n, w = VInt n) /\ (vtag w = ATOM -> exists s, w = VAtom s) /\
  (vtag w = LOCAL_PID -> exists i, w = VPid i).
Proof.
  destruct w as [n|s|i|[|v l]|[|v l]|b xs]; cbn [vtag]; try destruct (Z.eqb_spec b 0); subst;
    (split_and!; intros Ht; vm_compute in Ht; try discriminate); eauto 8.
Qed.

Lemma special_fun m atoms x v w :
  get_term_tag x = SPECIAL -> vtag v = SPECIAL -> vtag w = SPECIAL ->
  seen_as m atoms x v -> seen_as m atoms x w -> v = w.
Proof.
  intros Ht Hv Hw. assert (nil <> empty_tuple /\ nil <> empty_binary /\ empty_tuple <> empty_binary) as (? & ? & ?) by done.
  apply list_tag in Hv as [-> | [-> | [xs ->]]], Hw as [-> | [-> | [ys ->]]]; cbn [seen_as];
    intros ? ?; try done;
    repeat match goal with
    | H : _ \/ _ |- _ => destruct H as [(? & _ & ?) | (H & _)]; [|by rewrite Ht in H]
    end; congruence.
Qed.

Lemma rep_list_fun m atoms l : Forall (fun v => forall x w, rep m atoms x v -> rep m atoms x w -> v = w) l ->
  forall x w, rep m atoms x (VList l) -> rep m atoms x w -> VList l = w.
Proof.
  induction l as [|v l IHl]; intros H x w Hv Hw;
    pose proof (rep_seen _ _ _ _ Hv) as Sv; pose proof (rep_seen _ _ _ _ Hw) as Sw;
    pose proof (seen_tag _ _ _ _ Sv) as Tv; pose proof (seen_tag _ _ _ _ Sw) as Tw; cbn [vtag] in Tv.
  - apply (special_fun m atoms x); done || congruence.
  - rewrite Tv in Tw. destruct (proj1 (list_tag w) (eq_sym Tw)) as (v' & l' & ->). cbn [seen_as] in Sv, Sw.
    destruct Sv as (_ & h & t & Hc & Hh & Ht), Sw as (_ & h' & t' & Hc' & Hh' & Ht').
    rewrite Hc in Hc'. injection Hc' as <- <-. apply Forall_cons in H as [Hv1 Hl].
    rewrite (Hv1 _ _ Hh Hh'). specialize (IHl Hl _ _ Ht Ht'). injection IHl as <-. done.
Qed.

Lemma rep_fun m atoms v : forall x w, rep m atoms x v -> rep m atoms x w -> v = w.
Proof.
  induction v as [n|s|i|l IH|l IH|b xs] using val_ind'; intros x w Hv Hw;
    [| | | | by eapply rep_list_fun |];
    pose proof (rep_seen _ _ _ _ Hv) as Sv; pose proof (rep_seen _ _ _ _ Hw) as Sw;
    pose proof (seen_tag _ _ _ _ Sv) as Tv; pose proof (seen_tag _ _ _ _ Sw) as Tw; clear Hv Hw;
    cbn [vtag] in Tv; rewrite Tv in Tw; symmetry in Tw.
  - apply list_tag in Tw as [n' ->]. destruct Sv as [_ <-], Sw as [_ <-]. done.
  - apply list_tag in Tw as [s' ->]. destruct Sv as [_ (a & Ea & <- & _)], Sw as [_ (a' & Ea' & <- & _)]. congruence.
  - apply list_tag in Tw as [i' ->]. destruct Sv as [_ Ev], Sw as [_ Ew]. f_equal. lia.
  - destruct l as [|v l]; [by apply (special_fun m atoms x)|].
    destruct Sv as (Hx & _ & els & Ho & Hf). apply list_tag in Tw as [(w' & k & ->) | (b & xs & -> & Hb)].
    + destruct Sw as (_ & _ & els' & Ho' & Hf'). rewrite Ho in Ho'. injection Ho' as <-. f_equal. by eapply Forall2_rep_fun.
    + destruct Sw as [(? & ? & _) | (_ & _ & _ & _ & Ho')]; [done|]. congruence.
  - destruct (Z.eqb_spec b 0) as [-> | Hb]; [by apply (special_fun m atoms x)|].
    destruct Sv as [(_ & ? & _) | (Hx & _ & _ & _ & Ho)]; [done|].
    apply list_tag in Tw as [(w' & k & ->) | (b' & ys & -> & Hb')].
    + destruct Sw as (_ & _ & els' & Ho' & _). congruence.
    + destruct Sw as [(_ & ? & _) | (_ & _ & _ & _ & Ho')]; [done|]. congruence.
Qed.

(** ** What the recognisers answer on the term of a value *)

Section Seen.
Context (m : Memory) (atoms : AtomStorage).

Definition box_of (v : val) : option BoxType :=
  match v with
  | VTuple (_ :: _) => Some BOXTYPETAG_TUPLE
  | VBin b _ => if b =? 0 then None else Some BOXTYPETAG_BINARY
  | _ => None
  end.

Lemma seen_boxed pred x v : seen_as m atoms x v ->
  is_boxed_of_ m pred x = Ret (match box_of v with Some t => pred t | None => false end).
Proof.
  intros H. pose proof (seen_tag _ _ _ _ H) as Ht. unfold is_boxed_of_, is_boxed, load_box. rewrite Ht.
  destruct v as [n|s|i|[|v l]|[|v l]|b xs]; cbn [vtag box_of]; try reflexivity.
  - destruct H as (_ & _ & els & -> & _). done.
  - destruct (Z.eqb_spec b 0) as [->|Hb]; [done|]. destruct H as [(_ & ? & _) | (_ & _ & _ & _ & ->)]; done.
Qed.

Lemma seen_not_special x v c : seen_as m atoms x v -> vtag v <> SPECIAL -> get_term_tag c = SPECIAL -> x <> c.
Proof. intros H Hv Hc ->. apply seen_tag in H. congruence. Qed.

Lemma seen_special x v : seen_as m atoms x v -> vtag v = SPECIAL ->
  x = match v with VList _ => nil | VTuple _ => empty_tuple | _ => empty_binary end.
Proof.
  intros H Hv. destruct (proj1 (proj2 (proj2 (list_tag v))) Hv) as [-> | [-> | [xs ->]]]; cbn [seen_as] in H; try done.
  destruct H as [(-> & _) | (_ & _ & ? & _)]; [done | lia].
Qed.

Lemma seen_const x v c : seen_as m atoms x v -> c = nil \/ c = empty_tuple \/ c = empty_binary ->
  bool_decide (x = c) = match v with
                        | VList [] => bool_decide (nil = c)
                        | VTuple [] => bool_decide (empty_tuple = c)
                        | VBin 0 _ => bool_decide (empty_binary = c)
                        | _ => false end.
Proof.
  intros H Hc. assert (get_term_tag c = SPECIAL) as Htc by (by destruct Hc as [-> | [-> | ->]]).
  destruct (decide (vtag v = SPECIAL)) as [Hs|Hs].
  - rewrite (seen_special _ _ H Hs).
    destruct (proj1 (proj2 (proj2 (list_tag v))) Hs) as [-> | [-> | [xs ->]]]; done.
  - rewrite (bool_decide_false (x = c)) by (by eapply seen_not_special).
    destruct v as [n|s|i|[|v l]|[|v l]|[|b|b] xs]; done || by destruct Hs.
Qed.

Lemma seen_is_tuple x v : seen_as m atoms x v ->
  is_tuple m x = Ret (match v with VTuple _ => true | _ => false end).
Proof.
  intros H. unfold is_tuple, is_boxed_of_type. rewrite (seen_const _ _ _ H), (seen_boxed _ _ _ H) by auto.
  destruct v as [n|s|i|[|v l]|[|v l]|[|b|b] xs]; reflexivity.
Qed.

Lemma seen_is_binary x v : seen_as m atoms x v ->
  is_binary m x = Ret (match v with VBin _ _ => true | _ => false end).
Proof.
  intros H. unfold is_binary, is_boxed_of_type. rewrite (seen_const _ _ _ H), (seen_boxed _ _ _ H) by auto.
  destruct v as [n|s|i|[|v l]|[|v l]|[|b|b] xs]; reflexivity.
Qed.

Lemma seen_no_box x v t : seen_as m atoms x v -> t <> BOXTYPETAG_TUPLE -> t <> BOXTYPETAG_BINARY ->
  is_boxed_of_type m x t = Ret false.
Proof.
  intros H H1 H2. unfold is_boxed_of_type. rewrite (seen_boxed _ _ _ H). f_equal.
  destruct v as [n|s|i|[|v l]|[|v l]|b xs]; cbn [box_of]; try destruct (b =? 0); try done; apply bool_decide_false; congruence.
Qed.

Lemma seen_class x v : seen_as m atoms x v -> classify_term m x = Ret (vclass v).
Proof.
  intros H. pose proof (seen_tag _ _ _ _ H) as Ht. unfold classify_term. rewrite Ht.
  destruct (decide (vtag v = SPECIAL)) as [Hs|Hs].
  { rewrite (seen_special _ _ H Hs), Hs.
    destruct (proj1 (proj2 (proj2 (list_tag v))) Hs) as [-> | [-> | [xs ->]]]; reflexivity. }
  destruct v as [n|s|i|[|v l]|[|v l]|b xs]; cbn [vtag] in *; try reflexivity; try done.
  - cbn [Z.eqb Pos.eqb BOX_PTR]. destruct H as (_ & -> & els & Ho & _). unfold classify_boxed, load_box. by rewrite Ho.
  - destruct (Z.eqb_spec b 0) as [->|Hb]; [done|]. cbn [Z.eqb Pos.eqb BOX_PTR].
    destruct H as [(_ & ? & _) | (_ & -> & _ & _ & Ho)]; [done|]. unfold classify_boxed, load_box. by rewrite Ho.
Qed.

(** Terms of different primary tags are ordered by class. *)
Lemma cmp_type_order_ok a b v w :
  seen_as m atoms a v -> seen_as m atoms b w -> vtag v <> vtag w -> comparable v w ->
  cmp_type_order m a b = Ret (erl_cmp v w).
Proof.
  intros Ha Hb Hne Hc. unfold cmp_type_order, is_cons. rewrite (seen_tag _ _ _ _ Ha), (seen_is_tuple _ _ Ha),
    (seen_is_binary _ _ Ha), !(seen_const _ _ _ Hb), (seen_class _ _ Ha), (seen_class _ _ Hb) by auto.
  destruct v as [n|s|i|[|v l]|[|v l]|[|b1|b1] xs], w as [n'|s'|i'|[|w k]|[|w k]|[|b2|b2] ys];
    try (by destruct Hne); try reflexivity; cbn in Hc; try (exfalso; naive_solver).
  - destruct Hb as [(_ & _ & ->) | (_ & _ & ? & _)]; [|lia]. destruct Ha as [(_ & ? & _) | (_ & _ & _ & Hl & _)]; [lia|].
    destruct xs; [cbn in Hl; Z.to_euclidean_division_equations; lia | reflexivity].
Qed.

Lemma cmp_atoms_ok a b s t :
  seen_as m atoms a (VAtom s) -> seen_as m atoms b (VAtom t) -> String.length s = String.length t ->
  cmp_atoms atoms a b = Ret (erl_cmp (VAtom s) (VAtom t)).
Proof.
  intros (_ & x & Ex & <- & Lx) (_ & y & Ey & <- & Ly) Hl. unfold cmp_atoms. rewrite Ex, Ey. cbn [vm_bind read].
  rewrite Lx, Ly, Hl, Z.eqb_refl. done.
Qed.

Lemma cmp_immed_special a b v w :
  seen_as m atoms a v -> seen_as m atoms b w -> vtag v = SPECIAL -> vtag w = SPECIAL ->
  cmp_terms_immed a b = Ret (erl_cmp v w).
Proof.
  intros Ha Hb Hv Hw. rewrite (seen_special _ _ Ha Hv), (seen_special _ _ Hb Hw).
  destruct (proj1 (proj2 (proj2 (list_tag v))) Hv) as [-> | [-> | [xs ->]]],
    (proj1 (proj2 (proj2 (list_tag w))) Hw) as [-> | [-> | [ys ->]]]; try reflexivity.
  destruct Ha as [(_ & _ & ->) | (_ & _ & ? & _)], Hb as [(_ & _ & ->) | (_ & _ & ? & _)]; done || lia.
Qed.

(** ** One step of the loop *)

Lemma same_tag_immed rec fuel a b v w ex :
  seen_as m atoms a v -> seen_as m atoms b w -> vtag v = vtag w -> vtag v <> BOX_PTR -> vtag v <> CONS_PTR ->
  comparable v w ->
  cmp_terms_any_type m atoms rec fuel a b ex = Ret (Concluded (erl_cmp v w)).
Proof.
  intros Ha Hb Ht Hbox Hcons Hc. pose proof (seen_tag _ _ _ _ Ha) as Ta. pose proof (seen_tag _ _ _ _ Hb) as Tb.
  unfold cmp_terms_any_type, cmp_terms_primary, is_float, is_atom, is_small, is_boxed, is_cons.
  rewrite !(seen_no_box _ _ _ Ha), !(seen_no_box _ _ _ Hb), Ta, Tb, <- Ht by done.
  destruct (decide (vtag v = SPECIAL)) as [Hs|Hs].
  { rewrite (cmp_immed_special _ _ _ _ Ha Hb Hs) by congruence. rewrite Hs. cbn. by rewrite andb_false_r. }
  destruct v as [n|s|i|[|v l]|[|v l]|[|b1|b1] xs]; try (by destruct Hs); try (by destruct Hbox); try (by destruct Hcons);
    symmetry in Ht.
  - apply list_tag in Ht as [n' ->]. cbn. destruct Ha as [_ ->], Hb as [_ ->]. done.
  - apply list_tag in Ht as [s' ->]. cbn [vtag ATOM Z.eqb Pos.eqb andb]. by rewrite (cmp_atoms_ok _ _ _ _ Ha Hb).
  - apply list_tag in Ht as [i' ->]. cbn [vtag LOCAL_PID ATOM SMALL_INT BOX_PTR CONS_PTR Z.eqb Pos.eqb andb negb orb vm_bind].
    rewrite andb_false_r. unfold cmp_terms_immed, is_local_port, is_local_pid. rewrite Ta, Tb.
    rewrite !(seen_const _ _ _ Ha) by auto. cbn. destruct Ha as [_ ->], Hb as [_ ->]. do 2 f_equal.
    destruct (Z.compare_spec i i'), (Z.compare_spec (i * 8 + 5) (i' * 8 + 5)); done || lia.
Qed.

Lemma seen_is_map x v : seen_as m atoms x v -> vtag v = BOX_PTR -> is_map m x = Ret false.
Proof.
  intros H Hv. unfold is_map. rewrite (seen_no_box _ _ _ H), bool_decide_false; try done.
  intros ->. apply seen_tag in H. rewrite Hv in H. discriminate H.
Qed.

Lemma cmp_elements_ok rec l : forall k xs ys,
  (forall x y v w, v ∈ l -> rep m atoms x v -> rep m atoms y w -> comparable v w -> rec x y = Ret (erl_cmp v w)) ->
  Forall2 (rep m atoms) xs l -> Forall2 (rep m atoms) ys k -> lex_ok erl_cmp comparable l k ->
  cmp_elements rec xs ys = Ret (lex erl_cmp l k).
Proof.
  induction l as [|v l IH]; intros [|w k] xs ys Hr Hx Hy Hok; cbn [lex_ok] in Hok; try done;
    inversion Hx; subst; inversion Hy; subst; [done|]. destruct Hok as [Hc Hok]. cbn [cmp_elements lex].
  rewrite (Hr _ _ v w) by (done || set_solver). cbn [vm_bind]. destruct (erl_cmp v w); [|done..].
  apply IH; [|done | done | by apply Hok]. intros. apply Hr; try done. set_solver.
Qed.

Lemma same_tag_box rec fuel a b v w ex :
  seen_as m atoms a v -> seen_as m atoms b w -> vtag v = BOX_PTR -> vtag w = BOX_PTR -> comparable v w ->
  (forall l x y u z, v = VTuple l -> u ∈ l -> rep m atoms x u -> rep m atoms y z -> comparable u z ->
     rec x y = Ret (erl_cmp u z)) ->
  cmp_terms_any_type m atoms rec fuel a b ex = Ret (Concluded (erl_cmp v w)).
Proof.
  intros Ha Hb Tv Tw Hc Hr. pose proof (seen_tag _ _ _ _ Ha) as Ta. pose proof (seen_tag _ _ _ _ Hb) as Tb.
  unfold cmp_terms_any_type, cmp_terms_primary, cmp_terms_immed_box, is_atom, is_small, is_boxed, is_float, is_big_int, is_export.
  rewrite !(seen_no_box _ _ _ Ha), !(seen_no_box _ _ _ Hb), Ta, Tb, Tv, Tw, (seen_is_map _ _ Ha) by done.
  rewrite (seen_is_tuple _ _ Ha), (seen_is_tuple _ _ Hb), (seen_is_binary _ _ Ha), (seen_is_binary _ _ Hb).
  cbn [BOX_PTR ATOM SMALL_INT Z.eqb Pos.eqb andb orb negb vm_bind]. rewrite andb_false_r. cbn [andb].
  apply list_tag in Tv as [(v0 & l & ->) | (b1 & xs & -> & Hb1)], Tw as [(w0 & k & ->) | (b2 & ys & -> & Hb2)].
  - destruct Ha as (_ & -> & els & Ho & Hf), Hb as (_ & -> & els' & Ho' & Hf'). cbn [orb vm_bind].
    unfold load_tuple, load_box. rewrite Ho, Ho'. cbn [read vm_bind].
    rewrite (Forall2_length _ _ _ Hf), (Forall2_length _ _ _ Hf'). cbn [erl_cmp].
    destruct (Z.compare_spec (Z.of_nat (length (v0 :: l))) (Z.of_nat (length (w0 :: k)))) as [El|El|El]; [|done..].
    rewrite (cmp_elements_ok _ _ _ _ _ (fun x y u z => Hr _ x y u z eq_refl) Hf Hf'); [done|].
    apply Hc. lia.
  - exfalso. destruct Hc; done.
  - exfalso. destruct Hc; done.
  - destruct Ha as [(_ & ? & _) | (_ & -> & _ & La & Ho)]; [done|]. destruct Hb as [(_ & ? & _) | (_ & -> & _ & Lb & Ho')]; [done|].
    cbn [orb vm_bind]. unfold cmp_binary, term_bits, load_box. rewrite Ho, Ho'. cbn [read vm_bind binary_bits].
    destruct Hc as [-> | ?]; [|done]. cbn [erl_cmp]. rewrite Z.compare_refl. rewrite <- La in Lb.
    rewrite (any_reader_binary _ _ _ _ Ho), (any_reader_binary _ _ _ _ Ho'). cbn [vm_bind].
    rewrite cmp_readers_ok by lia. cbn [conclude vm_bind]. by destruct (bytes_cmp xs ys).
Qed.

Lemma need_cons v l : need (VList (v :: l)) = (S (need v) + need (VList l))%nat.
Proof. cbn. lia. Qed.

(** Walking two lists to their first differing heads. *)
Lemma cmp_cons_ok l : forall k a b fuel,
  rep m atoms a (VList l) -> rep m atoms b (VList k) -> l <> [] -> lex_ok erl_cmp comparable l k -> (length l <= fuel)%nat ->
  cmp_cons m fuel (get_cons_ptr a) (get_cons_ptr b) = Ret (Concluded Eq) /\ lex erl_cmp l k = Eq \/
  exists x y v w at' bt l' k', cmp_cons m fuel (get_cons_ptr a) (get_cons_ptr b) = Ret (CompareNested x y (at', bt)) /\
    rep m atoms x v /\ rep m atoms y w /\ rep m atoms at' (VList l') /\ rep m atoms bt (VList k') /\
    lex erl_cmp l k = lex erl_cmp (v :: l') (w :: k') /\ lex_ok erl_cmp comparable (v :: l') (w :: k') /\
    (need (VList (v :: l')) <= need (VList l))%nat.
Proof.
  induction l as [|v l IH]; intros [|w k] a b fuel Ha Hb Hne Hok Hf; cbn [lex_ok] in Hok; try done.
  destruct fuel as [|fuel]; [cbn in Hf; lia|]. cbn [cmp_cons].
  apply rep_seen in Ha as (_ & ah & at' & Hca & Rah & Rat). apply rep_seen in Hb as (_ & bh & bt & Hcb & Rbh & Rbt).
  unfold load_cons. rewrite Hca, Hcb. cbn [read vm_bind].
  destruct (Z.eqb_spec (raw ah) (raw bh)) as [Eh|Eh]; cbn [negb].
  - apply term_eq in Eh. subst bh. assert (v = w) as -> by (by eapply rep_fun). destruct Hok as [Hc Hok].
    specialize (Hok (erl_cmp_refl w)). cbn [lex]. rewrite erl_cmp_refl.
    destruct (Z.eqb_spec (raw at') (raw bt)) as [Et|Et].
    + left. split; [done|]. apply term_eq in Et. subst bt.
      assert (VList l = VList k) as [= ->] by (by eapply rep_fun). apply (erl_cmp_refl (VList k)).
    + destruct l as [|u l], k as [|z k]; cbn [lex_ok] in Hok; try done.
      { apply rep_seen in Rat, Rbt. cbn in Rat, Rbt. congruence. }
      assert (is_list at' = true /\ is_list bt = true) as [-> ->].
      { apply rep_seen in Rat as [Ta _], Rbt as [Tb _]. unfold is_list, is_cons. rewrite Ta, Tb. split; apply orb_true_r. }
      cbn [negb orb]. destruct (IH (z :: k) at' bt fuel Rat Rbt) as [H | (x & y & v' & w' & p & q & l' & k' & H)];
        [done | done | cbn in *; lia | by left |]. right. exists x, y, v', w', p, q, l', k'.
      destruct H as (? & ? & ? & ? & ? & ? & ? & Hneed).
      do 7 (split; [done|]). rewrite (need_cons w). lia.
  - right. exists ah, bh, v, w, at', bt, l, k. do 7 (split; [done|]). done.
Qed.

Lemma need_elem l v : v ∈ l -> (need v < need (VTuple l))%nat.
Proof.
  cbn [need]. induction l as [|u l IH]; [set_solver|]. cbn. intros [->|H]%elem_of_cons; [lia|]. specialize (IH H). cbn in IH. lia.
Qed.
Lemma need_length l : (length l < need (VList l))%nat.
Proof. induction l as [|v l IH]; [cbn; lia|]. rewrite need_cons. cbn [length]. lia. Qed.
Lemma need_pos v : (0 < need v)%nat.
Proof. destruct v; cbn; lia. Qed.

Lemma diff_tag rec fuel a b v w ex :
  seen_as m atoms a v -> seen_as m atoms b w -> vtag v <> vtag w -> comparable v w ->
  cmp_terms_any_type m atoms rec fuel a b ex = Ret (Concluded (erl_cmp v w)).
Proof.
  intros Ha Hb Hne Hc. pose proof (seen_tag _ _ _ _ Ha) as Ta. pose proof (seen_tag _ _ _ _ Hb) as Tb.
  unfold cmp_terms_any_type, cmp_terms_primary, is_float, is_atom, is_small.
  rewrite !(seen_no_box _ _ _ Ha), !(seen_no_box _ _ _ Hb), Ta, Tb by done.
  rewrite (proj2 (Z.eqb_neq (vtag v) (vtag w)) Hne), (cmp_type_order_ok _ _ _ _ Ha Hb) by done. cbn [vm_bind negb orb andb].
  destruct (Z.eqb_spec (vtag v) ATOM), (Z.eqb_spec (vtag w) ATOM), (Z.eqb_spec (vtag v) SMALL_INT), (Z.eqb_spec (vtag w) SMALL_INT);
    cbn [andb orb]; try congruence; rewrite ?andb_false_r, ?andb_true_r; try done.
Qed.

(** What the loop does from one comparison on: it concludes, or goes on with the stack. *)
Definition resumes (f : nat) (op : Term * Term) (stack : list (Term * Term)) (ex : bool) (n : nat) (c : comparison) : Prop :=
  exists f', (f <= f' + n)%nat /\
    cmp_loop m atoms f op stack ex =
      match c with
      | Eq => match stack with [] => Ret Eq | op :: stack => cmp_loop m atoms f' op stack ex end
      | c => Ret c
      end.

(** The comparison of elements that a tuple makes. *)
Definition rec_at (f : nat) (a b : Term) : vm comparison :=
  if bool_decide (a = b) then Ret Eq else cmp_loop m atoms f (a, b) [] true.

Lemma resumes_concluded f a b stack ex v c :
  cmp_terms_any_type m atoms (rec_at f) f a b ex = Ret (Concluded c) -> resumes (S f) (a, b) stack ex (need v) c.
Proof.
  intros E. exists f. split; [pose proof (need_pos v); lia|]. cbn [cmp_loop fst snd]. fold (rec_at f). rewrite E. by destruct c.
Qed.

Lemma any_type_cons rec f a b v l w k ex :
  rep m atoms a (VList (v :: l)) -> rep m atoms b (VList (w :: k)) ->
  cmp_terms_any_type m atoms rec f a b ex = cmp_cons m f (get_cons_ptr a) (get_cons_ptr b).
Proof.
  intros Ra Rb. apply rep_seen in Ra as Sa, Rb as Sb. destruct Sa as [Ta _], Sb as [Tb _].
  unfold cmp_terms_any_type, cmp_terms_primary, is_float, is_boxed_of_type, is_boxed_of_, is_boxed, is_atom, is_small, is_cons.
  rewrite Ta, Tb. cbn. by rewrite andb_false_r.
Qed.

Lemma cmp_loop_ok n : forall v w a b f stack ex,
  (need v <= n)%nat -> (need v <= f)%nat -> rep m atoms a v -> rep m atoms b w -> comparable v w ->
  resumes f (a, b) stack ex (need v) (erl_cmp v w).
Proof.
  induction n as [|n IH]; intros v w a b f stack ex Hn Hf Ra Rb Hc; [pose proof (need_pos v); lia|].
  destruct f as [|f]; [pose proof (need_pos v); lia|].
  pose proof (rep_seen _ _ _ _ Ra) as Sa. pose proof (rep_seen _ _ _ _ Rb) as Sb.
  destruct (decide (vtag v = vtag w)) as [Et|Et]; [|by apply resumes_concluded, diff_tag].
  destruct (decide (vtag v = BOX_PTR)) as [Eb|Eb].
  { apply resumes_concluded, same_tag_box; try done; [congruence|]. intros l x y u z -> Hu Rx Ry Huz.
    pose proof (need_elem _ _ Hu). unfold rec_at. case_bool_decide as Exy.
    - subst y. assert (u = z) as -> by (by eapply rep_fun). by rewrite erl_cmp_refl.
    - destruct (IH u z x y f [] true) as (f' & _ & ->); [lia | lia | done | done | done |]. by destruct (erl_cmp u z). }
  destruct (decide (vtag v = CONS_PTR)) as [Ec|Ec]; [|by apply resumes_concluded, same_tag_immed].
  destruct (proj1 (list_tag v) Ec) as (v0 & l & ->). rewrite Et in Ec. destruct (proj1 (list_tag w) Ec) as (w0 & k & ->).
  destruct Hc as [[_ ?] | Hok]; [done|]. pose proof (need_length (v0 :: l)).
  destruct (cmp_cons_ok _ _ _ _ f Ra Rb ltac:(done) Hok ltac:(lia))
    as [[E El] | (x & y & v1 & w1 & p & q & l' & k' & E & Rx & Ry & Rp & Rq & El & Hok' & Hle)].
  { cbn [erl_cmp]. rewrite El. apply resumes_concluded. by erewrite any_type_cons. }
  rewrite need_cons in Hle. destruct Hok' as [Hc1 Hok'].
  destruct (IH v1 w1 x y f ((p, q) :: stack) ex) as (f1 & Hf1 & E1); [lia | lia | done | done | done |].
  unfold resumes. cbn [cmp_loop fst snd]. fold (rec_at f). erewrite any_type_cons, E by done. cbn [vm_bind]. rewrite E1.
  cbn [erl_cmp]. rewrite El. cbn [lex]. destruct (erl_cmp v1 w1); [|exists f1; split; [lia | done]..].
  destruct (IH (VList l') (VList k') p q f1 stack ex) as (f2 & Hf2 & E2); [lia | lia | done | done | right; by apply Hok' |].
  exists f2. split; [lia|]. exact E2.
Qed.
End Seen.

(** * Properties *)

(** C39: comparing terms is the order of Erlang where the emulator implements it.  For two
    terms that stand for values built from small integers, atoms, local pids, bit strings,
    tuples and proper lists, and that are comparable, [cmp_terms] (with a stack for lists and
    recursion for tuples) returns, within fuel linear in the first value, the order of the
    values; so [=:=] and [=/=] decide whether they are the same value. *)
Theorem cmp_terms_order m atoms a b v w exact fuel :
  rep m atoms a v -> rep m atoms b w -> comparable v w -> (need v <= fuel)%nat ->
  cmp_terms m atoms fuel a b exact = Ret (erl_cmp v w) /\
  exists e, is_eq_exact m atoms fuel a b = Ret (negb e) /\ is_ne_exact m atoms fuel a b = Ret e /\ (e = true <-> v = w).
Proof.
  intros Ra Rb Hc Hf.
  assert (forall ex, cmp_terms m atoms fuel a b ex = Ret (erl_cmp v w)) as E.
  { intros ex. unfold cmp_terms. case_bool_decide as Eab.
    - subst b. assert (v = w) as -> by (by eapply rep_fun). by rewrite erl_cmp_refl.
    - destruct (cmp_loop_ok m atoms (need v) v w a b fuel [] ex) as (f' & _ & ->); try done. by destruct (erl_cmp v w). }
  split; [apply E|]. exists (bool_decide (erl_cmp v w = Eq)).
  unfold is_eq_exact, is_ne_exact, generic_comparison. rewrite E. cbn [vm_bind]. split_and!.
  - by case_bool_decide.
  - by case_bool_decide.
  - rewrite bool_decide_eq_true. apply erl_cmp_eq.
Qed.

(** * At concrete terms *)

Module CompareWitness.

(** [1,{2,ok}] twice, at different addresses, [1,{2,no}], and the parts of other values. *)
Definition tup (p : Z) : Term := from_raw (p + 3).
Definition ok_atom : Term := make_atom 0.
Definition no_atom : Term := make_atom 1.
Definition mem : Memory := {|
  boxes := list_to_map
    [(800, OTuple [make_small_signed 2; ok_atom]); (824, OTuple [make_small_signed 2; ok_atom]);
     (848, OTuple [make_small_signed 2; no_atom]); (904, OBinary 8 [2]); (928, OBinary 16 [1; 1])];
  conses := list_to_map
    [(8, (make_small_signed 1, make_cons 24)); (24, (tup 800, nil));
     (40, (make_small_signed 1, make_cons 56)); (56, (tup 824, nil));
     (72, (make_small_signed 1, make_cons 88)); (88, (tup 848, nil));
     (104, (make_small_signed 1, nil)); (120, (make_small_signed 1, make_cons 136)); (136, (make_small_signed 2, nil))]
|}.

Definition names : AtomStorage :=
  match register_all empty_storage ["ok"; "no"; "b"; "aa"]%string with Some st => st | None => empty_storage end.

Definition value (n : Z) (s : string) : val := VList [VInt n; VTuple [VInt 2; VAtom s]].

Lemma rep_small n x : - 2 ^ 60 <= n < 2 ^ 60 -> x = make_small_signed n -> rep mem names x (VInt n).
Proof. intros Hn ->. by constructor. Qed.

Lemma rep_value p q s i a : 0 < p < 2 ^ 20 -> p mod 8 = 0 -> 0 < q < 2 ^ 20 -> q mod 8 = 0 ->
  conses mem !! p = Some (make_small_signed 1, make_cons (p + 16)) -> conses mem !! (p + 16) = Some (tup q, nil) ->
  boxes mem !! q = Some (OTuple [make_small_signed 2; make_atom i]) ->
  0 <= i < 2 ^ 61 -> atoms_by_index names !! Z.to_nat i = Some a -> name a = s -> new_atom s = Some a ->
  rep mem names (make_cons p) (value 1 s).
Proof.
  intros Hp Hp8 Hq Hq8 H1 H2 H3 Hi Ha <- Hn.
  eapply rep_cons; [lia | done | exact H1 | by constructor |].
  eapply rep_cons; [lia | Z.to_euclidean_division_equations; lia | exact H2 | | constructor].
  destruct (boxed_reads q) as (x & Ex & Er & _); [lia | done |].
  eapply rep_tuple; [| exact Hq8 | | exact H3 | | done]; [lia | |].
  - rewrite Ex. f_equal. apply term_eq. rewrite Er. done.
  - constructor; [by constructor|]. constructor; [|constructor]. by econstructor.
Qed.

Definition atom_ok : Atom := {| len := 2; ord0 := 1869283328; name := "ok" |}.
Definition atom_no : Atom := {| len := 2; ord0 := 1852768256; name := "no" |}.

(** Two lists with equal contents at different addresses, and one that differs. *)
Lemma cmp_terms_order_witness :
  (cmp_terms mem names 20 (make_cons 8) (make_cons 40) true = Ret Eq /\
   exists e, is_eq_exact mem names 20 (make_cons 8) (make_cons 40) = Ret (negb e)
     /\ is_ne_exact mem names 20 (make_cons 8) (make_cons 40) = Ret e /\ (e = true <-> value 1 "ok" = value 1 "ok")) /\
  cmp_terms mem names 20 (make_cons 8) (make_cons 72) false = Ret Gt.
Proof.
  assert (rep mem names (make_cons 8) (value 1 "ok")) as R1.
  { apply (rep_value 8 800 "ok" 0 atom_ok); (vm_compute; reflexivity) || (split; vm_compute; congruence). }
  assert (rep mem names (make_cons 40) (value 1 "ok")) as R2.
  { apply (rep_value 40 824 "ok" 0 atom_ok); (vm_compute; reflexivity) || (split; vm_compute; congruence). }
  assert (rep mem names (make_cons 72) (value 1 "no")) as R3.
  { apply (rep_value 72 848 "no" 1 atom_no); (vm_compute; reflexivity) || (split; vm_compute; congruence). }
  split.
  - apply (cmp_terms_order mem names _ _ (value 1 "ok") (value 1 "ok") true 20 R1 R2); [|cbn; lia].
    right. cbn. repeat split; intros; try lia; done.
  - apply (cmp_terms_order mem names _ _ (value 1 "ok") (value 1 "no") false 20 R1 R3); [|cbn; lia].
    right. cbn. repeat split; intros; try lia; done.
Defined.

(** ** Where the order is not Erlang's *)

(** [[] =:= [1]] holds (the opcode does not jump), although [[1] =:= []] does not. *)
Lemma nil_equals_list :
  is_eq_exact mem names 20 nil (make_cons 104) = Ret false /\ is_eq_exact mem names 20 (make_cons 104) nil = Ret true.
Proof. split; vm_compute; reflexivity. Qed.

(** [{} =:= {2,ok}] holds too. *)
Lemma empty_tuple_equals_tuple : is_eq_exact mem names 20 empty_tuple (tup 800) = Ret false.
Proof. vm_compute. reflexivity. Qed.

(** Comparing [1] with [1,2] follows the pointer in the empty list. *)
Lemma prefix_reads_wild : cmp_terms mem names 20 (make_cons 104) (make_cons 120) true = Wild.
Proof. vm_compute. reflexivity. Qed.

(** [b] comes before [aa], and <<2>> before <<1,1>>: the shorter is the smaller. *)
Lemma shorter_atom_first :
  cmp_terms mem names 20 (make_atom 2) (make_atom 3) true = Ret Lt /\ erl_cmp (VAtom "b") (VAtom "aa") = Gt.
Proof. split; vm_compute; reflexivity. Qed.
Lemma shorter_binary_first :
  cmp_terms mem names 20 (tup 904) (tup 928) true = Ret Lt /\ erl_cmp (VBin 8 [2]) (VBin 16 [1; 1]) = Gt.
Proof. split; vm_compute; reflexivity. Qed.

End CompareWitness.
