(* ===== verification/BeamMap.v ===== *)
(** The flat map of the emulator ([term/boxed/map.rs]): pairs sorted by key behind a box
    header, found by binary search. *)
From S2P Require Import Prelude BeamTerm BeamMem BeamCompare.

Inductive MapGetResult :=
| FoundAt (i : nat)
| ClosestLarger (i : nat).

(** Words of a box header in the release profile, and of the struct [Map]: the header and
    the count ([MapType] has one variant and takes no space). *)
Definition BoxHeader_storage_size : Z := 2.
Definition Map_struct_words : Z := 3.
Definition storage_size (num_pairs : Z) : Z := 2 * num_pairs + BoxHeader_storage_size.

(** A map on the heap: the words it was allocated, and its pairs; the count is their
    number. *)
Record Map := { storage_words : Z; pairs : list (Term * Term) }.

Definition new_map (num_pairs : Z) : Map := {| storage_words := storage_size num_pairs; pairs := [] |}.
Definition get_capacity (this : Map) : Z := storage_words this.
Definition get_count (this : Map) : Z := Z.of_nat (length (pairs this)).

(** The word, from the start of the box, where the value of pair [i] is stored. *)
Definition value_word (i : Z) : Z := Map_struct_words + 2 * i + 1.

Section Map.
Context (m : Memory) (atoms : AtomStorage) (cmp_fuel : nat).

(** The loop of the binary search between [a] and [b]. *)
Fixpoint flatmap_loop (fuel : nat) (l : list (Term * Term)) (key : Term) (a b : nat) : vm MapGetResult :=
  match fuel with
  | O => Spin
  | S fuel =>
    let median := (a + (b - a) / 2)%nat in
    do! kv := read (l !! median) in
    do! c := cmp_terms m atoms cmp_fuel kv.1 key true in
    match c with
    | Lt => if (a =? b)%nat then Ret (ClosestLarger (a + 1)) else flatmap_loop fuel l key a median
    | Gt => if (a =? b)%nat then Ret (ClosestLarger a) else flatmap_loop fuel l key median b
    | Eq => Ret (FoundAt median)
    end
  end.

Definition get_flatmap (fuel : nat) (this : Map) (key : Term) : vm MapGetResult :=
  match pairs this with
  | [] => Ret (ClosestLarger 0)
  | _ => flatmap_loop fuel (pairs this) key 0 (length (pairs this) - 1)
  end.

Definition get (fuel : nat) (this : Map) (key : Term) : vm (option Term) :=
  do! r := get_flatmap fuel this key in
  match r with
  | FoundAt i => do! kv := read (pairs this !! i) in Ret (Some kv.2)
  | ClosestLarger _ => Ret None
  end.

Definition add (fuel : nat) (this : Map) (key value : Term) : vm Map :=
  do! r := get_flatmap fuel this key in
  match r with
  | FoundAt i => Ret {| storage_words := storage_words this; pairs := <[i := (key, value)]> (pairs this) |}
  | ClosestLarger i =>
    if get_count this <? get_capacity this
    then Ret {| storage_words := storage_words this; pairs := vec_insert i (key, value) (pairs this) |}
    else Panic
  end.

(** ** What a found position means *)

Lemma flatmap_loop_found fuel l key : forall a b i,
  flatmap_loop fuel l key a b = Ret (FoundAt i) ->
  exists kv, l !! i = Some kv /\ cmp_terms m atoms cmp_fuel kv.1 key true = Ret Eq.
Proof.
  induction fuel as [|fuel IH]; intros a b i; cbn [flatmap_loop]; [done|].
  destruct (l !! (a + (b - a) / 2)%nat) as [kv|] eqn:El; [|done]. cbn [read vm_bind].
  destruct (cmp_terms m atoms cmp_fuel kv.1 key true) as [[]| | | |] eqn:Ec; cbn [vm_bind]; try done.
  - intros [= <-]. eauto.
  - case_match; [done | apply IH].
  - case_match; [done | apply IH].
Qed.

(** A value that [get] returns is that of a pair whose key compares equal. *)
Lemma get_sound fuel this key v :
  get fuel this key = Ret (Some v) ->
  exists k, (k, v) ∈ pairs this /\ cmp_terms m atoms cmp_fuel k key true = Ret Eq.
Proof.
  unfold get, get_flatmap. destruct (pairs this) as [|p l] eqn:Ep; [done|]. rewrite <- Ep.
  destruct (flatmap_loop _ _ _ _ _) as [[i|i]| | | |] eqn:E; cbn [vm_bind]; try done.
  destruct (flatmap_loop_found _ _ _ _ _ _ E) as ([k u] & El & Ec). rewrite El. cbn [read vm_bind snd].
  intros [= <-]. exists k. split; [by eapply list_elem_of_lookup_2 | done].
Qed.

(** A search whose probe stays at the lower bound and is larger than the key never ends. *)
Lemma flatmap_loop_stuck l key a kv :
  l !! a = Some kv -> cmp_terms m atoms cmp_fuel kv.1 key true = Ret Gt ->
  forall fuel, flatmap_loop fuel l key a (S a) = Spin.
Proof.
  intros El Ec. induction fuel as [|fuel IH]; cbn [flatmap_loop]; [done|].
  replace (a + (S a - a) / 2)%nat with a by (replace (S a - a)%nat with 1%nat by lia; cbn; lia).
  rewrite El. cbn [read vm_bind]. rewrite Ec. cbn [vm_bind].
  by rewrite (proj2 (Nat.eqb_neq a (S a))) by lia.
Qed.
End Map.

(** The allocation does not cover the count: in a full map the last value lies past it. *)
Lemma map_overflows_allocation (num_pairs : Z) : 0 < num_pairs ->
  storage_size num_pairs <= value_word (num_pairs - 1).
Proof. unfold storage_size, value_word, BoxHeader_storage_size, Map_struct_words. lia. Qed.

Module MapWitness.
Definition mem : Memory := {| boxes := ∅; conses := ∅ |}.
Definition int (n : Z) : Term := make_small_signed n.
Definition two : Map := {| storage_words := 6; pairs := [(int 1, int 10); (int 2, int 20)] |}.

Lemma two_is_built :
  (do! x := add mem empty_storage 5 5 (new_map 2) (int 1) (int 10) in add mem empty_storage 5 5 x (int 2) (int 20)) = Ret two.
Proof. vm_compute. reflexivity. Qed.

(** The second key is not found, so that adding it again duplicates it. *)
Lemma second_key_lost : get mem empty_storage 5 5 two (int 2) = Ret None.
Proof. vm_compute. reflexivity. Qed.
Lemma second_key_doubled :
  add mem empty_storage 5 5 two (int 2) (int 30) =
  Ret {| storage_words := 6; pairs := [(int 1, int 10); (int 2, int 30); (int 2, int 20)] |}.
Proof. vm_compute. reflexivity. Qed.

(** Looking up a key below the first never ends. *)
Lemma smaller_key_spins : forall fuel, get mem empty_storage 5 fuel two (int 0) = Spin.
Proof.
  intros fuel. unfold get. cbn [get_flatmap two pairs length Nat.sub].
  by rewrite (flatmap_loop_stuck mem empty_storage 5 _ (int 0) 0 (int 1, int 10)) by (vm_compute; reflexivity).
Qed.

(** A third key is put before the second. *)
Lemma third_key_unsorted :
  add mem empty_storage 5 5 two (int 3) (int 30) =
  Ret {| storage_words := 6; pairs := [(int 1, int 10); (int 3, int 30); (int 2, int 20)] |}.
Proof. vm_compute. reflexivity. Qed.
End MapWitness.
