(* ===== verification/BeamHeap.v ===== *)
(** The memory of an emulated process ([emulator/heap/heap_incremental.rs]): one block of
    words in which the heap grows up and the stack grows down. *)
From S2P Require Import Prelude BeamTerm BeamMem.

Inductive AllocInit := FillNil | Uninitialized.

Inductive Designation :=
| ProcessHeap | ModuleLiterals | BinaryHeap | TransientDestructible | ProgramArgumentsHeap.

(** Positions are word indices into [data]; a pointer into the block is its base plus eight
    times the index. *)
Record Heap := {
  data : list Z;
  heap_top : Z;
  stack_top : Z;
  capacity : Z
}.

Definition get_size_for (d : Designation) : Z :=
  match d with
  | ProcessHeap => 262144
  | ModuleLiterals => 8192
  | BinaryHeap => 65536
  | TransientDestructible => 1
  | ProgramArgumentsHeap => 512
  end.

(** The fresh block holds whatever was in the memory. *)
Definition new_heap (d : Designation) (garbage : list Z) : Heap :=
  {| data := garbage; heap_top := 0; stack_top := get_size_for d; capacity := get_size_for d |}.

(** [data[i]], which panics out of range. *)
Definition word_at (h : Heap) (i : Z) : option Z := if 0 <=? i then data h !! Z.to_nat i else None.

Definition set_words (h : Heap) (d : list Z) : Heap :=
  {| data := d; heap_top := heap_top h; stack_top := stack_top h; capacity := capacity h |}.

Definition set_word (h : Heap) (i : Z) (w : Z) : option Heap :=
  match word_at h i with Some _ => Some (set_words h (<[Z.to_nat i := w]> (data h))) | None => None end.

(** A loop of writes through a pointer, from word [i] on. *)
Fixpoint fill_words (n : nat) (i : nat) (w : Z) (d : list Z) : list Z :=
  match n with O => d | S n => fill_words n (S i) w (<[i := w]> d) end.

Definition fill_from (h : Heap) (i n : Z) (fill : AllocInit) : Heap :=
  match fill with
  | FillNil => set_words h (fill_words (Z.to_nat n) (Z.to_nat i) (raw nil) (data h))
  | Uninitialized => h
  end.

(** The index of the new chunk. *)
Definition alloc (h : Heap) (n : Z) (fill : AllocInit) : vm (Z * Heap) :=
  let pos := heap_top h in
  if stack_top h <=? pos + n then Panic else
  let h := fill_from h pos n fill in
  Ret (pos, {| data := data h; heap_top := heap_top h + n; stack_top := stack_top h; capacity := capacity h |}).

Definition stack_have_y (h : Heap) (y : Z) : bool := y + 1 <=? capacity h - stack_top h.

Definition get_y_unchecked (h : Heap) (index : Z) : vm Term :=
  do! w := unwrap (word_at h (index + stack_top h + 1)) in Ret (from_raw w).

Definition get_y (h : Heap) (index : Z) : vm Term :=
  if negb (stack_have_y h index) then Fail (StackIndexRange index) else get_y_unchecked h index.

Definition set_y (h : Heap) (index : Z) (val : Term) : vm Heap :=
  if negb (stack_have_y h index) then Fail (StackIndexRange index)
  else unwrap (set_word h (index + stack_top h + 1) (raw val)).

Definition set_stack_top (h : Heap) (t : Z) : Heap :=
  {| data := data h; heap_top := heap_top h; stack_top := t; capacity := capacity h |}.

Definition stack_deallocate (h : Heap) (n : Z) : vm (Term * Heap) :=
  if capacity h <=? stack_top h + n then Panic else
  do! w := unwrap (word_at h (stack_top h)) in
  if is_cp (from_raw w) then Ret (from_raw w, set_stack_top h (stack_top h + (n + 1))) else Panic.

Definition heap_check_available (h : Heap) (need : Z) : bool := heap_top h + need <=? stack_top h.
Definition stack_check_available (h : Heap) (need : Z) : bool := heap_top h + need <=? stack_top h.

(** Without a check: below word 0 the subtraction wraps. *)
Definition stack_alloc (h : Heap) (need : Z) (fill : AllocInit) : vm Heap :=
  if need =? 0 then Ret h
  else if stack_top h <? need then Wild
  else let h := set_stack_top h (stack_top h - need) in Ret (fill_from h (stack_top h) need fill).

Definition stack_depth (h : Heap) : Z := capacity h - stack_top h.

Definition stack_push_lterm_unchecked (h : Heap) (val : Term) : vm Heap :=
  let h := set_stack_top h (stack_top h - 1) in unwrap (set_word h (stack_top h) (raw val)).

Definition drop_stack_words (h : Heap) (n_drop : Z) : vm Heap :=
  if stack_top h + n_drop <? capacity h then Ret (set_stack_top h (stack_top h + n_drop)) else Panic.

Record NextCatchResult := { loc : Z; stack_drop : Z }.

(** The scan from the stack top, over the words that are left. *)
Fixpoint unroll_loop (ws : list Z) (drop : Z) : option NextCatchResult :=
  match ws with
  | [] => None
  | w :: ws =>
    match get_catch_ptr (from_raw w) with
    | Some p => Some {| loc := p; stack_drop := usize_sub drop 1 |}
    | None => unroll_loop ws (drop + 1)
    end
  end.

Definition stack_words (h : Heap) : list Z := drop (Z.to_nat (stack_top h)) (take (Z.to_nat (capacity h)) (data h)).

Definition unroll_stack_until_catch (h : Heap) : option NextCatchResult := unroll_loop (stack_words h) 0.

(** Of a pointer, given as its index from the start of the block. *)
Definition belongs_to_heap (h : Heap) (p : Z) : bool := (p <? 0) || (heap_top h <=? p).

(** * The invariant *)

Definition heap_ok (h : Heap) : Prop :=
  0 <= heap_top h <= stack_top h /\ stack_top h <= capacity h /\ Z.of_nat (length (data h)) = capacity h.

(** The words [i] of [h] and [h'] agree. *)
Definition same_at (h h' : Heap) (i : Z) : Prop := word_at h' i = word_at h i.

Lemma new_heap_ok d garbage : Z.of_nat (length garbage) = get_size_for d -> heap_ok (new_heap d garbage).
Proof. unfold heap_ok. cbn. intros ->. destruct d; cbn; lia. Qed.

Lemma fill_words_length n : forall i w d, length (fill_words n i w d) = length d.
Proof. induction n; intros; cbn; [done|]. by rewrite IHn, length_insert. Qed.

Lemma fill_words_other n : forall i w d j, (j < i \/ i + n <= j)%nat -> fill_words n i w d !! j = d !! j.
Proof.
  induction n as [|n IH]; intros i w d j Hj; cbn; [done|]. rewrite IH by lia. apply list_lookup_insert_ne. lia.
Qed.

Lemma fill_words_in n : forall i w d j, (i <= j < i + n)%nat -> (j < length d)%nat -> fill_words n i w d !! j = Some w.
Proof.
  induction n as [|n IH]; intros i w d j Hj Hl; cbn; [lia|].
  destruct (decide (j = i)) as [->|Hne].
  - rewrite fill_words_other by lia. by apply list_lookup_insert_eq.
  - apply IH; [lia|]. by rewrite length_insert.
Qed.

Lemma fill_from_facts h i n fill : 0 <= i -> 0 <= n ->
  heap_top (fill_from h i n fill) = heap_top h /\ stack_top (fill_from h i n fill) = stack_top h /\
  capacity (fill_from h i n fill) = capacity h /\ length (data (fill_from h i n fill)) = length (data h) /\
  (forall j, j < i \/ i + n <= j -> same_at h (fill_from h i n fill) j) /\
  (fill = FillNil -> forall j, i <= j < i + n -> j < Z.of_nat (length (data h)) -> word_at (fill_from h i n fill) j = Some (raw nil)).
Proof.
  intros Hi Hn. unfold fill_from, same_at, word_at, set_words. destruct fill; cbn [data heap_top stack_top capacity].
  - rewrite fill_words_length. split_and!; try done.
    + intros j Hj. case_match; zify_bool; [|done]. apply fill_words_other. lia.
    + intros _ j Hj Hl. case_match; zify_bool; [|lia]. apply fill_words_in; lia.
  - split_and!; try done.
Qed.

Lemma word_at_Some h i : 0 <= i < Z.of_nat (length (data h)) -> exists w, word_at h i = Some w.
Proof.
  intros Hi. unfold word_at. rewrite (proj2 (Z.leb_le 0 i)) by lia.
  destruct (lookup_lt_is_Some_2 (data h) (Z.to_nat i)) as [w ->]; [lia | eauto].
Qed.

Lemma set_word_facts h i w : 0 <= i < Z.of_nat (length (data h)) ->
  exists h', set_word h i w = Some h' /\ heap_top h' = heap_top h /\ stack_top h' = stack_top h /\
    capacity h' = capacity h /\ length (data h') = length (data h) /\ word_at h' i = Some w /\
    (forall j, j <> i -> same_at h h' j).
Proof.
  intros Hi. unfold set_word. destruct (word_at_Some h i Hi) as [w0 ->]. eexists. split; [done|].
  unfold set_words, same_at, word_at. cbn [data heap_top stack_top capacity]. rewrite length_insert.
  split_and!; try done.
  - rewrite (proj2 (Z.leb_le 0 i)) by lia. apply list_lookup_insert_eq. lia.
  - intros j Hj. case_match; zify_bool; [|done]. apply list_lookup_insert_ne. lia.
Qed.

(** ** The operations keep it *)

Lemma alloc_spec h n fill : heap_ok h -> 0 <= n ->
  (stack_top h <= heap_top h + n /\ alloc h n fill = Panic) \/
  (heap_top h + n < stack_top h /\ exists h', alloc h n fill = Ret (heap_top h, h') /\ heap_ok h' /\
     heap_top h' = heap_top h + n /\ stack_top h' = stack_top h /\ capacity h' = capacity h /\
     (forall j, j < heap_top h \/ heap_top h + n <= j -> same_at h h' j) /\
     (fill = FillNil -> forall j, heap_top h <= j < heap_top h + n -> word_at h' j = Some (raw nil))).
Proof.
  intros (Ht & Hs & Hl) Hn. unfold alloc. case_match; zify_bool; [by left|]. right. split; [done|].
  destruct (fill_from_facts h (heap_top h) n fill ltac:(lia) Hn) as (E1 & E2 & E3 & E4 & Hout & Hin).
  eexists. split; [reflexivity|]. rewrite E1, E2, E3. unfold heap_ok. cbn [data heap_top stack_top capacity].
  rewrite E4. repeat split; try lia.
  - intros j Hj. exact (Hout j Hj).
  - intros Hf j Hj. apply (Hin Hf j Hj). lia.
Qed.

Lemma stack_alloc_spec h n fill : heap_ok h -> 0 <= n -> stack_check_available h n = true ->
  exists h', stack_alloc h n fill = Ret h' /\ heap_ok h' /\ heap_top h' = heap_top h /\
    stack_top h' = stack_top h - n /\ capacity h' = capacity h /\
    (forall j, j < stack_top h - n \/ stack_top h <= j -> same_at h h' j) /\
    (fill = FillNil -> forall j, stack_top h - n <= j < stack_top h -> word_at h' j = Some (raw nil)).
Proof.
  unfold stack_check_available. intros (Ht & Hs & Hl) Hn Ha. zify_bool. unfold stack_alloc.
  destruct (Z.eqb_spec n 0) as [->|Hn0].
  { exists h. split; [done|]. unfold heap_ok, same_at. repeat split; try lia; done. }
  rewrite (proj2 (Z.ltb_ge _ _)) by lia. eexists. split; [reflexivity|].
  set (h1 := set_stack_top h (stack_top h - n)).
  destruct (fill_from_facts h1 (stack_top h1) n fill ltac:(cbn; lia) Hn) as (E1 & E2 & E3 & E4 & Hout & Hin).
  unfold heap_ok. rewrite E1, E2, E3, E4. cbn [h1 set_stack_top data heap_top stack_top capacity] in *.
  repeat split; try lia.
  - intros j Hj. apply (Hout j). lia.
  - intros Hf j Hj. apply (Hin Hf j); lia.
Qed.

Lemma push_spec h x : heap_ok h -> stack_check_available h 1 = true ->
  exists h', stack_push_lterm_unchecked h x = Ret h' /\ heap_ok h' /\ heap_top h' = heap_top h /\
    stack_top h' = stack_top h - 1 /\ capacity h' = capacity h /\ word_at h' (stack_top h') = Some (raw x) /\
    (forall j, j <> stack_top h - 1 -> same_at h h' j).
Proof.
  unfold stack_check_available. intros (Ht & Hs & Hl) Ha. zify_bool. unfold stack_push_lterm_unchecked.
  set (h1 := set_stack_top h (stack_top h - 1)).
  destruct (set_word_facts h1 (stack_top h1) (raw x)) as (h' & -> & E1 & E2 & E3 & E4 & E5 & Hout); [cbn; lia|].
  exists h'. cbn [unwrap]. split; [done|]. unfold heap_ok. rewrite E1, E2, E3, E4.
  cbn [h1 set_stack_top data heap_top stack_top capacity] in *. repeat split; try lia; try done.
Qed.

Lemma set_y_spec h i x : heap_ok h -> 0 <= i < stack_depth h - 1 ->
  exists h', set_y h i x = Ret h' /\ heap_ok h' /\ heap_top h' = heap_top h /\ stack_top h' = stack_top h /\
    capacity h' = capacity h /\ get_y h' i = Ret x /\ (forall j, j <> stack_top h + 1 + i -> same_at h h' j).
Proof.
  unfold stack_depth. intros (Ht & Hs & Hl) Hi. unfold set_y, get_y, get_y_unchecked, stack_have_y.
  rewrite (proj2 (Z.leb_le _ _)) by lia. cbn [negb].
  destruct (set_word_facts h (i + stack_top h + 1) (raw x)) as (h' & -> & E1 & E2 & E3 & E4 & E5 & Hout); [lia|].
  exists h'. cbn [unwrap]. split; [done|]. unfold heap_ok. rewrite E1, E2, E3, E4, E5, (proj2 (Z.leb_le _ _)) by lia.
  repeat split; try lia.
  - cbn. by destruct x.
  - intros j Hj. apply Hout. lia.
Qed.

Lemma deallocate_spec h n w : heap_ok h -> 0 <= n < stack_depth h -> word_at h (stack_top h) = Some w ->
  is_cp (from_raw w) = true ->
  stack_deallocate h n = Ret (from_raw w, set_stack_top h (stack_top h + (n + 1))) /\
  heap_ok (set_stack_top h (stack_top h + (n + 1))).
Proof.
  unfold stack_depth. intros (Ht & Hs & Hl) Hn Hw Hc. unfold stack_deallocate.
  rewrite (proj2 (Z.leb_gt _ _)), Hw by lia. cbn [unwrap vm_bind]. rewrite Hc. split; [done|].
  unfold heap_ok. cbn. lia.
Qed.

(** Reading a Y register is reading its word. *)
Lemma get_y_at h i x : heap_ok h -> 0 <= i < stack_depth h - 1 ->
  get_y h i = Ret x <-> word_at h (stack_top h + 1 + i) = Some (raw x).
Proof.
  unfold stack_depth. intros (Ht & Hs & Hl) Hi. unfold get_y, get_y_unchecked, stack_have_y.
  rewrite (proj2 (Z.leb_le _ _)) by lia. cbn [negb]. replace (i + stack_top h + 1) with (stack_top h + 1 + i) by lia.
  destruct (word_at_Some h (stack_top h + 1 + i)) as [w ->]; [lia|]. cbn [unwrap vm_bind].
  split; [intros [= <-]; done | intros [= ->]; by destruct x].
Qed.

(** ** A frame: Y registers between a push and a pop *)

(** The stores into Y registers that the body of a function makes. *)
Fixpoint set_ys (h : Heap) (writes : list (Z * Term)) : vm Heap :=
  match writes with
  | [] => Ret h
  | (i, x) :: writes => do! h := set_y h i x in set_ys h writes
  end.

(** The last value stored into register [i], or the one before. *)
Fixpoint last_write (writes : list (Z * Term)) (i : Z) (x : Term) : Term :=
  match writes with
  | [] => x
  | (j, y) :: writes => last_write writes i (if j =? i then y else x)
  end.

(** What stays of [h] while its frame of [n] registers, above the words from [base], is
    written. *)
Definition frame_of (h0 h : Heap) (n : Z) (cp : Term) : Prop :=
  heap_ok h /\ heap_top h = heap_top h0 /\ stack_top h = stack_top h0 - (n + 1) /\ capacity h = capacity h0 /\
  word_at h (stack_top h) = Some (raw cp) /\
  (forall j, j < stack_top h \/ stack_top h0 <= j -> same_at h0 h j).

Lemma open_frame h n cp : heap_ok h -> 0 <= n -> stack_check_available h (n + 1) = true ->
  exists h', (do! h1 := stack_alloc h n FillNil in stack_push_lterm_unchecked h1 cp) = Ret h' /\
    frame_of h h' n cp /\ forall i, 0 <= i < n -> get_y h' i = Ret nil.
Proof.
  intros H Hn Ha. pose proof H as (Ht & Hs & Hl). unfold stack_check_available in Ha. zify_bool.
  destruct (stack_alloc_spec h n FillNil H Hn) as (h1 & E1 & O1 & T1 & S1 & C1 & Out1 & In1); [unfold stack_check_available; lia|].
  destruct (push_spec h1 cp O1) as (h2 & E2 & O2 & T2 & S2 & C2 & W2 & Out2); [unfold stack_check_available; lia|].
  exists h2. rewrite E1. cbn [vm_bind]. split; [done|]. split.
  - unfold frame_of. split_and!; try done; try lia. intros j Hj. unfold same_at in *. rewrite Out2, Out1 by lia. done.
  - intros i Hi. apply get_y_at; [done | unfold stack_depth; lia |]. rewrite Out2 by lia. apply (In1 eq_refl). lia.
Qed.

Lemma write_frame h0 n cp writes : forall h f, 0 <= n -> 0 < capacity h0 - stack_top h0 + 1 ->
  frame_of h0 h n cp -> (forall i, 0 <= i < n -> get_y h i = Ret (f i)) ->
  Forall (fun w => 0 <= w.1 < n) writes ->
  exists h', set_ys h writes = Ret h' /\ frame_of h0 h' n cp /\
    forall i, 0 <= i < n -> get_y h' i = Ret (last_write writes i (f i)).
Proof.
  induction writes as [|[j x] writes IH]; intros h f Hn Hd Hf Hy Hw; cbn [set_ys last_write]; [eauto|].
  apply Forall_cons in Hw as [Hj Hw]. cbn [fst] in Hj.
  destruct Hf as (O & T & S & C & W & Out). pose proof O as (Ht & Hs & Hl).
  destruct (set_y_spec h j x O) as (h1 & E1 & O1 & T1 & S1 & C1 & Y1 & Out1); [unfold stack_depth; lia|].
  rewrite E1. cbn [vm_bind].
  apply (IH h1 (fun i => if j =? i then x else f i) Hn Hd); [| | done].
  - unfold frame_of. rewrite S1. split_and!; try done; try lia.
    + unfold same_at in Out1. rewrite Out1 by lia. done.
    + intros i Hi. unfold same_at in *. rewrite Out1 by lia. apply Out. done.
  - intros i Hi. destruct (Z.eqb_spec j i) as [->|Hne]; [done|].
    apply get_y_at; [done | unfold stack_depth; lia |]. rewrite S1. rewrite Out1 by lia.
    apply get_y_at; [done | unfold stack_depth; lia | by apply Hy].
Qed.

(** A stack frame is private and is given back whole.  With room for it, allocating a
    frame of [n] Y registers over a return address starts them at nil; after any stores into
    them, each reads the value last stored; and deallocating returns that return address and
    restores the stack top, with every word of the heap and of the caller's stack as it was. *)
Theorem call_frame_restores (h : Heap) (n : Z) (cp : Term) (writes : list (Z * Term)) :
  heap_ok h -> 0 <= n -> stack_check_available h (n + 1) = true -> is_cp cp = true ->
  Forall (fun w => 0 <= w.1 < n) writes ->
  exists h2 h3 h4,
    (do! h1 := stack_alloc h n FillNil in stack_push_lterm_unchecked h1 cp) = Ret h2 /\
    set_ys h2 writes = Ret h3 /\ stack_deallocate h3 n = Ret (cp, h4) /\
    (forall i, 0 <= i < n -> get_y h3 i = Ret (last_write writes i nil)) /\
    heap_ok h4 /\ heap_top h4 = heap_top h /\ stack_top h4 = stack_top h /\
    (forall j, j < heap_top h \/ stack_top h <= j -> same_at h h4 j).
Proof.
  intros H Hn Ha Hc Hw. pose proof H as (Ht & Hs & Hl). unfold stack_check_available in Ha. zify_bool.
  destruct (open_frame h n cp H Hn) as (h2 & E2 & F2 & Y2); [unfold stack_check_available; lia|].
  destruct (write_frame h n cp writes h2 (fun _ => nil) Hn ltac:(lia) F2 Y2 Hw) as (h3 & E3 & F3 & Y3).
  destruct F3 as (O3 & T3 & S3 & C3 & W3 & Out3).
  destruct (deallocate_spec h3 n (raw cp)) as [E4 O4];
    [done | unfold stack_depth; lia | done | by destruct cp |].
  exists h2, h3, (set_stack_top h3 (stack_top h3 + (n + 1))). rewrite E4. destruct cp as [c].
  split_and!; try done; cbn [set_stack_top heap_top stack_top]; try lia.
  intros j Hj. unfold same_at. change (word_at (set_stack_top h3 _) j) with (word_at h3 j). apply Out3. lia.
Qed.

(** ** Where the bounds are off by one *)

(** The check of [get_y] and [set_y] admits one register more than there are words above
    the return address: at the bottom of the stack the access panics instead of failing. *)
Lemma last_y_panics h : heap_ok h -> stack_top h < capacity h -> get_y h (stack_depth h - 1) = Panic.
Proof.
  intros (Ht & Hs & Hl) Hd. unfold get_y, get_y_unchecked, stack_have_y, stack_depth.
  rewrite (proj2 (Z.leb_le _ _)) by lia. cbn [negb]. unfold word_at. case_match; [|done].
  rewrite lookup_ge_None_2; [done | lia].
Qed.

(** A request that exactly fills the block passes the check and then panics. *)
Lemma exact_fit_panics h n fill : heap_ok h -> heap_top h + n = stack_top h ->
  heap_check_available h n = true /\ alloc h n fill = Panic.
Proof.
  intros (Ht & Hs & Hl) Hn. unfold heap_check_available, alloc. rewrite Hn, Z.leb_refl. done.
Qed.

(** [belongs_to_heap] answers the opposite. *)
Lemma belongs_to_heap_inverted h p : belongs_to_heap h p = true <-> ~ (0 <= p < heap_top h).
Proof. unfold belongs_to_heap. rewrite orb_true_iff. lia. Qed.

Module HeapWitness.
Definition h0 : Heap := {| data := replicate 8 99; heap_top := 2; stack_top := 7; capacity := 8 |}.
Definition cp0 : Term := from_raw (2 ^ 63 + 83).

(** A frame of two registers, both stored into, the second twice. *)
Lemma call_frame_restores_witness :
  exists h2 h3 h4,
    (do! h1 := stack_alloc h0 2 FillNil in stack_push_lterm_unchecked h1 cp0) = Ret h2 /\
    set_ys h2 [(0, small_1); (1, small_0); (1, TRUE)] = Ret h3 /\ stack_deallocate h3 2 = Ret (cp0, h4) /\
    (forall i, 0 <= i < 2 -> get_y h3 i = Ret (last_write [(0, small_1); (1, small_0); (1, TRUE)] i nil)) /\
    heap_ok h4 /\ heap_top h4 = 2 /\ stack_top h4 = 7 /\
    (forall j, j < 2 \/ 7 <= j -> same_at h0 h4 j).
Proof.
  apply (call_frame_restores h0 2 cp0 [(0, small_1); (1, small_0); (1, TRUE)]).
  - split_and!; cbn; lia.
  - lia.
  - reflexivity.
  - vm_compute. reflexivity.
  - repeat constructor; cbn; lia.
Defined.
End HeapWitness.
