(* ===== verification/BeamProc.v ===== *)
(** An emulated process: its mailbox ([emulator/mailbox.rs]), its registers
    ([emulator/runtime_ctx/mod.rs]), the process record ([emulator/process.rs]) and the
    opcodes for calls, stack frames, exceptions and messages
    ([beam/opcodes/op_execution.rs], [op_memory.rs], [op_try_catch.rs], [op_message.rs]). *)
From S2P Require Import Prelude Float64 BeamTerm BeamMem BeamHeap.

(** * The mailbox *)

Record ProcessMailbox := { inbox : list Term; read_index : nat }.

Definition new_mailbox : ProcessMailbox := {| inbox := []; read_index := 0 |}.

Definition have_unread_messages (mb : ProcessMailbox) : bool := (read_index mb <? length (inbox mb))%nat.

Definition put (mb : ProcessMailbox) (message : Term) : ProcessMailbox :=
  {| inbox := inbox mb ++ [message]; read_index := read_index mb |}.

Definition get_current (mb : ProcessMailbox) : vm (option Term) :=
  match inbox mb with
  | [] => Ret None
  | _ => do! x := unwrap (inbox mb !! read_index mb) in Ret (Some x)
  end.

(** The loop of [step_over]: the next value from [mri] on, around the mailbox; [None] after a
    full round. *)
Fixpoint step_loop (fuel : nat) (l : list Term) (starting_pos mri : nat) : vm (option nat) :=
  match fuel with
  | O => Spin
  | S fuel =>
    do! x := unwrap (l !! mri) in
    if is_non_value x then
      let mri := S mri in
      let mri := if (mri =? length l)%nat then O else mri in
      if (mri =? starting_pos)%nat then Ret None else step_loop fuel l starting_pos mri
    else Ret (Some mri)
  end.

Definition step_over (mb : ProcessMailbox) : vm ProcessMailbox :=
  match inbox mb with
  | [] => Ret {| inbox := []; read_index := 0 |}
  | l =>
    do! r := step_loop (S (length l)) l (read_index mb) (read_index mb) in
    Ret (match r with
         | Some mri => {| inbox := l; read_index := mri |}
         | None => {| inbox := []; read_index := 0 |}
         end)
  end.

Definition reset_read_index (mb : ProcessMailbox) : ProcessMailbox := {| inbox := inbox mb; read_index := 0 |}.

Definition remove_current (mb : ProcessMailbox) : vm (Term * ProcessMailbox) :=
  do! val := unwrap (inbox mb !! read_index mb) in
  do! mb := step_over {| inbox := <[read_index mb := non_value]> (inbox mb); read_index := read_index mb |} in
  Ret (val, mb).

(** ** It is a queue

    The mailbox stands for the messages from the read index on; those before it are gone. *)

Definition mailbox_holds (mb : ProcessMailbox) (q : list Term) : Prop :=
  (forall i x, inbox mb !! i = Some x -> (i < read_index mb)%nat -> is_non_value x = true) /\
  drop (read_index mb) (inbox mb) = q /\ Forall (fun x => is_non_value x = false) q /\
  (q = [] -> inbox mb = [] /\ read_index mb = 0%nat).

Lemma step_loop_value fuel l s mri x :
  l !! mri = Some x -> is_non_value x = false -> step_loop (S fuel) l s mri = Ret (Some mri).
Proof. intros Hx Hv. cbn [step_loop]. rewrite Hx. cbn [unwrap vm_bind]. by rewrite Hv. Qed.

Lemma step_loop_skip fuel l s mri x y :
  l !! mri = Some x -> is_non_value x = true -> l !! S mri = Some y -> S mri <> s ->
  step_loop (S fuel) l s mri = step_loop fuel l s (S mri).
Proof.
  intros Hx Hv Hy Hs. cbn [step_loop]. rewrite Hx. cbn [unwrap vm_bind]. rewrite Hv. apply lookup_lt_Some in Hy.
  rewrite (proj2 (Nat.eqb_neq (S mri) (length l))) by lia. by rewrite (proj2 (Nat.eqb_neq (S mri) s)).
Qed.

(** When no value is left, the loop goes around once. *)
Lemma step_loop_round l s : (forall x, x ∈ l -> is_non_value x = true) -> (s < length l)%nat ->
  step_loop (S (length l)) l s s = Ret None.
Proof.
  intros Hl Hs.
  assert (forall n i, (i < s)%nat -> (s - i <= n)%nat -> step_loop n l s i = Ret None) as Hlow.
  { induction n as [|n IH]; intros i Hi Hn; [lia|]. cbn [step_loop].
    destruct (lookup_lt_is_Some_2 l i) as [x Hx]; [lia|]. rewrite Hx. cbn [unwrap vm_bind].
    rewrite (Hl x) by (by eapply list_elem_of_lookup_2). rewrite (proj2 (Nat.eqb_neq (S i) (length l))) by lia.
    destruct (Nat.eqb_spec (S i) s); [done|]. apply IH; lia. }
  assert (forall n i, (s <= i < length l)%nat -> (length l - i + s <= n)%nat -> step_loop n l s i = Ret None) as Hhigh.
  { induction n as [|n IH]; intros i Hi Hn; [lia|]. cbn [step_loop].
    destruct (lookup_lt_is_Some_2 l i) as [x Hx]; [lia|]. rewrite Hx. cbn [unwrap vm_bind].
    rewrite (Hl x) by (by eapply list_elem_of_lookup_2).
    destruct (Nat.eqb_spec (S i) (length l)).
    - destruct (Nat.eqb_spec 0 s); [done|]. apply Hlow; lia.
    - rewrite (proj2 (Nat.eqb_neq (S i) s)) by lia. apply IH; lia. }
  apply Hhigh; lia.
Qed.

Lemma mailbox_head mb x q : mailbox_holds mb (x :: q) -> inbox mb !! read_index mb = Some x.
Proof. intros (_ & Hq & _). pose proof (lookup_drop (inbox mb) (read_index mb) 0) as H. rewrite Hq, Nat.add_0_r in H. done. Qed.

Lemma mailbox_nonempty mb x q : mailbox_holds mb (x :: q) -> exists y l, inbox mb = y :: l.
Proof. intros H. apply mailbox_head in H. destruct (inbox mb); [done | eauto]. Qed.

Lemma put_holds mb q x : mailbox_holds mb q -> is_non_value x = false -> mailbox_holds (put mb x) (q ++ [x]).
Proof.
  intros (Hb & Hq & Hv & He) Hx. assert (read_index mb <= length (inbox mb))%nat as Hle.
  { destruct (decide (q = [])) as [Hn|Hn]; [destruct (He Hn) as [-> ->]; cbn; lia|].
    destruct (decide (read_index mb < length (inbox mb))%nat); [lia|]. rewrite drop_ge in Hq by lia. congruence. }
  unfold mailbox_holds, put. cbn [inbox read_index]. split_and!.
  - intros i y Hi Hlt. apply lookup_app_Some in Hi as [Hi | [Hn _]]; [by eapply Hb | lia].
  - rewrite drop_app_le by done. by rewrite Hq.
  - apply Forall_app. auto.
  - intros E. by apply app_eq_nil in E as [_ ?].
Qed.

Lemma step_over_holds mb q : mailbox_holds mb q -> step_over mb = Ret mb.
Proof.
  intros H. destruct q as [|x q].
  - destruct H as (_ & _ & _ & He). destruct (He eq_refl) as [E1 E2]. unfold step_over. rewrite E1.
    destruct mb as [l i]. cbn in *. by subst.
  - pose proof (mailbox_head _ _ _ H) as Hx. destruct H as (_ & _ & Hv & _). apply Forall_cons in Hv as [Hv _].
    unfold step_over. destruct (inbox mb) as [|y l] eqn:E; [done|]. rewrite (step_loop_value _ _ _ _ _ Hx Hv).
    cbn [vm_bind]. rewrite <- E. by destruct mb.
Qed.

Lemma step_over_eq l i r : (i < length l)%nat -> step_loop (S (length l)) l i i = Ret r ->
  step_over {| inbox := l; read_index := i |} =
    Ret (match r with Some mri => {| inbox := l; read_index := mri |} | None => {| inbox := []; read_index := 0 |} end).
Proof. intros Hi E. unfold step_over. cbn [inbox read_index]. destruct l; [cbn in Hi; lia|]. by rewrite E. Qed.

Lemma non_value_is : is_non_value non_value = true.
Proof. reflexivity. Qed.

Lemma remove_holds mb x q : mailbox_holds mb (x :: q) ->
  exists mb', remove_current mb = Ret (x, mb') /\ mailbox_holds mb' q.
Proof.
  intros H. pose proof (mailbox_head _ _ _ H) as Hx. destruct H as (Hb & Hq & Hv & _).
  set (l := inbox mb) in *. set (i := read_index mb) in *. set (l' := <[i := non_value]> l).
  assert (i < length l)%nat as Hi by (by eapply lookup_lt_Some).
  assert (l' !! i = Some non_value) as Hl'i by (by apply list_lookup_insert_eq).
  assert (drop (S i) l' = q) as Hd.
  { subst l'. rewrite drop_insert_lt by lia. replace (S i) with (i + 1)%nat by lia. by rewrite <- drop_drop, Hq. }
  apply Forall_cons in Hv as [_ Hv].
  unfold remove_current. fold l i. rewrite Hx. cbn [unwrap vm_bind]. fold l'.
  destruct q as [|y q].
  - exists new_mailbox. rewrite (step_over_eq _ _ None); [done | by eapply lookup_lt_Some |].
    apply step_loop_round; [|by eapply lookup_lt_Some].
    intros w Hw. apply list_elem_of_lookup in Hw as [j Hj].
    destruct (decide (j = i)) as [->|Hne]; [by rewrite Hl'i in Hj; injection Hj as <-|].
    destruct (decide (j < i)%nat) as [Hlt|Hge].
    + apply (Hb j); [|done]. subst l'. by rewrite list_lookup_insert_ne in Hj.
    + exfalso. pose proof (lookup_drop l' (S i) (j - S i)) as Hlk. rewrite Hd in Hlk.
      replace (S i + (j - S i))%nat with j in Hlk by lia. by rewrite Hj in Hlk.
  - apply Forall_cons in Hv as [Hvy Hv].
    assert (l' !! S i = Some y) as Hy.
    { pose proof (lookup_drop l' (S i) 0) as Hlk. rewrite Hd, Nat.add_0_r in Hlk. done. }
    assert (exists n, length l' = S n) as [n Hn] by (destruct l'; [done | eauto]).
    exists {| inbox := l'; read_index := S i |}. rewrite (step_over_eq _ _ (Some (S i))); [|by eapply lookup_lt_Some |].
    2: { rewrite Hn, (step_loop_skip _ _ _ _ non_value y), (step_loop_value _ _ _ _ y) by (done || lia). done. }
    cbn [vm_bind]. split; [done|]. split_and!; cbn [inbox read_index]; try done; [|by constructor].
    intros j w Hj Hlt. destruct (decide (j = i)) as [->|Hne]; [by rewrite Hl'i in Hj; injection Hj as <-|].
    apply (Hb j); [|lia]. subst l'. by rewrite list_lookup_insert_ne in Hj.
Qed.

(** ** Traces of mailbox operations *)

(** A message arrives; [loop_rec] looks at the current one; [loop_rec_end] steps over it;
    [remove_message] takes it. *)
Inductive mb_op := MPut (x : Term) | MCurrent | MStepOver | MRemove.

Definition mb_step (mb : ProcessMailbox) (op : mb_op) : vm (option Term * ProcessMailbox) :=
  match op with
  | MPut x => Ret (None, put mb x)
  | MCurrent => do! x := get_current mb in Ret (x, mb)
  | MStepOver => do! mb := step_over mb in Ret (None, mb)
  | MRemove => do! (x, mb) := remove_current mb in Ret (Some x, mb)
  end.

(** The same operations on a queue: stepping over changes nothing. *)
Definition queue_step (q : list Term) (op : mb_op) : vm (option Term * list Term) :=
  match op, q with
  | MPut x, _ => Ret (None, q ++ [x])
  | MCurrent, _ => Ret (head q, q)
  | MStepOver, _ => Ret (None, q)
  | MRemove, x :: q => Ret (Some x, q)
  | MRemove, [] => Panic
  end.

Fixpoint run_trace {S} (step : S -> mb_op -> vm (option Term * S)) (s : S) (ops : list mb_op) : vm (list (option Term) * S) :=
  match ops with
  | [] => Ret ([], s)
  | op :: ops =>
    do! (o, s) := step s op in do! (os, s) := run_trace step s ops in Ret (o :: os, s)
  end.

Definition op_value (op : mb_op) : bool := match op with MPut x => is_value x | _ => true end.

Lemma mb_step_refines mb q op : mailbox_holds mb q -> op_value op = true ->
  match queue_step q op with
  | Ret (o, q') => exists mb', mb_step mb op = Ret (o, mb') /\ mailbox_holds mb' q'
  | _ => mb_step mb op = Panic
  end.
Proof.
  intros H Hop. destruct op as [x| | |]; cbn [queue_step mb_step op_value] in *.
  - exists (put mb x). split; [done|]. apply put_holds; [done|]. by apply negb_true_iff.
  - exists mb. destruct q as [|x q].
    + pose proof H as (_ & _ & _ & He). destruct (He eq_refl) as [E _]. unfold get_current. rewrite E. done.
    + destruct (mailbox_nonempty _ _ _ H) as (y & l & E). pose proof (mailbox_head _ _ _ H) as Hx.
      unfold get_current. rewrite E at 1. rewrite Hx. done.
  - exists mb. by rewrite (step_over_holds _ _ H).
  - destruct q as [|x q].
    + destruct H as (_ & _ & _ & He). destruct (He eq_refl) as [E1 E2]. unfold remove_current. by rewrite E1, E2.
    + destruct (remove_holds _ _ _ H) as (mb' & -> & H'). cbn [vm_bind]. eauto.
Qed.

Lemma run_trace_refines ops : forall mb q, mailbox_holds mb q -> forallb op_value ops = true ->
  match run_trace queue_step q ops with
  | Ret (os, q') => exists mb', run_trace mb_step mb ops = Ret (os, mb') /\ mailbox_holds mb' q'
  | _ => run_trace mb_step mb ops = Panic
  end.
Proof.
  induction ops as [|op ops IH]; intros mb q H Hop; cbn [run_trace]; [eauto|].
  apply andb_true_iff in Hop as [Ho Hop]. pose proof (mb_step_refines mb q op H Ho) as Hs.
  destruct (queue_step q op) as [[o q']| | | |]; cbn [vm_bind]; try by rewrite Hs.
  destruct Hs as (mb' & -> & H'). cbn [vm_bind]. specialize (IH mb' q' H' Hop).
  destruct (run_trace queue_step q' ops) as [[os q'']| | | |]; cbn [vm_bind]; try by rewrite IH.
  destruct IH as (mb'' & -> & H''). cbn [vm_bind]. eauto.
Qed.

(** The mailbox of an emulated process is a queue.  Over every sequence of arrivals,
    looks, steps and removals, starting empty, it answers what a FIFO queue answers: messages
    are looked at and taken in the order of their arrival, none is lost or duplicated, the
    search for the next message always ends, and taking from an empty mailbox panics.
    Stepping over a message leaves the queue as it is. *)
Theorem mailbox_is_fifo (ops : list mb_op) : forallb op_value ops = true ->
  match run_trace queue_step [] ops with
  | Ret (os, q) => exists mb, run_trace mb_step new_mailbox ops = Ret (os, mb) /\ drop (read_index mb) (inbox mb) = q
  | _ => run_trace mb_step new_mailbox ops = Panic
  end.
Proof.
  intros Hop. assert (mailbox_holds new_mailbox []) as H by (by split_and!).
  pose proof (run_trace_refines ops _ _ H Hop) as Hr. destruct (run_trace queue_step [] ops) as [[os q]| | | |]; try done.
  destruct Hr as (mb & E & _ & Hq & _). eauto.
Qed.

(** ** Consequences *)

(** [loop_rec_end], which is to move on to the next message when the current one matches no
    clause, finds the same message again: a selective receive never gets past it. *)
Lemma skipped_message_again mb x q : mailbox_holds mb (x :: q) ->
  exists mb', step_over mb = Ret mb' /\ get_current mb' = Ret (Some x).
Proof.
  intros H. exists mb. split; [by eapply step_over_holds|].
  destruct (mailbox_nonempty _ _ _ H) as (y & l & E). unfold get_current. rewrite E at 1.
  by rewrite (mailbox_head _ _ _ H).
Qed.

(** After the [timeout] opcode has reset the read index, [loop_rec] may pick up the mark of
    a message already taken. *)
Lemma timeout_rereads_taken :
  (do! (_, mb) := remove_current (put (put new_mailbox small_0) small_1) in get_current (reset_read_index mb))
  = Ret (Some non_value).
Proof. vm_compute. reflexivity. Qed.

Module MailboxWitness.
Lemma mailbox_is_fifo_witness :
  forallb op_value [MPut small_0; MPut small_1; MRemove; MStepOver; MCurrent; MPut TRUE; MRemove; MRemove] = true /\
  exists mb, run_trace mb_step new_mailbox [MPut small_0; MPut small_1; MRemove; MStepOver; MCurrent; MPut TRUE; MRemove; MRemove]
    = Ret ([None; None; Some small_0; None; Some small_1; None; Some small_1; Some TRUE], mb) /\ drop (read_index mb) (inbox mb) = [].
Proof.
  split; [reflexivity|].
  exact (mailbox_is_fifo [MPut small_0; MPut small_1; MRemove; MStepOver; MCurrent; MPut TRUE; MRemove; MRemove] eq_refl).
Defined.
End MailboxWitness.

(** * Registers *)

Definition MAX_XREGS : Z := 256.
Definition MAX_FPREGS : Z := 8.
Definition REDUCTIONS_DEFAULT : Z := 200.
Definition FETCH_OPCODE_COST : Z := 1.

(** Code pointers are addresses; the null pointer is zero. *)
Record RuntimeContext := {
  ip : Z;
  cp : Z;
  reductions : Z;
  regs : list Term;
  fpregs : list f64;
  live : Z;
  current_bin : option Z * Z
}.

Definition new_context (ip : Z) : RuntimeContext :=
  {| ip := ip; cp := 0; reductions := 0; regs := replicate (Z.to_nat MAX_XREGS) non_value;
     fpregs := replicate (Z.to_nat MAX_FPREGS) f64_zero; live := 0; current_bin := (None, 0) |}.

Definition set_regs (c : RuntimeContext) (r : list Term) : RuntimeContext :=
  {| ip := ip c; cp := cp c; reductions := reductions c; regs := r; fpregs := fpregs c; live := live c; current_bin := current_bin c |}.
Definition set_ip (c : RuntimeContext) (i : Z) : RuntimeContext :=
  {| ip := i; cp := cp c; reductions := reductions c; regs := regs c; fpregs := fpregs c; live := live c; current_bin := current_bin c |}.
Definition set_cp_ptr (c : RuntimeContext) (p : Z) : RuntimeContext :=
  {| ip := ip c; cp := p; reductions := reductions c; regs := regs c; fpregs := fpregs c; live := live c; current_bin := current_bin c |}.
Definition set_live (c : RuntimeContext) (n : Z) : RuntimeContext :=
  {| ip := ip c; cp := cp c; reductions := reductions c; regs := regs c; fpregs := fpregs c; live := n; current_bin := current_bin c |}.
Definition set_fpregs (c : RuntimeContext) (f : list f64) : RuntimeContext :=
  {| ip := ip c; cp := cp c; reductions := reductions c; regs := regs c; fpregs := f; live := live c; current_bin := current_bin c |}.

(** [regs[index]] panics out of range. *)
Definition get_x (c : RuntimeContext) (index : Z) : vm Term := unwrap (regs c !! Z.to_nat index).
Definition set_x (c : RuntimeContext) (index : Z) (val : Term) : vm RuntimeContext :=
  if Z.of_nat (length (regs c)) <=? index then Panic
  else Ret (set_regs c (<[Z.to_nat index := val]> (regs c))).

(** The context is swapped in with a full quota of reductions. *)
Definition swap_in (c : RuntimeContext) : RuntimeContext :=
  {| ip := ip c; cp := cp c; reductions := REDUCTIONS_DEFAULT; regs := regs c; fpregs := fpregs c; live := live c; current_bin := current_bin c |}.

(** A continuation pointer as a code pointer, and back. *)
Definition from_cp (x : Term) : Z := get_cp_ptr x.
Definition to_cp_term (p : Z) : vm Term := unwrap (make_cp p).

Definition set_cp (c : RuntimeContext) (x : Term) : RuntimeContext := set_cp_ptr c (from_cp x).
Definition clear_cp (c : RuntimeContext) : RuntimeContext := set_cp_ptr c 0.
Definition jump (c : RuntimeContext) (x : Term) : RuntimeContext := set_ip c (from_cp x).
Definition jump_ptr (c : RuntimeContext) (p : Z) : RuntimeContext := set_ip c p.

(** [Result::unwrap]: an [RtErr] becomes a panic. *)
Definition unwrap_result {A} (r : vm A) : vm A := match r with Fail _ => Panic | r => r end.

Definition load (c : RuntimeContext) (h : Heap) (src : Term) : vm Term :=
  if is_special src && (get_special_tag src =? REG) then
    if get_reg_tag src =? REG_X then get_x c (get_reg_value src)
    else if get_reg_tag src =? REG_Y then unwrap_result (get_y h (get_reg_value src))
    else Panic
  else Ret src.

Definition store_value (m : Memory) (c : RuntimeContext) (h : Heap) (val dst : Term) : vm (RuntimeContext * Heap) :=
  if is_special dst && (get_special_tag dst =? REG) then
    if get_reg_tag dst =? REG_X then do! c := set_x c (get_reg_value dst) val in Ret (c, h)
    else if get_reg_tag dst =? REG_Y then do! h := set_y h (get_reg_value dst) val in Ret (c, h)
    else if get_reg_tag dst =? REG_FLOAT then
      do! isf := is_float m val in
      do! v := (if isf then do! o := load_box m val in match o with OFloat v => Ret v | _ => Wild end
                else if is_small val then Ret (f64_of_Z (get_small_signed val)) else Panic) in
      if Z.of_nat (length (fpregs c)) <=? get_reg_value dst then Panic
      else Ret (set_fpregs c (<[Z.to_nat (get_reg_value dst) := v]> (fpregs c)), h)
    else Panic
  else Panic.

(** * Processes *)

Inductive Prio := PrioLow | PrioNormal | PrioHigh.
Inductive Queue := QNone | QHigh | QNormal | QLow | QTimedWait | QInfiniteWait.
Inductive SliceResult := SliceNone | SliceYield | SliceInfiniteWait | SliceFinished | SliceException.

#[export] Instance Queue_eq_dec : EqDecision Queue.
Proof. solve_decision. Defined.

Definition TRAP_EXIT : Z := Z.shiftl 1 0.
Definition SYSTEM_PROCESS : Z := Z.shiftl 1 1.
Definition flags_get (flags flag : Z) : bool := negb (Z.land flags flag =? 0).
Definition flags_set_value (flags flag : Z) (value : bool) : Z :=
  if value then Z.lor flags flag else Z.land flags (not64 flag).
Definition flags_read_and_set (flags flag : Z) (value : bool) : bool * Z :=
  (flags_get flags flag, flags_set_value flags flag value).

(** [heap_base] is the address of the process's block of words. *)
Record Process := {
  pid : Term;
  prio : Prio;
  current_queue : Queue;
  context : RuntimeContext;
  heap : Heap;
  heap_base : Z;
  mailbox : ProcessMailbox;
  timeslice_result : SliceResult;
  error : option (ExceptionType * Term);
  num_catches : Z;
  process_flags : Z
}.

Definition with_context (p : Process) (c : RuntimeContext) : Process :=
  {| pid := pid p; prio := prio p; current_queue := current_queue p; context := c; heap := heap p;
     heap_base := heap_base p; mailbox := mailbox p; timeslice_result := timeslice_result p;
     error := error p; num_catches := num_catches p; process_flags := process_flags p |}.
Definition with_heap (p : Process) (h : Heap) : Process :=
  {| pid := pid p; prio := prio p; current_queue := current_queue p; context := context p; heap := h;
     heap_base := heap_base p; mailbox := mailbox p; timeslice_result := timeslice_result p;
     error := error p; num_catches := num_catches p; process_flags := process_flags p |}.
Definition with_mailbox (p : Process) (mb : ProcessMailbox) : Process :=
  {| pid := pid p; prio := prio p; current_queue := current_queue p; context := context p; heap := heap p;
     heap_base := heap_base p; mailbox := mb; timeslice_result := timeslice_result p;
     error := error p; num_catches := num_catches p; process_flags := process_flags p |}.
Definition with_result (p : Process) (r : SliceResult) : Process :=
  {| pid := pid p; prio := prio p; current_queue := current_queue p; context := context p; heap := heap p;
     heap_base := heap_base p; mailbox := mailbox p; timeslice_result := r;
     error := error p; num_catches := num_catches p; process_flags := process_flags p |}.
Definition with_error (p : Process) (e : option (ExceptionType * Term)) : Process :=
  {| pid := pid p; prio := prio p; current_queue := current_queue p; context := context p; heap := heap p;
     heap_base := heap_base p; mailbox := mailbox p; timeslice_result := timeslice_result p;
     error := e; num_catches := num_catches p; process_flags := process_flags p |}.
Definition with_catches (p : Process) (n : Z) : Process :=
  {| pid := pid p; prio := prio p; current_queue := current_queue p; context := context p; heap := heap p;
     heap_base := heap_base p; mailbox := mailbox p; timeslice_result := timeslice_result p;
     error := error p; num_catches := n; process_flags := process_flags p |}.

(** [Process::new], with the entry point that the code server found and fresh memory. *)
Definition new_process (pid : Term) (prio : Prio) (flags ip base : Z) (garbage : list Z) : option Process :=
  if is_local_pid pid then
    Some {| pid := pid; prio := prio; current_queue := QNone; context := new_context ip;
            heap := new_heap ProcessHeap garbage; heap_base := base; mailbox := new_mailbox;
            timeslice_result := SliceNone; error := None; num_catches := 0; process_flags := flags |}
  else None.

Definition is_failed (p : Process) : bool := match error p with Some _ => true | None => false end.
Definition clear_exception (p : Process) : Process := with_error p None.
Definition set_exception (p : Process) (cls : ExceptionType) (reason : Term) : Process := with_error p (Some (cls, reason)).

(** The collector ends in [unimplemented!]. *)
Definition garbage_collect (p : Process) : vm Process := Panic.
Definition ensure_heap (p : Process) (need : Z) : vm Process :=
  if heap_check_available (heap p) need then Ret p else garbage_collect p.
