(* ===== verification/BeamOps.v ===== *)
(** The opcodes of the emulator for data movement, control, stack frames, exceptions,
    messages, lists, tuples and type tests ([beam/opcodes/]), and the execution of one
    instruction ([beam/vm_loop.rs]).

    An opcode is a function of the running process and the memory of terms; its arguments are
    the words of the code, decoded as the [define_opcode!] macro does: [usize] takes the
    unsigned small, [load] reads a register. *)
From S2P Require Import Prelude Float64 BeamTerm BeamMem BeamCompare BeamHeap BeamProc.

Record Machine := { mem : Memory; proc : Process }.

(** [DispatchResult], or an [RtErr::Exception] next to the state it leaves. *)
Inductive OpResult :=
| Normal
| YieldEndOfTheQueue
| YieldInfiniteWait
| Finished
| Raised (cls : ExceptionType) (reason : Term).

Definition step_result : Type := vm (OpResult * Machine).

Definition with_proc (s : Machine) (p : Process) : Machine := {| mem := mem s; proc := p |}.
Definition with_ctx (s : Machine) (c : RuntimeContext) : Machine := with_proc s (with_context (proc s) c).
Definition ctx (s : Machine) : RuntimeContext := context (proc s).
Definition hp (s : Machine) : Heap := heap (proc s).

Definition normal (s : Machine) : step_result := Ret (Normal, s).
Definition raise (cls : ExceptionType) (reason : Term) (s : Machine) : step_result := Ret (Raised cls reason, s).

Definition load_arg (s : Machine) (x : Term) : vm Term := load (ctx s) (hp s) x.
Definition store (s : Machine) (val dst : Term) : vm Machine :=
  do! (c, h) := store_value (mem s) (ctx s) (hp s) val dst in
  Ret (with_proc s (with_heap (with_context (proc s) c) h)).

Definition jump_to (s : Machine) (label : Term) : Machine := with_ctx s (jump (ctx s) label).
Definition jump_if (b : bool) (label : Term) (s : Machine) : step_result :=
  normal (if b then jump_to s label else s).

Definition ERROR : Term := make_atom 16.
Definition EXIT : Term := make_atom 18.
Definition THROW : Term := make_atom 34.
Definition NIF_ERROR : Term := make_atom 29.
Definition UPPER_EXIT : Term := make_atom 3.
Definition BADARG : Term := make_atom 6.
Definition BADMATCH : Term := make_atom 12.
Definition CASE_CLAUSE : Term := make_atom 14.
Definition FUNCTION_CLAUSE : Term := make_atom 21.
Definition IF_CLAUSE : Term := make_atom 23.
Definition TRY_CLAUSE : Term := make_atom 37.
Definition NORMAL_ATOM : Term := make_atom 31.

Definition to_atom (cls : ExceptionType) : Term :=
  match cls with ExcPanic => NIF_ERROR | ExcThrow => THROW | ExcError => ERROR | ExcExit => EXIT end.

(** * Building terms on the process heap *)

Definition alloc_words (s : Machine) (n : Z) : vm (Z * Machine) :=
  do! (pos, h) := alloc (hp s) n Uninitialized in
  Ret (heap_base (proc s) + 8 * pos, with_proc s (with_heap (proc s) h)).

Definition put_box (s : Machine) (p : Z) (o : Obj) : Machine :=
  {| mem := {| boxes := <[p := o]> (boxes (mem s)); conses := conses (mem s) |}; proc := proc s |}.
Definition put_cons_cell (s : Machine) (p : Z) (hd tl : Term) : Machine :=
  {| mem := {| boxes := boxes (mem s); conses := <[p := (hd, tl)]> (conses (mem s)) |}; proc := proc s |}.

(** A tuple takes its header and a word per element; arity 0 is an assertion failure. *)
Definition tuple_storage_size (arity : Z) : Z := 2 + arity.
Definition make_tuple (s : Machine) (els : list Term) : vm (Term * Machine) :=
  do! (p, s) := alloc_words s (tuple_storage_size (Z.of_nat (length els))) in
  match els with
  | [] => Panic
  | _ => do! x := unwrap (make_boxed p) in Ret (x, put_box s p (OTuple els))
  end.

Definition make_pair (s : Machine) (hd tl : Term) : vm (Term * Machine) :=
  do! (p, s) := alloc_words s 2 in Ret (make_cons p, put_cons_cell s p hd tl).

(** [fail::create::generic_tuple2_fail]. *)
Definition generic_tuple2_fail (s : Machine) (err_atom val : Term) : step_result :=
  do! (t, s) := make_tuple s [err_atom; val] in raise ExcError t s.

(** * [op_data.rs] *)

Definition op_move (src dst : Term) (s : Machine) : step_result :=
  do! v := load_arg s src in do! s := store s v dst in normal s.

Definition op_swap (reg1 reg2 : Term) (s : Machine) : step_result :=
  do! v1 := load_arg s reg1 in do! v2 := load_arg s reg2 in
  do! s := store s v1 reg2 in do! s := store s v2 reg1 in normal s.

(** * [op_memory.rs] *)

Definition gen_alloc (stack_need heap_need live : Z) (fill : AllocInit) (s : Machine) : vm Machine :=
  let s := with_ctx s (set_live (ctx s) live) in
  do! p := ensure_heap (proc s) heap_need in
  do! h := stack_alloc (heap p) stack_need fill in
  do! c := to_cp_term (cp (ctx s)) in
  do! h := stack_push_lterm_unchecked h c in
  Ret (with_proc s (with_heap p h)).

Definition op_allocate_heap (fill : AllocInit) (stack_need heap_need live : Term) (s : Machine) : step_result :=
  do! s := gen_alloc (get_small_unsigned stack_need) (get_small_unsigned heap_need) (get_small_unsigned live) fill s in
  normal s.
Definition op_allocate (fill : AllocInit) (stack_need live : Term) (s : Machine) : step_result :=
  do! s := gen_alloc (get_small_unsigned stack_need) 0 (get_small_unsigned live) fill s in normal s.

Definition op_deallocate (free : Term) (s : Machine) : step_result :=
  do! (c, h) := stack_deallocate (hp s) (get_small_unsigned free) in
  normal (with_ctx (with_proc s (with_heap (proc s) h)) (set_cp (ctx s) c)).

Definition op_test_heap (heap_need live : Term) (s : Machine) : step_result :=
  let s := with_ctx s (set_live (ctx s) (get_small_unsigned live)) in
  do! p := ensure_heap (proc s) (get_small_unsigned heap_need) in normal (with_proc s p).

Definition op_trim (n_trim : Term) (s : Machine) : step_result :=
  do! (c, h) := stack_deallocate (hp s) (get_small_unsigned n_trim) in
  do! h := stack_push_lterm_unchecked h c in normal (with_proc s (with_heap (proc s) h)).

Definition store_y (s : Machine) (y val : Term) : vm Machine :=
  do! h := set_y (hp s) (get_reg_value y) val in Ret (with_proc s (with_heap (proc s) h)).

Definition op_init (y : Term) (s : Machine) : step_result := do! s := store_y s y nil in normal s.

(** * [op_execution.rs] *)

Definition op_call (arity dst : Term) (s : Machine) : step_result :=
  let c := set_live (ctx s) (get_small_unsigned arity) in
  normal (with_ctx s (jump (set_cp_ptr c (ip c)) dst)).

Definition op_call_only (arity dst : Term) (s : Machine) : step_result :=
  normal (with_ctx s (jump (set_live (ctx s) (get_small_unsigned arity)) dst)).

Definition op_call_last (arity dst dealloc : Term) (s : Machine) : step_result :=
  do! (c, h) := stack_deallocate (hp s) (get_small_unsigned dealloc) in
  normal (with_ctx (with_proc s (with_heap (proc s) h))
            (jump (set_cp (set_live (ctx s) (get_small_unsigned arity)) c) dst)).

(** [return_and_clear_cp]: on an empty stack with no return address the process has ended. *)
Definition op_return (s : Machine) : step_result :=
  if cp (ctx s) =? 0 then (if stack_depth (hp s) =? 0 then Ret (Finished, s) else Panic)
  else normal (with_ctx s (clear_cp (jump_ptr (ctx s) (cp (ctx s))))).

Definition op_func_info (s : Machine) : step_result := raise ExcError FUNCTION_CLAUSE s.
Definition op_badmatch (val : Term) (s : Machine) : step_result :=
  do! v := load_arg s val in generic_tuple2_fail s BADMATCH v.
Definition op_case_end (val : Term) (s : Machine) : step_result :=
  do! v := load_arg s val in generic_tuple2_fail s CASE_CLAUSE v.
Definition op_if_end (s : Machine) : step_result := raise ExcError IF_CLAUSE s.
Definition op_jump (dst : Term) (s : Machine) : step_result := normal (jump_to s dst).

Definition jump_table (s : Machine) (pairs : Term) : vm (list (Term * Term)) :=
  if is_boxed pairs then do! o := load_box (mem s) pairs in match o with OJumpTable l => Ret l | _ => Wild end
  else Panic.

(** The label of the first entry whose value compares equal. *)
Fixpoint select_loop (m : Memory) (atoms : AtomStorage) (fuel : nat) (val fail : Term) (l : list (Term * Term)) : vm Term :=
  match l with
  | [] => Ret fail
  | (v, label) :: l =>
    do! c := cmp_terms m atoms fuel val v true in
    match c with Eq => Ret label | _ => select_loop m atoms fuel val fail l end
  end.

Definition op_select_val (atoms : AtomStorage) (fuel : nat) (val fail pairs : Term) (s : Machine) : step_result :=
  do! v := load_arg s val in do! l := jump_table s pairs in
  do! label := select_loop (mem s) atoms fuel v fail l in normal (jump_to s label).

Definition op_select_tuple_arity (val fail pairs : Term) (s : Machine) : step_result :=
  do! v := load_arg s val in do! l := jump_table s pairs in
  do! is_t := is_tuple (mem s) v in
  if negb is_t && negb (bool_decide (v = empty_tuple)) then normal (jump_to s fail) else
  do! arity := (if bool_decide (v = empty_tuple) then Ret 0
                else do! els := load_tuple (mem s) v in Ret (Z.of_nat (length els))) in
  match list_find (fun e => Is_true (get_small_unsigned e.1 =? arity)) l with
  | Some (_, (_, label)) => normal (jump_to s label)
  | None => normal (jump_to s fail)
  end.

(** * [op_try_catch.rs] *)

(** [try] and [catch] do the same. *)
Definition op_try (yreg catch_label : Term) (s : Machine) : step_result :=
  let s := with_proc s (with_catches (proc s) (num_catches (proc s) + 1)) in
  do! c := unwrap (make_catch (get_cp_ptr catch_label)) in
  do! s := store_y s yreg c in normal s.

(** Registers x1, x2, x3 to x0, x1, x2. *)
Definition shift_regs (s : Machine) : vm Machine :=
  do! v := get_x (ctx s) 1 in do! c := set_x (ctx s) 0 v in
  do! v := get_x c 2 in do! c := set_x c 1 v in
  do! v := get_x c 3 in do! c := set_x c 2 v in
  Ret (with_ctx s c).

Definition end_catch (yreg : Term) (s : Machine) : vm Machine :=
  store_y (with_proc s (with_catches (proc s) (num_catches (proc s) - 1))) yreg nil.

Definition op_try_end (yreg : Term) (s : Machine) : step_result :=
  do! s := end_catch yreg s in
  do! x0 := get_x (ctx s) 0 in
  if is_non_value x0 then do! s := shift_regs (with_proc s (clear_exception (proc s))) in normal s else normal s.

Definition op_try_case (yreg : Term) (s : Machine) : step_result :=
  do! s := end_catch yreg s in
  do! s := shift_regs (with_proc s (clear_exception (proc s))) in normal s.

Definition op_catch_end (yreg : Term) (s : Machine) : step_result :=
  do! s := end_catch yreg s in
  do! x0 := get_x (ctx s) 0 in
  if is_non_value x0 then
    let s := with_proc s (clear_exception (proc s)) in
    do! cls := get_x (ctx s) 1 in do! value := get_x (ctx s) 2 in
    do! (x, s) := (if bool_decide (cls = THROW) then Ret (value, s) else make_tuple s [UPPER_EXIT; value]) in
    do! c := set_x (ctx s) 0 x in normal (with_ctx s c)
  else normal s.

Definition op_raise (stacktrace exc_value : Term) (s : Machine) : step_result :=
  do! _ := load_arg s stacktrace in do! v := load_arg s exc_value in raise ExcError v s.

Definition op_raw_raise (s : Machine) : step_result :=
  do! cls := get_x (ctx s) 0 in do! value := get_x (ctx s) 1 in
  raise (if bool_decide (cls = ERROR) then ExcError
         else if bool_decide (cls = EXIT) then ExcExit
         else if bool_decide (cls = THROW) then ExcThrow else ExcError) value s.

Definition op_try_case_end (val : Term) (s : Machine) : step_result :=
  do! v := load_arg s val in generic_tuple2_fail s TRY_CLAUSE v.

(** * [op_message.rs], but for [send] *)

Definition op_loop_rec (fail : Term) (s : Machine) : step_result :=
  do! msg := get_current (mailbox (proc s)) in
  match msg with
  | Some x => do! c := set_x (ctx s) 0 x in normal (with_ctx s c)
  | None => normal (jump_to s fail)
  end.

Definition op_loop_rec_end (label : Term) (s : Machine) : step_result :=
  do! mb := step_over (mailbox (proc s)) in normal (jump_to (with_proc s (with_mailbox (proc s) mb)) label).

Definition op_remove_message (s : Machine) : step_result :=
  do! (x, mb) := remove_current (mailbox (proc s)) in
  do! c := set_x (ctx s) 0 x in normal (with_ctx (with_proc s (with_mailbox (proc s) mb)) c).

Definition op_wait (label : Term) (s : Machine) : step_result := Ret (YieldInfiniteWait, jump_to s label).

Definition op_timeout (s : Machine) : step_result :=
  normal (with_proc s (with_mailbox (proc s) (reset_read_index (mailbox (proc s))))).

Definition op_wait_timeout (fail_label timeout_val : Term) (s : Machine) : step_result :=
  do! t := load_arg s timeout_val in
  if is_small t && (get_small_unsigned t =? 0) then normal s
  else Ret (YieldInfiniteWait, jump_to s fail_label).

(** * [op_list.rs] and [op_tuple.rs] *)

Definition op_is_nonempty_list (fail value : Term) (s : Machine) : step_result :=
  do! v := load_arg s value in
  jump_if (bool_decide (v = nil) && negb (is_cons v) && negb (bool_decide (fail = nil))) fail s.

Definition op_is_nil (fail value : Term) (s : Machine) : step_result :=
  do! v := load_arg s value in
  jump_if (negb (bool_decide (v = nil)) && negb (bool_decide (fail = nil))) fail s.

Definition op_get_list (src dst_hd dst_tl : Term) (s : Machine) : step_result :=
  do! v := load_arg s src in
  if bool_decide (v = nil) then Panic
  else if negb (is_cons v) then generic_tuple2_fail s BADARG v
  else do! (hd, tl) := load_cons (mem s) (get_cons_ptr v) in
       do! s := store s hd dst_hd in do! s := store s tl dst_tl in normal s.

Definition op_put_list (src_hd src_tl dst : Term) (s : Machine) : step_result :=
  do! hd := load_arg s src_hd in do! tl := load_arg s src_tl in
  do! (x, s) := make_pair s hd tl in do! s := store s x dst in normal s.

Definition op_get_hd (src dst : Term) (s : Machine) : step_result :=
  do! v := load_arg s src in do! (hd, tl) := load_cons (mem s) (get_cons_ptr v) in
  do! s := store s hd dst in normal s.
Definition op_get_tl (src dst : Term) (s : Machine) : step_result :=
  do! v := load_arg s src in do! (hd, tl) := load_cons (mem s) (get_cons_ptr v) in
  do! s := store s tl dst in normal s.

(** Of an initializer, every element is a literal or a register. *)
Fixpoint load_all (s : Machine) (els : list Term) : vm (list Term) :=
  match els with
  | [] => Ret []
  | x :: els => do! v := load_arg s x in do! vs := load_all s els in Ret (v :: vs)
  end.

(** [get_tuple_ptr] masks the tag of whatever it is given. *)
Definition tuple_at (s : Machine) (x : Term) : vm (list Term) :=
  do! o := read (boxes (mem s) !! get_box_ptr_unchecked x) in match o with OTuple els => Ret els | _ => Wild end.

Definition op_put_tuple2 (dst initializer : Term) (s : Machine) : step_result :=
  do! init := tuple_at s initializer in
  do! vs := load_all s init in
  do! (x, s) := make_tuple s vs in do! s := store s x dst in normal s.

Definition op_get_tuple_element (src index dst : Term) (s : Machine) : step_result :=
  do! v := load_arg s src in do! els := tuple_at s v in
  do! x := read (els !! Z.to_nat (get_small_unsigned index)) in
  do! s := store s x dst in normal s.

Definition op_test_arity (fail value arity : Term) (s : Machine) : step_result :=
  do! v := load_arg s value in do! is_t := is_tuple (mem s) v in
  if negb is_t then normal (jump_to s fail) else
  do! els := tuple_at s v in
  jump_if (negb (Z.of_nat (length els) =? get_small_unsigned arity)) fail s.

Definition op_is_tagged_tuple (label value arity atom : Term) (s : Machine) : step_result :=
  do! v := load_arg s value in do! is_t := is_tuple (mem s) v in
  if negb is_t then normal (jump_to s label) else
  do! els := tuple_at s v in
  if negb (Z.of_nat (length els) =? get_small_unsigned arity) then normal (jump_to s label) else
  do! first := read (els !! 0%nat) in jump_if (negb (bool_decide (first = atom))) label s.

(** * [op_type_checks.rs] and [op_predicates.rs] *)

Inductive TypeTest :=
| IsAtom | IsFunction | IsInteger | IsTuple | IsBinary | IsFloat | IsNumber | IsPid | IsReference | IsPort
| IsList | IsBitstr | IsBoolean.

Definition type_test (m : Memory) (t : TypeTest) (v : Term) : vm bool :=
  match t with
  | IsAtom => Ret (is_atom v)
  | IsFunction => is_fun m v
  | IsInteger => or_else (is_small v) (is_big_int m v)
  | IsTuple => or_else (bool_decide (v = empty_tuple)) (is_tuple m v)
  | IsBinary | IsBitstr => or_else (bool_decide (v = empty_binary)) (is_binary m v)
  | IsFloat => is_float m v
  | IsNumber => is_number m v
  | IsPid => is_pid m v
  | IsReference => Ret (is_local_ref v || is_external_ref v)
  | IsPort => Ret (is_local_port v || is_external_port v)
  | IsList => Ret (is_list v)
  | IsBoolean => Ret (bool_decide (v = TRUE) || bool_decide (v = FALSE))
  end.

Definition op_type_test (t : TypeTest) (fail value : Term) (s : Machine) : step_result :=
  do! v := load_arg s value in do! b := type_test (mem s) t v in jump_if (negb b) fail s.

Inductive Comparison := CEqExact | CNeExact | CLt | CEq | CGe | CNe.

Definition op_compare (atoms : AtomStorage) (fuel : nat) (c : Comparison) (fail a b : Term) (s : Machine) : step_result :=
  do! a := load_arg s a in do! b := load_arg s b in
  do! j := (match c with
            | CEqExact => is_eq_exact (mem s) atoms fuel a b
            | CNeExact => is_ne_exact (mem s) atoms fuel a b
            | CLt => is_lt (mem s) atoms fuel a b
            | CEq => is_eq (mem s) atoms fuel a b
            | CGe => is_ge (mem s) atoms fuel a b
            | CNe => is_ne (mem s) atoms fuel a b
            end) in
  jump_if j fail s.

(** * One instruction *)

Inductive Instr :=
| IMove (src dst : Term) | ISwap (reg1 reg2 : Term)
| IAllocate (fill : AllocInit) (stack_need live : Term) | IAllocateHeap (fill : AllocInit) (stack_need heap_need live : Term)
| IDeallocate (free : Term) | ITestHeap (heap_need live : Term) | ITrim (n_trim remaining : Term) | IInit (y : Term)
| ICall (arity dst : Term) | ICallOnly (arity dst : Term) | ICallLast (arity dst dealloc : Term) | IReturn
| IFuncInfo (m f arity : Term) | IBadmatch (val : Term) | ICaseEnd (val : Term) | IIfEnd | IJump (dst : Term)
| ISelectVal (val fail pairs : Term) | ISelectTupleArity (val fail pairs : Term)
| ITry (yreg label : Term) | ITryEnd (yreg : Term) | ITryCase (yreg : Term) | ITryCaseEnd (val : Term)
| ICatch (yreg label : Term) | ICatchEnd (yreg : Term) | IRaise (stacktrace exc_value : Term) | IRawRaise
| ILoopRec (fail source : Term) | ILoopRecEnd (label : Term) | IRemoveMessage | IWait (label : Term) | ITimeout
| IWaitTimeout (fail_label timeout_val : Term)
| IIsNonemptyList (fail value : Term) | IIsNil (fail value : Term) | IGetList (src hd tl : Term) | IPutList (hd tl dst : Term)
| IGetHd (src dst : Term) | IGetTl (src dst : Term)
| IPutTuple2 (dst initializer : Term) | IGetTupleElement (src index dst : Term) | ITestArity (fail value arity : Term)
| IIsTaggedTuple (label value arity atom : Term)
| ITypeTest (t : TypeTest) (fail value : Term) | ICompare (c : Comparison) (fail a b : Term).

(** The number of argument words. *)
Definition arity_of (i : Instr) : Z :=
  match i with
  | IReturn | IIfEnd | IRawRaise | IRemoveMessage | ITimeout => 0
  | IDeallocate _ | IInit _ | IBadmatch _ | ICaseEnd _ | IJump _ | ITryEnd _ | ITryCase _ | ITryCaseEnd _
  | ICatchEnd _ | ILoopRecEnd _ | IWait _ => 1
  | IMove _ _ | ISwap _ _ | IAllocate _ _ _ | ITestHeap _ _ | ITrim _ _ | ICall _ _ | ICallOnly _ _ | ITry _ _
  | ICatch _ _ | IRaise _ _ | ILoopRec _ _ | IWaitTimeout _ _ | IIsNonemptyList _ _ | IIsNil _ _ | IGetHd _ _
  | IGetTl _ _ | IPutTuple2 _ _ | ITypeTest _ _ _ => 2
  | IAllocateHeap _ _ _ _ | ICallLast _ _ _ | IFuncInfo _ _ _ | ISelectVal _ _ _ | ISelectTupleArity _ _ _
  | IGetList _ _ _ | IPutList _ _ _ | IGetTupleElement _ _ _ | ITestArity _ _ _ | ICompare _ _ _ _ => 3
  | IIsTaggedTuple _ _ _ _ => 4
  end.

Section Execute.
Context (atoms : AtomStorage) (fuel : nat) (code : Z -> option Instr).

Definition dispatch_op (i : Instr) (s : Machine) : step_result :=
  match i with
  | IMove src dst => op_move src dst s
  | ISwap r1 r2 => op_swap r1 r2 s
  | IAllocate fill n live => op_allocate fill n live s
  | IAllocateHeap fill n h live => op_allocate_heap fill n h live s
  | IDeallocate n => op_deallocate n s
  | ITestHeap n live => op_test_heap n live s
  | ITrim n _ => op_trim n s
  | IInit y => op_init y s
  | ICall a dst => op_call a dst s
  | ICallOnly a dst => op_call_only a dst s
  | ICallLast a dst n => op_call_last a dst n s
  | IReturn => op_return s
  | IFuncInfo _ _ _ => op_func_info s
  | IBadmatch v => op_badmatch v s
  | ICaseEnd v => op_case_end v s
  | IIfEnd => op_if_end s
  | IJump dst => op_jump dst s
  | ISelectVal v fail pairs => op_select_val atoms fuel v fail pairs s
  | ISelectTupleArity v fail pairs => op_select_tuple_arity v fail pairs s
  | ITry y label | ICatch y label => op_try y label s
  | ITryEnd y => op_try_end y s
  | ITryCase y => op_try_case y s
  | ITryCaseEnd v => op_try_case_end v s
  | ICatchEnd y => op_catch_end y s
  | IRaise t v => op_raise t v s
  | IRawRaise => op_raw_raise s
  | ILoopRec fail _ => op_loop_rec fail s
  | ILoopRecEnd label => op_loop_rec_end label s
  | IRemoveMessage => op_remove_message s
  | IWait label => op_wait label s
  | ITimeout => op_timeout s
  | IWaitTimeout fail t => op_wait_timeout fail t s
  | IIsNonemptyList fail v => op_is_nonempty_list fail v s
  | IIsNil fail v => op_is_nil fail v s
  | IGetList src hd tl => op_get_list src hd tl s
  | IPutList hd tl dst => op_put_list hd tl dst s
  | IGetHd src dst => op_get_hd src dst s
  | IGetTl src dst => op_get_tl src dst s
  | IPutTuple2 dst init => op_put_tuple2 dst init s
  | IGetTupleElement src i dst => op_get_tuple_element src i dst s
  | ITestArity fail v a => op_test_arity fail v a s
  | IIsTaggedTuple label v a atom => op_is_tagged_tuple label v a atom s
  | ITypeTest t fail v => op_type_test t fail v s
  | ICompare c fail a b => op_compare atoms fuel c fail a b s
  end.

(** [fetch_opcode]: a reduction is paid, and [ip] moves past the arguments. *)
Definition fetched (arity : Z) (c : RuntimeContext) : RuntimeContext :=
  {| ip := ip c + 8 * (1 + arity); cp := cp c; reductions := reductions c - FETCH_OPCODE_COST;
     regs := regs c; fpregs := fpregs c; live := live c; current_bin := current_bin c |}.

Definition execute_one (s : Machine) : step_result :=
  do! i := read (code (ip (ctx s))) in dispatch_op i (with_ctx s (fetched (arity_of i) (ctx s))).

(** The loop of [dispatch] over one time slice.  [reductions] is read after the opcode. *)
Fixpoint run_slice (n : nat) (s : Machine) : vm Machine :=
  match n with
  | O => Spin
  | S n =>
    do! (r, s) := execute_one s in
    match r with
    | Raised cls reason => Ret (with_proc s (with_result (set_exception (proc s) cls reason) SliceException))
    | YieldEndOfTheQueue => Ret (with_proc s (with_result (proc s) SliceYield))
    | YieldInfiniteWait => Ret (with_proc s (with_result (proc s) SliceInfiniteWait))
    | Finished => Ret (with_proc s (with_result (proc s) SliceFinished))
    | Normal =>
      if reductions (ctx s) <=? 0 then Ret (with_proc s (with_result (proc s) SliceYield)) else run_slice n s
    end
  end.

Definition time_slice (n : nat) (s : Machine) : vm Machine := run_slice n (with_ctx s (swap_in (ctx s))).
End Execute.
