(* ===== verification/BeamFacts.v ===== *)
(** What every opcode keeps: the bounds of the machine, the terms already built, and the
    count of reductions, on which the length of a time slice rests. *)
From S2P Require Import Prelude Float64 BeamTerm BeamMem BeamCompare BeamHeap BeamProc BeamOps.

(** * Results that return *)

Definition post {A} (P : A -> Prop) (v : vm A) : Prop := match v with Ret a => P a | _ => True end.

Lemma post_bind {A B} (Q : A -> Prop) (P : B -> Prop) (v : vm A) (k : A -> vm B) :
  post Q v -> (forall a, Q a -> post P (k a)) -> post P (vm_bind v k).
Proof. destruct v; cbn; auto. Qed.

Lemma post_any {A} (v : vm A) : post (fun _ => True) v.
Proof. by destruct v. Qed.

Lemma post_mono {A} (P Q : A -> Prop) v : post P v -> (forall a, P a -> Q a) -> post Q v.
Proof. destruct v; cbn; auto. Qed.

Lemma post_Ret {A} (P : A -> Prop) v a : post P v -> v = Ret a -> P a.
Proof. intros H ->. exact H. Qed.

(** * What a step keeps *)

(** The stack is above the heap in a block of its own, and the register files have their
    sizes. *)
Definition machine_ok (s : Machine) : Prop :=
  heap_ok (hp s) /\ Z.of_nat (length (regs (ctx s))) = MAX_XREGS /\ Z.of_nat (length (fpregs (ctx s))) = MAX_FPREGS.

(** The addresses of terms that exist: the heap of the process up to its top, and everything
    outside its block. *)
Definition built (s : Machine) (p : Z) : Prop :=
  p < heap_base (proc s) + 8 * heap_top (hp s) \/ heap_base (proc s) + 8 * capacity (hp s) <= p.

Definition same_terms (s s' : Machine) : Prop :=
  forall p, built s p -> boxes (mem s') !! p = boxes (mem s) !! p /\ conses (mem s') !! p = conses (mem s) !! p.

(** Who the process is, and what only the scheduler writes. *)
Definition same_identity (p p' : Process) : Prop :=
  pid p' = pid p /\ prio p' = prio p /\ current_queue p' = current_queue p /\
  process_flags p' = process_flags p.

Lemma same_identity_refl p : same_identity p p.
Proof. done. Qed.

Lemma same_identity_trans p1 p2 p3 : same_identity p1 p2 -> same_identity p2 p3 -> same_identity p1 p3.
Proof. unfold same_identity. intros (E1 & E2 & E3 & E4) (-> & -> & -> & ->). done. Qed.

#[export] Hint Resolve same_identity_refl : core.

Record kept (s s' : Machine) : Prop := {
  kept_reductions : reductions (ctx s') = reductions (ctx s);
  kept_identity : same_identity (proc s) (proc s');
  kept_block : heap_base (proc s') = heap_base (proc s) /\ capacity (hp s') = capacity (hp s);
  kept_top : heap_top (hp s) <= heap_top (hp s');
  kept_ok : machine_ok s -> machine_ok s';
  kept_terms : machine_ok s -> same_terms s s'
}.

Lemma kept_same s : kept s s.
Proof. split; unfold same_terms; auto with lia. Qed.

Lemma kept_then s1 s2 s3 : kept s1 s2 -> kept s2 s3 -> kept s1 s3.
Proof.
  intros [R1 I1 [B1 C1] T1 O1 M1] [R2 I2 [B2 C2] T2 O2 M2]. split; [congruence | by eapply same_identity_trans | split; congruence | lia | auto |].
  intros O p Hp. assert (built s2 p) as Hp2 by (unfold built in *; rewrite B1, C1; lia).
  destruct (M1 O p Hp) as [<- <-]. by apply (M2 (O1 O)).
Qed.

(** Only registers and flow change. *)
Definition same_shape (s s' : Machine) : Prop :=
  mem s' = mem s /\ hp s' = hp s /\ heap_base (proc s') = heap_base (proc s) /\
  reductions (ctx s') = reductions (ctx s) /\ length (regs (ctx s')) = length (regs (ctx s)) /\
  length (fpregs (ctx s')) = length (fpregs (ctx s)) /\ same_identity (proc s) (proc s').

Lemma kept_shape s s' : same_shape s s' -> kept s s'.
Proof.
  intros (Em & Eh & Eb & Er & El & Ef & Ei). split; unfold machine_ok, same_terms; rewrite ?Em, ?Eh, ?Er, ?El, ?Ef; auto with lia.
Qed.

Lemma kept_heap s h : capacity h = capacity (hp s) -> heap_top (hp s) <= heap_top h ->
  (heap_ok (hp s) -> heap_ok h) -> kept s (with_proc s (with_heap (proc s) h)).
Proof. intros Hc Ht Ho. split; unfold machine_ok, same_terms; cbn; auto with lia; try done. intros (H1 & H2 & H3). auto. Qed.

(** ** The heap operations *)

Lemma set_word_keeps h i w h' : set_word h i w = Some h' ->
  capacity h' = capacity h /\ heap_top h' = heap_top h /\ stack_top h' = stack_top h /\ length (data h') = length (data h).
Proof.
  unfold set_word. case_match; [|done]. intros [= <-]. cbn. by rewrite length_insert.
Qed.

Lemma set_y_keeps h i x : post (fun h' => capacity h' = capacity h /\ heap_top h' = heap_top h /\ (heap_ok h -> heap_ok h')) (set_y h i x).
Proof.
  unfold set_y. case_match; [done|]. destruct (set_word _ _ _) as [h'|] eqn:E; [|done]. cbn.
  apply set_word_keeps in E as (E1 & E2 & E3 & E4). unfold heap_ok. rewrite E1, E2, E3, E4. auto.
Qed.

Lemma deallocate_keeps h n : 0 <= n ->
  post (fun '(_, h') => capacity h' = capacity h /\ heap_top h' = heap_top h /\ (heap_ok h -> heap_ok h' /\ stack_check_available h' 1 = true))
    (stack_deallocate h n).
Proof.
  intros Hn. unfold stack_deallocate. case_match; [done|]. zify_bool. destruct (word_at h (stack_top h)); [|done].
  cbn [unwrap vm_bind]. case_match; [|done]. cbn. unfold heap_ok, stack_check_available. cbn. split_and!; try done. intros. lia.
Qed.

Lemma alloc_keeps h n fill : 0 <= n ->
  post (fun '(pos, h') => pos = heap_top h /\ capacity h' = capacity h /\ heap_top h <= heap_top h' /\
          pos < stack_top h /\ (heap_ok h -> heap_ok h')) (alloc h n fill).
Proof.
  intros Hn. unfold alloc. case_match; [done|]. zify_bool. cbn [post]. unfold heap_ok. cbn [capacity heap_top stack_top data].
  assert (forall i, capacity (fill_from h i n fill) = capacity h /\ heap_top (fill_from h i n fill) = heap_top h /\
    stack_top (fill_from h i n fill) = stack_top h /\ length (data (fill_from h i n fill)) = length (data h)) as Hf.
  { intros i. unfold fill_from. destruct fill; cbn; by rewrite ?fill_words_length. }
  destruct (Hf (heap_top h)) as (E1 & E2 & E3 & E4). rewrite ?E1, ?E2, ?E3, ?E4. split_and!; try done; lia.
Qed.

(** ** The steps that opcodes are made of *)

Definition keeps (s : Machine) (v : vm Machine) : Prop := post (kept s) v.
Definition keeps2 {A} (s : Machine) (v : vm (A * Machine)) : Prop := post (fun r => kept s r.2) v.

Lemma store_keeps s val dst : keeps s (store s val dst).
Proof.
  unfold keeps, store.
  apply (post_bind (fun '(c, h) => reductions c = reductions (ctx s) /\ length (regs c) = length (regs (ctx s)) /\
    length (fpregs c) = length (fpregs (ctx s)) /\ capacity h = capacity (hp s) /\ heap_top h = heap_top (hp s) /\
    (heap_ok (hp s) -> heap_ok h))).
  - unfold store_value. case_match; [|done]. case_match; [|case_match; [|case_match; [|done]]].
    + unfold set_x. case_match; [done|]. cbn. rewrite length_insert. auto 10.
    + eapply post_bind; [apply set_y_keeps|]. intros h (E1 & E2 & E3). cbn. auto 10.
    + eapply post_bind; [apply post_any|]. intros b _. eapply post_bind; [apply post_any|]. intros v _.
      case_match; [done|]. cbn. rewrite length_insert. auto 10.
  - intros [c h] (E1 & E2 & E3 & E4 & E5 & E6). cbn. split; cbn; rewrite ?E1, ?E4, ?E5; auto with lia; try done.
    unfold machine_ok. cbn. rewrite E2, E3. intros (H1 & H2 & H3). auto.
Qed.

Lemma store_y_keeps s y val : keeps s (store_y s y val).
Proof.
  eapply post_bind; [apply set_y_keeps|]. intros h (E1 & E2 & E3). apply kept_heap; [done | lia | done].
Qed.

Lemma set_x_keeps s i v : post (fun c => same_shape s (with_ctx s c)) (set_x (ctx s) i v).
Proof. unfold set_x. case_match; [done|]. unfold same_shape. cbn. rewrite length_insert. by split_and!. Qed.

Lemma alloc_words_keeps s n : 0 <= n ->
  post (fun '(p, s') => kept s s' /\ mem s' = mem s /\ (machine_ok s -> ~ built s p)) (alloc_words s n).
Proof.
  intros Hn. unfold alloc_words. eapply post_bind; [by apply alloc_keeps|]. intros [pos h] (-> & Ec & Et & Hp & Ho).
  cbn. split; [|split; [done|]].
  - apply kept_heap; [done | lia | done].
  - unfold built. intros ((Hh & Hs & _) & _). unfold hp in *. lia.
Qed.

(** A new object is written where no term was. *)
Lemma put_new s s' p (b : option Obj) (c : option (Term * Term)) : kept s s' -> mem s' = mem s -> (machine_ok s -> ~ built s p) ->
  kept s {| mem := {| boxes := match b with Some o => <[p := o]> (boxes (mem s')) | None => boxes (mem s') end;
                      conses := match c with Some x => <[p := x]> (conses (mem s')) | None => conses (mem s') end |};
            proc := proc s' |}.
Proof.
  intros [R I B T O M] E Hp. split; [done | done | done | done | done |].
  intros Hs q Hq. rewrite <- E. cbn. assert (p <> q) as Hne by (intros ->; by apply (Hp Hs)).
  destruct b, c; rewrite ?lookup_insert_ne by done; auto.
Qed.

Lemma make_tuple_keeps s els : keeps2 s (make_tuple s els).
Proof.
  unfold keeps2, make_tuple. eapply post_bind; [apply alloc_words_keeps; unfold tuple_storage_size; lia|].
  intros [p s'] (K & E & Hp). destruct els as [|e els]; [done|].
  eapply post_bind; [apply post_any|]. intros x _. exact (put_new s s' p (Some (OTuple (e :: els))) None K E Hp).
Qed.

Lemma make_pair_keeps s hd tl : keeps2 s (make_pair s hd tl).
Proof.
  unfold keeps2, make_pair. eapply post_bind; [apply alloc_words_keeps; lia|].
  intros [p s'] (K & E & Hp). exact (put_new s s' p None (Some (hd, tl)) K E Hp).
Qed.

Lemma generic_tuple2_fail_keeps s err val : keeps2 s (generic_tuple2_fail s err val).
Proof. eapply post_bind; [apply make_tuple_keeps|]. intros [t s'] K. exact K. Qed.

Lemma shape_refl s : same_shape s s.
Proof. done. Qed.

Lemma kept_ctx s s' c : kept s s' -> reductions c = reductions (ctx s') -> length (regs c) = length (regs (ctx s')) ->
  length (fpregs c) = length (fpregs (ctx s')) -> kept s (with_ctx s' c).
Proof. intros K H1 H2 H3. eapply kept_then; [exact K|]. apply kept_shape. unfold same_shape. by split_and!. Qed.

Lemma kept_proc s s' p : kept s s' -> heap p = hp s' -> heap_base p = heap_base (proc s') -> context p = ctx s' ->
  same_identity (proc s') p -> kept s (with_proc s' p).
Proof.
  intros K H1 H2 H3 H4. eapply kept_then; [exact K|]. apply kept_shape. unfold same_shape, hp, ctx in *. cbn.
  rewrite H1, H2, H3. by split_and!.
Qed.

(** From [s], through [s1], to wherever [v] leads. *)
Lemma keeps_via s s1 v : kept s s1 -> keeps s1 v -> keeps s v.
Proof. intros K. unfold keeps. destruct v; cbn; try done. apply kept_then, K. Qed.
Lemma keeps2_via {A} s s1 (v : vm (A * Machine)) : kept s s1 -> keeps2 s1 v -> keeps2 s v.
Proof. intros K. unfold keeps2. destruct v as [[a s2]| | | |]; cbn; try done. apply kept_then, K. Qed.

Lemma set_x_via s s1 c i v : kept s (with_ctx s1 c) -> post (fun c => kept s (with_ctx s1 c)) (set_x c i v).
Proof.
  intros K. unfold set_x. case_match; [done|]. cbn. eapply kept_then; [exact K|]. apply kept_shape.
  unfold same_shape. cbn. rewrite length_insert. by split_and!.
Qed.

Create HintDb keeps discriminated.
#[export] Hint Resolve kept_same : keeps.
#[export] Hint Resolve store_keeps store_y_keeps make_tuple_keeps make_pair_keeps generic_tuple2_fail_keeps : keeps.
#[export] Hint Extern 1 (post _ (Ret _)) => (cbn [post snd]) : keeps.
#[export] Hint Extern 1 (kept _ (with_ctx _ _)) => (apply kept_ctx; [|done..]) : keeps.
#[export] Hint Extern 1 (kept _ (with_proc _ _)) => (apply kept_proc; [|done..]) : keeps.
#[export] Hint Extern 1 (kept _ (jump_to _ _)) => (apply kept_ctx; [|done..]) : keeps.
#[export] Hint Extern 1 (kept _ (if _ then _ else _)) => case_match : keeps.

Ltac origin :=
  lazymatch goal with
  | |- post (kept ?s) _ => constr:(s)
  | |- post (fun r => kept ?s (snd r)) _ => constr:(s)
  end.

(** One step of a body: the step that changes the machine, or one that only reads. *)
Ltac keep :=
  let o := origin in
  lazymatch goal with
  | |- post _ (vm_bind (store ?s1 _ _) _) => eapply (post_bind _ _ _ _ (keeps_via o s1 _ ltac:(auto with keeps) (store_keeps _ _ _))); intros ? ?
  | |- post _ (vm_bind (store_y ?s1 _ _) _) => eapply (post_bind _ _ _ _ (keeps_via o s1 _ ltac:(auto with keeps) (store_y_keeps _ _ _))); intros ? ?
  | |- post _ (vm_bind (make_tuple ?s1 _) _) => eapply (post_bind _ _ _ _ (keeps2_via o s1 _ ltac:(auto with keeps) (make_tuple_keeps _ _))); intros [? ?] ?
  | |- post _ (vm_bind (make_pair ?s1 _ _) _) => eapply (post_bind _ _ _ _ (keeps2_via o s1 _ ltac:(auto with keeps) (make_pair_keeps _ _ _))); intros [? ?] ?
  | |- post _ (vm_bind (set_x (ctx ?s1) _ _) _) => eapply (post_bind _ _ _ _ (set_x_via o s1 (ctx s1) _ _ ltac:(auto with keeps))); intros ? ?
  | K : kept _ (with_ctx ?s1 ?c) |- post _ (vm_bind (set_x ?c _ _) _) => eapply (post_bind _ _ _ _ (set_x_via o s1 c _ _ K)); intros ? ?
  | |- post _ (vm_bind _ _) => eapply post_bind; [apply post_any|]; intros ? _
  | |- post _ (generic_tuple2_fail ?s1 _ _) => apply (keeps2_via o s1); [auto with keeps | apply generic_tuple2_fail_keeps]
  | |- post _ (match ?x with _ => _ end) => destruct x eqn:?
  | |- post _ (if ?x then _ else _) => destruct x eqn:?
  | |- post _ (let _ := _ in _) => cbv zeta
  end.

(** ** Register shuffles *)

Lemma shift_regs_keeps s : keeps s (shift_regs s).
Proof. unfold keeps, shift_regs. repeat keep. auto with keeps. Qed.

Lemma end_catch_keeps y s : keeps s (end_catch y s).
Proof. unfold end_catch. eapply keeps_via; [|apply store_y_keeps]. auto with keeps. Qed.


Ltac keep_all :=
  let o := origin in
  repeat first
  [ lazymatch goal with
    | |- post _ (vm_bind (end_catch _ ?s1) _) =>
        eapply (post_bind _ _ _ _ (keeps_via o s1 _ ltac:(auto with keeps) (end_catch_keeps _ _))); intros ? ?
    | |- post _ (vm_bind (shift_regs ?s1) _) =>
        eapply (post_bind _ _ _ _ (keeps_via o s1 _ ltac:(auto with keeps) (shift_regs_keeps _))); intros ? ?
    end
  | keep ].

(** * The opcodes *)

(** What the compiler's code sees to: frames are of a size, and there is room for a new one. *)
Definition instr_ok (i : Instr) (s : Machine) : Prop :=
  match i with
  | IAllocate _ n _ | IAllocateHeap _ n _ _ =>
      0 <= get_small_unsigned n /\ stack_check_available (hp s) (get_small_unsigned n + 1) = true
  | IDeallocate n | ITrim n _ | ICallLast _ _ n => 0 <= get_small_unsigned n
  | _ => True
  end.

Lemma ensure_heap_same p n : post (fun p' => p' = p) (ensure_heap p n).
Proof. unfold ensure_heap. by case_match. Qed.

Lemma stack_alloc_keeps h n fill : 0 <= n ->
  post (fun h' => capacity h' = capacity h /\ heap_top h' = heap_top h /\ stack_top h' = stack_top h - n /\
          (heap_ok h -> stack_check_available h (n + 1) = true -> heap_ok h' /\ stack_check_available h' 1 = true)) (stack_alloc h n fill).
Proof.
  intros Hn. unfold stack_alloc, heap_ok, stack_check_available. case_match; zify_bool; [cbn; subst; split_and!; lia|].
  case_match; zify_bool; [done|]. destruct fill; cbn; rewrite ?fill_words_length; split_and!; lia.
Qed.

Lemma push_keeps h x :
  post (fun h' => capacity h' = capacity h /\ heap_top h' = heap_top h /\
          (heap_ok h -> stack_check_available h 1 = true -> heap_ok h')) (stack_push_lterm_unchecked h x).
Proof.
  unfold stack_push_lterm_unchecked. destruct (set_word _ _ _) as [h'|] eqn:E; [|done]. cbn.
  apply set_word_keeps in E as (E1 & E2 & E3 & E4). unfold heap_ok, stack_check_available. rewrite E1, E2, E3, E4. cbn.
  split_and!; lia.
Qed.

Lemma gen_alloc_keeps n need live fill s : 0 <= n -> stack_check_available (hp s) (n + 1) = true ->
  keeps s (gen_alloc n need live fill s).
Proof.
  intros Hn Ha. unfold keeps, gen_alloc. cbv zeta. eapply post_bind; [apply ensure_heap_same|]. intros p ->.
  eapply post_bind; [apply (stack_alloc_keeps _ n fill Hn)|]. intros h1 (C1 & T1 & S1 & O1).
  eapply post_bind; [apply post_any|]. intros c _.
  eapply post_bind; [apply push_keeps|]. intros h2 (C2 & T2 & O2). cbn.
  apply (kept_then _ (with_ctx s (set_live (ctx s) live))); [auto with keeps|].
  apply kept_heap; unfold hp in *; cbn in *; [congruence | lia |]. intros H. destruct (O1 H Ha). auto.
Qed.

(** ** The opcodes that move the stack, and the one that takes a message *)

Lemma op_deallocate_keeps n s : 0 <= get_small_unsigned n -> keeps2 s (op_deallocate n s).
Proof.
  intros Hn. eapply post_bind; [by apply deallocate_keeps|]. intros [c h] (Ec & Et & Ho). cbn.
  eapply kept_then; [apply (kept_heap s h); [done | lia |]|auto with keeps]. intros H. by apply Ho.
Qed.

Lemma op_call_last_keeps a dst n s : 0 <= get_small_unsigned n -> keeps2 s (op_call_last a dst n s).
Proof.
  intros Hn. eapply post_bind; [by apply deallocate_keeps|]. intros [c h] (Ec & Et & Ho). cbn.
  eapply kept_then; [apply (kept_heap s h); [done | lia |]|auto with keeps]. intros H. by apply Ho.
Qed.

Lemma op_trim_keeps n s : 0 <= get_small_unsigned n -> keeps2 s (op_trim n s).
Proof.
  intros Hn. eapply post_bind; [by apply deallocate_keeps|]. intros [c h] (Ec & Et & Ho).
  eapply post_bind; [apply push_keeps|]. intros h2 (Ec2 & Et2 & Ho2). cbn.
  apply kept_heap; [congruence | lia |]. intros H. destruct (Ho H). auto.
Qed.

Lemma op_test_heap_keeps n live s : keeps2 s (op_test_heap n live s).
Proof.
  unfold keeps2, op_test_heap. cbv zeta. eapply post_bind; [apply ensure_heap_same|]. intros p ->. cbn. auto with keeps.
Qed.

Lemma op_remove_message_keeps s : keeps2 s (op_remove_message s).
Proof.
  eapply post_bind; [apply post_any|]. intros [x mb] _. eapply post_bind; [apply set_x_keeps|]. intros c H. cbn.
  eapply kept_then; [apply kept_shape, H|]. apply kept_shape. unfold same_shape. cbn. by split_and!.
Qed.

Lemma op_catch_end_keeps y s : keeps2 s (op_catch_end y s).
Proof.
  eapply post_bind; [apply end_catch_keeps|]. intros s1 K. unfold post. fold (@post (OpResult * Machine)).
  eapply post_bind; [apply post_any|]. intros x0 _. case_match; [|exact K]. cbv zeta.
  set (s2 := with_proc s1 _). assert (kept s s2) as K2 by (subst s2; auto with keeps).
  eapply post_bind; [apply post_any|]. intros cls _. eapply post_bind; [apply post_any|]. intros v _.
  apply (post_bind (fun r => kept s r.2)); [case_match; [exact K2 | eapply keeps2_via; [exact K2 | apply make_tuple_keeps]]|].
  intros [x s3] K3. unfold normal. keep_all. auto with keeps.
Qed.

(** ** Every opcode *)

Lemma dispatch_keeps atoms fuel i s : instr_ok i s -> keeps2 s (dispatch_op atoms fuel i s).
Proof.
  intros Hi. destruct i; cbn [dispatch_op instr_ok] in *.
  all: lazymatch goal with
    | |- keeps2 _ (op_allocate _ _ _ _) => destruct Hi; eapply post_bind; [by apply gen_alloc_keeps | by intros s' K]
    | |- keeps2 _ (op_allocate_heap _ _ _ _ _) => destruct Hi; eapply post_bind; [by apply gen_alloc_keeps | by intros s' K]
    | |- keeps2 _ (op_deallocate _ _) => by apply op_deallocate_keeps
    | |- keeps2 _ (op_call_last _ _ _ _) => by apply op_call_last_keeps
    | |- keeps2 _ (op_trim _ _) => by apply op_trim_keeps
    | |- keeps2 _ (op_test_heap _ _ _) => apply op_test_heap_keeps
    | |- keeps2 _ (op_remove_message _) => apply op_remove_message_keeps
    | |- keeps2 _ (op_catch_end _ _) => apply op_catch_end_keeps
    | _ => idtac
    end.
  all: unfold keeps2.
  all: cbv delta [op_move op_swap op_init op_call op_call_only op_return op_func_info op_badmatch op_case_end op_if_end
    op_jump op_select_val op_select_tuple_arity op_try op_try_end op_try_case op_try_case_end op_raise op_raw_raise
    op_loop_rec op_loop_rec_end op_wait op_timeout op_wait_timeout op_is_nonempty_list op_is_nil op_get_list
    op_put_list op_get_hd op_get_tl op_put_tuple2 op_get_tuple_element op_test_arity op_is_tagged_tuple op_type_test op_compare
    jump_if normal raise] beta.
  all: keep_all; auto with keeps.
Qed.

Lemma dispatch_kept atoms fuel i s r s' : instr_ok i s -> dispatch_op atoms fuel i s = Ret (r, s') -> kept s s'.
Proof. intros Hi E. exact (post_Ret _ _ _ (dispatch_keeps atoms fuel i s Hi) E). Qed.

(** ** Reductions are only spent by the fetch *)

Definition settled (s s' : Machine) : Prop := reductions (ctx s') = reductions (ctx s) /\ same_identity (proc s) (proc s').

Lemma gen_alloc_settled n need live fill s : post (settled s) (gen_alloc n need live fill s).
Proof.
  unfold gen_alloc. cbv zeta. eapply post_bind; [apply ensure_heap_same|]. intros p ->.
  do 3 (eapply post_bind; [apply post_any|]; intros ? _). done.
Qed.

Lemma dispatch_settled atoms fuel i s : post (fun r => settled s r.2) (dispatch_op atoms fuel i s).
Proof.
  assert (instr_ok i s -> post (fun r => settled s r.2) (dispatch_op atoms fuel i s)) as Hk.
  { intros Hi. eapply post_mono; [by apply dispatch_keeps|]. intros r K. split; apply K. }
  destruct i; try by apply Hk.
  all: try (eapply post_bind; [apply gen_alloc_settled | by intros s' E]).
  all: eapply post_bind; [apply post_any|]; intros [c h] _; try done.
  eapply post_bind; [apply post_any|]. intros h' _. done.
Qed.

Lemma execute_spends atoms fuel code s r s' : execute_one atoms fuel code s = Ret (r, s') ->
  reductions (ctx s') = reductions (ctx s) - 1 /\ same_identity (proc s) (proc s').
Proof.
  unfold execute_one. destruct (code (ip (ctx s))) as [i|]; [|done]. cbn [read vm_bind]. intros E.
  pose proof (post_Ret _ _ _ (dispatch_settled atoms fuel i _) E) as H. exact H.
Qed.

(** A slice leaves the scheduler's fields alone, and always records how it ended. *)
Lemma run_slice_identity atoms fuel code n : forall s,
  post (fun s' => same_identity (proc s) (proc s') /\ timeslice_result (proc s') <> SliceNone /\
          (timeslice_result (proc s') = SliceException -> is_failed (proc s') = true))
    (run_slice atoms fuel code n s).
Proof.
  induction n as [|n IH]; intros s; cbn [run_slice]; [done|].
  destruct (execute_one atoms fuel code s) as [[r s']| | | |] eqn:E; cbn [vm_bind]; try done.
  apply execute_spends in E as [_ I]. destruct r; try done.
  case_match; [done|]. eapply post_mono; [apply IH|]. intros s2 (I2 & Hs). split; [by eapply same_identity_trans | done].
Qed.

(** * A time slice ends *)

Lemma run_slice_settles atoms fuel code : forall n s k, reductions (ctx s) <= Z.of_nat n -> (0 < n)%nat ->
  run_slice atoms fuel code (n + k) s = run_slice atoms fuel code n s /\
  (run_slice atoms fuel code n s = Spin -> exists s1, execute_one atoms fuel code s1 = Spin).
Proof.
  induction n as [|n IH]; intros s k Hr Hn; [lia|]. cbn [run_slice Nat.add].
  destruct (execute_one atoms fuel code s) as [[r s']| | | |] eqn:E; cbn [vm_bind]; try by split; eauto.
  apply execute_spends in E as [E _]. destruct r; try by split.
  case_match; [by split|]. zify_bool. apply IH; lia.
Qed.

(** A time slice ends.  A process swapped in with its 200 reductions executes at most 200
    instructions before [dispatch] hands control back, whatever its code: more steps change
    nothing, and the loop fails to return only if a single instruction does. *)
Theorem slice_ends (atoms : AtomStorage) (fuel : nat) (code : Z -> option Instr) (s : Machine) (k : nat) :
  time_slice atoms fuel code (200 + k) s = time_slice atoms fuel code 200 s /\
  (time_slice atoms fuel code 200 s = Spin -> exists s1, execute_one atoms fuel code s1 = Spin).
Proof. apply run_slice_settles; [by vm_compute | lia]. Qed.

(** * Running *)

(** Some instructions, each with the room it needs, none raising. *)
Inductive runs (atoms : AtomStorage) (fuel : nat) (code : Z -> option Instr) : Machine -> Machine -> Prop :=
| runs_refl s : runs atoms fuel code s s
| runs_step s1 i s2 r s3 :
    runs atoms fuel code s1 s2 -> code (ip (ctx s2)) = Some i -> instr_ok i s2 ->
    execute_one atoms fuel code s2 = Ret (r, s3) -> runs atoms fuel code s1 s3.

(** Like [kept], but for the reductions. *)
Definition grows (s s' : Machine) : Prop :=
  heap_base (proc s') = heap_base (proc s) /\ capacity (hp s') = capacity (hp s) /\
  heap_top (hp s) <= heap_top (hp s') /\ machine_ok s' /\ same_terms s s'.

Lemma execute_grows atoms fuel code i s r s' : machine_ok s -> code (ip (ctx s)) = Some i -> instr_ok i s ->
  execute_one atoms fuel code s = Ret (r, s') -> grows s s'.
Proof.
  intros Ho Hc Hi. unfold execute_one. rewrite Hc. cbn [read vm_bind]. intros E.
  set (s1 := with_ctx s (fetched (arity_of i) (ctx s))) in *.
  assert (instr_ok i s1) as Hi1 by (by destruct i). assert (machine_ok s1) as Ho1 by exact Ho.
  destruct (dispatch_kept _ _ _ _ _ _ Hi1 E) as [_ _ [B C] T O M]. exact (conj B (conj C (conj T (conj (O Ho1) (M Ho1))))). 
Qed.

Lemma grows_trans s1 s2 s3 : grows s1 s2 -> grows s2 s3 -> grows s1 s3.
Proof.
  intros (B1 & C1 & T1 & O1 & M1) (B2 & C2 & T2 & O2 & M2). split_and!; try done; try congruence; try lia.
  intros p Hp. assert (built s2 p) as Hp2 by (unfold built in *; rewrite B1, C1; lia).
  destruct (M1 p Hp) as [<- <-]. by apply M2.
Qed.

(** Running keeps the machine and the terms it has built.  However many instructions run,
    the heap and the stack stay inside the process's block and apart, the register files keep
    their sizes, the heap top never goes back, and every term that existed at the start, on
    the process heap or elsewhere, is still there unchanged: terms are immutable. *)
Theorem running_keeps_terms (atoms : AtomStorage) (fuel : nat) (code : Z -> option Instr) (s s' : Machine) :
  machine_ok s -> runs atoms fuel code s s' ->
  machine_ok s' /\ heap_top (hp s) <= heap_top (hp s') /\
  forall p, built s p -> boxes (mem s') !! p = boxes (mem s) !! p /\ conses (mem s') !! p = conses (mem s) !! p.
Proof.
  intros Ho R. assert (grows s s') as (_ & _ & T & O & M); [|auto].
  induction R as [s | s1 i s2 r s3 R IH Hc Hi E].
  - split; [done|]. split; [done|]. split; [lia|]. by split.
  - specialize (IH Ho). eapply grows_trans; [exact IH|]. eapply execute_grows; try done. apply IH.
Qed.

(** * A call and its return *)

(** What the body of the function leaves alone: the frame it runs in, and so the return
    address on top of the stack. *)
Definition frame_intact (s s' : Machine) : Prop :=
  heap_ok (hp s') /\ stack_top (hp s') = stack_top (hp s) /\ capacity (hp s') = capacity (hp s) /\
  word_at (hp s') (stack_top (hp s)) = word_at (hp s) (stack_top (hp s)).

Lemma cp_is_cp x p : make_cp p = Some x -> 0 <= p < 2 ^ 63 -> p mod 8 = 0 -> is_cp x = true /\ get_cp_ptr x = p.
Proof.
  intros E Hp Ha. destruct (cp_reads p Hp Ha) as (y & E' & Er & Hv & Ht & Hc).
  assert (y = x) as -> by congruence. split; [|done]. rewrite is_cp_eq by done. rewrite Er. lia.
Qed.

(** The frame that [gen_alloc] opens holds the return address on top. *)
Lemma gen_alloc_frame n need live fill s : heap_ok (hp s) -> 0 <= n ->
  stack_check_available (hp s) (n + 1) = true -> heap_check_available (hp s) need = true ->
  0 <= cp (ctx s) < 2 ^ 63 -> cp (ctx s) mod 8 = 0 ->
  exists x s', make_cp (cp (ctx s)) = Some x /\ gen_alloc n need live fill s = Ret s' /\ heap_ok (hp s') /\
    ctx s' = set_live (ctx s) live /\ stack_top (hp s') = stack_top (hp s) - (n + 1) /\
    capacity (hp s') = capacity (hp s) /\ word_at (hp s') (stack_top (hp s')) = Some (raw x) /\
    (forall j, stack_top (hp s) <= j -> same_at (hp s) (hp s') j).
Proof.
  intros Ho Hn Ha Hh Hc Hm. destruct (cp_reads _ Hc Hm) as (x & Ex & _).
  pose proof Ha as Ha'. unfold stack_check_available in Ha'. zify_bool.
  destruct (stack_alloc_spec (hp s) n fill Ho Hn) as (h1 & E1 & O1 & T1 & S1 & C1 & Out1 & _); [unfold stack_check_available; lia|].
  destruct (push_spec h1 x O1) as (h2 & E2 & O2 & T2 & S2 & C2 & W2 & Out2); [unfold stack_check_available; lia|].
  exists x, (with_proc (with_ctx s (set_live (ctx s) live)) (with_heap (with_context (proc s) (set_live (ctx s) live)) h2)).
  split; [done|]. unfold hp in *. cbn [proc heap with_proc with_ctx with_heap with_context].
  split; [|do 5 (split; [done || congruence || lia|])].
  - unfold gen_alloc, ensure_heap, to_cp_term, with_ctx, with_proc, hp, ctx. cbv zeta.
    cbn [proc heap with_context with_heap context cp set_live]. unfold ctx in Ex.
    rewrite Hh. cbn [vm_bind heap with_context]. rewrite E1. cbn [vm_bind]. rewrite Ex. cbn [unwrap vm_bind]. rewrite E2. done.
  - intros j Hj. unfold same_at in *. rewrite Out2, Out1 by lia. done.
Qed.

(** A call comes back.  Calling a function that opens a frame, runs whatever body leaves
    the frame in place, closes it and returns, resumes at the instruction after the call, with
    the return register clear and the stack as deep as before. *)
Theorem call_returns (arity dst n live : Term) (fill : AllocInit) (s : Machine) :
  heap_ok (hp s) -> 0 <= get_small_unsigned n -> stack_check_available (hp s) (get_small_unsigned n + 1) = true ->
  0 < ip (ctx s) < 2 ^ 63 -> ip (ctx s) mod 8 = 0 ->
  exists s1 s2, op_call arity dst s = Ret (Normal, s1) /\ ip (ctx s1) = from_cp dst /\
    op_allocate fill n live s1 = Ret (Normal, s2) /\
    forall s3, frame_intact s2 s3 -> exists s4 s5,
      op_deallocate n s3 = Ret (Normal, s4) /\ op_return s4 = Ret (Normal, s5) /\
      ip (ctx s5) = ip (ctx s) /\ cp (ctx s5) = 0 /\ heap_ok (hp s5) /\
      stack_top (hp s5) = stack_top (hp s) /\ mem s5 = mem s3 /\ regs (ctx s5) = regs (ctx s3).
Proof.
  intros Ho Hn Ha Hi Hm. set (n' := get_small_unsigned n) in *. pose proof Ho as (Ht & Hs & Hl).
  pose proof Ha as Ha'. unfold stack_check_available in Ha'. zify_bool.
  exists (with_ctx s (jump (set_cp_ptr (set_live (ctx s) (get_small_unsigned arity)) (ip (ctx s))) dst)).
  destruct (gen_alloc_frame n' 0 (get_small_unsigned live) fill
    (with_ctx s (jump (set_cp_ptr (set_live (ctx s) (get_small_unsigned arity)) (ip (ctx s))) dst)))
    as (x & s2 & Ex & E2 & O2 & X2 & S2 & C2 & W2 & _); try done; try (unfold heap_check_available, hp in *; cbn; lia).
  exists s2. split; [reflexivity|]. split; [done|]. unfold op_allocate. fold n'. rewrite E2. split; [done|].
  intros s3 (O3 & S3 & C3 & W3). change (hp (with_ctx s _)) with (hp s) in *.
  change (cp (ctx (with_ctx s _))) with (ip (ctx s)) in *.
  destruct (cp_is_cp x (ip (ctx s)) Ex ltac:(lia) Hm) as [Hcp Hptr]. rewrite W2 in W3.
  destruct (deallocate_spec (hp s3) n' (raw x)) as [E4 O4]; [done | unfold stack_depth; lia | by rewrite S3 | by destruct x |].
  eexists _, _. unfold op_deallocate. fold n'. rewrite E4. split; [reflexivity|].
  unfold op_return, set_cp, from_cp. cbn [ctx hp proc with_ctx with_proc with_context with_heap context heap cp set_cp_ptr].
  replace (from_raw (raw x)) with x by (by destruct x). rewrite Hptr, (proj2 (Z.eqb_neq _ _)) by lia.
  split; [reflexivity|]. split_and!; try done. cbn. lia.
Qed.

(** * Where opcodes go astray *)

Module FactsWitness.
Definition process (top stk : Z) : Process :=
  {| pid := make_local_pid 1; prio := PrioNormal; current_queue := QNone; context := new_context 8;
     heap := {| data := replicate 16 0; heap_top := top; stack_top := stk; capacity := 16 |};
     heap_base := 4096; mailbox := new_mailbox; timeslice_result := SliceNone; error := None;
     num_catches := 0; process_flags := 0 |}.

(** A cell at the bottom of the heap. *)
Definition machine (top stk : Z) : Machine :=
  {| mem := {| boxes := ∅; conses := {[ 4096 := (small_1, nil) ]} |}; proc := process top stk |}.

Definition label : Term := from_raw (2 ^ 63 + 83).

Definition atoms0 : AtomStorage := init_storage.

(** [x1 := [x0 | x0]], then [x0 := hd x1]. *)
Definition code (p : Z) : option Instr :=
  if p =? 8 then Some (IPutList (make_register_x 0) (make_register_x 0) (make_register_x 1))
  else if p =? 40 then Some (IGetHd (make_register_x 1) (make_register_x 0)) else None.

Definition after (n : nat) : option Machine :=
  Nat.iter n (fun s => match s with
    | Some s => match execute_one atoms0 0 code s with Ret (Normal, s) => Some s | _ => None end
    | None => None end) (Some (machine 2 16)).

Definition final : Machine := match after 2 with Some s => s | None => machine 2 16 end.

Lemma machine_is_ok : machine_ok (machine 2 16).
Proof. split; [|done]. split_and!; cbn; lia. Qed.

Lemma running_keeps_terms_witness :
  machine_ok (machine 2 16) /\ runs atoms0 0 code (machine 2 16) final /\ heap_top (hp final) = 4 /\
  conses (mem final) !! 4096 = Some (small_1, nil).
Proof.
  assert (runs atoms0 0 code (machine 2 16) final) as R.
  { destruct (after 1) as [s1|] eqn:E1; [|by vm_compute in E1].
    apply (runs_step _ _ _ _ (IGetHd (make_register_x 1) (make_register_x 0)) s1 Normal).
    - apply (runs_step _ _ _ _ (IPutList (make_register_x 0) (make_register_x 0) (make_register_x 1)) (machine 2 16) Normal);
        [constructor | done | done |]. vm_compute in E1. injection E1 as <-. vm_compute. done.
    - vm_compute in E1. injection E1 as <-. done.
    - done.
    - vm_compute in E1. injection E1 as <-. vm_compute. done. }
  split; [exact machine_is_ok|]. split; [exact R|]. split; [by vm_compute|].
  destruct (running_keeps_terms atoms0 0 code (machine 2 16) final machine_is_ok R) as (_ & _ & M).
  destruct (M 4096) as [_ E]; [left; cbn; lia|]. exact E.
Defined.

Lemma call_returns_witness :
  heap_ok (hp (machine 2 16)) /\
  exists s1 s2, op_call small_0 label (machine 2 16) = Ret (Normal, s1) /\ ip (ctx s1) = 80 /\
    op_allocate FillNil (make_small_unsigned 3) small_0 s1 = Ret (Normal, s2) /\
    forall s3, frame_intact s2 s3 -> exists s4 s5,
      op_deallocate (make_small_unsigned 3) s3 = Ret (Normal, s4) /\ op_return s4 = Ret (Normal, s5) /\
      ip (ctx s5) = 8 /\ cp (ctx s5) = 0 /\ heap_ok (hp s5) /\
      stack_top (hp s5) = 16 /\ mem s5 = mem s3 /\ regs (ctx s5) = regs (ctx s3).
Proof.
  split; [exact (proj1 machine_is_ok)|].
  apply (call_returns small_0 label (make_small_unsigned 3) small_0 FillNil (machine 2 16));
    [exact (proj1 machine_is_ok) | by vm_compute | by vm_compute | cbn; lia | done].
Defined.

(** [gen_alloc] makes no check for the stack: a frame that does not fit is laid over the
    heap. *)
Lemma frame_over_heap :
  exists s', op_allocate FillNil (make_small_unsigned 3) small_0 (machine 14 16) = Ret (Normal, s') /\
    stack_top (hp s') < heap_top (hp s').
Proof. eexists. split; [vm_compute; reflexivity|]. vm_compute. done. Qed.

(** [is_nonempty_list] jumps only on the empty list: an integer passes for a nonempty list. *)
Lemma integer_is_nonempty_list :
  op_is_nonempty_list label small_1 (machine 2 16) = normal (machine 2 16).
Proof. by vm_compute. Qed.

(** The empty tuple is a tuple without a header: its arity is read through its tagged word. *)
Lemma empty_tuple_reads_wild :
  op_test_arity label empty_tuple small_0 (machine 2 16) = Wild /\
  op_is_tagged_tuple label empty_tuple small_1 TRUE (machine 2 16) = Wild.
Proof. by vm_compute. Qed.
End FactsWitness.
