(* ===== verification/BeamCopy.v ===== *)
(** Lists on the heap ([term/value/cons.rs], [term/term_builder/]) and the copying of a term
    to the heap of another process ([emulator/heap/copy_term.rs]).

    The [Machine] of a copy is the receiving process over the memory of all terms. *)
From S2P Require Import Prelude Float64 BeamTerm BeamMem BeamCompare BeamHeap BeamProc BeamOps BeamFacts.

(** * Walking a list *)

Section Walk.
Context (m : Memory).

(** [for_each] as a fold: the final state, and the tail ([None] for the empty list). *)
Fixpoint for_each_from {S} (func : Term -> S -> vm S) (fuel : nat) (p : Z) (s : S) : vm (Term * S) :=
  match fuel with
  | O => Spin
  | Datatypes.S fuel =>
    do! (hd, tl) := load_cons m p in
    do! s := func hd s in
    if is_cons tl then for_each_from func fuel (get_cons_ptr tl) s else Ret (tl, s)
  end.

Definition for_each {S} (func : Term -> S -> vm S) (fuel : nat) (lst : Term) (s : S) : vm (option Term * S) :=
  if bool_decide (lst = nil) then Ret (None, s)
  else do! (tl, s) := for_each_from func fuel (get_cons_ptr lst) s in Ret (Some tl, s).

Fixpoint length_from (fuel : nat) (p count : Z) : vm Z :=
  match fuel with
  | O => Spin
  | S fuel =>
    do! (hd, tl) := load_cons m p in
    if is_cons tl then length_from fuel (get_cons_ptr tl) (count + 1)
    else if bool_decide (tl = nil) then Ret count else Fail (Exception ExcError BADARG)
  end.

Definition list_length (fuel : nat) (val : Term) : vm Z :=
  if bool_decide (val = nil) then Ret 0 else length_from fuel (get_cons_ptr val) 1.

Fixpoint find_from (predicate : Term -> bool) (fuel : nat) (p : Z) : vm (option Z) :=
  match fuel with
  | O => Spin
  | S fuel =>
    do! (hd, tl) := load_cons m p in
    if predicate hd then Ret (Some p)
    else if is_cons tl then find_from predicate fuel (get_cons_ptr tl) else Ret None
  end.

Definition find_first (predicate : Term -> bool) (fuel : nat) (lst : Term) : vm (option Z) :=
  if bool_decide (lst = nil) then Ret None else find_from predicate fuel (get_cons_ptr lst).
(** [any] is the same search. *)
Definition any (predicate : Term -> bool) (fuel : nat) (lst : Term) : vm bool :=
  do! r := find_first predicate fuel lst in Ret (match r with Some _ => true | None => false end).
End Walk.

(** * Building a list *)

(** Addresses; zero is the null pointer. *)
Record ListBuilder := { head_p : Z; tail_p : Z }.
Definition new_builder : ListBuilder := {| head_p := 0; tail_p := 0 |}.

(** Two words set to nil. *)
Definition make_cell (s : Machine) : vm (Z * Machine) :=
  do! (pos, h) := alloc (hp s) 2 FillNil in
  let p := heap_base (proc s) + 8 * pos in
  Ret (p, put_cons_cell (with_proc s (with_heap (proc s) h)) p nil nil).

Definition set_hd (p : Z) (val : Term) (s : Machine) : vm Machine :=
  do! (_, tl) := load_cons (mem s) p in Ret (put_cons_cell s p val tl).
Definition set_tl (p : Z) (val : Term) (s : Machine) : vm Machine :=
  do! (hd, _) := load_cons (mem s) p in Ret (put_cons_cell s p hd val).

Definition append (lb : ListBuilder) (val : Term) (s : Machine) : vm (ListBuilder * Machine) :=
  do! (c, s) := make_cell s in
  if head_p lb =? 0 then
    do! s := set_hd c val s in Ret ({| head_p := c; tail_p := c |}, s)
  else
    do! s := set_tl (tail_p lb) (make_cons c) s in
    do! s := set_hd c val s in Ret ({| head_p := head_p lb; tail_p := c |}, s).

Definition prepend (lb : ListBuilder) (val : Term) (s : Machine) : vm (ListBuilder * Machine) :=
  do! (c, s) := make_cell s in
  if head_p lb =? 0 then
    do! s := set_hd c val s in Ret ({| head_p := c; tail_p := c |}, s)
  else
    do! s := set_tl c (make_cons (head_p lb)) s in
    do! s := set_hd c val s in Ret ({| head_p := c; tail_p := tail_p lb |}, s).

Definition make_term (lb : ListBuilder) : Term := make_cons (head_p lb).
Definition make_term_with_tail (lb : ListBuilder) (tail : Term) (s : Machine) : vm (Term * Machine) :=
  if head_p lb =? 0 then Panic
  else do! s := set_tl (tail_p lb) tail s in Ret (make_term lb, s).

(** The walk of [copy_list_leave_tail] reads cells that the builder does not write. *)
Definition copy_list_leave_tail (fuel : nat) (src : Term) (s : Machine) : vm (Term * Z * Machine) :=
  match for_each (mem s) (fun elem '(lb, s) => append lb elem s) fuel src (new_builder, s) with
  | Ret (Some tail, (lb, s)) => do! (x, s) := make_term_with_tail lb tail s in Ret (x, tail_p lb, s)
  | Ret (None, (lb, s)) => Ret (make_term lb, tail_p lb, s)
  | Fail _ => Panic
  | Panic => Panic
  | Wild => Wild
  | Spin => Spin
  end.

(** The digits of a nonnegative number, least first, each prepended. *)
Fixpoint digits_loop (fuel : nat) (lb : ListBuilder) (i_val : Z) (s : Machine) : vm (ListBuilder * Machine) :=
  match fuel with
  | O => Spin
  | S fuel =>
    if i_val =? 0 then Ret (lb, s)
    else
      do! (lb, s) := prepend lb (make_small_unsigned (48 + Z.rem i_val 10)) s in
      digits_loop fuel lb (Z.quot i_val 10) s
  end.

Definition make_char (c : Z) : Term := make_small_unsigned c.

Definition integer_to_list (fuel : nat) (val : Term) (s : Machine) : vm (Term * Machine) :=
  do! big := is_big_int (mem s) val in
  if (big : bool) then Panic else
  let i := get_small_signed val in
  do! (lb, s) :=
    (if Z.abs i =? 0 then append new_builder (make_char 48) s
     else do! (lb, s) := digits_loop fuel new_builder (Z.abs i) s in
          if i <? 0 then prepend lb (make_char 45) s else Ret (lb, s)) in
  Ret (make_term lb, s).

(** * Copying *)

(** The elements of a tuple are copied one after the other. *)
Fixpoint copy_elements (copy : Term -> Machine -> vm (Term * Machine)) (els : list Term) (s : Machine) : vm (list Term * Machine) :=
  match els with
  | [] => Ret ([], s)
  | x :: els => do! (y, s) := copy x s in do! (ys, s) := copy_elements copy els s in Ret (y :: ys, s)
  end.

(** The loop of [copy_cons_to]: the element of the cell at [p] is copied and appended. *)
Fixpoint copy_cells (copy : Term -> Machine -> vm (Term * Machine)) (fuel : nat) (lb : ListBuilder) (p : Z) (s : Machine)
    : vm (Term * Machine) :=
  match fuel with
  | O => Spin
  | S fuel =>
    do! (hd, tl) := load_cons (mem s) p in
    do! (y, s) := copy hd s in
    do! (lb, s) := append lb y s in
    if is_cons tl then copy_cells copy fuel lb (get_cons_ptr tl) s else make_term_with_tail lb tl s
  end.

(** The words of a tuple are allocated before its elements are copied; nothing refers to them
    until they are all there. *)
Fixpoint copy_to (fuel : nat) (x : Term) (s : Machine) : vm (Term * Machine) :=
  match fuel with
  | O => Spin
  | S fuel =>
    let t := get_term_tag x in
    if t =? BOX_PTR then
      do! o := load_box (mem s) x in
      match o with
      | OTuple els =>
        do! (p, s) := alloc_words s (tuple_storage_size (Z.of_nat (length els))) in
        match els with
        | [] => Panic
        | _ =>
          do! (ys, s) := copy_elements (copy_to fuel) els s in
          do! y := unwrap (make_boxed p) in Ret (y, put_box s p (OTuple ys))
        end
      | _ => Panic
      end
    else if t =? CONS_PTR then
      (if bool_decide (x = nil) then Ret (make_term new_builder, s) else copy_cells (copy_to fuel) fuel new_builder (get_cons_ptr x) s)
    else if (t =? SMALL_INT) || (t =? ATOM) || (t =? LOCAL_PID) || (t =? LOCAL_PORT) then Ret (x, s)
    else if t =? SPECIAL then (if get_special_tag x =? CONST then Ret (x, s) else Panic)
    else Panic
  end.

(** * What a copy is *)

(** The words that a value takes on the heap. *)
Fixpoint words (v : val) : Z :=
  match v with
  | VTuple [] => 0
  | VTuple l => tuple_storage_size (Z.of_nat (length l)) + foldr Z.add 0 (words <$> l)
  | VList l => foldr Z.add 0 ((fun x => 2 + words x) <$> l)
  | _ => 0
  end.

(** Binaries are not copied, but for the empty one. *)
Fixpoint copyable (v : val) : Prop :=
  match v with
  | VTuple l | VList l => foldr and True (copyable <$> l)
  | VBin bits _ => bits = 0
  | _ => True
  end.

#[export] Instance built_dec s p : Decision (built s p).
Proof. unfold built. apply _. Defined.

(** The objects at the addresses that satisfy [P]. *)
Definition restrict (P : Z -> Prop) `{!forall p, Decision (P p)} (m : Memory) : Memory :=
  {| boxes := filter (fun e => P e.1) (boxes m); conses := filter (fun e => P e.1) (conses m) |}.

(** The terms there are, and those that came between two states. *)
Definition existing (s : Machine) : Memory := restrict (built s) (mem s).
Definition fresh (s s' : Machine) : Memory := restrict (fun p => ~ built s p /\ built s' p) (mem s').

(** ** Smaller memories *)

Definition within (m m' : Memory) : Prop :=
  (forall p o, boxes m !! p = Some o -> boxes m' !! p = Some o) /\
  (forall p c, conses m !! p = Some c -> conses m' !! p = Some c).

Lemma Forall2_rep_mono m m' atoms vs : Forall (fun v => forall x, rep m atoms x v -> rep m' atoms x v) vs ->
  forall els, Forall2 (rep m atoms) els vs -> Forall2 (rep m' atoms) els vs.
Proof.
  induction vs as [|v vs IH]; intros Hv els H; inversion H; subst; constructor.
  - apply Forall_cons in Hv as [Hv _]. auto.
  - apply Forall_cons in Hv as [_ Hv]. auto.
Qed.

Lemma rep_mono m m' atoms v : within m m' -> forall x, rep m atoms x v -> rep m' atoms x v.
Proof.
  intros [Wb Wc]. induction v as [n|s|i|l IH|l IH|b xs] using val_ind'; intros x H.
  - inversion H; subst. by constructor.
  - inversion H; subst. by econstructor.
  - inversion H; subst. by constructor.
  - inversion H; subst; [constructor|]. econstructor; eauto. by eapply Forall2_rep_mono.
  - revert x H. induction l as [|v l IHl]; intros x H; inversion H; subst; [constructor|].
    apply Forall_cons in IH as [Hv IH]. econstructor; eauto.
  - inversion H; subst; [constructor|]. econstructor; eauto.
Qed.

Lemma restrict_box P `{!forall p, Decision (P p)} m p o :
  boxes (restrict P m) !! p = Some o <-> boxes m !! p = Some o /\ P p.
Proof. cbn. rewrite map_lookup_filter_Some. done. Qed.
Lemma restrict_cons P `{!forall p, Decision (P p)} m p c :
  conses (restrict P m) !! p = Some c <-> conses m !! p = Some c /\ P p.
Proof. cbn. rewrite map_lookup_filter_Some. done. Qed.

(** * Growth of the heap by a number of words

    Only the cell at [t], if any, changes among the terms there were. *)
Record copied (n : Z) (t : option Z) (s s' : Machine) : Prop := {
  copied_block : heap_base (proc s') = heap_base (proc s) /\ capacity (hp s') = capacity (hp s) /\ stack_top (hp s') = stack_top (hp s);
  copied_top : heap_top (hp s') = heap_top (hp s) + n;
  copied_ok : machine_ok s';
  copied_terms : forall p, built s p -> Some p <> t ->
    boxes (mem s') !! p = boxes (mem s) !! p /\ conses (mem s') !! p = conses (mem s) !! p
}.

Lemma copied_built n t s s' p : copied n t s s' -> 0 <= n -> built s p -> built s' p.
Proof. intros [(B & C & _) T _ _] Hn. unfold built. rewrite B, C, T. lia. Qed.

(** The new cell is not among the terms there were. *)
Lemma copied_trans n1 n2 t1 t2 s1 s2 s3 : copied n1 t1 s1 s2 -> copied n2 t2 s2 s3 -> 0 <= n1 ->
  (forall p, t2 = Some p -> built s1 p -> t1 = Some p) -> copied (n1 + n2) t1 s1 s3.
Proof.
  intros K1 K2 Hn Ht. pose proof (copied_built n1 t1 s1 s2) as Hb. destruct K1 as [(B1 & C1 & S1) T1 O1 M1].
  destruct K2 as [(B2 & C2 & S2) T2 O2 M2]. split; [split_and!; congruence | lia | done |].
  intros p Hp Hne. destruct (M1 p Hp Hne) as [<- <-]. apply M2; [by apply Hb|]. intros E. apply Hne. symmetry. by apply Ht.
Qed.

Lemma fresh_earlier n1 t1 n2 t2 s0 s1 s2 : copied n1 t1 s0 s1 -> copied n2 t2 s1 s2 -> 0 <= n1 -> 0 <= n2 ->
  (forall p, t2 = Some p -> built s1 p -> built s0 p) -> within (fresh s0 s1) (fresh s0 s2).
Proof.
  intros K1 K2 H1 H2 Ht. split; intros p o Hp.
  - apply restrict_box in Hp as (Hp & Hn & Hb). apply restrict_box. destruct (copied_terms _ _ _ _ K2 p Hb) as [-> _];
      [intros E; apply Hn; by eapply Ht|]. split_and!; [done | done | by eapply copied_built].
  - apply restrict_cons in Hp as (Hp & Hn & Hb). apply restrict_cons. destruct (copied_terms _ _ _ _ K2 p Hb) as [_ ->];
      [intros E; apply Hn; by eapply Ht|]. split_and!; [done | done | by eapply copied_built].
Qed.

Lemma fresh_later n1 t1 s0 s1 s2 : copied n1 t1 s0 s1 -> 0 <= n1 -> within (fresh s1 s2) (fresh s0 s2).
Proof.
  intros K1 H1. split; intros p o Hp.
  - apply restrict_box in Hp as (Hp & Hn & Hb). apply restrict_box. split_and!; try done. intros H. apply Hn. by eapply copied_built.
  - apply restrict_cons in Hp as (Hp & Hn & Hb). apply restrict_cons. split_and!; try done. intros H. apply Hn. by eapply copied_built.
Qed.

(** The terms being copied. *)
Definition source (m : Memory) (s : Machine) : Prop :=
  within m (mem s) /\ (forall p, is_Some (boxes m !! p) -> built s p) /\ (forall p, is_Some (conses m !! p) -> built s p).

Lemma source_copied m n t s s' : source m s -> copied n t s s' -> 0 <= n ->
  (forall p, t = Some p -> boxes m !! p = None /\ conses m !! p = None) -> source m s'.
Proof.
  intros ([Wb Wc] & Hb & Hc) K Hn Ht. split_and!; [split| |].
  - intros p o Hp. assert (built s p) as B by eauto. destruct (copied_terms _ _ _ _ K p B) as [-> _]; [|auto].
    intros <-. destruct (Ht p eq_refl). congruence.
  - intros p c Hp. assert (built s p) as B by eauto. destruct (copied_terms _ _ _ _ K p B) as [_ ->]; [|auto].
    intros <-. destruct (Ht p eq_refl). congruence.
  - intros p Hp. eapply copied_built; eauto.
  - intros p Hp. eapply copied_built; eauto.
Qed.

(** ** Allocation *)

(** The block of words is at an aligned address that a box can hold. *)
Definition block_ok (s : Machine) : Prop :=
  0 < heap_base (proc s) /\ heap_base (proc s) mod 8 = 0 /\ heap_base (proc s) + 8 * capacity (hp s) <= 2 ^ 63.

Definition room (s : Machine) (n : Z) : Prop := heap_top (hp s) + n < stack_top (hp s).

Definition next (s : Machine) : Z := heap_base (proc s) + 8 * heap_top (hp s).

Lemma block_copied n t s s' : block_ok s -> copied n t s s' -> block_ok s'.
Proof. unfold block_ok. intros H [(B & C & _) _ _ _]. by rewrite B, C. Qed.

Lemma room_copied n1 n2 t s s' : room s (n1 + n2) -> copied n1 t s s' -> room s' n2.
Proof. unfold room. intros H [(_ & _ & S) T _ _]. rewrite S, T. lia. Qed.

Lemma next_new s : machine_ok s -> 0 <= next s - heap_base (proc s) /\ (room s 0 -> ~ built s (next s)).
Proof. intros ((Ht & Hs & _) & _). unfold next, built, room, hp in *. lia. Qed.

Lemma next_aligned s : block_ok s -> machine_ok s -> room s 0 -> 0 < next s < 2 ^ 63 /\ next s mod 8 = 0.
Proof.
  intros (B & M & C) ((Ht & Hs & _) & _) R. unfold next, room, hp in *. split; [lia|].
  rewrite Z.mul_comm, Z.mod_add by lia. done.
Qed.

Lemma copied_refl s : machine_ok s -> copied 0 None s s.
Proof. intros H. split; [done | lia | done | done]. Qed.

Lemma built_grown n t s s' p : copied n t s s' -> machine_ok s -> next s <= p < next s + 8 * n -> room s n -> built s' p.
Proof. intros [(B & C & _) T _ _] _ Hp _. unfold built, next in *. rewrite B, T. lia. Qed.

Lemma alloc_heap_copied s n fill : machine_ok s -> 0 <= n -> room s n ->
  exists h, alloc (hp s) n fill = Ret (heap_top (hp s), h) /\ copied n None s (with_proc s (with_heap (proc s) h)).
Proof.
  intros (Ho & Hr & Hf) Hn R. unfold room in R. destruct (alloc_spec (hp s) n fill Ho Hn) as [[? _] | (_ & h & E & O & T & S & C & _)]; [lia|].
  exists h. split; [done|]. split; [cbn; done | cbn; done | done | done].
Qed.

Lemma alloc_words_copied s n : machine_ok s -> 0 <= n -> room s n ->
  exists s', alloc_words s n = Ret (next s, s') /\ copied n None s s' /\ mem s' = mem s.
Proof.
  intros O Hn R. destruct (alloc_heap_copied s n Uninitialized O Hn R) as (h & E & K).
  eexists. unfold alloc_words. rewrite E. by split.
Qed.

(** Writing at a place that is [t] or no term of [s]. *)
Lemma copied_put n t s s' p b c : copied n t s s' -> (built s p -> t = Some p) ->
  copied n t s {| mem := {| boxes := match b with Some o => <[p := o]> (boxes (mem s')) | None => boxes (mem s') end;
                            conses := match c with Some x => <[p := x]> (conses (mem s')) | None => conses (mem s') end |};
                  proc := proc s' |}.
Proof.
  intros [B T O M] Hp. split; [done | done | done |]. intros q Hq Hne. cbn.
  assert (p <> q) as Hpq by (intros ->; by rewrite Hp in Hne).
  destruct b, c; rewrite ?lookup_insert_ne by done; auto.
Qed.

Lemma copied_weaken n t s s' : copied n None s s' -> copied n t s s'.
Proof. intros [B T O M]. split; auto. Qed.

Lemma make_cell_copied s : machine_ok s -> room s 2 ->
  exists s', make_cell s = Ret (next s, s') /\ copied 2 None s s' /\ mem s' = mem (put_cons_cell s (next s) nil nil).
Proof.
  intros O R. destruct (alloc_heap_copied s 2 FillNil O ltac:(lia) R) as (h & E & K).
  eexists. unfold make_cell. rewrite E. cbn [vm_bind]. split; [reflexivity|]. split; [|done].
  apply (copied_put 2 None s _ (next s) None (Some (nil, nil)) K). intros Hb. exfalso.
  revert Hb. apply next_new; [done|]. unfold room in *. lia.
Qed.

(** ** The builder *)

Lemma append_first lb y s : machine_ok s -> room s 2 -> 0 < heap_base (proc s) -> head_p lb = 0 ->
  exists s', append lb y s = Ret ({| head_p := next s; tail_p := next s |}, s') /\ copied 2 None s s' /\
    conses (mem s') !! next s = Some (y, nil).
Proof.
  intros O R Hb Hl. destruct (make_cell_copied s O R) as (s1 & E & K & M). unfold append. rewrite E. cbn [vm_bind].
  assert (conses (mem s1) !! next s = Some (nil, nil)) as Ec by (rewrite M; apply lookup_insert_eq).
  rewrite Hl. cbn [Z.eqb]. unfold set_hd, load_cons. rewrite Ec. cbn [read vm_bind]. eexists. split; [reflexivity|]. split; [|cbn; by rewrite lookup_insert_eq].
  apply (copied_put 2 None s s1 (next s) None (Some (y, nil)) K). intros H. exfalso.
  revert H. apply next_new; [done|]. unfold room in *. lia.
Qed.

Lemma append_more lb y e s : machine_ok s -> room s 2 -> head_p lb <> 0 -> built s (tail_p lb) ->
  conses (mem s) !! tail_p lb = Some (e, nil) ->
  exists s', append lb y s = Ret ({| head_p := head_p lb; tail_p := next s |}, s') /\ copied 2 (Some (tail_p lb)) s s' /\
    conses (mem s') !! tail_p lb = Some (e, make_cons (next s)) /\ conses (mem s') !! next s = Some (y, nil).
Proof.
  intros O R Hl Ht He. destruct (make_cell_copied s O R) as (s1 & E & K & M). unfold append. rewrite E. cbn [vm_bind].
  assert (~ built s (next s)) as Hn by (apply next_new; [done|]; unfold room in *; lia).
  assert (next s <> tail_p lb) as Hne by (intros Hx; apply Hn; by rewrite Hx).
  assert (conses (mem s1) !! next s = Some (nil, nil)) as Ec by (rewrite M; apply lookup_insert_eq).
  assert (conses (mem s1) !! tail_p lb = Some (e, nil)) as Et by (rewrite M; cbn; by rewrite lookup_insert_ne).
  rewrite (proj2 (Z.eqb_neq _ _) Hl). unfold set_tl, set_hd, load_cons. rewrite Et. cbn [read vm_bind mem put_cons_cell conses].
  rewrite lookup_insert_ne, Ec by done. cbn [read vm_bind].
  eexists. split; [reflexivity|]. split_and!.
  - apply (copied_put 2 (Some (tail_p lb)) s _ (next s) None (Some (y, nil))); [|done].
    apply (copied_put 2 (Some (tail_p lb)) s s1 (tail_p lb) None (Some (e, make_cons (next s)))); [|done].
    by apply copied_weaken.
  - cbn. by rewrite lookup_insert_ne, lookup_insert_eq.
  - cbn. by rewrite lookup_insert_eq.
Qed.

(** * Copying is faithful *)

Lemma words_nonneg v : 0 <= words v.
Proof.
  induction v as [n|s|i|l IH|l IH|b xs] using val_ind'; cbn; try lia.
  - assert (0 <= foldr Z.add 0 (words <$> l)) by (induction IH; cbn in *; lia).
    destruct l; [lia|]. unfold tuple_storage_size. cbn [length foldr] in *. lia.
  - induction IH; cbn in *; lia.
Qed.

Section Faithful.
Context (atoms : AtomStorage) (m : Memory).

Definition sum_words (l : list val) : Z := foldr Z.add 0 (words <$> l).

Lemma sum_words_nonneg l : 0 <= sum_words l.
Proof. unfold sum_words. induction l as [|v l IH]; cbn; [lia|]. pose proof (words_nonneg v). lia. Qed.

Lemma words_list v l : words (VList (v :: l)) = words v + (2 + words (VList l)).
Proof. cbn. lia. Qed.

(** What a state must be like for [v] to be copied into it. *)
Definition ready (s : Machine) (n : Z) : Prop := machine_ok s /\ block_ok s /\ source m s /\ room s n.

Definition copies (copy : Term -> Machine -> vm (Term * Machine)) (v : val) : Prop :=
  forall x s, ready s (words v) -> rep m atoms x v ->
  exists y s', copy x s = Ret (y, s') /\ copied (words v) None s s' /\ rep (fresh s s') atoms y v.

Lemma ready_after n1 n2 t s s' : ready s (n1 + n2) -> copied n1 t s s' -> 0 <= n1 ->
  (forall p, t = Some p -> boxes m !! p = None /\ conses m !! p = None) -> ready s' n2.
Proof.
  intros (O & B & S & R) K Hn Ht. split; [apply K|]. split; [by eapply block_copied|]. split; [|by eapply room_copied].
  by eapply source_copied.
Qed.

(** ** Tuples *)

Lemma copy_elements_ok copy vs : Forall (copies copy) vs -> forall els s,
  ready s (sum_words vs) -> Forall2 (rep m atoms) els vs ->
  exists ys s', copy_elements copy els s = Ret (ys, s') /\ copied (sum_words vs) None s s' /\
    Forall2 (rep (fresh s s') atoms) ys vs.
Proof.
  induction vs as [|v vs IH]; intros Hv els s Rd H; inversion H as [|x ? els' ? Hx Hels]; subst; cbn [copy_elements].
  - exists [], s. split; [done|]. split; [apply copied_refl, Rd | constructor].
  - apply Forall_cons in Hv as [Hv Hvs]. change (sum_words (v :: vs)) with (words v + sum_words vs) in *.
    pose proof (words_nonneg v). pose proof (sum_words_nonneg vs).
    destruct (Hv x s) as (y & s1 & E1 & K1 & Y1); [|done|].
    { destruct Rd as (O & B & S & R). unfold room in R. split_and!; try done. unfold room. lia. }
    destruct (IH Hvs els' s1) as (ys & s2 & E2 & K2 & Y2); [by eapply ready_after | done |].
    exists (y :: ys), s2. rewrite E1. cbn [vm_bind]. rewrite E2. split; [done|]. split; [by eapply copied_trans|].
    constructor.
    + eapply rep_mono; [by eapply (fresh_earlier (words v) None (sum_words vs) None s s1 s2) | done].
    + eapply Forall2_impl; [done|]. intros. eapply rep_mono; [by eapply fresh_later | done].
Qed.

Lemma copy_tuple_ok fuel l : l <> [] -> Forall (copies (copy_to fuel)) l -> copies (copy_to (S fuel)) (VTuple l).
Proof.
  intros Hl Hc x s Rd H. inversion H as [| | | | | |p ? els ? Hp Hm Hx Hb Hf _| | ]; subst; [done|].
  destruct (boxed_reads p) as (x' & Ex & _ & _ & Et & Ep); [lia | done |]. assert (x' = x) as -> by congruence.
  set (n := tuple_storage_size (Z.of_nat (length els))).
  assert (length els = length l) as Hlen by (by eapply Forall2_length).
  assert (words (VTuple l) = n + sum_words l) as Hw by (destruct l; [done|]; unfold n; by rewrite Hlen).
  assert (0 <= n) as Hn by (unfold n, tuple_storage_size; lia). pose proof (sum_words_nonneg l) as Hs.
  rewrite Hw in *. cbn [copy_to]. rewrite Et. cbn [Z.eqb BOX_PTR Pos.eqb].
  pose proof Rd as (O & B & Src & R). unfold load_box. rewrite Ep.
  rewrite (proj1 (proj1 Src) _ _ Hb). cbn [read vm_bind]. fold n.
  destruct (alloc_words_copied s n O Hn) as (s1 & E1 & K1 & M1); [unfold room in *; lia|]. rewrite E1. cbn [vm_bind].
  destruct (copy_elements_ok (copy_to fuel) l Hc els s1) as (ys & s2 & E2 & K2 & Y2); [by eapply ready_after | done |].
  destruct els as [|e els]; [by destruct l|]. rewrite E2. cbn [vm_bind].
  assert (room s 0) as R0 by (unfold room in *; lia).
  destruct (next_aligned s B O R0) as [Ha Ham]. destruct (next_new s O) as [_ Hnew]. specialize (Hnew R0).
  destruct (boxed_reads (next s)) as (y & Ey & _); [lia | done |]. rewrite Ey. cbn [unwrap vm_bind].
  eexists y, _. split; [reflexivity|].
  assert (copied (n + sum_words l) None s s2) as K by (by eapply copied_trans).
  assert (copied (n + sum_words l) None s (put_box s2 (next s) (OTuple ys))) as K'
    by (by apply (copied_put _ None s s2 (next s) (Some (OTuple ys)) None)).
  split; [done|].
  assert (built s1 (next s)) as Hb1 by (apply (built_grown n None s); auto; unfold next, n, tuple_storage_size, room in *; cbn [length] in *; lia).
  assert (built (put_box s2 (next s) (OTuple ys)) (next s)) as Hb2 by (exact (copied_built _ _ _ _ _ K2 Hs Hb1)).
  apply (rep_tuple _ _ (next s) y ys l); [lia | done | done | | | done].
  - apply restrict_box. split; [|done]. cbn. by rewrite lookup_insert_eq.
  - eapply Forall2_impl; [exact Y2|]. intros a v. apply rep_mono. split; intros q o Hq.
    + apply restrict_box in Hq as (Hq & Hnq & Hbq). apply restrict_box. cbn.
      rewrite lookup_insert_ne by (intros <-; by apply Hnq). split_and!; [done | | done].
      intros Hs0. apply Hnq. by eapply copied_built.
    + apply restrict_cons in Hq as (Hq & Hnq & Hbq). apply restrict_cons. cbn. split_and!; [done | | done].
      intros Hs0. apply Hnq. by eapply copied_built.
Qed.

(** ** Lists *)

(** The element was copied up to [s1], its cell appended up to [s2], the rest copied up to
    [s3]: the cell, the element and the rest are all new. *)
Lemma cell_is_fresh n1 n3 t s s1 s2 s3 y tl' v l :
  copied n1 None s s1 -> copied 2 t s1 s2 -> copied n3 (Some (next s1)) s2 s3 ->
  0 <= n1 -> 0 <= n3 -> (forall q, t = Some q -> built s q) -> ~ built s1 (next s1) -> built s2 (next s1) ->
  0 < next s1 < 2 ^ 63 -> next s1 mod 8 = 0 ->
  conses (mem s3) !! next s1 = Some (y, tl') -> rep (fresh s s1) atoms y v -> rep (fresh s2 s3) atoms tl' (VList l) ->
  copied (n1 + (2 + n3)) t s s3 /\ rep (fresh s s3) atoms (make_cons (next s1)) (VList (v :: l)).
Proof.
  intros K1 K2 K3 H1 H3 Ht Hnew Hc2 Ha Ham Hcell Hy Htl. set (c := next s1) in *.
  assert (copied (2 + n3) t s1 s3) as K23 by (eapply copied_trans; [exact K2 | exact K3 | lia | by intros q [= <-] ?]).
  assert (copied (n1 + 2) t s s2) as K12 by (eapply copied_trans; [apply copied_weaken, K1 | exact K2 | lia | done]).
  split; [eapply copied_trans; [apply copied_weaken, K1 | exact K23 | done | done]|].
  apply (rep_cons _ _ c y tl' v l); [lia | done | | |].
  - apply restrict_cons. split; [done|]. split; [intros Hb; apply Hnew; exact (copied_built _ _ _ _ _ K1 H1 Hb) | exact (copied_built _ _ _ _ _ K3 H3 Hc2)].
  - eapply rep_mono; [|exact Hy]. eapply fresh_earlier; [exact K1 | exact K23 | done | lia |]. by intros q Hq _; apply Ht.
  - eapply rep_mono; [|exact Htl]. eapply fresh_later; [exact K12 | lia].
Qed.

(** After an element has been appended as the cell [t], the rest of the list. *)
Definition copy_rest (copy : Term -> Machine -> vm (Term * Machine)) (fuel : nat) (lb : ListBuilder) (tl : Term) (s : Machine) :=
  if is_cons tl then copy_cells copy fuel lb (get_cons_ptr tl) s else make_term_with_tail lb tl s.

Lemma copy_rest_ok copy l : Forall (copies copy) l -> forall fuel lb tl e s,
  (length l <= fuel)%nat -> ready s (words (VList l)) -> rep m atoms tl (VList l) ->
  head_p lb <> 0 -> built s (tail_p lb) -> conses (mem s) !! tail_p lb = Some (e, nil) ->
  boxes m !! tail_p lb = None /\ conses m !! tail_p lb = None ->
  exists s' tl', copy_rest copy fuel lb tl s = Ret (make_cons (head_p lb), s') /\
    copied (words (VList l)) (Some (tail_p lb)) s s' /\ conses (mem s') !! tail_p lb = Some (e, tl') /\
    rep (fresh s s') atoms tl' (VList l).
Proof.
  induction l as [|v l IH]; intros Hc fuel lb tl e s Hfuel Rd H Hh Ht He Hm.
  - inversion H; subst. unfold copy_rest. cbn [is_cons]. change (is_cons nil) with false. cbv iota.
    unfold make_term_with_tail, set_tl, load_cons. rewrite (proj2 (Z.eqb_neq _ _) Hh), He. cbn [read vm_bind].
    eexists _, nil. split; [reflexivity|]. split; [|split; [cbn; by rewrite lookup_insert_eq | constructor]].
    apply (copied_put 0 _ s s (tail_p lb) None (Some (e, nil))); [|done]. apply copied_weaken, copied_refl, Rd.
  - apply Forall_cons in Hc as [Hv Hc]. destruct fuel as [|fuel]; [cbn in Hfuel; lia|].
    rewrite words_list in Rd. rewrite words_list.
    inversion H as [| | | |p hd tl1 ? ? Hp Hpm Hcell Hhd Htl| | | | ]; subst. destruct (cons_reads p Hp Hpm) as (_ & Etag & Eptr & _).
    unfold copy_rest, is_cons. rewrite Etag. cbn [Z.eqb CONS_PTR Pos.eqb copy_cells]. rewrite Eptr.
    pose proof Rd as (O & B & Src & R). pose proof (words_nonneg v) as Hwv. pose proof (words_nonneg (VList l)) as Hwl.
    unfold load_cons. rewrite (proj2 (proj1 Src) _ _ Hcell). cbn [read vm_bind].
    destruct (Hv hd s) as (y & s1 & E1 & K1 & Y1); [split_and!; try done; unfold room in *; lia | done |].
    rewrite E1. cbn [vm_bind].
    assert (ready s1 (2 + words (VList l))) as Rd1 by (by eapply ready_after). pose proof Rd1 as (O1 & B1 & Src1 & R1).
    assert (built s1 (tail_p lb)) as Ht1 by (by eapply copied_built).
    destruct (append_more lb y e s1) as (s2 & E2 & K2 & C2 & N2); [done | unfold room in *; lia | done | done | |].
    { destruct (copied_terms _ _ _ _ K1 (tail_p lb) Ht) as [_ ->]; done. }
    rewrite E2. cbn [vm_bind]. assert (ready s2 (words (VList l))) as Rd2.
    { eapply ready_after; [exact Rd1 | exact K2 | lia |]. by intros q [= <-]. }
    assert (room s1 0) as R0 by (unfold room in *; lia).
    destruct (next_aligned s1 B1 O1 R0) as [Ha Ham]. destruct (next_new s1 O1) as [_ Hnew]. specialize (Hnew R0).
    set (c := next s1) in *. assert (built s2 c) as Hc2.
    { apply (built_grown 2 (Some (tail_p lb)) s1); auto; unfold c, room in *; lia. }
    destruct (IH Hc fuel {| head_p := head_p lb; tail_p := c |} tl1 y s2) as (s3 & tl' & E3 & K3 & C3 & Y3);
      try done; [cbn in Hfuel; lia | |].
    { destruct Src1 as (_ & Hb1 & Hc1). cbn. split; apply eq_None_not_Some; intros HS; apply Hnew; auto. }
    exists s3, (make_cons c).
    destruct (cell_is_fresh (words v) (words (VList l)) (Some (tail_p lb)) s s1 s2 s3 y tl' v l) as [K Y]; try done; [by intros q [= <-]|].
    split; [exact E3|]. split; [done|]. split; [|done].
    destruct (copied_terms _ _ _ _ K3 (tail_p lb)) as [_ ->]; [by eapply copied_built | | done].
    intros [= Eq]. apply Hnew. by rewrite <- Eq.
Qed.

Lemma copy_to_cons fuel x s : get_term_tag x = CONS_PTR ->
  copy_to (S fuel) x s = copy_cells (copy_to fuel) fuel new_builder (get_cons_ptr x) s.
Proof.
  intros Et. cbn [copy_to]. rewrite Et. cbn [Z.eqb CONS_PTR BOX_PTR Pos.eqb].
  rewrite bool_decide_eq_false_2; [done|]. intros ->. done.
Qed.

Lemma copy_list_ok fuel l : (length l <= fuel)%nat -> Forall (copies (copy_to fuel)) l -> copies (copy_to (S fuel)) (VList l).
Proof.
  intros Hfuel Hc x s Rd H. destruct l as [|v l].
  { inversion H; subst. exists nil, s. split; [done|]. split; [apply copied_refl, Rd | constructor]. }
  inversion H as [| | | |p hd tl ? ? Hp Hpm Hcell Hhd Htl| | | | ]; subst. destruct (cons_reads p Hp Hpm) as (_ & Etag & Eptr & _).
  rewrite words_list in *. pose proof Rd as (O & B & Src & R). apply Forall_cons in Hc as [Hv Hc].
  rewrite copy_to_cons, Eptr by done. destruct fuel as [|fuel]; [cbn in Hfuel; lia|].
  set (copy := copy_to (S fuel)) in *. cbn [copy_cells]. unfold load_cons. rewrite (proj2 (proj1 Src) _ _ Hcell). cbn [read vm_bind].
  pose proof (words_nonneg v) as Hwv. pose proof (words_nonneg (VList l)) as Hwl.
  destruct (Hv hd s) as (y & s1 & E1 & K1 & Y1); [split_and!; try done; unfold room in *; lia | done |].
  rewrite E1. cbn [vm_bind].
  assert (ready s1 (2 + words (VList l))) as Rd1 by (by eapply ready_after). pose proof Rd1 as (O1 & B1 & Src1 & R1).
  assert (room s1 0) as R0 by (unfold room in *; lia).
  destruct (next_aligned s1 B1 O1 R0) as [Ha Ham]. destruct (next_new s1 O1) as [_ Hnew]. specialize (Hnew R0).
  destruct (append_first new_builder y s1) as (s2 & E2 & K2 & C2); [done | unfold room in *; lia | apply B1 | done |].
  rewrite E2. cbn [vm_bind]. set (c := next s1) in *.
  assert (built s2 c) as Hc2 by (apply (built_grown 2 None s1); auto; unfold c, room in *; lia).
  assert (ready s2 (words (VList l))) as Rd2 by (eapply ready_after; [exact Rd1 | exact K2 | lia | done]).
  destruct (copy_rest_ok copy l Hc fuel {| head_p := c; tail_p := c |} tl y s2) as (s3 & tl' & E3 & K3 & C3 & Y3);
    try done; [cbn in Hfuel; lia | cbn; lia | |].
  { destruct Src1 as (_ & Hb1 & Hc1). cbn. split; apply eq_None_not_Some; intros HS; apply Hnew; auto. }
  exists (make_cons c), s3. split; [exact E3|].
  by apply (cell_is_fresh (words v) (words (VList l)) None s s1 s2 s3 y tl' v l).
Qed.

(** ** Immediate terms *)

Lemma copy_immediate fuel v : words v = 0 -> (forall l, v <> VList l) -> copyable v -> copies (copy_to (S fuel)) v.
Proof.
  intros Hw Hl Hc x s Rd H. exists x, s. split; [|split; [rewrite Hw; apply copied_refl, Rd|]].
  - pose proof (seen_tag _ _ _ _ (rep_seen m atoms x v H)) as Et. cbn [copy_to]. rewrite Et.
    destruct v as [n|a|i|[|v l]|l|b xs]; cbn [vtag copyable] in *; try done.
    + inversion H; subst; done.
    + pose proof (sum_words_nonneg (v :: l)) as Hs. cbn in Hw, Hs. unfold tuple_storage_size in Hw. lia.
    + by destruct (Hl l).
    + subst b. inversion H; subst; [done | lia].
  - destruct v as [n|a|i|[|v l]|l|b xs]; cbn [copyable] in *.
    + inversion H; subst. by constructor.
    + inversion H; subst. by econstructor.
    + inversion H; subst. by constructor.
    + inversion H; subst; [constructor | done].
    + pose proof (sum_words_nonneg (v :: l)) as Hs. cbn in Hw, Hs. unfold tuple_storage_size in Hw. lia.
    + by destruct (Hl l).
    + subst b. inversion H; subst; [constructor | lia].
Qed.

Lemma copy_all_ok l fuel : Forall (fun v => forall fuel, copyable v -> (need v <= fuel)%nat -> copies (copy_to fuel) v) l ->
  foldr and True (copyable <$> l) -> (forall v, v ∈ l -> (need v <= fuel)%nat) -> Forall (copies (copy_to fuel)) l.
Proof.
  induction 1 as [|v l Hv H IH]; cbn; [constructor|]. intros [Hc Hcs] Hn. constructor.
  - apply Hv; [done | apply Hn; set_solver].
  - apply IH; [done|]. intros u Hu. apply Hn. set_solver.
Qed.

Lemma need_in (f : val -> nat) l v : (forall u, need u <= f u)%nat -> v ∈ l -> (need v <= sum_list (f <$> l))%nat.
Proof.
  intros Hf. induction l as [|u l IH]; [set_solver|]. cbn. intros [->|H]%elem_of_cons; [specialize (Hf u); lia|].
  specialize (IH H). lia.
Qed.

Lemma copy_ok v : forall fuel, copyable v -> (need v <= fuel)%nat -> copies (copy_to fuel) v.
Proof.
  induction v as [n|a|i|l IH|l IH|b xs] using val_ind'; intros [|fuel] Hc Hf; try (cbn in Hf; lia).
  all: try by apply copy_immediate.
  - destruct (decide (l = [])) as [->|Hl]; [by apply copy_immediate|]. apply copy_tuple_ok; [done|].
    apply copy_all_ok; [done | done |]. intros v Hv. cbn [need] in Hf. pose proof (need_in need l v (fun u => le_n _) Hv). lia.
  - cbn [need] in Hf. apply copy_list_ok; [|apply copy_all_ok; [done | done |]].
    + clear -Hf. revert fuel Hf. induction l as [|v l IH]; intros fuel Hf; cbn in *; [lia|].
      destruct fuel as [|fuel]; [lia|]. specialize (IH fuel). lia.
    + intros v Hv. pose proof (need_in (fun u => S (need u)) l v (fun u => Nat.le_succ_diag_r _) Hv). lia.
Qed.
End Faithful.

Lemma existing_source s : source (existing s) s.
Proof.
  split_and!; [split| |].
  - intros p o Hp. by apply restrict_box in Hp as [? _].
  - intros p c Hp. by apply restrict_cons in Hp as [? _].
  - intros p [o Hp]. by apply restrict_box in Hp as [_ ?].
  - intros p [c Hp]. by apply restrict_cons in Hp as [_ ?].
Qed.

(** C38: a copied term stands for the same value, and is all new.  With room on the receiving
    heap, copying a term of integers, atoms, local pids, tuples and proper lists succeeds,
    uses exactly the words of the value, leaves every term there was as it was, and returns a
    term of that value that lies wholly in words allocated by the copy: sender and receiver
    share nothing. *)
Theorem copy_is_deep (atoms : AtomStorage) (fuel : nat) (x : Term) (v : val) (s : Machine) :
  machine_ok s -> block_ok s -> rep (existing s) atoms x v -> copyable v -> (need v <= fuel)%nat -> room s (words v) ->
  exists y s', copy_to fuel x s = Ret (y, s') /\ rep (fresh s s') atoms y v /\
    heap_top (hp s') = heap_top (hp s) + words v /\ machine_ok s' /\
    (forall p, built s p -> boxes (mem s') !! p = boxes (mem s) !! p /\ conses (mem s') !! p = conses (mem s) !! p).
Proof.
  intros O B H Hc Hf R. destruct (copy_ok atoms (existing s) v fuel Hc Hf x s) as (y & s' & E & K & Y);
    [by split_and!; try apply existing_source | done |].
  exists y, s'. destruct K as [_ T Ok M]. do 4 (split; [done|]). intros p Hp. by apply M.
Qed.

Module CopyWitness.
(** The value [{1, [0, ok], []}] in a block of 64 words. *)
Definition start : Process :=
  {| pid := make_local_pid 1; prio := PrioNormal; current_queue := QNone; context := new_context 8;
     heap := {| data := replicate 64 0; heap_top := 10; stack_top := 64; capacity := 64 |};
     heap_base := 4096; mailbox := new_mailbox; timeslice_result := SliceNone; error := None;
     num_catches := 0; process_flags := 0 |}.
Definition tuple_at_4096 : Term := from_raw (4096 + 3).
Definition sender : Machine :=
  {| mem := {| boxes := {[ 4096 := OTuple [small_1; make_cons 4136; nil] ]};
               conses := {[ 4136 := (small_0, make_cons 4152); 4152 := (make_local_pid 7, nil) ]} |};
     proc := start |}.
Definition value : val := VTuple [VInt 1; VList [VInt 0; VPid 7]; VList []].

Lemma rep_int_of m atoms n x : - 2 ^ 60 <= n < 2 ^ 60 -> x = make_small_signed n -> rep m atoms x (VInt n).
Proof. intros H ->. by constructor. Qed.

Lemma sender_has_value : rep (existing sender) init_storage tuple_at_4096 value.
Proof.
  apply (rep_tuple _ _ 4096 _ [small_1; make_cons 4136; nil]); [lia | done | done | by vm_compute | | done].
  repeat constructor; try (apply rep_int_of; [lia | done]).
  apply (rep_cons _ _ 4136 small_0 (make_cons 4152)); [lia | done | by vm_compute | apply rep_int_of; [lia | done] |].
  apply (rep_cons _ _ 4152 (make_local_pid 7) nil); [lia | done | by vm_compute | by constructor | constructor].
Qed.

Lemma sender_ok : machine_ok sender.
Proof. split; [|done]. split_and!; cbn; lia. Qed.

Lemma copy_is_deep_witness :
  rep (existing sender) init_storage tuple_at_4096 value /\ words value = 9 /\
  exists y s', copy_to 20 tuple_at_4096 sender = Ret (y, s') /\ rep (fresh sender s') init_storage y value /\
    heap_top (hp s') = 19 /\ machine_ok s' /\
    (forall p, built sender p -> boxes (mem s') !! p = boxes (mem sender) !! p /\ conses (mem s') !! p = conses (mem sender) !! p).
Proof.
  split; [exact sender_has_value|]. split; [reflexivity|].
  apply (copy_is_deep init_storage 20 tuple_at_4096 value sender);
    [exact sender_ok | split_and!; cbn; done | exact sender_has_value | cbn; tauto | cbn; lia | by vm_compute].
Defined.

(** The tail of an improper list is not copied: here it is a tuple of the sender. *)
Lemma improper_tail_is_shared :
  exists y s', copy_to 20 (make_cons 4168)
      {| mem := {| boxes := boxes (mem sender); conses := {[ 4168 := (small_1, tuple_at_4096) ]} |}; proc := proc sender |}
    = Ret (y, s') /\ conses (mem s') !! get_cons_ptr y = Some (small_1, tuple_at_4096).
Proof. eexists _, _. split; [vm_compute; reflexivity|]. by vm_compute. Qed.

(** A float, a big integer, a binary, a map or a function in a message stops the machine. *)
Lemma float_is_not_copied f :
  copy_to 20 tuple_at_4096 {| mem := {| boxes := {[ 4096 := OFloat f ]}; conses := ∅ |}; proc := proc sender |} = Panic.
Proof. reflexivity. Qed.
End CopyWitness.

(** * Decimal numbers *)

Lemma small_unsigned_signed n : 0 <= n < 2 ^ 60 -> make_small_unsigned n = make_small_signed n.
Proof.
  intros Hn. apply term_eq. rewrite signed_small_eq. unfold make_small_unsigned.
  rewrite make_tagged_eq by done. unfold SMALL_INT. lia.
Qed.

Lemma existing_copied n s s' atoms x v : copied n None s s' -> 0 <= n ->
  rep (existing s) atoms x v -> rep (existing s') atoms x v.
Proof.
  intros K Hn H. eapply rep_mono; [|exact H]. split; intros p o Hp.
  - apply restrict_box in Hp as [Hp Hb]. apply restrict_box. destruct (copied_terms _ _ _ _ K p Hb) as [-> _]; [done|].
    split; [done | by eapply copied_built].
  - apply restrict_cons in Hp as [Hp Hb]. apply restrict_cons. destruct (copied_terms _ _ _ _ K p Hb) as [_ ->]; [done|].
    split; [done | by eapply copied_built].
Qed.

Lemma prepend_ok atoms lb y v l s : machine_ok s -> block_ok s -> room s 2 ->
  rep (existing s) atoms (make_term lb) (VList l) -> (head_p lb = 0 -> l = []) -> (forall m, rep m atoms y v) ->
  exists lb' s', prepend lb y s = Ret (lb', s') /\ copied 2 None s s' /\ head_p lb' <> 0 /\
    rep (existing s') atoms (make_term lb') (VList (v :: l)).
Proof.
  intros O B R H Hl Hy. destruct (make_cell_copied s O R) as (s1 & E & K & M). unfold prepend. rewrite E. cbn [vm_bind].
  assert (conses (mem s1) !! next s = Some (nil, nil)) as Ec by (rewrite M; apply lookup_insert_eq).
  assert (room s 0) as R0 by (unfold room in *; lia). destruct (next_aligned s B O R0) as [Ha Ham].
  destruct (next_new s O) as [_ Hnew]. specialize (Hnew R0).
  assert (built s1 (next s)) as Hb1 by (apply (built_grown 2 None s); auto; lia).
  set (fin x := put_cons_cell s1 (next s) y x).
  assert (forall x, copied 2 None s (fin x)) as Kf by (intros x; by apply (copied_put 2 None s s1 (next s) None (Some (y, x)))).
  assert (forall x, rep (existing s) atoms x (VList l) -> rep (existing (fin x)) atoms (make_cons (next s)) (VList (v :: l))) as Hf.
  { intros x Hx. apply (rep_cons _ _ (next s) y x); [lia | done | | done |].
    - apply restrict_cons. split; [cbn; by rewrite lookup_insert_eq | done].
    - eapply existing_copied; [apply (Kf x) | done | done]. }
  unfold make_term, make_cons in H. unfold make_term, set_tl, set_hd, load_cons. destruct (Z.eqb_spec (head_p lb) 0) as [E0|E0].
  - specialize (Hl E0). subst l. rewrite Ec. cbn [read vm_bind]. eexists _, (fin nil). split; [reflexivity|].
    split; [done|]. cbn [head_p]. split; [lia|]. apply Hf. exact H.
  - rewrite Ec. cbn [read vm_bind put_cons_cell mem conses]. rewrite lookup_insert_eq. cbn [read vm_bind].
    eexists _, (put_cons_cell (put_cons_cell s1 (next s) nil (make_cons (head_p lb))) (next s) y (make_cons (head_p lb))).
    split; [reflexivity|]. unfold put_cons_cell. cbn [mem boxes conses proc]. rewrite insert_insert_eq.
    split; [apply Kf|]. cbn [head_p]. split; [lia|]. apply Hf. unfold make_cons. by rewrite (proj2 (Z.eqb_neq _ _) E0).
Qed.

(** What a list of digits says. *)
Definition decimal (ds : list Z) : Z := fold_left (fun a c => a * 10 + (c - 48)) ds 0.
Definition is_digit (c : Z) : Prop := 48 <= c <= 57.

Lemma decimal_snoc ds c : decimal (ds ++ [c]) = decimal ds * 10 + (c - 48).
Proof. unfold decimal. by rewrite fold_left_app. Qed.

Lemma digits_loop_ok atoms : forall k fuel i lb l s,
  (k < fuel)%nat -> 0 <= i < 10 ^ Z.of_nat k -> machine_ok s -> block_ok s -> room s (2 * Z.of_nat k) ->
  rep (existing s) atoms (make_term lb) (VList (VInt <$> l)) -> (head_p lb = 0 -> l = []) ->
  exists ds lb' s' n, digits_loop fuel lb i s = Ret (lb', s') /\ copied n None s s' /\ 0 <= n <= 2 * Z.of_nat k /\
    Forall is_digit ds /\ decimal ds = i /\ head ds <> Some 48 /\ (head_p lb' = 0 -> ds ++ l = []) /\
    rep (existing s') atoms (make_term lb') (VList (VInt <$> ds ++ l)).
Proof.
  induction k as [|k IH]; intros [|fuel] i lb l s Hfuel Hi O B R H Hl; try lia.
  - assert (i = 0) as -> by (cbn in Hi; lia). exists [], lb, s, 0. cbn [digits_loop]. cbn [Z.eqb].
    split; [done|]. split; [by apply copied_refl|]. split; [lia|]. do 4 (split; [done || constructor|]). exact H.
  - cbn [digits_loop]. destruct (Z.eqb_spec i 0) as [->|Hne].
    { exists [], lb, s, 0. split; [done|]. split; [by apply copied_refl|]. split; [lia|].
      do 4 (split; [done || constructor|]). exact H. }
    set (c := 48 + Z.rem i 10). pose proof (Z.rem_bound_pos i 10 ltac:(lia) ltac:(lia)) as Hc.
    pose proof (Z.quot_rem i 10 ltac:(lia)) as Hqr. rewrite Nat2Z.inj_succ, Z.pow_succ_r in Hi by lia.
    destruct (prepend_ok atoms lb (make_small_unsigned c) (VInt c) (VInt <$> l) s) as (lb1 & s1 & E1 & K1 & N1 & H1);
      [done | done | unfold room in *; lia | done | intros E; by rewrite Hl | |].
    { intros m. rewrite small_unsigned_signed by (unfold c; lia). constructor. unfold c. lia. }
    rewrite E1. cbn [vm_bind].
    destruct (IH fuel (Z.quot i 10) lb1 (c :: l) s1) as (ds & lb' & s' & n & E & K & Hn & Hd & Hv & Hh & Hz & Hr);
      [lia | lia | apply K1 | by eapply block_copied | eapply room_copied; [|exact K1]; unfold room in *; lia | exact H1 | done |].
    exists (ds ++ [c]), lb', s', (2 + n). rewrite <- app_assoc. split; [done|].
    split; [eapply copied_trans; [exact K1 | exact K | lia | done]|]. split; [lia|].
    split; [apply Forall_app; split; [done | repeat constructor; unfold c; lia]|].
    split; [rewrite decimal_snoc, Hv; unfold c; lia|]. split; [|done].
    destruct ds as [|d ds]; [|done]. cbn in Hv |- *. intros [= E0]. unfold c in E0. lia.
Qed.

(** The decimal spelling of a number: a sign, and digits that do not start with a zero but for
    zero itself. *)
Definition spells (cs : list Z) (n : Z) : Prop :=
  exists ds, Forall is_digit ds /\ ds <> [] /\ (head ds = Some 48 -> ds = [48]) /\ decimal ds = Z.abs n /\
    cs = if n <? 0 then 45 :: ds else ds.

Lemma small_not_big m n : - 2 ^ 60 <= n < 2 ^ 60 -> is_big_int m (make_small_signed n) = Ret false /\
  get_small_signed (make_small_signed n) = n.
Proof.
  intros Hn. destruct (small_reads n Hn) as (_ & Et & Ev). split; [|done].
  unfold is_big_int, is_boxed_of_type, is_boxed_of_, is_boxed. by rewrite Et.
Qed.

Lemma zero_to_list atoms s : machine_ok s -> block_ok s -> room s 2 ->
  exists lb s', append new_builder (make_char 48) s = Ret (lb, s') /\
    rep (existing s') atoms (make_term lb) (VList (VInt <$> [48])) /\ copied 2 None s s'.
Proof.
  intros O B R. destruct (append_first new_builder (make_char 48) s O R ltac:(apply B) eq_refl) as (s' & E & K & C).
  assert (room s 0) as R0 by (unfold room in *; lia). destruct (next_aligned s B O R0) as [Ha Ham].
  eexists _, s'. split; [exact E|]. split; [|done].
  apply (rep_cons _ _ (next s) (make_char 48) nil); [lia | done | | | constructor].
  - apply restrict_cons. split; [done|]. apply (built_grown 2 None s); auto; lia.
  - exact (rep_int _ _ 48 ltac:(lia)).
Qed.

(** [integer_to_list] spells the number.  For every small integer and with 40 words of
    room, it ends and builds a proper list of characters that is the decimal spelling of the
    number: a minus sign for a negative one, then digits without leading zeros that read back
    as its absolute value; the terms there were stay as they are. *)
Theorem integer_to_list_spells (atoms : AtomStorage) (n : Z) (s : Machine) :
  - 2 ^ 60 <= n < 2 ^ 60 -> machine_ok s -> block_ok s -> room s 40 ->
  exists y s' cs, integer_to_list 20 (make_small_signed n) s = Ret (y, s') /\ spells cs n /\
    rep (existing s') atoms y (VList (VInt <$> cs)) /\ same_terms s s'.
Proof.
  intros Hn O B R. unfold integer_to_list. destruct (small_not_big (mem s) n Hn) as [-> ->]. cbn [vm_bind].
  destruct (Z.eqb_spec (Z.abs n) 0) as [E0|E0].
  - assert (n = 0) as -> by lia. destruct (zero_to_list atoms s O B) as (lb & s' & -> & H & K); [unfold room in *; lia|].
    exists (make_term lb), s', [48]. split; [done|]. split; [exists [48]; split_and!; try done; repeat constructor; lia|].
    split; [done|]. intros p Hp. by apply K.
  - destruct (digits_loop_ok atoms 19 20 (Z.abs n) new_builder [] s) as (ds & lb & s1 & k & E & K & Hk & Hd & Hv & Hh & Hz & H);
      [lia | cbn; lia | done | done | unfold room in *; cbn; lia | constructor | done |].
    rewrite E. cbn [vm_bind]. rewrite app_nil_r in *.
    assert (ds <> []) as Hds by (intros ->; cbn in Hv; lia).
    destruct (Z.ltb_spec n 0) as [Hneg|Hpos].
    + destruct (prepend_ok atoms lb (make_char 45) (VInt 45) (VInt <$> ds) s1) as (lb' & s' & E' & K' & _ & H');
        [apply K | by eapply block_copied | unfold room in *; destruct K as [(_ & _ & ->) -> _ _]; cbn in Hk; lia | done | | |].
      { intros E1. by rewrite Hz. }
      { intros m. exact (rep_int _ _ 45 ltac:(lia)). }
      rewrite E'. cbn [vm_bind]. exists (make_term lb'), s', (45 :: ds). split; [done|].
      split; [exists ds; rewrite (proj2 (Z.ltb_lt n 0)) by done; by split_and!|]. split; [exact H'|].
      intros p Hp. assert (copied (k + 2) None s s') as K2 by (eapply copied_trans; [exact K | exact K' | lia | done]). by apply K2.
    + exists (make_term lb), s1, ds. split; [done|].
      split; [exists ds; rewrite (proj2 (Z.ltb_ge n 0)) by done; by split_and!|]. split; [exact H|].
      intros p Hp. by apply K.
Qed.

Module ListWitness.
Definition room_for_list : Machine := CopyWitness.sender.

Lemma integer_to_list_spells_witness :
  room room_for_list 40 /\
  exists y s' cs, integer_to_list 20 (make_small_signed (-1203)) room_for_list = Ret (y, s') /\ spells cs (-1203) /\
    rep (existing s') init_storage y (VList (VInt <$> cs)) /\ same_terms room_for_list s'.
Proof.
  split; [by vm_compute|].
  apply (integer_to_list_spells init_storage (-1203) room_for_list);
    [lia | exact CopyWitness.sender_ok | split_and!; cbn; done | by vm_compute].
Defined.
End ListWitness.
