(* ===== verification/BeamSched.v ===== *)
(** The scheduler of the emulator ([emulator/scheduler.rs], [emulator/process_registry.rs]),
    the sending of messages ([op_message.rs], [emulator/process.rs]), and the virtual machine
    that ties them to the interpreter ([emulator/vm/mod.rs], [beam/vm_loop.rs]). *)
From S2P Require Import Prelude Float64 BeamTerm BeamMem BeamCompare BeamHeap BeamProc BeamOps BeamFacts BeamCopy.

#[export] Instance Term_eq_dec : EqDecision Term.
Proof. solve_decision. Defined.
#[export] Instance Term_countable : Countable Term.
Proof. apply (inj_countable' raw from_raw). by intros [r]. Defined.
#[export] Instance SliceResult_eq_dec : EqDecision SliceResult.
Proof. solve_decision. Defined.

(** * The scheduler *)

Definition NORMAL_ADVANTAGE : Z := 8.

Record Scheduler := {
  queue_low : list Term;
  queue_normal : list Term;
  queue_high : list Term;
  timed_wait : gset Term;
  infinite_wait : gset Term;
  advantage_count : Z;
  current : option Term
}.

Definition new_scheduler : Scheduler :=
  {| queue_low := []; queue_normal := []; queue_high := []; timed_wait := ∅; infinite_wait := ∅;
     advantage_count := 0; current := None |}.

Definition with_queues (sc : Scheduler) (low normal high : list Term) : Scheduler :=
  {| queue_low := low; queue_normal := normal; queue_high := high; timed_wait := timed_wait sc;
     infinite_wait := infinite_wait sc; advantage_count := advantage_count sc; current := current sc |}.
Definition with_waits (sc : Scheduler) (timed infinite : gset Term) : Scheduler :=
  {| queue_low := queue_low sc; queue_normal := queue_normal sc; queue_high := queue_high sc; timed_wait := timed;
     infinite_wait := infinite; advantage_count := advantage_count sc; current := current sc |}.
Definition with_advantage (sc : Scheduler) (n : Z) : Scheduler :=
  {| queue_low := queue_low sc; queue_normal := queue_normal sc; queue_high := queue_high sc; timed_wait := timed_wait sc;
     infinite_wait := infinite_wait sc; advantage_count := n; current := current sc |}.
Definition with_current (sc : Scheduler) (c : option Term) : Scheduler :=
  {| queue_low := queue_low sc; queue_normal := queue_normal sc; queue_high := queue_high sc; timed_wait := timed_wait sc;
     infinite_wait := infinite_wait sc; advantage_count := advantage_count sc; current := c |}.

(** [pid_to_proc]. *)
Notation Registry := (gmap Term Process).

(** The lookups assert that they are given a local pid. *)
Definition lookup_pid (reg : Registry) (pid : Term) : vm (option Process) :=
  if is_local_pid pid then Ret (reg !! pid) else Panic.

Definition push_back (sc : Scheduler) (pr : Prio) (pid : Term) : Scheduler :=
  match pr with
  | PrioNormal => with_queues sc (queue_low sc) (queue_normal sc ++ [pid]) (queue_high sc)
  | PrioLow => with_queues sc (queue_low sc ++ [pid]) (queue_normal sc) (queue_high sc)
  | PrioHigh => with_queues sc (queue_low sc) (queue_normal sc) (queue_high sc ++ [pid])
  end.

Definition enqueue_opt (reg : Registry) (sc : Scheduler) (pid : Term) (skip_queue_check : bool) : vm Scheduler :=
  do! o := lookup_pid reg pid in
  do! p := unwrap o in
  if negb skip_queue_check && negb (bool_decide (current_queue p = QNone)) then Panic
  else Ret (push_back sc (prio p) pid).

Definition enqueue (reg : Registry) (sc : Scheduler) (pid : Term) : vm Scheduler := enqueue_opt reg sc pid false.

Definition enqueue_wait (sc : Scheduler) (infinite : bool) (pid : Term) : vm Scheduler :=
  if negb (is_local_pid pid) then Panic
  else Ret (if infinite then with_waits sc (timed_wait sc) ({[pid]} ∪ infinite_wait sc)
            else with_waits sc ({[pid]} ∪ timed_wait sc) (infinite_wait sc)).

Definition terminate_process (reg : Registry) (sc : Scheduler) (pid : Term) : vm (Scheduler * Registry) :=
  do! o := lookup_pid reg pid in
  do! p := unwrap o in
  if negb (bool_decide (current_queue p = QNone)) then Panic else
  let sc := with_waits sc (timed_wait sc ∖ {[pid]}) (infinite_wait sc ∖ {[pid]}) in
  if bool_decide (pid ∈ queue_normal sc) || bool_decide (pid ∈ queue_low sc) || bool_decide (pid ∈ queue_high sc)
  then Panic else Ret (sc, delete pid reg).

Inductive ScheduleHint := ContinueSameProcess | TakeAnotherProcess.

(** The process with its context prepared for the catch label. *)
Definition enter_catch (p : Process) (cls : ExceptionType) (reason : Term) (next_catch : NextCatchResult) : vm Process :=
  do! c := set_x (context p) 0 non_value in
  do! c := set_x c 1 (to_atom cls) in
  do! c := set_x c 2 reason in
  do! c := set_x c 3 nil in
  do! h := drop_stack_words (heap p) (stack_drop next_catch) in
  Ret (with_heap (with_context p (clear_cp (jump_ptr c (loc next_catch)))) h).

Definition handle_process_exception (reg : Registry) (sc : Scheduler) (pid : Term) (p : Process)
    : vm (ScheduleHint * Scheduler * Registry) :=
  do! (cls, reason) := unwrap (error p) in
  if num_catches p <=? 0 then
    do! (sc, reg) := terminate_process reg sc pid in Ret (TakeAnotherProcess, with_current sc None, reg)
  else match unroll_stack_until_catch (heap p) with
  | Some next_catch =>
    do! p := enter_catch p cls reason next_catch in Ret (ContinueSameProcess, sc, <[pid := p]> reg)
  | None =>
    if flags_get (process_flags p) TRAP_EXIT then Panic else
    do! (sc, reg) := terminate_process reg sc pid in Ret (TakeAnotherProcess, with_current sc None, reg)
  end.

Definition next_process_finalize_previous (reg : Registry) (sc : Scheduler) (pid : Term)
    : vm (ScheduleHint * Scheduler * Registry) :=
  do! o := lookup_pid reg pid in
  do! p := unwrap o in
  match timeslice_result p with
  | SliceYield | SliceNone =>
    do! sc := enqueue reg sc pid in Ret (TakeAnotherProcess, with_current sc None, reg)
  | SliceFinished =>
    do! (sc, reg) := terminate_process reg sc pid in Ret (TakeAnotherProcess, sc, reg)
  | SliceException => handle_process_exception reg sc pid p
  | SliceInfiniteWait =>
    if have_unread_messages (mailbox p) then Ret (TakeAnotherProcess, sc, reg)
    else do! sc := enqueue_wait sc true pid in Ret (TakeAnotherProcess, sc, reg)
  end.

Definition next_process_pick_from_the_queues (sc : Scheduler) : option Term * Scheduler :=
  match queue_high sc, queue_normal sc, queue_low sc with
  | pid :: high, _, _ => (Some pid, with_queues sc (queue_low sc) (queue_normal sc) high)
  | [], normal, low =>
    if advantage_count sc <? NORMAL_ADVANTAGE then
      match normal, low with
      | pid :: normal, _ => (Some pid, with_queues sc low normal [])
      | [], pid :: low => (Some pid, with_queues sc low [] [])
      | [], [] => (None, with_advantage sc (advantage_count sc + 1))
      end
    else
      match low, normal with
      | pid :: low, _ => (Some pid, with_queues sc low normal [])
      | [], pid :: normal => (Some pid, with_queues sc [] normal [])
      | [], [] => (None, with_advantage sc 0)
      end
  end.

Definition take_another (sc : Scheduler) : option Term * Scheduler :=
  let (c, sc) := next_process_pick_from_the_queues sc in (c, with_current sc c).

Definition next_process (reg : Registry) (sc : Scheduler) : vm (option Term * Scheduler * Registry) :=
  match current sc with
  | None => let (c, sc) := take_another sc in Ret (c, sc, reg)
  | Some prev =>
    do! (hint, sc, reg) := next_process_finalize_previous reg sc prev in
    match hint with
    | ContinueSameProcess => Ret (current sc, sc, reg)
    | TakeAnotherProcess => let (c, sc) := take_another sc in Ret (c, sc, reg)
    end
  end.

Definition notify_new_incoming_message (reg : Registry) (sc : Scheduler) (p : Process) : vm Scheduler :=
  match current_queue p with
  | QInfiniteWait => enqueue_opt reg (with_waits sc (timed_wait sc) (infinite_wait sc ∖ {[pid p]})) (pid p) true
  | QTimedWait => enqueue_opt reg (with_waits sc (timed_wait sc ∖ {[pid p]}) (infinite_wait sc)) (pid p) true
  | _ => Ret sc
  end.

(** * The virtual machine *)

(** The instructions of the interpreter and those that reach other processes. *)
Inductive VInstr := Plain (i : Instr) | Send.

Record VM := {
  pid_counter : Z;
  scheduler : Scheduler;
  processes : Registry;
  name_to_pidport : gmap Term Term;
  memory : Memory
}.

Definition with_sched (v : VM) (sc : Scheduler) (reg : Registry) : VM :=
  {| pid_counter := pid_counter v; scheduler := sc; processes := reg; name_to_pidport := name_to_pidport v; memory := memory v |}.

Definition machine_of (v : VM) (p : Process) : Machine := {| mem := memory v; proc := p |}.
Definition put_machine (v : VM) (pid : Term) (s : Machine) : VM :=
  {| pid_counter := pid_counter v; scheduler := scheduler v; processes := <[pid := proc s]> (processes v);
     name_to_pidport := name_to_pidport v; memory := mem s |}.

(** [deliver_message] on the process that is registered as [pid]. *)
Definition deliver_message (fuel : nat) (v : VM) (pid : Term) (p : Process) (message : Term) : vm VM :=
  do! (m1, s) := copy_to fuel message (machine_of v p) in
  let p := with_mailbox (proc s) (put (mailbox (proc s)) m1) in
  let v := put_machine v pid (with_proc s p) in
  do! sc := notify_new_incoming_message (processes v) (scheduler v) p in
  Ret (with_sched v sc (processes v)).

(** [send]: the sender may be the receiver. *)
Definition op_send (fuel : nat) (v : VM) (self : Term) (p : Process) : vm (OpResult * VM) :=
  do! x1 := get_x (context p) 1 in
  do! x0 := get_x (context p) 0 in
  do! is_p := is_pid (memory v) x0 in
  if negb is_p then Ret (Raised ExcError BADARG, v) else
  do! o := lookup_pid (processes v) x0 in
  do! v := (match o with Some q => deliver_message fuel v x0 q x1 | None => Ret v end) in
  do! p := read (processes v !! self) in
  do! c := set_x (context p) 0 x1 in
  Ret (Normal, put_machine v self (machine_of v (with_context p c))).

(** A new process: its entry point found by the code server, in memory at [base]. *)
Definition register_new_process (v : VM) (pid : Term) (p : Process) : vm VM :=
  let reg := <[pid := p]> (processes v) in
  do! sc := enqueue reg (scheduler v) pid in Ret (with_sched v sc reg).

Fixpoint set_spawn_args (c : RuntimeContext) (xindex : Z) (args : list Term) : vm RuntimeContext :=
  match args with
  | [] => Ret c
  | x :: args => do! c := set_x c xindex x in set_spawn_args c (xindex + 1) args
  end.

Definition create_process (v : VM) (entry : vm Z) (args : list Term) (pr : Prio) (flags base : Z) (garbage : list Z)
    : vm (Term * VM) :=
  let pid := make_local_pid (pid_counter v) in
  let v := {| pid_counter := pid_counter v + 1; scheduler := scheduler v; processes := processes v;
              name_to_pidport := name_to_pidport v; memory := memory v |} in
  do! ip := entry in
  do! p := unwrap (new_process pid pr flags ip base garbage) in
  do! c := set_spawn_args (context p) 0 args in
  do! v := register_new_process v pid (with_context p c) in Ret (pid, v).

Section Dispatch.
Context (atoms : AtomStorage) (fuel : nat) (code : Z -> option VInstr).

Definition vm_execute_one (v : VM) (pid : Term) : vm (OpResult * VM) :=
  do! p := read (processes v !! pid) in
  do! i := read (code (ip (context p))) in
  match i with
  | Plain i =>
    do! (r, s) := dispatch_op atoms fuel i (machine_of v (with_context p (fetched (arity_of i) (context p)))) in
    Ret (r, put_machine v pid s)
  | Send =>
    let p := with_context p (fetched 0 (context p)) in op_send fuel (put_machine v pid (machine_of v p)) pid p
  end.

(** The running process with the result of its slice. *)
Definition end_slice (v : VM) (pid : Term) (f : Process -> Process) : vm VM :=
  do! p := read (processes v !! pid) in Ret (put_machine v pid (machine_of v (f p))).

Fixpoint vm_run (n : nat) (v : VM) (pid : Term) : vm (bool * VM) :=
  match n with
  | O => Spin
  | S n =>
    do! (r, v) := vm_execute_one v pid in
    match r with
    | Raised cls reason =>
      do! v := end_slice v pid (fun p => with_result (set_exception p cls reason) SliceException) in Ret (true, v)
    | YieldEndOfTheQueue => do! v := end_slice v pid (fun p => with_result p SliceYield) in Ret (true, v)
    | YieldInfiniteWait => do! v := end_slice v pid (fun p => with_result p SliceInfiniteWait) in Ret (true, v)
    | Finished => do! v := end_slice v pid (fun p => with_result p SliceFinished) in Ret (true, v)
    | Normal =>
      if (size (processes v) =? 0)%nat then Ret (false, v) else
      do! p := read (processes v !! pid) in
      if reductions (context p) <=? 0 then
        do! v := end_slice v pid (fun p => with_result p SliceYield) in Ret (true, v)
      else vm_run n v pid
    end
  end.

(** [dispatch]: false when there was no process to run. *)
Definition dispatch (n : nat) (v : VM) : vm (bool * VM) :=
  do! (c, sc, reg) := next_process (processes v) (scheduler v) in
  let v := with_sched v sc reg in
  match c with
  | None => Ret (false, v)
  | Some pid =>
    do! v := end_slice v pid (fun p => with_context p (swap_in (context p))) in vm_run n v pid
  end.
End Dispatch.

(** * What the scheduler maintains *)

Definition queued (sc : Scheduler) : list Term := queue_high sc ++ queue_normal sc ++ queue_low sc.

Definition process_ok (id : Term) (p : Process) : Prop :=
  BeamProc.pid p = id /\ is_local_pid id = true /\ current_queue p = QNone.

(** Everyone queued is registered and queued once; who runs or waits is not queued. *)
Record sched_ok (reg : Registry) (sc : Scheduler) : Prop := {
  queued_once : NoDup (queued sc);
  queued_known : forall id, id ∈ queued sc -> is_Some (reg !! id);
  current_apart : forall id, current sc = Some id -> is_Some (reg !! id) /\ id ∉ queued sc;
  waiting_apart : forall id, id ∈ infinite_wait sc -> is_Some (reg !! id) /\ id ∉ queued sc /\ current sc <> Some id;
  nobody_timed : timed_wait sc = ∅;
  processes_ok : forall id p, reg !! id = Some p -> process_ok id p
}.

(** An interrupted slice has left its error. *)
Definition errors_recorded (reg : Registry) (except : option Term) : Prop :=
  forall id p, reg !! id = Some p -> Some id <> except -> timeslice_result p = SliceException -> is_failed p = true.

Lemma push_back_queued sc pr id : queued (push_back sc pr id) ≡ₚ id :: queued sc.
Proof. unfold queued. destruct pr; cbn; solve_Permutation. Qed.

Lemma push_back_rest sc pr id : timed_wait (push_back sc pr id) = timed_wait sc /\
  infinite_wait (push_back sc pr id) = infinite_wait sc /\ current (push_back sc pr id) = current sc.
Proof. by destruct pr. Qed.

(** ** The operations *)

(** A state in which nobody is selected. *)
Definition idle_ok (reg : Registry) (sc : Scheduler) : Prop := sched_ok reg (with_current sc None).

Lemma ok_idle reg sc : sched_ok reg sc -> idle_ok reg sc.
Proof.
  intros [Q K C W T P]. split; cbn; try done. intros id Hid. destruct (W id Hid) as (? & ? & ?). done.
Qed.

Lemma lookup_known reg sc id : sched_ok reg sc -> is_Some (reg !! id) -> exists p, reg !! id = Some p /\ process_ok id p /\ lookup_pid reg id = Ret (Some p).
Proof.
  intros H [p Hp]. pose proof (processes_ok _ _ H id p Hp) as Ok. exists p. split; [done|]. split; [done|].
  unfold lookup_pid. destruct Ok as (_ & -> & _). by rewrite Hp.
Qed.

(** A process that is neither queued nor waiting is queued. *)
Lemma enqueue_ok reg sc id skip : idle_ok reg sc -> is_Some (reg !! id) -> id ∉ queued sc -> id ∉ infinite_wait sc ->
  exists p, reg !! id = Some p /\ enqueue_opt reg sc id skip = Ret (push_back sc (prio p) id) /\
    idle_ok reg (push_back sc (prio p) id).
Proof.
  intros H Hk Hq Hw. destruct (lookup_known _ _ _ H Hk) as (p & Hp & (Ep & El & Ec) & Hl). exists p. split; [done|].
  unfold enqueue_opt. rewrite Hl. cbn [vm_bind unwrap]. rewrite bool_decide_eq_true_2 by done. rewrite andb_false_r.
  split; [done|]. destruct H as [Q K C W T P]. pose proof (push_back_queued sc (prio p) id) as HP.
  destruct (push_back_rest sc (prio p) id) as (R1 & R2 & R3).
  split; cbn; try done.
  - change (queued (with_current (push_back sc (prio p) id) None)) with (queued (push_back sc (prio p) id)).
    rewrite HP. by constructor.
  - intros u. change (queued (with_current (push_back sc (prio p) id) None)) with (queued (push_back sc (prio p) id)).
    rewrite HP. intros [->|Hu]%elem_of_cons; [done | by apply K].
  - rewrite R2. intros u Hu. destruct (W u Hu) as (W1 & W2 & _). split; [done|]. split; [|done].
    change (queued (with_current (push_back sc (prio p) id) None)) with (queued (push_back sc (prio p) id)).
    rewrite HP. intros [->|Hq']%elem_of_cons; done.
  - by rewrite R1.
Qed.

Lemma wait_ok reg sc id : idle_ok reg sc -> is_Some (reg !! id) -> id ∉ queued sc ->
  exists sc', enqueue_wait sc true id = Ret sc' /\ idle_ok reg sc' /\ queued sc' = queued sc /\
    infinite_wait sc' = {[id]} ∪ infinite_wait sc.
Proof.
  intros H Hk Hq. destruct (lookup_known _ _ _ H Hk) as (p & Hp & (Ep & El & Ec) & _).
  unfold enqueue_wait. rewrite El. eexists. split; [done|]. split; [|done]. destruct H as [Q K C W T P].
  split; cbn; try done. intros u [->%elem_of_singleton | Hu]%elem_of_union; [done | exact (W u Hu)].
Qed.

Lemma terminate_ok reg sc id : idle_ok reg sc -> is_Some (reg !! id) -> id ∉ queued sc ->
  exists sc', terminate_process reg sc id = Ret (sc', delete id reg) /\ idle_ok (delete id reg) sc' /\
    queued sc' = queued sc /\ infinite_wait sc' = infinite_wait sc ∖ {[id]} /\ current sc' = current sc.
Proof.
  intros H Hk Hq. destruct (lookup_known _ _ _ H Hk) as (p & Hp & (Ep & El & Ec) & Hl).
  unfold terminate_process. rewrite Hl. cbn [vm_bind unwrap]. rewrite bool_decide_eq_true_2 by done. cbn [negb].
  cbn [queue_normal queue_low queue_high with_waits]. unfold queued in Hq. rewrite !elem_of_app in Hq.
  rewrite !bool_decide_eq_false_2 by tauto. cbn [orb]. eexists. split; [done|]. split; [|done].
  destruct H as [Q K C W T P]. cbn in *. split; cbn; try done.
  - intros u Hu. rewrite lookup_delete_ne; [by apply K|]. intros ->. apply Hq. unfold queued in Hu. cbn in Hu.
    rewrite !elem_of_app in Hu. done.
  - intros u Hu. apply elem_of_difference in Hu as [Hu Hne]. rewrite lookup_delete_ne by set_solver. exact (W u Hu).
  - rewrite T. set_solver.
  - intros u q Hu. apply lookup_delete_Some in Hu as [_ Hu]. by apply P.
Qed.

(** Who is picked leaves the queues; nobody is picked only when they are empty. *)
Lemma pick_ok reg sc c sc' : idle_ok reg sc -> take_another sc = (c, sc') ->
  sched_ok reg sc' /\ current sc' = c /\ queued sc ≡ₚ option_list c ++ queued sc' /\
  infinite_wait sc' = infinite_wait sc /\ (c = None -> queued sc = []).
Proof.
  intros [Q K C W T P] E. unfold take_another in E.
  assert (forall c1 sc1, next_process_pick_from_the_queues sc = (c1, sc1) ->
    queued sc ≡ₚ option_list c1 ++ queued sc1 /\ infinite_wait sc1 = infinite_wait sc /\ timed_wait sc1 = timed_wait sc /\
    (c1 = None -> queued sc = [])) as Hp.
  { intros c1 sc1. unfold next_process_pick_from_the_queues, queued.
    destruct (queue_high sc) as [|h high] eqn:Eh, (queue_normal sc) as [|n normal] eqn:En, (queue_low sc) as [|l low] eqn:El;
      try (destruct (advantage_count sc <? NORMAL_ADVANTAGE)); intros [= <- <-]; cbn; rewrite ?app_nil_r, ?Eh, ?En, ?El; split_and!; try done; solve_Permutation. }
  destruct (next_process_pick_from_the_queues sc) as [c1 sc1] eqn:E1. injection E as <- <-.
  destruct (Hp c1 sc1 eq_refl) as (Hq & Hi & Ht & He). change (queued (with_current sc1 c1)) with (queued sc1).
  change (queued (with_current sc None)) with (queued sc) in *.
  assert (NoDup (option_list c1 ++ queued sc1)) as Hnd by (by rewrite <- Hq).
  assert (forall u, u ∈ queued sc1 -> u ∈ queued sc) as Hsub by (intros u Hu; rewrite Hq; set_solver).
  split_and!; try done. split; cbn; try done.
  - change (queued (with_current sc1 c1)) with (queued sc1). by apply NoDup_app in Hnd as (_ & _ & ?).
  - intros u Hu. apply K. by apply Hsub.
  - intros u ->. cbn in Hnd. apply NoDup_cons in Hnd as [Hnd _]. split; [|exact Hnd]. apply K.
    change (queued (with_current sc None)) with (queued sc). rewrite Hq. set_solver.
  - intros u Hu. rewrite Hi in Hu. destruct (W u Hu) as (W1 & W2 & _). split; [done|].
    change (queued (with_current sc None)) with (queued sc) in W2. split; [intros Hq'; by apply W2, Hsub|].
    intros ->. apply W2. rewrite Hq. set_solver.
  - rewrite Ht. done.
Qed.

(** ** Choosing the next process *)

Lemma enter_catch_identity p cls reason nc : post (fun p' => same_identity p p') (enter_catch p cls reason nc).
Proof. unfold enter_catch. do 5 (eapply post_bind; [apply post_any|]; intros ? _). done. Qed.

(** The process that waits although it has unread messages is put nowhere. *)
Definition dropped (p : Process) : bool :=
  bool_decide (timeslice_result p = SliceInfiniteWait) && have_unread_messages (mailbox p).

(** What finalizing the slice of [id] does to the others, and where [id] goes. *)
Record finalized (reg : Registry) (sc : Scheduler) (id : Term) (hint : ScheduleHint) (sc' : Scheduler) (reg' : Registry) : Prop := {
  final_ok : match hint with
             | ContinueSameProcess => sched_ok reg' sc' /\ current sc' = Some id
             | TakeAnotherProcess => idle_ok reg' sc'
             end;
  final_others : forall u, u <> id -> reg' !! u = reg !! u /\ (u ∈ queued sc' <-> u ∈ queued sc) /\
                   (u ∈ infinite_wait sc' <-> u ∈ infinite_wait sc);
  final_self : forall p, reg !! id = Some p -> is_Some (reg' !! id) -> hint = TakeAnotherProcess -> dropped p = false ->
                 id ∈ queued sc' \/ id ∈ infinite_wait sc'
}.

Lemma finalize_exception reg sc id p : sched_ok reg sc -> current sc = Some id -> reg !! id = Some p ->
  post (fun '(hint, sc', reg') => finalized reg sc id hint sc' reg') (handle_process_exception reg sc id p).
Proof.
  intros H Hc Hp. assert (is_Some (reg !! id)) as Hk by eauto. destruct (current_apart _ _ H id Hc) as [_ Hq].
  pose proof (ok_idle _ _ H) as Hi. destruct (terminate_ok reg sc id Hi Hk Hq) as (sc1 & Et & I1 & Q1 & W1 & C1).
  assert (forall sc2, sc2 = with_current sc1 None -> finalized reg sc id TakeAnotherProcess sc2 (delete id reg)) as Hterm.
  { intros sc2 ->. split; [exact I1 | |].
    - intros u Hu. rewrite lookup_delete_ne by done. split; [done|].
      change (queued (with_current sc1 None)) with (queued sc1). cbn. rewrite Q1, W1. set_solver.
    - intros q _ Hs. rewrite lookup_delete_eq in Hs. by destruct Hs. }
  unfold handle_process_exception. destruct (error p) as [[cls reason]|]; [|done]. cbn [unwrap vm_bind].
  case_match; [rewrite Et; cbn; by apply Hterm|].
  destruct (unroll_stack_until_catch (heap p)) as [nc|].
  - eapply post_bind; [apply enter_catch_identity|]. intros p' (E1 & E2 & E3 & E4). cbn. destruct H as [Q K C W T P].
    split; [| |done].
    + split; [|done]. split; try done.
      * intros u Hu. destruct (decide (u = id)) as [->|]; [by rewrite lookup_insert_eq | rewrite lookup_insert_ne by done; by apply K].
      * intros u Hu. split; [|by apply C]. destruct (decide (u = id)) as [->|]; [by rewrite lookup_insert_eq | rewrite lookup_insert_ne by done; by apply C].
      * intros u Hu. split; [|by apply W]. destruct (decide (u = id)) as [->|]; [by rewrite lookup_insert_eq | rewrite lookup_insert_ne by done; by apply W].
      * intros u q [[-> <-] | [Hne Hu]]%lookup_insert_Some; [|by apply P]. unfold process_ok. rewrite E1, E3. by apply P.
    + intros u Hu. by rewrite lookup_insert_ne.
  - case_match; [done|]. rewrite Et. cbn. by apply Hterm.
Qed.

Lemma finalize_ok reg sc id : sched_ok reg sc -> current sc = Some id ->
  post (fun '(hint, sc', reg') => finalized reg sc id hint sc' reg') (next_process_finalize_previous reg sc id) /\
  (forall p, reg !! id = Some p -> timeslice_result p <> SliceException ->
    exists sc' reg', next_process_finalize_previous reg sc id = Ret (TakeAnotherProcess, sc', reg')).
Proof.
  intros H Hc. destruct (current_apart _ _ H id Hc) as [Hk Hq]. pose proof (ok_idle _ _ H) as Hi.
  assert (id ∉ infinite_wait sc) as Hw by (intros Hw; by destruct (waiting_apart _ _ H id Hw) as (_ & _ & ?)).
  destruct (lookup_known _ _ _ H Hk) as (p & Hp & Ok & Hl). unfold next_process_finalize_previous. rewrite Hl. cbn [vm_bind unwrap].
  assert (forall sc', (do! sc := enqueue reg sc id in Ret (TakeAnotherProcess, with_current sc None, reg)) = Ret (TakeAnotherProcess, sc', reg) ->
    finalized reg sc id TakeAnotherProcess sc' reg) as Hen.
  { destruct (enqueue_ok reg sc id false Hi Hk Hq Hw) as (p' & Hp' & Ee & I). unfold enqueue. rewrite Ee. cbn [vm_bind].
    intros sc' [= <-]. pose proof (push_back_queued sc (prio p') id) as HP. destruct (push_back_rest sc (prio p') id) as (R1 & R2 & R3).
    split; [exact I | |].
    - intros u Hu. split; [done|]. change (queued (with_current ?s None)) with (queued s). cbn. rewrite HP, R2. set_solver.
    - intros _ _ _ _ _. left. change (queued (with_current ?s None)) with (queued s). rewrite HP. set_solver. }
  destruct (timeslice_result p) eqn:Er.
  - destruct (enqueue_ok reg sc id false Hi Hk Hq Hw) as (p' & _ & Ee & _). unfold enqueue in *. rewrite Ee in *. cbn [vm_bind] in *.
    split; [cbn; by apply Hen | eauto].
  - destruct (enqueue_ok reg sc id false Hi Hk Hq Hw) as (p' & _ & Ee & _). unfold enqueue in *. rewrite Ee in *. cbn [vm_bind] in *.
    split; [cbn; by apply Hen | eauto].
  - case_match eqn:Eu.
    + split; [|eauto]. cbn. split; [done | done |]. intros q Hq' _ _ Hd. assert (q = p) as -> by congruence.
      unfold dropped in Hd. by rewrite Er, Eu in Hd.
    + destruct (wait_ok reg sc id Hi Hk Hq) as (sc' & Ew & I & Q & W). rewrite Ew. cbn [vm_bind]. split; [|eauto]. cbn.
      split; [done | |].
      * intros u Hu. rewrite Q, W. set_solver.
      * intros _ _ _ _ _. right. rewrite W. set_solver.
  - destruct (terminate_ok reg sc id Hi Hk Hq) as (sc1 & Et & I1 & Q1 & W1 & C1). rewrite Et. cbn [vm_bind]. split; [|eauto]. cbn.
    split; [done | |].
    + intros u Hu. rewrite lookup_delete_ne by done. rewrite Q1, W1. set_solver.
    + intros q _ Hs. rewrite lookup_delete_eq in Hs. by destruct Hs.
  - split; [by apply finalize_exception|]. intros q Hq' Hne. congruence.
Qed.

Definition placed (sc : Scheduler) (id : Term) : Prop :=
  id ∈ queued sc \/ current sc = Some id \/ id ∈ infinite_wait sc.

(** How the registry changes while a process is chosen. *)
Definition reg_step (sc : Scheduler) (reg reg' : Registry) : Prop :=
  forall u, current sc <> Some u -> reg' !! u = reg !! u.

Record chosen (reg : Registry) (sc : Scheduler) (c : option Term) (sc' : Scheduler) (reg' : Registry) : Prop := {
  chosen_ok : sched_ok reg' sc';
  chosen_current : current sc' = c;
  chosen_others : reg_step sc reg reg';
  chosen_waiting : forall u, u ∈ infinite_wait sc -> u ∈ infinite_wait sc';
  chosen_placed : forall u, is_Some (reg' !! u) -> placed sc u ->
    (forall p, current sc = Some u -> reg !! u = Some p -> dropped p = false) -> placed sc' u
}.

Lemma take_ok reg sc c sc' : idle_ok reg sc -> take_another sc = (c, sc') ->
  sched_ok reg sc' /\ current sc' = c /\ (forall u, u ∈ infinite_wait sc -> u ∈ infinite_wait sc') /\
  (forall u, u ∈ queued sc \/ u ∈ infinite_wait sc -> placed sc' u).
Proof.
  intros H E. destruct (pick_ok _ _ _ _ H E) as (Ok & Ec & Q & W & _). do 2 (split; [done|]). rewrite W. split; [done|].
  intros u [Hu | Hu]; unfold placed; rewrite W; [|auto]. rewrite Q in Hu. apply elem_of_app in Hu as [Hu | Hu]; [|auto].
  right. left. rewrite Ec. destruct c as [c|]; cbn in Hu; [|set_solver]. apply list_elem_of_singleton in Hu as ->. done.
Qed.

Lemma next_process_chosen reg sc : sched_ok reg sc ->
  post (fun '(c, sc', reg') => chosen reg sc c sc' reg') (next_process reg sc).
Proof.
  intros H. unfold next_process. destruct (current sc) as [prev|] eqn:Ec.
  - destruct (current_apart _ _ H prev Ec) as [[p Hp] _].
    eapply post_bind; [by apply finalize_ok|]. intros [[hint sc1] reg1] [F1 F2 F3].
    assert (reg_step sc reg reg1) as Hr by (intros u Hu; apply F2; congruence).
    assert (forall u, u ∈ infinite_wait sc -> u ∈ infinite_wait sc1) as Hw.
    { intros u Hu. destruct (decide (u = prev)) as [->|Hne]; [|by apply F2].
      by destruct (waiting_apart _ _ H prev Hu) as (_ & _ & ?). }
    destruct hint.
    + destruct F1 as [Ok E1]. cbn. split; try done. intros u Hs Hu _. unfold placed in *.
      destruct (decide (u = prev)) as [->|Hne]; [auto|]. destruct (F2 u Hne) as (_ & Q & W). rewrite Q, W.
      destruct Hu as [|[Hu|]]; auto. congruence.
    + destruct (take_another sc1) as [c sc2] eqn:Et. destruct (take_ok _ _ _ _ F1 Et) as (Ok & E2 & W2 & P2). cbn.
      split; auto. intros u Hs Hu Hd. apply P2.
      destruct (decide (u = prev)) as [->|Hne].
      * apply (F3 p Hp Hs eq_refl). by apply Hd.
      * destruct (F2 u Hne) as (_ & Q & W). rewrite Q, W. destruct Hu as [|[Hu|]]; auto. congruence.
  - destruct (take_another sc) as [c sc1] eqn:Et. destruct (take_ok _ _ _ _ (ok_idle _ _ H) Et) as (Ok & E1 & W1 & P1). cbn.
    split; try done. intros u _ Hu _. apply P1. unfold placed in Hu. rewrite Ec in Hu. naive_solver.
Qed.

(** The run queues are sound.  Whatever processes do in their slices, choosing the next
    process keeps every registered process in at most one place (selected, in one run queue
    once, or waiting) and every queued one registered, and touches no process but the one that
    ran.  It never fails an assertion unless that one ended in an exception; and it loses
    track of nobody but, possibly, a process that waits with unread messages. *)
Theorem next_process_sound (reg : Registry) (sc : Scheduler) : sched_ok reg sc ->
  (forall c sc' reg', next_process reg sc = Ret (c, sc', reg') ->
    sched_ok reg' sc' /\ current sc' = c /\ (forall u, current sc <> Some u -> reg' !! u = reg !! u) /\
    (forall u, is_Some (reg' !! u) -> placed sc u ->
      (forall p, current sc = Some u -> reg !! u = Some p -> dropped p = false) -> placed sc' u)) /\
  ((forall id p, current sc = Some id -> reg !! id = Some p -> timeslice_result p <> SliceException) ->
    exists r, next_process reg sc = Ret r).
Proof.
  intros H. split.
  - intros c sc' reg' E. destruct (post_Ret _ _ _ (next_process_chosen reg sc H) E) as [A B C _ D]. done.
  - intros Hx. unfold next_process. destruct (current sc) as [prev|] eqn:Ec; [|case_match; eauto].
    destruct (current_apart _ _ H prev Ec) as [[p Hp] _].
    destruct (proj2 (finalize_ok reg sc prev H Ec) p Hp (Hx prev p eq_refl Hp)) as (sc' & reg' & ->). cbn [vm_bind].
    case_match; eauto.
Qed.

(** * The machine as a whole *)

(** ** Copying changes only the heap *)

Definition only_heap (s s' : Machine) : Prop := exists h, proc s' = with_heap (proc s) h.

Lemma only_heap_refl s : only_heap s s.
Proof. exists (heap (proc s)). by destruct s as [m []]. Qed.
Lemma only_heap_trans s1 s2 s3 : only_heap s1 s2 -> only_heap s2 s3 -> only_heap s1 s3.
Proof. intros [h1 E1] [h2 E2]. exists h2. by rewrite E2, E1. Qed.
Lemma only_heap_put s s' m : only_heap s s' -> only_heap s {| mem := m; proc := proc s' |}.
Proof. by intros [h E]; exists h. Qed.

Lemma alloc_words_heap s n : post (fun r => only_heap s r.2) (alloc_words s n).
Proof. eapply post_bind; [apply post_any|]. intros [pos h] _. by exists h. Qed.

Lemma append_heap lb y s : post (fun r => only_heap s r.2) (append lb y s).
Proof.
  unfold append. apply (post_bind (fun r => only_heap s r.2)).
  { eapply post_bind; [apply post_any|]. intros [pos h] _. by exists h. }
  intros [c s1] H. unfold set_hd, set_tl. case_match.
  - eapply (post_bind (only_heap s)).
    + eapply post_bind; [apply post_any|]. intros [a b] _. by apply only_heap_put.
    + intros s2 H2. exact H2.
  - eapply (post_bind (only_heap s)).
    + eapply post_bind; [apply post_any|]. intros [a b] _. by apply only_heap_put.
    + intros s2 H2. eapply (post_bind (only_heap s)).
      * eapply post_bind; [apply post_any|]. intros [a b] _. by apply only_heap_put.
      * intros s3 H3. exact H3.
Qed.

Lemma copy_elements_heap copy els : (forall x s, post (fun r => only_heap s r.2) (copy x s)) ->
  forall s, post (fun r => only_heap s r.2) (copy_elements copy els s).
Proof.
  intros Hc. induction els as [|x els IH]; intros s; cbn [copy_elements]; [apply only_heap_refl|].
  eapply post_bind; [apply Hc|]. intros [y s1] H1. eapply post_bind; [apply IH|]. intros [ys s2] H2.
  by eapply only_heap_trans.
Qed.

Lemma copy_cells_heap copy fuel : (forall x s, post (fun r => only_heap s r.2) (copy x s)) ->
  forall lb p s, post (fun r => only_heap s r.2) (copy_cells copy fuel lb p s).
Proof.
  intros Hc. induction fuel as [|fuel IH]; intros lb p s; cbn [copy_cells]; [done|].
  eapply post_bind; [apply post_any|]. intros [hd tl] _. eapply post_bind; [apply Hc|]. intros [y s1] H1.
  eapply post_bind; [apply append_heap|]. intros [lb' s2] H2.
  assert (only_heap s s2) as H3 by (by eapply only_heap_trans). case_match.
  - eapply post_mono; [apply IH|]. intros r. by apply only_heap_trans.
  - unfold make_term_with_tail, set_tl. case_match; [done|]. apply (post_bind (only_heap s)).
    + eapply post_bind; [apply post_any|]. intros [a b] _. by apply only_heap_put.
    + intros s3 Hs3. exact Hs3.
Qed.

Lemma copy_to_heap fuel : forall x s, post (fun r => only_heap s r.2) (copy_to fuel x s).
Proof.
  induction fuel as [|fuel IH]; intros x s; cbn [copy_to]; [done|]. case_match; [|case_match; [|case_match; [|case_match]]]; try done.
  - eapply post_bind; [apply post_any|]. intros o _. destruct o; try done.
    eapply post_bind; [apply alloc_words_heap|]. intros [p s1] H1. destruct elements; [done|].
    eapply post_bind; [by apply copy_elements_heap|]. intros [ys s2] H2. eapply post_bind; [apply post_any|]. intros y _.
    apply only_heap_put. by eapply only_heap_trans.
  - case_match; [apply only_heap_refl | by apply copy_cells_heap].
  - apply only_heap_refl.
  - case_match; [apply only_heap_refl | done].
Qed.

(** ** A slice leaves the scheduler alone *)

Definition evolves (reg reg' : Registry) : Prop := forall u, option_Forall2 same_identity (reg !! u) (reg' !! u).

Lemma evolves_refl reg : evolves reg reg.
Proof. intros u. destruct (reg !! u); by constructor. Qed.
Lemma evolves_trans r1 r2 r3 : evolves r1 r2 -> evolves r2 r3 -> evolves r1 r3.
Proof.
  intros H1 H2 u. specialize (H1 u). specialize (H2 u). destruct H1 as [p1 p2 H1|]; inversion H2; subst; constructor.
  by eapply same_identity_trans.
Qed.
Lemma evolves_insert reg u p p' : reg !! u = Some p -> same_identity p p' -> evolves reg (<[u := p']> reg).
Proof.
  intros Hu Hi w. destruct (decide (w = u)) as [->|Hne].
  - rewrite Hu, lookup_insert_eq. by constructor.
  - rewrite lookup_insert_ne by done. destruct (reg !! w); by constructor.
Qed.
Lemma evolves_some reg reg' u : evolves reg reg' -> is_Some (reg !! u) <-> is_Some (reg' !! u).
Proof. intros H. specialize (H u). destruct H; split; intros [? ?]; eauto; done. Qed.

Lemma evolves_ok reg reg' sc : sched_ok reg sc -> evolves reg reg' -> sched_ok reg' sc.
Proof.
  intros [Q K C W T P] E. pose proof (fun u => evolves_some reg reg' u E) as Hs. split; try done.
  - intros u Hu. by apply Hs, K.
  - intros u Hu. destruct (C u Hu). split; [by apply Hs | done].
  - intros u Hu. destruct (W u Hu) as (W1 & W2 & W3). split_and!; [by apply Hs | done..].
  - intros u p Hu. specialize (E u). rewrite Hu in E. inversion E as [p0 ? (E1 & E2 & E3 & E4) Hp0|]; subst.
    unfold process_ok. rewrite E1, E3. by apply P.
Qed.

(** The steps of a slice: the other parts of the machine stay. *)
Definition slice_step (v v' : VM) : Prop :=
  scheduler v' = scheduler v /\ pid_counter v' = pid_counter v /\ evolves (processes v) (processes v').

Lemma slice_trans v1 v2 v3 : slice_step v1 v2 -> slice_step v2 v3 -> slice_step v1 v3.
Proof. intros (S1 & C1 & E1) (S2 & C2 & E2). split_and!; [congruence.. | by eapply evolves_trans]. Qed.

Lemma slice_put v id p p' m : processes v !! id = Some p -> same_identity p p' ->
  slice_step v (put_machine v id {| mem := m; proc := p' |}).
Proof. intros Hp Hi. split_and!; [done | done | by eapply evolves_insert]. Qed.

Definition all_unqueued (v : VM) : Prop := forall id p, processes v !! id = Some p -> current_queue p = QNone.

Lemma deliver_step fuel v id p message : all_unqueued v -> processes v !! id = Some p ->
  post (slice_step v) (deliver_message fuel v id p message).
Proof.
  intros Hq Hp. unfold deliver_message. eapply post_bind; [apply copy_to_heap|]. intros [m1 s] [h Eh]. cbn [snd machine_of proc] in Eh.
  cbv zeta. rewrite Eh. unfold notify_new_incoming_message. cbn [current_queue with_mailbox with_heap].
  rewrite (Hq id p Hp). cbn. split_and!; [done | done | by eapply evolves_insert].
Qed.

Lemma send_step fuel v id p : all_unqueued v -> processes v !! id = Some p -> post (fun r => slice_step v r.2) (op_send fuel v id p).
Proof.
  intros Hq Hp. unfold op_send. do 3 (eapply post_bind; [apply post_any|]; intros ? _).
  case_match; [cbn; split_and!; [done | done | apply evolves_refl]|].
  unfold lookup_pid. case_match; [|done]. cbn [vm_bind]. apply (post_bind (slice_step v)).
  - case_match; [by apply deliver_step | split_and!; [done | done | apply evolves_refl]].
  - intros v' Hv. destruct (processes v' !! id) as [p'|] eqn:Hp'; [|done]. cbn [read vm_bind].
    eapply post_bind; [apply post_any|]. intros c _. cbn. eapply slice_trans; [exact Hv|]. by eapply slice_put.
Qed.

Lemma unqueued_step v v' : all_unqueued v -> slice_step v v' -> all_unqueued v'.
Proof.
  intros H (_ & _ & E) id p Hp. specialize (E id). rewrite Hp in E. inversion E as [p0 ? (_ & _ & E3 & _) Hp0|]; subst.
  rewrite E3. by apply (H id).
Qed.

Lemma execute_step atoms fuel code v id : all_unqueued v -> post (fun r => slice_step v r.2) (vm_execute_one atoms fuel code v id).
Proof.
  intros Hq. unfold vm_execute_one. destruct (processes v !! id) as [p|] eqn:Hp; [|done]. cbn [read vm_bind].
  destruct (code (ip (context p))) as [[i|]|]; [| |done]; cbn [read vm_bind].
  - eapply post_bind; [apply dispatch_settled|]. intros [r s] [_ I]. cbn in *. by eapply slice_put.
  - set (p1 := with_context p _). set (v1 := put_machine v id (machine_of v p1)).
    assert (slice_step v v1) as H1 by (by eapply slice_put).
    eapply post_mono; [apply (send_step fuel v1 id p1); [by eapply unqueued_step | apply lookup_insert_eq]|].
    intros r Hr. by eapply slice_trans.
Qed.

Lemma end_step v id f : (forall p, same_identity p (f p)) -> post (slice_step v) (end_slice v id f).
Proof.
  intros Hf. unfold end_slice. destruct (processes v !! id) as [p|] eqn:Hp; [|done]. cbn. by eapply slice_put.
Qed.

Lemma run_step atoms fuel code n : forall v id, all_unqueued v -> post (fun r => slice_step v r.2) (vm_run atoms fuel code n v id).
Proof.
  induction n as [|n IH]; intros v id Hq; cbn [vm_run]; [done|].
  eapply post_bind; [by apply execute_step|]. intros [r v1] H1. cbn [snd] in H1. assert (all_unqueued v1) as Hq1 by (by eapply unqueued_step).
  assert (forall f, (forall p, same_identity p (f p)) -> post (fun r => slice_step v r.2) (do! v := end_slice v1 id f in Ret (true, v))) as He.
  { intros f Hf. eapply post_bind; [by apply end_step|]. intros v2 H2. by eapply slice_trans. }
  destruct r; try by apply He.
  case_match; [exact H1|]. destruct (processes v1 !! id); [|done]. cbn [read vm_bind]. case_match; [by apply He|].
  eapply post_mono; [by apply IH|]. intros r Hr. by eapply slice_trans.
Qed.

(** ** Every machine there can be *)

(** Pids are handed out in order. *)
Record vm_ok (v : VM) : Prop := {
  vm_sched : sched_ok (processes v) (scheduler v);
  vm_pids : forall u, is_Some (processes v !! u) -> exists k, 0 <= k < pid_counter v /\ u = make_local_pid k
}.

Lemma vm_unqueued v : vm_ok v -> all_unqueued v.
Proof. intros [S _] id p Hp. apply (processes_ok _ _ S id p Hp). Qed.

Lemma vm_slice v v' : vm_ok v -> slice_step v v' -> vm_ok v'.
Proof.
  intros [S P] (E1 & E2 & E). split; [rewrite E1; by eapply evolves_ok|]. rewrite E2. intros u Hu. apply P.
  by eapply evolves_some.
Qed.

Lemma slice_refl v : slice_step v v.
Proof. split_and!; [done | done | apply evolves_refl]. Qed.

(** Choosing a process and running its slice. *)
Lemma dispatch_chosen atoms fuel code n v : vm_ok v ->
  post (fun r => exists c sc reg, next_process (processes v) (scheduler v) = Ret (c, sc, reg) /\
          chosen (processes v) (scheduler v) c sc reg /\ slice_step (with_sched v sc reg) r.2)
    (dispatch atoms fuel code n v).
Proof.
  intros [S P]. unfold dispatch. pose proof (next_process_chosen _ _ S) as Hc.
  destruct (next_process (processes v) (scheduler v)) as [[[c sc] reg]| | | |]; try done. cbn [post vm_bind] in *.
  assert (all_unqueued (with_sched v sc reg)) as Hq by (intros id p Hp; by apply (processes_ok _ _ (chosen_ok _ _ _ _ _ Hc) id p)).
  destruct c as [id|]; [|cbn; eexists _, _, _; split_and!; try done; apply slice_refl].
  eapply post_bind; [by apply end_step|]. intros v1 H1.
  eapply post_mono; [apply run_step; by eapply unqueued_step|]. intros r Hr. eexists _, _, _. split_and!; try done.
  by eapply slice_trans.
Qed.

Lemma next_registered reg sc c sc' reg' u : chosen reg sc c sc' reg' -> sched_ok reg sc -> is_Some (reg' !! u) -> is_Some (reg !! u).
Proof.
  intros C S Hu. destruct (decide (current sc = Some u)) as [E|E].
  - by apply (current_apart _ _ S u E).
  - by rewrite <- (chosen_others _ _ _ _ _ C u E).
Qed.

Lemma dispatch_ok atoms fuel code n v : vm_ok v -> post (fun r => vm_ok r.2) (dispatch atoms fuel code n v).
Proof.
  intros H. eapply post_mono; [by apply dispatch_chosen|]. intros [b v'] (c & sc & reg & _ & Hc & Hs). cbn in *.
  eapply vm_slice; [|exact Hs]. split; [apply Hc|]. intros u Hu. apply (vm_pids _ H). by eapply next_registered; [|apply H|].
Qed.

Lemma local_pid_inj j k : 0 <= j < 2 ^ 61 -> 0 <= k < 2 ^ 61 -> make_local_pid j = make_local_pid k -> j = k.
Proof.
  intros Hj Hk E. apply (f_equal raw) in E. unfold make_local_pid in E. rewrite !make_tagged_eq, !Z.mod_small in E by done. lia.
Qed.

Lemma create_ok v entry args pr flags base garbage : vm_ok v -> 0 <= pid_counter v < 2 ^ 61 ->
  post (fun r => vm_ok r.2 /\ r.1 = make_local_pid (pid_counter v) /\ processes v !! r.1 = None /\ r.1 ∈ queued (scheduler r.2))
    (create_process v entry args pr flags base garbage).
Proof.
  intros [S P] Hc. unfold create_process. cbv zeta. set (id := make_local_pid (pid_counter v)).
  assert (processes v !! id = None) as Hnew.
  { apply eq_None_not_Some. intros Hs. destruct (P id Hs) as (k & Hk & E). apply local_pid_inj in E; lia. }
  eapply post_bind; [apply post_any|]. intros ip0 _. unfold new_process. destruct (is_local_pid id) eqn:El; [|done]. cbn [unwrap vm_bind].
  eapply post_bind; [apply post_any|]. intros c _. set (p := with_context _ c). unfold register_new_process. cbn [processes scheduler].
  set (sc := scheduler v) in *. set (reg := <[id := p]> (processes v)).
  assert (sched_ok reg sc) as S1.
  { destruct S as [Q K C W T Po]. assert (forall u, is_Some (processes v !! u) -> is_Some (reg !! u)) as Hm.
    { intros u Hu. unfold reg. destruct (decide (u = id)) as [->|]; [by rewrite lookup_insert_eq | by rewrite lookup_insert_ne]. }
    split; try done; [naive_solver | naive_solver | naive_solver |].
    intros u q [[<- <-] | [Hne Hu]]%lookup_insert_Some; [done | by apply Po]. }
  assert (~ is_Some (processes v !! id)) as Hn by (by rewrite Hnew; intros [? ?]).
  destruct (enqueue_ok reg sc id false (ok_idle _ _ S1)) as (p' & _ & E & I).
  { unfold reg. by rewrite lookup_insert_eq. }
  { intros Hq. by apply Hn, (queued_known _ _ S). }
  { intros Hw. by apply Hn, (waiting_apart _ _ S). }
  unfold enqueue. rewrite E. cbn. pose proof (push_back_queued sc (prio p') id) as HP. destruct (push_back_rest sc (prio p') id) as (R1 & R2 & R3).
  split_and!; [| done | done | rewrite HP; set_solver].
  split; cbn.
  - destruct I as [Q K C W T Po]. split; try done; rewrite R3.
    + intros u Hu. destruct (current_apart _ _ S1 u Hu) as [H1 H2]. split; [done|]. rewrite HP. intros [->|Hq]%elem_of_cons; [|done].
      by apply Hn, (current_apart _ _ S).
    + intros u Hu. destruct (W u Hu) as (W1 & W2 & _). split_and!; [done | done|]. rewrite R2 in Hu.
      by apply (waiting_apart _ _ S1).
  - intros u Hu. destruct (decide (u = id)) as [->|Hne]; [exists (pid_counter v); split; [lia | done]|].
    unfold reg in Hu. rewrite lookup_insert_ne in Hu by done. destruct (P u Hu) as (k & Hk & ->). exists k. split; [lia | done].
Qed.

(** One turn of the loop, or a new process. *)
Inductive vm_reaches (atoms : AtomStorage) (fuel : nat) (code : Z -> option VInstr) : VM -> VM -> Prop :=
| reach_refl v : vm_reaches atoms fuel code v v
| reach_dispatch v1 n v2 b v3 :
    vm_reaches atoms fuel code v1 v2 -> dispatch atoms fuel code n v2 = Ret (b, v3) -> vm_reaches atoms fuel code v1 v3
| reach_create v1 v2 entry args pr flags base garbage id v3 :
    vm_reaches atoms fuel code v1 v2 -> 0 <= pid_counter v2 < 2 ^ 61 ->
    create_process v2 entry args pr flags base garbage = Ret (id, v3) -> vm_reaches atoms fuel code v1 v3.

Definition new_vm : VM :=
  {| pid_counter := 0; scheduler := new_scheduler; processes := ∅; name_to_pidport := ∅; memory := {| boxes := ∅; conses := ∅ |} |}.

Lemma new_vm_ok : vm_ok new_vm.
Proof.
  split; [split|]; cbn; try done.
  - constructor.
  - intros u Hu. by apply not_elem_of_nil in Hu.
  - intros u [p Hu]. by rewrite lookup_empty in Hu.
Qed.

Lemma reaches_ok atoms fuel code v v' : vm_ok v -> vm_reaches atoms fuel code v v' -> vm_ok v'.
Proof.
  intros H R. induction R as [v | v1 n v2 b v3 R IH E | v1 v2 entry args pr flags base garbage id v3 R IH Hc E]; [done | |].
  - exact (post_Ret _ _ _ (dispatch_ok atoms fuel code n v2 (IH H)) E).
  - exact (proj1 (post_Ret _ _ _ (create_ok v2 entry args pr flags base garbage (IH H) Hc) E)).
Qed.

(** The machine never loses its bookkeeping.  From a new machine, however many slices run
    and processes are created, every queued or selected process is registered, none is queued
    twice or both queued and selected or waiting, every registered process is keyed by its own
    pid, and a pid is never given out twice. *)
Theorem machine_stays_sound (atoms : AtomStorage) (fuel : nat) (code : Z -> option VInstr) (v : VM) :
  vm_reaches atoms fuel code new_vm v ->
  sched_ok (processes v) (scheduler v) /\
  forall entry args pr flags base garbage id v',
    0 <= pid_counter v < 2 ^ 61 -> create_process v entry args pr flags base garbage = Ret (id, v') ->
    processes v !! id = None /\ id ∈ queued (scheduler v').
Proof.
  intros R. assert (vm_ok v) as H by (eapply reaches_ok; [apply new_vm_ok | done]). split; [apply H|].
  intros entry args pr flags base garbage id v' Hc E.
  destruct (post_Ret _ _ _ (create_ok v entry args pr flags base garbage H Hc) E) as (_ & _ & Hn & Hq). done.
Qed.

(** ** A process that waits is never woken

    [current_queue] is set to none when a process is made and is never set again, so that
    [notify_new_incoming_message] finds nobody waiting. *)
Theorem waiting_is_forever atoms fuel code v v' id :
  vm_ok v -> id ∈ infinite_wait (scheduler v) -> vm_reaches atoms fuel code v v' ->
  id ∈ infinite_wait (scheduler v') /\ current (scheduler v') <> Some id /\ id ∉ queued (scheduler v').
Proof.
  intros H Hw R. assert (id ∈ infinite_wait (scheduler v') /\ vm_ok v') as [Hw' H'].
  { induction R as [v | v1 n v2 b v3 R IH E | v1 v2 entry args pr flags base garbage u v3 R IH Hc E]; [done | |].
    - destruct (IH H Hw) as [Hw2 H2]. split; [|exact (post_Ret _ _ _ (dispatch_ok atoms fuel code n v2 H2) E)].
      destruct (post_Ret _ _ _ (dispatch_chosen atoms fuel code n v2 H2) E) as (c & sc & reg & _ & C & (E1 & _)). cbn in E1.
      rewrite E1. by apply C.
    - destruct (IH H Hw) as [Hw2 H2]. split; [|exact (proj1 (post_Ret _ _ _ (create_ok v2 entry args pr flags base garbage H2 Hc) E))].
      revert E. unfold create_process, register_new_process, enqueue, enqueue_opt.
      destruct entry; [|done..]. cbn [vm_bind]. destruct (unwrap _) as [p| | | |]; try done. cbn [vm_bind].
      destruct (set_spawn_args _ _ _) as [c| | | |]; try done. cbn [vm_bind]. destruct (lookup_pid _ _) as [o| | | |]; try done. cbn [vm_bind].
      destruct (unwrap o) as [q| | | |]; try done. cbn [vm_bind]. case_match; [done|]. intros [= <- <-]. cbn.
      by rewrite (proj1 (proj2 (push_back_rest _ _ _))). }
  split; [done|]. destruct (waiting_apart _ _ (vm_sched _ H') id Hw') as (_ & ? & ?). done.
Qed.

(** * Exceptions *)

Definition no_catch (w : Z) : Prop := get_catch_ptr (from_raw w) = None.

Lemma unroll_loop_skip pre ws : forall d, Forall no_catch pre -> unroll_loop (pre ++ ws) d = unroll_loop ws (d + Z.of_nat (length pre)).
Proof.
  induction pre as [|w pre IH]; intros d H; cbn [app length unroll_loop]; [f_equal; lia|].
  apply Forall_cons in H as [Hw H]. unfold no_catch in Hw. rewrite Hw, IH by done. f_equal. lia.
Qed.

Lemma stack_word_at h i : heap_ok h -> word_at h (stack_top h + Z.of_nat i) = stack_words h !! i.
Proof.
  intros (Ht & Hs & Hl). unfold word_at, stack_words. rewrite (proj2 (Z.leb_le _ _)) by lia.
  rewrite take_ge by lia. rewrite lookup_drop. f_equal. lia.
Qed.

Lemma set_x_length c i v : 0 <= i < Z.of_nat (length (regs c)) -> set_x c i v = Ret (set_regs c (<[Z.to_nat i := v]> (regs c))).
Proof. intros Hi. unfold set_x. by rewrite (proj2 (Z.leb_gt _ _)) by lia. Qed.

(** The registers as the catching code finds them. *)
Definition catch_regs (r : list Term) (cls : ExceptionType) (reason : Term) : list Term :=
  <[3%nat := nil]> (<[2%nat := reason]> (<[1%nat := to_atom cls]> (<[0%nat := non_value]> r))).

Lemma enter_catch_eq p cls reason nc : 4 <= Z.of_nat (length (regs (context p))) ->
  stack_top (heap p) + stack_drop nc < capacity (heap p) ->
  enter_catch p cls reason nc = Ret (with_heap (with_context p
      (clear_cp (jump_ptr (set_regs (context p) (catch_regs (regs (context p)) cls reason)) (loc nc))))
    (set_stack_top (heap p) (stack_top (heap p) + stack_drop nc))).
Proof.
  intros Hl Hd. unfold enter_catch, drop_stack_words.
  do 4 (rewrite set_x_length by (cbn [regs set_regs]; rewrite ?length_insert; lia); cbn [vm_bind]).
  rewrite (proj2 (Z.ltb_lt _ _)) by done. done.
Qed.

Lemma catch_regs_read c cls reason i v : (4 <= length (regs c))%nat ->
  catch_regs (regs c) cls reason !! Z.to_nat i = Some v ->
  forall l, get_x (clear_cp (jump_ptr (set_regs c (catch_regs (regs c) cls reason)) l)) i = Ret v.
Proof. intros _ H l. unfold get_x. cbn [clear_cp jump_ptr set_cp_ptr set_ip regs set_regs]. by rewrite H. Qed.

(** An exception reaches the handler.  When a process with a catch fails and the topmost
    catch on its stack is the first register of its frame, the process goes on at the label of
    that catch, in its frame (the return address is on top of the stack again and the frames
    above are gone), with the mark of an exception in x0, its class in x1, its reason in x2
    and no trace in x3; the queues and every other process are as before. *)
Theorem exception_reaches_catch (reg : Registry) (sc : Scheduler) (id : Term) (p : Process)
    (cls : ExceptionType) (reason : Term) (pre post_ : list Z) (w_cp w_catch label : Z) :
  error p = Some (cls, reason) -> 0 < num_catches p -> heap_ok (heap p) -> 4 <= Z.of_nat (length (regs (context p))) ->
  stack_words (heap p) = pre ++ [w_cp; w_catch] ++ post_ -> Forall no_catch (pre ++ [w_cp]) ->
  get_catch_ptr (from_raw w_catch) = Some label ->
  exists p', handle_process_exception reg sc id p = Ret (ContinueSameProcess, sc, <[id := p']> reg) /\
    ip (context p') = label /\ cp (context p') = 0 /\
    get_x (context p') 0 = Ret non_value /\ get_x (context p') 1 = Ret (to_atom cls) /\
    get_x (context p') 2 = Ret reason /\ get_x (context p') 3 = Ret nil /\
    stack_words (heap p') = [w_cp; w_catch] ++ post_ /\ heap_ok (heap p').
Proof.
  intros He Hn Ho Hl Hs Hpre Hc. pose proof Ho as (Ht & Htop & Hlen).
  set (d := Z.of_nat (length pre)).
  assert (length (stack_words (heap p)) = (length pre + (2 + length post_))%nat) as Hlw by (rewrite Hs, length_app; done).
  assert (Z.of_nat (length (stack_words (heap p))) = capacity (heap p) - stack_top (heap p)) as Hd.
  { unfold stack_words. rewrite length_drop, length_take. lia. }
  assert (unroll_stack_until_catch (heap p) = Some {| loc := label; stack_drop := usize_sub (d + 1) 1 |}) as Hu.
  { unfold unroll_stack_until_catch. rewrite Hs. change ([w_cp; w_catch] ++ post_) with ([w_cp] ++ w_catch :: post_).
    rewrite app_assoc, unroll_loop_skip by done. cbn [unroll_loop]. rewrite Hc, length_app. cbn [length]. do 3 f_equal. lia. }
  assert (usize_sub (d + 1) 1 = d) as Hsub by (unfold usize_sub; rewrite (proj2 (Z.leb_le _ _)) by lia; lia).
  rewrite Hsub in Hu. unfold handle_process_exception. rewrite He, Hu. cbn [unwrap vm_bind].
  rewrite (proj2 (Z.leb_gt _ _)), enter_catch_eq by (done || cbn [stack_drop]; lia). cbn [vm_bind].
  eexists. split; [reflexivity|]. cbn [context heap with_heap with_context].
  split; [done|]. split; [done|].
  destruct (regs (context p)) as [|r0 [|r1 [|r2 [|r3 rs]]]] eqn:Er; try (cbn in Hl; lia).
  do 4 (split; [rewrite <- Er; apply catch_regs_read; [rewrite Er; cbn; lia | by rewrite Er]|]).
  split; [|unfold heap_ok; cbn; lia].
  unfold stack_words in *. cbn [set_stack_top data stack_top capacity stack_drop].
  replace (Z.to_nat (stack_top (heap p) + d)) with (Z.to_nat (stack_top (heap p)) + length pre)%nat by lia.
  rewrite <- drop_drop, Hs. by rewrite drop_app_length.
Qed.

(** ** With the catch in another register

    The stack is cut one word above the catch, whatever is there.  For a catch in the second
    register of its frame that is the first register, and the frame cannot be left. *)
Lemma inner_catch_loses_frame (h : Heap) (w_cp y0 w_catch label : Z) rest n :
  stack_words h = w_cp :: y0 :: w_catch :: rest -> heap_ok h -> no_catch w_cp -> no_catch y0 -> is_cp (from_raw y0) = false ->
  get_catch_ptr (from_raw w_catch) = Some label ->
  exists nc h', unroll_stack_until_catch h = Some nc /\ drop_stack_words h (stack_drop nc) = Ret h' /\
    stack_deallocate h' n = Panic.
Proof.
  intros Hs Ho H1 H2 Hy Hc. pose proof Ho as (Ht & Htop & Hlen).
  assert (3 <= capacity h - stack_top h) as Hcap.
  { assert (Z.of_nat (length (stack_words h)) = capacity h - stack_top h) as <- by (unfold stack_words; rewrite length_drop, length_take; lia).
    rewrite Hs. cbn [length]. lia. }
  exists {| loc := label; stack_drop := 1 |}, (set_stack_top h (stack_top h + 1)). split.
  - unfold unroll_stack_until_catch. rewrite Hs. cbn [unroll_loop]. unfold no_catch in H1, H2. by rewrite H1, H2, Hc.
  - unfold drop_stack_words. cbn [stack_drop]. rewrite (proj2 (Z.ltb_lt _ _)) by lia. split; [done|].
    unfold stack_deallocate. case_match; [done|]. cbn [stack_top set_stack_top].
    change (word_at (set_stack_top h (stack_top h + 1)) (stack_top h + 1)) with (word_at h (stack_top h + Z.of_nat 1)).
    rewrite stack_word_at, Hs by done. cbn. by rewrite Hy.
Qed.

(** * Turns *)

(** The selected process runs a slice, not ending in an exception, and the next one is
    chosen. *)
Inductive turn : Registry * Scheduler -> Registry * Scheduler -> Prop :=
| turn_intro reg sc reg1 c reg' sc' :
    evolves reg reg1 ->
    (forall id p, current sc = Some id -> reg1 !! id = Some p -> timeslice_result p <> SliceException) ->
    next_process reg1 sc = Ret (c, sc', reg') -> turn (reg, sc) (reg', sc').

Definition nobody_high (reg : Registry) : Prop := forall id p, reg !! id = Some p -> prio p <> PrioHigh.

Lemma evolves_high reg reg' : nobody_high reg -> evolves reg reg' -> nobody_high reg'.
Proof.
  intros H E id p Hp. specialize (E id). rewrite Hp in E. inversion E as [p0 ? (_ & E2 & _) Hp0|]; subst. rewrite E2. by apply (H id).
Qed.

(** Finalizing keeps the order of the normal queue. *)
Lemma finalize_normal reg sc id hint sc' reg' : nobody_high reg -> queue_high sc = [] ->
  (forall p, reg !! id = Some p -> timeslice_result p <> SliceException) ->
  next_process_finalize_previous reg sc id = Ret (hint, sc', reg') ->
  hint = TakeAnotherProcess /\ queue_high sc' = [] /\ advantage_count sc' = advantage_count sc /\
  (exists l, queue_normal sc' = queue_normal sc ++ l) /\ (reg' = reg \/ reg' = delete id reg).
Proof.
  intros Hh Hq Hx. unfold next_process_finalize_previous, lookup_pid. case_match; [|done]. cbn [vm_bind].
  destruct (reg !! id) as [p|] eqn:Hp; [|done]. cbn [unwrap vm_bind]. specialize (Hx p eq_refl). pose proof (Hh id p Hp) as Hpr.
  assert (forall sc1, enqueue reg sc id = Ret sc1 -> queue_high sc1 = [] /\ advantage_count sc1 = advantage_count sc /\
    exists l, queue_normal sc1 = queue_normal sc ++ l) as He.
  { intros sc1. unfold enqueue, enqueue_opt, lookup_pid. rewrite H, Hp. cbn [vm_bind unwrap]. case_match; [done|].
    intros [= <-]. destruct (prio p) eqn:Epr; [| |done]; cbn; split_and!; try done; [exists []; by rewrite app_nil_r | by eexists]. }
  destruct (timeslice_result p); try done.
  1, 2: destruct (enqueue reg sc id) as [sc1| | | |]; try done; cbn [vm_bind]; intros [= <- <- <-]; destruct (He sc1 eq_refl) as (? & ? & ?); auto 10.
  - case_match; [intros [= <- <- <-]; split_and!; auto; exists []; by rewrite app_nil_r|].
    unfold enqueue_wait. rewrite H. cbn [negb vm_bind]. intros [= <- <- <-]. cbn. split_and!; auto. exists []. by rewrite app_nil_r.
  - unfold terminate_process, lookup_pid. rewrite H, Hp. cbn [vm_bind unwrap]. case_match; [done|]. cbv zeta. case_match; [done|].
    cbn [vm_bind]. intros [= <- <- <-]. cbn. split_and!; auto. exists []. by rewrite app_nil_r.
Qed.

(** One turn takes the head of the normal queue. *)
Lemma turn_normal reg sc reg' sc' n l : turn (reg, sc) (reg', sc') -> sched_ok reg sc -> nobody_high reg ->
  queue_high sc = [] -> advantage_count sc < NORMAL_ADVANTAGE -> queue_normal sc = n :: l ->
  current sc' = Some n /\ (exists l', queue_normal sc' = l ++ l') /\
  sched_ok reg' sc' /\ nobody_high reg' /\ queue_high sc' = [] /\ advantage_count sc' < NORMAL_ADVANTAGE.
Proof.
  intros T S Hh Hq Ha Hn. inversion T as [? ? reg1 c ? ? E Hx En]; subst.
  assert (sched_ok reg1 sc) as S1 by (by eapply evolves_ok). assert (nobody_high reg1) as Hh1 by (by eapply evolves_high).
  destruct (post_Ret _ _ _ (next_process_chosen reg1 sc S1) En) as [Ok _ _ _ _].
  assert (forall sc1 l1, queue_high sc1 = [] -> advantage_count sc1 = advantage_count sc -> queue_normal sc1 = n :: l ++ l1 ->
    take_another sc1 = (Some n, with_current (with_queues sc1 (queue_low sc1) (l ++ l1) []) (Some n))) as Ht.
  { intros sc1 l1 H1 H2 H3. unfold take_another, next_process_pick_from_the_queues. rewrite H1, H2, H3.
    rewrite (proj2 (Z.ltb_lt _ _)) by done. done. }
  unfold next_process in En. destruct (current sc) as [prev|] eqn:Ec.
  - destruct (next_process_finalize_previous reg1 sc prev) as [[[hint sc1] reg2]| | | |] eqn:Ef; try done. cbn [vm_bind] in En.
    destruct (finalize_normal _ _ _ _ _ _ Hh1 Hq (fun p => Hx prev p eq_refl) Ef) as (-> & Q1 & A1 & [l1 N1] & R).
    rewrite Hn in N1. cbn [app] in N1. rewrite (Ht sc1 l1) in En by done. injection En as <- <- <-. cbn.
    split; [done|]. split; [by exists l1|]. split; [done|]. split; [|split; [done | by rewrite A1]].
    destruct R as [-> | ->]; [done|]. intros u p Hp. apply lookup_delete_Some in Hp as [_ Hp]. by apply (Hh1 u).
  - rewrite (Ht sc []) in En by (rewrite ?app_nil_r; done). injection En as <- <- <-. cbn.
    split; [done|]. split; [by exists []|]. done.
Qed.

(** Normal processes take turns.  With no process of high priority, a process with [k]
    others before it in the normal queue is selected at the latest after [k + 1] turns,
    whatever the slices in between do, as long as they do not end in exceptions. *)
Theorem normal_process_runs (f : nat -> Registry * Scheduler) (l1 l2 : list Term) (id : Term) :
  sched_ok (f 0%nat).1 (f 0%nat).2 -> nobody_high (f 0%nat).1 -> queue_high (f 0%nat).2 = [] ->
  advantage_count (f 0%nat).2 < NORMAL_ADVANTAGE -> queue_normal (f 0%nat).2 = l1 ++ id :: l2 ->
  (forall i, (i <= length l1)%nat -> turn (f i) (f (S i))) ->
  current (f (S (length l1))).2 = Some id.
Proof.
  revert f l2. induction l1 as [|n l1 IH]; intros f l2 S Hh Hq Ha Hn Ht.
  - specialize (Ht 0%nat ltac:(cbn; lia)). destruct (f 0%nat) as [reg sc], (f 1%nat) as [reg' sc'] eqn:E1. cbn [fst snd length] in *.
    rewrite E1. cbn. eapply turn_normal; eauto.
  - pose proof (Ht 0%nat ltac:(cbn; lia)) as T0. destruct (f 0%nat) as [reg sc], (f 1%nat) as [reg' sc'] eqn:E1. cbn [fst snd length app] in *.
    destruct (turn_normal _ _ _ _ _ _ T0 S Hh Hq Ha Hn) as (_ & [l' Hl] & S' & H' & Q' & A').
    apply (IH (fun i => f (Datatypes.S i)) (l2 ++ l')); rewrite ?E1; cbn; try done; [by rewrite Hl, <- app_assoc|].
    intros i Hi. apply Ht. lia.
Qed.

(** ** Low priority starves

    The count that is to let a low process run after eight normal ones goes up only when
    there is nothing to run.  One normal process that always yields keeps every low one from
    running. *)
Lemma low_starves reg sc n : sched_ok reg sc -> current sc = Some n -> queue_high sc = [] -> queue_normal sc = [] ->
  advantage_count sc < NORMAL_ADVANTAGE ->
  (exists p, reg !! n = Some p /\ prio p = PrioNormal /\ timeslice_result p = SliceYield) ->
  exists sc', next_process reg sc = Ret (Some n, sc', reg) /\ current sc' = Some n /\ queue_high sc' = [] /\
    queue_normal sc' = [] /\ queue_low sc' = queue_low sc /\ advantage_count sc' = advantage_count sc.
Proof.
  intros S Ec Hh Hn Ha (p & Hp & Epr & Er). destruct (processes_ok _ _ S n p Hp) as (_ & El & Eq).
  unfold next_process, next_process_finalize_previous, enqueue, enqueue_opt, lookup_pid. rewrite Ec, El. cbn [vm_bind]. rewrite Hp.
  cbn [unwrap vm_bind]. rewrite Er. rewrite bool_decide_eq_true_2 by done. cbn [negb andb vm_bind]. rewrite Epr.
  unfold take_another, next_process_pick_from_the_queues. cbn. rewrite Hh, Hn. cbn. rewrite (proj2 (Z.ltb_lt _ _)) by done.
  eexists. split; [reflexivity|]. done.
Qed.

#[export] Instance Prio_eq_dec : EqDecision Prio.
Proof. solve_decision. Defined.

Module SchedWitness.
Definition atoms0 : AtomStorage := init_storage.
Definition label (p : Z) : Term := from_raw (2 ^ 63 + p + 3).

(** A receiver that waits at 800; a sender at 1600 that sends and then loops. *)
Definition code (p : Z) : option VInstr :=
  if p =? 800 then Some (Plain (IWait (label 800)))
  else if p =? 1600 then Some Send
  else if p =? 1608 then Some (Plain (IJump (label 1608))) else None.

Definition receiver : Term := make_local_pid 0.
Definition sender : Term := make_local_pid 1.

Definition started : VM :=
  match (do! (_, v) := create_process new_vm (Ret 800) [] PrioNormal 0 4096 [] in
         do! (_, v) := create_process v (Ret 1600) [receiver; small_1] PrioNormal 0 (2 ^ 24) [] in Ret v) with
  | Ret v => v
  | _ => new_vm
  end.

Definition after_turns (n : nat) : VM :=
  Nat.iter n (fun v => match dispatch atoms0 10 code 200 v with Ret (_, v) => v | _ => new_vm end) started.

Lemma started_reached : vm_reaches atoms0 10 code new_vm started.
Proof.
  destruct (create_process new_vm (Ret 800) [] PrioNormal 0 4096 []) as [[i1 v1]| | | |] eqn:E1; try by vm_compute in E1.
  eapply (reach_create _ _ _ _ v1 (Ret 1600) [receiver; small_1] PrioNormal 0 (2 ^ 24) [] sender).
  - eapply (reach_create _ _ _ _ new_vm (Ret 800) [] PrioNormal 0 4096 [] i1); [constructor | cbn; lia | exact E1].
  - vm_compute in E1. injection E1 as <- <-. cbn. lia.
  - vm_compute in E1. injection E1 as <- <-. vm_compute. reflexivity.
Qed.

Lemma turn_reached n : (n < 3)%nat -> exists b, dispatch atoms0 10 code 200 (after_turns n) = Ret (b, after_turns (S n)).
Proof. intros H. do 3 (destruct n as [|n]; [eexists; vm_compute; reflexivity|]). lia. Qed.

Lemma turns_reached n : (n <= 3)%nat -> vm_reaches atoms0 10 code new_vm (after_turns n).
Proof.
  induction n as [|n IH]; intros H; [exact started_reached|]. destruct (turn_reached n) as [b E]; [lia|].
  eapply reach_dispatch; [apply IH; lia | exact E].
Qed.

Lemma machine_stays_sound_witness :
  vm_reaches atoms0 10 code new_vm (after_turns 3) /\ current (scheduler (after_turns 3)) = Some sender /\
  sched_ok (processes (after_turns 3)) (scheduler (after_turns 3)).
Proof.
  split; [apply turns_reached; lia|]. split; [by vm_compute|].
  exact (proj1 (machine_stays_sound atoms0 10 code (after_turns 3) (turns_reached 3 ltac:(lia)))).
Defined.

(** The message is there, and the receiver still waits for it. *)
Lemma message_not_seen :
  receiver ∈ infinite_wait (scheduler (after_turns 3)) /\
  (exists p, processes (after_turns 3) !! receiver = Some p /\ inbox (mailbox p) = [small_1]).
Proof.
  split; [apply (bool_decide_unpack _); by vm_compute|]. eexists. split; [vm_compute; reflexivity|]. done.
Qed.

Lemma next_process_sound_witness :
  sched_ok (processes started) (scheduler started) /\
  exists r, next_process (processes started) (scheduler started) = Ret r.
Proof.
  assert (sched_ok (processes started) (scheduler started)) as H by (apply (reaches_ok atoms0 10 code new_vm), started_reached; apply new_vm_ok).
  split; [exact H|]. apply (proj2 (next_process_sound (processes started) (scheduler started) H)). intros id p E. by vm_compute in E.
Defined.

(** A process of one frame: the return address, then a catch. *)
Definition catcher : Process :=
  {| pid := receiver; prio := PrioNormal; current_queue := QNone; context := new_context 8;
     heap := {| data := [0; 0; raw small_1; raw (label 800); 100 * 64 + 8 * 2 + 7; 0]; heap_top := 1; stack_top := 2; capacity := 6 |};
     heap_base := 4096; mailbox := new_mailbox; timeslice_result := SliceException;
     error := Some (ExcError, small_0); num_catches := 1; process_flags := 0 |}.

Lemma exception_reaches_catch_witness :
  exists l p', get_catch_ptr (from_raw (100 * 64 + 8 * 2 + 7)) = Some l /\
    handle_process_exception ∅ new_scheduler receiver catcher = Ret (ContinueSameProcess, new_scheduler, <[receiver := p']> ∅) /\
    ip (context p') = l.
Proof.
  destruct (get_catch_ptr (from_raw (100 * 64 + 8 * 2 + 7))) as [l|] eqn:E.
  - destruct (exception_reaches_catch ∅ new_scheduler receiver catcher ExcError small_0 [raw small_1] [0] (raw (label 800)) (100 * 64 + 8 * 2 + 7) l)
      as (p' & H & Hi & _); [done | done | split_and!; cbn; lia | by vm_compute | done | by repeat constructor | exact E |].
    exists l, p'. done.
  - by vm_compute in E.
Defined.

(** Slices in which nothing happens. *)
Fixpoint rounds (i : nat) : Registry * Scheduler :=
  match i with
  | O => (processes started, scheduler started)
  | S i => match next_process (rounds i).1 (rounds i).2 with Ret (_, sc, reg) => (reg, sc) | _ => rounds i end
  end.

Lemma normal_process_runs_witness :
  queue_normal (rounds 0).2 = [receiver; sender] /\ current (rounds 2).2 = Some sender.
Proof.
  assert (sched_ok (processes started) (scheduler started)) as H by (apply (reaches_ok atoms0 10 code new_vm), started_reached; apply new_vm_ok).
  split; [by vm_compute|]. apply (normal_process_runs rounds [receiver] [] sender H).
  - intros id p Hp. assert (map_Forall (fun _ p => prio p <> PrioHigh) (processes started)) as Hf.
    { apply (bool_decide_unpack _). by vm_compute. }
    by apply (Hf id p).
  - by vm_compute.
  - by vm_compute.
  - by vm_compute.
  - intros i Hi. destruct i as [|[|i]]; [| |cbn in Hi; lia].
    + eapply (turn_intro _ _ (rounds 0).1 (Some receiver)); [apply evolves_refl | intros id p E; by vm_compute in E | by vm_compute].
    + eapply (turn_intro _ _ (rounds 1).1 (Some sender)); [apply evolves_refl | | by vm_compute].
      intros id p E. assert (id = receiver) as -> by (vm_compute in E; injection E as <-; by vm_compute). intros Hp Hx.
      vm_compute in Hp. injection Hp as <-. by vm_compute in Hx.
Defined.
End SchedWitness.
