(* ===== verification/BeamReader.v ===== *)
(** Reading bytes ([rt_util/bin_reader.rs]): the buffer with its position that the loader
    and the decoder of external terms read from, the texts it makes of bytes, and the big
    integers made of bytes ([big.rs], [term/boxed/bignum/]).

    A byte is an integer from 0 to 255; a text is its UTF-8 bytes, as atom names are. *)
From S2P Require Import Prelude BeamTerm BeamMem BeamCompare BeamHeap BeamProc BeamOps.

Definition byte (b : Z) : Prop := 0 <= b < 256.

(** * Texts *)

Definition bytes_str (bs : list Z) : string :=
  String.string_of_list_ascii ((fun b => Ascii.ascii_of_N (Z.to_N b)) <$> bs).

Definition cont (b : Z) : bool := (128 <=? b) && (b <=? 191).
Definition between (lo b hi : Z) : bool := (lo <=? b) && (b <=? hi).

(** [str::from_utf8]: no overlong forms, no surrogates, nothing above U+10FFFF. *)
Fixpoint utf8_valid (bs : list Z) : bool :=
  match bs with
  | [] => true
  | b :: t =>
    if b <=? 127 then utf8_valid t
    else if between 194 b 223 then
      match t with c :: t => cont c && utf8_valid t | _ => false end
    else if between 224 b 239 then
      match t with
      | c :: d :: t =>
        (if b =? 224 then between 160 c 191 else if b =? 237 then between 128 c 159 else cont c) && cont d && utf8_valid t
      | _ => false
      end
    else if between 240 b 244 then
      match t with
      | c :: d :: e :: t =>
        (if b =? 240 then between 144 c 191 else if b =? 244 then between 128 c 143 else cont c) &&
        cont d && cont e && utf8_valid t
      | _ => false
      end
    else false
  end.

(** [c as char] for a byte, in UTF-8. *)
Definition latin1_char (b : Z) : list Z :=
  if b <=? 127 then [b] else [Z.lor 192 (Z.shiftr b 6); Z.lor 128 (Z.land b 63)].

(** * The reader *)

Record BinaryReader := { buf : list Z; pos : Z }.

Definition from_bytes (b : list Z) : BinaryReader := {| buf := b; pos := 0 |}.
Definition buf_len (r : BinaryReader) : Z := Z.of_nat (length (buf r)).
Definition at_pos (r : BinaryReader) (p : Z) : BinaryReader := {| buf := buf r; pos := p |}.

Definition seek (r : BinaryReader) (p : Z) : vm BinaryReader := if p <=? buf_len r then Ret (at_pos r p) else Panic.
Definition reset (r : BinaryReader) : BinaryReader := at_pos r 0.
Definition eof (r : BinaryReader) : bool := buf_len r <=? pos r.

Definition read_u8 (r : BinaryReader) : vm (Z * BinaryReader) :=
  do! b := unwrap (buf r !! Z.to_nat (pos r)) in Ret (b, at_pos r (pos r + 1)).

(** [BigEndian::read_u16] and [read_u32] of a slice. *)
Definition big_endian (bs : list Z) : Z := fold_left (fun n b => n * 256 + b) bs 0.

(** [buf[from..to]], which panics out of range. *)
Definition slice (r : BinaryReader) (from to : Z) : vm (list Z) :=
  if (from <=? to) && (to <=? buf_len r)
  then Ret (take (Z.to_nat (to - from)) (drop (Z.to_nat from) (buf r))) else Panic.

Definition read_u16be (r : BinaryReader) : vm (Z * BinaryReader) :=
  do! bs := slice r (pos r) (pos r + 2) in Ret (big_endian bs, at_pos r (pos r + 2)).
Definition read_u32be (r : BinaryReader) : vm (Z * BinaryReader) :=
  do! bs := slice r (pos r) (pos r + 4) in Ret (big_endian bs, at_pos r (pos r + 4)).

(** The end of a huge [size] wraps around. *)
Definition read_bytes (r : BinaryReader) (size : Z) : vm (list Z * BinaryReader) :=
  let e := wrap64 (pos r + size) in
  if buf_len r <? e then Fail (ReadErr PrematureEOF) else
  do! bs := slice r (pos r) e in
  if Z.of_nat (length bs) =? size then Ret (bs, at_pos r e) else Panic.

Definition read_str_utf8 (r : BinaryReader) (size : Z) : vm (string * BinaryReader) :=
  do! (bs, r) := read_bytes r size in
  if utf8_valid bs then Ret (bytes_str bs, r) else Fail (ReadErr ReadFailed).

Definition read_str_latin1 (r : BinaryReader) (size : Z) : vm (string * BinaryReader) :=
  do! (bs, r) := read_bytes r size in Ret (bytes_str (mjoin (latin1_char <$> bs)), r).

(** [unwrap] on what was read. *)
Definition ensure_bytes (r : BinaryReader) (sample : list Z) : vm BinaryReader :=
  do! (actual, r) := unwrap_result (read_bytes r (Z.of_nat (length sample))) in
  if bool_decide (actual = sample) then Ret r else Fail (ReadErr ReadFailed).

Definition skip (r : BinaryReader) (n : Z) : BinaryReader :=
  at_pos r (Z.min (wrap64 (pos r + n)) (usize_sub (buf_len r) 1)).

(** * Big integers *)

Inductive Endianness := Big | Little.
#[export] Instance Endianness_eq_dec : EqDecision Endianness.
Proof. solve_decision. Defined.
Definition default_endianness : Endianness := Little.

Inductive Sign := Positive | Negative | Zero.

(** The bytes of a number, least significant first. *)
Fixpoint little_endian (bs : list Z) : Z :=
  match bs with [] => 0 | b :: bs => b + 256 * little_endian bs end.

(** The limbs that [n] bytes make, least significant first. *)
Fixpoint limbs_of (n : nat) (bs : list Z) : list Z :=
  match n with O => [] | S n => little_endian (take 8 bs) :: limbs_of n (drop 8 bs) end.

(** The masks take the width of a word in bits for its width in bytes: whole blocks of 64
    bytes are copied first, and what remains is copied to and from the last limb on, which
    is out of bounds unless it is the only one. *)
Definition make_limbs_from_bytes (input_endian : Endianness) (b : list Z) : vm (list Z) :=
  if negb (bool_decide (input_endian = default_endianness)) then Panic else
  let len := Z.of_nat (length b) in
  let dst_size := (len + WORD_BYTES - 1) / WORD_BYTES in
  let remaining := Z.land len (WORD_BITS - 1) in
  if (0 <? remaining) && (0 <? dst_size) && (len <? (dst_size - 1) * WORD_BYTES + remaining) then Wild
  else Ret (limbs_of (Z.to_nat dst_size) b).

(** The struct has its two header words, the size and one limb; all limbs are copied over it. *)
Definition Bignum_storage_size : Z := 4.

Definition bignum_create_into (sign : Sign) (limbs : list Z) (s : Machine) : vm (Z * Machine) :=
  do! (p, s) := alloc_words s Bignum_storage_size in
  if (1 <? length limbs)%nat then Wild
  else Ret (p, put_box s p (OBigInt (match sign with Negative => true | _ => false end) limbs)).

Definition create_le (sign : Sign) (digits : list Z) (s : Machine) : vm (Term * Machine) :=
  do! limbs := make_limbs_from_bytes Little digits in
  do! (p, s) := bignum_create_into sign limbs s in
  do! x := unwrap (make_boxed p) in Ret (x, s).

(** * What reading does

    [reading r bs]: the bytes [bs] are left, in a buffer that fits in memory. *)
Definition reading (r : BinaryReader) (bs : list Z) : Prop :=
  0 <= pos r /\ drop (Z.to_nat (pos r)) (buf r) = bs /\ pos r + Z.of_nat (length bs) = buf_len r /\ buf_len r < 2 ^ 62.

Lemma reading_from_bytes bs : Z.of_nat (length bs) < 2 ^ 62 -> reading (from_bytes bs) bs.
Proof. intros H. unfold reading, buf_len. cbn. split_and!; [lia | done | lia | done]. Qed.

Lemma reading_advance r bs cs : reading r (bs ++ cs) -> reading (at_pos r (pos r + Z.of_nat (length bs))) cs.
Proof.
  intros (H0 & Hd & Hl & Hb). unfold reading, buf_len in *. cbn [at_pos buf pos]. rewrite length_app in Hl.
  split_and!; try lia. replace (Z.to_nat (pos r + Z.of_nat (length bs))) with (Z.to_nat (pos r) + length bs)%nat by lia.
  rewrite <- drop_drop, Hd. by rewrite drop_app_length.
Qed.

Lemma read_u8_ok r b bs : reading r (b :: bs) -> exists r', read_u8 r = Ret (b, r') /\ reading r' bs.
Proof.
  intros H. pose proof (reading_advance r [b] bs H) as H'. destruct H as (H0 & Hd & _ & _).
  unfold read_u8. replace (buf r !! Z.to_nat (pos r)) with (Some b); [by eexists|].
  rewrite <- (Nat.add_0_r (Z.to_nat (pos r))), <- lookup_drop, Hd. done.
Qed.

Lemma read_u8_end r : reading r [] -> read_u8 r = Panic.
Proof.
  intros (H0 & Hd & _ & _). unfold read_u8. rewrite <- (Nat.add_0_r (Z.to_nat (pos r))), <- lookup_drop, Hd. done.
Qed.

Lemma slice_ok r bs cs : reading r (bs ++ cs) -> slice r (pos r) (pos r + Z.of_nat (length bs)) = Ret bs.
Proof.
  intros (H0 & Hd & Hl & _). unfold slice. rewrite length_app in Hl.
  replace (_ && _) with true by (symmetry; apply andb_true_iff; rewrite !Z.leb_le; lia).
  rewrite Hd. replace (Z.to_nat _) with (length bs) by lia. by rewrite take_app_length.
Qed.

Lemma read_u16be_ok r a b bs : reading r (a :: b :: bs) -> exists r', read_u16be r = Ret (a * 256 + b, r') /\ reading r' bs.
Proof.
  intros H. pose proof (slice_ok r [a; b] bs H) as E. unfold read_u16be. rewrite (E : slice r (pos r) (pos r + 2) = _).
  eexists. split; [done|]. exact (reading_advance r [a; b] bs H).
Qed.

Lemma read_u32be_ok r a b c d bs : reading r (a :: b :: c :: d :: bs) ->
  exists r', read_u32be r = Ret (((a * 256 + b) * 256 + c) * 256 + d, r') /\ reading r' bs.
Proof.
  intros H. pose proof (slice_ok r [a; b; c; d] bs H) as E. unfold read_u32be. rewrite (E : slice r (pos r) (pos r + 4) = _).
  eexists. split; [done|]. exact (reading_advance r [a; b; c; d] bs H).
Qed.

Lemma read_bytes_ok r bs cs n : reading r (bs ++ cs) -> n = Z.of_nat (length bs) ->
  exists r', read_bytes r n = Ret (bs, r') /\ reading r' cs.
Proof.
  intros H ->. pose proof (slice_ok r bs cs H) as E. pose proof (reading_advance r bs cs H) as H'.
  destruct H as (H0 & Hd & Hl & Hb). rewrite length_app in Hl. unfold read_bytes.
  rewrite wrap64_small by (unfold is_u64, u64_max; lia). rewrite (proj2 (Z.ltb_ge _ _)), E by lia. cbn [vm_bind].
  rewrite Z.eqb_refl. eauto.
Qed.

Lemma read_bytes_short r bs n : reading r bs -> Z.of_nat (length bs) < n < 2 ^ 63 -> read_bytes r n = Fail (ReadErr PrematureEOF).
Proof.
  intros (H0 & Hd & Hl & Hb) Hn. unfold read_bytes. rewrite wrap64_small by (unfold is_u64, u64_max; lia).
  by rewrite (proj2 (Z.ltb_lt _ _)) by lia.
Qed.

Lemma read_str_utf8_ok r bs cs n : reading r (bs ++ cs) -> n = Z.of_nat (length bs) ->
  exists r', reading r' cs /\
    read_str_utf8 r n = if utf8_valid bs then Ret (bytes_str bs, r') else Fail (ReadErr ReadFailed).
Proof. intros H Hn. destruct (read_bytes_ok r bs cs n H Hn) as (r' & E & H'). exists r'. unfold read_str_utf8. by rewrite E. Qed.

(** ** Bytes of numbers *)

Lemma big_endian_snoc bs b : big_endian (bs ++ [b]) = big_endian bs * 256 + b.
Proof. unfold big_endian. by rewrite fold_left_app. Qed.

Lemma big_endian_range bs : Forall byte bs -> 0 <= big_endian bs < 256 ^ Z.of_nat (length bs).
Proof.
  induction bs as [|b bs IH] using rev_ind; intros H; [cbn; lia|]. apply Forall_app in H as [H Hb].
  apply Forall_inv in Hb. unfold byte in Hb. rewrite big_endian_snoc, length_app. cbn [length].
  rewrite Nat2Z.inj_add, Z.pow_add_r by lia. specialize (IH H). change (256 ^ Z.of_nat 1) with 256. lia.
Qed.

(** The [n] bytes of [v mod 256^n], most significant first. *)
Fixpoint be_bytes (n : nat) (v : Z) : list Z :=
  match n with O => [] | S n => be_bytes n (v / 256) ++ [v mod 256] end.

Lemma be_bytes_length n : forall v, length (be_bytes n v) = n.
Proof. induction n; intros v; cbn; [done|]. rewrite length_app, IHn. cbn. lia. Qed.

Lemma be_bytes_byte n : forall v, Forall byte (be_bytes n v).
Proof.
  induction n; intros v; cbn; [constructor|]. apply Forall_app. split; [done|]. constructor; [|constructor].
  unfold byte. pose proof (Z.mod_pos_bound v 256). lia.
Qed.

Lemma be_bytes_value n : forall v, 0 <= v < 256 ^ Z.of_nat n -> big_endian (be_bytes n v) = v.
Proof.
  induction n as [|n IH]; intros v Hv; [cbn in *; lia|]. cbn [be_bytes]. rewrite big_endian_snoc.
  rewrite Nat2Z.inj_succ, Z.pow_succ_r in Hv by lia. pose proof (Z.div_mod v 256).
  rewrite IH by (split; [apply Z.div_pos | apply Z.div_lt_upper_bound]; lia). lia.
Qed.

(** Each half of a pair of bytes is one. *)
Lemma be16 v : 0 <= v < 2 ^ 16 -> exists a b, be_bytes 2 v = [a; b] /\ a * 256 + b = v.
Proof. intros Hv. eexists _, _. split; [reflexivity|]. exact (be_bytes_value 2 v Hv). Qed.
Lemma be32 v : 0 <= v < 2 ^ 32 -> exists a b c d, be_bytes 4 v = [a; b; c; d] /\ ((a * 256 + b) * 256 + c) * 256 + d = v.
Proof. intros Hv. eexists _, _, _, _. split; [reflexivity|]. exact (be_bytes_value 4 v Hv). Qed.

Lemma read_u16be_bytes r v bs : reading r (be_bytes 2 v ++ bs) -> 0 <= v < 2 ^ 16 ->
  exists r', read_u16be r = Ret (v, r') /\ reading r' bs.
Proof. intros H Hv. destruct (be16 v Hv) as (a & b & E & Ev). rewrite E in H. rewrite <- Ev. by apply read_u16be_ok. Qed.
Lemma read_u32be_bytes r v bs : reading r (be_bytes 4 v ++ bs) -> 0 <= v < 2 ^ 32 ->
  exists r', read_u32be r = Ret (v, r') /\ reading r' bs.
Proof. intros H Hv. destruct (be32 v Hv) as (a & b & c & d & E & Ev). rewrite E in H. rewrite <- Ev. by apply read_u32be_ok. Qed.

(** * Readers keep their bytes *)

Lemma vm_bind_ret {A B} (x : vm A) (k : A -> vm B) y : vm_bind x k = Ret y -> exists a, x = Ret a /\ k a = Ret y.
Proof. destruct x; cbn; intros H; try done. eauto. Qed.

Lemma unwrap_result_ret {A} (x : vm A) y : unwrap_result x = Ret y -> x = Ret y.
Proof. by destruct x. Qed.

Ltac run_readers :=
  repeat match goal with
  | H : vm_bind _ _ = Ret _ |- _ => apply vm_bind_ret in H as (? & ? & H)
  | p : (_ * _)%type |- _ => destruct p
  | H : Ret _ = Ret _ |- _ => injection H as ? ?; subst
  | H : Fail _ = Ret _ |- _ => done
  | H : Panic = Ret _ |- _ => done
  | H : (if ?c then _ else _) = Ret _ |- _ => destruct c
  | H : (let (_, _) := ?p in _) = Ret _ |- _ => destruct p
  | H : unwrap_result _ = Ret _ |- _ => apply unwrap_result_ret in H
  end.

Create HintDb reader.
Ltac same_buf :=
  repeat match goal with
  | |- ?b = ?b => reflexivity
  | E : _ = Ret (_, ?r) |- buf ?r = _ => etransitivity; [solve [eauto 5 with reader nocore]|]; clear E
  end.
Ltac keep_buf := intros; run_readers; try same_buf.

Lemma read_u8_buf r x r' : read_u8 r = Ret (x, r') -> buf r' = buf r.
Proof. unfold read_u8. by keep_buf. Qed.
Lemma read_u32be_buf r x r' : read_u32be r = Ret (x, r') -> buf r' = buf r.
Proof. unfold read_u32be. by keep_buf. Qed.
Lemma read_bytes_buf r n x r' : read_bytes r n = Ret (x, r') -> buf r' = buf r.
Proof. unfold read_bytes. cbn zeta. by keep_buf. Qed.
#[export] Hint Resolve read_u8_buf read_u32be_buf read_bytes_buf : reader.
Lemma read_str_utf8_buf r n x r' : read_str_utf8 r n = Ret (x, r') -> buf r' = buf r.
Proof. unfold read_str_utf8. intros. run_readers. all: try same_buf. Qed.
#[export] Hint Resolve read_str_utf8_buf : reader.
