(* ===== verification/BeamCte.v ===== *)
(** Compact terms ([beam/loader/compact_term.rs]): the encoding of operands in the code of a
    BEAM file.  The low three bits of the first byte are a tag; the value follows in the rest
    of it, in one more byte, or in a number of bytes most significant first.

    The heap for larger terms is that of the [Machine]: the literal heap of the module being
    loaded, of whose owner only the block of words is read. *)
From S2P Require Import Prelude BeamTerm BeamMem BeamCompare BeamHeap BeamProc BeamOps BeamFacts BeamReader.

Definition CteLiteralInt : Z := 0.
Definition CteInteger : Z := 1.
Definition CteAtom : Z := 2.
Definition CteXReg : Z := 3.
Definition CteYReg : Z := 4.
Definition CteLabel : Z := 5.
Definition CteCharacter : Z := 6.
Definition CteExtended : Z := 7.

Definition CteExtList : Z := 23.
Definition CteExtFloatReg : Z := 39.
Definition CteExtAllocList : Z := 55.
Definition CteExtLiteral : Z := 71.
Definition CteExtTypedRegister : Z := 87.

Inductive ListParseMode := AsJumpTable | AsTuple2Initializer.

Definition on_ext_list_create_jumptable (b : bool) : ListParseMode := if b then AsJumpTable else AsTuple2Initializer.

Definition make_err {A} (e : CompactTermError) : vm A := Fail (CodeLoadingCompactTerm e).

(** A reading step: the reader and the heap are passed on. *)
Definition parser (A : Type) : Type := BinaryReader -> Machine -> vm (A * BinaryReader * Machine).

(** [isize] arithmetic; fewer than eight bytes do not overflow it. *)
Definition bytes_to_small (sign : Sign) (long_bytes : list Z) : Term :=
  let n := fold_left (fun n digit => Z.lor (Z.shiftl n 8) digit) long_bytes 0 in
  make_small_signed (match sign with Negative => - n | _ => n end).

(** Given the first byte.  The recursion is on the size of the value, itself a tagged value. *)
Fixpoint read_word (fuel : nat) (b : Z) : parser Term := fun r s =>
  match fuel with
  | O => Spin
  | S fuel =>
    if Z.land b 8 =? 0 then Ret (make_small_signed (Z.shiftr b 4), r, s)
    else if Z.land b 16 =? 0 then
      do! (c, r) := read_u8 r in
      Ret (make_small_signed (Z.lor (Z.shiftl (Z.land b 224) 3) c), r, s)
    else
      do! (n_bytes, r, s) :=
        (let n := Z.shiftr b 5 + 2 in
         if n =? 9 then
           do! (bnext, r) := read_u8 r in
           do! (tmp, r, s) := read_word fuel bnext r s in
           if is_small tmp then Ret (get_small_unsigned tmp + 9, r, s) else Panic
         else Ret (n, r, s)) in
      do! (long_bytes, r) := read_bytes r n_bytes in
      do! b0 := unwrap (head long_bytes) in
      let sign := if Z.land b0 128 =? 128 then Negative else Positive in
      if Z.of_nat (length long_bytes) <? WORD_BYTES then Ret (bytes_to_small sign long_bytes, r, s)
      else
        do! limbs := make_limbs_from_bytes Big long_bytes in
        do! (p, s) := bignum_create_into sign limbs s in
        do! x := unwrap (make_boxed p) in Ret (x, r, s)
  end.

(** The tag of the first byte is asserted; a big integer is unimplemented. *)
Definition read_int (fuel : nat) : parser Z := fun r s =>
  do! (b, r) := read_u8 r in
  if negb (Z.land b 7 =? CteLiteralInt) then Panic else
  do! (val, r, s) := read_word fuel b r s in
  if is_small val then Ret (get_small_signed val, r, s) else Panic.

(** A value of an extended tag that must be small. *)
Definition read_ext_word (fuel : nat) (make : Z -> Term) : parser Term := fun r s =>
  do! (b, r) := read_u8 r in
  do! (reg, r, s) := read_word fuel b r s in
  if is_small reg then Ret (make (get_small_unsigned reg), r, s) else make_err ExtendedTag.

Definition parse_ext_fpreg (fuel : nat) : parser Term := read_ext_word fuel make_register_float.
Definition parse_ext_literal (fuel : nat) : parser Term := read_ext_word fuel make_loadtime_literal.

(** The sum of the amounts of [n] pairs. *)
Fixpoint alloc_pairs (fuel n : nat) (total_words : Z) : parser Z := fun r s =>
  match n with
  | O => Ret (total_words, r, s)
  | S n =>
    do! (_, r, s) := read_int fuel r s in
    do! (amount, r, s) := read_int fuel r s in
    alloc_pairs fuel n (wrap64 (total_words + as_usize amount)) r s
  end.

Definition parse_ext_alloc_list (fuel : nat) : parser Term := fun r s =>
  do! (n_pairs, r, s) := read_int fuel r s in
  do! (total, r, s) := alloc_pairs fuel (Z.to_nat (as_usize n_pairs)) 0 r s in
  Ret (make_small_unsigned total, r, s).

(** [n] terms one after the other. *)
Fixpoint read_terms (rd : parser Term) (n : nat) : parser (list Term) := fun r s =>
  match n with
  | O => Ret ([], r, s)
  | S n => do! (x, r, s) := rd r s in do! (xs, r, s) := read_terms rd n r s in Ret (x :: xs, r, s)
  end.

Fixpoint read_pairs (rd : parser Term) (n : nat) : parser (list (Term * Term)) := fun r s =>
  match n with
  | O => Ret ([], r, s)
  | S n =>
    do! (value, r, s) := rd r s in do! (loc, r, s) := rd r s in
    do! (xs, r, s) := read_pairs rd n r s in Ret ((value, loc) :: xs, r, s)
  end.

Definition JumpTable_storage_size (n_pairs : Z) : Z := 2 + n_pairs * 2.

(** In both lists the words are allocated before the elements are read, and nothing refers
    to them until they are all there. *)
Definition parse_list_as_tuple_initializer (fuel : nat) (rd : parser Term) : parser Term := fun r s =>
  do! (arity, r, s) := read_int fuel r s in
  let arity := as_usize arity in
  if arity =? 0 then Ret (nil, r, s) else
  do! (p, s) := alloc_words s (tuple_storage_size arity) in
  do! (els, r, s) := read_terms rd (Z.to_nat arity) r s in
  do! x := unwrap (make_boxed p) in Ret (x, r, put_box s p (OTuple els)).

Definition parse_list_as_jump_table (fuel : nat) (rd : parser Term) : parser Term := fun r s =>
  do! (n, r, s) := read_int fuel r s in
  let n_pairs := Z.quot (as_usize n) 2 in
  do! (p, s) := alloc_words s (JumpTable_storage_size n_pairs) in
  do! (entries, r, s) := read_pairs rd (Z.to_nat n_pairs) r s in
  do! x := unwrap (make_boxed p) in Ret (x, r, put_box s p (OJumpTable entries)).

(** What the tag makes of the value. *)
Definition of_small (bword : Term) (e : CompactTermError) (make : Z -> Term) : vm Term :=
  if is_small bword then Ret (make (get_small_unsigned bword)) else make_err e.

Definition tagged_value (tag : Z) (bword : Term) : vm Term :=
  if tag =? CteLiteralInt then (if is_small bword then Ret bword else make_err LiteralTag)
  else if tag =? CteAtom then of_small bword AtomTag (fun i => if i =? 0 then nil else make_loadtime_atom i)
  else if tag =? CteXReg then of_small bword XRegTag make_register_x
  else if tag =? CteYReg then of_small bword YRegTag make_register_y
  else if tag =? CteLabel then of_small bword LabelTag make_loadtime_label
  else if tag =? CteInteger then Ret bword
  else if is_small bword then Ret bword else make_err CharacterTag.

Module CompactTermReader.
Section Read.
Context (mode : ListParseMode).

Fixpoint read (fuel : nat) : parser Term := fun r s =>
  match fuel with
  | O => Spin
  | S fuel =>
    do! (b, r) := read_u8 r in
    let tag := Z.land b 7 in
    if tag <? CteExtended then
      do! (bword, r, s) := read_word fuel b r s in
      do! x := tagged_value tag bword in Ret (x, r, s)
    else if b =? CteExtList then
      match mode with
      | AsJumpTable => parse_list_as_jump_table fuel (read fuel) r s
      | AsTuple2Initializer => parse_list_as_tuple_initializer fuel (read fuel) r s
      end
    else if b =? CteExtAllocList then parse_ext_alloc_list fuel r s
    else if b =? CteExtFloatReg then parse_ext_fpreg fuel r s
    else if b =? CteExtLiteral then parse_ext_literal fuel r s
    else if b =? CteExtTypedRegister then
      do! (reg, r, s) := read fuel r s in
      do! (_, r, s) := read fuel r s in Ret (reg, r, s)
    else make_err ExtendedTag
  end.
End Read.
End CompactTermReader.

(** * Bits of a byte *)

Definition byte_bits_ok (b : Z) : bool :=
  (Z.land b 7 =? b mod 8) && Bool.eqb (Z.land b 8 =? 0) ((b / 8) mod 2 =? 0) &&
  Bool.eqb (Z.land b 16 =? 0) ((b / 16) mod 2 =? 0) && (Z.land b 224 =? b / 32 * 32) &&
  Bool.eqb (Z.land b 128 =? 128) (128 <=? b) && (Z.shiftr b 4 =? b / 16) && (Z.shiftr b 5 =? b / 32).

Lemma byte_bits b : byte b ->
  Z.land b 7 = b mod 8 /\ (Z.land b 8 =? 0) = ((b / 8) mod 2 =? 0) /\ (Z.land b 16 =? 0) = ((b / 16) mod 2 =? 0) /\
  Z.land b 224 = b / 32 * 32 /\ (Z.land b 128 =? 128) = (128 <=? b) /\ Z.shiftr b 4 = b / 16 /\ Z.shiftr b 5 = b / 32.
Proof.
  unfold byte. intros Hb.
  assert (forallb (fun n => byte_bits_ok (Z.of_nat n)) (seq 0 256) = true) as H by (vm_compute; reflexivity).
  rewrite forallb_forall in H. specialize (H (Z.to_nat b)). rewrite Z2Nat.id in H by lia.
  specialize (H ltac:(apply in_seq; lia)). unfold byte_bits_ok in H.
  repeat (apply andb_true_iff in H as [H ?]). rewrite ?Z.eqb_eq, ?Bool.eqb_true_iff in *. done.
Qed.

Lemma fold_bytes bs : Forall byte bs -> forall n, 0 <= n ->
  fold_left (fun n digit => Z.lor (Z.shiftl n 8) digit) bs n = fold_left (fun n b => n * 256 + b) bs n.
Proof.
  induction 1 as [|b bs Hb Hbs IH]; intros n Hn; [done|]. cbn [fold_left]. unfold byte in Hb.
  rewrite Z.shiftl_mul_pow2, lor_high_low by lia. apply IH. lia.
Qed.

Lemma bytes_to_small_eq sign bs : Forall byte bs ->
  bytes_to_small sign bs = make_small_signed (match sign with Negative => - big_endian bs | _ => big_endian bs end).
Proof. intros H. unfold bytes_to_small. by rewrite fold_bytes. Qed.

(** * The encoding *)

(** The number of bytes, at least two, that hold [v] with its top bit clear. *)
Definition value_bytes (v : Z) : Z := Z.max 2 ((Z.log2 v + 1) / 8 + 1).

(** What a compiler writes for a value from 0 to [2^55 - 1] under a tag. *)
Definition compact (tag v : Z) : list Z :=
  if v <? 16 then [v * 16 + tag]
  else if v <? 2048 then [v / 256 * 32 + 8 + tag; v mod 256]
  else let n := value_bytes v in ((n - 2) * 32 + 24 + tag) :: be_bytes (Z.to_nat n) v.

(** A negative integer is written in two's complement, in [n] bytes. *)
Definition compact_negative (tag n k : Z) : list Z :=
  ((n - 2) * 32 + 24 + tag) :: be_bytes (Z.to_nat n) (256 ^ n - k).

Lemma value_bytes_fit v : 0 < v < 2 ^ 55 -> 2 <= value_bytes v <= 7 /\ v < 2 ^ (8 * value_bytes v - 1).
Proof.
  intros Hv. unfold value_bytes. pose proof (Z.log2_spec v ltac:(lia)) as [_ Hl].
  assert (Z.log2 v < 55) by (apply Z.log2_lt_pow2; lia). pose proof (Z.log2_nonneg v).
  split; [Z.to_euclidean_division_equations; lia|]. eapply Z.lt_le_trans; [exact Hl|].
  apply Z.pow_le_mono_r; [lia|]. Z.to_euclidean_division_equations. lia.
Qed.

Lemma be_bytes_head n v : (0 < n)%nat -> 0 <= v < 256 ^ Z.of_nat n ->
  exists bs, be_bytes n v = v / 256 ^ (Z.of_nat n - 1) :: bs.
Proof.
  revert v. induction n as [|n IH]; intros v Hn Hv; [lia|]. cbn [be_bytes]. destruct n as [|n].
  - exists []. cbn in *. rewrite Z.mod_small, Z.div_1_r by lia. done.
  - destruct (IH (v / 256)) as [bs E]; [lia| |].
    { rewrite Nat2Z.inj_succ, Z.pow_succ_r in Hv by lia. split; [apply Z.div_pos | apply Z.div_lt_upper_bound]; lia. }
    exists (bs ++ [v mod 256]). rewrite E. cbn [app]. f_equal. rewrite Z.div_div by lia.
    f_equal. replace (Z.of_nat (S (S n)) - 1) with (Z.succ (Z.of_nat (S n) - 1)) by lia. by rewrite Z.pow_succ_r by lia.
Qed.

(** Two to seven bytes after a first byte that announces them. *)
Lemma read_word_bytes fuel tag n v rest r s : 0 <= tag < 8 -> 2 <= n <= 7 -> 0 <= v < 256 ^ n ->
  reading r (be_bytes (Z.to_nat n) v ++ rest) ->
  exists r', reading r' rest /\ read_word (S fuel) ((n - 2) * 32 + 24 + tag) r s =
    Ret (make_small_signed (if 2 ^ (8 * n - 1) <=? v then - v else v), r', s).
Proof.
  intros Ht Hn Hv Hr. assert (byte ((n - 2) * 32 + 24 + tag)) as Hb by (unfold byte; lia).
  destruct (byte_bits _ Hb) as (_ & E8 & E16 & _ & _ & _ & E5). cbn [read_word]. rewrite E8, E16, E5.
  replace (((n - 2) * 32 + 24 + tag) / 32) with (n - 2) by (Z.to_euclidean_division_equations; lia).
  replace (_ mod 2 =? 0) with false by (symmetry; apply Z.eqb_neq; Z.to_euclidean_division_equations; lia).
  replace (_ mod 2 =? 0) with false by (symmetry; apply Z.eqb_neq; Z.to_euclidean_division_equations; lia).
  rewrite (proj2 (Z.eqb_neq _ 9)) by lia. cbn [vm_bind].
  destruct (read_bytes_ok r _ rest (n - 2 + 2) Hr) as (r' & E & Hr'); [rewrite be_bytes_length; lia|].
  exists r'. split; [done|]. rewrite E. cbn [vm_bind].
  destruct (be_bytes_head (Z.to_nat n) v) as [bs Eh]; [lia | by rewrite Z2Nat.id by lia |].
  rewrite (f_equal head Eh). cbn [head unwrap vm_bind]. rewrite be_bytes_length, Z2Nat.id by lia.
  rewrite (proj2 (Z.ltb_lt _ _)) by (unfold WORD_BYTES; lia).
  rewrite bytes_to_small_eq by apply be_bytes_byte. rewrite be_bytes_value by (rewrite Z2Nat.id by lia; lia).
  assert (256 ^ n = 256 * 256 ^ (n - 1)) as Ep by (rewrite <- Z.pow_succ_r by lia; f_equal; lia).
  assert (2 ^ (8 * n - 1) = 128 * 256 ^ (n - 1)) as Eq.
  { replace 256 with (2 ^ 8) by done. rewrite <- Z.pow_mul_r by lia. change 128 with (2 ^ 7). rewrite <- Z.pow_add_r by lia. f_equal. lia. }
  assert (0 < 256 ^ (n - 1)) by (apply Z.pow_pos_nonneg; lia).
  destruct (byte_bits (v / 256 ^ (n - 1))) as (_ & _ & _ & _ & -> & _).
  { split; [apply Z.div_pos; lia | apply Z.div_lt_upper_bound; lia]. }
  replace (128 <=? v / 256 ^ (n - 1)) with (2 ^ (8 * n - 1) <=? v); [by destruct (_ <=? v)|].
  rewrite Eq. apply eq_true_iff_eq. rewrite !Z.leb_le. split; intros H1.
  - apply Z.div_le_lower_bound; lia.
  - pose proof (Z.mul_div_le v (256 ^ (n - 1))). nia.
Qed.

Lemma read_word_compact fuel tag v rest r s : 0 <= tag < 8 -> 0 <= v < 2 ^ 55 -> reading r (tl (compact tag v) ++ rest) ->
  exists b r', head (compact tag v) = Some b /\ byte b /\ b mod 8 = tag /\ reading r' rest /\
    read_word (S fuel) b r s = Ret (make_small_signed v, r', s).
Proof.
  intros Ht Hv. unfold compact. destruct (Z.ltb_spec v 16); [|destruct (Z.ltb_spec v 2048)]; cbn [tl head app]; intros Hr.
  - exists (v * 16 + tag), r. assert (byte (v * 16 + tag)) as Hb by (unfold byte; lia).
    split_and!; [done | done | Z.to_euclidean_division_equations; lia | done |].
    destruct (byte_bits _ Hb) as (_ & E8 & _ & _ & _ & E4 & _). cbn [read_word]. rewrite E8, E4.
    replace (_ mod 2 =? 0) with true by (symmetry; apply Z.eqb_eq; Z.to_euclidean_division_equations; lia).
    do 4 f_equal. Z.to_euclidean_division_equations; lia.
  - destruct (read_u8_ok _ _ _ Hr) as (r' & E & Hr'). set (b := v / 256 * 32 + 8 + tag).
    assert (byte b) as Hb by (unfold b, byte; Z.to_euclidean_division_equations; lia).
    exists b, r'. split_and!; [done | done | unfold b; Z.to_euclidean_division_equations; lia | done |].
    destruct (byte_bits _ Hb) as (_ & E8 & E16 & E224 & _). cbn [read_word]. rewrite E8, E16, E224.
    replace (b / 32) with (v / 256) by (unfold b; Z.to_euclidean_division_equations; lia).
    replace (_ mod 2 =? 0) with false by (symmetry; apply Z.eqb_neq; unfold b; Z.to_euclidean_division_equations; lia).
    replace (_ mod 2 =? 0) with true by (symmetry; apply Z.eqb_eq; unfold b; Z.to_euclidean_division_equations; lia).
    rewrite E. cbn [vm_bind]. do 4 f_equal. rewrite Z.shiftl_mul_pow2 by lia.
    replace (v / 256 * 32 * 2 ^ 3) with (v / 256 * 2 ^ 8) by lia. pose proof (Z.mod_pos_bound v 256).
    rewrite lor_high_low by lia. pose proof (Z.div_mod v 256). lia.
  - destruct (value_bytes_fit v ltac:(lia)) as [Hn Hf]. set (n := value_bytes v) in *.
    assert (2 ^ (8 * n - 1) <= 256 ^ n) by (change 256 with (2 ^ 8); rewrite <- Z.pow_mul_r by lia; apply Z.pow_le_mono_r; lia).
    destruct (read_word_bytes fuel tag n v rest r s Ht Hn ltac:(lia) Hr) as (r' & Hr' & E).
    eexists _, r'. split_and!; [done | unfold byte; lia | Z.to_euclidean_division_equations; lia | done |].
    rewrite E, (proj2 (Z.leb_gt _ _)) by lia. done.
Qed.

(** * Operands *)

(** The operands of instructions that need no heap. *)
Inductive operand :=
| LiteralInt (v : Z) | Integer (v : Z) | Character (v : Z) | Atom (i : Z) | XReg (n : Z) | YReg (n : Z) | Label (l : Z)
| FloatReg (n : Z) | Literal (i : Z) | TypedX (n ty : Z) | TypedY (n ty : Z).

Definition operand_bytes (o : operand) : list Z :=
  match o with
  | LiteralInt v => compact CteLiteralInt v
  | Integer v => compact CteInteger v
  | Character v => compact CteCharacter v
  | Atom i => compact CteAtom i
  | XReg n => compact CteXReg n
  | YReg n => compact CteYReg n
  | Label l => compact CteLabel l
  | FloatReg n => CteExtFloatReg :: compact CteLiteralInt n
  | Literal i => CteExtLiteral :: compact CteLiteralInt i
  | TypedX n ty => CteExtTypedRegister :: compact CteXReg n ++ compact CteLiteralInt ty
  | TypedY n ty => CteExtTypedRegister :: compact CteYReg n ++ compact CteLiteralInt ty
  end.

(** What the loader makes of it; atom 0 is the empty list, and the type of a register is
    dropped. *)
Definition operand_term (o : operand) : Term :=
  match o with
  | LiteralInt v | Integer v | Character v => make_small_signed v
  | Atom i => if i =? 0 then nil else make_loadtime_atom i
  | XReg n | TypedX n _ => make_register_x n
  | YReg n | TypedY n _ => make_register_y n
  | Label l => make_loadtime_label l
  | FloatReg n => make_register_float n
  | Literal i => make_loadtime_literal i
  end.

Definition value_ok (v : Z) : Prop := 0 <= v < 2 ^ 55.
Definition operand_ok (o : operand) : Prop :=
  match o with
  | LiteralInt v | Integer v | Character v | Atom v | XReg v | YReg v | Label v | FloatReg v | Literal v => value_ok v
  | TypedX n ty | TypedY n ty => value_ok n /\ value_ok ty
  end.

Lemma small_value v : value_ok v -> is_small (make_small_signed v) = true /\ get_small_unsigned (make_small_signed v) = v /\
  get_small_signed (make_small_signed v) = v.
Proof.
  unfold value_ok. intros Hv. destruct (small_reads v ltac:(lia)) as (_ & Ht & Es).
  unfold is_small. rewrite Ht. split_and!; [done | | done].
  unfold get_small_unsigned. rewrite untag_eq, signed_small_eq, Z.mod_small, Z.div_mul by lia. done.
Qed.

Lemma tagged_value_small tag v : 0 <= tag < 7 -> value_ok v ->
  tagged_value tag (make_small_signed v) = Ret (operand_term
    (if tag =? CteLiteralInt then LiteralInt v else if tag =? CteAtom then Atom v else if tag =? CteXReg then XReg v
     else if tag =? CteYReg then YReg v else if tag =? CteLabel then Label v
     else if tag =? CteInteger then Integer v else Character v)).
Proof.
  intros Ht Hv. destruct (small_value v Hv) as (E1 & E2 & _). unfold tagged_value, of_small. rewrite E1, E2.
  assert (tag = 0 \/ tag = 1 \/ tag = 2 \/ tag = 3 \/ tag = 4 \/ tag = 5 \/ tag = 6) as Hc by lia.
  by destruct Hc as [-> | [-> | [-> | [-> | [-> | [-> | ->]]]]]].
Qed.

Section Roundtrip.
Context (mode : ListParseMode) (s : Machine).
Notation read := (CompactTermReader.read mode).

(** A value under a plain tag. *)
Lemma read_tagged fuel tag v rest r : 0 <= tag < 7 -> value_ok v -> reading r (compact tag v ++ rest) ->
  exists r', reading r' rest /\
    read (S (S fuel)) r s = do! x := tagged_value tag (make_small_signed v) in Ret (x, r', s).
Proof.
  intros Ht Hv Hr. destruct (compact tag v) as [|b0 bs] eqn:Ec.
  { unfold compact in Ec. repeat case_match; done. }
  destruct (read_u8_ok _ _ _ Hr) as (r1 & E1 & Hr1).
  destruct (read_word_compact fuel tag v rest r1 s ltac:(lia) Hv) as (b & r' & Eh & Hb & Hm & Hr' & E).
  { by rewrite Ec. }
  rewrite Ec in Eh. injection Eh as ->. exists r'. split; [done|]. cbn [CompactTermReader.read]. rewrite E1. cbn [vm_bind].
  destruct (byte_bits b Hb) as (-> & _). rewrite Hm, (proj2 (Z.ltb_lt _ _)), E by (unfold CteExtended; lia). done.
Qed.

(** A value after an extended tag. *)
Lemma read_ext_word_ok fuel make v rest r : value_ok v -> reading r (compact CteLiteralInt v ++ rest) ->
  exists r', reading r' rest /\ read_ext_word (S fuel) make r s = Ret (make v, r', s).
Proof.
  intros Hv Hr. destruct (compact CteLiteralInt v) as [|b0 bs] eqn:Ec.
  { unfold compact in Ec. repeat case_match; done. }
  destruct (read_u8_ok _ _ _ Hr) as (r1 & E1 & Hr1).
  destruct (read_word_compact fuel CteLiteralInt v rest r1 s ltac:(unfold CteLiteralInt; lia) Hv) as (b & r' & Eh & Hb & Hm & Hr' & E).
  { by rewrite Ec. }
  rewrite Ec in Eh. injection Eh as ->. exists r'. split; [done|]. unfold read_ext_word. rewrite E1. cbn [vm_bind]. rewrite E. cbn [vm_bind].
  destruct (small_value v Hv) as (-> & -> & _). done.
Qed.

Lemma read_typed fuel tag n ty rest r : tag = CteXReg \/ tag = CteYReg -> value_ok n -> value_ok ty ->
  reading r (CteExtTypedRegister :: (compact tag n ++ compact CteLiteralInt ty) ++ rest) ->
  exists r', reading r' rest /\
    read (S (S (S fuel))) r s = do! x := tagged_value tag (make_small_signed n) in Ret (x, r', s).
Proof.
  intros Ht Hn Hty Hr. assert (0 <= tag < 7) by (destruct Ht as [-> | ->]; unfold CteXReg, CteYReg; lia).
  destruct (read_u8_ok _ _ _ Hr) as (r1 & E1 & Hr1). rewrite <- app_assoc in Hr1.
  destruct (read_tagged fuel tag n _ r1 ltac:(done) Hn Hr1) as (r2 & Hr2 & E2).
  destruct (read_tagged fuel CteLiteralInt ty _ r2 ltac:(unfold CteLiteralInt; lia) Hty Hr2) as (r3 & Hr3 & E3).
  exists r3. split; [done|]. set (f := S (S fuel)) in *. cbn [CompactTermReader.read]. rewrite E1. cbn [vm_bind].
  change (Z.land CteExtTypedRegister 7 <? CteExtended) with false. cbn [Z.eqb Pos.eqb CteExtTypedRegister CteExtList CteExtAllocList CteExtFloatReg CteExtLiteral].
  rewrite E2. rewrite tagged_value_small by done. cbn [vm_bind]. rewrite E3, tagged_value_small by (done || (unfold CteLiteralInt; lia)).
  done.
Qed.
End Roundtrip.

Lemma read_operand (mode : ListParseMode) (o : operand) (rest : list Z) (r : BinaryReader) (s : Machine) (fuel : nat) :
  operand_ok o -> (3 <= fuel)%nat -> reading r (operand_bytes o ++ rest) ->
  exists r', CompactTermReader.read mode fuel r s = Ret (operand_term o, r', s) /\ reading r' rest.
Proof.
  intros Ho Hf Hr. destruct fuel as [|[|[|fuel]]]; try lia.
  assert (Htag : forall tag v, reading r (compact tag v ++ rest) -> value_ok v -> 0 <= tag < 7 ->
    exists r', CompactTermReader.read mode (S (S (S fuel))) r s = (do! x := tagged_value tag (make_small_signed v) in Ret (x, r', s)) /\ reading r' rest).
  { intros tag v H Hv Ht. destruct (read_tagged mode s (S fuel) tag v rest r Ht Hv H) as (r' & ? & ?). eauto. }
  destruct o as [v|v|v|v|v|v|v|v|v|v ty|v ty]; cbn [operand_ok operand_bytes operand_term] in *;
    try (destruct (Htag _ _ Hr Ho) as (r' & -> & Hr'); [cbv; done|]; exists r'; rewrite tagged_value_small by (done || (cbv; done)); done).
  - cbn [app] in Hr. destruct (read_u8_ok _ _ _ Hr) as (r1 & E1 & Hr1).
    destruct (read_ext_word_ok s (S fuel) make_register_float v rest r1 Ho Hr1) as (r' & Hr' & E). exists r'. split; [|done].
    cbn [CompactTermReader.read]. rewrite E1. exact E.
  - cbn [app] in Hr. destruct (read_u8_ok _ _ _ Hr) as (r1 & E1 & Hr1).
    destruct (read_ext_word_ok s (S fuel) make_loadtime_literal v rest r1 Ho Hr1) as (r' & Hr' & E). exists r'. split; [|done].
    cbn [CompactTermReader.read]. rewrite E1. exact E.
  - destruct Ho as [Hv Hty]. destruct (read_typed mode s fuel CteXReg v ty rest r) as (r' & Hr' & ->); [by left | done..|].
    exists r'. by rewrite tagged_value_small by (done || (cbv; done)).
  - destruct Ho as [Hv Hty]. destruct (read_typed mode s fuel CteYReg v ty rest r) as (r' & Hr' & ->); [by right | done..|].
    exists r'. by rewrite tagged_value_small by (done || (cbv; done)).
Qed.

(** Every operand that a compiler writes with the compact encoding (integers, characters
    and literals from 0 to [2^55 - 1], atoms, registers with and without a type, labels) is
    read back as the load-time term it stands for, and exactly its bytes are consumed. *)
Theorem compact_term_roundtrip (mode : ListParseMode) (o : operand) (rest : list Z) (r : BinaryReader) (s : Machine) (fuel : nat) :
  operand_ok o -> (3 <= fuel)%nat -> reading r (operand_bytes o ++ rest) ->
  exists r', CompactTermReader.read mode fuel r s = Ret (operand_term o, r', s) /\ reading r' rest.
Proof. apply read_operand. Qed.

(** The magnitude of a negative integer is taken from its two's complement bytes: [-k] in [n]
    bytes is read as [k - 256^n]. *)
Theorem negative_integer_misread (mode : ListParseMode) (n k : Z) (rest : list Z) (r : BinaryReader) (s : Machine) (fuel : nat) :
  2 <= n <= 7 -> 0 < k <= 2 ^ (8 * n - 1) -> (2 <= fuel)%nat -> reading r (compact_negative CteInteger n k ++ rest) ->
  exists r', CompactTermReader.read mode fuel r s = Ret (make_small_signed (k - 256 ^ n), r', s) /\ reading r' rest.
Proof.
  intros Hn Hk Hf Hr. destruct fuel as [|[|fuel]]; try lia. unfold compact_negative in Hr. cbn [app] in Hr.
  destruct (read_u8_ok _ _ _ Hr) as (r1 & E1 & Hr1).
  assert (256 ^ n = 2 * 2 ^ (8 * n - 1)) as Ep.
  { change 256 with (2 ^ 8). rewrite <- Z.pow_mul_r, <- Z.pow_succ_r by lia. f_equal. lia. }
  destruct (read_word_bytes fuel CteInteger n (256 ^ n - k) rest r1 s ltac:(cbv; done) Hn ltac:(lia) Hr1) as (r' & Hr' & E).
  exists r'. split; [|done]. cbn [CompactTermReader.read]. rewrite E1. cbn [vm_bind].
  destruct (byte_bits ((n - 2) * 32 + 24 + CteInteger)) as (-> & _); [unfold byte, CteInteger; lia|].
  replace (((n - 2) * 32 + 24 + CteInteger) mod 8) with 1 by (unfold CteInteger; Z.to_euclidean_division_equations; lia). rewrite (proj2 (Z.ltb_lt _ _)) by (cbv; done).
  rewrite E, (proj2 (Z.leb_le _ _)) by lia. cbn [vm_bind].
  replace (k - 256 ^ n) with (- (256 ^ n - k)) by lia. done.
Qed.

(** * Reading ends *)

(** The outcomes that reading has when [bs] is left: a result with [P], [k] bytes or more
    further on, the end of the input, an unknown extended tag, or a panic.  It neither spins
    nor touches memory it does not own, and the errors about tags are never reported. *)
Definition orderly {A} (P : A -> Prop) (bs : list Z) (k : nat) (x : vm (A * BinaryReader * Machine)) : Prop :=
  match x with
  | Ret (a, r, _) => P a /\ exists cs, reading r cs /\ Forall byte cs /\ (length cs + k <= length bs)%nat
  | Fail (ReadErr PrematureEOF) | Fail (CodeLoadingCompactTerm ExtendedTag) | Panic => True
  | _ => False
  end.

Definition any {A} (a : A) : Prop := True.

Lemma orderly_bind {A B} (P : A -> Prop) (Q : B -> Prop) bs i j k x (f : A * BinaryReader * Machine -> vm (B * BinaryReader * Machine)) :
  orderly P bs i x -> (k <= i + j)%nat ->
  (forall a r s cs, P a -> reading r cs -> Forall byte cs -> (length cs + i <= length bs)%nat -> orderly Q cs j (f (a, r, s))) ->
  orderly Q bs k (vm_bind x f).
Proof.
  intros Hx Hk Hf. destruct x as [[[a r] s]|e| | |]; cbn [vm_bind orderly] in *; try done.
  destruct Hx as (Ha & cs & Hr & Hb & Hl). specialize (Hf a r s cs Ha Hr Hb Hl).
  destruct (f (a, r, s)) as [[[b r'] s']|e'| | |]; cbn [orderly] in *; try done.
  destruct Hf as (Hb' & ds & Hr' & Hd & Hl'). split; [done|]. exists ds. split_and!; [done | done | lia].
Qed.

Lemma orderly_ret {A} (P : A -> Prop) bs cs k a r s : P a -> reading r cs -> Forall byte cs -> (length cs + k <= length bs)%nat ->
  orderly P bs k (Ret (a, r, s)).
Proof. intros. cbn. eauto 6. Qed.

Lemma orderly_panic {A B} (P : B -> Prop) bs k (f : A -> vm (B * BinaryReader * Machine)) : orderly P bs k (vm_bind Panic f).
Proof. done. Qed.

(** Reading a byte, then going on with one byte less. *)
Lemma orderly_u8 {B} (Q : B -> Prop) r bs k (f : Z * BinaryReader -> vm (B * BinaryReader * Machine)) :
  reading r bs -> Forall byte bs ->
  (forall b r' cs, bs = b :: cs -> byte b -> reading r' cs -> Forall byte cs -> orderly Q cs (pred k) (f (b, r'))) ->
  orderly Q bs k (vm_bind (read_u8 r) f).
Proof.
  intros Hr Hb Hf. destruct bs as [|b cs]; [by rewrite read_u8_end|]. destruct (read_u8_ok _ _ _ Hr) as (r' & -> & Hr').
  apply Forall_cons in Hb as [Hb Hcs]. cbn [vm_bind]. specialize (Hf b r' cs eq_refl Hb Hr' Hcs).
  destruct (f (b, r')) as [[[a r2] s2]|e| | |]; cbn [orderly] in *; try done.
  destruct Hf as (? & ds & ? & ? & ?). split; [done|]. exists ds. split_and!; [done | done | cbn; lia].
Qed.

Definition small_term (x : Term) : Prop := is_small x = true /\ exists v, x = make_small_signed v.

Lemma small_term_make v : small_term (make_small_signed v).
Proof.
  split; [|eauto]. unfold is_small. rewrite tag_eq, signed_small_eq. apply Z.eqb_eq. by rewrite Z.mod_mul.
Qed.

Lemma small_unsigned_range x : small_term x -> 0 <= get_small_unsigned x < 2 ^ 61.
Proof.
  intros (_ & v & ->). unfold get_small_unsigned. rewrite untag_eq, signed_small_eq, Z.div_mul by done.
  by apply Z.mod_pos_bound.
Qed.

Lemma orderly_bytes {B} (Q : B -> Prop) r bs n k (f : list Z * BinaryReader -> vm (B * BinaryReader * Machine)) :
  reading r bs -> Forall byte bs -> 0 <= n < 2 ^ 62 ->
  (forall ds r' cs, bs = ds ++ cs -> Z.of_nat (length ds) = n -> Forall byte ds -> reading r' cs -> Forall byte cs -> orderly Q cs k (f (ds, r'))) ->
  orderly Q bs k (vm_bind (read_bytes r n) f).
Proof.
  intros Hr Hb Hn Hf. destruct (Z.lt_ge_cases (Z.of_nat (length bs)) n) as [Hl|Hl].
  { by rewrite (read_bytes_short r bs) by (done || lia). }
  rewrite <- (take_drop (Z.to_nat n) bs) in Hr, Hb. apply Forall_app in Hb as [Hb1 Hb2].
  destruct (read_bytes_ok r _ _ n Hr) as (r' & -> & Hr'); [rewrite length_take; lia|]. cbn [vm_bind].
  specialize (Hf _ r' _ (eq_sym (take_drop (Z.to_nat n) bs))). rewrite length_take in Hf.
  specialize (Hf ltac:(lia) Hb1 Hr' Hb2).
  destruct (f _) as [[[a r2] s2]|e| | |]; cbn [orderly] in *; try done.
  destruct Hf as (? & ds & ? & ? & Hl2). split; [done|]. exists ds. rewrite length_drop in Hl2. split_and!; [done | done | lia].
Qed.

Lemma read_word_orderly fuel : forall b r s bs, byte b -> reading r bs -> Forall byte bs -> (length bs < fuel)%nat ->
  orderly small_term bs 0 (read_word fuel b r s).
Proof.
  induction fuel as [|fuel IH]; intros b r s bs Hb Hr Hbs Hf; [lia|]. cbn [read_word].
  case_match; [eapply orderly_ret; eauto using small_term_make; lia|].
  case_match.
  { apply orderly_u8; [done..|]. intros c r' cs -> Hc Hr' Hcs. eapply orderly_ret; eauto using small_term_make; lia. }
  eapply (orderly_bind (fun n => 0 <= n < 2 ^ 62) _ _ 0 0); [| lia |].
  - destruct (byte_bits b Hb) as (_ & _ & _ & _ & _ & _ & ->). unfold byte in Hb. case_match.
    + apply orderly_u8; [done..|]. intros c r' cs -> Hc Hr' Hcs. cbn [length pred] in *.
      eapply (orderly_bind small_term _ _ 0 0); [apply IH; (done || lia) | lia |].
      intros x r2 s2 ds Hx Hr2 Hds Hl. rewrite (proj1 Hx). pose proof (small_unsigned_range x Hx).
      eapply orderly_ret; eauto; lia.
    + eapply orderly_ret; eauto; [|lia]. Z.to_euclidean_division_equations; lia.
  - intros n r2 s2 cs Hn Hr2 Hcs Hl. apply orderly_bytes; [done..|]. intros ds r3 es -> Hlen Hds Hr3 Hes.
    destruct (head ds) as [b0|]; [|done]. cbn [unwrap vm_bind].
    case_match; [eapply orderly_ret; eauto; [|lia]; unfold bytes_to_small; apply small_term_make|].
    done.
Qed.

Section Total.
Context (mode : ListParseMode).
Notation read := (CompactTermReader.read mode).

Lemma read_int_orderly fuel r s bs : reading r bs -> Forall byte bs -> (length bs <= fuel)%nat -> orderly any bs 1 (read_int fuel r s).
Proof.
  intros Hr Hb Hf. apply orderly_u8; [done..|]. intros b r' cs -> Hb' Hr' Hcs. cbn [length pred] in *.
  case_match; [done|]. eapply (orderly_bind small_term _ _ 0 0); [apply read_word_orderly; (done || lia) | lia |].
  intros x r2 s2 ds Hx Hr2 Hds Hl. rewrite (proj1 Hx). eapply orderly_ret; eauto; [done | lia].
Qed.

Lemma read_ext_word_orderly fuel make r s bs : reading r bs -> Forall byte bs -> (length bs <= fuel)%nat ->
  orderly any bs 1 (read_ext_word fuel make r s).
Proof.
  intros Hr Hb Hf. apply orderly_u8; [done..|]. intros b r' cs -> Hb' Hr' Hcs. cbn [length pred] in *.
  eapply (orderly_bind small_term _ _ 0 0); [apply read_word_orderly; (done || lia) | lia |].
  intros x r2 s2 ds Hx Hr2 Hds Hl. rewrite (proj1 Hx). eapply orderly_ret; eauto; [done | lia].
Qed.

Lemma alloc_pairs_orderly fuel n : forall t r s bs, reading r bs -> Forall byte bs -> (length bs <= fuel)%nat ->
  orderly any bs 0 (alloc_pairs fuel n t r s).
Proof.
  induction n as [|n IH]; intros t r s bs Hr Hb Hf; cbn [alloc_pairs]; [eapply orderly_ret; eauto; [done | lia]|].
  eapply (orderly_bind any _ _ 1 0); [by apply read_int_orderly | lia |]. intros _ r1 s1 cs _ Hr1 Hb1 Hl1.
  eapply (orderly_bind any _ _ 1 0); [apply read_int_orderly; (done || lia) | lia |]. intros a r2 s2 ds _ Hr2 Hb2 Hl2.
  apply IH; (done || lia).
Qed.

Lemma read_terms_orderly rd bs0 : (forall r s bs, reading r bs -> Forall byte bs -> (length bs <= bs0)%nat -> orderly any bs 0 (rd r s)) ->
  forall n r s bs, reading r bs -> Forall byte bs -> (length bs <= bs0)%nat -> orderly any bs 0 (read_terms rd n r s).
Proof.
  intros Hrd. induction n as [|n IH]; intros r s bs Hr Hb Hf; cbn [read_terms]; [eapply orderly_ret; eauto; [done | lia]|].
  eapply (orderly_bind any _ _ 0 0); [by apply Hrd | lia |]. intros x r1 s1 cs _ Hr1 Hb1 Hl1.
  eapply (orderly_bind any _ _ 0 0); [apply IH; (done || lia) | lia |]. intros xs r2 s2 ds _ Hr2 Hb2 Hl2.
  eapply orderly_ret; eauto; [done | lia].
Qed.

Lemma read_pairs_orderly rd bs0 : (forall r s bs, reading r bs -> Forall byte bs -> (length bs <= bs0)%nat -> orderly any bs 0 (rd r s)) ->
  forall n r s bs, reading r bs -> Forall byte bs -> (length bs <= bs0)%nat -> orderly any bs 0 (read_pairs rd n r s).
Proof.
  intros Hrd. induction n as [|n IH]; intros r s bs Hr Hb Hf; cbn [read_pairs]; [eapply orderly_ret; eauto; [done | lia]|].
  eapply (orderly_bind any _ _ 0 0); [by apply Hrd | lia |]. intros x r1 s1 cs _ Hr1 Hb1 Hl1.
  eapply (orderly_bind any _ _ 0 0); [apply Hrd; (done || lia) | lia |]. intros y r2 s2 ds _ Hr2 Hb2 Hl2.
  eapply (orderly_bind any _ _ 0 0); [apply IH; (done || lia) | lia |]. intros xs r3 s3 es _ Hr3 Hb3 Hl3.
  eapply orderly_ret; eauto; [done | lia].
Qed.

(** An allocation panics when the heap is full. *)
Lemma orderly_alloc {B} (Q : B -> Prop) bs k s n (f : Z * Machine -> vm (B * BinaryReader * Machine)) :
  (forall p s', orderly Q bs k (f (p, s'))) -> orderly Q bs k (vm_bind (alloc_words s n) f).
Proof. intros Hf. unfold alloc_words, alloc. case_match; [done|]. cbn [vm_bind]. apply Hf. Qed.

Lemma orderly_unwrap {A B} (Q : B -> Prop) bs k (o : option A) (f : A -> vm (B * BinaryReader * Machine)) :
  (forall a, orderly Q bs k (f a)) -> orderly Q bs k (vm_bind (unwrap o) f).
Proof. intros Hf. destruct o; [apply Hf | done]. Qed.

Lemma orderly_weaken {A} (P : A -> Prop) bs i k x : orderly P bs i x -> (k <= i)%nat -> orderly P bs k x.
Proof.
  destruct x as [[[a r] s]|e| | |]; cbn [orderly]; try done. intros (Ha & cs & Hr & Hb & Hl) Hk.
  split; [done|]. exists cs. split_and!; [done | done | lia].
Qed.

Lemma read_orderly fuel : forall r s bs, reading r bs -> Forall byte bs -> (length bs < fuel)%nat -> orderly any bs 1 (read fuel r s).
Proof.
  induction fuel as [|fuel IH]; intros r s bs Hr Hbs Hf; [lia|]. cbn [CompactTermReader.read].
  apply orderly_u8; [done..|]. intros b r1 cs -> Hb Hr1 Hcs. cbn [length pred] in *.
  assert (Hrd : forall r s ds, reading r ds -> Forall byte ds -> (length ds <= pred fuel)%nat -> orderly any ds 0 (read fuel r s)).
  { intros r' s' ds H1 H2 H3. apply (orderly_weaken _ _ 1); [|lia]. apply IH; (done || lia). }
  case_match.
  { eapply (orderly_bind small_term _ _ 0 0); [apply read_word_orderly; (done || lia) | lia |].
    intros x r2 s2 ds (Hx & v & ->) Hr2 Hds Hl. unfold tagged_value, of_small. rewrite Hx.
    repeat case_match; (eapply orderly_ret; eauto; [done | lia]). }
  assert (Hint : forall (f : Z * BinaryReader * Machine -> vm (Term * BinaryReader * Machine)),
    (forall n r s ds, reading r ds -> Forall byte ds -> (length ds < length cs)%nat -> orderly any ds 0 (f (n, r, s))) ->
    orderly any cs 0 (vm_bind (read_int fuel r1 s) f)).
  { intros f Hg. eapply (orderly_bind any _ _ 1 0); [apply read_int_orderly; (done || lia) | lia |].
    intros n r2 s2 ds _ Hr2 Hds Hl. apply Hg; (done || lia). }
  repeat case_match.
  - apply Hint. intros n r2 s2 ds Hr2 Hds Hl. apply orderly_alloc. intros p s3.
    eapply (orderly_bind any _ _ 0 0); [apply (read_pairs_orderly _ (pred fuel) Hrd); (done || lia) | lia |].
    intros xs r3 s4 es _ Hr3 Hes Hl3. apply orderly_unwrap. intros x. eapply orderly_ret; eauto; [done | lia].
  - apply Hint. intros n r2 s2 ds Hr2 Hds Hl. cbv beta iota zeta. case_match; [eapply orderly_ret; eauto; [done | lia]|].
    apply orderly_alloc. intros p s3.
    eapply (orderly_bind any _ _ 0 0); [apply (read_terms_orderly _ (pred fuel) Hrd); (done || lia) | lia |].
    intros xs r3 s4 es _ Hr3 Hes Hl3. apply orderly_unwrap. intros x. eapply orderly_ret; eauto; [done | lia].
  - apply Hint. intros n r2 s2 ds Hr2 Hds Hl.
    eapply (orderly_bind any _ _ 0 0); [apply alloc_pairs_orderly; (done || lia) | lia |].
    intros t r3 s3 es _ Hr3 Hes Hl3. eapply orderly_ret; eauto; [done | lia].
  - apply (orderly_weaken _ _ 1); [apply read_ext_word_orderly; (done || lia) | lia].
  - apply (orderly_weaken _ _ 1); [apply read_ext_word_orderly; (done || lia) | lia].
  - eapply (orderly_bind any _ _ 1 0); [apply IH; (done || lia) | lia |]. intros x r2 s2 ds _ Hr2 Hds Hl.
    eapply (orderly_bind any _ _ 1 0); [apply IH; (done || lia) | lia |]. intros y r3 s3 es _ Hr3 Hes Hl3.
    eapply orderly_ret; eauto; [done | lia].
  - done.
Qed.
End Total.

(** Reading a compact term ends on every input: with fuel for one step per byte left it
    gives a term with fewer bytes left, the end of the input, an unknown extended tag, or a
    panic.  It never reads or writes outside of an object (the big integers whose limbs would
    be are stopped by the assertion on their endianness), and the errors that the tags of
    operands have are never reported. *)
Theorem compact_term_total (mode : ListParseMode) (bs : list Z) (r : BinaryReader) (s : Machine) (fuel : nat) :
  reading r bs -> Forall byte bs -> (length bs < fuel)%nat ->
  match CompactTermReader.read mode fuel r s with
  | Ret (_, r', _) => exists cs, reading r' cs /\ (length cs < length bs)%nat
  | Fail (ReadErr PrematureEOF) | Fail (CodeLoadingCompactTerm ExtendedTag) | Panic => True
  | _ => False
  end.
Proof.
  intros Hr Hb Hf. pose proof (read_orderly mode fuel r s bs Hr Hb Hf) as H.
  destruct (CompactTermReader.read mode fuel r s) as [[[x r'] s']|e| | |]; cbn [orderly] in H; try done.
  destruct H as (_ & cs & Hr' & _ & Hl). exists cs. split; [done | lia].
Qed.

Module CteWitness.
Definition machine : Machine :=
  {| mem := {| boxes := ∅; conses := ∅ |};
     proc := {| pid := make_local_pid 0; prio := PrioNormal; current_queue := QNone; context := new_context 0;
                heap := {| data := replicate 16 0; heap_top := 0; stack_top := 16; capacity := 16 |}; heap_base := 4096;
                mailbox := new_mailbox; timeslice_result := SliceNone; error := None; num_catches := 0; process_flags := 0 |} |}.

(** [{x,3}] with a type, and the label 1000. *)
Lemma compact_term_roundtrip_witness :
  exists r', CompactTermReader.read AsJumpTable 3 (from_bytes (operand_bytes (TypedX 3 20) ++ operand_bytes (Label 1000))) machine =
    Ret (make_register_x 3, r', machine) /\ reading r' (operand_bytes (Label 1000)).
Proof.
  apply (compact_term_roundtrip AsJumpTable (TypedX 3 20) (operand_bytes (Label 1000))).
  - cbn. unfold value_ok. lia.
  - lia.
  - apply reading_from_bytes. vm_compute. done.
Defined.

(** A list of two terms that is cut short. *)
Lemma compact_term_total_witness :
  CompactTermReader.read AsTuple2Initializer 5 (from_bytes [23; 32; 19]) machine = Panic /\
  match CompactTermReader.read AsTuple2Initializer 5 (from_bytes [23; 32; 19]) machine with
  | Ret (_, r', _) => exists cs, reading r' cs /\ (length cs < 3)%nat
  | Fail (ReadErr PrematureEOF) | Fail (CodeLoadingCompactTerm ExtendedTag) | Panic => True
  | _ => False
  end.
Proof.
  split; [vm_compute; reflexivity|].
  apply (compact_term_total AsTuple2Initializer [23; 32; 19]).
  - apply reading_from_bytes. vm_compute. done.
  - repeat constructor; unfold byte; lia.
  - cbn. lia.
Defined.

(** -1 is read as -65535. *)
Lemma negative_integer_misread_witness :
  exists r', CompactTermReader.read AsJumpTable 2 (from_bytes [25; 255; 255]) machine = Ret (make_small_signed (-65535), r', machine) /\
    reading r' [].
Proof.
  apply (negative_integer_misread AsJumpTable 2 1 []); [lia.. |].
  apply reading_from_bytes. vm_compute. done.
Defined.
End CteWitness.
