(* ===== verification/BeamEtf.v ===== *)
(** The external term format ([rt_util/ext_term_format.rs]): the decoding of the literals of a
    module onto its literal heap.

    The heap is that of a [Machine], of whose owner only the block of words is read; atoms are
    interned in the atom table of the virtual machine. *)
From S2P Require Import Prelude BeamTerm BeamMem BeamCompare BeamMap BeamHeap BeamProc BeamOps BeamFacts BeamCopy BeamReader.

(** What decoding works on: the bytes, the atom table and the heap. *)
Record Decoder := { source_bytes : BinaryReader; atom_table : AtomStorage; lit_heap : Machine }.

Module Tag.
Definition ExtTermFormatPrefix : Z := 131.
Definition SmallInteger : Z := 97.
Definition Integer : Z := 98.
Definition AtomDeprecated : Z := 100.
Definition SmallTuple : Z := 104.
Definition LargeTuple : Z := 105.
Definition Nil : Z := 106.
Definition String : Z := 107.
Definition List : Z := 108.
Definition Binary : Z := 109.
Definition SmallBig : Z := 110.
Definition LargeBig : Z := 111.
Definition Map : Z := 116.
Definition AtomUtf8 : Z := 118.
Definition SmallAtomUtf8 : Z := 119.
End Tag.

Definition at_reader (d : Decoder) (r : BinaryReader) : Decoder :=
  {| source_bytes := r; atom_table := atom_table d; lit_heap := lit_heap d |}.

Definition reads {A} (f : BinaryReader -> vm (A * BinaryReader)) (d : Decoder) : vm (A * Decoder) :=
  do! (a, r) := f (source_bytes d) in Ret (a, at_reader d r).
Definition builds {A} (f : Machine -> vm (A * Machine)) (d : Decoder) : vm (A * Decoder) :=
  do! (a, s) := f (lit_heap d) in
  Ret (a, {| source_bytes := source_bytes d; atom_table := atom_table d; lit_heap := s |}).

(** [atom::from_str], which asserts that the text is not too long. *)
Definition intern (text : string) (d : Decoder) : vm (Term * Decoder) :=
  do! (a, tab) := unwrap (from_str (atom_table d) text) in
  Ret (a, {| source_bytes := source_bytes d; atom_table := tab; lit_heap := lit_heap d |}).

(** [map_err] to a decoding error. *)
Definition as_etf_error {A} (x : vm A) : vm A := match x with Fail _ => Fail ETFParseError | x => x end.

(** ** Binaries

    The struct of a binary on the heap takes five words; those of the data follow. *)
Definition ONHEAP_THRESHOLD : Z := 64.
Definition ProcessHeapBinary_words : Z := 5.
Definition words_rounded_up (bits : Z) : Z := (Z.shiftr bits 3 + WORD_BYTES - 1) / WORD_BYTES.
Definition ProcessHeapBinary_storage_size (bits : Z) : Z := ProcessHeapBinary_words + words_rounded_up bits.

Definition create_with_data (data : list Z) (s : Machine) : vm (Term * Machine) :=
  let bits := Z.of_nat (length data) * 8 in
  if bits =? 0 then Fail CreatingZeroSizedBinary
  else if (bits + 7) / 8 <=? ONHEAP_THRESHOLD then
    do! (p, s) := alloc_words s (ProcessHeapBinary_storage_size bits) in
    do! x := unwrap (make_boxed p) in Ret (x, put_box s p (OBinary bits data))
  else Panic.

Definition decode_binary (d : Decoder) : vm (Term * Decoder) :=
  do! (n_bytes, d) := reads read_u32be d in
  if n_bytes =? 0 then Ret (empty_binary, d) else
  do! (data, d) := reads (fun r => read_bytes r n_bytes) d in builds (create_with_data data) d.

Definition decode_big (size : Z) (d : Decoder) : vm (Term * Decoder) :=
  do! (sg, d) := reads read_u8 d in
  do! (digits, d) := reads (fun r => read_bytes r size) d in
  builds (create_le (if sg =? 0 then Positive else Negative) digits) d.

Definition decode_u8 (d : Decoder) : vm (Term * Decoder) :=
  do! (val, d) := reads read_u8 d in Ret (make_small_signed val, d).
Definition decode_s32 (d : Decoder) : vm (Term * Decoder) :=
  do! (val, d) := reads read_u32be d in Ret (make_small_signed (as_i32 val), d).

Definition decode_atom_latin1 (d : Decoder) : vm (Term * Decoder) :=
  do! (sz, d) := reads read_u16be d in
  do! (val, d) := unwrap_result (reads (fun r => read_str_latin1 r sz) d) in intern val d.
Definition decode_atom_utf8 (d : Decoder) : vm (Term * Decoder) :=
  do! (sz, d) := reads read_u16be d in
  do! (val, d) := as_etf_error (reads (fun r => read_str_utf8 r sz) d) in intern val d.
Definition decode_small_atom_utf8 (d : Decoder) : vm (Term * Decoder) :=
  do! (sz, d) := reads read_u8 d in
  do! (val, d) := as_etf_error (reads (fun r => read_str_utf8 r sz) d) in intern val d.

(** The bytes of a string, each appended to the list. *)
Fixpoint string_cells (n : nat) (lb : ListBuilder) (d : Decoder) : vm (Term * Decoder) :=
  match n with
  | O => Ret (make_term lb, d)
  | S n =>
    do! (elem, d) := reads read_u8 d in
    do! (lb, d) := builds (append lb (make_small_signed elem)) d in string_cells n lb d
  end.

Definition decode_string (d : Decoder) : vm (Term * Decoder) :=
  do! (n_elem, d) := reads read_u16be d in
  if n_elem =? 0 then Ret (nil, d) else string_cells (Z.to_nat n_elem) new_builder d.

Section Nested.
Context (dec : Decoder -> vm (Term * Decoder)).

(** The elements of a tuple, whose words are allocated before. *)
Fixpoint decode_elements (n : nat) (d : Decoder) : vm (list Term * Decoder) :=
  match n with
  | O => Ret ([], d)
  | S n => do! (x, d) := dec d in do! (xs, d) := decode_elements n d in Ret (x :: xs, d)
  end.

Definition decode_tuple (size : Z) (d : Decoder) : vm (Term * Decoder) :=
  if size =? 0 then Ret (empty_tuple, d) else
  do! (p, d) := builds (fun s => alloc_words s (tuple_storage_size size)) d in
  do! (els, d) := decode_elements (Z.to_nat size) d in
  do! x := unwrap (make_boxed p) in
  builds (fun s => Ret (x, put_box s p (OTuple els))) d.

(** The elements of a list, and then its tail. *)
Fixpoint decode_cells (n : nat) (lb : ListBuilder) (d : Decoder) : vm (Term * Decoder) :=
  match n with
  | O => do! (tl, d) := dec d in builds (make_term_with_tail lb tl) d
  | S n =>
    do! (another, d) := dec d in
    do! (lb, d) := builds (append lb another) d in decode_cells n lb d
  end.

Definition decode_list (d : Decoder) : vm (Term * Decoder) :=
  do! (n_elem, d) := reads read_u32be d in
  if n_elem =? 0 then Ret (nil, d) else decode_cells (Z.to_nat n_elem) new_builder d.

(** The pairs of a map.  Its allocation does not cover the value of the last pair of a full
    map, nor the struct of a map without pairs. *)
Fixpoint decode_pairs (cmp_fuel n : nat) (this : Map) (d : Decoder) : vm (Map * Decoder) :=
  match n with
  | O => Ret (this, d)
  | S n =>
    do! (key, d) := dec d in
    do! (val, d) := dec d in
    do! this := add (mem (lit_heap d)) (atom_table d) cmp_fuel cmp_fuel this key val in
    if storage_words this <=? value_word (get_count this - 1) then Wild else decode_pairs cmp_fuel n this d
  end.

Definition decode_map (cmp_fuel : nat) (size : Z) (d : Decoder) : vm (Term * Decoder) :=
  do! (p, d) := builds (fun s => alloc_words s (storage_size size)) d in
  if storage_size size <? Map_struct_words then Wild else
  do! (this, d) := decode_pairs cmp_fuel (Z.to_nat size) (new_map size) d in
  do! x := unwrap (make_boxed p) in
  builds (fun s => Ret (x, put_box s p (OMap (get_capacity this) (get_count this) (pairs this)))) d.

Definition decode_tagged (fuel : nat) (term_tag : Z) (d : Decoder) : vm (Term * Decoder) :=
  if term_tag =? Tag.List then decode_list d
  else if term_tag =? Tag.String then decode_string d
  else if term_tag =? Tag.AtomDeprecated then decode_atom_latin1 d
  else if term_tag =? Tag.AtomUtf8 then decode_atom_utf8 d
  else if term_tag =? Tag.SmallAtomUtf8 then decode_small_atom_utf8 d
  else if term_tag =? Tag.SmallInteger then decode_u8 d
  else if term_tag =? Tag.Integer then decode_s32 d
  else if term_tag =? Tag.Nil then Ret (nil, d)
  else if term_tag =? Tag.LargeTuple then do! (size, d) := reads read_u32be d in decode_tuple size d
  else if term_tag =? Tag.SmallTuple then do! (size, d) := reads read_u8 d in decode_tuple size d
  else if term_tag =? Tag.LargeBig then do! (size, d) := reads read_u32be d in decode_big size d
  else if term_tag =? Tag.SmallBig then do! (size, d) := reads read_u8 d in decode_big size d
  else if term_tag =? Tag.Binary then decode_binary d
  else if term_tag =? Tag.Map then do! (size, d) := reads read_u32be d in decode_map fuel size d
  else Fail ETFParseError.
End Nested.

Fixpoint decode_naked (fuel : nat) (d : Decoder) : vm (Term * Decoder) :=
  match fuel with
  | O => Spin
  | S fuel => do! (term_tag, d) := reads read_u8 d in decode_tagged (decode_naked fuel) fuel term_tag d
  end.

Definition decode (fuel : nat) (d : Decoder) : vm (Term * Decoder) :=
  do! (etf_tag, d) := reads read_u8 d in
  if negb (etf_tag =? Tag.ExtTermFormatPrefix) then Fail ETFParseError else decode_naked fuel d.

(** * The format *)

(** The encoding that the documentation of the format gives to a value. *)
Fixpoint etf (v : val) : list Z :=
  match v with
  | VInt n => if between 0 n 255 then [Tag.SmallInteger; n] else Tag.Integer :: be_bytes 4 (n mod 2 ^ 32)
  | VAtom t =>
    let bs := str_bytes t in
    if Z.of_nat (length bs) <? 256 then Tag.SmallAtomUtf8 :: Z.of_nat (length bs) :: bs
    else Tag.AtomUtf8 :: be_bytes 2 (Z.of_nat (length bs)) ++ bs
  | VPid _ => []
  | VTuple l =>
    let n := Z.of_nat (length l) in
    (if n <? 256 then [Tag.SmallTuple; n] else Tag.LargeTuple :: be_bytes 4 n) ++ mjoin (etf <$> l)
  | VList [] => [Tag.Nil]
  | VList l => Tag.List :: be_bytes 4 (Z.of_nat (length l)) ++ mjoin (etf <$> l) ++ [Tag.Nil]
  | VBin _ bytes => Tag.Binary :: be_bytes 4 (Z.of_nat (length bytes)) ++ bytes
  end.

(** The values whose encoding the runtime decodes to a term of the same value: integers of
    32 bits, atoms of at most 65535 bytes, binaries of whole bytes that fit on the heap, and
    tuples and lists of them.  Wider integers become big integers, whatever their value. *)
Fixpoint encodable (v : val) : Prop :=
  match v with
  | VInt n => - 2 ^ 31 <= n < 2 ^ 31
  | VAtom t => utf8_valid (str_bytes t) = true /\ Z.of_nat (length (str_bytes t)) <= 65535
  | VPid _ => False
  | VTuple l | VList l => Z.of_nat (length l) < 2 ^ 32 /\ foldr and True (encodable <$> l)
  | VBin bits bytes => bits = 8 * Z.of_nat (length bytes) /\ Z.of_nat (length bytes) <= ONHEAP_THRESHOLD
  end.

(** The words that its term takes, and the atoms that it names. *)
Fixpoint lit_words (v : val) : Z :=
  match v with
  | VTuple [] => 0
  | VTuple l => tuple_storage_size (Z.of_nat (length l)) + foldr Z.add 0 (lit_words <$> l)
  | VList l => foldr Z.add 0 ((fun x => 2 + lit_words x) <$> l)
  | VBin _ [] => 0
  | VBin _ bytes => ProcessHeapBinary_storage_size (8 * Z.of_nat (length bytes))
  | _ => 0
  end.

Fixpoint natoms (v : val) : Z :=
  match v with
  | VAtom _ => 1
  | VTuple l | VList l => foldr Z.add 0 (natoms <$> l)
  | _ => 0
  end.

Definition sum_of (f : val -> Z) (l : list val) : Z := foldr Z.add 0 (f <$> l).

Lemma sum_of_nonneg f l : (forall v, v ∈ l -> 0 <= f v) -> 0 <= sum_of f l.
Proof.
  unfold sum_of. induction l as [|v l IH]; intros H; cbn; [lia|]. pose proof (H v). specialize (IH (fun u Hu => H u ltac:(set_solver))).
  specialize (H0 ltac:(set_solver)). lia.
Qed.

Lemma storage_of_bytes n : ProcessHeapBinary_storage_size (8 * n) = 5 + (n + 7) / 8.
Proof.
  unfold ProcessHeapBinary_storage_size, ProcessHeapBinary_words, words_rounded_up, WORD_BYTES.
  rewrite Z.shiftr_div_pow2, Z.mul_comm, Z.div_mul by done. f_equal. f_equal. lia.
Qed.

Lemma lit_words_nonneg v : 0 <= lit_words v.
Proof.
  induction v as [n|t|i|l IH|l IH|b xs] using val_ind'; cbn [lit_words]; try lia.
  - rewrite Forall_forall in IH. pose proof (sum_of_nonneg lit_words l IH) as Hs. unfold sum_of in Hs.
    destruct l; [lia|]. unfold tuple_storage_size. lia.
  - apply (sum_of_nonneg (fun x => 2 + lit_words x)). rewrite Forall_forall in IH. intros v Hv. specialize (IH v Hv). lia.
  - destruct xs as [|x xs]; [lia|]. rewrite storage_of_bytes. Z.to_euclidean_division_equations. lia.
Qed.

Lemma natoms_nonneg v : 0 <= natoms v.
Proof.
  induction v as [n|t|i|l IH|l IH|b xs] using val_ind'; cbn [natoms]; try lia.
  all: rewrite Forall_forall in IH; exact (sum_of_nonneg natoms l IH).
Qed.

Lemma lit_words_list v l : lit_words (VList (v :: l)) = lit_words v + (2 + lit_words (VList l)).
Proof. cbn. lia. Qed.

(** * The atom table *)

Definition table_ok (st : AtomStorage) (n : Z) : Prop :=
  atoms_ok st /\ Forall (fun a => new_atom (name a) = Some a) (atoms_by_index st) /\
  Z.of_nat (length (atoms_by_index st)) + n <= 2 ^ 61.

Definition extends (st st' : AtomStorage) : Prop := exists tl, atoms_by_index st' = atoms_by_index st ++ tl.

Lemma extends_refl st : extends st st.
Proof. exists []. by rewrite app_nil_r. Qed.
Lemma extends_trans st1 st2 st3 : extends st1 st2 -> extends st2 st3 -> extends st1 st3.
Proof. intros [t1 E1] [t2 E2]. exists (t1 ++ t2). by rewrite E2, E1, app_assoc. Qed.

Lemma Forall2_rep_extends m st st' vs : Forall (fun v => forall x, rep m st x v -> rep m st' x v) vs ->
  forall els, Forall2 (rep m st) els vs -> Forall2 (rep m st') els vs.
Proof.
  induction vs as [|v vs IH]; intros Hv els H; inversion H; subst; constructor; apply Forall_cons in Hv as [? ?]; auto.
Qed.

Lemma rep_extends m st st' v : extends st st' -> forall x, rep m st x v -> rep m st' x v.
Proof.
  intros [tl E]. induction v as [n|s|i|l IH|l IH|b xs] using val_ind'; intros x H.
  - inversion H; subst. by constructor.
  - inversion H; subst. econstructor; [done | | done]. rewrite E. by apply lookup_app_l_Some.
  - inversion H; subst. by constructor.
  - inversion H; subst; [constructor|]. econstructor; eauto.
    by eapply Forall2_rep_extends.
  - revert x H. induction l as [|v l IHl]; intros x H; inversion H; subst; [constructor|].
    apply Forall_cons in IH as [Hv IH]. econstructor; eauto.
  - inversion H; subst; [constructor|]. econstructor; eauto.
Qed.

Lemma bytes_str_bytes t : bytes_str (str_bytes t) = t.
Proof.
  unfold bytes_str, str_bytes. rewrite <- list_fmap_compose.
  transitivity (String.string_of_list_ascii (String.list_ascii_of_string t)); [|apply String.string_of_list_ascii_of_string].
  f_equal. induction (String.list_ascii_of_string t) as [|c l IH]; cbn; [done|]. rewrite IH. f_equal.
  rewrite N2Z.id. apply Ascii.ascii_N_embedding.
Qed.

Lemma str_bytes_length t : length (str_bytes t) = String.length t.
Proof. unfold str_bytes. rewrite length_fmap. induction t; cbn; auto. Qed.

Lemma intern_ok (d : Decoder) (t : string) :
  table_ok (atom_table d) 1 -> Z.of_nat (length (str_bytes t)) <= 65535 ->
  exists x st, intern t d = Ret (x, {| source_bytes := source_bytes d; atom_table := st; lit_heap := lit_heap d |}) /\
    extends (atom_table d) st /\ (forall n, table_ok (atom_table d) (1 + n) -> table_ok st n) /\ forall m, rep m st x (VAtom t).
Proof.
  intros (Hok & Hwf & Hl) Ht. rewrite str_bytes_length in Ht. unfold intern.
  destruct (from_str (atom_table d) t) as [[x st]|] eqn:E.
  - cbn [unwrap vm_bind]. exists x, st. split; [done|].
    destruct (from_str_spec _ _ _ _ Hok ltac:(lia) E) as (Hok' & i & a & -> & Hi & Hs & Ha & Hn & tl & Htl & Hnew).
    split; [by exists tl|].
    assert (Forall (fun a => new_atom (name a) = Some a) (atoms_by_index st)) as Hwf'.
    { rewrite Htl. apply Forall_app. split; [done|]. destruct Hnew as [-> | [Hnew ->]]; repeat constructor. by rewrite Hn. }
    split.
    + intros n (_ & _ & Hl'). split_and!; [done | done |]. rewrite Htl, length_app.
      destruct Hnew as [-> | [_ ->]]; cbn [length]; lia.
    + intros m. rewrite <- Hn. apply (rep_atom m st i a); [done | done |].
      rewrite Forall_lookup in Hwf'. by eapply Hwf'.
  - exfalso. unfold from_str, register_atom, new_atom in E. repeat case_match; zify_bool; try done; lia.
Qed.

(** * Decoding gives back the value *)

Section Faithful.

Definition ready_heap (s : Machine) (n : Z) : Prop := machine_ok s /\ block_ok s /\ room s n.

Lemma ready_heap_after n1 n2 t s s' : ready_heap s (n1 + n2) -> copied n1 t s s' -> ready_heap s' n2.
Proof. intros (O & B & R) K. split; [apply K|]. split; [by eapply block_copied | by eapply room_copied]. Qed.

Lemma ready_heap_less n1 n2 s : ready_heap s (n1 + n2) -> 0 <= n2 -> ready_heap s n1.
Proof. intros (O & B & R) Hn. split_and!; try done. unfold room in *. lia. Qed.

(** [w] words and [n] names further on. *)
Record grown (w n : Z) (t : option Z) (d d' : Decoder) : Prop := {
  grown_heap : copied w t (lit_heap d) (lit_heap d');
  grown_table : extends (atom_table d) (atom_table d');
  grown_ok : forall k, table_ok (atom_table d) (n + k) -> table_ok (atom_table d') k
}.

Definition ready_for (d : Decoder) (w n : Z) : Prop := ready_heap (lit_heap d) w /\ table_ok (atom_table d) n.

Lemma ready_for_after w1 n1 w2 n2 t d d' : ready_for d (w1 + w2) (n1 + n2) -> grown w1 n1 t d d' -> ready_for d' w2 n2.
Proof. intros [Hh Ht] [K E G]. split; [by eapply ready_heap_after | by apply G]. Qed.

Lemma table_ok_less st n k : table_ok st n -> k <= n -> table_ok st k.
Proof. intros (H1 & H2 & H3) Hk. split_and!; try done. lia. Qed.

Lemma ready_for_less w1 n1 w2 n2 d : ready_for d (w1 + w2) (n1 + n2) -> 0 <= w2 -> 0 <= n2 -> ready_for d w1 n1.
Proof. intros [Hh Ht] Hw Hn. split; [by eapply ready_heap_less | eapply table_ok_less; [done | lia]]. Qed.

(** The value [v] was decoded from [d] on, up to [rest]. *)
Definition decoded (res : vm (Term * Decoder)) (d : Decoder) (rest : list Z) (v : val) : Prop :=
  exists x d', res = Ret (x, d') /\ reading (source_bytes d') rest /\ grown (lit_words v) (natoms v) None d d' /\
    rep (fresh (lit_heap d) (lit_heap d')) (atom_table d') x v.

Definition decodes (dec : Decoder -> vm (Term * Decoder)) (v : val) : Prop :=
  forall d rest, reading (source_bytes d) (etf v ++ rest) -> ready_for d (lit_words v) (natoms v) -> decoded (dec d) d rest v.

(** Where the reader stands does not matter to the rest. *)
Lemma decoded_from res d r rest v : decoded res (at_reader d r) rest v -> decoded res d rest v.
Proof. intros (x & d' & E & Hr & [K Ex G] & Y). exists x, d'. by split_and!. Qed.

Lemma grown_refl d r : machine_ok (lit_heap d) ->
  grown 0 0 None d (at_reader d r).
Proof. intros O. split; cbn; [by apply copied_refl | apply extends_refl | done]. Qed.

Lemma grown_trans w1 n1 t1 w2 n2 t2 d1 d2 d3 : grown w1 n1 t1 d1 d2 -> grown w2 n2 t2 d2 d3 -> 0 <= w1 ->
  (forall p, t2 = Some p -> built (lit_heap d1) p -> t1 = Some p) -> grown (w1 + w2) (n1 + n2) t1 d1 d3.
Proof.
  intros [K1 E1 G1] [K2 E2 G2] Hw Ht. split; [by eapply copied_trans | by eapply extends_trans |].
  intros k Hk. apply G2, G1. by rewrite Z.add_assoc.
Qed.

(** A value decoded earlier stands for the same in the memory and the table of later. *)
Lemma rep_earlier w1 n1 t1 w2 n2 t2 d1 d2 d3 x v : grown w1 n1 t1 d1 d2 -> grown w2 n2 t2 d2 d3 -> 0 <= w1 -> 0 <= w2 ->
  (forall p, t2 = Some p -> built (lit_heap d2) p -> built (lit_heap d1) p) ->
  rep (fresh (lit_heap d1) (lit_heap d2)) (atom_table d2) x v -> rep (fresh (lit_heap d1) (lit_heap d3)) (atom_table d3) x v.
Proof.
  intros [K1 _ _] [K2 E2 _] H1 H2 Ht H. eapply rep_extends; [exact E2|]. eapply rep_mono; [|exact H].
  by eapply fresh_earlier.
Qed.

Lemma rep_later w1 n1 t1 d1 d2 d3 x v : grown w1 n1 t1 d1 d2 -> 0 <= w1 ->
  rep (fresh (lit_heap d2) (lit_heap d3)) (atom_table d3) x v -> rep (fresh (lit_heap d1) (lit_heap d3)) (atom_table d3) x v.
Proof. intros [K1 _ _] H1 H. eapply rep_mono; [|exact H]. by eapply fresh_later. Qed.

Lemma reads_u8 d b bs : reading (source_bytes d) (b :: bs) ->
  exists r', reads read_u8 d = Ret (b, at_reader d r') /\ reading r' bs.
Proof. intros H. destruct (read_u8_ok _ _ _ H) as (r' & E & H'). exists r'. unfold reads. by rewrite E. Qed.

Lemma reads_u32 d v bs : reading (source_bytes d) (be_bytes 4 v ++ bs) -> 0 <= v < 2 ^ 32 ->
  exists r', reads read_u32be d = Ret (v, at_reader d r') /\ reading r' bs.
Proof. intros H Hv. destruct (read_u32be_bytes _ _ _ H Hv) as (r' & E & H'). exists r'. unfold reads. by rewrite E. Qed.

Lemma reads_u16 d v bs : reading (source_bytes d) (be_bytes 2 v ++ bs) -> 0 <= v < 2 ^ 16 ->
  exists r', reads read_u16be d = Ret (v, at_reader d r') /\ reading r' bs.
Proof. intros H Hv. destruct (read_u16be_bytes _ _ _ H Hv) as (r' & E & H'). exists r'. unfold reads. by rewrite E. Qed.

(** ** Tuples *)

Lemma decode_elements_ok dec vs : Forall (decodes dec) vs -> forall d rest,
  reading (source_bytes d) (mjoin (etf <$> vs) ++ rest) -> ready_for d (sum_of lit_words vs) (sum_of natoms vs) ->
  exists ys d', decode_elements dec (length vs) d = Ret (ys, d') /\ reading (source_bytes d') rest /\
    grown (sum_of lit_words vs) (sum_of natoms vs) None d d' /\ Forall2 (rep (fresh (lit_heap d) (lit_heap d')) (atom_table d')) ys vs.
Proof.
  induction vs as [|v vs IH]; intros Hv d rest Hr Rd; cbn [decode_elements length].
  - exists [], d. split_and!; [done | done | | constructor]. destruct d as [r st s]. apply (grown_refl {| source_bytes := r; atom_table := st; lit_heap := s |} r), Rd.
  - apply Forall_cons in Hv as [Hv Hvs]. change (sum_of ?f (v :: vs)) with (f v + sum_of f vs) in *.
    pose proof (lit_words_nonneg v) as Hw. pose proof (sum_of_nonneg lit_words vs (fun u _ => lit_words_nonneg u)) as Hws.
    pose proof (natoms_nonneg v). pose proof (sum_of_nonneg natoms vs (fun u _ => natoms_nonneg u)).
    change (mjoin (etf <$> v :: vs)) with (etf v ++ mjoin (etf <$> vs)) in Hr. rewrite <- app_assoc in Hr.
    destruct (Hv d _ Hr) as (y & d1 & E1 & Hr1 & G1 & Y1); [by eapply ready_for_less|].
    destruct (IH Hvs d1 rest Hr1) as (ys & d2 & E2 & Hr2 & G2 & Y2); [by eapply ready_for_after|].
    exists (y :: ys), d2. rewrite E1. cbn [vm_bind]. rewrite E2. split; [done|]. split; [done|].
    split; [by eapply grown_trans|]. constructor.
    + by eapply rep_earlier.
    + eapply Forall2_impl; [exact Y2|]. intros. by eapply rep_later.
Qed.

(** Allocation at the top of the heap, of words for which there is room. *)
Lemma builds_alloc d w n k : ready_for d (w + k) n -> 0 <= w -> 0 <= k ->
  exists d', builds (fun s => alloc_words s w) d = Ret (next (lit_heap d), d') /\ source_bytes d' = source_bytes d /\
    grown w 0 None d d' /\ mem (lit_heap d') = mem (lit_heap d).
Proof.
  intros ((O & B & R) & T) Hw Hk. destruct (alloc_words_copied (lit_heap d) w O Hw) as (s' & E & K & M); [unfold room in *; lia|].
  unfold builds. rewrite E. cbn [vm_bind]. eexists. split; [reflexivity|]. cbn. split_and!; try done.
  split; cbn; [done | apply extends_refl | done].
Qed.

(** An object put at the words that were allocated first. *)
Lemma put_fresh d d2 w n o : ready_heap (lit_heap d) w -> 0 < w -> grown w n None d d2 -> built (lit_heap d2) (next (lit_heap d)) ->
  exists x, make_boxed (next (lit_heap d)) = Some x /\
  let d3 := {| source_bytes := source_bytes d2; atom_table := atom_table d2; lit_heap := put_box (lit_heap d2) (next (lit_heap d)) o |} in
  grown w n None d d3 /\ 0 <= next (lit_heap d) < 2 ^ 63 /\ next (lit_heap d) mod 8 = 0 /\
  boxes (fresh (lit_heap d) (lit_heap d3)) !! next (lit_heap d) = Some o.
Proof.
  intros (O & B & R) Hw [K E G] Hb2. assert (room (lit_heap d) 0) as R0 by (unfold room in *; lia).
  destruct (next_aligned _ B O R0) as [Ha Ham]. destruct (next_new _ O) as [_ Hnew]. specialize (Hnew R0).
  destruct (boxed_reads (next (lit_heap d))) as (x & Ex & _); [lia | done |]. exists x. split; [done|]. cbv zeta.
  split; [split; [|done|done]|]; [by apply (copied_put _ None (lit_heap d) (lit_heap d2) (next (lit_heap d)) (Some o) None)|].
  split; [lia|]. split; [done|]. apply restrict_box. split; [cbn; by rewrite lookup_insert_eq | done].
Qed.

(** What stood in the words allocated after stays. *)
Lemma rep_put_fresh d d1 d2 w n w2 n2 o x v : ready_heap (lit_heap d) w -> 0 < w -> 0 <= w2 -> grown w n None d d1 -> grown w2 n2 None d1 d2 ->
  built (lit_heap d1) (next (lit_heap d)) -> rep (fresh (lit_heap d1) (lit_heap d2)) (atom_table d2) x v ->
  rep (fresh (lit_heap d) (put_box (lit_heap d2) (next (lit_heap d)) o)) (atom_table d2) x v.
Proof.
  intros (O & B & R) Hw Hw2 [K _ _] [K2 _ _] Hb1. apply rep_mono. split; intros q e Hq.
  - apply restrict_box in Hq as (Hq & Hnq & Hbq). apply restrict_box. cbn.
    rewrite lookup_insert_ne by (intros <-; by apply Hnq). split_and!; [done | | done].
    intros Hs0. apply Hnq. eapply copied_built; [exact K | lia | done].
  - apply restrict_cons in Hq as (Hq & Hnq & Hbq). apply restrict_cons. cbn. split_and!; [done | | done].
    intros Hs0. apply Hnq. eapply copied_built; [exact K | lia | done].
Qed.

Lemma decode_tuple_ok dec l d rest : l <> [] -> Forall (decodes dec) l ->
  reading (source_bytes d) (mjoin (etf <$> l) ++ rest) -> ready_for d (lit_words (VTuple l)) (natoms (VTuple l)) ->
  exists x d', decode_tuple dec (Z.of_nat (length l)) d = Ret (x, d') /\ reading (source_bytes d') rest /\
    grown (lit_words (VTuple l)) (natoms (VTuple l)) None d d' /\ rep (fresh (lit_heap d) (lit_heap d')) (atom_table d') x (VTuple l).
Proof.
  intros Hl Hc Hr Rd. set (w := tuple_storage_size (Z.of_nat (length l))).
  assert (lit_words (VTuple l) = w + sum_of lit_words l) as Hw by (by destruct l).
  change (natoms (VTuple l)) with (0 + sum_of natoms l) in *. rewrite Hw in *.
  pose proof (sum_of_nonneg lit_words l (fun u _ => lit_words_nonneg u)) as Hs.
  assert (0 < w) as Hw0 by (unfold w, tuple_storage_size; lia).
  unfold decode_tuple. rewrite (proj2 (Z.eqb_neq _ 0)) by (destruct l; cbn; [done | lia]). fold w.
  destruct (builds_alloc d w _ _ Rd ltac:(lia) Hs) as (d1 & E1 & Es & G1 & M1). rewrite E1. cbn [vm_bind]. rewrite Nat2Z.id.
  rewrite <- Es in Hr.
  destruct (decode_elements_ok dec l Hc d1 rest Hr) as (ys & d2 & E2 & Hr2 & G2 & Y2); [by eapply ready_for_after|].
  rewrite E2. cbn [vm_bind]. assert (built (lit_heap d1) (next (lit_heap d))) as Hb1.
  { apply (built_grown w None (lit_heap d)); [apply G1 | apply Rd | lia |]. destruct Rd as [(_ & _ & R) _]. unfold room in *. lia. }
  assert (built (lit_heap d2) (next (lit_heap d))) as Hb2 by (exact (copied_built _ _ _ _ _ (grown_heap _ _ _ _ _ G2) Hs Hb1)).
  assert (grown (w + sum_of lit_words l) (0 + sum_of natoms l) None d d2) as G by (eapply grown_trans; [exact G1 | exact G2 | lia | done]).
  destruct (put_fresh d d2 _ _ (OTuple ys) (proj1 Rd) ltac:(lia) G Hb2) as (x & Ex & G3 & Hp & Hm & Hbox).
  rewrite Ex. cbn [unwrap vm_bind]. eexists x, _. split; [reflexivity|]. cbn [source_bytes]. split; [done|]. split; [done|].
  eapply (rep_tuple _ _ (next (lit_heap d)) x ys l); [done | done | done | exact Hbox | | done].
  eapply Forall2_impl; [exact Y2|]. intros y v Hy.
  eapply (rep_put_fresh d d1 d2 w 0 (sum_of lit_words l) (sum_of natoms l)); try done.
  eapply ready_heap_less; [exact (proj1 Rd) | done].
Qed.

(** ** Binaries *)

Lemma decode_binary_ok d bytes rest : Z.of_nat (length bytes) <= ONHEAP_THRESHOLD ->
  let v := VBin (8 * Z.of_nat (length bytes)) bytes in
  reading (source_bytes d) (be_bytes 4 (Z.of_nat (length bytes)) ++ bytes ++ rest) -> ready_for d (lit_words v) 0 ->
  exists x d', decode_binary d = Ret (x, d') /\ reading (source_bytes d') rest /\ grown (lit_words v) 0 None d d' /\
    rep (fresh (lit_heap d) (lit_heap d')) (atom_table d') x v.
Proof.
  intros Hlen v Hr Rd. unfold ONHEAP_THRESHOLD in Hlen. unfold decode_binary. destruct (reads_u32 _ _ _ Hr) as (r1 & E1 & Hr1); [lia|].
  rewrite E1. cbn [vm_bind]. destruct bytes as [|b bs].
  { cbn [length Z.of_nat Z.eqb]. eexists _, _. split; [reflexivity|]. split; [exact Hr1|]. split; [apply grown_refl, Rd | constructor]. }
  set (bytes := b :: bs) in *. set (n := Z.of_nat (length bytes)) in *. assert (0 < n) as Hn by (unfold n, bytes; cbn; lia).
  rewrite (proj2 (Z.eqb_neq n 0)) by lia. destruct (read_bytes_ok r1 bytes rest n Hr1 eq_refl) as (r2 & E2 & Hr2).
  unfold reads at 1. cbn [source_bytes at_reader]. rewrite E2. cbn [vm_bind source_bytes atom_table lit_heap at_reader].
  assert (lit_words v = ProcessHeapBinary_storage_size (n * 8)) as Hw by (rewrite Z.mul_comm; done).
  assert (0 < lit_words v) as Hw0.
  { rewrite Hw, Z.mul_comm, storage_of_bytes. Z.to_euclidean_division_equations. lia. }
  unfold builds, create_with_data, at_reader. fold n. cbn [lit_heap source_bytes atom_table]. rewrite (proj2 (Z.eqb_neq _ 0)), (proj2 (Z.leb_le _ _)) by (unfold ONHEAP_THRESHOLD; Z.to_euclidean_division_equations; lia).
  destruct Rd as [(O & B & R) T]. destruct (alloc_words_copied (lit_heap d) (lit_words v) O ltac:(lia) R) as (s1 & Ea & K1 & M1).
  rewrite <- Hw, Ea. cbn [vm_bind].
  assert (built s1 (next (lit_heap d))) as Hb1 by (eapply built_grown; [exact K1 | done | lia | done]).
  destruct (put_fresh d {| source_bytes := r2; atom_table := atom_table d; lit_heap := s1 |} (lit_words v) 0 (OBinary (n * 8) bytes))
    as (x & Ex & G3 & Hp & Hm & Hbox); [by split_and! | done | | done |].
  { split; cbn; [done | apply extends_refl | done]. }
  rewrite Ex. cbn [unwrap vm_bind source_bytes atom_table]. eexists x, _. split; [reflexivity|]. split; [done|]. split; [exact G3|].
  replace v with (VBin (n * 8) bytes) by (unfold v; by rewrite Z.mul_comm).
  eapply (rep_bin _ _ (next (lit_heap d)) x); [done | done | done | exact Hbox | lia |].
  unfold n. Z.to_euclidean_division_equations. lia.
Qed.

(** ** Lists *)

Lemma grown_weaken w n t d d' : grown w n None d d' -> grown w n t d d'.
Proof. intros [K E G]. split; [by apply copied_weaken | done | done]. Qed.

(** The end of a list: its tail is the empty list. *)
Lemma decode_end_ok dec lb e d rest : decodes dec (VList []) ->
  reading (source_bytes d) (Tag.Nil :: rest) -> ready_for d 0 0 ->
  head_p lb <> 0 -> built (lit_heap d) (tail_p lb) -> conses (mem (lit_heap d)) !! tail_p lb = Some (e, nil) ->
  exists d', decode_cells dec 0 lb d = Ret (make_cons (head_p lb), d') /\ reading (source_bytes d') rest /\
    grown 0 0 (Some (tail_p lb)) d d' /\ conses (mem (lit_heap d')) !! tail_p lb = Some (e, nil).
Proof.
  intros Hnil Hr Rd Hh Ht He. cbn [decode_cells]. destruct (Hnil d rest Hr Rd) as (x & d1 & E1 & Hr1 & G1 & Y1).
  rewrite E1. cbn [vm_bind]. inversion Y1; subst.
  assert (conses (mem (lit_heap d1)) !! tail_p lb = Some (e, nil)) as He1.
  { destruct (copied_terms _ _ _ _ (grown_heap _ _ _ _ _ G1) (tail_p lb) Ht) as [_ ->]; done. }
  unfold builds, make_term_with_tail, set_tl, load_cons. rewrite (proj2 (Z.eqb_neq _ _) Hh), He1. cbn [read vm_bind].
  eexists. split; [reflexivity|]. cbn [source_bytes lit_heap]. split; [done|]. split; [|cbn; by rewrite lookup_insert_eq].
  destruct G1 as [K E G]. split; cbn [lit_heap atom_table]; [|done | done].
  apply (copied_put 0 _ _ (lit_heap d1) (tail_p lb) None (Some (e, nil))); [by apply copied_weaken | done].
Qed.

(** A cell appended after an element. *)
Lemma appended t d1 s2 : copied 2 t (lit_heap d1) s2 ->
  grown 2 0 t d1 {| source_bytes := source_bytes d1; atom_table := atom_table d1; lit_heap := s2 |}.
Proof. intros K. split; cbn; [done | apply extends_refl | done]. Qed.

(** The element, its cell and the rest of the list make the list. *)
Lemma cell_joins v l n1 n3 t d d1 d2 d3 y tl' :
  grown (lit_words v) n1 None d d1 -> grown 2 0 t d1 d2 -> grown (lit_words (VList l)) n3 (Some (next (lit_heap d1))) d2 d3 ->
  (forall q, t = Some q -> built (lit_heap d) q) -> machine_ok (lit_heap d1) -> block_ok (lit_heap d1) -> room (lit_heap d1) 2 ->
  conses (mem (lit_heap d3)) !! next (lit_heap d1) = Some (y, tl') ->
  rep (fresh (lit_heap d) (lit_heap d1)) (atom_table d1) y v -> rep (fresh (lit_heap d2) (lit_heap d3)) (atom_table d3) tl' (VList l) ->
  grown (lit_words (VList (v :: l))) (n1 + n3) t d d3 /\
  rep (fresh (lit_heap d) (lit_heap d3)) (atom_table d3) (make_cons (next (lit_heap d1))) (VList (v :: l)).
Proof.
  intros G1 G2 G3 Ht O1 B1 R1 Hcell Hy Htl. pose proof (lit_words_nonneg v) as Hw. pose proof (lit_words_nonneg (VList l)) as Hwl.
  assert (room (lit_heap d1) 0) as R0 by (unfold room in *; lia).
  destruct (next_aligned _ B1 O1 R0) as [Ha Ham]. destruct (next_new _ O1) as [_ Hnew]. specialize (Hnew R0).
  assert (built (lit_heap d2) (next (lit_heap d1))) as Hc2.
  { eapply built_grown; [apply G2 | done | lia | done]. }
  destruct (cell_is_fresh (atom_table d3) (lit_words v) (lit_words (VList l)) t (lit_heap d) (lit_heap d1) (lit_heap d2) (lit_heap d3) y tl' v l)
    as [K Y]; try done; [apply G1 | apply G2 | apply G3 | |].
  { eapply rep_extends; [|exact Hy]. eapply extends_trans; [apply G2 | apply G3]. }
  split; [|done]. split; [by rewrite lit_words_list | |].
  - eapply extends_trans; [apply G1|]. eapply extends_trans; [apply G2 | apply G3].
  - intros k Hk. apply G3, (grown_ok _ _ _ _ _ G2), (grown_ok _ _ _ _ _ G1). eapply table_ok_less; [exact Hk | lia].
Qed.

(** Once an element has been appended as the cell [tail_p lb], the rest of the list. *)
Lemma decode_rest_ok dec l : decodes dec (VList []) -> Forall (decodes dec) l -> forall lb e d rest,
  reading (source_bytes d) (mjoin (etf <$> l) ++ Tag.Nil :: rest) -> ready_for d (lit_words (VList l)) (natoms (VList l)) ->
  head_p lb <> 0 -> built (lit_heap d) (tail_p lb) -> conses (mem (lit_heap d)) !! tail_p lb = Some (e, nil) ->
  exists d' tl', decode_cells dec (length l) lb d = Ret (make_cons (head_p lb), d') /\ reading (source_bytes d') rest /\
    grown (lit_words (VList l)) (natoms (VList l)) (Some (tail_p lb)) d d' /\
    conses (mem (lit_heap d')) !! tail_p lb = Some (e, tl') /\ rep (fresh (lit_heap d) (lit_heap d')) (atom_table d') tl' (VList l).
Proof.
  intros Hnil. induction l as [|v l IH]; intros Hc lb e d rest Hr Rd Hh Ht He.
  { destruct (decode_end_ok dec lb e d rest) as (d' & E & Hr' & G & C); try done. exists d', nil. split_and!; try done. constructor. }
  apply Forall_cons in Hc as [Hv Hc]. rewrite lit_words_list in Rd. change (natoms (VList (v :: l))) with (natoms v + natoms (VList l)) in *.
  change (mjoin (etf <$> v :: l)) with (etf v ++ mjoin (etf <$> l)) in Hr. rewrite <- app_assoc in Hr.
  pose proof (lit_words_nonneg v) as Hw. pose proof (lit_words_nonneg (VList l)) as Hwl.
  pose proof (natoms_nonneg v). pose proof (natoms_nonneg (VList l)).
  cbn [length decode_cells]. destruct (Hv d _ Hr) as (y & d1 & E1 & Hr1 & G1 & Y1); [eapply ready_for_less; [exact Rd | lia | done]|].
  rewrite E1. cbn [vm_bind]. pose proof (ready_for_after _ _ _ _ _ _ _ Rd G1) as Rd1. pose proof (proj1 Rd1) as (O1 & B1 & R1).
  assert (built (lit_heap d1) (tail_p lb)) as Ht1 by (eapply copied_built; [apply G1 | done | done]).
  destruct (append_more lb y e (lit_heap d1)) as (s2 & E2 & K2 & C2 & N2); [done | unfold room in *; lia | done | done | |].
  { destruct (copied_terms _ _ _ _ (grown_heap _ _ _ _ _ G1) (tail_p lb) Ht) as [_ ->]; done. }
  unfold builds at 1. rewrite E2. cbn [vm_bind]. pose proof (appended _ _ _ K2) as G2. set (d2 := {| lit_heap := s2 |}) in *.
  assert (room (lit_heap d1) 2) as R2 by (unfold room in *; lia).
  assert (~ built (lit_heap d1) (next (lit_heap d1))) as Hnew by (apply next_new; [done | unfold room in *; lia]).
  assert (built (lit_heap d2) (next (lit_heap d1))) as Hc2 by (eapply built_grown; [exact K2 | done | lia | done]).
  destruct (IH Hc {| head_p := head_p lb; tail_p := next (lit_heap d1) |} y d2 rest) as (d3 & tl' & E3 & Hr3 & G3 & C3 & Y3); try done.
  { eapply (ready_for_after 2 0); [|exact G2]. exact Rd1. }
  destruct (cell_joins v l (natoms v) (natoms (VList l)) (Some (tail_p lb)) d d1 d2 d3 y tl') as [G Y]; try done; [by intros q [= <-]|].
  exists d3, (make_cons (next (lit_heap d1))). split_and!; try done.
  destruct (copied_terms _ _ _ _ (grown_heap _ _ _ _ _ G3) (tail_p lb)) as [_ ->]; [by eapply copied_built; [exact K2 | |] | | done].
  intros [= Eq]. apply Hnew. by rewrite <- Eq.
Qed.

Lemma decode_list_ok dec l d rest : l <> [] -> Z.of_nat (length l) < 2 ^ 32 -> decodes dec (VList []) -> Forall (decodes dec) l ->
  reading (source_bytes d) (be_bytes 4 (Z.of_nat (length l)) ++ mjoin (etf <$> l) ++ Tag.Nil :: rest) ->
  ready_for d (lit_words (VList l)) (natoms (VList l)) ->
  exists x d', decode_list dec d = Ret (x, d') /\ reading (source_bytes d') rest /\
    grown (lit_words (VList l)) (natoms (VList l)) None d d' /\ rep (fresh (lit_heap d) (lit_heap d')) (atom_table d') x (VList l).
Proof.
  intros Hne Hlen Hnil Hc Hr Rd. unfold decode_list. destruct (reads_u32 d (Z.of_nat (length l)) _ Hr ltac:(lia)) as (r0 & E0 & Hr0).
  rewrite E0. cbn [vm_bind]. destruct l as [|v l]; [done|]. rewrite (proj2 (Z.eqb_neq _ 0)), Nat2Z.id by (cbn; lia).
  set (d0 := at_reader d r0). assert (grown 0 0 None d d0) as G0 by apply (grown_refl d r0), Rd.
  assert (ready_for d0 (lit_words (VList (v :: l))) (natoms (VList (v :: l)))) as Rd0 by exact Rd.
  apply Forall_cons in Hc as [Hv Hc]. rewrite lit_words_list in Rd0. change (natoms (VList (v :: l))) with (natoms v + natoms (VList l)) in *.
  change (mjoin (etf <$> v :: l)) with (etf v ++ mjoin (etf <$> l)) in Hr0. rewrite <- app_assoc in Hr0.
  pose proof (lit_words_nonneg v) as Hw. pose proof (lit_words_nonneg (VList l)) as Hwl.
  pose proof (natoms_nonneg v). pose proof (natoms_nonneg (VList l)).
  cbn [length decode_cells]. destruct (Hv d0 _ Hr0) as (y & d1 & E1 & Hr1 & G1 & Y1); [eapply ready_for_less; [exact Rd0 | lia | done]|].
  rewrite E1. cbn [vm_bind]. pose proof (ready_for_after _ _ _ _ _ _ _ Rd0 G1) as Rd1. pose proof (proj1 Rd1) as (O1 & B1 & R1).
  destruct (append_first new_builder y (lit_heap d1)) as (s2 & E2 & K2 & C2); [done | unfold room in *; lia | apply B1 | done |].
  unfold builds at 1. rewrite E2. cbn [vm_bind]. pose proof (appended _ _ _ K2) as G2. set (d2 := {| lit_heap := s2 |}) in *.
  assert (room (lit_heap d1) 2) as R2 by (unfold room in *; lia).
  assert (built (lit_heap d2) (next (lit_heap d1))) as Hc2 by (eapply built_grown; [exact K2 | done | lia | done]).
  assert (room (lit_heap d1) 0) as R3 by (unfold room in *; lia). destruct (next_aligned _ B1 O1 R3) as [Ha _].
  destruct (decode_rest_ok dec l Hnil Hc {| head_p := next (lit_heap d1); tail_p := next (lit_heap d1) |} y d2 rest)
    as (d3 & tl' & E3 & Hr3 & G3 & C3 & Y3); try done; [|cbn; lia|].
  { eapply (ready_for_after 2 0); [|exact G2]. exact Rd1. }
  destruct (cell_joins v l (natoms v) (natoms (VList l)) None d0 d1 d2 d3 y tl') as [G Y]; try done.
  exists (make_cons (next (lit_heap d1))), d3. destruct G as [K E Gk]. split_and!; try done.
Qed.

(** ** Every value *)

(** The recursion is as deep as the value. *)
Fixpoint depth (v : val) : nat :=
  match v with
  | VTuple l | VList l => S (S (list_max (depth <$> l)))
  | _ => 1%nat
  end.

Ltac pick_tag := cbv beta iota zeta delta [decode_tagged Z.eqb Pos.eqb Tag.SmallInteger Tag.Integer Tag.AtomDeprecated Tag.SmallTuple
  Tag.LargeTuple Tag.Nil Tag.String Tag.List Tag.AtomUtf8 Tag.SmallAtomUtf8].

Lemma decode_naked_tag fuel d tag bs : reading (source_bytes d) (tag :: bs) ->
  exists r1, reading r1 bs /\ decode_naked (S fuel) d = decode_tagged (decode_naked fuel) fuel tag (at_reader d r1).
Proof. intros Hr. destruct (reads_u8 _ _ _ Hr) as (r1 & E1 & Hr1). exists r1. split; [done|]. cbn [decode_naked]. by rewrite E1. Qed.

Lemma decode_nil_ok fuel : decodes (decode_naked (S fuel)) (VList []).
Proof.
  intros d rest Hr Rd. destruct (decode_naked_tag fuel d _ _ Hr) as (r1 & Hr1 & ->).
  eexists _, _. split; [reflexivity|]. split; [done|]. split; [exact (grown_refl d _ (proj1 (proj1 Rd))) | constructor].
Qed.

Lemma decode_int_ok fuel n : encodable (VInt n) -> decodes (decode_naked (S fuel)) (VInt n).
Proof.
  cbn [encodable]. intros Hn d rest Hr Rd. cbn [etf] in Hr.
  unfold between in Hr. destruct ((0 <=? n) && (n <=? 255)) eqn:Eb.
  - destruct (decode_naked_tag fuel d _ _ Hr) as (r1 & Hr1 & ->). pick_tag. unfold decode_u8.
    destruct (reads_u8 (at_reader d r1) _ _ Hr1) as (r2 & E2 & Hr2).
    rewrite E2. cbn [vm_bind]. eexists _, _. split; [reflexivity|]. split; [done|]. split; [exact (grown_refl d _ (proj1 (proj1 Rd)))|].
    constructor. zify_bool. lia.
  - cbn [app] in Hr. destruct (decode_naked_tag fuel d _ _ Hr) as (r1 & Hr1 & ->). pick_tag. unfold decode_s32. pose proof (Z.mod_pos_bound n (2 ^ 32)).
    destruct (reads_u32 (at_reader d r1) _ _ Hr1) as (r2 & E2 & Hr2); [lia|].
    rewrite E2. cbn [vm_bind]. eexists _, _. split; [reflexivity|]. split; [done|]. split; [exact (grown_refl d _ (proj1 (proj1 Rd)))|].
    replace (as_i32 (n mod 2 ^ 32)) with n; [constructor; lia|].
    unfold as_i32, i32_max. rewrite Z.mod_mod by lia. case_match; zify_bool; Z.to_euclidean_division_equations; lia.
Qed.

Lemma decode_atom_ok fuel t : encodable (VAtom t) -> decodes (decode_naked (S fuel)) (VAtom t).
Proof.
  cbn [encodable]. intros [Hu Hl] d rest Hr Rd. cbn [etf] in Hr.
  assert (Hfin : forall r, reading r (str_bytes t ++ rest) ->
    exists x d', (do! (val, d) := as_etf_error (reads (fun r => read_str_utf8 r (Z.of_nat (length (str_bytes t))))
      (at_reader d r)) in intern val d) = Ret (x, d') /\
    reading (source_bytes d') rest /\ grown 0 1 None d d' /\ rep (fresh (lit_heap d) (lit_heap d')) (atom_table d') x (VAtom t)).
  { intros r Hr'. destruct (read_str_utf8_ok r _ rest _ Hr' eq_refl) as (r' & Hr2 & E). unfold reads. cbn [source_bytes at_reader].
    rewrite E, Hu. cbn [vm_bind as_etf_error]. rewrite bytes_str_bytes. cbn [atom_table lit_heap at_reader].
    destruct (intern_ok (at_reader d r') t) as (x & st & Ei & Ex & Hok & Hrep);
      [apply Rd | done |]. cbn [at_reader source_bytes atom_table lit_heap] in *. change (at_reader (at_reader d r) r') with (at_reader d r'). rewrite Ei. eexists x, _. split; [reflexivity|]. split; [done|]. split; [|apply Hrep].
    split; cbn; [apply copied_refl, Rd | done | done]. }
  case_match; zify_bool.
  - cbn [app] in Hr. destruct (decode_naked_tag fuel d _ _ Hr) as (r1 & Hr1 & ->). pick_tag. unfold decode_small_atom_utf8.
    destruct (reads_u8 (at_reader d r1) _ _ Hr1) as (r2 & E2 & Hr2).
    rewrite E2. cbn [vm_bind]. exact (Hfin r2 Hr2).
  - cbn [app] in Hr. rewrite <- app_assoc in Hr. destruct (decode_naked_tag fuel d _ _ Hr) as (r1 & Hr1 & ->). pick_tag. unfold decode_atom_utf8.
    destruct (reads_u16 (at_reader d r1) _ _ Hr1) as (r2 & E2 & Hr2); [lia|].
    rewrite E2. cbn [vm_bind]. exact (Hfin r2 Hr2).
Qed.

Lemma decode_bin_ok fuel bits bytes : encodable (VBin bits bytes) -> decodes (decode_naked (S fuel)) (VBin bits bytes).
Proof.
  cbn [encodable]. intros [-> Hl] d rest Hr Rd. cbn [etf app] in Hr. destruct (decode_naked_tag fuel d _ _ Hr) as (r1 & Hr1 & ->). rewrite <- app_assoc in Hr1.
  exact (decoded_from _ d r1 _ _ (decode_binary_ok (at_reader d r1) bytes rest Hl Hr1 Rd)).
Qed.

Lemma decode_nonempty_tuple_ok fuel l : l <> [] -> Z.of_nat (length l) < 2 ^ 32 -> Forall (decodes (decode_naked fuel)) l ->
  decodes (decode_naked (S fuel)) (VTuple l).
Proof.
  intros Hne Hl Hc d rest Hr Rd. cbn [etf] in Hr. case_match; zify_bool.
  - cbn [app] in Hr. destruct (decode_naked_tag fuel d _ _ Hr) as (r1 & Hr1 & ->).
    destruct (reads_u8 (at_reader d r1) _ _ Hr1) as (r2 & E2 & Hr2).
    pick_tag. rewrite E2. cbn [vm_bind].
    exact (decoded_from _ d r2 _ _ (decode_tuple_ok _ l (at_reader d r2) rest Hne Hc Hr2 Rd)).
  - cbn [app] in Hr. rewrite <- app_assoc in Hr. destruct (decode_naked_tag fuel d _ _ Hr) as (r1 & Hr1 & ->).
    destruct (reads_u32 (at_reader d r1) _ _ Hr1) as (r2 & E2 & Hr2); [lia|].
    pick_tag. rewrite E2. cbn [vm_bind].
    exact (decoded_from _ d r2 _ _ (decode_tuple_ok _ l (at_reader d r2) rest Hne Hc Hr2 Rd)).
Qed.

Lemma decode_nonempty_list_ok fuel l : l <> [] -> Z.of_nat (length l) < 2 ^ 32 -> decodes (decode_naked fuel) (VList []) ->
  Forall (decodes (decode_naked fuel)) l -> decodes (decode_naked (S fuel)) (VList l).
Proof.
  intros Hne Hl Hnil Hc d rest Hr Rd. assert (etf (VList l) = Tag.List :: be_bytes 4 (Z.of_nat (length l)) ++ mjoin (etf <$> l) ++ [Tag.Nil]) as Ee by (by destruct l).
  rewrite Ee in Hr. cbn [app] in Hr. rewrite <- !app_assoc in Hr. destruct (decode_naked_tag fuel d _ _ Hr) as (r1 & Hr1 & ->).
  exact (decoded_from _ d r1 _ _ (decode_list_ok _ l (at_reader d r1) rest Hne Hl Hnil Hc Hr1 Rd)).
Qed.

Lemma decode_all_ok l fuel : Forall (fun v => forall fuel, encodable v -> (depth v <= fuel)%nat -> decodes (decode_naked fuel) v) l ->
  foldr and True (encodable <$> l) -> (list_max (depth <$> l) <= fuel)%nat -> Forall (decodes (decode_naked fuel)) l.
Proof.
  induction 1 as [|v l Hv H IH]; [constructor|]. intros [Hc Hcs] Hn.
  change (list_max (depth <$> v :: l)) with (Nat.max (depth v) (list_max (depth <$> l))) in Hn.
  constructor; [apply Hv; [done | lia] | apply IH; [done | lia]].
Qed.

Lemma decode_ok v : forall fuel, encodable v -> (depth v <= fuel)%nat -> decodes (decode_naked fuel) v.
Proof.
  induction v as [n|a|i|l IH|l IH|b xs] using val_ind'; intros [|fuel] He Hf; try (cbn in Hf; lia).
  - by apply decode_int_ok.
  - by apply decode_atom_ok.
  - done.
  - destruct He as [Hl He]. destruct (decide (l = [])) as [->|Hne].
    + intros d rest Hr Rd. cbn [etf length fmap list_fmap mjoin app Z.of_nat Z.ltb Z.compare] in Hr.
      destruct (decode_naked_tag fuel d _ _ Hr) as (r1 & Hr1 & ->).
      destruct (reads_u8 (at_reader d r1) _ _ Hr1) as (r2 & E2 & Hr2).
      pick_tag. rewrite E2. cbn [vm_bind]. eexists _, _. split; [reflexivity|]. split; [done|]. split; [exact (grown_refl d _ (proj1 (proj1 Rd))) | constructor].
    + apply decode_nonempty_tuple_ok; [done | done |]. apply decode_all_ok; [done | done |]. cbn [depth] in Hf. lia.
  - destruct He as [Hl He]. destruct (decide (l = [])) as [->|Hne]; [apply decode_nil_ok|].
    destruct fuel as [|fuel]; [cbn in Hf; lia|]. apply decode_nonempty_list_ok; [done | done | apply decode_nil_ok |].
    apply decode_all_ok; [done | done |]. cbn [depth] in Hf. lia.
  - by apply decode_bin_ok.
Qed.
End Faithful.

(** C27: Decoding a literal gives back its value.  From the bytes that the external term format
    gives to a value (32-bit integers, atoms, binaries of at most 64 bytes, and proper lists
    and tuples of them, nested to any depth), with room on the heap, the decoder reads exactly
    those bytes and returns a term that stands for the value in the words allocated for it,
    as many as the value takes; terms and atoms there were are left as they were. *)
Theorem etf_roundtrip (v : val) (d : Decoder) (rest : list Z) (fuel : nat) :
  encodable v -> (depth v <= fuel)%nat -> reading (source_bytes d) (Tag.ExtTermFormatPrefix :: etf v ++ rest) ->
  machine_ok (lit_heap d) -> block_ok (lit_heap d) -> room (lit_heap d) (lit_words v) -> table_ok (atom_table d) (natoms v) ->
  exists x d', decode fuel d = Ret (x, d') /\ reading (source_bytes d') rest /\
    rep (fresh (lit_heap d) (lit_heap d')) (atom_table d') x v /\
    heap_top (hp (lit_heap d')) = heap_top (hp (lit_heap d)) + lit_words v /\ machine_ok (lit_heap d') /\
    same_terms (lit_heap d) (lit_heap d') /\ extends (atom_table d) (atom_table d').
Proof.
  intros He Hf Hr O B R T. destruct (reads_u8 _ _ _ Hr) as (r1 & E1 & Hr1). unfold decode. rewrite E1. cbn [vm_bind].
  rewrite Z.eqb_refl. cbn [negb].
  destruct (decode_ok v fuel He Hf (at_reader d r1) rest Hr1) as (x & d' & E & Hr' & [K Ex _] & Y); [by split_and!|].
  exists x, d'. split_and!; try done; [apply K | apply K |]. intros p Hp. by apply (copied_terms _ _ _ _ K).
Qed.

(** An integer that does not fit in 32 bits comes in the format of big integers, and is made
    one on the heap, of one limb: also where the emulator would hold it in the word. *)
Lemma wide_integer_is_boxed (n : Z) (d : Decoder) (rest : list Z) (fuel : nat) :
  2 ^ 56 <= n < 2 ^ 60 -> reading (source_bytes d) (Tag.SmallBig :: 8 :: 0 :: rev (be_bytes 8 n) ++ rest) ->
  ready_heap (lit_heap d) Bignum_storage_size ->
  exists x d' p limbs, decode_naked (S fuel) d = Ret (x, d') /\ make_boxed p = Some x /\
    boxes (mem (lit_heap d')) !! p = Some (OBigInt false limbs) /\ is_small x = false /\ small_fits n = true.
Proof.
  intros Hn Hr (O & B & R). destruct (decode_naked_tag fuel d _ _ Hr) as (r1 & Hr1 & ->).
  unfold decode_tagged. cbn [Tag.SmallBig Tag.LargeBig Tag.SmallTuple Tag.LargeTuple Tag.Nil Tag.Integer Tag.SmallInteger Tag.List
    Tag.String Tag.AtomDeprecated Tag.AtomUtf8 Tag.SmallAtomUtf8 Z.eqb Pos.eqb].
  destruct (reads_u8 (at_reader d r1) _ _ Hr1) as (r2 & -> & Hr2). cbn [vm_bind]. unfold decode_big.
  destruct (reads_u8 (at_reader (at_reader d r1) r2) _ _ Hr2) as (r3 & -> & Hr3). cbn [vm_bind].
  destruct (read_bytes_ok r3 _ rest 8 Hr3) as (r4 & E4 & Hr4); [by rewrite length_rev, be_bytes_length|].
  unfold reads at 1. cbn [source_bytes at_reader]. rewrite E4. cbn [vm_bind Z.eqb]. unfold builds, create_le, make_limbs_from_bytes.
  rewrite length_rev, be_bytes_length. rewrite bool_decide_eq_true_2 by done. cbn [negb].
  change (Z.of_nat 8) with 8. change (Z.to_nat ((8 + WORD_BYTES - 1) / WORD_BYTES)) with 1%nat.
  change (Z.land 8 (WORD_BITS - 1)) with 8.
  change (0 <? 8) with true. cbn [andb].
  change ((0 <? (8 + WORD_BYTES - 1) / WORD_BYTES) && (8 <? ((8 + WORD_BYTES - 1) / WORD_BYTES - 1) * WORD_BYTES + 8)) with false.
  cbn [limbs_of vm_bind].
  destruct (alloc_words_copied (lit_heap d) Bignum_storage_size O ltac:(cbv; done) R) as (s1 & Ea & K1 & M1).
  unfold bignum_create_into. cbn [lit_heap at_reader]. rewrite Ea. cbn [vm_bind length Nat.ltb Nat.leb].
  assert (room (lit_heap d) 0) as R0 by (unfold room, Bignum_storage_size in *; lia).
  destruct (next_aligned _ B O R0) as [Ha Ham]. destruct (boxed_reads (next (lit_heap d))) as (x & Ex & _ & _ & Et & _); [lia | done |].
  rewrite Ex. cbn [unwrap vm_bind]. eexists x, _, (next (lit_heap d)), _. split; [reflexivity|]. split; [done|].
  split; [cbn; by rewrite lookup_insert_eq|]. split; [unfold is_small; by rewrite Et|].
  apply small_fits_iff. lia.
Qed.

Module EtfWitness.
Definition machine : Machine :=
  {| mem := {| boxes := ∅; conses := ∅ |};
     proc := {| pid := make_local_pid 0; prio := PrioNormal; current_queue := QNone; context := new_context 0;
                heap := {| data := replicate 64 0; heap_top := 0; stack_top := 64; capacity := 64 |}; heap_base := 4096;
                mailbox := new_mailbox; timeslice_result := SliceNone; error := None; num_catches := 0; process_flags := 0 |} |}.
Definition at_bytes (bs : list Z) : Decoder := {| source_bytes := from_bytes bs; atom_table := empty_storage; lit_heap := machine |}.
Definition value : val := VTuple [VAtom "ok"; VList [VInt 1; VInt (-2)]; VBin 16 [7; 8]; VAtom "ok"].

Lemma lit_machine_is_ok : machine_ok machine /\ block_ok machine.
Proof.
  split.
  - split; [|done]. split_and!; cbn; lia.
  - unfold block_ok. cbn. by split_and!.
Qed.

Lemma etf_roundtrip_witness :
  decode 5 (at_bytes (Tag.ExtTermFormatPrefix :: etf value ++ [42])) <> Spin /\
  exists x d', decode 5 (at_bytes (Tag.ExtTermFormatPrefix :: etf value ++ [42])) = Ret (x, d') /\ reading (source_bytes d') [42] /\
    rep (fresh machine (lit_heap d')) (atom_table d') x value /\ heap_top (hp (lit_heap d')) = 0 + lit_words value /\
    machine_ok (lit_heap d') /\ same_terms machine (lit_heap d') /\ extends empty_storage (atom_table d').
Proof.
  split; [vm_compute; discriminate|].
  apply (etf_roundtrip value (at_bytes (Tag.ExtTermFormatPrefix :: etf value ++ [42])) [42] 5).
  - cbn. unfold ONHEAP_THRESHOLD. repeat split; try lia; done.
  - vm_compute. lia.
  - apply reading_from_bytes. vm_compute. done.
  - apply lit_machine_is_ok.
  - apply lit_machine_is_ok.
  - vm_compute. done.
  - split; [exact empty_storage_ok|]. split; [constructor | vm_compute; discriminate].
Defined.

(** A big integer of nine bytes reads and writes past its buffers, and so does a map of one
    pair; the empty map writes past its words. *)
Lemma nine_byte_integer_wild :
  decode_naked 3 (at_bytes ([Tag.SmallBig; 9; 0] ++ replicate 9 1)) = Wild.
Proof. vm_compute. reflexivity. Qed.
Lemma one_pair_map_wild : decode_naked 3 (at_bytes [Tag.Map; 0; 0; 0; 1; 97; 1; 97; 2]) = Wild.
Proof. vm_compute. reflexivity. Qed.
Lemma empty_map_wild : decode_naked 3 (at_bytes [Tag.Map; 0; 0; 0; 0]) = Wild.
Proof. vm_compute. reflexivity. Qed.
End EtfWitness.
