(* ===== verification/BeamBits.v ===== *)
(** Writing bits: the copy of [term/boxed/binary/bits.rs], the pasting of binaries and integers
    of [bits_paste.rs], and the creation of binaries of [term/boxed/binary/mod.rs].

    A buffer is its list of bytes.  An access through an index panics out of range, one through
    a raw pointer is [Wild].  Positions are machine words that wrap. *)
From S2P Require Import Prelude Float64 BeamTerm BeamMem BeamBinary BeamHeap BeamProc BeamOps BeamReader BeamCte BeamEtf.

Definition byte (x : Z) : Z := x mod 256.
Definition byte_shift (n : Z) : Z := Z.land n 7.

(** [dst[i]], [dst[i] = b], and the same through a pointer. *)
Definition in_range (d : list Z) (i : Z) : bool := (0 <=? i) && (i <? Z.of_nat (length d)).
Definition at_index (d : list Z) (i : Z) : vm Z := if in_range d i then unwrap (d !! Z.to_nat i) else Panic.
Definition set_index (d : list Z) (i b : Z) : vm (list Z) :=
  if in_range d i then Ret (<[Z.to_nat i := b]> d) else Panic.
Definition at_ptr (d : list Z) (i : Z) : vm Z := if in_range d i then read (d !! Z.to_nat i) else Wild.
Definition set_ptr (d : list Z) (i b : Z) : vm (list Z) :=
  if in_range d i then Ret (<[Z.to_nat i := b]> d) else Wild.

(** * [bits.rs] *)

Definition make_mask (n : Z) : Z := Z.shiftl 1 n - 1.
Definition mask_bits (src dst mask : Z) : Z := Z.lor (Z.land src mask) (Z.land dst (Z.lxor mask 255)).

(** A byte written under a mask. *)
Definition write_masked (d : list Z) (i b mask : Z) : vm (list Z) :=
  do! old := at_ptr d i in set_ptr d i (mask_bits b old (byte mask)).

Section Copy.
Context (src : list Z) (src_direction dst_direction : Z).

(** Bytes at the same offset. *)
Fixpoint copy_same (count : nat) (sp dp : Z) (d : list Z) : vm (Z * Z * list Z) :=
  match count with
  | O => Ret (sp, dp, d)
  | S count => do! b := at_ptr src sp in do! d := set_ptr d dp b in copy_same count (sp + src_direction) (dp + dst_direction) d
  end.

(** Bytes that are joined from two of the source; [bits] is the one read last. *)
Fixpoint copy_shifted (lshift rshift : Z) (count : nat) (bits sp dp : Z) (d : list Z) : vm (Z * Z * Z * list Z) :=
  match count with
  | O => Ret (bits, sp, dp, d)
  | S count =>
    let bits1 := byte (Z.shiftl bits lshift) in
    do! bits := at_ptr src sp in
    do! d := set_ptr d dp (Z.lor bits1 (Z.shiftr bits rshift)) in
    copy_shifted lshift rshift count bits (sp + src_direction) (dp + dst_direction) d
  end.

(** All within one byte of the destination. *)
Definition copy_within (so doff size sp dp mask : Z) (d : list Z) : vm (list Z) :=
  if so =? doff then do! b := at_ptr src sp in write_masked d dp b mask
  else if doff <? so then
    let diff_bits := last_byte_bits (so - doff) in
    do! b := at_ptr src sp in
    let bits := byte (Z.shiftl b diff_bits) in
    do! bits := (if 8 <? so + size then do! b2 := at_ptr src (sp + src_direction) in Ret (Z.lor bits (Z.shiftr b2 (8 - diff_bits)))
                 else Ret bits) in
    write_masked d dp bits mask
  else
    let diff_bits := last_byte_bits (so - doff) in
    do! b := at_ptr src sp in write_masked d dp (Z.shiftr b diff_bits) mask.

Definition copy_aligned (count sp dp lmask rmask : Z) (d : list Z) : vm (list Z) :=
  do! (sp, dp, d) := (if lmask =? 0 then Ret (sp, dp, d) else
    do! b := at_ptr src sp in do! d := write_masked d dp b lmask in Ret (sp + src_direction, dp + dst_direction, d)) in
  do! (sp, dp, d) := copy_same (Z.to_nat count) sp dp d in
  if rmask =? 0 then Ret d else do! b := at_ptr src sp in write_masked d dp b rmask.

Definition copy_unaligned (so doff size count sp dp lmask rmask : Z) (d : list Z) : vm (list Z) :=
  do! (lshift, rshift, bits, sp) := (if doff <? so then
      let lshift := so - doff in
      do! b := at_ptr src sp in
      Ret (lshift, byte_shift (8 - lshift), b, if 8 <? so + size then sp + src_direction else sp)
    else let rshift := byte_shift (doff - so) in Ret (byte_shift (8 - rshift), rshift, 0, sp)) in
  do! (bits, sp, dp, d) := (if lmask =? 0 then Ret (bits, sp, dp, d) else
    let bits1 := byte (Z.shiftl bits lshift) in
    do! bits := at_ptr src sp in
    do! d := write_masked d dp (Z.lor bits1 (Z.shiftr bits rshift)) lmask in
    Ret (bits, sp + src_direction, dp + dst_direction, d)) in
  do! (bits, sp, dp, d) := copy_shifted lshift rshift (Z.to_nat count) bits sp dp d in
  if rmask =? 0 then Ret d else
  let bits1 := byte (Z.shiftl bits lshift) in
  do! bits1 := (if Z.land (Z.shiftl rmask rshift) 255 =? 0 then Ret bits1
                else do! b := at_ptr src sp in Ret (Z.lor bits1 (Z.shiftr b rshift))) in
  write_masked d dp bits1 rmask.

(** Both pointers move by the bytes of the offset of the source. *)
Definition copy_bits (src_offset dst_offset size : Z) (dst : list Z) : vm (Z * list Z) :=
  if size =? 0 then Ret (size, dst) else
  let sp := bytes_rounded_down src_offset in
  let dp := bytes_rounded_down src_offset in
  let so := last_byte_bits src_offset in
  let doff := last_byte_bits dst_offset in
  let dst_end_bits := last_byte_bits (doff + size) in
  let lmask := if doff =? 0 then 0 else make_mask (8 - doff) in
  let rmask := if dst_end_bits =? 0 then 0 else Z.shiftl (make_mask dst_end_bits) (8 - dst_end_bits) in
  do! d := (if doff + size <? 8 then
      copy_within so doff size sp dp (if Z.land lmask rmask =? 0 then Z.lor lmask rmask else Z.land lmask rmask) dst
    else
      let count := if lmask =? 0 then Z.shiftr size 3 else Z.shiftr (size - (8 - doff)) 3 in
      if so =? doff then copy_aligned count sp dp lmask rmask dst
      else copy_unaligned so doff size count sp dp lmask rmask dst) in
  Ret (size, d).
End Copy.

(** * Pasting integers ([bits_paste.rs]) *)

(** [BsFlags]. *)
Definition ALIGNED : Z := 1.
Definition LITTLE : Z := 2.
Definition SIGNED : Z := 4.
Definition EXACT : Z := 8.
Definition NATIVE : Z := 16.
Definition from_bits_truncate (flags : Z) : Z := Z.land flags 31.
Definition contains (flags flag : Z) : bool := Z.land flags flag =? flag.

(** [n] bytes of [val], the lowest first, from [i] on in the direction [ddir]. *)
Fixpoint copy_val (n : nat) (dst : list Z) (i ddir val : Z) : vm (list Z * Z * Z) :=
  match n with
  | O => Ret (dst, i, val)
  | S n => do! dst := set_index dst i (byte val) in copy_val n dst (wrap64 (i + ddir)) ddir (Z.shiftr val 8)
  end.
Definition copy_and_update_val (dst : list Z) (dst_offset ddir val : Z) : vm (list Z * Z * Z) :=
  if Z.of_nat (length dst) <? dst_offset then Panic
  else copy_val (Z.to_nat (Z.of_nat (length dst) - dst_offset)) dst dst_offset ddir val.

Definition paste_smallint (v size : Z) (dst : list Z) (dst_offset flags : Z) : vm (list Z) :=
  let offs := last_byte_bits size in
  if contains flags LITTLE then
    do! (dst, dst_offset, v) := copy_and_update_val dst dst_offset 1 v in
    set_index dst dst_offset (byte (if offs =? 0 then v else Z.shiftl v (byte_shift (8 - offs))))
  else
    let dst_offset := usize_sub (Z.of_nat (length dst)) 1 in
    do! (dst, dst_offset, v) := (if offs =? 0 then Ret (dst, dst_offset, v) else
      do! dst := set_index dst dst_offset (byte (Z.shiftl v (8 - offs))) in
      Ret (dst, usize_sub dst_offset 1, Z.shiftr v offs)) in
    do! (dst, _, _) := copy_and_update_val dst dst_offset (-1) v in Ret dst.

(** ** Big integers, of which the limbs are read through a pointer *)

Definition subc (x carry : Z) (dst : list Z) (i : Z) : vm (Z * list Z) :=
  let y := byte (x - carry) in
  do! dst := set_index dst i (Z.lxor y 255) in Ret (if x <? y then 1 else 0, dst).

Definition BIG_DIGIT_SIZE : nat := 8.
Definition wrap_shl (d n : Z) : Z := wrap64 (Z.shiftl d n).

(** [n] bytes of a limb, the lowest first, upwards: negated, or as they are. *)
Fixpoint limb_up_neg (n : nat) (d carry : Z) (dst : list Z) (i : Z) : vm (Z * list Z * Z) :=
  match n with
  | O => Ret (carry, dst, i)
  | S n => do! (carry, dst) := subc (byte d) carry dst i in limb_up_neg n (Z.shiftr d 8) carry dst (i + 1)
  end.
Fixpoint limb_up (n : nat) (d : Z) (dst : list Z) (i : Z) : vm (list Z * Z) :=
  match n with
  | O => Ret (dst, i)
  | S n => do! dst := set_index dst i (byte d) in limb_up n (Z.shiftr d 8) dst (i + 1)
  end.
(** And downwards; the positive loop moves before it writes. *)
Fixpoint limb_down_neg (n : nat) (acc carry : Z) (dst : list Z) (i : Z) : vm (Z * Z * list Z * Z) :=
  match n with
  | O => Ret (acc, carry, dst, i)
  | S n => do! (carry, dst) := subc (byte acc) carry dst i in limb_down_neg n (Z.shiftr acc 8) carry dst (usize_sub i 1)
  end.
Fixpoint limb_down (n : nat) (acc : Z) (dst : list Z) (i : Z) : vm (Z * list Z * Z) :=
  match n with
  | O => Ret (acc, dst, i)
  | S n => let i := usize_sub i 1 in do! dst := set_index dst i (byte acc) in limb_down n (Z.shiftr acc 8) dst i
  end.

(** The first limb: only one is read, as no more than its size is ever asked for. *)
Definition first_limb (limbs : list Z) : vm Z := read (head limbs).
Definition limb_bytes (dst : list Z) : nat := Nat.min (length dst) BIG_DIGIT_SIZE.

Definition paste_bigint_le_negative (limbs dst : list Z) (dst_offset : Z) : vm (list Z * Z) :=
  do! (carry, dst, i) := (match limb_bytes dst with
    | O => Ret (1, dst, dst_offset)
    | n => do! d := first_limb limbs in limb_up_neg n d 1 dst dst_offset
    end) in
  do! (_, dst, i) := limb_up_neg (Z.to_nat (Z.of_nat (length dst) - i)) 0 carry dst i in Ret (dst, i).

(** Zeros down to the second byte. *)
Fixpoint zero_down (n : nat) (dst : list Z) (i : Z) : vm (list Z * Z) :=
  match n with
  | O => Spin
  | S n => if i =? 0 then Ret (dst, i) else do! dst := set_index dst i 0 in zero_down n dst (i - 1)
  end.
Definition paste_bigint_le_positive (limbs dst : list Z) (dst_offset : Z) : vm (list Z * Z) :=
  do! (dst, i) := (match limb_bytes dst with
    | O => Ret (dst, dst_offset)
    | n => do! d := first_limb limbs in limb_up n d dst dst_offset
    end) in
  zero_down (S (length dst)) dst i.

Fixpoint pad_neg (n : nat) (acc carry : Z) (dst : list Z) (i : Z) : vm (list Z) :=
  match n with
  | O => Spin
  | S n =>
    if i <=? 0 then Ret dst else
    do! (carry, dst) := subc (byte acc) carry dst (i - 1) in pad_neg n (Z.shiftr acc 8) carry dst (usize_sub (i - 1) 1)
  end.
Definition paste_bigint_be_negative (limbs dst : list Z) (offs : Z) : vm (list Z) :=
  let i := usize_sub (Z.of_nat (length dst)) 1 in
  do! (acc, carry, dst, i) := (if (length dst <? BIG_DIGIT_SIZE)%nat then
      match length dst with
      | O => Ret (0, 1, dst, i)
      | n => do! d := first_limb limbs in limb_down_neg n (wrap_shl d offs) 1 dst i
      end
    else
      do! d := first_limb limbs in
      do! (carry, dst) := subc (byte (wrap_shl d offs)) 1 dst i in
      limb_down_neg BIG_DIGIT_SIZE (Z.shiftr d (8 - offs)) carry dst (usize_sub i 1)) in
  pad_neg (S (length dst)) acc carry dst i.

Fixpoint pad (n : nat) (acc : Z) (dst : list Z) (i : Z) : vm (list Z) :=
  match n with
  | O => Spin
  | S n =>
    if i <=? 0 then Ret dst else
    do! dst := set_index dst (i - 1) (byte acc) in pad n (Z.shiftr acc 8) dst (i - 1)
  end.
Definition paste_bigint_be_positive (limbs dst : list Z) (offs : Z) : vm (list Z) :=
  let i := usize_sub (Z.of_nat (length dst)) 1 in
  do! (acc, dst, i) := (if (length dst <? BIG_DIGIT_SIZE)%nat then
      match length dst with
      | O => Ret (0, dst, i)
      | n => do! d := first_limb limbs in limb_down n (wrap_shl d offs) dst i
      end
    else
      do! d := first_limb limbs in
      let i := usize_sub i 1 in
      do! dst := set_index dst i (byte (wrap_shl d (byte_shift offs))) in
      limb_down BIG_DIGIT_SIZE (Z.shiftr d (byte_shift (8 - offs))) dst i) in
  pad (S (length dst)) acc dst i.

Definition paste_bigint (negative : bool) (limbs : list Z) (size : Z) (dst : list Z) (dst_offset flags : Z) : vm (list Z) :=
  let offs := last_byte_bits size in
  if size =? 0 then Fail PasteIntZeroDstSize
  else if contains flags LITTLE then
    do! (dst, i) := (if negative then paste_bigint_le_negative else paste_bigint_le_positive) limbs dst dst_offset in
    if offs =? 0 then Ret dst else
    let i := usize_sub i 1 in do! b := at_index dst i in set_index dst i (byte (Z.shiftl b (8 - offs)))
  else
    let offs := if offs =? 0 then 0 else 8 - offs in
    (if negative then paste_bigint_be_negative else paste_bigint_be_positive) limbs dst offs.

Definition fmt_int (m : Memory) (write_val : Term) (write_size : Z) (dst : list Z) (dst_offset flags : Z) : vm (list Z) :=
  if is_small write_val then paste_smallint (get_small_signed write_val) write_size dst dst_offset flags
  else
    do! big := is_big_int m write_val in
    if (big : bool) then
      do! o := load_box m write_val in
      match o with OBigInt negative limbs => paste_bigint negative limbs write_size dst dst_offset flags | _ => Wild end
    else Fail PasteIntMustBeSmallOrBigint.

Definition put_bits_big_endian (m : Memory) (write_val : Term) (write_size rbits : Z) (dst : list Z) (dst_offset flags : Z) : vm (list Z) :=
  let shift_count := usize_sub write_size rbits in
  let val := get_small_signed write_val in
  do! b := at_index dst dst_offset in
  let b := Z.land b (byte (Z.shiftl 255 (byte_shift rbits))) in
  let b := if shift_count <? WORD_BITS then Z.lor b (byte (Z.land (Z.shiftr val shift_count) (Z.shiftl 1 rbits - 1)))
           else if val <? 0 then Z.lor b (byte (Z.shiftl 1 rbits - 1)) else b in
  do! dst := set_index dst dst_offset b in
  if write_size =? rbits then Ret dst else fmt_int m write_val (write_size - rbits) dst (dst_offset + 1) flags.

Definition put_bits_one_byte (dst : list Z) (i rbits inbyte_offset write_val write_size : Z) : vm (list Z) :=
  do! old := at_ptr dst i in
  let b := Z.land old (byte (Z.shiftl 255 (byte_shift rbits))) in
  let val_mask := Z.shiftl 1 write_size - 1 in
  let new_val := Z.shiftl (Z.land write_val val_mask) (8 - inbyte_offset - write_size) in
  set_ptr dst i (Z.lor b (byte new_val)).

Definition put_integer (m : Memory) (write_val : Term) (write_size : Z) (dst : list Z) (dst_offset flags : Z) : vm (list Z) :=
  if write_size =? 0 then Ret dst
  else if is_small write_val then
    let inbyte_offset := last_byte_bits dst_offset in
    let rbits := 8 - inbyte_offset in
    if inbyte_offset + write_size <? 8 then
      put_bits_one_byte dst (bytes_rounded_down dst_offset) rbits inbyte_offset (get_small_signed write_val) write_size
    else if inbyte_offset =? 0 then fmt_int m write_val write_size dst (bytes_rounded_down dst_offset) flags
    else if contains flags LITTLE then Panic
    else put_bits_big_endian m write_val write_size rbits dst (bytes_rounded_down dst_offset) flags
  else if dst_offset =? 0 then fmt_int m write_val write_size dst (bytes_rounded_down dst_offset) flags
  else Panic.

(** * Pasting binaries *)

Inductive SizeOrAll := Bits (n : Z) | All.

(** The copy of a partial byte is not implemented. *)
Definition copy_bits_from_offset_0_bytealigned_dst (src : list Z) (size : Z) (dst : list Z) (dst_offset : Z) : vm (Z * list Z) :=
  let off := Z.to_nat (bytes_rounded_down dst_offset) in
  let n := Z.to_nat (bytes_rounded_down size) in
  if (length src <? n)%nat || (length dst <? off + n)%nat then Wild
  else if last_byte_bits size =? 0 then Ret (size, take off dst ++ take n src ++ drop (off + n) dst)
  else Panic.

(** The bytes to write to: none of a slice. *)
Definition get_data_mut (o : Obj) : vm (list Z) :=
  match o with OBinary _ bytes => Ret bytes | OSlice _ _ _ => Ret [] | _ => Wild end.
Definition set_data (m : Memory) (p : Z) (data : list Z) : Memory :=
  match boxes m !! p with
  | Some (OBinary bits _) => {| boxes := <[p := OBinary bits data]> (boxes m); conses := conses m |}
  | _ => m
  end.

(** A binary may not be pasted into itself: the two views of it alias. *)
Definition put_binary (m : Memory) (src : Z) (size_or_all : SizeOrAll) (dst dst_offset flags : Z) : vm (Z * Memory) :=
  do! size := match size_or_all with All => get_bit_size m src | Bits s => Ret s end in
  do! dst_size := get_bit_size m dst in
  if dst_size <? wrap64 (dst_offset + size) then Fail BinaryDestinationTooSmall else
  do! src_data := get_data m src in
  if src =? dst then Wild else
  do! o := read (boxes m !! dst) in do! dst_data := get_data_mut o in
  do! (copied, data) := (if last_byte_bits dst_offset =? 0
    then copy_bits_from_offset_0_bytealigned_dst src_data size dst_data dst_offset
    else copy_bits src_data 1 1 0 dst_offset size dst_data) in
  Ret (copied, set_data m dst data).

(** * Creation ([mod.rs])

    The struct of a fresh binary ends in a word of zeros; the bytes behind it are those that
    were in the memory. *)

Section Create.
Context (stale : Z -> nat -> list Z).

Definition fresh_bytes (p : Z) (n : nat) : list Z := replicate (Nat.min n 8) 0 ++ stale (p + 40) (n - 8).

Definition create_into (size : Z) (s : Machine) : vm (Z * Machine) :=
  if size =? 0 then Fail CreatingZeroSizedBinary
  else if bytes_rounded_up size <=? ONHEAP_THRESHOLD then
    do! (p, s) := alloc_words s (ProcessHeapBinary_storage_size size) in
    Ret (p, put_box s p (OBinary size (fresh_bytes p (Z.to_nat (bytes_rounded_up size)))))
  else Panic.

(** The binary heap is not implemented. *)
Definition create_ensured (size extra : Z) (s : Machine) : vm (Z * Machine) :=
  if bytes_rounded_up size <=? ONHEAP_THRESHOLD then
    do! p := ensure_heap (proc s) (ProcessHeapBinary_storage_size size + extra) in create_into size (with_proc s p)
  else Panic.
End Create.

Definition is_size_too_big (size : Z) : bool := size <? (2 ^ 64 - 1) / 8.

Definition BinarySlice_storage_size : Z := 7.
Definition slice_create_into (orig offset size : Z) (s : Machine) : vm (Z * Machine) :=
  if size =? 0 then Fail CreatingZeroSizedSlice else
  do! (p, s) := alloc_words s BinarySlice_storage_size in Ret (p, put_box s p (OSlice offset size orig)).
