(* ===== verification/BeamBitOps.v ===== *)
(** The bit syntax: the instructions of [beam/opcodes/binary/] that build binaries and that
    match them.

    A binary under construction is named by [current_bin] of the context; a match state is a box
    of the heap that the instructions change in place.  A size times a unit wraps. *)
From S2P Require Import Prelude Float64 BeamTerm BeamMem BeamBinary BeamCompare BeamHeap BeamProc BeamOps BeamReader BeamCte BeamEtf BeamBits.

Definition SYSTEM_LIMIT : Term := make_atom 33.
Definition ALL : Term := make_atom 4.

Definition with_unit (size unit : Z) : Z := wrap64 (size * unit).
(** An argument [usize]: the number in a word, which is unsigned; and [load_usize]. *)
Definition usize_arg (x : Term) : Z := wrap64 (get_small_unsigned x).
Definition load_usize (s : Machine) (x : Term) : vm Z := do! v := load_arg s x in Ret (usize_arg v).

Definition set_current_bin (c : RuntimeContext) (b : option Z * Z) : RuntimeContext :=
  {| ip := ip c; cp := cp c; reductions := reductions c; regs := regs c; fpregs := fpregs c; live := live c; current_bin := b |}.
Definition reset_bin (s : Machine) (dst offset : Z) : Machine := with_ctx s (set_current_bin (ctx s) (Some dst, offset)).
(** The binary that is being built, and the position in bits. *)
Definition building (s : Machine) : vm (Z * Z) := do! p := unwrap (current_bin (ctx s)).1 in Ret (p, (current_bin (ctx s)).2).
Definition advance (s : Machine) (n : Z) : Machine :=
  with_ctx s (set_current_bin (ctx s) ((current_bin (ctx s)).1, wrap64 ((current_bin (ctx s)).2 + n))).
Definition with_mem (s : Machine) (m : Memory) : Machine := {| mem := m; proc := proc s |}.

Definition store_normal (val dst : Term) (s : Machine) : step_result := do! s := store s val dst in normal s.
Definition jump_or_badarg (fail : Term) (s : Machine) : step_result :=
  if bool_decide (fail = nil) then raise ExcError BADARG s else normal (jump_to s fail).

(** * Building *)

Section Build.
Context (stale : Z -> nat -> list Z).

(** [bs_init.rs], [bs_init_bits.rs], [bs_append.rs] *)

Definition finish_init (bits extra offset : Z) (dst : Term) (s : Machine) : step_result :=
  do! (p, s) := create_ensured stale bits extra s in
  do! x := unwrap (make_boxed p) in store_normal x dst (reset_bin s p offset).

Definition bs_init2 (fail sz words dst : Term) (s : Machine) : step_result :=
  do! sz := load_usize s sz in
  if negb (bool_decide (fail = nil)) && is_size_too_big sz then raise ExcError SYSTEM_LIMIT s
  else if sz =? 0 then store_normal empty_binary dst s
  else finish_init (sz * 8) (usize_arg words) 0 dst s.

Definition bs_init_bits (fail sz unit dst : Term) (s : Machine) : step_result :=
  do! sz := load_usize s sz in
  let bit_sz := with_unit sz (usize_arg unit) in
  if bit_sz =? 0 then store_normal empty_binary dst s
  else if negb (bool_decide (fail = nil)) && is_size_too_big (bytes_rounded_up bit_sz) then raise ExcError SYSTEM_LIMIT s
  else finish_init bit_sz 0 0 dst s.

(** The whole bytes of the old binary, before the new one is written. *)
Definition append_data (p src existing_bits : Z) (s : Machine) : vm Machine :=
  if existing_bits =? 0 then Ret s else
  do! src_data := get_data (mem s) src in
  do! o := read (boxes (mem s) !! p) in do! dst_data := get_data_mut o in
  let n := Nat.min (Nat.min (Z.to_nat (bytes_rounded_up existing_bits)) (length src_data)) (length dst_data) in
  Ret (with_mem s (set_data (mem s) p (take n src_data ++ drop n dst_data))).

Definition bs_append (fail sz unit bin dst : Term) (s : Machine) : step_result :=
  do! sz := load_usize s sz in
  do! bin := load_arg s bin in
  let additional_bits := with_unit sz (usize_arg unit) in
  do! is_b := is_binary (mem s) bin in
  if negb is_b then jump_or_badarg fail s else
  do! existing_bits := (if bool_decide (bin = empty_binary) then Ret 0 else term_bits (mem s) bin) in
  let total_bits := wrap64 (existing_bits + additional_bits) in
  if total_bits =? 0 then store_normal empty_binary dst s
  else if negb (bool_decide (fail = nil)) && is_size_too_big (bytes_rounded_up total_bits) then raise ExcError SYSTEM_LIMIT s
  else
    do! (p, s) := create_ensured stale total_bits 0 s in
    do! s := append_data p (get_box_ptr_unchecked bin) existing_bits s in
    do! x := unwrap (make_boxed p) in store_normal x dst (reset_bin s p existing_bits).

(** [bs_put_integer.rs], [bs_put_binary.rs], [bs_put_string.rs] *)

(** [TBinary::put_integer]: a slice panics. *)
Definition put_integer_into (p : Z) (val : Term) (size offset flags : Z) (s : Machine) : vm Machine :=
  do! o := read (boxes (mem s) !! p) in
  match o with
  | OBinary _ data => do! data := put_integer (mem s) val size data offset flags in Ret (with_mem s (set_data (mem s) p data))
  | OSlice _ _ _ => Panic
  | _ => Wild
  end.

Definition bs_put_integer (sz flags src : Term) (s : Machine) : step_result :=
  do! sz := load_usize s sz in do! src := load_arg s src in
  do! (p, offset) := building s in
  do! s := put_integer_into p src sz offset (from_bits_truncate (usize_arg flags)) s in normal (advance s sz).

Definition get_size_or_all (size : Term) : SizeOrAll :=
  if bool_decide (size = ALL) then All else Bits (usize_arg size).

(** The binary under construction is pasted into the argument. *)
Definition bs_put_binary (fail sz flags src : Term) (s : Machine) : step_result :=
  do! sz := load_arg s sz in do! src := load_arg s src in
  do! (p, offset) := building s in
  match put_binary (mem s) p (get_size_or_all sz) (get_box_ptr_unchecked src) offset (from_bits_truncate (usize_arg flags)) with
  | Ret (copied_size, m) => normal (advance (with_mem s m) copied_size)
  | Fail BinaryDestinationTooSmall => normal (jump_to s fail)
  | Fail e => Fail e
  | Panic => Panic
  | Wild => Wild
  | Spin => Spin
  end.

(** The bytes that fall into the buffer. *)
Fixpoint put_bytes (bytes : list Z) (i : Z) (d : list Z) : list Z :=
  match bytes with
  | [] => d
  | b :: bytes => put_bytes bytes (i + 1) (if in_range d i then <[Z.to_nat i := b]> d else d)
  end.

Definition bs_put_string (len string : Term) (s : Machine) : step_result :=
  let len := usize_arg len in
  do! (p, offset) := building s in
  do! o := read (boxes (mem s) !! p) in do! dst_data := get_data_mut o in
  let off := bytes_rounded_down offset in
  do! is_b := is_binary (mem s) string in
  do! data := (if (is_b : bool) then
      do! src_data := get_data (mem s) (get_box_ptr_unchecked string) in
      let n := Nat.min (Z.to_nat len) (length src_data) in
      if get_box_ptr_unchecked string =? p then Wild
      else if (length dst_data <? Z.to_nat off + n)%nat then Wild
      else Ret (take (Z.to_nat off) dst_data ++ take n src_data ++ drop (Z.to_nat off + n) dst_data)
    else Ret (put_bytes (replicate (Z.to_nat len) 0) off dst_data)) in
  normal (advance (with_mem s (set_data (mem s) p data)) (len * 8)).

(** [bs_utf8.rs] *)

(** [char::from_u32], [char::len_utf8] and [char::encode_utf8]. *)
Definition from_u32 (c : Z) : option Z :=
  if (c <? 55296) || ((57343 <? c) && (c <? 1114112)) then Some c else None.
Definition len_utf8 (c : Z) : Z := if c <? 128 then 1 else if c <? 2048 then 2 else if c <? 65536 then 3 else 4.
Definition continuation (c shift : Z) : Z := Z.lor 128 (Z.land (Z.shiftr c shift) 63).
Definition encode_utf8 (c : Z) : list Z :=
  if c <? 128 then [c]
  else if c <? 2048 then [Z.lor 192 (Z.shiftr c 6); continuation c 0]
  else if c <? 65536 then [Z.lor 224 (Z.shiftr c 12); continuation c 6; continuation c 0]
  else [Z.lor 240 (Z.shiftr c 18); continuation c 12; continuation c 6; continuation c 0].

(** The code point is cut to 32 bits. *)
Definition codepoint_of (src : Term) : option Z :=
  if is_small src then from_u32 (get_small_unsigned src mod 2 ^ 32) else None.

Definition bs_utf8_size (fail src dst : Term) (s : Machine) : step_result :=
  do! src := load_arg s src in
  match codepoint_of src with
  | Some c => store_normal (make_small_unsigned (len_utf8 c)) dst s
  | None => jump_or_badarg fail s
  end.

Definition bs_put_utf8 (fail src : Term) (s : Machine) : step_result :=
  do! src := load_arg s src in
  match codepoint_of src with
  | Some c =>
    let utf8_bytes := encode_utf8 c in
    do! (p, offset) := building s in
    do! o := read (boxes (mem s) !! p) in do! dst_data := get_data_mut o in
    let data := put_bytes utf8_bytes (bytes_rounded_down offset) dst_data in
    normal (advance (with_mem s (set_data (mem s) p data)) (Z.of_nat (length utf8_bytes) * 8))
  | None => jump_or_badarg fail s
  end.

(** [bs_create_bin.rs] *)

(** [op == atom::from_str(name)] for the names in turn: a name is interned when it is asked for.
    The first that is meant, and its alternative. *)
Fixpoint first_named {A} (alts : list (string * A)) (accepts : A -> bool) (op : Term) (st : AtomStorage) : vm (option A * AtomStorage) :=
  match alts with
  | [] => Ret (None, st)
  | (text, a) :: alts =>
    do! (x, st) := unwrap (from_str st text) in
    if bool_decide (op = x) && accepts a then Ret (Some a, st) else first_named alts accepts op st
  end.

Inductive CreateOp :=
| CreateInteger (unit flags : Z) (src : Term) (size : Z)
| CreateBinary (unit flags : Z) (src : Term) (size : SizeOrAll).

Definition FLAG_NAMES : list (string * Z) :=
  [("little"%string, LITTLE); ("signed"%string, SIGNED); ("exact"%string, EXACT); ("native"%string, NATIVE); ("aligned"%string, ALIGNED)].

(** The elements of a list, of which the end is not looked at. *)
Fixpoint cells (m : Memory) (fuel : nat) (p : Z) : vm (list Term) :=
  match fuel with
  | O => Spin
  | S fuel =>
    do! (hd, tl) := load_cons m p in
    if is_cons tl then do! l := cells m fuel (get_cons_ptr tl) in Ret (hd :: l) else Ret [hd]
  end.

Fixpoint fold_flags (l : list Term) (flags : Z) (st : AtomStorage) : vm (Z * AtomStorage) :=
  match l with
  | [] => Ret (flags, st)
  | t :: l =>
    do! (f, st) := first_named FLAG_NAMES (fun _ => true) t st in
    fold_flags l (match f with Some f => Z.lor flags f | None => flags end) st
  end.

(** [None] where the instruction raises [badarg]. *)
Definition parse_flags (m : Memory) (fuel : nat) (raw : Term) (st : AtomStorage) : vm (option Z * AtomStorage) :=
  if bool_decide (raw = nil) then Ret (Some 0, st)
  else if is_small raw then Ret (Some (from_bits_truncate (usize_arg raw)), st)
  else if negb (is_cons raw) then Ret (None, st)
  else do! l := cells m fuel (get_cons_ptr raw) in do! (flags, st) := fold_flags l 0 st in Ret (Some flags, st).

Definition flatten_op_list (m : Memory) (fuel : nat) (op_list : Term) : vm (option (list Term)) :=
  if bool_decide (op_list = nil) || bool_decide (op_list = empty_tuple) then Ret (Some []) else
  do! is_t := is_tuple m op_list in
  if (is_t : bool) then do! els := load_tuple m op_list in Ret (Some els)
  else if is_cons op_list then do! l := cells m fuel (get_cons_ptr op_list) in Ret (Some l)
  else Ret None.

Inductive CreateTag := TagInteger | TagBinary.
Definition CREATE_NAMES : list (string * CreateTag) := [("integer"%string, TagInteger); ("binary"%string, TagBinary)].

Fixpoint parse_terms (m : Memory) (fuel n : nat) (terms : list Term) (st : AtomStorage) : vm (option (list CreateOp) * AtomStorage) :=
  match terms, n with
  | [], _ => Ret (Some [], st)
  | _, O => Spin
  | tag :: args, S n =>
    if negb (is_atom tag) then Ret (None, st) else
    do! (t, st) := first_named CREATE_NAMES (fun _ => true) tag st in
    match t, args with
    | Some t, _ :: unit :: flags :: src :: size :: rest =>
      do! (f, st) := parse_flags m fuel flags st in
      match f with
      | None => Ret (None, st)
      | Some f =>
        let u := usize_arg unit in
        do! (op, st) := (match t with
          | TagInteger => Ret (CreateInteger u f src (usize_arg size), st)
          | TagBinary =>
            do! (all, st) := unwrap (from_str st "all"%string) in
            Ret (CreateBinary u f src (if bool_decide (size = all) then All else Bits (with_unit (usize_arg size) u)), st)
          end) in
        do! (ops, st) := parse_terms m fuel n rest st in Ret (cons op <$> ops, st)
      end
    | _, _ => Ret (None, st)
    end
  end.

Definition parse_ops (m : Memory) (fuel : nat) (op_list : Term) (st : AtomStorage) : vm (option (list CreateOp) * AtomStorage) :=
  do! terms := flatten_op_list m fuel op_list in
  match terms with None => Ret (None, st) | Some terms => parse_terms m fuel (length terms) terms st end.

Definition op_bits (s : Machine) (op : CreateOp) : vm (option Z) :=
  match op with
  | CreateInteger unit _ _ size => Ret (Some (with_unit size unit))
  | CreateBinary _ _ _ (Bits bits) => Ret (Some bits)
  | CreateBinary _ _ src All =>
    do! src := load_arg s src in do! is_b := is_binary (mem s) src in
    if negb is_b then Ret None else do! n := term_bits (mem s) src in Ret (Some n)
  end.

Fixpoint total_of (s : Machine) (ops : list CreateOp) (acc : Z) : vm (option Z) :=
  match ops with
  | [] => Ret (Some acc)
  | op :: ops => do! n := op_bits s op in match n with Some n => total_of s ops (wrap64 (acc + n)) | None => Ret None end
  end.

(** Each segment behind the last; [None] where the source of a binary is none. *)
Fixpoint paste_ops (p : Z) (ops : list CreateOp) (offset : Z) (s : Machine) : vm (bool * Machine) :=
  match ops with
  | [] => Ret (true, s)
  | CreateInteger unit flags src size :: ops =>
    do! v := load_arg s src in
    let bits := with_unit size unit in
    do! s := put_integer_into p v bits offset flags s in paste_ops p ops (wrap64 (offset + bits)) s
  | CreateBinary _ flags src size :: ops =>
    do! v := load_arg s src in do! is_b := is_binary (mem s) v in
    if negb is_b then Ret (false, s) else
    do! (n, m) := put_binary (mem s) (get_box_ptr_unchecked v) size p offset flags in paste_ops p ops (wrap64 (offset + n)) (with_mem s m)
  end.

Definition maybe_jump_fail (fail : Term) (s : Machine) : step_result := normal (if is_cp fail then jump_to s fail else s).

Definition bs_create_bin (fuel : nat) (fail alloc live dst op_list : Term) (st : AtomStorage) (s : Machine) : vm (OpResult * Machine * AtomStorage) :=
  do! (ops, st) := parse_ops (mem s) fuel op_list st in
  do! r := (match ops with
    | None => raise ExcError BADARG s
    | Some ops =>
      do! total := total_of s ops 0 in
      match total with
      | None => raise ExcError BADARG s
      | Some total =>
        if total =? 0 then store_normal empty_binary dst s else
        let s := with_ctx s (set_live (ctx s) (usize_arg live)) in
        do! (p, s) := create_ensured stale total (usize_arg alloc) s in
        do! (done, s) := paste_ops p ops 0 s in
        if negb done then maybe_jump_fail fail s else do! x := unwrap (make_boxed p) in store_normal x dst s
      end
    end) in
  Ret (r, st).
End Build.
