(* ===== verification/BeamMatch.v ===== *)
(** The bit syntax: the instructions of [beam/opcodes/binary/] that match binaries, over the
    match states of [term/boxed/binary/match_state.rs].

    A match state is a box that is changed in place: an original binary, a position and an end,
    in bits.  An argument that should be a match state is not checked to be one. *)
From S2P Require Import Prelude Float64 BeamTerm BeamMem BeamBinary BeamCompare BeamHeap BeamProc BeamOps BeamReader BeamCte BeamEtf BeamBits BeamBitOps.

(** * [match_state.rs] *)

Record MatchState := { ms_orig : Z; read_position : Z; stop_at : Z }.

Definition BinaryMatchState_storage_size : Z := 6.
Definition match_state_at (s : Machine) (p : Z) : vm MatchState :=
  do! o := read (boxes (mem s) !! p) in
  match o with OMatchState orig pos stop => Ret {| ms_orig := orig; read_position := pos; stop_at := stop |} | _ => Wild end.
Definition bits_remaining (b : MatchState) : Z := usize_sub (stop_at b) (read_position b).
Definition set_match_offset (s : Machine) (p : Z) (b : MatchState) (offs : Z) : Machine :=
  put_box s p (OMatchState (ms_orig b) offs (stop_at b)).
Definition increase_match_offset (s : Machine) (p : Z) (b : MatchState) (offs : Z) : Machine :=
  set_match_offset s p b (wrap64 (read_position b + offs)).

Definition match_state_create_into (orig : Z) (s : Machine) : vm (Z * Machine) :=
  do! (p, s) := alloc_words s BinaryMatchState_storage_size in
  do! stop := get_bit_size (mem s) orig in Ret (p, put_box s p (OMatchState orig 0 stop)).

(** The argument [binary_match_state]. *)
Definition match_state_arg (s : Machine) (x : Term) : vm (Z * MatchState) :=
  do! v := load_arg s x in let p := get_box_ptr_unchecked v in do! b := match_state_at s p in Ret (p, b).

(** The data of the binary, and the position in it. *)
Definition match_reader (s : Machine) (b : MatchState) : vm (list Z * Z) :=
  do! (data, off) := get_bit_reader (mem s) (ms_orig b) in Ret (data, off + read_position b).

(** * [bs_start_match.rs] *)

Definition start_with_new_binary (orig : Z) (dst : Term) (s : Machine) : step_result :=
  do! (p, s) := match_state_create_into orig s in
  do! x := unwrap (make_boxed p) in store_normal x dst s.

(** An existing match state starts over. *)
Definition continue_with_matchstate (p : Z) (dst : Term) (s : Machine) : step_result :=
  do! b := match_state_at s p in
  do! x := unwrap (make_boxed p) in store_normal x dst (set_match_offset s p b 0).

Definition start_match (on_fail : Machine -> Machine) (context dst : Term) (s : Machine) : step_result :=
  if negb (is_boxed context) then normal (on_fail s) else
  do! o := load_box (mem s) context in
  let p := get_box_ptr_unchecked context in
  match get_type o with
  | BOXTYPETAG_BINARY_MATCH_STATE => continue_with_matchstate p dst s
  | BOXTYPETAG_BINARY => start_with_new_binary p dst s
  | _ => normal (on_fail s)
  end.

Definition bs_start_match_3 (fail context dst : Term) (s : Machine) : step_result :=
  do! context := load_arg s context in start_match (fun s => jump_to s fail) context dst s.

(** The number of live registers comes second, not third. *)
Definition bs_start_match_4 (fail live context dst : Term) (s : Machine) : step_result :=
  do! context := load_arg s context in start_match (fun s => if is_cp fail then jump_to s fail else s) context dst s.

(** * Pieces of the rest ([mod.rs], [bs_get_binary.rs], [bs_context_to_binary.rs], [bs_test_unit.rs]) *)

Definition bs_test_tail2 (fail ms bits : Term) (s : Machine) : step_result :=
  do! (p, b) := match_state_arg s ms in do! bits := load_usize s bits in
  jump_if (negb (bits_remaining b =? bits)) fail s.

Definition bs_test_unit (fail ms unit : Term) (s : Machine) : step_result :=
  do! (p, b) := match_state_arg s ms in
  let unit := usize_arg unit in
  jump_if ((unit =? 0) || negb (bits_remaining b mod unit =? 0)) fail s.

Definition bs_skip_bits2 (fail ms size unit : Term) (s : Machine) : step_result :=
  do! (p, b) := match_state_arg s ms in do! size := load_usize s size in
  let skip := with_unit size (usize_arg unit) in
  if bits_remaining b <? skip then normal (jump_to s fail) else normal (increase_match_offset s p b skip).

Definition bs_add (s2 dst : Term) (s : Machine) : step_result := do! v := load_arg s s2 in store_normal v dst s.

(** A slice of the rest of the binary. *)
Definition make_slice (b : MatchState) (size : Z) (s : Machine) : vm (Term * Machine) :=
  do! p := ensure_heap (proc s) BinarySlice_storage_size in
  do! (a, s) := slice_create_into (ms_orig b) (read_position b) size (with_proc s p) in
  do! x := unwrap (make_boxed a) in Ret (x, s).

Definition get_tail (b : MatchState) (live : Z) (dst : Term) (s : Machine) : vm Machine :=
  let remaining := bits_remaining b in
  if remaining =? 0 then store s empty_binary dst else
  do! (x, s) := make_slice b remaining (with_ctx s (set_live (ctx s) live)) in store s x dst.

Definition bs_get_tail (ms dst live : Term) (s : Machine) : step_result :=
  do! (p, b) := match_state_arg s ms in do! s := get_tail b (usize_arg live) dst s in normal s.

Definition bs_get_position (ms dst : Term) (s : Machine) : step_result :=
  do! (p, b) := match_state_arg s ms in store_normal (make_small_unsigned (read_position b)) dst s.

(** The new position is not compared with the end. *)
Definition bs_set_position (ms pos : Term) (s : Machine) : step_result :=
  do! (p, b) := match_state_arg s ms in do! pos := load_arg s pos in
  normal (set_match_offset s p b (if is_small pos then usize_arg pos else 0)).

(** The size is not compared with what remains. *)
Definition bs_get_binary2 (ms live size unit dst : Term) (s : Machine) : step_result :=
  do! (p, b) := match_state_arg s ms in do! size := load_usize s size in
  let bit_size := with_unit size (usize_arg unit) in
  if bit_size =? 0 then do! s := unwrap_result (store s empty_binary dst) in normal s else
  do! (x, s) := make_slice b bit_size (with_ctx s (set_live (ctx s) (usize_arg live))) in
  store_normal x dst (increase_match_offset s p b bit_size).

Definition bs_context_to_binary (reg : Term) (s : Machine) : step_result :=
  do! val := load_arg s reg in
  if negb (is_boxed val) then normal s else
  do! o := load_box (mem s) val in
  match o with
  | OMatchState orig pos stop =>
    let b := {| ms_orig := orig; read_position := pos; stop_at := stop |} in
    if bits_remaining b =? 0 then store_normal empty_binary reg s else
    do! (x, s) := make_slice b (bits_remaining b) s in store_normal x reg s
  | _ => normal s
  end.

(** * [bs_match_string.rs] *)

Fixpoint same_bytes (data : list Z) (off : Z) (lit : list Z) (lit_off i : Z) (n : nat) : bool :=
  match n with
  | O => true
  | S n => (bits_read data off i =? bits_read lit lit_off i) && same_bytes data off lit lit_off (i + 1) n
  end.

Definition bs_match_string (fail ms bits literal : Term) (s : Machine) : step_result :=
  do! (p, b) := match_state_arg s ms in
  let bits := usize_arg bits in
  if bits_remaining b <? bits then normal (jump_to s fail) else
  do! is_b := is_binary (mem s) literal in
  if negb is_b then normal (jump_to s fail) else
  do! (data, off) := match_reader s b in
  do! (lit, lit_off) := get_bit_reader (mem s) (get_box_ptr_unchecked literal) in
  if same_bytes data off lit lit_off 0 (Z.to_nat (bits / 8)) then normal (increase_match_offset s p b bits)
  else normal (jump_to s fail).

(** * [bs_utf8.rs] *)

Definition utf8_decode_first_byte (byte : Z) : option (nat * Z) :=
  if byte <? 128 then Some (1%nat, byte)
  else if Z.land byte 224 =? 192 then Some (2%nat, Z.land byte 31)
  else if Z.land byte 240 =? 224 then Some (3%nat, Z.land byte 15)
  else if Z.land byte 248 =? 240 then Some (4%nat, Z.land byte 7)
  else None.

Fixpoint continuation_bytes (data : list Z) (off partial i : Z) (n : nat) : option Z :=
  match n with
  | O => Some partial
  | S n =>
    let cont_byte := bits_read data off i in
    if Z.land cont_byte 192 =? 128 then continuation_bytes data off (Z.lor (Z.shiftl partial 6) (Z.land cont_byte 63)) (i + 1) n
    else None
  end.

Definition utf8_decode_continuation (data : list Z) (off partial : Z) (char_len : nat) : option Z :=
  match continuation_bytes data off partial 1 (char_len - 1) with
  | None => None
  | Some partial =>
    if match char_len with
       | 1%nat => false
       | 2%nat => partial <? 128
       | 3%nat => partial <? 2048
       | 4%nat => partial <? 65536
       | _ => true
       end then None
    else if (55296 <=? partial) && (partial <=? 57343) then None else Some partial
  end.

(** The character at the position and its size in bits. *)
Definition utf8_at (s : Machine) (b : MatchState) : vm (option (Z * Z)) :=
  let remaining := bits_remaining b in
  if remaining <? 8 then Ret None else
  do! (data, off) := match_reader s b in
  match utf8_decode_first_byte (bits_read data off 0) with
  | None => Ret None
  | Some (char_len, codepoint) =>
    let needed_bits := Z.of_nat char_len * 8 in
    if remaining <? needed_bits then Ret None else
    match utf8_decode_continuation data off codepoint char_len with
    | None => Ret None
    | Some c => Ret (Some (c, needed_bits))
    end
  end.

Definition bs_get_utf8 (fail ms dst : Term) (s : Machine) : step_result :=
  do! (p, b) := match_state_arg s ms in
  do! r := utf8_at s b in
  match r with
  | None => normal (jump_to s fail)
  | Some (c, needed_bits) =>
    match from_u32 c with
    | None => normal (jump_to s fail)
    | Some _ => store_normal (make_small_unsigned c) dst (increase_match_offset s p b needed_bits)
    end
  end.

Definition bs_skip_utf8 (fail ms : Term) (s : Machine) : step_result :=
  do! (p, b) := match_state_arg s ms in
  do! r := utf8_at s b in
  match r with
  | None => normal (jump_to s fail)
  | Some (_, needed_bits) => normal (increase_match_offset s p b needed_bits)
  end.

(** * [bs_match.rs] *)

Definition to_usize (v : Term) : option Z := if is_small v then Some (usize_arg v) else None.
Definition to_i64 (v : Term) : option Z := if is_small v then Some (get_small_signed v) else None.

Definition expected_u64 (value : Term) (bits : Z) : option Z :=
  if 64 <? bits then None else
  match to_i64 value with
  | None => None
  | Some signed =>
    if 0 <=? signed then (if (bits <? 64) && (Z.shiftl 1 bits <=? signed) then None else Some signed)
    else if bits =? 64 then Some (wrap64 signed)
    else let n := Z.shiftl 1 bits + signed in if n <? 0 then None else Some n
  end.

(** Bit [i] from the offset of a reader. *)
Definition read_bit (data : list Z) (off i : Z) : Z := Z.land (Z.shiftr (bits_read data off (i / 8)) (7 - i mod 8)) 1.

(** The first bits, behind the value of those before them. *)
Fixpoint read_value (data : list Z) (off i value : Z) (n : nat) : Z :=
  match n with O => value | S n => read_value data off (i + 1) (Z.lor (wrap64 (Z.shiftl value 1)) (read_bit data off i)) n end.

Definition ensure_remaining (b : MatchState) (needed : Z) : bool := needed <=? bits_remaining b.

Definition extract_integer (p bits unit : Z) (dst : Term) (s : Machine) : vm (bool * Machine) :=
  let total_bits := wrap64 (bits * unit) in
  do! b := match_state_at s p in
  if negb (ensure_remaining b total_bits) then Ret (false, s) else
  do! (data, off) := match_reader s b in
  let value := read_value data off 0 0 (Z.to_nat total_bits) in
  do! s := store (increase_match_offset s p b total_bits) (make_small_unsigned value) dst in Ret (true, s).

Fixpoint bits_eq (data : list Z) (off bits expected i : Z) (n : nat) : bool :=
  match n with
  | O => true
  | S n => (read_bit data off i =? Z.land (Z.shiftr expected (bits - 1 - i)) 1) && bits_eq data off bits expected (i + 1) n
  end.

Definition match_bits_eq (b : MatchState) (bits : Z) (value : Term) (s : Machine) : vm bool :=
  match expected_u64 value bits with
  | None => Ret false
  | Some expected => do! (data, off) := match_reader s b in Ret (bits_eq data off bits expected 0 (Z.to_nat bits))
  end.

Inductive Command := EnsureAtLeast | EnsureExactly | MatchEq | Skip | Integer | GetTail.
Definition COMMANDS : list (string * Command) :=
  [("ensure_at_least"%string, EnsureAtLeast); ("ensure_exactly"%string, EnsureExactly); ("=:="%string, MatchEq);
   ("skip"%string, Skip); ("integer"%string, Integer); ("get_tail"%string, GetTail)].
Definition command_args (c : Command) : nat :=
  match c with EnsureAtLeast => 2 | EnsureExactly => 1 | MatchEq => 3 | Skip => 1 | Integer => 5 | GetTail => 3 end.

(** A command on its arguments, of which there are as many as it takes. *)
Definition run_command (c : Command) (args : list Term) (p : Z) (s : Machine) : vm (bool * Machine) :=
  do! b := match_state_at s p in
  match c, to_usize <$> args, args with
  | EnsureAtLeast, [Some size; Some unit], _ => Ret (ensure_remaining b (with_unit size unit), s)
  | EnsureExactly, [Some size], _ => Ret (bits_remaining b =? size, s)
  | MatchEq, [_; Some bits; _], [first; _; value] =>
    if negb (bool_decide (first = nil)) || negb (ensure_remaining b bits) then Ret (false, s) else
    do! eq := match_bits_eq b bits value s in
    if (eq : bool) then Ret (true, increase_match_offset s p b bits) else Ret (false, s)
  | Skip, [Some bits], _ =>
    if ensure_remaining b bits then Ret (true, increase_match_offset s p b bits) else Ret (false, s)
  | Integer, [Some _; _; Some bits; Some unit; _], [_; _; _; _; dst] => extract_integer p bits unit dst s
  | GetTail, [Some live; _; _], [_; _; dst] => do! s := get_tail b live dst s in Ret (true, s)
  | _, _, _ => Ret (false, s)
  end.

(** The state of a match: the atom table and the machine.  [None] raises [badarg]. *)
Definition match_result : Type := vm (option bool * AtomStorage * Machine).

Definition run_one (p : Z) (command : Term) (st : AtomStorage) (s : Machine) : match_result :=
  do! is_t := is_tuple (mem s) command in
  if negb is_t || bool_decide (command = empty_tuple) then Ret (None, st, s) else
  do! t := load_tuple (mem s) command in
  match t with
  | [] => Ret (None, st, s)
  | op :: args =>
    if negb (is_atom op) then Ret (None, st, s) else
    do! (c, st) := first_named COMMANDS (fun c => (length args =? command_args c)%nat) op st in
    match c with
    | Some c => do! (ok, s) := run_command c args p s in Ret (Some ok, st, s)
    | None => Ret (Some false, st, s)
    end
  end.

(** Commands in one row. *)
Fixpoint run_flat_terms (n : nat) (p : Z) (terms : list Term) (st : AtomStorage) (s : Machine) : match_result :=
  match terms, n with
  | [], _ => Ret (Some true, st, s)
  | _, O => Spin
  | op :: args, S n =>
    if negb (is_atom op) then Ret (Some false, st, s) else
    do! (c, st) := first_named COMMANDS (fun _ => true) op st in
    match c with
    | None => Ret (Some false, st, s)
    | Some c =>
      if (length args <? command_args c)%nat then Ret (Some false, st, s) else
      do! (ok, s) := run_command c (take (command_args c) args) p s in
      if (ok : bool) then run_flat_terms n p (drop (command_args c) args) st s else Ret (Some false, st, s)
    end
  end.

Fixpoint run_each (p : Z) (commands : list Term) (st : AtomStorage) (s : Machine) : match_result :=
  match commands with
  | [] => Ret (Some true, st, s)
  | c :: commands =>
    do! (ok, st, s) := run_one p c st s in
    match ok with Some true => run_each p commands st s | _ => Ret (ok, st, s) end
  end.

Fixpoint run_cells (fuel : nat) (p cell : Z) (st : AtomStorage) (s : Machine) : match_result :=
  match fuel with
  | O => Spin
  | S fuel =>
    do! (cmd, _) := load_cons (mem s) cell in
    do! (ok, st, s) := run_one p cmd st s in
    match ok with
    | Some true =>
      do! (_, tl) := load_cons (mem s) cell in
      if is_cons tl then run_cells fuel p (get_cons_ptr tl) st s else Ret (Some (bool_decide (tl = nil)), st, s)
    | _ => Ret (ok, st, s)
    end
  end.

Definition run_commands (fuel : nat) (p : Z) (commands : Term) (st : AtomStorage) (s : Machine) : match_result :=
  if bool_decide (commands = nil) || bool_decide (commands = empty_tuple) then Ret (Some true, st, s) else
  do! is_t := is_tuple (mem s) commands in
  if (is_t : bool) then
    do! els := load_tuple (mem s) commands in
    match els with
    | first :: _ => if is_atom first then run_flat_terms (length els) p els st s else run_each p els st s
    | [] => Ret (Some true, st, s)
    end
  else if is_cons commands then run_cells fuel p (get_cons_ptr commands) st s
  else Ret (None, st, s).

(** What does not match puts the position back. *)
Definition bs_match (fuel : nat) (fail ms commands : Term) (st : AtomStorage) (s : Machine) : vm (OpResult * Machine * AtomStorage) :=
  do! (p, b) := match_state_arg s ms in
  do! (ok, st, s) := run_commands fuel p commands st s in
  match ok with
  | None => Ret (Raised ExcError BADARG, s, st)
  | Some true => Ret (Normal, s, st)
  | Some false =>
    do! b' := match_state_at s p in
    let s := set_match_offset s p b' (read_position b) in
    Ret (Normal, if is_cp fail then jump_to s fail else s, st)
  end.

(** * One instruction of the bit syntax *)

Inductive BInstr :=
| BInit2 (fail sz words regs flags dst : Term) | BInitBits (fail sz live unit flags dst : Term)
| BAppend (fail sz extra live unit bin flags dst : Term) | BPutInteger (fail sz unit flags src : Term)
| BPutBinary (fail sz unit flags src : Term) | BPutString (len string : Term)
| BUtf8Size (fail src dst : Term) | BPutUtf8 (fail flags src : Term)
| BCreateBin (fail alloc live unit dst op_list : Term)
| BStartMatch3 (fail context live dst : Term) | BStartMatch4 (fail live context dst : Term)
| BTestTail2 (fail ms bits : Term) | BTestUnit (fail ms unit : Term) | BSkipBits2 (fail ms size unit flags : Term)
| BAdd (fail s1 s2 unit dst : Term) | BGetTail (ms dst live : Term) | BGetPosition (ms dst live : Term) | BSetPosition (ms pos : Term)
| BGetBinary2 (fail ms live size unit flags dst : Term) | BContextToBinary (reg : Term)
| BMatchString (fail ms bits literal : Term) | BGetUtf8 (fail ms live flags dst : Term) | BSkipUtf8 (fail ms live flags : Term)
| BMatch (fail ms commands : Term).

Definition barity_of (i : BInstr) : Z :=
  match i with
  | BContextToBinary _ => 1
  | BPutString _ _ | BSetPosition _ _ => 2
  | BUtf8Size _ _ _ | BPutUtf8 _ _ _ | BTestTail2 _ _ _ | BTestUnit _ _ _ | BGetTail _ _ _ | BGetPosition _ _ _ | BMatch _ _ _ => 3
  | BStartMatch3 _ _ _ _ | BStartMatch4 _ _ _ _ | BMatchString _ _ _ _ | BSkipUtf8 _ _ _ _ => 4
  | BPutInteger _ _ _ _ _ | BPutBinary _ _ _ _ _ | BSkipBits2 _ _ _ _ _ | BAdd _ _ _ _ _ | BGetUtf8 _ _ _ _ _ => 5
  | BInit2 _ _ _ _ _ _ | BInitBits _ _ _ _ _ _ | BCreateBin _ _ _ _ _ _ => 6
  | BGetBinary2 _ _ _ _ _ _ _ => 7
  | BAppend _ _ _ _ _ _ _ _ => 8
  end.

Definition bits_op (stale : Z -> nat -> list Z) (fuel : nat) (i : BInstr) (st : AtomStorage) (s : Machine)
    : vm (OpResult * Machine * AtomStorage) :=
  let plain (r : step_result) := do! r := r in Ret (r, st) in
  match i with
  | BInit2 fail sz words _ _ dst => plain (bs_init2 stale fail sz words dst s)
  | BInitBits fail sz _ unit _ dst => plain (bs_init_bits stale fail sz unit dst s)
  | BAppend fail sz _ _ unit bin _ dst => plain (bs_append stale fail sz unit bin dst s)
  | BPutInteger _ sz _ flags src => plain (bs_put_integer sz flags src s)
  | BPutBinary fail sz _ flags src => plain (bs_put_binary fail sz flags src s)
  | BPutString len string => plain (bs_put_string len string s)
  | BUtf8Size fail src dst => plain (bs_utf8_size fail src dst s)
  | BPutUtf8 fail _ src => plain (bs_put_utf8 fail src s)
  | BCreateBin fail alloc live _ dst op_list => bs_create_bin stale fuel fail alloc live dst op_list st s
  | BStartMatch3 fail context _ dst => plain (bs_start_match_3 fail context dst s)
  | BStartMatch4 fail live context dst => plain (bs_start_match_4 fail live context dst s)
  | BTestTail2 fail ms bits => plain (bs_test_tail2 fail ms bits s)
  | BTestUnit fail ms unit => plain (bs_test_unit fail ms unit s)
  | BSkipBits2 fail ms size unit _ => plain (bs_skip_bits2 fail ms size unit s)
  | BAdd _ _ s2 _ dst => plain (bs_add s2 dst s)
  | BGetTail ms dst live => plain (bs_get_tail ms dst live s)
  | BGetPosition ms dst _ => plain (bs_get_position ms dst s)
  | BSetPosition ms pos => plain (bs_set_position ms pos s)
  | BGetBinary2 _ ms live size unit _ dst => plain (bs_get_binary2 ms live size unit dst s)
  | BContextToBinary reg => plain (bs_context_to_binary reg s)
  | BMatchString fail ms bits literal => plain (bs_match_string fail ms bits literal s)
  | BGetUtf8 fail ms _ _ dst => plain (bs_get_utf8 fail ms dst s)
  | BSkipUtf8 fail ms _ _ => plain (bs_skip_utf8 fail ms s)
  | BMatch fail ms commands => bs_match fuel fail ms commands st s
  end.
