(* ===== verification/BeamBitFacts.v ===== *)
(** What the bit syntax reads and keeps: the readers against the bits of the data, integers,
    comparisons and characters against their values. *)
From S2P Require Import Prelude Float64 BeamTerm BeamMem BeamBinary BeamCompare BeamHeap BeamProc BeamOps BeamFacts BeamReader BeamCte BeamEtf BeamBits BeamBitOps BeamMatch.

(** * Bits, the reference

    Bit [k] of a row of bytes, the highest of each byte first; nothing is set behind the end. *)

Definition bit_at (data : list Z) (k : Z) : bool :=
  Z.testbit (default 0 (data !! Z.to_nat (k / 8))) (7 - k mod 8).
Definition is_bytes (data : list Z) : Prop := Forall (fun b => 0 <= b < 256) data.
(** [n] bits from [off] on, and the number that bits are, the highest first. *)
Definition bits_of (data : list Z) (off : Z) (n : nat) : list bool := (fun i => bit_at data (off + Z.of_nat i)) <$> seq 0 n.
Definition bits_value (l : list bool) : Z := foldl (fun v (b : bool) => 2 * v + Z.b2z b) 0 l.

Lemma is_bytes_lookup data i b : is_bytes data -> data !! i = Some b -> 0 <= b < 256.
Proof. unfold is_bytes. rewrite Forall_lookup. eauto. Qed.
Lemma is_bytes_at data i : is_bytes data -> 0 <= default 0 (data !! i) < 256.
Proof. intros H. destruct (data !! i) as [b|] eqn:E; cbn; [by eapply is_bytes_lookup | lia]. Qed.

Lemma testbit_high b i n : 0 <= b < 2 ^ n -> n <= i -> Z.testbit b i = false.
Proof.
  intros Hb Hi. destruct (Z.ltb_spec n 0); [rewrite Z.pow_neg_r in Hb by done; lia|].
  rewrite <- (Z.mod_small b (2 ^ n)) by done. apply Z.mod_pow2_bits_high. lia.
Qed.

Lemma byte_bit b i : 0 <= b < 256 -> 8 <= i -> Z.testbit b i = false.
Proof. intros Hb. apply (testbit_high b i 8). exact Hb. Qed.

(** ** A byte that is read is the eight bits from its position *)

Lemma bits_read_bit data off n j : is_bytes data -> 0 <= off -> 0 <= n -> 0 <= j < 8 ->
  Z.testbit (bits_read data off n) (7 - j) = bit_at data (off + n * 8 + j).
Proof.
  intros Hd Ho Hn Hj. unfold bits_read. set (pos := off + n * 8). unfold bit_at.
  assert (0 <= pos) as Hp by (unfold pos; lia).
  rewrite Z.shiftr_div_pow2 by lia. change (2 ^ 3) with 8. change (Z.land pos 7) with (Z.land pos (2 ^ 3 - 1)). rewrite land_low by lia. change (2 ^ 3) with 8.
  pose proof (Z.div_mod pos 8 ltac:(lia)) as Ep. pose proof (Z.mod_pos_bound pos 8 ltac:(lia)) as Hm.
  set (q := pos / 8) in *. set (sh := pos mod 8) in *. assert (0 <= q) as Hq by (apply Z.div_pos; lia).
  pose proof (is_bytes_at data (Z.to_nat q) Hd) as B0. pose proof (is_bytes_at data (S (Z.to_nat q)) Hd) as B1.
  destruct (Z.ltb_spec (sh + j) 8).
  - replace ((pos + j) / 8) with q by (apply (Z.div_unique_pos _ _ _ (sh + j)); lia).
    replace ((pos + j) mod 8) with (sh + j) by (apply (Z.mod_unique_pos _ _ q); lia).
    destruct (data !! Z.to_nat q) as [b0|] eqn:E0; cbn [default] in *; [|by rewrite !Z.bits_0].
    destruct (Z.eqb_spec sh 0) as [->|Hs]; [f_equal; lia|].
    rewrite Z.lor_spec, Z.shiftr_spec, (byte_bit _ _ B1) by lia. change 256 with (2 ^ 8).
    rewrite Z.mod_pow2_bits_low, Z.shiftl_spec, orb_false_r by lia. f_equal. lia.
  - replace ((pos + j) / 8) with (q + 1) by (apply (Z.div_unique_pos _ _ _ (sh + j - 8)); lia).
    replace ((pos + j) mod 8) with (sh + j - 8) by (apply (Z.mod_unique_pos _ _ (q + 1)); lia).
    replace (Z.to_nat (q + 1)) with (S (Z.to_nat q)) by lia.
    destruct (data !! Z.to_nat q) as [b0|] eqn:E0; cbn [default] in *.
    + destruct (Z.eqb_spec sh 0); [lia|].
      rewrite Z.lor_spec, Z.shiftr_spec by lia. change 256 with (2 ^ 8).
      rewrite Z.mod_pow2_bits_low, Z.shiftl_spec, (Z.testbit_neg_r b0) by lia. cbn [orb]. f_equal. lia.
    + apply lookup_ge_None in E0. rewrite (lookup_ge_None_2 data) by lia. by rewrite !Z.bits_0.
Qed.

Lemma read_bit_at data off i : is_bytes data -> 0 <= off -> 0 <= i -> read_bit data off i = Z.b2z (bit_at data (off + i)).
Proof.
  intros Hd Ho Hi. unfold read_bit. pose proof (Z.mod_pos_bound i 8 ltac:(lia)). pose proof (Z.div_mod i 8 ltac:(lia)).
  change 1 with (2 ^ 1 - 1) at 1. rewrite land_low by lia. change (2 ^ 1) with 2. rewrite <- Z.bit0_mod, Z.shiftr_spec by lia.
  rewrite Z.add_0_l, bits_read_bit by (try done; try lia; apply Z.div_pos; lia). do 2 f_equal. lia.
Qed.

(** ** Numbers *)

Lemma bits_of_S data off n : bits_of data off (S n) = bit_at data off :: bits_of data (off + 1) n.
Proof.
  unfold bits_of. cbn [seq fmap list_fmap]. f_equal; [f_equal; lia|]. rewrite <- seq_shift, <- list_fmap_compose.
  apply list_fmap_ext. intros i x _. cbn. f_equal. lia.
Qed.
Lemma bits_of_length data off n : length (bits_of data off n) = n.
Proof. unfold bits_of. by rewrite length_fmap, length_seq. Qed.

Lemma bits_value_from v l : foldl (fun v (b : bool) => 2 * v + Z.b2z b) v l = v * 2 ^ Z.of_nat (length l) + bits_value l.
Proof.
  unfold bits_value. revert v. induction l as [|b l IH]; intros v; cbn [foldl length]; [change (2 ^ Z.of_nat 0) with 1; lia|].
  rewrite IH, (IH (2 * 0 + Z.b2z b)), Nat2Z.inj_succ, Z.pow_succ_r by lia. ring.
Qed.
Lemma bits_value_cons b l : bits_value (b :: l) = Z.b2z b * 2 ^ Z.of_nat (length l) + bits_value l.
Proof. unfold bits_value at 1. cbn [foldl]. rewrite bits_value_from. done. Qed.
Lemma bits_value_range l : 0 <= bits_value l < 2 ^ Z.of_nat (length l).
Proof.
  induction l as [|b l IH]; [cbn; lia|]. rewrite bits_value_cons. cbn [length]. rewrite Nat2Z.inj_succ, Z.pow_succ_r by lia.
  destruct b; cbn [Z.b2z]; lia.
Qed.
Lemma bits_value_bit l i : (i < length l)%nat -> Z.testbit (bits_value l) (Z.of_nat (length l) - 1 - Z.of_nat i) = default false (l !! i).
Proof.
  revert i. induction l as [|b l IH]; intros i Hi; cbn [length] in *; [lia|]. rewrite bits_value_cons.
  pose proof (bits_value_range l) as R. rewrite Z.add_comm.
  rewrite <- (Z.shiftl_mul_pow2 (Z.b2z b)), (Z.add_comm (bits_value l)), Z.shiftl_mul_pow2 by lia.
  rewrite <- lor_high_low by lia. rewrite Z.lor_spec, <- Z.shiftl_mul_pow2, Z.shiftl_spec by lia.
  destruct i as [|i].
  - change ((b :: l) !! 0%nat) with (Some b). cbn [default]. rewrite (testbit_high _ _ _ R) by lia. rewrite orb_false_r. replace (_ - _) with 0 by lia. by destruct b.
  - rewrite Z.testbit_neg_r by lia. cbn [orb]. change ((b :: l) !! S i) with (l !! i). rewrite <- (IH i) by lia. f_equal. lia.
Qed.
Lemma bits_value_inj l l' : length l = length l' -> bits_value l = bits_value l' -> l = l'.
Proof.
  revert l'. induction l as [|b l IH]; intros [|b' l'] Hl E; try done. cbn [length] in Hl. rewrite !bits_value_cons in E.
  pose proof (bits_value_range l). pose proof (bits_value_range l'). injection Hl as Hl. rewrite Hl in *.
  destruct b, b'; cbn [Z.b2z] in E; try lia; (f_equal; [done.. | apply IH; [done|lia]]).
Qed.

Lemma read_value_bits data : is_bytes data -> forall n off i v, 0 <= off -> 0 <= i -> 0 <= v -> v * 2 ^ Z.of_nat n + 2 ^ Z.of_nat n <= 2 ^ 64 ->
  read_value data off i v n = v * 2 ^ Z.of_nat n + bits_value (bits_of data (off + i) n).
Proof.
  intros Hd. induction n as [|n IH]; intros off i v Ho Hi Hv Hs; cbn [read_value]; [unfold bits_of, bits_value; cbn; lia|].
  rewrite Nat2Z.inj_succ, Z.pow_succ_r in * by lia. pose proof (Z.pow_pos_nonneg 2 (Z.of_nat n) ltac:(lia) ltac:(lia)) as Hp.
  rewrite Z.shiftl_mul_pow2, wrap64_small by (unfold is_u64, u64_max; nia || lia). rewrite read_bit_at by done.
  rewrite (lor_high_low v (Z.b2z (bit_at data (off + i))) 1) by (destruct (bit_at data (off + i)); cbn; lia). change (2 ^ 1) with 2.
  rewrite IH by (try lia; destruct (bit_at data (off + i)); cbn [Z.b2z]; nia).
  rewrite bits_of_S, bits_value_cons, bits_of_length. rewrite Z.add_assoc. ring.
Qed.

(** Comparing bit by bit is comparing the numbers. *)
Lemma mod_pow_S e n : e mod 2 ^ Z.of_nat (S n) = Z.b2z (Z.testbit e (Z.of_nat n)) * 2 ^ Z.of_nat n + e mod 2 ^ Z.of_nat n.
Proof.
  rewrite Nat2Z.inj_succ, Z.pow_succ_r by lia. pose proof (Z.pow_pos_nonneg 2 (Z.of_nat n) ltac:(lia) ltac:(lia)) as Hp.
  rewrite (Z.mul_comm 2), Z.rem_mul_r by lia. rewrite Z.testbit_spec' by lia. lia.
Qed.

Lemma bits_eq_spec data off bits e : is_bytes data -> 0 <= off -> forall n i, 0 <= i -> Z.of_nat n + i = bits ->
  bits_eq data off bits e i n = (bits_value (bits_of data (off + i) n) =? e mod 2 ^ Z.of_nat n).
Proof.
  intros Hd Ho. induction n as [|n IH]; intros i Hi Hb; cbn [bits_eq].
  { change (2 ^ Z.of_nat 0) with 1. by rewrite Z.mod_1_r. }
  rewrite IH, read_bit_at, mod_pow_S, bits_of_S, bits_value_cons, bits_of_length by (try done; lia).
  replace (bits - 1 - i) with (Z.of_nat n) by lia. change 1 with (2 ^ 1 - 1) at 1. rewrite land_low by lia. change (2 ^ 1) with 2.
  rewrite <- Z.bit0_mod, Z.shiftr_spec, Z.add_0_l, <- Z.add_assoc by lia.
  pose proof (bits_value_range (bits_of data (off + (i + 1)) n)) as R. rewrite bits_of_length in R.
  pose proof (Z.mod_pos_bound e (2 ^ Z.of_nat n) ltac:(lia)) as M.
  destruct (bit_at data (off + i)), (Z.testbit e (Z.of_nat n)); cbn [Z.b2z Z.eqb andb Pos.eqb];
    repeat match goal with |- context [?a =? ?b] => destruct (Z.eqb_spec a b) end; lia.
Qed.

(** The number that is compared with: two's complement, where it fits. *)
Lemma expected_spec v n : 0 <= n -> - 2 ^ 60 <= v < 2 ^ 60 ->
  expected_u64 (make_small_signed v) n =
  (if (n <=? 64) && (- 2 ^ n <=? v) && (v <? 2 ^ n) then Some (v mod 2 ^ n) else None).
Proof.
  intros Hn Hv. destruct (small_reads v Hv) as (_ & Ht & E). unfold expected_u64, to_i64, is_small. rewrite Ht, E. cbn [Z.eqb SMALL_INT].
  destruct (Z.ltb_spec 64 n); [by rewrite (proj2 (Z.leb_gt n 64)) by lia|]. rewrite (proj2 (Z.leb_le n 64)) by lia. cbn [andb].
  pose proof (Z.pow_pos_nonneg 2 n ltac:(lia) ltac:(lia)) as Hp. rewrite Z.shiftl_mul_pow2, Z.mul_1_l by lia.
  destruct (Z.leb_spec 0 v).
  - rewrite (proj2 (Z.leb_le (- 2 ^ n) v)) by lia. cbn [andb]. destruct (Z.ltb_spec v (2 ^ n)).
    + rewrite (proj2 (Z.leb_gt (2 ^ n) v)), andb_false_r, Z.mod_small by lia. done.
    + rewrite (proj2 (Z.leb_le (2 ^ n) v)) by lia. destruct (Z.ltb_spec n 64); [done|]. replace n with 64 in * by lia. lia.
  - rewrite (proj2 (Z.ltb_lt v (2 ^ n))) by lia. rewrite andb_true_r. destruct (Z.eqb_spec n 64) as [->|].
    + rewrite (proj2 (Z.leb_le _ _)) by lia. done.
    + destruct (Z.leb_spec (- 2 ^ n) v).
      * rewrite (proj2 (Z.ltb_ge _ _)) by lia. f_equal. apply (Z.mod_unique_pos _ _ (-1)); lia.
      * by rewrite (proj2 (Z.ltb_lt _ _)) by lia.
Qed.

Lemma bits_of_app data off n m : bits_of data off (n + m) = bits_of data off n ++ bits_of data (off + Z.of_nat n) m.
Proof.
  revert off. induction n as [|n IH]; intros off; cbn [Nat.add].
  - change (bits_of data off 0) with (@Datatypes.nil bool). cbn [app]. f_equal. lia.
  - rewrite !bits_of_S, IH. cbn [app]. do 3 f_equal. lia.
Qed.
Lemma bits_of_take data off n k : (k <= n)%nat -> take k (bits_of data off n) = bits_of data off k.
Proof. intros H. replace n with (k + (n - k))%nat by lia. rewrite bits_of_app. by rewrite take_app_length' by (by rewrite bits_of_length). Qed.
Lemma bits_of_drop data off n k : (k <= n)%nat -> drop k (bits_of data off n) = bits_of data (off + Z.of_nat k) (n - k).
Proof. intros H. replace n with (k + (n - k))%nat at 1 by lia. rewrite bits_of_app. by rewrite drop_app_length' by (by rewrite bits_of_length). Qed.
