(* ===== verification/BeamPattern.v ===== *)
(** Matching as a pattern over a string of bits: an abstract meaning of the commands of
    [bs_match], and that the instruction implements it. *)
From S2P Require Import Prelude Float64 BeamTerm BeamMem BeamBinary BeamCompare BeamHeap BeamProc BeamOps BeamFacts BeamCopy BeamReader BeamCte BeamEtf BeamBits BeamBitOps BeamMatch BeamBitFacts.

(** * The specification: segments of a string of bits *)

Inductive segment :=
| SegAtLeast (size unit : Z)
| SegExactly (size : Z)
| SegEqual (size value : Z)
| SegSkip (size : Z)
| SegInteger (live : Z) (flags : Term) (size unit x : Z).

Definition long_enough (n : Z) (l : list bool) : bool := n <=? Z.of_nat (length l).

(** The register that is written, if any, and the bits that are left; [None] is no match. *)
Definition match_segment (g : segment) (l : list bool) : option (list (Z * Z) * list bool) :=
  match g with
  | SegAtLeast size unit => if long_enough (size * unit) l then Some ([], l) else None
  | SegExactly size => if Z.of_nat (length l) =? size then Some ([], l) else None
  | SegEqual size value =>
    if long_enough size l && (size <=? 64) && (- 2 ^ size <=? value) && (value <? 2 ^ size)
       && (bits_value (take (Z.to_nat size) l) =? value mod 2 ^ size)
    then Some ([], drop (Z.to_nat size) l) else None
  | SegSkip size => if long_enough size l then Some ([], drop (Z.to_nat size) l) else None
  | SegInteger _ _ size unit x =>
    let n := Z.to_nat (size * unit) in
    if long_enough (size * unit) l then Some ([(x, bits_value (take n l))], drop n l) else None
  end.

Fixpoint match_segments (gs : list segment) (l : list bool) : option (list bool) * list (Z * Z) :=
  match gs with
  | [] => (Some l, [])
  | g :: gs =>
    match match_segment g l with
    | None => (None, [])
    | Some (w, l) => let (r, ws) := match_segments gs l in (r, w ++ ws)
    end
  end.

(** What the compiler sees to: numbers are small, and an integer fits a small one. *)
Definition count (n : Z) : Prop := 0 <= n < 2 ^ 55.
Definition segment_ok (g : segment) : Prop :=
  match g with
  | SegAtLeast size unit => count size /\ count unit /\ size * unit < 2 ^ 64
  | SegExactly size | SegSkip size => count size
  | SegEqual size value => count size /\ - 2 ^ 60 <= value < 2 ^ 60
  | SegInteger live _ size unit x => count live /\ count size /\ count unit /\ size * unit <= 60 /\ 0 <= x < MAX_XREGS
  end.

(** * The commands *)

Definition command_of (g : segment) : Command :=
  match g with
  | SegAtLeast _ _ => EnsureAtLeast | SegExactly _ => EnsureExactly | SegEqual _ _ => MatchEq
  | SegSkip _ => Skip | SegInteger _ _ _ _ _ => Integer
  end.
Definition args_of (g : segment) : list Term :=
  match g with
  | SegAtLeast size unit => [make_small_signed size; make_small_signed unit]
  | SegExactly size | SegSkip size => [make_small_signed size]
  | SegEqual size value => [nil; make_small_signed size; make_small_signed value]
  | SegInteger live flags size unit x =>
    [make_small_signed live; flags; make_small_signed size; make_small_signed unit; make_register_x x]
  end.

Definition name_of (c : Command) : string :=
  match c with
  | EnsureAtLeast => "ensure_at_least" | EnsureExactly => "ensure_exactly" | MatchEq => "=:=" | Skip => "skip"
  | Integer => "integer" | GetTail => "get_tail"
  end.
(** The commands are all interned. *)
Definition commands_known (st : AtomStorage) : Prop :=
  forall c, exists i, atoms_by_str st !! name_of c = Some i /\ 0 <= i < 2 ^ 61.
Definition command_atom (st : AtomStorage) (c : Command) : Term := make_atom (default 0 (atoms_by_str st !! name_of c)).
Definition words_of (st : AtomStorage) (g : segment) : list Term := command_atom st (command_of g) :: args_of g.

Lemma command_atom_inj st c c' : atoms_ok st -> commands_known st -> command_atom st c = command_atom st c' -> c = c'.
Proof.
  intros [A _] K. unfold command_atom. destruct (K c) as (i & Ei & Hi), (K c') as (j & Ej & Hj). rewrite Ei, Ej. cbn [default].
  unfold id. intros E. apply make_atom_inj in E; [|done..]. subst j. destruct (A _ _ Ei) as (_ & a & Ea & Na), (A _ _ Ej) as (_ & a' & Ea' & Na').
  rewrite Ea in Ea'. injection Ea' as ->. rewrite Na in Na'. by destruct c, c'.
Qed.

Lemma command_is_atom st c : commands_known st -> is_atom (command_atom st c) = true.
Proof.
  intros K. unfold command_atom. destruct (K c) as (i & -> & Hi). destruct (tagged_reads ATOM i) as (_ & Ht & _); [done..|].
  cbn [default]. unfold id, is_atom, make_atom. by rewrite Ht.
Qed.

Lemma first_command st c : atoms_ok st -> commands_known st ->
  first_named COMMANDS (fun _ => true) (command_atom st c) st = Ret (Some c, st).
Proof.
  intros A K. pose proof (fun c' => command_atom_inj st c c' A K) as I.
  assert (forall c', from_str st (name_of c') = Some (command_atom st c', st)) as E.
  { intros c'. unfold from_str, command_atom. destruct (K c') as (i & -> & _). done. }
  unfold COMMANDS. cbn [first_named].
  pose proof (E EnsureAtLeast) as E1. pose proof (E EnsureExactly) as E2. pose proof (E MatchEq) as E3.
  pose proof (E Skip) as E4. pose proof (E Integer) as E5. pose proof (E GetTail) as E6. cbn [name_of] in *.
  rewrite E1. cbn [unwrap vm_bind]. case_bool_decide as H1; [by apply I in H1; subst|].
  rewrite E2. cbn [unwrap vm_bind andb]. case_bool_decide as H2; [by apply I in H2; subst|].
  rewrite E3. cbn [unwrap vm_bind andb]. case_bool_decide as H3; [by apply I in H3; subst|].
  rewrite E4. cbn [unwrap vm_bind andb]. case_bool_decide as H4; [by apply I in H4; subst|].
  rewrite E5. cbn [unwrap vm_bind andb]. case_bool_decide as H5; [by apply I in H5; subst|].
  rewrite E6. cbn [unwrap vm_bind andb]. case_bool_decide as H6; [by apply I in H6; subst|]. by destruct c.
Qed.

(** ** Arguments *)

Lemma to_usize_small n : count n -> to_usize (make_small_signed n) = Some n.
Proof.
  intros Hn. destruct (small_value n Hn) as (E1 & E2 & _). unfold to_usize, usize_arg. rewrite E1, E2.
  rewrite wrap64_small; [done|]. unfold count, is_u64, u64_max in *. lia.
Qed.

Definition x_reads (n : nat) : bool :=
  let x := make_register_x (Z.of_nat n) in
  is_special x && (get_special_tag x =? REG) && (get_reg_tag x =? REG_X) && (get_reg_value x =? Z.of_nat n).
Lemma x_reads_all : forallb x_reads (seq 0 256) = true.
Proof. vm_compute. reflexivity. Qed.
Lemma register_x_reads n : 0 <= n < MAX_XREGS ->
  is_special (make_register_x n) && (get_special_tag (make_register_x n) =? REG) = true /\
  get_reg_tag (make_register_x n) = REG_X /\ get_reg_value (make_register_x n) = n.
Proof.
  unfold MAX_XREGS. intros Hn. pose proof x_reads_all as H. rewrite forallb_forall in H. specialize (H (Z.to_nat n)).
  unfold x_reads in H. rewrite Z2Nat.id in H by lia. rewrite in_seq in H. specialize (H ltac:(lia)).
  apply andb_true_iff in H as [H ->%Z.eqb_eq]. apply andb_true_iff in H as [-> ->%Z.eqb_eq]. done.
Qed.

Lemma store_x s v n : 0 <= n < MAX_XREGS -> Z.of_nat (length (regs (ctx s))) = MAX_XREGS ->
  store s v (make_register_x n) = Ret (with_ctx s (set_regs (ctx s) (<[Z.to_nat n := v]> (regs (ctx s))))).
Proof.
  intros Hn Hl. destruct (register_x_reads n Hn) as (E1 & E2 & E3). unfold store, store_value. rewrite E1, E2, E3. cbn [Z.eqb REG_X Pos.eqb].
  unfold set_x. rewrite (proj2 (Z.leb_gt _ _)) by lia. cbn [vm_bind]. unfold with_ctx, hp. by destruct s as [m [] ].
Qed.

(** The readers do not look into match states. *)
Lemma bit_reader_at_insert m m' p b n : forall q, boxes m' = <[p := b]> (boxes m) ->
  (exists a, boxes m !! p = Some a /\ get_type a = BOXTYPETAG_BINARY_MATCH_STATE) -> get_type b = BOXTYPETAG_BINARY_MATCH_STATE ->
  bit_reader_at m' n q = bit_reader_at m n q.
Proof.
  induction n as [|n IH]; intros q E (a & Ea & Ta) Tb; [done|]. cbn [bit_reader_at]. rewrite E.
  destruct (decide (q = p)) as [->|Hne].
  - rewrite lookup_insert_eq, Ea. cbn [read vm_bind]. destruct a; try done. destruct b; done.
  - rewrite lookup_insert_ne by done. destruct (boxes m !! q) as [[]|]; try done. cbn [read vm_bind]. by rewrite IH by eauto.
Qed.

Lemma bit_reader_insert m m' p a b q : boxes m' = <[p := b]> (boxes m) -> boxes m !! p = Some a ->
  get_type a = BOXTYPETAG_BINARY_MATCH_STATE -> get_type b = BOXTYPETAG_BINARY_MATCH_STATE ->
  get_bit_reader m' q = get_bit_reader m q.
Proof.
  intros E Ea Ta Tb. unfold get_bit_reader, BeamBinary.depth.
  replace (size (boxes m')) with (size (boxes m)) by (rewrite E; symmetry; apply map_size_insert_Some; eauto).
  eapply bit_reader_at_insert; eauto.
Qed.

Section Refinement.
Context (st : AtomStorage) (s : Machine) (p orig stop base : Z) (data : list Z).

(** Somewhere in the match: the registers and the position have changed. *)
Definition at_state (r : list Term) (pos : Z) : Machine :=
  {| mem := {| boxes := <[p := OMatchState orig pos stop]> (boxes (mem s)); conses := conses (mem s) |};
     proc := with_context (proc s) (set_regs (ctx s) r) |}.
Definition rest_at (pos : Z) : list bool := bits_of data (base + pos) (Z.to_nat (stop - pos)).
Definition write_regs (r : list Term) (ws : list (Z * Z)) : list Term :=
  foldl (fun r w => <[Z.to_nat w.1 := make_small_signed w.2]> r) r ws.

Context (pos0 : Z) (Hstate : boxes (mem s) !! p = Some (OMatchState orig pos0 stop)) (Hpos0 : 0 <= pos0 <= stop) (Hstop : stop < 2 ^ 64)
  (Hsrc : get_bit_reader (mem s) orig = Ret (data, base)) (Hbase : 0 <= base) (Hdata : is_bytes data)
  (Hregs : Z.of_nat (length (regs (ctx s))) = MAX_XREGS).

Let view (pos : Z) : MatchState := {| ms_orig := orig; read_position := pos; stop_at := stop |}.

Lemma write_regs_length r ws : length (write_regs r ws) = length r.
Proof. unfold write_regs. revert r. induction ws as [|w ws IH]; intros r; cbn; [done|]. by rewrite IH, length_insert. Qed.

Lemma at_start : at_state (regs (ctx s)) pos0 = s.
Proof. unfold at_state. rewrite insert_id by done. destruct s as [[] [? ? ? [] ] ]. done. Qed.
Lemma at_match_state r pos : match_state_at (at_state r pos) p = Ret (view pos).
Proof. unfold match_state_at. cbn [mem at_state boxes]. by rewrite lookup_insert_eq. Qed.
Lemma at_moved r pos pos' : set_match_offset (at_state r pos) p (view pos) pos' = at_state r pos'.
Proof. unfold set_match_offset, put_box, at_state. cbn. by rewrite insert_insert_eq. Qed.
Lemma at_reader r pos : match_reader (at_state r pos) (view pos) = Ret (data, base + pos).
Proof.
  unfold match_reader. cbn [ms_orig view read_position].
  rewrite (bit_reader_insert (mem s) _ p (OMatchState orig pos0 stop) (OMatchState orig pos stop)) by done. by rewrite Hsrc.
Qed.
Lemma at_store r pos x v : 0 <= x < MAX_XREGS -> Z.of_nat (length r) = MAX_XREGS ->
  store (at_state r pos) v (make_register_x x) = Ret (at_state (<[Z.to_nat x := v]> r) pos).
Proof. intros Hx Hr. by rewrite store_x. Qed.

Lemma remaining_at pos : 0 <= pos <= stop -> bits_remaining (view pos) = Z.of_nat (length (rest_at pos)).
Proof.
  intros Hp. unfold bits_remaining, usize_sub, rest_at. cbn [view stop_at read_position]. rewrite bits_of_length.
  rewrite (proj2 (Z.leb_le _ _)) by lia. lia.
Qed.
Lemma ensure_at pos n : 0 <= pos <= stop -> ensure_remaining (view pos) n = long_enough n (rest_at pos).
Proof. intros Hp. unfold ensure_remaining, long_enough. by rewrite remaining_at. Qed.
Lemma drop_at pos n : 0 <= pos <= stop -> 0 <= n -> long_enough n (rest_at pos) = true ->
  drop (Z.to_nat n) (rest_at pos) = rest_at (pos + n) /\ 0 <= pos + n <= stop /\ wrap64 (pos + n) = pos + n /\
  take (Z.to_nat n) (rest_at pos) = bits_of data (base + pos) (Z.to_nat n).
Proof.
  unfold long_enough, rest_at. rewrite bits_of_length. intros Hp Hn L. apply Z.leb_le in L. rewrite bits_of_drop, bits_of_take by lia.
  split_and!; [f_equal; lia | lia.. | apply wrap64_small; unfold is_u64, u64_max; lia | done].
Qed.

(** A command does to the machine what its segment does to the bits. *)
Definition stepped (pos : Z) (r : list Term) (g : segment) (v : vm (bool * Machine)) : Prop :=
  match match_segment g (rest_at pos) with
  | None => v = Ret (false, at_state r pos)
  | Some (w, l) => exists pos', v = Ret (true, at_state (write_regs r w) pos') /\ 0 <= pos' <= stop /\ l = rest_at pos'
  end.

Lemma step_ensure pos r size unit : segment_ok (SegAtLeast size unit) -> 0 <= pos <= stop ->
  stepped pos r (SegAtLeast size unit) (run_command EnsureAtLeast (args_of (SegAtLeast size unit)) p (at_state r pos)).
Proof.
  intros (Hs & Hu & Hm) Hp. unfold run_command. rewrite at_match_state. cbn [args_of fmap list_fmap vm_bind].
  rewrite !to_usize_small by done. unfold with_unit. rewrite wrap64_small by (unfold is_u64, u64_max, count in *; nia). rewrite ensure_at by done.
  unfold stepped, match_segment. destruct (long_enough _ _); [|done]. exists pos. by split_and!; try lia.
Qed.
Lemma step_exactly pos r size : segment_ok (SegExactly size) -> 0 <= pos <= stop ->
  stepped pos r (SegExactly size) (run_command EnsureExactly (args_of (SegExactly size)) p (at_state r pos)).
Proof.
  intros Hs Hp. unfold run_command. rewrite at_match_state. cbn [args_of fmap list_fmap vm_bind]. rewrite to_usize_small by done.
  rewrite remaining_at by done. unfold stepped, match_segment. destruct (_ =? _); [|done]. exists pos. by split_and!; try lia.
Qed.
Lemma step_skip pos r size : segment_ok (SegSkip size) -> 0 <= pos <= stop ->
  stepped pos r (SegSkip size) (run_command Skip (args_of (SegSkip size)) p (at_state r pos)).
Proof.
  intros Hs Hp. unfold run_command. rewrite at_match_state. cbn [args_of fmap list_fmap vm_bind]. rewrite to_usize_small by done.
  rewrite ensure_at by done. unfold stepped, match_segment. destruct (long_enough _ _) eqn:L; [|done].
  destruct (drop_at pos size Hp ltac:(unfold segment_ok, count in Hs; lia) L) as (-> & Hr & W & _).
  exists (pos + size). unfold increase_match_offset. cbn [read_position view]. rewrite W, at_moved. done.
Qed.
Lemma step_equal pos r size value : segment_ok (SegEqual size value) -> 0 <= pos <= stop ->
  stepped pos r (SegEqual size value) (run_command MatchEq (args_of (SegEqual size value)) p (at_state r pos)).
Proof.
  intros [Hs Hv] Hp. unfold run_command. rewrite at_match_state. cbn [args_of fmap list_fmap vm_bind]. rewrite to_usize_small by done.
  rewrite bool_decide_eq_true_2 by done. cbn [negb orb]. rewrite ensure_at by done. unfold stepped, match_segment.
  destruct (long_enough _ _) eqn:L; [|done]. cbn [negb andb]. assert (0 <= size) as H0 by (unfold count in Hs; lia).
  destruct (drop_at pos size Hp H0 L) as (-> & Hr & W & ->). unfold match_bits_eq. rewrite expected_spec by done.
  destruct ((size <=? 64) && (- 2 ^ size <=? value) && (value <? 2 ^ size)); [|done]. cbn [andb]. rewrite at_reader. cbn [vm_bind].
  rewrite (bits_eq_spec _ _ size) by (try done; lia). rewrite Z2Nat.id, Z.mod_mod, Z.add_0_r by (try done; apply Z.pow_nonzero; lia).
  destruct (_ =? _); [|done]. exists (pos + size). unfold increase_match_offset. cbn [read_position view]. rewrite W, at_moved. done.
Qed.
Lemma step_integer pos r live flags size unit x : segment_ok (SegInteger live flags size unit x) -> 0 <= pos <= stop ->
  Z.of_nat (length r) = MAX_XREGS ->
  stepped pos r (SegInteger live flags size unit x) (run_command Integer (args_of (SegInteger live flags size unit x)) p (at_state r pos)).
Proof.
  intros (Hl & Hs & Hu & Hm & Hx) Hp Hr. unfold run_command. rewrite at_match_state. cbn [args_of fmap list_fmap vm_bind].
  rewrite !to_usize_small by done. unfold extract_integer. rewrite at_match_state. cbn [vm_bind].
  assert (0 <= size * unit) as H0 by (unfold count in *; nia). rewrite wrap64_small by (unfold is_u64, u64_max; lia).
  rewrite ensure_at by done. unfold stepped, match_segment. destruct (long_enough _ _) eqn:L; [|done]. cbn [negb].
  destruct (drop_at pos _ Hp H0 L) as (-> & Hr' & W & ->). rewrite at_reader. cbn [vm_bind].
  assert (2 ^ (size * unit) <= 2 ^ 60) as H60 by (apply Z.pow_le_mono_r; lia).
  rewrite read_value_bits by (try done; try lia; rewrite Z2Nat.id; lia). rewrite Z.mul_0_l, Z.add_0_l, Z.add_0_r.
  pose proof (bits_value_range (bits_of data (base + pos) (Z.to_nat (size * unit)))) as R. rewrite bits_of_length, Z2Nat.id in R by done.
  rewrite small_unsigned_signed by lia. unfold increase_match_offset. cbn [read_position view]. rewrite W, at_moved.
  rewrite at_store by done. cbn [vm_bind]. exists (pos + size * unit). done.
Qed.

Lemma step_segment pos r g : segment_ok g -> 0 <= pos <= stop -> Z.of_nat (length r) = MAX_XREGS ->
  stepped pos r g (run_command (command_of g) (args_of g) p (at_state r pos)).
Proof. destruct g; intros; [by apply step_ensure | by apply step_exactly | by apply step_equal | by apply step_skip | by apply step_integer]. Qed.

(** The row of commands, word by word. *)
Lemma run_flat_refines : atoms_ok st -> commands_known st -> forall gs n pos r, Forall segment_ok gs -> 0 <= pos <= stop ->
  Z.of_nat (length r) = MAX_XREGS -> (length (concat (words_of st <$> gs)) <= n)%nat ->
  exists pos', 0 <= pos' <= stop /\
    run_flat_terms n p (concat (words_of st <$> gs)) st (at_state r pos) =
      Ret (Some (if (match_segments gs (rest_at pos)).1 is Some _ then true else false), st,
           at_state (write_regs r (match_segments gs (rest_at pos)).2) pos') /\
    (forall l, (match_segments gs (rest_at pos)).1 = Some l -> l = rest_at pos').
Proof.
  intros A K. induction gs as [|g gs IH]; intros n pos r Hg Hp Hr Hn; [exists pos; destruct n; cbn; naive_solver|].
  inversion_clear Hg as [|?? Ho Hs]. cbn [fmap list_fmap concat words_of app] in *. destruct n as [|n]; [cbn [length] in Hn; lia|].
  pose proof (command_is_atom st (command_of g) K) as Ha.
  cbn [run_flat_terms length] in *. rewrite length_app in Hn. rewrite Ha, first_command by done. cbn [negb vm_bind].
  assert (length (args_of g) = command_args (command_of g)) as El by (by destruct g).
  rewrite length_app, El. rewrite (proj2 (Nat.ltb_ge _ _)) by lia. rewrite take_app_length', drop_app_length' by done.
  pose proof (step_segment pos r g Ho Hp Hr) as S. unfold stepped in S. cbn [match_segments].
  destruct (match_segment g (rest_at pos)) as [[w l]|].
  - destruct S as (pos1 & -> & Hp1 & ->). cbn [vm_bind].
    destruct (IH n pos1 (write_regs r w) Hs Hp1 ltac:(by rewrite write_regs_length) ltac:(lia)) as (pos' & Hp' & -> & Hl).
    exists pos'. destruct (match_segments gs (rest_at pos1)) as [o ws]. cbn [fst snd] in *. split_and!; [lia | lia | | done].
    unfold write_regs. by rewrite foldl_app.
  - rewrite S. cbn [vm_bind fst snd]. exists pos. by split_and!; try lia.
Qed.
End Refinement.

(** ** The whole instruction *)

Lemma nil_not_boxed : is_boxed nil = false /\ is_boxed empty_tuple = false.
Proof. by split; vm_compute. Qed.


Module BitWitness.
(** The names of the commands next to those every table starts with. *)
Definition atoms : AtomStorage := match register_all empty_storage (ATOM_INIT_NAMES ++ COMMANDS.*1) with Some st => st | None => empty_storage end.
Lemma atoms_are_ok : atoms_ok atoms.
Proof.
  unfold atoms. destruct (register_all _ _) as [st|] eqn:E; [|by vm_compute in E].
  eapply register_all_ok; [exact empty_storage_ok | | | exact E]; [apply (bool_decide_unpack _); vm_compute; exact I | intros s _; apply lookup_empty].
Qed.
Lemma atoms_known : commands_known atoms.
Proof. intros c. destruct c; (eexists; split; [vm_compute; reflexivity | lia]). Qed.

(** A binary of three bytes, a match state on it in x0, and the row of a pattern: at least 24
    bits, an integer of 8 into x1, four bits that are 2, four that are skipped, an integer of 8
    into x2. *)
Definition segments : list segment :=
  [SegAtLeast 24 1; SegInteger 2 nil 8 1 1; SegEqual 4 2; SegSkip 4; SegInteger 2 nil 4 2 2].
Definition memory : Memory :=
  {| boxes := {[ 800 := OBinary 24 [7; 33; 200]; 904 := OMatchState 800 0 24; 1000 := OTuple (concat (words_of atoms <$> segments)) ]}; conses := ∅ |}.
Definition box (p : Z) : Term := default nil (make_boxed p).
Definition machine : Machine :=
  let p := FactsWitness.process 2 16 in
  {| mem := memory;
     proc := with_context p (set_current_bin (set_regs (context p) (<[0%nat := box 904]> (regs (context p)))) (Some 800, 8)) |}.
Definition label : Term := FactsWitness.label.

End BitWitness.
