(* ===== verification/BeamUtf8.v ===== *)
(** Characters in binaries: decoding inverts encoding, on bytes and on the machine. *)
From S2P Require Import Prelude Float64 BeamTerm BeamMem BeamBinary BeamCompare BeamHeap BeamProc BeamOps BeamFacts BeamCopy BeamReader BeamCte BeamEtf BeamBits BeamBitOps BeamMatch BeamBitFacts BeamPattern.

(** * Bytes of a character *)

Definition scalar (c : Z) : Prop := 0 <= c < 55296 \/ 57343 < c < 1114112.

Lemma from_u32_scalar c : scalar c -> from_u32 c = Some c.
Proof.
  unfold scalar, from_u32. intros H. destruct (Z.ltb_spec c 55296); [done|].
  rewrite (proj2 (Z.ltb_lt _ _)), (proj2 (Z.ltb_lt _ _)) by lia. done.
Qed.

(** A property of the bytes below [n] is a table. *)
Lemma below (n : nat) (P : Z -> bool) : forallb (fun k => P (Z.of_nat k)) (seq 0 n) = true -> forall x, 0 <= x < Z.of_nat n -> P x = true.
Proof.
  intros H x Hx. rewrite forallb_forall in H. specialize (H (Z.to_nat x)). rewrite Z2Nat.id in H by lia. apply H, in_seq. lia.
Qed.

Lemma continuation_byte c k : 0 <= c -> 0 <= k -> let y := (c / 2 ^ k) mod 64 in
  continuation c k = 128 + y /\ Z.land (128 + y) 192 = 128 /\ Z.land (128 + y) 63 = y /\ 0 <= 128 + y < 256.
Proof.
  intros Hc Hk y. pose proof (Z.mod_pos_bound (c / 2 ^ k) 64 ltac:(lia)) as Hy. fold y in Hy.
  unfold continuation. rewrite Z.shiftr_div_pow2 by lia. change 63 with (2 ^ 6 - 1) at 1. rewrite land_low by lia. change (2 ^ 6) with 64. fold y.
  pose proof (below 64 (fun y => (Z.lor 128 y =? 128 + y) && (Z.land (128 + y) 192 =? 128) && (Z.land (128 + y) 63 =? y)) ltac:(by vm_compute) y Hy) as B.
  apply andb_true_iff in B as [B B3]. apply andb_true_iff in B as [B1 B2]. zify_bool. split_and!; lia.
Qed.

(** The first byte tells the length. *)
Lemma first_byte_reads (k : nat) (x : Z) : k = 2%nat /\ 0 <= x < 32 \/ k = 3%nat /\ 0 <= x < 16 \/ k = 4%nat /\ 0 <= x < 8 ->
  let b := Z.lor (match k with 2%nat => 192 | 3%nat => 224 | _ => 240 end) x in
  utf8_decode_first_byte b = Some (k, x) /\ 0 <= b < 256.
Proof.
  set (ok := fun k x => let b := Z.lor (match k with 2%nat => 192 | 3%nat => 224 | _ => 240 end) x in
    bool_decide (utf8_decode_first_byte b = Some (k, x)) && (0 <=? b) && (b <? 256)).
  intros H. assert (ok k x = true) as B.
  { destruct H as [[-> H] | [[-> H] | [-> H]]];
      [apply (below 32 (ok 2%nat)) | apply (below 16 (ok 3%nat)) | apply (below 8 (ok 4%nat))]; try (by vm_compute); lia. }
  unfold ok in B. apply andb_true_iff in B as [B B3]. apply andb_true_iff in B as [B1 B2]. apply bool_decide_eq_true in B1. zify_bool.
  cbv zeta. split; [done | lia].
Qed.

Lemma encode_bytes c : 0 <= c < 2 ^ 21 -> is_bytes (encode_utf8 c) /\ Z.of_nat (length (encode_utf8 c)) = len_utf8 c.
Proof.
  intros Hc. unfold encode_utf8, len_utf8, is_bytes.
  destruct (continuation_byte c 0 ltac:(lia) ltac:(lia)) as (E0 & _ & _ & ?), (continuation_byte c 6 ltac:(lia) ltac:(lia)) as (E6 & _ & _ & ?),
    (continuation_byte c 12 ltac:(lia) ltac:(lia)) as (E12 & _ & _ & ?).
  rewrite E0, E6, E12.
  rewrite !Z.shiftr_div_pow2 by lia. repeat case_match; zify_bool; (split; [|done]); repeat (apply Forall_cons_2; [|]); try (apply Forall_nil_2); try lia.
  - apply (first_byte_reads 2). left. split; [done|]. change (2 ^ 6) with 64. Z.to_euclidean_division_equations. lia.
  - apply (first_byte_reads 3). right; left. split; [done|]. change (2 ^ 12) with 4096. Z.to_euclidean_division_equations. lia.
  - apply (first_byte_reads 4). right; right. split; [done|]. change (2 ^ 18) with 262144. Z.to_euclidean_division_equations. lia.
Qed.

(** One more byte: the character so far, and six bits. *)
Lemma next_continuation data off i n c k' k : 0 <= c -> 0 <= k -> k' = k + 6 -> bits_read data off i = continuation c k ->
  continuation_bytes data off (c / 2 ^ k') i (S n) = continuation_bytes data off (c / 2 ^ k) (i + 1) n.
Proof.
  intros Hc Hk -> Er. cbn [continuation_bytes]. destruct (continuation_byte c k Hc Hk) as (E0 & E1 & E2 & _). rewrite Er, E0, E1, E2. cbn [Z.eqb Pos.eqb].
  pose proof (Z.mod_pos_bound (c / 2 ^ k) 64 ltac:(lia)). rewrite Z.shiftl_mul_pow2, lor_high_low by (change (2 ^ 6) with 64; lia).
  rewrite Z.pow_add_r, <- Z.div_div by lia. f_equal. change (2 ^ 6) with 64. pose proof (Z.div_mod (c / 2 ^ k) 64 ltac:(lia)). lia.
Qed.

Lemma decode_encoded data off c : scalar c -> (forall i b, encode_utf8 c !! i = Some b -> bits_read data off (Z.of_nat i) = b) ->
  exists n part, utf8_decode_first_byte (bits_read data off 0) = Some (n, part) /\
    utf8_decode_continuation data off part n = Some c /\ Z.of_nat n = len_utf8 c.
Proof.
  intros Hc Hr. assert (0 <= c < 1114112) as Hc' by (unfold scalar in Hc; lia).
  assert (utf8_range : (55296 <=? c) && (c <=? 57343) = false) by (apply andb_false_iff; unfold scalar in Hc; rewrite !Z.leb_gt; lia).
  unfold encode_utf8, len_utf8 in *. rewrite !Z.shiftr_div_pow2 in Hr by lia. repeat case_match; zify_bool.
  - exists 1%nat, c. change 0 with (Z.of_nat 0). rewrite (Hr 0%nat c eq_refl). unfold utf8_decode_first_byte, utf8_decode_continuation.
    rewrite (proj2 (Z.ltb_lt c 128)) by lia. cbn [Nat.sub continuation_bytes]. by rewrite utf8_range.
  - exists 2%nat, (c / 2 ^ 6). change 0 with (Z.of_nat 0) at 1. rewrite (Hr 0%nat _ eq_refl).
    unfold utf8_decode_continuation. cbn [Nat.sub]. rewrite (next_continuation data off 1 0 c 6 0) by (try lia; exact (Hr 1%nat _ eq_refl)).
    cbn [continuation_bytes]. rewrite Z.div_1_r, (proj2 (Z.ltb_ge c 128)), utf8_range by lia. split; [|done].
    apply (first_byte_reads 2). left. split; [done|]. change (2 ^ 6) with 64. Z.to_euclidean_division_equations. lia.
  - exists 3%nat, (c / 2 ^ 12). change 0 with (Z.of_nat 0) at 1. rewrite (Hr 0%nat _ eq_refl).
    unfold utf8_decode_continuation. cbn [Nat.sub]. rewrite (next_continuation data off 1 1 c 12 6) by (try lia; exact (Hr 1%nat _ eq_refl)).
    rewrite (next_continuation data off (1 + 1) 0 c 6 0) by (try lia; exact (Hr 2%nat _ eq_refl)).
    cbn [continuation_bytes]. rewrite Z.div_1_r, (proj2 (Z.ltb_ge c 2048)), utf8_range by lia. split; [|done].
    apply (first_byte_reads 3). right; left. split; [done|]. change (2 ^ 12) with 4096. Z.to_euclidean_division_equations. lia.
  - exists 4%nat, (c / 2 ^ 18). change 0 with (Z.of_nat 0) at 1. rewrite (Hr 0%nat _ eq_refl).
    unfold utf8_decode_continuation. cbn [Nat.sub]. rewrite (next_continuation data off 1 2 c 18 12) by (try lia; exact (Hr 1%nat _ eq_refl)).
    rewrite (next_continuation data off (1 + 1) 1 c 12 6) by (try lia; exact (Hr 2%nat _ eq_refl)).
    rewrite (next_continuation data off (1 + 1 + 1) 0 c 6 0) by (try lia; exact (Hr 3%nat _ eq_refl)).
    cbn [continuation_bytes]. rewrite Z.div_1_r, (proj2 (Z.ltb_ge c 65536)), utf8_range by lia. split; [|done].
    apply (first_byte_reads 4). right; right. split; [done|]. change (2 ^ 18) with 262144. Z.to_euclidean_division_equations. lia.
Qed.

(** * Bytes in a buffer *)

Lemma put_bytes_length bs : forall i d, length (put_bytes bs i d) = length d.
Proof. induction bs as [|b bs IH]; intros i d; cbn [put_bytes]; [done|]. rewrite IH. case_match; by rewrite ?length_insert. Qed.

Lemma put_bytes_other bs : forall i d j, 0 <= i -> Z.of_nat j < i -> put_bytes bs i d !! j = d !! j.
Proof.
  induction bs as [|b bs IH]; intros i d j Hi Hj; cbn [put_bytes]; [done|]. rewrite IH by lia. case_match; [|done].
  apply list_lookup_insert_ne. lia.
Qed.

Lemma put_bytes_at bs : forall i d j b, 0 <= i -> i + Z.of_nat (length bs) <= Z.of_nat (length d) -> bs !! j = Some b ->
  put_bytes bs i d !! Z.to_nat (i + Z.of_nat j) = Some b.
Proof.
  induction bs as [|b0 bs IH]; intros i d j b Hi Hl Hj; cbn [put_bytes length] in *; [done|].
  assert (in_range d i = true) as -> by (unfold in_range; lia). destruct j as [|j]; cbn [lookup list_lookup] in Hj.
  - injection Hj as <-. rewrite Z.add_0_r, put_bytes_other by lia. apply list_lookup_insert_eq. lia.
  - replace (i + Z.of_nat (S j)) with ((i + 1) + Z.of_nat j) by lia. apply IH; rewrite ?length_insert; [lia.. | done].
Qed.

(** Reading from a whole byte on. *)
Lemma bits_read_aligned data off n b : 0 <= off -> off mod 8 = 0 -> 0 <= n -> data !! Z.to_nat (off / 8 + n) = Some b -> bits_read data off n = b.
Proof.
  intros Ho Ha Hn E. unfold bits_read. rewrite Z.shiftr_div_pow2 by lia. change (2 ^ 3) with 8. rewrite Z.div_add by lia. rewrite E.
  change (Z.land ?x 7) with (Z.land x (2 ^ 3 - 1)). rewrite land_low by lia. change (2 ^ 3) with 8. rewrite Z.mod_add, Ha by lia. done.
Qed.

Lemma small_char c : scalar c -> codepoint_of (make_small_unsigned c) = Some c.
Proof.
  intros Hc. assert (0 <= c < 1114112) as Hc' by (unfold scalar in Hc; lia).
  destruct (tagged_reads SMALL_INT c) as (_ & Ht & E); [done | lia |]. unfold codepoint_of, is_small, get_small_unsigned, make_small_unsigned.
  rewrite Ht, E, Z.mod_small by lia. cbn [Z.eqb SMALL_INT]. by apply from_u32_scalar.
Qed.

Lemma len_utf8_range c : 1 <= len_utf8 c <= 4.
Proof. unfold len_utf8. repeat case_match; lia. Qed.

(** The character that stands at the position of a match state. *)
Lemma utf8_at_encoded s b data off c : scalar c -> match_reader s b = Ret (data, off) -> 0 <= off -> off mod 8 = 0 ->
  8 * len_utf8 c <= bits_remaining b -> (forall i x, encode_utf8 c !! i = Some x -> data !! Z.to_nat (off / 8 + Z.of_nat i) = Some x) ->
  utf8_at s b = Ret (Some (c, len_utf8 c * 8)).
Proof.
  intros Hc Hr Ho Ha Hb Hd. pose proof (len_utf8_range c). unfold utf8_at. rewrite (proj2 (Z.ltb_ge _ _)) by lia. rewrite Hr. cbn [vm_bind].
  destruct (decode_encoded data off c Hc) as (n & part & -> & E & En).
  { intros i x Hi. apply bits_read_aligned; try done; [lia | by apply Hd]. }
  rewrite E, (proj2 (Z.ltb_ge _ _)) by lia. by rewrite En.
Qed.

(** * The round trip *)

(** A character that [bs_put_utf8] writes at a whole byte is the one that [bs_get_utf8] reads
    from there, and both move on by its length. *)
Theorem utf8_roundtrip (c off bits x stop p q : Z) (bytes : list Z) (s : Machine) (fail src ms v : Term) :
  scalar c -> load_arg s src = Ret (make_small_unsigned c) ->
  current_bin (ctx s) = (Some p, off) -> boxes (mem s) !! p = Some (OBinary bits bytes) -> 0 <= off -> off mod 8 = 0 ->
  off + 8 * len_utf8 c <= 8 * Z.of_nat (length bytes) ->
  boxes (mem s) !! q = Some (OMatchState p off stop) -> off + 8 * len_utf8 c <= stop < 2 ^ 64 ->
  load_arg s ms = Ret v -> get_box_ptr_unchecked v = q -> 0 <= x < MAX_XREGS -> Z.of_nat (length (regs (ctx s))) = MAX_XREGS ->
  exists s1 s2,
    bs_put_utf8 fail src s = Ret (Normal, s1) /\ current_bin (ctx s1) = (Some p, off + 8 * len_utf8 c) /\
    bs_get_utf8 fail ms (make_register_x x) s1 = Ret (Normal, s2) /\ get_x (ctx s2) x = Ret (make_small_unsigned c) /\
    match_state_at s2 q = Ret {| ms_orig := p; read_position := off + 8 * len_utf8 c; stop_at := stop |}.
Proof.
  intros Hc Hsrc Hcur Hp Ho Ha Hfit Hq Hstop Hms Hv Hx Hregs.
  destruct (encode_bytes c) as [_ El]; [unfold scalar in Hc; lia|]. pose proof (len_utf8_range c) as Hlen.
  assert (p <> q) as Hpq by congruence.
  unfold bs_put_utf8. rewrite Hsrc. cbn [vm_bind]. rewrite small_char by done.
  unfold building. rewrite Hcur. cbn [unwrap vm_bind fst snd]. rewrite Hp. cbn [read vm_bind get_data_mut].
  unfold bytes_rounded_down. rewrite Z.shiftr_div_pow2 by lia. change (2 ^ 3) with 8. unfold set_data. rewrite Hp.
  set (data := put_bytes _ _ _). unfold normal, advance. set (s1 := with_ctx _ _).
  assert (boxes (mem s1) = <[p := OBinary bits data]> (boxes (mem s))) as Eb by done.
  assert (regs (ctx s1) = regs (ctx s)) as Er by done.
  assert (load_arg s1 ms = Ret v) as Hms1 by exact Hms.
  exists s1. unfold bs_get_utf8, match_state_arg. rewrite Hms1. cbn [vm_bind]. rewrite Hv.
  set (b := {| ms_orig := p; read_position := off; stop_at := stop |}).
  assert (match_state_at s1 q = Ret b) as -> by (unfold match_state_at; rewrite Eb, lookup_insert_ne, Hq by done; done).
  cbn [vm_bind]. rewrite (utf8_at_encoded s1 b data off c); try done; first last.
  - intros i y Hi. apply put_bytes_at; [apply Z.div_pos; lia | rewrite El; Z.to_euclidean_division_equations; lia | done].
  - unfold bits_remaining, usize_sub, b. cbn [stop_at read_position]. rewrite (proj2 (Z.leb_le _ _)) by lia. lia.
  - unfold match_reader, b. cbn [ms_orig read_position]. rewrite (bit_reader_binary _ p bits data) by (by rewrite Eb, lookup_insert_eq). done.
  - cbn [vm_bind]. rewrite from_u32_scalar by done. unfold store_normal. rewrite store_x by (try done; by rewrite Er).
    eexists. split; [done|]. split; [|split; [reflexivity|split]].
    + change (current_bin (ctx s1)) with ((current_bin (ctx s)).1, wrap64 ((current_bin (ctx s)).2 + Z.of_nat (length (encode_utf8 c)) * 8)).
      rewrite Hcur, El. cbn [fst snd]. rewrite wrap64_small by (unfold is_u64, u64_max; lia). f_equal. lia.
    + unfold get_x. cbn [regs ctx proc with_ctx with_proc with_context context set_regs].
      rewrite list_lookup_insert_eq; [done|]. change (Z.to_nat x < length (regs (ctx s)))%nat. unfold MAX_XREGS in *. lia.
    + unfold match_state_at. cbn. rewrite lookup_insert_eq. cbn. rewrite wrap64_small by (unfold is_u64, u64_max; lia). do 2 f_equal. lia.
Qed.

Module Utf8Witness.
Import BitWitness.

(** The euro sign goes behind the first byte of a binary of four. *)
Definition machine4 : Machine :=
  {| mem := {| boxes := {[ 800 := OBinary 32 [65; 0; 0; 0]; 904 := OMatchState 800 8 32 ]}; conses := ∅ |}; proc := proc machine |}.

Lemma utf8_roundtrip_witness : scalar 8364 /\
  exists s1 s2, bs_put_utf8 nil (make_small_unsigned 8364) machine4 = Ret (Normal, s1) /\ current_bin (ctx s1) = (Some 800, 32) /\
    bs_get_utf8 nil (make_register_x 0) (make_register_x 1) s1 = Ret (Normal, s2) /\ get_x (ctx s2) 1 = Ret (make_small_unsigned 8364) /\
    match_state_at s2 904 = Ret {| ms_orig := 800; read_position := 32; stop_at := 32 |}.
Proof.
  assert (scalar 8364) as H by (left; lia). split; [exact H|].
  apply (utf8_roundtrip 8364 8 32 1 32 800 904 [65; 0; 0; 0] machine4 nil (make_small_unsigned 8364) (make_register_x 0) (box 904) H);
    try (by vm_compute); unfold MAX_XREGS; vm_compute; split; congruence.
Defined.

(** A code point above the last is refused when it is read, and passed over when it is skipped. *)
Definition above : Machine :=
  {| mem := {| boxes := {[ 800 := OBinary 32 [247; 191; 191; 191]; 904 := OMatchState 800 0 32 ]}; conses := ∅ |}; proc := proc machine |}.
Lemma skip_accepts_more :
  bs_get_utf8 label (make_register_x 0) (make_register_x 1) above = Ret (Normal, jump_to above label) /\
  exists s, bs_skip_utf8 label (make_register_x 0) above = Ret (Normal, s) /\ ip (ctx s) = 8.
Proof. split; [by vm_compute|]. eexists. split; [by vm_compute | by vm_compute]. Qed.

(** A code point is cut to 32 bits before it is looked at. *)
Lemma codepoint_is_cut : codepoint_of (make_small_unsigned (2 ^ 32 + 65)) = Some 65.
Proof. reflexivity. Qed.
End Utf8Witness.
