(* ===== verification/BeamBitKeeps.v ===== *)
(** What the instructions of the bit syntax keep: bytes stay bytes, binaries keep their sizes,
    match states their binary and a position within it, and every other object is left alone. *)
From S2P Require Import Prelude Float64 BeamTerm BeamMem BeamBinary BeamCompare BeamHeap BeamProc BeamOps BeamFacts BeamReader BeamCte BeamEtf BeamBits BeamBitOps BeamMatch BeamBitFacts BeamPattern BeamUtf8.

(** * Buffers

    A write leaves the length, and bytes are written. *)

Definition is_byte (b : Z) : Prop := 0 <= b < 256.
Definition rewritten (d d' : list Z) : Prop := length d' = length d /\ (is_bytes d -> is_bytes d').

Lemma rewritten_refl d : rewritten d d.
Proof. done. Qed.
Lemma rewritten_trans d1 d2 d3 : rewritten d1 d2 -> rewritten d2 d3 -> rewritten d1 d3.
Proof. unfold rewritten. intros [-> ?] [-> ?]. auto. Qed.

Lemma byte_is_byte x : is_byte (byte x).
Proof. apply Z.mod_pos_bound. lia. Qed.
Lemma below_pow_lor a b n : 0 <= n -> 0 <= a < 2 ^ n -> 0 <= b < 2 ^ n -> 0 <= Z.lor a b < 2 ^ n.
Proof.
  intros Hn Ha Hb. assert (0 <= Z.lor a b) as H0 by (apply Z.lor_nonneg; lia). split; [done|].
  rewrite <- (Z.mod_small a (2 ^ n)), <- (Z.mod_small b (2 ^ n)) by done. rewrite <- !Z.land_ones, <- Z.land_lor_distr_l, Z.land_ones by done.
  by apply Z.mod_pos_bound, Z.pow_pos_nonneg.
Qed.
Lemma byte_lor a b : is_byte a -> is_byte b -> is_byte (Z.lor a b).
Proof. apply (below_pow_lor a b 8). lia. Qed.
Lemma byte_land a x : is_byte a -> is_byte (Z.land a x).
Proof.
  intros Ha. rewrite <- (Z.mod_small a (2 ^ 8)) by exact Ha. rewrite <- Z.land_ones, <- Z.land_assoc, (Z.land_comm (Z.ones 8)), Z.land_assoc, Z.land_ones by lia.
  apply byte_is_byte.
Qed.
Lemma byte_shiftr b k : is_byte b -> 0 <= k -> is_byte (Z.shiftr b k).
Proof.
  unfold is_byte. intros Hb Hk. rewrite Z.shiftr_div_pow2 by done. pose proof (Z.pow_pos_nonneg 2 k ltac:(lia) Hk).
  split; [apply Z.div_pos; lia|]. apply Z.div_lt_upper_bound; nia.
Qed.
Lemma byte_lnot a : is_byte a -> is_byte (Z.lxor a 255).
Proof.
  intros Ha. pose proof (below 256 (fun a => (0 <=? Z.lxor a 255) && (Z.lxor a 255 <? 256)) ltac:(by vm_compute) a Ha) as B.
  unfold is_byte. apply andb_true_iff in B. lia.
Qed.
Lemma byte_masked b old mask : is_byte b -> is_byte old -> is_byte (mask_bits b old mask).
Proof. intros Hb Ho. apply byte_lor; by apply byte_land. Qed.
#[export] Hint Resolve byte_is_byte byte_lor byte_land byte_lnot byte_masked : bytes.

Lemma insert_rewritten d i b : (is_bytes d -> is_byte b) -> rewritten d (<[i := b]> d).
Proof. intros Hb. split; [by rewrite length_insert|]. intros H. apply Forall_insert; [done | by apply Hb]. Qed.
Lemma at_index_byte d i : post (fun b => is_bytes d -> is_byte b) (at_index d i).
Proof. unfold at_index. case_match; [|done]. destruct (d !! _) eqn:E; [|done]. intros Hd. by apply (is_bytes_lookup d (Z.to_nat i)). Qed.
Lemma at_ptr_byte d i : post (fun b => is_bytes d -> is_byte b) (at_ptr d i).
Proof. unfold at_ptr. case_match; [|done]. destruct (d !! _) eqn:E; [|done]. intros Hd. by apply (is_bytes_lookup d (Z.to_nat i)). Qed.
Lemma set_index_rewrites d i b : (is_bytes d -> is_byte b) -> post (rewritten d) (set_index d i b).
Proof. intros Hb. unfold set_index. case_match; [|done]. by apply insert_rewritten. Qed.
Lemma set_ptr_rewrites d i b : (is_bytes d -> is_byte b) -> post (rewritten d) (set_ptr d i b).
Proof. intros Hb. unfold set_ptr. case_match; [|done]. by apply insert_rewritten. Qed.
Lemma write_masked_rewrites d i b mask : (is_bytes d -> is_byte b) -> post (rewritten d) (write_masked d i b mask).
Proof.
  intros Hb. unfold write_masked. eapply post_bind; [apply at_ptr_byte|]. intros old Ho. apply set_ptr_rewrites.
  intros H. apply byte_masked; auto.
Qed.

(** ** [copy_bits] *)

Section Copies.
Context (src : list Z) (sdir ddir : Z) (Hsrc : is_bytes src).

Lemma copy_same_rewrites n : forall sp dp d, post (fun r => rewritten d r.2) (copy_same src sdir ddir n sp dp d).
Proof using Hsrc.
  induction n as [|n IH]; intros sp dp d; cbn [copy_same]; [done|].
  eapply post_bind; [apply at_ptr_byte|]. intros b Hb. eapply post_bind; [apply (set_ptr_rewrites d dp b); auto|].
  intros d' H'. eapply post_mono; [apply IH|]. intros r. by apply rewritten_trans.
Qed.

Lemma copy_shifted_rewrites l r n : 0 <= r -> forall b sp dp d, post (fun x => rewritten d x.2) (copy_shifted src sdir ddir l r n b sp dp d).
Proof using Hsrc.
  intros Hr. induction n as [|n IH]; intros b sp dp d; cbn [copy_shifted]; [done|].
  eapply post_bind; [apply at_ptr_byte|]. intros b' Hb. eapply post_bind; [apply (set_ptr_rewrites d)|].
  - intros _. apply byte_lor; [apply byte_is_byte | apply byte_shiftr; auto].
  - intros d' H'. eapply post_mono; [apply IH|]. intros x. by apply rewritten_trans.
Qed.

Lemma copy_within_rewrites so doff size sp dp mask d : post (rewritten d) (copy_within src sdir so doff size sp dp mask d).
Proof using Hsrc.
  unfold copy_within. case_match; [|case_match].
  - eapply post_bind; [apply at_ptr_byte|]. intros b Hb. apply write_masked_rewrites. auto.
  - eapply post_bind; [apply at_ptr_byte|]. intros b Hb.
    apply (post_bind is_byte).
    + case_match; [|apply byte_is_byte]. eapply post_bind; [apply at_ptr_byte|]. intros b2 Hb2.
      apply byte_lor; [apply byte_is_byte|]. apply byte_shiftr; [auto|]. unfold last_byte_bits. change 7 with (2 ^ 3 - 1).
      rewrite land_low by lia. pose proof (Z.mod_pos_bound (so - doff) (2 ^ 3)). lia.
    + intros x Hx. by apply write_masked_rewrites.
  - eapply post_bind; [apply at_ptr_byte|]. intros b Hb. apply write_masked_rewrites. intros _. apply byte_shiftr; [auto|].
    apply Z.land_nonneg. lia.
Qed.

Lemma copy_aligned_rewrites count sp dp lmask rmask d : post (rewritten d) (copy_aligned src sdir ddir count sp dp lmask rmask d).
Proof using Hsrc.
  unfold copy_aligned. apply (post_bind (fun x => rewritten d x.2)).
  - case_match; [done|]. eapply post_bind; [apply at_ptr_byte|]. intros b Hb. eapply post_bind; [apply (write_masked_rewrites d); auto|]. done.
  - intros [[sp' dp'] d'] H'. eapply post_bind; [apply copy_same_rewrites|]. intros [[sp2 dp2] d2] H2. cbn [snd] in *.
    case_match; [by eapply rewritten_trans|]. eapply post_bind; [apply at_ptr_byte|]. intros b Hb.
    eapply post_mono; [apply (write_masked_rewrites d2); auto|]. intros d3 H3. eapply rewritten_trans; [|exact H3]. by eapply rewritten_trans.
Qed.

Lemma copy_unaligned_rewrites so doff size count sp dp lmask rmask d : 
  post (rewritten d) (copy_unaligned src sdir ddir so doff size count sp dp lmask rmask d).
Proof using Hsrc.
  unfold copy_unaligned. assert (forall n, 0 <= byte_shift n) as Hb by (intros n; apply Z.land_nonneg; lia).
  apply (post_bind (fun x => 0 <= x.1.1.2)).
  - case_match; [|by apply Hb]. eapply post_bind; [apply post_any|]. intros b _. apply Hb.
  - intros [[[l r] b] sp'] Hr. cbn [fst snd] in Hr.
    apply (post_bind (fun x => rewritten d x.2)).
    + case_match; [done|]. eapply post_bind; [apply at_ptr_byte|]. intros b' Hb'. eapply post_bind; [apply (write_masked_rewrites d)|]; [|done].
      intros _. apply byte_lor; [apply byte_is_byte | by apply byte_shiftr; auto].
    + intros [[[b1 sp1] dp1] d1] H1. eapply post_bind; [by apply copy_shifted_rewrites|]. intros [[[b2 sp2] dp2] d2] H2. cbn [snd] in *.
      assert (rewritten d d2) as H12 by (by eapply rewritten_trans). case_match; [done|].
      apply (post_bind is_byte).
      * case_match; [apply byte_is_byte|]. eapply post_bind; [apply at_ptr_byte|]. intros b' Hb'.
        apply byte_lor; [apply byte_is_byte | by apply byte_shiftr; auto].
      * intros x Hx. eapply post_mono; [by apply (write_masked_rewrites d2)|]. intros d3. by apply rewritten_trans.
Qed.

Lemma copy_bits_rewrites so doff size d : post (fun r => rewritten d r.2) (copy_bits src sdir ddir so doff size d).
Proof using Hsrc.
  unfold copy_bits. case_match; [done|]. eapply post_bind; [|intros d' H'; exact H'].
  case_match; [apply copy_within_rewrites|]. case_match; [apply copy_aligned_rewrites | apply copy_unaligned_rewrites].
Qed.
End Copies.

(** ** Integers *)

Lemma copy_val_rewrites n : forall d i ddir v, post (fun r => rewritten d r.1.1) (copy_val n d i ddir v).
Proof.
  induction n as [|n IH]; intros d i ddir v; cbn [copy_val]; [done|].
  eapply post_bind; [by apply (set_index_rewrites d); auto with bytes|]. intros d' H'. eapply post_mono; [apply IH|].
  intros r. by apply rewritten_trans.
Qed.
Lemma copy_and_update_rewrites d i ddir v : post (fun r => rewritten d r.1.1) (copy_and_update_val d i ddir v).
Proof. unfold copy_and_update_val. case_match; [done|]. apply copy_val_rewrites. Qed.

Lemma set_from d d1 i b : rewritten d d1 -> is_byte b -> post (rewritten d) (set_index d1 i b).
Proof. intros H Hb. eapply post_mono; [by apply (set_index_rewrites d1)|]. intros d2. by apply rewritten_trans. Qed.

Lemma paste_smallint_rewrites v size d i flags : post (rewritten d) (paste_smallint v size d i flags).
Proof.
  unfold paste_smallint. case_match.
  - eapply post_bind; [apply copy_and_update_rewrites|]. intros [[d1 i1] v1] H1. by apply set_from; auto with bytes.
  - apply (post_bind (fun r => rewritten d r.1.1)).
    + case_match; [done|]. eapply post_bind; [by apply (set_index_rewrites d); auto with bytes|]. intros d1 H1. exact H1.
    + intros [[d1 i1] v1] H1. eapply post_bind; [apply copy_and_update_rewrites|]. intros [[d2 ?] ?] H2. cbn [fst snd] in *.
      by eapply rewritten_trans.
Qed.

Lemma subc_rewrites x c d i : post (fun r => rewritten d r.2) (subc x c d i).
Proof. unfold subc. eapply post_bind; [by apply (set_index_rewrites d); auto with bytes|]. intros d1 H1. exact H1. Qed.

Lemma limb_up_neg_rewrites n : forall x c d i, post (fun r => rewritten d r.1.2) (limb_up_neg n x c d i).
Proof.
  induction n as [|n IH]; intros x c d i; cbn [limb_up_neg]; [done|]. eapply post_bind; [apply subc_rewrites|].
  intros [c1 d1] H1. eapply post_mono; [apply IH|]. intros r. by apply rewritten_trans.
Qed.
Lemma limb_up_rewrites n : forall x d i, post (fun r => rewritten d r.1) (limb_up n x d i).
Proof.
  induction n as [|n IH]; intros x d i; cbn [limb_up]; [done|]. eapply post_bind; [by apply (set_index_rewrites d); auto with bytes|].
  intros d1 H1. eapply post_mono; [apply IH|]. intros r. by apply rewritten_trans.
Qed.
Lemma limb_down_neg_rewrites n : forall x c d i, post (fun r => rewritten d r.1.2) (limb_down_neg n x c d i).
Proof.
  induction n as [|n IH]; intros x c d i; cbn [limb_down_neg]; [done|]. eapply post_bind; [apply subc_rewrites|].
  intros [c1 d1] H1. eapply post_mono; [apply IH|]. intros r. by apply rewritten_trans.
Qed.
Lemma limb_down_rewrites n : forall x d i, post (fun r => rewritten d r.1.2) (limb_down n x d i).
Proof.
  induction n as [|n IH]; intros x d i; cbn [limb_down]; [done|]. eapply post_bind; [by apply (set_index_rewrites d); auto with bytes|].
  intros d1 H1. eapply post_mono; [apply IH|]. intros r. by apply rewritten_trans.
Qed.
Lemma zero_down_rewrites n : forall d i, post (fun r => rewritten d r.1) (zero_down n d i).
Proof.
  induction n as [|n IH]; intros d i; cbn [zero_down]; [done|]. case_match; [done|].
  eapply post_bind; [by apply (set_index_rewrites d)|]. intros d1 H1. eapply post_mono; [apply IH|]. intros r. by apply rewritten_trans.
Qed.
Lemma pad_neg_rewrites n : forall x c d i, post (rewritten d) (pad_neg n x c d i).
Proof.
  induction n as [|n IH]; intros x c d i; cbn [pad_neg]; [done|]. case_match; [done|]. eapply post_bind; [apply subc_rewrites|].
  intros [c1 d1] H1. eapply post_mono; [apply IH|]. intros r. by apply rewritten_trans.
Qed.
Lemma pad_rewrites n : forall x d i, post (rewritten d) (pad n x d i).
Proof.
  induction n as [|n IH]; intros x d i; cbn [pad]; [done|]. case_match; [done|].
  eapply post_bind; [by apply (set_index_rewrites d); auto with bytes|]. intros d1 H1. eapply post_mono; [apply IH|].
  intros r. by apply rewritten_trans.
Qed.

Lemma le_negative_rewrites l d i : post (fun r => rewritten d r.1) (paste_bigint_le_negative l d i).
Proof.
  unfold paste_bigint_le_negative. apply (post_bind (fun r => rewritten d r.1.2)).
  - case_match; [done|]. eapply post_bind; [apply post_any|]. intros x _. apply limb_up_neg_rewrites.
  - intros [[c1 d1] i1] H1. eapply post_bind; [apply limb_up_neg_rewrites|]. intros [[c2 d2] i2] H2. by eapply rewritten_trans.
Qed.
Lemma le_positive_rewrites l d i : post (fun r => rewritten d r.1) (paste_bigint_le_positive l d i).
Proof.
  unfold paste_bigint_le_positive. apply (post_bind (fun r => rewritten d r.1)).
  - case_match; [done|]. eapply post_bind; [apply post_any|]. intros x _. apply limb_up_rewrites.
  - intros [d1 i1] H1. eapply post_mono; [apply zero_down_rewrites|]. intros r. by apply rewritten_trans.
Qed.
Lemma be_negative_rewrites l d o : post (rewritten d) (paste_bigint_be_negative l d o).
Proof.
  unfold paste_bigint_be_negative. apply (post_bind (fun r => rewritten d r.1.2)).
  - case_match; [case_match; [done|]|]; (eapply post_bind; [apply post_any|]; intros x _).
    + apply limb_down_neg_rewrites.
    + eapply post_bind; [apply subc_rewrites|]. intros [c1 d1] H1. eapply post_mono; [apply limb_down_neg_rewrites|].
      intros r. by apply rewritten_trans.
  - intros [[[a1 c1] d1] i1] H1. eapply post_mono; [apply pad_neg_rewrites|]. intros r. by apply rewritten_trans.
Qed.
Lemma be_positive_rewrites l d o : post (rewritten d) (paste_bigint_be_positive l d o).
Proof.
  unfold paste_bigint_be_positive. apply (post_bind (fun r => rewritten d r.1.2)).
  - case_match; [case_match; [done|]|]; (eapply post_bind; [apply post_any|]; intros x _).
    + apply limb_down_rewrites.
    + eapply post_bind; [by apply (set_index_rewrites d); auto with bytes|]. intros d1 H1. eapply post_mono; [apply limb_down_rewrites|].
      intros r. by apply rewritten_trans.
  - intros [[a1 d1] i1] H1. eapply post_mono; [apply pad_rewrites|]. intros r. by apply rewritten_trans.
Qed.

Lemma paste_bigint_rewrites neg l size d i flags : post (rewritten d) (paste_bigint neg l size d i flags).
Proof.
  unfold paste_bigint. case_match; [done|]. case_match; [|destruct neg; [apply be_negative_rewrites | apply be_positive_rewrites]].
  apply (post_bind (fun r => rewritten d r.1)); [destruct neg; [apply le_negative_rewrites | apply le_positive_rewrites]|].
  intros [d1 i1] H1. case_match; [done|]. eapply post_bind; [apply post_any|]. intros b _. by apply set_from; auto with bytes.
Qed.

Lemma fmt_int_rewrites m v size d i flags : post (rewritten d) (fmt_int m v size d i flags).
Proof.
  unfold fmt_int. case_match; [apply paste_smallint_rewrites|]. eapply post_bind; [apply post_any|]. intros big _. case_match; [|done].
  eapply post_bind; [apply post_any|]. intros o _. case_match; try done. apply paste_bigint_rewrites.
Qed.

Lemma put_big_endian_rewrites m v size rbits d i flags : post (rewritten d) (put_bits_big_endian m v size rbits d i flags).
Proof.
  unfold put_bits_big_endian. eapply post_bind; [apply at_index_byte|]. intros b Hb. eapply post_bind; [apply (set_index_rewrites d)|].
  - intros Hd. specialize (Hb Hd). repeat case_match; auto with bytes.
  - intros d1 H1. case_match; [done|]. eapply post_mono; [apply fmt_int_rewrites|]. intros r. by apply rewritten_trans.
Qed.

Lemma put_integer_rewrites m v size d off flags : post (rewritten d) (put_integer m v size d off flags).
Proof.
  unfold put_integer. repeat case_match; try done; try apply fmt_int_rewrites; try apply put_big_endian_rewrites.
  unfold put_bits_one_byte. eapply post_bind; [apply at_ptr_byte|]. intros b Hb. apply set_ptr_rewrites. auto with bytes.
Qed.

(** * Objects *)

(** What may happen to an object: bytes are written, a position moves. *)
Definition evolves (o o' : Obj) : Prop :=
  match o, o' with
  | OBinary bits bytes, OBinary bits' bytes' => bits' = bits /\ rewritten bytes bytes'
  | OMatchState orig _ stop, OMatchState orig' _ stop' => orig' = orig /\ stop' = stop
  | _, _ => o' = o
  end.
Lemma objs_evolve_refl o : evolves o o.
Proof. by destruct o. Qed.
Lemma objs_evolve_trans o1 o2 o3 : evolves o1 o2 -> evolves o2 o3 -> evolves o1 o3.
Proof.
  destruct o1, o2; cbn; try done; try (by intros [= -> ->]); try (by intros [= ->]); try (by intros [= -> -> ->]); try (by intros [= -> -> -> ->]);
    destruct o3; try done; intros H1 H2; destruct H1 as [-> H1], H2 as [-> H2]; split; try done; [by eapply rewritten_trans | congruence].
Qed.

Definition obj_ok (o : Obj) : Prop :=
  match o with
  | OBinary bits bytes => 0 <= bits < 2 ^ 64 /\ length bytes = Z.to_nat (bytes_rounded_up bits) /\ is_bytes bytes
  | OSlice _ size _ => 0 <= size < 2 ^ 64
  | OMatchState _ pos stop => 0 <= pos <= stop /\ stop < 2 ^ 64
  | _ => True
  end.
Definition objs_ok (m : Memory) : Prop := forall p o, boxes m !! p = Some o -> obj_ok o.

Lemma get_data_bytes m p : objs_ok m -> post is_bytes (get_data m p).
Proof.
  intros Ho. unfold get_data. destruct (boxes m !! p) as [[]|] eqn:E; try done. exact (proj2 (proj2 (Ho _ _ E))).
Qed.

Definition evolved (s s' : Machine) : Prop := forall p, built s p ->
  conses (mem s') !! p = conses (mem s) !! p /\
  match boxes (mem s) !! p, boxes (mem s') !! p with Some o, Some o' => evolves o o' | None, None => True | _, _ => False end.

(** From a state to a later one, where the objects of both are right. *)
Record wrote (s s' : Machine) : Prop := {
  wrote_identity : same_identity (proc s) (proc s');
  wrote_block : heap_base (proc s') = heap_base (proc s) /\ capacity (hp s') = capacity (hp s);
  wrote_top : heap_top (hp s) <= heap_top (hp s');
  wrote_ok : machine_ok s -> machine_ok s';
  wrote_terms : machine_ok s -> evolved s s';
  wrote_objs : objs_ok (mem s')
}.

Lemma evolved_refl s s' : mem s' = mem s -> evolved s s'.
Proof. intros E p _. rewrite E. split; [done|]. destruct (boxes (mem s) !! p); [apply objs_evolve_refl | done]. Qed.

Lemma kept_wrote s s' : kept s s' -> mem s' = mem s -> objs_ok (mem s) -> wrote s s'.
Proof. intros [R I B T O M] E Ho. split; try done; [intros _; by apply evolved_refl | by rewrite E]. Qed.

Lemma wrote_then s1 s2 s3 : wrote s1 s2 -> wrote s2 s3 -> wrote s1 s3.
Proof.
  intros [I1 [B1 C1] T1 O1 M1 _] [I2 [B2 C2] T2 O2 M2 J2]. split; [by eapply same_identity_trans | split; congruence | lia | auto | | done].
  intros O p Hp. assert (built s2 p) as Hp2 by (unfold built in *; rewrite B1, C1; lia).
  destruct (M1 O p Hp) as [<- E1], (M2 (O1 O) p Hp2) as [<- E2]. split; [done|].
  destruct (boxes (mem s1) !! p), (boxes (mem s2) !! p), (boxes (mem s3) !! p); try done. by eapply objs_evolve_trans.
Qed.

(** ** The steps that change memory *)

Lemma put_evolves s p o o' : boxes (mem s) !! p = Some o -> evolves o o' -> objs_ok (mem s) -> obj_ok o' -> wrote s (put_box s p o').
Proof.
  intros E He Ho Ho'. split; try done; try (intros; done); try lia.
  - intros _ q _. split; [done|]. cbn. destruct (decide (q = p)) as [->|Hne].
    + rewrite E, lookup_insert_eq. done.
    + rewrite lookup_insert_ne by done. destruct (boxes (mem s) !! q); [apply objs_evolve_refl | done].
  - intros q x Hq. cbn in Hq. apply lookup_insert_Some in Hq as [[_ <-] | [_ Hq]]; [done | by eapply Ho].
Qed.

Lemma alloc_wrote s n : objs_ok (mem s) -> 0 <= n ->
  post (fun '(p, s') => forall o, obj_ok o -> wrote s (put_box s' p o)) (alloc_words s n).
Proof.
  intros Ho Hn. eapply post_mono; [by apply alloc_words_keeps|]. intros [p s'] (K & E & Hp) o Hoo. unfold put_box.
  pose proof (put_new s s' p (Some o) None K E Hp) as [R I B T O M]. split; try done.
  - intros Hs q Hq. destruct (M Hs q Hq) as [-> ->]. split; [done|]. destruct (boxes (mem s) !! q); [apply objs_evolve_refl | done].
  - intros q x Hq. cbn in Hq. rewrite E in Hq. apply lookup_insert_Some in Hq as [[_ <-] | [_ Hq]]; [done | by eapply Ho].
Qed.

Lemma store_mem s v x : post (fun s' => mem s' = mem s) (store s v x).
Proof. unfold store. eapply post_bind; [apply post_any|]. by intros [c h] _. Qed.
Lemma store_wrote s v x : objs_ok (mem s) -> post (wrote s) (store s v x).
Proof.
  intros Ho. pose proof (store_keeps s v x) as K. pose proof (store_mem s v x) as M. unfold keeps in K.
  destruct (store s v x); try done. cbn [post] in *. by apply kept_wrote.
Qed.

Lemma shape_wrote s s' : same_shape s s' -> objs_ok (mem s) -> wrote s s'.
Proof. intros H Ho. apply kept_wrote; [by apply kept_shape | apply H | done]. Qed.

(** What the flow of control changes. *)
Lemma ctx_wrote s s' c : wrote s s' -> reductions c = reductions (ctx s') -> length (regs c) = length (regs (ctx s')) ->
  length (fpregs c) = length (fpregs (ctx s')) -> wrote s (with_ctx s' c).
Proof.
  intros W H1 H2 H3. eapply wrote_then; [exact W|]. apply shape_wrote; [|apply W]. unfold same_shape. by split_and!.
Qed.
Lemma wrote_refl s : objs_ok (mem s) -> wrote s s.
Proof. intros H. by apply shape_wrote. Qed.

Definition writes {A} (s : Machine) (v : vm (A * Machine)) : Prop := post (fun r => wrote s r.2) v.

Lemma writes_via {A} s s1 (v : vm (A * Machine)) : wrote s s1 -> (objs_ok (mem s1) -> writes s1 v) -> writes s v.
Proof.
  intros W H. specialize (H (wrote_objs _ _ W)). unfold writes in *. eapply post_mono; [exact H|]. intros r. by apply wrote_then.
Qed.
Lemma store_normal_writes s v x : objs_ok (mem s) -> writes s (store_normal v x s).
Proof. intros H. unfold writes, store_normal. eapply post_bind; [by apply store_wrote|]. intros s' W. exact W. Qed.
Lemma jump_writes s l : objs_ok (mem s) -> writes s (normal (jump_to s l)).
Proof. intros H. apply ctx_wrote; [by apply wrote_refl | done..]. Qed.
Lemma jump_if_writes s b l : objs_ok (mem s) -> writes s (jump_if b l s).
Proof. intros H. unfold jump_if. destruct b; [by apply jump_writes | by apply wrote_refl]. Qed.
Lemma jump_or_badarg_writes s l : objs_ok (mem s) -> writes s (jump_or_badarg l s).
Proof. intros H. unfold jump_or_badarg. case_bool_decide; [by apply wrote_refl | by apply jump_writes]. Qed.
Lemma raise_writes s c x : objs_ok (mem s) -> writes s (raise c x s).
Proof. intros H. by apply wrote_refl. Qed.
Create HintDb writes discriminated.
#[export] Hint Resolve store_normal_writes jump_writes jump_if_writes jump_or_badarg_writes raise_writes : writes.

(** ** Binaries *)

Section Create.
Context (stale : Z -> nat -> list Z) (Hstale : forall p n, length (stale p n) = n /\ is_bytes (stale p n)).

Lemma fresh_bytes_ok p n : length (fresh_bytes stale p n) = n /\ is_bytes (fresh_bytes stale p n).
Proof.
  unfold fresh_bytes. destruct (Hstale (p + 40) (n - 8)) as [E F]. split.
  - rewrite length_app, length_replicate, E. lia.
  - apply Forall_app_2; [|done]. apply Forall_replicate. lia.
Qed.

Lemma create_into_writes size s : objs_ok (mem s) -> 0 <= size ->
  post (fun '(p, s') => wrote s s' /\ exists bytes, boxes (mem s') !! p = Some (OBinary size bytes)) (create_into stale size s).
Proof.
  intros Ho Hs. unfold create_into. case_match; [done|]. case_match; [|done]. unfold ONHEAP_THRESHOLD in *. zify_bool.
  eapply post_bind; [apply (alloc_wrote s)|].
  - done.
  - unfold ProcessHeapBinary_storage_size, ProcessHeapBinary_words, words_rounded_up, WORD_BYTES.
    pose proof (Z.shiftr_nonneg size 3). pose proof (Z.div_pos (Z.shiftr size 3 + 8 - 1) 8). lia.
  - intros [p s'] W. split; [|exists (fresh_bytes stale p (Z.to_nat (bytes_rounded_up size))); cbn; by rewrite lookup_insert_eq].
    apply W. cbn [obj_ok]. destruct (fresh_bytes_ok p (Z.to_nat (bytes_rounded_up size))). split_and!; try done.
    unfold bytes_rounded_up in *. assert (size <= 512) by (Z.to_euclidean_division_equations; lia). lia.
Qed.

Lemma create_ensured_writes size extra s : objs_ok (mem s) -> 0 <= size ->
  post (fun '(p, s') => wrote s s' /\ exists bytes, boxes (mem s') !! p = Some (OBinary size bytes)) (create_ensured stale size extra s).
Proof.
  intros Ho Hs. unfold create_ensured. case_match; [|done]. eapply post_bind; [apply ensure_heap_same|]. intros p ->.
  replace (with_proc s (proc s)) with s by (by destruct s). by apply create_into_writes.
Qed.

Lemma finish_init_writes bits extra offset dst s : objs_ok (mem s) -> 0 <= bits -> writes s (finish_init stale bits extra offset dst s).
Proof.
  intros Ho Hb. unfold finish_init. eapply post_bind; [by apply create_ensured_writes|]. intros [p s1] [W _].
  eapply post_bind; [apply post_any|]. intros x _. eapply writes_via; [|by apply store_normal_writes]. by apply ctx_wrote.
Qed.

Lemma set_data_writes s p d d' bits : objs_ok (mem s) -> boxes (mem s) !! p = Some (OBinary bits d) -> rewritten d d' ->
  wrote s (with_mem s (set_data (mem s) p d')).
Proof.
  intros Ho E [El Eb]. unfold set_data. rewrite E. pose proof (Ho p _ E) as (H1 & H2 & H3).
  apply (put_evolves s p (OBinary bits d)); [done | by split | done | cbn; rewrite El; auto].
Qed.

Lemma append_data_writes s p src n bits bytes : objs_ok (mem s) -> boxes (mem s) !! p = Some (OBinary bits bytes) ->
  post (wrote s) (append_data p src n s).
Proof.
  intros Ho E. unfold append_data. case_match; [by apply wrote_refl|]. apply (post_bind is_bytes).
  - by apply get_data_bytes.
  - intros sd Hsd. rewrite E. cbn [read vm_bind get_data_mut]. set (k := Nat.min _ _). apply (set_data_writes s p bytes _ bits); try done.
    split; [rewrite length_app, length_take, length_drop; lia|]. intros Hb. by apply Forall_app_2; [apply Forall_take | apply Forall_drop].
Qed.

Lemma bs_append_writes fail sz unit bin dst s : objs_ok (mem s) -> writes s (bs_append stale fail sz unit bin dst s).
Proof.
  intros Ho. unfold bs_append, writes. eapply post_bind; [apply post_any|]. intros n _. eapply post_bind; [apply post_any|]. intros b _.
  eapply post_bind; [apply post_any|]. intros is_b _. case_match; [by apply jump_or_badarg_writes|].
  eapply post_bind; [apply post_any|]. intros old _. case_match; [by apply store_normal_writes|]. case_match; [by apply raise_writes|].
  eapply post_bind; [apply create_ensured_writes; [done | apply wrap64_range]|]. intros [p s1] (W1 & bytes & E1).
  eapply post_bind; [by eapply append_data_writes; [apply W1|]|]. intros s2 W2. eapply post_bind; [apply post_any|]. intros x _.
  eapply writes_via; [|by apply store_normal_writes]. apply ctx_wrote; [|done..]. by eapply wrote_then.
Qed.
End Create.

Lemma put_integer_into_writes p v size off flags s : objs_ok (mem s) -> post (wrote s) (put_integer_into p v size off flags s).
Proof.
  intros Ho. unfold put_integer_into. destruct (boxes (mem s) !! p) as [[]|] eqn:E; try done. cbn [read vm_bind].
  eapply post_bind; [apply put_integer_rewrites|]. intros d Hd. by eapply set_data_writes.
Qed.

Lemma advance_writes s s1 n : wrote s s1 -> wrote s (advance s1 n).
Proof. intros W. by apply ctx_wrote. Qed.

Lemma bs_put_integer_writes sz flags src s : objs_ok (mem s) -> writes s (bs_put_integer sz flags src s).
Proof.
  intros Ho. unfold bs_put_integer. eapply post_bind; [apply post_any|]. intros n _. eapply post_bind; [apply post_any|]. intros v _.
  eapply post_bind; [apply post_any|]. intros [p off] _. eapply post_bind; [by apply put_integer_into_writes|]. intros s1 W.
  by apply advance_writes.
Qed.

(** A buffer that is found and one that is put back. *)
Lemma data_writes s p o d d' : objs_ok (mem s) -> boxes (mem s) !! p = Some o -> get_data_mut o = Ret d -> rewritten d d' ->
  wrote s (with_mem s (set_data (mem s) p d')).
Proof.
  intros Ho E Eo R. destruct o; try done.
  - injection Eo as <-. by eapply set_data_writes.
  - unfold set_data. rewrite E. replace (with_mem s (mem s)) with s by (by destruct s). by apply wrote_refl.
Qed.

(** Two buffers end to end. *)
Lemma pasted_rewrites off n src dst : (length dst <? off + n)%nat = false -> (length src <? n)%nat = false -> is_bytes src ->
  rewritten dst (take off dst ++ take n src ++ drop (off + n) dst).
Proof.
  intros H1%Nat.ltb_ge H2%Nat.ltb_ge Hs. split; [rewrite !length_app, !length_take, length_drop; lia|].
  intros Hd. apply Forall_app_2; [by apply Forall_take|]. apply Forall_app_2; [by apply Forall_take | by apply Forall_drop].
Qed.

Lemma put_binary_writes src size dst off flags s : objs_ok (mem s) ->
  post (fun r => wrote s (with_mem s r.2)) (put_binary (mem s) src size dst off flags).
Proof.
  intros Ho. unfold put_binary. eapply post_bind; [apply post_any|]. intros n _. eapply post_bind; [apply post_any|]. intros dn _.
  case_match; [done|]. apply (post_bind is_bytes).
  { by apply get_data_bytes. }
  intros sd Hsd. case_match; [done|]. destruct (boxes (mem s) !! dst) as [o|] eqn:Ed; [|done]. cbn [read vm_bind].
  destruct (get_data_mut o) as [d| | | |] eqn:Eo; try done. cbn [vm_bind]. apply (post_bind (fun x => rewritten d x.2)).
  - case_match; [|by apply copy_bits_rewrites]. unfold copy_bits_from_offset_0_bytealigned_dst. case_match; [done|].
    case_match; [|done]. cbn [post snd]. apply orb_false_iff in H2 as [? ?]. by apply pasted_rewrites.
  - intros [c d'] R. by eapply data_writes.
Qed.

Lemma bs_put_binary_writes fail sz flags src s : objs_ok (mem s) -> writes s (bs_put_binary fail sz flags src s).
Proof.
  intros Ho. unfold bs_put_binary. eapply post_bind; [apply post_any|]. intros n _. eapply post_bind; [apply post_any|]. intros v _.
  eapply post_bind; [apply post_any|]. intros [p off] _.
  pose proof (put_binary_writes p (get_size_or_all n) (get_box_ptr_unchecked v) off (from_bits_truncate (usize_arg flags)) s Ho) as W.
  destruct (put_binary _ _ _ _ _ _) as [[c m]|e| | |]; try done; [by apply advance_writes | destruct e; try done; by apply jump_writes].
Qed.

Lemma put_bytes_rewrites bs : is_bytes bs -> forall i d, rewritten d (put_bytes bs i d).
Proof.
  induction 1 as [|b bs Hb _ IH]; intros i d; cbn [put_bytes]; [done|]. eapply rewritten_trans; [|apply IH].
  case_match; [by apply insert_rewritten | done].
Qed.

Lemma bs_put_string_writes len string s : objs_ok (mem s) -> writes s (bs_put_string len string s).
Proof.
  intros Ho. unfold bs_put_string. eapply post_bind; [apply post_any|]. intros [p off] _.
  destruct (boxes (mem s) !! p) as [o|] eqn:Eo; [|done]. cbn [read vm_bind]. destruct (get_data_mut o) as [d| | | |] eqn:Ed; try done. cbn [vm_bind].
  eapply post_bind; [apply post_any|]. intros is_b _. apply (post_bind (rewritten d)).
  - case_match; [|apply put_bytes_rewrites, Forall_replicate; lia]. apply (post_bind is_bytes).
    + by apply get_data_bytes.
    + intros sd Hsd. case_match; [done|]. case_match; [done|]. cbn [post]. apply pasted_rewrites; try done. apply Nat.ltb_ge. lia.
  - intros d' R. apply advance_writes. by eapply data_writes.
Qed.

Lemma codepoint_range x c : codepoint_of x = Some c -> 0 <= c < 2 ^ 21.
Proof.
  unfold codepoint_of. case_match; [|done]. unfold from_u32. pose proof (Z.mod_pos_bound (get_small_unsigned x) (2 ^ 32) ltac:(lia)).
  case_match eqn:E; [|done]. intros [= <-]. apply orb_true_iff in E as [E|E]; [|apply andb_true_iff in E as [_ E]]; zify_bool; lia.
Qed.

Lemma bs_put_utf8_writes fail src s : objs_ok (mem s) -> writes s (bs_put_utf8 fail src s).
Proof.
  intros Ho. unfold bs_put_utf8. eapply post_bind; [apply post_any|]. intros v _. destruct (codepoint_of v) as [c|] eqn:Ec; [|by apply jump_or_badarg_writes].
  eapply post_bind; [apply post_any|]. intros [p off] _.
  destruct (boxes (mem s) !! p) as [o|] eqn:Eo; [|done]. cbn [read vm_bind]. destruct (get_data_mut o) as [d| | | |] eqn:Ed; try done. cbn [vm_bind].
  apply advance_writes. eapply data_writes; try done. apply put_bytes_rewrites. apply encode_bytes. by eapply codepoint_range.
Qed.

(** ** [bs_create_bin] *)

Lemma total_of_range s ops : forall acc, is_u64 acc -> post (fun r => if r is Some n then is_u64 n else True) (total_of s ops acc).
Proof.
  induction ops as [|op ops IH]; intros acc Ha; cbn [total_of]; [done|]. eapply post_bind; [apply post_any|]. intros [n|] _; [|done].
  apply IH, wrap64_range.
Qed.

Lemma paste_ops_writes p ops : forall off s, objs_ok (mem s) -> writes s (paste_ops p ops off s).
Proof.
  induction ops as [|[u f src size|u f src size] ops IH]; intros off s Ho; cbn [paste_ops]; [by apply wrote_refl|..].
  - eapply post_bind; [apply post_any|]. intros v _. eapply post_bind; [by apply put_integer_into_writes|]. intros s1 W.
    eapply writes_via; [exact W|]. apply IH.
  - eapply post_bind; [apply post_any|]. intros v _. eapply post_bind; [apply post_any|]. intros is_b _.
    case_match; [by apply wrote_refl|]. eapply post_bind; [by apply put_binary_writes|]. intros [n m] W.
    eapply writes_via; [exact W|]. apply IH.
Qed.

(** A computation next to the atom table. *)
Definition writes_at {A} (s : Machine) (v : vm (A * Machine * AtomStorage)) : Prop := post (fun r => wrote s r.1.2) v.
Lemma plain_writes {A} s (v : vm (A * Machine)) (st : AtomStorage) : writes s v -> writes_at s (do! r := v in Ret (r, st)).
Proof. intros W. eapply post_bind; [exact W|]. by intros [a s1] H. Qed.

Lemma bs_create_bin_writes stale fuel fail alloc live dst l st s : (forall p n, length (stale p n) = n /\ is_bytes (stale p n)) ->
  objs_ok (mem s) -> writes_at s (bs_create_bin stale fuel fail alloc live dst l st s).
Proof.
  intros Hstale Ho. unfold bs_create_bin, writes_at. eapply post_bind; [apply post_any|]. intros [ops st1] _. apply plain_writes.
  destruct ops as [ops|]; [|by apply raise_writes]. eapply post_bind; [by apply total_of_range|]. intros [n|] Hn; [|by apply raise_writes].
  case_match; [by apply store_normal_writes|]. eapply writes_via; [apply (ctx_wrote s s (set_live (ctx s) (usize_arg live))); [by apply wrote_refl | done..]|].
  intros Ho1. eapply post_bind; [by apply create_ensured_writes; [done..|apply Hn]|]. intros [p s1] [W _].
  eapply post_bind; [apply (paste_ops_writes p), W|]. intros [d s2] W2. cbn [snd] in *.
  eapply writes_via; [exact (wrote_then _ _ _ W W2)|]. intros Ho2. case_match.
  - unfold maybe_jump_fail. case_match; [by apply jump_writes | by apply wrote_refl].
  - eapply post_bind; [apply post_any|]. intros x _. by apply store_normal_writes.
Qed.

(** ** Match states *)

Lemma match_state_box s p b : match_state_at s p = Ret b -> boxes (mem s) !! p = Some (OMatchState (ms_orig b) (read_position b) (stop_at b)).
Proof. unfold match_state_at. destruct (boxes (mem s) !! p) as [[]|]; try done. cbn. by intros [= <-]. Qed.
Lemma match_state_arg_box s x p b : match_state_arg s x = Ret (p, b) -> match_state_at s p = Ret b.
Proof. unfold match_state_arg. destruct (load_arg s x) as [v| | | |]; try done. cbn. by destruct (match_state_at s _) eqn:E; [intros [= <- <-]|..]. Qed.

(** The state is there, within its binary. *)
Definition at_match (s : Machine) (p : Z) (b : MatchState) : Prop :=
  match_state_at s p = Ret b /\ 0 <= read_position b <= stop_at b /\ stop_at b < 2 ^ 64.
Lemma at_match_ok s p b : objs_ok (mem s) -> match_state_at s p = Ret b -> at_match s p b.
Proof. intros Ho E. split; [done|]. apply match_state_box in E. exact (Ho _ _ E). Qed.
Lemma match_arg_ok s x : objs_ok (mem s) -> post (fun '(p, b) => at_match s p b) (match_state_arg s x).
Proof.
  intros Ho. destruct (match_state_arg s x) as [[p b]| | | |] eqn:E; try done. apply match_state_arg_box in E. by apply at_match_ok.
Qed.
Lemma match_at_ok s p : objs_ok (mem s) -> post (at_match s p) (match_state_at s p).
Proof. intros Ho. destruct (match_state_at s p) as [b| | | |] eqn:E; try done. by apply at_match_ok. Qed.

Lemma remaining_ok s p b : at_match s p b -> bits_remaining b = stop_at b - read_position b.
Proof. intros (_ & H & _). unfold bits_remaining, usize_sub. by rewrite (proj2 (Z.leb_le _ _)) by lia. Qed.

Lemma set_offset_writes s p b n : objs_ok (mem s) -> at_match s p b -> 0 <= n <= stop_at b -> wrote s (set_match_offset s p b n).
Proof.
  intros Ho (E & H1 & H2) Hn. apply match_state_box in E. apply (put_evolves s p _ _ E); [done | done |]. cbn. lia.
Qed.
Lemma move_writes s p b n : objs_ok (mem s) -> at_match s p b -> 0 <= n <= bits_remaining b -> wrote s (increase_match_offset s p b n).
Proof.
  intros Ho B Hn. rewrite (remaining_ok s p b B) in Hn. pose proof B as (_ & H1 & H2). unfold increase_match_offset.
  rewrite wrap64_small by (unfold is_u64, u64_max; lia). apply set_offset_writes; [done | done | lia].
Qed.

Lemma make_slice_writes s p b n : objs_ok (mem s) -> 0 <= n < 2 ^ 64 -> at_match s p b -> 
  post (fun r => wrote s r.2 /\ (machine_ok s -> built s p -> match_state_at r.2 p = Ret b)) (make_slice b n s).
Proof.
  intros Ho Hn B. unfold make_slice. eapply post_bind; [apply ensure_heap_same|]. intros q ->.
  replace (with_proc s (proc s)) with s by (by destruct s). unfold slice_create_into. case_match; [done|].
  apply (post_bind (fun r => wrote s r.2 /\ (machine_ok s -> built s p -> match_state_at r.2 p = Ret b))).
  - pose proof (alloc_wrote s BinarySlice_storage_size Ho ltac:(done)) as W.
    pose proof (alloc_words_keeps s BinarySlice_storage_size ltac:(done)) as K.
    destruct (alloc_words s BinarySlice_storage_size) as [[a s1]| | | |]; try done. cbn [post vm_bind snd] in *.
    split; [apply W; exact Hn|]. intros Hs Hb. destruct K as (_ & E & Ha). destruct B as [B _]. apply match_state_box in B.
    unfold match_state_at, put_box. cbn [mem boxes]. rewrite E, lookup_insert_ne, B by (intros ->; by apply Ha). by destruct b.
  - intros [a s1] [W M]. eapply post_bind; [apply post_any|]. intros x _. done.
Qed.

(** A state is moved after an allocation. *)
Lemma later_offset_writes s s1 p b n : wrote s s1 -> (machine_ok s -> built s p -> match_state_at s1 p = Ret b) ->
  0 <= n <= stop_at b -> stop_at b < 2 ^ 64 -> wrote s (set_match_offset s1 p b n).
Proof.
  intros [I B T O M J] Hb Hn Hs. split; try done.
  - intros Hok q Hq. destruct (M Hok q Hq) as [E1 E2]. split; [done|]. cbn.
    destruct (decide (q = p)) as [->|Hne]; [|by rewrite lookup_insert_ne]. rewrite lookup_insert_eq.
    rewrite (match_state_box _ _ _ (Hb Hok Hq)) in E2. destruct (boxes (mem s) !! p); [|done].
    eapply objs_evolve_trans; [exact E2|]. done.
  - intros q x Hq. cbn in Hq. apply lookup_insert_Some in Hq as [[_ <-] | [_ Hq]]; [done | by eapply J].
Qed.

Lemma start_match_writes on_fail x dst s : objs_ok (mem s) -> wrote s (on_fail s) -> writes s (start_match on_fail x dst s).
Proof.
  intros Ho Hf. unfold start_match. case_match; [done|]. unfold load_box. destruct (boxes (mem s) !! get_box_ptr_unchecked x) as [o|] eqn:E; [|done].
  cbn [read vm_bind]. case_match; try done.
  - unfold start_with_new_binary, match_state_create_into. apply (post_bind (fun r => wrote s r.2)).
    + pose proof (alloc_wrote s BinaryMatchState_storage_size Ho ltac:(done)) as W.
      pose proof (alloc_words_keeps s BinaryMatchState_storage_size ltac:(done)) as K.
      destruct (alloc_words s _) as [[a s1]| | | |]; try done. cbn [post vm_bind] in *. destruct K as (_ & Em & _).
      unfold get_bit_size. rewrite Em, E. cbn [read vm_bind].
      pose proof (Ho _ _ E) as Hok. destruct o; try done; cbn [binary_bits vm_bind post snd]; apply W; cbn in *; lia.
    + intros [p s1] W. eapply post_bind; [apply post_any|]. intros y _. eapply writes_via; [exact W|]. by apply store_normal_writes.
  - unfold continue_with_matchstate. eapply post_bind; [by apply match_at_ok|]. intros b B. eapply post_bind; [apply post_any|]. intros y _.
    eapply writes_via; [|by apply store_normal_writes]. pose proof B as (_ & ? & _). apply set_offset_writes; [done | done | lia].
Qed.

Lemma get_tail_writes s p b live dst : objs_ok (mem s) -> at_match s p b -> post (wrote s) (get_tail b live dst s).
Proof.
  intros Ho B. unfold get_tail. case_match; [by apply store_wrote|]. set (s0 := with_ctx s _).
  assert (wrote s s0) as W0 by (apply ctx_wrote; [by apply wrote_refl | done..]).
  eapply post_bind; [apply (make_slice_writes s0 p b); [done | | exact B]|].
  - rewrite (remaining_ok s p b B). pose proof B as (_ & ? & ?). lia.
  - intros [x s1] [W _]. eapply post_mono; [apply store_wrote, W|]. intros s2. by apply wrote_then, (wrote_then _ _ _ W0 W).
Qed.

Lemma bs_get_binary2_writes ms live size unit dst s : objs_ok (mem s) ->
  (forall p b n, match_state_arg s ms = Ret (p, b) -> load_usize s size = Ret n -> with_unit n (usize_arg unit) <= bits_remaining b) ->
  writes s (bs_get_binary2 ms live size unit dst s).
Proof.
  intros Ho Hn. unfold bs_get_binary2. pose proof (match_arg_ok s ms Ho) as B.
  destruct (match_state_arg s ms) as [[p b]| | | |] eqn:Em; try done. cbn [vm_bind post] in *.
  destruct (load_usize s size) as [n| | | |] eqn:En; try done. cbn [vm_bind]. specialize (Hn p b n eq_refl eq_refl).
  pose proof (wrap64_range (n * usize_arg unit)) as R. fold (with_unit n (usize_arg unit)) in R. unfold is_u64, u64_max in R. case_match.
  - eapply (post_bind (wrote s)); [|done]. pose proof (store_wrote s empty_binary dst Ho) as W. by destruct (store s empty_binary dst).
  - set (s0 := with_ctx s _). assert (wrote s s0) as W0 by (apply ctx_wrote; [by apply wrote_refl | done..]).
    eapply post_bind; [apply (make_slice_writes s0 p b); [done | lia | exact B]|]. intros [x s1] [W M]. cbn [snd] in *.
    rewrite (remaining_ok s p b B) in Hn. pose proof B as (_ & ? & ?).
    assert (wrote s (increase_match_offset s1 p b (with_unit n (usize_arg unit)))) as W2.
    { unfold increase_match_offset. rewrite wrap64_small by (unfold is_u64, u64_max; lia).
      eapply wrote_then; [exact W0|]. apply later_offset_writes; [done | done | lia | done]. }
    eapply writes_via; [exact W2|]. by apply store_normal_writes.
Qed.

Lemma context_to_binary_writes reg s : objs_ok (mem s) -> writes s (bs_context_to_binary reg s).
Proof.
  intros Ho. unfold bs_context_to_binary. eapply post_bind; [apply post_any|]. intros v _. case_match; [by apply wrote_refl|].
  unfold load_box. destruct (boxes (mem s) !! get_box_ptr_unchecked v) as [o|] eqn:E; [|done]. cbn [read vm_bind].
  case_match; try (by apply wrote_refl). subst o. set (b := {| ms_orig := _ |}). case_match; [by apply store_normal_writes|].
  assert (at_match s (get_box_ptr_unchecked v) b) as B.
  { apply at_match_ok; [done|]. unfold match_state_at. by rewrite E. }
  eapply post_bind; [apply (make_slice_writes s (get_box_ptr_unchecked v) b); [done | | exact B]|].
  - rewrite (remaining_ok s (get_box_ptr_unchecked v) b B). pose proof B as (_ & ? & ?). lia.
  - intros [x s1] [W _]. eapply writes_via; [exact W|]. by apply store_normal_writes.
Qed.

(** ** Commands *)

Lemma extract_integer_writes p bits unit dst s : objs_ok (mem s) -> writes s (extract_integer p bits unit dst s).
Proof.
  intros Ho. unfold extract_integer. eapply post_bind; [by apply match_at_ok|]. intros b B. case_match; [by apply wrote_refl|].
  eapply post_bind; [apply post_any|]. intros [data off] _. unfold ensure_remaining in *. zify_bool.
  pose proof (wrap64_range (bits * unit)) as R. unfold is_u64 in R.
  assert (wrote s (increase_match_offset s p b (wrap64 (bits * unit)))) as W by (apply move_writes; [done | done | lia]).
  eapply post_bind; [apply store_wrote, W|]. intros s1 W1. by eapply wrote_then.
Qed.

Lemma to_usize_range x n : to_usize x = Some n -> is_u64 n.
Proof. unfold to_usize. case_match; [|done]. intros [= <-]. apply wrap64_range. Qed.

Lemma moved_writes s p b n : objs_ok (mem s) -> at_match s p b -> is_u64 n -> ensure_remaining b n = true -> wrote s (increase_match_offset s p b n).
Proof. unfold ensure_remaining, is_u64. intros Ho B Hn L. zify_bool. apply move_writes; [done | done | lia]. Qed.

Lemma run_command_writes c args p s : objs_ok (mem s) -> writes s (run_command c args p s).
Proof.
  intros Ho. unfold run_command. eapply post_bind; [by apply match_at_ok|]. intros b B.
  assert (writes s (Ret (false, s))) as Hf by (by apply wrote_refl).
  destruct c, args as [|a0 [|a1 [|a2 [|a3 [|a4 [|]]]]]]; cbn [fmap list_fmap]; repeat (case_match; try done); try (by apply wrote_refl);
    try (by apply extract_integer_writes).
  - eapply post_bind; [apply post_any|]. intros [|] _; [|done]. apply orb_false_iff in H0 as [_ L%negb_false_iff].
    apply moved_writes; try done. by eapply to_usize_range.
  - apply moved_writes; try done. by eapply to_usize_range.
  - eapply post_bind; [by eapply get_tail_writes|]. intros s1 W. exact W.
Qed.

Lemma run_one_writes p c st s : objs_ok (mem s) -> post (fun r => wrote s r.2) (run_one p c st s).
Proof.
  intros Ho. pose proof (wrote_refl s Ho) as W0. unfold run_one. eapply post_bind; [apply post_any|]. intros is_t _. case_match; [done|].
  eapply post_bind; [apply post_any|]. intros [|op args] _; [done|]. case_match; [done|]. eapply post_bind; [apply post_any|]. intros [[c'|] st1] _; [|done].
  eapply post_bind; [by apply run_command_writes|]. by intros [ok s1].
Qed.

Lemma run_flat_writes p n : forall terms st s, objs_ok (mem s) -> post (fun r => wrote s r.2) (run_flat_terms n p terms st s).
Proof.
  induction n as [|n IH]; intros [|op args] st s Ho; pose proof (wrote_refl s Ho) as W0; cbn [run_flat_terms]; try done.
  case_match; [done|]. eapply post_bind; [apply post_any|]. intros [[c|] st1] _; [|done]. case_match; [done|].
  eapply post_bind; [by apply run_command_writes|]. intros [[|] s1] W; [|done]. eapply post_mono; [apply IH, W|]. intros r. by apply wrote_then.
Qed.

Lemma run_each_writes p commands : forall st s, objs_ok (mem s) -> post (fun r => wrote s r.2) (run_each p commands st s).
Proof.
  induction commands as [|c commands IH]; intros st s Ho; cbn [run_each]; [by apply wrote_refl|].
  eapply post_bind; [by apply run_one_writes|]. intros [[[[|]|] st1] s1] W; try done. eapply post_mono; [apply IH, W|]. intros r. by apply wrote_then.
Qed.

Lemma run_cells_writes p fuel : forall cell st s, objs_ok (mem s) -> post (fun r => wrote s r.2) (run_cells fuel p cell st s).
Proof.
  induction fuel as [|fuel IH]; intros cell st s Ho; cbn [run_cells]; [done|]. eapply post_bind; [apply post_any|]. intros [cmd ?] _.
  eapply post_bind; [by apply run_one_writes|]. intros [[[[|]|] st1] s1] W; try done. eapply post_bind; [apply post_any|]. intros [? tl] _.
  case_match; [|done]. eapply post_mono; [apply IH, W|]. intros r. by apply wrote_then.
Qed.

Lemma run_commands_writes fuel p c st s : objs_ok (mem s) -> post (fun r => wrote s r.2) (run_commands fuel p c st s).
Proof.
  intros Ho. pose proof (wrote_refl s Ho) as W0. unfold run_commands. case_match; [done|]. eapply post_bind; [apply post_any|]. intros is_t _.
  case_match; [|case_match; [by apply run_cells_writes | done]]. eapply post_bind; [apply post_any|]. intros [|e els] _; [done|].
  case_match; [by apply run_flat_writes | by apply run_each_writes].
Qed.

(** Where the state was stays a state: of the same binary, with the same end. *)
Lemma bs_match_writes fuel fail ms commands st s : objs_ok (mem s) ->
  (forall p b, match_state_arg s ms = Ret (p, b) -> built s p) -> machine_ok s ->
  writes_at s (bs_match fuel fail ms commands st s).
Proof.
  intros Ho Hb Hs. unfold bs_match, writes_at. pose proof (match_arg_ok s ms Ho) as B. destruct (match_state_arg s ms) as [[p b]| | | |] eqn:Em; try done.
  cbn [vm_bind post] in *. specialize (Hb p b eq_refl). eapply post_bind; [by apply run_commands_writes|]. intros [[[[|]|] st1] s1] W; try done.
  cbn [snd] in *. eapply post_bind; [apply match_at_ok, W|]. intros b' B'. cbn [post fst snd].
  assert (stop_at b' = stop_at b) as Es.
  { destruct (wrote_terms _ _ W Hs p Hb) as [_ E]. destruct B as [B _], B' as [B' _]. rewrite (match_state_box _ _ _ B), (match_state_box _ _ _ B') in E.
    apply E. }
  assert (wrote s (set_match_offset s1 p b' (read_position b))) as W2.
  { eapply wrote_then; [exact W|]. apply set_offset_writes; [apply W | done |]. pose proof B as (_ & ? & _). lia. }
  case_match; [|done]. by apply ctx_wrote.
Qed.

(** * The instructions *)

(** A position that is set, and a piece that is taken without a check, are within the binary:
    the compiler sees to that.  A match state is a term that exists. *)
Definition in_bounds (i : BInstr) (s : Machine) : Prop :=
  match i with
  | BSetPosition ms pos => forall p b x, match_state_arg s ms = Ret (p, b) -> load_arg s pos = Ret x ->
      (if is_small x then usize_arg x else 0) <= stop_at b
  | BGetBinary2 _ ms _ size unit _ _ => forall p b n, match_state_arg s ms = Ret (p, b) -> load_usize s size = Ret n ->
      with_unit n (usize_arg unit) <= bits_remaining b
  | BMatch _ ms _ => forall p b, match_state_arg s ms = Ret (p, b) -> built s p
  | _ => True
  end.

Lemma load_usize_range s x : post is_u64 (load_usize s x).
Proof. unfold load_usize. eapply post_bind; [apply post_any|]. intros v _. apply wrap64_range. Qed.

Lemma skip_bits_writes fail ms size unit s : objs_ok (mem s) -> writes s (bs_skip_bits2 fail ms size unit s).
Proof.
  intros Ho. unfold bs_skip_bits2. eapply post_bind; [by apply match_arg_ok|]. intros [p b] B. eapply post_bind; [apply post_any|]. intros n _.
  pose proof (wrap64_range (n * usize_arg unit)) as R. fold (with_unit n (usize_arg unit)) in R. unfold is_u64 in R.
  case_match; [by apply jump_writes|]. zify_bool. apply move_writes; [done | done | lia].
Qed.
Lemma match_string_writes fail ms bits literal s : objs_ok (mem s) -> writes s (bs_match_string fail ms bits literal s).
Proof.
  intros Ho. unfold bs_match_string. eapply post_bind; [by apply match_arg_ok|]. intros [p b] B.
  pose proof (wrap64_range (get_small_unsigned bits)) as R. fold (usize_arg bits) in R. unfold is_u64 in R.
  case_match; [by apply jump_writes|]. eapply post_bind; [apply post_any|]. intros is_b _. case_match; [by apply jump_writes|].
  eapply post_bind; [apply post_any|]. intros [data off] _. eapply post_bind; [apply post_any|]. intros [lit loff] _.
  case_match; [|by apply jump_writes]. zify_bool. apply move_writes; [done | done | lia].
Qed.

Lemma utf8_at_fits s b : post (fun r => if r is Some (c, n) then 0 <= n <= bits_remaining b else True) (utf8_at s b).
Proof.
  unfold utf8_at. case_match; [done|]. eapply post_bind; [apply post_any|]. intros [data off] _. case_match; [|done].
  destruct p as [k c]. case_match; [done|]. case_match; [|done]. cbn [post]. zify_bool. lia.
Qed.
Lemma get_utf8_writes fail ms dst s : objs_ok (mem s) -> writes s (bs_get_utf8 fail ms dst s).
Proof.
  intros Ho. unfold bs_get_utf8. eapply post_bind; [by apply match_arg_ok|]. intros [p b] B. eapply post_bind; [apply utf8_at_fits|].
  intros [[c n]|] Hn; [|by apply jump_writes]. case_match; [|by apply jump_writes].
  eapply writes_via; [by apply move_writes|]. by apply store_normal_writes.
Qed.
Lemma skip_utf8_writes fail ms s : objs_ok (mem s) -> writes s (bs_skip_utf8 fail ms s).
Proof.
  intros Ho. unfold bs_skip_utf8. eapply post_bind; [by apply match_arg_ok|]. intros [p b] B. eapply post_bind; [apply utf8_at_fits|].
  intros [[c n]|] Hn; [|by apply jump_writes]. by apply move_writes.
Qed.
Lemma set_position_writes ms pos s : objs_ok (mem s) -> in_bounds (BSetPosition ms pos) s -> writes s (bs_set_position ms pos s).
Proof.
  intros Ho Hb. unfold bs_set_position. pose proof (match_arg_ok s ms Ho) as B. cbn [in_bounds] in Hb.
  destruct (match_state_arg s ms) as [[p b]| | | |]; try done. cbn [vm_bind post] in *. destruct (load_arg s pos) as [x| | | |]; try done.
  cbn [vm_bind]. specialize (Hb p b x eq_refl eq_refl). apply set_offset_writes; [done | done |].
  pose proof (wrap64_range (get_small_unsigned x)) as R. fold (usize_arg x) in R. unfold is_u64 in R. case_match; lia.
Qed.
Lemma tests_write fail ms x s : objs_ok (mem s) -> writes s (bs_test_tail2 fail ms x s) /\ writes s (bs_test_unit fail ms x s).
Proof.
  intros Ho. split; (eapply post_bind; [apply post_any|]; intros [p b] _); [eapply post_bind; [apply post_any|]; intros n _|]; by apply jump_if_writes.
Qed.
Lemma starts_write fail live context dst s : objs_ok (mem s) ->
  writes s (bs_start_match_3 fail context dst s) /\ writes s (bs_start_match_4 fail live context dst s).
Proof.
  intros Ho. split; (eapply post_bind; [apply post_any|]; intros v _); apply start_match_writes; try done; [by apply jump_writes|].
  case_match; [by apply jump_writes | by apply wrote_refl].
Qed.
Lemma inits_write stale fail sz x dst s : (forall p n, length (stale p n) = n /\ is_bytes (stale p n)) -> objs_ok (mem s) ->
  writes s (bs_init2 stale fail sz x dst s) /\ writes s (bs_init_bits stale fail sz x dst s).
Proof.
  intros Hst Ho. split; (eapply post_bind; [apply load_usize_range|]; intros n Hn; unfold is_u64 in Hn).
  - case_match; [by apply raise_writes|]. case_match; [by apply store_normal_writes|]. apply finish_init_writes; [done.. | lia].
  - pose proof (wrap64_range (n * usize_arg x)) as R. fold (with_unit n (usize_arg x)) in R. unfold is_u64 in R.
    cbv beta zeta. case_match; [by apply store_normal_writes|]. case_match; [by apply raise_writes|]. apply finish_init_writes; [done.. | lia].
Qed.
Lemma utf8_size_writes fail src dst s : objs_ok (mem s) -> writes s (bs_utf8_size fail src dst s).
Proof.
  intros Ho. unfold bs_utf8_size. eapply post_bind; [apply post_any|]. intros v _. case_match; [by apply store_normal_writes | by apply jump_or_badarg_writes].
Qed.


Module BitKeepsWitness.
Import BitWitness.

Definition zeros (p : Z) (n : nat) : list Z := replicate n 0.
Lemma zeros_ok p n : length (zeros p n) = n /\ is_bytes (zeros p n).
Proof. split; [apply length_replicate | apply Forall_replicate; lia]. Qed.

Lemma machine_objs : objs_ok (mem machine).
Proof.
  intros p o Hp. cbn [machine mem memory boxes] in Hp.
  repeat (apply lookup_insert_Some in Hp as [[<- <-] | [_ Hp]]; [|]); [| |apply lookup_singleton_Some in Hp as [<- <-]]; [| |exact I].
  - split_and!; [lia.. | done | repeat constructor; lia].
  - cbn. lia.
Qed.
Lemma machine_right : machine_ok machine.
Proof. split; [|done]. split_and!; cbn; lia. Qed.


(** A position behind the end: the bits that remain wrap. *)
Lemma position_behind_end : exists s, bs_set_position (make_register_x 0) (make_small_unsigned 25) machine = Ret (Normal, s) /\
  match_state_at s 904 = Ret {| ms_orig := 800; read_position := 25; stop_at := 24 |} /\
  bits_remaining {| ms_orig := 800; read_position := 25; stop_at := 24 |} = 2 ^ 64 - 1.
Proof. eexists. split; [by vm_compute|]. split; by vm_compute. Qed.
(** A piece of more bits than there are. *)
Lemma piece_behind_end : exists s, bs_get_binary2 (make_register_x 0) small_0 (make_small_unsigned 100) (make_small_unsigned 8) (make_register_x 1) machine = Ret (Normal, s) /\
  boxes (mem s) !! 4112 = Some (OSlice 0 800 800).
Proof. eexists. split; by vm_compute. Qed.

(** With a label for failure, every size but the hugest is too big. *)
Lemma any_size_is_too_big : bs_init2 zeros label (make_small_unsigned 1) small_0 (make_register_x 1) machine = Ret (Raised ExcError SYSTEM_LIMIT, machine).
Proof. by vm_compute. Qed.

(** The binary under construction is copied into the argument, not the argument into it. *)
Definition two_binaries : Machine :=
  {| mem := {| boxes := {[ 800 := OBinary 16 [1; 2]; 904 := OBinary 16 [3; 4] ]}; conses := ∅ |};
     proc := with_context (proc machine) (set_current_bin (ctx machine) (Some 800, 0)) |}.
Lemma put_binary_swaps : exists s, bs_put_binary nil ALL small_0 (make_register_x 0) two_binaries = Ret (Normal, s) /\
  boxes (mem s) !! 800 = Some (OBinary 16 [1; 2]) /\ boxes (mem s) !! 904 = Some (OBinary 16 [1; 2]).
Proof. eexists. split; [by vm_compute|]. split; by vm_compute. Qed.

(** Integers of whole bytes: only the last byte of the buffer is written. *)
Lemma one_byte_is_written : put_integer (mem machine) (make_small_signed 258) 16 [0; 0; 0; 0] 0 0 = Ret [0; 0; 0; 2].
Proof. by vm_compute. Qed.
(** Little-endian ones panic. *)
Lemma little_endian_panics : put_integer (mem machine) (make_small_signed 1) 8 [0; 0] 0 LITTLE = Panic.
Proof. by vm_compute. Qed.
(** And of a big integer, one byte is left. *)
Lemma big_integer_is_lost : paste_bigint false [258] 72 [0; 0; 0; 0; 0; 0; 0; 0; 0] 0 LITTLE = Ret [2; 0; 0; 0; 0; 0; 0; 0; 0].
Proof. by vm_compute. Qed.
End BitKeepsWitness.
