(* ===== verification/BeamBitCopy.v ===== *)
(** [copy_bits] against its meaning: the bits of the source stand in the destination from the
    offset on, and every other bit of the destination is what it was. *)
From S2P Require Import Prelude Float64 BeamTerm BeamMem BeamBinary BeamCompare BeamHeap BeamProc BeamOps BeamFacts BeamReader BeamCte BeamEtf BeamBits BeamBitOps BeamMatch BeamBitFacts BeamUtf8 BeamBitKeeps.

(** * Bytes under masks *)

Lemma mask_bits_bit b old mask i : 0 <= mask < 256 -> 0 <= i < 8 ->
  Z.testbit (mask_bits b old (byte mask)) i = if Z.testbit mask i then Z.testbit b i else Z.testbit old i.
Proof.
  intros Hm Hi. unfold mask_bits, byte. rewrite Z.mod_small by done. rewrite Z.lor_spec, !Z.land_spec, Z.lxor_spec.
  change 255 with (Z.ones 8). rewrite Z.ones_spec_low by lia.
  by destruct (Z.testbit b i), (Z.testbit old i), (Z.testbit mask i).
Qed.

Lemma low_mask_bit n i : 0 <= n -> 0 <= i -> Z.testbit (make_mask n) i = (i <? n).
Proof.
  intros Hn Hi. unfold make_mask. rewrite Z.shiftl_mul_pow2, Z.mul_1_l by done. rewrite Z.sub_1_r, <- Z.ones_equiv.
  destruct (Z.ltb_spec i n); [by apply Z.ones_spec_low | by apply Z.ones_spec_high].
Qed.
Lemma high_mask_bit e i : 0 <= e <= 8 -> 0 <= i < 8 -> Z.testbit (Z.shiftl (make_mask e) (8 - e)) i = (8 - e <=? i).
Proof.
  intros He Hi. rewrite Z.shiftl_spec by lia. destruct (Z.leb_spec (8 - e) i).
  - rewrite low_mask_bit by lia. apply Z.ltb_lt. lia.
  - by rewrite Z.testbit_neg_r by lia.
Qed.
Lemma masks_small e : 0 < e < 8 -> 0 < make_mask e < 256 /\ 0 < Z.shiftl (make_mask e) (8 - e) < 256.
Proof. intros He. assert (e = 1 \/ e = 2 \/ e = 3 \/ e = 4 \/ e = 5 \/ e = 6 \/ e = 7) as Hc by lia. unfold make_mask. destruct Hc as [-> | [-> | [-> | [-> | [-> | [-> | ->]]]]]]; repeat split. Qed.
(** Whether more bits are needed than are left over. *)
Lemma next_needed e r : 0 < e < 8 -> 0 < r < 8 -> (Z.land (Z.shiftl (Z.shiftl (make_mask e) (8 - e)) r) 255 =? 0) = (e <=? r).
Proof.
  intros He Hr. assert (forallb (fun e => forallb (fun r => eqb (Z.land (Z.shiftl (Z.shiftl (make_mask e) (8 - e)) r) 255 =? 0) (e <=? r))
    [1; 2; 3; 4; 5; 6; 7]) [1; 2; 3; 4; 5; 6; 7] = true) as T by (by vm_compute).
  assert (forall x, 0 < x < 8 -> In x [1; 2; 3; 4; 5; 6; 7]) as I by (intros x Hx; cbn; lia).
  rewrite forallb_forall in T. specialize (T e (I e He)). rewrite forallb_forall in T. specialize (T r (I r Hr)). by apply eqb_prop in T.
Qed.

Lemma bit_in data q i : 0 <= q -> 0 <= i < 8 -> bit_at data (q * 8 + i) = Z.testbit (default 0 (data !! Z.to_nat q)) (7 - i).
Proof.
  intros Hq Hi. unfold bit_at. rewrite (Z.add_comm (q * 8)), Z.div_add, Z.mod_add, Z.div_small, Z.mod_small by lia. done.
Qed.

Section Copy.
Context (src dst : list Z) (r size : Z) (Hsrc : is_bytes src) (Hr : 0 < r < 8) (Hlong : 8 <= r + size)
  (Hs : size <= 8 * Z.of_nat (length src)) (Hd : r + size <= 8 * Z.of_nat (length dst)).

Let count : Z := (size - (8 - r)) / 8.
Let e : Z := (r + size) mod 8.

Lemma size_parts : r + size = 8 * (1 + count) + e /\ 0 <= count /\ 0 <= e < 8.
Proof. clear - Hr Hlong. unfold count, e. Z.to_euclidean_division_equations. lia. Qed.

Definition src_byte (i : Z) : Z := default 0 (src !! Z.to_nat i).
Lemma src_at i : 0 <= i < Z.of_nat (length src) -> at_ptr src i = Ret (src_byte i).
Proof.
  intros Hi. unfold at_ptr, in_range, src_byte. rewrite (proj2 (Z.leb_le _ _)), (proj2 (Z.ltb_lt _ _)) by lia. cbn [andb].
  destruct (lookup_lt_is_Some_2 src (Z.to_nat i)) as [b ->]; [lia | done].
Qed.
Lemma dst_set d i b : 0 <= i < Z.of_nat (length d) -> set_ptr d i b = Ret (<[Z.to_nat i := b]> d).
Proof. intros Hi. unfold set_ptr, in_range. by rewrite (proj2 (Z.leb_le _ _)), (proj2 (Z.ltb_lt _ _)) by lia. Qed.
Lemma dst_masked d i b mask : 0 <= i < Z.of_nat (length d) ->
  write_masked d i b mask = Ret (<[Z.to_nat i := mask_bits b (default 0 (d !! Z.to_nat i)) (byte mask)]> d).
Proof.
  intros Hi. unfold write_masked, at_ptr. unfold in_range at 1. rewrite (proj2 (Z.leb_le _ _)), (proj2 (Z.ltb_lt _ _)) by lia. cbn [andb].
  destruct (lookup_lt_is_Some_2 d (Z.to_nat i)) as [old E]; [lia|]. rewrite E. cbn [read vm_bind default]. by apply dst_set.
Qed.

(** The byte that is joined of two. *)
Definition joined (j : Z) : Z := Z.lor (byte (Z.shiftl (src_byte (j - 1)) (8 - r))) (Z.shiftr (src_byte j) r).
Lemma joined_bit j i : 1 <= j -> 0 <= i < 8 -> Z.testbit (joined j) (7 - i) = bit_at src (8 * j + i - r).
Proof.
  intros Hj Hi. replace (8 * j + i - r) with ((8 - r) + (j - 1) * 8 + i) by lia. rewrite <- bits_read_bit by (try done; lia).
  unfold bits_read, joined, src_byte, byte. rewrite (Z.shiftr_div_pow2 (8 - r + (j - 1) * 8) 3) by lia. change (2 ^ 3) with 8. rewrite Z.div_add, (Z.div_small (8 - r)), Z.add_0_l by lia.
  change (Z.land (8 - r + (j - 1) * 8) 7) with (Z.land (8 - r + (j - 1) * 8) (2 ^ 3 - 1)). rewrite land_low by lia. change (2 ^ 3) with 8.
  rewrite Z.mod_add, (Z.mod_small (8 - r) 8) by lia. replace (S (Z.to_nat (j - 1))) with (Z.to_nat j) by lia. replace (8 - (8 - r)) with r by lia.
  destruct (src !! Z.to_nat (j - 1)) as [b|] eqn:E; cbn [default].
  - by rewrite (proj2 (Z.eqb_neq _ _)) by lia.
  - apply lookup_ge_None in E. rewrite (lookup_ge_None_2 src (Z.to_nat j)) by lia. cbn [default]. by rewrite Z.shiftl_0_l, Z.shiftr_0_l.
Qed.

Lemma loop_joins n : forall j d, 1 <= j -> j + Z.of_nat n <= Z.of_nat (length src) -> j + Z.of_nat n <= Z.of_nat (length d) ->
  exists d', copy_shifted src 1 1 (8 - r) r n (src_byte (j - 1)) j j d = Ret (src_byte (j + Z.of_nat n - 1), j + Z.of_nat n, j + Z.of_nat n, d') /\
    length d' = length d /\ forall q, d' !! q = if (j <=? Z.of_nat q) && (Z.of_nat q <? j + Z.of_nat n) then Some (joined (Z.of_nat q)) else d !! q.
Proof.
  induction n as [|n IH]; intros j d Hj H1 H2; cbn [copy_shifted].
  - exists d. rewrite Z.add_0_r. split_and!; try done. intros q. destruct (Z.leb_spec j (Z.of_nat q)); [|done]. by rewrite (proj2 (Z.ltb_ge _ _)) by lia.
  - rewrite src_at by lia. cbn [vm_bind]. rewrite dst_set by lia. cbn [vm_bind]. fold (joined j).
    destruct (IH (j + 1) (<[Z.to_nat j := joined j]> d)) as (d' & E & El & Eq); [lia.. | rewrite length_insert; lia |].
    rewrite Z.add_simpl_r in E. exists d'. rewrite E. split_and!; [by replace (j + Z.of_nat (S n)) with (j + 1 + Z.of_nat n) by lia | by rewrite El, length_insert |].
    intros q. rewrite Eq. destruct (decide (Z.of_nat q = j)) as [<-|Hne].
    + rewrite (proj2 (Z.leb_gt (Z.of_nat q + 1) (Z.of_nat q))), Z.leb_refl, (proj2 (Z.ltb_lt (Z.of_nat q) (Z.of_nat q + Z.of_nat (S n)))) by lia. cbn [andb].
      rewrite Nat2Z.id. apply list_lookup_insert_eq. lia.
    + rewrite list_lookup_insert_ne by lia.
      destruct (Z.leb_spec (j + 1) (Z.of_nat q)), (Z.ltb_spec (Z.of_nat q) (j + 1 + Z.of_nat n)), (Z.leb_spec j (Z.of_nat q)),
        (Z.ltb_spec (Z.of_nat q) (j + Z.of_nat (S n))); cbn [andb]; try done; lia.
Qed.

(** The bits that end up in a partial last byte. *)
Definition last_bits : Z :=
  if e <=? r then byte (Z.shiftl (src_byte count) (8 - r)) else joined (1 + count).
Lemma last_bit i : 0 <= i < e -> Z.testbit last_bits (7 - i) = bit_at src (8 * (1 + count) + i - r).
Proof.
  pose proof size_parts as (E & Hc & He). intros Hi. unfold last_bits. rewrite <- joined_bit by lia. destruct (Z.leb_spec e r); [|done].
  unfold joined. replace (1 + count - 1) with count by lia. rewrite Z.lor_spec, (Z.shiftr_spec (src_byte (1 + count))) by lia.
  unfold src_byte at 3. rewrite (byte_bit (default 0 (src !! Z.to_nat (1 + count)))) by (try (by apply is_bytes_at); lia). by rewrite orb_false_r.
Qed.

(** The first byte, the whole bytes, and the last. *)
Definition first_masked : Z := mask_bits (Z.shiftr (src_byte 0) r) (default 0 (dst !! 0%nat)) (byte (make_mask (8 - r))).
Definition last_masked : Z :=
  mask_bits last_bits (default 0 (dst !! Z.to_nat (1 + count))) (byte (Z.shiftl (make_mask e) (8 - e))).
Definition copied_at (q : Z) : option Z :=
  if q =? 0 then Some first_masked
  else if q <? 1 + count then Some (joined q)
  else if (q =? 1 + count) && negb (e =? 0) then Some last_masked
  else dst !! Z.to_nat q.

Lemma copied_bytes : exists d', copy_unaligned src 1 1 0 r size count 0 0 (make_mask (8 - r)) (if e =? 0 then 0 else Z.shiftl (make_mask e) (8 - e)) dst = Ret d' /\
  length d' = length dst /\ forall q, d' !! q = copied_at (Z.of_nat q).
Proof.
  pose proof size_parts as (E & Hc & He). pose proof (masks_small (8 - r) ltac:(lia)) as [M1 _].
  unfold copy_unaligned. rewrite (proj2 (Z.ltb_ge _ _)) by lia. cbn [vm_bind]. rewrite Z.sub_0_r.
  assert (forall n, 0 < n < 8 -> byte_shift n = n) as Bs.
  { intros n Hn. unfold byte_shift. change 7 with (2 ^ 3 - 1). rewrite land_low by lia. apply Z.mod_small. lia. }
  rewrite (Bs r), (Bs (8 - r)) by lia. rewrite (proj2 (Z.eqb_neq (make_mask (8 - r)) 0)) by lia.
  rewrite src_at by lia. cbn [vm_bind]. rewrite dst_masked by lia. cbn [vm_bind]. change (0 + 1) with 1. rewrite Z.shiftl_0_l. change (byte 0) with 0. rewrite Z.lor_0_l.
  change (Z.to_nat 0) with 0%nat. fold first_masked.
  destruct (loop_joins (Z.to_nat count) 1 (<[0%nat := first_masked]> dst)) as (d2 & Ed & El & Eq); [lia.. | rewrite length_insert; lia |].
  change (1 - 1) with 0 in Ed. rewrite Ed. cbn [vm_bind]. rewrite Z2Nat.id in * by lia. replace (1 + count - 1) with count by lia. rewrite length_insert in El.
  assert (forall q, Z.of_nat q < 1 + count \/ e = 0 -> d2 !! q = copied_at (Z.of_nat q)) as L2.
  { intros q Hq. rewrite Eq. unfold copied_at. destruct (Z.eqb_spec (Z.of_nat q) 0) as [E0|].
    - rewrite (proj2 (Z.leb_gt _ _)) by lia. replace q with 0%nat by lia. apply list_lookup_insert_eq. lia.
    - rewrite (proj2 (Z.leb_le 1 (Z.of_nat q))) by lia. cbn [andb]. destruct (Z.ltb_spec (Z.of_nat q) (1 + count)); [done|].
      rewrite (proj2 (Z.eqb_eq e 0)), andb_false_r, Nat2Z.id by lia. apply list_lookup_insert_ne. lia. }
  destruct (Z.eqb_spec e 0) as [E0|Ne]; [exists d2; split; [done | split; [done | intros q; apply L2; auto]]|].
  pose proof (masks_small e ltac:(lia)) as [_ M2]. rewrite (proj2 (Z.eqb_neq (Z.shiftl (make_mask e) (8 - e)) 0)) by lia.
  rewrite next_needed by lia.
  assert ((if e <=? r then Ret (byte (Z.shiftl (src_byte count) (8 - r)))
           else do! b := at_ptr src (1 + count) in Ret (Z.lor (byte (Z.shiftl (src_byte count) (8 - r))) (Z.shiftr b r))) = Ret last_bits) as ->.
  { unfold last_bits. destruct (Z.leb_spec e r); [done|]. rewrite src_at by lia. cbn [vm_bind]. unfold joined. by replace (1 + count - 1) with count by lia. }
  cbn [vm_bind]. rewrite dst_masked by lia. eexists. split; [done|]. split; [by rewrite length_insert|]. intros q.
  assert (d2 !! Z.to_nat (1 + count) = dst !! Z.to_nat (1 + count)) as ->.
  { rewrite Eq, (proj2 (Z.ltb_ge (Z.of_nat (Z.to_nat (1 + count))) _)), andb_false_r by lia. apply list_lookup_insert_ne. lia. }
  fold last_masked. destruct (decide (q = Z.to_nat (1 + count))) as [->|Hne].
  - rewrite list_lookup_insert_eq by lia. unfold copied_at. rewrite (proj2 (Z.eqb_neq _ 0)), (proj2 (Z.ltb_ge _ _)) by lia.
    rewrite (proj2 (Z.eqb_eq _ (1 + count))), (proj2 (Z.eqb_neq e 0)) by lia. done.
  - rewrite list_lookup_insert_ne by done. destruct (Z.ltb_spec (Z.of_nat q) (1 + count)) as [|Hq]; [apply L2; auto|].
    rewrite Eq. unfold copied_at. rewrite (proj2 (Z.eqb_neq (Z.of_nat q) 0)), !(proj2 (Z.ltb_ge (Z.of_nat q) _)) by lia.
    rewrite (proj2 (Z.eqb_neq (Z.of_nat q) (1 + count))) by lia. cbn [andb]. rewrite andb_false_r, Nat2Z.id. apply list_lookup_insert_ne. lia.
Qed.

Lemma copied_bit d' q i : (forall q, d' !! q = copied_at (Z.of_nat q)) -> 0 <= q -> 0 <= i < 8 ->
  bit_at d' (q * 8 + i) = if (r <=? q * 8 + i) && (q * 8 + i <? r + size) then bit_at src (q * 8 + i - r) else bit_at dst (q * 8 + i).
Proof.
  intros L Hq Hi. pose proof size_parts as (E & Hc & He). rewrite bit_in, L, Z2Nat.id by done. unfold copied_at.
  destruct (Z.eqb_spec q 0) as [->|Nq]; [|destruct (Z.ltb_spec q (1 + count)); [|destruct (Z.eqb_spec q (1 + count)) as [->|]; [destruct (Z.eqb_spec e 0)|]]]; cbn [default andb negb].
  - pose proof (masks_small (8 - r) ltac:(lia)) as [M _]. unfold first_masked, id. rewrite mask_bits_bit, low_mask_bit by lia. rewrite Z.mul_0_l, Z.add_0_l.
    rewrite (proj2 (Z.ltb_lt i (r + size))), andb_true_r by lia. destruct (Z.leb_spec r i).
    + rewrite (proj2 (Z.ltb_lt _ _)) by lia. rewrite Z.shiftr_spec by lia. replace (i - r) with (0 * 8 + (i - r)) by lia.
      rewrite bit_in by lia. unfold src_byte. f_equal. lia.
    + rewrite (proj2 (Z.ltb_ge _ _)) by lia. replace i with (0 * 8 + i) at 2 by lia. by rewrite bit_in by lia.
  - unfold id. rewrite joined_bit, (proj2 (Z.leb_le r (q * 8 + i))), (proj2 (Z.ltb_lt (q * 8 + i) (r + size))) by lia. cbn [andb]. f_equal. lia.
  - rewrite (proj2 (Z.ltb_ge ((1 + count) * 8 + i) (r + size))), andb_false_r, bit_in by lia. done.
  - pose proof (masks_small e ltac:(lia)) as [_ M]. unfold last_masked, id. rewrite mask_bits_bit, high_mask_bit by lia.
    rewrite (proj2 (Z.leb_le r ((1 + count) * 8 + i))) by lia. cbn [andb]. destruct (Z.ltb_spec ((1 + count) * 8 + i) (r + size)).
    + rewrite (proj2 (Z.leb_le _ _)) by lia. rewrite last_bit by lia. f_equal. lia.
    + rewrite (proj2 (Z.leb_gt _ _)) by lia. by rewrite bit_in by lia.
  - rewrite (proj2 (Z.ltb_ge (q * 8 + i) (r + size))), andb_false_r, bit_in by lia. done.
Qed.
End Copy.

(** Bits copied from the start of a buffer to an offset within the first byte of another, over
    at least the rest of that byte: they stand there, and every other bit is as it was. *)
Theorem copy_bits_copies (src dst : list Z) (dst_offset size : Z) :
  is_bytes src -> 0 < dst_offset < 8 -> 8 <= dst_offset + size ->
  size <= 8 * Z.of_nat (length src) -> dst_offset + size <= 8 * Z.of_nat (length dst) ->
  exists dst', copy_bits src 1 1 0 dst_offset size dst = Ret (size, dst') /\ length dst' = length dst /\
    forall k, 0 <= k ->
      bit_at dst' k = if (dst_offset <=? k) && (k <? dst_offset + size) then bit_at src (k - dst_offset) else bit_at dst k.
Proof.
  intros Hsrc Hr Hl Hs Hd. destruct (copied_bytes src dst dst_offset size Hr Hl Hs Hd) as (d' & E & El & L).
  assert (forall n, 0 <= n < 8 -> last_byte_bits n = n) as B.
  { intros n Hn. unfold last_byte_bits. change 7 with (2 ^ 3 - 1). rewrite land_low by lia. apply Z.mod_small. lia. }
  exists d'. split; [|split; [done|]].
  - unfold copy_bits. rewrite (proj2 (Z.eqb_neq size 0)) by lia. rewrite (B dst_offset), (B 0) by lia. change (bytes_rounded_down 0) with 0.
    rewrite (proj2 (Z.eqb_neq dst_offset 0)), (proj2 (Z.ltb_ge (dst_offset + size) 8)) by lia.
    pose proof (masks_small (8 - dst_offset) ltac:(lia)) as [M _]. rewrite (proj2 (Z.eqb_neq (make_mask (8 - dst_offset)) 0)), (proj2 (Z.eqb_neq 0 dst_offset)) by lia.
    unfold last_byte_bits. change 7 with (2 ^ 3 - 1). rewrite land_low, Z.shiftr_div_pow2 by lia. change (2 ^ 3) with 8. by rewrite E.
  - intros k Hk. rewrite (Z.div_mod k 8), (Z.mul_comm 8) by lia.
    apply (copied_bit src dst dst_offset size Hsrc Hr Hl); [done | by apply Z.div_pos; lia | by apply Z.mod_pos_bound].
Qed.

Module CopyBitsWitness.
Lemma copy_bits_copies_witness :
  is_bytes [170; 240] /\
  exists dst', copy_bits [170; 240] 1 1 0 3 10 [0; 255; 255] = Ret (10, dst') /\ dst' = [21; 95; 255].
Proof.
  assert (is_bytes [170; 240]) as H by (repeat constructor; lia). split; [exact H|].
  destruct (copy_bits_copies [170; 240] [0; 255; 255] 3 10 H) as (d' & E & _); [lia | lia | cbn; lia | cbn; lia |].
  exists d'. split; [exact E|]. vm_compute in E. by injection E as <-.
Defined.

(** Behind the first byte of the destination, the bits go to the first byte all the same. *)
Lemma copy_forgets_offset : copy_bits [255] 1 1 0 12 8 [0; 0; 0] = Ret (8, [15; 240; 0]).
Proof. reflexivity. Qed.
(** Within one byte, the bits are shifted by what the offset lacks to a byte. *)
Lemma copy_within_shifts : copy_bits [128] 1 1 0 1 2 [0] = Ret (2, [0]).
Proof. reflexivity. Qed.
End CopyBitsWitness.
