(* ===== verification/BeamFile.v ===== *)
(** The first stage of the loader ([beam/loader/beam_file.rs]): the chunks of a BEAM file and
    the tables they hold.

    The file is its bytes.  Inflating is done by an external crate: it is a parameter. *)
From S2P Require Import Prelude BeamTerm BeamMem BeamCompare BeamHeap BeamProc BeamOps BeamFacts BeamCopy BeamReader BeamCte BeamEtf.

Record LtImport := { mod_atom_i : Z; fun_atom_i : Z; imp_arity : Z }.
Record LtExport := { exp_fun_atom_i : Z; exp_arity : Z; label : Z }.
Record LtFun := { lt_arity : Z; lt_fun_atom_i : Z; code_pos : Z; index : Z; lt_nfrozen : Z; ouniq : Z }.

(** The tables; the literals are terms of the heap, which comes with the atom table. *)
Record BeamFile := {
  atoms : list string;
  imports : list LtImport;
  exports : list LtExport;
  locals : list LtExport;
  lambdas : list LtFun;
  code : list Z;
  lit_tab : list Term;
  heap_of_lits : Machine;
  vm_atom_table : AtomStorage
}.

Definition new_file (hp : Machine) (tab : AtomStorage) : BeamFile :=
  {| atoms := []; imports := []; exports := []; locals := []; lambdas := []; code := []; lit_tab := [];
     heap_of_lits := hp; vm_atom_table := tab |}.

Definition with_atoms (b : BeamFile) (x : list string) : BeamFile :=
  {| atoms := x; imports := imports b; exports := exports b; locals := locals b; lambdas := lambdas b; code := code b;
     lit_tab := lit_tab b; heap_of_lits := heap_of_lits b; vm_atom_table := vm_atom_table b |}.
Definition with_imports (b : BeamFile) (x : list LtImport) : BeamFile :=
  {| atoms := atoms b; imports := x; exports := exports b; locals := locals b; lambdas := lambdas b; code := code b;
     lit_tab := lit_tab b; heap_of_lits := heap_of_lits b; vm_atom_table := vm_atom_table b |}.
Definition with_exports (b : BeamFile) (x : list LtExport) : BeamFile :=
  {| atoms := atoms b; imports := imports b; exports := x; locals := locals b; lambdas := lambdas b; code := code b;
     lit_tab := lit_tab b; heap_of_lits := heap_of_lits b; vm_atom_table := vm_atom_table b |}.
Definition with_locals (b : BeamFile) (x : list LtExport) : BeamFile :=
  {| atoms := atoms b; imports := imports b; exports := exports b; locals := x; lambdas := lambdas b; code := code b;
     lit_tab := lit_tab b; heap_of_lits := heap_of_lits b; vm_atom_table := vm_atom_table b |}.
Definition with_lambdas (b : BeamFile) (x : list LtFun) : BeamFile :=
  {| atoms := atoms b; imports := imports b; exports := exports b; locals := locals b; lambdas := x; code := code b;
     lit_tab := lit_tab b; heap_of_lits := heap_of_lits b; vm_atom_table := vm_atom_table b |}.
Definition with_code (b : BeamFile) (x : list Z) : BeamFile :=
  {| atoms := atoms b; imports := imports b; exports := exports b; locals := locals b; lambdas := lambdas b; code := x;
     lit_tab := lit_tab b; heap_of_lits := heap_of_lits b; vm_atom_table := vm_atom_table b |}.
Definition with_lits (b : BeamFile) (x : list Term) (hp : Machine) (tab : AtomStorage) : BeamFile :=
  {| atoms := atoms b; imports := imports b; exports := exports b; locals := locals b; lambdas := lambdas b; code := code b;
     lit_tab := x; heap_of_lits := hp; vm_atom_table := tab |}.

Definition OPCODE_MAX : Z := 184.

(** A counted loop of readings. *)
Fixpoint repeat_read {A} (f : BinaryReader -> vm (A * BinaryReader)) (n : nat) (r : BinaryReader) : vm (list A * BinaryReader) :=
  match n with
  | O => Ret ([], r)
  | S n => do! (x, r) := f r in do! (xs, r) := repeat_read f n r in Ret (x :: xs, r)
  end.

Definition as_loading_error {A} (x : vm A) : vm A := match x with Fail _ => Fail CodeLoadingFailed | x => x end.

Definition read_compact_atom_length (r : BinaryReader) : vm (Z * BinaryReader) :=
  do! (b, r) := read_u8 r in
  if Z.land b 8 =? 0 then Ret (Z.shiftr b 4, r)
  else if Z.land b 16 =? 0 then
    do! (lo, r) := read_u8 r in Ret (Z.lor (Z.shiftl (Z.shiftr b 5) 8) lo, r)
  else Fail CodeLoadingFailed.

Definition read_atom_name (use_compact : bool) (r : BinaryReader) : vm (string * BinaryReader) :=
  do! (atom_len, r) := (if use_compact then read_compact_atom_length r else read_u8 r) in
  as_loading_error (read_str_utf8 r atom_len).

(** A negative count marks the compact lengths; the negation is that of [i32]. *)
Definition load_atoms_utf8 (b : BeamFile) (r : BinaryReader) : vm (BeamFile * BinaryReader) :=
  do! (n, r) := read_u32be r in
  let raw_count := as_i32 n in
  let '(n_atoms, use_compact) := if raw_count <? 0 then (wrap32 (- raw_count), true) else (raw_count, false) in
  do! (names, r) := repeat_read (read_atom_name use_compact) (Z.to_nat n_atoms) r in
  Ret (with_atoms b (atoms b ++ names), r).

Definition read_latin1_name (r : BinaryReader) : vm (string * BinaryReader) :=
  do! (atom_bytes, r) := read_u8 r in as_loading_error (read_str_latin1 r atom_bytes).

Definition load_atoms_latin1 (b : BeamFile) (r : BinaryReader) : vm (BeamFile * BinaryReader) :=
  do! (n_atoms, r) := read_u32be r in
  do! (names, r) := repeat_read read_latin1_name (Z.to_nat n_atoms) r in
  Ret (with_atoms b (atoms b ++ names), r).

Definition load_code (b : BeamFile) (r : BinaryReader) (chunk_sz : Z) : vm (BeamFile * BinaryReader) :=
  do! (_, r) := read_u32be r in
  do! (_, r) := read_u32be r in
  do! (max_opcode, r) := read_u32be r in
  do! (_, r) := read_u32be r in
  do! (_, r) := read_u32be r in
  if OPCODE_MAX <? max_opcode then Fail CodeLoadingFailed else
  do! (bs, r) := unwrap_result (read_bytes r (usize_sub chunk_sz 20)) in Ret (with_code b bs, r).

Definition read_import (r : BinaryReader) : vm (LtImport * BinaryReader) :=
  do! (m, r) := read_u32be r in do! (f, r) := read_u32be r in do! (a, r) := read_u32be r in
  Ret ({| mod_atom_i := m; fun_atom_i := f; imp_arity := a |}, r).

Definition load_imports (b : BeamFile) (r : BinaryReader) : vm (BeamFile * BinaryReader) :=
  do! (n_imports, r) := read_u32be r in
  do! (l, r) := repeat_read read_import (Z.to_nat n_imports) r in Ret (with_imports b (imports b ++ l), r).

Definition read_export (r : BinaryReader) : vm (LtExport * BinaryReader) :=
  do! (f, r) := read_u32be r in do! (a, r) := read_u32be r in do! (l, r) := read_u32be r in
  Ret ({| exp_fun_atom_i := f; exp_arity := a; label := l |}, r).

Definition load_exports (r : BinaryReader) : vm (list LtExport * BinaryReader) :=
  do! (n_exports, r) := read_u32be r in repeat_read read_export (Z.to_nat n_exports) r.

Definition read_fun (r : BinaryReader) : vm (LtFun * BinaryReader) :=
  do! (f, r) := read_u32be r in do! (a, r) := read_u32be r in do! (p, r) := read_u32be r in
  do! (i, r) := read_u32be r in do! (n, r) := read_u32be r in do! (o, r) := read_u32be r in
  Ret ({| lt_arity := a; lt_fun_atom_i := f; code_pos := p; index := i; lt_nfrozen := n; ouniq := o |}, r).

Definition load_fun_table (b : BeamFile) (r : BinaryReader) : vm (BeamFile * BinaryReader) :=
  do! (n_funs, r) := read_u32be r in
  do! (l, r) := repeat_read read_fun (Z.to_nat n_funs) r in Ret (with_lambdas b (lambdas b ++ l), r).

(** The line items are read and dropped; each is a small integer or a load-time value. *)
Fixpoint read_line_refs (fuel n : nat) (r : BinaryReader) (s : Machine) : vm (BinaryReader * Machine) :=
  match n with
  | O => Ret (r, s)
  | S n =>
    do! (val, r, s) := CompactTermReader.read AsJumpTable fuel r s in
    if is_small val then read_line_refs fuel n r s
    else if is_atom val || is_loadtime val then read_line_refs fuel n r s
    else Panic
  end.

(** A name that cannot be read is ignored. *)
Definition skip_name (r : BinaryReader) (size : Z) : vm BinaryReader :=
  match read_bytes r size with
  | Ret (_, r') => Ret r'
  | Fail _ => Ret r
  | Panic => Panic
  | Wild => Wild
  | Spin => Spin
  end.

Fixpoint read_filenames (n : nat) (r : BinaryReader) : vm BinaryReader :=
  match n with
  | O => Ret r
  | S n => do! (name_size, r) := read_u16be r in do! r := skip_name r name_size in read_filenames n r
  end.

Definition load_line_info (fuel : nat) (b : BeamFile) (r : BinaryReader) : vm (BeamFile * BinaryReader) :=
  do! (_, r) := read_u32be r in
  do! (_, r) := read_u32be r in
  do! (_, r) := read_u32be r in
  do! (n_line_refs, r) := read_u32be r in
  do! (n_filenames, r) := read_u32be r in
  do! (r, s) := read_line_refs fuel (Z.to_nat n_line_refs) r (heap_of_lits b) in
  do! r := read_filenames (Z.to_nat n_filenames) r in
  Ret (with_lits b (lit_tab b) s (vm_atom_table b), r).

(** The size of each literal is skipped; an error of the decoder is unwrapped. *)
Fixpoint read_literals (fuel n : nat) (d : Decoder) : vm (list Term * Decoder) :=
  match n with
  | O => Ret ([], d)
  | S n =>
    do! (_, d) := reads read_u32be d in
    do! (literal, d) := unwrap_result (decode fuel d) in
    do! (xs, d) := read_literals fuel n d in Ret (literal :: xs, d)
  end.

Definition decode_literals (fuel : nat) (b : BeamFile) (inflated : list Z) : vm BeamFile :=
  do! (count, d) := reads read_u32be
    {| source_bytes := from_bytes inflated; atom_table := vm_atom_table b; lit_heap := heap_of_lits b |} in
  do! (xs, d) := read_literals fuel (Z.to_nat count) d in
  Ret (with_lits b (lit_tab b ++ xs) (lit_heap d) (atom_table d)).

Section Chunks.
Context (inflate : list Z -> option (list Z)).

Definition load_literals (b : BeamFile) (r : BinaryReader) (chunk_sz : Z) : vm (BeamFile * BinaryReader) :=
  do! (uncomp_sz, r) := read_u32be r in
  do! (raw_data, r) := unwrap_result (read_bytes r (usize_sub chunk_sz 4)) in
  do! literal_data :=
    (if uncomp_sz =? 0 then Ret raw_data else
     do! inflated := unwrap (inflate raw_data) in
     if Z.of_nat (length inflated) =? uncomp_sz then Ret inflated else Panic) in
  do! b := decode_literals (length literal_data) b literal_data in Ret (b, r).

Definition skipped_chunks : list string :=
  ["Attr"; "CInf"; "Dbgi"; "Docs"; "Meta"; "Type"; "StrT"; "Abst"]%string.

Definition load_chunk (fuel : nat) (chunk_h : string) (chunk_sz : Z) (b : BeamFile) (r : BinaryReader) : vm (BeamFile * BinaryReader) :=
  if bool_decide (chunk_h = "Atom"%string) then load_atoms_latin1 b r
  else if bool_decide (chunk_h = "AtU8"%string) then load_atoms_utf8 b r
  else if bool_decide (chunk_h = "Code"%string) then load_code b r chunk_sz
  else if bool_decide (chunk_h = "ExpT"%string) then do! (l, r) := load_exports r in Ret (with_exports b l, r)
  else if bool_decide (chunk_h = "FunT"%string) then load_fun_table b r
  else if bool_decide (chunk_h = "ImpT"%string) then load_imports b r
  else if bool_decide (chunk_h = "Line"%string) then load_line_info fuel b r
  else if bool_decide (chunk_h = "LitT"%string) then load_literals b r chunk_sz
  else if bool_decide (chunk_h = "LocT"%string) then do! (l, r) := load_exports r in Ret (with_locals b l, r)
  else if bool_decide (chunk_h ∈ skipped_chunks) then Ret (b, skip r chunk_sz)
  else Fail CodeLoadingFailed.

(** [4 * ((chunk_sz + 3) / 4)] on [u32]. *)
Definition aligned_size (chunk_sz : Z) : Z := wrap32 (4 * (wrap32 (chunk_sz + 3) / 4)).

(** The end of the file between chunks is the end of the loop. *)
Fixpoint read_all_chunks (fuel : nat) (b : BeamFile) (r : BinaryReader) : vm BeamFile :=
  match fuel with
  | O => Spin
  | S n =>
    match read_str_latin1 r 4 with
    | Ret (chunk_h, r) =>
      do! (chunk_sz, r) := read_u32be r in
      let pos_begin := pos r in
      do! (b, r) := load_chunk (length (buf r)) chunk_h chunk_sz b r in
      do! r := seek r (pos_begin + aligned_size chunk_sz) in read_all_chunks n b r
    | Fail (ReadErr PrematureEOF) => Ret b
    | Fail e => Fail e
    | Panic => Panic
    | Wild => Wild
    | Spin => Spin
    end
  end.

Definition FOR1 : list Z := [70; 79; 82; 49].
Definition BEAM : list Z := [66; 69; 65; 77].

Definition read_chunks (file : list Z) (hp : Machine) (tab : AtomStorage) : vm BeamFile :=
  do! r := ensure_bytes (from_bytes file) FOR1 in
  do! (_, r) := read_u32be r in
  do! r := ensure_bytes r BEAM in
  read_all_chunks (length file) (new_file hp tab) r.
End Chunks.

(** * The format of a file *)

(** The chunks that the tables are made of, and the ones that are passed over.  The literals
    are packed where there are bytes that inflate to theirs. *)
Inductive chunk :=
| ChAtoms (compact : bool) (names : list string)
| ChImports (l : list LtImport)
| ChExports (l : list LtExport)
| ChLocals (l : list LtExport)
| ChLambdas (l : list LtFun)
| ChCode (max_opcode : Z) (bytes : list Z)
| ChLits (packed : option (list Z)) (vs : list val)
| ChSkipped (name : string) (bytes : list Z).

Definition word_bytes (n : Z) : list Z := be_bytes 4 n.
Definition counted {A} (f : A -> list Z) (l : list A) : list Z := word_bytes (Z.of_nat (length l)) ++ mjoin (f <$> l).

Definition name_bytes (compact : bool) (t : string) : list Z :=
  let n := Z.of_nat (length (str_bytes t)) in
  (if compact then if n <? 16 then [16 * n] else [32 * (n / 256) + 8; n mod 256] else [n]) ++ str_bytes t.
Definition import_bytes (i : LtImport) : list Z := word_bytes (mod_atom_i i) ++ word_bytes (fun_atom_i i) ++ word_bytes (imp_arity i).
Definition export_bytes (e : LtExport) : list Z := word_bytes (exp_fun_atom_i e) ++ word_bytes (exp_arity e) ++ word_bytes (label e).
Definition fun_bytes (f : LtFun) : list Z :=
  word_bytes (lt_fun_atom_i f) ++ word_bytes (lt_arity f) ++ word_bytes (code_pos f) ++ word_bytes (index f) ++
  word_bytes (lt_nfrozen f) ++ word_bytes (ouniq f).
Definition lit_bytes (v : val) : list Z := word_bytes (1 + Z.of_nat (length (etf v))) ++ Tag.ExtTermFormatPrefix :: etf v.

Definition payload (c : chunk) : list Z :=
  match c with
  | ChAtoms compact names =>
    word_bytes (if compact then 2 ^ 32 - Z.of_nat (length names) else Z.of_nat (length names)) ++ mjoin (name_bytes compact <$> names)
  | ChImports l => counted import_bytes l
  | ChExports l | ChLocals l => counted export_bytes l
  | ChLambdas l => counted fun_bytes l
  | ChCode max_opcode bytes => word_bytes 0 ++ word_bytes 0 ++ word_bytes max_opcode ++ word_bytes 0 ++ word_bytes 0 ++ bytes
  | ChLits None vs => word_bytes 0 ++ counted lit_bytes vs
  | ChLits (Some packed) vs => word_bytes (Z.of_nat (length (counted lit_bytes vs))) ++ packed
  | ChSkipped _ bytes => bytes
  end.

Definition chunk_name (c : chunk) : string :=
  match c with
  | ChAtoms _ _ => "AtU8" | ChImports _ => "ImpT" | ChExports _ => "ExpT" | ChLocals _ => "LocT"
  | ChLambdas _ => "FunT" | ChCode _ _ => "Code" | ChLits _ _ => "LitT" | ChSkipped t _ => t
  end.

(** A chunk ends at a multiple of four bytes from its start. *)
Definition chunk_bytes (c : chunk) : list Z :=
  let n := length (payload c) in
  str_bytes (chunk_name c) ++ word_bytes (Z.of_nat n) ++ payload c ++ replicate (Z.to_nat ((- Z.of_nat n) mod 4)) 0.

Definition file_bytes (cs : list chunk) : list Z :=
  let body := mjoin (chunk_bytes <$> cs) in FOR1 ++ word_bytes (Z.of_nat (length body) + 4) ++ BEAM ++ body.

Definition is_word (n : Z) : Prop := 0 <= n < 2 ^ 32.
Definition name_ok (compact : bool) (t : string) : Prop :=
  utf8_valid (str_bytes t) = true /\ Z.of_nat (length (str_bytes t)) < if compact then 2048 else 256.
Definition export_ok (e : LtExport) : Prop := is_word (exp_fun_atom_i e) /\ is_word (exp_arity e) /\ is_word (label e).

Section File.
Context (inflate : list Z -> option (list Z)).

Definition chunk_ok (c : chunk) : Prop :=
  match c with
  | ChAtoms compact names => Forall (name_ok compact) names /\ (if compact then 0 else -1) < Z.of_nat (length names) < 2 ^ 31
  | ChImports l => Forall (fun i => is_word (mod_atom_i i) /\ is_word (fun_atom_i i) /\ is_word (imp_arity i)) l
  | ChExports l | ChLocals l => Forall export_ok l
  | ChLambdas l =>
    Forall (fun f => (is_word (lt_fun_atom_i f) /\ is_word (lt_arity f) /\ is_word (code_pos f)) /\
                     is_word (index f) /\ is_word (lt_nfrozen f) /\ is_word (ouniq f)) l
  | ChCode max_opcode _ => 0 <= max_opcode <= OPCODE_MAX
  | ChLits packed vs =>
    Forall encodable vs /\ Forall (fun v => Z.of_nat (length (etf v)) < 2 ^ 31) vs /\ Z.of_nat (length (counted lit_bytes vs)) < 2 ^ 32 /\
    match packed with Some z => inflate z = Some (counted lit_bytes vs) | None => True end
  | ChSkipped t _ => t ∈ skipped_chunks
  end /\ Z.of_nat (length (payload c)) < 2 ^ 32 - 4.

(** What a list of chunks says of each table.  Of several tables of exports, or of code, the
    last one counts; atoms, imports and functions add up. *)
Definition in_atoms (c : chunk) : list string := match c with ChAtoms _ l => l | _ => [] end.
Definition in_imports (c : chunk) : list LtImport := match c with ChImports l => l | _ => [] end.
Definition in_lambdas (c : chunk) : list LtFun := match c with ChLambdas l => l | _ => [] end.
Definition in_lits (c : chunk) : list val := match c with ChLits _ l => l | _ => [] end.
Definition last_of {A} (f : chunk -> option (list A)) (cs : list chunk) (z : list A) : list A :=
  fold_left (fun x c => match f c with Some y => y | None => x end) cs z.
Definition in_exports (c : chunk) : option (list LtExport) := match c with ChExports l => Some l | _ => None end.
Definition in_locals (c : chunk) : option (list LtExport) := match c with ChLocals l => Some l | _ => None end.
Definition in_code (c : chunk) : option (list Z) := match c with ChCode _ bytes => Some bytes | _ => None end.


(** ** Readers of tables keep their bytes *)

Lemma repeat_read_buf {A} (f : BinaryReader -> vm (A * BinaryReader)) n :
  (forall r x r', f r = Ret (x, r') -> buf r' = buf r) -> forall r x r', repeat_read f n r = Ret (x, r') -> buf r' = buf r.
Proof. intros Hf. induction n; cbn; keep_buf; eauto with reader. Qed.
Lemma loading_error_ret {A} (x : vm A) y : as_loading_error x = Ret y -> x = Ret y.
Proof. by destruct x. Qed.
Lemma read_name_buf c r x r' : read_atom_name c r = Ret (x, r') -> buf r' = buf r.
Proof.
  unfold read_atom_name, read_compact_atom_length. intros. run_readers.
  all: match goal with H : as_loading_error _ = _ |- _ => apply loading_error_ret in H end.
  all: run_readers; same_buf.
Qed.
Lemma read_import_buf r x r' : read_import r = Ret (x, r') -> buf r' = buf r.
Proof. unfold read_import. keep_buf. Qed.
Lemma read_export_buf r x r' : read_export r = Ret (x, r') -> buf r' = buf r.
Proof. unfold read_export. keep_buf. Qed.
Lemma read_fun_buf r x r' : read_fun r = Ret (x, r') -> buf r' = buf r.
Proof. unfold read_fun. keep_buf. Qed.
#[local] Hint Resolve read_name_buf read_import_buf read_export_buf read_fun_buf repeat_read_buf : reader.

(** Which loader a chunk goes to. *)
Lemma load_chunk_eq fuel c n b r : match c with ChSkipped t _ => t ∈ skipped_chunks | _ => True end ->
  load_chunk inflate fuel (chunk_name c) n b r =
  match c with
  | ChAtoms _ _ => load_atoms_utf8 b r
  | ChImports _ => load_imports b r
  | ChExports _ => do! (l, r) := load_exports r in Ret (with_exports b l, r)
  | ChLocals _ => do! (l, r) := load_exports r in Ret (with_locals b l, r)
  | ChLambdas _ => load_fun_table b r
  | ChCode _ _ => load_code b r n
  | ChLits _ _ => load_literals inflate b r n
  | ChSkipped _ _ => Ret (b, skip r n)
  end.
Proof.
  destruct c as [| | | | | | |t bs]; try reflexivity. intros H. cbn [chunk_name]. unfold skipped_chunks in H.
  repeat (apply elem_of_cons in H as [-> | H]; [reflexivity|]). by apply not_elem_of_nil in H.
Qed.

Lemma load_chunk_buf fuel c b r b' r' n : match c with ChSkipped t _ => t ∈ skipped_chunks | _ => True end ->
  load_chunk inflate fuel (chunk_name c) n b r = Ret (b', r') -> buf r' = buf r.
Proof.
  intros Hc H. rewrite load_chunk_eq in H by done. destruct c; revert H;
    unfold load_atoms_utf8, load_imports, load_exports, load_fun_table, load_code, load_literals; cbn zeta; keep_buf.
  done.
Qed.

(** * What reading a chunk gives *)

Definition reads_back {A} (f : BinaryReader -> vm (A * BinaryReader)) (enc : A -> list Z) (x : A) : Prop :=
  forall r rest, reading r (enc x ++ rest) -> exists r', f r = Ret (x, r') /\ reading r' rest.

Lemma repeat_read_ok {A} (f : BinaryReader -> vm (A * BinaryReader)) enc l : Forall (reads_back f enc) l ->
  forall r rest, reading r (mjoin (enc <$> l) ++ rest) -> exists r', repeat_read f (length l) r = Ret (l, r') /\ reading r' rest.
Proof.
  induction 1 as [|x l Hx _ IH]; intros r rest Hr; cbn [repeat_read length]; [by eauto|].
  change (mjoin (enc <$> x :: l)) with (enc x ++ mjoin (enc <$> l)) in Hr. rewrite <- app_assoc in Hr.
  destruct (Hx _ _ Hr) as (r1 & -> & Hr1). destruct (IH _ _ Hr1) as (r2 & E2 & Hr2). cbn [vm_bind]. rewrite E2. eauto.
Qed.

Lemma length_le_mjoin {A} (enc : A -> list Z) l : (forall x, enc x <> []) -> (length l <= length (mjoin (enc <$> l)))%nat.
Proof.
  intros He. induction l as [|x l IH]; [cbn; lia|].
  change (mjoin (enc <$> x :: l)) with (enc x ++ mjoin (enc <$> l)). rewrite length_app. specialize (He x). destruct (enc x); [done|]. cbn [length]. lia.
Qed.

Lemma counted_read {A} (f : BinaryReader -> vm (A * BinaryReader)) enc (P : A -> Prop) l r rest :
  (forall x, P x -> reads_back f enc x) -> Forall P l -> (forall x, enc x <> []) -> Z.of_nat (length (counted enc l)) < 2 ^ 32 - 4 ->
  reading r (counted enc l ++ rest) ->
  exists r1 r', read_u32be r = Ret (Z.of_nat (length l), r1) /\
    repeat_read f (Z.to_nat (Z.of_nat (length l))) r1 = Ret (l, r') /\ reading r' rest.
Proof.
  intros Hf Hl He Hn Hr. apply (Forall_impl _ _ _ Hl) in Hf.
  unfold counted in *. pose proof (length_le_mjoin enc l He). rewrite length_app in Hn. rewrite <- app_assoc in Hr.
  destruct (read_u32be_bytes _ _ _ Hr) as (r1 & E1 & Hr1); [lia|]. destruct (repeat_read_ok f enc l Hf _ _ Hr1) as (r2 & E2 & Hr2).
  rewrite Nat2Z.id. eauto.
Qed.

Lemma compact_length_byte q : 0 <= q < 8 ->
  Z.land (32 * q + 8) 8 = 8 /\ Z.land (32 * q + 8) 16 = 0 /\ Z.shiftr (32 * q + 8) 5 = q.
Proof.
  intros Hq. assert (q = 0 \/ q = 1 \/ q = 2 \/ q = 3 \/ q = 4 \/ q = 5 \/ q = 6 \/ q = 7) as Hc by lia.
  repeat (destruct Hc as [-> | Hc]; [done|]). by subst.
Qed.

Lemma read_compact_length_ok n r rest : 0 <= n < 2048 ->
  reading r ((if n <? 16 then [16 * n] else [32 * (n / 256) + 8; n mod 256]) ++ rest) ->
  exists r', read_compact_atom_length r = Ret (n, r') /\ reading r' rest.
Proof.
  intros Hn Hr. unfold read_compact_atom_length. destruct (Z.ltb_spec n 16); destruct (read_u8_ok _ _ _ Hr) as (r1 & -> & Hr1); cbn [vm_bind].
  - replace (16 * n) with (n * 2 ^ 4) by lia. rewrite (land_high_low n 8 4) by lia. cbn [Z.eqb].
    rewrite Z.shiftr_div_pow2, Z.div_mul by done. eauto.
  - assert (0 <= n / 256 < 8) as Hq by (split; [apply Z.div_pos | apply Z.div_lt_upper_bound]; lia).
    cbn [app] in Hr1. destruct (read_u8_ok _ _ _ Hr1) as (r2 & E2 & Hr2). exists r2.
    destruct (compact_length_byte _ Hq) as (-> & -> & ->). cbn [Z.eqb]. rewrite E2. cbn [vm_bind]. split; [|done].
    rewrite Z.shiftl_mul_pow2 by done. rewrite lor_high_low by (try lia; apply Z.mod_pos_bound; lia).
    pose proof (Z.div_mod n 256). do 2 f_equal. lia.
Qed.

Lemma read_name_ok compact t : name_ok compact t -> reads_back (read_atom_name compact) (name_bytes compact) t.
Proof.
  intros [Hu Hn] r rest Hr. unfold read_atom_name, name_bytes in *. rewrite <- app_assoc in Hr.
  assert (exists r1, (if compact then read_compact_atom_length r else read_u8 r) = Ret (Z.of_nat (length (str_bytes t)), r1) /\
    reading r1 (str_bytes t ++ rest)) as (r1 & -> & Hr1).
  { destruct compact; [apply read_compact_length_ok; [lia | done] | by apply read_u8_ok]. }
  cbn [vm_bind]. destruct (read_str_utf8_ok r1 (str_bytes t) rest _ Hr1 eq_refl) as (r2 & Hr2 & ->). rewrite Hu, bytes_str_bytes. eauto.
Qed.

Ltac read_words :=
  repeat match goal with
  | Hr : reading ?r (word_bytes ?v ++ _) |- context [read_u32be ?r] =>
    let r' := fresh "r" in let E := fresh "E" in let Hr' := fresh "Hr" in
    destruct (read_u32be_bytes r v _ Hr) as (r' & E & Hr'); [assumption|]; rewrite E; cbn [vm_bind]
  end.

Lemma read_import_ok i : is_word (mod_atom_i i) /\ is_word (fun_atom_i i) /\ is_word (imp_arity i) ->
  reads_back read_import import_bytes i.
Proof. intros (Hm & Hf & Ha) r rest Hr. unfold import_bytes, read_import in *. rewrite <- !app_assoc in Hr. read_words. destruct i. eauto. Qed.
Lemma read_export_ok e : export_ok e -> reads_back read_export export_bytes e.
Proof. intros (Hf & Ha & Hl) r rest Hr. unfold export_bytes, read_export in *. rewrite <- !app_assoc in Hr. read_words. destruct e. eauto. Qed.
Lemma read_fun_ok f :
  (is_word (lt_fun_atom_i f) /\ is_word (lt_arity f) /\ is_word (code_pos f)) /\ is_word (index f) /\ is_word (lt_nfrozen f) /\ is_word (ouniq f) ->
  reads_back read_fun fun_bytes f.
Proof.
  intros ((Hf & Ha & Hp) & Hi & Hn & Ho) r rest Hr. unfold fun_bytes, read_fun in *. rewrite <- !app_assoc in Hr. read_words. destruct f. eauto.
Qed.

Lemma word_bytes_cons n l : word_bytes n ++ l <> [].
Proof. pose proof (be_bytes_length 4 n). unfold word_bytes. destruct (be_bytes 4 n); done. Qed.

(** ** The literals *)

Lemma lit_read v fuel d rest : encodable v -> (depth v <= fuel)%nat -> Z.of_nat (length (etf v)) < 2 ^ 31 ->
  reading (source_bytes d) (lit_bytes v ++ rest) -> ready_for d (lit_words v) (natoms v) ->
  exists d1, reads read_u32be d = Ret (1 + Z.of_nat (length (etf v)), d1) /\ decoded (decode fuel d1) d rest v.
Proof.
  intros He Hf Hl Hr Rd. unfold lit_bytes in Hr. rewrite <- app_assoc in Hr.
  destruct (reads_u32 d _ _ Hr) as (r1 & E1 & Hr1); [lia|]. eexists. split; [exact E1|].
  destruct (reads_u8 (at_reader d r1) _ _ Hr1) as (r2 & E2 & Hr2). unfold decode. rewrite E2. cbn [vm_bind].
  rewrite Z.eqb_refl. cbn [negb]. change (at_reader (at_reader d r1) r2) with (at_reader d r2).
  by apply (decoded_from _ d r2), (decode_ok v fuel).
Qed.

Lemma read_literals_ok fuel vs : Forall (fun v => encodable v /\ (depth v <= fuel)%nat /\ Z.of_nat (length (etf v)) < 2 ^ 31) vs ->
  forall d rest, reading (source_bytes d) (mjoin (lit_bytes <$> vs) ++ rest) -> ready_for d (sum_of lit_words vs) (sum_of natoms vs) ->
  exists xs d', read_literals fuel (length vs) d = Ret (xs, d') /\ grown (sum_of lit_words vs) (sum_of natoms vs) None d d' /\
    Forall2 (rep (fresh (lit_heap d) (lit_heap d')) (atom_table d')) xs vs.
Proof.
  induction 1 as [|v vs (He & Hf & Hl) _ IH]; intros d rest Hr Rd; cbn [read_literals length].
  - exists [], d. split_and!; [done | | constructor]. destruct d as [r st s]. apply (grown_refl {| source_bytes := r; atom_table := st; lit_heap := s |} r), Rd.
  - change (sum_of ?f (v :: vs)) with (f v + sum_of f vs) in *.
    pose proof (lit_words_nonneg v) as Hw. pose proof (sum_of_nonneg lit_words vs (fun u _ => lit_words_nonneg u)) as Hws.
    pose proof (natoms_nonneg v). pose proof (sum_of_nonneg natoms vs (fun u _ => natoms_nonneg u)).
    change (mjoin (lit_bytes <$> v :: vs)) with (lit_bytes v ++ mjoin (lit_bytes <$> vs)) in Hr. rewrite <- app_assoc in Hr.
    destruct (lit_read v fuel d _ He Hf Hl Hr) as (d0 & -> & y & d1 & E1 & Hr1 & G1 & Y1); [by eapply ready_for_less|].
    destruct (IH d1 rest Hr1) as (ys & d2 & E2 & G2 & Y2); [by eapply ready_for_after|].
    exists (y :: ys), d2. cbn [vm_bind]. rewrite E1. cbn [unwrap_result vm_bind]. rewrite E2. split; [done|].
    split; [by eapply grown_trans|]. constructor.
    + by eapply rep_earlier.
    + eapply Forall2_impl; [exact Y2|]. intros. by eapply rep_later.
Qed.

Lemma depth_le_length v : (depth v <= S (length (etf v)))%nat.
Proof.
  assert (forall l, Forall (fun v => (depth v <= S (length (etf v)))%nat) l ->
    (list_max (depth <$> l) <= S (length (mjoin (etf <$> l))))%nat) as Hmax.
  { induction 1 as [|u l Hu _ IH]; cbn [fmap list_fmap]; [cbn; lia|].
    change (list_max (depth u :: (depth <$> l))) with (Nat.max (depth u) (list_max (depth <$> l))).
    change (mjoin (etf u :: (etf <$> l))) with (etf u ++ mjoin (etf <$> l)). rewrite length_app. lia. }
  induction v as [n|t|i|l IH|l IH|b xs] using val_ind'; cbn [depth]; try lia.
  - specialize (Hmax l IH).
    change (etf (VTuple l)) with ((if Z.of_nat (length l) <? 256 then [Tag.SmallTuple; Z.of_nat (length l)] else Tag.LargeTuple :: be_bytes 4 (Z.of_nat (length l))) ++ mjoin (etf <$> l)).
    rewrite length_app. destruct (_ <? 256); cbn [length]; rewrite ?be_bytes_length; lia.
  - specialize (Hmax l IH). destruct l as [|u l]; [cbn; lia|].
    change (etf (VList (u :: l))) with (Tag.List :: be_bytes 4 (Z.of_nat (length (u :: l))) ++ mjoin (etf <$> u :: l) ++ [Tag.Nil]).
    set (t := u :: l) in *. cbn [length]. rewrite !length_app, be_bytes_length. lia.
Qed.

(** * What a file gives *)

Definition lits_of (cs : list chunk) : list val := mjoin (in_lits <$> cs).
Definition words_of (cs : list chunk) : Z := sum_of lit_words (lits_of cs).
Definition names_of (cs : list chunk) : Z := sum_of natoms (lits_of cs).
Definition lit_decoder (b : BeamFile) (bs : list Z) : Decoder :=
  {| source_bytes := from_bytes bs; atom_table := vm_atom_table b; lit_heap := heap_of_lits b |}.

Record adds (cs : list chunk) (b b' : BeamFile) : Prop := {
  adds_atoms : atoms b' = atoms b ++ mjoin (in_atoms <$> cs);
  adds_imports : imports b' = imports b ++ mjoin (in_imports <$> cs);
  adds_lambdas : lambdas b' = lambdas b ++ mjoin (in_lambdas <$> cs);
  adds_exports : exports b' = last_of in_exports cs (exports b);
  adds_locals : locals b' = last_of in_locals cs (locals b);
  adds_code : code b' = last_of in_code cs (code b);
  adds_lits : exists xs, lit_tab b' = lit_tab b ++ xs /\
    Forall2 (rep (fresh (heap_of_lits b) (heap_of_lits b')) (vm_atom_table b')) xs (lits_of cs);
  adds_grown : grown (words_of cs) (names_of cs) None (lit_decoder b []) (lit_decoder b' [])
}.

Lemma sum_of_app f l1 l2 : sum_of f (l1 ++ l2) = sum_of f l1 + sum_of f l2.
Proof. unfold sum_of. induction l1; cbn in *; lia. Qed.

Lemma lits_of_app cs1 cs2 : lits_of (cs1 ++ cs2) = lits_of cs1 ++ lits_of cs2.
Proof. unfold lits_of. by rewrite fmap_app, join_app. Qed.
Lemma words_of_nonneg cs : 0 <= words_of cs.
Proof. apply sum_of_nonneg. intros. apply lit_words_nonneg. Qed.
Lemma names_of_nonneg cs : 0 <= names_of cs.
Proof. apply sum_of_nonneg. intros. apply natoms_nonneg. Qed.
Lemma words_of_app cs1 cs2 : words_of (cs1 ++ cs2) = words_of cs1 + words_of cs2.
Proof. unfold words_of. by rewrite lits_of_app, sum_of_app. Qed.
Lemma names_of_app cs1 cs2 : names_of (cs1 ++ cs2) = names_of cs1 + names_of cs2.
Proof. unfold names_of. by rewrite lits_of_app, sum_of_app. Qed.

Lemma adds_trans cs1 cs2 b1 b2 b3 : adds cs1 b1 b2 -> adds cs2 b2 b3 -> adds (cs1 ++ cs2) b1 b3.
Proof.
  intros [A1 I1 L1 X1 C1 D1 (xs1 & T1 & Y1) G1] [A2 I2 L2 X2 C2 D2 (xs2 & T2 & Y2) G2].
  pose proof (words_of_nonneg cs1). pose proof (words_of_nonneg cs2). pose proof (names_of_nonneg cs1). pose proof (names_of_nonneg cs2).
  assert (forall {A} (f : chunk -> option (list A)) z, last_of f (cs1 ++ cs2) z = last_of f cs2 (last_of f cs1 z)) as Hl
    by (intros; apply fold_left_app).
  split; try (rewrite fmap_app, join_app, app_assoc; congruence); try (rewrite Hl; congruence).
  - exists (xs1 ++ xs2). split; [by rewrite T2, T1, app_assoc|]. rewrite lits_of_app. apply Forall2_app.
    + apply (Forall2_impl _ _ _ _ Y1). intros x v Hx. by apply (rep_earlier _ _ _ _ _ _ _ _ _ _ _ G1 G2).
    + apply (Forall2_impl _ _ _ _ Y2). intros x v Hx. by apply (rep_later _ _ _ _ _ (lit_decoder b3 []) _ _ G1).
  - rewrite words_of_app, names_of_app. by eapply grown_trans.
Qed.

Definition ready_file (b : BeamFile) (w n : Z) : Prop :=
  ready_heap (heap_of_lits b) w /\ table_ok (vm_atom_table b) n.

(** A chunk that leaves the literals. *)
Lemma adds_pure c b b' : machine_ok (heap_of_lits b) -> in_lits c = [] ->
  atoms b' = atoms b ++ in_atoms c -> imports b' = imports b ++ in_imports c -> lambdas b' = lambdas b ++ in_lambdas c ->
  exports b' = default (exports b) (in_exports c) -> locals b' = default (locals b) (in_locals c) ->
  code b' = default (code b) (in_code c) -> lit_tab b' = lit_tab b -> heap_of_lits b' = heap_of_lits b ->
  vm_atom_table b' = vm_atom_table b -> adds [c] b b'.
Proof.
  intros O Hc A I L X C D T H V. assert (forall {X} (x : list X), mjoin [x] = x) as Hj by (intros; apply app_nil_r).
  assert (forall {X} (f : chunk -> option (list X)) z, last_of f [c] z = default z (f c)) as Hl by (intros; unfold last_of; cbn; by destruct (f c)).
  assert (lits_of [c] = []) as Hn by (unfold lits_of; change (in_lits <$> [c]) with [in_lits c]; by rewrite Hj).
  split; try (rewrite Hl; assumption); try (change (?f <$> [c]) with [f c]; rewrite Hj; assumption).
  - exists []. rewrite T, app_nil_r. split; [done|]. rewrite Hn. constructor.
  - unfold words_of, names_of. rewrite Hn. unfold lit_decoder. rewrite H, V. exact (grown_refl (lit_decoder b []) _ O).
Qed.

Lemma length_in_mjoin {A} (enc : A -> list Z) l x : x ∈ l -> (length (enc x) <= length (mjoin (enc <$> l)))%nat.
Proof.
  induction 1 as [x l|x y l _ IH].
  - change (mjoin (enc <$> x :: l)) with (enc x ++ mjoin (enc <$> l)). rewrite length_app. lia.
  - change (mjoin (enc <$> y :: l)) with (enc y ++ mjoin (enc <$> l)). rewrite length_app. lia.
Qed.

Lemma decode_literals_ok packed vs b : Forall encodable vs -> Forall (fun v => Z.of_nat (length (etf v)) < 2 ^ 31) vs ->
  Z.of_nat (length (counted lit_bytes vs)) < 2 ^ 32 -> ready_file b (sum_of lit_words vs) (sum_of natoms vs) ->
  exists b', decode_literals (length (counted lit_bytes vs)) b (counted lit_bytes vs) = Ret b' /\ adds [ChLits packed vs] b b'.
Proof.
  intros He Hl Hn Rd. set (data := counted lit_bytes vs) in *. unfold decode_literals. fold (lit_decoder b data).
  assert (forall v, v ∈ vs -> (length (lit_bytes v) + 4 <= length data)%nat) as Hin.
  { intros v Hv. unfold data, counted. rewrite length_app. pose proof (length_in_mjoin lit_bytes vs v Hv).
    unfold word_bytes. rewrite be_bytes_length. lia. }
  assert (forall v, length (lit_bytes v) = (5 + length (etf v))%nat) as Hb
    by (intros v; unfold lit_bytes; rewrite length_app; unfold word_bytes; rewrite be_bytes_length; cbn [length]; lia).
  assert (Z.of_nat (length vs) < 2 ^ 32) as Hc.
  { pose proof (length_le_mjoin lit_bytes vs (fun v => word_bytes_cons _ _)). unfold data, counted in Hn. rewrite length_app in Hn. lia. }
  assert (reading (source_bytes (lit_decoder b data)) (word_bytes (Z.of_nat (length vs)) ++ mjoin (lit_bytes <$> vs) ++ [])) as Hr.
  { rewrite app_nil_r. apply (reading_from_bytes data). lia. }
  destruct (reads_u32 _ _ _ Hr) as (r1 & -> & Hr1); [lia|]. cbn [vm_bind]. rewrite Nat2Z.id.
  destruct (read_literals_ok (length data) vs) with (d := at_reader (lit_decoder b data) r1) (rest := ([] : list Z)) as (xs & d' & -> & G & Y); try done.
  { rewrite Forall_forall in *. intros v Hv. specialize (Hin v Hv). rewrite Hb in Hin. pose proof (depth_le_length v).
    split_and!; [auto | lia | auto]. }
  cbn [vm_bind]. eexists. split; [reflexivity|].
  assert (lits_of [ChLits packed vs] = vs) as Hv by apply app_nil_r.
  split; try done; try (cbn; by rewrite app_nil_r).
  - exists xs. split; [done|]. by rewrite Hv.
  - unfold words_of, names_of. rewrite Hv. destruct G as [K E T]. by split.
Qed.

Lemma load_literals_ok packed vs b r rest : chunk_ok (ChLits packed vs) -> ready_file b (sum_of lit_words vs) (sum_of natoms vs) ->
  reading r (payload (ChLits packed vs) ++ rest) ->
  exists b' r', load_literals inflate b r (Z.of_nat (length (payload (ChLits packed vs)))) = Ret (b', r') /\ adds [ChLits packed vs] b b'.
Proof.
  intros [(He & Hl & Hn & Hz) Hp] Rd Hr. destruct (decode_literals_ok packed vs b He Hl Hn Rd) as (b' & Ed & Hb).
  set (data := counted lit_bytes vs) in *. unfold load_literals.
  assert (forall n z, is_word n -> reading r ((word_bytes n ++ z) ++ rest) -> exists r1 r2, read_u32be r = Ret (n, r1) /\
    read_bytes r1 (usize_sub (Z.of_nat (length (word_bytes n ++ z))) 4) = Ret (z, r2)) as Hread.
  { intros n z Hw Hz'. rewrite <- app_assoc in Hz'. destruct (read_u32be_bytes _ _ _ Hz' Hw) as (r1 & E1 & Hr1).
    destruct (read_bytes_ok r1 z rest (usize_sub (Z.of_nat (length (word_bytes n ++ z))) 4) Hr1) as (r2 & E2 & _); [|eauto].
    rewrite length_app. unfold word_bytes. rewrite be_bytes_length. unfold usize_sub. rewrite (proj2 (Z.leb_le _ _)); lia. }
  destruct packed as [z|]; cbn [payload] in *; fold data in Hr |- *.
  - destruct (Hread (Z.of_nat (length data)) z ltac:(unfold is_word; lia) Hr) as (r1 & r2 & -> & E2). cbn [vm_bind]. rewrite E2. cbn [unwrap_result vm_bind].
    rewrite (proj2 (Z.eqb_neq _ _)), Hz.
    + cbn [unwrap vm_bind]. rewrite Z.eqb_refl. cbn [vm_bind]. rewrite Ed. cbn [vm_bind]. eauto.
    + unfold data, counted. rewrite length_app. unfold word_bytes at 1. rewrite be_bytes_length. lia.
  - destruct (Hread 0 data ltac:(unfold is_word; lia) Hr) as (r1 & r2 & -> & E2). cbn [vm_bind]. rewrite E2. cbn [unwrap_result vm_bind Z.eqb].
    rewrite Ed. cbn [vm_bind]. eauto.
Qed.

(** ** A chunk *)

Lemma load_atoms_ok compact names b r rest : chunk_ok (ChAtoms compact names) -> reading r (payload (ChAtoms compact names) ++ rest) ->
  exists r', load_atoms_utf8 b r = Ret (with_atoms b (atoms b ++ names), r').
Proof.
  intros [[Hn Hc] _] Hr. cbn [payload] in Hr. rewrite <- app_assoc in Hr. unfold load_atoms_utf8.
  destruct (read_u32be_bytes _ _ _ Hr) as (r1 & -> & Hr1); [destruct compact; lia|]. cbn [vm_bind]. cbn zeta.
  assert (Forall (reads_back (read_atom_name compact) (name_bytes compact)) names) as Hrd
    by (eapply Forall_impl; [exact Hn|]; intros; by apply read_name_ok).
  destruct (repeat_read_ok _ _ _ Hrd _ _ Hr1) as (r2 & E2 & _).
  set (n := Z.of_nat (length names)) in *. unfold as_i32, i32_max. destruct compact.
  - rewrite Z.mod_small by lia. rewrite (proj2 (Z.leb_gt _ _)) by lia. rewrite (proj2 (Z.ltb_lt _ _)) by lia.
    replace (wrap32 (- (2 ^ 32 - n - 2 ^ 32))) with n by (unfold wrap32; rewrite Z.mod_small; lia).
    unfold n. rewrite Nat2Z.id, E2. cbn [vm_bind]. eauto.
  - rewrite Z.mod_small by lia. rewrite (proj2 (Z.leb_le _ _)) by lia. rewrite (proj2 (Z.ltb_ge _ _)) by lia.
    unfold n. rewrite Nat2Z.id, E2. cbn [vm_bind]. eauto.
Qed.

Lemma load_code_ok m bytes b r rest : chunk_ok (ChCode m bytes) -> reading r (payload (ChCode m bytes) ++ rest) ->
  exists r', load_code b r (Z.of_nat (length (payload (ChCode m bytes)))) = Ret (with_code b bytes, r').
Proof.
  intros [Hm Hl] Hr. unfold load_code. cbn [payload] in *. rewrite <- !app_assoc in Hr.
  assert (is_word 0) by (unfold is_word; lia). assert (is_word m) by (unfold is_word, OPCODE_MAX in *; lia).
  read_words. rewrite (proj2 (Z.ltb_ge _ _)) by lia.
  match goal with H : reading ?r5 (bytes ++ rest) |- context [read_bytes ?r5 ?n] =>
    destruct (read_bytes_ok r5 bytes rest n H) as (r6 & -> & _) end; [|cbn [unwrap_result vm_bind]; eauto].
  rewrite !length_app. unfold word_bytes. rewrite !be_bytes_length. unfold usize_sub. rewrite (proj2 (Z.leb_le _ _)); lia.
Qed.

Ltac pure_chunk := eexists _, _; split; [reflexivity|]; apply adds_pure; try done; cbn; by rewrite ?app_nil_r.
Ltac counted_chunk ok Hk Hp Hr :=
  let r1 := fresh "r" in let r2 := fresh "r" in let E1 := fresh "E" in let E2 := fresh "E" in
  destruct (counted_read _ _ _ _ _ _ ok Hk (fun x => word_bytes_cons _ _) Hp Hr) as (r1 & r2 & E1 & E2 & _);
  rewrite E1; cbn [vm_bind]; rewrite E2; cbn [vm_bind]; pure_chunk.

Lemma load_chunk_ok fuel c b r rest : chunk_ok c -> ready_file b (words_of [c]) (names_of [c]) -> reading r (payload c ++ rest) ->
  exists b' r', load_chunk inflate fuel (chunk_name c) (Z.of_nat (length (payload c))) b r = Ret (b', r') /\ adds [c] b b'.
Proof.
  intros Hc Rd Hr. pose proof (proj1 (proj1 Rd)) as O. pose proof Hc as [Hk Hp].
  rewrite load_chunk_eq by (destruct c; done). unfold load_imports, load_exports, load_fun_table.
  destruct c as [k l|l|l|l|l|m bs|z vs|t bs]; cbn [chunk_ok payload] in Hk, Hp, Hr |- *.
  - destruct (load_atoms_ok k l b r rest Hc Hr) as (r' & ->). pure_chunk.
  - counted_chunk read_import_ok Hk Hp Hr.
  - counted_chunk read_export_ok Hk Hp Hr.
  - counted_chunk read_export_ok Hk Hp Hr.
  - counted_chunk read_fun_ok Hk Hp Hr.
  - destruct (load_code_ok m bs b r rest Hc Hr) as (r' & E). cbn [payload] in E. rewrite E. pure_chunk.
  - apply (load_literals_ok z vs b r rest); [done| |done]. unfold words_of, names_of in Rd.
    assert (lits_of [ChLits z vs] = vs) as Hv by apply app_nil_r. by rewrite Hv in Rd.
  - pure_chunk.
Qed.

(** ** All of them *)

Lemma chunk_name_read c r rest : match c with ChSkipped t _ => t ∈ skipped_chunks | _ => True end ->
  reading r (str_bytes (chunk_name c) ++ rest) -> exists r', read_str_latin1 r 4 = Ret (chunk_name c, r') /\ reading r' rest.
Proof.
  intros Hc Hr.
  assert (length (str_bytes (chunk_name c)) = 4%nat /\ bytes_str (mjoin (latin1_char <$> str_bytes (chunk_name c))) = chunk_name c) as [Hl Ht].
  { destruct c as [| | | | | | |t bs]; try done. unfold skipped_chunks in Hc. cbn [chunk_name].
    repeat (apply elem_of_cons in Hc as [-> | Hc]; [done|]). by apply not_elem_of_nil in Hc. }
  unfold read_str_latin1. destruct (read_bytes_ok r _ rest 4 Hr) as (r' & -> & Hr'); [by rewrite Hl|]. cbn [vm_bind]. rewrite Ht. eauto.
Qed.

Lemma aligned_size_eq n : 0 <= n < 2 ^ 32 - 4 -> aligned_size n = n + (- n) mod 4.
Proof.
  intros Hn. unfold aligned_size, wrap32. rewrite (Z.mod_small (n + 3)) by lia. rewrite Z.mod_small by (Z.to_euclidean_division_equations; lia).
  Z.to_euclidean_division_equations. lia.
Qed.

Lemma ready_file_after cs1 cs2 b b' : ready_file b (words_of (cs1 ++ cs2)) (names_of (cs1 ++ cs2)) -> adds cs1 b b' ->
  ready_file b' (words_of cs2) (names_of cs2).
Proof.
  intros Rd A. rewrite words_of_app, names_of_app in Rd.
  exact (ready_for_after _ _ _ _ None (lit_decoder b []) (lit_decoder b' []) Rd (adds_grown _ _ _ A)).
Qed.

Lemma ready_file_first cs1 cs2 b : ready_file b (words_of (cs1 ++ cs2)) (names_of (cs1 ++ cs2)) -> ready_file b (words_of cs1) (names_of cs1).
Proof.
  intros Rd. rewrite words_of_app, names_of_app in Rd.
  exact (ready_for_less _ _ _ _ (lit_decoder b []) Rd (words_of_nonneg cs2) (names_of_nonneg cs2)).
Qed.

Lemma adds_nil b : machine_ok (heap_of_lits b) -> adds [] b b.
Proof. intros O. split; cbn; rewrite ?app_nil_r; try done. - exists []. by rewrite app_nil_r. - exact (grown_refl (lit_decoder b []) _ O). Qed.

Lemma read_all_chunks_ok cs : Forall chunk_ok cs -> forall fuel b r, (length cs < fuel)%nat ->
  ready_file b (words_of cs) (names_of cs) -> reading r (mjoin (chunk_bytes <$> cs)) ->
  exists b', read_all_chunks inflate fuel b r = Ret b' /\ adds cs b b'.
Proof.
  induction 1 as [|c cs Hc _ IH]; intros [|fuel] b r Hf Rd Hr; try (cbn in Hf; lia); cbn [read_all_chunks].
  - unfold read_str_latin1. rewrite (read_bytes_short r [] 4) by (done || cbn; lia). cbn [vm_bind]. exists b. split; [done|]. apply adds_nil, Rd.
  - change (mjoin (chunk_bytes <$> c :: cs)) with (chunk_bytes c ++ mjoin (chunk_bytes <$> cs)) in Hr. unfold chunk_bytes at 1 in Hr.
    rewrite <- !app_assoc in Hr. set (n := Z.of_nat (length (payload c))) in *. set (pad := replicate _ 0) in Hr.
    pose proof Hc as [Hk Hp]. fold n in Hp. assert (match c with ChSkipped t _ => t ∈ skipped_chunks | _ => True end) as Hs by by destruct c.
    destruct (chunk_name_read c r _ Hs Hr) as (r1 & -> & Hr1). destruct (read_u32be_bytes r1 n _ Hr1) as (r2 & -> & Hr2); [lia|]. cbn [vm_bind].
    destruct (load_chunk_ok (length (buf r2)) c b r2 _ Hc (ready_file_first [c] cs b Rd) Hr2) as (b1 & r3 & E3 & A1). fold n in E3.
    rewrite E3. cbn [vm_bind]. apply load_chunk_buf in E3; [|done]. rewrite app_assoc in Hr2. pose proof (reading_advance _ _ _ Hr2) as Hr4.
    assert (Z.of_nat (length (payload c ++ pad)) = aligned_size n) as Ha.
    { rewrite aligned_size_eq by lia. unfold pad. rewrite length_app, length_replicate. pose proof (Z.mod_pos_bound (- n) 4). lia. }
    rewrite Ha in Hr4. unfold seek. destruct Hr2 as (H0 & _ & Hl & _). rewrite length_app in Hl.
    unfold buf_len in *. rewrite E3, (proj2 (Z.leb_le _ _)) by lia. cbn [vm_bind].
    replace (at_pos r3 _) with (at_pos r2 (pos r2 + aligned_size n)) by (unfold at_pos; by rewrite E3).
    destruct (IH fuel b1 _ ltac:(cbn in Hf; lia) (ready_file_after [c] cs b b1 Rd A1) Hr4) as (b' & E' & A').
    exists b'. split; [exact E'|]. exact (adds_trans [c] cs b b1 b' A1 A').
Qed.

Lemma ensure_bytes_ok r bs rest : reading r (bs ++ rest) -> exists r', ensure_bytes r bs = Ret r' /\ reading r' rest.
Proof.
  intros Hr. destruct (read_bytes_ok r bs rest _ Hr eq_refl) as (r' & E & Hr'). exists r'. unfold ensure_bytes. rewrite E.
  cbn [unwrap_result vm_bind]. by rewrite bool_decide_eq_true_2.
Qed.

Lemma read_chunks_ok (cs : list chunk) (s : Machine) (tab : AtomStorage) :
  Forall chunk_ok cs -> Z.of_nat (length (file_bytes cs)) < 2 ^ 32 ->
  ready_heap s (words_of cs) -> table_ok tab (names_of cs) ->
  exists b, read_chunks inflate (file_bytes cs) s tab = Ret b /\ adds cs (new_file s tab) b.
Proof.
  intros Hc Hl Hh Ht. unfold read_chunks. set (n := length (file_bytes cs)).
  assert (length cs < n)%nat as Hn.
  { unfold n, file_bytes. rewrite !length_app. pose proof (length_le_mjoin chunk_bytes cs) as H. cbn [length FOR1].
    assert (forall c, chunk_bytes c <> []); [|specialize (H ltac:(done)); lia]. intros c E. apply (f_equal length) in E. unfold chunk_bytes in E.
    rewrite !length_app in E. unfold word_bytes in E. rewrite be_bytes_length in E. cbn in E. lia. }
  assert (reading (from_bytes (file_bytes cs)) (file_bytes cs)) as Hr by (apply reading_from_bytes; lia).
  unfold file_bytes at 2 in Hr. cbn zeta in Hr. set (size := Z.of_nat (length (mjoin (chunk_bytes <$> cs))) + 4) in *.
  assert (is_word size) as Hs by (unfold is_word, size; unfold file_bytes in Hl; rewrite !length_app in Hl; cbn [length BEAM] in Hl; lia).
  destruct (ensure_bytes_ok _ _ _ Hr) as (r1 & -> & Hr1). cbn [vm_bind].
  destruct (read_u32be_bytes _ _ _ Hr1 Hs) as (r2 & -> & Hr2). cbn [vm_bind].
  destruct (ensure_bytes_ok _ _ _ Hr2) as (r3 & -> & Hr3). cbn [vm_bind].
  by apply (read_all_chunks_ok cs Hc n (new_file s tab) r3 Hn (conj Hh Ht)).
Qed.

(** Reading a file gives back its tables.  From the bytes of any list of chunks (atoms in
    either form of their lengths, imports, exports, local functions, functions, code, literals
    packed or not, and the chunks passed over) the loader returns the atoms, imports and
    functions of all of them in order, the last tables of exports, of locals and of code, and
    literals that stand for the encoded values on the heap they were decoded on; it skips the
    alignment and stops at the end, without reading out of bounds. *)
Theorem beam_file_roundtrip (cs : list chunk) (s : Machine) (tab : AtomStorage) :
  Forall chunk_ok cs -> Z.of_nat (length (file_bytes cs)) < 2 ^ 32 ->
  ready_heap s (words_of cs) -> table_ok tab (names_of cs) ->
  exists b, read_chunks inflate (file_bytes cs) s tab = Ret b /\
    atoms b = mjoin (in_atoms <$> cs) /\ imports b = mjoin (in_imports <$> cs) /\ lambdas b = mjoin (in_lambdas <$> cs) /\
    exports b = last_of in_exports cs [] /\ locals b = last_of in_locals cs [] /\ code b = last_of in_code cs [] /\
    Forall2 (rep (fresh s (heap_of_lits b)) (vm_atom_table b)) (lit_tab b) (lits_of cs) /\
    machine_ok (heap_of_lits b) /\ same_terms s (heap_of_lits b) /\ extends tab (vm_atom_table b).
Proof.
  intros Hc Hl Hh Ht. destruct (read_chunks_ok cs s tab Hc Hl Hh Ht) as (b & E & [A I L X C D (xs & T & Y) [K Ex _]]).
  exists b. cbn [new_file atoms imports lambdas exports locals code lit_tab app] in *. split; [exact E|]. split_and!; try done.
  - by rewrite T.
  - apply K.
  - intros p Hp. by apply (copied_terms _ _ _ _ K).
Qed.
End File.

Module FileWitness.
Definition chunks : list chunk :=
  [ChAtoms true ["m"; "start"]; ChCode 184 [1; 16; 3]; ChImports [{| mod_atom_i := 1; fun_atom_i := 2; imp_arity := 0 |}];
   ChExports [{| exp_fun_atom_i := 2; exp_arity := 0; label := 2 |}]; ChSkipped "Attr" [131; 106];
   ChLits (Some [9; 9; 9]) [VTuple [VAtom "ok"; VInt 300]]; ChLits None [VList [VInt 1]]].

(** A packer of one packed text. *)
Definition inflate (bs : list Z) : option (list Z) :=
  if bool_decide (bs = [9; 9; 9]) then Some (counted lit_bytes [VTuple [VAtom "ok"; VInt 300]]) else None.

Lemma beam_file_roundtrip_witness :
  Z.of_nat (length (file_bytes chunks)) < 2 ^ 32 /\
  exists b, read_chunks inflate (file_bytes chunks) EtfWitness.machine empty_storage = Ret b /\
    atoms b = ["m"%string; "start"%string] /\ imports b = [{| mod_atom_i := 1; fun_atom_i := 2; imp_arity := 0 |}] /\ lambdas b = [] /\
    exports b = [{| exp_fun_atom_i := 2; exp_arity := 0; label := 2 |}] /\ locals b = [] /\ code b = [1; 16; 3] /\
    Forall2 (rep (fresh EtfWitness.machine (heap_of_lits b)) (vm_atom_table b)) (lit_tab b) [VTuple [VAtom "ok"; VInt 300]; VList [VInt 1]] /\
    machine_ok (heap_of_lits b) /\ same_terms EtfWitness.machine (heap_of_lits b) /\ extends empty_storage (vm_atom_table b).
Proof.
  split; [vm_compute; done|].
  apply (beam_file_roundtrip inflate chunks EtfWitness.machine empty_storage).
  - unfold chunks. repeat constructor; unfold is_word, OPCODE_MAX; try done; cbn; try lia.
    all: try (vm_compute; done).
  - vm_compute. done.
  - split_and!; [apply EtfWitness.lit_machine_is_ok | apply EtfWitness.lit_machine_is_ok | vm_compute; done].
  - split; [exact empty_storage_ok|]. split; [constructor | vm_compute; discriminate].
Defined.
End FileWitness.
