(* ===== verification/BeamLoad.v ===== *)
(** The loader's second and third stages ([beam/loader/mod.rs], [impl_stage2.rs],
    [impl_parse_code.rs], [impl_fix_labels.rs], [impl_setup_imports.rs]) and the module it
    makes ([emulator/module.rs], [emulator/code/]): the code of the file becomes words, its
    labels addresses, and its indices of imports pointers to them.

    The opcode is stored as itself, as in a release build.  The address of the code is the
    allocator's: [code_ptr] and, should the vector grow past its capacity, [regrow]. *)
From S2P Require Import Prelude BeamTerm BeamMem BeamCompare BeamHeap BeamProc BeamOps BeamFacts BeamCopy BeamReader BeamCte BeamEtf BeamFile.

(** * Opcodes *)

Definition ARITY_MAP : list Z :=
  [0; 1; 3; 0; 2; 3; 2; 2; 3; 2; 4; 5; 2; 3; 2; 3; 2; 1; 1; 0;
   0; 0; 0; 2; 1; 1; 2; 4; 4; 4; 4; 4; 4; 4; 4; 4; 4; 4; 3; 3;
   3; 3; 3; 3; 3; 2; 2; 2; 2; 2; 2; 2; 2; 2; 2; 2; 2; 2; 3; 3;
   3; 1; 2; 1; 2; 3; 3; 3; 3; 3; 2; 1; 1; 0; 1; 1; 3; 2; 2; 2;
   5; 5; 5; 4; 2; 1; 1; 2; 2; 5; 5; 5; 2; 1; 0; 1; 2; 2; 4; 4;
   4; 4; 3; 1; 2; 1; 1; 1; 2; 6; 3; 5; 1; 2; 2; 3; 5; 7; 7; 7;
   5; 3; 2; 2; 5; 6; 2; 2; 2; 2; 1; 3; 4; 0; 8; 6; 2; 6; 5; 4;
   5; 4; 5; 4; 3; 3; 3; 3; 3; 0; 1; 1; 7; 1; 5; 5; 2; 3; 3; 4;
   0; 0; 2; 2; 2; 3; 4; 3; 2; 2; 4; 3; 1; 2; 1; 1; 1; 6; 3; 0;
   1; 5; 3; 2; 4].

Definition OPCODE_LABEL : Z := 1.
Definition OPCODE_FUNC_INFO : Z := 2.
Definition OPCODE_CALL_EXT : Z := 7.
Definition OPCODE_CALL_EXT_LAST : Z := 8.
Definition OPCODE_BIF0 : Z := 9.
Definition OPCODE_BIF1 : Z := 10.
Definition OPCODE_BIF2 : Z := 11.
Definition OPCODE_SELECT_VAL : Z := 59.
Definition OPCODE_SELECT_TUPLE_ARITY : Z := 60.
Definition OPCODE_CALL_EXT_ONLY : Z := 78.
Definition OPCODE_MAKE_FUN2 : Z := 103.
Definition OPCODE_GC_BIF1 : Z := 124.
Definition OPCODE_GC_BIF2 : Z := 125.
Definition OPCODE_GC_BIF3 : Z := 152.
Definition OPCODE_LINE : Z := 153.
Definition OPCODE_MAKE_FUN3 : Z := 171.
Definition OPCODE_EXECUTABLE_LINE : Z := 183.
Definition OPCODE_DEBUG_LINE : Z := 184.

Definition opcode_arity (op : Z) : vm Z := unwrap (ARITY_MAP !! Z.to_nat op).
Definition opcode_uses_jump_table_list (op : Z) : bool := (op =? OPCODE_SELECT_VAL) || (op =? OPCODE_SELECT_TUPLE_ARITY).
Definition is_line_opcode (op : Z) : bool := (op =? OPCODE_LINE) || (op =? OPCODE_EXECUTABLE_LINE) || (op =? OPCODE_DEBUG_LINE).

Definition to_memory_word (op : Z) : Z := op.
Definition from_memory_word (w : Z) : Z := w mod 256.

(** * Data *)

Record FunArity := { fa_f : Term; fa_arity : Z }.
#[export] Instance FunArity_eq_dec : EqDecision FunArity.
Proof. solve_decision. Defined.

Record FunEntry := { fe_mfa : ModFunArity; fe_nfrozen : Z }.
Record VersionedModuleName := { vn_module : Term; vn_version : Z }.

Inductive PatchLocation := PatchCodeOffset (cmd_offset : nat) | PatchJumpTable (jtab : Term).

(** [BTreeMap<FunArity, usize>]: the pairs in the order of the keys, that of the words. *)
Definition ModuleFunTable : Type := list (FunArity * Z).
Definition fa_before (a b : FunArity) : bool :=
  (raw (fa_f a) <? raw (fa_f b)) || ((raw (fa_f a) =? raw (fa_f b)) && (fa_arity a <? fa_arity b)).
Fixpoint funs_insert (k : FunArity) (v : Z) (t : ModuleFunTable) : ModuleFunTable :=
  match t with
  | [] => [(k, v)]
  | (k', v') :: t' =>
    if bool_decide (k = k') then (k, v) :: t'
    else if fa_before k k' then (k, v) :: t else (k', v') :: funs_insert k v t'
  end.
Fixpoint funs_get (k : FunArity) (t : ModuleFunTable) : option Z :=
  match t with [] => None | (k', v) :: t => if bool_decide (k = k') then Some v else funs_get k t end.

Record Module := {
  versioned_name : VersionedModuleName;
  m_funs : ModuleFunTable;
  m_lambdas : list FunEntry;
  m_code : list Z;
  m_code_ptr : Z;
  m_lit_heap : Machine;
  m_line_table : list (Z * Z)
}.

(** [code_ptr] and [capacity] are those of the vector of code words; [lambdas_ptr] is the
    address of the first [FunEntry]. *)
Record LoaderState := {
  beam_file : BeamFile;
  name : option VersionedModuleName;
  vm_atoms : list Term;
  code_words : list Z;
  code_ptr : Z;
  capacity : nat;
  labels : gmap Z Z;
  replace_labels : list PatchLocation;
  funs : ModuleFunTable;
  lt_imports : list Term;
  fun_entries : list FunEntry;
  lambdas_ptr : Z;
  line_table : list (Z * Z)
}.

Definition with_file (l : LoaderState) (b : BeamFile) : LoaderState :=
  {| beam_file := b; name := name l; vm_atoms := vm_atoms l; code_words := code_words l; code_ptr := code_ptr l;
     capacity := capacity l; labels := labels l; replace_labels := replace_labels l; funs := funs l; lt_imports := lt_imports l;
     fun_entries := fun_entries l; lambdas_ptr := lambdas_ptr l; line_table := line_table l |}.
Definition with_words (l : LoaderState) (ws : list Z) (p : Z) (n : nat) : LoaderState :=
  {| beam_file := beam_file l; name := name l; vm_atoms := vm_atoms l; code_words := ws; code_ptr := p;
     capacity := n; labels := labels l; replace_labels := replace_labels l; funs := funs l; lt_imports := lt_imports l;
     fun_entries := fun_entries l; lambdas_ptr := lambdas_ptr l; line_table := line_table l |}.
Definition with_labels (l : LoaderState) (m : gmap Z Z) (rs : list PatchLocation) : LoaderState :=
  {| beam_file := beam_file l; name := name l; vm_atoms := vm_atoms l; code_words := code_words l; code_ptr := code_ptr l;
     capacity := capacity l; labels := m; replace_labels := rs; funs := funs l; lt_imports := lt_imports l;
     fun_entries := fun_entries l; lambdas_ptr := lambdas_ptr l; line_table := line_table l |}.
Definition with_tables (l : LoaderState) (fs : ModuleFunTable) (lines : list (Z * Z)) : LoaderState :=
  {| beam_file := beam_file l; name := name l; vm_atoms := vm_atoms l; code_words := code_words l; code_ptr := code_ptr l;
     capacity := capacity l; labels := labels l; replace_labels := replace_labels l; funs := fs; lt_imports := lt_imports l;
     fun_entries := fun_entries l; lambdas_ptr := lambdas_ptr l; line_table := lines |}.
Definition with_lt_imports (l : LoaderState) (imps : list Term) : LoaderState :=
  {| beam_file := beam_file l; name := name l; vm_atoms := vm_atoms l; code_words := code_words l; code_ptr := code_ptr l;
     capacity := capacity l; labels := labels l; replace_labels := replace_labels l; funs := funs l; lt_imports := imps;
     fun_entries := fun_entries l; lambdas_ptr := lambdas_ptr l; line_table := line_table l |}.
Definition with_stage2 (l : LoaderState) (atoms : list Term) (n : option VersionedModuleName) (fs : list FunEntry) : LoaderState :=
  {| beam_file := beam_file l; name := n; vm_atoms := atoms; code_words := code_words l; code_ptr := code_ptr l;
     capacity := capacity l; labels := labels l; replace_labels := replace_labels l; funs := funs l; lt_imports := lt_imports l;
     fun_entries := fs; lambdas_ptr := lambdas_ptr l; line_table := line_table l |}.

Definition lits (l : LoaderState) : Machine := heap_of_lits (beam_file l).
Definition with_heap_of (l : LoaderState) (s : Machine) : LoaderState :=
  with_file l (with_lits (beam_file l) (lit_tab (beam_file l)) s (vm_atom_table (beam_file l))).

Definition new_loader (b : BeamFile) (p lp : Z) : LoaderState :=
  {| beam_file := b; name := None; vm_atoms := []; code_words := []; code_ptr := p; capacity := 0; labels := ∅;
     replace_labels := []; funs := []; lt_imports := []; fun_entries := []; lambdas_ptr := lp; line_table := [] |}.

(** * Stage 2 *)

Definition atom_from_loadtime_index (l : LoaderState) (n : Z) : vm Term :=
  if n =? 0 then Ret nil else unwrap (vm_atoms l !! Z.to_nat (n - 1)).

Definition module_name (l : LoaderState) : vm Term :=
  match name l with Some mod_id => Ret (vn_module mod_id) | None => Panic end.

(** Atoms are interned in the table of the virtual machine, in their order. *)
Fixpoint register_names (st : AtomStorage) (names : list string) : vm (list Term * AtomStorage) :=
  match names with
  | [] => Ret ([], st)
  | t :: names =>
    do! (x, st) := unwrap (from_str st t) in
    do! (xs, st) := register_names st names in Ret (x :: xs, st)
  end.

(** [set_mod_id] takes the next version of the code server. *)
Definition stage2_register_atoms (mod_version : Z) (l : LoaderState) : vm LoaderState :=
  do! (new, st) := register_names (vm_atom_table (beam_file l)) (atoms (beam_file l)) in
  let vs := vm_atoms l ++ new in
  do! mod_name := unwrap (head vs) in
  Ret (with_stage2 (with_file l (with_lits (beam_file l) (lit_tab (beam_file l)) (lits l) st)) vs
         (Some {| vn_module := mod_name; vn_version := mod_version |}) (fun_entries l)).

Fixpoint fill_lambdas (l : LoaderState) (fs : list LtFun) : vm (list FunEntry) :=
  match fs with
  | [] => Ret []
  | rf :: fs =>
    do! fun_name := atom_from_loadtime_index l (lt_fun_atom_i rf) in
    do! m := module_name l in
    do! es := fill_lambdas l fs in
    Ret ({| fe_mfa := {| mfa_m := m; mfa_f := fun_name; mfa_arity := lt_arity rf |}; fe_nfrozen := lt_nfrozen rf |} :: es)
  end.

Definition stage2_fill_lambdas (l : LoaderState) : vm LoaderState :=
  do! es := fill_lambdas l (lambdas (beam_file l)) in
  Ret (with_stage2 l (vm_atoms l) (name l) (fun_entries l ++ es)).

(** * Values of the load *)

Definition create_jump_destination (l : LoaderState) (offs : Z) : vm Term := unwrap (make_cp (code_ptr l + 8 * offs)).

(** The elements of tuples, jump tables and lists are replaced in place. *)
Section Resolve.
Context (l : LoaderState).

Definition resolve_loadtime (arg : Term) : vm Term :=
  let lt_val := get_loadtime_val arg in
  if get_loadtime_tag arg =? LT_ATOM then (if lt_val =? 0 then Ret nil else atom_from_loadtime_index l lt_val)
  else if get_loadtime_tag arg =? LT_LITERAL then unwrap (lit_tab (beam_file l) !! Z.to_nat lt_val)
  else Ret arg.

Section Elements.
Context (resolve : Term -> Machine -> vm (Term * Machine)).

Fixpoint resolve_entries (p : Z) (n i : nat) (s : Machine) : vm Machine :=
  match n with
  | O => Ret s
  | S n =>
    do! o := read (boxes (mem s) !! p) in
    match o with
    | OJumpTable entries =>
      do! (val, loc) := read (entries !! i) in
      do! (val', s) := resolve val s in
      do! (loc', s) := resolve loc s in
      do! o := read (boxes (mem s) !! p) in
      match o with
      | OJumpTable entries => resolve_entries p n (S i) (put_box s p (OJumpTable (<[i := (val', loc')]> entries)))
      | _ => Wild
      end
    | _ => Wild
    end
  end.

Fixpoint resolve_elements (p : Z) (n i : nat) (s : Machine) : vm Machine :=
  match n with
  | O => Ret s
  | S n =>
    do! o := read (boxes (mem s) !! p) in
    match o with
    | OTuple els =>
      do! value := read (els !! i) in
      do! (x, s) := resolve value s in
      do! o := read (boxes (mem s) !! p) in
      match o with
      | OTuple els => resolve_elements p n (S i) (put_box s p (OTuple (<[i := x]> els)))
      | _ => Wild
      end
    | _ => Wild
    end
  end.

Fixpoint resolve_cells (fuel : nat) (p : Z) (s : Machine) : vm Machine :=
  match fuel with
  | O => Spin
  | S fuel =>
    do! (hd, _) := load_cons (mem s) p in
    do! (x, s) := resolve hd s in
    do! (_, tl) := load_cons (mem s) p in
    let s := put_cons_cell s p x tl in
    if is_cons tl then resolve_cells fuel (get_cons_ptr tl) s
    else if bool_decide (tl = nil) then Ret s
    else do! (y, s) := resolve tl s in do! (hd, _) := load_cons (mem s) p in Ret (put_cons_cell s p hd y)
  end.
End Elements.

Fixpoint resolve_value (fuel : nat) (arg : Term) (s : Machine) : vm (Term * Machine) :=
  match fuel with
  | O => Spin
  | S fuel =>
    if is_loadtime arg then do! x := resolve_loadtime arg in Ret (x, s) else
    do! jt := is_boxed_of_type (mem s) arg BOXTYPETAG_JUMP_TABLE in
    if (jt : bool) then
      do! o := load_box (mem s) arg in
      match o with
      | OJumpTable entries =>
        do! s := resolve_entries (resolve_value fuel) (get_box_ptr_unchecked arg) (length entries) 0 s in Ret (arg, s)
      | _ => Wild
      end
    else
      do! tup := is_tuple (mem s) arg in
      if tup && negb (bool_decide (arg = empty_tuple)) then
        do! o := load_box (mem s) arg in
        match o with
        | OTuple els => do! s := resolve_elements (resolve_value fuel) (get_box_ptr_unchecked arg) (length els) 0 s in Ret (arg, s)
        | _ => Wild
        end
      else if is_cons arg then
        do! s := resolve_cells (resolve_value fuel) fuel (get_cons_ptr arg) s in Ret (arg, s)
      else Ret (arg, s)
  end.
End Resolve.

(** * Parsing the code *)

Section Parse.
Context (regrow : Z -> nat -> Z * nat).

(** [Vec::push]: a full vector moves. *)
Definition push_word (l : LoaderState) (w : Z) : LoaderState :=
  let ws := code_words l ++ [w] in
  if (length (code_words l) <? capacity l)%nat then with_words l ws (code_ptr l) (capacity l)
  else let '(p, n) := regrow (code_ptr l) (capacity l) in with_words l ws p n.

Definition maybe_convert_label (l : LoaderState) (val : Term) (patch_loc : PatchLocation) : vm (Term * LoaderState) :=
  if negb (is_loadtime val) then Ret (val, l) else
  match labels l !! get_loadtime_val val with
  | Some offset0 => do! x := create_jump_destination l offset0 in Ret (x, l)
  | None => Ret (val, with_labels l (labels l) (replace_labels l ++ [patch_loc]))
  end.

(** The indices of literals among the values of a jump table. *)
Fixpoint literal_values (lit_tab : list Term) (entries : list (Term * Term)) : vm (list (Term * Term)) :=
  match entries with
  | [] => Ret []
  | (val, loc) :: entries =>
    do! val := (if is_loadtime val && (get_loadtime_tag val =? LT_LITERAL)
                then unwrap (lit_tab !! Z.to_nat (get_loadtime_val val)) else Ret val) in
    do! es := literal_values lit_tab entries in Ret ((val, loc) :: es)
  end.

Definition store_opcode_arg (l : LoaderState) (arg : Term) : vm LoaderState :=
  do! jt := is_boxed_of_type (mem (lits l)) arg BOXTYPETAG_JUMP_TABLE in
  if (jt : bool) then
    do! o := load_box (mem (lits l)) arg in
    match o with
    | OJumpTable entries =>
      do! es := literal_values (lit_tab (beam_file l)) entries in
      let l := push_word l (raw arg) in
      let l := with_heap_of l (put_box (lits l) (get_box_ptr_unchecked arg) (OJumpTable es)) in
      Ret (with_labels l (labels l) (replace_labels l ++ [PatchJumpTable arg]))
    | _ => Wild
    end
  else if is_loadtime arg then
    if get_loadtime_tag arg =? LT_LABEL then
      do! (x, l) := maybe_convert_label l arg (PatchCodeOffset (length (code_words l))) in Ret (push_word l (raw x))
    else if get_loadtime_tag arg =? LT_LITERAL then
      do! x := unwrap (lit_tab (beam_file l) !! Z.to_nat (get_loadtime_val arg)) in Ret (push_word l (raw x))
    else Ret l
  else Ret (push_word l (raw arg)).

Fixpoint store_opcode_args (l : LoaderState) (args : list Term) : vm LoaderState :=
  match args with
  | [] => Ret l
  | arg :: args => do! l := store_opcode_arg l arg in store_opcode_args l args
  end.

(** Everything is parsed once to know the size. *)
Fixpoint count_words (cte_fuel fuel : nat) (n : Z) : parser Z := fun r s =>
  match fuel with
  | O => Spin
  | S fuel =>
    if eof r then Ret (n, r, s) else
    do! (op, r) := read_u8 r in
    do! arity := opcode_arity op in
    do! (_, r, s) := read_terms (CompactTermReader.read (on_ext_list_create_jumptable (opcode_uses_jump_table_list op)) cte_fuel)
                       (Z.to_nat arity) r s in
    count_words cte_fuel fuel (n + (arity + 1)) r s
  end.

Fixpoint read_args (cte_fuel : nat) (mode : ListParseMode) (n : nat) (l : LoaderState) (r : BinaryReader) :
  vm (list Term * LoaderState * BinaryReader) :=
  match n with
  | O => Ret ([], l, r)
  | S n =>
    do! (arg, r, s) := CompactTermReader.read mode cte_fuel r (lits l) in
    if negb (is_value arg) then Panic else
    do! (x, s) := resolve_value l (S cte_fuel) arg s in
    do! (xs, l, r) := read_args cte_fuel mode n (with_heap_of l s) r in Ret (x :: xs, l, r)
  end.

(** One instruction: a label and a line are recorded, the rest is stored. *)
Definition store_instruction (l : LoaderState) (op : Z) (args : list Term) : vm LoaderState :=
  if op =? OPCODE_LABEL then
    do! f := unwrap (args !! 0%nat) in
    if is_small f then
      Ret (with_labels l (<[get_small_unsigned f := Z.of_nat (length (code_words l))]> (labels l)) (replace_labels l))
    else Panic
  else if is_line_opcode op then
    match args !! 0%nat with
    | Some arg =>
      if is_small arg
      then Ret (with_tables l (funs l) (line_table l ++ [(Z.of_nat (length (code_words l)), get_small_unsigned arg)]))
      else Ret l
    | None => Ret l
    end
  else if op =? OPCODE_FUNC_INFO then
    do! f := unwrap (args !! 1%nat) in
    do! a := unwrap (args !! 2%nat) in
    let funarity := {| fa_f := f; fa_arity := get_small_unsigned a |} in
    let fun_begin := Z.of_nat (length (code_words l)) + 4 in
    match name l with
    | None => Panic
    | Some _ =>
      let l := with_tables l (funs_insert funarity fun_begin (funs l)) (line_table l) in
      store_opcode_args (push_word l (to_memory_word op)) args
    end
  else store_opcode_args (push_word l (to_memory_word op)) args.

Fixpoint parse_code (cte_fuel fuel : nat) (l : LoaderState) (r : BinaryReader) : vm LoaderState :=
  match fuel with
  | O => Spin
  | S fuel =>
    if eof r then Ret l else
    do! (op, r) := read_u8 r in
    do! arity := opcode_arity op in
    do! (args, l, r) := read_args cte_fuel (on_ext_list_create_jumptable (opcode_uses_jump_table_list op)) (Z.to_nat arity) l r in
    do! l := store_instruction l op args in
    parse_code cte_fuel fuel l r
  end.

(** [reserve] makes room for the words counted; the address must be the same at the end. *)
Definition parse_raw_code (l : LoaderState) : vm LoaderState :=
  let raw_code := code (beam_file l) in
  let fuel := S (length raw_code) in
  let l := with_file l (with_code (beam_file l) []) in
  let reader := from_bytes raw_code in
  do! (code_size, reader, s) := count_words fuel fuel 0 reader (lits l) in
  let l := with_words (with_heap_of l s) (code_words l) (code_ptr l) (Z.to_nat code_size) in
  let debug_code_start := code_ptr l in
  do! l := parse_code fuel fuel l (reset reader) in
  if debug_code_start =? code_ptr l then Ret l else Panic.
End Parse.

(** * Labels *)

(** The lookup of an unknown label panics. *)
Definition resolve_loadtime_label (l : LoaderState) (val : Term) : vm Term :=
  let unfixed := get_loadtime_val val in
  if 0 <? unfixed then do! dst_offset := unwrap (labels l !! unfixed) in create_jump_destination l dst_offset
  else Ret nil.

Fixpoint fix_locations (l : LoaderState) (entries : list (Term * Term)) : vm (list (Term * Term)) :=
  match entries with
  | [] => Ret []
  | (val, loc) :: entries =>
    do! loc := resolve_loadtime_label l loc in do! es := fix_locations l entries in Ret ((val, loc) :: es)
  end.

Definition fix_label (l : LoaderState) (ploc : PatchLocation) : vm LoaderState :=
  match ploc with
  | PatchCodeOffset i =>
    do! w := unwrap (code_words l !! i) in
    do! x := resolve_loadtime_label l {| raw := w |} in
    Ret (with_words l (<[i := raw x]> (code_words l)) (code_ptr l) (capacity l))
  | PatchJumpTable jtab =>
    do! o := load_box (mem (lits l)) jtab in
    match o with
    | OJumpTable entries =>
      do! es := fix_locations l entries in
      Ret (with_heap_of l (put_box (lits l) (get_box_ptr_unchecked jtab) (OJumpTable es)))
    | _ => Wild
    end
  end.

Fixpoint fix_all (l : LoaderState) (repl : list PatchLocation) : vm LoaderState :=
  match repl with
  | [] => Ret l
  | ploc :: repl => do! l := fix_label l ploc in fix_all l repl
  end.

Definition fix_labels (l : LoaderState) : vm LoaderState := fix_all (with_labels l (labels l) []) (replace_labels l).

(** * Imports *)

(** The header, the three words of the name and the flag. *)
Definition Import_storage_size : Z := 6.

Definition Import_create_into (mfarity : ModFunArity) (s : Machine) : vm (Term * Machine) :=
  do! (p, s) := alloc_words s Import_storage_size in
  do! x := unwrap (make_boxed p) in Ret (x, put_box s p (OImport mfarity)).

Fixpoint create_imports (l : LoaderState) (imps : list LtImport) (s : Machine) : vm (list Term * Machine) :=
  match imps with
  | [] => Ret ([], s)
  | ri :: imps =>
    do! mod_atom := atom_from_loadtime_index l (mod_atom_i ri) in
    do! fun_atom := atom_from_loadtime_index l (fun_atom_i ri) in
    do! (x, s) := Import_create_into {| mfa_m := mod_atom; mfa_f := fun_atom; mfa_arity := imp_arity ri |} s in
    do! (xs, s) := create_imports l imps s in Ret (x :: xs, s)
  end.

Definition FunEntry_size : Z := 32.

(** The word at a place past the end of the code is not its own. *)
Definition rewrite_arg (new : Z -> vm Z) (ws : list Z) (i : nat) : vm (list Z) :=
  do! w := read (ws !! i) in do! w := new w in Ret (<[i := w]> ws).

Definition import_word (l : LoaderState) (w : Z) : vm Z :=
  do! x := unwrap (lt_imports l !! Z.to_nat (get_small_unsigned {| raw := w |})) in Ret (raw x).
Definition lambda_word (l : LoaderState) (w : Z) : vm Z :=
  let i := get_small_unsigned {| raw := w |} in
  do! _ := unwrap (fun_entries l !! Z.to_nat i) in
  do! x := unwrap (make_cp (lambdas_ptr l + FunEntry_size * i)) in Ret (raw x).

(** Which argument of an instruction holds an index, and of what. *)
Definition index_arg (op : Z) : option (bool * nat) :=
  if (op =? OPCODE_MAKE_FUN2) || (op =? OPCODE_MAKE_FUN3) then Some (false, 1%nat)
  else if op =? OPCODE_BIF0 then Some (true, 1%nat)
  else if (op =? OPCODE_BIF1) || (op =? OPCODE_BIF2) || (op =? OPCODE_CALL_EXT) || (op =? OPCODE_CALL_EXT_LAST)
          || (op =? OPCODE_CALL_EXT_ONLY) then Some (true, 2%nat)
  else if (op =? OPCODE_GC_BIF1) || (op =? OPCODE_GC_BIF2) || (op =? OPCODE_GC_BIF3) then Some (true, 3%nat)
  else None.

Definition rewrite_instr (l : LoaderState) (ws : list Z) (p : nat) : vm (list Z) :=
  do! w := read (ws !! p) in
  match index_arg (from_memory_word w) with
  | Some (import, n) => rewrite_arg (if import then import_word l else lambda_word l) ws (p + n)
  | None => Ret ws
  end.

(** The iterator steps over an instruction before it yields the next one: the first is left
    as it is. *)
Fixpoint rewrite_code (fuel : nat) (l : LoaderState) (ws : list Z) (p : nat) : vm (list Z) :=
  match fuel with
  | O => Spin
  | S fuel =>
    do! w := read (ws !! p) in
    do! arity := opcode_arity (from_memory_word w) in
    let next_p := (p + (Z.to_nat arity + 1))%nat in
    if (length ws <=? next_p)%nat then Ret ws
    else do! ws := rewrite_instr l ws next_p in rewrite_code fuel l ws next_p
  end.

(** [code[0]] is there, or the loader panics. *)
Definition setup_imports (l : LoaderState) : vm LoaderState :=
  do! (xs, s) := create_imports l (BeamFile.imports (beam_file l)) (lits l) in
  let l := with_heap_of (with_lt_imports l (lt_imports l ++ xs)) s in
  do! _ := unwrap (code_words l !! 0%nat) in
  do! ws := rewrite_code (S (length (code_words l))) l (code_words l) 0 in
  Ret (with_words l ws (code_ptr l) (capacity l)).

(** * The module *)

Definition load_finalize (l : LoaderState) : vm Module :=
  match name l with
  | None => Panic
  | Some mod_id =>
    Ret {| versioned_name := mod_id; m_funs := funs l; m_lambdas := fun_entries l; m_code := code_words l;
           m_code_ptr := code_ptr l; m_lit_heap := lits l; m_line_table := line_table l |}
  end.

(** The module takes the name of its file, whatever the first atom says.  The second result
    is the atom table. *)
Definition finish_load (stem : string) (l : LoaderState) : vm (Module * AtomStorage) :=
  do! l := setup_imports l in
  do! m := load_finalize l in
  do! (x, st) := unwrap (from_str (vm_atom_table (beam_file l)) stem) in
  Ret ({| versioned_name := {| vn_module := x; vn_version := vn_version (versioned_name m) |}; m_funs := m_funs m;
          m_lambdas := m_lambdas m; m_code := m_code m; m_code_ptr := m_code_ptr m; m_lit_heap := m_lit_heap m;
          m_line_table := m_line_table m |}, st).

Definition load_module (inflate : list Z -> option (list Z)) (regrow : Z -> nat -> Z * nat) (code_at lambdas_at : Z)
  (stem : string) (file : list Z) (mod_version : Z) (heap : Machine) (tab : AtomStorage) : vm (Module * AtomStorage) :=
  do! b := read_chunks inflate file heap tab in
  do! l := stage2_register_atoms mod_version (new_loader b code_at lambdas_at) in
  do! l := stage2_fill_lambdas l in
  do! l := parse_raw_code regrow l in
  do! l := fix_labels l in
  finish_load stem l.

(** A code pointer is the address of a word. *)
Definition lookup_fa (m : Module) (fa : FunArity) : vm Z :=
  match funs_get fa (m_funs m) with
  | Some offset => Ret (m_code_ptr m + 8 * offset)
  | None => Fail FunctionNotFound
  end.

Definition get_funarity (mfa : ModFunArity) : FunArity := {| fa_f := mfa_f mfa; fa_arity := mfa_arity mfa |}.

Definition mod_lookup (m : Module) (mfa : ModFunArity) : vm Z :=
  if bool_decide (vn_module (versioned_name m) = mfa_m mfa) then lookup_fa m (get_funarity mfa) else Panic.

(** An empty code has no first word. *)
Definition belongs_to (m : Module) (ip : Z) : vm bool :=
  do! _ := unwrap (m_code m !! 0%nat) in
  Ret ((m_code_ptr m <=? ip) && (ip <? m_code_ptr m + 8 * Z.of_nat (length (m_code m)))).

(** The nearest beginning at or before the offset; the first in order of the ones as near. *)
Fixpoint closest (ip_offset : Z) (t : ModuleFunTable) (min_dist : Z) (fa : FunArity) : FunArity :=
  match t with
  | [] => fa
  | (key, export_offset) :: t =>
    if (export_offset <=? ip_offset) && (ip_offset - export_offset <? min_dist)
    then closest ip_offset t (ip_offset - export_offset) key
    else closest ip_offset t min_dist fa
  end.

Definition code_reverse_lookup (undefined : Term) (m : Module) (ip : Z) : vm (option ModFunArity) :=
  do! mine := belongs_to m ip in
  if negb mine then Ret None else
  if ip <=? m_code_ptr m then Panic else
  let fa := closest ((ip - m_code_ptr m) / WORD_BYTES) (m_funs m) (Z.of_nat (length (m_code m)) + 1)
              {| fa_f := undefined; fa_arity := 0 |} in
  Ret (Some {| mfa_m := vn_module (versioned_name m); mfa_f := fa_f fa; mfa_arity := fa_arity fa |}).

Fixpoint line_from (line : Z) (t : list (Z * Z)) (offset : Z) : Z :=
  match t with
  | [] => line
  | (entry_offset, entry_line) :: t => if entry_offset <=? offset then line_from entry_line t offset else line
  end.
Definition lookup_line (m : Module) (offset : Z) : Z := line_from 0 (m_line_table m) offset.

Definition lookup_line_for_ip (m : Module) (ip : Z) : vm Z :=
  do! mine := belongs_to m ip in
  if negb mine then Ret 0 else Ret (lookup_line m ((ip - m_code_ptr m) / WORD_BYTES)).
