(* ===== verification/BeamLink.v ===== *)
(** What the loader makes of a program: the words of its instructions with the labels
    resolved, and the tables of its functions and lines. *)
From S2P Require Import Prelude BeamTerm BeamMem BeamCompare BeamHeap BeamProc BeamOps BeamFacts BeamCopy BeamReader BeamCte BeamEtf BeamFile BeamLoad.

(** * Programs *)

(** Instructions by their opcodes, with the operands that need no heap. *)
Definition instr : Type := Z * list operand.

Definition instr_bytes (i : instr) : list Z := i.1 :: mjoin (operand_bytes <$> i.2).
Definition prog_bytes (prog : list instr) : list Z := mjoin (instr_bytes <$> prog).

Definition emitted (i : instr) : bool := negb ((i.1 =? OPCODE_LABEL) || is_line_opcode i.1).

(** A word of the code: itself, or the place of a label. *)
Inductive sword := W (w : Z) | L (label : Z).

Definition instr_size (i : instr) : Z := if emitted i then 1 + Z.of_nat (length i.2) else 0.
Definition label_of (i : instr) : option Z := match i with (op, [LiteralInt n]) => if op =? OPCODE_LABEL then Some n else None | _ => None end.

(** Where a label stands, in words from the beginning. *)
Fixpoint label_offset (prog : list instr) (off n : Z) : option Z :=
  match prog with
  | [] => None
  | i :: prog => if bool_decide (label_of i = Some n) then Some off else label_offset prog (off + instr_size i) n
  end.

Section Words.
Context (atom_terms lit_terms : list Term).

Definition operand_word (o : operand) : sword :=
  match o with
  | Label n => L n
  | Atom i => W (raw (if i =? 0 then nil else default nil (atom_terms !! Z.to_nat (i - 1))))
  | Literal i => W (raw (default nil (lit_terms !! Z.to_nat i)))
  | o => W (raw (operand_term o))
  end.

Definition instr_words (i : instr) : list sword := if emitted i then W i.1 :: (operand_word <$> i.2) else [].
Definition prog_words (prog : list instr) : list sword := mjoin (instr_words <$> prog).

(** The functions begin after their headers. *)
Fixpoint prog_funs (prog : list instr) (off : Z) (t : ModuleFunTable) : ModuleFunTable :=
  match prog with
  | [] => t
  | i :: prog =>
    prog_funs prog (off + instr_size i)
      (match i with
       | (op, [_; Atom f; LiteralInt a]) =>
         if op =? OPCODE_FUNC_INFO
         then funs_insert {| fa_f := if f =? 0 then nil else default nil (atom_terms !! Z.to_nat (f - 1)); fa_arity := a |} (off + 4) t else t
       | _ => t
       end)
  end.
End Words.

Fixpoint prog_lines (prog : list instr) (off : Z) : list (Z * Z) :=
  match prog with
  | [] => []
  | i :: prog =>
    (match i with (op, LiteralInt n :: _) => if is_line_opcode op then [(off, n)] else [] | _ => [] end) ++
    prog_lines prog (off + instr_size i)
  end.

(** The address of a label; label 0 is no place. *)
Definition resolved (base : Z) (prog : list instr) (w : sword) : Z :=
  match w with
  | W w => w
  | L n => if n =? 0 then raw nil else base + 8 * default 0 (label_offset prog 0 n) + 2 ^ 63 + 3
  end.

Definition operand_known (n_atoms n_lits : nat) (o : operand) : Prop :=
  match o with
  | Atom i => i <= Z.of_nat n_atoms
  | Literal i => i < Z.of_nat n_lits
  | _ => True
  end.

(** An instruction as the compiler writes it. *)
Definition instr_ok (n_atoms n_lits : nat) (i : instr) : Prop :=
  byte i.1 /\ ARITY_MAP !! Z.to_nat i.1 = Some (Z.of_nat (length i.2)) /\
  Forall operand_ok i.2 /\ Forall (operand_known n_atoms n_lits) i.2 /\
  (i.1 = OPCODE_LABEL -> exists n, i.2 = [LiteralInt n] /\ 0 < n) /\
  (is_line_opcode i.1 = true -> exists n os, i.2 = LiteralInt n :: os) /\
  (i.1 = OPCODE_FUNC_INFO -> exists m f a, i.2 = [m; Atom f; LiteralInt a]).

Definition labels_of (prog : list instr) : list Z := omap label_of prog.
Definition targets (prog : list instr) : list Z :=
  mjoin ((fun i : instr => omap (fun o => match o with Label n => Some n | _ => None end) i.2) <$> prog).

(** Labels are defined once, and those that are used are defined or 0. *)
Definition prog_ok (n_atoms n_lits : nat) (prog : list instr) : Prop :=
  Forall (instr_ok n_atoms n_lits) prog /\ NoDup (labels_of prog) /\
  Forall (fun n => n = 0 \/ n ∈ labels_of prog) (targets prog).

(** ** The value of an operand *)

Lemma tag_of_small v : value_ok v -> get_term_tag (make_small_signed v) = SMALL_INT.
Proof. unfold value_ok. intros Hv. apply (small_reads v). lia. Qed.

(** A value that is not load-time, and neither a box nor a list, stays. *)
Definition plain (x : Term) : Prop :=
  is_loadtime x = false /\ get_term_tag x <> BOX_PTR /\ get_term_tag x <> CONS_PTR.

Lemma plain_tag x : get_term_tag x <> SPECIAL -> get_term_tag x <> BOX_PTR -> get_term_tag x <> CONS_PTR -> plain x.
Proof. intros H1 H2 H3. unfold plain, is_loadtime, is_special_of_type, is_special. by rewrite (proj2 (Z.eqb_neq _ _)). Qed.

Lemma plain_special x t : get_term_tag x = SPECIAL -> get_special_tag x = t -> t <> LOAD_TIME -> plain x.
Proof.
  intros H1 H2 H3. unfold plain, is_loadtime, is_special_of_type, is_special. rewrite H1, H2, (proj2 (Z.eqb_neq t _)) by done. done.
Qed.

Lemma plain_value x : plain x -> is_value x = true.
Proof. intros (_ & Hb & _). unfold is_value, is_non_value, is_boxed. by rewrite (proj2 (Z.eqb_neq _ _)). Qed.

Lemma plain_not_boxed_of m x t : plain x -> is_boxed_of_type m x t = Ret false.
Proof. intros (_ & Hb & _). unfold is_boxed_of_type, is_boxed_of_, is_boxed. by rewrite (proj2 (Z.eqb_neq _ _)). Qed.

Lemma resolve_plain l fuel x s : plain x -> resolve_value l (S fuel) x s = Ret (x, s).
Proof.
  intros P. pose proof P as (Hl & Hb & Hc). cbn [resolve_value]. rewrite Hl, (plain_not_boxed_of _ _ _ P). cbn [vm_bind]. unfold is_tuple, or_else.
  rewrite (plain_not_boxed_of _ _ _ P). unfold is_cons. rewrite (proj2 (Z.eqb_neq _ _)) by done. by case_bool_decide.
Qed.

Lemma special_plain t s n : 0 <= t < 8 -> 0 <= s < 4 -> 0 <= n < 2 ^ 56 -> t <> LOAD_TIME ->
  plain (make_special t (Z.lor (shl64 n SUBTAG_BITS) s)).
Proof. intros Ht Hs Hn Hl. destruct (sub_reads t s n Ht Hs Hn) as (_ & H1 & H2 & _). by eapply plain_special. Qed.

Lemma nil_plain : plain nil.
Proof. by vm_compute. Qed.

Lemma loadtime_reads k n : 0 <= k < 4 -> 0 <= n < 2 ^ 56 ->
  is_loadtime (make_special_loadtime k n) = true /\ get_loadtime_tag (make_special_loadtime k n) = k /\
  get_loadtime_val (make_special_loadtime k n) = n /\ is_value (make_special_loadtime k n) = true /\
  forall m t, is_boxed_of_type m (make_special_loadtime k n) t = Ret false.
Proof.
  intros Hk Hn. destruct (sub_reads LOAD_TIME k n ltac:(by vm_compute) Hk Hn) as (_ & Ht & Hs & _ & _ & Hg & Hv).
  fold (make_special_loadtime k n) in *. unfold is_loadtime, is_special_of_type, is_special, is_value, is_non_value, is_boxed_of_type,
    is_boxed_of_, is_boxed. rewrite Ht, Hs, Hg, Hv. done.
Qed.

(** ** What a load goes by *)

Definition env (l : LoaderState) :=
  (beam_file l, name l, vm_atoms l, (code_ptr l, capacity l), (lt_imports l, fun_entries l, lambdas_ptr l)).

Definition storable (m : Memory) (x : Term) : Prop :=
  is_loadtime x = false /\ is_boxed_of_type m x BOXTYPETAG_JUMP_TABLE = Ret false.

Lemma plain_storable m x : plain x -> storable m x.
Proof. intros P. split; [apply P | by apply plain_not_boxed_of]. Qed.

(** The atoms and the literals are terms of the heap; the code fits in memory. *)
Record ready_load (l : LoaderState) : Prop := {
  ready_atoms : Forall plain (vm_atoms l);
  ready_lits : Forall (storable (mem (lits l))) (lit_tab (beam_file l));
  ready_ptr : 0 <= code_ptr l /\ code_ptr l mod 8 = 0 /\ code_ptr l + 8 * Z.of_nat (capacity l) < 2 ^ 63;
  ready_name : name l <> None
}.

Lemma ready_env l l' : env l' = env l -> ready_load l -> ready_load l'.
Proof.
  intros E [A L (P1 & P2 & P3) N]. unfold env in E. injection E as E1 E2 E3 E4 E5 _ _ _.
  unfold lits in *. split; unfold lits; rewrite ?E1, ?E2, ?E3, ?E4, ?E5; done.
Qed.

Lemma with_heap_same l : with_heap_of l (lits l) = l.
Proof. destruct l as [b]. destruct b. reflexivity. Qed.

Definition operand_value (l : LoaderState) (o : operand) : Term :=
  match o with
  | Label n => make_loadtime_label n
  | Atom i => if i =? 0 then nil else default nil (vm_atoms l !! Z.to_nat (i - 1))
  | Literal i => default nil (lit_tab (beam_file l) !! Z.to_nat i)
  | o => operand_term o
  end.

Definition known (l : LoaderState) (o : operand) : Prop :=
  operand_ok o /\ operand_known (length (vm_atoms l)) (length (lit_tab (beam_file l))) o.

(** Every operand but labels, atoms and literals is plain. *)
Lemma operand_term_plain o : operand_ok o -> match o with Label _ | Atom _ | Literal _ => True | _ => plain (operand_term o) end.
Proof.
  destruct o as [v|v|v|v|v|v|v|v|v|v ty|v ty]; cbn [operand_ok operand_term]; intros H; try done.
  1-3: apply plain_tag; rewrite (tag_of_small _ H); done.
  4-5: destruct H as [H _].
  all: unfold value_ok in H; apply (special_plain REG); try lia; by vm_compute.
Qed.

Lemma resolve_operand l fuel o s : known l o -> resolve_value l (S fuel) (operand_term o) s = Ret (operand_value l o, s) /\ is_value (operand_term o) = true.
Proof.
  intros [Ho Hk]. pose proof (operand_term_plain o Ho) as Hp.
  destruct o as [v|v|v|v|v|v|v|v|v|v ty|v ty]; try (split; [by apply resolve_plain | by apply plain_value]);
    cbn [operand_ok operand_term operand_value operand_known] in *; unfold value_ok in Ho.
  - destruct (Z.eqb_spec v 0) as [->|Hv]; [split; [apply resolve_plain | apply plain_value]; exact nil_plain|].
    destruct (loadtime_reads LT_ATOM v) as (E1 & E2 & E3 & E4 & _); [done | lia |]. fold (make_loadtime_atom v) in *. split; [|done].
    cbn [resolve_value]. unfold resolve_loadtime, atom_from_loadtime_index. rewrite E1, E2, E3. cbn [Z.eqb LT_ATOM].
    rewrite (proj2 (Z.eqb_neq v 0)) by done. destruct (lookup_lt_is_Some_2 (vm_atoms l) (Z.to_nat (v - 1))) as [x ->]; [lia|]. done.
  - destruct (loadtime_reads LT_LABEL v) as (E1 & E2 & E3 & E4 & _); [done | lia |]. fold (make_loadtime_label v) in *. split; [|done].
    cbn [resolve_value]. unfold resolve_loadtime. rewrite E1, E2. done.
  - destruct (loadtime_reads LT_LITERAL v) as (E1 & E2 & E3 & E4 & _); [done | lia |]. fold (make_loadtime_literal v) in *. split; [|done].
    cbn [resolve_value]. unfold resolve_loadtime. rewrite E1, E2, E3. cbn [Z.eqb LT_ATOM LT_LITERAL Pos.eqb].
    destruct (lookup_lt_is_Some_2 (lit_tab (beam_file l)) (Z.to_nat v)) as [x ->]; [lia|]. done.
Qed.

Lemma read_args_ok l os cte mode rest : Forall (known l) os -> (3 <= cte)%nat -> forall r,
  reading r (mjoin (operand_bytes <$> os) ++ rest) ->
  exists r', read_args cte mode (length os) l r = Ret (operand_value l <$> os, l, r') /\ reading r' rest.
Proof.
  intros Hk Hc. induction Hk as [|o os Ho _ IH]; intros r Hr; cbn [read_args length]; [by eauto|].
  change (mjoin (operand_bytes <$> o :: os)) with (operand_bytes o ++ mjoin (operand_bytes <$> os)) in Hr. rewrite <- app_assoc in Hr.
  destruct (read_operand mode o _ r (lits l) cte (proj1 Ho) Hc Hr) as (r1 & -> & Hr1). cbn [vm_bind].
  destruct (resolve_operand l cte o (lits l) Ho) as [-> ->]. cbn [negb vm_bind]. rewrite with_heap_same.
  destruct (IH _ Hr1) as (r2 & -> & Hr2). cbn [vm_bind]. eauto.
Qed.

(** ** Words stored, with labels yet to be resolved *)

Definition address (l : LoaderState) (off : Z) : Z := code_ptr l + 8 * off + 2 ^ 63 + 3.

Definition done_word (l : LoaderState) (w : sword) (z : Z) : Prop :=
  match w with W v => z = v | L n => (n = 0 /\ z = raw nil) \/ exists off, labels l !! n = Some off /\ z = address l off end.

(** The words at the pending places are their labels; all others are final. *)
Record halfway (pending : list nat) (ws : list sword) (l : LoaderState) : Prop := {
  half_length : length (code_words l) = length ws;
  half_offsets : map_Forall (fun _ off => 0 <= off <= Z.of_nat (length ws)) (labels l);
  half_pending : forall i, i ∈ pending -> exists n, ws !! i = Some (L n) /\ value_ok n /\ code_words l !! i = Some (raw (make_loadtime_label n));
  half_done : forall i w, i ∉ pending -> ws !! i = Some w -> exists z, code_words l !! i = Some z /\ done_word l w z
}.

(** The pending places are those to be patched, each once. *)
Record half (pending : list nat) (ws : list sword) (l : LoaderState) : Prop := {
  half_patches : replace_labels l = PatchCodeOffset <$> pending;
  half_nodup : NoDup pending;
  half_below : Forall (fun i => (i < length ws)%nat) pending;
  half_halfway : halfway pending ws l
}.

Section Storing.
Context (regrow : Z -> nat -> Z * nat).

Lemma push_word_env l w : (length (code_words l) < capacity l)%nat -> push_word regrow l w = with_words l (code_words l ++ [w]) (code_ptr l) (capacity l).
Proof. intros H. unfold push_word. by rewrite (proj2 (Nat.ltb_lt _ _) H). Qed.

Lemma half_push pending ws l w z : half pending ws l -> (length ws < capacity l)%nat -> done_word l w z ->
  half pending (ws ++ [w]) (push_word regrow l z).
Proof.
  intros [P D B [N O Hp Hd]] Hc Hw. rewrite push_word_env by lia.
  assert (Forall (fun i => (i < length (ws ++ [w]))%nat) pending) as HB
    by (eapply Forall_impl; [exact B|]; cbn; intros; rewrite length_app; lia).
  split; [done | done | done |]. split; cbn [with_words replace_labels code_words labels code_ptr] in *.
  - rewrite !length_app. cbn. lia.
  - eapply map_Forall_impl; [exact O|]. cbn. intros. rewrite length_app. lia.
  - intros i Hi. destruct (Hp i Hi) as (n & E1 & Hn & E2). exists n. split_and!; [by apply lookup_app_l_Some | done | by apply lookup_app_l_Some].
  - intros i w' Hi E. apply lookup_app_Some in E as [E | [Hl E]].
    + destruct (Hd i w' Hi E) as (z' & E' & Hz). exists z'. split; [by apply lookup_app_l_Some | done].
    + apply list_lookup_singleton_Some in E as [E <-]. exists z. split; [|done].
      rewrite lookup_app_r by lia. rewrite N. replace (i - length ws)%nat with 0%nat by lia. done.
Qed.

Lemma half_push_pending pending ws l n : half pending ws l -> (length ws < capacity l)%nat -> value_ok n ->
  half (pending ++ [length ws]) (ws ++ [L n])
    (push_word regrow (with_labels l (labels l) (replace_labels l ++ [PatchCodeOffset (length (code_words l))])) (raw (make_loadtime_label n))).
Proof.
  intros [P D B [N O Hp Hd]] Hc Hn. rewrite push_word_env by (cbn; lia).
  split; [| | |split]; cbn [with_words with_labels replace_labels code_words labels code_ptr] in *.
  - rewrite P, N, fmap_app. done.
  - apply NoDup_app. split_and!; [done | | apply NoDup_singleton]. intros i Hi He. apply list_elem_of_singleton in He as ->.
    rewrite Forall_forall in B. specialize (B _ Hi). lia.
  - apply Forall_app. split; [|constructor; [rewrite length_app; cbn; lia | constructor]].
    eapply Forall_impl; [exact B|]. cbn. intros. rewrite length_app. lia.
  - rewrite !length_app. cbn. lia.
  - eapply map_Forall_impl; [exact O|]. cbn. intros. rewrite length_app. lia.
  - intros i Hi. apply elem_of_app in Hi as [Hi | Hi].
    + destruct (Hp i Hi) as (m & E1 & Hm & E2). exists m. split_and!; [by apply lookup_app_l_Some | done | by apply lookup_app_l_Some].
    + apply list_elem_of_singleton in Hi as ->. exists n. split_and!; [| done |].
      * rewrite lookup_app_r, Nat.sub_diag by lia. done.
      * rewrite lookup_app_r by lia. rewrite N, Nat.sub_diag. done.
  - intros i w' Hi E. apply lookup_app_Some in E as [E | [Hl E]].
    + destruct (Hd i w') as (z' & E' & Hz); [set_solver | done |]. exists z'. split; [by apply lookup_app_l_Some | done].
    + exfalso. apply list_lookup_singleton_Some in E as [E _]. apply Hi. apply elem_of_app. right. apply list_elem_of_singleton. lia.
Qed.

(** What storing leaves as it was. *)
Definition kept (l l' : LoaderState) : Prop :=
  env l' = env l /\ labels l' = labels l /\ funs l' = funs l /\ line_table l' = line_table l.

Lemma lits_kept_trans l1 l2 l3 : kept l1 l2 -> kept l2 l3 -> kept l1 l3.
Proof. intros (E1 & L1 & F1 & T1) (E2 & L2 & F2 & T2). split_and!; congruence. Qed.

Lemma kept_push l z : (length (code_words l) < capacity l)%nat -> kept l (push_word regrow l z).
Proof. intros H. rewrite push_word_env by done. by destruct l. Qed.

Lemma kept_patch l rs : kept l (with_labels l (labels l) rs).
Proof. by destruct l. Qed.

Lemma store_arg_ok pending ws l o : ready_load l -> known l o -> half pending ws l -> (length ws < capacity l)%nat ->
  exists pending' l', store_opcode_arg regrow l (operand_value l o) = Ret l' /\ kept l l' /\
    half pending' (ws ++ [operand_word (vm_atoms l) (lit_tab (beam_file l)) o]) l'.
Proof.
  intros Rl [Ho Hk] Hh Hc. pose proof (half_length _ _ _ (half_halfway _ _ _ Hh)) as N.
  assert (forall x, storable (mem (lits l)) x -> exists pending' l', store_opcode_arg regrow l x = Ret l' /\ kept l l' /\ half pending' (ws ++ [W (raw x)]) l') as Hst.
  { intros x [S1 S2]. unfold store_opcode_arg. rewrite S2, S1. cbn [vm_bind]. exists pending. eexists. split; [reflexivity|].
    split; [apply kept_push; lia|]. apply half_push; [done | lia | done]. }
  pose proof (operand_term_plain o Ho) as Hp.
  destruct o as [v|v|v|v|v|v|v|v|v|v ty|v ty]; try (by apply Hst, plain_storable); cbn [operand_value operand_word operand_ok operand_known] in *.
  - apply Hst, plain_storable. destruct (Z.eqb_spec v 0); [exact nil_plain|]. unfold value_ok in Ho.
    destruct (lookup_lt_is_Some_2 (vm_atoms l) (Z.to_nat (v - 1))) as [x E]; [lia|]. rewrite E. cbn.
    pose proof (ready_atoms _ Rl) as Ha. rewrite Forall_lookup in Ha. by eapply Ha.
  - unfold value_ok in Ho. destruct (loadtime_reads LT_LABEL v) as (E1 & E2 & E3 & _ & Eb); [done | lia |]. fold (make_loadtime_label v) in *.
    unfold store_opcode_arg. rewrite Eb. cbn [vm_bind]. rewrite E1, E2. cbn [Z.eqb LT_LABEL Pos.eqb]. unfold maybe_convert_label. rewrite E1, E3. cbn [negb].
    destruct (labels l !! v) as [off|] eqn:El.
    + pose proof (half_offsets _ _ _ (half_halfway _ _ _ Hh) v off El) as Hoff. cbn in Hoff. destruct (ready_ptr _ Rl) as (P1 & P2 & P3).
      unfold create_jump_destination. destruct (cp_reads (code_ptr l + 8 * off)) as (x & -> & Er & _); [lia | Z.to_euclidean_division_equations; lia |].
      cbn [unwrap vm_bind]. exists pending. eexists. split; [reflexivity|]. split; [apply kept_push; lia|].
      apply half_push; [done | done |]. right. exists off. split; [done|]. rewrite Er. unfold address. lia.
    + exists (pending ++ [length ws]). eexists. split; [reflexivity|]. split; [|by apply half_push_pending].
      eapply lits_kept_trans; [apply kept_patch | apply kept_push; cbn; lia].
  - unfold value_ok in Ho. destruct (lookup_lt_is_Some_2 (lit_tab (beam_file l)) (Z.to_nat v)) as [x E]; [lia|]. rewrite E. cbn [default from_option].
    apply Hst. pose proof (ready_lits _ Rl) as Ha. rewrite Forall_lookup in Ha. by eapply Ha.
Qed.

Lemma known_env l l' o : env l' = env l -> known l o -> known l' o /\ operand_value l' o = operand_value l o.
Proof.
  intros E [H1 H2]. unfold env in E. injection E as E1 E2 E3 E4 E5 _ _ _. unfold known, operand_value. rewrite E1, E3. done.
Qed.

Lemma store_args_ok os : forall pending ws l, ready_load l -> Forall (known l) os -> half pending ws l ->
  (length ws + length os <= capacity l)%nat ->
  exists pending' l', store_opcode_args regrow l (operand_value l <$> os) = Ret l' /\ kept l l' /\
    half pending' (ws ++ (operand_word (vm_atoms l) (lit_tab (beam_file l)) <$> os)) l'.
Proof.
  induction os as [|o os IH]; intros pending ws l Rl Hk Hh Hc; cbn [store_opcode_args fmap list_fmap].
  - exists pending, l. split; [done|]. split; [done|]. by rewrite app_nil_r.
  - apply Forall_cons in Hk as [Ho Hk]. cbn [length] in Hc.
    destruct (store_arg_ok pending ws l o Rl Ho Hh ltac:(lia)) as (p1 & l1 & -> & K1 & H1). cbn [vm_bind].
    pose proof K1 as (E1 & _).
    assert (Forall (known l1) os) as Hk1 by (eapply Forall_impl; [exact Hk|]; intros; by apply (known_env l)).
    assert (operand_value l <$> os = operand_value l1 <$> os) as ->.
    { apply list_fmap_ext. intros i o' Hi. rewrite Forall_lookup in Hk. symmetry. apply (known_env l); [done|]. by eapply Hk. }
    assert (capacity l1 = capacity l /\ vm_atoms l1 = vm_atoms l /\ beam_file l1 = beam_file l) as (Ec & Ea & Eb) by (unfold env in E1; by injection E1).
    destruct (IH p1 _ l1 (ready_env _ _ E1 Rl) Hk1 H1) as (p2 & l2 & E2 & K2 & H2); [rewrite length_app; cbn; lia|].
    exists p2, l2. split; [done|]. split; [by eapply lits_kept_trans|]. rewrite Ea, Eb, <- app_assoc in H2. done.
Qed.

(** ** An instruction *)

Fixpoint prog_size (prog : list instr) : Z := match prog with [] => 0 | i :: prog => instr_size i + prog_size prog end.

Lemma prog_words_app A Ls p1 p2 : prog_words A Ls (p1 ++ p2) = prog_words A Ls p1 ++ prog_words A Ls p2.
Proof. unfold prog_words. by rewrite fmap_app, join_app. Qed.
Lemma prog_words_one A Ls i : prog_words A Ls [i] = instr_words A Ls i.
Proof. apply app_nil_r. Qed.
Lemma instr_words_length A Ls i : Z.of_nat (length (instr_words A Ls i)) = instr_size i.
Proof. unfold instr_words, instr_size. destruct (emitted i); cbn [length]; rewrite ?length_fmap; lia. Qed.
Lemma prog_words_length A Ls prog : Z.of_nat (length (prog_words A Ls prog)) = prog_size prog.
Proof.
  induction prog as [|i prog IH]; [done|]. change (i :: prog) with ([i] ++ prog). rewrite prog_words_app, prog_words_one, length_app. cbn [app prog_size].
  pose proof (instr_words_length A Ls i). lia.
Qed.

Lemma label_offset_snoc pre i n : forall off, label_offset (pre ++ [i]) off n =
  match label_offset pre off n with Some o => Some o | None => if bool_decide (label_of i = Some n) then Some (off + prog_size pre) else None end.
Proof.
  induction pre as [|j pre IH]; intros off; cbn [app label_offset prog_size].
  - by rewrite Z.add_0_r.
  - destruct (bool_decide (label_of j = Some n)); [done|]. rewrite IH. destruct (label_offset pre _ n); [done|].
    destruct (bool_decide (label_of i = Some n)); [|done]. f_equal. lia.
Qed.

Lemma prog_funs_snoc A pre i : forall off t, prog_funs A (pre ++ [i]) off t = prog_funs A [i] (off + prog_size pre) (prog_funs A pre off t).
Proof. induction pre as [|j pre IH]; intros off t; cbn [app prog_funs prog_size]; [by rewrite Z.add_0_r|]. rewrite IH. cbn [prog_funs]. by rewrite Z.add_assoc. Qed.

Lemma prog_lines_snoc pre i : forall off, prog_lines (pre ++ [i]) off = prog_lines pre off ++ prog_lines [i] (off + prog_size pre).
Proof. induction pre as [|j pre IH]; intros off; cbn [app prog_lines prog_size]; [by rewrite Z.add_0_r|]. rewrite IH, app_assoc, Z.add_assoc. done. Qed.

Lemma label_offset_none pre n : forall off, label_offset pre off n = None <-> n ∉ labels_of pre.
Proof.
  induction pre as [|i pre IH]; intros off; cbn [label_offset]; [split; [intros _; apply not_elem_of_nil | done]|].
  unfold labels_of in *. cbn [omap list_omap]. case_bool_decide as E.
  - rewrite E. split; [done|]. intros H. exfalso. apply H. left.
  - rewrite IH. destruct (label_of i) as [m|]; [|done]. rewrite not_elem_of_cons. split; [intros H; split; [congruence | done] | by intros [_ H]].
Qed.

Record parsed (A Ls : list Term) (pre : list instr) (pending : list nat) (l : LoaderState) : Prop := {
  parsed_half : half pending (prog_words A Ls pre) l;
  parsed_labels : forall n, labels l !! n = label_offset pre 0 n;
  parsed_funs : funs l = prog_funs A pre 0 [];
  parsed_lines : line_table l = prog_lines pre 0
}.

(** Instructions that are neither labels nor lines nor headers only add words. *)
Lemma parsed_step A Ls pre pending pending' l l' i : parsed A Ls pre pending l -> label_of i = None ->
  prog_funs A [i] (prog_size pre) (funs l) = funs l' -> prog_lines [i] (prog_size pre) = [] -> labels l' = labels l -> line_table l' = line_table l ->
  half pending' (prog_words A Ls pre ++ instr_words A Ls i) l' -> parsed A Ls (pre ++ [i]) pending' l'.
Proof.
  intros [Hh Hl Hf Hn] Ei Ef En El Et H. split.
  - by rewrite prog_words_app, prog_words_one.
  - intros n. rewrite label_offset_snoc, El, Hl, Ei. by destruct (label_offset pre 0 n).
  - by rewrite prog_funs_snoc, Z.add_0_l, <- Hf, Ef.
  - rewrite prog_lines_snoc, Z.add_0_l, En, app_nil_r. congruence.
Qed.

Lemma label_of_other op os : op <> OPCODE_LABEL -> label_of (op, os) = None.
Proof. intros H. unfold label_of. destruct os as [|[]?]; try done. destruct os; [|done]. by rewrite (proj2 (Z.eqb_neq _ _)). Qed.

(** Where the words are stored as they are. *)
Lemma store_words_ok A Ls pre pending l op os : ready_load l -> vm_atoms l = A -> lit_tab (beam_file l) = Ls ->
  Forall (known l) os -> half pending (prog_words A Ls pre) l -> emitted (op, os) = true ->
  prog_size pre + instr_size (op, os) <= Z.of_nat (capacity l) ->
  exists pending' l', store_opcode_args regrow (push_word regrow l (to_memory_word op)) (operand_value l <$> os) = Ret l' /\ kept l l' /\
    half pending' (prog_words A Ls pre ++ instr_words A Ls (op, os)) l'.
Proof.
  intros Rl <- <- Hk Hh He Hc. unfold instr_size in Hc. rewrite He in Hc. cbn [snd] in Hc.
  pose proof (prog_words_length (vm_atoms l) (lit_tab (beam_file l)) pre) as Hn. pose proof (half_length _ _ _ (half_halfway _ _ _ Hh)) as N.
  pose proof (kept_push l (to_memory_word op) ltac:(lia)) as K1. pose proof K1 as (E1 & _). set (l1 := push_word regrow l (to_memory_word op)) in *.
  assert (half pending (prog_words (vm_atoms l) (lit_tab (beam_file l)) pre ++ [W op]) l1) as H1 by (apply half_push; [done | lia | done]).
  assert (Forall (known l1) os) as Hk1 by (eapply Forall_impl; [exact Hk|]; intros; by apply (known_env l)).
  assert (operand_value l <$> os = operand_value l1 <$> os) as ->.
  { apply list_fmap_ext. intros i o' Hi. rewrite Forall_lookup in Hk. symmetry. apply (known_env l); [done|]. by eapply Hk. }
  assert (capacity l1 = capacity l /\ vm_atoms l1 = vm_atoms l /\ beam_file l1 = beam_file l) as (Ec & Ea & Eb) by (unfold env in E1; by injection E1).
  destruct (store_args_ok os pending _ l1 (ready_env _ _ E1 Rl) Hk1 H1) as (p2 & l2 & E2 & K2 & H2); [rewrite length_app; cbn; lia|].
  exists p2, l2. split; [done|]. split; [by eapply lits_kept_trans|]. unfold instr_words. rewrite He. cbn [fst snd].
  rewrite Ea, Eb, <- app_assoc in H2. exact H2.
Qed.

(** A label is recorded at the words so far. *)
Lemma store_label_ok A Ls pre pending l n : parsed A Ls pre pending l -> value_ok n -> n ∉ labels_of pre ->
  exists l', store_instruction regrow l OPCODE_LABEL [make_small_signed n] = Ret l' /\ env l' = env l /\
    parsed A Ls (pre ++ [(OPCODE_LABEL, [LiteralInt n])]) pending l'.
Proof.
  intros [[P D B [N O Hp Hd]] Hl Hf Hs] Ho Hnew. pose proof (prog_words_length A Ls pre) as Hn.
  destruct (small_value n Ho) as (E1 & E2 & _). unfold store_instruction. change (OPCODE_LABEL =? OPCODE_LABEL) with true. cbn iota.
  change (unwrap ((?x :: ?t) !! 0%nat)) with (Ret x). cbn [vm_bind]. rewrite E1, E2. eexists. split; [reflexivity|]. split; [by destruct l|].
  apply (label_offset_none pre n 0) in Hnew. rewrite <- Hl in Hnew. split; cbn [with_labels funs line_table labels].
  - rewrite prog_words_app, prog_words_one. change (instr_words _ _ _) with (@Datatypes.nil sword). rewrite app_nil_r.
    split; [done | done | done |]. split; cbn [with_labels code_words labels]; try done.
    + apply map_Forall_insert_2; [lia | done].
    + intros i w Hi E. destruct (Hd i w Hi E) as (z & Ez & Hz). exists z. split; [done|]. destruct w as [w|m]; [done|].
      destruct Hz as [Hz | (off & Eo & ->)]; [by left|]. right. exists off. split; [|done].
      cbn [with_labels labels]. rewrite lookup_insert_ne; [done|]. intros ->. congruence.
  - intros m. rewrite label_offset_snoc. cbn [label_of]. change (OPCODE_LABEL =? OPCODE_LABEL) with true. cbn iota.
    destruct (decide (m = n)) as [->|Hm].
    + rewrite lookup_insert_eq, <- Hl, Hnew, bool_decide_eq_true_2 by done. f_equal. lia.
    + rewrite lookup_insert_ne, Hl, bool_decide_eq_false_2 by congruence. by destruct (label_offset pre 0 m).
  - by rewrite prog_funs_snoc, <- Hf.
  - rewrite prog_lines_snoc, <- Hs. cbn. by rewrite app_nil_r.
Qed.

Lemma line_not_label op : is_line_opcode op = true -> op <> OPCODE_LABEL /\ op <> OPCODE_FUNC_INFO.
Proof. intros H. split; intros ->; done. Qed.

Lemma store_line_ok A Ls pre pending l op n os xs : is_line_opcode op = true -> parsed A Ls pre pending l -> value_ok n ->
  exists l', store_instruction regrow l op (make_small_signed n :: xs) = Ret l' /\ env l' = env l /\
    parsed A Ls (pre ++ [(op, LiteralInt n :: os)]) pending l'.
Proof.
  intros Eop [[P D B [N O Hp Hd]] Hl Hf Hs] Ho. pose proof (prog_words_length A Ls pre) as Hn. destruct (line_not_label op Eop) as [Hop Hfi].
  destruct (small_value n Ho) as (E1 & E2 & _). unfold store_instruction. rewrite (proj2 (Z.eqb_neq _ _) Hop), Eop.
  change ((?x :: ?t) !! 0%nat) with (Some x). cbn iota. rewrite E1, E2. eexists. split; [reflexivity|].
  split; [by destruct l|]. split; cbn [with_tables funs line_table labels].
  - rewrite prog_words_app, prog_words_one. unfold instr_words, emitted. cbn [fst]. rewrite Eop, orb_true_r. cbn [negb]. rewrite app_nil_r. done.
  - intros m. rewrite label_offset_snoc, Hl, label_of_other by done. by destruct (label_offset pre 0 m).
  - rewrite prog_funs_snoc, <- Hf. cbn [prog_funs]. destruct os as [|[] [|[] [|]]]; try done. by rewrite (proj2 (Z.eqb_neq _ _) Hfi).
  - rewrite prog_lines_snoc, <- Hs. cbn [prog_lines]. rewrite Eop. cbn. do 3 f_equal. lia.
Qed.

Lemma store_func_info_ok A Ls pre pending l m f a : ready_load l -> vm_atoms l = A -> lit_tab (beam_file l) = Ls ->
  Forall (known l) [m; Atom f; LiteralInt a] -> parsed A Ls pre pending l -> prog_size pre + 4 <= Z.of_nat (capacity l) ->
  exists pending' l', store_instruction regrow l OPCODE_FUNC_INFO (operand_value l <$> [m; Atom f; LiteralInt a]) = Ret l' /\ env l' = env l /\
    parsed A Ls (pre ++ [(OPCODE_FUNC_INFO, [m; Atom f; LiteralInt a])]) pending' l'.
Proof.
  intros Rl EA EL Hkn Hp Hc. pose proof Hp as [Hh Hl Hf Hs]. pose proof (half_length _ _ _ (half_halfway _ _ _ Hh)) as N.
  pose proof (prog_words_length A Ls pre) as Hn. pose proof (Forall_inv (Forall_inv_tail (Forall_inv_tail Hkn))) as [Hva _].
  cbn [operand_ok] in Hva. destruct (small_value a Hva) as (_ & E2 & _). unfold store_instruction.
  change (OPCODE_FUNC_INFO =? OPCODE_LABEL) with false. change (is_line_opcode OPCODE_FUNC_INFO) with false.
  change (OPCODE_FUNC_INFO =? OPCODE_FUNC_INFO) with true. cbn iota. cbn [fmap list_fmap operand_value operand_term].
  change (unwrap ((?x :: ?y :: ?t) !! 1%nat)) with (Ret y). change (unwrap ((?x :: ?y :: ?z :: ?t) !! 2%nat)) with (Ret z). cbn [vm_bind]. rewrite E2.
  destruct (name l) eqn:Enm; [|by destruct (ready_name _ Rl)].
  set (fa := {| fa_f := _; fa_arity := a |}). set (l1 := with_tables l _ _). assert (env l1 = env l) as Ee by by destruct l.
  destruct (store_words_ok A Ls pre pending l1 OPCODE_FUNC_INFO [m; Atom f; LiteralInt a]) as (p2 & l2 & E & (K1 & K2 & K3 & K4) & H2);
    [by eapply ready_env | done | done | done | | done | done |].
  { destruct Hh as [P D B [N' O Hpe Hd]]. by split. }
  change (operand_value l1 <$> _) with (operand_value l <$> [m; Atom f; LiteralInt a]) in E. cbn [fmap list_fmap operand_value operand_term] in E.
  exists p2, l2. split; [exact E|]. split; [congruence|]. eapply parsed_step; try done; [by apply label_of_other| |by destruct m].
  rewrite K3. unfold l1. cbn [with_tables funs prog_funs]. change (OPCODE_FUNC_INFO =? OPCODE_FUNC_INFO) with true. cbn iota.
  unfold fa. rewrite EA. f_equal. lia.
Qed.

Lemma store_instruction_ok A Ls pre pending l op os : ready_load l -> vm_atoms l = A -> lit_tab (beam_file l) = Ls ->
  instr_ok (length A) (length Ls) (op, os) -> parsed A Ls pre pending l -> (forall n, label_of (op, os) = Some n -> n ∉ labels_of pre) ->
  prog_size pre + instr_size (op, os) <= Z.of_nat (capacity l) ->
  exists pending' l', store_instruction regrow l op (operand_value l <$> os) = Ret l' /\ env l' = env l /\
    parsed A Ls (pre ++ [(op, os)]) pending' l'.
Proof.
  intros Rl EA EL (Hb & Ha & Ho & Hk & Hlab & Hline & Hfun) Hp Hnew Hc. cbn [fst snd] in *.
  assert (Forall (known l) os) as Hkn by (rewrite Forall_forall in *; intros o Hi; unfold known; rewrite EA, EL; auto).
  destruct (decide (op = OPCODE_LABEL)) as [->|Hop].
  { destruct (Hlab eq_refl) as (n & -> & Hn0). apply Forall_cons in Ho as [Ho _]. exists pending. by apply store_label_ok, Hnew. }
  destruct (is_line_opcode op) eqn:Eop.
  { destruct (Hline eq_refl) as (n & os' & ->). apply Forall_cons in Ho as [Ho _]. exists pending. by apply store_line_ok. }
  assert (emitted (op, os) = true) as He by (unfold emitted; cbn [fst]; by rewrite (proj2 (Z.eqb_neq _ _) Hop), Eop).
  destruct (decide (op = OPCODE_FUNC_INFO)) as [->|Hfi].
  { destruct (Hfun eq_refl) as (m & f & a & ->). by eapply store_func_info_ok. }
  destruct (store_words_ok A Ls pre pending l op os Rl EA EL Hkn (parsed_half _ _ _ _ _ Hp) He Hc) as (p2 & l2 & E & (K1 & K2 & K3 & K4) & H2).
  unfold store_instruction. rewrite (proj2 (Z.eqb_neq _ _) Hop), Eop, (proj2 (Z.eqb_neq _ _) Hfi).
  exists p2, l2. split; [exact E|]. split; [done|]. assert (prog_lines [(op, os)] (prog_size pre) = []) as Enl by (cbn; destruct os as [|[] ?]; try done; by rewrite Eop).
  eapply parsed_step; try done; [by apply label_of_other|].
  rewrite K3. cbn [prog_funs]. destruct os as [|? [|[] [|[] [|]]]]; try done. by rewrite (proj2 (Z.eqb_neq _ _) Hfi).
Qed.
End Storing.

(** ** The parsers keep their bytes *)

Definition keeps {A} (p : parser A) : Prop := forall r s x r' s', p r s = Ret (x, r', s') -> buf r' = buf r.

Lemma read_word_keeps fuel : forall b, keeps (read_word fuel b).
Proof.
  induction fuel as [|fuel IH]; intros b r s x r' s' H; cbn [read_word] in H; [done|].
  run_readers; try same_buf; etransitivity; try (eapply IH; eassumption); same_buf.
Qed.

Lemma read_int_keeps fuel : keeps (read_int fuel).
Proof. intros r s x r' s' H. unfold read_int in H. run_readers. etransitivity; [eapply read_word_keeps; eassumption|]. same_buf. Qed.

Lemma read_ext_word_keeps fuel make : keeps (read_ext_word fuel make).
Proof. intros r s x r' s' H. unfold read_ext_word, make_err in H. run_readers. etransitivity; [eapply read_word_keeps; eassumption|]. same_buf. Qed.

Lemma alloc_pairs_keeps fuel n : forall t, keeps (alloc_pairs fuel n t).
Proof.
  induction n as [|n IH]; intros t r s x r' s' H; cbn [alloc_pairs] in H; run_readers; [done|].
  etransitivity; [by eapply IH|]. etransitivity; by eapply read_int_keeps.
Qed.

Lemma read_terms_keeps rd n : keeps rd -> keeps (read_terms rd n).
Proof.
  intros K. induction n as [|n IH]; intros r s x r' s' H; cbn [read_terms] in H; run_readers; [done|].
  etransitivity; [by eapply IH | by eapply K].
Qed.

Lemma read_pairs_keeps rd n : keeps rd -> keeps (read_pairs rd n).
Proof.
  intros K. induction n as [|n IH]; intros r s x r' s' H; cbn [read_pairs] in H; run_readers; [done|].
  etransitivity; [by eapply IH|]. etransitivity; by eapply K.
Qed.

Lemma read_keeps mode fuel : keeps (CompactTermReader.read mode fuel).
Proof.
  induction fuel as [|fuel IH]; intros r s x r' s' H; cbn [CompactTermReader.read] in H; [done|].
  apply vm_bind_ret in H as ([b r1] & E1 & H). apply read_u8_buf in E1. rewrite <- E1. clear E1.
  unfold parse_list_as_jump_table, parse_list_as_tuple_initializer, parse_ext_alloc_list, parse_ext_fpreg, parse_ext_literal, make_err in H.
  destruct mode; run_readers;
    repeat first [ reflexivity | eassumption | etransitivity; [solve [eapply IH; eassumption | eapply read_word_keeps; eassumption
      | eapply read_int_keeps; eassumption | eapply read_ext_word_keeps; eassumption | eapply alloc_pairs_keeps; eassumption
      | eapply read_terms_keeps; [exact IH | eassumption] | eapply read_pairs_keeps; [exact IH | eassumption]]|] ].
Qed.

(** ** The two passes *)

Lemma read_terms_ok os mode cte rest s : Forall operand_ok os -> (3 <= cte)%nat -> forall r,
  reading r (mjoin (operand_bytes <$> os) ++ rest) ->
  exists r', read_terms (CompactTermReader.read mode cte) (length os) r s = Ret (operand_term <$> os, r', s) /\ reading r' rest.
Proof.
  intros Hk Hc. induction Hk as [|o os Ho _ IH]; intros r Hr; cbn [read_terms length]; [by eauto|].
  change (mjoin (operand_bytes <$> o :: os)) with (operand_bytes o ++ mjoin (operand_bytes <$> os)) in Hr. rewrite <- app_assoc in Hr.
  destruct (read_operand mode o _ r s cte Ho Hc Hr) as (r1 & -> & Hr1). cbn [vm_bind].
  destruct (IH _ Hr1) as (r2 & -> & Hr2). cbn [vm_bind]. eauto.
Qed.

Lemma eof_reading r bs : reading r bs -> eof r = match bs with [] => true | _ => false end.
Proof. intros (_ & _ & H & _). unfold eof. destruct bs; cbn [length] in H; [apply Z.leb_le | apply Z.leb_gt]; lia. Qed.

(** All the words that the instructions may take. *)
Fixpoint total_words (prog : list instr) : Z := match prog with [] => 0 | i :: prog => Z.of_nat (length i.2) + 1 + total_words prog end.

Lemma total_words_nonneg prog : 0 <= total_words prog.
Proof. induction prog; cbn; lia. Qed.
Lemma prog_size_le prog : 0 <= prog_size prog <= total_words prog.
Proof. induction prog as [|i prog IH]; cbn; [lia|]. unfold instr_size. destruct (emitted i); lia. Qed.

Lemma opcode_arity_ok na nl i : instr_ok na nl i -> opcode_arity i.1 = Ret (Z.of_nat (length i.2)).
Proof. intros (_ & Ha & _). unfold opcode_arity. by rewrite Ha. Qed.

Lemma count_words_ok na nl cte prog : Forall (instr_ok na nl) prog -> (3 <= cte)%nat -> forall fuel n r s, (length prog < fuel)%nat ->
  reading r (prog_bytes prog) -> exists r', count_words cte fuel n r s = Ret (n + total_words prog, r', s) /\ buf r' = buf r.
Proof.
  intros Hp Hc. induction Hp as [|i prog Hi _ IH]; intros [|fuel] n r s Hf Hr; try (cbn in Hf; lia); cbn [count_words].
  - rewrite (eof_reading _ _ Hr). cbn. rewrite Z.add_0_r. eauto.
  - destruct i as [op os]. change (prog_bytes ((op, os) :: prog)) with (op :: mjoin (operand_bytes <$> os) ++ prog_bytes prog) in Hr.
    rewrite (eof_reading _ _ Hr). destruct (read_u8_ok _ _ _ Hr) as (r1 & E1 & Hr1). rewrite E1. apply read_u8_buf in E1. cbn [vm_bind].
    rewrite (opcode_arity_ok _ _ _ Hi : opcode_arity op = Ret (Z.of_nat (length os))). cbn [vm_bind]. rewrite Nat2Z.id.
    destruct (read_terms_ok os (on_ext_list_create_jumptable (opcode_uses_jump_table_list op)) cte _ s (proj1 (proj2 (proj2 Hi))) Hc _ Hr1) as (r2 & E2 & Hr2).
    rewrite E2. apply read_terms_keeps in E2; [|apply read_keeps]. cbn [vm_bind].
    destruct (IH fuel (n + (Z.of_nat (length os) + 1)) r2 s ltac:(cbn in Hf; lia) Hr2) as (r3 & E3 & B3). exists r3.
    rewrite E3. split; [|congruence]. do 3 f_equal. cbn [total_words snd]. lia.
Qed.

Section Pass.
Context (regrow : Z -> nat -> Z * nat).

Lemma parse_code_ok A Ls cte post : (3 <= cte)%nat -> forall fuel pre pending l r, Forall (instr_ok (length A) (length Ls)) post -> (length post < fuel)%nat ->
  ready_load l -> vm_atoms l = A -> lit_tab (beam_file l) = Ls -> parsed A Ls pre pending l -> NoDup (labels_of (pre ++ post)) ->
  prog_size pre + total_words post <= Z.of_nat (capacity l) -> reading r (prog_bytes post) ->
  exists pending' l', parse_code regrow cte fuel l r = Ret l' /\ env l' = env l /\ parsed A Ls (pre ++ post) pending' l'.
Proof.
  intros Hc. induction post as [|[op os] post IH]; intros [|fuel] pre pending l r Hi Hf Rl EA EL Hp Hd Hcap Hr; try (cbn in Hf; lia); cbn [parse_code].
  - rewrite (eof_reading _ _ Hr). rewrite app_nil_r. eauto 6.
  - apply Forall_cons in Hi as [Hi Hi']. change (prog_bytes ((op, os) :: post)) with (op :: mjoin (operand_bytes <$> os) ++ prog_bytes post) in Hr.
    rewrite (eof_reading _ _ Hr). destruct (read_u8_ok _ _ _ Hr) as (r1 & -> & Hr1). cbn [vm_bind].
    rewrite (opcode_arity_ok _ _ _ Hi : opcode_arity op = Ret (Z.of_nat (length os))). cbn [vm_bind]. rewrite Nat2Z.id.
    assert (Forall (known l) os) as Hk.
    { destruct Hi as (_ & _ & Ho & Hk & _). rewrite Forall_forall in *. intros o Hin. unfold known. rewrite EA, EL. auto. }
    destruct (read_args_ok l os cte (on_ext_list_create_jumptable (opcode_uses_jump_table_list op)) _ Hk Hc r1 Hr1) as (r2 & -> & Hr2). cbn [vm_bind].
    assert (forall n, label_of (op, os) = Some n -> n ∉ labels_of pre) as Hnew.
    { intros n En Hin. unfold labels_of in Hd. rewrite omap_app in Hd. cbn [omap list_omap] in Hd. rewrite En in Hd.
      apply NoDup_app in Hd as (_ & Hd & _). apply (Hd n Hin). left. }
    cbn [total_words snd] in Hcap. pose proof (prog_size_le post) as Hpost.
    destruct (store_instruction_ok regrow A Ls pre pending l op os Rl EA EL Hi Hp Hnew) as (p1 & l1 & -> & E1 & Hp1).
    { unfold instr_size. cbn [snd]. destruct (emitted _); lia. }
    cbn [vm_bind]. assert (capacity l1 = capacity l /\ vm_atoms l1 = vm_atoms l /\ beam_file l1 = beam_file l) as (Ec & Ea & Eb) by (unfold env in E1; by injection E1).
    destruct (IH fuel (pre ++ [(op, os)]) p1 l1 r2) as (p2 & l2 & -> & E2 & Hp2); try done.
    + cbn in Hf. lia.
    + by eapply ready_env.
    + congruence.
    + congruence.
    + by rewrite <- app_assoc.
    + assert (prog_size (pre ++ [(op, os)]) = prog_size pre + instr_size (op, os)) as ->.
      { clear. induction pre as [|i pre IH]; cbn [app prog_size]; lia. }
      rewrite Ec. unfold instr_size. cbn [snd]. destruct (emitted _); lia.
    + exists p2, l2. split; [done|]. split; [congruence|]. by rewrite <- app_assoc in Hp2.
Qed.
End Pass.

(** ** Labels *)

Lemma resolve_label_ok l n : ready_load l -> value_ok n -> (n = 0 \/ exists off, labels l !! n = Some off) ->
  map_Forall (fun _ off => 0 <= off <= Z.of_nat (capacity l)) (labels l) ->
  exists x, resolve_loadtime_label l {| raw := raw (make_loadtime_label n) |} = Ret x /\ done_word l (L n) (raw x).
Proof.
  intros Rl Hn Hl Ho. unfold value_ok in Hn. destruct (loadtime_reads LT_LABEL n) as (_ & _ & Ev & _); [done | lia |]. fold (make_loadtime_label n) in Ev.
  unfold resolve_loadtime_label. assert ({| raw := raw (make_loadtime_label n) |} = make_loadtime_label n) as -> by (by destruct (make_loadtime_label n)).
  rewrite Ev. destruct (Z.ltb_spec 0 n); [|exists nil; split; [done|]; left; split; [lia | done]].
  destruct Hl as [Hl | (off & Hl)]; [lia|]. rewrite Hl. cbn [unwrap vm_bind]. unfold create_jump_destination.
  destruct (ready_ptr _ Rl) as (P1 & P2 & P3). specialize (Ho n off Hl). cbn in Ho.
  destruct (cp_reads (code_ptr l + 8 * off)) as (x & -> & Er & _); [lia | Z.to_euclidean_division_equations; lia |].
  exists x. split; [done|]. right. exists off. split; [done|]. rewrite Er. unfold address. lia.
Qed.

Lemma fix_all_ok ws pending : forall l, ready_load l -> NoDup pending -> Forall (fun i => (i < length ws)%nat) pending -> halfway pending ws l ->
  (length ws <= capacity l)%nat ->
  (forall n, L n ∈ ws -> n = 0 \/ exists off, labels l !! n = Some off) ->
  exists l', fix_all l (PatchCodeOffset <$> pending) = Ret l' /\ kept l l' /\ halfway [] ws l'.
Proof.
  induction pending as [|i pending IH]; intros l Rl Hd Hb Hh Hc Ht; cbn [fmap list_fmap fix_all]; [by exists l|].
  pose proof Hh as [N O Hp Hdone]. apply NoDup_cons in Hd as [Hni Hd]. apply Forall_cons in Hb as [Hi Hb].
  destruct (Hp i) as (n & Ew & Hn & Ec); [left|]. cbn [fix_label]. rewrite Ec. cbn [unwrap vm_bind].
  destruct (resolve_label_ok l n Rl Hn) as (x & -> & Hx); [apply Ht; by eapply list_elem_of_lookup_2 | |].
  { eapply map_Forall_impl; [exact O|]. cbn. intros. lia. }
  cbn [vm_bind]. set (l1 := with_words l _ _ _). assert (kept l l1) as K1 by (by destruct l). pose proof K1 as (E1 & L1 & _).
  destruct (IH l1) as (l2 & E2 & K2 & H2); [by eapply ready_env | done | done | | done | by rewrite L1 |].
  { split; cbn [l1 with_words code_words labels].
    - by rewrite length_insert.
    - done.
    - intros j Hj. destruct (Hp j) as (m & Em & Hm & Ecm); [by right|]. exists m. split_and!; [done | done |].
      rewrite list_lookup_insert_ne; [done|]. intros ->. done.
    - intros j w Hj Ej. destruct (decide (j = i)) as [->|Hne].
      + exists (raw x). rewrite list_lookup_insert_eq by lia. split; [done|]. replace w with (L n) by congruence. exact Hx.
      + destruct (Hdone j w) as (z & Ez & Hz); [by rewrite not_elem_of_cons | done |]. exists z. by rewrite list_lookup_insert_ne. }
  exists l2. rewrite E2. split; [done|]. split; [by eapply lits_kept_trans | done].
Qed.

(** * The code is linked *)

(** A loader before its code is parsed; whatever size of code fits at its address. *)
Record before_code (l : LoaderState) (prog : list instr) : Prop := {
  before_atoms : Forall plain (vm_atoms l);
  before_lits : Forall (storable (mem (lits l))) (lit_tab (beam_file l));
  before_ptr : 0 <= code_ptr l /\ code_ptr l mod 8 = 0 /\ code_ptr l + 8 * total_words prog < 2 ^ 63;
  before_name : name l <> None;
  before_empty : code_words l = [] /\ labels l = ∅ /\ replace_labels l = [] /\ funs l = [] /\ line_table l = []
}.

Lemma words_targets A Ls prog n : L n ∈ prog_words A Ls prog -> n ∈ targets prog.
Proof.
  unfold prog_words, targets. intros H. apply list_elem_of_join in H as (ws & Hn & H). apply list_elem_of_fmap in H as (i & -> & Hi).
  apply list_elem_of_join. exists (omap (fun o => match o with Label n => Some n | _ => None end) i.2). split.
  - unfold instr_words in Hn. destruct (emitted i); [|by apply not_elem_of_nil in Hn]. apply elem_of_cons in Hn as [? | Hn]; [done|].
    apply list_elem_of_fmap in Hn as (o & Eo & Ho). apply list_elem_of_omap. exists o. split; [done|]. destruct o; try done. by injection Eo as ->.
  - apply list_elem_of_fmap. eauto.
Qed.

Lemma label_offset_some prog n : n ∈ labels_of prog -> forall off, exists o, label_offset prog off n = Some o.
Proof. intros H off. destruct (label_offset prog off n) eqn:E; [eauto|]. by apply label_offset_none in E. Qed.

Lemma labels_positive na nl prog n : Forall (instr_ok na nl) prog -> n ∈ labels_of prog -> 0 < n.
Proof.
  intros Hi Hn. unfold labels_of in Hn. apply list_elem_of_omap in Hn as ([op os] & Hin & E). rewrite Forall_forall in Hi.
  destruct (Hi _ Hin) as (_ & _ & _ & _ & Hl & _). cbn [fst snd label_of] in *. destruct os as [|[m| | | | | | | | | |] [|]]; try done.
  destruct (Z.eqb_spec op OPCODE_LABEL) as [->|]; [|done]. destruct (Hl eq_refl) as (k & Ek & Hk). congruence.
Qed.

(** Once nothing is pending, the words are the resolved ones. *)
Lemma halfway_nil A Ls prog l ws : halfway [] ws l -> prog_ok (length A) (length Ls) prog -> ws = prog_words A Ls prog ->
  (forall n, labels l !! n = label_offset prog 0 n) -> code_words l = resolved (code_ptr l) prog <$> ws.
Proof.
  intros [N O Hp Hd] (Hi & _ & Ht) -> Hl. apply list_eq. intros i. rewrite list_lookup_fmap.
  destruct (prog_words A Ls prog !! i) as [w|] eqn:E; cbn.
  - destruct (Hd i w) as (z & -> & Hz); [apply not_elem_of_nil | done |]. f_equal. destruct w as [w|n]; [done|]. cbn [resolved].
    apply list_elem_of_lookup_2, words_targets in E. rewrite Forall_forall in Ht. specialize (Ht n E). destruct Hz as [[-> ->] | (off & Eo & ->)]; [done|].
    rewrite Hl in Eo. destruct (Z.eqb_spec n 0) as [->|Hn]; [|by rewrite Eo].
    exfalso. assert (0 ∈ labels_of prog) as Hin; [|by apply (labels_positive _ _ _ _ Hi) in Hin].
    apply dec_stable. intros Hc. by rewrite (proj2 (label_offset_none prog 0 0) Hc) in Eo.
  - apply lookup_ge_None in E. apply lookup_ge_None. lia.
Qed.

Lemma parse_and_fix_ok (regrow : Z -> nat -> Z * nat) (prog : list instr) (l : LoaderState) :
  prog_ok (length (vm_atoms l)) (length (lit_tab (beam_file l))) prog -> before_code l prog -> code (beam_file l) = prog_bytes prog ->
  (2 <= length (prog_bytes prog))%nat -> Z.of_nat (length (prog_bytes prog)) < 2 ^ 62 ->
  exists l1 l2, parse_raw_code regrow l = Ret l1 /\ fix_labels l1 = Ret l2 /\
    code_words l2 = resolved (code_ptr l) prog <$> prog_words (vm_atoms l) (lit_tab (beam_file l)) prog /\
    funs l2 = prog_funs (vm_atoms l) prog 0 [] /\ line_table l2 = prog_lines prog 0 /\
    env l2 = env (with_words (with_file l (with_code (beam_file l) [])) [] (code_ptr l) (Z.to_nat (total_words prog))).
Proof.
  intros Hok [BA BL (P1 & P2 & P3) BN (B1 & B2 & B3 & B4 & B5)] Hcode H2 Hlen. pose proof Hok as (Hi & Hd & Ht).
  unfold parse_raw_code. rewrite Hcode. set (bs := prog_bytes prog) in *. set (fuel := S (length bs)).
  assert (length prog < fuel)%nat as Hf by (unfold fuel, bs, prog_bytes; pose proof (length_le_mjoin instr_bytes prog ltac:(done)); lia).
  set (l0 := with_file l (with_code (beam_file l) [])). assert (lits l0 = lits l) as EL0 by by destruct l.
  destruct (count_words_ok _ _ fuel prog Hi ltac:(lia) fuel 0 (from_bytes bs) (lits l0) Hf (reading_from_bytes bs Hlen)) as (r' & -> & Br).
  cbn [vm_bind]. rewrite with_heap_same. cbn [from_bytes buf] in Br. rewrite Z.add_0_l. set (l1 := with_words l0 _ _ _).
  replace (reset r') with (from_bytes bs) by (unfold reset, at_pos, from_bytes; by rewrite Br).
  pose proof (total_words_nonneg prog) as Htw. pose proof (prog_size_le prog) as Hps.
  assert (env l1 = env (with_words l0 [] (code_ptr l) (Z.to_nat (total_words prog)))) as E01 by (by destruct l).
  assert (ready_load l1) as Rl by (split; [exact BA | exact BL | cbn; rewrite Z2Nat.id by lia; done | exact BN]).
  destruct (parse_code_ok regrow (vm_atoms l) (lit_tab (beam_file l)) fuel prog ltac:(lia) fuel [] [] l1 (from_bytes bs))
    as (pending & l2 & E2 & K2 & [[PP PD PB Hh] Hl Hfu Hln]); try done.
  - split; cbn; try done. split; [cbn; by rewrite B3 | constructor | constructor |].
    split; cbn; [by rewrite B1 | by rewrite B2; apply map_Forall_empty | by intros i ?%not_elem_of_nil | by intros i w _ E; rewrite lookup_nil in E].
    intros n. cbn. by rewrite B2, lookup_empty.
  - cbn. rewrite Z2Nat.id by lia. lia.
  - rewrite E2. cbn [vm_bind app] in *. pose proof (ready_env _ _ K2 Rl) as Rl2.
    assert (code_ptr l2 = code_ptr l1 /\ capacity l2 = capacity l1) as [Ep Ec] by (unfold env in K2; by injection K2). rewrite Ep, Z.eqb_refl.
    pose proof (prog_words_length (vm_atoms l) (lit_tab (beam_file l)) prog) as Hn. set (ws := prog_words _ _ prog) in *.
    assert (length ws <= capacity l1)%nat as Hcap by (cbn; lia).
    set (l2' := with_labels l2 (labels l2) []). assert (kept l2 l2') as K3 by apply kept_patch.
    destruct (fix_all_ok ws pending l2') as (l3 & E3 & (K4 & L4 & F4 & T4) & H3); try done.
    + eapply ready_env; [apply K3 | done].
    + by destruct Hh.
    + change (capacity l2') with (capacity l2). by rewrite Ec.
    + intros n Hn'. apply words_targets in Hn'. rewrite Forall_forall in Ht. destruct (Ht n Hn') as [|Hin]; [by left|]. right.
      change (labels l2') with (labels l2). rewrite Hl. by apply label_offset_some.
    + exists l2, l3. split; [done|]. split; [unfold fix_labels; rewrite PP; exact E3|].
      assert (code_ptr l3 = code_ptr l) as Ep3 by (unfold env in K4; injection K4 as _ _ _ Ep3 _; rewrite Ep3; exact Ep).
      split_and!.
      * rewrite (halfway_nil (vm_atoms l) (lit_tab (beam_file l)) prog l3 ws H3 Hok eq_refl); [by rewrite Ep3|]. intros n. rewrite L4. apply Hl.
      * rewrite F4. exact Hfu.
      * rewrite T4. exact Hln.
      * rewrite K4. etransitivity; [apply K3|]. rewrite K2. exact E01.
Qed.


Module LinkWitness.
Definition an_atom (n : Z) : Term := make_atom n.
Definition prog : list instr :=
  [(OPCODE_LINE, [LiteralInt 3]); (OPCODE_LABEL, [LiteralInt 1]); (OPCODE_FUNC_INFO, [Atom 1; Atom 2; LiteralInt 0]);
   (OPCODE_LABEL, [LiteralInt 2]); (4, [LiteralInt 0; Label 3]); (6, [LiteralInt 0; Label 2]);
   (OPCODE_LABEL, [LiteralInt 3]); (64, [Literal 0; XReg 0]); (19, []); (61, [Label 0]); (3, [])].
Definition file_of (bs : list Z) : BeamFile :=
  with_lits (with_code (new_file EtfWitness.machine empty_storage) bs) [make_small_signed 7] EtfWitness.machine empty_storage.
Definition loader : LoaderState :=
  with_stage2 (new_loader (file_of (prog_bytes prog)) 4096 8192) [an_atom 10; an_atom 11] (Some {| vn_module := an_atom 10; vn_version := 1 |}) [].

End LinkWitness.

(** * Imports are linked *)

(** The pointer to the [k]-th import, or to the [k]-th function of the module. *)
Definition index_word (imps : list Term) (lp : Z) (import : bool) (k : Z) : Z :=
  if import then raw (default nil (imps !! Z.to_nat k)) else lp + FunEntry_size * k + 2 ^ 63 + 3.

Definition index_of (i : instr) : option (bool * nat * Z) :=
  match index_arg i.1 with
  | Some (import, n) => match i.2 !! (n - 1)%nat with Some (LiteralInt k) => Some (import, n, k) | _ => None end
  | None => None
  end.

Lemma index_arg_range op import n : index_arg op = Some (import, n) -> (1 <= n)%nat.
Proof. unfold index_arg. repeat case_match; intros [= <- <-]; lia. Qed.

Section Imported.
Context (A Ls imps : list Term) (base lp : Z) (whole : list instr).

Definition linked_instr (i : instr) : list Z := resolved base whole <$> instr_words A Ls i.
Definition imported_instr (i : instr) : list Z :=
  match index_of i with
  | Some (import, n, k) => <[n := index_word imps lp import k]> (linked_instr i)
  | None => linked_instr i
  end.

(** The first instruction is the header of a function: the indices of the others are replaced. *)
Definition imported_words (prog : list instr) : list Z :=
  match filter (fun i => emitted i = true) prog with
  | [] => []
  | i :: prog => linked_instr i ++ mjoin (imported_instr <$> prog)
  end.

Lemma linked_shape i : emitted i = true -> linked_instr i = i.1 :: (resolved base whole <$> (operand_word A Ls <$> i.2)).
Proof. intros E. unfold linked_instr, instr_words. by rewrite E. Qed.

Lemma imported_shape i : emitted i = true -> exists t, imported_instr i = i.1 :: t /\ length t = length i.2.
Proof.
  intros E. unfold imported_instr. rewrite linked_shape by done.
  assert (length (resolved base whole <$> (operand_word A Ls <$> i.2)) = length i.2) as Hl by by rewrite !length_fmap.
  unfold index_of. destruct (index_arg i.1) as [[import n]|] eqn:En; [|eauto]. apply index_arg_range in En.
  destruct (i.2 !! _) as [[k| | | | | | | | | |]|]; eauto. destruct n as [|n]; [lia|].
  change (<[S n := ?w]> (?x :: ?t)) with (x :: <[n := w]> t). eexists. split; [reflexivity|]. by rewrite length_insert.
Qed.
End Imported.

(** The indices are in range. *)
Definition index_ok (n_imps n_funs : nat) (i : instr) : Prop :=
  emitted i = true -> forall import n, index_arg i.1 = Some (import, n) ->
    exists k, i.2 !! (n - 1)%nat = Some (LiteralInt k) /\ k < Z.of_nat (if import then n_imps else n_funs).


Section Rewrite.
Context (A Ls : list Term) (base : Z) (whole : list instr) (l : LoaderState).
Notation linked := (linked_instr A Ls base whole).
Notation imported := (imported_instr A Ls (lt_imports l) base (lambdas_ptr l) whole).

Hypothesis (Hptr : 0 <= lambdas_ptr l /\ lambdas_ptr l mod 8 = 0 /\ lambdas_ptr l + FunEntry_size * Z.of_nat (length (fun_entries l)) < 2 ^ 63).

Lemma new_word_ok (import : bool) (k : Z) : value_ok k -> k < Z.of_nat (if import then length (lt_imports l) else length (fun_entries l)) ->
  (if import then import_word l else lambda_word l) (raw (make_small_signed k)) = Ret (index_word (lt_imports l) (lambdas_ptr l) import k).
Proof.
  intros Hv Hk. assert ({| raw := raw (make_small_signed k) |} = make_small_signed k) as Er by (by destruct (make_small_signed k)).
  destruct (small_value k Hv) as (_ & Eu & _). unfold value_ok in Hv. destruct import; unfold import_word, lambda_word, index_word; rewrite Er, Eu.
  - destruct (lookup_lt_is_Some_2 (lt_imports l) (Z.to_nat k)) as [x ->]; [lia|]. done.
  - destruct (lookup_lt_is_Some_2 (fun_entries l) (Z.to_nat k)) as [x ->]; [lia|]. cbn [unwrap vm_bind].
    destruct Hptr as (P1 & P2 & P3). unfold FunEntry_size in *.
    destruct (cp_reads (lambdas_ptr l + 32 * k)) as (x' & -> & E & _); [lia | Z.to_euclidean_division_equations; lia |].
    cbn [unwrap vm_bind]. f_equal. lia.
Qed.

(** One instruction among others. *)
Lemma rewrite_instr_ok i pre post : instr_ok (length A) (length Ls) i -> emitted i = true -> index_ok (length (lt_imports l)) (length (fun_entries l)) i ->
  rewrite_instr l (pre ++ linked i ++ post) (length pre) = Ret (pre ++ imported i ++ post).
Proof.
  intros (Hb & Ha & Ho & _) He Hi. specialize (Hi He). unfold byte in Hb. unfold rewrite_instr.
  pose proof (linked_shape A Ls base whole i He) as Es. rewrite lookup_app_r, Nat.sub_diag by lia. rewrite Es at 1. cbn [app lookup list_lookup read vm_bind].
  change ((i.1 :: ?t) !! 0%nat) with (Some i.1). cbn [read vm_bind].
  unfold from_memory_word. rewrite Z.mod_small by lia. unfold imported_instr, index_of. destruct (index_arg i.1) as [[import n]|] eqn:En; [|done].
  destruct (Hi import n eq_refl) as (k & Ek & Hk). rewrite Ek. pose proof (index_arg_range _ _ _ En) as Hn.
  assert (linked i !! n = Some (raw (make_small_signed k))) as El.
  { rewrite Es. destruct n as [|n]; [lia|]. cbn [lookup list_lookup]. replace (S n - 1)%nat with n in Ek by lia.
    change ((i.1 :: ?t) !! S n) with (t !! n). by rewrite !list_lookup_fmap, Ek. }
  unfold rewrite_arg. rewrite lookup_app_r by lia. replace (length pre + n - length pre)%nat with n by lia.
  rewrite (lookup_app_l_Some _ _ _ _ El). cbn [read vm_bind]. assert (value_ok k) as Hv.
  { rewrite Forall_lookup in Ho. exact (Ho _ _ Ek). }
  rewrite new_word_ok by (destruct import; done). cbn [vm_bind]. f_equal.
  rewrite insert_app_r_alt by lia. replace (length pre + n - length pre)%nat with n by lia.
  rewrite insert_app_l; [done|]. by apply lookup_lt_Some in El.
Qed.

Lemma rewrite_code_ok post : Forall (instr_ok (length A) (length Ls)) post -> Forall (fun i => emitted i = true) post ->
  Forall (index_ok (length (lt_imports l)) (length (fun_entries l))) post ->
  forall fuel pre op t, (length post < fuel)%nat -> byte op -> ARITY_MAP !! Z.to_nat op = Some (Z.of_nat (length t)) ->
  rewrite_code fuel l (pre ++ (op :: t) ++ mjoin (linked <$> post)) (length pre) = Ret (pre ++ (op :: t) ++ mjoin (imported <$> post)).
Proof.
  induction 1 as [|i post Hi Hpost IH]; intros He Hx [|fuel] pre op t Hf Hb Ha; try (cbn in Hf; lia); cbn [rewrite_code]; unfold byte in Hb.
  all: rewrite lookup_app_r, Nat.sub_diag by lia; change (((op :: t) ++ ?u) !! 0%nat) with (Some op); cbn [read vm_bind].
  all: unfold from_memory_word; rewrite Z.mod_small by lia; unfold opcode_arity; rewrite Ha; cbn [unwrap vm_bind]; rewrite Nat2Z.id.
  - cbn [fmap list_fmap]. change (mjoin (M:=list) []) with (@Datatypes.nil Z). rewrite app_nil_r.
    rewrite (proj2 (Nat.leb_le _ _)); [done|]. rewrite length_app. cbn [length]. lia.
  - apply Forall_cons in He as [He He']. apply Forall_cons in Hx as [Hxi Hx'].
    change (mjoin (linked <$> i :: post)) with (linked i ++ mjoin (linked <$> post)).
    change (mjoin (imported <$> i :: post)) with (imported i ++ mjoin (imported <$> post)).
    pose proof (linked_shape A Ls base whole i He) as Es. destruct (imported_shape A Ls (lt_imports l) base (lambdas_ptr l) whole i He) as (t' & Et & Hl).
    rewrite (proj2 (Nat.leb_gt _ _)) by (rewrite !length_app, Es; cbn [length]; lia).
    replace (length pre + (length t + 1))%nat with (length (pre ++ op :: t)) by (rewrite length_app; cbn [length]; lia).
    rewrite (app_assoc pre). rewrite rewrite_instr_ok by done. cbn [vm_bind]. rewrite Et.
    rewrite IH; [by rewrite <- app_assoc | done | done | cbn in Hf; lia | apply Hi |]. rewrite Hl. apply Hi.
Qed.
End Rewrite.

(** ** The imports on the literal heap *)

Definition is_import (s : Machine) (x : Term) (mfa : ModFunArity) : Prop :=
  exists p, make_boxed p = Some x /\ boxes (mem s) !! p = Some (OImport mfa) /\ built s p.

Lemma is_import_later n s s' x mfa : copied n None s s' -> 0 <= n -> is_import s x mfa -> is_import s' x mfa.
Proof.
  intros K Hn (p & Ex & Eb & Hb). exists p. split; [done|]. destruct (copied_terms _ _ _ _ K p Hb) as [-> _]; [done|].
  split; [done|]. by eapply copied_built.
Qed.

Lemma import_created s n mfa : ready_heap s (Import_storage_size + n) -> 0 <= n ->
  exists x s', Import_create_into mfa s = Ret (x, s') /\ copied Import_storage_size None s s' /\ is_import s' x mfa.
Proof.
  intros (O & B & R) Hn. unfold Import_storage_size in *. assert (room s 6) as R6 by (unfold room in *; lia). assert (room s 0) as R0 by (unfold room in *; lia).
  destruct (alloc_words_copied s 6 O ltac:(lia) R6) as (s1 & E1 & K1 & M1). unfold Import_create_into, Import_storage_size. rewrite E1. cbn [vm_bind].
  destruct (next_aligned _ B O R0) as [Ha Ham]. destruct (boxed_reads (next s)) as (x & Ex & _); [lia | done |].
  rewrite Ex. cbn [unwrap vm_bind]. exists x. eexists. split; [reflexivity|].
  assert (built s1 (next s)) as Hb by (eapply built_grown; [exact K1 | done | lia | done]).
  split; [apply (copied_put _ None s s1 (next s) (Some (OImport mfa)) None K1); intros Hs; by destruct (proj2 (next_new s O) R0)|].
  exists (next s). split; [done|]. split; [cbn; by rewrite lookup_insert_eq | exact Hb].
Qed.

Definition atom_at (A : list Term) (i : Z) : Term := if i =? 0 then nil else default nil (A !! Z.to_nat (i - 1)).
Definition import_mfa (A : list Term) (ri : LtImport) : ModFunArity :=
  {| mfa_m := atom_at A (mod_atom_i ri); mfa_f := atom_at A (fun_atom_i ri); mfa_arity := imp_arity ri |}.
Definition atom_index_ok (A : list Term) (i : Z) : Prop := 0 <= i <= Z.of_nat (length A).

Lemma atom_from_index_ok l i : atom_index_ok (vm_atoms l) i -> atom_from_loadtime_index l i = Ret (atom_at (vm_atoms l) i).
Proof.
  intros Hi. unfold atom_from_loadtime_index, atom_at, atom_index_ok in *. destruct (Z.eqb_spec i 0); [done|].
  destruct (lookup_lt_is_Some_2 (vm_atoms l) (Z.to_nat (i - 1))) as [x ->]; [lia|]. done.
Qed.

Lemma create_imports_ok l imps : Forall (fun ri => atom_index_ok (vm_atoms l) (mod_atom_i ri) /\ atom_index_ok (vm_atoms l) (fun_atom_i ri)) imps ->
  forall s, ready_heap s (Import_storage_size * Z.of_nat (length imps)) ->
  exists xs s', create_imports l imps s = Ret (xs, s') /\ copied (Import_storage_size * Z.of_nat (length imps)) None s s' /\
    Forall2 (is_import s') xs (import_mfa (vm_atoms l) <$> imps).
Proof.
  induction 1 as [|ri imps [Hm Hf] _ IH]; intros s Rh; cbn [create_imports length fmap list_fmap].
  - exists [], s. split; [done|]. split; [by apply copied_refl, Rh | constructor].
  - rewrite (atom_from_index_ok l _ Hm), (atom_from_index_ok l _ Hf). cbn [vm_bind].
    cbn [length] in Rh. rewrite Nat2Z.inj_succ in *. unfold Import_storage_size in *.
    replace (6 * Z.succ (Z.of_nat (length imps))) with (6 + 6 * Z.of_nat (length imps)) in * by lia.
    destruct (import_created s (6 * Z.of_nat (length imps)) (import_mfa (vm_atoms l) ri) Rh ltac:(lia)) as (x & s1 & E1 & K1 & I1).
    unfold import_mfa in E1 at 1. rewrite E1. cbn [vm_bind].
    destruct (IH s1) as (xs & s2 & -> & K2 & I2); [by eapply ready_heap_after|]. cbn [vm_bind].
    exists (x :: xs), s2. split; [done|]. split; [eapply copied_trans; [exact K1 | exact K2 | lia | done]|].
    constructor; [|done]. eapply is_import_later; [exact K2 | lia | done].
Qed.

Lemma words_of_emitted A Ls base whole prog : resolved base whole <$> prog_words A Ls prog =
  mjoin (linked_instr A Ls base whole <$> filter (fun i => emitted i = true) prog).
Proof.
  induction prog as [|i prog IH]; [done|]. change (i :: prog) with ([i] ++ prog) at 1. rewrite prog_words_app, prog_words_one, fmap_app, IH.
  rewrite filter_cons. case_decide as E; [done|]. unfold instr_words. by destruct (emitted i).
Qed.

Lemma setup_imports_ok (A Ls : list Term) (base : Z) (whole prog : list instr) (i : instr) (l : LoaderState) :
  filter (fun i => emitted i = true) whole = i :: prog -> Forall (instr_ok (length A) (length Ls)) whole ->
  Forall (index_ok (length (BeamFile.imports (beam_file l))) (length (fun_entries l))) prog ->
  code_words l = resolved base whole <$> prog_words A Ls whole -> lt_imports l = [] ->
  Forall (fun ri => atom_index_ok (vm_atoms l) (mod_atom_i ri) /\ atom_index_ok (vm_atoms l) (fun_atom_i ri)) (BeamFile.imports (beam_file l)) ->
  ready_heap (lits l) (Import_storage_size * Z.of_nat (length (BeamFile.imports (beam_file l)))) ->
  0 <= lambdas_ptr l /\ lambdas_ptr l mod 8 = 0 /\ lambdas_ptr l + FunEntry_size * Z.of_nat (length (fun_entries l)) < 2 ^ 63 ->
  exists xs s, setup_imports l = Ret (with_words (with_heap_of (with_lt_imports l xs) s)
      (imported_words A Ls xs base (lambdas_ptr l) whole whole) (code_ptr l) (capacity l)) /\
    Forall2 (is_import s) xs (import_mfa (vm_atoms l) <$> BeamFile.imports (beam_file l)) /\
    copied (Import_storage_size * Z.of_nat (length (BeamFile.imports (beam_file l)))) None (lits l) s.
Proof.
  intros Hw Hi Hx Hc Hl Ha Rh Hp. unfold setup_imports.
  destruct (create_imports_ok l _ Ha _ Rh) as (xs & s & -> & K & I). cbn [vm_bind]. rewrite Hl. cbn [app].
  set (l1 := with_heap_of (with_lt_imports l xs) s).
  rewrite words_of_emitted, Hw in Hc. change (mjoin (?f <$> i :: prog)) with (f i ++ mjoin (f <$> prog)) in Hc.
  assert (Forall (instr_ok (length A) (length Ls)) (i :: prog) /\ Forall (fun i => emitted i = true) (i :: prog)) as [Hok Hem].
  { rewrite <- Hw. split; apply Forall_forall; intros j Hj; apply list_elem_of_filter in Hj as [E Hj]; [|done]. rewrite Forall_forall in Hi. auto. }
  apply Forall_cons in Hok as [Hoi Hok]. apply Forall_cons in Hem as [Hei Hem].
  pose proof (linked_shape A Ls base whole i Hei) as Es.
  assert (length xs = length (BeamFile.imports (beam_file l))) as Hlen by (apply Forall2_length in I; by rewrite length_fmap in I).
  change (code_words l1) with (code_words l). assert (unwrap (code_words l !! 0%nat) = Ret i.1) as -> by (by rewrite Hc, Es). cbn [vm_bind].
  assert (length prog < S (length (code_words l)))%nat as Hf.
  { rewrite Hc, length_app.
    assert (length prog <= length (mjoin (linked_instr A Ls base whole <$> prog)))%nat; [|lia].
    clear -Hem. induction prog as [|j prog IH]; [cbn; lia|]. apply Forall_cons in Hem as [Ej Hem].
    change (mjoin (?f <$> j :: prog)) with (f j ++ mjoin (f <$> prog)). rewrite length_app, linked_shape by done. cbn [length]. specialize (IH Hem). lia. }
  pose proof (rewrite_code_ok A Ls base whole l1 Hp prog Hok Hem) as Hrc. cbn [l1 with_heap_of with_lt_imports with_file lt_imports fun_entries] in Hrc.
  rewrite Hlen in Hrc. specialize (Hrc Hx (S (length (code_words l))) [] i.1 (resolved base whole <$> (operand_word A Ls <$> i.2)) Hf).
  rewrite <- Es in Hrc. change ([] ++ ?x) with x in Hrc. rewrite <- Hc in Hrc. change (length []) with 0%nat in Hrc.
  rewrite Hrc; [|apply Hoi | rewrite !length_fmap; apply Hoi]. cbn [vm_bind]. exists xs, s. split; [|done].
  unfold imported_words. by rewrite Hw.
Qed.

(** The loader links the imports.  Over the linked code of a program whose indices are in
    range, every import of the table becomes a boxed import of its module, function and arity
    on the literal heap, the terms there were stay, and every instruction but the first (the
    header of a function, which has no index) has its index of an import, or of a function of
    the module, replaced by the pointer to that import, or to that function's entry, and is
    otherwise unchanged. *)
Theorem imports_are_linked (A Ls : list Term) (base : Z) (whole prog : list instr) (i : instr) (l : LoaderState) :
  filter (fun i => emitted i = true) whole = i :: prog -> Forall (instr_ok (length A) (length Ls)) whole ->
  Forall (index_ok (length (BeamFile.imports (beam_file l))) (length (fun_entries l))) prog ->
  code_words l = resolved base whole <$> prog_words A Ls whole -> lt_imports l = [] ->
  Forall (fun ri => atom_index_ok (vm_atoms l) (mod_atom_i ri) /\ atom_index_ok (vm_atoms l) (fun_atom_i ri)) (BeamFile.imports (beam_file l)) ->
  ready_heap (lits l) (Import_storage_size * Z.of_nat (length (BeamFile.imports (beam_file l)))) ->
  0 <= lambdas_ptr l /\ lambdas_ptr l mod 8 = 0 /\ lambdas_ptr l + FunEntry_size * Z.of_nat (length (fun_entries l)) < 2 ^ 63 ->
  exists l', setup_imports l = Ret l' /\
    Forall2 (is_import (lits l')) (lt_imports l') (import_mfa (vm_atoms l) <$> BeamFile.imports (beam_file l)) /\
    same_terms (lits l) (lits l') /\ machine_ok (lits l') /\
    code_words l' = imported_words A Ls (lt_imports l') base (lambdas_ptr l) whole whole.
Proof.
  intros H1 H2 H3 H4 H5 H6 H7 H8. destruct (setup_imports_ok A Ls base whole prog i l H1 H2 H3 H4 H5 H6 H7 H8) as (xs & s & E & I & K).
  eexists. split; [exact E|]. split; [exact I|]. split; [|split; [apply K | reflexivity]].
  intros p Hp. by apply (copied_terms _ _ _ _ K).
Qed.

Module ImportWitness.
Definition prog : list instr :=
  [(OPCODE_LABEL, [LiteralInt 1]); (OPCODE_FUNC_INFO, [Atom 1; Atom 2; LiteralInt 0]); (OPCODE_LABEL, [LiteralInt 2]);
   (OPCODE_BIF0, [LiteralInt 1; XReg 0]); (OPCODE_CALL_EXT, [LiteralInt 1; LiteralInt 0]);
   (OPCODE_MAKE_FUN2, [LiteralInt 0]); (19, [])].
Definition table : list LtImport :=
  [{| mod_atom_i := 1; fun_atom_i := 2; imp_arity := 1 |}; {| mod_atom_i := 2; fun_atom_i := 1; imp_arity := 0 |}].
Definition atom_terms : list Term := [make_atom 10; make_atom 11].
Definition entry : FunEntry := {| fe_mfa := {| mfa_m := make_atom 10; mfa_f := make_atom 11; mfa_arity := 1 |}; fe_nfrozen := 0 |}.
Definition loader : LoaderState :=
  with_words (with_stage2 (new_loader (BeamFile.with_imports (new_file EtfWitness.machine empty_storage) table) 4096 8192) atom_terms None [entry])
    (resolved 4096 prog <$> prog_words atom_terms [] prog) 4096 64.

Lemma imports_are_linked_witness :
  code_words loader <> [] /\
  exists l', setup_imports loader = Ret l' /\
    Forall2 (is_import (lits l')) (lt_imports l') (import_mfa atom_terms <$> table) /\
    same_terms EtfWitness.machine (lits l') /\ machine_ok (lits l') /\
    code_words l' = imported_words atom_terms [] (lt_imports l') 4096 8192 prog prog.
Proof.
  split; [done|].
  apply (imports_are_linked atom_terms [] 4096 prog [(OPCODE_BIF0, [LiteralInt 1; XReg 0]); (OPCODE_CALL_EXT, [LiteralInt 1; LiteralInt 0]);
    (OPCODE_MAKE_FUN2, [LiteralInt 0]); (19, [])] (OPCODE_FUNC_INFO, [Atom 1; Atom 2; LiteralInt 0]) loader).
  - reflexivity.
  - unfold prog. repeat constructor; try done; intros _; eauto 6. all: eexists; split; [reflexivity | lia].
  - repeat constructor; intros _ import n [= <- <-]; eexists; (split; [reflexivity | cbn; lia]).
  - reflexivity.
  - reflexivity.
  - repeat constructor; vm_compute; done.
  - split_and!; [apply EtfWitness.lit_machine_is_ok | apply EtfWitness.lit_machine_is_ok | vm_compute; done].
  - vm_compute. done.
Defined.
End ImportWitness.
