(* ===== verification/BeamModule.v ===== *)
(** The whole load of a module ([beam/loader/mod.rs], [load_module]): from the bytes of a file
    to the module the code server registers, and the lookups in it. *)
From S2P Require Import Prelude BeamTerm BeamMem BeamCompare BeamHeap BeamProc BeamOps BeamFacts BeamCopy BeamReader BeamCte BeamEtf BeamFile BeamLoad BeamLink.

(** * Atoms *)

Lemma atom_plain m st x t : rep m st x (VAtom t) -> plain x.
Proof.
  intros H. inversion H; subst. destruct (tagged_reads ATOM i ltac:(by vm_compute) ltac:(lia)) as (_ & Ht & _). fold (make_atom i) in Ht.
  apply plain_tag; by rewrite Ht.
Qed.

Lemma boxed_storable m p x o : 0 <= p < 2 ^ 63 -> p mod 8 = 0 -> make_boxed p = Some x -> boxes m !! p = Some o ->
  get_type o <> BOXTYPETAG_JUMP_TABLE -> storable m x.
Proof.
  intros Hp Ha Hx Hb Ho. destruct (boxed_reads p) as (x' & E & _ & _ & Ht & Hg); [lia | done |]. rewrite Hx in E. injection E as <-.
  unfold storable, is_loadtime, is_special_of_type, is_special, is_boxed_of_type, is_boxed_of_, is_boxed, load_box. rewrite Ht, Hg, Hb. cbn.
  split; [done|]. by rewrite bool_decide_eq_false_2.
Qed.

(** A term that stands for a value can be stored in the code. *)
Lemma rep_storable m m' st x v : within m m' -> rep m st x v -> storable m' x.
Proof.
  intros [Wb Wc] H. inversion H; subst; try (eapply boxed_storable; [done | done | done | by eapply Wb | done]).
  - apply plain_storable, plain_tag; destruct (small_reads n) as (_ & -> & _); done.
  - by apply plain_storable, (atom_plain m st _ (BeamMem.name a)).
  - destruct (tagged_reads LOCAL_PID i ltac:(by vm_compute) ltac:(lia)) as (_ & Ht & _). fold (make_local_pid i) in Ht.
    apply plain_storable, plain_tag; by rewrite Ht.
  - apply plain_storable, nil_plain.
  - destruct (cons_reads p ltac:(lia) ltac:(done)) as (_ & Ht & _).
    unfold storable, is_loadtime, is_special_of_type, is_special, is_boxed_of_type, is_boxed_of_, is_boxed. rewrite Ht. done.
  - apply plain_storable. by vm_compute.
  - apply plain_storable. by vm_compute.
Qed.

(** * Stage 2 *)

Lemma register_one st t : table_ok st 1 -> Z.of_nat (length (str_bytes t)) <= 65535 ->
  exists x st', from_str st t = Some (x, st') /\ extends st st' /\ (forall n, table_ok st (1 + n) -> table_ok st' n) /\ forall m, rep m st' x (VAtom t).
Proof.
  intros Ht Hl. destruct (intern_ok {| source_bytes := from_bytes []; atom_table := st; lit_heap := EtfWitness.machine |} t Ht Hl) as (x & st' & E & H).
  unfold intern in E. cbn [atom_table] in E. destruct (from_str st t) as [[x' st'']|]; [|done]. cbn in E. injection E as -> ->. eauto.
Qed.

Lemma register_names_ok names : forall st, table_ok st (Z.of_nat (length names)) -> Forall (fun t => Z.of_nat (length (str_bytes t)) <= 65535) names ->
  exists xs st', register_names st names = Ret (xs, st') /\ extends st st' /\
    (forall n, table_ok st (Z.of_nat (length names) + n) -> table_ok st' n) /\ Forall2 (fun x t => forall m, rep m st' x (VAtom t)) xs names.
Proof.
  induction names as [|t names IH]; intros st Ht Hn; cbn [register_names].
  - exists [], st. split; [done|]. split; [apply extends_refl|]. split; [done | constructor].
  - apply Forall_cons in Hn as [Hl Hn]. cbn [length] in *. rewrite Nat2Z.inj_succ in *.
    destruct (register_one st t) as (x & st1 & -> & X1 & G1 & R1); [eapply table_ok_less; [exact Ht | lia] | done |]. cbn [unwrap vm_bind].
    destruct (IH st1) as (xs & st2 & -> & X2 & G2 & R2); [apply G1; by replace (1 + _) with (Z.succ (Z.of_nat (length names))) by lia | done |].
    cbn [vm_bind]. exists (x :: xs), st2. split; [done|]. split; [by eapply extends_trans|]. split.
    + intros n H. apply G2, G1. eapply table_ok_less; [exact H | lia].
    + constructor; [|done]. intros m. by eapply rep_extends.
Qed.

Definition fun_entry (A : list Term) (m : Term) (rf : LtFun) : FunEntry :=
  {| fe_mfa := {| mfa_m := m; mfa_f := atom_at A (lt_fun_atom_i rf); mfa_arity := lt_arity rf |}; fe_nfrozen := lt_nfrozen rf |}.

Lemma fill_lambdas_ok l n fs : name l = Some n -> Forall (fun rf => atom_index_ok (vm_atoms l) (lt_fun_atom_i rf)) fs ->
  fill_lambdas l fs = Ret (fun_entry (vm_atoms l) (vn_module n) <$> fs).
Proof.
  intros Hn. induction 1 as [|rf fs Hi _ IH]; cbn [fill_lambdas fmap list_fmap]; [done|].
  rewrite (atom_from_index_ok l _ Hi). unfold module_name. rewrite Hn. cbn [vm_bind]. fold (fmap (M:=list) (fun_entry (vm_atoms l) (vn_module n)) fs). by rewrite IH.
Qed.

(** * The load *)

(** What a file says, and what the loader is given. *)
Section Load.
Context (inflate : list Z -> option (list Z)) (regrow : Z -> nat -> Z * nat) (code_at lambdas_at : Z) (stem : string).
Context (cs : list chunk) (prog rest : list instr) (first : instr).

Notation names := (mjoin (in_atoms <$> cs)).
Notation file_imports := (mjoin (in_imports <$> cs)).
Notation file_lambdas := (mjoin (in_lambdas <$> cs)).

Definition in_names (i : Z) : Prop := 0 <= i <= Z.of_nat (length names).

Record loadable : Prop := {
  load_chunks : Forall (chunk_ok inflate) cs;
  load_size : Z.of_nat (length (file_bytes cs)) < 2 ^ 32;
  load_named : names <> [];
  load_names : Forall (fun t => Z.of_nat (length (str_bytes t)) <= 65535) (stem :: names);
  load_code_is : last_of in_code cs [] = prog_bytes prog;
  load_prog : prog_ok (length names) (length (lits_of cs)) prog;
  load_first : filter (fun i => emitted i = true) prog = first :: rest;
  load_long : (2 <= length (prog_bytes prog))%nat /\ Z.of_nat (length (prog_bytes prog)) < 2 ^ 62;
  load_indices : Forall (index_ok (length file_imports) (length file_lambdas)) rest;
  load_imports_in : Forall (fun ri => in_names (mod_atom_i ri) /\ in_names (fun_atom_i ri)) file_imports;
  load_lambdas_in : Forall (fun rf => in_names (lt_fun_atom_i rf)) file_lambdas;
  load_code_at : 0 <= code_at /\ code_at mod 8 = 0 /\ code_at + 8 * total_words prog < 2 ^ 63;
  load_lambdas_at : 0 <= lambdas_at /\ lambdas_at mod 8 = 0 /\ lambdas_at + FunEntry_size * Z.of_nat (length file_lambdas) < 2 ^ 63
}.

(** The loader after its second stage. *)
Lemma stage2_ok version s tab : loadable -> ready_heap s (words_of cs + Import_storage_size * Z.of_nat (length file_imports)) ->
  table_ok tab (names_of cs + (Z.of_nat (length names) + 1)) ->
  exists b A l mod_name, read_chunks inflate (file_bytes cs) s tab = Ret b /\ adds cs (new_file s tab) b /\
    stage2_register_atoms version (new_loader b code_at lambdas_at) = Ret l /\
    stage2_fill_lambdas l = Ret (with_stage2 l (vm_atoms l) (BeamLoad.name l) (fun_entry A mod_name <$> file_lambdas)) /\
    l = with_stage2 (with_file (new_loader b code_at lambdas_at) (with_lits b (lit_tab b) (heap_of_lits b) (vm_atom_table (beam_file l)))) A
          (Some {| vn_module := mod_name; vn_version := version |}) [] /\
    head A = Some mod_name /\ table_ok (vm_atom_table (beam_file l)) 1 /\ extends (vm_atom_table b) (vm_atom_table (beam_file l)) /\
    Forall2 (fun x t => forall m, rep m (vm_atom_table (beam_file l)) x (VAtom t)) A names.
Proof.
  intros Hl Rh Ht. pose proof (load_names Hl) as Hn. apply Forall_cons in Hn as [_ Hn].
  pose proof (words_of_nonneg cs). pose proof (names_of_nonneg cs). unfold Import_storage_size in *.
  destruct (read_chunks_ok inflate cs s tab (load_chunks Hl) (load_size Hl)) as (b & Eb & Ab);
    [eapply ready_heap_less; [exact Rh | lia] | eapply table_ok_less; [exact Ht | lia] |].
  pose proof (grown_ok _ _ _ _ _ (adds_grown _ _ _ Ab) _ Ht) as Ht1. cbn [lit_decoder atom_table] in Ht1.
  destruct (register_names_ok names (vm_atom_table b)) as (A & st & Er & Ex & Gr & RA); [eapply table_ok_less; [exact Ht1 | lia] | done |].
  assert (length A = length names) as HA by by apply Forall2_length in RA.
  destruct A as [|mod_name A]; [by destruct (load_named Hl); apply nil_length_inv|].
  set (A' := mod_name :: A) in *. exists b, A'. eexists _, mod_name. split; [done|]. split; [done|].
  split. { unfold stage2_register_atoms. cbn [new_loader beam_file vm_atoms app]. rewrite (adds_atoms _ _ _ Ab). cbn [new_file atoms app]. rewrite Er. reflexivity. }
  split.
  { unfold stage2_fill_lambdas. rewrite (fill_lambdas_ok _ {| vn_module := mod_name; vn_version := version |}); [|done|].
    - cbn [vm_bind with_stage2 with_file new_loader beam_file with_lits lambdas fun_entries app vm_atoms]. rewrite (adds_lambdas _ _ _ Ab). done.
    - cbn [with_stage2 with_file new_loader beam_file with_lits lambdas vm_atoms]. rewrite (adds_lambdas _ _ _ Ab). cbn [new_file lambdas app].
      eapply Forall_impl; [exact (load_lambdas_in Hl)|]. unfold in_names, atom_index_ok. intros rf Hi. rewrite HA. exact Hi. }
  split; [reflexivity|]. split; [done|]. split; [by apply Gr|]. by split.
Qed.

(** The loader that the code is parsed with. *)
Definition staged (b : BeamFile) (A : list Term) (st : AtomStorage) (mod_name : Term) (version : Z) : LoaderState :=
  with_stage2 (with_file (new_loader b code_at lambdas_at) (with_lits b (lit_tab b) (heap_of_lits b) st)) A
    (Some {| vn_module := mod_name; vn_version := version |}) (fun_entry A mod_name <$> file_lambdas).

Lemma fresh_within s s' : within (fresh s s') (mem s').
Proof. split; intros p o H; [apply restrict_box in H as [H _] | apply restrict_cons in H as [H _]]; done. Qed.

Lemma staged_before b A st mod_name version s tab : loadable -> adds cs (new_file s tab) b ->
  Forall2 (fun x t => forall m, rep m st x (VAtom t)) A names ->
  let l := staged b A st mod_name version in
  prog_ok (length (vm_atoms l)) (length (lit_tab (beam_file l))) prog /\ before_code l prog /\ code (beam_file l) = prog_bytes prog.
Proof.
  intros Hl Ab RA. destruct (adds_lits _ _ _ Ab) as (xs & Ex & Rx). cbn [new_file lit_tab app heap_of_lits] in Ex, Rx.
  pose proof (Forall2_length _ _ _ RA) as HA. pose proof (Forall2_length _ _ _ Rx) as HL. rewrite <- Ex in HL, Rx.
  cbn zeta. split; [|split].
  - change (prog_ok (length A) (length (lit_tab b)) prog). rewrite HA, HL. exact (load_prog Hl).
  - split.
    + eapply Forall2_Forall_l; [exact RA|]. apply Forall_true. intros t x Hx. by apply (atom_plain (mem (heap_of_lits b)) st x t).
    + eapply Forall2_Forall_l; [exact Rx|]. apply Forall_true. intros v x Hx. eapply rep_storable; [|exact Hx]. apply fresh_within.
    + exact (load_code_at Hl).
    + done.
    + done.
  - change (code b = prog_bytes prog). rewrite (adds_code _ _ _ Ab). exact (load_code_is Hl).
Qed.

Lemma env_fields l l' : env l' = env l ->
  beam_file l' = beam_file l /\ BeamLoad.name l' = BeamLoad.name l /\ vm_atoms l' = vm_atoms l /\ code_ptr l' = code_ptr l /\
  lt_imports l' = lt_imports l /\ fun_entries l' = fun_entries l /\ lambdas_ptr l' = lambdas_ptr l.
Proof. intros E. unfold env in E. by injection E. Qed.

(** The loader once its code is linked. *)
Record linked_load (version : Z) (s : Machine) (tab : AtomStorage) (A Ls : list Term) (mod_name : Term) (l : LoaderState) : Prop := {
  ll_atoms : Forall2 (fun x t => forall m, rep m (vm_atom_table (beam_file l)) x (VAtom t)) A names;
  ll_lits : Forall2 (rep (fresh s (lits l)) (vm_atom_table (beam_file l))) Ls (lits_of cs);
  ll_mod : head A = Some mod_name;
  ll_heap : copied (words_of cs) None s (lits l);
  ll_table : table_ok (vm_atom_table (beam_file l)) 1 /\ extends tab (vm_atom_table (beam_file l));
  ll_code : code_words l = resolved code_at prog <$> prog_words A Ls prog;
  ll_funs : funs l = prog_funs A prog 0 [];
  ll_lines : line_table l = prog_lines prog 0;
  ll_name : BeamLoad.name l = Some {| vn_module := mod_name; vn_version := version |};
  ll_vm_atoms : vm_atoms l = A;
  ll_ptr : code_ptr l = code_at;
  ll_imports : lt_imports l = [] /\ BeamFile.imports (beam_file l) = file_imports;
  ll_entries : fun_entries l = fun_entry A mod_name <$> file_lambdas;
  ll_lambdas : lambdas_ptr l = lambdas_at
}.

Lemma linked_stage_ok version s tab : loadable -> ready_heap s (words_of cs + Import_storage_size * Z.of_nat (length file_imports)) ->
  table_ok tab (names_of cs + (Z.of_nat (length names) + 1)) ->
  exists A Ls mod_name l, load_module inflate regrow code_at lambdas_at stem (file_bytes cs) version s tab = finish_load stem l /\
    linked_load version s tab A Ls mod_name l.
Proof.
  intros Hl Rh Ht. destruct (stage2_ok version s tab Hl Rh Ht) as (b & A & l & mod_name & Eb & Ab & E1 & E2 & El & Eh & Tl & Xl & RA).
  unfold load_module. rewrite Eb. cbn [vm_bind]. rewrite E1. cbn [vm_bind]. rewrite E2. cbn [vm_bind].
  set (st1 := vm_atom_table (beam_file l)) in *. rewrite El. change (with_stage2 (with_stage2 _ _ _ _) _ _ _) with (staged b A st1 mod_name version).
  destruct (staged_before b A st1 mod_name version s tab Hl Ab RA) as (Hok & Hb & Hcode).
  destruct (parse_and_fix_ok regrow prog (staged b A st1 mod_name version) Hok Hb Hcode) as (l1 & l2 & -> & E4 & Ec & Ef & En & Ee);
    [apply (load_long Hl) | apply (load_long Hl) |]. cbn [vm_bind]. rewrite E4. cbn [vm_bind].
  destruct (env_fields _ _ Ee) as (Fb & Fn & Fa & Fp & Fi & Fe & Fl). cbn in Fb, Fn, Fa, Fp, Fi, Fe, Fl.
  destruct (adds_lits _ _ _ Ab) as (xs & Ex & Rx). cbn [new_file lit_tab app heap_of_lits] in Ex, Rx. rewrite <- Ex in Rx.
  pose proof (adds_grown _ _ _ Ab) as [Kb Xb _]. cbn [lit_decoder lit_heap new_file heap_of_lits atom_table vm_atom_table] in Kb, Xb.
  assert (vm_atom_table (beam_file l2) = st1 /\ lits l2 = heap_of_lits b) as [Ft Fh] by (unfold lits; by rewrite Fb).
  exists A, (lit_tab b), mod_name, l2. split; [done|]. split; rewrite ?Ft, ?Fh; try done.
  - eapply Forall2_impl; [exact Rx|]. intros. by apply (rep_extends _ (vm_atom_table b)).
  - split; [done | by eapply extends_trans].
  - split; [done|]. rewrite Fb. exact (adds_imports _ _ _ Ab).
Qed.

(** The loader, from the bytes of a file to the module: for a file whose chunks hold a program
    as a compiler writes it, with its tables, it succeeds. *)
Lemma load_module_ok version s tab : loadable -> ready_heap s (words_of cs + Import_storage_size * Z.of_nat (length file_imports)) ->
  table_ok tab (names_of cs + (Z.of_nat (length names) + 1)) ->
  exists m st A Ls imps mod_name, load_module inflate regrow code_at lambdas_at stem (file_bytes cs) version s tab = Ret (m, st) /\
    Forall2 (fun x t => forall h, rep h st x (VAtom t)) A names /\
    Forall2 (rep (mem (m_lit_heap m)) st) Ls (lits_of cs) /\
    Forall2 (is_import (m_lit_heap m)) imps (import_mfa A <$> file_imports) /\
    m_code m = imported_words A Ls imps code_at lambdas_at prog prog /\ m_code_ptr m = code_at /\
    m_funs m = prog_funs A prog 0 [] /\ m_line_table m = prog_lines prog 0 /\
    head A = Some mod_name /\ m_lambdas m = fun_entry A mod_name <$> file_lambdas /\
    vn_version (versioned_name m) = version /\ (forall h, rep h st (vn_module (versioned_name m)) (VAtom stem)) /\
    same_terms s (m_lit_heap m) /\ extends tab st /\ table_ok st 0.
Proof.
  intros Hl Rh Ht. destruct (linked_stage_ok version s tab Hl Rh Ht) as (A & Ls & mod_name & l & -> & [RA Rx Eh Kb [Tl Xb] Ec Ef En Fn Fa Fp [Fi Fm] Fe Fl]).
  pose proof (Forall2_length _ _ _ RA) as HA. pose proof (Forall2_length _ _ _ Rx) as HL. pose proof (words_of_nonneg cs) as Hw.
  destruct (setup_imports_ok A Ls code_at prog rest first l) as (imps & s3 & Es & I3 & K3).
  - exact (load_first Hl).
  - rewrite HA, HL. apply (load_prog Hl).
  - rewrite Fm, Fe, length_fmap. exact (load_indices Hl).
  - exact Ec.
  - exact Fi.
  - rewrite Fm, Fa. eapply Forall_impl; [exact (load_imports_in Hl)|]. unfold atom_index_ok, in_names. rewrite HA. done.
  - rewrite Fm. by eapply ready_heap_after.
  - rewrite Fl, Fe, length_fmap. exact (load_lambdas_at Hl).
  - unfold finish_load. rewrite Es. cbn [vm_bind]. unfold load_finalize at 1. cbn [with_words with_heap_of with_lt_imports with_file BeamLoad.name].
    rewrite Fn. cbn [vm_bind with_words with_heap_of with_lt_imports with_file beam_file with_lits vm_atom_table].
    pose proof (load_names Hl) as Hn. apply Forall_cons in Hn as [Hs _].
    destruct (register_one _ stem Tl Hs) as (x & st2 & -> & X2 & G2 & R2). cbn [unwrap vm_bind].
    eexists _, st2, A, Ls, imps, mod_name. split; [reflexivity|].
    cbn [m_lit_heap m_code m_code_ptr m_funs m_lambdas m_line_table versioned_name vn_version vn_module
      with_words with_heap_of with_lt_imports with_file funs line_table fun_entries code_words code_ptr lits beam_file with_lits heap_of_lits].
    rewrite Fm, Fa in *. split_and!; try done.
    + eapply Forall2_impl; [exact RA|]. intros y t Hy m. by eapply rep_extends.
    + eapply Forall2_impl; [exact Rx|]. intros y v Hy. eapply rep_extends; [exact X2|]. eapply rep_mono; [|exact Hy].
      destruct (fresh_earlier _ _ _ _ _ _ _ Kb K3) as [W1 W2]; [done | unfold Import_storage_size; lia | done |].
      destruct (fresh_within s s3) as [V1 V2]. split; intros p o Hp; eauto.
    + by rewrite Fl.
    + intros p Hp. destruct (copied_terms _ _ _ _ Kb p Hp ltac:(done)) as [B1 B2].
      destruct (copied_terms _ _ _ _ K3 p) as [B3 B4]; [by eapply copied_built | done |]. by rewrite B3, B4, B1, B2.
    + by eapply extends_trans.
    + by apply G2.
Qed.
End Load.

(** * Lookups *)

Lemma funs_get_insert k v t : funs_get k (funs_insert k v t) = Some v.
Proof.
  induction t as [|[k' v'] t IH]; cbn [funs_insert funs_get]; [by rewrite bool_decide_eq_true_2|].
  destruct (bool_decide (k = k')) eqn:E; cbn [funs_get]; [by rewrite bool_decide_eq_true_2|].
  destruct (fa_before k k'); cbn [funs_get]; [by rewrite bool_decide_eq_true_2|]. by rewrite E.
Qed.

Lemma funs_get_insert_ne k k' v t : k <> k' -> funs_get k (funs_insert k' v t) = funs_get k t.
Proof.
  intros Hk. induction t as [|[k2 v2] t IH]; cbn [funs_insert funs_get]; [by rewrite bool_decide_eq_false_2|].
  case_bool_decide as E2; cbn [funs_get].
  - subst k2. by rewrite !bool_decide_eq_false_2.
  - destruct (fa_before k' k2); cbn [funs_get]; [by rewrite (bool_decide_eq_false_2 (k = k'))|]. by rewrite IH.
Qed.

(** The closest beginning so far. *)
Lemma closest_spec t : forall ip d fa, 0 <= ip ->
  (closest ip t d fa = fa /\ (forall k o, (k, o) ∈ t -> o <= ip -> d <= ip - o)) \/
  (exists o, (closest ip t d fa, o) ∈ t /\ o <= ip /\ ip - o < d /\ forall k o', (k, o') ∈ t -> o' <= ip -> o' <= o).
Proof.
  induction t as [|[k o] t IH]; intros ip d fa Hip; cbn [closest].
  - left. split; [done|]. by intros ? ? ?%not_elem_of_nil.
  - destruct ((o <=? ip) && (ip - o <? d)) eqn:E; zify_bool.
    + right. destruct (IH ip (ip - o) k Hip) as [[-> H] | (o' & Hin & Ho & Hd & H)].
      * exists o. split_and!; [left | lia | lia |]. intros k2 o2 Hi2 Ho2. apply elem_of_cons in Hi2 as [[= -> ->] | Hi2]; [lia|]. specialize (H _ _ Hi2 Ho2). lia.
      * exists o'. split_and!; [by right | lia | lia |]. intros k2 o2 Hi2 Ho2. apply elem_of_cons in Hi2 as [[= -> ->] | Hi2]; [lia|]. by eapply H.
    + destruct (IH ip d fa Hip) as [[-> H] | (o' & Hin & Ho & Hd & H)].
      * left. split; [done|]. intros k2 o2 Hi2 Ho2. apply elem_of_cons in Hi2 as [[= -> ->] | Hi2]; [lia|]. by eapply H.
      * right. exists o'. split_and!; [by right | lia | lia |]. intros k2 o2 Hi2 Ho2. apply elem_of_cons in Hi2 as [[= -> ->] | Hi2]; [lia|]. by eapply H.
Qed.

(** An address of the code after the beginning of some function belongs to the function with
    the last beginning before it. *)
Lemma reverse_lookup_closest undefined m i k o :
  0 < i < Z.of_nat (length (m_code m)) -> (k, o) ∈ m_funs m -> 0 <= o <= i ->
  exists fa o', code_reverse_lookup undefined m (m_code_ptr m + 8 * i) =
      Ret (Some {| mfa_m := vn_module (versioned_name m); mfa_f := fa_f fa; mfa_arity := fa_arity fa |}) /\
    (fa, o') ∈ m_funs m /\ o' <= i /\ forall k' o2, (k', o2) ∈ m_funs m -> o2 <= i -> o2 <= o'.
Proof.
  intros Hi Hk Ho. unfold code_reverse_lookup, belongs_to. destruct (m_code m) as [|w ws] eqn:Ec; [cbn in Hi; lia|].
  change (unwrap ((w :: ws) !! 0%nat)) with (Ret w). cbn [vm_bind].
  replace ((_ <=? _) && _) with true by (symmetry; apply andb_true_iff; rewrite Z.leb_le, Z.ltb_lt; lia). cbn [negb].
  rewrite (proj2 (Z.leb_gt _ _)) by lia. replace ((m_code_ptr m + 8 * i - m_code_ptr m) / WORD_BYTES) with i
    by (unfold WORD_BYTES; replace (_ + 8 * i - _) with (i * 8) by lia; by rewrite Z.div_mul).
  destruct (closest_spec (m_funs m) i (Z.of_nat (length (w :: ws)) + 1) {| fa_f := undefined; fa_arity := 0 |}) as [[_ H] | (o' & Hin & Hoi & _ & H)]; [lia | |].
  - specialize (H k o Hk ltac:(lia)). lia.
  - eexists _, o'. split; [reflexivity|]. by split_and!.
Qed.

(** The line of a place is that of the last entry at or before it, of a table in order. *)
Lemma line_from_spec t : forall line off, StronglySorted (fun a b => a.1 <= b.1) t ->
  line_from line t off = default line (snd <$> last (filter (fun e => e.1 <= off) t)).
Proof.
  induction t as [|[o n] t IH]; intros line off Hs; cbn [line_from]; [done|]. apply StronglySorted_inv in Hs as [Hs Ha].
  rewrite filter_cons. cbn [fst]. destruct (Z.leb_spec o off); case_decide; try lia.
  - rewrite IH by done. destruct (last _) as [[o' n']|] eqn:E.
    + rewrite last_cons, E. done.
    + rewrite last_cons, E. done.
  - replace (filter (fun e => e.1 <= off) t) with (@Datatypes.nil (Z * Z)); [done|].
    clear -Ha H. induction Ha as [|e t He _ IHa]; [done|]. rewrite filter_cons, decide_False by (cbn in He; lia). exact IHa.
Qed.

Lemma prog_lines_ordered prog : forall off, StronglySorted (fun a b => a.1 <= b.1) (prog_lines prog off) /\ Forall (fun e => off <= e.1) (prog_lines prog off).
Proof.
  induction prog as [|i prog IH]; intros off; cbn [prog_lines]; [split; constructor|].
  destruct (IH (off + instr_size i)) as [Hs Ha]. assert (0 <= instr_size i) by (unfold instr_size; destruct (emitted i); lia).
  assert (Forall (fun e => off <= e.1) (prog_lines prog (off + instr_size i))) as Ha' by (eapply Forall_impl; [exact Ha|]; cbn; lia).
  destruct i as [op [|[n| | | | | | | | | |] os]]; try done. destruct (is_line_opcode op); [|done]. cbn [app].
  split; [constructor; done | constructor; [cbn; lia | done]].
Qed.

(** An address in the code of a loaded module is attributed to its function and its line:
    the lookup finds the function whose beginning is the last at or before it, as soon as one
    begins there, and the line of the last line instruction at or before it (0 before the
    first one). *)
Theorem place_of_code (undefined : Term) (m : Module) (prog : list instr) (i : Z) (k : FunArity) (o : Z) :
  m_line_table m = prog_lines prog 0 -> 0 < i < Z.of_nat (length (m_code m)) -> (k, o) ∈ m_funs m -> 0 <= o <= i ->
  (exists fa o', code_reverse_lookup undefined m (m_code_ptr m + 8 * i) =
      Ret (Some {| mfa_m := vn_module (versioned_name m); mfa_f := fa_f fa; mfa_arity := fa_arity fa |}) /\
    (fa, o') ∈ m_funs m /\ o' <= i /\ forall k' o2, (k', o2) ∈ m_funs m -> o2 <= i -> o2 <= o') /\
  lookup_line_for_ip m (m_code_ptr m + 8 * i) = Ret (default 0 (snd <$> last (filter (fun e => e.1 <= i) (prog_lines prog 0)))).
Proof.
  intros Hl Hi Hk Ho. split; [by eapply reverse_lookup_closest|]. unfold lookup_line_for_ip, belongs_to.
  destruct (m_code m) as [|w ws] eqn:Ec; [cbn in Hi; lia|]. change (unwrap ((w :: ws) !! 0%nat)) with (Ret w). cbn [vm_bind].
  replace ((_ <=? _) && _) with true by (symmetry; apply andb_true_iff; rewrite Z.leb_le, Z.ltb_lt; lia). cbn [negb].
  replace ((m_code_ptr m + 8 * i - m_code_ptr m) / WORD_BYTES) with i
    by (unfold WORD_BYTES; replace (_ + 8 * i - _) with (i * 8) by lia; by rewrite Z.div_mul).
  unfold lookup_line. rewrite Hl, line_from_spec; [done|]. apply prog_lines_ordered.
Qed.

Module ModuleWitness.
Definition prog : list instr :=
  [(OPCODE_LINE, [LiteralInt 3]); (OPCODE_LABEL, [LiteralInt 1]); (OPCODE_FUNC_INFO, [Atom 1; Atom 2; LiteralInt 0]);
   (OPCODE_LABEL, [LiteralInt 2]); (OPCODE_LINE, [LiteralInt 5]); (OPCODE_CALL_EXT, [LiteralInt 0; LiteralInt 0]);
   (6, [LiteralInt 0; Label 2]); (64, [Literal 0; XReg 0]); (19, []); (3, [])].
Definition chunks : list chunk :=
  [ChAtoms true ["m"; "start"; "other"]; ChCode 184 (prog_bytes prog);
   ChImports [{| mod_atom_i := 3; fun_atom_i := 2; imp_arity := 0 |}];
   ChLambdas [{| lt_arity := 0; lt_fun_atom_i := 2; code_pos := 2; index := 0; lt_nfrozen := 0; ouniq := 0 |}];
   ChLits None [VTuple [VAtom "ok"; VInt 300]]].
Definition inflate (bs : list Z) : option (list Z) := None.
Definition regrow (p : Z) (n : nat) : Z * nat := (p, n).

Lemma chunks_loadable : loadable inflate 4096 8192 "m" chunks prog
  [(OPCODE_CALL_EXT, [LiteralInt 0; LiteralInt 0]); (6, [LiteralInt 0; Label 2]); (64, [Literal 0; XReg 0]); (19, []); (3, [])]
  (OPCODE_FUNC_INFO, [Atom 1; Atom 2; LiteralInt 0]).
Proof.
  split.
  - unfold chunks. repeat constructor; unfold is_word, OPCODE_MAX; try done; cbn; try lia. all: vm_compute; done.
  - vm_compute. done.
  - done.
  - repeat constructor; vm_compute; discriminate.
  - reflexivity.
  - split; [|split].
    + unfold prog. repeat constructor; try done; intros _; eauto 6. all: eexists; split; [reflexivity | lia].
    + vm_compute. repeat (constructor; [set_solver|]). constructor.
    + constructor; [right; set_solver | constructor].
  - reflexivity.
  - split; [vm_compute; lia | vm_compute; done].
  - repeat constructor; intros _ import n E; vm_compute in E; try done. injection E as <- <-. eexists. split; [reflexivity | cbn; lia].
  - repeat constructor; vm_compute; done.
  - repeat constructor; vm_compute; done.
  - vm_compute. done.
  - vm_compute. done.
Qed.

Definition a_module : Module :=
  {| versioned_name := {| vn_module := make_atom 1; vn_version := 1 |};
     m_funs := [({| fa_f := make_atom 2; fa_arity := 0 |}, 4); ({| fa_f := make_atom 3; fa_arity := 1 |}, 12)];
     m_lambdas := []; m_code := replicate 13 0; m_code_ptr := 4096; m_lit_heap := EtfWitness.machine; m_line_table := prog_lines prog 0 |}.

Lemma place_of_code_witness :
  (0 < 6)%Z /\
  (exists fa o', code_reverse_lookup nil a_module (4096 + 8 * 6) =
      Ret (Some {| mfa_m := make_atom 1; mfa_f := fa_f fa; mfa_arity := fa_arity fa |}) /\
    (fa, o') ∈ m_funs a_module /\ o' <= 6 /\ forall k' o2, (k', o2) ∈ m_funs a_module -> o2 <= 6 -> o2 <= o') /\
  lookup_line_for_ip a_module (4096 + 8 * 6) = Ret 5.
Proof.
  split; [lia|]. apply (place_of_code nil a_module prog 6 {| fa_f := make_atom 2; fa_arity := 0 |} 4); [reflexivity | cbn; lia | left | lia].
Defined.
End ModuleWitness.
