(* ===== verification/BeamNative.v ===== *)
(** Native functions of the module erlang on numbers, comparisons, tuples and errors
    ([native_fun/erlang/arithmetic.rs], [compare.rs], [predicate.rs], [tuple.rs], [sys.rs],
    [emulator/arith/]), and how a native function answers ([native_fun/mod.rs],
    [native_fun/macros.rs]). *)
From S2P Require Import Prelude Float64 BeamTerm BeamMem BeamBinary BeamCompare BeamHeap BeamProc BeamOps BeamFacts BeamCopy BeamReader.

(** * How a native function answers

    A value or an exception, next to the state it leaves; other errors are [Fail]. *)
Inductive NativeResult :=
| Value (x : Term)
| Thrown (cls : ExceptionType) (reason : Term).

Definition native_result : Type := vm (NativeResult * Machine).
Definition NativeFn : Type := list Term -> Machine -> native_result.

Definition BADARITH : Term := make_atom 7.
Definition BADFUN : Term := make_atom 9.
Definition OK_ATOM : Term := make_atom 32.

Definition answer (x : Term) (s : Machine) : native_result := Ret (Value x, s).
Definition throw_error (reason : Term) (s : Machine) : native_result := Ret (Thrown ExcError reason, s).
Definition badarg (s : Machine) : native_result := throw_error BADARG s.
Definition badarith (s : Machine) : native_result := throw_error BADARITH s.

(** [?] on a call that leaves the state [s]. *)
Definition attempt {A} (s : Machine) (r : vm A) (k : A -> native_result) : native_result :=
  match r with
  | Ret a => k a
  | Fail (Exception cls reason) => Ret (Thrown cls reason, s)
  | Fail e => Fail e
  | Panic => Panic
  | Wild => Wild
  | Spin => Spin
  end.

(** The answer of a builder. *)
Definition answers (r : vm (Term * Machine)) : native_result := do! (x, s) := r in answer x s.

(** [args[i]], and the assertion on the number of arguments.  [assert_arity] is one of the
    debug profile and does nothing here. *)
Definition arg (args : list Term) (i : nat) : vm Term := unwrap (args !! i).
Lemma arg_0 x l : arg (x :: l) 0 = Ret x. Proof. done. Qed.
Lemma arg_1 x y l : arg (x :: y :: l) 1 = Ret y. Proof. done. Qed.
Lemma arg_2 x y z l : arg (x :: y :: z :: l) 2 = Ret z. Proof. done. Qed.

Definition asserted (n : nat) (args : list Term) (r : native_result) : native_result :=
  if (length args =? n)%nat then r else Panic.

(** * [arithmetic.rs] *)

(** Addition, subtraction and negation of [isize] in the release profile. *)
Definition isize_wrap (v : Z) : Z := as_isize (wrap64 v).

Definition small_i (a : Term) : option Z := if is_small a then Some (get_small_signed a) else None.

(** [Sign::split]. *)
Definition split_sign (val : Z) : Sign * Z :=
  if val <? 0 then (Negative, as_usize (isize_wrap (- val))) else if val =? 0 then (Zero, 0) else (Positive, val).

Definition create_bigint (iresult : Z) (s : Machine) : vm (Term * Machine) :=
  let '(sign, positive_val) := split_sign iresult in
  do! (p, s) := bignum_create_into sign [positive_val] s in
  do! x := unwrap (make_boxed p) in Ret (x, s).

(** A small integer where it fits, a big one otherwise. *)
Definition make_integer (v : Z) (s : Machine) : native_result :=
  if small_fits v then answer (make_small_signed v) s else answers (create_bigint v s).

Definition subtract_two_small (a b : Term) (s : Machine) : native_result :=
  make_integer (isize_wrap (get_small_signed a - get_small_signed b)) s.
Definition add_two_small (a b : Term) (s : Machine) : native_result :=
  make_integer (isize_wrap (get_small_signed a + get_small_signed b)) s.

Definition nativefun_minus_2 : NativeFn := fun args s => asserted 2 args (
  do! a := arg args 0 in do! b := arg args 1 in
  if is_small a then (if is_small b then subtract_two_small a b s else Panic) else Panic).

Definition nativefun_plus_2 : NativeFn := fun args s => asserted 2 args (
  do! a := arg args 0 in do! b := arg args 1 in
  if is_small a then (if is_small b then add_two_small a b s else Panic) else Panic).

(** [multiplication.rs]: the product is formed with 128 bits; [big::mul] is unimplemented. *)
Definition optimistic_mul (a b : Z) : option Term := if small_fits (a * b) then Some (make_small_signed (a * b)) else None.
Definition multiply_two_small (x y : Z) (s : Machine) : vm (Term * Machine) :=
  match optimistic_mul x y with
  | Some val => Ret (val, s)
  | None => do! (_, s) := create_bigint x s in do! (_, s) := create_bigint y s in Panic
  end.

Definition multiply (x y : Term) (s : Machine) : vm (Term * Machine) :=
  if is_small x then
    if is_small y then
      if bool_decide (x = small_0) || bool_decide (y = small_0) then Ret (small_0, s)
      else if bool_decide (x = small_1) then Ret (y, s)
      else if bool_decide (y = small_1) then Ret (x, s)
      else multiply_two_small (get_small_signed x) (get_small_signed y) s
    else Panic
  else Panic.

Definition nativefun_multiply_2 : NativeFn := fun args s => asserted 2 args (
  do! a := arg args 0 in do! b := arg args 1 in answers (multiply a b s)).

(** The functions on two small integers, with the error they give to anything else. *)
Definition on_smalls (error : Machine -> native_result) (f : Z -> Z -> Machine -> native_result) : NativeFn := fun args s =>
  asserted 2 args (
  do! a := arg args 0 in do! b := arg args 1 in
  match small_i a, small_i b with Some a, Some b => f a b s | _, _ => error s end).

Definition nativefun_band_2 : NativeFn := on_smalls badarg (fun a b => answer (make_small_signed (Z.land a b))).
Definition nativefun_bor_2 : NativeFn := on_smalls badarg (fun a b => answer (make_small_signed (Z.lor a b))).
Definition nativefun_bxor_2 : NativeFn := on_smalls badarg (fun a b => answer (make_small_signed (Z.lxor a b))).

Definition nativefun_bnot_1 : NativeFn := fun args s => asserted 1 args (
  do! a := arg args 0 in
  match small_i a with Some a => answer (make_small_signed (Z.lnot a)) s | None => badarg s end).

(** [checked_shl]: [None] from 64 on; the bits shifted out are lost. *)
Definition checked_shl (a n : Z) : option Z := if n <? 64 then Some (sshl64 a n) else None.

Definition nativefun_bsl_2 : NativeFn := on_smalls badarg (fun a shift s =>
  if shift <? 0 then badarg s else
  match checked_shl a (wrap32 shift) with
  | Some v => if small_fits v then answer (make_small_signed v) s else badarg s
  | None => badarg s
  end).

Definition nativefun_bsr_2 : NativeFn := on_smalls badarg (fun a shift s =>
  if shift <? 0 then badarg s else
  answer (make_small_signed (Z.shiftr a (Z.min (wrap32 shift) 63))) s).

(** [checked_div] and [checked_rem]: also [None] where the quotient overflows. *)
Definition checked_div (a b : Z) : option Z :=
  if (b =? 0) || ((a =? ISIZE_MIN) && (b =? -1)) then None else Some (Z.quot a b).
Definition checked_rem (a b : Z) : option Z :=
  if (b =? 0) || ((a =? ISIZE_MIN) && (b =? -1)) then None else Some (Z.rem a b).

Definition nativefun_div_2 : NativeFn := on_smalls badarith (fun a b s =>
  if b =? 0 then badarith s else
  match checked_div a b with Some v => make_integer v s | None => badarith s end).

Definition nativefun_rem_2 : NativeFn := on_smalls badarith (fun a b s =>
  if b =? 0 then badarith s else
  match checked_rem a b with Some v => answer (make_small_signed v) s | None => badarith s end).

(** A float takes its header and its value. *)
Definition Float_storage_size : Z := 3.
Definition make_float (val : f64) (s : Machine) : vm (Term * Machine) :=
  do! (p, s) := alloc_words s Float_storage_size in
  do! x := unwrap (make_boxed p) in Ret (x, put_box s p (OFloat val)).

Definition get_float_unchecked (m : Memory) (x : Term) : vm f64 :=
  do! o := load_box m x in match o with OFloat f => Ret f | _ => Wild end.

Definition term_to_f64_opt (m : Memory) (t : Term) : vm (option f64) :=
  if is_small t then Ret (Some (f64_of_Z (get_small_signed t))) else
  do! b := is_float m t in
  if (b : bool) then do! f := get_float_unchecked m t in Ret (Some f) else Ret None.

Definition f64_eqb (a b : f64) : bool := SFeqb a b.

Definition nativefun_float_div_2 : NativeFn := fun args s => asserted 2 args (
  do! a := arg args 0 in do! b := arg args 1 in
  do! fa := term_to_f64_opt (mem s) a in do! fb := term_to_f64_opt (mem s) b in
  match fa, fb with
  | Some av, Some bv => if f64_eqb bv f64_zero then badarith s else answers (make_float (f64_div av bv) s)
  | _, _ => badarith s
  end).

Definition nativefun_abs_1 : NativeFn := fun args s => asserted 1 args (
  do! a := arg args 0 in
  if is_small a then make_integer (isize_wrap (Z.abs (get_small_signed a))) s else
  do! b := is_float (mem s) a in
  if (b : bool) then do! fv := get_float_unchecked (mem s) a in answers (make_float (SFabs fv) s)
  else do! _ := is_big_int (mem s) a in badarg s).

Definition nativefun_float_1 : NativeFn := fun args s => asserted 1 args (
  do! a := arg args 0 in
  do! b := is_float (mem s) a in
  if (b : bool) then answer a s
  else if is_small a then answers (make_float (f64_of_Z (get_small_signed a)) s)
  else do! _ := is_big_int (mem s) a in badarg s).

(** * [tuple.rs]: the functions take the empty tuple for one on the heap *)

Definition size_1 (t : Term) (s : Machine) : native_result :=
  do! is_t := is_tuple (mem s) t in
  if (is_t : bool) then do! els := tuple_at s t in answer (make_small_unsigned (Z.of_nat (length els))) s else
  do! is_b := is_binary (mem s) t in
  if (is_b : bool) then
    do! bits := term_bits (mem s) t in answer (make_small_unsigned (bytes_rounded_up bits)) s
  else badarg s.
Definition NfErlangSize1 : NativeFn := fun args s => do! t := arg args 0 in size_1 t s.

(** The checks of an index, and what follows with the elements and the index from zero. *)
Definition at_index (index_term tuple_term : Term) (s : Machine) (k : list Term -> nat -> native_result) : native_result :=
  do! is_t := (if is_small index_term then is_tuple (mem s) tuple_term else Ret false) in
  if negb is_t then badarg s else
  let index := get_small_signed index_term in
  if index <? 1 then badarg s else
  do! els := tuple_at s tuple_term in
  if Z.of_nat (length els) <=? index - 1 then badarg s else k els (Z.to_nat (index - 1)).

Definition nativefun_element_2 : NativeFn := fun args s =>
  do! i := arg args 0 in do! t := arg args 1 in
  at_index i t s (fun els k => do! x := read (els !! k) in answer x s).

Definition nativefun_setelement_3 : NativeFn := fun args s =>
  do! i := arg args 0 in do! t := arg args 1 in do! value := arg args 2 in
  at_index i t s (fun els k => answers (make_tuple s (<[k := value]> els))).

Definition nativefun_tuple_size_1 : NativeFn := fun args s =>
  do! t := arg args 0 in
  do! is_t := is_tuple (mem s) t in
  if negb is_t then (if bool_decide (t = empty_tuple) then answer (make_small_unsigned 0) s else badarg s) else
  do! els := tuple_at s t in answer (make_small_unsigned (Z.of_nat (length els))) s.

(** The loop that appends elements to a list. *)
Fixpoint append_all (lb : ListBuilder) (els : list Term) (s : Machine) : vm (ListBuilder * Machine) :=
  match els with
  | [] => Ret (lb, s)
  | x :: els => do! (lb, s) := append lb x s in append_all lb els s
  end.

Definition nativefun_tuple_to_list_1 : NativeFn := fun args s =>
  do! t := arg args 0 in
  if bool_decide (t = empty_tuple) then answer nil s else
  do! is_t := is_tuple (mem s) t in
  if negb is_t then badarg s else
  do! els := tuple_at s t in
  do! (lb, s) := append_all new_builder els s in answer (make_term lb) s.

(** The elements that [for_each] meets, in order. *)
Definition collect (m : Memory) (fuel : nat) (list_term : Term) : vm (list Term) :=
  do! (_, els) := for_each m (fun x acc => Ret (acc ++ [x])) fuel list_term [] in Ret els.

Definition nativefun_list_to_tuple_1 (fuel : nat) : NativeFn := fun args s =>
  do! l := arg args 0 in
  if negb (is_list l) then badarg s else
  if bool_decide (l = nil) then answer empty_tuple s else
  attempt s (list_length (mem s) fuel l) (fun count =>
  do! (p, s) := alloc_words s (tuple_storage_size count) in
  if count =? 0 then Panic else
  do! els := collect (mem s) fuel l in
  do! x := unwrap (make_boxed p) in answer x (put_box s p (OTuple els))).

(** * [compare.rs] and [predicate.rs] *)

Section Compare.
Context (atoms : AtomStorage) (fuel : nat).

(** [cmp_terms(..)? == ordering], inverted. *)
Definition shared_eq (args : list Term) (ordering : comparison) (invert exact : bool) (s : Machine) : native_result :=
  do! a := arg args 0 in do! b := arg args 1 in
  do! c := generic_comparison (mem s) atoms fuel a b exact ordering invert in answer (make_bool c) s.

Definition nativefun_equalequal_2 : NativeFn := fun args s => asserted 2 args (shared_eq args Eq false false s).
Definition nativefun_notequal_2 : NativeFn := fun args s => asserted 2 args (shared_eq args Eq true false s).
Definition nativefun_equal_exact_2 : NativeFn := fun args s => asserted 2 args (shared_eq args Eq false true s).
Definition nativefun_notequal_exact_2 : NativeFn := fun args s => asserted 2 args (shared_eq args Eq true true s).
Definition nativefun_lessthan_2 : NativeFn := fun args s => asserted 2 args (shared_eq args Lt false false s).
Definition nativefun_greaterthan_2 : NativeFn := fun args s => asserted 2 args (shared_eq args Gt false false s).
Definition nativefun_lessequal_2 : NativeFn := fun args s => asserted 2 args (shared_eq args Gt true false s).
Definition nativefun_greaterequal_2 : NativeFn := fun args s => asserted 2 args (shared_eq args Lt true false s).

Definition nativefun_max_2 : NativeFn := fun args s => asserted 2 args (
  do! a := arg args 0 in do! b := arg args 1 in
  do! c := cmp_terms (mem s) atoms fuel a b false in answer (match c with Lt => b | _ => a end) s).
Definition nativefun_min_2 : NativeFn := fun args s => asserted 2 args (
  do! a := arg args 0 in do! b := arg args 1 in
  do! c := cmp_terms (mem s) atoms fuel a b false in answer (match c with Gt => b | _ => a end) s).
End Compare.

Definition nativefun_is_boolean_1 : NativeFn := fun args s => do! a := arg args 0 in answer (make_bool (is_bool a)) s.

(** * [sys.rs] *)

(** [make_badfun_n]. *)
Definition make_badfun_n (args : list Term) (s : Machine) : vm (Term * Machine) := make_tuple s (BADFUN :: args).

(** [nif_error/1] and [nif_error/2] are the same. *)
Definition NfErlangNifError : NativeFn := fun args s => do! (t, s) := make_badfun_n args s in throw_error t s.
Definition NfErlangError1 : NativeFn := fun args s => do! reason := arg args 0 in throw_error reason s.
Definition NfErlangError2 : NativeFn := fun args s =>
  do! reason := arg args 0 in do! err_args := arg args 1 in
  do! (t, s) := make_tuple s [reason; err_args] in throw_error t s.
Definition NfErlangThrow1 : NativeFn := fun args s => do! reason := arg args 0 in Ret (Thrown ExcThrow reason, s).
Definition NfErlangExit1 : NativeFn := fun args s => do! reason := arg args 0 in Ret (Thrown ExcExit reason, s).
Definition NfErlangLoadNif2 : NativeFn := fun args s =>
  do! path := arg args 0 in if negb (is_list path) then badarg s else
  do! load_info := arg args 1 in answer OK_ATOM s.

(** * Arithmetic is exact

    The integer that a term stands for: a small one, or a box with one limb. *)
Definition integer_at (m : Memory) (x : Term) (n : Z) : Prop :=
  (is_small x = true /\ get_small_signed x = n) \/
  (is_boxed x = true /\ exists neg limb, boxes m !! get_box_ptr_unchecked x = Some (OBigInt neg [limb]) /\
     n = if (neg : bool) then - limb else limb).

Inductive arith_op := Plus | Minus | Times | Div | Rem | Band | Bor | Bxor | Bsl | Bsr.

Definition arith_native (op : arith_op) : NativeFn :=
  match op with
  | Plus => nativefun_plus_2 | Minus => nativefun_minus_2 | Times => nativefun_multiply_2
  | Div => nativefun_div_2 | Rem => nativefun_rem_2
  | Band => nativefun_band_2 | Bor => nativefun_bor_2 | Bxor => nativefun_bxor_2
  | Bsl => nativefun_bsl_2 | Bsr => nativefun_bsr_2
  end.

(** What Erlang's operators mean on integers; [None] is [badarith]. *)
Definition meaning (op : arith_op) (a b : Z) : option Z :=
  match op with
  | Plus => Some (a + b) | Minus => Some (a - b) | Times => Some (a * b)
  | Div => if b =? 0 then None else Some (Z.quot a b)
  | Rem => if b =? 0 then None else Some (Z.rem a b)
  | Band => Some (Z.land a b) | Bor => Some (Z.lor a b) | Bxor => Some (Z.lxor a b)
  | Bsl => Some (a * 2 ^ b) | Bsr => Some (a / 2 ^ b)
  end.

Definition small_range (n : Z) : Prop := - 2 ^ 60 <= n < 2 ^ 60.

(** Where the functions are meant to work: products and shifts to the left that stay small,
    and shifts by less than a word. *)
Definition supported (op : arith_op) (a b : Z) : Prop :=
  match op with
  | Times => small_range (a * b)
  | Bsl => 0 <= b < 64 /\ small_range (a * 2 ^ b)
  | Bsr => 0 <= b < 2 ^ 32
  | _ => True
  end.

Definition small (n : Z) : Term := make_small_signed n.

Lemma small_is_small n : small_range n -> is_small (small n) = true /\ get_small_signed (small n) = n.
Proof. intros H. unfold small, is_small. by destruct (small_reads n H) as (_ & -> & ->). Qed.

Lemma small_i_small n : small_range n -> small_i (small n) = Some n.
Proof. intros H. unfold small_i. by destruct (small_is_small n H) as [-> ->]. Qed.

Lemma isize_wrap_id v : - 2 ^ 63 <= v < 2 ^ 63 -> isize_wrap v = v.
Proof.
  intros H. unfold isize_wrap, as_isize, wrap64. pose proof (Z.div_mod v (2 ^ 64) ltac:(lia)).
  pose proof (Z.mod_pos_bound v (2 ^ 64) ltac:(lia)). case_match; zify_bool; nia.
Qed.

Lemma small_range_shift n : small_range n <-> Z.shiftr n 60 = 0 \/ Z.shiftr n 60 = -1.
Proof.
  unfold small_range. rewrite Z.shiftr_div_pow2 by lia. pose proof (Z.div_mod n (2 ^ 60) ltac:(lia)).
  pose proof (Z.mod_pos_bound n (2 ^ 60) ltac:(lia)). split; [intros ?; assert (-2 < n / 2 ^ 60 < 1) by nia; lia | nia].
Qed.

Lemma bitwise_small (f : Z -> Z -> Z) a b : (forall x y, Z.shiftr (f x y) 60 = f (Z.shiftr x 60) (Z.shiftr y 60)) ->
  (forall x y, x = 0 \/ x = -1 -> y = 0 \/ y = -1 -> f x y = 0 \/ f x y = -1) ->
  small_range a -> small_range b -> small_range (f a b).
Proof. rewrite !small_range_shift. intros E H Ha Hb. rewrite E. auto. Qed.

Lemma answer_small n s : small_range n ->
  exists x, answer (make_small_signed n) s = Ret (Value x, s) /\ integer_at (mem s) x n.
Proof. intros H. exists (small n). split; [done|]. left. by apply small_is_small. Qed.

(** An integer of up to 62 bits and a sign in newly allocated words. *)
Lemma create_bigint_ok v s : - 2 ^ 62 <= v < 2 ^ 62 -> machine_ok s -> block_ok s -> room s Bignum_storage_size ->
  exists x s', create_bigint v s = Ret (x, s') /\ integer_at (mem s') x v /\ machine_ok s' /\ same_terms s s'.
Proof.
  intros Hv O B R. unfold create_bigint, split_sign.
  assert (exists sign limb, (if v <? 0 then (Negative, as_usize (isize_wrap (- v))) else if v =? 0 then (Zero, 0) else (Positive, v)) = (sign, limb) /\
    v = if match sign with Negative => true | _ => false end then - limb else limb) as (sign & limb & -> & Hl).
  { case_match; zify_bool; [|case_match; zify_bool; eexists _, _; (split; [reflexivity | cbn; lia])].
    eexists _, _. split; [reflexivity|]. cbn. rewrite isize_wrap_id by lia. unfold as_usize, wrap64. rewrite Z.mod_small by lia. lia. }
  unfold bignum_create_into. destruct (alloc_words_copied s Bignum_storage_size O) as (s1 & -> & K & M); [done | done|]. cbn [vm_bind length Nat.ltb Nat.leb].
  assert (room s 0) as R0 by (unfold room in *; unfold Bignum_storage_size in R; lia).
  destruct (next_aligned s B O R0) as [Hn Ha]. destruct (boxed_reads (next s)) as (x & Ex & _ & _ & Ht & Hp); [lia | done|].
  rewrite Ex. cbn [unwrap vm_bind]. eexists x, _. split; [reflexivity|].
  pose proof (copied_put Bignum_storage_size None s s1 (next s) (Some (OBigInt match sign with Negative => true | _ => false end [limb])) None K) as K2.
  assert (built s (next s) -> None = Some (next s)) as Hf by (intros Hb; exfalso; revert Hb; by apply next_new).
  specialize (K2 Hf). split; [|split; [apply K2 | intros p Hpb; by apply (copied_terms _ _ _ _ K2)]].
  right. split; [unfold is_boxed; by rewrite Ht|]. exists match sign with Negative => true | _ => false end, limb. split; [|done].
  cbn. rewrite Hp. apply lookup_insert_eq.
Qed.

Definition heap_ready (s : Machine) : Prop := machine_ok s /\ block_ok s /\ room s Bignum_storage_size.

(** What an arithmetic function did: an integer term, with the terms there were. *)
Definition computes (r : native_result) (s : Machine) (n : Z) : Prop :=
  exists x s', r = Ret (Value x, s') /\ integer_at (mem s') x n /\ machine_ok s' /\ same_terms s s'.

Lemma answer_computes n s : heap_ready s -> small_range n -> computes (answer (make_small_signed n) s) s n.
Proof. intros (O & _) H. destruct (answer_small n s H) as (x & E & I). exists x, s. by split_and!. Qed.

Lemma make_integer_computes v s : heap_ready s -> - 2 ^ 62 <= v < 2 ^ 62 -> computes (make_integer v s) s v.
Proof.
  intros (O & B & R) Hv. unfold make_integer. destruct (small_fits v) eqn:E.
  - apply answer_computes; [by split_and! | by apply small_fits_iff].
  - destruct (create_bigint_ok v s Hv O B R) as (x & s' & E' & H). unfold answers. rewrite E'. exists x, s'. by split.
Qed.

Lemma on_smalls_eq error f a b s : small_range a -> small_range b -> on_smalls error f [small a; small b] s = f a b s.
Proof. intros Ha Hb. unfold on_smalls. cbn [asserted length Nat.eqb]. rewrite arg_0, arg_1. cbn [vm_bind]. by rewrite !small_i_small. Qed.

Lemma plus_ok a b s : heap_ready s -> small_range a -> small_range b ->
  computes (nativefun_plus_2 [small a; small b] s) s (a + b) /\ computes (nativefun_minus_2 [small a; small b] s) s (a - b).
Proof.
  intros Hs Ha Hb. destruct (small_is_small a Ha) as [Sa Va], (small_is_small b Hb) as [Sb Vb].
  unfold nativefun_plus_2, nativefun_minus_2, add_two_small, subtract_two_small.
  cbn [asserted length Nat.eqb]. rewrite arg_0, arg_1. cbn [vm_bind]. rewrite Sa, Sb, Va, Vb. unfold small_range in *.
  split; rewrite isize_wrap_id by lia; apply make_integer_computes; done || lia.
Qed.

Lemma times_ok a b s : heap_ready s -> small_range a -> small_range b -> small_range (a * b) ->
  computes (nativefun_multiply_2 [small a; small b] s) s (a * b).
Proof.
  intros Hs Ha Hb Hab. destruct (small_is_small a Ha) as [Sa Va], (small_is_small b Hb) as [Sb Vb].
  unfold nativefun_multiply_2. cbn [asserted length Nat.eqb]. rewrite arg_0, arg_1. cbn [vm_bind]. unfold multiply. rewrite Sa, Sb.
  assert (forall n, small_range n -> small n = make_small_signed n) as Es by done.
  assert (small 0 = small_0 /\ small 1 = small_1) as [E0 E1] by done.
  assert (forall n, small_range n -> computes (answers (Ret (small n, s))) s n) as Hc by (intros n Hn; by apply answer_computes).
  assert (forall n k, small_range n -> small_range k -> small n = small k -> n = k) as Hinj.
  { intros n k Hn Hk E. pose proof (small_is_small n Hn) as [_ ?]. pose proof (small_is_small k Hk) as [_ ?]. congruence. }
  assert (small_range 0 /\ small_range 1) as [R0 R1] by (unfold small_range; lia).
  rewrite <- E0, <- E1. clear E0 E1. repeat case_bool_decide; cbn [orb];
    repeat match goal with E : small _ = small _ |- _ => apply Hinj in E; [subst | done..] end;
    rewrite ?Z.mul_0_l, ?Z.mul_0_r, ?Z.mul_1_l, ?Z.mul_1_r; try lia; auto.
  unfold multiply_two_small, optimistic_mul. rewrite Va, Vb, (proj2 (small_fits_iff (a * b)) Hab). by apply Hc.
Qed.

Lemma bits_ok a b s : heap_ready s -> small_range a -> small_range b ->
  computes (nativefun_band_2 [small a; small b] s) s (Z.land a b) /\ computes (nativefun_bor_2 [small a; small b] s) s (Z.lor a b) /\
  computes (nativefun_bxor_2 [small a; small b] s) s (Z.lxor a b).
Proof.
  intros Hs Ha Hb. unfold nativefun_band_2, nativefun_bor_2, nativefun_bxor_2. rewrite !on_smalls_eq by done.
  assert (forall x, x = 0 \/ x = -1 -> x = 0 \/ x = -1) as _ by done.
  split_and!; (apply answer_computes; [done|]); apply bitwise_small; try done.
  all: try (intros x y; apply Z.shiftr_land || apply Z.shiftr_lor || apply Z.shiftr_lxor).
  all: intros x y [-> | ->] [-> | ->]; cbn; auto.
Qed.

Lemma div_ok a b s : heap_ready s -> small_range a -> small_range b -> b <> 0 ->
  computes (nativefun_div_2 [small a; small b] s) s (Z.quot a b) /\ computes (nativefun_rem_2 [small a; small b] s) s (Z.rem a b).
Proof.
  intros Hs Ha Hb Hne. unfold nativefun_div_2, nativefun_rem_2. rewrite !on_smalls_eq by done. unfold checked_div, checked_rem.
  rewrite (proj2 (Z.eqb_neq b 0) Hne). replace (a =? ISIZE_MIN) with false
    by (symmetry; apply Z.eqb_neq; unfold small_range, ISIZE_MIN in *; lia). cbn [orb andb]. unfold small_range in *.
  pose proof (Z.rem_bound_abs a b Hne). pose proof (Z.quot_rem' a b). split.
  - apply make_integer_computes; [done|]. assert (Z.abs (Z.quot a b) <= Z.abs a) by (rewrite <- Z.quot_abs by done; apply Z.quot_le_upper_bound; nia). lia.
  - apply answer_computes; [done|]. unfold small_range. lia.
Qed.

Lemma shift_ok a b s : heap_ready s -> small_range a -> small_range b ->
  (0 <= b < 64 -> small_range (a * 2 ^ b) -> computes (nativefun_bsl_2 [small a; small b] s) s (a * 2 ^ b)) /\
  (0 <= b < 2 ^ 32 -> computes (nativefun_bsr_2 [small a; small b] s) s (a / 2 ^ b)).
Proof.
  intros Hs Ha Hb. unfold nativefun_bsl_2, nativefun_bsr_2. rewrite !on_smalls_eq by done. unfold checked_shl, small_range in *.
  split; intros Hbb.
  - intros Hab. rewrite (proj2 (Z.ltb_ge _ _)) by lia. unfold wrap32. rewrite Z.mod_small by lia.
    rewrite (proj2 (Z.ltb_lt b 64)) by lia. unfold sshl64. rewrite Z.shiftl_mul_pow2 by lia.
    change (as_isize (wrap64 (a * 2 ^ b))) with (isize_wrap (a * 2 ^ b)). rewrite isize_wrap_id by lia.
    rewrite (proj2 (small_fits_iff _)) by done. by apply answer_computes.
  - rewrite (proj2 (Z.ltb_ge _ _)) by lia. unfold wrap32. rewrite Z.mod_small by lia. rewrite Z.shiftr_div_pow2 by lia.
    pose proof (Z.pow_pos_nonneg 2 b ltac:(lia) ltac:(lia)).
    assert (a / 2 ^ Z.min b 63 = a / 2 ^ b) as ->.
    { destruct (Z.min_spec b 63) as [[? ->] | [Hge ->]]; [done|]. assert (2 ^ 63 <= 2 ^ b) by (apply Z.pow_le_mono_r; lia).
      destruct (Z_lt_le_dec a 0).
      - rewrite <- (Z.div_unique a (2 ^ b) (-1) (a + 2 ^ b)) by lia. by rewrite <- (Z.div_unique a (2 ^ 63) (-1) (a + 2 ^ 63)) by lia.
      - by rewrite !Z.div_small by lia. }
    apply answer_computes; [done|]. unfold small_range. split; [apply Z.div_le_lower_bound | apply Z.div_lt_upper_bound]; nia.
Qed.


(** * Tuples *)

(** The tuple of elements at a term. *)
Definition holds_tuple (m : Memory) (t : Term) (els : list Term) : Prop :=
  is_boxed t = true /\ boxes m !! get_box_ptr_unchecked t = Some (OTuple els).

Lemma holds_is_tuple m t els : holds_tuple m t els -> is_tuple m t = Ret true.
Proof.
  intros [B E]. unfold is_tuple, or_else. case_bool_decide; [done|]. unfold is_boxed_of_type, is_boxed_of_, load_box. by rewrite B, E.
Qed.

Lemma at_index_holds s t els i k : holds_tuple (mem s) t els -> small_range i ->
  at_index (small i) t s k = if (1 <=? i) && (i <=? Z.of_nat (length els)) then k els (Z.to_nat (i - 1)) else badarg s.
Proof.
  intros H Hi. unfold at_index. destruct (small_is_small i Hi) as [-> ->]. rewrite (holds_is_tuple _ _ _ H). cbn [vm_bind negb].
  destruct H as [_ E]. unfold tuple_at. rewrite E. cbn [read vm_bind].
  destruct (Z.ltb_spec i 1), (Z.leb_spec 1 i); try lia; cbn [andb]; [done|].
  destruct (Z.leb_spec (Z.of_nat (length els)) (i - 1)), (Z.leb_spec i (Z.of_nat (length els))); done || lia.
Qed.

(** A tuple of at least one element in newly allocated words. *)
Lemma make_tuple_ok s els : els <> [] -> machine_ok s -> block_ok s -> room s (tuple_storage_size (Z.of_nat (length els))) ->
  exists x s', make_tuple s els = Ret (x, s') /\ holds_tuple (mem s') x els /\ machine_ok s' /\ same_terms s s'.
Proof.
  intros Hne O B R. unfold make_tuple. set (n := tuple_storage_size (Z.of_nat (length els))) in *.
  assert (0 < n) as Hn by (unfold n, tuple_storage_size; lia).
  destruct (alloc_words_copied s n O) as (s1 & -> & K & M); [lia | done|]. cbn [vm_bind].
  assert (room s 0) as R0 by (unfold room in *; lia). destruct (next_aligned s B O R0) as [Hx Ha].
  destruct (boxed_reads (next s)) as (x & Ex & _ & _ & Ht & Hp); [lia | done|].
  destruct els as [|e els]; [done|]. rewrite Ex. cbn [unwrap vm_bind]. eexists x, _. split; [reflexivity|].
  pose proof (copied_put n None s s1 (next s) (Some (OTuple (e :: els))) None K) as K2.
  assert (built s (next s) -> None = Some (next s)) as Hf by (intros Hb; exfalso; revert Hb; by apply next_new).
  specialize (K2 Hf). split; [|split; [apply K2 | intros p Hpb; by apply (copied_terms _ _ _ _ K2)]].
  split; [unfold is_boxed; by rewrite Ht|]. cbn. rewrite Hp. apply lookup_insert_eq.
Qed.

(** Elements of tuples.  [element] gives the element at an index from 1 to the size of the
    tuple; [setelement] gives a tuple with that element replaced and every other one as it was,
    in newly allocated words, and leaves the tuple and every other term; both raise [badarg],
    with nothing allocated, for any other index. *)
Theorem setelement_then_element (s : Machine) (t v : Term) (els : list Term) (i j : Z) :
  holds_tuple (mem s) t els -> machine_ok s -> block_ok s -> room s (tuple_storage_size (Z.of_nat (length els))) ->
  small_range i -> small_range j ->
  if (1 <=? i) && (i <=? Z.of_nat (length els)) then
    exists t' s', nativefun_setelement_3 [small i; t; v] s = Ret (Value t', s') /\ same_terms s s' /\ machine_ok s' /\
      nativefun_tuple_size_1 [t'] s' = answer (make_small_unsigned (Z.of_nat (length els))) s' /\
      nativefun_element_2 [small j; t'] s' =
        (if (1 <=? j) && (j <=? Z.of_nat (length els))
         then (if j =? i then answer v s' else do! x := unwrap (els !! Z.to_nat (j - 1)) in answer x s') else badarg s')
  else nativefun_setelement_3 [small i; t; v] s = badarg s /\ nativefun_element_2 [small i; t] s = badarg s.
Proof.
  intros H O B R Hi Hj. unfold nativefun_setelement_3, nativefun_element_2, nativefun_tuple_size_1.
  rewrite !arg_0, !arg_1, arg_2. cbn [vm_bind]. rewrite !(at_index_holds s t els i) by done.
  destruct ((1 <=? i) && (i <=? Z.of_nat (length els))) eqn:Hin; [|done]. apply andb_true_iff in Hin as [H1 H2]. zify_bool.
  assert (length (<[Z.to_nat (i - 1) := v]> els) = length els) as El by apply length_insert.
  destruct (make_tuple_ok s (<[Z.to_nat (i - 1) := v]> els)) as (x & s' & E & Hx & O' & S'); [|done | done | by rewrite El |].
  { intros E. rewrite E in El. cbn in El. lia. }
  unfold answers. rewrite E. exists x, s'. split_and!; try done.
  - rewrite arg_0. cbn [vm_bind]. rewrite (holds_is_tuple _ _ _ Hx). cbn [vm_bind negb]. unfold tuple_at. rewrite (proj2 Hx).
    cbn [read vm_bind]. by rewrite El.
  - rewrite arg_0, arg_1. cbn [vm_bind]. rewrite (at_index_holds s' x _ j) by done. rewrite El.
    destruct ((1 <=? j) && (j <=? Z.of_nat (length els))) eqn:Hjn; [|done]. apply andb_true_iff in Hjn as [H3 H4]. zify_bool.
    destruct (Z.eqb_spec j i) as [->|Hne].
    + rewrite list_lookup_insert_eq by lia. done.
    + rewrite list_lookup_insert_ne by lia. destruct (lookup_lt_is_Some_2 els (Z.to_nat (j - 1))) as [y ->]; [lia | done].
Qed.

Module NativeWitness.
(** The largest small integer, and a tuple at 4096. *)
Definition machine : Machine := CopyWitness.sender.
Definition largest : Z := 2 ^ 60 - 1.

Lemma machine_ready : heap_ready machine.
Proof. split_and!; [apply CopyWitness.sender_ok | vm_compute; done | vm_compute; done]. Qed.


Definition elements : list Term := default [] (match boxes (mem machine) !! 4096 with Some (OTuple els) => Some els | _ => None end).

Lemma setelement_then_element_witness :
  (length elements = 3)%nat /\
  exists t' s', nativefun_setelement_3 [small 2; CopyWitness.tuple_at_4096; TRUE] machine = Ret (Value t', s') /\ same_terms machine s' /\ machine_ok s' /\
    nativefun_tuple_size_1 [t'] s' = answer (make_small_unsigned 3) s' /\
    nativefun_element_2 [small 2; t'] s' = answer TRUE s'.
Proof.
  split; [by vm_compute|].
  pose proof (setelement_then_element machine CopyWitness.tuple_at_4096 TRUE elements 2 2) as H.
  apply H; [split; vm_compute; done | apply CopyWitness.sender_ok | vm_compute; done | vm_compute; done | unfold small_range; lia | unfold small_range; lia].
Defined.

(** A product that does not fit ends in the unimplemented product of big integers. *)
Lemma product_panics : arith_native Times [small largest; small 2] machine = Panic.
Proof. vm_compute. reflexivity. Qed.

(** An operand that is not a small integer, such as an atom, ends in [unimplemented!]
    instead of [badarith]. *)
Lemma atom_plus_one_panics : arith_native Plus [TRUE; small 1] machine = Panic.
Proof. vm_compute. reflexivity. Qed.

(** Bits shifted out to the left are lost without an error. *)
Lemma shift_loses_bits : arith_native Bsl [small 2; small 63] machine = answer (small 0) machine.
Proof. vm_compute. reflexivity. Qed.

(** The width of a shift is taken modulo [2^32]. *)
Lemma long_shift_does_nothing :
  arith_native Bsl [small 1; small (2 ^ 32)] machine = answer (small 1) machine /\
  arith_native Bsr [small 8; small (2 ^ 32)] machine = answer (small 8) machine.
Proof. split; vm_compute; reflexivity. Qed.

(** The size of the empty tuple is read through its immediate word. *)
Lemma empty_tuple_size_wild : nativefun_tuple_size_1 [empty_tuple] machine = Wild.
Proof. vm_compute. reflexivity. Qed.
End NativeWitness.
