(* ===== verification/BeamListFuns.v ===== *)
(** Native functions on lists and texts ([native_fun/erlang/list.rs],
    [native_fun/erlang/type_conversions.rs], [native_fun/lists/]), with the walks over iolists
    ([term/value/cons.rs]) and the builder of binaries ([term/term_builder/bin_builder.rs]).

    A walk of a list that builds another reads the memory there was: builders write only the
    cells they make. *)
From S2P Require Import Prelude Float64 BeamTerm BeamMem BeamBinary BeamCompare BeamHeap BeamProc BeamOps BeamFacts BeamCopy BeamReader BeamEtf BeamNative.

(** The checks of arguments that the macros generate. *)
Definition arg_list (args : list Term) (i : nat) (s : Machine) (k : Term -> native_result) : native_result :=
  do! l := arg args i in if negb (is_list l) then badarg s else k l.
Definition arg_cons (args : list Term) (i : nat) (s : Machine) (k : Term -> native_result) : native_result :=
  do! l := arg args i in if negb (is_cons l) then badarg s else k l.
Definition arg_usize (args : list Term) (i : nat) (s : Machine) (k : Z -> native_result) : native_result :=
  do! n := arg args i in if negb (is_small n) then badarg s else k (get_small_unsigned n).
Definition arg_atom (args : list Term) (i : nat) (s : Machine) (k : Term -> native_result) : native_result :=
  do! a := arg args i in if negb (is_atom a) then badarg s else k a.
Definition arg_binary (args : list Term) (i : nat) (s : Machine) (k : Term -> native_result) : native_result :=
  do! b := arg args i in do! is_b := is_binary (mem s) b in if negb is_b then badarg s else k b.

Section Lists.
Context (atoms : AtomStorage) (fuel : nat).

(** * [erlang/list.rs] *)

Definition NfErlangLength1 : NativeFn := fun args s => arg_list args 0 s (fun l =>
  attempt s (list_length (mem s) fuel l) (fun n => answer (make_small_unsigned n) s)).

Definition plusplus_2 (a b : Term) (s : Machine) : native_result :=
  if bool_decide (a = nil) then answer b s else
  do! (l1, tail, s) := copy_list_leave_tail fuel a s in
  do! s := set_tl tail b s in answer l1 s.

Definition NfErlangPlusPlus2 : NativeFn := fun args s =>
  arg_list args 0 s (fun a => do! b := arg args 1 in plusplus_2 a b s).

(** [lists:append/2] has the body of [plusplus_2] again. *)
Definition append_2 (a b : Term) (s : Machine) : native_result :=
  if bool_decide (a = nil) then answer b s else
  do! (l1, tail, s) := copy_list_leave_tail fuel a s in
  do! s := set_tl tail b s in answer l1 s.
Definition NfListsAppend2 : NativeFn := fun args s =>
  arg_list args 0 s (fun a => do! b := arg args 1 in append_2 a b s).

Definition NfErlangHd1 : NativeFn := fun args s => arg_cons args 0 s (fun l =>
  do! (hd, _) := load_cons (mem s) (get_cons_ptr l) in answer hd s).
Definition NfErlangTl1 : NativeFn := fun args s => arg_cons args 0 s (fun l =>
  do! (_, tl) := load_cons (mem s) (get_cons_ptr l) in answer tl s).

(** * [lists/misc.rs] *)

(** Whether two terms compare equal; an error counts as different. *)
Definition same_term (m : Memory) (sample elem : Term) : vm bool :=
  match cmp_terms m atoms fuel sample elem true with
  | Ret c => Ret (match c with Eq => true | _ => false end)
  | Fail _ => Ret false
  | Panic => Panic
  | Wild => Wild
  | Spin => Spin
  end.

(** [find_first] and [any] with a predicate that runs comparisons. *)
Fixpoint search_from (m : Memory) (predicate : Term -> vm bool) (n : nat) (p : Z) : vm (option Z) :=
  match n with
  | O => Spin
  | S n =>
    do! (hd, tl) := load_cons m p in
    do! b := predicate hd in
    if (b : bool) then Ret (Some p)
    else if is_cons tl then search_from m predicate n (get_cons_ptr tl) else Ret None
  end.
Definition search (m : Memory) (predicate : Term -> vm bool) (lst : Term) : vm (option Z) :=
  if bool_decide (lst = nil) then Ret None else search_from m predicate fuel (get_cons_ptr lst).

Definition member_2 (sample lst : Term) (s : Machine) : native_result :=
  if bool_decide (lst = nil) then answer (make_bool false) s else
  do! r := search (mem s) (same_term (mem s) sample) lst in
  answer (make_bool (match r with Some _ => true | None => false end)) s.
Definition NfListsMember2 : NativeFn := fun args s =>
  do! sample := arg args 0 in arg_list args 1 s (fun l => member_2 sample l s).

(** Each element is prepended to the result; the tail ends it. *)
Definition reverse_2 (lst tail : Term) (s : Machine) : native_result :=
  if bool_decide (lst = nil) then answer tail s else
  do! (_, (lb, s)) := for_each (mem s) (fun elem '(lb, s) => prepend lb elem s) fuel lst (new_builder, s) in
  answers (make_term_with_tail lb tail s).
Definition NfListsReverse2 : NativeFn := fun args s =>
  arg_list args 0 s (fun l => do! tail := arg args 1 in reverse_2 l tail s).

(** [sort_by] is the stable sort by the comparison, here by insertion; the first error of a
    comparison is remembered, and from there on elements count as equal. *)
Definition sort_cmp (m : Memory) (sort_error : bool) (a b : Term) : vm (comparison * bool) :=
  if sort_error then Ret (Eq, true) else
  match cmp_terms m atoms fuel a b true with
  | Ret c => Ret (c, false)
  | Fail _ => Ret (Eq, true)
  | Panic => Panic
  | Wild => Wild
  | Spin => Spin
  end.

(** Into a sorted prefix, last element first. *)
Fixpoint insert_back (m : Memory) (x : Term) (back : list Term) (err : bool) : vm (list Term * bool) :=
  match back with
  | [] => Ret ([x], err)
  | y :: back' =>
    do! (c, err) := sort_cmp m err x y in
    match c with
    | Lt => do! (r, err) := insert_back m x back' err in Ret (y :: r, err)
    | _ => Ret (x :: back, err)
    end
  end.
Fixpoint sort_onto (m : Memory) (back els : list Term) (err : bool) : vm (list Term * bool) :=
  match els with
  | [] => Ret (back, err)
  | x :: els => do! (back, err) := insert_back m x back err in sort_onto m back els err
  end.
Definition sort_by (m : Memory) (els : list Term) : vm (list Term * bool) :=
  do! (back, err) := sort_onto m [] els false in Ret (rev back, err).

Definition sort_1 (lst : Term) (s : Machine) : native_result :=
  if bool_decide (lst = nil) then answer nil s else
  do! elements := collect (mem s) fuel lst in
  if (length elements <=? 1)%nat then answer lst s else
  do! (elements, sort_error) := sort_by (mem s) elements in
  if (sort_error : bool) then badarg s else
  do! (lb, s) := append_all new_builder elements s in answer (make_term lb) s.
Definition NfListsSort1 : NativeFn := fun args s => arg_list args 0 s (fun l => sort_1 l s).

(** The nested call takes one fuel, and so does each further cell. *)
Fixpoint flatten_cells (m : Memory) (n : nat) (lb : ListBuilder) (current : Term) (s : Machine) : vm (ListBuilder * Machine) :=
  match n with
  | O => Spin
  | S n =>
    if is_cons current then
      do! (hd, tl) := load_cons m (get_cons_ptr current) in
      do! (lb, s) := (if is_list hd then flatten_cells m n lb hd s else append lb hd s) in
      flatten_cells m n lb tl s
    else if bool_decide (current = nil) then Ret (lb, s) else append lb current s
  end.

Definition flatten_1 (lst : Term) (s : Machine) : native_result :=
  if bool_decide (lst = nil) then answer nil s else
  do! (lb, s) := flatten_cells (mem s) fuel new_builder lst s in
  answer (if head_p lb =? 0 then nil else make_term lb) s.
Definition NfListsFlatten1 : NativeFn := fun args s => arg_list args 0 s (fun l => flatten_1 l s).

Fixpoint nth_from (m : Memory) (k : nat) (current : Term) (count n : Z) : vm (option Term) :=
  match k with
  | O => Spin
  | S k =>
    if is_cons current then
      do! (hd, tl) := load_cons m (get_cons_ptr current) in
      if count =? n then Ret (Some hd) else nth_from m k tl (count + 1) n
    else Ret None
  end.
Definition nth_2 (n : Z) (lst : Term) (s : Machine) : native_result :=
  if n =? 0 then badarg s else
  do! r := nth_from (mem s) fuel lst 1 n in
  match r with Some x => answer x s | None => badarg s end.
Definition NfListsNth2 : NativeFn := fun args s => arg_usize args 0 s (fun n => arg_cons args 1 s (fun l => nth_2 n l s)).

Fixpoint last_from (m : Memory) (k : nat) (current last_elem : Term) : vm Term :=
  match k with
  | O => Spin
  | S k =>
    if is_cons current then
      do! (hd, tl) := load_cons m (get_cons_ptr current) in last_from m k tl hd
    else Ret last_elem
  end.
Definition NfListsLast1 : NativeFn := fun args s => arg_cons args 0 s (fun l =>
  do! x := last_from (mem s) fuel l nil in answer x s).

(** * [lists/key_ops.rs]: the position counts from zero, and the cell found is answered as if
    it were a box *)
Definition key_matches (m : Memory) (sample : Term) (pos : Z) (elem : Term) : vm bool :=
  do! is_t := is_tuple m elem in
  if negb is_t then Ret false else
  do! o := read (boxes m !! get_box_ptr_unchecked elem) in
  match o with
  | OTuple els =>
    if Z.of_nat (length els) <=? pos then Ret false else
    do! x := read (els !! Z.to_nat pos) in same_term m sample x
  | _ => Wild
  end.
Definition keyfind_3 (sample : Term) (pos : Z) (lst : Term) (s : Machine) : native_result :=
  do! r := search (mem s) (key_matches (mem s) sample pos) lst in
  match r with
  | Some p => do! x := unwrap (make_boxed p) in answer x s
  | None => answer FALSE s
  end.
Definition NfListsKeyfind3 : NativeFn := fun args s =>
  do! key := arg args 0 in arg_usize args 1 s (fun pos => arg_list args 2 s (fun l => keyfind_3 key pos l s)).

(** * [erlang/type_conversions.rs] *)

(** The code points of UTF-8 bytes, as [char_indices] gives them. *)
Fixpoint code_points (n : nat) (bs : list Z) : list Z :=
  match n, bs with
  | S n, b :: t =>
    if b <=? 127 then b :: code_points n t
    else if b <=? 223 then
      match t with c :: t => Z.lor (Z.shiftl (Z.land b 31) 6) (Z.land c 63) :: code_points n t | _ => [] end
    else if b <=? 239 then
      match t with
      | c :: d :: t => Z.lor (Z.lor (Z.shiftl (Z.land b 15) 12) (Z.shiftl (Z.land c 63) 6)) (Z.land d 63) :: code_points n t
      | _ => []
      end
    else
      match t with
      | c :: d :: e :: t =>
        Z.lor (Z.lor (Z.lor (Z.shiftl (Z.land b 7) 18) (Z.shiftl (Z.land c 63) 12)) (Z.shiftl (Z.land d 63) 6)) (Z.land e 63)
          :: code_points n t
      | _ => []
      end
  | _, _ => []
  end.
Definition chars (text : string) : list Z := code_points (String.length text) (str_bytes text).

Definition rust_str_to_list (text : string) (s : Machine) : vm (Term * Machine) :=
  do! (lb, s) := append_all new_builder (make_small_unsigned <$> chars text) s in Ret (make_term lb, s).

Definition NfErlangA2List2 : NativeFn := fun args s => arg_atom args 0 s (fun a =>
  do! atom_p := lookup atoms a in
  match atom_p with None => badarg s | Some p => answers (rust_str_to_list (name p) s) end).

Definition NfErlangInt2List2 : NativeFn := fun args s =>
  do! val := arg args 0 in
  do! is_i := is_integer (mem s) val in
  if negb is_i then badarg s else answers (integer_to_list 20 val s).

(** The walk of an iolist, with a fuel for each nested list. *)
Fixpoint get_iolist_size (m : Memory) (n : nat) (lst : Term) : vm Z :=
  match n with
  | O => Spin
  | S n =>
    do! (_, size) := for_each m (fun elem result =>
      if is_small elem then Ret (result + 1)
      else if bool_decide (elem = empty_binary) then Ret result
      else do! is_b := is_binary m elem in
      if (is_b : bool) then do! bits := term_bits m elem in Ret (result + (bits + 7) / 8)
      else if is_cons elem then do! k := get_iolist_size m n elem in Ret (result + k)
      else Ret result) fuel lst 0 in
    Ret size
  end.

(** The bytes that are written, after those written before. *)
Fixpoint list_to_binary_1_recursive (m : Memory) (n : nat) (lst : Term) (written : list Z) : vm (list Z) :=
  match n with
  | O => Spin
  | S n =>
    do! (_, written) := for_each m (fun elem written =>
      if is_small elem then Ret (written ++ [get_small_unsigned elem mod 256])
      else if bool_decide (elem = empty_binary) then Ret written
      else do! is_b := is_binary m elem in
      if (is_b : bool) then
        do! bits := term_bits m elem in
        if negb (bits mod 8 =? 0) then Fail (Exception ExcError BADARG) else
        do! bytes := whole_bytes m elem bits in Ret (written ++ bytes)
      else if is_cons elem then list_to_binary_1_recursive m n elem written
      else Fail (Exception ExcError BADARG)) fuel lst written in
    Ret written
  end.

(** [BinaryBuilder]: the binary is allocated first; nothing refers to it until it is written. *)
Definition list_to_binary_1 (lst : Term) (s : Machine) : native_result :=
  do! size := get_iolist_size (mem s) fuel lst in
  if size =? 0 then answer empty_binary s else
  if negb (size <=? ONHEAP_THRESHOLD) then Panic else
  do! (p, s) := alloc_words s (ProcessHeapBinary_storage_size (size * 8)) in
  attempt s (list_to_binary_1_recursive (mem s) fuel lst []) (fun written =>
  do! x := unwrap (make_boxed p) in answer x (put_box s p (OBinary (size * 8) written))).
Definition NfErlangL2b1 : NativeFn := fun args s => arg_list args 0 s (fun l => list_to_binary_1 l s).

Definition binary_to_list_1 (bin : Term) (s : Machine) : native_result :=
  if bool_decide (bin = empty_binary) then answer nil s else
  do! bits := term_bits (mem s) bin in
  if negb (bits mod 8 =? 0) then badarg s
  else if bits / 8 =? 0 then answer nil s else
  do! bytes := whole_bytes (mem s) bin bits in
  do! (lb, s) := append_all new_builder (make_small_unsigned <$> bytes) s in
  answer (make_term lb) s.
Definition NfErlangB2l1 : NativeFn := fun args s => arg_binary args 0 s (fun b => binary_to_list_1 b s).

Definition nativefun_atom_to_binary_1 : NativeFn := fun args s => arg_atom args 0 s (fun a =>
  do! atom_p := lookup atoms a in
  match atom_p with
  | None => badarg s
  | Some p => match str_bytes (name p) with [] => answer empty_binary s | bytes => answers (create_with_data bytes s) end
  end).

(** The atom table is interned into. *)
Definition nativefun_binary_to_atom_1 (args : list Term) (s : Machine) : vm (NativeResult * Machine * AtomStorage) :=
  do! bin := arg args 0 in
  let intern_text text := do! (x, atoms) := unwrap (from_str atoms text) in Ret (Value x, s, atoms) in
  let refuse := Ret (Thrown ExcError BADARG, s, atoms) in
  if bool_decide (bin = empty_binary) then intern_text EmptyString else
  do! is_b := is_binary (mem s) bin in
  if negb is_b then refuse else
  do! bits := term_bits (mem s) bin in
  if negb (bits mod 8 =? 0) then refuse else
  do! buf := whole_bytes (mem s) bin bits in
  if utf8_valid buf then intern_text (bytes_str buf) else refuse.
End Lists.
