(* ===== verification/BeamListFacts.v ===== *)
(** What the native functions on lists compute: the functions on the lists of elements that
    the cells hold, whatever the elements are, in newly allocated cells. *)
From S2P Require Import Prelude Float64 BeamTerm BeamMem BeamBinary BeamCompare BeamHeap BeamProc BeamOps BeamFacts BeamCopy BeamReader BeamEtf BeamNative BeamListFuns.

(** * Lists of terms

    The cells from a term on hold the elements, and then comes the tail. *)
Inductive list_at (m : Memory) : Term -> list Term -> Term -> Prop :=
| at_tail tl : list_at m tl [] tl
| at_cell p hd t els tl : 0 < p < 2 ^ 63 -> p mod 8 = 0 -> conses m !! p = Some (hd, t) -> list_at m t els tl ->
    list_at m (make_cons p) (hd :: els) tl.

Lemma list_at_mono m m' x els tl : within m m' -> list_at m x els tl -> list_at m' x els tl.
Proof. intros [_ W] H. induction H; econstructor; eauto. Qed.

Lemma list_at_app m x els y ys tl : list_at m x els y -> list_at m y ys tl -> list_at m x (els ++ ys) tl.
Proof. intros H Hy. induction H; cbn; [done|]. econstructor; eauto. Qed.

Lemma make_cons_reads p : 0 < p < 2 ^ 63 -> p mod 8 = 0 ->
  is_cons (make_cons p) = true /\ get_cons_ptr (make_cons p) = p /\ make_cons p <> nil.
Proof.
  intros Hp Ha. destruct (cons_reads p) as (V & T & G & _); [lia | done|]. unfold is_cons. rewrite T. split_and!; [done | done|].
  intros E. rewrite E in T. by vm_compute in T.
Qed.

Lemma list_at_cons m x e els tl : list_at m x (e :: els) tl ->
  exists p t, x = make_cons p /\ 0 < p < 2 ^ 63 /\ p mod 8 = 0 /\ conses m !! p = Some (e, t) /\ list_at m t els tl /\
    is_cons x = true /\ get_cons_ptr x = p /\ bool_decide (x = nil) = false.
Proof.
  intros H. inversion H as [|p hd t els' tl' Hp Ha Hc Ht]; subst. destruct (make_cons_reads p Hp Ha) as (C & G & N).
  exists p, t. split_and!; try done; try lia. by apply bool_decide_eq_false_2.
Qed.

(** A proper list, or one with a tail that is no cell, is walked to its end. *)
Fixpoint fold_vm {S} (f : Term -> S -> vm S) (els : list Term) (s : S) : vm S :=
  match els with [] => Ret s | x :: els => do! s := f x s in fold_vm f els s end.

Lemma for_each_from_at {S} m (f : Term -> S -> vm S) e els tl : is_cons tl = false ->
  forall fuel x s, list_at m x (e :: els) tl -> (length els < fuel)%nat ->
  for_each_from m f fuel (get_cons_ptr x) s = do! s := fold_vm f (e :: els) s in Ret (tl, s).
Proof.
  intros Htl. revert e. induction els as [|e2 els IH]; intros e fuel x s H Hf; (destruct fuel as [|fuel]; [cbn in Hf; lia|]);
    apply list_at_cons in H as (p & t & -> & Hp & Ha & Hc & Ht & _ & -> & _); cbn [for_each_from fold_vm]; unfold load_cons; rewrite Hc; cbn [read vm_bind];
    (destruct (f e s) as [s'| | | |]; cbn [vm_bind]; [|done..]).
  - inversion Ht; subst. by rewrite Htl.
  - pose proof (list_at_cons _ _ _ _ _ Ht) as (q & t' & _ & _ & _ & _ & _ & -> & _ & _).
    rewrite (IH e2 fuel t s' Ht) by (cbn in Hf; lia). done.
Qed.

Lemma for_each_at {S} m (f : Term -> S -> vm S) e els tl fuel x s : is_cons tl = false ->
  list_at m x (e :: els) tl -> (length els < fuel)%nat ->
  for_each m f fuel x s = do! s := fold_vm f (e :: els) s in Ret (Some tl, s).
Proof.
  intros Htl H Hf. unfold for_each. destruct (list_at_cons _ _ _ _ _ H) as (p & t & Ex & Hp & Ha & Hc & Ht & _ & _ & ->).
  rewrite (for_each_from_at m f e els tl Htl fuel x s H Hf). by destruct (fold_vm f (e :: els) s).
Qed.

Lemma fold_collect els : forall acc, fold_vm (fun x acc => Ret (acc ++ [x])) els acc = Ret (acc ++ els).
Proof.
  induction els as [|x els IH]; intros acc; cbn [fold_vm vm_bind]; [by rewrite app_nil_r|]. rewrite IH. by rewrite <- app_assoc.
Qed.

Lemma collect_at m fuel x els tl : list_at m x els tl -> is_cons tl = false -> (els = [] -> tl = nil) -> (length els <= fuel)%nat ->
  collect m fuel x = Ret els.
Proof.
  intros H Htl Hn Hf. unfold collect. destruct els as [|e els].
  - inversion H; subst. rewrite Hn by done. reflexivity.
  - rewrite (for_each_at m _ e els tl) by (done || cbn in *; lia). rewrite fold_collect. done.
Qed.

Lemma length_from_at m e els : forall fuel x count, list_at m x (e :: els) nil -> (length els < fuel)%nat ->
  length_from m fuel (get_cons_ptr x) count = Ret (count + Z.of_nat (length els)).
Proof.
  revert e. induction els as [|e2 els IH]; intros e fuel x count H Hf; (destruct fuel as [|fuel]; [cbn in Hf; lia|]);
    apply list_at_cons in H as (p & t & -> & Hp & Ha & Hc & Ht & _ & -> & _); cbn [length_from]; unfold load_cons; rewrite Hc; cbn [read vm_bind].
  - inversion Ht; subst. change (is_cons nil) with false. cbn [length]. rewrite Z.add_0_r. by rewrite bool_decide_eq_true_2.
  - pose proof (list_at_cons _ _ _ _ _ Ht) as (q & t' & _ & _ & _ & _ & _ & -> & _ & _).
    rewrite (IH e2 fuel t _ Ht) by (cbn in Hf; lia). f_equal. cbn [length]. lia.
Qed.

Lemma list_length_at m fuel x els : list_at m x els nil -> (length els <= fuel)%nat ->
  list_length m fuel x = Ret (Z.of_nat (length els)).
Proof.
  intros H Hf. unfold list_length. destruct els as [|e els]; [inversion H; subst; by rewrite bool_decide_eq_true_2|].
  destruct (list_at_cons _ _ _ _ _ H) as (p & t & _ & _ & _ & _ & _ & _ & _ & ->). rewrite (length_from_at m e els) by (done || cbn in *; lia).
  f_equal. cbn [length]. lia.
Qed.

(** * Building lists *)

(** Where the next cell comes. *)
Lemma next_cell s n : ready_heap s n -> 0 <= n -> 0 < next s < 2 ^ 63 /\ next s mod 8 = 0 /\ ~ built s (next s).
Proof.
  intros (O & B & R) Hn. assert (room s 0) as R0 by (unfold room in *; lia).
  destruct (next_aligned s B O R0) as [? ?]. split_and!; try done; try lia. by apply next_new.
Qed.

Lemma put_same s p hd tl : conses (mem s) !! p = Some (hd, tl) -> put_cons_cell s p hd tl = s.
Proof. intros E. destruct s as [[bx cs] pr]. unfold put_cons_cell. cbn in *. by rewrite insert_id. Qed.

Lemma put_cell_copied n t s s' p hd tl : copied n t s s' -> (built s p -> t = Some p) -> copied n t s (put_cons_cell s' p hd tl).
Proof. apply (copied_put n t s s' p None (Some (hd, tl))). Qed.

(** Appending to a builder whose last cell is complete: the cells that follow it, for any tail
    that ends them. *)
Lemma append_rest els : forall lb e s, ready_heap s (2 * Z.of_nat (length els)) -> head_p lb <> 0 ->
  built s (tail_p lb) -> conses (mem s) !! tail_p lb = Some (e, nil) ->
  exists lb' s1 e', append_all lb els s = Ret (lb', s1) /\ head_p lb' = head_p lb /\ conses (mem s1) !! tail_p lb' = Some (e', nil) /\
    forall t, let s2 := put_cons_cell s1 (tail_p lb') e' t in
      copied (2 * Z.of_nat (length els)) (Some (tail_p lb)) s s2 /\
      exists t', conses (mem s2) !! tail_p lb = Some (e, t') /\ list_at (fresh s s2) t' els t.
Proof.
  induction els as [|y els IH]; intros lb e s Rd Hh Hb He; cbn [append_all].
  - exists lb, s, e. split_and!; try done. intros t. split.
    + apply put_cell_copied; [|done]. apply copied_weaken, copied_refl, Rd.
    + exists t. split; [apply lookup_insert_eq | constructor].
  - replace (2 * Z.of_nat (length (y :: els))) with (2 + 2 * Z.of_nat (length els)) in * by (cbn [length]; lia).
    destruct (next_cell s _ Rd ltac:(lia)) as (Hn1 & Hn2 & Hn3). destruct Rd as (O & B & R).
    destruct (append_more lb y e s O) as (s' & E & K & E1 & E2); [unfold room in *; lia | done..|]. rewrite E. cbn [vm_bind].
    pose proof (ready_heap_after 2 (2 * Z.of_nat (length els)) _ _ _ (conj O (conj B R)) K) as Rd'.
    assert (built s' (next s)) as Hbn by (eapply built_grown; [exact K | done | lia | unfold room in *; lia]).
    destruct (IH {| head_p := head_p lb; tail_p := next s |} y s' Rd') as (lb' & s1 & e' & E' & H1 & H2 & H3); [done..|].
    exists lb', s1, e'. split_and!; try done. intros t. set (s2 := put_cons_cell s1 (tail_p lb') e' t). destruct (H3 t) as (K2 & t' & Ht' & Hl). fold s2 in K2, Ht', Hl. cbn [tail_p] in *.
    assert (copied (2 + 2 * Z.of_nat (length els)) (Some (tail_p lb)) s s2) as K3.
    { eapply copied_trans; [exact K | exact K2 | lia |]. intros p [= <-] ?. done. }
    split; [done|]. exists (make_cons (next s)). split.
    + destruct (copied_terms _ _ _ _ K2 (tail_p lb)) as [_ ->]; [eapply copied_built; [exact K | lia | done] | | exact E1].
      intros [= Eq]. by rewrite Eq in Hb.
    + apply (at_cell _ (next s) y t'); [done | done | |].
      * apply restrict_cons. split_and!; [done | done |]. eapply copied_built; [exact K2 | lia | done].
      * eapply list_at_mono; [|exact Hl]. eapply fresh_later; [exact K | lia].
Qed.

(** Appending to an empty builder. *)
Lemma append_all_ok els s : els <> [] -> ready_heap s (2 * Z.of_nat (length els)) ->
  exists lb s1 e, append_all new_builder els s = Ret (lb, s1) /\ head_p lb <> 0 /\ conses (mem s1) !! tail_p lb = Some (e, nil) /\
    forall t, let s2 := put_cons_cell s1 (tail_p lb) e t in
      copied (2 * Z.of_nat (length els)) None s s2 /\ list_at (fresh s s2) (make_term lb) els t.
Proof.
  intros Hne Rd. destruct els as [|y els]; [done|]. cbn [append_all].
  replace (2 * Z.of_nat (length (y :: els))) with (2 + 2 * Z.of_nat (length els)) in * by (cbn [length]; lia).
  destruct (next_cell s _ Rd ltac:(lia)) as (Hn1 & Hn2 & Hn3). destruct Rd as (O & B & R).
  destruct (append_first new_builder y s O) as (s' & E & K & E1); [unfold room in *; lia | apply B | done |]. rewrite E. cbn [vm_bind].
  pose proof (ready_heap_after 2 (2 * Z.of_nat (length els)) _ _ _ (conj O (conj B R)) K) as Rd'.
  assert (built s' (next s)) as Hbn by (eapply built_grown; [exact K | done | lia | unfold room in *; lia]).
  destruct (append_rest els {| head_p := next s; tail_p := next s |} y s' Rd') as (lb' & s1 & e' & E' & H1 & H2 & H3); cbn [head_p tail_p] in *; [lia | done | done |].
  exists lb', s1, e'. split_and!; [done | lia | done |]. intros t. set (s2 := put_cons_cell s1 (tail_p lb') e' t). destruct (H3 t) as (K2 & t' & Ht' & Hl). fold s2 in K2, Ht', Hl.
  split.
  - eapply copied_trans; [exact K | exact K2 | lia |]. intros p [= <-] ?. done.
  - unfold make_term. rewrite H1. apply (at_cell _ (next s) y t'); [done | done | |].
    + apply restrict_cons. split_and!; [done | done |]. eapply copied_built; [exact K2 | lia | done].
    + eapply list_at_mono; [|exact Hl]. eapply fresh_later; [exact K | lia].
Qed.

(** The list that an answer is: its cells are new, and the terms there were are left. *)
Definition answers_list (r : native_result) (s : Machine) (els : list Term) (tl : Term) : Prop :=
  exists x s', r = Ret (Value x, s') /\ list_at (fresh s s') x els tl /\ machine_ok s' /\ same_terms s s' /\
    heap_top (hp s') = heap_top (hp s) + 2 * Z.of_nat (length els).

Lemma answers_copied x s s' els tl : copied (2 * Z.of_nat (length els)) None s s' -> list_at (fresh s s') x els tl ->
  answers_list (answer x s') s els tl.
Proof.
  intros K H. exists x, s'. split_and!; try done; [apply K | | apply K]. intros p Hp. by apply (copied_terms _ _ _ _ K).
Qed.

Lemma append_answers els s : els <> [] -> ready_heap s (2 * Z.of_nat (length els)) ->
  answers_list (do! (lb, s) := append_all new_builder els s in answer (make_term lb) s) s els nil.
Proof.
  intros Hne Rd. destruct (append_all_ok els s Hne Rd) as (lb & s1 & e & -> & Hh & He & H). cbn [vm_bind].
  destruct (H nil) as [K L]. rewrite (put_same s1 _ _ _ He) in K, L. by apply answers_copied.
Qed.

Lemma fold_append els : forall lb s, fold_vm (fun elem '(lb, s) => append lb elem s) els (lb, s) = append_all lb els s.
Proof.
  induction els as [|x els IH]; intros lb s; cbn [fold_vm append_all]; [done|].
  destruct (append lb x s) as [[lb' s']| | | |]; cbn [vm_bind]; auto.
Qed.

(** The elements and the end of a list that is walked: the empty list, or one whose tail is
    not a cell. *)
Definition walked (m : Memory) (fuel : nat) (x : Term) (els : list Term) : Prop :=
  exists tl, list_at m x els tl /\ is_cons tl = false /\ (els = [] -> tl = nil) /\ (length els <= fuel)%nat.

Lemma walked_nil m fuel x : walked m fuel x [] -> x = nil.
Proof. intros (tl & H & _ & N & _). inversion H; subst. auto. Qed.

Lemma walked_each {S} m fuel x e els (f : Term -> S -> vm S) s : walked m fuel x (e :: els) ->
  exists tl, for_each m f fuel x s = (do! s := fold_vm f (e :: els) s in Ret (Some tl, s)) /\ bool_decide (x = nil) = false.
Proof.
  intros (tl & H & C & _ & F). exists tl. split; [apply (for_each_at m f e els tl); done || cbn in F; lia|].
  by destruct (list_at_cons _ _ _ _ _ H) as (p & t & _ & _ & _ & _ & _ & _ & _ & ->).
Qed.

Lemma put_put s p hd tl tl' : put_cons_cell (put_cons_cell s p hd tl) p hd tl' = put_cons_cell s p hd tl'.
Proof. unfold put_cons_cell. cbn. by rewrite insert_insert_eq. Qed.

Lemma plusplus_ok fuel a b xs s : walked (mem s) fuel a xs -> ready_heap s (2 * Z.of_nat (length xs)) ->
  answers_list (plusplus_2 fuel a b s) s xs b.
Proof.
  intros W Rd. unfold plusplus_2. destruct xs as [|x xs].
  - rewrite (walked_nil _ _ _ W), bool_decide_eq_true_2 by done. apply answers_copied; [apply copied_refl, Rd | constructor].
  - destruct (walked_each (mem s) fuel a x xs (fun elem '(lb, s) => append lb elem s) (new_builder, s) W) as (tl & E & ->).
    unfold copy_list_leave_tail. rewrite E, fold_append.
    destruct (append_all_ok (x :: xs) s ltac:(done) Rd) as (lb & s1 & e & -> & Hh & He & H). cbn [vm_bind].
    unfold make_term_with_tail. rewrite (proj2 (Z.eqb_neq _ _) Hh). unfold set_tl, load_cons. rewrite He. cbn [read vm_bind].
    unfold put_cons_cell at 1. cbn [mem conses]. rewrite lookup_insert_eq. cbn [read vm_bind]. rewrite put_put.
    destruct (H b) as [K L]. by apply answers_copied.
Qed.

Lemma prepend_more lb y s : ready_heap s 2 -> head_p lb <> 0 ->
  exists s', prepend lb y s = Ret ({| head_p := next s; tail_p := tail_p lb |}, s') /\ copied 2 None s s' /\
    conses (mem s') !! next s = Some (y, make_term lb).
Proof.
  intros Rd Hh. destruct (next_cell s _ Rd ltac:(lia)) as (Hn1 & Hn2 & Hn3). destruct Rd as (O & B & R).
  destruct (make_cell_copied s O R) as (s1 & E & K & M). unfold prepend. rewrite E. cbn [vm_bind].
  assert (conses (mem s1) !! next s = Some (nil, nil)) as Ec by (rewrite M; apply lookup_insert_eq).
  rewrite (proj2 (Z.eqb_neq _ _) Hh). unfold set_tl, set_hd, load_cons. rewrite Ec. cbn [read vm_bind].
  unfold put_cons_cell at 1. cbn [mem conses]. rewrite lookup_insert_eq. cbn [read vm_bind].
  eexists. split; [reflexivity|]. split; [|apply lookup_insert_eq].
  apply put_cell_copied; [apply put_cell_copied; done | done].
Qed.

Lemma prepend_rest els : forall lb s, ready_heap s (2 * Z.of_nat (length els)) -> head_p lb <> 0 ->
  exists lb' s', fold_vm (fun elem '(lb, s) => prepend lb elem s) els (lb, s) = Ret (lb', s') /\ tail_p lb' = tail_p lb /\
    head_p lb' <> 0 /\ copied (2 * Z.of_nat (length els)) None s s' /\ list_at (fresh s s') (make_term lb') (rev els) (make_term lb).
Proof.
  induction els as [|y els IH]; intros lb s Rd Hh; cbn [fold_vm].
  - exists lb, s. split_and!; try done; [apply copied_refl, Rd | constructor].
  - replace (2 * Z.of_nat (length (y :: els))) with (2 + 2 * Z.of_nat (length els)) in * by (cbn [length]; lia).
    destruct (next_cell s _ Rd ltac:(lia)) as (Hn1 & Hn2 & Hn3).
    destruct (prepend_more lb y s) as (s1 & -> & K & Ec); [by eapply ready_heap_less; [exact Rd | lia] | done |]. cbn [vm_bind].
    destruct (IH {| head_p := next s; tail_p := tail_p lb |} s1) as (lb' & s' & E' & Ht & Hh' & K' & L); [by eapply ready_heap_after | cbn; lia |].
    assert (built s1 (next s)) as Hb by (eapply built_grown; [exact K | apply Rd | lia |]; destruct Rd as (_ & _ & R); unfold room in *; lia).
    exists lb', s'. split_and!; [done | done | done | |].
    + eapply copied_trans; [exact K | exact K' | lia | done].
    + cbn [rev]. eapply list_at_app; [eapply list_at_mono; [|exact L]; eapply fresh_later; [exact K | lia]|].
      unfold make_term at 1. cbn [head_p]. apply (at_cell _ (next s) y (make_term lb)); [done | done | | constructor].
      apply restrict_cons. split_and!; [| done | eapply copied_built; [exact K' | lia | done]].
      destruct (copied_terms _ _ _ _ K' (next s) Hb) as [_ ->]; done.
Qed.

Lemma reverse_ok fuel a tail xs s : walked (mem s) fuel a xs -> ready_heap s (2 * Z.of_nat (length xs)) ->
  answers_list (reverse_2 fuel a tail s) s (rev xs) tail.
Proof.
  intros W Rd. unfold reverse_2. destruct xs as [|x xs].
  { rewrite (walked_nil _ _ _ W), bool_decide_eq_true_2 by done. apply answers_copied; [apply copied_refl, Rd | constructor]. }
  destruct (walked_each (mem s) fuel a x xs (fun elem '(lb, s) => prepend lb elem s) (new_builder, s) W) as (tl & -> & ->).
  replace (2 * Z.of_nat (length (x :: xs))) with (2 + 2 * Z.of_nat (length xs)) in * by (cbn [length]; lia).
  destruct (next_cell s _ Rd ltac:(lia)) as (Hn1 & Hn2 & Hn3). destruct Rd as (O & B & R).
  cbn [fold_vm]. change (prepend new_builder x s) with (append new_builder x s).
  destruct (append_first new_builder x s O) as (s1 & -> & K & Ec); [unfold room in *; lia | apply B | done |]. cbn [vm_bind].
  destruct (prepend_rest xs {| head_p := next s; tail_p := next s |} s1) as (lb & s2 & -> & Ht & Hh & K2 & L);
    [by eapply (ready_heap_after 2); [split_and!|] | cbn; lia |].
  cbn [vm_bind]. unfold make_term_with_tail. rewrite (proj2 (Z.eqb_neq _ _) Hh). unfold set_tl, load_cons. cbn [tail_p] in Ht. rewrite Ht.
  assert (built s1 (next s)) as Hb by (eapply built_grown; [exact K | done | lia | unfold room in *; lia]).
  destruct (copied_terms _ _ _ _ K2 (next s) Hb) as [_ ->]; [done|]. rewrite Ec. cbn [read vm_bind answers].
  assert (copied (2 + 2 * Z.of_nat (length xs)) None s s2) as K3 by (by eapply copied_trans; [exact K | exact K2 | lia |]).
  assert (copied (2 + 2 * Z.of_nat (length xs)) None s (put_cons_cell s2 (next s) x tail)) as K4 by (by apply put_cell_copied).
  apply answers_copied; [by replace (2 * Z.of_nat (length (rev (x :: xs)))) with (2 + 2 * Z.of_nat (length xs)) by (rewrite length_rev; cbn [length]; lia)|].
  cbn [rev]. eapply list_at_app; [eapply list_at_mono; [|exact L]|].
  - split; intros p o Hp.
    + apply restrict_box in Hp as (Hp & Hn & Hb2). apply restrict_box. split_and!; [done | | done].
      intros Hs. apply Hn. by eapply copied_built; [exact K | lia |].
    + apply restrict_cons in Hp as (Hp & Hn & Hb2). apply restrict_cons. split_and!; [| | done].
      * cbn. rewrite lookup_insert_ne; [done|]. by intros <-.
      * intros Hs. apply Hn. by eapply copied_built; [exact K | lia |].
  - unfold make_term. cbn [head_p]. apply (at_cell _ (next s) x tail); [done | done | | constructor].
    apply restrict_cons. split_and!; [apply lookup_insert_eq | done | exact (copied_built _ _ _ _ _ K2 ltac:(lia) Hb)].
Qed.

(** * Flattening *)

Lemma append_all_app xs ys : forall lb s,
  append_all lb (xs ++ ys) s = do! (lb, s) := append_all lb xs s in append_all lb ys s.
Proof.
  induction xs as [|x xs IH]; intros lb s; cbn [app append_all]; [done|].
  destruct (append lb x s) as [[lb' s']| | | |]; cbn [vm_bind]; auto.
Qed.

(** A nested list, the elements that are no lists in it, in order, and its depth and length. *)
Inductive deep_at (m : Memory) : Term -> list Term -> nat -> Prop :=
| deep_nil : deep_at m nil [] 1
| deep_elem p hd t els n : 0 < p < 2 ^ 63 -> p mod 8 = 0 -> conses m !! p = Some (hd, t) -> is_list hd = false ->
    deep_at m t els n -> deep_at m (make_cons p) (hd :: els) (S n)
| deep_list p hd t xs els k n : 0 < p < 2 ^ 63 -> p mod 8 = 0 -> conses m !! p = Some (hd, t) -> is_list hd = true ->
    deep_at m hd xs k -> deep_at m t els n -> deep_at m (make_cons p) (xs ++ els) (S (Nat.max k n)).

Lemma flatten_cells_ok m x els n : deep_at m x els n -> forall fuel lb s, (n <= fuel)%nat ->
  flatten_cells m fuel lb x s = append_all lb els s.
Proof.
  induction 1 as [|p hd t els n Hp Ha Hc Hl _ IH|p hd t xs els k n Hp Ha Hc Hl _ IH1 _ IH2]; intros fuel lb s Hf;
    (destruct fuel as [|fuel]; [lia|]); cbn [flatten_cells].
  - change (is_cons nil) with false. by rewrite bool_decide_eq_true_2.
  - destruct (make_cons_reads p Hp Ha) as (-> & -> & _). unfold load_cons. rewrite Hc. cbn [read vm_bind append_all]. rewrite Hl.
    destruct (append lb hd s) as [[lb' s']| | | |]; cbn [vm_bind]; try done. apply IH. lia.
  - destruct (make_cons_reads p Hp Ha) as (-> & -> & _). unfold load_cons. rewrite Hc. cbn [read vm_bind]. rewrite Hl.
    rewrite IH1, append_all_app by lia. destruct (append_all lb xs s) as [[lb' s']| | | |]; cbn [vm_bind]; try done. apply IH2. lia.
Qed.

Lemma flatten_ok fuel x els n s : deep_at (mem s) x els n -> (n <= fuel)%nat -> ready_heap s (2 * Z.of_nat (length els)) ->
  answers_list (flatten_1 fuel x s) s els nil.
Proof.
  intros D Hf Rd. unfold flatten_1. case_bool_decide as Ex.
  { assert (els = []) as ->; [|apply answers_copied; [apply copied_refl, Rd | constructor]].
    inversion D as [|p hd t els' n' Hp Ha|p hd t xs els' k n' Hp Ha]; subst; [done | |];
      by destruct (make_cons_reads p Hp Ha) as (_ & _ & []). }
  rewrite (flatten_cells_ok _ _ _ _ D) by done. destruct els as [|e els].
  - cbn [append_all vm_bind]. change (head_p new_builder =? 0) with true. apply answers_copied; [apply copied_refl, Rd | constructor].
  - destruct (append_all_ok (e :: els) s ltac:(done) Rd) as (lb & s1 & e' & E & Hh & He & H). rewrite E. cbn [vm_bind].
    rewrite (proj2 (Z.eqb_neq _ _) Hh). destruct (H nil) as [K L]. rewrite (put_same s1 _ _ _ He) in K, L. by apply answers_copied.
Qed.

(** * Sorting *)

Lemma compare_anti (a b : Z) : Z.compare b a = CompOpp (Z.compare a b).
Proof. apply Z.compare_antisym. Qed.

Lemma lex_anti {A} (cmp : A -> A -> comparison) xs : Forall (fun x => forall y, cmp y x = CompOpp (cmp x y)) xs ->
  forall ys, lex cmp ys xs = CompOpp (lex cmp xs ys).
Proof.
  induction 1 as [|x xs Hx _ IH]; intros [|y ys]; cbn [lex]; try done. rewrite Hx. destruct (cmp x y); cbn; auto.
Qed.

Lemma bytes_cmp_anti xs : forall ys, bytes_cmp ys xs = CompOpp (bytes_cmp xs ys).
Proof.
  induction xs as [|x xs IH]; intros [|y ys]; cbn [bytes_cmp]; try done. unfold byte_cmp. rewrite (compare_anti x y).
  destruct (Z.compare x y); cbn; auto.
Qed.

Lemma erl_cmp_anti v : forall w, erl_cmp w v = CompOpp (erl_cmp v w).
Proof.
  induction v as [n|s|i|l IH|l IH|b xs] using val_ind'; intros [k|t|j|k|k|c ys]; cbn [erl_cmp]; try apply compare_anti; try done.
  - apply bytes_cmp_anti.
  - rewrite (compare_anti (Z.of_nat (length l))). destruct (Z.compare _ _); cbn; try done. by apply lex_anti.
  - by apply lex_anti.
  - rewrite (bytes_cmp_anti xs ys). destruct (bytes_cmp xs ys); cbn; try done. apply compare_anti.
Qed.

Section Sort.
Context (m : Memory) (atoms : AtomStorage) (fuel : nat) (D : Term -> Prop) (c : Term -> Term -> comparison).
Context (Hcmp : forall a b, D a -> D b -> cmp_terms m atoms fuel a b true = Ret (c a b)).
Context (Hanti : forall a b, D a -> D b -> c b a = CompOpp (c a b)).

Definition le_term (a b : Term) : Prop := c a b <> Gt.

Lemma insert_back_ok x : D x -> forall back, Forall D back -> Sorted (flip le_term) back ->
  exists r, insert_back atoms fuel m x back false = Ret (r, false) /\ x :: back ≡ₚ r /\ Sorted (flip le_term) r /\
    (forall y, D y -> HdRel (flip le_term) y back -> c x y <> Gt -> HdRel (flip le_term) y r).
Proof.
  intros Hx. induction back as [|y back IH]; intros HD HS; cbn [insert_back].
  { exists [x]. split_and!; [done | done | by repeat constructor | intros y _ _ H; by constructor]. }
  apply Forall_cons in HD as [Hy HD]. apply Sorted_inv in HS as [HS Hh]. unfold sort_cmp. rewrite Hcmp by done. cbn [vm_bind].
  assert (c x y <> Lt -> Sorted (flip le_term) (x :: y :: back)) as Hn.
  { intros Hne. constructor; [by constructor|]. constructor. unfold flip, le_term. rewrite Hanti by done. by destruct (c x y). }
  destruct (c x y) eqn:E.
  - exists (x :: y :: back). split_and!; [done | done | by apply Hn | intros z _ _ Hz; by constructor].
  - destruct (IH HD HS) as (r & -> & Hp & Hr & Hrel). cbn [vm_bind]. exists (y :: r). split_and!; [done | | |].
    + rewrite <- Hp. apply Permutation_swap.
    + constructor; [done|]. apply Hrel; [done | done | by rewrite E].
    + intros z _ Hz _. inversion Hz; subst. by constructor.
  - exists (x :: y :: back). split_and!; [done | done | by apply Hn | intros z _ _ Hz; by constructor].
Qed.

Lemma Sorted_snoc (R : Term -> Term -> Prop) l x : Sorted R l -> (forall y, last l = Some y -> R y x) -> Sorted R (l ++ [x]).
Proof.
  induction 1 as [|y l HS IH Hh]; intros Hl; cbn [app]; [by repeat constructor|]. constructor.
  - apply IH. intros z Hz. apply Hl. by destruct l.
  - destruct l as [|z l]; cbn; constructor; [by apply Hl | by inversion Hh].
Qed.

Lemma Sorted_rev (R : Term -> Term -> Prop) l : Sorted (flip R) l -> Sorted R (rev l).
Proof.
  induction 1 as [|x l HS IH Hh]; cbn [rev]; [constructor|]. apply Sorted_snoc; [done|].
  intros y. destruct l as [|z l]; cbn [rev]; [done|]. rewrite last_snoc. intros [= <-]. by inversion Hh.
Qed.

Lemma sort_onto_ok els : Forall D els -> forall back, Forall D back -> Sorted (flip le_term) back ->
  exists r, sort_onto atoms fuel m back els false = Ret (r, false) /\ els ++ back ≡ₚ r /\ Sorted (flip le_term) r.
Proof.
  induction 1 as [|x els Hx _ IH]; intros back HD HS; cbn [sort_onto app]; [by exists back|].
  destruct (insert_back_ok x Hx back HD HS) as (r & -> & Hp & Hr & _). cbn [vm_bind].
  destruct (IH r) as (r' & E & Hp' & Hr'); [by rewrite <- Hp; constructor | done|].
  exists r'. split_and!; [done | | done]. rewrite <- Hp', <- Hp. apply Permutation_middle.
Qed.

Lemma sort_by_ok els : Forall D els ->
  exists r, sort_by atoms fuel m els = Ret (r, false) /\ els ≡ₚ r /\ Sorted le_term r.
Proof.
  intros HD. unfold sort_by. destruct (sort_onto_ok els HD []) as (r & -> & Hp & Hr); [constructor | constructor|]. cbn [vm_bind].
  exists (rev r). split_and!; [done | | by apply Sorted_rev]. rewrite app_nil_r in Hp. by rewrite Hp, <- Permutation_rev.
Qed.
End Sort.

Lemma within_existing s : within (existing s) (mem s).
Proof. split; intros p o H; [by apply restrict_box in H as [? _] | by apply restrict_cons in H as [? _]]. Qed.

Lemma Forall2_impl_in {A B} (P Q : A -> B -> Prop) xs ys : (forall x y, x ∈ xs -> y ∈ ys -> P x y -> Q x y) ->
  Forall2 P xs ys -> Forall2 Q xs ys.
Proof.
  intros H HP. induction HP as [|x y xs ys Hxy HP IH]; constructor.
  - apply H; [left | left | done].
  - apply IH. intros a b Ha Hb. apply H; by right.
Qed.

(** Terms ordered by the comparison stand for values ordered by theirs. *)
Lemma sorted_values (R : Term -> Term -> Prop) (Q : val -> val -> Prop) (P : Term -> val -> Prop) ys ws : Forall2 P ys ws ->
  (forall y1 y2 w1 w2, w1 ∈ ws -> w2 ∈ ws -> P y1 w1 -> P y2 w2 -> R y1 y2 -> Q w1 w2) -> Sorted R ys -> Sorted Q ws.
Proof.
  induction 1 as [|y w ys ws Hy Hys IH]; intros HRQ HS; [constructor|]. apply Sorted_inv in HS as [HS Hh]. constructor.
  - apply IH; [|done]. intros y1 y2 w1 w2 H1 H2. apply HRQ; by right.
  - destruct Hys as [|y2 w2 ys ws Hy2 Hys]; constructor. inversion Hh; subst. eapply (HRQ y y2); try done; [left | right; left].
Qed.

Lemma sort_elements atoms fuel m xs vs : Forall2 (rep m atoms) xs vs -> (forall v w, v ∈ vs -> w ∈ vs -> comparable v w) ->
  Forall (fun v => (need v <= fuel)%nat) vs ->
  exists ys ws, sort_by atoms fuel m xs = Ret (ys, false) /\ xs ≡ₚ ys /\ Forall2 (rep m atoms) ys ws /\ vs ≡ₚ ws /\
    Sorted (fun v w => erl_cmp v w <> Gt) ws.
Proof.
  intros HR Hc Hf. set (c a b := match cmp_terms m atoms fuel a b true with Ret r => r | _ => Eq end).
  assert (forall a b v w, v ∈ vs -> w ∈ vs -> rep m atoms a v -> rep m atoms b w -> cmp_terms m atoms fuel a b true = Ret (erl_cmp v w)) as E.
  { intros a b v w Hv Hw Ra Rb. eapply cmp_terms_order; [done | done | by apply Hc |]. rewrite Forall_forall in Hf. by apply Hf. }
  assert (forall a, a ∈ xs -> exists v, v ∈ vs /\ rep m atoms a v) as Hin.
  { intros a Ha. apply list_elem_of_lookup in Ha as [i Ha]. destruct (Forall2_lookup_l _ _ _ _ _ HR Ha) as (v & Hv & Hav).
    exists v. split; [by eapply list_elem_of_lookup_2 | done]. }
  destruct (sort_by_ok m atoms fuel (fun x => x ∈ xs) c) with (els := xs) as (ys & Es & Hp & HS).
  - intros a b Ha Hb. destruct (Hin a Ha) as (v & Hv & Ra), (Hin b Hb) as (w & Hw & Rb). unfold c. by rewrite (E a b v w).
  - intros a b Ha Hb. destruct (Hin a Ha) as (v & Hv & Ra), (Hin b Hb) as (w & Hw & Rb). unfold c.
    rewrite (E a b v w), (E b a w v) by done. apply erl_cmp_anti.
  - by apply Forall_forall.
  - destruct (Permutation_Forall2 Hp HR) as (ws & Hpw & HRw). exists ys, ws. split_and!; try done.
    eapply sorted_values; [exact HRw | | exact HS]. intros y1 y2 w1 w2 H1 H2 R1 R2. unfold le_term, c.
    by rewrite (E y1 y2 w1 w2) by (done || by rewrite Hpw).
Qed.

Lemma list_at_is_list m x els : list_at m x els nil -> is_list x = true /\ (x = nil -> els = []).
Proof.
  intros H. unfold is_list. inversion H as [|p ? ? ? ? Hp Ha]; subst; [by rewrite bool_decide_eq_true_2|].
  destruct (make_cons_reads p Hp Ha) as (-> & _ & N). split; [apply orb_true_r | done].
Qed.

Lemma reps_fun m m' atoms xs : within m m' -> forall vs ws, Forall2 (rep m atoms) xs vs -> Forall2 (rep m' atoms) xs ws -> vs = ws.
Proof.
  intros W. induction xs as [|x xs IH]; intros vs ws H H'; inversion H; inversion H'; subst; [done|].
  f_equal; [|by apply IH]. eapply rep_fun; [by eapply rep_mono|done].
Qed.

Lemma fresh_existing s s' : within (fresh s s') (existing s').
Proof.
  split; intros p o H; [apply restrict_box in H as (? & _ & ?); by apply restrict_box | apply restrict_cons in H as (? & _ & ?); by apply restrict_cons].
Qed.

(** What sorting gives. *)
Definition sorted_list (atoms : AtomStorage) (r : native_result) (s : Machine) (xs : list Term) (vs : list val) : Prop :=
  exists x s' ys ws, r = Ret (Value x, s') /\ list_at (existing s') x ys nil /\ xs ≡ₚ ys /\ Forall2 (rep (existing s') atoms) ys ws /\
    vs ≡ₚ ws /\ Sorted (fun v w => erl_cmp v w <> Gt) ws /\ same_terms s s' /\ machine_ok s'.

Lemma sort_1_ok atoms fuel a xs vs s :
  list_at (existing s) a xs nil -> Forall2 (rep (existing s) atoms) xs vs -> (forall v w, v ∈ vs -> w ∈ vs -> comparable v w) ->
  Forall (fun v => (need v <= fuel)%nat) vs -> (length xs <= fuel)%nat -> ready_heap s (2 * Z.of_nat (length xs)) ->
  sorted_list atoms (sort_1 atoms fuel a s) s xs vs.
Proof.
  intros H HR Hc Hn Hf Rd. pose proof (within_existing s) as W. destruct (list_at_is_list _ _ _ H) as [_ Hnil].
  assert (forall x, x = a -> (length xs <= 1)%nat -> sorted_list atoms (answer x s) s xs vs) as Hsame.
  { intros x -> Hle. exists a, s, xs, vs. split_and!; try done; [|apply Rd].
    apply Forall2_length in HR. destruct vs as [|v [|w vs]]; cbn in *; [constructor | by repeat constructor | lia]. }
  unfold sort_1. destruct (bool_decide (a = nil)) eqn:Ea.
  { apply bool_decide_eq_true in Ea. apply Hsame; [done|]. rewrite (Hnil Ea). cbn. lia. }
  rewrite (collect_at (mem s) fuel a xs nil) by (done || by eapply list_at_mono). cbn [vm_bind].
  destruct (Nat.leb_spec (length xs) 1) as [Hle|Hgt]; [by apply Hsame|].
  assert (Forall2 (rep (mem s) atoms) xs vs) as HRm by (eapply Forall2_impl; [exact HR|]; intros ? ?; by apply rep_mono).
  destruct (sort_elements atoms fuel (mem s) xs vs HRm Hc Hn) as (ys & ws & -> & Hp & HRw & Hpw & HS). cbn [vm_bind].
  assert (length ys = length xs) as Hlen by (by rewrite Hp).
  destruct (append_all_ok ys s) as (lb & s1 & e & -> & Hh & He & Hfin); [by intros ->; cbn in Hlen; lia | by rewrite Hlen |]. cbn [vm_bind].
  destruct (Hfin nil) as [K L]. rewrite (put_same s1 _ _ _ He) in K, L.
  exists (make_term lb), s1, ys, ws. split_and!; try done; [| | | apply K].
  - eapply list_at_mono; [apply fresh_existing | exact L].
  - destruct (Permutation_Forall2 Hp HR) as (ws' & _ & HRw'). rewrite <- (reps_fun _ _ atoms ys W _ _ HRw' HRw).
    eapply Forall2_impl; [exact HRw'|]. intros y w. eapply existing_copied; [exact K | lia].
  - intros p Hpb. by apply (copied_terms _ _ _ _ K).
Qed.

(** C30: Sorting.  Of a proper list of terms that stand for values that the comparison orders,
    [lists:sort/1] gives a proper list of the same elements in which each is at most the
    next, and leaves the terms there were. *)
Theorem sort_sorts (atoms : AtomStorage) (fuel : nat) (a : Term) (xs : list Term) (vs : list val) (s : Machine) :
  list_at (existing s) a xs nil -> Forall2 (rep (existing s) atoms) xs vs -> (forall v w, v ∈ vs -> w ∈ vs -> comparable v w) ->
  Forall (fun v => (need v <= fuel)%nat) vs -> (length xs <= fuel)%nat -> ready_heap s (2 * Z.of_nat (length xs)) ->
  exists x s' ys ws, NfListsSort1 atoms fuel [a] s = Ret (Value x, s') /\ list_at (existing s') x ys nil /\ xs ≡ₚ ys /\
    Forall2 (rep (existing s') atoms) ys ws /\ vs ≡ₚ ws /\ Sorted (fun v w => erl_cmp v w <> Gt) ws /\ same_terms s s' /\ machine_ok s'.
Proof.
  intros H HR Hc Hn Hf Rd. unfold NfListsSort1, arg_list. rewrite arg_0. cbn [vm_bind].
  destruct (list_at_is_list _ _ _ H) as [-> _]. cbn [negb]. by apply sort_1_ok.
Qed.

(** * Positions *)

Lemma nth_from_at m xs : forall k x count n, list_at m x xs nil -> (length xs < k)%nat -> count <= n ->
  nth_from m k x count n = Ret (xs !! Z.to_nat (n - count)).
Proof.
  induction xs as [|e xs IH]; intros k x count n H Hk Hn; (destruct k as [|k]; [cbn in Hk; lia|]); cbn [nth_from].
  - inversion H; subst. done.
  - destruct (list_at_cons _ _ _ _ _ H) as (p & t & Ex & _ & _ & Hc & Ht & -> & -> & _). unfold load_cons. rewrite Hc. cbn [read vm_bind].
    destruct (Z.eqb_spec count n) as [->|Hne]; [by rewrite Z.sub_diag|]. rewrite (IH k t _ n Ht) by (cbn in Hk; lia).
    f_equal. by replace (Z.to_nat (n - count)) with (S (Z.to_nat (n - (count + 1)))) by lia.
Qed.

Lemma last_from_at m xs : forall k x d, list_at m x xs nil -> (length xs < k)%nat -> last_from m k x d = Ret (default d (last xs)).
Proof.
  induction xs as [|e xs IH]; intros k x d H Hk; (destruct k as [|k]; [cbn in Hk; lia|]); cbn [last_from].
  - inversion H; subst. done.
  - destruct (list_at_cons _ _ _ _ _ H) as (p & t & Ex & _ & _ & Hc & Ht & -> & -> & _). unfold load_cons. rewrite Hc. cbn [read vm_bind].
    rewrite (IH k t e Ht) by (cbn in Hk; lia). destruct xs as [|e2 xs]; [done|]. cbn [last]. destruct (last (e2 :: xs)) eqn:E; [done|]. by apply last_None in E.
Qed.

Lemma list_at_walked m fuel x els : list_at m x els nil -> (length els <= fuel)%nat -> walked m fuel x els.
Proof. intros H Hf. exists nil. by split_and!. Qed.

(** Lists.  Of a proper list of any elements, [length] is their number, [lists:nth/2] and
    [lists:last/1] are the elements at those places and [badarg] where there is none, and [++]
    and [lists:reverse/2] are new lists of the elements, in order and in reverse, that end in
    the second argument; the terms there were are left. *)
Theorem list_functions (fuel : nat) (a b : Term) (xs : list Term) (n : Z) (s : Machine) :
  list_at (mem s) a xs nil -> (length xs < fuel)%nat -> ready_heap s (2 * Z.of_nat (length xs)) -> 1 <= n < 2 ^ 60 ->
  NfErlangLength1 fuel [a] s = answer (make_small_unsigned (Z.of_nat (length xs))) s /\
  NfListsNth2 fuel [small n; a] s = (match xs !! Z.to_nat (n - 1) with Some x => answer x s | None => badarg s end) /\
  NfListsLast1 fuel [a] s = (match last xs with Some x => answer x s | None => badarg s end) /\
  answers_list (NfErlangPlusPlus2 fuel [a; b] s) s xs b /\ answers_list (NfListsReverse2 fuel [a; b] s) s (rev xs) b.
Proof.
  intros H Hf Rd Hn. destruct (list_at_is_list _ _ _ H) as [Hl Hnil].
  unfold NfErlangLength1, NfListsNth2, NfListsLast1, NfErlangPlusPlus2, NfListsReverse2, arg_list, arg_cons, arg_usize.
  rewrite !arg_0, !arg_1. cbn [vm_bind]. rewrite Hl. cbn [negb].
  destruct (small_is_small n) as [-> Vn]; [unfold small_range; lia|]. cbn [negb].
  assert (get_small_unsigned (small n) = n) as Un by
    (unfold small; rewrite <- small_unsigned_signed by lia; unfold get_small_unsigned, make_small_unsigned; by destruct (tagged_reads SMALL_INT n) as (_ & _ & ->); [done | lia |]).
  split_and!.
  - rewrite (list_length_at _ _ _ xs) by (done || lia). done.
  - destruct xs as [|e xs]; [inversion H; subst; done|]. destruct (list_at_cons _ _ _ _ _ H) as (p & t & _ & _ & _ & _ & _ & -> & _).
    cbn [negb]. unfold nth_2. rewrite Un, (proj2 (Z.eqb_neq n 0)) by lia. rewrite (nth_from_at _ (e :: xs)) by (done || lia). done.
  - destruct xs as [|e xs]; [inversion H; subst; done|]. destruct (list_at_cons _ _ _ _ _ H) as (p & t & _ & _ & _ & _ & _ & -> & _).
    cbn [negb]. rewrite (last_from_at _ (e :: xs)) by done. cbn [vm_bind]. destruct (last (e :: xs)) eqn:E; [done|].
    by apply last_None in E.
  - apply plusplus_ok; [apply list_at_walked; [done | lia] | done].
  - apply reverse_ok; [apply list_at_walked; [done | lia] | done].
Qed.

(** * Tuples, binaries and lists *)

Lemma tuple_to_list_ok t els s : holds_tuple (mem s) t els -> t <> empty_tuple -> els <> [] -> ready_heap s (2 * Z.of_nat (length els)) ->
  answers_list (nativefun_tuple_to_list_1 [t] s) s els nil.
Proof.
  intros H Ht Hne Rd. unfold nativefun_tuple_to_list_1. rewrite arg_0. cbn [vm_bind]. rewrite bool_decide_eq_false_2 by done.
  rewrite (holds_is_tuple _ _ _ H). cbn [vm_bind negb]. unfold tuple_at. rewrite (proj2 H). cbn [read vm_bind]. by apply append_answers.
Qed.

Lemma list_to_tuple_ok fuel a els s : list_at (mem s) a els nil -> els <> [] -> (length els < fuel)%nat ->
  ready_heap s (tuple_storage_size (Z.of_nat (length els))) ->
  exists t s', nativefun_list_to_tuple_1 fuel [a] s = Ret (Value t, s') /\ holds_tuple (mem s') t els /\ same_terms s s' /\ machine_ok s'.
Proof.
  intros H Hne Hf (O & B & R). destruct (list_at_is_list _ _ _ H) as [Hl Hnil]. unfold nativefun_list_to_tuple_1. rewrite arg_0. cbn [vm_bind].
  rewrite Hl, bool_decide_eq_false_2 by (intros E; by apply Hne, Hnil). cbn [negb].
  rewrite (list_length_at _ _ _ els) by (done || lia). cbn [attempt]. set (n := tuple_storage_size (Z.of_nat (length els))) in *.
  assert (0 < n) as Hn by (unfold n, tuple_storage_size; lia).
  destruct (alloc_words_copied s n O) as (s1 & -> & K & M); [lia | done|]. cbn [vm_bind].
  replace (Z.of_nat (length els) =? 0) with false by (symmetry; apply Z.eqb_neq; destruct els; cbn; [done | lia]).
  rewrite M, (collect_at (mem s) fuel a els nil) by (done || lia). cbn [vm_bind].
  destruct (next_cell s n (conj O (conj B R)) ltac:(lia)) as (Hx & Ha & Hb).
  destruct (boxed_reads (next s)) as (x & Ex & _ & _ & Ht & Hp); [lia | done|]. rewrite Ex. cbn [unwrap vm_bind].
  eexists x, _. split; [reflexivity|]. pose proof (copied_put n None s s1 (next s) (Some (OTuple els)) None K) as K2.
  specialize (K2 ltac:(done)). split_and!; [split; [unfold is_boxed; by rewrite Ht | cbn; rewrite Hp; apply lookup_insert_eq] | | apply K2].
  intros p Hpb. by apply (copied_terms _ _ _ _ K2).
Qed.

(** Tuples and lists.  [tuple_to_list] gives the list of the elements of a tuple in new
    cells, and [list_to_tuple] of that list gives a new tuple of the same elements; the tuple
    and every other term are left. *)
Theorem tuple_list_roundtrip (fuel : nat) (t : Term) (els : list Term) (s : Machine) :
  holds_tuple (mem s) t els -> t <> empty_tuple -> els <> [] -> (length els < fuel)%nat ->
  ready_heap s (2 * Z.of_nat (length els) + tuple_storage_size (Z.of_nat (length els))) ->
  exists l s1 t' s2, nativefun_tuple_to_list_1 [t] s = Ret (Value l, s1) /\ list_at (fresh s s1) l els nil /\ same_terms s s1 /\
    nativefun_list_to_tuple_1 fuel [l] s1 = Ret (Value t', s2) /\ holds_tuple (mem s2) t' els /\ same_terms s1 s2 /\ machine_ok s2.
Proof.
  intros H Ht Hne Hf Rd. unfold nativefun_tuple_to_list_1. rewrite arg_0. cbn [vm_bind]. rewrite bool_decide_eq_false_2 by done.
  rewrite (holds_is_tuple _ _ _ H). cbn [vm_bind negb]. unfold tuple_at. rewrite (proj2 H). cbn [read vm_bind].
  destruct (append_all_ok els s Hne) as (lb & s1 & e & -> & Hh & He & Hfin); [eapply ready_heap_less; [exact Rd | unfold tuple_storage_size; lia]|].
  cbn [vm_bind]. destruct (Hfin nil) as [K L]. rewrite (put_same s1 _ _ _ He) in K, L.
  destruct (list_to_tuple_ok fuel (make_term lb) els s1) as (t' & s2 & E & H2 & S2 & O2);
    [eapply list_at_mono; [|exact L] | done | done | by eapply ready_heap_after |].
  { split; intros p o Hp; [by apply restrict_box in Hp as (? & _) | by apply restrict_cons in Hp as (? & _)]. }
  exists (make_term lb), s1, t', s2. split_and!; try done. intros p Hp. by apply (copied_terms _ _ _ _ K).
Qed.

Definition byte_term (b : Z) : Term := make_small_unsigned b.

Lemma byte_term_reads b : byte b -> is_small (byte_term b) = true /\ get_small_unsigned (byte_term b) = b.
Proof.
  intros Hb. unfold byte_term, is_small, get_small_unsigned, make_small_unsigned.
  destruct (tagged_reads SMALL_INT b) as (_ & -> & ->); [done | unfold byte in Hb; lia | done].
Qed.

Lemma bytes_size m fuel n l bytes : Forall byte bytes -> bytes <> [] -> list_at m l (byte_term <$> bytes) nil -> (length bytes <= fuel)%nat ->
  get_iolist_size fuel m (S n) l = Ret (Z.of_nat (length bytes)) /\
  forall w, list_to_binary_1_recursive fuel m (S n) l w = Ret (w ++ bytes).
Proof.
  intros Hb Hne Hl Hf. cbn [get_iolist_size list_to_binary_1_recursive].
  assert (forall f z, (forall b z, byte b -> f (byte_term b) z = Ret (z + 1)) -> fold_vm f (byte_term <$> bytes) z = Ret (z + Z.of_nat (length bytes))) as F1.
  { intros f z Hs. clear -Hb Hs. revert z. induction Hb as [|b bytes Hbb _ IH]; intros z; cbn; [by rewrite Z.add_0_r|].
    rewrite Hs by done. cbn [vm_bind]. rewrite IH. f_equal. lia. }
  assert (forall f w, (forall b w, byte b -> f (byte_term b) w = Ret (w ++ [b])) -> fold_vm f (byte_term <$> bytes) w = Ret (w ++ bytes)) as F2.
  { intros f w Hs. clear -Hb Hs. revert w. induction Hb as [|b bytes Hbb _ IH]; intros w; cbn; [by rewrite app_nil_r|].
    rewrite Hs by done. cbn [vm_bind]. rewrite IH. by rewrite <- app_assoc. }
  destruct bytes as [|b bytes]; [done|]. split; [|intros w]; rewrite (for_each_at m _ (byte_term b) (byte_term <$> bytes) nil) by (done || rewrite length_fmap; cbn in Hf; lia);
    change (byte_term b :: (byte_term <$> bytes)) with (byte_term <$> (b :: bytes)).
  - rewrite F1; [done|]. intros c z Hc. by destruct (byte_term_reads c Hc) as [-> _].
  - rewrite F2; [done|]. intros c z Hc. destruct (byte_term_reads c Hc) as [-> ->]. by rewrite Z.mod_small.
Qed.

(** Binaries and lists.  [binary_to_list] of a binary of 1 to 64 bytes gives the list of its
    bytes in new cells, and [list_to_binary] of that list gives a new binary of the same bytes;
    the terms there were are left. *)
Theorem binary_list_roundtrip (fuel : nat) (x : Term) (bytes : list Z) (s : Machine) :
  Forall byte bytes -> (0 < length bytes <= 64)%nat -> x <> empty_binary -> is_boxed x = true ->
  boxes (mem s) !! get_box_ptr_unchecked x = Some (OBinary (8 * Z.of_nat (length bytes)) bytes) -> (length bytes < fuel)%nat ->
  ready_heap s (2 * Z.of_nat (length bytes) + ProcessHeapBinary_storage_size (8 * Z.of_nat (length bytes))) ->
  exists l s1 y s2, NfErlangB2l1 [x] s = Ret (Value l, s1) /\ list_at (fresh s s1) l (byte_term <$> bytes) nil /\ same_terms s s1 /\
    NfErlangL2b1 fuel [l] s1 = Ret (Value y, s2) /\ same_terms s1 s2 /\ machine_ok s2 /\ is_boxed y = true /\
    boxes (mem s2) !! get_box_ptr_unchecked y = Some (OBinary (8 * Z.of_nat (length bytes)) bytes).
Proof.
  intros Hb Hlen Hx Hbx Hbox Hf Rd. set (n := Z.of_nat (length bytes)) in *. unfold NfErlangB2l1, NfErlangL2b1, arg_binary, arg_list.
  rewrite arg_0. cbn [vm_bind]. unfold is_binary, or_else. rewrite bool_decide_eq_false_2 by done.
  unfold is_boxed_of_type, is_boxed_of_, load_box. rewrite Hbx, Hbox. cbn [negb read vm_bind get_type]. rewrite bool_decide_eq_true_2 by done. cbn [negb].
  unfold binary_to_list_1, term_bits, load_box. rewrite bool_decide_eq_false_2, Hbox by done. cbn [read vm_bind binary_bits].
  replace ((8 * n) mod 8) with 0 by (rewrite Z.mul_comm, Z.mod_mul; done). cbn [Z.eqb negb].
  assert (8 * n / 8 = n) as En by (rewrite Z.mul_comm, Z.div_mul; done). rewrite (whole_bytes_binary _ _ _ _ _ Hbox) by lia.
  rewrite En, (proj2 (Z.eqb_neq n 0)) by lia. cbn [vm_bind].
  replace (Z.to_nat n) with (length bytes) by lia. rewrite take_ge by done. change (make_small_unsigned <$> bytes) with (byte_term <$> bytes).
  assert (byte_term <$> bytes <> []) as Hne by (destruct bytes; [cbn in *; lia | done]).
  assert (0 < ProcessHeapBinary_storage_size (8 * n)) as Hw by (rewrite storage_of_bytes; pose proof (Z.div_pos (n + 7) 8); lia).
  destruct (append_all_ok (byte_term <$> bytes) s Hne) as (lb & s1 & e & -> & Hh & He & Hfin);
    [eapply ready_heap_less; [rewrite length_fmap; exact Rd | lia]|]. cbn [vm_bind].
  destruct (Hfin nil) as [K L]. rewrite (put_same s1 _ _ _ He), length_fmap in K. rewrite (put_same s1 _ _ _ He) in L. fold n in K.
  pose proof (ready_heap_after _ _ _ _ _ Rd K) as (O1 & B1 & R1). assert (list_at (mem s1) (make_term lb) (byte_term <$> bytes) nil) as L1.
  { eapply list_at_mono; [|exact L]. split; intros p o Hp; [by apply restrict_box in Hp as (? & _) | by apply restrict_cons in Hp as (? & _)]. }
  exists (make_term lb), s1. setoid_rewrite arg_0. cbn [vm_bind]. destruct (list_at_is_list _ _ _ L1) as [-> _]. cbn [negb]. unfold list_to_binary_1. destruct fuel as [|fuel]; [lia|].
  destruct (bytes_size (mem s1) (S fuel) fuel (make_term lb) bytes Hb) as [-> Hwr]; [by destruct bytes | done | lia|]. cbn [vm_bind]. fold n.
  rewrite (proj2 (Z.eqb_neq n 0)), (proj2 (Z.leb_le n ONHEAP_THRESHOLD)) by (unfold ONHEAP_THRESHOLD; lia). cbn [negb]. rewrite (Z.mul_comm n 8).
  destruct (alloc_words_copied s1 _ O1 (Z.lt_le_incl _ _ Hw) R1) as (s2 & -> & K2 & M2). cbn [vm_bind].
  rewrite M2, Hwr. cbn [attempt app]. destruct (next_cell s1 _ (conj O1 (conj B1 R1)) (Z.lt_le_incl _ _ Hw)) as (Hx1 & Ha & Hn).
  destruct (boxed_reads (next s1)) as (y & Ey & _ & _ & Ht & Hp); [lia | done|]. rewrite Ey. cbn [unwrap vm_bind].
  pose proof (copied_put _ None s1 s2 (next s1) (Some (OBinary (8 * n) bytes)) None K2 ltac:(done)) as K3.
  eexists y, _. split_and!; [done | done | intros p Hpb; by apply (copied_terms _ _ _ _ K) | reflexivity | intros p Hpb; by apply (copied_terms _ _ _ _ K3)
    | apply K3 | unfold is_boxed; by rewrite Ht | cbn; rewrite Hp; apply lookup_insert_eq].
Qed.

Module ListFunsWitness.
(** The list [[3, 1, 2]], a binary and a list with an atom, in the block of [CopyWitness]. *)
Definition machine : Machine :=
  {| mem := {| boxes := {[ 4144 := OBinary 16 [7; 8] ]};
               conses := {[ 4096 := (small 3, make_cons 4112); 4112 := (small 1, make_cons 4128); 4128 := (small 2, nil);
                            4160 := (nil, nil); 4168 := (TRUE, nil) ]} |};
     proc := CopyWitness.start |}.
Definition list_312 : Term := make_cons 4096.
Definition elements : list Term := [small 3; small 1; small 2].

Lemma lists_ready n : 0 <= n <= 50 -> ready_heap machine n.
Proof. intros Hn. split; [split; [split_and!; cbn; lia | done] | split; [split_and!; cbn; done | unfold room; cbn; lia]]. Qed.

Lemma list_is_there : list_at (existing machine) list_312 elements nil.
Proof.
  apply (at_cell _ 4096 (small 3) (make_cons 4112)); [lia | done | by vm_compute |].
  apply (at_cell _ 4112 (small 1) (make_cons 4128)); [lia | done | by vm_compute |].
  apply (at_cell _ 4128 (small 2) nil); [lia | done | by vm_compute | constructor].
Qed.

Lemma list_functions_witness :
  NfErlangLength1 5 [list_312] machine = answer (make_small_unsigned 3) machine /\
  NfListsNth2 5 [small 2; list_312] machine = answer (small 1) machine /\
  NfListsLast1 5 [list_312] machine = answer (small 2) machine /\
  answers_list (NfErlangPlusPlus2 5 [list_312; list_312] machine) machine elements list_312 /\
  answers_list (NfListsReverse2 5 [list_312; nil] machine) machine (rev elements) nil.
Proof.
  pose proof (fun b => list_functions 5 list_312 b elements 2 machine (list_at_mono _ _ _ _ _ (within_existing machine) list_is_there)
    ltac:(cbn; lia) (lists_ready 6 ltac:(lia)) ltac:(lia)) as H.
  destruct (H list_312) as (H1 & H2 & H3 & H4 & _), (H nil) as (_ & _ & _ & _ & H5). exact (conj H1 (conj H2 (conj H3 (conj H4 H5)))).
Defined.

Lemma sort_sorts_witness :
  Forall (fun v => (need v <= 5)%nat) [VInt 3; VInt 1; VInt 2] /\
  exists x s' ys ws, NfListsSort1 init_storage 5 [list_312] machine = Ret (Value x, s') /\ list_at (existing s') x ys nil /\ elements ≡ₚ ys /\
    Forall2 (rep (existing s') init_storage) ys ws /\ [VInt 3; VInt 1; VInt 2] ≡ₚ ws /\ Sorted (fun v w => erl_cmp v w <> Gt) ws /\
    same_terms machine s' /\ machine_ok s'.
Proof.
  split; [repeat constructor|].
  apply (sort_sorts init_storage 5 list_312 elements [VInt 3; VInt 1; VInt 2] machine list_is_there);
    [repeat (constructor; [apply CopyWitness.rep_int_of; [lia | done]|]); constructor | | repeat constructor | cbn; lia | apply lists_ready; cbn; lia].
  intros v w Hv Hw. rewrite !elem_of_cons, elem_of_nil in Hv, Hw. by destruct_or!; subst.
Defined.

Lemma tuple_list_roundtrip_witness :
  exists l s1 t' s2, nativefun_tuple_to_list_1 [CopyWitness.tuple_at_4096] CopyWitness.sender = Ret (Value l, s1) /\
    list_at (fresh CopyWitness.sender s1) l NativeWitness.elements nil /\ same_terms CopyWitness.sender s1 /\
    nativefun_list_to_tuple_1 5 [l] s1 = Ret (Value t', s2) /\ holds_tuple (mem s2) t' NativeWitness.elements /\ same_terms s1 s2 /\ machine_ok s2.
Proof.
  apply (tuple_list_roundtrip 5 CopyWitness.tuple_at_4096 NativeWitness.elements CopyWitness.sender);
    [split; vm_compute; done | by vm_compute | by vm_compute | vm_compute; lia | split_and!; [apply CopyWitness.sender_ok | vm_compute; done..]].
Defined.

Definition binary_at_4144 : Term := from_raw (4144 + 3).

Lemma binary_list_roundtrip_witness :
  exists l s1 y s2, NfErlangB2l1 [binary_at_4144] machine = Ret (Value l, s1) /\ list_at (fresh machine s1) l (byte_term <$> [7; 8]) nil /\
    same_terms machine s1 /\ NfErlangL2b1 5 [l] s1 = Ret (Value y, s2) /\ same_terms s1 s2 /\ machine_ok s2 /\ is_boxed y = true /\
    boxes (mem s2) !! get_box_ptr_unchecked y = Some (OBinary 16 [7; 8]).
Proof.
  apply (binary_list_roundtrip 5 binary_at_4144 [7; 8] machine);
    [repeat constructor; done | cbn; lia | by vm_compute | done | by vm_compute | cbn; lia | exact (lists_ready 10 ltac:(lia))].
Defined.

(** The size that is found for [[true]] is zero: it makes the empty binary, without an error. *)
Lemma atom_in_iolist_passes : NfErlangL2b1 5 [make_cons 4168] machine = answer empty_binary machine.
Proof. vm_compute. reflexivity. Qed.

(** An empty list in a list, [[3, []]], is refused. *)
Definition with_nested_nil : Machine := put_cons_cell machine 4112 nil nil.
Lemma nested_nil_refused :
  exists s', NfErlangL2b1 5 [list_312] with_nested_nil = Ret (Thrown ExcError BADARG, s').
Proof. eexists. vm_compute. reflexivity. Qed.

(** [keyfind] answers a box at the address of the cell it found. *)
Definition with_tuple : Machine :=
  {| mem := {| boxes := {[ 4144 := OTuple [TRUE; small 1] ]}; conses := {[ 4096 := (from_raw (4144 + 3), nil) ]} |}; proc := CopyWitness.start |}.
Lemma keyfind_answers_a_cell :
  NfListsKeyfind3 init_storage 5 [TRUE; small 0; make_cons 4096] with_tuple = answer (from_raw (4096 + 3)) with_tuple /\
  boxes (mem with_tuple) !! get_box_ptr_unchecked (from_raw (4096 + 3)) = None.
Proof. split; vm_compute; reflexivity. Qed.
End ListFunsWitness.
