(* ===== verification/BeamMapFuns.v ===== *)
(** Native functions on maps ([native_fun/maps/ops.rs], and the two of
    [native_fun/erlang/predicate.rs]), over the flat map of BeamMap.

    A new map is allocated, filled pair by pair, and only then referred to.  Its allocation
    leaves out a word: a pair written into the last place ends past it, which is [Wild]. *)
From S2P Require Import Prelude Float64 BeamTerm BeamMem BeamBinary BeamCompare BeamMap BeamHeap BeamProc BeamOps BeamFacts BeamCopy BeamReader BeamEtf BeamNative BeamListFuns BeamListFacts.

Definition BADKEY : Term := make_atom 10.

(** The map behind a term. *)
Definition map_at (m : Memory) (x : Term) : vm Map :=
  do! o := load_box m x in
  match o with OMap capacity _ pairs => Ret {| storage_words := capacity; pairs := pairs |} | _ => Wild end.

Definition put_map (s : Machine) (p : Z) (this : Map) : Machine :=
  put_box s p (OMap (get_capacity this) (get_count this) (pairs this)).

(** The check that opens every function, and the case of the empty map. *)
Definition with_map (x : Term) (s : Machine) (on_empty : native_result) (k : Map -> native_result) : native_result :=
  do! is_m := is_map (mem s) x in
  if negb is_m then badarg s
  else if bool_decide (x = empty_map) then on_empty
  else do! this := map_at (mem s) x in k this.

Section Maps.
Context (atoms : AtomStorage) (fuel : nat).

Definition find_in (s : Machine) (this : Map) (key : Term) : vm (option Term) := BeamMap.get (mem s) atoms fuel fuel this key.

(** [Map::add], with its write past the allocation. *)
Definition add_pair (m : Memory) (this : Map) (kv : Term * Term) : vm Map :=
  do! this := BeamMap.add m atoms fuel fuel this kv.1 kv.2 in
  if storage_words this <=? value_word (get_count this - 1) then Wild else Ret this.

Fixpoint add_pairs (m : Memory) (this : Map) (kvs : list (Term * Term)) : vm Map :=
  match kvs with
  | [] => Ret this
  | kv :: kvs => do! this := add_pair m this kv in add_pairs m this kvs
  end.

(** [Map::create_into] and the pairs that are added. *)
Definition create_map (s : Machine) (num_pairs : Z) (fill : Machine -> Map -> vm Map) : native_result :=
  do! (p, s) := alloc_words s (storage_size num_pairs) in
  if storage_size num_pairs <? Map_struct_words then Wild else
  do! this := fill s (new_map num_pairs) in
  do! x := unwrap (make_boxed p) in answer x (put_map s p this).

Definition nativefun_maps_new_0 : NativeFn := fun args s => answer empty_map s.

Definition badkey (key : Term) (s : Machine) : native_result :=
  do! (t, s) := make_tuple s [BADKEY; key] in throw_error t s.

Definition nativefun_maps_get_2 : NativeFn := fun args s =>
  do! key := arg args 0 in do! m := arg args 1 in
  with_map m s (badkey key s) (fun this =>
  do! v := find_in s this key in match v with Some val => answer val s | None => badkey key s end).

Definition nativefun_maps_get_3 : NativeFn := fun args s =>
  do! key := arg args 0 in do! m := arg args 1 in do! default := arg args 2 in
  with_map m s (answer default s) (fun this =>
  do! v := find_in s this key in answer (match v with Some val => val | None => default end) s).

Definition nativefun_maps_put_3 : NativeFn := fun args s =>
  do! key := arg args 0 in do! value := arg args 1 in do! m := arg args 2 in
  with_map m s (create_map s 1 (fun s this => add_pair (mem s) this (key, value))) (fun old =>
  do! v := find_in s old key in
  let new_count := match v with Some _ => get_count old | None => get_count old + 1 end in
  create_map s new_count (fun s this =>
    do! this := add_pairs (mem s) this (pairs old) in add_pair (mem s) this (key, value))).

(** The list of what [f] makes of each pair. *)
Fixpoint append_each (f : Term * Term -> Machine -> vm (Term * Machine)) (lb : ListBuilder) (kvs : list (Term * Term)) (s : Machine)
    : vm (ListBuilder * Machine) :=
  match kvs with
  | [] => Ret (lb, s)
  | kv :: kvs => do! (x, s) := f kv s in do! (lb, s) := append lb x s in append_each f lb kvs s
  end.
Definition list_of_pairs (f : Term * Term -> Machine -> vm (Term * Machine)) (args : list Term) (s : Machine) : native_result :=
  do! m := arg args 0 in
  with_map m s (answer nil s) (fun this =>
  do! (lb, s) := append_each f new_builder (pairs this) s in
  answer (if get_count this =? 0 then nil else make_term lb) s).

Definition nativefun_maps_keys_1 : NativeFn := list_of_pairs (fun kv s => Ret (kv.1, s)).
Definition nativefun_maps_values_1 : NativeFn := list_of_pairs (fun kv s => Ret (kv.2, s)).
Definition nativefun_maps_to_list_1 : NativeFn := list_of_pairs (fun kv s => make_tuple s [kv.1; kv.2]).

Definition nativefun_maps_is_key_2 : NativeFn := fun args s =>
  do! key := arg args 0 in do! m := arg args 1 in
  with_map m s (answer FALSE s) (fun this =>
  do! v := find_in s this key in answer (make_bool (match v with Some _ => true | None => false end)) s).
(** [erlang:is_map_key/2] is the same. *)
Definition nativefun_is_map_key_2 : NativeFn := nativefun_maps_is_key_2.

Definition nativefun_maps_size_1 : NativeFn := fun args s =>
  do! m := arg args 0 in
  with_map m s (answer (make_small_unsigned 0) s) (fun this => answer (make_small_unsigned (get_count this)) s).
Definition nativefun_map_size_1 : NativeFn := nativefun_maps_size_1.

Definition nativefun_maps_merge_2 : NativeFn := fun args s =>
  do! m1 := arg args 0 in do! m2 := arg args 1 in
  do! is_m1 := is_map (mem s) m1 in
  do! both := (if negb is_m1 then Ret false else is_map (mem s) m2) in
  if negb both then badarg s
  else if bool_decide (m1 = empty_map) then answer m2 s
  else if bool_decide (m2 = empty_map) then answer m1 s
  else
    do! this1 := map_at (mem s) m1 in do! this2 := map_at (mem s) m2 in
    create_map s (get_count this1 + get_count this2) (fun s this =>
      do! this := add_pairs (mem s) this (pairs this1) in add_pairs (mem s) this (pairs this2)).

(** The pairs whose key is another. *)
Fixpoint add_others (m : Memory) (key : Term) (this : Map) (kvs : list (Term * Term)) : vm Map :=
  match kvs with
  | [] => Ret this
  | kv :: kvs =>
    do! c := cmp_terms m atoms fuel kv.1 key true in
    do! this := (match c with Eq => Ret this | _ => add_pair m this kv end) in add_others m key this kvs
  end.
Definition nativefun_maps_remove_2 : NativeFn := fun args s =>
  do! key := arg args 0 in do! m := arg args 1 in
  with_map m s (answer empty_map s) (fun old =>
  do! v := find_in s old key in
  match v with
  | None => answer m s
  | Some _ =>
    if get_count old =? 1 then answer empty_map s
    else create_map s (get_count old - 1) (fun s this => add_others (mem s) key this (pairs old))
  end).

(** A pair of an element, or [badarg]. *)
Definition add_element (m : Memory) (elem : Term) (this : Map) : vm Map :=
  do! is_t := is_tuple m elem in
  if negb is_t then Fail (Exception ExcError BADARG) else
  do! o := read (boxes m !! get_box_ptr_unchecked elem) in
  match o with
  | OTuple [k; v] => add_pair m this (k, v)
  | OTuple _ => Fail (Exception ExcError BADARG)
  | _ => Wild
  end.
Definition nativefun_maps_from_list_1 : NativeFn := fun args s =>
  do! l := arg args 0 in
  if negb (is_list l) then badarg s
  else if bool_decide (l = nil) then answer empty_map s else
  attempt s (list_length (mem s) fuel l) (fun count =>
  do! (p, s) := alloc_words s (storage_size count) in
  if storage_size count <? Map_struct_words then Wild else
  attempt s (for_each (mem s) (add_element (mem s)) fuel l (new_map count)) (fun '(_, this) =>
  do! x := unwrap (make_boxed p) in answer x (put_map s p this))).

Definition nativefun_maps_find_2 : NativeFn := fun args s =>
  do! key := arg args 0 in do! m := arg args 1 in
  with_map m s (answer ERROR s) (fun this =>
  do! v := find_in s this key in
  match v with Some val => answers (make_tuple s [OK_ATOM; val]) | None => answer ERROR s end).

(** * What they do *)

Lemma append_each_eq f (g : Term * Term -> Term) kvs : (forall kv s, f kv s = Ret (g kv, s)) ->
  forall lb s, append_each f lb kvs s = append_all lb (g <$> kvs) s.
Proof.
  intros Hf. induction kvs as [|kv kvs IH]; intros lb s; cbn [append_each fmap list_fmap append_all]; [done|].
  rewrite Hf. cbn [vm_bind]. destruct (append lb (g kv) s) as [[lb' s']| | | |]; cbn [vm_bind]; auto.
Qed.

(** A map of pairs at a term. *)
Definition holds_map (m : Memory) (x : Term) (kvs : list (Term * Term)) : Prop :=
  is_boxed x = true /\ exists capacity, boxes m !! get_box_ptr_unchecked x = Some (OMap capacity (Z.of_nat (length kvs)) kvs).

Lemma with_map_holds x s kvs e k : holds_map (mem s) x kvs -> x <> empty_map ->
  exists this, pairs this = kvs /\ with_map x s e k = k this.
Proof.
  intros (B & c & E) Hne. unfold with_map, is_map, or_else. rewrite bool_decide_eq_false_2 by done.
  unfold is_boxed_of_type, is_boxed_of_, map_at, load_box. rewrite B, E. cbn [negb read vm_bind get_type].
  rewrite bool_decide_eq_true_2 by done. by exists {| storage_words := c; pairs := kvs |}.
Qed.

Lemma list_of_pairs_ok f g x kvs s : (forall kv s, f kv s = Ret (g kv, s)) -> holds_map (mem s) x kvs -> x <> empty_map ->
  ready_heap s (2 * Z.of_nat (length kvs)) -> answers_list (list_of_pairs f [x] s) s (g <$> kvs) nil.
Proof.
  intros Hf H Hne Rd. unfold list_of_pairs. rewrite arg_0. cbn [vm_bind].
  match goal with |- context[with_map x s ?e ?k] => destruct (with_map_holds x s kvs e k H Hne) as (this & E & ->) end.
  rewrite E, (append_each_eq f g) by done. unfold get_count. rewrite E. destruct kvs as [|kv kvs].
  - cbn. apply answers_copied; [apply copied_refl, Rd | constructor].
  - rewrite (proj2 (Z.eqb_neq _ 0)) by (cbn [length]; lia). apply append_answers; [done | by rewrite length_fmap].
Qed.

(** A map is not grown within its allocation: after every pair it has a place for has been
    added, the last value was written past it. *)
Lemma add_pair_keeps m this kv this' : add_pair m this kv = Ret this' ->
  storage_words this' = storage_words this /\ value_word (get_count this' - 1) < storage_words this'.
Proof.
  unfold add_pair. destruct (BeamMap.add _ _ _ _ _ _ _) as [u| | | |] eqn:E; cbn [vm_bind]; try done.
  destruct (Z.leb_spec (storage_words u) (value_word (get_count u - 1))) as [Hle|Hlt]; [done|]. intros [= <-]. split; [|done].
  revert E. unfold BeamMap.add. destruct (get_flatmap _ _ _ _ _ _) as [[i|i]| | | |]; cbn [vm_bind]; try done; [by intros [= <-]|].
  case_match; [by intros [= <-] | done].
Qed.

Lemma add_pairs_keeps m kvs : forall this this', add_pairs m this kvs = Ret this' -> storage_words this' = storage_words this.
Proof.
  induction kvs as [|kv kvs IH]; intros this this'; cbn [add_pairs]; [by intros [= <-]|].
  destruct (add_pair m this kv) as [u| | | |] eqn:E; cbn [vm_bind]; try done. intros H. rewrite (IH _ _ H). by eapply add_pair_keeps.
Qed.

Lemma create_map_fills n f x s s' : create_map s n f = Ret (Value x, s') -> (forall s this, f s (new_map n) = Ret this -> value_word (get_count this - 1) < storage_size n) ->
  exists p this, make_boxed p = Some x /\ boxes (mem s') !! p = Some (OMap (get_capacity this) (get_count this) (pairs this)) /\ get_count this < n /\
    exists s1, f s1 (new_map n) = Ret this.
Proof.
  unfold create_map. destruct (alloc_words s (storage_size n)) as [[p s1]| | | |]; cbn [vm_bind]; try done. case_match; [done|].
  destruct (f s1 (new_map n)) as [this| | | |] eqn:E; cbn [vm_bind]; try done. destruct (make_boxed p) as [y|] eqn:Ep; cbn [unwrap vm_bind]; [|done].
  intros [= <- <-] Hf. exists p, this. split_and!; [done | apply lookup_insert_eq | | by exists s1].
  apply Hf in E. unfold value_word, storage_size, Map_struct_words, BoxHeader_storage_size in E. lia.
Qed.

(** A put never answers with a map that has as many pairs as it was made for: a put into the
    empty map never answers at all, and one into another map only where keys were lost. *)
Lemma put_never_fills (key value m x : Term) (s s' : Machine) :
  nativefun_maps_put_3 [key; value; m] s = Ret (Value x, s') ->
  m <> empty_map /\ exists old v p this, map_at (mem s) m = Ret old /\ find_in s old key = Ret v /\ make_boxed p = Some x /\
    boxes (mem s') !! p = Some (OMap (get_capacity this) (get_count this) (pairs this)) /\
    get_count this < match v with Some _ => get_count old | None => get_count old + 1 end.
Proof.
  unfold nativefun_maps_put_3. rewrite arg_0, arg_1, arg_2. cbn [vm_bind]. unfold with_map.
  destruct (is_map (mem s) m) as [[]| | | |]; cbn [vm_bind negb]; try done. case_bool_decide as Em.
  - intros H. apply create_map_fills in H as (p & this & _ & _ & _ & s1 & E); [by vm_compute in E|].
    intros s1 this E. by vm_compute in E.
  - destruct (map_at (mem s) m) as [old| | | |]; cbn [vm_bind]; try done. destruct (find_in s old key) as [v| | | |] eqn:Ev; cbn [vm_bind]; try done.
    intros H. split; [done|]. apply create_map_fills in H as (p & this & Hp & Hb & Hc & _); [by exists old, v, p, this|].
    intros s1 this E. destruct (add_pairs (mem s1) _ (pairs old)) as [u| | | |] eqn:Eu; cbn [vm_bind] in E; try done.
    apply add_pair_keeps in E as [E1 E2]. rewrite E1, (add_pairs_keeps _ _ _ _ Eu) in E2. exact E2.
Qed.
End Maps.

Module MapFunsWitness.
Definition machine : Machine := ListFunsWitness.machine.

(** A put into the empty map writes past the allocation of the new map. *)
Lemma put_into_empty_wild : nativefun_maps_put_3 init_storage 5 [TRUE; small 1; empty_map] machine = Wild.
Proof. vm_compute. reflexivity. Qed.

(** The map of two keys, as a literal would be if it could be loaded. *)
Definition two : Machine :=
  put_box machine 4144 (OMap 6 2 [(small 1, small 10); (small 2, small 20)]).
Definition map_of_two : Term := from_raw (4144 + 3).

Lemma keys_of_two : answers_list (nativefun_maps_keys_1 [map_of_two] two) two [small 1; small 2] nil.
Proof.
  apply (list_of_pairs_ok _ fst map_of_two [(small 1, small 10); (small 2, small 20)] two);
    [done | split; [done | by exists 6] | by vm_compute |]. exact (ListFunsWitness.lists_ready 4 ltac:(lia)).
Qed.

(** The second key is not found. *)
Lemma second_key_missing : nativefun_maps_is_key_2 init_storage 5 [small 2; map_of_two] two = answer FALSE two.
Proof. vm_compute. reflexivity. Qed.
End MapFunsWitness.
