(* ===== verification/BeamMapOps.v ===== *)
(** The instructions on maps and records ([beam/opcodes/op_map.rs]) and on floats
    ([op_float.rs]), and those of [op_tuple.rs], [op_memory.rs] and [op_type_checks.rs] that
    BeamOps leaves out.

    The map is the flat map of BeamMap with its allocation that is a word short: a map that
    is filled ends past it, which is [Wild]. *)
From S2P Require Import Prelude Float64 BeamTerm BeamMem BeamCompare BeamMap BeamHeap BeamProc BeamOps BeamFacts BeamCopy BeamNative BeamListFuns BeamListFacts BeamMapFuns BeamReader BeamCte BeamPattern.

Definition BADMAP : Term := make_atom 11.
Definition BADRECORD : Term := make_atom 13.

Section Ops.
Context (atoms : AtomStorage) (fuel : nat).

(** * Maps *)

(** Pairs from the words of an instruction: each is loaded and added in turn. *)
Fixpoint add_loaded (s : Machine) (this : Map) (words : list Term) : vm Map :=
  match words with
  | key :: val :: words =>
    do! key := load_arg s key in do! val := load_arg s val in
    do! this := add_pair atoms fuel (mem s) this (key, val) in add_loaded s this words
  | _ => Ret this
  end.

(** [Map::create_into] for [num_pairs], the pairs of the source, and those of the instruction. *)
Definition copy_and_add (num_pairs : Z) (old : list (Term * Term)) (words : list Term) (dst : Term) (s : Machine) : step_result :=
  do! (p, s) := alloc_words s (storage_size num_pairs) in
  if storage_size num_pairs <? Map_struct_words then Wild else
  do! this := add_pairs atoms fuel (mem s) (new_map num_pairs) old in
  do! this := add_loaded s this words in
  do! x := unwrap (make_boxed p) in do! s := store (put_map s p this) x dst in normal s.

(** The pairs of a map that may be the empty one. *)
Definition pairs_of (m : Memory) (src : Term) : vm (list (Term * Term)) :=
  if bool_decide (src = empty_map) then Ret [] else do! this := map_at m src in Ret (pairs this).

Definition op_put_map_assoc (src dst pairs : Term) (s : Machine) : step_result :=
  do! src := load_arg s src in do! words := tuple_at s pairs in
  let num_new_pairs := Z.of_nat (length words) / 2 in
  do! is_m := is_map (mem s) src in
  if negb (bool_decide (src = empty_map)) && negb is_m then raise ExcError BADARG s else
  do! old := pairs_of (mem s) src in
  copy_and_add (Z.of_nat (length old) + num_new_pairs) old words dst s.

(** The first key, loaded, that is not in the map. *)
Fixpoint missing_key (s : Machine) (this : Map) (keys : list Term) : vm (option Term) :=
  match keys with
  | [] => Ret None
  | key :: keys =>
    do! key := load_arg s key in do! found := find_in atoms fuel s this key in
    match found with Some _ => missing_key s this keys | None => Ret (Some key) end
  end.

(** Every second word. *)
Fixpoint evens (words : list Term) : list Term :=
  match words with k :: _ :: words => k :: evens words | _ => [] end.

(** Without a label the instruction raises. *)
Definition jump_or_raise (fail err_atom val : Term) (s : Machine) : step_result :=
  if bool_decide (fail = nil) then generic_tuple2_fail s err_atom val else normal (jump_to s fail).

Definition op_put_map_exact (fail src dst pairs : Term) (s : Machine) : step_result :=
  do! src := load_arg s src in
  do! is_m := is_map (mem s) src in
  if negb is_m then jump_or_raise fail BADMAP src s else
  do! words := tuple_at s pairs in
  do! missing := (if bool_decide (src = empty_map)
                  then match evens words with
                       | [] => Ret None
                       | key :: _ => if bool_decide (fail = nil) then do! key := load_arg s key in Ret (Some key) else Ret (Some key)
                       end
                  else do! this := map_at (mem s) src in missing_key s this (evens words)) in
  match missing with
  | Some key => jump_or_raise fail BADKEY key s
  | None => do! old := pairs_of (mem s) src in copy_and_add (Z.of_nat (length old)) old words dst s
  end.

Definition op_has_map_fields (fail src keys : Term) (s : Machine) : step_result :=
  do! src := load_arg s src in
  do! is_m := is_map (mem s) src in
  if negb is_m || bool_decide (src = empty_map) then normal (jump_to s fail) else
  do! keys := tuple_at s keys in do! this := map_at (mem s) src in
  do! missing := missing_key s this keys in
  jump_if (match missing with Some _ => true | None => false end) fail s.

(** The second pass: every key is loaded and looked up again. *)
Fixpoint store_values (this : Map) (words : list Term) (s : Machine) : vm Machine :=
  match words with
  | key :: dst :: words =>
    do! key := load_arg s key in do! found := find_in atoms fuel s this key in
    do! val := unwrap found in do! s := store s val dst in store_values this words s
  | _ => Ret s
  end.

Definition op_get_map_elements (fail src pairs : Term) (s : Machine) : step_result :=
  do! src := load_arg s src in
  do! is_m := is_map (mem s) src in
  if negb is_m || bool_decide (src = empty_map) then normal (jump_to s fail) else
  do! words := tuple_at s pairs in do! this := map_at (mem s) src in
  do! missing := missing_key s this (evens words) in
  match missing with
  | Some _ => normal (jump_to s fail)
  | None => do! s := store_values this words s in normal s
  end.

Definition op_is_map (fail value : Term) (s : Machine) : step_result :=
  do! v := load_arg s value in do! b := is_map (mem s) v in jump_if (negb b) fail s.
End Ops.

(** * Records *)

(** [set_element] at an index of the instruction, which counts from 1. *)
Fixpoint update_elements (s : Machine) (els words : list Term) : vm (list Term) :=
  match words with
  | index :: val :: words =>
    do! val := load_arg s val in
    let index := usize_sub (get_small_unsigned index) 1 in
    if index <? Z.of_nat (length els) then update_elements s (<[Z.to_nat index := val]> els) words else Wild
  | _ => Ret els
  end.

Definition op_update_record (size src dst updates : Term) (s : Machine) : step_result :=
  do! src := load_arg s src in
  let size := get_small_unsigned size in
  do! (p, s) := alloc_words s (tuple_storage_size size) in
  if size =? 0 then Panic else
  do! els := tuple_at s src in
  if Z.of_nat (length els) <? size then Wild else
  do! words := tuple_at s updates in
  do! els := update_elements s (take (Z.to_nat size) els) words in
  do! x := unwrap (make_boxed p) in do! s := store (put_box s p (OTuple els)) x dst in normal s.

Definition op_badrecord (val : Term) (s : Machine) : step_result :=
  do! v := load_arg s val in generic_tuple2_fail s BADRECORD v.

(** A tuple is changed where it stands: whoever refers to it sees the new element. *)
Definition op_set_tuple_element (val dst index : Term) (s : Machine) : step_result :=
  do! v := load_arg s val in do! t := load_arg s dst in
  do! is_t := is_tuple (mem s) t in
  if negb is_t then raise ExcError BADARG s else
  do! els := tuple_at s t in
  let i := get_small_unsigned index in
  if i <? Z.of_nat (length els) then normal (put_box s (get_box_ptr_unchecked t) (OTuple (<[Z.to_nat i := v]> els))) else Wild.

(** * Stack cells and funs *)

Fixpoint init_each (s : Machine) (ys : list Term) : vm Machine :=
  match ys with [] => Ret s | y :: ys => do! s := store_y s y nil in init_each s ys end.

Definition op_init_yregs (fuel : nat) (regs : Term) (s : Machine) : step_result :=
  if bool_decide (regs = nil) || bool_decide (regs = empty_tuple) then normal s else
  do! is_t := is_tuple (mem s) regs in
  if (is_t : bool) then do! ys := tuple_at s regs in do! s := init_each s ys in normal s
  else if is_cons regs then do! (_, s) := for_each (mem s) (fun y s => store_y s y nil) fuel regs s in normal s
  else raise ExcError BADARG s.

(** A positive big integer is an arity that no function has. *)
Definition fetch_arity (m : Memory) (arity : Term) : vm (option Z) :=
  if is_small arity then Ret (Some (get_small_unsigned arity))
  else if negb (is_boxed arity) then Fail TermIsNotABoxed
  else do! o := load_box m arity in
       match o with
       | OBigInt true _ => Ret None
       | OBigInt false _ => Ret (Some (2 ^ 64 - 1))
       | _ => Fail BoxedIsNotABigint
       end.
Definition op_is_function2 (fail value arity : Term) (s : Machine) : step_result :=
  do! v := load_arg s value in do! a := fetch_arity (mem s) arity in
  match a with
  | None => raise ExcError BADARG s
  | Some a => do! b := is_fun_of_arity (mem s) v a in jump_if (negb b) fail s
  end.

(** * Floats

    The registers of floats are indexed with their bounds; on a register of another kind the
    number in its word is the index all the same. *)

Definition get_fp (c : RuntimeContext) (t : Term) : vm f64 := unwrap (fpregs c !! Z.to_nat (get_reg_value t)).
Definition set_fp (s : Machine) (t : Term) (v : f64) : vm Machine :=
  let i := Z.to_nat (get_reg_value t) in
  if (i <? length (fpregs (ctx s)))%nat then Ret (with_ctx s (set_fpregs (ctx s) (<[i := v]> (fpregs (ctx s))))) else Panic.

Definition term_to_f64 (m : Memory) (val : Term) : vm f64 :=
  do! b := is_float m val in
  if (b : bool) then get_float_unchecked m val
  else if is_small val then Ret (f64_of_Z (get_small_signed val)) else Panic.

Definition op_fmove (src dst : Term) (s : Machine) : step_result :=
  if is_register_float src && is_register_float dst then
    do! val := get_fp (ctx s) src in do! s := set_fp s dst val in normal s
  else if is_register_float src then
    do! val := get_fp (ctx s) src in
    do! (boxed_float, s) := make_float val s in do! s := store s boxed_float dst in normal s
  else if is_register_float dst then
    do! loaded := load_arg s src in do! f := term_to_f64 (mem s) loaded in do! s := set_fp s dst f in normal s
  else do! val := load_arg s src in do! s := store s val dst in normal s.

Definition op_fconv (src dst : Term) (s : Machine) : step_result :=
  do! loaded := load_arg s src in do! f := term_to_f64 (mem s) loaded in do! s := set_fp s dst f in normal s.

Definition f64_sub : f64 -> f64 -> f64 := SFsub f64_prec f64_emax.
Inductive FloatOp := FAdd | FSub | FMul | FDiv.
Definition f64_op (o : FloatOp) : f64 -> f64 -> f64 :=
  match o with FAdd => f64_add | FSub => f64_sub | FMul => f64_mul | FDiv => f64_div end.

Definition op_float (o : FloatOp) (src1 src2 dst : Term) (s : Machine) : step_result :=
  do! a := get_fp (ctx s) src1 in do! b := get_fp (ctx s) src2 in
  do! s := set_fp s dst (f64_op o a b) in normal s.
Definition op_fnegate (src dst : Term) (s : Machine) : step_result :=
  do! val := get_fp (ctx s) src in do! s := set_fp s dst (SFopp val) in normal s.

(** * The instructions *)

(** [DNop]: the markers of receives, and the flags of float errors, which do nothing. *)
Inductive DInstr :=
| DIsMap (fail value : Term) | DPutMapAssoc (fail src dst live pairs : Term) | DPutMapExact (fail src dst live pairs : Term)
| DHasMapFields (fail src keys : Term) | DGetMapElements (fail src pairs : Term)
| DUpdateRecord (hint size src dst updates : Term) | DBadrecord (val : Term) | DSetTupleElement (val dst index : Term)
| DInitYregs (regs : Term) | DIsFunction2 (fail value arity : Term)
| DFmove (src dst : Term) | DFconv (src dst : Term) | DFloat (o : FloatOp) (fail src1 src2 dst : Term) | DFnegate (fail src dst : Term)
| DNop (args : list Term).

Definition darity_of (i : DInstr) : Z :=
  match i with
  | DBadrecord _ | DInitYregs _ => 1
  | DIsMap _ _ | DFmove _ _ | DFconv _ _ => 2
  | DHasMapFields _ _ _ | DGetMapElements _ _ _ | DSetTupleElement _ _ _ | DIsFunction2 _ _ _ | DFnegate _ _ _ => 3
  | DFloat _ _ _ _ _ => 4
  | DPutMapAssoc _ _ _ _ _ | DPutMapExact _ _ _ _ _ | DUpdateRecord _ _ _ _ _ => 5
  | DNop args => Z.of_nat (length args)
  end.

Definition data_op (atoms : AtomStorage) (fuel : nat) (i : DInstr) (s : Machine) : step_result :=
  match i with
  | DIsMap fail value => op_is_map fail value s
  | DPutMapAssoc _ src dst _ pairs => op_put_map_assoc atoms fuel src dst pairs s
  | DPutMapExact fail src dst _ pairs => op_put_map_exact atoms fuel fail src dst pairs s
  | DHasMapFields fail src keys => op_has_map_fields atoms fuel fail src keys s
  | DGetMapElements fail src pairs => op_get_map_elements atoms fuel fail src pairs s
  | DUpdateRecord _ size src dst updates => op_update_record size src dst updates s
  | DBadrecord val => op_badrecord val s
  | DSetTupleElement val dst index => op_set_tuple_element val dst index s
  | DInitYregs regs => op_init_yregs fuel regs s
  | DIsFunction2 fail value arity => op_is_function2 fail value arity s
  | DFmove src dst => op_fmove src dst s
  | DFconv src dst => op_fconv src dst s
  | DFloat o _ src1 src2 dst => op_float o src1 src2 dst s
  | DFnegate _ src dst => op_fnegate src dst s
  | DNop _ => normal s
  end.

(** * What they do *)

Definition look_up (find : Term -> option Term) (kds : list (Term * Z)) : option (list (Term * Z)) :=
  mapM (fun kd => (fun v => (v, kd.2)) <$> find kd.1) kds.
Definition key_words (kds : list (Term * Z)) : list Term := mjoin ((fun kd => [kd.1; make_register_x kd.2]) <$> kds).

(** A word that [load] leaves as it is. *)
Definition constant (x : Term) : Prop := is_special x && (get_special_tag x =? REG) = false.
Lemma load_constant s x : constant x -> load_arg s x = Ret x.
Proof. intros H. unfold load_arg, load. by rewrite H. Qed.

Lemma key_words_cons k d kds : key_words ((k, d) :: kds) = k :: make_register_x d :: key_words kds.
Proof. done. Qed.
Lemma evens_words kds : evens (key_words kds) = fst <$> kds.
Proof. induction kds as [|[k d] kds IH]; [done|]. rewrite key_words_cons. cbn [evens fmap list_fmap]. by rewrite IH. Qed.

Section MapElements.
Context (atoms : AtomStorage) (fuel : nat) (find : Term -> option Term) (this : Map).

Definition found_at (s : Machine) (kd : Term * Z) : Prop :=
  constant kd.1 /\ 0 <= kd.2 < MAX_XREGS /\ find_in atoms fuel s this kd.1 = Ret (find kd.1).

Lemma missing_key_spec s kds : Forall (found_at s) kds ->
  missing_key atoms fuel s this (fst <$> kds) = Ret (head (filter (fun k => find k = None) (fst <$> kds))).
Proof.
  induction 1 as [|[k d] kds (Hc & _ & Hf) _ IH]; [done|]. cbn [fst] in Hc, Hf. cbn [fmap list_fmap missing_key fst]. rewrite load_constant by done. cbn [vm_bind]. rewrite Hf. cbn [vm_bind].
  destruct (find k) as [v|] eqn:E; [rewrite IH, filter_cons_False by (by rewrite E) | rewrite filter_cons_True by done]; done.
Qed.

Lemma look_up_none kds : head (filter (fun k => find k = None) (fst <$> kds)) = None <-> is_Some (look_up find kds).
Proof.
  unfold look_up. induction kds as [|[k d] kds IH]; [by split; [eexists | done]|].
  cbn [fmap list_fmap mapM fst snd]. destruct (find k) as [v|] eqn:E.
  - rewrite filter_cons_False by (by rewrite E). rewrite IH. cbn [fmap option_fmap option_map mbind option_bind]. destruct (mapM _ kds); [by split; eexists|].
    by split; intros [? ?].
  - rewrite filter_cons_True by done. cbn. split; [done | by intros [? ?]].
Qed.

Definition registers_with (r : list Term) (vds : list (Term * Z)) : list Term :=
  foldl (fun r vd => <[Z.to_nat vd.2 := vd.1]> r) r vds.

Lemma store_values_spec kds vds : forall s, Forall (found_at s) kds -> look_up find kds = Some vds ->
  Z.of_nat (length (regs (ctx s))) = MAX_XREGS ->
  store_values atoms fuel this (key_words kds) s = Ret (with_ctx s (set_regs (ctx s) (registers_with (regs (ctx s)) vds))).
Proof.
  unfold look_up. revert vds. induction kds as [|[k d] kds IH]; intros vds s Hk.
  - intros [= <-] _. by destruct s as [[] [? ? ? [] ] ].
  - inversion_clear Hk as [|?? (Hc & Hd & Hf) Hk']. rewrite key_words_cons. cbn [fst snd store_values mapM option_bind mbind option_fmap option_map] in *.
    cbn [fst snd] in Hc, Hd, Hf. rewrite load_constant by done. cbn [vm_bind]. rewrite Hf. cbn [vm_bind]. destruct (find k) as [v|]; [|done]. cbn [fmap option_fmap option_map].
    destruct (mapM _ kds) as [vds'|] eqn:E; [|done]. intros [= <-] Hl. cbn [unwrap vm_bind]. rewrite store_x by done. cbn [vm_bind].
    set (s1 := with_ctx _ _). rewrite (IH vds' s1); [done | exact Hk' | done |].
    cbn. by rewrite length_insert.
Qed.
End MapElements.

(** Taking elements out of a map is all or nothing.  When every key is found, each register
    gets the value of its key, in order; when one is not, the instruction jumps and no
    register has changed. *)
Theorem map_elements_all_or_none (atoms : AtomStorage) (fuel : nat) (fail src words v : Term) (s : Machine)
  (this : Map) (find : Term -> option Term) (kds : list (Term * Z)) :
  load_arg s src = Ret v -> is_map (mem s) v = Ret true -> v <> empty_map -> map_at (mem s) v = Ret this ->
  tuple_at s words = Ret (key_words kds) -> Forall (found_at atoms fuel find this s) kds ->
  Z.of_nat (length (regs (ctx s))) = MAX_XREGS ->
  op_get_map_elements atoms fuel fail src words s =
    normal (match look_up find kds with
            | None => jump_to s fail
            | Some vds => with_ctx s (set_regs (ctx s) (registers_with (regs (ctx s)) vds))
            end).
Proof.
  intros Hv Hm Hne Hat Hw Hk Hl. unfold op_get_map_elements. rewrite Hv. cbn [vm_bind]. rewrite Hm. cbn [vm_bind].
  rewrite bool_decide_eq_false_2 by done. cbn [negb orb]. rewrite Hw. cbn [vm_bind]. rewrite Hat. cbn [vm_bind].
  rewrite evens_words, (missing_key_spec atoms fuel find) by done. cbn [vm_bind].
  pose proof (look_up_none find kds) as N. destruct (head _) as [k|].
  - destruct (look_up find kds) as [vds|]; [|done]. exfalso. by pose proof (proj2 N ltac:(eauto)).
  - destruct (proj1 N eq_refl) as [vds E]. rewrite E, (store_values_spec atoms fuel find this kds vds) by done. done.
Qed.

(** ** Records *)

(** The elements with those at the given places, from 1, replaced in turn. *)
Definition updated (els : list Term) (ups : list (Z * Term)) : list Term :=
  foldl (fun els u => <[Z.to_nat (u.1 - 1) := u.2]> els) els ups.
Definition update_words (ups : list (Z * Term)) : list Term := mjoin ((fun u => [make_small_signed u.1; u.2]) <$> ups).
Lemma update_words_cons i v ups : update_words ((i, v) :: ups) = make_small_signed i :: v :: update_words ups.
Proof. done. Qed.

Lemma update_elements_spec s ups : forall els,
  Forall (fun u => constant u.2 /\ 1 <= u.1 <= Z.of_nat (length els) /\ value_ok u.1) ups ->
  update_elements s els (update_words ups) = Ret (updated els ups).
Proof.
  induction ups as [|[i v] ups IH]; intros els H; [done|]. inversion_clear H as [|?? (Hc & Hi & Hb) Hu].
  rewrite update_words_cons. cbn [fst snd update_elements] in *.
  rewrite load_constant by done. cbn [vm_bind].
  destruct (small_value i Hb) as (_ & -> & _). unfold usize_sub. rewrite (proj2 (Z.leb_le 1 i)), (proj2 (Z.ltb_lt _ _)) by lia.
  apply IH. eapply Forall_impl; [exact Hu|]. intros [j w] (? & ? & ?). by rewrite length_insert.
Qed.

Lemma updated_length ups : forall els, length (updated els ups) = length els.
Proof. unfold updated. induction ups as [|u ups IH]; intros els; cbn; [done|]. by rewrite IH, length_insert. Qed.

(** The record that is updated: a new tuple of its elements with the given ones replaced. *)
Lemma update_record_spec s size src dst words v els ups :
  load_arg s src = Ret v -> tuple_at s v = Ret els -> els <> [] -> get_small_unsigned size = Z.of_nat (length els) ->
  tuple_at s words = Ret (update_words ups) ->
  Forall (fun u => constant u.2 /\ 1 <= u.1 <= Z.of_nat (length els) /\ value_ok u.1) ups ->
  op_update_record size src dst words s = do! (x, s) := make_tuple s (updated els ups) in do! s := store s x dst in normal s.
Proof.
  intros Hv He Hne Hs Hw Hu. unfold op_update_record, make_tuple. rewrite Hv, updated_length. cbn [vm_bind]. rewrite Hs.
  unfold alloc_words. destruct (alloc _ _ _) as [[pos h]| | | |]; cbn [vm_bind]; try done.
  rewrite (proj2 (Z.eqb_neq _ 0)) by (destruct els; cbn [length]; [done | lia]).
  set (s1 := with_proc _ _). change (tuple_at s1) with (tuple_at s). rewrite He. cbn [vm_bind].
  rewrite (proj2 (Z.ltb_ge _ _)) by lia. change (tuple_at s1) with (tuple_at s). rewrite Hw. cbn [vm_bind].
  rewrite Nat2Z.id, take_ge by lia. rewrite update_elements_spec by done. cbn [vm_bind].
  pose proof (updated_length ups els) as L. destruct (updated els ups) as [|e es]; [by destruct els|].
  by destruct (make_boxed _).
Qed.

(** ** Floats *)

Lemma make_float_ok s val : machine_ok s -> block_ok s -> room s Float_storage_size ->
  exists x s', make_float val s = Ret (x, s') /\ get_float_unchecked (mem s') x = Ret val /\ is_float (mem s') x = Ret true /\
    ctx s' = ctx s.
Proof.
  intros O B R. unfold make_float. destruct (alloc_words_copied s Float_storage_size O) as (s1 & E & K & M); [done | done|].
  assert (ctx s1 = ctx s) as Ec.
  { revert E. unfold alloc_words. destruct (alloc _ _ _) as [[? ?]| | | |]; cbn; [|done..]. by intros [= _ <-]. }
  rewrite E. cbn [vm_bind]. assert (room s 0) as R0 by (unfold room, Float_storage_size in *; lia). destruct (next_aligned s B O R0) as [Hx Ha].
  destruct (boxed_reads (next s)) as (x & Ex & _ & _ & Ht & Hp); [lia | done|]. rewrite Ex. cbn [unwrap vm_bind].
  eexists x, _. split; [reflexivity|]. assert (is_boxed x = true) as Hb by (unfold is_boxed; by rewrite Ht).
  unfold get_float_unchecked, is_float, is_boxed_of_type, is_boxed_of_, load_box. cbn [mem put_box boxes]. rewrite Hp, Hb, lookup_insert_eq.
  cbn [negb read vm_bind get_type]. rewrite bool_decide_eq_true_2 by done. by split_and!.
Qed.

(** A number that leaves its register for a word on the heap comes back as it was. *)
Lemma float_roundtrip s f g x val : machine_ok s -> block_ok s -> room s Float_storage_size ->
  is_register_float f = true -> is_register_float (make_register_x x) = false -> is_register_float g = true ->
  0 <= x < MAX_XREGS -> get_fp (ctx s) f = Ret val -> (Z.to_nat (get_reg_value g) < length (fpregs (ctx s)))%nat ->
  exists s1 s2, op_fmove f (make_register_x x) s = Ret (Normal, s1) /\ op_fmove (make_register_x x) g s1 = Ret (Normal, s2) /\
    get_fp (ctx s2) g = Ret val.
Proof.
  intros O B R Hf Hx Hg Hr Hv Hl. pose proof O as (_ & Hregs & _). destruct (make_float_ok s val O B R) as (y & s1 & E & Ev & Et & Ec).
  unfold op_fmove. rewrite Hf, Hx, Hg. cbn [andb]. rewrite Hv. cbn [vm_bind]. rewrite E. cbn [vm_bind]. rewrite store_x by (by rewrite ?Ec). cbn [vm_bind].
  eexists _, _. split; [reflexivity|]. set (s2 := with_ctx s1 _).
  assert (load_arg s2 (make_register_x x) = Ret y) as ->.
  { unfold load_arg, load. destruct (register_x_reads x Hr) as (E1 & E2 & E3). rewrite E1, E2. cbn [Z.eqb REG_X Pos.eqb]. unfold get_x. rewrite E3.
    unfold s2. cbn. rewrite list_lookup_insert_eq; [done|]. rewrite Ec. lia. }
  cbn [vm_bind]. unfold term_to_f64. change (mem s2) with (mem s1). rewrite Et. cbn [vm_bind]. rewrite Ev. cbn [vm_bind].
  unfold set_fp. change (fpregs (ctx s2)) with (fpregs (ctx s1)). rewrite Ec, (proj2 (Nat.ltb_lt _ _)) by done. cbn [vm_bind].
  split; [reflexivity|]. unfold get_fp. cbn. by rewrite list_lookup_insert_eq.
Qed.

Module MapOpsWitness.
Import MapFunsWitness.
(** A map of two keys, and an instruction that takes the first into a register. *)
Definition words : Term := from_raw (4208 + 3).
Definition this : Map := {| storage_words := 6; pairs := [(small 1, small 10); (small 2, small 20)] |}.
Definition state : Machine := put_box two 4208 (OTuple (key_words [(small 1, 3)])).
Definition find (k : Term) : option Term := if bool_decide (k = small 1) then Some (small 10) else None.

Lemma map_elements_all_or_none_witness :
  look_up find [(small 1, 3)] = Some [(small 10, 3)] /\
  op_get_map_elements init_storage 5 nil map_of_two words state =
    normal (with_ctx state (set_regs (ctx state) (<[3%nat := small 10]> (regs (ctx state))))).
Proof.
  split; [reflexivity|].
  refine (map_elements_all_or_none init_storage 5 nil map_of_two words map_of_two state this find [(small 1, 3)] _ _ _ _ _ _ _).
  - vm_compute. reflexivity.
  - vm_compute. reflexivity.
  - intros E. apply (f_equal raw) in E. vm_compute in E. discriminate.
  - vm_compute. reflexivity.
  - vm_compute. reflexivity.
  - constructor; [|constructor]. split; [vm_compute; reflexivity|]. split; [vm_compute; split; congruence | vm_compute; reflexivity].
  - vm_compute. reflexivity.
Defined.

(** An arity that stands in a register is an error of the machine. *)
Lemma arity_in_register : op_is_function2 nil TRUE (make_register_x 0) state = Fail TermIsNotABoxed.
Proof. vm_compute. reflexivity. Qed.

(** Putting a key into the empty map writes past the new map. *)
Lemma put_assoc_wild : op_put_map_assoc init_storage 5 empty_map (make_register_x 0) words state = Wild.
Proof. vm_compute. reflexivity. Qed.
End MapOpsWitness.
