(* ===== verification/BeamSettled.v ===== *)
(** The instructions on maps, records, floats and bits leave what the scheduler keeps of a
    process alone, and spend no reductions. *)
From S2P Require Import Prelude Float64 BeamTerm BeamMem BeamBinary BeamCompare BeamMap BeamHeap BeamProc BeamOps BeamFacts BeamCopy BeamReader BeamCte BeamBits BeamBitOps BeamMatch BeamNative BeamListFuns BeamMapFuns BeamMapOps.

Definition settles {A} (s : Machine) (r : vm (A * Machine)) : Prop := post (fun r => settled s r.2) r.

Lemma vm_bind_assoc {A B C} (r : vm A) (k1 : A -> vm B) (k2 : B -> vm C) : vm_bind (vm_bind r k1) k2 = vm_bind r (fun a => vm_bind (k1 a) k2).
Proof. by destruct r. Qed.

Lemma settled_refl s : settled s s.
Proof. by split. Qed.
Lemma settled_trans s1 s2 s3 : settled s1 s2 -> settled s2 s3 -> settled s1 s3.
Proof. intros [R1 (A1 & B1 & C1 & D1)] [R2 (A2 & B2 & C2 & D2)]. unfold settled, same_identity. split_and!; congruence. Qed.

(** What changes registers, the heap or memory only. *)
Lemma settled_put s s' p o : settled s s' -> settled s (put_box s' p o).
Proof. done. Qed.
Lemma settled_ctx s s' c : settled s s' -> reductions c = reductions (ctx s') -> settled s (with_ctx s' c).
Proof. intros [R I] E. split; [by rewrite <- R | done]. Qed.
Lemma settled_mem s s' m : settled s s' -> settled s (with_mem s' m).
Proof. done. Qed.
Lemma settled_proc s s' : settled s s' -> settled s (with_proc s' (proc s')).
Proof. done. Qed.

Create HintDb settled.
#[export] Hint Resolve settled_refl settled_put settled_mem settled_proc : settled.
#[export] Hint Extern 1 (settled _ (with_ctx _ _)) => (apply settled_ctx; [|reflexivity]) : settled.
#[export] Hint Extern 1 (settled _ (jump_to _ _)) => (apply settled_ctx; [|reflexivity]) : settled.
#[export] Hint Extern 1 (settled _ (advance _ _)) => (apply settled_ctx; [|reflexivity]) : settled.
#[export] Hint Extern 1 (settled _ (reset_bin _ _ _)) => (apply settled_ctx; [|reflexivity]) : settled.
#[export] Hint Extern 1 (settled _ (put_cons_cell _ _ _ _)) => (apply settled_put) : settled.
#[export] Hint Extern 1 (settled _ (put_map _ _ _)) => (apply settled_put) : settled.
#[export] Hint Extern 1 (settled _ (set_match_offset _ _ _ _)) => (apply settled_put) : settled.
#[export] Hint Extern 1 (settled _ (increase_match_offset _ _ _ _)) => (apply settled_put) : settled.

Lemma store_settles s v x : post (settled s) (store s v x).
Proof.
  unfold store, store_value. repeat case_match; cbn; try done; unfold set_x, vm_bind; repeat case_match; try done; simplify_eq/=; done.
Qed.
Lemma alloc_words_settles s n : settles s (alloc_words s n).
Proof. unfold settles, alloc_words. eapply post_bind; [apply post_any|]. by intros [p h] _. Qed.
Lemma store_y_settles s y v : post (settled s) (store_y s y v).
Proof. unfold store_y. eapply post_bind; [apply post_any|]. by intros h _. Qed.
#[export] Hint Resolve store_settles alloc_words_settles store_y_settles : settled.

(** A step that settles, within what runs from [s]. *)
Lemma via_machine {B} (Q : B -> Prop) s s1 (m : vm Machine) f : settled s s1 -> post (settled s1) m ->
  (forall s2, settled s s2 -> post Q (f s2)) -> post Q (vm_bind m f).
Proof. intros H1 H2 Hf. eapply post_bind; [exact H2|]. intros s2 H. apply Hf. by eapply settled_trans. Qed.
Lemma via_pair {A B} (Q : B -> Prop) s s1 (m : vm (A * Machine)) f : settled s s1 -> settles s1 m ->
  (forall a s2, settled s s2 -> post Q (f (a, s2))) -> post Q (vm_bind m f).
Proof. intros H1 H2 Hf. eapply post_bind; [exact H2|]. intros [a s2] H. apply Hf. by eapply settled_trans. Qed.

Lemma via_tail {A} s s1 (m : vm (A * Machine)) : settled s s1 -> settles s1 m -> post (fun r => settled s r.2) m.
Proof. intros H1 H2. eapply post_mono; [exact H2|]. intros r. by apply settled_trans. Qed.
Lemma via_last s s1 (m : vm Machine) : settled s s1 -> post (settled s1) m -> post (settled s) m.
Proof. intros H1 H2. eapply post_mono; [exact H2|]. intros r. by apply settled_trans. Qed.

(** The state that a goal starts from. *)
Ltac start_of Q := lazymatch Q with settled ?s => s | fun _ => settled ?s _ => s end.
Ltac settle_step := cbv beta zeta; lazymatch goal with
  | |- settles _ _ => unfold settles
  | |- post _ (normal _) => unfold normal
  | |- post _ (raise _ _ _) => unfold raise
  | |- post _ (store_normal _ _ _) => unfold store_normal
  | |- post _ (jump_if _ _ _) => unfold jump_if
  | |- post _ (maybe_jump_fail _ _) => unfold maybe_jump_fail
  | |- post _ (jump_or_badarg _ _) => unfold jump_or_badarg
  | |- post _ (Ret _) => cbn [post fst snd]; repeat case_match; eauto with settled; fail
  | |- post _ (vm_bind (vm_bind _ _) _) => rewrite vm_bind_assoc
  | |- post _ (vm_bind (Ret _) _) => cbn [vm_bind]
  | |- post _ (vm_bind Panic _) => exact I
  | |- post _ (vm_bind Wild _) => exact I
  | |- post _ (vm_bind (Fail _) _) => exact I
  | |- post _ (vm_bind (ensure_heap _ _) _) => eapply post_bind; [apply ensure_heap_same|]; intros ? ->
  | |- post _ (vm_bind (match ?x with _ => _ end) _) => destruct x
  | |- post ?Q (vm_bind ?m ?f) =>
    let s := start_of Q in
    first [ eapply (via_machine Q s _ m f); [| eauto with settled; fail |]; [eauto with settled; fail | intros ? ?]
          | eapply (via_pair Q s _ m f); [| eauto with settled; fail |]; [eauto with settled; fail | intros ? ? ?]
          | eapply post_bind; [apply post_any|]; intros ? _ ]
  | |- post _ (match ?x with _ => _ end) => destruct x
  | |- post ?Q _ =>
    let s := start_of Q in
    first [exact I | eapply (via_tail s); [| eauto with settled; fail]; eauto with settled; fail
          | eapply (via_last s); [| eauto with settled; fail]; eauto with settled; fail]
  end.
Ltac settle := intros; repeat settle_step.

Lemma make_tuple_settles s els : settles s (make_tuple s els).
Proof. unfold make_tuple. settle. Qed.
#[export] Hint Resolve make_tuple_settles : settled.
Lemma tuple2_fail_settles s a v : settles s (generic_tuple2_fail s a v).
Proof. unfold generic_tuple2_fail. settle. Qed.
Lemma make_float_settles v s : settles s (make_float v s).
Proof. unfold make_float. settle. Qed.
Lemma set_fp_settles s t v : post (settled s) (set_fp s t v).
Proof. unfold set_fp. settle. Qed.
#[export] Hint Resolve tuple2_fail_settles make_float_settles set_fp_settles : settled.

Section Data.
Context (atoms : AtomStorage) (fuel : nat).

Lemma copy_and_add_settles n old words dst s : settles s (copy_and_add atoms fuel n old words dst s).
Proof. unfold copy_and_add. settle. Qed.
#[local] Hint Resolve copy_and_add_settles : settled.
Lemma jump_or_raise_settles fail a v s : settles s (jump_or_raise fail a v s).
Proof. unfold jump_or_raise. settle. Qed.
#[local] Hint Resolve jump_or_raise_settles : settled.
Lemma store_values_settles this n : forall words s, (length words <= n)%nat -> post (settled s) (store_values atoms fuel this words s).
Proof.
  induction n as [|n IH]; intros [|k [|d words]] s Hn; cbn [store_values length] in *; try apply settled_refl; try lia.
  settle. eapply post_mono; [apply IH; lia|]. intros s3. by apply settled_trans.
Qed.
Lemma store_all_settles this words s : post (settled s) (store_values atoms fuel this words s).
Proof. by apply (store_values_settles this (length words)). Qed.
#[local] Hint Resolve store_all_settles : settled.
Lemma init_each_settles ys : forall s, post (settled s) (init_each s ys).
Proof.
  induction ys as [|y ys IH]; intros s; cbn [init_each]; settle.
Qed.
#[local] Hint Resolve init_each_settles : settled.
Lemma for_each_settles m (f : Term -> Machine -> vm Machine) : (forall x s, post (settled s) (f x s)) ->
  forall n l s, settles s (for_each m f n l s).
Proof.
  intros Hf. assert (forall n p s, settles s (for_each_from m f n p s)) as H.
  { induction n as [|n IH]; intros p s; [done|]. cbn [for_each_from]. unfold settles. eapply post_bind; [apply post_any|]. intros [hd tl] _.
    eapply post_bind; [apply Hf|]. intros s1 H1. case_match; [|done]. eapply post_mono; [apply IH|]. intros r. by apply settled_trans. }
  intros n l s. unfold for_each. case_match; [done|]. unfold settles. eapply post_bind; [apply H|]. by intros [? ?].
Qed.

Lemma init_cells_settles m n l s : settles s (for_each m (fun y s => store_y s y nil) n l s).
Proof. apply for_each_settles. intros. apply store_y_settles. Qed.
#[local] Hint Resolve init_cells_settles : settled.
Lemma data_settles i s : settles s (data_op atoms fuel i s).
Proof.
  destruct i; cbn [data_op];
    unfold op_is_map, op_put_map_assoc, op_put_map_exact, op_has_map_fields, op_get_map_elements, op_update_record, op_badrecord,
      op_set_tuple_element, op_init_yregs, op_is_function2, op_fmove, op_fconv, op_float, op_fnegate; settle.
Qed.
End Data.

(** ** Lists *)

Lemma make_cell_settles s : settles s (make_cell s).
Proof. unfold settles, make_cell. eapply post_bind; [apply post_any|]. by intros [pos h] _. Qed.
Lemma set_hd_settles p v s : post (settled s) (set_hd p v s).
Proof. unfold set_hd. eapply post_bind; [apply post_any|]. by intros [? ?] _. Qed.
Lemma set_tl_settles p v s : post (settled s) (set_tl p v s).
Proof. unfold set_tl. eapply post_bind; [apply post_any|]. by intros [? ?] _. Qed.
#[export] Hint Resolve make_cell_settles set_hd_settles set_tl_settles : settled.
Lemma append_settles lb x s : settles s (append lb x s).
Proof. unfold append. settle. Qed.
#[export] Hint Resolve append_settles : settled.

(** * The bit syntax *)

Section Bits.
Lemma unwrap_store_settles s v x : post (settled s) (unwrap_result (store s v x)).
Proof. pose proof (store_settles s v x) as H. by destruct (store s v x). Qed.
#[local] Hint Resolve unwrap_store_settles : settled.
Context (stale : Z -> nat -> list Z) (fuel : nat).

Lemma create_into_settles n s : settles s (create_into stale n s).
Proof. unfold create_into. settle. Qed.
#[local] Hint Resolve create_into_settles : settled.
Lemma create_ensured_settles n x s : settles s (create_ensured stale n x s).
Proof. unfold create_ensured. settle. Qed.
Lemma slice_create_settles o f n s : settles s (slice_create_into o f n s).
Proof. unfold slice_create_into. settle. Qed.
#[local] Hint Resolve create_ensured_settles slice_create_settles : settled.
Lemma finish_init_settles bits extra off dst s : settles s (finish_init stale bits extra off dst s).
Proof. unfold finish_init. settle. Qed.
Lemma append_data_settles p src n s : post (settled s) (append_data p src n s).
Proof. unfold append_data. settle. Qed.
Lemma put_integer_settles p v n o f s : post (settled s) (put_integer_into p v n o f s).
Proof. unfold put_integer_into. settle. Qed.
#[local] Hint Resolve finish_init_settles append_data_settles put_integer_settles : settled.
Lemma match_state_create_settles o s : settles s (match_state_create_into o s).
Proof. unfold match_state_create_into. settle. Qed.
Lemma make_slice_settles b n s : settles s (make_slice b n s).
Proof. unfold make_slice. settle. Qed.
#[local] Hint Resolve match_state_create_settles make_slice_settles : settled.
Lemma start_new_settles o dst s : settles s (start_with_new_binary o dst s).
Proof. unfold start_with_new_binary. settle. Qed.
Lemma continue_settles p dst s : settles s (continue_with_matchstate p dst s).
Proof. unfold continue_with_matchstate. settle. Qed.
Lemma get_tail_settles b live dst s : post (settled s) (get_tail b live dst s).
Proof. unfold get_tail. settle. Qed.
Lemma extract_integer_settles p bits unit dst s : settles s (extract_integer p bits unit dst s).
Proof. unfold extract_integer. settle. Qed.
#[local] Hint Resolve start_new_settles continue_settles get_tail_settles extract_integer_settles : settled.
Lemma run_command_settles c args p s : settles s (run_command c args p s).
Proof. unfold run_command. settle. Qed.
Lemma paste_ops_settles p ops : forall off s, settles s (paste_ops p ops off s).
Proof. induction ops as [|op ops IH]; intros off s; cbn [paste_ops]; settle. Qed.
#[local] Hint Resolve run_command_settles paste_ops_settles : settled.
Definition settles_at {A} (s : Machine) (r : vm (A * Machine * AtomStorage)) : Prop := post (fun r => settled s r.1.2) r.
Lemma plain_settles {A} s (r : vm (A * Machine)) (st : AtomStorage) : settles s r -> settles_at s (do! r := r in Ret (r, st)).
Proof. intros H. unfold settles_at. eapply post_bind; [exact H|]. by intros [a s1]. Qed.

Lemma run_one_settles p c st s : settles s (run_one p c st s).
Proof. unfold run_one. settle. Qed.
#[local] Hint Resolve run_one_settles : settled.
Lemma run_flat_settles p n : forall terms st s, settles s (run_flat_terms n p terms st s).
Proof. induction n as [|n IH]; intros terms st s; cbn [run_flat_terms]; settle. Qed.
Lemma run_each_settles p cs : forall st s, settles s (run_each p cs st s).
Proof. induction cs as [|c cs IH]; intros st s; cbn [run_each]; settle. Qed.
Lemma run_cells_settles p n : forall cell st s, settles s (run_cells n p cell st s).
Proof. induction n as [|n IH]; intros cell st s; cbn [run_cells]; settle. Qed.
#[local] Hint Resolve run_flat_settles run_each_settles run_cells_settles : settled.
Lemma run_commands_settles p l st s : settles s (run_commands fuel p l st s).
Proof. unfold run_commands. settle. Qed.
#[local] Hint Resolve run_commands_settles : settled.

Lemma create_bin_settles fail alloc live dst l st s : settles_at s (bs_create_bin stale fuel fail alloc live dst l st s).
Proof.
  unfold bs_create_bin, settles_at. eapply post_bind; [apply post_any|]. intros [ops st1] _. apply plain_settles. settle.
Qed.
Lemma bs_match_settles fail ms l st s : settles_at s (bs_match fuel fail ms l st s).
Proof.
  unfold bs_match, settles_at. eapply post_bind; [apply post_any|]. intros [p b] _.
  eapply post_bind; [apply run_commands_settles|]. intros [[ok st1] s1] H. cbn [snd] in H. destruct ok as [[]|]; [done| |done].
  eapply post_bind; [apply post_any|]. intros b' _. cbn. case_match; eauto with settled.
Qed.

Lemma bits_settles i st s : settles_at s (bits_op stale fuel i st s).
Proof.
  destruct i; cbn [bits_op]; try apply create_bin_settles; try apply bs_match_settles; apply plain_settles;
    unfold bs_start_match_3, bs_start_match_4, start_match, bs_init2, bs_init_bits, bs_append, bs_put_integer, bs_put_binary, bs_put_string, bs_utf8_size, bs_put_utf8,
      bs_test_tail2, bs_test_unit, bs_skip_bits2, bs_add, bs_get_tail, bs_get_position,
      bs_set_position, bs_get_binary2, bs_context_to_binary, bs_match_string, bs_get_utf8, bs_skip_utf8; settle.
Qed.
End Bits.
