(* ===== verification/BeamCode.v ===== *)
(** The code server ([emulator/code_srv/mod.rs]) and the registry of native functions
    ([native_fun/registry.rs], [native_fun/module.rs], [native_fun/fn_entry.rs]).

    A function pointer is a value of a type [F]; the machine that calls it says what it does.
    What the server finds outside is a [Host]: the files, and where the vectors and heaps of
    a module are allocated.  [stale_at] is what words of a fresh binary hold.  [torn] is the atom table that a reader leaves when it gives up a
    file: which atoms it had registered by then is not modelled, and what is proved holds
    whatever they are. *)
From Stdlib Require Import Ascii.
From S2P Require Import Prelude Float64 BeamTerm BeamMem BeamCompare BeamMap BeamHeap BeamProc BeamOps BeamFacts BeamCopy BeamReader BeamCte BeamEtf BeamFile BeamLoad BeamLink BeamModule BeamSched.

#[export] Instance FunArity_countable : Countable FunArity.
Proof.
  refine (inj_countable' (fun k => (fa_f k, fa_arity k)) (fun p => {| fa_f := p.1; fa_arity := p.2 |}) _).
  by intros [].
Defined.

(** * Native functions by name *)

Section Registry.
Context {F : Type}.

Record NativeFnEntry := { entry_fa : FunArity; entry_func : F }.
Record NativeModule := { nm_name : Term; nm_functions : gmap FunArity F }.
Definition NativeFunRegistry : Type := gmap Term NativeModule.

(** A table of a module as the source lists it: names, arities and functions. *)
Definition Table : Type := list (string * Z * F).

Definition with_str (st : AtomStorage) (fun_name : string) (arity : Z) (func : F) : vm (NativeFnEntry * AtomStorage) :=
  do! (x, st) := unwrap (from_str st fun_name) in
  Ret ({| entry_fa := {| fa_f := x; fa_arity := arity |}; entry_func := func |}, st).

Fixpoint fn_entries (st : AtomStorage) (table : Table) : vm (list NativeFnEntry * AtomStorage) :=
  match table with
  | [] => Ret ([], st)
  | (fun_name, arity, func) :: table =>
    do! (e, st) := with_str st fun_name arity func in
    do! (es, st) := fn_entries st table in Ret (e :: es, st)
  end.

(** Later entries replace earlier ones. *)
Definition init_with (m : NativeModule) (entries : list NativeFnEntry) : NativeModule :=
  {| nm_name := nm_name m; nm_functions := foldl (fun fs e => <[entry_fa e := entry_func e]> fs) (nm_functions m) entries |}.

(** The [new] of a module of natives. *)
Definition new_native_module (st : AtomStorage) (module_name : string) (table : Table) : vm (NativeModule * AtomStorage) :=
  do! (x, st) := unwrap (from_str st module_name) in
  do! (es, st) := fn_entries st table in
  Ret (init_with {| nm_name := x; nm_functions := ∅ |} es, st).

Fixpoint register_preloaded_modules (st : AtomStorage) (modules : NativeFunRegistry) (tables : list (string * Table))
    : vm (NativeFunRegistry * AtomStorage) :=
  match tables with
  | [] => Ret (modules, st)
  | (module_name, table) :: tables =>
    do! (a, st) := unwrap (from_str st module_name) in
    do! (m, st) := new_native_module st module_name table in
    register_preloaded_modules st (<[a := m]> modules) tables
  end.

Definition new_registry (st : AtomStorage) (tables : list (string * Table)) : vm (NativeFunRegistry * AtomStorage) :=
  register_preloaded_modules st ∅ tables.

Definition find_mfa (r : NativeFunRegistry) (mfa : ModFunArity) : option F :=
  match r !! mfa_m mfa with
  | Some module_def => nm_functions module_def !! get_funarity mfa
  | None => None
  end.
Definition mfa_exists (r : NativeFunRegistry) (mfa : ModFunArity) : bool :=
  match r !! mfa_m mfa with
  | Some module_def => match nm_functions module_def !! get_funarity mfa with Some _ => true | None => false end
  | None => false
  end.
End Registry.
Arguments NativeFnEntry : clear implicits.
Arguments NativeModule : clear implicits.
Arguments NativeFunRegistry : clear implicits.
Arguments Table : clear implicits.

(** * The code server *)

Record ModuleGenerations := { curr_modp : Module; curr_version : Z; old_modp : option Module; old_version : Z }.

(** [BTreeMap<Term, ModuleGenerations>]: the pairs in the order of the keys. *)
Definition ModuleMap : Type := list (Term * ModuleGenerations).
Fixpoint mods_get (k : Term) (t : ModuleMap) : option ModuleGenerations :=
  match t with [] => None | (k', v) :: t => if bool_decide (k = k') then Some v else mods_get k t end.
Fixpoint mods_insert (k : Term) (v : ModuleGenerations) (t : ModuleMap) : ModuleMap :=
  match t with
  | [] => [(k, v)]
  | (k', v') :: t' =>
    if bool_decide (k = k') then (k, v) :: t' else if raw k <? raw k' then (k, v) :: t else (k', v') :: mods_insert k v t'
  end.

Record CodeServer (F : Type) := {
  mods : ModuleMap;
  search_path : list string;
  mod_version : Z;
  native_functions : NativeFunRegistry F
}.
Arguments mods {F}. Arguments search_path {F}. Arguments mod_version {F}. Arguments native_functions {F}.

Inductive MFALookupResult (F : Type) := FoundBeamCode (p : Z) | FoundBif (f : F).
Arguments FoundBeamCode {F}. Arguments FoundBif {F}.

(** What is outside of the server. *)
Record Host := {
  files : string -> option (list Z);
  inflate : list Z -> option (list Z);
  regrow : Z -> nat -> Z * nat;
  code_at : Z -> Z;
  lambdas_at : Z -> Z;
  literal_heap : Z -> Process;
  torn : list Z -> AtomStorage -> AtomStorage;
  stale_at : Z -> nat -> list Z
}.

(** The server with the atom table and the memory that loading writes to. *)
Record Server (F : Type) := { code_server : CodeServer F; srv_atoms : AtomStorage; srv_memory : Memory }.
Arguments code_server {F}. Arguments srv_atoms {F}. Arguments srv_memory {F}.

(** The result of an operation that may fail and go on. *)
Inductive result (A : Type) := Okay (a : A) | Err (e : RtErr).
Arguments Okay {A}. Arguments Err {A}.

Definition caught {A B} (r : vm A) (on_err : RtErr -> vm B) (k : A -> vm B) : vm B :=
  match r with
  | Ret a => k a
  | Fail e => on_err e
  | Panic => Panic
  | Wild => Wild
  | Spin => Spin
  end.

(** [Path::file_stem] of a path: its last component up to its last dot. *)
Fixpoint last_component (path from_here : string) : string :=
  match path with
  | EmptyString => from_here
  | String c path => last_component path (if bool_decide (c = "/"%char) then path else from_here)
  end.
Fixpoint before_last_dot (s : string) : option string :=
  match s with
  | EmptyString => None
  | String c s =>
    match before_last_dot s with
    | Some t => Some (String c t)
    | None => if bool_decide (c = "."%char) then Some EmptyString else None
    end
  end.
Definition file_stem (path : string) : string :=
  let file_name := last_component path path in
  match before_last_dot file_name with Some (String c s) => String c s | _ => file_name end.

Section Server.
Context {F : Type} (host : Host).

Definition new_code_server (path : list string) (natives : NativeFunRegistry F) : CodeServer F :=
  {| mods := []; search_path := path; mod_version := 1; native_functions := natives |}.

Definition with_mods (cs : CodeServer F) (ms : ModuleMap) : CodeServer F :=
  {| mods := ms; search_path := search_path cs; mod_version := mod_version cs; native_functions := native_functions cs |}.
Definition with_server (s : Server F) (cs : CodeServer F) : Server F :=
  {| code_server := cs; srv_atoms := srv_atoms s; srv_memory := srv_memory s |}.
Definition with_srv_atoms (s : Server F) (st : AtomStorage) : Server F :=
  {| code_server := code_server s; srv_atoms := st; srv_memory := srv_memory s |}.

Definition lookup_beam_code_versioned (cs : CodeServer F) (mfarity : ModFunArity) : vm (VersionedModuleName * Z) :=
  match mods_get (mfa_m mfarity) (mods cs) with
  | None => Fail ModuleNotFound
  | Some mptr =>
    do! code_p := mod_lookup (curr_modp mptr) mfarity in
    Ret ({| vn_module := mfa_m mfarity; vn_version := curr_version mptr |}, code_p)
  end.

Definition lookup_beam_code (cs : CodeServer F) (mfarity : ModFunArity) : vm Z :=
  match mods_get (mfa_m mfarity) (mods cs) with
  | None => Fail ModuleNotFound
  | Some mptr => mod_lookup (curr_modp mptr) mfarity
  end.

Fixpoint first_exists_in_search_path (search_paths : list string) (filename : string) : option string :=
  match search_paths with
  | [] => None
  | each_search_path :: search_paths =>
    let full_path := (each_search_path +:+ "/" +:+ filename +:+ ".beam")%string in
    match files host full_path with Some _ => Some full_path | None => first_exists_in_search_path search_paths filename end
  end.
Definition find_module_file (cs : CodeServer F) (filename : string) : vm string :=
  match first_exists_in_search_path (search_path cs) filename with
  | Some found_first => Ret found_first
  | None => Fail BEAMFileNotFound
  end.

(** The module that was there is dropped. *)
Definition module_loaded (cs : CodeServer F) (mod_ptr : Module) : CodeServer F :=
  let mg := {| curr_modp := mod_ptr; curr_version := vn_version (versioned_name mod_ptr); old_modp := None; old_version := 0 |} in
  with_mods cs (mods_insert (vn_module (versioned_name mod_ptr)) mg (mods cs)).

Definition next_module_version (cs : CodeServer F) : Z * CodeServer F :=
  (mod_version cs, {| mods := mods cs; search_path := search_path cs; mod_version := mod_version cs + 1;
                      native_functions := native_functions cs |}).

(** [loader::load_module] and [module_loaded].  The version is taken when the atoms of the
    file are registered, whether or not the later stages succeed. *)
Definition try_load_module (path : string) (s : Server F) : vm (result unit * Server F) :=
  let cs := code_server s in
  let ver := mod_version cs in
  let heap := {| mem := srv_memory s; proc := literal_heap host ver |} in
  match files host path with
  | None => Ret (Err BEAMFileNotFound, s)
  | Some file =>
    caught (read_chunks (inflate host) file heap (srv_atoms s)) (fun e => Ret (Err e, with_srv_atoms s (torn host file (srv_atoms s)))) (fun b =>
    do! l := stage2_register_atoms ver (new_loader b (code_at host ver) (lambdas_at host ver)) in
    let cs := snd (next_module_version cs) in
    caught (do! l := stage2_fill_lambdas l in do! l := parse_raw_code (regrow host) l in do! l := fix_labels l in finish_load (file_stem path) l)
      (fun e => Ret (Err e, {| code_server := cs; srv_atoms := vm_atom_table (beam_file l); srv_memory := srv_memory s |}))
      (fun '(m, st) => Ret (Okay tt, {| code_server := module_loaded cs m; srv_atoms := st; srv_memory := mem (m_lit_heap m) |})))
  end.

Definition lookup_beam_code_and_load (mfarity : ModFunArity) (s : Server F) : vm (result Z * Server F) :=
  caught (lookup_beam_code (code_server s) mfarity) (fun _ =>
    caught (to_str (srv_atoms s) (mfa_m mfarity)) (fun e => Ret (Err e, s)) (fun mod_name =>
    caught (find_module_file (code_server s) mod_name) (fun e => Ret (Err e, s)) (fun found_mod =>
    do! (r, s) := try_load_module found_mod s in
    match r with
    | Err e => Ret (Err e, s)
    | Okay _ =>
      caught (lookup_beam_code (code_server s) mfarity) (fun _ =>
        caught (do! _ := to_str (srv_atoms s) (mfa_m mfarity) in to_str (srv_atoms s) (mfa_f mfarity))
          (fun e => Ret (Err e, s)) (fun _ => Ret (Err FunctionNotFound, s))) (fun ip => Ret (Okay ip, s))
    end))) (fun ip => Ret (Okay ip, s)).

Definition lookup_mfa (mfa : ModFunArity) (allow_load : bool) (s : Server F) : vm (result (MFALookupResult F) * Server F) :=
  match find_mfa (native_functions (code_server s)) mfa with
  | Some bif_fn => Ret (Okay (FoundBif bif_fn), s)
  | None =>
    do! (r, s) := (if allow_load then lookup_beam_code_and_load mfa s
                   else caught (lookup_beam_code (code_server s) mfa) (fun e => Ret (Err e, s)) (fun ip => Ret (Okay ip, s))) in
    match r with
    | Okay code_p => Ret (Okay (FoundBeamCode code_p), s)
    | Err _ => Ret (Err NotFound, s)
    end
  end.

(** The module of a code address, the first in the order of the keys. *)
Fixpoint reverse_in (undefined : Term) (t : ModuleMap) (ip : Z) : vm (option (ModFunArity * Module)) :=
  match t with
  | [] => Ret None
  | (_, val) :: t =>
    do! lresult := code_reverse_lookup undefined (curr_modp val) ip in
    match lresult with Some mfa => Ret (Some (mfa, curr_modp val)) | None => reverse_in undefined t ip end
  end.
Definition srv_code_reverse_lookup (undefined : Term) (cs : CodeServer F) (ip : Z) : vm (option ModFunArity) :=
  do! r := reverse_in undefined (mods cs) ip in Ret (fst <$> r).
Definition code_reverse_lookup_with_line (undefined : Term) (cs : CodeServer F) (ip : Z) : vm (option (ModFunArity * Z)) :=
  do! r := reverse_in undefined (mods cs) ip in
  match r with
  | None => Ret None
  | Some (mfa, modp) => do! line := lookup_line_for_ip modp ip in Ret (Some (mfa, line))
  end.
End Server.
