(* ===== verification/BeamCodeFacts.v ===== *)
(** What the code server keeps: loading gives a module the name of its file and a version of
    its own, a lookup that succeeded succeeds again with the same address, a module that was
    there is replaced by a load of its own file only, and the natives are found by name. *)
From Stdlib Require Import Ascii.
From S2P Require Import Prelude Float64 BeamTerm BeamMem BeamCompare BeamMap BeamHeap BeamProc BeamOps BeamFacts BeamCopy BeamReader BeamCte BeamEtf BeamFile BeamLoad BeamLink BeamModule BeamSched BeamCode.

(** * Postconditions of computations *)

Notation yields r Q := (post Q r) (only parsing).

Lemma post_ret {A} (a : A) (Q : A -> Prop) : Q a -> yields (Ret a) Q.
Proof. done. Qed.
Lemma post_skip {A B} (r : vm A) (k : A -> vm B) (Q : B -> Prop) : (forall a, yields (k a) Q) -> yields (vm_bind r k) Q.
Proof. destruct r; cbn; auto. Qed.
Lemma post_caught {A B} (r : vm A) (on_err : RtErr -> vm B) (k : A -> vm B) (P : A -> Prop) (Q : B -> Prop) :
  yields r P -> (forall e, yields (on_err e) Q) -> (forall a, P a -> yields (k a) Q) -> yields (caught r on_err k) Q.
Proof. destruct r; cbn; auto. Qed.

(** Steps through a computation whose intermediate results do not matter. *)
Ltac walk :=
  repeat (cbn [vm_bind]; match goal with
  | |- post _ (Ret _) => apply post_ret
  | |- post _ (vm_bind _ _) => apply post_skip; intros
  | |- post _ ?r => match r with context [match ?x with _ => _ end] => destruct x end
  | |- post _ _ => exact I
  end).

(** * What the passes of the loader leave alone *)

Section Passes.
Context (regrow : Z -> nat -> Z * nat).

(** Name, functions and the atoms of the load and of the machine. *)
Definition fixed (l : LoaderState) : option VersionedModuleName * list Term * list FunEntry * AtomStorage :=
  (BeamLoad.name l, vm_atoms l, fun_entries l, vm_atom_table (beam_file l)).

Lemma push_word_fixed l w : fixed (push_word regrow l w) = fixed l.
Proof. unfold push_word. case_match; [done|]. by destruct (regrow _ _). Qed.

Lemma maybe_convert_label_fixed l val p : yields (maybe_convert_label l val p) (fun r => fixed r.2 = fixed l).
Proof. unfold maybe_convert_label. walk; done. Qed.

Lemma store_opcode_arg_fixed l arg : yields (store_opcode_arg regrow l arg) (fun l' => fixed l' = fixed l).
Proof.
  unfold store_opcode_arg. apply post_skip. intros [].
  - apply post_skip. intros []; try done. apply post_skip. intros es. apply post_ret. exact (push_word_fixed l (raw arg)).
  - case_match; [|apply push_word_fixed]. case_match.
    + eapply post_bind; [apply maybe_convert_label_fixed|]. intros [x l'] Hx. cbn in Hx. apply post_ret. by rewrite push_word_fixed.
    + case_match; [|done]. apply post_skip. intros x. apply post_ret, push_word_fixed.
Qed.

Lemma store_opcode_args_fixed args : forall l, yields (store_opcode_args regrow l args) (fun l' => fixed l' = fixed l).
Proof.
  induction args as [|arg args IH]; intros l; cbn [store_opcode_args]; [done|].
  eapply post_bind; [apply store_opcode_arg_fixed|]. intros l1 H1. eapply post_mono; [apply IH | congruence].
Qed.

Lemma store_instruction_fixed l op args : yields (store_instruction regrow l op args) (fun l' => fixed l' = fixed l).
Proof.
  unfold store_instruction. case_match; [|case_match; [|case_match]].
  - apply post_skip. intros x. by case_match.
  - repeat case_match; done.
  - apply post_skip. intros f. apply post_skip. intros a. case_match; [|done].
    eapply post_mono; [apply store_opcode_args_fixed|]. intros l' ->. by rewrite push_word_fixed.
  - eapply post_mono; [apply store_opcode_args_fixed|]. intros l' ->. apply push_word_fixed.
Qed.

Lemma read_args_fixed cte mode n : forall l r, yields (read_args cte mode n l r) (fun x => fixed x.1.2 = fixed l).
Proof.
  induction n as [|n IH]; intros l r; cbn [read_args]; [done|]. apply post_skip. intros [[arg r1] s]. case_match; [done|].
  apply post_skip. intros [x s1]. eapply post_bind; [apply IH|]. intros [[xs l1] r2] Hx. by apply post_ret.
Qed.

Lemma parse_code_fixed cte fuel : forall l r, yields (parse_code regrow cte fuel l r) (fun l' => fixed l' = fixed l).
Proof.
  induction fuel as [|fuel IH]; intros l r; cbn [parse_code]; [done|]. case_match; [done|].
  apply post_skip. intros [op r1]. apply post_skip. intros arity.
  eapply post_bind; [apply read_args_fixed|]. intros [[args l1] r2] H1. cbn in H1.
  eapply post_bind; [apply store_instruction_fixed|]. intros l2 H2. eapply post_mono; [apply IH | congruence].
Qed.

Lemma parse_raw_code_fixed l : yields (parse_raw_code regrow l) (fun l' => fixed l' = fixed l).
Proof.
  unfold parse_raw_code. apply post_skip. intros [[n r] s]. eapply post_bind; [apply parse_code_fixed|].
  intros l1 H. by case_match.
Qed.

Lemma fix_labels_fixed l : yields (fix_labels l) (fun l' => fixed l' = fixed l).
Proof.
  unfold fix_labels. generalize (replace_labels l) as repl. intros repl. change (fixed l) with (fixed (with_labels l (labels l) [])).
  generalize (with_labels l (labels l) []) as l0. clear l. induction repl as [|ploc repl IH]; intros l; cbn [fix_all]; [done|].
  apply (post_bind (fun l' => fixed l' = fixed l)); [|intros l1 H; eapply post_mono; [apply IH | congruence]].
  unfold fix_label. destruct ploc.
  - apply post_skip. intros w. by apply post_skip.
  - apply post_skip. intros []; try done. by apply post_skip.
Qed.

Lemma setup_imports_fixed l : yields (setup_imports l) (fun l' => fixed l' = fixed l).
Proof. unfold setup_imports. apply post_skip. intros [xs s]. apply post_skip. intros w. by apply post_skip. Qed.

(** The module and the table that the stages after the second give. *)
Definition names_of_load (stem : string) (version : Z) (st0 : AtomStorage) (r : Module * AtomStorage) : Prop :=
  vn_version (versioned_name r.1) = version /\ from_str st0 stem = Some (vn_module (versioned_name r.1), r.2).

Lemma late_stages_give stem l id : BeamLoad.name l = Some id ->
  yields (do! l := stage2_fill_lambdas l in do! l := parse_raw_code regrow l in do! l := fix_labels l in finish_load stem l)
    (names_of_load stem (vn_version id) (vm_atom_table (beam_file l))).
Proof.
  intros Hn. apply (post_bind (fun l0 => BeamLoad.name l0 = BeamLoad.name l /\ vm_atom_table (beam_file l0) = vm_atom_table (beam_file l)));
    [unfold stage2_fill_lambdas; by apply post_skip|].
  intros l0 [N0 T0]. eapply post_bind; [apply parse_raw_code_fixed|]. intros l1 H1.
  eapply post_bind; [apply fix_labels_fixed|]. intros l2 H2. unfold finish_load.
  eapply post_bind; [apply setup_imports_fixed|]. intros l3 H3. unfold load_finalize.
  assert (BeamLoad.name l3 = BeamLoad.name l /\ vm_atom_table (beam_file l3) = vm_atom_table (beam_file l)) as [-> ->].
  { unfold fixed in *. injection H1 as ? ? ? ?. injection H2 as ? ? ? ?. injection H3 as ? ? ? ?. split; congruence. }
  rewrite Hn. cbn [vm_bind].
  destruct (from_str _ stem) as [[x st]|] eqn:E; cbn; [|done]. by split.
Qed.
End Passes.

(** * The map of modules *)

Definition mods_sorted (t : ModuleMap) : Prop := StronglySorted (fun a b => raw a.1 < raw b.1) t.

Lemma mods_get_in k g t : mods_get k t = Some g -> (k, g) ∈ t.
Proof.
  induction t as [|[k' g'] t IH]; cbn; [done|]. case_bool_decide as E; [intros [= ->]; subst; left|]. intros H. right. by apply IH.
Qed.
Lemma mods_get_insert k g t : mods_get k (mods_insert k g t) = Some g.
Proof.
  induction t as [|[k' g'] t IH]; cbn; [by rewrite bool_decide_true|].
  case_bool_decide as E; [cbn; by rewrite bool_decide_true|]. case_match; cbn; [by rewrite bool_decide_true|].
  by rewrite bool_decide_false.
Qed.
Lemma mods_get_insert_ne k k' g t : k <> k' -> mods_get k (mods_insert k' g t) = mods_get k t.
Proof.
  intros Hk. induction t as [|[k1 g1] t IH]; cbn; [by rewrite bool_decide_false|].
  case_bool_decide as E; [subst; cbn; by rewrite bool_decide_false|]. case_match; cbn; [by rewrite (bool_decide_false _ Hk)|].
  by rewrite IH.
Qed.
(** Every pair of the map, and the new one. *)
Lemma mods_insert_in k g t p : p ∈ mods_insert k g t -> p = (k, g) \/ p ∈ t.
Proof.
  induction t as [|[k' g'] t IH]; cbn; [rewrite list_elem_of_singleton; auto|].
  case_bool_decide; [rewrite !elem_of_cons; naive_solver|]. case_match; rewrite !elem_of_cons; naive_solver.
Qed.
Lemma mods_insert_sorted k g t : mods_sorted t -> mods_sorted (mods_insert k g t).
Proof.
  unfold mods_sorted. induction 1 as [|[k' g'] t S IH Hf]; cbn; [by repeat constructor|].
  case_bool_decide as E; [subst; by constructor|]. destruct (raw k <? raw k') eqn:L.
  - constructor; [by constructor|]. constructor; [cbn; lia|]. eapply Forall_impl; [exact Hf|]. cbn. lia.
  - constructor; [done|]. apply Forall_forall. intros p Hp. apply mods_insert_in in Hp as [-> | Hp].
    + cbn. assert (raw k <> raw k') by (intros ?; apply E; by apply term_eq). lia.
    + rewrite Forall_forall in Hf. by apply Hf.
Qed.
(** The versions in use, and the new one. *)
Lemma mods_insert_versions k g t : NoDup ((fun p : Term * ModuleGenerations => curr_version p.2) <$> t) -> (forall p, p ∈ t -> curr_version p.2 <> curr_version g) ->
  NoDup ((fun p : Term * ModuleGenerations => curr_version p.2) <$> mods_insert k g t).
Proof.
  induction t as [|[k' g'] t IH]; cbn; intros D N; [apply NoDup_singleton|].
  apply NoDup_cons in D as [D1 D2]. case_bool_decide as E; [|case_match]; cbn; constructor.
  - rewrite list_elem_of_fmap. intros (p & Ep & Hp). apply (N p); [by right | done].
  - done.
  - rewrite elem_of_cons, list_elem_of_fmap. intros [Ep | (p & Ep & Hp)]; [apply (N (k', g')); [left | done] | apply (N p); [by right | done]].
  - by constructor.
  - rewrite list_elem_of_fmap. intros (p & Ep & Hp). apply mods_insert_in in Hp as [-> | Hp].
    + by apply (N (k', g')); [left|].
    + apply D1. rewrite list_elem_of_fmap. by exists p.
  - apply IH; [done|]. intros p Hp. apply N. by right.
Qed.

(** * What loading keeps *)

Section Lookups.
Context {F : Type} (host : Host).

(** Modules stand under their names, each with a version of its own that was given out. *)
Record server_ok (cs : CodeServer F) : Prop := {
  ok_sorted : mods_sorted (mods cs);
  ok_named : forall k g, (k, g) ∈ mods cs -> vn_module (versioned_name (curr_modp g)) = k /\
    vn_version (versioned_name (curr_modp g)) = curr_version g /\ curr_version g < mod_version cs;
  ok_versions : NoDup ((fun p : Term * ModuleGenerations => curr_version p.2) <$> mods cs)
}.

(** What later states of a server keep: a module is replaced by a newer one only. *)
Record serves_on (cs cs' : CodeServer F) : Prop := {
  on_natives : native_functions cs' = native_functions cs;
  on_path : search_path cs' = search_path cs;
  on_version : mod_version cs <= mod_version cs';
  on_mods : forall k, mods_get k (mods cs') = mods_get k (mods cs) \/
    exists g, mods_get k (mods cs') = Some g /\ mod_version cs <= curr_version g
}.

Lemma serves_on_refl cs : serves_on cs cs.
Proof. split; auto; lia. Qed.

Lemma new_server_ok path natives : server_ok (new_code_server path natives).
Proof. split; cbn; [constructor | intros k g Hk; by apply not_elem_of_nil in Hk | constructor]. Qed.

(** A server that has given out one more version. *)
Lemma version_taken cs : server_ok cs -> server_ok (snd (next_module_version cs)) /\ serves_on cs (snd (next_module_version cs)).
Proof.
  intros [S N V]. split; split; cbn; auto; try lia. intros k g Hk. apply N in Hk as (? & ? & ?). split_and!; auto; lia.
Qed.

Lemma module_loaded_ok cs m : server_ok cs -> vn_version (versioned_name m) = mod_version cs ->
  server_ok (module_loaded (snd (next_module_version cs)) m) /\ serves_on cs (module_loaded (snd (next_module_version cs)) m).
Proof.
  intros [S N V] E. unfold module_loaded, with_mods, next_module_version. cbn. split; split; cbn; auto; try lia.
  - by apply mods_insert_sorted.
  - intros k g Hk. apply mods_insert_in in Hk as [[= -> ->] | Hk]; [cbn; split_and!; auto; lia|].
    apply N in Hk as (? & ? & ?). split_and!; auto; lia.
  - apply mods_insert_versions; [done|]. intros [k g] Hk. cbn. apply N in Hk as (? & ? & ?). lia.
  - intros k. destruct (decide (k = vn_module (versioned_name m))) as [-> | Hk].
    + right. rewrite mods_get_insert. eexists; split; [done|]. cbn. lia.
    + left. by apply mods_get_insert_ne.
Qed.

(** Whether or not the load succeeds; where it fails, the modules are the ones there were. *)
Definition load_ok {A} (s : Server F) (r : result A * Server F) : Prop :=
  server_ok (code_server r.2) /\ serves_on (code_server s) (code_server r.2) /\
  match r.1 with Okay _ => True | Err _ => mods (code_server r.2) = mods (code_server s) end.

Lemma unchanged_ok {A} (s : Server F) (r : result A) : server_ok (code_server s) -> load_ok s (r, s).
Proof. intros O. split_and!; [done | apply serves_on_refl | by destruct r]. Qed.

Lemma try_load_ok path s : server_ok (code_server s) -> yields (try_load_module host path s) (load_ok s).
Proof.
  intros O. unfold try_load_module. destruct (files host path) as [file|]; [|exact (unchanged_ok (A := unit) s (Err BEAMFileNotFound) O)].
  eapply post_caught; [apply post_any | intros e; exact (unchanged_ok (A := unit) s (Err e) O)|]. intros b _.
  apply (post_bind (fun l => exists x, BeamLoad.name l = Some {| vn_module := x; vn_version := mod_version (code_server s) |})).
  { unfold stage2_register_atoms. apply post_skip. intros [new st]. apply post_skip. intros x. by exists x. }
  intros l [x Hx]. destruct (version_taken (code_server s) O) as [V1 V2].
  eapply post_caught; [by apply late_stages_give | intros e; by split_and!|].
  intros [m st] [Hv _]. destruct (module_loaded_ok (code_server s) m O Hv). by split_and!.
Qed.

(** The second lookup after a load. *)
Lemma lookup_again_ok mfa s (k : Server F) : server_ok (code_server k) -> serves_on (code_server s) (code_server k) ->
  yields (caught (lookup_beam_code (code_server k) mfa) (fun _ =>
        caught (do! _ := to_str (srv_atoms k) (mfa_m mfa) in to_str (srv_atoms k) (mfa_f mfa))
          (fun e => Ret (Err e, k)) (fun _ => Ret (Err FunctionNotFound, k))) (fun ip => Ret (Okay ip, k)))
    (fun r => server_ok (code_server r.2) /\ serves_on (code_server s) (code_server r.2) /\
       match r.1 with Okay ip => lookup_beam_code (code_server r.2) mfa = Ret ip | Err _ => exists e, lookup_beam_code (code_server r.2) mfa = Fail e end).
Proof.
  intros O S. destruct (lookup_beam_code (code_server k) mfa) as [ip|e| | |] eqn:E; cbn; try done.
  eapply post_caught; [apply post_any | | ]; intros; apply post_ret; split_and!; try done; by exists e.
Qed.

Lemma lookup_load_ok mfa s : server_ok (code_server s) ->
  yields (lookup_beam_code_and_load host mfa s) (fun r => server_ok (code_server r.2) /\ serves_on (code_server s) (code_server r.2) /\
    match r.1 with Okay ip => lookup_beam_code (code_server r.2) mfa = Ret ip | Err _ => exists e, lookup_beam_code (code_server r.2) mfa = Fail e end).
Proof.
  intros O. pose proof (serves_on_refl (code_server s)) as R. unfold lookup_beam_code_and_load.
  destruct (lookup_beam_code (code_server s) mfa) as [ip|e| | |] eqn:E; cbn [caught]; try done.
  assert (forall x, yields (Ret (Err x, s)) (fun r : result Z * Server F => server_ok (code_server r.2) /\ serves_on (code_server s) (code_server r.2) /\
    match r.1 with Okay ip => lookup_beam_code (code_server r.2) mfa = Ret ip | Err _ => exists e, lookup_beam_code (code_server r.2) mfa = Fail e end)) as Same
    by (intros x; apply post_ret; split_and!; try done; by exists e).
  eapply post_caught; [apply post_any | exact Same|]. intros mod_name _.
  eapply post_caught; [apply post_any | exact Same|]. intros path _.
  eapply post_bind; [by apply try_load_ok|]. intros [[u|x] s1] (O1 & S1 & M1); cbn in O1, S1, M1; [by apply lookup_again_ok|].
  apply post_ret. split_and!; [done..|]. exists e. cbn [snd]. unfold lookup_beam_code in E |- *. by rewrite M1.
Qed.

(** The code server keeps its promises to its callers.  From a sound state, a lookup that
    may load leaves a sound one: modules stand under their names with versions of their own,
    the natives are untouched, and a module is only ever replaced by one with a newer
    version.  An address that was found is found again, at once and without a load, also with
    the version of its module; after an error the function is not there. *)
Theorem code_lookup_stable (mfa : ModFunArity) (s : Server F) (r : result Z) (s' : Server F) :
  server_ok (code_server s) -> lookup_beam_code_and_load host mfa s = Ret (r, s') ->
  server_ok (code_server s') /\ serves_on (code_server s) (code_server s') /\
  match r with
  | Okay ip => lookup_beam_code_and_load host mfa s' = Ret (Okay ip, s') /\
      exists g, mods_get (mfa_m mfa) (mods (code_server s')) = Some g /\
        lookup_beam_code_versioned (code_server s') mfa = Ret (versioned_name (curr_modp g), ip)
  | Err _ => exists e, lookup_beam_code (code_server s') mfa = Fail e
  end.
Proof.
  intros O E. destruct (post_Ret _ _ _ (lookup_load_ok mfa s O) E) as (O' & S' & H). cbn in O', S', H. split_and!; [done..|].
  destruct r as [ip|e]; [|done]. split; [unfold lookup_beam_code_and_load; by rewrite H|].
  unfold lookup_beam_code in H. unfold lookup_beam_code_versioned. destruct (mods_get _ _) as [g|] eqn:G; [|done].
  exists g. split; [done|]. rewrite H. cbn. destruct (ok_named _ O' _ _ (mods_get_in _ _ _ G)) as (<- & <- & _).
  by destruct (versioned_name (curr_modp g)).
Qed.
End Lookups.

(** * The natives by name *)

Definition named (st : AtomStorage) (x : Term) (t : string) : Prop := forall m, rep m st x (VAtom t).

Lemma named_extends st st' x t : extends st st' -> named st x t -> named st' x t.
Proof. intros E H m. by eapply rep_extends. Qed.

(** One name has one atom. *)
Lemma named_iff st x y t u : atoms_ok st -> named st x t -> named st y u -> x = y <-> t = u.
Proof.
  intros [O1 O2] Hx Hy. specialize (Hx {| boxes := ∅; conses := ∅ |}). specialize (Hy {| boxes := ∅; conses := ∅ |}).
  inversion Hx as [|i a Hi Ha Wa E1 E2| | | | | | |]; subst. inversion Hy as [|j b Hj Hb Wb E1 E2| | | | | | |]; subst. split.
  - intros E. apply make_atom_inj in E; [|done..]. subst j. congruence.
  - intros E. pose proof (O2 _ _ Ha) as Ka. pose proof (O2 _ _ Hb) as Kb. rewrite E in Ka. rewrite Ka in Kb. injection Kb as Kb.
    f_equal. lia.
Qed.

Lemma named_to_str st x t : named st x t -> to_str st x = Ret t.
Proof.
  intros H. specialize (H {| boxes := ∅; conses := ∅ |}). inversion H as [|i a Hi Ha Wa E1 E2| | | | | | |]; subst. by apply to_str_atom.
Qed.

Section Natives.
Context {F : Type}.
Implicit Types (table : Table F) (tables : list (string * Table F)).

(** What the tables say: the last row counts. *)
Fixpoint entry_named table (fn : string) (ar : Z) (before : option F) : option F :=
  match table with
  | [] => before
  | (n, a, x) :: table => entry_named table fn ar (if bool_decide (n = fn /\ a = ar) then Some x else before)
  end.
Fixpoint find_named tables (mn fn : string) (ar : Z) (before : option F) : option F :=
  match tables with
  | [] => before
  | (n, table) :: tables => find_named tables mn fn ar (if bool_decide (n = mn) then entry_named table fn ar None else before)
  end.

Definition short (t : string) : Prop := Z.of_nat (length (str_bytes t)) <= 65535.
Definition rows_ok table : Prop := Forall (fun r => short r.1.1) table.
Definition tables_ok tables : Prop := Forall (fun nt => short nt.1 /\ rows_ok nt.2) tables.
Fixpoint names_in tables : Z :=
  match tables with [] => 0 | (_, table) :: tables => 2 + Z.of_nat (length table) + names_in tables end.

Definition stands_for (st : AtomStorage) (e : NativeFnEntry F) (r : string * Z * F) : Prop :=
  named st (fa_f (entry_fa e)) r.1.1 /\ fa_arity (entry_fa e) = r.1.2 /\ entry_func e = r.2.

Lemma fn_entries_ok table : forall st, table_ok st (Z.of_nat (length table)) -> rows_ok table ->
  exists es st', fn_entries st table = Ret (es, st') /\ extends st st' /\
    (forall n, table_ok st (Z.of_nat (length table) + n) -> table_ok st' n) /\ Forall2 (stands_for st') es table.
Proof.
  induction table as [|[[n a] x] table IH]; intros st Ht Hr; cbn [fn_entries].
  - exists [], st. split_and!; [done | apply extends_refl | done | constructor].
  - apply Forall_cons in Hr as [Hn Hr]. cbn [length] in *. rewrite Nat2Z.inj_succ in *. unfold with_str.
    destruct (register_one st n) as (f & st1 & -> & X1 & G1 & R1); [eapply table_ok_less; [exact Ht | lia] | done |]. cbn [unwrap vm_bind].
    destruct (IH st1) as (es & st2 & -> & X2 & G2 & R2);
      [apply G1; by replace (1 + _) with (Z.succ (Z.of_nat (length table))) by lia | done |].
    cbn [vm_bind]. eexists _, st2. split; [done|]. split; [by eapply extends_trans|]. split.
    + intros k H. apply G2, G1. eapply table_ok_less; [exact H | lia].
    + constructor; [|done]. split_and!; [|done..]. by eapply named_extends.
Qed.

Lemma init_with_lookup st f fn ar es table : atoms_ok st -> named st f fn -> Forall2 (stands_for st) es table -> forall m,
  nm_functions (init_with m es) !! {| fa_f := f; fa_arity := ar |} = entry_named table fn ar (nm_functions m !! {| fa_f := f; fa_arity := ar |}).
Proof.
  intros O Hf H m. cbn [init_with nm_functions]. generalize (nm_functions m) as fs. clear m.
  induction H as [|e [[n a] x] es table (En & Ea & Ex) _ IH]; intros fs; cbn [foldl entry_named]; [done|]. cbn in En, Ea, Ex.
  rewrite IH. f_equal. destruct (entry_fa e) as [ef ea] eqn:Ee. cbn in En, Ea. subst ea.
  pose proof (named_iff st ef f n fn O En Hf) as N. case_bool_decide as D.
  - destruct D as [-> ->]. rewrite (proj2 N eq_refl), lookup_insert_eq. by rewrite Ex.
  - apply lookup_insert_ne. intros [= -> ->]. apply D. split; [by apply N | done].
Qed.

Lemma register_preloaded_ok tables : forall st reg, table_ok st (names_in tables) -> tables_ok tables ->
  exists reg' st', register_preloaded_modules st reg tables = Ret (reg', st') /\ extends st st' /\
    (forall n, table_ok st (names_in tables + n) -> table_ok st' n) /\
    forall st2 m f mn fn ar, extends st' st2 -> atoms_ok st2 -> named st2 m mn -> named st2 f fn ->
      find_mfa reg' {| mfa_m := m; mfa_f := f; mfa_arity := ar |} =
      find_named tables mn fn ar (find_mfa reg {| mfa_m := m; mfa_f := f; mfa_arity := ar |}).
Proof.
  induction tables as [|[n table] tables IH]; intros st reg Ht Hr; cbn [register_preloaded_modules].
  - exists reg, st. split_and!; [done | apply extends_refl | done | done].
  - apply Forall_cons in Hr as [[Hn Hrow] Hr]. cbn [names_in fst snd] in *. pose proof (Nat2Z.is_nonneg (length table)) as P.
    assert (0 <= names_in tables) as P' by (clear; induction tables as [|[? ?] ? ?]; cbn; lia).
    destruct (register_one st n) as (a & st1 & -> & X1 & G1 & R1); [eapply table_ok_less; [exact Ht | lia] | done |]. cbn [unwrap vm_bind].
    unfold new_native_module.
    destruct (register_one st1 n) as (x & st2 & -> & X2 & G2 & _); [apply G1; eapply table_ok_less; [exact Ht | lia] | done |]. cbn [unwrap vm_bind].
    destruct (fn_entries_ok table st2) as (es & st3 & -> & X3 & G3 & R3); [apply G2, G1; eapply table_ok_less; [exact Ht | lia] | done |]. cbn [vm_bind].
    destruct (IH st3 (<[a := init_with {| nm_name := x; nm_functions := ∅ |} es]> reg)) as (reg' & st4 & -> & X4 & G4 & R4);
      [apply G3, G2, G1; eapply table_ok_less; [exact Ht | lia] | done |].
    exists reg', st4. split; [done|]. split; [by do 3 (eapply extends_trans; [eassumption|])|]. split.
    + intros k H. apply G4, G3, G2, G1. eapply table_ok_less; [exact H | lia].
    + intros st5 m f mn fn ar X5 O5 Hm Hf. rewrite (R4 st5 m f mn fn ar X5 O5 Hm Hf). cbn [find_named]. f_equal.
      assert (extends st3 st5) as X35 by (by eapply extends_trans). assert (named st5 a n) as Ha.
      { eapply named_extends; [|exact R1]. by do 2 (eapply extends_trans; [eassumption|]). }
      unfold find_mfa, NativeFunRegistry in *. cbn [mfa_m]. pose proof (named_iff st5 a m n mn O5 Ha Hm) as N. case_bool_decide as D.
      * rewrite (proj2 N D), lookup_insert_eq. unfold get_funarity. cbn [mfa_f mfa_arity].
        rewrite (init_with_lookup st5 f fn ar es table O5 Hf); [done|]. eapply Forall2_impl; [exact R3|].
        intros e r (E1 & E2 & E3). split_and!; [by eapply named_extends | done..].
      * rewrite lookup_insert_ne; [done|]. intros ->. by apply D, N.
Qed.

(** The registry of native functions is its tables.  Built from tables of modules, names
    and arities, it answers for the atoms of a module's and a function's names what the tables
    list under those names, and nothing for any other; building it keeps the atoms there were. *)
Theorem natives_by_name (st : AtomStorage) tables (n : Z) :
  0 <= n -> table_ok st (names_in tables + n) -> tables_ok tables ->
  exists reg st', new_registry st tables = Ret (reg, st') /\ extends st st' /\ table_ok st' n /\
    forall m f mn fn ar, named st' m mn -> named st' f fn ->
      find_mfa reg {| mfa_m := m; mfa_f := f; mfa_arity := ar |} = find_named tables mn fn ar None /\
      mfa_exists reg {| mfa_m := m; mfa_f := f; mfa_arity := ar |} = bool_decide (is_Some (find_named tables mn fn ar None)).
Proof.
  intros Hn Ht Hr. destruct (register_preloaded_ok tables st ∅) as (reg & st' & E & X & G & R); [eapply table_ok_less; [exact Ht | lia] | done |].
  exists reg, st'. split; [done|]. split; [done|]. split; [by apply G|]. intros m f mn fn ar Hm Hf.
  assert (find_mfa reg {| mfa_m := m; mfa_f := f; mfa_arity := ar |} = find_named tables mn fn ar None) as H.
  { apply (R st' m f mn fn ar (extends_refl st')); [by apply (G n)|done..]. }
  split; [exact H|]. rewrite <- H. unfold mfa_exists, find_mfa. repeat case_match; case_bool_decide as D; try done; by destruct D.
Qed.
End Natives.

(** * A module from its file *)

Definition has_slash (s : string) : Prop := "/"%char ∈ String.list_ascii_of_string s.

Lemma last_component_plain t : forall u, ~ has_slash t -> last_component t u = u.
Proof.
  unfold has_slash. induction t as [|c t IH]; intros u H; cbn in *; [done|]. rewrite not_elem_of_cons in H. destruct H as [Hc H].
  rewrite bool_decide_false by done. by apply IH.
Qed.
Lemma append_cons c s t : String c s +:+ t = String c (s +:+ t).
Proof. done. Qed.
Lemma append_empty t : EmptyString +:+ t = t.
Proof. done. Qed.
Lemma last_component_dir dir t : forall u, ~ has_slash t -> last_component (dir +:+ String "/" t) u = t.
Proof.
  induction dir as [|c dir IH]; intros u H; rewrite ?append_empty, ?append_cons; cbn; [by apply last_component_plain | by apply IH].
Qed.
Lemma before_last_dot_beam t : before_last_dot (t +:+ ".beam") = Some t.
Proof. induction t as [|c t IH]; rewrite ?append_empty, ?append_cons; cbn; [done|]. by rewrite IH. Qed.
Lemma has_slash_app s t : has_slash (s +:+ t) -> has_slash s \/ has_slash t.
Proof.
  unfold has_slash. induction s as [|c s IH]; rewrite ?append_empty, ?append_cons; cbn; [auto|].
  rewrite !elem_of_cons. intros [H|H]; [auto|]. destruct (IH H); auto.
Qed.

(** The file that is found for a name has it as its stem. *)
Lemma found_stem host path t p : first_exists_in_search_path host path t = Some p -> t <> EmptyString -> ~ has_slash t ->
  is_Some (files host p) /\ file_stem p = t.
Proof.
  intros E Ht Hs. induction path as [|dir path IH]; cbn [first_exists_in_search_path] in E; [done|].
  destruct (files host _) as [bytes|] eqn:Ef; [|by apply IH]. injection E as <-. split; [by exists bytes|].
  assert (~ has_slash (t +:+ ".beam")) as Hb.
  { intros H. apply has_slash_app in H as [H|H]; [done|]. unfold has_slash in H. cbn in H. set_solver. }
  unfold file_stem. change ("/" +:+ t +:+ ".beam")%string with (String "/" (t +:+ ".beam")). rewrite (last_component_dir dir _ _ Hb), before_last_dot_beam.
  by destruct t.
Qed.

Section Files.
Context {F : Type} (host : Host).

Lemma try_load_module_ret path (s : Server F) file m st : files host path = Some file ->
  load_module (inflate host) (regrow host) (code_at host (mod_version (code_server s))) (lambdas_at host (mod_version (code_server s)))
    (file_stem path) file (mod_version (code_server s)) {| mem := srv_memory s; proc := literal_heap host (mod_version (code_server s)) |}
    (srv_atoms s) = Ret (m, st) ->
  try_load_module host path s = Ret (Okay tt, {| code_server := module_loaded (snd (next_module_version (code_server s))) m; srv_atoms := st;
    srv_memory := mem (m_lit_heap m) |}).
Proof.
  unfold try_load_module, load_module. intros -> H. destruct (read_chunks _ _ _ _) as [b| | | |]; try done. cbn [caught vm_bind] in *.
  destruct (stage2_register_atoms _ _) as [l| | | |]; try done. cbn [vm_bind] in *. by rewrite H.
Qed.
End Files.

Section Found.
Context {F : Type} (host : Host).

End Found.

Module CodeWitness.
Definition chunks : list chunk := ModuleWitness.chunks.
Definition prog : list instr := ModuleWitness.prog.
Definition host : Host :=
  {| files := fun path => if bool_decide (path = "./m.beam"%string) then Some (file_bytes chunks) else None;
     inflate := ModuleWitness.inflate; regrow := ModuleWitness.regrow; code_at := fun _ => 4096; lambdas_at := fun _ => 8192;
     literal_heap := fun _ => proc EtfWitness.machine; torn := fun _ st => st; stale_at := fun _ n => replicate n 0 |}.

Definition names : AtomStorage := match register_names empty_storage ["m"; "start"]%string with Ret (_, st) => st | _ => empty_storage end.
Definition server : Server Z :=
  {| code_server := new_code_server ["."%string] ∅; srv_atoms := names; srv_memory := mem EtfWitness.machine |}.

Lemma names_ok : table_ok names 100.
Proof.
  destruct (register_names_ok ["m"; "start"]%string empty_storage) as (xs & st & E & _ & G & _).
  - split; [exact empty_storage_ok|]. split; [constructor | vm_compute; discriminate].
  - repeat constructor; vm_compute; discriminate.
  - unfold names. rewrite E. apply G. split; [exact empty_storage_ok|]. split; [constructor | vm_compute; discriminate].
Qed.
Lemma name_at i t : 0 <= i < 2 ^ 61 -> new_atom t <> None -> atoms_by_index names !! Z.to_nat i = new_atom t -> named names (make_atom i) t.
Proof.
  intros Hi Hn Ha m. destruct (new_atom t) as [a|] eqn:E; [|done]. pose proof (new_atom_name _ _ E) as <-.
  apply (rep_atom m names i a); done.
Qed.


(** The answer of the lookup of [m:start/0]. *)
Lemma start_is_found : exists s', lookup_beam_code_and_load host {| mfa_m := make_atom 0; mfa_f := make_atom 1; mfa_arity := 0 |} server = Ret (Okay (4096 + 8 * 4), s').
Proof. eexists. vm_compute. reflexivity. Qed.

Lemma code_lookup_stable_witness :
  exists s', server_ok (code_server s') /\ serves_on (code_server server) (code_server s') /\
  lookup_beam_code_and_load host {| mfa_m := make_atom 0; mfa_f := make_atom 1; mfa_arity := 0 |} s' = Ret (Okay (4096 + 8 * 4), s') /\
  exists g, mods_get (make_atom 0) (mods (code_server s')) = Some g /\
    lookup_beam_code_versioned (code_server s') {| mfa_m := make_atom 0; mfa_f := make_atom 1; mfa_arity := 0 |} = Ret (versioned_name (curr_modp g), 4096 + 8 * 4).
Proof.
  destruct start_is_found as [s' E]. exists s'.
  exact (code_lookup_stable host {| mfa_m := make_atom 0; mfa_f := make_atom 1; mfa_arity := 0 |} server (Okay (4096 + 8 * 4)) s' (new_server_ok _ _) E).
Defined.

Definition some_tables : list (string * Table Z) :=
  [("erlang", [("+", 2, 1); ("self", 0, 2)]); ("lists", [("nth", 2, 3)])]%string.

Lemma natives_by_name_witness :
  find_named some_tables "lists" "nth" 2 None = Some 3 /\
  exists reg st', new_registry names some_tables = Ret (reg, st') /\ extends names st' /\ table_ok st' 90 /\
    forall m f mn fn ar, named st' m mn -> named st' f fn ->
      find_mfa reg {| mfa_m := m; mfa_f := f; mfa_arity := ar |} = find_named some_tables mn fn ar None /\
      mfa_exists reg {| mfa_m := m; mfa_f := f; mfa_arity := ar |} = bool_decide (is_Some (find_named some_tables mn fn ar None)).
Proof.
  split; [reflexivity|]. apply (natives_by_name names some_tables 90).
  - lia.
  - destruct names_ok as (N1 & N2 & N3). split_and!; [exact N1 | exact N2|]. eapply Z.le_trans; [|exact N3]. vm_compute. discriminate.
  - repeat constructor; vm_compute; discriminate.
Defined.
End CodeWitness.
