(* ===== verification/BeamCall.v ===== *)
(** Calls that leave the code of a module: native functions, imports, exports and closures
    ([emulator/runtime_ctx/call_native_fun.rs], [call_export.rs], [call_closure.rs],
    [term/boxed/closure.rs], [term/boxed/export.rs], [term/boxed/import.rs]) and the
    instructions that make them ([beam/opcodes/op_fun.rs], [op_native_fun.rs] and the external
    calls of [op_execution.rs]); the loop over every instruction of the emulator.

    The whole emulator is the virtual machine, the code server and the atom table.  What a
    function pointer does is an instance of the class [Natives]; an import keeps whether it is
    native, which the registry always answers alike, so that the answer is asked again. *)
From S2P Require Import Prelude Float64 BeamTerm BeamMem BeamBinary BeamCompare BeamMap BeamHeap BeamProc BeamOps BeamFacts BeamCopy BeamSched BeamReader BeamCte BeamEtf BeamBits BeamBitOps BeamMatch BeamFile BeamLoad BeamNative BeamMapOps BeamCode.

Record Emulator (F : Type) := { emu_vm : VM; emu_code : CodeServer F; emu_atoms : AtomStorage }.
Arguments emu_vm {F}. Arguments emu_code {F}. Arguments emu_atoms {F}.

(** A native function, called by a process: a value, an exception or an error of the machine,
    next to the state it leaves. *)
Class Natives (F : Type) := run_native : F -> Term -> list Term -> Emulator F -> vm (result NativeResult * Emulator F).

Definition UNDEF : Term := make_atom 38.
Definition BADARITY : Term := make_atom 8.
Definition ERLANG : Term := make_atom 15.
Definition APPLY : Term := make_atom 5.

Section Emulate.
Context {F : Type}.
Implicit Types (e : Emulator F).

Definition with_vm e (v : VM) : Emulator F := {| emu_vm := v; emu_code := emu_code e; emu_atoms := emu_atoms e |}.

(** The machine of the process that runs, and a computation of it. *)
Definition self_machine (self : Term) e : vm Machine :=
  do! p := read (processes (emu_vm e) !! self) in Ret (machine_of (emu_vm e) p).
Definition put_self (self : Term) e (s : Machine) : Emulator F := with_vm e (put_machine (emu_vm e) self s).
Definition on_self {A} (self : Term) (f : Machine -> vm (A * Machine)) e : vm (A * Emulator F) :=
  do! s := self_machine self e in do! (a, s) := f s in Ret (a, put_self self e s).

(** The code server at work. *)
Definition server_of e : Server F := {| code_server := emu_code e; srv_atoms := emu_atoms e; srv_memory := memory (emu_vm e) |}.
Definition put_server e (s : Server F) : Emulator F :=
  {| emu_vm := {| pid_counter := pid_counter (emu_vm e); scheduler := scheduler (emu_vm e); processes := processes (emu_vm e);
                  name_to_pidport := name_to_pidport (emu_vm e); memory := srv_memory s |};
     emu_code := code_server s; emu_atoms := srv_atoms s |}.
Definition on_server {A} (f : Server F -> vm (A * Server F)) e : vm (A * Emulator F) :=
  do! (a, s) := f (server_of e) in Ret (a, put_server e s).

Definition emu_result : Type := vm (OpResult * Emulator F).
(** [?] on an error of the machine: the state is that of a machine that stops. *)
Definition checked (r : vm (result OpResult * Emulator F)) : emu_result :=
  do! (r, e) := r in match r with Okay r => Ret (r, e) | Err x => Fail x end.
Definition emu_raise (reason : Term) e : emu_result := Ret (Raised ExcError reason, e).
Definition emu_badfun_val (self val : Term) e : emu_result :=
  on_self self (fun s => do! (t, s) := make_tuple s [BADFUN; val] in Ret (Raised ExcError t, s)) e.

(** [registers_slice] makes a slice of the registers without looking at their number. *)
Definition registers_slice (c : RuntimeContext) (offset sz : Z) : vm (list Term) :=
  if (0 <=? offset) && (0 <=? sz) && (offset + sz <=? Z.of_nat (length (regs c)))
  then Ret (take (Z.to_nat sz) (drop (Z.to_nat offset) (regs c))) else Wild.
Definition slice_copy_from (c : RuntimeContext) (offset : Z) (vals : list Term) : vm RuntimeContext :=
  if offset + Z.of_nat (length vals) <=? Z.of_nat (length (regs c))
  then Ret (set_regs c (take (Z.to_nat offset) (regs c) ++ vals ++ drop (Z.to_nat offset + length vals) (regs c))) else Wild.

Section Calls.
Context `{Natives F} (host : Host) (fuel : nat) (self : Term).

Definition self_ctx e : vm RuntimeContext := do! s := self_machine self e in Ret (ctx s).
Definition put_ctx e (c : RuntimeContext) : vm (Emulator F) := do! s := self_machine self e in Ret (put_self self e (with_ctx s c)).
Definition upd_ctx (f : RuntimeContext -> RuntimeContext) e : vm (Emulator F) := do! c := self_ctx e in put_ctx e (f c).
Definition emu_store (val dst : Term) e : vm (Emulator F) :=
  do! s := self_machine self e in do! s := store s val dst in Ret (put_self self e s).

(** * [call_native_fun.rs] *)

Inductive CallBifTarget :=
| ImportTerm (imp : Term)
| ImportPointer (mfarity : ModFunArity)
| MFArity (mfa : ModFunArity)
| BifFnPointer (f : F).

Definition callbif_resolve_mfa (cs : CodeServer F) (mfa : ModFunArity) : vm F :=
  match find_mfa (native_functions cs) mfa with Some fn_ptr => Ret fn_ptr | None => Fail BifNotFound end.

Definition callbif_resolve_import (m : Memory) (cs : CodeServer F) (imp : Term) (check_arity : Z) : vm F :=
  if negb (is_boxed imp) then Fail TermIsNotABoxed else
  do! o := load_box m imp in
  match o with
  | OImport mfarity => if mfa_arity mfarity =? check_arity then callbif_resolve_mfa cs mfarity else Panic
  | _ => Wild
  end.

Fixpoint load_args (s : Machine) (args : list Term) : vm (list Term) :=
  match args with
  | [] => Ret []
  | x :: args => do! v := load_arg s x in do! vs := load_args s args in Ret (v :: vs)
  end.

Definition call_native_fun_fn (func_pointer : F) (args : list Term) e : vm (result NativeResult * Emulator F) :=
  if negb (length args <? 4)%nat then Panic else
  do! s := self_machine self e in
  do! loaded_args := load_args s args in run_native func_pointer self loaded_args e.

Definition find_and_call_native_fun (fail_label : Term) (target : CallBifTarget) (args : list Term) (dst : Term) e
    : vm (result OpResult * Emulator F) :=
  caught (match target with
          | ImportTerm imp => callbif_resolve_import (memory (emu_vm e)) (emu_code e) imp (Z.of_nat (length args))
          | MFArity mfa | ImportPointer mfa => callbif_resolve_mfa (emu_code e) mfa
          | BifFnPointer fn_ptr => Ret fn_ptr
          end) (fun x => Ret (Err x, e)) (fun fn_ptr =>
  do! (bif_result, e) := call_native_fun_fn fn_ptr args e in
  match bif_result with
  | Okay (Thrown cls reason) =>
    do! e := (if is_cp fail_label then upd_ctx (fun c => jump c fail_label) e else Ret e) in Ret (Okay (Raised cls reason), e)
  | Err x => Ret (Err x, e)
  | Okay (Value val) =>
    if bool_decide (dst = nil) then Ret (Okay Normal, e)
    else caught (emu_store val dst e) (fun x => Ret (Err x, e)) (fun e => Ret (Okay Normal, e))
  end).

(** * [call_export.rs] *)

Definition export_apply (mfa : ModFunArity) (args : list Term) (save_cp : bool) e : emu_result :=
  let arity := Z.of_nat (length args) in
  do! e := upd_ctx (fun c => set_live c (arity + 1)) e in
  if negb (mfa_arity mfa =? arity) then emu_raise BADARITY e else
  if mfa_exists (native_functions (emu_code e)) mfa
  then checked (find_and_call_native_fun nil (MFArity mfa) args (make_register_x 0) e)
  else
    do! (r, e) := on_server (lookup_beam_code_and_load host mfa) e in
    match r with
    | Okay p =>
      do! e := upd_ctx (fun c => set_ip (if save_cp then set_cp_ptr c (ip c) else c) p) e in Ret (Normal, e)
    | Err _ => emu_raise UNDEF e
    end.

(** * [closure.rs], [export.rs] and [call_closure.rs] *)

(** The header, the three words of the name, the five of the location and the count. *)
Definition Closure_storage_size (nfrozen : Z) : Z := 10 + nfrozen.
Definition Closure_create_into (fun_entry : FunEntry) (frozen : list Term) (s : Machine) : vm (Term * Machine) :=
  do! (p, s) := alloc_words s (Closure_storage_size (fe_nfrozen fun_entry)) in
  if negb (Z.of_nat (length frozen) =? fe_nfrozen fun_entry) then Panic else
  do! x := unwrap (make_boxed p) in Ret (x, put_box s p (OClosure (fe_mfa fun_entry) (fe_nfrozen fun_entry) None frozen)).

Definition Export_storage_size : Z := 9.
Definition Export_create_into (mfa : ModFunArity) (s : Machine) : vm (Term * Machine) :=
  do! (p, s) := alloc_words s Export_storage_size in
  do! x := unwrap (make_boxed p) in Ret (x, put_box s p (OExport mfa)).

(** [mut_from_term] of a type of boxes: what is not boxed fails an assertion. *)
Definition mut_from_term (m : Memory) (x : Term) : vm Obj := if negb (is_boxed x) then Panic else load_box m x.

(** The location that is found is kept in the closure at [p]. *)
Definition update_location (p : Z) (mfa : ModFunArity) (nfrozen : Z) (frozen : list Term) e : vm (Z * Emulator F) :=
  do! (_, ptr) := lookup_beam_code_versioned (emu_code e) mfa in
  do! s := self_machine self e in Ret (ptr, put_self self e (put_box s p (OClosure mfa nfrozen (Some ptr) frozen))).

Definition closure_apply (closure : Z) (args_len : Z) e : emu_result :=
  do! o := read (boxes (memory (emu_vm e)) !! closure) in
  match o with
  | OClosure mfa nfrozen dst frozen =>
    let actual_call_arity := nfrozen + args_len in
    do! c := self_ctx e in
    do! c := slice_copy_from c args_len frozen in
    do! e := put_ctx e (set_live c actual_call_arity) in
    if negb (actual_call_arity =? mfa_arity mfa) then emu_raise BADARITY e else
    do! e := upd_ctx (fun c => set_cp_ptr c (ip c)) e in
    do! (p, e) := (match dst with Some ptr => Ret (ptr, e) | None => update_location closure mfa nfrozen frozen e end) in
    do! e := upd_ctx (fun c => set_ip c p) e in Ret (Normal, e)
  | _ => Wild
  end.

(** * [op_fun.rs] *)

(** The function entry at an address: one of a module that is loaded. *)
Fixpoint entry_in (t : ModuleMap) (p : Z) : option FunEntry :=
  match t with
  | [] => None
  | (_, g) :: t =>
    let first := lambdas_at host (curr_version g) in
    if (first <=? p) && (p <? first + FunEntry_size * Z.of_nat (length (m_lambdas (curr_modp g)))) && ((p - first) mod FunEntry_size =? 0)
    then m_lambdas (curr_modp g) !! Z.to_nat ((p - first) / FunEntry_size) else entry_in t p
  end.
Definition fun_entry_at e (x : Term) : vm FunEntry := read (entry_in (mods (emu_code e)) (get_cp_ptr x)).

Definition op_make_fun2 (export : Term) e : emu_result :=
  do! fun_entry := fun_entry_at e export in
  do! c := self_ctx e in
  do! frozen := registers_slice c 0 (fe_nfrozen fun_entry) in
  do! (closure, e) := on_self self (Closure_create_into fun_entry frozen) e in
  do! c := self_ctx e in
  do! c := set_x c 0 closure in do! e := put_ctx e c in Ret (Normal, e).

(** The frozen values, from a tuple or a list of sources. *)
Definition env_values (s : Machine) (env_terms : Term) : vm (option (list Term)) :=
  if bool_decide (env_terms = nil) || bool_decide (env_terms = empty_tuple) then Ret (Some []) else
  do! t := is_tuple (mem s) env_terms in
  if (t : bool) then do! o := load_box (mem s) env_terms in
    match o with OTuple els => do! vs := load_args s els in Ret (Some vs) | _ => Wild end
  else if is_cons env_terms then
    do! (_, vs) := for_each (mem s) (fun src vs => do! v := load_arg s src in Ret (vs ++ [v])) fuel env_terms [] in Ret (Some vs)
  else Ret None.

Definition op_make_fun3 (fun_entry dst env_terms : Term) e : emu_result :=
  do! fun_entry := fun_entry_at e fun_entry in
  do! s := self_machine self e in
  do! vs := env_values s env_terms in
  match vs with
  | None => emu_raise BADARG e
  | Some frozen =>
    if negb (Z.of_nat (length frozen) =? fe_nfrozen fun_entry) then emu_raise BADARG e else
    do! (closure, e) := on_self self (Closure_create_into fun_entry frozen) e in
    do! e := emu_store closure dst e in Ret (Normal, e)
  end.

(** The call of a fun with the arguments in the registers. *)
Definition call_fun_object (arity : Z) (fun_object : Term) (args : list Term) e : emu_result :=
  do! o := mut_from_term (memory (emu_vm e)) fun_object in
  match o with
  | OClosure _ _ _ _ => closure_apply (get_box_ptr_unchecked fun_object) arity e
  | OExport mfa => export_apply mfa args true e
  | _ => emu_raise BADFUN e
  end.

Definition op_call_fun (arity : Term) e : emu_result :=
  let arity := get_small_unsigned arity in
  do! c := self_ctx e in
  do! args := registers_slice c 0 arity in
  do! fun_object := get_x c arity in call_fun_object arity fun_object args e.

Definition op_call_fun2 (arity func : Term) e : emu_result :=
  let arity := get_small_unsigned arity in
  do! s := self_machine self e in
  do! func := load_arg s func in
  do! args := registers_slice (ctx s) 0 arity in call_fun_object arity func args e.

(** [RuntimeContext::call_mfa]. *)
Definition call_mfa (lr : MFALookupResult F) (args : list Term) (save_cp : bool) e : emu_result :=
  match lr with
  | FoundBeamCode code_p =>
    do! e := upd_ctx (fun c => set_ip (if save_cp then set_cp_ptr c (ip c) else c) code_p) e in Ret (Normal, e)
  | FoundBif bif_fn =>
    do! (r, e) := call_native_fun_fn bif_fn args e in
    match r with
    | Err x => Fail x
    | Okay (Thrown cls reason) => Ret (Raised cls reason, e)
    | Okay (Value x0) => do! c := self_ctx e in do! c := set_x c 0 x0 in do! e := put_ctx e c in Ret (Normal, e)
    end
  end.

Definition fixed_apply (mfa : ModFunArity) (dealloc : Z) e : emu_result :=
  if bool_decide (mfa_m mfa = ERLANG /\ mfa_f mfa = APPLY) && (mfa_arity mfa =? 3) then Panic else
  do! (l_result, e) := on_server (lookup_mfa host mfa true) e in
  match l_result with
  | Err _ => emu_raise UNDEF e
  | Okay lr => do! c := self_ctx e in do! args := registers_slice c 0 (mfa_arity mfa) in call_mfa lr args (dealloc =? 0) e
  end.

Definition op_apply (arity : Term) e : emu_result :=
  let arity := get_small_unsigned arity in
  do! c := self_ctx e in
  do! m := get_x c arity in do! f := get_x c (arity + 1) in
  do! e := put_ctx e (set_live c (arity + 2)) in
  fixed_apply {| mfa_m := m; mfa_f := f; mfa_arity := arity |} 0 e.

Definition op_apply_last (arity dealloc : Term) e : emu_result :=
  let arity := get_small_unsigned arity in
  do! c := self_ctx e in
  do! m := get_x c arity in do! f := get_x c (arity + 1) in
  if negb (is_atom f) then emu_raise BADARG e else
  do! e := put_ctx e (set_live c (arity + 2)) in
  fixed_apply {| mfa_m := m; mfa_f := f; mfa_arity := arity |} (get_small_unsigned dealloc) e.

(** * [op_native_fun.rs] *)

Definition op_bif0 (target dst : Term) e : emu_result :=
  do! s := self_machine self e in
  do! target := load_arg s target in checked (find_and_call_native_fun nil (ImportTerm target) [] dst e).

(** bif1 and bif2; the number of arguments is that of the opcode. *)
Definition op_bif (fail target : Term) (args : list Term) (dst : Term) e : emu_result :=
  do! s := self_machine self e in
  do! target := load_arg s target in checked (find_and_call_native_fun fail (ImportTerm target) args dst e).

(** gc_bif1, gc_bif2 and gc_bif3. *)
Definition op_gc_bif (fail live target : Term) (args : list Term) (dst : Term) e : emu_result :=
  do! s := self_machine self e in
  do! target := load_arg s target in
  do! e := upd_ctx (fun c => set_live c (get_small_unsigned live)) e in
  checked (find_and_call_native_fun fail (ImportTerm target) args dst e).

(** * External calls *)

Definition generic_call_ext (dst_import fail_label : Term) (args : list Term) (save_cp : bool) e : emu_result :=
  do! e := upd_ctx (fun c => set_live c (Z.of_nat (length args))) e in
  do! o := mut_from_term (memory (emu_vm e)) dst_import in
  match o with
  | OImport mfarity =>
    if mfa_exists (native_functions (emu_code e)) mfarity then
      do! (native_dispatch_result, e) := find_and_call_native_fun fail_label (ImportPointer mfarity) args (make_register_x 0) e in
      if save_cp then checked (Ret (native_dispatch_result, e)) else
      do! (r, e) := on_self self op_return e in
      match r with Finished => Ret (Finished, e) | _ => checked (Ret (native_dispatch_result, e)) end
    else
      do! e := (if save_cp then upd_ctx (fun c => set_cp_ptr c (ip c)) e else Ret e) in
      do! (import_dst, e) := on_server (lookup_beam_code_and_load host mfarity) e in
      match import_dst with
      | Okay p => do! e := upd_ctx (fun c => jump_ptr c p) e in Ret (Normal, e)
      | Err x => Fail x
      end
  | _ => emu_badfun_val self dst_import e
  end.

Definition op_call_ext_only (arity dst : Term) e : emu_result :=
  do! c := self_ctx e in
  do! args := registers_slice c 0 (get_small_unsigned arity) in generic_call_ext dst nil args false e.
Definition op_call_ext (arity dst : Term) e : emu_result :=
  do! c := self_ctx e in
  do! args := registers_slice c 0 (get_small_unsigned arity) in generic_call_ext dst nil args true e.
Definition op_call_ext_last (arity dst dealloc : Term) e : emu_result :=
  do! s := self_machine self e in
  do! (new_cp, h) := stack_deallocate (hp s) (get_small_unsigned dealloc) in
  let e := put_self self e (with_ctx (with_proc s (with_heap (proc s) h)) (set_cp (ctx s) new_cp)) in
  do! c := self_ctx e in
  do! args := registers_slice c 0 (get_small_unsigned arity) in generic_call_ext dst nil args false e.
End Calls.

(** * Code as words, and two instructions that look at it ([op_tuple.rs], [op_try_catch.rs]) *)

(** A word of the code of a loaded module, of either generation. *)
Definition module_word (m : Module) (p : Z) : option Z :=
  if (m_code_ptr m <=? p) && ((p - m_code_ptr m) mod 8 =? 0) then m_code m !! Z.to_nat ((p - m_code_ptr m) / 8) else None.
Definition generation_word (g : ModuleGenerations) (p : Z) : option Z :=
  match module_word (curr_modp g) p with
  | Some w => Some w
  | None => m ← old_modp g; module_word m p
  end.
Fixpoint word_in (t : ModuleMap) (p : Z) : option Z :=
  match t with
  | [] => None
  | (_, g) :: t => match generation_word g p with Some w => Some w | None => word_in t p end
  end.
Definition word_at e (p : Z) : option Z := word_in (mods (emu_code e)) p.

Definition OPCODE_PUT : Z := 71.

(** The [put]s after [put_tuple].  Their operand is read where the operands of [put_tuple]
    are: it is the arity, each time. *)
Fixpoint put_each (code : Z -> option Z) (first_arg : Term) (n : nat) (s : Machine) : vm (list Term * Machine) :=
  match n with
  | O => Ret ([], s)
  | S n =>
    do! w := read (code (ip (ctx s))) in
    if negb (from_memory_word w =? OPCODE_PUT) then Panic else
    do! val := load_arg s first_arg in
    do! (els, s) := put_each code first_arg n (with_ctx s (set_ip (ctx s) (ip (ctx s) + 16))) in Ret (val :: els, s)
  end.
Definition op_put_tuple (code : Z -> option Z) (arity dst : Term) (s : Machine) : step_result :=
  let n := get_small_unsigned arity in
  do! (p, s) := alloc_words s (tuple_storage_size n) in
  if n =? 0 then Panic else
  do! (els, s) := put_each code arity (Z.to_nat n) s in
  do! x := unwrap (make_boxed p) in do! s := store (put_box s p (OTuple els)) x dst in normal s.

Definition LINE_ATOM : Term := make_atom 27.
Definition UNDEFINED : Term := make_atom 39.

Definition one_element (x : Term) (s : Machine) : vm (Term * Machine) :=
  do! (lb, s) := append new_builder x s in Ret (make_term lb, s).
Definition stack_entry (mfa : ModFunArity) (line : Z) (s : Machine) : vm (Term * Machine) :=
  do! (info, s) := (if 0 <? line then do! (t, s) := make_tuple s [LINE_ATOM; make_small_unsigned line] in one_element t s
                    else Ret (nil, s)) in
  do! (entry, s) := make_tuple s [mfa_m mfa; mfa_f mfa; make_small_unsigned (mfa_arity mfa); info] in one_element entry s.
Definition op_build_stacktrace (self : Term) e : emu_result :=
  do! s := self_machine self e in
  do! found := (if cp (ctx s) =? 0 then Ret None else code_reverse_lookup_with_line UNDEFINED (emu_code e) (cp (ctx s))) in
  on_self self (fun s =>
    do! (trace, s) := (match found with None => Ret (nil, s) | Some (mfa, line) => stack_entry mfa line s end) in
    do! c := set_x (ctx s) 0 trace in Ret (Normal, with_ctx s c)) e.

Definition with_atoms e (st : AtomStorage) : Emulator F := {| emu_vm := emu_vm e; emu_code := emu_code e; emu_atoms := st |}.

(** * The loop of the whole emulator *)

Inductive EInstr :=
| Basic (i : VInstr)
| Bif0 (target dst : Term)
| Bif (fail target : Term) (args : list Term) (dst : Term)
| GcBif (fail live target : Term) (args : list Term) (dst : Term)
| CallExt (arity dst : Term) | CallExtOnly (arity dst : Term) | CallExtLast (arity dst dealloc : Term)
| MakeFun2 (export : Term) | MakeFun3 (fun_entry dst env_terms : Term)
| CallFun (arity : Term) | CallFun2 (tag arity func : Term)
| Apply (arity : Term) | ApplyLast (arity dealloc : Term)
| DataOp (i : DInstr) | BitsOp (i : BInstr) | PutTuple (arity dst : Term) | BuildStacktrace.

Definition earity_of (i : EInstr) : Z :=
  match i with
  | Basic (Plain i) => arity_of i
  | DataOp i => darity_of i
  | BitsOp i => barity_of i
  | Basic Send | BuildStacktrace => 0
  | MakeFun2 _ | CallFun _ | Apply _ => 1
  | Bif0 _ _ | CallExt _ _ | CallExtOnly _ _ | ApplyLast _ _ | PutTuple _ _ => 2
  | Bif _ _ args _ => 3 + Z.of_nat (length args)
  | GcBif _ _ _ args _ => 4 + Z.of_nat (length args)
  | CallExtLast _ _ _ | MakeFun3 _ _ _ | CallFun2 _ _ _ => 3
  end.

Section Loop.
Context `{Natives F} (host : Host) (fuel : nat) (code : Emulator F -> Z -> option EInstr).

(** The handler of an opcode, in the state after its fetch. *)
Definition emu_op (i : EInstr) (self : Term) e : emu_result :=
  match i with
  | Basic (Plain i) => on_self self (dispatch_op (emu_atoms e) fuel i) e
  | Basic Send =>
    do! p := read (processes (emu_vm e) !! self) in
    do! (r, v) := op_send fuel (emu_vm e) self p in Ret (r, with_vm e v)
  | Bif0 target dst => op_bif0 self target dst e
  | Bif fail target args dst => op_bif self fail target args dst e
  | GcBif fail live target args dst => op_gc_bif self fail live target args dst e
  | CallExt arity dst => op_call_ext host self arity dst e
  | CallExtOnly arity dst => op_call_ext_only host self arity dst e
  | CallExtLast arity dst dealloc => op_call_ext_last host self arity dst dealloc e
  | MakeFun2 export => op_make_fun2 host self export e
  | MakeFun3 fun_entry dst env_terms => op_make_fun3 host fuel self fun_entry dst env_terms e
  | CallFun arity => op_call_fun host self arity e
  | CallFun2 _ arity func => op_call_fun2 host self arity func e
  | Apply arity => op_apply host self arity e
  | ApplyLast arity dealloc => op_apply_last host self arity dealloc e
  | DataOp i => on_self self (data_op (emu_atoms e) fuel i) e
  | BitsOp i =>
    do! s := self_machine self e in
    do! (r, s, st) := bits_op (stale_at host) fuel i (emu_atoms e) s in Ret (r, with_atoms (put_self self e s) st)
  | PutTuple arity dst => on_self self (op_put_tuple (word_at e) arity dst) e
  | BuildStacktrace => op_build_stacktrace self e
  end.

Definition emu_execute_one e (self : Term) : emu_result :=
  do! s := self_machine self e in
  do! i := read (code e (ip (ctx s))) in
  emu_op i self (put_self self e (with_ctx s (fetched (earity_of i) (ctx s)))).

Definition emu_end_slice e (self : Term) (f : Process -> Process) : vm (Emulator F) :=
  do! v := end_slice (emu_vm e) self f in Ret (with_vm e v).

Fixpoint emu_run (n : nat) e (self : Term) : vm (bool * Emulator F) :=
  match n with
  | O => Spin
  | S n =>
    do! (r, e) := emu_execute_one e self in
    match r with
    | Raised cls reason =>
      do! e := emu_end_slice e self (fun p => with_result (set_exception p cls reason) SliceException) in Ret (true, e)
    | YieldEndOfTheQueue => do! e := emu_end_slice e self (fun p => with_result p SliceYield) in Ret (true, e)
    | YieldInfiniteWait => do! e := emu_end_slice e self (fun p => with_result p SliceInfiniteWait) in Ret (true, e)
    | Finished => do! e := emu_end_slice e self (fun p => with_result p SliceFinished) in Ret (true, e)
    | Normal =>
      if (size (processes (emu_vm e)) =? 0)%nat then Ret (false, e) else
      do! s := self_machine self e in
      if reductions (ctx s) <=? 0 then
        do! e := emu_end_slice e self (fun p => with_result p SliceYield) in Ret (true, e)
      else emu_run n e self
    end
  end.

Definition emu_dispatch (n : nat) e : vm (bool * Emulator F) :=
  do! (c, sc, reg) := next_process (processes (emu_vm e)) (scheduler (emu_vm e)) in
  let e := with_vm e (with_sched (emu_vm e) sc reg) in
  match c with
  | None => Ret (false, e)
  | Some self => do! e := emu_end_slice e self (fun p => with_context p (swap_in (context p))) in emu_run n e self
  end.
End Loop.
End Emulate.
