(* ===== verification/BeamBifs.v ===== *)
(** The natives on binaries and on processes ([native_fun/erlang/binary.rs],
    [native_fun/erlang/process.rs], [native_fun/erts_internal/]), the tables of all natives
    ([native_fun/erlang/mod.rs], [lists/mod.rs], [maps/mod.rs], [erts_internal/mod.rs]), and
    the function pointers of the registry as an instance of [Natives]. *)
From S2P Require Import Prelude Float64 BeamTerm BeamMem BeamBinary BeamCompare BeamMap BeamHeap BeamProc BeamOps BeamFacts BeamCopy BeamSched BeamReader BeamCte BeamEtf BeamFile BeamLoad BeamNative BeamListFuns BeamMapFuns BeamCode BeamCall.

(** * [binary.rs] *)

(** The bits of a match state that are left, where its assertion holds. *)
Definition match_state_remaining (m : Memory) (t : Term) : vm (option Z) :=
  do! ms := is_boxed_of_type m t BOXTYPETAG_BINARY_MATCH_STATE in
  if negb ms then Ret None else
  do! o := load_box m t in
  match o with OMatchState _ read_position stop_at => Ret (Some (usize_sub stop_at read_position)) | _ => Wild end.

Definition sized (bytes : bool) (t : Term) (s : Machine) : native_result :=
  let size bits := make_small_unsigned (if bytes then (bits + 7) / 8 else bits) in
  if bool_decide (t = empty_binary) then answer (make_small_unsigned 0) s else
  do! remaining := match_state_remaining (mem s) t in
  match remaining with
  | Some bits => answer (size bits) s
  | None =>
    do! is_b := is_binary (mem s) t in
    if negb is_b then badarg s else do! bits := term_bits (mem s) t in answer (size bits) s
  end.
Definition NfErlangByteSize1 : NativeFn := fun args s => do! t := arg args 0 in sized true t s.
Definition NfErlangBitSize1 : NativeFn := fun args s => do! t := arg args 0 in sized false t s.

(** The digest is not that of MD5: sixteen bytes, each folded with every sixteenth byte. *)
Definition rotate_left (b n : Z) : Z := Z.lor (Z.shiftl b n mod 256) (Z.shiftr b (8 - n)).
Definition byte_of (digest : list Z) (i : nat) : Z := default 0 (digest !! i).
Definition fold_byte (digest : list Z) (i : nat) (b : Z) : list Z :=
  let idx := (i mod 16)%nat in
  let rot := Z.of_nat i mod 2 ^ 32 mod 8 + 1 in
  let digest := <[idx := (byte_of digest idx + rotate_left b (Z.land rot 7)) mod 256]> digest in
  let digest := <[idx := Z.lxor (byte_of digest idx) (b * 31 mod 256)]> digest in
  let idx2 := ((idx + 7) mod 16)%nat in
  <[idx2 := Z.lxor (rotate_left (byte_of digest idx2) 1) ((b + Z.of_nat idx) mod 256)]> digest.
Fixpoint fold_bytes (digest : list Z) (i : nat) (bytes : list Z) : list Z :=
  match bytes with [] => digest | b :: bytes => fold_bytes (fold_byte digest i b) (S i) bytes end.
Definition DIGEST_START : list Z := [1; 35; 69; 103; 137; 171; 205; 239; 254; 220; 186; 152; 118; 84; 50; 16].

Definition md5_1 (t : Term) (s : Machine) : native_result :=
  let digest_of digest := answers (create_with_data digest s) in
  if bool_decide (t = empty_binary) then digest_of DIGEST_START else
  do! bits := term_bits (mem s) t in
  if negb (bits mod 8 =? 0) then badarg s else
  do! bytes := whole_bytes (mem s) t bits in digest_of (fold_bytes DIGEST_START 0 bytes).
Definition NfErlangMd51 : NativeFn := fun args s => arg_binary args 0 s (fun t => md5_1 t s).

(** * [process.rs]: what stays in the process *)

Definition NfErlangSelf0 : NativeFn := fun _ s => answer (pid (proc s)) s.

Definition nativefun_make_fun_3 : NativeFn := fun args s =>
  do! m := arg args 0 in
  if negb (is_atom m) then badarg s else
  do! f := arg args 1 in
  if negb (is_atom f) then badarg s else
  do! a := arg args 2 in
  if negb (is_small a) then badarg s else
  answers (Export_create_into {| mfa_m := m; mfa_f := f; mfa_arity := get_small_unsigned a |} s).

Definition with_flags (p : Process) (flags : Z) : Process :=
  {| pid := pid p; prio := prio p; current_queue := current_queue p; context := context p; heap := heap p;
     heap_base := heap_base p; mailbox := mailbox p; timeslice_result := timeslice_result p;
     error := error p; num_catches := num_catches p; process_flags := flags |}.

Definition TRAP_EXIT_ATOM : Term := make_atom 35.
Definition do_erlang_process_flag (flag : Term) (value : bool) (s : Machine) : native_result :=
  if bool_decide (flag = TRAP_EXIT_ATOM) then
    let '(old, flags) := flags_read_and_set (process_flags (proc s)) TRAP_EXIT value in
    answer (make_bool old) (with_proc s (with_flags (proc s) flags))
  else do! (t, s) := make_tuple s [BADARG; flag] in throw_error t s.

(** * Function pointers *)

Inductive NativePtr :=
| OnHeap (f : AtomStorage -> nat -> NativeFn)
| BinaryToAtom | ProcessFlag2 | ProcessFlag3 | Spawn3 | IsProcessAlive1 | Register2 | Registered0 | SpawnSystemProcess3.

Section Run.
Context (host : Host) (fuel : nat) (fresh_heap : Term -> Z * list Z).
Notation Emu := (Emulator NativePtr).
Definition native_answer : Type := vm (result NativeResult * Emu).

Definition okay (x : Term) (e : Emu) : native_answer := Ret (Okay (Value x), e).
Definition refused (e : Emu) : native_answer := Ret (Okay (Thrown ExcError BADARG), e).

(** A native of the heap leaves an error of the machine in the state before it. *)
Definition run_machine (self : Term) (f : Machine -> native_result) (e : Emu) : native_answer :=
  do! s := self_machine self e in
  caught (f s) (fun x => Ret (Err x, e)) (fun '(r, s) => Ret (Okay r, put_self self e s)).

(** The arguments of the macro that are checked. *)
Definition checked_arg (check : Term -> vm bool) (args : list Term) (i : nat) (e : Emu) (k : Term -> native_answer) : native_answer :=
  do! x := arg args i in do! ok := check x in if (ok : bool) then k x else refused e.
Definition emu_arg_atom := checked_arg (fun x => Ret (is_atom x)).
Definition emu_arg_list := checked_arg (fun x => Ret (is_list x)).
Definition arg_pid (args : list Term) (i : nat) (e : Emu) : (Term -> native_answer) -> native_answer :=
  checked_arg (fun x => is_pid (memory (emu_vm e)) x) args i e.
Definition arg_pid_port (args : list Term) (i : nat) (e : Emu) : (Term -> native_answer) -> native_answer :=
  checked_arg (fun x => or_else (is_local_port x || is_external_port x) (is_pid (memory (emu_vm e)) x)) args i e.
Definition arg_bool (args : list Term) (i : nat) (e : Emu) (k : bool -> native_answer) : native_answer :=
  checked_arg (fun x => Ret (is_true x || is_false x)) args i e (fun x => k (is_true x)).

(** [VM::create_process] from a list of arguments: the function is looked up and its module
    loaded. *)
Definition pid_taken (e : Emu) : Emu :=
  let v := emu_vm e in
  with_vm e {| pid_counter := pid_counter v + 1; scheduler := scheduler v; processes := processes v;
               name_to_pidport := name_to_pidport v; memory := memory v |}.
Definition vm_create_process (m f args : Term) (flags : Z) (e : Emu) : native_answer :=
  caught (list_length (memory (emu_vm e)) fuel args) (fun x => Ret (Err x, pid_taken e)) (fun arity =>
  do! (r, e) := on_server (lookup_beam_code_and_load host {| mfa_m := m; mfa_f := f; mfa_arity := arity |}) e in
  match r with
  | Err x => Ret (Err x, pid_taken e)
  | Okay entry =>
    do! values := collect (memory (emu_vm e)) fuel args in
    let '(base, garbage) := fresh_heap (make_local_pid (pid_counter (emu_vm e))) in
    do! (pid, v) := create_process (emu_vm e) (Ret entry) values PrioNormal flags base garbage in okay pid (with_vm e v)
  end).

Definition run_spawn (args : list Term) (e : Emu) : native_answer :=
  emu_arg_atom args 0 e (fun m => emu_arg_atom args 1 e (fun f => emu_arg_list args 2 e (fun l => vm_create_process m f l 0 e))).

Definition spawn_system_process (m f args : Term) (e : Emu) : native_answer :=
  caught (list_length (memory (emu_vm e)) fuel args) (fun x => Ret (Err x, e)) (fun arity =>
  do! (r, e) := on_server (lookup_mfa host {| mfa_m := m; mfa_f := f; mfa_arity := arity |} false) e in
  match r with
  | Err x => Ret (Err x, e)
  | Okay _ => vm_create_process m f args (Z.lor 0 SYSTEM_PROCESS) e
  end).

Definition register_2 (name pid_or_port : Term) (e : Emu) : native_answer :=
  let v := emu_vm e in
  if bool_decide (name = make_atom 39) || bool_decide (is_Some (name_to_pidport v !! name)) then refused e else
  okay TRUE (with_vm e {| pid_counter := pid_counter v; scheduler := scheduler v; processes := processes v;
                          name_to_pidport := <[name := pid_or_port]> (name_to_pidport v); memory := memory v |}).

Definition process_flag_3 (pid flag : Term) (value : bool) (e : Emu) : native_answer :=
  do! o := lookup_pid (processes (emu_vm e)) pid in
  match o with
  | None => refused e
  | Some p =>
    do! (r, s) := do_erlang_process_flag flag value (machine_of (emu_vm e) p) in Ret (Okay r, put_self pid e s)
  end.

#[export] Instance run_native_ptr : Natives NativePtr := fun f self args e =>
  match f with
  | OnHeap f => run_machine self (f (emu_atoms e) fuel args) e
  | BinaryToAtom =>
    do! s := self_machine self e in
    caught (nativefun_binary_to_atom_1 (emu_atoms e) args s) (fun x => Ret (Err x, e)) (fun '(r, s, st) =>
    let e := put_self self e s in Ret (Okay r, {| emu_vm := emu_vm e; emu_code := emu_code e; emu_atoms := st |}))
  | ProcessFlag2 => emu_arg_atom args 0 e (fun flag => arg_bool args 1 e (fun value => run_machine self (do_erlang_process_flag flag value) e))
  | ProcessFlag3 => arg_pid args 0 e (fun pid => emu_arg_atom args 1 e (fun flag => arg_bool args 2 e (fun value => process_flag_3 pid flag value e)))
  | Spawn3 => run_spawn args e
  | IsProcessAlive1 => arg_pid args 0 e (fun pid =>
      do! o := lookup_pid (processes (emu_vm e)) pid in okay (make_bool (bool_decide (is_Some o))) e)
  | Register2 => emu_arg_atom args 0 e (fun name => arg_pid_port args 1 e (fun pid => register_2 name pid e))
  | Registered0 => Panic
  | SpawnSystemProcess3 => emu_arg_atom args 0 e (fun m => emu_arg_atom args 1 e (fun f =>
      do! l := arg args 2 in spawn_system_process m f l e))
  end.
End Run.

(** * The tables *)

Definition plain (f : NativeFn) : NativePtr := OnHeap (fun _ _ => f).
Definition walks (f : nat -> NativeFn) : NativePtr := OnHeap (fun _ fuel => f fuel).
Definition reads_names (f : AtomStorage -> NativeFn) : NativePtr := OnHeap (fun st _ => f st).

Definition erlang_table : Table NativePtr := [
  ("*", 2, plain nativefun_multiply_2); ("+", 2, plain nativefun_plus_2); ("++", 2, walks NfErlangPlusPlus2);
  ("-", 2, plain nativefun_minus_2); ("/", 2, plain nativefun_float_div_2); ("/=", 2, OnHeap nativefun_notequal_2);
  ("<", 2, OnHeap nativefun_lessthan_2); ("=/=", 2, OnHeap nativefun_notequal_exact_2); ("=:=", 2, OnHeap nativefun_equal_exact_2);
  ("=<", 2, OnHeap nativefun_lessequal_2); ("==", 2, OnHeap nativefun_equalequal_2); (">", 2, OnHeap nativefun_greaterthan_2);
  (">=", 2, OnHeap nativefun_greaterequal_2); ("abs", 1, plain nativefun_abs_1); ("atom_to_list", 1, reads_names NfErlangA2List2);
  ("band", 2, plain nativefun_band_2); ("bnot", 1, plain nativefun_bnot_1); ("bor", 2, plain nativefun_bor_2);
  ("bsl", 2, plain nativefun_bsl_2); ("bsr", 2, plain nativefun_bsr_2); ("bxor", 2, plain nativefun_bxor_2);
  ("div", 2, plain nativefun_div_2); ("error", 1, plain NfErlangError1); ("error", 2, plain NfErlangError2);
  ("float", 1, plain nativefun_float_1); ("hd", 1, plain NfErlangHd1); ("integer_to_list", 1, plain NfErlangInt2List2);
  ("is_boolean", 1, plain nativefun_is_boolean_1); ("is_process_alive", 1, IsProcessAlive1); ("length", 1, walks NfErlangLength1);
  ("list_to_binary", 1, walks NfErlangL2b1); ("load_nif", 2, plain NfErlangLoadNif2); ("make_fun", 3, plain nativefun_make_fun_3);
  ("md5", 1, plain NfErlangMd51); ("nif_error", 1, plain NfErlangNifError); ("nif_error", 2, plain NfErlangNifError);
  ("process_flag", 2, ProcessFlag2); ("process_flag", 3, ProcessFlag3); ("register", 2, Register2); ("rem", 2, plain nativefun_rem_2);
  ("registered", 0, Registered0); ("self", 0, plain NfErlangSelf0); ("size", 1, plain NfErlangSize1);
  ("bit_size", 1, plain NfErlangBitSize1); ("byte_size", 1, plain NfErlangByteSize1); ("binary_to_list", 1, plain NfErlangB2l1);
  ("spawn", 3, Spawn3); ("tl", 1, plain NfErlangTl1); ("element", 2, plain nativefun_element_2); ("setelement", 3, plain nativefun_setelement_3);
  ("tuple_size", 1, plain nativefun_tuple_size_1); ("tuple_to_list", 1, plain nativefun_tuple_to_list_1);
  ("list_to_tuple", 1, walks nativefun_list_to_tuple_1); ("map_size", 1, plain nativefun_map_size_1);
  ("is_map_key", 2, OnHeap nativefun_is_map_key_2); ("throw", 1, plain NfErlangThrow1); ("exit", 1, plain NfErlangExit1);
  ("max", 2, OnHeap nativefun_max_2); ("min", 2, OnHeap nativefun_min_2); ("atom_to_binary", 1, reads_names nativefun_atom_to_binary_1);
  ("binary_to_atom", 1, BinaryToAtom)]%string.

Definition lists_table : Table NativePtr := [
  ("keyfind", 3, OnHeap NfListsKeyfind3); ("member", 2, OnHeap NfListsMember2); ("reverse", 2, walks NfListsReverse2);
  ("sort", 1, OnHeap NfListsSort1); ("append", 2, walks NfListsAppend2); ("flatten", 1, walks NfListsFlatten1);
  ("nth", 2, walks NfListsNth2); ("last", 1, walks NfListsLast1)]%string.

Definition maps_table : Table NativePtr := [
  ("new", 0, plain nativefun_maps_new_0); ("get", 2, OnHeap nativefun_maps_get_2); ("get", 3, OnHeap nativefun_maps_get_3);
  ("put", 3, OnHeap nativefun_maps_put_3); ("keys", 1, plain nativefun_maps_keys_1); ("values", 1, plain nativefun_maps_values_1);
  ("is_key", 2, OnHeap nativefun_maps_is_key_2); ("size", 1, plain nativefun_maps_size_1); ("merge", 2, OnHeap nativefun_maps_merge_2);
  ("remove", 2, OnHeap nativefun_maps_remove_2); ("to_list", 1, plain nativefun_maps_to_list_1);
  ("from_list", 1, OnHeap nativefun_maps_from_list_1); ("find", 2, OnHeap nativefun_maps_find_2)]%string.

Definition erts_internal_table : Table NativePtr := [("spawn_system_process", 3, SpawnSystemProcess3)]%string.

(** [register_preloaded_modules], in its order. *)
Definition preloaded : list (string * Table NativePtr) :=
  [("erlang", erlang_table); ("erts_internal", erts_internal_table); ("lists", lists_table); ("maps", maps_table)]%string.
