(* ===== verification/BeamBifFacts.v ===== *)
(** What native functions keep of the process that calls them: those that work on its heap
    change nothing but the heap. *)
From S2P Require Import Prelude Float64 BeamTerm BeamMem BeamBinary BeamCompare BeamMap BeamHeap BeamProc BeamOps BeamFacts BeamCopy BeamSched BeamReader BeamCte BeamEtf BeamNative BeamListFuns BeamMapFuns BeamMapOps BeamSettled BeamCode BeamCall BeamBifs.

(** From [s0], a computation that leads to a machine with another heap at most. *)
Notation owns s0 r := (post (fun x => only_heap s0 (snd x)) r) (only parsing).

Lemma owns_via {A} s0 s1 (r : vm (A * Machine)) : only_heap s0 s1 -> owns s1 r -> owns s0 r.
Proof. intros H Hr. eapply post_mono; [exact Hr|]. intros [a s]. by apply only_heap_trans. Qed.
Lemma owns_bind {A B} s0 s1 (r : vm (A * Machine)) (k : A * Machine -> vm (B * Machine)) : only_heap s0 s1 -> owns s1 r ->
  (forall a s2, only_heap s0 s2 -> owns s0 (k (a, s2))) -> owns s0 (vm_bind r k).
Proof. intros H Hr Hk. eapply post_bind; [by eapply owns_via|]. intros [a s2]. apply Hk. Qed.
Lemma only_heap_box s0 s p o : only_heap s0 s -> only_heap s0 (put_box s p o).
Proof. by intros [h E]; exists h. Qed.
Lemma only_heap_map s0 s p m : only_heap s0 s -> only_heap s0 (put_map s p m).
Proof. apply only_heap_box. Qed.
Lemma only_heap_cell s0 s p hd tl : only_heap s0 s -> only_heap s0 (put_cons_cell s p hd tl).
Proof. by intros [h E]; exists h. Qed.

Lemma only_heap_new s0 s h : only_heap s0 s -> only_heap s0 (with_proc s (with_heap (proc s) h)).
Proof. intros [h0 E]. exists h. cbn. by rewrite E. Qed.
Lemma set_tl_owns s0 s p v : only_heap s0 s -> post (only_heap s0) (set_tl p v s).
Proof. intros H. unfold set_tl. eapply post_bind; [apply post_any|]. intros [a b] _. by apply only_heap_cell. Qed.
Lemma set_hd_owns s0 s p v : only_heap s0 s -> post (only_heap s0) (set_hd p v s).
Proof. intros H. unfold set_hd. eapply post_bind; [apply post_any|]. intros [a b] _. by apply only_heap_cell. Qed.


Create HintDb owns discriminated.
#[export] Hint Resolve only_heap_refl only_heap_new only_heap_box only_heap_map only_heap_cell : owns.
#[export] Hint Resolve alloc_words_heap append_heap : owns.

(** A step of a body: one that changes the machine and is known to own it, one that reads, a
    case, or the end. *)
Ltac own_step :=
  cbv zeta;
  lazymatch goal with
  | |- post _ (Ret _) => cbn [post snd fst]; solve [auto with owns]
  | |- post _ (answer _ _) => unfold answer
  | |- post _ (badarg _) => unfold badarg
  | |- post _ (badarith _) => unfold badarith
  | |- post _ (throw_error _ _) => unfold throw_error
  | |- post _ (answers _) => unfold answers
  | |- post _ (asserted _ _ _) => unfold asserted
  | |- post _ (attempt _ ?r _) => unfold attempt; destruct r as [?|[]| | |]; try exact I
  | |- post _ (vm_bind (set_tl _ _ _) _) => eapply post_bind; [apply set_tl_owns; solve [eauto with owns]|]; intros ? ?
  | |- post _ (vm_bind (set_hd _ _ _) _) => eapply post_bind; [apply set_hd_owns; solve [eauto with owns]|]; intros ? ?
  | |- post _ (vm_bind (vm_bind _ _) _) => rewrite vm_bind_assoc; cbn beta
  | |- post _ (vm_bind (match ?x with _ => _ end) _) => destruct x
  | |- post _ (vm_bind ?r ?k) =>
      first [ eapply owns_bind; [ | solve [eauto with owns] | intros ? ? ?]; [solve [auto with owns]|]
            | apply (post_bind (fun _ => True)); [apply post_any|]; intros ? _ ]
  | |- post _ (match ?x with _ => _ end) => destruct x
  | |- post _ ((fun '(_, _) => _) ?x) => destruct x
  | |- post _ _ => solve [exact I | eapply owns_via; [|solve [eauto with owns]]; solve [auto with owns]]
  end.
Ltac own := intros; cbn beta; repeat own_step.

(** * Builders *)

Lemma make_tuple_owns s els : owns s (make_tuple s els).
Proof. unfold make_tuple. own. Qed.
Lemma make_pair_owns s hd tl : owns s (make_pair s hd tl).
Proof. unfold make_pair. own. Qed.
Lemma bignum_create_owns sign limbs s : owns s (bignum_create_into sign limbs s).
Proof. unfold bignum_create_into. own. Qed.
#[export] Hint Resolve make_tuple_owns make_pair_owns bignum_create_owns : owns.

Lemma make_cell_owns s : owns s (make_cell s).
Proof. unfold make_cell. own. Qed.
#[export] Hint Resolve make_cell_owns : owns.
Lemma prepend_owns lb v s : owns s (prepend lb v s).
Proof. unfold prepend. own. Qed.
Lemma make_term_with_tail_owns lb tail s : owns s (make_term_with_tail lb tail s).
Proof. unfold make_term_with_tail. own. Qed.
#[export] Hint Resolve prepend_owns make_term_with_tail_owns : owns.

Lemma for_each_owns {L} m (f : Term -> L * Machine -> vm (L * Machine)) fuel : (forall x l s, owns s (f x (l, s))) ->
  forall lst l s, post (fun r => only_heap s r.2.2) (for_each m f fuel lst (l, s)).
Proof.
  intros Hf lst l s. unfold for_each. case_match; [apply only_heap_refl|]. apply (post_bind (fun r => only_heap s r.2.2)); [|by intros [? ?]].
  generalize (get_cons_ptr lst) as p. clear lst H. revert l s.
  induction fuel as [|fuel IH]; intros l s p; cbn [for_each_from]; [done|]. eapply post_bind; [apply post_any|]. intros [hd tl] _.
  eapply post_bind; [apply Hf|]. intros [l1 s1] H1. case_match; [|done]. eapply post_mono; [apply IH|]. intros r. by apply only_heap_trans.
Qed.

Lemma append_all_owns els : forall lb s, owns s (append_all lb els s).
Proof. induction els as [|x els IH]; intros lb s; cbn [append_all]; own. Qed.
Lemma digits_loop_owns fuel : forall lb i s, owns s (digits_loop fuel lb i s).
Proof. induction fuel as [|fuel IH]; intros lb i s; cbn [digits_loop]; own. Qed.
Lemma append_each_owns f kvs : (forall kv s, owns s (f kv s)) -> forall lb s, owns s (append_each f lb kvs s).
Proof. intros Hf. induction kvs as [|kv kvs IH]; intros lb s; cbn [append_each]; own. Qed.
Lemma flatten_cells_owns m n : forall lb x s, owns s (flatten_cells m n lb x s).
Proof. induction n as [|n IH]; intros lb x s; cbn [flatten_cells]; own. Qed.
#[export] Hint Resolve append_all_owns digits_loop_owns append_each_owns flatten_cells_owns : owns.

Lemma integer_to_list_owns fuel val s : owns s (integer_to_list fuel val s).
Proof.
  unfold integer_to_list. own.
Qed.
Lemma rust_str_to_list_owns text s : owns s (rust_str_to_list text s).
Proof. unfold rust_str_to_list. own. Qed.
Lemma create_bigint_owns v s : owns s (create_bigint v s).
Proof. unfold create_bigint. own. Qed.
Lemma make_float_owns v s : owns s (make_float v s).
Proof. unfold make_float. own. Qed.
Lemma create_with_data_owns data s : owns s (create_with_data data s).
Proof. unfold create_with_data. own. Qed.
Lemma make_badfun_owns args s : owns s (make_badfun_n args s).
Proof. apply make_tuple_owns. Qed.
Lemma export_owns mfa s : owns s (Export_create_into mfa s).
Proof. unfold Export_create_into. own. Qed.
#[export] Hint Resolve integer_to_list_owns rust_str_to_list_owns create_bigint_owns make_float_owns create_with_data_owns make_badfun_owns export_owns : owns.

Lemma make_integer_owns v s : owns s (make_integer v s).
Proof. unfold make_integer. own. Qed.
#[export] Hint Resolve make_integer_owns : owns.

(** * The natives *)

Lemma copy_leave_tail_owns fuel src s : owns s (copy_list_leave_tail fuel src s).
Proof.
  unfold copy_list_leave_tail. pose proof (for_each_owns (mem s) (fun elem '(lb, s) => append lb elem s) fuel) as H.
  specialize (H ltac:(intros; apply append_heap) src new_builder s).
  destruct (for_each _ _ _ _ _) as [[[tail|] [lb s1]]| | | |]; try done; cbn in H; own.
Qed.
#[export] Hint Resolve copy_leave_tail_owns : owns.

Lemma reverse_owns fuel l tail s : owns s (reverse_2 fuel l tail s).
Proof.
  unfold reverse_2. case_match; [own|]. pose proof (for_each_owns (mem s) (fun elem '(lb, s) => prepend lb elem s) fuel) as H'.
  specialize (H' ltac:(intros; apply prepend_owns) l new_builder s).
  eapply post_bind; [exact H'|]. intros [t [lb s1]] H1. cbn in H1. own.
Qed.
Lemma plusplus_owns fuel a b s : owns s (plusplus_2 fuel a b s).
Proof. unfold plusplus_2. own. Qed.
Lemma append_2_owns fuel a b s : owns s (append_2 fuel a b s).
Proof. apply plusplus_owns. Qed.

Lemma create_map_owns s n fill : owns s (create_map s n fill).
Proof. unfold create_map. own. Qed.
#[export] Hint Resolve reverse_owns plusplus_owns append_2_owns create_map_owns : owns.

Lemma multiply_owns x y s : owns s (multiply x y s).
Proof. unfold multiply, multiply_two_small. own. Qed.
#[export] Hint Resolve multiply_owns : owns.

Lemma with_map_owns x s0 s on_empty k : only_heap s0 s -> owns s0 on_empty -> (forall this, owns s0 (k this)) -> owns s0 (with_map x s on_empty k).
Proof. intros H He Hk. unfold with_map. own; auto. Qed.
Lemma list_of_pairs_owns f args s : (forall kv s, owns s (f kv s)) -> owns s (list_of_pairs f args s).
Proof.
  intros Hf. unfold list_of_pairs. apply (post_bind (fun _ => True)); [apply post_any|]. intros m _.
  apply with_map_owns; [apply only_heap_refl | own | intros this; own].
Qed.
Lemma on_smalls_owns err f args s : (forall s, owns s (err s)) -> (forall a b s, owns s (f a b s)) -> owns s (on_smalls err f args s).
Proof. intros He Hf. unfold on_smalls. own; auto. Qed.

Definition heap_only (f : NativePtr) : Prop :=
  match f with OnHeap f => forall st fuel args s, owns s (f st fuel args s) | _ => True end.

(** A native is opened to its body, and its body to the bodies it calls. *)
Ltac head_of r := lazymatch r with ?f _ => head_of f | ?f => f end.
Ltac open_body := lazymatch goal with |- post _ ?r => let h := head_of r in unfold h; cbn beta end.
Ltac native :=
  intros; cbn [heap_only plain walks reads_names]; intros;
  repeat first
  [ own_step
  | lazymatch goal with
    | |- post _ (with_map _ _ _ _) => apply with_map_owns; [solve [auto with owns] | | intros]
    | |- post _ (list_of_pairs _ _ _) => apply list_of_pairs_owns; intros; cbn beta
    | |- post _ (on_smalls _ _ _ _) => apply on_smalls_owns; intros
    end
  | open_body ].

Lemma erlang_heap_only : Forall (fun r => heap_only r.2) erlang_table.
Proof. unfold erlang_table, plain, walks, reads_names. repeat constructor. all: cbn [heap_only snd]; try exact I. all: native. Qed.

Lemma lists_heap_only : Forall (fun r => heap_only r.2) lists_table.
Proof. unfold lists_table, plain, walks, reads_names. repeat constructor. all: cbn [heap_only snd]; try exact I. all: native. Qed.
Lemma maps_heap_only : Forall (fun r => heap_only r.2) maps_table.
Proof. unfold maps_table, plain, walks, reads_names. repeat constructor. all: cbn [heap_only snd]; try exact I. all: native. Qed.
Lemma erts_heap_only : Forall (fun r => heap_only r.2) erts_internal_table.
Proof. by repeat constructor. Qed.
