(* ===== verification/BeamCallFacts.v ===== *)
(** What the whole emulator keeps: whatever its instructions do, calls of natives, of imports
    and of funs included, processes, queues and modules stay consistent, and on the
    instructions of a module alone it is the machine of BeamSched. *)
From S2P Require Import Prelude Float64 BeamTerm BeamMem BeamBinary BeamCompare BeamMap BeamHeap BeamProc BeamOps BeamFacts BeamCopy BeamSched BeamReader BeamCte BeamEtf BeamFile BeamLoad BeamNative BeamListFuns BeamMapFuns BeamMapOps BeamSettled BeamCode BeamCodeFacts BeamCall BeamBifs BeamBifFacts.

(** * A process in its place *)

Definition same_place (p p' : Process) : Prop := BeamProc.pid p' = BeamProc.pid p /\ current_queue p' = current_queue p.

Lemma identity_place p p' : same_identity p p' -> same_place p p'.
Proof. by intros (E1 & _ & E2 & _). Qed.
Lemma only_heap_place s s' : only_heap s s' -> same_place (proc s) (proc s').
Proof. by intros [h ->]. Qed.

Lemma insert_keeps (reg : Registry) id p u : is_Some (reg !! u) -> is_Some (<[id := p]> reg !! u).
Proof. intros Hu. destruct (decide (u = id)) as [->|Hne]; [by rewrite lookup_insert_eq | by rewrite lookup_insert_ne]. Qed.

Lemma place_ok reg sc id p p' : sched_ok reg sc -> reg !! id = Some p -> same_place p p' -> sched_ok (<[id := p']> reg) sc.
Proof.
  intros [Q K C W T P] Hp [E1 E2].
  pose proof (insert_keeps reg id p') as Hs.
  split; try done.
  - intros u Hu. by apply Hs, K.
  - intros u Hu. destruct (C u Hu). split; [by apply Hs | done].
  - intros u Hu. destruct (W u Hu) as (W1 & W2 & W3). split_and!; [by apply Hs | done..].
  - intros u q Hq. apply lookup_insert_Some in Hq as [[<- <-] | [Hne Hq]]; [|by apply P].
    unfold process_ok. rewrite E1, E2. by apply P.
Qed.

Section Emulate.
Context {F : Type}.
Implicit Types (e : Emulator F).

Record emu_ok e : Prop := { emu_vm_ok : vm_ok (emu_vm e); emu_server_ok : server_ok (emu_code e) }.

(** No process is lost, and at most [k] are new. *)
Record goes (k : Z) e e' : Prop := {
  goes_ok : emu_ok e';
  goes_all : forall u, is_Some (processes (emu_vm e) !! u) -> is_Some (processes (emu_vm e') !! u);
  goes_natives : native_functions (emu_code e') = native_functions (emu_code e);
  goes_pids : pid_counter (emu_vm e) <= pid_counter (emu_vm e') <= pid_counter (emu_vm e) + k
}.

Definition running (self : Term) e : Prop := emu_ok e /\ is_Some (processes (emu_vm e) !! self).

Lemma goes_refl e : emu_ok e -> goes 0 e e.
Proof. intros O. split; [done.. | lia]. Qed.
Lemma goes_running k self e e' : goes k e e' -> running self e -> running self e'.
Proof. intros [O S] [_ H]. split; auto. Qed.
Lemma running_ok self e : running self e -> emu_ok e.
Proof. by intros []. Qed.
Lemma goes_trans j k e1 e2 e3 : goes j e1 e2 -> goes k e2 e3 -> goes (j + k) e1 e3.
Proof. intros [O1 S1 N1 P1] [O2 S2 N2 P2]. split; [done | auto | congruence | lia]. Qed.
Lemma goes_more j k e e' : j <= k -> goes j e e' -> goes k e e'.
Proof. intros H [O S N P]. split; [done.. | lia]. Qed.

Lemma goes_pid0 e e' : goes 0 e e' -> pid_counter (emu_vm e') = pid_counter (emu_vm e).
Proof. intros []. lia. Qed.

Lemma vm_put_ok v id p p' m : vm_ok v -> processes v !! id = Some p -> same_place p p' -> vm_ok (put_machine v id {| mem := m; proc := p' |}).
Proof.
  intros [S P] Hp Hs. split; [by eapply place_ok|]. intros u Hu. apply P. cbn in Hu.
  destruct (decide (u = id)) as [->|Hne]; [by exists p | by rewrite lookup_insert_ne in Hu].
Qed.

Lemma goes_put self e p s : running self e -> processes (emu_vm e) !! self = Some p -> same_place p (proc s) -> goes 0 e (put_self self e s).
Proof.
  intros [[O V] _] Hp Hs. destruct s as [m p']. split; cbn; [split; [by eapply vm_put_ok | done] | intros u; apply insert_keeps | done | lia].
Qed.

Lemma self_machine_is self e : running self e -> exists p, processes (emu_vm e) !! self = Some p /\ self_machine self e = Ret (machine_of (emu_vm e) p).
Proof. intros [_ [p Hp]]. exists p. split; [done|]. unfold self_machine. by rewrite Hp. Qed.

(** A computation of the process that runs. *)
Lemma on_self_goes {A} self (f : Machine -> vm (A * Machine)) e : running self e ->
  (forall s, post (fun r => same_place (proc s) (proc r.2)) (f s)) -> post (fun r => goes 0 e r.2) (on_self self f e).
Proof.
  intros R Hf. unfold on_self. destruct (self_machine_is self e R) as (p & Hp & ->). cbn [vm_bind].
  eapply post_bind; [apply Hf|]. intros [a s] H. cbn in *. by eapply goes_put.
Qed.

Lemma put_ctx_goes self e c : running self e -> post (goes 0 e) (put_ctx self e c).
Proof.
  intros R. unfold put_ctx. destruct (self_machine_is self e R) as (p & Hp & ->). cbn. by eapply goes_put.
Qed.
Lemma upd_ctx_goes self f e : running self e -> post (goes 0 e) (upd_ctx self f e).
Proof. intros R. unfold upd_ctx. eapply post_bind; [apply post_any|]. intros c _. by apply put_ctx_goes. Qed.
Lemma emu_store_goes self val dst e : running self e -> post (goes 0 e) (emu_store self val dst e).
Proof.
  intros R. unfold emu_store. destruct (self_machine_is self e R) as (p & Hp & ->). cbn [vm_bind].
  unfold store. rewrite vm_bind_assoc. eapply post_bind; [apply post_any|]. intros [c h] _. cbn. by eapply goes_put.
Qed.

Lemma put_server_goes e s : emu_ok e -> server_ok (code_server s) -> native_functions (code_server s) = native_functions (emu_code e) ->
  goes 0 e (put_server e s).
Proof. intros [[S P] V] O N. split; cbn; [split; [by split | done] | done | done | lia]. Qed.
Lemma lookup_goes host mfa e : emu_ok e ->
  post (fun r => goes 0 e r.2) (on_server (lookup_beam_code_and_load host mfa) e).
Proof.
  intros R. unfold on_server. eapply post_bind; [apply lookup_load_ok; apply R|]. intros [r s] (O & S & _). cbn in *.
  by apply put_server_goes; [| | apply S].
Qed.
Lemma lookup_mfa_goes host mfa b e : emu_ok e -> post (fun r => goes 0 e r.2) (on_server (lookup_mfa host mfa b) e).
Proof.
  intros R. unfold on_server, lookup_mfa. case_match; [cbn; apply put_server_goes; [done | apply R | done]|].
  rewrite vm_bind_assoc. eapply (post_bind (fun r => server_ok (code_server r.2) /\ native_functions (code_server r.2) = native_functions (emu_code e))).
  - destruct b.
    + eapply post_mono; [apply lookup_load_ok; apply R|]. intros r (O & S & _). split; [done | apply S].
    + eapply post_caught; [apply post_any | |]; intros; (split; [apply R | done]).
  - intros [r s] [O N]. destruct r; cbn in *; by apply put_server_goes.
Qed.
End Emulate.

(** * The natives of the registry *)

Section Natives_ok.
Context (host : Host) (fuel : nat) (fresh_heap : Term -> Z * list Z).
Implicit Types (e : Emulator NativePtr).

Notation tame e := (post (fun r => goes 1 e (snd r))).

Lemma tame_ret {A} (a : A) e : emu_ok e -> tame e (Ret (a, e)).
Proof. intros R. cbn. eapply goes_more; [|by apply goes_refl]. lia. Qed.
Lemma checked_arg_tame check args i e k : emu_ok e -> (forall x, tame e (k x)) -> tame e (checked_arg check args i e k).
Proof. intros R Hk. unfold checked_arg. do 2 (eapply post_bind; [apply post_any|]; intros ? _). case_match; [done | by apply tame_ret]. Qed.

Lemma run_machine_tame self f e : running self e -> (forall s, post (fun r => same_place (proc s) (proc r.2)) (f s)) ->
  tame e (run_machine self f e).
Proof.
  intros R Hf. unfold run_machine. destruct (self_machine_is self e R) as (p & Hp & ->). cbn [vm_bind].
  eapply post_caught; [apply Hf | intros; apply tame_ret; apply R |]. intros [r s] Hs. cbn in *.
  eapply goes_more; [|by eapply goes_put]. lia.
Qed.

Lemma process_flag_place flag value s : post (fun r => same_place (proc s) (proc r.2)) (do_erlang_process_flag flag value s).
Proof.
  unfold do_erlang_process_flag. case_match; [by destruct (flags_read_and_set _ _ _)|].
  eapply post_bind; [apply make_tuple_owns|]. intros [t s1] H1. by apply only_heap_place.
Qed.

Lemma pid_taken_goes e : emu_ok e -> goes 1 e (pid_taken e).
Proof.
  intros [[S P] H]. split; cbn; [split; [split|]; try done | done | done | lia].
  intros u Hu. destruct (P u Hu) as (k & Hk & ->). exists k. split; [cbn; lia | done].
Qed.

Lemma create_keeps v entry args pr flags base garbage :
  post (fun r => pid_counter r.2 = pid_counter v + 1 /\ forall u, is_Some (processes v !! u) -> is_Some (processes r.2 !! u))
    (create_process v entry args pr flags base garbage).
Proof.
  unfold create_process, register_new_process. cbv zeta. do 3 (eapply post_bind; [apply post_any|]; intros ? _).
  rewrite vm_bind_assoc. eapply post_bind; [apply post_any|]. intros sc _. cbn. split; [done|]. intros u. apply insert_keeps.
Qed.

Lemma create_tame e entry args pr flags base garbage : emu_ok e -> 0 <= pid_counter (emu_vm e) < 2 ^ 61 ->
  post (fun r => goes 1 e (with_vm e r.2)) (create_process (emu_vm e) entry args pr flags base garbage).
Proof.
  intros [O V] Hc. pose proof (create_ok _ entry args pr flags base garbage O Hc) as H1.
  pose proof (create_keeps (emu_vm e) entry args pr flags base garbage) as H2.
  destruct (create_process _ _ _ _ _ _ _) as [[id v]| | | |]; try done. cbn in *. destruct H2 as [H2 H3].
  split; cbn; [by split; [apply H1|] | exact H3 | done | lia].
Qed.

Lemma vm_create_tame m f args flags e : emu_ok e -> 0 <= pid_counter (emu_vm e) < 2 ^ 61 ->
  tame e (vm_create_process host fuel fresh_heap m f args flags e).
Proof.
  intros R Hc. unfold vm_create_process. eapply post_caught; [apply post_any | intros; by apply pid_taken_goes |]. intros arity _.
  eapply post_bind; [by apply lookup_goes|]. intros [r e1] G. cbn in G. pose proof (goes_ok _ _ _ G) as R1.
  pose proof (goes_pid0 _ _ G) as Ep.
  destruct r as [entry|x]; [|exact (goes_trans 0 1 _ _ _ G (pid_taken_goes _ R1))].
  eapply post_bind; [apply post_any|]. intros values _. destruct (fresh_heap _) as [base garbage].
  eapply post_bind; [apply create_tame; [done | by rewrite Ep]|]. intros [id v] H. exact (goes_trans 0 1 _ _ _ G H).
Qed.

Lemma spawn_system_tame m f args e : emu_ok e -> 0 <= pid_counter (emu_vm e) < 2 ^ 61 ->
  tame e (spawn_system_process host fuel fresh_heap m f args e).
Proof.
  intros R Hc. unfold spawn_system_process. eapply post_caught; [apply post_any | intros; by apply tame_ret |]. intros arity _.
  eapply post_bind; [by apply lookup_mfa_goes|]. intros [r e1] G. cbn in G. pose proof (goes_ok _ _ _ G) as R1.
  destruct r; [|by eapply goes_more; [|exact G]; lia].
  eapply post_mono; [apply vm_create_tame; [done | by rewrite (goes_pid0 _ _ G)]|]. intros [r e2] H. exact (goes_trans 0 1 _ _ _ G H).
Qed.

Lemma register_tame name pid e : emu_ok e -> tame e (register_2 name pid e).
Proof.
  intros R. unfold register_2. case_match; [by apply tame_ret|]. destruct R as [[S P] H'].
  cbn. split; cbn; [split; [split|]; done | done | done | lia].
Qed.

Lemma flag_other_tame pid flag value e : emu_ok e -> tame e (process_flag_3 pid flag value e).
Proof.
  intros R. unfold process_flag_3, lookup_pid. case_match; [|done]. cbn [vm_bind].
  destruct (processes (emu_vm e) !! pid) as [p|] eqn:Hp; [|by apply tame_ret].
  eapply post_bind; [apply process_flag_place|]. intros [r [m p1]] Hs. destruct R as [O V]. cbn in *.
  split; cbn; [split; [by eapply vm_put_ok | done] | | done | lia]. by apply insert_keeps.
Qed.

Lemma binary_to_atom_owns st args s : post (fun r => only_heap s (snd (fst r))) (nativefun_binary_to_atom_1 st args s).
Proof.
  pose proof (only_heap_refl s). unfold nativefun_binary_to_atom_1.
  repeat first [ exact I | assumption | progress cbn [post fst snd]
    | progress cbv zeta
    | lazymatch goal with
      | |- post _ (vm_bind (badarg _) _) => unfold badarg
      | |- post _ (vm_bind (throw_error _ _) _) => unfold throw_error
      | |- post _ (vm_bind (vm_bind _ _) _) => rewrite vm_bind_assoc; cbn beta
      | |- post _ (vm_bind (match ?x with _ => _ end) _) => destruct x
      | |- post _ (vm_bind (Ret _) _) => cbn [vm_bind]
      | |- post _ (vm_bind _ _) => apply (post_bind (fun _ => True)); [apply post_any|]; intros ? _
      | |- post _ (match ?x with _ => _ end) => destruct x
      | |- post _ ((fun '(_, _) => _) ?x) => destruct x
      end ].
Qed.

Theorem run_native_tame f self args e : heap_only f -> running self e -> 0 <= pid_counter (emu_vm e) < 2 ^ 61 ->
  tame e (run_native_ptr host fuel fresh_heap f self args e).
Proof.
  intros Hf R Hc. pose proof (proj1 R) as O1. unfold run_native_ptr. destruct f; unfold emu_arg_atom, emu_arg_list, arg_pid, arg_pid_port, arg_bool, run_spawn.
  - apply run_machine_tame; [done|]. intros s. eapply post_mono; [apply Hf|]. intros r. apply only_heap_place.
  - destruct (self_machine_is self e R) as (p & Hp & ->). cbn [vm_bind].
    eapply post_caught; [apply binary_to_atom_owns | by intros; apply tame_ret |]. intros [[r s] st] Hs%only_heap_place. cbn in Hs.
    pose proof (goes_put _ _ _ _ R Hp Hs) as [O S N P]. cbn. split; [by destruct O | done | done | cbn in *; lia].
  - repeat (apply checked_arg_tame; [done|]; intros). apply run_machine_tame; [done | apply process_flag_place].
  - repeat (apply checked_arg_tame; [done|]; intros). by apply flag_other_tame.
  - repeat (apply checked_arg_tame; [done|]; intros). by apply vm_create_tame.
  - apply checked_arg_tame; [done|]. intros. eapply post_bind; [apply post_any|]. intros o _. by apply tame_ret.
  - repeat (apply checked_arg_tame; [done|]; intros). by apply register_tame.
  - done.
  - repeat (apply checked_arg_tame; [done|]; intros). eapply post_bind; [apply post_any|]. intros l _. by apply spawn_system_tame.
Qed.
End Natives_ok.

(** What every function of the tables satisfies, every function of their registry does. *)
Section Registry.
Context {F : Type} (P : F -> Prop).

Lemma fn_entries_all table : forall st, Forall (fun r => P r.2) table -> post (fun r => Forall (fun e => P (entry_func e)) r.1) (fn_entries st table).
Proof.
  induction table as [|[[n a] x] table IH]; intros st H; cbn [fn_entries]; [constructor|]. apply Forall_cons in H as [Hx H].
  eapply (post_bind (fun r => P (entry_func r.1))); [unfold with_str; eapply post_bind; [apply post_any|]; by intros [? ?]|].
  intros [e st1] He. eapply post_bind; [by apply IH|]. intros [es st2] Hes. by constructor.
Qed.
Lemma init_with_all es : forall m : NativeModule F, (forall k f, nm_functions m !! k = Some f -> P f) -> Forall (fun e => P (entry_func e)) es ->
  forall k f, nm_functions (init_with m es) !! k = Some f -> P f.
Proof.
  unfold init_with. cbn. intros [n fs]. cbn. revert fs. induction es as [|e es IH]; intros fs Hm H; cbn; [done|].
  apply Forall_cons in H as [He H]. apply IH; [|done]. intros k f [[_ <-]|[_ Hk]]%lookup_insert_Some; [done | by eapply Hm].
Qed.
Lemma registry_all tables : forall st reg, Forall (fun t => Forall (fun r => P r.2) t.2) tables ->
  (forall mfa f, find_mfa reg mfa = Some f -> P f) ->
  post (fun r => forall mfa f, find_mfa r.1 mfa = Some f -> P f) (register_preloaded_modules st reg tables).
Proof.
  induction tables as [|[n table] tables IH]; intros st reg H Hr; cbn [register_preloaded_modules]; [done|].
  apply Forall_cons in H as [Ht H]. eapply post_bind; [apply post_any|]. intros [a st1] _.
  eapply (post_bind (fun r => forall k f, nm_functions r.1 !! k = Some f -> P f)).
  - unfold new_native_module. eapply post_bind; [apply post_any|]. intros [x st2] _. eapply post_bind; [by apply fn_entries_all|].
    intros [es st3] Hes. cbn. apply (init_with_all es {| nm_name := x; nm_functions := ∅ |}); [|done]. intros k f Hk. cbn in Hk. by rewrite lookup_empty in Hk.
  - intros [m st2] Hm. apply IH; [done|]. intros mfa f. unfold find_mfa, NativeFunRegistry in *. destruct (decide (mfa_m mfa = a)) as [->|Hne].
    + rewrite lookup_insert_eq. apply Hm.
    + rewrite lookup_insert_ne by done. apply Hr.
Qed.
End Registry.

Lemma preloaded_heap_only st : post (fun r => forall mfa f, find_mfa r.1 mfa = Some f -> heap_only f) (new_registry st preloaded).
Proof.
  apply registry_all; [|by intros mfa f; unfold find_mfa, NativeFunRegistry; rewrite lookup_empty].
  unfold preloaded. rewrite !Forall_cons. cbn [snd]. auto using erlang_heap_only, erts_heap_only, lists_heap_only, maps_heap_only.
Qed.

(** * The instructions *)

Create HintDb goes discriminated.
#[export] Hint Resolve put_ctx_goes upd_ctx_goes emu_store_goes : goes.

(** What is asked of the natives: they keep the emulator sound and create one process at most. *)
Definition natives_tame `{Natives F} (reg : NativeFunRegistry F) : Prop := forall mfa f self args (e : Emulator F), find_mfa reg mfa = Some f ->
  running self e -> 0 <= pid_counter (emu_vm e) < 2 ^ 61 -> post (fun r => goes 1 e r.2) (run_native f self args e).

Section Ops_ok.
Context `{Natives F} (host : Host) (fuel : nat) (self : Term) (e0 : Emulator F).
Implicit Types (e : Emulator F).

Context (Nat : natives_tame (native_functions (emu_code e0))) (R0 : running self e0) (Hpids : 0 <= pid_counter (emu_vm e0) < 2 ^ 61).

Notation ends r := (post (fun x => goes 1 e0 (snd x)) r).

(** A step that creates no process goes on in what follows. *)
Lemma go_bind {A B} j (m : vm (A * Emulator F)) (K : A * Emulator F -> vm (B * Emulator F)) e :
  goes j e0 e -> (running self e -> post (fun r => goes 0 e r.2) m) -> (forall a e', goes j e0 e' -> ends (K (a, e'))) -> ends (vm_bind m K).
Proof.
  intros G Hm HK. eapply post_bind; [apply Hm; by eapply goes_running|]. intros [a e'] G'. apply HK.
  replace j with (j + 0) by lia. by eapply goes_trans.
Qed.
Lemma go_bind1 {B} j (m : vm (Emulator F)) (K : Emulator F -> vm (B * Emulator F)) e :
  goes j e0 e -> (running self e -> post (goes 0 e) m) -> (forall e', goes j e0 e' -> ends (K e')) -> ends (vm_bind m K).
Proof.
  intros G Hm HK. eapply post_bind; [apply Hm; by eapply goes_running|]. intros e' G'. apply HK.
  replace j with (j + 0) by lia. by eapply goes_trans.
Qed.
Lemma on_self_owns {A} (f : Machine -> vm (A * Machine)) e : running self e -> (forall s, owns s (f s)) -> post (fun r => goes 0 e r.2) (on_self self f e).
Proof. intros R Hf. apply on_self_goes; [done|]. intros s. eapply post_mono; [apply Hf|]. intros r. apply only_heap_place. Qed.
Lemma closure_owns fe frozen s : owns s (Closure_create_into fe frozen s).
Proof. unfold Closure_create_into. own. Qed.
Lemma return_place s : post (fun r => same_place (proc s) (proc r.2)) (op_return s).
Proof. eapply post_mono; [apply (dispatch_settled (emu_atoms e0) fuel IReturn s)|]. intros r [_ I]. by apply identity_place. Qed.
Lemma update_location_goes p mfa n frozen e : running self e -> post (fun r => goes 0 e r.2) (update_location self p mfa n frozen e).
Proof.
  intros R. unfold update_location. eapply post_bind; [apply post_any|]. intros [? ptr] _.
  destruct (self_machine_is self e R) as (q & Hq & ->). cbn. by eapply goes_put.
Qed.

Ltac go_side := lazymatch goal with
  | |- running _ _ -> _ => intros ?; first [solve [eauto with goes]
      | apply lookup_goes; by eapply running_ok
      | apply on_self_owns; [done | solve [intros; eauto with owns | apply closure_owns]]
      | apply on_self_goes; [done | intros; apply return_place] | by apply update_location_goes ]
  end.
Ltac go_step :=
  cbv zeta;
  lazymatch goal with
  | |- post _ (Ret _) => cbn [post snd]; eapply goes_more; [|eassumption]; lia
  | |- post _ (emu_raise _ _) => unfold emu_raise
  | |- post _ (vm_bind (vm_bind _ _) _) => rewrite vm_bind_assoc; cbn beta
  | |- post _ (vm_bind (Ret _) _) => cbn [vm_bind]
  | |- post _ (vm_bind (match ?x with _ => _ end) _) => destruct x eqn:?
  | G : goes _ e0 ?e |- post _ (vm_bind (put_ctx _ ?e _) _) => eapply go_bind1; [exact G | go_side | clear G; intros ? ?]
  | G : goes _ e0 ?e |- post _ (vm_bind (upd_ctx _ _ ?e) _) => eapply go_bind1; [exact G | go_side | clear G; intros ? ?]
  | G : goes _ e0 ?e |- post _ (vm_bind (emu_store _ _ _ ?e) _) => eapply go_bind1; [exact G | go_side | clear G; intros ? ?]
  | G : goes _ e0 ?e |- post _ (vm_bind (on_self _ _ ?e) _) => eapply go_bind; [exact G | go_side | clear G; intros ? ? ?]
  | G : goes _ e0 ?e |- post _ (vm_bind (on_server _ ?e) _) => eapply go_bind; [exact G | go_side | clear G; intros ? ? ?]
  | G : goes _ e0 ?e |- post _ (vm_bind (update_location _ _ _ _ _ ?e) _) => eapply go_bind; [exact G | go_side | clear G; intros ? ? ?]
  | |- post _ (vm_bind _ _) => eapply post_bind; [apply post_any|]; intros ? _
  | |- post _ (match ?x with _ => _ end) => destruct x eqn:?
  | |- post _ ((fun '(_, _) => _) ?x) => destruct x
  | |- post _ _ => exact I
  end.
Ltac go := intros; cbn beta; repeat go_step.

Lemma native_goes mfa f args e : find_mfa (native_functions (emu_code e0)) mfa = Some f -> goes 0 e0 e ->
  ends (call_native_fun_fn self f args e).
Proof.
  intros Hf G. unfold call_native_fun_fn. case_match; [done|]. do 2 (eapply post_bind; [apply post_any|]; intros ? _).
  eapply post_mono; [apply (Nat mfa); [done | by eapply goes_running | rewrite (goes_pid0 _ _ G); apply Hpids]|].
  intros r H1. exact (goes_trans 0 1 _ _ _ G H1).
Qed.

(** The targets that an instruction names. *)
Definition found_in (target : CallBifTarget (F := F)) : Prop :=
  match target with BifFnPointer f => exists mfa, find_mfa (native_functions (emu_code e0)) mfa = Some f | _ => True end.
Lemma resolve_mfa_found (cs : CodeServer F) mfa : post (fun f => exists mfa, find_mfa (native_functions cs) mfa = Some f) (callbif_resolve_mfa cs mfa).
Proof. unfold callbif_resolve_mfa. case_match eqn:E; [|done]. cbn. eauto. Qed.

Lemma find_and_call_goes fail target args dst e : found_in target -> goes 0 e0 e ->
  ends (find_and_call_native_fun self fail target args dst e).
Proof.
  intros Ht G. unfold find_and_call_native_fun. pose proof (goes_natives _ _ _ G) as N.
  eapply (post_caught _ _ _ (fun f => exists mfa, find_mfa (native_functions (emu_code e0)) mfa = Some f)); [| intros; go |].
  - rewrite <- N. destruct target; cbn in Ht; [|apply resolve_mfa_found..|by rewrite N].
    unfold callbif_resolve_import. case_match; [done|]. eapply post_bind; [apply post_any|]. intros o _. repeat case_match; try done. apply resolve_mfa_found.
  - intros f [mfa Hf]. eapply post_bind; [by eapply native_goes|]. intros [r e1] G1. cbn in G1. destruct r as [[v|cls reason]|]; [|go..].
    case_bool_decide; [go|]. eapply post_caught; [apply emu_store_goes; by eapply goes_running | intros; go |].
    intros e2 G2. cbn. exact (goes_trans 1 0 _ _ _ G1 G2).
Qed.

Lemma checked_goes r : ends r -> ends (checked r).
Proof. intros Hr. unfold checked. eapply post_bind; [exact Hr|]. intros [[r1|] e1] G1; [exact G1 | done]. Qed.
Lemma badfun_val_goes val e : goes 0 e0 e -> ends (emu_badfun_val self val e).
Proof.
  intros G. unfold emu_badfun_val. eapply post_mono; [apply on_self_owns; [by eapply goes_running | own]|].
  intros r G1. eapply goes_more; [|exact (goes_trans 0 0 _ _ _ G G1)]. lia.
Qed.

Lemma export_apply_goes mfa args save e : goes 0 e0 e -> ends (export_apply host self mfa args save e).
Proof.
  intros G. unfold export_apply. go_step. go_step; [go|]. go_step; [|go]. apply checked_goes. by apply find_and_call_goes.
Qed.
Lemma closure_apply_goes closure n e : goes 0 e0 e -> ends (closure_apply self closure n e).
Proof. intros G. unfold closure_apply. go. Qed.
Lemma call_fun_object_goes arity f args e : goes 0 e0 e -> ends (call_fun_object host self arity f args e).
Proof. intros G. unfold call_fun_object. go_step. destruct a; try solve [go]; [by apply closure_apply_goes | by apply export_apply_goes]. Qed.

Lemma make_fun2_goes export e : goes 0 e0 e -> ends (op_make_fun2 host self export e).
Proof. intros G. unfold op_make_fun2. go. Qed.
Lemma make_fun3_goes fe dst env e : goes 0 e0 e -> ends (op_make_fun3 host fuel self fe dst env e).
Proof. intros G. unfold op_make_fun3. go. Qed.

(** What a lookup finds among the natives is one of them. *)
Lemma lookup_mfa_found mfa b e : post (fun r => match r.1 with Okay (FoundBif f) => find_mfa (native_functions (emu_code e)) mfa = Some f | _ => True end)
  (on_server (lookup_mfa host mfa b) e).
Proof.
  unfold on_server, lookup_mfa. cbn [code_server server_of]. case_match eqn:E; [by cbn|]. rewrite vm_bind_assoc.
  eapply post_bind; [apply post_any|]. intros [[p|x] s] _; done.
Qed.
Lemma call_mfa_goes lr args save e : goes 0 e0 e ->
  match lr with FoundBif f => exists mfa, find_mfa (native_functions (emu_code e0)) mfa = Some f | _ => True end -> ends (call_mfa self lr args save e).
Proof.
  intros G Hl. unfold call_mfa. destruct lr as [p|f]; [go|]. destruct Hl as [mfa Hf].
  eapply post_bind; [by eapply native_goes|]. intros [r e1] G1. cbn in G1. go.
Qed.
Lemma fixed_apply_goes mfa dealloc e : goes 0 e0 e -> ends (fixed_apply host self mfa dealloc e).
Proof.
  intros G. unfold fixed_apply. case_match; [done|]. pose proof (goes_natives _ _ _ G) as N.
  pose proof (lookup_mfa_found mfa true e) as Hf. pose proof (lookup_mfa_goes host mfa true e (goes_ok _ _ _ G)) as Hg.
  destruct (on_server _ e) as [[r e1]| | | |]; try done. cbn [post snd fst vm_bind] in *.
  pose proof (goes_trans 0 0 _ _ _ G Hg) as G1. change (0 + 0) with 0 in G1. destruct r as [lr|]; [|clear G; go].
  do 2 (eapply post_bind; [apply post_any|]; intros ? _). apply call_mfa_goes; [done|]. rewrite <- N. destruct lr; eauto.
Qed.

Lemma apply_goes arity e : goes 0 e0 e -> ends (op_apply host self arity e).
Proof. intros G. unfold op_apply. do 4 go_step. by apply fixed_apply_goes. Qed.
Lemma apply_last_goes arity dealloc e : goes 0 e0 e -> ends (op_apply_last host self arity dealloc e).
Proof. intros G. unfold op_apply_last. do 3 go_step. case_match; [go|]. go_step. by apply fixed_apply_goes. Qed.
Lemma bif0_goes target dst e : goes 0 e0 e -> ends (op_bif0 self target dst e).
Proof. intros G. unfold op_bif0. do 2 go_step. apply checked_goes. by apply find_and_call_goes. Qed.
Lemma bif_goes fail target args dst e : goes 0 e0 e -> ends (op_bif self fail target args dst e).
Proof. intros G. unfold op_bif. do 2 go_step. apply checked_goes. by apply find_and_call_goes. Qed.
Lemma gc_bif_goes fail live target args dst e : goes 0 e0 e -> ends (op_gc_bif self fail live target args dst e).
Proof. intros G. unfold op_gc_bif. do 3 go_step. apply checked_goes. by apply find_and_call_goes. Qed.

Lemma generic_call_ext_goes dst fail args save e : goes 0 e0 e -> ends (generic_call_ext host self dst fail args save e).
Proof.
  intros G. unfold generic_call_ext. do 2 go_step. destruct a; try by apply badfun_val_goes.
  case_match; [|go]. eapply post_bind; [by apply find_and_call_goes|]. intros [r e2] G2. cbn in G2. case_match; [by apply checked_goes|].
  go_step. go_step; try apply checked_goes; go.
Qed.
Lemma call_ext_goes arity dst e : goes 0 e0 e -> ends (op_call_ext host self arity dst e).
Proof. intros G. unfold op_call_ext. do 2 go_step. by apply generic_call_ext_goes. Qed.
Lemma call_ext_only_goes arity dst e : goes 0 e0 e -> ends (op_call_ext_only host self arity dst e).
Proof. intros G. unfold op_call_ext_only. do 2 go_step. by apply generic_call_ext_goes. Qed.
Lemma call_ext_last_goes arity dst dealloc e : goes 0 e0 e -> ends (op_call_ext_last host self arity dst dealloc e).
Proof.
  intros G. unfold op_call_ext_last. destruct (self_machine_is self e (goes_running _ _ _ _ G R0)) as (p & Hp & ->). cbn [vm_bind].
  eapply post_bind; [apply post_any|]. intros [ncp h] _. cbv zeta. set (e1 := put_self _ _ _).
  assert (goes 0 e0 e1) as G1.
  { change 0 with (0 + 0). eapply goes_trans; [exact G|]. by eapply goes_put; [eapply goes_running | |]. }
  do 2 (eapply post_bind; [apply post_any|]; intros ? _). by apply generic_call_ext_goes.
Qed.

Lemma slice_goes e v : emu_ok e -> slice_step (emu_vm e) v -> goes 0 e (with_vm e v).
Proof.
  intros [O V] S. pose proof S as (_ & Ep & Ev). split; cbn; [by split; [eapply vm_slice|] | | done | lia].
  intros u [p Hp]. specialize (Ev u). rewrite Hp in Ev. inversion Ev; eauto.
Qed.

Lemma goes_atoms k e e' st : goes k e e' -> goes k e (with_atoms e' st).
Proof. intros [[V S] A N P]. by split. Qed.
Lemma settles_goes (f : Machine -> vm (OpResult * Machine)) e : goes 0 e0 e -> (forall s, settles s (f s)) -> ends (on_self self f e).
Proof.
  intros G Hf. eapply post_mono; [apply on_self_goes; [by eapply goes_running|]|].
  - intros s. eapply post_mono; [apply Hf|]. intros r [_ I]. by apply identity_place.
  - intros r G1. eapply goes_more; [|exact (goes_trans 0 0 _ _ _ G G1)]. lia.
Qed.
Lemma put_each_settles code x n : forall s, settles s (put_each code x n s).
Proof. induction n as [|n IH]; intros s; cbn [put_each]; settle. Qed.
#[local] Hint Resolve put_each_settles : settled.
Lemma put_tuple_settles code arity dst s : settles s (op_put_tuple code arity dst s).
Proof. unfold op_put_tuple. settle. Qed.
Lemma one_element_settles x s : settles s (one_element x s).
Proof. unfold one_element. settle. Qed.
#[local] Hint Resolve one_element_settles : settled.
Lemma stacktrace_settles found s : settles s (
  do! (trace, s) := (match found with None => Ret (nil, s) | Some (mfa, line) => stack_entry mfa line s end) in
  do! c := set_x (ctx s) 0 trace in Ret (Normal, with_ctx s c)).
Proof. unfold stack_entry, set_x. settle. Qed.

Lemma emu_op_goes code_op e : goes 0 e0 e -> ends (emu_op host fuel code_op self e).
Proof.
  intros G. pose proof (goes_running _ _ _ _ G R0) as R. pose proof (goes_ok _ _ _ G) as O.
  destruct code_op as [[i|]|target dst|fail target args dst|fail live target args dst|arity dst|arity dst|arity dst dealloc|x|fe dst env|arity|tag arity f|arity|arity dealloc|i|i|arity dst|]; cbn [emu_op].
  - eapply post_mono; [apply on_self_goes; [done|]|].
    + intros s. eapply post_mono; [apply dispatch_settled|]. intros r [_ I]. by apply identity_place.
    + intros r G1. eapply goes_more; [|exact (goes_trans 0 0 _ _ _ G G1)]. lia.
  - destruct (processes (emu_vm e) !! self) as [p|] eqn:Hp; [|done]. cbn [read vm_bind].
    eapply post_bind; [apply send_step; [apply vm_unqueued, O | exact Hp]|]. intros [r v] S. cbn in *.
    eapply goes_more; [|exact (goes_trans 0 0 _ _ _ G (slice_goes _ _ O S))]. lia.
  - by apply bif0_goes.
  - by apply bif_goes.
  - by apply gc_bif_goes.
  - by apply call_ext_goes.
  - by apply call_ext_only_goes.
  - by apply call_ext_last_goes.
  - by apply make_fun2_goes.
  - by apply make_fun3_goes.
  - unfold op_call_fun. do 3 go_step. by apply call_fun_object_goes.
  - unfold op_call_fun2. do 3 go_step. by apply call_fun_object_goes.
  - by apply apply_goes.
  - by apply apply_last_goes.
  - by apply settles_goes; [|intros s; apply data_settles].
  - destruct (self_machine_is self e R) as (p & Hp & ->). cbn [vm_bind].
    eapply post_bind; [apply bits_settles|]. intros [[r s] st] [_ I]. cbn [fst snd] in *.
    eapply goes_more; [|exact (goes_trans 0 0 _ _ _ G (goes_atoms _ _ _ _ (goes_put _ _ _ _ R Hp (identity_place _ _ I))))]. lia.
  - by apply settles_goes; [|intros s; apply put_tuple_settles].
  - unfold op_build_stacktrace. do 2 (eapply post_bind; [apply post_any|]; intros ? _).
    apply settles_goes; [done|]. intros s. apply stacktrace_settles.
Qed.
End Ops_ok.

(** * The loop *)

Section Loop_ok.
Context `{Natives F} (host : Host) (fuel : nat) (code : Emulator F -> Z -> option EInstr) (reg : NativeFunRegistry F) (Nat : natives_tame reg).
Implicit Types (e : Emulator F).

Lemma execute_goes e self : native_functions (emu_code e) = reg -> running self e -> 0 <= pid_counter (emu_vm e) < 2 ^ 61 ->
  post (fun r => goes 1 e r.2) (emu_execute_one host fuel code e self).
Proof.
  intros N R Hc. unfold emu_execute_one. destruct (self_machine_is self e R) as (p & Hp & ->). cbn [vm_bind].
  eapply post_bind; [apply post_any|]. intros i _. apply emu_op_goes; [by rewrite N | done | done |]. by eapply goes_put.
Qed.

Lemma emu_end_goes e self f : running self e -> (forall p, same_identity p (f p)) -> post (goes 0 e) (emu_end_slice e self f).
Proof.
  intros [O _] Hf. unfold emu_end_slice. eapply post_bind; [by apply end_step|]. intros v S. cbn. by apply slice_goes.
Qed.

Lemma emu_run_goes n : forall e self, native_functions (emu_code e) = reg -> running self e ->
  0 <= pid_counter (emu_vm e) -> pid_counter (emu_vm e) + Z.of_nat n <= 2 ^ 61 ->
  post (fun r => goes (Z.of_nat n) e r.2) (emu_run host fuel code n e self).
Proof.
  induction n as [|n IH]; intros e self N R H0 Hn; cbn [emu_run]; [done|].
  eapply post_bind; [apply execute_goes; [done | done | lia]|]. intros [r e1] G. cbn [snd] in G.
  pose proof (goes_running _ _ _ _ G R) as R1.
  assert (forall f (b : bool), (forall p, same_identity p (f p)) ->
    post (fun r => goes (Z.of_nat (S n)) e r.2) (do! e2 := emu_end_slice e1 self f in Ret (b, e2))) as Hend.
  { intros f b Hf. eapply post_bind; [by apply emu_end_goes|]. intros e2 G2. cbn [post snd].
    eapply goes_more; [|exact (goes_trans 1 0 _ _ _ G G2)]. lia. }
  destruct r; try by apply Hend.
  case_match; [cbn [post snd]; eapply goes_more; [|exact G]; lia|].
  destruct (self_machine_is self e1 R1) as (p & Hp & ->). cbn [vm_bind]. case_match; [by apply Hend|].
  eapply post_mono; [apply IH; [by rewrite (goes_natives _ _ _ G) | done | |]|].
  - destruct G as [_ _ _ G]. lia.
  - destruct G as [_ _ _ G]. lia.
  - intros r G2. replace (Z.of_nat (S n)) with (1 + Z.of_nat n) by lia. by eapply goes_trans.
Qed.

Lemma emu_dispatch_ok n e : emu_ok e -> native_functions (emu_code e) = reg -> 0 <= pid_counter (emu_vm e) ->
  pid_counter (emu_vm e) + Z.of_nat n <= 2 ^ 61 ->
  post (fun r => emu_ok r.2 /\ native_functions (emu_code r.2) = reg /\ pid_counter (emu_vm e) <= pid_counter (emu_vm r.2) <= pid_counter (emu_vm e) + Z.of_nat n)
    (emu_dispatch host fuel code n e).
Proof.
  intros [[S P] V] N H0 Hn. unfold emu_dispatch. pose proof (next_process_chosen _ _ S) as Hc.
  destruct (next_process _ _) as [[[c sc] rg]| | | |]; try done. cbn [post vm_bind] in *. cbv zeta. set (e1 := with_vm e _).
  assert (emu_ok e1) as O1.
  { split; [|done]. split; [apply Hc|]. intros u Hu. apply P. by eapply next_registered. }
  destruct c as [self|]; [|cbn; split_and!; [done | done | lia | lia]].
  assert (running self e1) as R1.
  { split; [done|]. by apply (current_apart _ _ (chosen_ok _ _ _ _ _ Hc)), (chosen_current _ _ _ _ _ Hc). }
  eapply post_bind; [by apply emu_end_goes|]. intros e2 G2. pose proof (goes_running _ _ _ _ G2 R1) as R2.
  pose proof (goes_pid0 _ _ G2) as E2. cbn in E2. pose proof (goes_natives _ _ _ G2) as N2.
  eapply post_mono; [apply emu_run_goes; [by rewrite N2 | done | lia | lia]|]. intros r [O3 _ N3 P3].
  split_and!; [done | by rewrite N3, N2 | lia | lia].
Qed.
End Loop_ok.

(** * The machine inside of the emulator *)

Section Inside.
Context `{Natives F} (host : Host) (fuel : nat) (code : Emulator F -> Z -> option EInstr) (basic : Z -> option VInstr).
Implicit Types (e : Emulator F).

(** Where the code has only instructions of a module, whatever the machine does. *)
Definition only_basic e : Prop := forall v p, code (with_vm e v) p = Basic <$> basic p.
Definition inside {A} e (r : vm (A * VM)) : vm (A * Emulator F) := do! (a, v) := r in Ret (a, with_vm e v).

Lemma with_vm_id e : with_vm e (emu_vm e) = e.
Proof. by destruct e. Qed.
Lemma with_vm_vm e v v' : with_vm (with_vm e v) v' = with_vm e v'.
Proof. done. Qed.
Lemma only_basic_vm e v : only_basic e -> only_basic (with_vm e v).
Proof. intros B v' p. apply B. Qed.

Lemma put_twice v id s s' : put_machine (put_machine v id s) id s' = put_machine v id s'.
Proof. unfold put_machine. cbn. by rewrite insert_insert_eq. Qed.

Lemma execute_inside e self : only_basic e ->
  emu_execute_one host fuel code e self = inside e (vm_execute_one (emu_atoms e) fuel basic (emu_vm e) self).
Proof.
  intros B. unfold emu_execute_one, vm_execute_one, self_machine, inside. destruct (processes (emu_vm e) !! self) as [p|] eqn:Hp; [|done].
  cbn [read vm_bind]. unfold ctx. cbn [proc machine_of].
  specialize (B (emu_vm e) (ip (context p))). rewrite with_vm_id in B. rewrite B.
  destruct (basic (ip (context p))) as [[i|]|]; [| |done]; cbn [fmap option_fmap option_map read vm_bind emu_op earity_of].
  - unfold on_self, self_machine, put_self. cbn [emu_vm with_vm processes put_machine proc]. rewrite lookup_insert_eq. cbn [read vm_bind].
    change (machine_of (put_machine _ _ _) _) with (machine_of (emu_vm e) (with_context p (fetched (arity_of i) (context p)))).
    change (emu_atoms _) with (emu_atoms e).
    destruct (dispatch_op _ _ _ _) as [[r s]| | | |]; try done. cbn [vm_bind]. by rewrite put_twice.
  - unfold put_self. cbn [emu_vm with_vm processes put_machine proc]. rewrite lookup_insert_eq. cbn [read vm_bind].
    by destruct (op_send _ _ _ _) as [[r v]| | | |].
Qed.

Lemma end_inside e self f (b : bool) : (do! e' := emu_end_slice e self f in Ret (b, e')) = inside e (do! v := end_slice (emu_vm e) self f in Ret (b, v)).
Proof. unfold emu_end_slice, inside. by destruct (end_slice _ _ _). Qed.

Lemma inside_with {A} e v (r : vm (A * VM)) : inside (with_vm e v) r = inside e r.
Proof. done. Qed.
Lemma inside_bind {A B} e (r : vm (A * VM)) (k : A * Emulator F -> vm (B * Emulator F)) (k' : A * VM -> vm (B * VM)) :
  (forall a v, k (a, with_vm e v) = inside e (k' (a, v))) -> vm_bind (inside e r) k = inside e (vm_bind r k').
Proof. intros Hk. unfold inside at 1. destruct r as [[a v]| | | |]; try done. apply Hk. Qed.

Lemma run_inside n : forall e self, only_basic e ->
  emu_run host fuel code n e self = inside e (vm_run (emu_atoms e) fuel basic n (emu_vm e) self).
Proof.
  induction n as [|n IH]; intros e self B; [done|]. cbn [emu_run vm_run]. rewrite execute_inside by done. apply inside_bind. intros r v.
  destruct r; try apply (end_inside (with_vm e v)). cbn [emu_vm with_vm]. case_match; [done|].
  unfold self_machine. cbn [emu_vm with_vm]. destruct (processes v !! self) as [p|]; [|done]. cbn [read vm_bind]. unfold ctx. cbn [proc machine_of].
  case_match; [apply (end_inside (with_vm e v))|]. rewrite IH by (by apply only_basic_vm). by rewrite inside_with.
Qed.

End Inside.

Module InsideWitness.
#[local] Instance no_natives : Natives Z := fun _ _ _ e => Ret (Okay (Value nil), e).
Definition emulator : Emulator Z :=
  {| emu_vm := SchedWitness.started; emu_code := new_code_server [] ∅; emu_atoms := init_storage |}.
Definition code (_ : Emulator Z) (p : Z) : option EInstr := Basic <$> SchedWitness.code p.

End InsideWitness.
