(* ===== verification/BeamMain.v ===== *)
(** The emulator from its start ([lib_main.rs], [emulator/vm/mod.rs]): the virtual machine with
    its code server and the registry of its natives, the first process, and the ticks. *)
From S2P Require Import Prelude Float64 BeamTerm BeamMem BeamBinary BeamCompare BeamMap BeamHeap BeamProc BeamOps BeamFacts BeamCopy BeamSched BeamReader BeamCte BeamEtf BeamFile BeamLoad BeamNative BeamListFuns BeamMapFuns BeamCode BeamCodeFacts BeamCall BeamBifs BeamBifFacts BeamCallFacts.

Section Main.
Context (host : Host) (fuel : nat) (fresh_heap : Term -> Z * list Z) (code : Emulator NativePtr -> Z -> option EInstr).
Implicit Types (e : Emulator NativePtr).
#[local] Instance natives : Natives NativePtr := run_native_ptr host fuel fresh_heap.

(** [VM::new]. *)
Definition new_emulator (path : list string) : vm (Emulator NativePtr) :=
  do! (reg, st) := new_registry init_storage preloaded in
  Ret {| emu_vm := new_vm; emu_code := new_code_server path reg; emu_atoms := st |}.

(** The loop over [tick]: a slice has at most [n] instructions. *)
Fixpoint ticks (n k : nat) e : vm (Emulator NativePtr) :=
  match k with
  | O => Spin
  | S k => do! (again, e) := emu_dispatch host fuel code n e in if (again : bool) then ticks n k e else Ret e
  end.

Definition run_emulator (path : list string) (module function : string) (n k : nat) : vm (Emulator NativePtr) :=
  do! e := new_emulator path in
  do! (m, st) := unwrap (from_str (emu_atoms e) module) in
  do! (f, st) := unwrap (from_str st function) in
  let e := {| emu_vm := emu_vm e; emu_code := emu_code e; emu_atoms := st |} in
  do! (rootp, e) := vm_create_process host fuel fresh_heap m f nil 0 e in
  match rootp with Okay _ => ticks n k e | Err x => Fail x end.

Lemma lookup_keeps_vm mfa e : post (fun r => scheduler (emu_vm r.2) = scheduler (emu_vm e) /\ processes (emu_vm r.2) = processes (emu_vm e) /\
  pid_counter (emu_vm r.2) = pid_counter (emu_vm e)) (on_server (lookup_beam_code_and_load host mfa) e).
Proof. unfold on_server. eapply post_bind; [apply post_any|]. by intros [r s] _. Qed.

(** Every emulator there can be: between slices, and when processes are created from outside. *)
Inductive emu_reaches (path : list string) : Emulator NativePtr -> Prop :=
| emu_starts e : new_emulator path = Ret e -> emu_reaches path e
| emu_interns e st : emu_reaches path e -> emu_reaches path {| emu_vm := emu_vm e; emu_code := emu_code e; emu_atoms := st |}
| emu_creates e m f args flags r e' : emu_reaches path e -> pid_counter (emu_vm e) < 2 ^ 61 ->
    vm_create_process host fuel fresh_heap m f args flags e = Ret (r, e') -> emu_reaches path e'
| emu_slices e n b e' : emu_reaches path e -> pid_counter (emu_vm e) + Z.of_nat n <= 2 ^ 61 ->
    emu_dispatch host fuel code n e = Ret (b, e') -> emu_reaches path e'.

Record emu_sound e : Prop := {
  sound_ok : emu_ok e;
  sound_pids : 0 <= pid_counter (emu_vm e);
  sound_natives : forall mfa f, find_mfa (native_functions (emu_code e)) mfa = Some f -> heap_only f
}.

Lemma heap_only_tame reg : (forall mfa f, find_mfa reg mfa = Some f -> heap_only f) -> natives_tame reg.
Proof. intros Hr mfa f self args e Hf R Hc. apply run_native_tame; [by eapply Hr | done | done]. Qed.

Lemma new_emulator_sound path : post (fun e => emu_sound e /\ pid_counter (emu_vm e) = 0) (new_emulator path).
Proof.
  unfold new_emulator. eapply post_bind; [apply preloaded_heap_only|]. intros [reg st] Hp. split; [|done].
  split; [split; [apply new_vm_ok | apply new_server_ok] | done | exact Hp].
Qed.
Lemma reaches_sound path e : emu_reaches path e -> emu_sound e.
Proof.
  induction 1 as [e E | e st _ [O P N] | e m f args flags r e' _ [O P N] Hc E | e n b e' _ [O P N] Hc E].
  - exact (proj1 (post_Ret _ _ _ (new_emulator_sound path) E)).
  - split; [|done..]. destruct O. by split.
  - destruct (post_Ret _ _ _ (vm_create_tame host fuel fresh_heap m f args flags e O (conj P Hc)) E) as [O' _ N' P'].
    cbn in O', N', P'. split; [done | lia | by rewrite N'].
  - destruct (post_Ret _ _ _ (emu_dispatch_ok host fuel code _ (heap_only_tame _ N) n e O eq_refl P Hc) E) as (O' & N' & P').
    cbn in O', N', P'. split; [done | lia | by rewrite N'].
Qed.

Lemma post_self {A} (r : vm A) : post (fun a => r = Ret a) r.
Proof. by destruct r. Qed.

Lemma ticks_reached path n k : forall e, emu_reaches path e -> pid_counter (emu_vm e) + Z.of_nat n * Z.of_nat k <= 2 ^ 61 ->
  post (emu_reaches path) (ticks n k e).
Proof.
  induction k as [|k IH]; intros e R Pk; cbn [ticks]; [done|]. destruct (reaches_sound path _ R) as [O P N].
  assert (Z.of_nat n * Z.of_nat (S k) = Z.of_nat n + Z.of_nat n * Z.of_nat k /\ 0 <= Z.of_nat n * Z.of_nat k) as [Em Ep] by lia.
  eapply post_bind; [apply post_self|]. intros [b e1] E. assert (pid_counter (emu_vm e) + Z.of_nat n <= 2 ^ 61) as Hn by lia.
  pose proof (emu_slices path e n b e1 R Hn E) as R1.
  destruct b; [|exact R1]. apply IH; [done|].
  destruct (post_Ret _ _ _ (emu_dispatch_ok host fuel code _ (heap_only_tame _ N) n e O eq_refl P Hn) E) as (_ & _ & Q). cbn in Q. lia.
Qed.

(** What [run_emulator] ends with is among them. *)
Lemma run_is_reached path module function n k : 1 + Z.of_nat n * Z.of_nat k <= 2 ^ 61 ->
  post (emu_reaches path) (run_emulator path module function n k).
Proof.
  intros Hk. unfold run_emulator. eapply post_bind; [apply post_self|]. intros e0 E0.
  pose proof (proj2 (post_Ret _ _ _ (new_emulator_sound path) E0)) as P0. do 2 (eapply post_bind; [apply post_any|]; intros [? ?] _).
  cbv zeta. set (e1 := {| emu_vm := emu_vm e0 |}). assert (emu_reaches path e1) as R1 by (apply (emu_interns path e0); by apply emu_starts).
  change (pid_counter (emu_vm e1) = 0) in P0. pose proof (sound_ok _ (reaches_sound path _ R1)) as O1. clearbody e1.
  eapply post_bind; [apply post_self|]. intros [r e2] E2. assert (pid_counter (emu_vm e1) < 2 ^ 61) as Hc by lia.
  pose proof (emu_creates path e1 _ _ _ _ r e2 R1 Hc E2) as R2.
  destruct (post_Ret _ _ _ (vm_create_tame host fuel fresh_heap _ _ _ _ _ O1 ltac:(lia)) E2) as [_ _ _ G]. cbn in G.
  destruct r as [v|]; [|exact I]. apply ticks_reached; [exact R2 | lia].
Qed.

(** C24: The emulator as a whole never loses its bookkeeping.  Whatever code it runs, with calls of
    natives, imports and funs, modules loaded on the way and processes that create processes:
    every queued, selected or waiting process is registered and in one place, modules stand in
    order under their own names with versions that are all different, and every process that
    is created gets a pid that no other has and is queued. *)
Theorem emulator_stays_sound path e : emu_reaches path e ->
  sched_ok (processes (emu_vm e)) (scheduler (emu_vm e)) /\ server_ok (emu_code e) /\
  forall m f args flags pid e', pid_counter (emu_vm e) < 2 ^ 61 ->
    vm_create_process host fuel fresh_heap m f args flags e = Ret (Okay (Value pid), e') ->
    processes (emu_vm e) !! pid = None /\ pid ∈ queued (scheduler (emu_vm e')).
Proof.
  intros R. destruct (reaches_sound path _ R) as [O P N]. split; [apply O|]. split; [apply O|]. intros m f args flags pid e' Hc.
  unfold vm_create_process. destruct (list_length _ _ _) as [arity| | | |]; try done. cbn [caught].
  pose proof (lookup_goes host {| mfa_m := m; mfa_f := f; mfa_arity := arity |} e O) as G.
  pose proof (lookup_keeps_vm {| mfa_m := m; mfa_f := f; mfa_arity := arity |} e) as K.
  destruct (on_server _ e) as [[r e1]| | | |]; try done. cbn [vm_bind post snd] in *. destruct r as [entry|]; [|done].
  destruct (collect _ _ _) as [values| | | |]; try done. cbn [vm_bind]. destruct (fresh_heap _) as [base garbage].
  destruct K as (K1 & K2 & K3). pose proof (create_ok (emu_vm e1) (Ret entry) values PrioNormal flags base garbage) as C.
  destruct (create_process _ _ _ _ _ _ _) as [[id v]| | | |]; try done. cbn [vm_bind okay]. intros [= <- <-]. cbn in *.
  rewrite <- K2. apply C; [apply G | by rewrite K3].
Qed.
End Main.

Lemma preloaded_tables_ok : tables_ok preloaded.
Proof. repeat constructor; vm_compute; discriminate. Qed.
Lemma init_table_ok n : n <= 10000 -> table_ok init_storage n.
Proof.
  intros Hn. split; [apply init_storage_ok|]. split; [|assert (length (atoms_by_index init_storage) = 40%nat) as -> by (vm_compute; reflexivity); lia].
  let l := eval vm_compute in (atoms_by_index init_storage) in assert (atoms_by_index init_storage = l) as -> by (vm_compute; reflexivity).
  repeat (apply Forall_cons; split; [vm_compute; reflexivity|]). constructor.
Qed.
Lemma emulator_starts path : exists reg st, new_emulator path = Ret {| emu_vm := new_vm; emu_code := new_code_server path reg; emu_atoms := st |}.
Proof.
  unfold new_emulator. destruct (register_preloaded_ok preloaded init_storage ∅) as (reg & st & E & _).
  - apply init_table_ok. vm_compute. discriminate.
  - apply preloaded_tables_ok.
  - exists reg, st. unfold new_registry. by rewrite E.
Qed.

Module MainWitness.
(** Code that calls its first register as a fun, over and over. *)
Definition code (_ : Emulator NativePtr) (_ : Z) : option EInstr := Some (CallFun (make_small_unsigned 0)).
Definition fresh (_ : Term) : Z * list Z := (1048576, []).

(** The first process: its module is loaded from a file. *)
Definition before (reg : NativeFunRegistry NativePtr) : Emulator NativePtr :=
  {| emu_vm := new_vm; emu_code := new_code_server ["."%string] reg; emu_atoms := CodeWitness.names |}.
Definition first_process (reg : NativeFunRegistry NativePtr) : vm (result NativeResult * Emulator NativePtr) :=
  vm_create_process CodeWitness.host 100 fresh (make_atom 0) (make_atom 1) nil 0 (before reg).

Lemma first_process_starts reg : exists e, first_process reg = Ret (Okay (Value (make_local_pid 0)), e) /\
  queued (scheduler (emu_vm e)) = [make_local_pid 0] /\ length (mods (emu_code e)) = 1%nat.
Proof. eexists. split; [vm_compute; reflexivity|]. split; vm_compute; reflexivity. Qed.

Lemma emulator_stays_sound_witness : exists e,
  queued (scheduler (emu_vm e)) = [make_local_pid 0] /\ length (mods (emu_code e)) = 1%nat /\
  (sched_ok (processes (emu_vm e)) (scheduler (emu_vm e)) /\ server_ok (emu_code e) /\
  forall m f args flags pid e', pid_counter (emu_vm e) < 2 ^ 61 ->
    vm_create_process CodeWitness.host 100 fresh m f args flags e = Ret (Okay (Value pid), e') ->
    processes (emu_vm e) !! pid = None /\ pid ∈ queued (scheduler (emu_vm e'))).
Proof.
  destruct (emulator_starts ["."%string]) as (reg & st & E). destruct (first_process_starts reg) as (e & Ee & Hq & Hm).
  exists e. split; [exact Hq|]. split; [exact Hm|].
  apply (emulator_stays_sound CodeWitness.host 100 fresh code ["."%string] e).
  assert (emu_reaches CodeWitness.host 100 fresh code ["."%string] (before reg)) as R.
  { exact (emu_interns CodeWitness.host 100 fresh code ["."%string] _ CodeWitness.names (emu_starts _ _ _ _ _ _ E)). }
  unfold first_process in Ee. assert (pid_counter (emu_vm (before reg)) < 2 ^ 61) as Hc by (vm_compute; reflexivity).
  exact (emu_creates _ _ _ _ _ _ _ _ _ _ _ _ R Hc Ee).
Defined.
End MainWitness.

(** * Behaviours of the source that stand out *)

Module CallWitness.
(** A native that refuses its arguments. *)
#[local] Instance refusing : Natives Z := fun _ _ _ e => Ret (Okay (Thrown ExcError BADARG), e).
Definition fail_label : Term := SchedWitness.label 1608.
Definition ip_of (e : Emulator Z) (id : Term) : option Z := (fun p => ip (context p)) <$> (processes (emu_vm e) !! id).

(** A guard that fails jumps to its label and raises all the same. *)
Lemma guard_jumps_and_raises : exists e,
  find_and_call_native_fun SchedWitness.receiver fail_label (BifFnPointer 0) [] nil InsideWitness.emulator = Ret (Okay (Raised ExcError BADARG), e) /\
  ip_of InsideWitness.emulator SchedWitness.receiver = Some 800 /\ ip_of e SchedWitness.receiver = Some 1608.
Proof. eexists. split; [vm_compute; reflexivity|]. split; vm_compute; reflexivity. Qed.

(** An immediate value that is called as a fun. *)
Lemma calling_an_atom_panics : call_fun_object CodeWitness.host SchedWitness.receiver 0 (make_atom 3) [] InsideWitness.emulator = Panic.
Proof. vm_compute. reflexivity. Qed.

(** The digest of nothing is the value the digest starts from. *)
Lemma digest_of_nothing s : md5_1 empty_binary s = answers (create_with_data DIGEST_START s).
Proof. reflexivity. Qed.
End CallWitness.
