(* ===== verification/BeamDispatch.v ===== *)
(** The dispatch of the emulator ([beam/vm_dispatch.rs]): from the words of the code to an
    instruction with its operands, and the emulator that runs the code of its modules.

    The generated [match] over opcodes is a table from opcodes to what is made of the operand
    words; its parts follow the order of the source.  [assert_arity] is a check of debug
    builds; that it holds is the theorem [decode_arity]. *)
From S2P Require Import Prelude Float64 BeamTerm BeamMem BeamBinary BeamCompare BeamMap BeamHeap BeamProc BeamOps BeamFacts BeamCopy BeamSched BeamReader BeamCte BeamEtf BeamBits BeamBitOps BeamMatch BeamFile BeamLoad BeamLink BeamModule BeamNative BeamListFuns BeamMapFuns BeamMapOps BeamCode BeamCodeFacts BeamCall BeamBifs BeamBifFacts BeamCallFacts BeamMain.

Definition basic (i : Instr) : EInstr := Basic (Plain i).

Section Arities.
Implicit Types (l : list Term).
Definition args0 (i : EInstr) l : option EInstr := match l with [] => Some i | _ => None end.
Definition args1 (f : Term -> EInstr) l := match l with [a] => Some (f a) | _ => None end.
Definition args2 (f : Term -> Term -> EInstr) l := match l with [a; b] => Some (f a b) | _ => None end.
Definition args3 (f : Term -> Term -> Term -> EInstr) l := match l with [a; b; c] => Some (f a b c) | _ => None end.
Definition args4 (f : Term -> Term -> Term -> Term -> EInstr) l := match l with [a; b; c; d] => Some (f a b c d) | _ => None end.
Definition args5 (f : Term -> Term -> Term -> Term -> Term -> EInstr) l :=
  match l with [a; b; c; d; e] => Some (f a b c d e) | _ => None end.
Definition args6 (h : Term -> Term -> Term -> Term -> Term -> Term -> EInstr) l :=
  match l with [a; b; c; d; e; f] => Some (h a b c d e f) | _ => None end.
Definition args7 (h : Term -> Term -> Term -> Term -> Term -> Term -> Term -> EInstr) l :=
  match l with [a; b; c; d; e; f; g] => Some (h a b c d e f g) | _ => None end.
Definition args8 (k : Term -> Term -> Term -> Term -> Term -> Term -> Term -> Term -> EInstr) l :=
  match l with [a; b; c; d; e; f; g; h] => Some (k a b c d e f g h) | _ => None end.
End Arities.

Definition CALLS_AND_FRAMES : list (Z * (list Term -> option EInstr)) :=
  [(2, args3 (fun a b c => basic (IFuncInfo a b c))); (4, args2 (fun a b => basic (ICall a b)));
   (5, args3 (fun a b c => basic (ICallLast a b c))); (6, args2 (fun a b => basic (ICallOnly a b)));
   (7, args2 CallExt); (8, args3 CallExtLast); (9, args2 Bif0);
   (10, args4 (fun a b c d => Bif a b [c] d)); (11, args5 (fun a b c d e => Bif a b [c; d] e));
   (12, args2 (fun a b => basic (IAllocate Uninitialized a b))); (13, args3 (fun a b c => basic (IAllocateHeap Uninitialized a b c)));
   (14, args2 (fun a b => basic (IAllocate FillNil a b))); (15, args3 (fun a b c => basic (IAllocateHeap FillNil a b c)));
   (16, args2 (fun a b => basic (ITestHeap a b))); (17, args1 (fun a => basic (IInit a)));
   (18, args1 (fun a => basic (IDeallocate a))); (19, args0 (basic IReturn)); (20, args0 (Basic Send));
   (21, args0 (basic IRemoveMessage)); (22, args0 (basic ITimeout)); (23, args2 (fun a b => basic (ILoopRec a b)));
   (24, args1 (fun a => basic (ILoopRecEnd a))); (25, args1 (fun a => basic (IWait a)));
   (26, args2 (fun a b => basic (IWaitTimeout a b)))].
Definition TESTS : list (Z * (list Term -> option EInstr)) :=
  [(39, args3 (fun a b c => basic (ICompare CLt a b c))); (40, args3 (fun a b c => basic (ICompare CGe a b c)));
   (41, args3 (fun a b c => basic (ICompare CEq a b c))); (42, args3 (fun a b c => basic (ICompare CNe a b c)));
   (43, args3 (fun a b c => basic (ICompare CEqExact a b c))); (44, args3 (fun a b c => basic (ICompare CNeExact a b c)));
   (45, args2 (fun a b => basic (ITypeTest IsInteger a b))); (46, args2 (fun a b => basic (ITypeTest IsFloat a b)));
   (47, args2 (fun a b => basic (ITypeTest IsNumber a b))); (48, args2 (fun a b => basic (ITypeTest IsAtom a b)));
   (49, args2 (fun a b => basic (ITypeTest IsPid a b))); (50, args2 (fun a b => basic (ITypeTest IsReference a b)));
   (51, args2 (fun a b => basic (ITypeTest IsPort a b))); (52, args2 (fun a b => basic (IIsNil a b)));
   (53, args2 (fun a b => basic (ITypeTest IsBinary a b))); (55, args2 (fun a b => basic (ITypeTest IsList a b)));
   (56, args2 (fun a b => basic (IIsNonemptyList a b))); (57, args2 (fun a b => basic (ITypeTest IsTuple a b)));
   (58, args3 (fun a b c => basic (ITestArity a b c))); (59, args3 (fun a b c => basic (ISelectVal a b c)));
   (60, args3 (fun a b c => basic (ISelectTupleArity a b c)))].
Definition MOVES : list (Z * (list Term -> option EInstr)) :=
  [(61, args1 (fun a => basic (IJump a))); (62, args2 (fun a b => basic (ICatch a b)));
   (63, args1 (fun a => basic (ICatchEnd a))); (64, args2 (fun a b => basic (IMove a b)));
   (65, args3 (fun a b c => basic (IGetList a b c))); (66, args3 (fun a b c => basic (IGetTupleElement a b c)));
   (67, args3 (fun a b c => DataOp (DSetTupleElement a b c))); (69, args3 (fun a b c => basic (IPutList a b c)));
   (70, args2 PutTuple); (72, args1 (fun a => basic (IBadmatch a))); (73, args0 (basic IIfEnd));
   (74, args1 (fun a => basic (ICaseEnd a))); (75, args1 CallFun);
   (77, args2 (fun a b => basic (ITypeTest IsFunction a b))); (78, args2 CallExtOnly);
   (89, args5 (fun a b c d e => BitsOp (BPutInteger a b c d e))); (90, args5 (fun a b c d e => BitsOp (BPutBinary a b c d e)));
   (92, args2 (fun a b => BitsOp (BPutString a b))); (94, args0 (DataOp (DNop []))); (95, args1 (fun a => DataOp (DNop [a])));
   (96, args2 (fun a b => DataOp (DFmove a b))); (97, args2 (fun a b => DataOp (DFconv a b)));
   (98, args4 (fun a b c d => DataOp (DFloat FAdd a b c d))); (99, args4 (fun a b c d => DataOp (DFloat FSub a b c d)));
   (100, args4 (fun a b c d => DataOp (DFloat FMul a b c d))); (101, args4 (fun a b c d => DataOp (DFloat FDiv a b c d)));
   (102, args3 (fun a b c => DataOp (DFnegate a b c)))].
Definition FUNS_AND_BITS : list (Z * (list Term -> option EInstr)) :=
  [(103, args1 MakeFun2); (104, args2 (fun a b => basic (ITry a b))); (105, args1 (fun a => basic (ITryEnd a)));
   (106, args1 (fun a => basic (ITryCase a))); (107, args1 (fun a => basic (ITryCaseEnd a)));
   (108, args2 (fun a b => basic (IRaise a b))); (109, args6 (fun a b c d e f => BitsOp (BInit2 a b c d e f)));
   (111, args5 (fun a b c d e => BitsOp (BAdd a b c d e))); (112, args1 Apply); (113, args2 ApplyLast);
   (114, args2 (fun a b => basic (ITypeTest IsBoolean a b))); (115, args3 (fun a b c => DataOp (DIsFunction2 a b c)));
   (119, args7 (fun a b c d e f g => BitsOp (BGetBinary2 a b c d e f g))); (120, args5 (fun a b c d e => BitsOp (BSkipBits2 a b c d e)));
   (121, args3 (fun a b c => BitsOp (BTestTail2 a b c))); (124, args5 (fun a b c d e => GcBif a b c [d] e));
   (125, args6 (fun a b c d e f => GcBif a b c [d; e] f)); (129, args2 (fun a b => basic (ITypeTest IsBitstr a b)));
   (130, args1 (fun a => BitsOp (BContextToBinary a))); (131, args3 (fun a b c => BitsOp (BTestUnit a b c)));
   (132, args4 (fun a b c d => BitsOp (BMatchString a b c d))); (134, args8 (fun a b c d e f g h => BitsOp (BAppend a b c d e f g h)));
   (136, args2 (fun a b => basic (ITrim a b))); (137, args6 (fun a b c d e f => BitsOp (BInitBits a b c d e f)));
   (138, args5 (fun a b c d e => BitsOp (BGetUtf8 a b c d e))); (139, args4 (fun a b c d => BitsOp (BSkipUtf8 a b c d)));
   (144, args3 (fun a b c => BitsOp (BUtf8Size a b c))); (145, args3 (fun a b c => BitsOp (BPutUtf8 a b c)));
   (152, args7 (fun a b c d e f g => GcBif a b c [d; e; f] g))].
Definition MAPS_AND_LATER : list (Z * (list Term -> option EInstr)) :=
  [(154, args5 (fun a b c d e => DataOp (DPutMapAssoc a b c d e))); (155, args5 (fun a b c d e => DataOp (DPutMapExact a b c d e)));
   (156, args2 (fun a b => DataOp (DIsMap a b))); (157, args3 (fun a b c => DataOp (DHasMapFields a b c)));
   (158, args3 (fun a b c => DataOp (DGetMapElements a b c))); (159, args4 (fun a b c d => basic (IIsTaggedTuple a b c d)));
   (160, args0 (BuildStacktrace)); (161, args0 (basic IRawRaise)); (162, args2 (fun a b => basic (IGetHd a b)));
   (163, args2 (fun a b => basic (IGetTl a b))); (164, args2 (fun a b => basic (IPutTuple2 a b)));
   (165, args3 (fun a b c => BitsOp (BGetTail a b c))); (166, args4 (fun a b c d => BitsOp (BStartMatch3 a b c d)));
   (167, args3 (fun a b c => BitsOp (BGetPosition a b c))); (168, args2 (fun a b => BitsOp (BSetPosition a b)));
   (169, args2 (fun a b => basic (ISwap a b))); (170, args4 (fun a b c d => BitsOp (BStartMatch4 a b c d)));
   (171, args3 MakeFun3); (172, args1 (fun a => DataOp (DInitYregs a))); (173, args2 (fun a b => DataOp (DNop [a; b])));
   (174, args1 (fun a => DataOp (DNop [a]))); (175, args1 (fun a => DataOp (DNop [a]))); (176, args1 (fun a => DataOp (DNop [a])));
   (177, args6 (fun a b c d e f => BitsOp (BCreateBin a b c d e f))); (178, args3 CallFun2);
   (180, args1 (fun a => DataOp (DBadrecord a))); (181, args5 (fun a b c d e => DataOp (DUpdateRecord a b c d e)));
   (182, args3 (fun a b c => BitsOp (BMatch a b c)))].

Definition DISPATCH : list (Z * (list Term -> option EInstr)) := CALLS_AND_FRAMES ++ TESTS ++ MOVES ++ FUNS_AND_BITS ++ MAPS_AND_LATER.

Fixpoint find_op (t : list (Z * (list Term -> option EInstr))) (op : Z) : option (list Term -> option EInstr) :=
  match t with [] => None | (o, f) :: t => if o =? op then Some f else find_op t op end.

(** [dispatch_op_inline]: [None] is [unknown_opcode], which panics. *)
Definition decode (op : Z) (args : list Term) : option EInstr := f ← find_op DISPATCH op; f args.

(** ** Fetching *)

Fixpoint operands_at (code : Z -> option Z) (p : Z) (n : nat) : option (list Term) :=
  match n with
  | O => Some []
  | S n => w ← code p; (fun l => from_raw w :: l) <$> operands_at code (p + 8) n
  end.

Definition fetch_opcode (code : Z -> option Z) (p : Z) : option (Z * list Term) :=
  w ← code p;
  let op := from_memory_word w in
  n ← ARITY_MAP !! Z.to_nat op;
  (fun l => (op, l)) <$> operands_at code (p + 8) (Z.to_nat n).

(** The code of the loaded modules, as the loop of the emulator takes it. *)
Definition loaded_code {F} (e : Emulator F) (p : Z) : option EInstr :=
  '(op, args) ← fetch_opcode (word_at e) p; decode op args.

(** * What is dispatched *)

Record arity_agrees (op : Z) (f : list Term -> option EInstr) : Prop := {
  agrees_byte : 0 <= op < 256;
  agrees_some l i : f l = Some i -> ARITY_MAP !! Z.to_nat op = Some (earity_of i) /\ earity_of i = Z.of_nat (length l);
  agrees_all l : ARITY_MAP !! Z.to_nat op = Some (Z.of_nat (length l)) -> is_Some (f l)
}.

Ltac operands := intros Ho R E; split;
  [ done
  | intros l j; unfold args0, args1, args2, args3, args4, args5, args6, args7, args8; repeat case_match; intros Hj; simplify_eq; by rewrite R, E
  | intros l; rewrite R; unfold args0, args1, args2, args3, args4, args5, args6, args7, args8; intros [= Hl]; repeat case_match; cbn [length] in Hl;
    first [exfalso; lia | by eexists] ].
Notation arity_is op n := (ARITY_MAP !! Z.to_nat op = Some n).

Section Entries.
Context (op : Z).
Lemma args0_agrees i : 0 <= op < 256 -> arity_is op 0 -> earity_of i = 0 -> arity_agrees op (args0 i).
Proof. operands. Qed.
Lemma args1_agrees k : 0 <= op < 256 -> arity_is op 1 -> (forall a, earity_of (k a) = 1) -> arity_agrees op (args1 k).
Proof. operands. Qed.
Lemma args2_agrees k : 0 <= op < 256 -> arity_is op 2 -> (forall a b, earity_of (k a b) = 2) -> arity_agrees op (args2 k).
Proof. operands. Qed.
Lemma args3_agrees k : 0 <= op < 256 -> arity_is op 3 -> (forall a b c, earity_of (k a b c) = 3) -> arity_agrees op (args3 k).
Proof. operands. Qed.
Lemma args4_agrees k : 0 <= op < 256 -> arity_is op 4 -> (forall a b c d, earity_of (k a b c d) = 4) -> arity_agrees op (args4 k).
Proof. operands. Qed.
Lemma args5_agrees k : 0 <= op < 256 -> arity_is op 5 -> (forall a b c d e, earity_of (k a b c d e) = 5) -> arity_agrees op (args5 k).
Proof. operands. Qed.
Lemma args6_agrees k : 0 <= op < 256 -> arity_is op 6 -> (forall a b c d e f, earity_of (k a b c d e f) = 6) -> arity_agrees op (args6 k).
Proof. operands. Qed.
Lemma args7_agrees k : 0 <= op < 256 -> arity_is op 7 -> (forall a b c d e f g, earity_of (k a b c d e f g) = 7) -> arity_agrees op (args7 k).
Proof. operands. Qed.
Lemma args8_agrees k : 0 <= op < 256 -> arity_is op 8 -> (forall a b c d e f g h, earity_of (k a b c d e f g h) = 8) -> arity_agrees op (args8 k).
Proof. operands. Qed.
End Entries.

Lemma dispatch_agrees : Forall (fun e => arity_agrees e.1 e.2) DISPATCH.
Proof.
  unfold DISPATCH, CALLS_AND_FRAMES, TESTS, MOVES, FUNS_AND_BITS, MAPS_AND_LATER. cbn [app].
  repeat (apply Forall_cons; split; [cbn [fst snd];
    first [apply args0_agrees | apply args1_agrees | apply args2_agrees | apply args3_agrees | apply args4_agrees
          | apply args5_agrees | apply args6_agrees | apply args7_agrees | apply args8_agrees];
    [lia | reflexivity | reflexivity]|]).
  constructor.
Qed.

Lemma find_op_in t op f : find_op t op = Some f -> (op, f) ∈ t.
Proof.
  induction t as [|[o g] t IH]; cbn [find_op]; [done|]. destruct (Z.eqb_spec o op) as [->|]; [intros [= ->]; left|]. right. auto.
Qed.
Definition dispatched (op : Z) : bool := if find_op DISPATCH op is Some _ then true else false.

Lemma find_op_agrees op f : find_op DISPATCH op = Some f -> arity_agrees op f.
Proof. intros H%find_op_in. pose proof dispatch_agrees as D. rewrite Forall_forall in D. exact (D _ H). Qed.

(** What the dispatcher makes of an opcode has the operands that the table of arities says, so
    that the handler and the fetch agree on where the next instruction is. *)
Lemma decode_arity op args i : decode op args = Some i ->
  ARITY_MAP !! Z.to_nat op = Some (earity_of i) /\ earity_of i = Z.of_nat (length args).
Proof. unfold decode. destruct (find_op DISPATCH op) as [f|] eqn:E; [|done]. apply (agrees_some op f). by apply find_op_agrees. Qed.
Lemma decode_total op args : dispatched op = true -> ARITY_MAP !! Z.to_nat op = Some (Z.of_nat (length args)) -> is_Some (decode op args).
Proof.
  unfold dispatched, decode. destruct (find_op DISPATCH op) as [f|] eqn:E; [|done]. intros _. apply (agrees_all op f). by apply find_op_agrees.
Qed.

(** ** Words *)

Lemma operands_read code ws : forall p, (forall k w, ws !! k = Some w -> code (p + 8 * Z.of_nat k) = Some w) ->
  operands_at code p (length ws) = Some (from_raw <$> ws).
Proof.
  induction ws as [|w ws IH]; intros p H; cbn [length operands_at fmap list_fmap]; [done|].
  replace (code p) with (Some w) by (symmetry; rewrite <- (H 0%nat w eq_refl); f_equal; lia). cbn [mbind option_bind].
  rewrite IH; [done|]. intros k v Hk. rewrite <- (H (S k) v Hk). f_equal. lia.
Qed.

Lemma module_word_at m k : module_word m (m_code_ptr m + 8 * Z.of_nat k) = m_code m !! k.
Proof.
  unfold module_word. rewrite (proj2 (Z.leb_le _ _)) by lia. replace (_ + 8 * Z.of_nat k - _) with (Z.of_nat k * 8) by lia.
  rewrite Z.mod_mul, Z.div_mul, Nat2Z.id by done. done.
Qed.

(** The words of a module stand where it is; no other module lies over it. *)
Definition holds_code {F} (e : Emulator F) (m : Module) : Prop := forall p w, module_word m p = Some w -> word_at e p = Some w.

Lemma fetch_block {F} (e : Emulator F) m pre op args post : holds_code e m -> m_code m = pre ++ (op :: args) ++ post ->
  0 <= op < 256 -> ARITY_MAP !! Z.to_nat op = Some (Z.of_nat (length args)) ->
  fetch_opcode (word_at e) (m_code_ptr m + 8 * Z.of_nat (length pre)) = Some (op, from_raw <$> args).
Proof.
  intros Hm Hc Ho Ha. assert (forall k w, (op :: args) !! k = Some w -> word_at e (m_code_ptr m + 8 * Z.of_nat (length pre) + 8 * Z.of_nat k) = Some w) as H.
  { intros k w Hk. apply Hm. replace (m_code_ptr m + 8 * Z.of_nat (length pre) + 8 * Z.of_nat k) with (m_code_ptr m + 8 * Z.of_nat (length pre + k)) by lia.
    rewrite module_word_at, Hc, lookup_app_r, Nat.add_sub' by lia. by apply lookup_app_l_Some. }
  unfold fetch_opcode. pose proof (H 0%nat op eq_refl) as E. rewrite Z.mul_0_r, Z.add_0_r in E. rewrite E. cbn [mbind option_bind].
  unfold from_memory_word. rewrite Z.mod_small, Ha by done. cbn [mbind option_bind]. rewrite Nat2Z.id, operands_read; [done|].
  intros k w Hk. rewrite <- (H (S k) w Hk). f_equal. lia.
Qed.

(** ** The code of a loaded program *)

(** The instructions that have words. *)
Definition code_of (prog : list instr) : list instr := filter (fun i => emitted i = true) prog.

Section Program.
Context (A Ls imps : list Term) (base lp : Z) (prog : list instr).
Notation code := (code_of prog).

Definition block (k : nat) (i : instr) : list Z :=
  match k with O => linked_instr A Ls base prog i | S _ => imported_instr A Ls imps base lp prog i end.
Definition words_before (k : nat) : Z := foldr (fun i n => 1 + Z.of_nat (length i.2) + n) 0 (take k code).

Lemma imap_imported l : forall k, imap (fun n => block (S (k + n))) l = imported_instr A Ls imps base lp prog <$> l.
Proof.
  induction l as [|i l IH]; intros k; [done|]. cbn [imap fmap list_fmap]. f_equal. rewrite <- (IH (S k)).
  apply imap_ext. intros n x _. cbn. by rewrite ?Nat.add_succ_r.
Qed.
Lemma imported_blocks : imported_words A Ls imps base lp prog prog = mjoin (imap block code).
Proof.
  unfold imported_words. fold (code_of prog). destruct (code_of prog) as [|i l]; [done|]. cbn [imap mjoin list_join]. f_equal.
  change (block ∘ S) with (fun n => block (S (0 + n))). by rewrite imap_imported.
Qed.

Lemma block_shape k i : emitted i = true -> exists t, block k i = i.1 :: t /\ length t = length i.2.
Proof.
  intros E. destruct k; cbn [block]; [|by apply imported_shape]. rewrite linked_shape by done. eexists. split; [reflexivity|]. by rewrite !length_fmap.
Qed.

Lemma code_emitted i k : code !! k = Some i -> emitted i = true /\ i ∈ prog.
Proof. intros H%list_elem_of_lookup_2. by apply list_elem_of_filter in H. Qed.

Lemma blocks_length l : (forall i, i ∈ l -> emitted i = true) -> forall k,
  Z.of_nat (length (mjoin (imap (fun n => block (k + n)) l))) = foldr (fun i n => 1 + Z.of_nat (length i.2) + n) 0 l.
Proof.
  induction l as [|i l IH]; intros He k; [done|]. cbn [imap mjoin list_join foldr]. rewrite length_app, Nat2Z.inj_add.
  destruct (block_shape (k + 0) i) as (t & -> & Ht); [apply He; left|].
  rewrite <- (IH ltac:(intros j Hj; apply He; by right) (S k)). cbn [length]. rewrite Ht.
  assert (imap ((fun n => block (k + n)) ∘ S) l = imap (fun n => block (S k + n)) l) as ->; [|unfold mjoin; lia].
  apply imap_ext. intros n x _. cbn. by rewrite Nat.add_succ_r.
Qed.

(** The words around the [k]-th instruction. *)
Lemma block_at k i : code !! k = Some i -> exists pre post,
  imported_words A Ls imps base lp prog prog = pre ++ block k i ++ post /\ Z.of_nat (length pre) = words_before k.
Proof.
  intros Hk. rewrite imported_blocks. replace (imap block code) with (imap block (take k code ++ i :: drop (S k) code)) by (by rewrite take_drop_middle).
  rewrite imap_app, join_app. cbn [imap mjoin list_join].
  eexists _, _. split; [f_equal; f_equal; f_equal|].
  - rewrite length_take. apply lookup_lt_Some in Hk. lia.
  - unfold words_before. rewrite <- (blocks_length (take k code)) with (k := 0%nat); [done|].
    intros j Hj. apply list_elem_of_lookup in Hj as [n Hn]. apply lookup_take_Some in Hn as [Hn _]. by apply (code_emitted j n).
Qed.

Lemma words_before_next k i : code !! k = Some i -> words_before (S k) = words_before k + 1 + Z.of_nat (length i.2).
Proof.
  intros Hk. unfold words_before. erewrite take_S_r by exact Hk. generalize (take k code). intros l.
  induction l as [|j l IH]; cbn [foldr app]; lia.
Qed.
End Program.


(** * A module from its file to its result *)

Module DispatchWitness.
(** [m:start/0] adds 40 and 2 with the native function of that name. *)
Definition prog : list instr :=
  [(OPCODE_LABEL, [LiteralInt 1]); (OPCODE_FUNC_INFO, [Atom 1; Atom 2; LiteralInt 0]); (OPCODE_LABEL, [LiteralInt 2]);
   (64, [LiteralInt 40; XReg 0]); (OPCODE_GC_BIF2, [Label 0; LiteralInt 1; LiteralInt 0; XReg 0; LiteralInt 2; XReg 1]);
   (19, []); (3, [])].
Definition chunks : list chunk :=
  [ChAtoms true ["m"; "start"; "erlang"; "+"]; ChCode 184 (prog_bytes prog);
   ChImports [{| mod_atom_i := 3; fun_atom_i := 4; imp_arity := 2 |}];
   ChLambdas []; ChLits None []].
Definition host : Host :=
  {| files := fun path => if bool_decide (path = "./m.beam"%string) then Some (file_bytes chunks) else None;
     inflate := ModuleWitness.inflate; regrow := ModuleWitness.regrow; code_at := fun _ => 4096; lambdas_at := fun _ => 8192;
     literal_heap := fun _ => proc EtfWitness.machine; torn := fun _ st => st; stale_at := fun _ n => replicate n 0 |}.
#[local] Instance all_natives : Natives NativePtr := run_native_ptr host 100 MainWitness.fresh.

(** The emulator with the first process, and after its first slice. *)
Definition started : vm (Emulator NativePtr) :=
  do! e := new_emulator ["."%string] in
  do! (m, st) := unwrap (from_str (emu_atoms e) "m") in
  do! (f, st) := unwrap (from_str st "start") in
  do! (_, e) := vm_create_process host 100 MainWitness.fresh m f nil 0 (with_atoms e st) in Ret e.
Definition after_slice : vm (bool * Emulator NativePtr) := do! e := started in emu_dispatch host 100 loaded_code 200 e.
Definition x1_after : vm (option Term) :=
  do! (_, e) := after_slice in Ret (p ← processes (emu_vm e) !! make_local_pid 0; regs (context p) !! 1%nat).

Lemma module_runs : x1_after = Ret (Some (make_small_signed 42)).
Proof. vm_compute. reflexivity. Qed.

(** The elements of a tuple that is put together one by one are all its arity. *)
Definition puts (_ : Z) : option Z := Some OPCODE_PUT.
Lemma put_tuple_repeats_arity : exists s, op_put_tuple puts (make_small_unsigned 2) (make_register_x 0) EtfWitness.machine = Ret (Normal, s) /\
  boxes (mem s) !! next EtfWitness.machine = Some (OTuple [make_small_signed 2; make_small_signed 2]).
Proof. eexists. split; [vm_compute; reflexivity|]. vm_compute. reflexivity. Qed.

Definition e0 : Emulator NativePtr :=
  match started with Ret e => e | _ => {| emu_vm := new_vm; emu_code := new_code_server [] ∅; emu_atoms := init_storage |} end.
Definition m0 : Module := match mods (emu_code e0) with (_, g) :: _ => curr_modp g | [] => ModuleWitness.a_module end.
Definition p0 : Process := default (proc EtfWitness.machine) (processes (emu_vm e0) !! make_local_pid 0).
Definition A : list Term := [make_atom 113; make_atom 114].

Lemma m0_holds : holds_code e0 m0.
Proof.
  assert (exists x g, mods (emu_code e0) = [(x, g)] /\ m0 = curr_modp g) as (x & g & E & Em).
  { assert (length (mods (emu_code e0)) = 1%nat) as L by (vm_compute; reflexivity). unfold m0. revert L.
    generalize (mods (emu_code e0)). intros [|[x g] [|? ?]] L; [discriminate L | | discriminate L].
    by exists x, g. }
  intros p w Hw. unfold word_at. rewrite E. cbn [word_in]. unfold generation_word. by rewrite <- Em, Hw.
Qed.

Lemma prog_fits : Forall (instr_ok (length A) 0) prog.
Proof.
  apply Forall_cons_2. { split; [done|]. split; [reflexivity|]. split; [by repeat constructor|]. split; [by repeat constructor|].
     split; [by eexists|]. by split. }
  apply Forall_cons_2. { split; [done|]. split; [reflexivity|]. split; [by repeat constructor|]. split; [by repeat constructor|].
     split; [done|]. split; [done|]. intros _. by do 3 eexists. }
  apply Forall_cons_2. { split; [done|]. split; [reflexivity|]. split; [by repeat constructor|]. split; [by repeat constructor|].
     split; [by eexists|]. by split. }
  do 3 (apply Forall_cons_2; [ split; [done|]; split; [reflexivity|]; split; [by repeat constructor|]; split; [by repeat constructor|]; done|]).
  apply Forall_cons_2; [done | by apply Forall_nil].
Qed.

End DispatchWitness.
